(* ===== verification/_CoqProject ===== *)
-Q . S2P
Prelude.v
StdMap.v
Regex.v
RString.v
Uri.v
Settings.v
Message.v
WireFacts.v
WebSocket.v
Socket.v
Resource.v
Session.v
Service.v
HttpClient.v
Checksum.v
Tuple5.v
AlSession.v
Process.v
RbTree.v
RbRep.v
RbInsert.v
RbDelete.v
RbMap.v
Table.v
Cluster.v
Member.v
Group.v
Radix.v
RadixShape.v
RadixRep.v
RadixMatch.v
RadixDec.v
RadixCtx.v
RadixAdd.v
RadixInsert.v
RadixMask.v
RadixOrder.v
RadixRoute.v
RadixLift.v
RadixDup.v
RadixAddroute.v
RadixTable.v
Prefix.v
Router.v
RouteTable.v
Filter.v
Hosts.v
Dataplane.v
Connection.v
Art.v
ArtNode.v
ArtFacts.v
ArtMap.v
ArtIter.v
Gslb.v
Slab.v
SlabRing.v
SlabInv.v
SlabHole.v
SlabPages.v
SlabChunks.v
SlabSpec.v
SlabPool.v
Loader.v
Rest.v
RestGroups.v
RestFilters.v
WebSocketFacade.v
