(* ===== verification/Prelude.v ===== *)
(** * Aware: a verification library for the load balancer and its control plane

    Aware is a layer 4 load balancer on DPDK. Its repository has four programs:

    - [alpha] (C), the data plane: worker threads receive packets, look up the
      session of their connection, rewrite and forward them; tables of filters
      (virtual services), groups of members (real servers), routes and ARP
      entries say where new connections go;
    - [restbed] (C++), the HTTP framework of the control plane: URIs, requests
      and responses, sessions over asynchronous sockets, the service with its
      routing, an HTTP client and web sockets;
    - [alpha_api] (C++), the REST handlers and the database behind them, which
      call into [alpha]'s tables;
    - [alpha_gen] (C++), a generator of configurations.

    The library models [restbed], the core of [alpha] and the loaders and REST
    handlers of [alpha_api]. Definitions carry the names of the sources; what a component calls of another component is the other
    file's definition.

    ** Files

    Foundations:
    - [Prelude]: errors ([exn], [res]), stateful code that can fail ([st], the
      state survives an exception), record update, machine integers as [Z] with
      their wrap-around, characters, tactics, hints and list lemmas;
    - [StdMap]: [std::map], [std::multimap] and [std::set] as sorted association
      lists, over the interface [KeyOrder] of a strict total order, which strings and
      integers implement;
    - [Regex]: the ECMAScript matcher of [std::regex] for the patterns in the
      sources, with the language of an expression and a proof that the matcher
      decides it.

    restbed (all paths under [restbed/source/corvusoft/restbed]):
    - [RString]: [string.cpp], module [RString];
    - [Uri]: [uri.cpp], module [Uri];
    - [Settings]: [settings.cpp] and [ssl_settings.cpp];
    - [Message]: [request.cpp], [response.cpp], [common.hpp] (modules [Common],
      [Request], [Response]) and the text they have on the wire (module [Wire]:
      [Http::to_bytes], [HttpImpl::to_bytes], and the request parser of
      [detail/service_impl.cpp]);
    - [WireFacts]: the round trip of a request over the wire;
    - [WebSocket]: [web_socket_message.cpp] (module [WebSocketMessage]), the frame
      codec and table of [detail/web_socket_manager_impl.cpp] ([Codec],
      [Manager]), the reader of [detail/web_socket_impl.cpp] ([Reader]), and RFC
      6455's frames as the specification; [WebSocketFacade]: [web_socket.cpp], sending
      over the socket's one buffer, handlers and closing;
    - [Socket]: [detail/socket_impl.cpp], operations and the timer as a step
      relation over the completions [asio] delivers;
    - [Resource]: [rule.cpp], [detail/rule_engine_impl.hpp], [resource.cpp];
    - [Session]: [session.cpp], [detail/session_impl.cpp], [session_manager.cpp]:
      operations, completions and the log of what reaches the socket and the user;
    - [Service]: [service.cpp], [detail/service_impl.cpp]: configuration (module
      [Service]), the way of a request to its handler (module [Router]) and the life
      of a session over several requests ([Life]);
    - [HttpClient]: [http.cpp], [detail/http_impl.cpp].

    alpha (all paths under [alpha]):
    - [Checksum]: [al_chksum.c], against RFC 1071 (module [Rfc1071]);
    - [Tuple5]: the session record of [al_session.h], and [al_tuple5.c], the
      tables of connections and the allocation of local ports;
    - [AlSession]: [al_session.c] over the lists of [hlist.h]: the session table
      of a thread as a heap of records, and the sweep that expires them;
    - [Process]: [al_process.c], the rewriting of a packet;
    - [RbTree]: [al_tree.c] and [al_tree.h], the red-black tree on nodes in a heap;
      [RbRep] (pure trees with a hole and how a heap represents them), [RbInsert]
      and [RbDelete] (the code's steps on the representation), [RbMap] (the
      operations as those of a finite map);
    - [Table]: records behind the nodes of such a tree, as groups and filters are;
    - [Cluster]: the loops over clusters of slots that members and filters share;
    - [Member]: [al_member.c], members of a group and the schedulers, with the loop of
      [alpha_api/conf/al_load_group.cpp] that fills a group; [Group]: the table of
      groups, loading, lookup and deletion;
    - [Radix]: [al_radix.c], the radix tree of prefixes, on nodes, mask annotations and
      byte strings in a heap; [RadixShape] (pure trees, prefixes and the climb
      that finds the longest), [RadixRep] (how a heap represents them), [RadixMatch]
      ([rn_match]), [RadixDec] (decision procedures for the invariant); insertion in
      [RadixCtx] (paths to a subtree, over the interface [ChainRep] of what hangs
      there, which keys and masks implement), [RadixAdd] (insertion on pure
      trees), [RadixInsert] ([rn_insert]), [RadixMask] ([rn_addmask] and the tree of masks),
      [RadixOrder] (the order of masks), [RadixRoute] and [RadixLift] (the lists of
      masks on inner nodes: what a new node takes over, where a new entry goes),
      [RadixDup] (chains of one key), [RadixAddroute] and [RadixTable] (the invariant
      of a table and [rn_addroute]);
    - [Prefix]: the records of a prefix table and its operations; [Router]: routes
      ([al_router.c], module [Router]) and regions ([al_geoip.c], module [Geoip]);
      [RouteTable]: lists of prefixes as the specification of these tables, and the
      refinement; [Filter]: [al_filter.c], the virtual services;
    - [Hosts]: ports and their addresses ([al_vport.c], module [Vport]), ARP
      ([al_arp.c], [Arp]), neighbour discovery ([al_icmp.c], [Icmp6]) and the ports behind
      Ethernet addresses ([al_macport.c], [Macport]);
    - [Dataplane]: [al_main_process.c], [al_ip_input.c] and [al_service.c], the way of a
      packet through all of these; [Connection]: the first packet of a connection;
    - [Art]: [al_radix_tree.c], the adaptive radix tree, on nodes that own their
      children; [ArtNode] (the four kinds of node as one map from bytes to
      children), [ArtFacts] (the invariant, and the descent of search, insertion and
      deletion), [ArtMap] (the operations as those of a finite map), [ArtIter]
      (iteration, destruction, the smallest key);
    - [Gslb]: the domain names of [al_dns.c] over this tree (module [Dns]) and
      [al_gslb_process.c] ([Gslb]), the argument of [Dataplane];
    - [Slab]: [al_slab.c] and the three calls of [al_mempool.c] over it, on one heap
      of cells; [SlabRing] (fields and circular lists), [SlabInv] (the runs a pool
      is cut into), [SlabHole] (the same around a run that is being changed),
      [SlabPages] (taking and giving back pages), [SlabChunks] (bitmaps and size
      classes), [SlabSpec] (the blocks handed out), [SlabPool] (the contract).

    alpha_api (all paths under [alpha_api]):
    - [Loader]: the conversions of [al_comm.h] and [al_ip_convert.h] (module
      [Convert]), the statements of [db/al_db.cpp] ([Db]) and the loaders of [conf]
      ([Loader]), which answer the queries of [Group];
    - [Rest]: the handlers of [rest], the answers of [al_make_msg.h], the calls of
      [al_api_impl.h] and the values of [json.h] (module [Json]), over the interface
      [Plane] of what they call in [alpha]; [RestGroups]: the handlers of groups as
      operations on a list of names, over the interface [Sqlite] of what a
      database does with their statements; [RestFilters]: insertion of a filter.

    ** How the parts interact

    A client's [HttpImpl::to_bytes] ([Message.Wire]) prints a request; the server
    reads it into a [Session] from the [Socket]'s buffer; [Service.Router] parses,
    authenticates, routes over the resources of [Resource] with [Regex] and
    [Uri], and calls the user's handler, which answers through [Session]'s
    operations; [HttpClient] reads the answer, or [WebSocket] takes the connection
    over. In the data plane a burst of packets enters [Dataplane]: a packet of a
    known connection finds its record in [AlSession], and [Process] rewrites it with
    [Checksum]'s sums; the first packet of a connection finds a filter in [Filter]
    (a prefix in [Radix], a chain in [RbTree]), a member in [Group], a route in
    [Router], a local address and the next hop's Ethernet address in [Hosts] and a
    local port in [Tuple5], and becomes a pair of records in [AlSession], which
    gives the port back when the pair expires. [Connection] puts these together.
    A DNS query takes the way through [Gslb]. At start-up [Loader] turns the rows
    of the database into the calls that fill [Group] and [Filter]; later [Rest] turns
    requests into rows and into calls of the same tables. The records of all these
    tables come from [Slab].

    ** Modelling

    Exceptions, [errno]-style failures and undefined behaviour (a read outside a
    buffer, a freed record, a null dereference) are the values of [exn]; a
    theorem that a routine does not return [Undef] is a safety theorem. User
    code (handlers, rules, predicates) and code outside the repository ([asio],
    DPDK, SQLite, [getservbyname], the compilation of patterns by [std::regex], the
    contents of fresh memory) are arguments. A call back into user code is an
    entry of a log, after which the caller may run any operation: the theorems
    quantify over such sequences. Locks of [alpha] are left out, since each
    operation is one critical section; so is the text of log messages, except
    where its formatting can fail.

    Loops that are not structural take fuel. [RString.split_loop] and
    [Wire.parse_headers_loop] are given more than the length of their input, of
    which each pass uses at least one character; [RString.replace] has a
    theorem for how much is enough, and one that no fuel is enough for a
    substitute that contains the target; [Regex]'s repetition is given the length
    of the subject, as empty iterations are rejected; [AlSession.walk] has the
    length of the bucket, and its theorem shows that no node is visited
    twice; the port allocator's bound is the code's own count of tries. The
    loops of [RbTree] and [Radix] follow pointers and have as fuel the number of
    nodes in memory: a loop that needed more would visit a node twice. Their
    theorems show that on a tree the code built it never runs out.
    The descents of [Art] take the turns a key can make, one for each of its bytes
    and one more; each turn uses a byte. [Slab.find_pages] has the number of cells,
    and its theorem shows that the list of free runs visits none twice.
    [Chksum.fold_all] gets three passes, of which two fold 32 bits to 16
    ([ChksumFacts.fold_all_ends]).

    ** What is shown

    - the HTTP path: a request printed by the client is read back by the server with
      its path decoded and, on literal routes without rules and authentication,
      reaches the handler it is meant for; a response with headers comes back whole
      however the network cuts it behind its first line; routing, handler selection
      and rules do what the interface promises; every failure ends in the error
      handler, and only what that throws leaves the parser;
    - sessions: fetched bytes, closing, headers, and that a session's operations call
      the error handler at most once; sockets: what stalls times out, and nothing
      else does;
    - web sockets: the reader refines RFC 6455's frames of fewer than 65536 octets
      and is safe on any input; what is sent one write at a time arrives;
    - text: URIs, percent coding, query parameters, splitting and replacing;
    - alpha: checksums equal RFC 1071's for every alignment and segmentation,
      forwarded TCP packets over IPv4 verify at the receiver, the port table is a map and the
      allocator complete, the session sweep is safe although it frees nodes of
      the lists it walks, the scheduler of a chain whose counts are right picks the
      heaviest member;
    - the tables: the red-black tree implements a finite map under insertion,
      deletion, lookup and iteration, stays ordered and balanced and touches
      nothing else, and the table of groups refines a map over it; [rn_addroute]
      keeps a radix tree with its mask tree and its lists well-formed, and on
      such a tree [rn_match] finds the longest prefix: the routing tables, from
      their initialisation on, refine lists of prefixes, compared in the bits the
      tables look at; filters find the longest prefix in these bits; the neighbour tables are maps and never learn an own address;
    - the adaptive radix tree: under insertion and deletion it stays well-formed and
      holds a finite map, as long as no key is a prefix of another; exactly when one
      is, insertion reads past the end of a key;
    - the slab allocator: blocks that are held never overlap and lie in the pool, a
      small request is refused only when no page is free, giving a block back takes
      exactly it, and free pages join until the pool is one run again;
    - the composition: a group of the database is loaded and answers lookups with
      one of its rows, if the memory of its node holds a zero count; the first TCP packet
      over IPv4 of a connection to a virtual service, where the tables have what it
      takes, creates the pair of sessions that later packets of both sides find and
      leaves for the member with valid checksums; a burst hands on every buffer
      exactly once, ICMPv6 packets that pass their length check twice;
    - the control plane: clients of [/v1/group] see a list of named groups, which the
      loader finds; [POST /v1/filter] enters a filter into the table and the data
      plane, or into neither;
    - where the code does not do what it means to, a theorem says what it does
      instead (masked web socket messages, long paths, [Uri::decode] of a
      trailing percent sign, three members of equal weight, a deleted member, the
      bytes of an address that routes and filters ignore, a ninth filter, IPv6
      packets, ARP requests, DNS answers that are never sent, IPv6 addresses and
      udp filters as they are loaded, responses without headers, web socket
      messages sent during a write or on a closed socket).

    ** What is not modelled, and the plan

    [asio]'s acceptors, TLS contexts, signals and threads, logging, DPDK's rings
    and devices, the process start-up of [alpha], and the vendored code are
    outside. That [rn_delete] keeps the invariant of the radix tree
    ([RadixAddroute.radix_ok]), as [rn_addroute] is shown to do, is the next step;
    deletion is evaluated on examples. The theorems on the adaptive radix tree stop at
    every read behind the end of a key, also where the code goes on with the zeros
    behind a stored one. Of the REST handlers those of groups and the insertion of
    filters have theorems; the others are modelled and wait for theirs. After them
    comes [alpha_gen]. *)

From Stdlib Require Import ZArith Lia Ascii String Bool.
From stdpp Require Import base tactics option list.

(** ** Notation scope and literals *)

Declare Scope aware_scope.
Delimit Scope aware_scope with aware.

(** A C++ [std::string] is a sequence of bytes: a list of characters. *)
Abbreviation str := (list ascii).

Definition lit (s : string) : str := list_ascii_of_string s.
Arguments lit s%_string_scope.
Notation "'<<' s '>>'" := (lit s%string) (at level 0, s at level 200, only parsing) : aware_scope.

#[global] Open Scope aware_scope.

(** ** Errors

    [throw] and [errno] style failures are values of this sum. [Undef] marks
    behaviour the language leaves undefined (an out-of-bounds read, a null
    dereference), so that a theorem that a routine never returns [Undef] is a
    memory-safety theorem. *)
Inductive exn : Type :=
| InvalidArgument (what : str)
| RuntimeError (what : str)
| OutOfRange (what : str)
| RegexError (what : str)
| StatusCode (code : Z)            (* [throw] of an [int] *)
| Foreign                          (* any other thrown value *)
| Undef.

Definition res (A : Type) : Type := (exn + A)%type.
Definition ok {A} (a : A) : res A := inr a.
Definition err {A} (e : exn) : res A := inl e.

Definition res_bind {A B} (x : res A) (f : A -> res B) : res B :=
  match x with inl e => inl e | inr a => f a end.

Notation "'let*' x ':=' c 'in' k" := (res_bind c (fun x => k))
  (at level 10, x pattern, c at level 99, k at level 200) : aware_scope.

Definition is_ok {A} (x : res A) : bool := match x with inr _ => true | inl _ => false end.

Lemma res_bind_ok {A B} (x : res A) (f : A -> res B) b :
  res_bind x f = inr b <-> exists a, x = inr a /\ f a = inr b.
Proof.
  destruct x as [e|a]; simpl; split; [done| by intros (?&?&?)|eauto|].
  intros (a'&Ha&?). by simplify_eq.
Qed.

(** Stateful code that can fail: the state survives a failure, as the fields an
    object had been given before an exception do. *)
Definition st (S A : Type) : Type := S -> res A * S.

Definition st_ret {S A} (a : A) : st S A := fun s => (inr a, s).
Definition st_throw {S A} (e : exn) : st S A := fun s => (inl e, s).
Definition st_bind {S A B} (c : st S A) (f : A -> st S B) : st S B := fun s =>
  match c s with
  | (inl e, s') => (inl e, s')
  | (inr a, s') => f a s'
  end.
Definition st_lift {S A} (x : res A) : st S A := fun s => (x, s).
Definition st_get {S} : st S S := fun s => (inr s, s).
Definition st_modify {S} (f : S -> S) : st S unit := fun s => (inr tt, f s).

Notation "'do' x '<-' c ';;' k" := (st_bind c (fun x => k))
  (at level 10, x pattern, c at level 99, k at level 200) : aware_scope.

Lemma st_bind_ok {S A B} (c : st S A) (f : A -> st S B) s a s' :
  c s = (inr a, s') -> st_bind c f s = f a s'.
Proof. intros H. unfold st_bind. by rewrite H. Qed.

Lemma st_bind_err {S A B} (c : st S A) (f : A -> st S B) s e s' :
  c s = (inl e, s') -> st_bind c f s = (inl e, s').
Proof. intros H. unfold st_bind. by rewrite H. Qed.

(** Weakest preconditions: the code does not fail from [s], and what it returns
    and leaves behind satisfies [Q]. *)
Definition wp {S A} (c : st S A) (s : S) (Q : A -> S -> Prop) : Prop :=
  match c s with (inl _, _) => False | (inr a, s') => Q a s' end.

Lemma wp_ret {S A} (a : A) (s : S) Q : Q a s -> wp (st_ret a) s Q.
Proof. done. Qed.

Lemma wp_bind {S A B} (c : st S A) (f : A -> st S B) s Q :
  wp c s (fun a s' => wp (f a) s' Q) -> wp (st_bind c f) s Q.
Proof. unfold wp, st_bind. by destruct (c s) as [[e|a] s']. Qed.

Lemma wp_get {S} (s : S) Q : Q s s -> wp st_get s Q.
Proof. done. Qed.

Lemma wp_modify {S} (f : S -> S) s Q : Q tt (f s) -> wp (st_modify f) s Q.
Proof. done. Qed.

Lemma wp_conseq {S A} (c : st S A) s (P Q : A -> S -> Prop) :
  wp c s P -> (forall a s', P a s' -> Q a s') -> wp c s Q.
Proof. unfold wp. destruct (c s) as [[e|a] s']; auto. Qed.

Lemma wp_assoc {S A B D} (c : st S A) (f : A -> st S B) (g : B -> st S D) s Q :
  wp (st_bind (st_bind c f) g) s Q -> wp (st_bind c (fun a => st_bind (f a) g)) s Q.
Proof. unfold wp, st_bind. by destruct (c s) as [[e|a] s']. Qed.

Lemma wp_run {S A} (c : st S A) s Q : wp c s Q <-> exists a s', c s = (inr a, s') /\ Q a s'.
Proof.
  unfold wp. destruct (c s) as [[e|a] s']; split; [done|by intros (?&?&?&?)|eauto|].
  intros (a' & s'' & ? & ?). by simplify_eq.
Qed.

Lemma wp_run_unit {S} (c : st S unit) s (P : S -> Prop) :
  wp c s (fun _ s' => P s') -> exists s', c s = (inr tt, s') /\ P s'.
Proof. intros ([] & s' & ? & ?)%wp_run. eauto. Qed.

(** ** Record update: [r <| field := v |>] assigns one field *)

Class FieldUpdate {R F : Type} (field : R -> F) := field_update : (F -> F) -> R -> R.

(** The update is found by taking the record apart and replacing the component
    that the projection returns. *)
Ltac build_field_update field :=
  let f := fresh "f" in let r := fresh "r" in let whole := fresh "whole" in let part := fresh "part" in
  intros f r; pose (whole := r); pose (part := field r); destruct r;
  cbv in part;
  let w := eval cbv delta [whole] in whole in
  let p := eval cbv delta [part] in part in
  clear whole part;
  match w with context C [p] => let t := context C [f p] in exact t end.

#[export] Hint Extern 0 (FieldUpdate ?field) =>
  unfold FieldUpdate; build_field_update field : typeclass_instances.

Notation "r '<|' f ':=' v '|>'" := (field_update (field := f) (fun _ => v) r)
  (at level 1, left associativity, f at level 9, v at level 99) : aware_scope.

(** ** Machine integers: unsigned [w]-bit values kept in [Z] *)

Definition wrap (w z : Z) : Z := (z mod 2 ^ w)%Z.
Definition u8 (z : Z) : Z := wrap 8 z.
Definition u16 (z : Z) : Z := wrap 16 z.
Definition u32 (z : Z) : Z := wrap 32 z.
Definition u64 (z : Z) : Z := wrap 64 z.

(** The signed reading of a [w]-bit value. *)
Definition signed (w z : Z) : Z :=
  let z := wrap w z in if (z <? 2 ^ (w - 1))%Z then z else (z - 2 ^ w)%Z.

Definition in_width (w z : Z) : Prop := (0 <= z < 2 ^ w)%Z.

Lemma wrap_bounds w z : (0 <= w)%Z -> in_width w (wrap w z).
Proof. intros. apply Z.mod_pos_bound. lia. Qed.

Lemma wrap_small w z : in_width w z -> wrap w z = z.
Proof. intros. by apply Z.mod_small. Qed.

Lemma u8_bounds z : (0 <= u8 z < 256)%Z.
Proof. apply (wrap_bounds 8 z). lia. Qed.

Lemma u8_small z : (0 <= z < 256)%Z -> u8 z = z.
Proof. intros. by apply wrap_small. Qed.

Lemma u16_small z : (0 <= z < 65536)%Z -> u16 z = z.
Proof. intros. by apply wrap_small. Qed.

Lemma u32_small z : (0 <= z < 4294967296)%Z -> u32 z = z.
Proof. intros. by apply wrap_small. Qed.

Lemma u16_bounds z : (0 <= u16 z < 65536)%Z.
Proof. apply (wrap_bounds 16 z). lia. Qed.

Lemma u32_bounds z : (0 <= u32 z < 4294967296)%Z.
Proof. apply (wrap_bounds 32 z). lia. Qed.

Lemma land_65535 z : Z.land z 65535 = u16 z.
Proof. change 65535%Z with (Z.ones 16). by rewrite Z.land_ones. Qed.

Lemma land_255 z : Z.land z 255 = u8 z.
Proof. change 255%Z with (Z.ones 8). by rewrite Z.land_ones. Qed.

Lemma lor_shiftl_add a b n : (0 <= n)%Z -> in_width n b -> Z.lor (Z.shiftl a n) b = (a * 2 ^ n + b)%Z.
Proof.
  intros Hn Hb. unfold in_width in Hb. rewrite <-Z.shiftl_mul_pow2 by done.
  assert (Z.land (Z.shiftl a n) b = 0%Z) as H0.
  { apply Z.bits_inj'. intros i Hi. rewrite Z.land_spec, Z.bits_0, Z.shiftl_spec by done.
    destruct (Z.lt_ge_cases i n).
    - by rewrite Z.testbit_neg_r by lia.
    - rewrite <-(Z.mod_small b (2 ^ n)) by done.
      rewrite Z.mod_pow2_bits_high by lia. apply andb_false_r. }
  rewrite Z.add_nocarry_lxor by done. by rewrite Z.lxor_lor.
Qed.

Lemma shiftr_land_255 v n : (0 <= n)%Z -> Z.land (Z.shiftr v n) 255 = ((v / 2 ^ n) mod 256)%Z.
Proof. intros. rewrite land_255. by rewrite Z.shiftr_div_pow2. Qed.

(** ** Characters *)

Definition code (c : ascii) : Z := Z.of_N (N_of_ascii c).
Definition chr (z : Z) : ascii := ascii_of_N (Z.to_N (u8 z)).

Lemma code_bounds c : (0 <= code c < 256)%Z.
Proof. unfold code. pose proof (N_ascii_bounded c). lia. Qed.

Lemma chr_code c : chr (code c) = c.
Proof.
  unfold chr. rewrite u8_small by apply code_bounds.
  unfold code. rewrite N2Z.id. apply ascii_N_embedding.
Qed.

Lemma code_chr z : (0 <= z < 256)%Z -> code (chr z) = z.
Proof.
  intros H. unfold chr, code. rewrite u8_small by done.
  rewrite N_ascii_embedding; lia.
Qed.

Lemma code_inj c d : code c = code d -> c = d.
Proof. intros H. rewrite <-(chr_code c), <-(chr_code d). by f_equal. Qed.

#[export] Instance ascii_eq_dec : EqDecision ascii := ascii_dec.

Definition ascii_eqb (a b : ascii) : bool := bool_decide (a = b).

(** Case analysis over all 256 characters, for facts about fixed tables. *)
Definition all_chars : list ascii := map (fun n => ascii_of_nat n) (seq 0 256).

Lemma in_all_chars c : In c all_chars.
Proof.
  unfold all_chars. apply List.in_map_iff. exists (nat_of_ascii c). split.
  - apply ascii_nat_embedding.
  - apply List.in_seq. pose proof (nat_ascii_bounded c). lia.
Qed.

Lemma forall_chars (P : ascii -> bool) :
  forallb P all_chars = true -> forall c, P c = true.
Proof. intros H c. eapply List.forallb_forall in H; eauto using in_all_chars. Qed.

Lemma forall_chars_dec (P : ascii -> Prop) `{!forall c, Decision (P c)} :
  forallb (fun c => bool_decide (P c)) all_chars = true -> forall c, P c.
Proof. intros Hall c. apply (bool_decide_eq_true_1 (P c)), (forall_chars _ Hall c). Qed.

Lemma forall_chars2 (P : ascii -> ascii -> bool) :
  forallb (fun a => forallb (P a) all_chars) all_chars = true -> forall a b, P a b = true.
Proof. intros Hall a. apply forall_chars. apply (forall_chars _ Hall a). Qed.

(** ** Generic tactics *)

(** Destruct the scrutinee of a [match] or [if] in the goal. *)
Ltac case_goal :=
  match goal with
  | |- context [match ?x with _ => _ end] => destruct x eqn:?
  end.

(** Same in a hypothesis. *)
Ltac case_hyp H :=
  match type of H with
  | context [match ?x with _ => _ end] => destruct x eqn:?
  end.

Ltac bool_simpl :=
  repeat match goal with
  | H : andb _ _ = true |- _ => apply andb_true_iff in H; destruct H
  | H : orb _ _ = false |- _ => apply orb_false_iff in H; destruct H
  | H : negb _ = true |- _ => apply negb_true_iff in H
  | H : negb _ = false |- _ => apply negb_false_iff in H
  | H : bool_decide _ = true |- _ => apply bool_decide_eq_true in H
  | H : bool_decide _ = false |- _ => apply bool_decide_eq_false in H
  | H : (_ <? _)%Z = true |- _ => apply Z.ltb_lt in H
  | H : (_ <? _)%Z = false |- _ => apply Z.ltb_ge in H
  | H : (_ <=? _)%Z = true |- _ => apply Z.leb_le in H
  | H : (_ <=? _)%Z = false |- _ => apply Z.leb_gt in H
  | H : (_ =? _)%Z = true |- _ => apply Z.eqb_eq in H
  | H : (_ =? _)%Z = false |- _ => apply Z.eqb_neq in H
  | H : (_ <? _)%nat = true |- _ => apply Nat.ltb_lt in H
  | H : (_ <? _)%nat = false |- _ => apply Nat.ltb_ge in H
  | H : (_ =? _)%nat = true |- _ => apply Nat.eqb_eq in H
  | H : (_ =? _)%nat = false |- _ => apply Nat.eqb_neq in H
  end.

(** Facts about every character, by evaluation of all 256 cases. *)
Ltac by_chars :=
  match goal with
  | |- forall c, @?P c => apply (forall_chars_dec P); vm_compute; reflexivity
  end.

(** Evaluate the powers of two that bound machine integers, then [lia]. *)
Ltac width_lia :=
  unfold in_width in *;
  change (2 ^ 8)%Z with 256%Z in *; change (2 ^ 16)%Z with 65536%Z in *;
  change (2 ^ 24)%Z with 16777216%Z in *; change (2 ^ 32)%Z with 4294967296%Z in *;
  change (2 ^ 64)%Z with 18446744073709551616%Z in *;
  lia.

Create HintDb aware.
Create Rewrite HintDb aware.
#[export] Hint Resolve u8_bounds code_bounds wrap_bounds : aware.
#[export] Hint Rewrite chr_code : aware.

(** ** Lists *)

Lemma take_app_length' {A} (l k : list A) n : n = length l -> take n (l ++ k) = l.
Proof. intros ->. apply take_app_length. Qed.

Lemma drop_app_length' {A} (l k : list A) n : n = length l -> drop n (l ++ k) = k.
Proof. intros ->. apply drop_app_length. Qed.

Lemma drop_S_app {A} (l k : list A) x : drop (S (length l)) (l ++ x :: k) = k.
Proof. induction l; simpl in *; auto. Qed.

(** The first position at or after [0] that satisfies a test: [find]. *)
Fixpoint find_index {A} (p : A -> bool) (l : list A) : option nat :=
  match l with
  | [] => None
  | x :: l => if p x then Some 0%nat else option_map S (find_index p l)
  end.

Lemma find_index_app {A} (p : A -> bool) l x k :
  forallb (fun y => negb (p y)) l = true -> p x = true ->
  find_index p (l ++ x :: k) = Some (length l).
Proof.
  induction l as [|y l IH]; simpl; intros H Hx.
  - by rewrite Hx.
  - bool_simpl. rewrite H. by rewrite IH.
Qed.

Lemma find_index_None {A} (p : A -> bool) l :
  find_index p l = None <-> forallb (fun y => negb (p y)) l = true.
Proof.
  induction l as [|y l IH]; simpl; [done|].
  destruct (p y); simpl; [done|].
  rewrite <-IH. destruct (find_index p l); simpl; split; congruence.
Qed.

Lemma filter_none {A} (P : A -> Prop) `{!forall x, Decision (P x)} (l : list A) :
  Forall (fun x => ~ P x) l -> filter P l = [].
Proof. induction 1; [done|]. by rewrite filter_cons_False. Qed.

Lemma filter_all {A} (P : A -> Prop) `{!forall x, Decision (P x)} (l : list A) :
  Forall P l -> filter P l = l.
Proof. induction 1; [done|]. rewrite filter_cons_True by done. by f_equal. Qed.
