(* ===== verification/StdMap.v ===== *)
(** * Ordered associative containers of the C++ standard library

    [std::map], [std::multimap] and [std::set] keyed by [std::string], as the
    sources use them: association lists kept in the order an iteration visits
    them. The order of keys is an interface ([KeyOrder]); strings compare
    lexicographically by unsigned character code, as [std::less<std::string>]
    does. *)

From Stdlib Require Import ZArith Lia Ascii Bool.
From stdpp Require Import base tactics option list.
From S2P Require Import Prelude.


(** ** The comparison a container is ordered by *)

Class KeyOrder (K : Type) (ltb : K -> K -> bool) : Prop := {
  ltb_irrefl : forall a, ltb a a = false;
  ltb_trans : forall a b c, ltb a b = true -> ltb b c = true -> ltb a c = true;
  ltb_total : forall a b, ltb a b = false -> ltb b a = false -> a = b }.

Fixpoint str_ltb (a b : str) : bool :=
  match a, b with
  | _, [] => false
  | [], _ :: _ => true
  | x :: a, y :: b =>
      if (code x <? code y)%Z then true
      else if (code y <? code x)%Z then false
      else str_ltb a b
  end.

Lemma str_ltb_irrefl a : str_ltb a a = false.
Proof. induction a as [|x a IH]; simpl; [done|]. by rewrite Z.ltb_irrefl. Qed.

Lemma str_ltb_trans a b c : str_ltb a b = true -> str_ltb b c = true -> str_ltb a c = true.
Proof.
  revert b c. induction a as [|x a IH]; intros [|y b] [|z c]; simpl; try done.
  repeat case_match; bool_simpl; intros; try done; try lia; eauto.
Qed.

Lemma str_ltb_total a b : str_ltb a b = false -> str_ltb b a = false -> a = b.
Proof.
  revert b. induction a as [|x a IH]; intros [|y b]; simpl; try done.
  repeat case_match; bool_simpl; intros; try done; try lia.
  f_equal; [apply code_inj; lia | auto].
Qed.

#[export] Instance str_key_order : KeyOrder str str_ltb.
Proof.
  split; eauto using str_ltb_irrefl, str_ltb_trans, str_ltb_total.
Qed.

Definition Z_ltb := Z.ltb.
#[export] Instance Z_key_order : KeyOrder Z Z.ltb.
Proof. split; intros; bool_simpl; try apply Z.ltb_irrefl; try apply Z.ltb_lt; lia. Qed.

Section Containers.
Context {K : Type} (ltb : K -> K -> bool) `{!EqDecision K}.
Context {V : Type}.

Definition keqb (a b : K) : bool := bool_decide (a = b).

(** [multimap::insert]: the new element goes at the upper bound of its key. *)
Fixpoint mm_insert (k : K) (v : V) (m : list (K * V)) : list (K * V) :=
  match m with
  | [] => [(k, v)]
  | (k', v') :: m' =>
      if ltb k k' then (k, v) :: m else (k', v') :: mm_insert k v m'
  end.

Definition mm_of_list (l : list (K * V)) : list (K * V) :=
  fold_left (fun m kv => mm_insert kv.1 kv.2 m) l [].

(** [multimap::equal_range] *)
Definition equal_range (k : K) (m : list (K * V)) : list (K * V) :=
  filter (fun kv => kv.1 = k) m.

(** [map::find], [map::at], [map::count]. *)
Fixpoint m_find (k : K) (m : list (K * V)) : option V :=
  match m with
  | [] => None
  | (k', v) :: m' => if keqb k k' then Some v else m_find k m'
  end.

Definition m_count (k : K) (m : list (K * V)) : nat := length (equal_range k m).

(** [map::operator[] =] and [map::insert] (which keeps an existing element). *)
Fixpoint m_assign (k : K) (v : V) (m : list (K * V)) : list (K * V) :=
  match m with
  | [] => [(k, v)]
  | (k', v') :: m' =>
      if keqb k k' then (k', v) :: m'
      else if ltb k k' then (k, v) :: m
      else (k', v') :: m_assign k v m'
  end.

Definition m_insert (k : K) (v : V) (m : list (K * V)) : list (K * V) :=
  match m_find k m with Some _ => m | None => m_assign k v m end.

(** [erase(key)] *)
Definition m_erase (k : K) (m : list (K * V)) : list (K * V) :=
  filter (fun kv => kv.1 <> k) m.

(** *** Invariants *)

(** Weakly increasing keys: what a multimap guarantees. *)
Fixpoint mm_sorted (m : list (K * V)) : Prop :=
  match m with
  | [] => True
  | (k, _) :: m' => Forall (fun kv => ltb kv.1 k = false) m' /\ mm_sorted m'
  end.

(** Strictly increasing keys: what a map guarantees. *)
Fixpoint m_sorted (m : list (K * V)) : Prop :=
  match m with
  | [] => True
  | (k, _) :: m' => Forall (fun kv => ltb k kv.1 = true) m' /\ m_sorted m'
  end.

Context `{!KeyOrder K ltb}.

Lemma keqb_eq a b : keqb a b = true <-> a = b.
Proof. apply bool_decide_eq_true. Qed.

Lemma keqb_refl a : keqb a a = true.
Proof. by apply keqb_eq. Qed.

Lemma keqb_ne a b : a <> b -> keqb a b = false.
Proof. apply bool_decide_eq_false. Qed.

Lemma ltb_asym a b : ltb a b = true -> ltb b a = false.
Proof.
  intros H. destruct (ltb b a) eqn:E; [|done].
  pose proof (ltb_trans _ _ _ H E) as H'. by rewrite ltb_irrefl in H'.
Qed.

Lemma ltb_ne a b : ltb a b = true -> a <> b.
Proof. intros H ->. by rewrite ltb_irrefl in H. Qed.

Lemma ltb_negtrans a b c : ltb a b = false -> ltb b c = false -> ltb a c = false.
Proof.
  intros H1 H2. destruct (ltb a c) eqn:E; [|done].
  destruct (ltb b a) eqn:E2.
  - rewrite (ltb_trans _ _ _ E2 E) in H2. done.
  - rewrite (ltb_total a b) in E by done. congruence.
Qed.

Lemma mm_insert_perm k v m : mm_insert k v m ≡ₚ (k, v) :: m.
Proof.
  induction m as [|[k' v'] m IH]; simpl; [done|].
  destruct (ltb k k'); [done|]. rewrite IH. constructor.
Qed.

Lemma mm_insert_sorted k v m : mm_sorted m -> mm_sorted (mm_insert k v m).
Proof.
  induction m as [|[k' v'] m IH]; simpl; [by split|].
  intros [Hall Hs]. destruct (ltb k k') eqn:E; simpl.
  - split; [|done]. constructor; [by apply ltb_asym|].
    eapply Forall_impl; [exact Hall|]. intros [k2 v2]; simpl. intros H.
    eapply ltb_negtrans; [exact H|]. by apply ltb_asym.
  - split; [|auto]. rewrite mm_insert_perm. by constructor.
Qed.

Lemma mm_of_list_app m l k v :
  fold_left (fun m kv => mm_insert kv.1 kv.2 m) (l ++ [(k, v)]) m =
  mm_insert k v (fold_left (fun m kv => mm_insert kv.1 kv.2 m) l m).
Proof. by rewrite fold_left_app. Qed.

Lemma mm_of_list_sorted l : mm_sorted (mm_of_list l).
Proof.
  unfold mm_of_list. induction l as [|[k v] l IH] using rev_ind; simpl; [done|].
  rewrite mm_of_list_app. by apply mm_insert_sorted.
Qed.

Lemma mm_of_list_perm l : mm_of_list l ≡ₚ l.
Proof.
  unfold mm_of_list. induction l as [|[k v] l IH] using rev_ind; simpl; [done|].
  rewrite mm_of_list_app, mm_insert_perm, IH. by rewrite Permutation_app_comm.
Qed.

(** Elements with equal keys keep the order of their insertion. *)
Lemma equal_range_insert_eq k v m :
  mm_sorted m -> equal_range k (mm_insert k v m) = equal_range k m ++ [(k, v)].
Proof.
  unfold equal_range. induction m as [|[k' v'] m IH]; simpl.
  - intros _. by rewrite filter_cons_True.
  - intros [Hall Hs]. destruct (ltb k k') eqn:E.
    + assert (filter (fun kv => kv.1 = k) ((k', v') :: m) = []) as ->.
      { apply filter_none. constructor; simpl.
        - intros ->. by rewrite ltb_irrefl in E.
        - eapply Forall_impl; [exact Hall|]. intros [k2 v2]; simpl. intros H ->.
          congruence. }
      rewrite filter_cons_True by done. simpl. f_equal.
      apply filter_none. constructor; simpl.
      * intros ->. by rewrite ltb_irrefl in E.
      * eapply Forall_impl; [exact Hall|]. intros [k2 v2]; simpl. intros H ->. congruence.
    + rewrite !filter_cons. case_decide; rewrite IH by done; done.
Qed.

Lemma equal_range_insert_ne k k' v m :
  k' <> k -> equal_range k' (mm_insert k v m) = equal_range k' m.
Proof.
  intros Hne. unfold equal_range. induction m as [|[k2 v2] m IH]; simpl.
  - by rewrite filter_cons_False.
  - destruct (ltb k k2).
    + rewrite filter_cons_False by (simpl; congruence). done.
    + rewrite !filter_cons. case_decide; by rewrite IH.
Qed.

Lemma equal_range_of_list k l :
  equal_range k (mm_of_list l) = filter (fun kv => kv.1 = k) l.
Proof.
  unfold mm_of_list. induction l as [|[k' v] l IH] using rev_ind; [done|].
  rewrite mm_of_list_app, filter_app. simpl.
  destruct (decide (k' = k)) as [->|Hne].
  - rewrite equal_range_insert_eq by apply mm_of_list_sorted.
    rewrite IH. rewrite (filter_cons_True _ (k, v)) by done. done.
  - rewrite equal_range_insert_ne by done. rewrite IH.
    rewrite (filter_cons_False _ (k', v)) by (simpl; congruence).
    by rewrite app_nil_r.
Qed.

(** *** Unique-key maps *)

Lemma m_find_assign_eq k v m : m_find k (m_assign k v m) = Some v.
Proof.
  induction m as [|[k' v'] m IH]; simpl.
  - by rewrite keqb_refl.
  - destruct (keqb k k') eqn:E; simpl; [by rewrite E|].
    destruct (ltb k k'); simpl; [by rewrite keqb_refl|]. by rewrite E.
Qed.

Lemma m_find_assign_ne k k' v m : k' <> k -> m_find k' (m_assign k v m) = m_find k' m.
Proof.
  intros Hne. induction m as [|[k2 v2] m IH]; simpl.
  - by rewrite keqb_ne.
  - destruct (keqb k k2) eqn:E; simpl.
    + apply keqb_eq in E as <-. by rewrite keqb_ne.
    + destruct (ltb k k2); simpl; [by rewrite (keqb_ne k' k)|]. by rewrite IH.
Qed.

Lemma m_assign_Forall (P : K -> Prop) k v m :
  P k -> Forall (fun kv => P kv.1) m -> Forall (fun kv => P kv.1) (m_assign k v m).
Proof.
  intros Hk. induction 1 as [|[k' v'] m Hh Ht IH]; simpl.
  - by constructor.
  - destruct (keqb k k'); [by constructor|].
    destruct (ltb k k'); by repeat constructor.
Qed.

Lemma m_assign_sorted k v m : m_sorted m -> m_sorted (m_assign k v m).
Proof.
  induction m as [|[k' v'] m IH]; simpl; [by split|].
  intros [Hall Hs]. destruct (keqb k k') eqn:E; simpl; [done|].
  destruct (ltb k k') eqn:E2; simpl.
  - split; [|done]. constructor; [done|].
    eapply Forall_impl; [exact Hall|]. intros [k2 v2]; simpl. eauto using ltb_trans.
  - split; [|auto]. apply (m_assign_Forall (fun x => ltb k' x = true)); [|done].
    destruct (ltb k' k) eqn:E3; [done|].
    rewrite (ltb_total k k') in E by done. by rewrite keqb_refl in E.
Qed.

Lemma m_insert_sorted k v m : m_sorted m -> m_sorted (m_insert k v m).
Proof. unfold m_insert. case_match; auto using m_assign_sorted. Qed.

Lemma m_find_insert_eq k v m :
  m_find k (m_insert k v m) = Some (default v (m_find k m)).
Proof.
  unfold m_insert. destruct (m_find k m) eqn:E; simpl; [done|].
  apply m_find_assign_eq.
Qed.

Lemma m_find_insert_ne k k' v m : k' <> k -> m_find k' (m_insert k v m) = m_find k' m.
Proof. intros. unfold m_insert. case_match; auto using m_find_assign_ne. Qed.

Lemma m_find_erase_eq k m : m_find k (m_erase k m) = None.
Proof.
  unfold m_erase. induction m as [|[k' v'] m IH]; simpl; [done|].
  rewrite filter_cons. case_decide; simpl; [|done].
  by rewrite keqb_ne by (simpl in *; congruence).
Qed.

Lemma m_find_erase_ne k k' m : k' <> k -> m_find k' (m_erase k m) = m_find k' m.
Proof.
  intros Hne. unfold m_erase. induction m as [|[k2 v'] m IH]; simpl; [done|].
  rewrite filter_cons. case_decide; simpl; [by rewrite IH|].
  rewrite keqb_ne; [done|]. simpl in *.
  destruct (decide (k2 = k)); [congruence|tauto].
Qed.

Lemma m_erase_sorted k m : m_sorted m -> m_sorted (m_erase k m).
Proof.
  unfold m_erase. induction m as [|[k' v'] m IH]; simpl; [done|].
  intros [Hall Hs]. rewrite filter_cons. case_decide; simpl; [|auto].
  split; [|auto]. apply Forall_forall. intros x Hx.
  apply list_elem_of_filter in Hx as [_ Hx]. by rewrite Forall_forall in Hall; apply Hall.
Qed.

Lemma m_find_In k v m : m_find k m = Some v -> (k, v) ∈ m.
Proof.
  induction m as [|[k' v'] m IH]; simpl; [done|].
  destruct (keqb k k') eqn:E; intros H.
  - apply keqb_eq in E as ->. simplify_eq. apply list_elem_of_here.
  - apply list_elem_of_further. auto.
Qed.
End Containers.

Arguments equal_range {K _ V} k m.
Arguments m_find {K _ V} k m.
Arguments m_erase {K _ V} k m.
Arguments m_count {K _ V} k m.
Arguments keqb {K _} a b.

(** Containers keyed by strings. *)
Abbreviation smap V := (list (str * V)).
Abbreviation smm_insert := (mm_insert str_ltb).
Abbreviation sm_assign := (m_assign str_ltb).
Abbreviation sm_insert := (m_insert str_ltb).

#[export] Hint Resolve mm_insert_sorted mm_of_list_sorted m_assign_sorted
  m_insert_sorted m_erase_sorted : aware.

(** Re-inserting the elements of a multimap in iteration order rebuilds it. *)
Section Rebuild.
Context {K : Type} (ltb : K -> K -> bool) `{!EqDecision K} {V : Type} `{!KeyOrder K ltb}.

Lemma mm_insert_last (k : K) (v : V) m :
  Forall (fun kv => ltb k kv.1 = false) m -> mm_insert ltb k v m = m ++ [(k, v)].
Proof.
  induction 1 as [|[k' v'] m Hk Hm IH]; simpl in *; [done|]. rewrite Hk. by rewrite IH.
Qed.

Lemma mm_sorted_snoc (m : list (K * V)) kv :
  mm_sorted ltb (m ++ [kv]) -> mm_sorted ltb m /\ Forall (fun x => ltb kv.1 x.1 = false) m.
Proof.
  induction m as [|[k v] m IH]; simpl; [by split|].
  intros [Hall [Hs Hf]%IH]. apply Forall_app in Hall as [Hm Hlast].
  inversion Hlast; subst.
  split; [done|]. by constructor.
Qed.

Lemma mm_of_list_id (m : list (K * V)) : mm_sorted ltb m -> mm_of_list ltb m = m.
Proof.
  unfold mm_of_list. induction m as [|[k v] m IH] using rev_ind; [done|].
  intros [Hs Hf]%mm_sorted_snoc. rewrite mm_of_list_app, IH by done.
  by apply mm_insert_last.
Qed.
End Rebuild.
