(* ===== verification/Regex.v ===== *)
(** * std::regex (ECMAScript grammar), as the sources use it

    A backtracking matcher with capture groups, in continuation-passing style:
    alternatives are tried left to right, quantifiers are greedy, and an
    iteration that consumes nothing is rejected, as ECMA-262 (21.2.2.5.1)
    prescribes. The language of an expression is given independently
    ([lang]); the matcher decides it. *)

From Stdlib Require Import ZArith Lia Ascii String Bool.
From stdpp Require Import base tactics option list.
From S2P Require Import Prelude.

Module Regex.

Inductive re : Type :=
| Eps
| Cls (p : ascii -> bool)          (* a character class or a literal character *)
| Cat (r1 r2 : re)
| Alt (r1 r2 : re)
| Opt (r : re)                     (* r? *)
| Star (r : re)                    (* r* *)
| Grp (n : nat) (r : re).          (* the n-th capture group *)

Definition Plus (r : re) : re := Cat r (Star r).

Fixpoint Lit (s : str) : re :=
  match s with [] => Eps | c :: s => Cat (Cls (ascii_eqb c)) (Lit s) end.

Fixpoint Cats (rs : list re) : re :=
  match rs with [] => Eps | [r] => r | r :: rs => Cat r (Cats rs) end.

(** Captures: [match[ n ]], empty when the group did not take part. *)
Abbreviation caps := (list (nat * str)).

Fixpoint cap (n : nat) (c : caps) : str :=
  match c with
  | [] => []
  | (k, s) :: c => if (k =? n)%nat then s else cap n c
  end.

Section Matcher.
Context {A : Type}.
Definition cont := str -> caps -> option A.

Definition orelse (x y : option A) : option A := match x with Some _ => x | None => y end.

(** The iterations of [r*]: [body] matches one [r] and continues. *)
Fixpoint star_loop (body : str -> caps -> cont -> option A) (k : cont)
    (fuel : nat) (s : str) (c : caps) : option A :=
  match fuel with
  | O => k s c
  | S fuel =>
      orelse
        (body s c (fun s1 c1 =>
           if (length s1 <? length s)%nat then star_loop body k fuel s1 c1 else None))
        (k s c)
  end.

Fixpoint run (r : re) (s : str) (c : caps) (k : cont) {struct r} : option A :=
  match r with
  | Eps => k s c
  | Cls p => match s with [] => None | a :: s' => if p a then k s' c else None end
  | Cat r1 r2 => run r1 s c (fun s1 c1 => run r2 s1 c1 k)
  | Alt r1 r2 => orelse (run r1 s c k) (run r2 s c k)
  | Opt r1 =>
      orelse
        (run r1 s c (fun s1 c1 => if (length s1 <? length s)%nat then k s1 c1 else None))
        (k s c)
  | Star r1 => star_loop (run r1) k (length s) s c
  | Grp n r1 => run r1 s c (fun s1 c1 => k s1 ((n, take (length s - length s1) s) :: c1))
  end.
End Matcher.

(** [regex_match]: the whole input. *)
Definition regex_match (r : re) (s : str) : option caps :=
  run r s [] (fun s' c => match s' with [] => Some c | _ => None end).

(** [regex_search] with a pattern that begins with [^]: a match at the start. *)
Definition regex_search_anchored (r : re) (s : str) : option caps :=
  run r s [] (fun _ c => Some c).

(** [regex_search]: the leftmost match. *)
Fixpoint regex_search (r : re) (s : str) : option caps :=
  orelse (regex_search_anchored r s)
    match s with [] => None | _ :: s => regex_search r s end.

(** ** The language of an expression *)

Inductive lang : re -> str -> Prop :=
| L_Eps : lang Eps []
| L_Cls p a : p a = true -> lang (Cls p) [a]
| L_Cat r1 r2 s1 s2 : lang r1 s1 -> lang r2 s2 -> lang (Cat r1 r2) (s1 ++ s2)
| L_AltL r1 r2 s : lang r1 s -> lang (Alt r1 r2) s
| L_AltR r1 r2 s : lang r2 s -> lang (Alt r1 r2) s
| L_OptNone r : lang (Opt r) []
| L_OptSome r s : lang r s -> lang (Opt r) s
| L_StarNil r : lang (Star r) []
| L_StarCons r s1 s2 : lang r s1 -> lang (Star r) s2 -> lang (Star r) (s1 ++ s2)
| L_Grp n r s : lang r s -> lang (Grp n r) s.

(** A continuation whose success does not depend on the captures. *)
Definition blind {A} (k : @cont A) : Prop := forall s c c', is_Some (k s c) <-> is_Some (k s c').

(** [k] succeeds on some remainder of [s] after a word of [r]. *)
Definition splits {A} (r : re) (s : str) (k : @cont A) : Prop :=
  exists s1 s2, s = s1 ++ s2 /\ lang r s1 /\ is_Some (k s2 []).

Lemma orelse_is_Some {A} (x y : option A) : is_Some (orelse x y) <-> is_Some x \/ is_Some y.
Proof. destruct x; simpl; split; eauto; intros [|]; eauto. by apply is_Some_None in H. Qed.

Lemma blind_if {A} (k : @cont A) n : blind k -> blind (fun s c => if (length s <? n)%nat then k s c else None).
Proof. intros H s c c'. case_match; [apply H|done]. Qed.

Section Star.
Variable r : re.
Hypothesis IHr : forall B s c (k : @cont B), blind k -> is_Some (run r s c k) <-> splits r s k.
Context {A : Type}.

Lemma star_loop_blind (k : @cont A) fuel : blind k -> blind (fun s c => star_loop (run r) k fuel s c).
Proof.
  intros Hk. induction fuel as [|fuel IH]; intros s c c'; simpl; [apply Hk|].
  rewrite !orelse_is_Some. rewrite !IHr by (apply blind_if, IH). by rewrite (Hk s c c').
Qed.

Lemma star_loop_sound (k : @cont A) fuel s c :
  blind k -> is_Some (star_loop (run r) k fuel s c) -> splits (Star r) s k.
Proof.
  intros Hk. revert s c. induction fuel as [|fuel IH]; intros s c; simpl.
  - intros H. exists [], s. split_and!; [done|constructor|]. by apply (Hk s c).
  - rewrite orelse_is_Some. intros [H|H].
    + apply IHr in H; [|by apply blind_if, star_loop_blind].
      destruct H as (s1 & s2 & -> & Hl & Hs). case_match; [|by apply is_Some_None in Hs].
      apply IH in Hs as (s3 & s4 & -> & Hl' & Hs).
      exists (s1 ++ s3), s4. rewrite <-app_assoc. split_and!; [done| |done].
      by constructor.
    + exists [], s. split_and!; [done|constructor|]. by apply (Hk s c).
Qed.

Lemma star_loop_complete (k : @cont A) s1 :
  blind k -> lang (Star r) s1 ->
  forall s2 fuel c, length (s1 ++ s2) <= fuel -> is_Some (k s2 []) ->
  is_Some (star_loop (run r) k fuel (s1 ++ s2) c).
Proof.
  intros Hk Hl. remember (Star r) as sr eqn:Hsr. induction Hl; try done; simplify_eq.
  - intros s2 fuel c Hf Hs. destruct fuel; simpl; [by apply (Hk s2 [] c)|].
    apply orelse_is_Some. right. by apply (Hk s2 [] c).
  - intros s3 fuel c Hf Hs. destruct s1 as [|a s1]; [by apply IHHl2|].
    rewrite !length_app in Hf. simpl in Hf. destruct fuel as [|fuel]; [lia|]. simpl.
    apply orelse_is_Some. left.
    apply (IHr A ((a :: s1 ++ s2) ++ s3)); [by apply blind_if, star_loop_blind|].
    exists (a :: s1), (s2 ++ s3). simpl. rewrite <-app_assoc. split_and!; [done|done|].
    rewrite !length_app.
    rewrite (proj2 (Nat.ltb_lt _ _)) by lia. apply IHHl2; [done| |done].
    rewrite length_app. lia.
Qed.
End Star.

Lemma run_decides r A s c (k : @cont A) : blind k -> is_Some (run r s c k) <-> splits r s k.
Proof.
  revert A s c k. induction r as [|p|r1 IH1 r2 IH2|r1 IH1 r2 IH2|r IH|r IH|n r IH];
    intros A s c k Hk; simpl.
  - split.
    + intros H. exists [], s. split_and!; [done|constructor|by apply (Hk s c)].
    + intros (s1 & s2 & -> & Hl & Hs). inversion Hl; subst. by apply (Hk s2 []).
  - split.
    + destruct s as [|a s]; [by intros ?%is_Some_None|]. destruct (p a) eqn:E; [|by intros ?%is_Some_None].
      intros H. exists [a], s. split_and!; [done|by constructor|by apply (Hk s c)].
    + intros (s1 & s2 & -> & Hl & Hs). inversion Hl; subst. simpl.
      match goal with H : p _ = true |- _ => rewrite H end. by apply (Hk s2 []).
  - rewrite (IH1 A s c).
    2: { intros s' c' c''. rewrite !IH2 by done. done. }
    split.
    + intros (s1 & s2 & -> & Hl & Hs). apply IH2 in Hs; [|done].
      destruct Hs as (s3 & s4 & -> & Hl' & Hs). exists (s1 ++ s3), s4.
      rewrite <-app_assoc. split_and!; [done|by constructor|done].
    + intros (s1 & s2 & -> & Hl & Hs). inversion Hl; subst. rewrite <-app_assoc.
      eexists _, _. split_and!; [done|done|]. apply IH2; [done|].
      eexists _, _. by split_and!.
  - rewrite orelse_is_Some, IH1, IH2 by done. split.
    + intros [(s1 & s2 & -> & Hl & Hs)|(s1 & s2 & -> & Hl & Hs)];
        exists s1, s2; split_and!; try done; by constructor.
    + intros (s1 & s2 & -> & Hl & Hs). inversion Hl; subst; [left|right]; by exists s1, s2.
  - rewrite orelse_is_Some, IH by (by apply blind_if). split.
    + intros [(s1 & s2 & -> & Hl & Hs)|H].
      * case_match; [|by apply is_Some_None in Hs]. exists s1, s2. split_and!; try done. by constructor.
      * exists [], s. split_and!; [done|constructor|by apply (Hk s c)].
    + intros (s1 & s2 & -> & Hl & Hs). inversion Hl; subst.
      * right. by apply (Hk s2 []).
      * destruct s1 as [|a s1]; [right; by apply (Hk s2 [])|].
        left. exists (a :: s1), s2. split_and!; try done. rewrite length_app. simpl.
        by rewrite (proj2 (Nat.ltb_lt _ _)) by lia.
  - split.
    + by apply star_loop_sound.
    + intros (s1 & s2 & -> & Hl & Hs). by apply star_loop_complete.
  - rewrite IH by (intros s' c' c''; apply Hk). split.
    + intros (s1 & s2 & -> & Hl & Hs). exists s1, s2. split_and!; [done|by constructor|].
      by eapply Hk.
    + intros (s1 & s2 & -> & Hl & Hs). inversion Hl; subst. exists s1, s2. split_and!; [done|done|].
      by eapply Hk.
Qed.

(** The matcher accepts exactly the language of the expression. *)
Lemma regex_match_lang r s : is_Some (regex_match r s) <-> lang r s.
Proof.
  unfold regex_match. rewrite run_decides.
  2: { intros s' c c'. destruct s'; simpl; split; eauto. }
  split.
  - intros (s1 & s2 & -> & Hl & Hs). destruct s2; [by rewrite app_nil_r|by apply is_Some_None in Hs].
  - intros Hl. exists s, []. rewrite app_nil_r. split_and!; eauto.
Qed.

(** ** Deterministic evaluation of the shapes the sources use *)

Section Greedy.
Context {A : Type}.
Implicit Types k : @cont A.

Definition stops (p : ascii -> bool) (s : str) : Prop :=
  match s with [] => True | a :: _ => p a = false end.

Lemma orelse_Some (x y : option A) v : x = Some v -> orelse x y = Some v.
Proof. by intros ->. Qed.

(** A greedy class loop consumes the longest run of the class, and keeps it
    when the rest of the expression matches after it. *)
Lemma run_star_cls p s1 s2 c k v :
  forallb p s1 = true -> stops p s2 -> k s2 c = Some v ->
  run (Star (Cls p)) (s1 ++ s2) c k = Some v.
Proof.
  intros Hp Hs Hk. simpl.
  enough (forall fuel, length (s1 ++ s2) <= fuel ->
    star_loop (run (Cls p)) k fuel (s1 ++ s2) c = Some v) as H by (by apply H).
  induction s1 as [|a s1 IH]; simpl in *; intros fuel Hf.
  - destruct fuel as [|fuel]; simpl; [done|]. destruct s2 as [|a s2]; simpl; [done|].
    by rewrite Hs.
  - bool_simpl. destruct fuel as [|fuel]; [lia|]. simpl. rewrite H.
    apply orelse_Some. rewrite (proj2 (Nat.ltb_lt _ _)) by lia. apply IH; [done|lia].
Qed.

Lemma run_plus_cls p s1 s2 c k v :
  s1 <> [] -> forallb p s1 = true -> stops p s2 -> k s2 c = Some v ->
  run (Plus (Cls p)) (s1 ++ s2) c k = Some v.
Proof.
  intros Hne Hp Hs Hk. destruct s1 as [|a s1]; [done|]. cbn [Plus run app]. simpl in Hp. bool_simpl.
  rewrite H. by apply (run_star_cls p s1 s2).
Qed.

Lemma run_lit l s c k : run (Lit l) (l ++ s) c k = k s c.
Proof. induction l as [|a l IH]; simpl; [done|]. unfold ascii_eqb. by rewrite bool_decide_true. Qed.

Lemma run_cat r1 r2 s c k : run (Cat r1 r2) s c k = run r1 s c (fun s1 c1 => run r2 s1 c1 k).
Proof. done. Qed.

Lemma run_grp n r s c k :
  run (Grp n r) s c k = run r s c (fun s1 c1 => k s1 ((n, take (length s - length s1) s) :: c1)).
Proof. done. Qed.

Lemma take_consumed (s1 s2 : str) : take (length (s1 ++ s2) - length s2) (s1 ++ s2) = s1.
Proof. apply take_app_length'. rewrite length_app. lia. Qed.

(** A capture group around a greedy class loop captures that run. *)
Lemma run_grp_star p n s1 s2 c k v :
  forallb p s1 = true -> stops p s2 -> k s2 ((n, s1) :: c) = Some v ->
  run (Grp n (Star (Cls p))) (s1 ++ s2) c k = Some v.
Proof.
  intros Hp Hs Hk. rewrite run_grp. apply run_star_cls; [done|done|]. by rewrite take_consumed.
Qed.

Lemma run_grp_plus p n s1 s2 c k v :
  s1 <> [] -> forallb p s1 = true -> stops p s2 -> k s2 ((n, s1) :: c) = Some v ->
  run (Grp n (Plus (Cls p))) (s1 ++ s2) c k = Some v.
Proof.
  intros Hne Hp Hs Hk. rewrite run_grp. apply run_plus_cls; [done|done|done|]. by rewrite take_consumed.
Qed.
End Greedy.

(** ** Character classes *)

Definition between (lo hi : Z) (c : ascii) : bool := ((lo <=? code c) && (code c <=? hi))%Z.
Definition is_digit : ascii -> bool := between 48 57.
Definition is_alpha (c : ascii) : bool := between 97 122 c || between 65 90 c.
Definition is_alnum (c : ascii) : bool := is_alpha c || is_digit c.
Definition one_of (s : string) (c : ascii) : bool := existsb (ascii_eqb c) (lit s).
Arguments one_of s%_string_scope c.
Definition not_of (s : string) (c : ascii) : bool := negb (one_of s c).
Arguments not_of s%_string_scope c.

(** [\s]: space, tab, line feed, vertical tab, form feed, carriage return. *)
Definition is_space (c : ascii) : bool := (code c =? 32)%Z || between 9 13 c.
(** [.]: every character but the line terminators. *)
Definition is_dot (c : ascii) : bool := negb ((code c =? 10)%Z || (code c =? 13)%Z).

End Regex.
