(* ===== verification/RString.v ===== *)
(** * restbed: the [String] utility class

    Models [restbed/source/corvusoft/restbed/string.cpp]. Positions are list
    indices; [std::string::npos] is [None]; loops whose recursion is not
    structural take fuel, and their termination theorems say how much is
    enough. *)

From Stdlib Require Import ZArith Lia Ascii String Bool.
From stdpp Require Import base tactics option list.
From S2P Require Import Prelude StdMap.

Module RString.

(** ** Conversions *)

(** [Bytes] is a [vector<uint8_t>]: a list of byte values. *)
Definition to_bytes (value : str) : list Z := map code value.
Definition to_string (value : list Z) : str := map chr value.

Definition tolower (c : ascii) : ascii :=
  if ((65 <=? code c) && (code c <=? 90))%Z then chr (code c + 32) else c.
Definition toupper (c : ascii) : ascii :=
  if ((97 <=? code c) && (code c <=? 122))%Z then chr (code c - 32) else c.

Definition lowercase (value : str) : str := map tolower value.
Definition uppercase (value : str) : str := map toupper value.

(** What a C function sees of a [char*]: the characters before the first NUL. *)
Fixpoint c_str (s : str) : str :=
  match s with
  | [] => []
  | c :: s => if (code c =? 0)%Z then [] else c :: c_str s
  end.

(** [String::format]. The text [rendered] is what [vsnprintf] would produce
    with an unlimited buffer. The first call has room for 1024 characters; a
    longer text makes the code call [vsnprintf] again with the [va_list] the
    first call has consumed, which the C standard leaves undefined. *)
Definition format (rendered : str) : res str :=
  let length := 1024%Z in
  let required_length := Z.of_nat (List.length rendered) in
  if (length <? required_length)%Z then err Undef else ok (c_str rendered).

(** ** split *)

(** [value.find(delimiter, start)] on the suffix that begins at [start]. *)
Definition find_char (d : ascii) (s : str) : option nat := find_index (ascii_eqb d) s.

Definition push_nonempty (tokens : list str) (t : str) : list str :=
  match t with [] => tokens | _ => tokens ++ [t] end.

Fixpoint split_loop (fuel : nat) (rest : str) (d : ascii) (tokens : list str) : option (list str) :=
  match fuel with
  | O => None
  | S fuel =>
      match find_char d rest with
      | Some e => split_loop fuel (drop (S e) rest) d (push_nonempty tokens (take e rest))
      | None => Some (push_nonempty tokens rest)
      end
  end.

Definition split (value : str) (delimiter : ascii) : list str :=
  default [] (split_loop (S (length value)) value delimiter []).

(** ** join *)

(** [find_last_not_of(delimiter)]: the delimiter is a set of characters here. *)
Fixpoint find_last_not_of (set s : str) : option nat :=
  match s with
  | [] => None
  | c :: s' =>
      match find_last_not_of set s' with
      | Some i => Some (S i)
      | None => if bool_decide (c ∈ set) then None else Some 0%nat
      end
  end.

Definition join (values : list (str * str)) (pair_delimiter delimiter : str) : str :=
  let result := concat (map (fun v => v.1 ++ pair_delimiter ++ v.2 ++ delimiter) values) in
  match find_last_not_of delimiter result with
  | Some position => take (S position) result
  | None => result
  end.

(** ** replace and remove *)

(** Whether the (escaped, hence literal) pattern matches at the head of [s]. *)
Fixpoint lit_prefix (icase : bool) (target s : str) : bool :=
  match target, s with
  | [], _ => true
  | _ :: _, [] => false
  | t :: target, c :: s =>
      (if icase then ascii_eqb (tolower t) (tolower c) else ascii_eqb t c)
      && lit_prefix icase target s
  end.

(** [regex_search] with a literal pattern. *)
Fixpoint search_lit (icase : bool) (target s : str) : bool :=
  lit_prefix icase target s ||
  match s with [] => false | _ :: s => search_lit icase target s end.

(** The replacement text of one match: the ECMAScript format string. [$$] is a dollar,
    [$&] the matched text, [$`] and [$'] what lies between the last match and this
    one and what follows this one; a dollar and one or two digits is the
    text of that group. A literal pattern has only the group 0, the whole match; others
    are empty. *)
Definition format_digit (c : ascii) : bool := bool_decide (48 <= code c <= 57)%Z.
Fixpoint expand (substitute prefix matched suffix : str) : str :=
  match substitute with
  | [] => []
  | c :: rest =>
      if ascii_eqb c "$"%char then
        match rest with
        | d :: rest' =>
            if ascii_eqb d "$"%char then "$"%char :: expand rest' prefix matched suffix
            else if ascii_eqb d "&"%char then matched ++ expand rest' prefix matched suffix
            else if ascii_eqb d "`"%char then prefix ++ expand rest' prefix matched suffix
            else if ascii_eqb d "'"%char then suffix ++ expand rest' prefix matched suffix
            else if format_digit d then
              match rest' with
              | e :: rest'' =>
                  if format_digit e
                  then (if ascii_eqb d "0"%char && ascii_eqb e "0"%char then matched else []) ++ expand rest'' prefix matched suffix
                  else (if ascii_eqb d "0"%char then matched else []) ++ expand rest' prefix matched suffix
              | [] => if ascii_eqb d "0"%char then matched else []
              end
            else c :: expand rest prefix matched suffix
        | [] => [c]
        end
      else c :: expand rest prefix matched suffix
  end.

(** [regex_replace]: one left-to-right pass over the non-overlapping matches.
    [prefix] is what was passed since the last one; [skip] counts the characters of
    the current match still to be consumed. *)
Fixpoint replace_from (icase : bool) (target substitute prefix s : str) (skip : nat) : str :=
  match s with
  | [] => []
  | c :: s' =>
      match skip with
      | S skip => replace_from icase target substitute [] s' skip
      | O =>
          if lit_prefix icase target s then
            expand substitute prefix (take (length target) s) (drop (length target) s)
            ++ replace_from icase target substitute [] s' (pred (length target))
          else c :: replace_from icase target substitute (prefix ++ [c]) s' 0
      end
  end.
Definition replace_pass (icase : bool) (target substitute s : str) : str := replace_from icase target substitute [] s 0.

Example formats : expand (lit "[$`|$&|$'|$$|$0|$1]") (lit "ab") (lit "x") (lit "cd") = lit "[ab|x|cd|$|x|]".
Proof. reflexivity. Qed.

(** [while ( regex_search( result, ... ) ) result = regex_replace( result, ... )] *)
Fixpoint replace_loop (fuel : nat) (icase : bool) (target substitute result : str) : option str :=
  match fuel with
  | O => None
  | S fuel =>
      if search_lit icase target result
      then replace_loop fuel icase target substitute (replace_pass icase target substitute result)
      else Some result
  end.

Definition replace (fuel : nat) (target substitute value : str) (icase : bool) : option str :=
  match target with
  | [] => Some value
  | _ => replace_loop fuel icase target substitute value
  end.

Definition remove (fuel : nat) (target value : str) (icase : bool) : option str :=
  replace fuel target [] value icase.

(** ** Conversions: lemmas *)

Lemma to_string_to_bytes s : to_string (to_bytes s) = s.
Proof.
  unfold to_string, to_bytes. rewrite map_map. rewrite <-(map_id s) at 2.
  apply map_ext. intros. apply chr_code.
Qed.

Lemma to_bytes_to_string b :
  Forall (fun z => 0 <= z < 256)%Z b -> to_bytes (to_string b) = b.
Proof.
  unfold to_string, to_bytes. induction 1; simpl; [done|].
  rewrite code_chr by done. congruence.
Qed.

Lemma tolower_idem c : tolower (tolower c) = tolower c.
Proof.
  revert c. by_chars.
Qed.

Lemma lowercase_idem s : lowercase (lowercase s) = lowercase s.
Proof.
  unfold lowercase. rewrite map_map. apply map_ext. intros. apply tolower_idem.
Qed.

Lemma c_str_no_nul s : Forall (fun c => code c <> 0)%Z s -> c_str s = s.
Proof.
  induction 1 as [|c s Hc Hs IH]; simpl; [done|].
  rewrite (proj2 (Z.eqb_neq _ _)) by done. by rewrite IH.
Qed.

(** ** split: lemmas *)

Lemma ascii_eqb_eq a b : ascii_eqb a b = true <-> a = b.
Proof. apply bool_decide_eq_true. Qed.

Lemma ascii_eqb_refl a : ascii_eqb a a = true.
Proof. by apply ascii_eqb_eq. Qed.

Lemma ascii_eqb_ne a b : a <> b -> ascii_eqb a b = false.
Proof. apply bool_decide_eq_false. Qed.

Lemma find_char_Some d s e :
  find_char d s = Some e -> s = take e s ++ d :: drop (S e) s /\ d ∉ take e s.
Proof.
  unfold find_char. revert e. induction s as [|c s IH]; intros e; simpl; [done|].
  destruct (ascii_eqb d c) eqn:E.
  - intros [= <-]. simpl. apply ascii_eqb_eq in E as ->. split; [done|]. by apply not_elem_of_nil.
  - destruct (find_index _ s) as [e'|] eqn:F; simpl; [|done]. intros [= <-].
    destruct (IH e' eq_refl) as [H1 H2]. split; simpl.
    + f_equal. exact H1.
    + apply not_elem_of_cons. split; [|done]. intros ->. by rewrite ascii_eqb_refl in E.
Qed.

Lemma find_char_None d s : find_char d s = None <-> d ∉ s.
Proof.
  unfold find_char. rewrite find_index_None. induction s as [|c s IH]; simpl.
  - split; [intros _; apply not_elem_of_nil|done].
  - rewrite not_elem_of_cons, <-IH, andb_true_iff, negb_true_iff.
    unfold ascii_eqb. rewrite bool_decide_eq_false. done.
Qed.

Lemma find_char_app d s1 s2 : d ∉ s1 -> find_char d (s1 ++ d :: s2) = Some (length s1).
Proof.
  intros H. unfold find_char. apply find_index_app; [|apply ascii_eqb_refl].
  apply find_index_None. by apply find_char_None.
Qed.

(** A specification by structural recursion: cut at every delimiter. *)
Fixpoint cuts (s : str) (d : ascii) : list str :=
  match s with
  | [] => [[]]
  | c :: s =>
      if ascii_eqb d c then [] :: cuts s d
      else match cuts s d with [] => [[c]] | t :: ts => (c :: t) :: ts end
  end.

Definition nonempty (t : str) : Prop := t <> [].
#[export] Instance nonempty_dec t : Decision (nonempty t).
Proof. destruct t; [right|left]; unfold nonempty; congruence. Defined.

Lemma cuts_app d s1 s2 : d ∉ s1 -> cuts (s1 ++ d :: s2) d = s1 :: cuts s2 d.
Proof.
  induction s1 as [|c s1 IH]; simpl; intros H.
  - by rewrite ascii_eqb_refl.
  - apply not_elem_of_cons in H as [H1 H2]. rewrite ascii_eqb_ne by done. by rewrite IH.
Qed.

Lemma cuts_none d s : d ∉ s -> cuts s d = [s].
Proof.
  induction s as [|c s IH]; simpl; intros H; [done|].
  apply not_elem_of_cons in H as [H1 H2]. rewrite ascii_eqb_ne by done. by rewrite IH.
Qed.

Lemma push_nonempty_filter tokens t ts :
  push_nonempty tokens t ++ filter nonempty ts = tokens ++ filter nonempty (t :: ts).
Proof.
  unfold push_nonempty. destruct t.
  - by rewrite filter_cons_False by (unfold nonempty; tauto).
  - rewrite filter_cons_True by done. by rewrite <-app_assoc.
Qed.

Lemma split_loop_cuts fuel rest d tokens :
  length rest < fuel ->
  split_loop fuel rest d tokens = Some (tokens ++ filter nonempty (cuts rest d)).
Proof.
  revert rest tokens. induction fuel as [|fuel IH]; intros rest tokens Hf; [lia|]. simpl.
  destruct (find_char d rest) as [e|] eqn:E.
  - apply find_char_Some in E as [Heq Hn]. rewrite Heq at 3. rewrite cuts_app by done.
    rewrite IH; [by rewrite push_nonempty_filter|].
    rewrite Heq, length_app in Hf. simpl in Hf. lia.
  - apply find_char_None in E. rewrite cuts_none by done.
    by rewrite <-push_nonempty_filter, app_nil_r.
Qed.

Lemma split_cuts s d : split s d = filter nonempty (cuts s d).
Proof. unfold split. by rewrite split_loop_cuts by lia. Qed.

Lemma cuts_concat s d : concat (cuts s d) = filter (fun c => c <> d) s.
Proof.
  induction s as [|c s IH]; simpl; [done|]. unfold ascii_eqb. case_bool_decide.
  - subst. rewrite filter_cons_False by tauto. done.
  - rewrite filter_cons_True by congruence. rewrite <-IH. by destruct (cuts s d).
Qed.

Lemma cuts_no_delim s d : Forall (fun t => d ∉ t) (cuts s d).
Proof.
  induction s as [|c s IH]; simpl.
  - repeat constructor. apply not_elem_of_nil.
  - unfold ascii_eqb. case_bool_decide.
    + constructor; [apply not_elem_of_nil|done].
    + destruct (cuts s d); inversion IH; subst; constructor; try done;
        apply not_elem_of_cons; auto using not_elem_of_nil.
Qed.

Lemma concat_filter_nonempty (l : list str) : concat (filter nonempty l) = concat l.
Proof.
  induction l as [|t l IH]; [done|]. rewrite filter_cons. case_decide; simpl; [by rewrite IH|].
  unfold nonempty in *. destruct t; [done|]. naive_solver.
Qed.

(** The tokens of a split: no delimiter inside, none empty, and together they
    are the input without its delimiters. *)
Lemma split_tokens s d :
  concat (split s d) = filter (fun c => c <> d) s
  /\ Forall (fun t => t <> [] /\ d ∉ t) (split s d).
Proof.
  rewrite split_cuts. split.
  - rewrite concat_filter_nonempty. apply cuts_concat.
  - apply Forall_forall. intros t [Ht Hin]%list_elem_of_filter. split; [done|].
    pose proof (cuts_no_delim s d) as H. rewrite Forall_forall in H. auto.
Qed.

(** [tokens] joined by single delimiters. *)
Fixpoint intercalate (d : ascii) (tokens : list str) : str :=
  match tokens with
  | [] => []
  | [t] => t
  | t :: ts => t ++ d :: intercalate d ts
  end.

Lemma split_intercalate d tokens :
  Forall (fun t => t <> [] /\ d ∉ t) tokens -> split (intercalate d tokens) d = tokens.
Proof.
  rewrite split_cuts. induction tokens as [|t ts IH]; simpl; intros H.
  - done.
  - inversion H as [|? ? [Ht Hn] Hts]; subst. destruct ts as [|t' ts].
    + rewrite cuts_none by done. by rewrite filter_cons_True.
    + rewrite cuts_app by done. rewrite filter_cons_True by done. by rewrite IH.
Qed.

(** ** join: lemmas *)

Lemma find_last_not_of_none set s : Forall (fun c => c ∈ set) s -> find_last_not_of set s = None.
Proof. induction 1; simpl; [done|]. rewrite IHForall. by rewrite bool_decide_true. Qed.

Lemma find_last_not_of_app set s c d :
  c ∉ set -> Forall (fun x => x ∈ set) d ->
  find_last_not_of set (s ++ c :: d) = Some (length s).
Proof.
  intros Hc Hd. induction s as [|x s IH]; simpl.
  - rewrite find_last_not_of_none by done. by rewrite bool_decide_false.
  - by rewrite IH.
Qed.

(** The separator is removed after the last pair, and only there, when the
    last pair does not itself end with a separator character. *)
Lemma join_snoc values k v pd d body c :
  k ++ pd ++ v = body ++ [c] -> c ∉ d ->
  join (values ++ [(k, v)]) pd d =
  concat (map (fun v => v.1 ++ pd ++ v.2 ++ d) values) ++ k ++ pd ++ v.
Proof.
  intros Hbody Hc. unfold join. rewrite map_app, concat_app. simpl. rewrite app_nil_r.
  set (pre := concat _).
  replace (pre ++ k ++ pd ++ v ++ d) with ((pre ++ body) ++ c :: d).
  2: { replace (k ++ pd ++ v ++ d) with ((k ++ pd ++ v) ++ d) by (by rewrite <-!app_assoc).
       rewrite Hbody. by rewrite <-!app_assoc. }
  rewrite find_last_not_of_app; [|done|by apply Forall_forall].
  rewrite Hbody. replace ((pre ++ body) ++ c :: d) with (((pre ++ body) ++ [c]) ++ d)
    by (by rewrite <-!app_assoc).
  rewrite take_app_length' by (rewrite !length_app; simpl; lia).
  by rewrite <-app_assoc.
Qed.

(** ** replace: lemmas *)

Lemma expand_no_dollar sub p m q : "$"%char ∉ sub -> expand sub p m q = sub.
Proof.
  induction sub as [|c sub IH]; simpl; intros H; [done|].
  apply not_elem_of_cons in H as [H1 H2]. rewrite ascii_eqb_ne by congruence. by rewrite IH.
Qed.

Lemma lit_prefix_length icase target s : lit_prefix icase target s = true -> length target <= length s.
Proof.
  revert s. induction target as [|t target IH]; intros [|c s]; simpl; try done; try lia.
  intros H. bool_simpl. apply IH in H0. lia.
Qed.

Section Shrinking.
Variables (icase : bool) (target sub : str).
Hypothesis no_dollar : "$"%char ∉ sub.
Hypothesis shorter : length sub < length target.

Lemma replace_from_length p s k :
  length (replace_from icase target sub p s k) + min k (length s) <= length s.
Proof.
  revert p k. induction s as [|c s IH]; intros p [|k]; cbn [replace_from]; try (simpl; lia).
  - destruct (lit_prefix icase target (c :: s)) eqn:E.
    + apply lit_prefix_length in E. simpl in E |- *.
      rewrite length_app, expand_no_dollar by done.
      specialize (IH [] (pred (length target))). lia.
    + simpl. specialize (IH (p ++ [c]) 0). lia.
  - simpl. specialize (IH [] k). lia.
Qed.

Lemma replace_pass_shrinks s :
  search_lit icase target s = true -> length (replace_pass icase target sub s) < length s.
Proof.
  unfold replace_pass. generalize ([] : str). induction s as [|c s IH]; intros p H.
  - simpl in H. destruct target; simpl in *; [lia|done].
  - cbn [search_lit replace_from] in *. destruct (lit_prefix icase target (c :: s)) eqn:E.
    + pose proof (lit_prefix_length _ _ _ E) as Hl. simpl in Hl.
      rewrite length_app, expand_no_dollar by done.
      pose proof (replace_from_length [] s (pred (length target))). simpl. lia.
    + simpl in *. specialize (IH (p ++ [c]) H). lia.
Qed.

Lemma replace_loop_terminates s fuel :
  length s < fuel ->
  exists r, replace_loop fuel icase target sub s = Some r
            /\ search_lit icase target r = false /\ length r <= length s.
Proof.
  revert s. induction fuel as [|fuel IH]; intros s Hf; [lia|]. simpl.
  destruct (search_lit icase target s) eqn:E; [|by eauto].
  pose proof (replace_pass_shrinks s E).
  destruct (IH (replace_pass icase target sub s)) as (r & ? & ? & ?); [lia|].
  exists r. split_and!; [done|done|lia].
Qed.
End Shrinking.

(** A single-character target that the substitute does not contain is replaced
    everywhere in one pass. *)
Section SingleChar.
Variables (t : ascii) (sub : str).
Hypothesis no_dollar : "$"%char ∉ sub.
Hypothesis fresh : t ∉ sub.

Definition subst_char (s : str) : str :=
  concat (map (fun c => if ascii_eqb t c then sub else [c]) s).

Lemma replace_from_char p s : replace_from false [t] sub p s 0 = subst_char s.
Proof.
  unfold subst_char. revert p. induction s as [|c s IH]; intros p; simpl; [done|]. rewrite andb_true_r.
  destruct (ascii_eqb t c); simpl; rewrite IH; [|done]. by rewrite expand_no_dollar.
Qed.
Lemma replace_pass_char s : replace_pass false [t] sub s = subst_char s.
Proof. apply replace_from_char. Qed.

Lemma search_char s : search_lit false [t] s = bool_decide (t ∈ s).
Proof.
  induction s as [|c s IH]; simpl; [done|]. rewrite andb_true_r, IH.
  unfold ascii_eqb. repeat case_bool_decide; simpl; try done; exfalso.
  all: rewrite elem_of_cons in *; tauto.
Qed.

Lemma subst_char_fresh s : t ∉ subst_char s.
Proof.
  unfold subst_char. induction s as [|c s IH]; simpl; [apply not_elem_of_nil|].
  apply not_elem_of_app. split; [|done]. unfold ascii_eqb. case_bool_decide; [done|].
  apply not_elem_of_cons. split; [done|apply not_elem_of_nil].
Qed.

Lemma subst_char_id s : t ∉ s -> subst_char s = s.
Proof.
  unfold subst_char. induction s as [|c s IH]; simpl; intros H; [done|].
  apply not_elem_of_cons in H as [H1 H2]. rewrite ascii_eqb_ne by done. simpl. by rewrite IH.
Qed.

Lemma replace_char s fuel : 1 < fuel -> replace fuel [t] sub s false = Some (subst_char s).
Proof.
  intros Hf. destruct fuel as [|[|fuel]]; [lia|lia|].
  unfold replace. cbn [replace_loop]. rewrite !search_char. case_bool_decide as Hin.
  - rewrite replace_pass_char. by rewrite bool_decide_false by apply subst_char_fresh.
  - by rewrite subst_char_id.
Qed.
End SingleChar.

(** A substitute that contains its target makes the loop run for ever. *)
Lemma replace_diverges t s fuel : t ∈ s -> t <> "$"%char -> replace fuel [t] [t] s false = None.
Proof.
  intros Hin Hne. unfold replace. revert s Hin. induction fuel as [|fuel IH]; intros s Hin; [done|].
  cbn [replace_loop]. rewrite search_char. rewrite bool_decide_true by done. apply IH.
  assert (forall p, replace_from false [t] [t] p s 0 = s) as Hs; [|unfold replace_pass; by rewrite Hs].
  clear Hin. induction s as [|c s IHs]; intros p; simpl; [done|]. rewrite andb_true_r.
  unfold ascii_eqb at 1. case_bool_decide; subst.
  - rewrite ascii_eqb_ne by done. simpl. by rewrite IHs.
  - by rewrite IHs.
Qed.
End RString.

(** ** Properties *)
Section Properties.
Import RString.

(** [split] keeps every character but the delimiter, in order, in tokens that
    are not empty and hold no delimiter; and it inverts joining such tokens
    with the delimiter. *)
Theorem split_partitions (s : str) (d : ascii) :
  concat (split s d) = filter (fun c => c <> d) s
  /\ Forall (fun t => t <> [] /\ d ∉ t) (split s d)
  /\ (forall tokens, Forall (fun t => t <> [] /\ d ∉ t) tokens -> split (intercalate d tokens) d = tokens).
Proof.
  destruct (split_tokens s d) as [H1 H2]. split_and!; [done|done|]. intros tokens. apply split_intercalate.
Qed.

(** [replace] ends, within one pass per character, whenever the substitute is
    shorter than the target and has no format characters, and then no
    occurrence of the target is left. *)
Theorem replace_terminates (icase : bool) (target sub s : str) :
  target <> [] -> length sub < length target -> "$"%char ∉ sub ->
  exists r, replace (S (length s)) target sub s icase = Some r
    /\ search_lit icase target r = false /\ length r <= length s.
Proof.
  intros Ht Hl Hd. destruct (replace_loop_terminates icase target sub Hd Hl s (S (length s))) as (r & E & Hr); [lia|].
  exists r. split; [|done]. unfold replace. by destruct target.
Qed.

Lemma replace_terminates_witness :
  exists r, replace 9 (lit "//") (lit "/") (lit "/a///b//") false = Some r
    /\ search_lit false (lit "//") r = false /\ length r <= 8.
Proof.
  apply (replace_terminates false (lit "//") (lit "/") (lit "/a///b//")); [discriminate|simpl; lia|].
  apply (bool_decide_eq_true_1 _). vm_compute. reflexivity.
Defined.
End Properties.
