(* ===== verification/Uri.v ===== *)
(** * restbed: the [Uri] class

    Models [restbed/source/corvusoft/restbed/uri.cpp]: the component getters
    over the regular expressions of the source, percent coding, and query
    parameters. The [getservbyname] database is a parameter. *)

From Stdlib Require Import ZArith Lia Ascii String Bool.
From stdpp Require Import base tactics option list.
From S2P Require Import Prelude StdMap Regex RString.
Import Regex.

Module Uri.

(** ** State: [UriImpl] *)

Record t := mk { m_uri : str; m_relative : bool }.

(** ** Regular expressions of the source *)

Definition scheme_cls (c : ascii) : bool := is_alnum c || one_of "+-." c.
Definition unres_cls (c : ascii) : bool := is_alnum c || one_of "-._~%!$&'()*+,;=" c.
Definition path_cls (c : ascii) : bool := unres_cls c || one_of ":@/" c.
Definition host_cls (c : ascii) : bool := is_alnum c || one_of "-._~%" c.

Definition re_scheme : re := Cat (Cls is_alpha) (Star (Cls scheme_cls)).

(** [(([...]+)(:([...]+))?@)?], groups 1 to 4. *)
Definition re_userinfo : re :=
  Opt (Grp 1 (Cats [Grp 2 (Plus (Cls unres_cls));
                    Opt (Grp 3 (Cat (Lit (lit ":")) (Grp 4 (Plus (Cls unres_cls)))));
                    Lit (lit "@")])).

Definition re_valid : re :=
  Cats [re_scheme; Lit (lit "://"); re_userinfo;
        Opt (Grp 5 (Cat (Star (Cls (fun c => unres_cls c || one_of ":[]" c)))
                        (Opt (Grp 6 (Cat (Lit (lit ":")) (Plus (Cls is_digit)))))));
        Plus (Cls path_cls);
        Opt (Grp 7 (Cat (Lit (lit "?")) (Star (Cls path_cls))));
        Opt (Grp 8 (Cat (Lit (lit "#")) (Star (Cls (fun c => path_cls c || one_of "?" c)))))].

(** Host names, and bracketed literal addresses: group 5. *)
Definition re_host : re :=
  Grp 5 (Alt (Plus (Cls host_cls))
             (Cats [Lit (lit "["); Plus (Cls (fun c => unres_cls c || one_of ":" c)); Lit (lit "]")])).

Definition re_port : re :=
  Cats [re_scheme; Lit (lit "://"); re_userinfo; re_host; Lit (lit ":"); Grp 6 (Plus (Cls is_digit))].

Definition re_path : re :=
  Cat (Opt (Grp 1 (Cats [re_scheme; Lit (lit "://"); Opt (Grp 2 (Plus (Cls (not_of "/?#"))))])))
      (Grp 3 (Star (Cls path_cls))).

Definition re_query : re := Cats [Plus (Cls (not_of "?#")); Lit (lit "?"); Grp 1 (Plus (Cls (not_of "#")))].
Definition re_get_scheme : re := Cat (Grp 1 re_scheme) (Lit (lit ":")).
Definition re_fragment : re := Cat (Lit (lit "#")) (Grp 1 (Plus (Cls is_dot))).
Definition re_username : re :=
  Cats [Plus (Cls scheme_cls); Lit (lit "://"); Grp 1 (Plus (Cls unres_cls));
        Opt (Grp 2 (Cat (Lit (lit ":")) (Grp 3 (Plus (Cls unres_cls))))); Lit (lit "@")].
Definition re_password : re :=
  Cats [Plus (Cls scheme_cls); Lit (lit "://"); Grp 1 (Plus (Cls unres_cls));
        Lit (lit ":"); Grp 2 (Plus (Cls unres_cls)); Lit (lit "@")].
Definition re_authority : re := Cats [re_scheme; Lit (lit "://"); re_userinfo; re_host].

(** ** Construction *)

Definition is_valid (value : str) : bool := bool_decide (is_Some (regex_match re_valid value)).

(** [Uri( value, relative )] throws when the value is not a URI. *)
Definition make (value : str) (relative : bool) : res t :=
  if is_valid value then ok (mk value relative)
  else err (InvalidArgument (lit "Argument is not a valid URI: " ++ value)).

Definition parse (value : str) : res t := make value false.

Definition is_relative (u : t) : bool := m_relative u.
Definition is_absolute (u : t) : bool := negb (m_relative u).
Definition to_string (u : t) : str := m_uri u.

(** [operator =] copies the text and keeps the relative flag of its target. *)
Definition assign (lhs rhs : t) : t := mk (m_uri rhs) (m_relative lhs).
Definition ltb (a b : t) : bool := str_ltb (m_uri a) (m_uri b).
Definition gtb (a b : t) : bool := str_ltb (m_uri b) (m_uri a).
Definition eqb (a b : t) : bool := bool_decide (m_uri a = m_uri b).
Definition neqb (a b : t) : bool := negb (eqb a b).

(** ** Component getters *)

Definition get_group (n : nat) (o : option caps) : str :=
  match o with Some c => cap n c | None => [] end.

Definition get_path (u : t) : str :=
  match regex_search_anchored re_path (m_uri u) with
  | Some c => if is_absolute u then cap 3 c else cap 2 c ++ cap 3 c
  | None => []
  end.

Definition get_query (u : t) : str := get_group 1 (regex_search_anchored re_query (m_uri u)).
Definition get_scheme (u : t) : str := get_group 1 (regex_search_anchored re_get_scheme (m_uri u)).
Definition get_fragment (u : t) : str := get_group 1 (regex_search re_fragment (m_uri u)).
Definition get_username (u : t) : str := get_group 1 (regex_search_anchored re_username (m_uri u)).
Definition get_password (u : t) : str := get_group 2 (regex_search_anchored re_password (m_uri u)).

Definition get_authority (u : t) : str :=
  if is_relative u then [] else get_group 5 (regex_search_anchored re_authority (m_uri u)).

(** *** Numbers in text: [stoi] and [to_string] *)

Definition digit_val (c : ascii) : Z := code c - 48.

Fixpoint dec_value (acc : Z) (s : str) : Z :=
  match s with
  | c :: s => if is_digit c then dec_value (10 * acc + digit_val c) s else acc
  | [] => acc
  end.

Fixpoint skip_space (s : str) : str :=
  match s with c :: s' => if is_space c then skip_space s' else s | [] => [] end.

Definition sign_of (s : str) : Z * str :=
  match s with
  | c :: s' => if ascii_eqb c "-"%char then ((-1)%Z, s')
               else if ascii_eqb c "+"%char then (1%Z, s') else (1%Z, s)
  | [] => (1%Z, [])
  end.

Definition stoi (s : str) : res Z :=
  let '(sg, s) := sign_of (skip_space s) in
  match s with
  | c :: _ =>
      if is_digit c then
        let v := (sg * dec_value 0 s)%Z in
        if ((v <? - 2 ^ 31) || (2 ^ 31 - 1 <? v))%Z then err (OutOfRange (lit "stoi")) else ok v
      else err (InvalidArgument (lit "stoi"))
  | [] => err (InvalidArgument (lit "stoi"))
  end.

Fixpoint dec_digits (fuel : nat) (n : Z) (acc : str) : str :=
  match fuel with
  | O => acc
  | S fuel =>
      let acc := chr (48 + n mod 10) :: acc in
      if (n <? 10)%Z then acc else dec_digits fuel (n / 10) acc
  end.

(** [std::to_string] of a value of at most 64 bits. *)
Definition to_dec (n : Z) : str :=
  if (n <? 0)%Z then "-"%char :: dec_digits 20 (- n) [] else dec_digits 20 n [].

(** [getservbyname]: the port a service name has in the services database. *)
Definition get_port (getservbyname : str -> option Z) (u : t) : res Z :=
  let port :=
    match regex_search_anchored re_port (m_uri u) with
    | Some c => cap 6 c
    | None =>
        match get_scheme u with
        | [] => []
        | scheme => match getservbyname scheme with Some p => to_dec p | None => [] end
        end
    end in
  match port with
  | [] => ok 0%Z
  | _ => let* n := stoi port in ok (u16 n)
  end.

(** ** Percent coding *)

(** The characters [encode] escapes. *)
Definition reserved (c : ascii) : bool :=
  one_of " <>#%{}|\^~[]`$&+,/:;=?@" c || (code c =? 34)%Z.

Definition hex_digit (n : Z) : ascii := if (n <? 10)%Z then chr (48 + n) else chr (55 + n).

(** [snprintf( hexidecimal, 4, "%%%02X", character )] *)
Definition percent (c : ascii) : str := ["%"%char; hex_digit (code c / 16); hex_digit (code c mod 16)].

(** The default case appends a one-character C string: a NUL adds nothing. *)
Definition encode_char (c : ascii) : str :=
  if reserved c then percent c else RString.c_str [c].

Definition encode (value : str) : str := concat (map encode_char value).
Definition encode_bytes (value : list Z) : str := encode (RString.to_string value).
Definition encode_parameter (value : str) : str := encode value.

Definition hex_val (c : ascii) : option Z :=
  if is_digit c then Some (code c - 48)%Z
  else if between 65 70 c then Some (code c - 55)%Z
  else if between 97 102 c then Some (code c - 87)%Z
  else None.

Fixpoint hex_value (acc : Z) (s : str) : Z :=
  match s with
  | c :: s => match hex_val c with Some d => hex_value (16 * acc + d) s | None => acc end
  | [] => acc
  end.

(** [strtol( text, nullptr, 16 )] *)
Definition strtol16 (s : str) : Z :=
  let '(sg, s) := sign_of (skip_space (RString.c_str s)) in
  let s := match s with
           | z :: x :: d :: s' =>
               if ascii_eqb z "0"%char && one_of "xX" x && bool_decide (is_Some (hex_val d))
               then d :: s' else s
           | _ => s
           end in
  (sg * hex_value 0 s)%Z.

(** [decode]. A ['%'] with fewer than two characters after it moves the index
    past [length( )]: the loop test [index not_eq length] then never fails and
    the code reads outside the string. *)
Fixpoint decode (value : str) : res str :=
  match value with
  | [] => ok []
  | c :: rest =>
      if ascii_eqb c "%"%char then
        match rest with
        | h0 :: h1 :: rest' =>
            let* r := decode rest' in ok (chr (strtol16 [h0; h1]) :: r)
        | _ => err Undef
        end
      else let* r := decode rest in ok (c :: r)
  end.

Definition decode_bytes (value : list Z) : res str := decode (RString.to_string value).

(** Two iterations of the replace loop are enough for ["+"] by [" "]
    ([RString.replace_char]). *)
Definition decode_parameter (value : str) : res str :=
  match RString.replace 2 (lit "+") (lit " ") value false with
  | Some v => decode v
  | None => err Undef
  end.

(** ** Query parameters *)

(** One parameter: without ['='] the name and the value are the whole text
    ([npos + 1] is [0]). *)
Definition decode_pair (parameter : str) : res (str * str) :=
  let index := RString.find_char "="%char parameter in
  let* name := decode_parameter (match index with Some i => take i parameter | None => parameter end) in
  let* value := decode_parameter (match index with Some i => drop (S i) parameter | None => parameter end) in
  ok (name, value).

Fixpoint insert_pairs (query : list str) (parameters : smap str) : res (smap str) :=
  match query with
  | [] => ok parameters
  | p :: query =>
      let* nv := decode_pair p in insert_pairs query (smm_insert nv.1 nv.2 parameters)
  end.

Definition get_query_parameters (u : t) : res (smap str) :=
  insert_pairs (RString.split (get_query u) "&"%char) [].

(** ** Percent coding: lemmas *)

Definition no_nul (s : str) : Prop := Forall (fun c => code c <> 0)%Z s.

Lemma strtol_percent c :
  chr (strtol16 [hex_digit (code c / 16); hex_digit (code c mod 16)]) = c.
Proof. revert c. by_chars. Qed.

Lemma percent_not_special c : Forall (fun d => reserved d = false \/ d = "%"%char) (percent c).
Proof. revert c. by_chars. Qed.

Lemma encode_char_plain c : code c <> 0%Z -> reserved c = false -> encode_char c = [c].
Proof. intros H1 H2. unfold encode_char. rewrite H2. apply RString.c_str_no_nul. by constructor. Qed.

Lemma encode_char_out c : Forall (fun d => reserved d = false \/ d = "%"%char) (encode_char c).
Proof. revert c. by_chars. Qed.

(** Only the percent sign survives of the reserved characters. *)
Lemma encode_out s : Forall (fun d => reserved d = false \/ d = "%"%char) (encode s).
Proof. unfold encode. induction s as [|c s IH]; simpl; [done|]. apply Forall_app; auto using encode_char_out. Qed.

Lemma encode_avoids c s : reserved c = true -> c <> "%"%char -> c ∉ encode s.
Proof.
  intros Hr Hne Hin. pose proof (encode_out s) as H. rewrite Forall_forall in H.
  destruct (H c Hin); congruence.
Qed.

Lemma decode_encode_char c s :
  code c <> 0%Z -> decode (encode_char c ++ s) = (let* r := decode s in ok (c :: r)).
Proof.
  intros Hnz. destruct (reserved c) eqn:E.
  - unfold encode_char. rewrite E. cbn [percent app decode].
    rewrite RString.ascii_eqb_refl. by rewrite strtol_percent.
  - rewrite encode_char_plain by done. cbn [app decode]. rewrite RString.ascii_eqb_ne; [done|].
    intros ->. vm_compute in E. done.
Qed.

Lemma decode_encode_app s t :
  no_nul s -> decode (encode s ++ t) = (let* r := decode t in ok (s ++ r)).
Proof.
  unfold encode. induction 1 as [|c s Hc Hs IH]; simpl.
  - by destruct (decode t).
  - rewrite <-app_assoc, decode_encode_char, IH by done. by destruct (decode t).
Qed.

Lemma decode_encode_nonul s : no_nul s -> decode (encode s) = ok s.
Proof.
  intros H. pose proof (decode_encode_app s [] H) as Hd. rewrite app_nil_r in Hd.
  rewrite Hd. simpl. by rewrite app_nil_r.
Qed.

Lemma decode_parameter_no_plus s : "+"%char ∉ s -> decode_parameter s = decode s.
Proof.
  intros H. unfold decode_parameter. rewrite (RString.replace_char "+"%char (lit " ")).
  - by rewrite RString.subst_char_id.
  - by apply (bool_decide_eq_true_1 _).
  - by apply (bool_decide_eq_true_1 _).
  - lia.
Qed.

Lemma decode_encode_parameter s : no_nul s -> decode_parameter (encode_parameter s) = ok s.
Proof.
  intros H. unfold encode_parameter. rewrite decode_parameter_no_plus by (by apply encode_avoids).
  by apply decode_encode_nonul.
Qed.

(** ** Query parameters: lemmas *)

Definition encode_pair (kv : str * str) : str :=
  encode_parameter kv.1 ++ "="%char :: encode_parameter kv.2.

Lemma decode_encode_pair kv : no_nul kv.1 -> no_nul kv.2 -> decode_pair (encode_pair kv) = ok kv.
Proof.
  intros H1 H2. destruct kv as [k v]. unfold decode_pair, encode_pair. simpl in *.
  rewrite RString.find_char_app by (by apply encode_avoids).
  rewrite take_app_length, drop_S_app.
  rewrite !decode_encode_parameter by done. done.
Qed.

Lemma insert_pairs_encoded params m :
  Forall (fun kv => no_nul kv.1 /\ no_nul kv.2) params ->
  insert_pairs (map encode_pair params) m =
  ok (fold_left (fun m kv => smm_insert kv.1 kv.2 m) params m).
Proof.
  intros H. revert m. induction H as [|kv params [H1 H2] Hp IH]; intros m; simpl; [done|].
  rewrite decode_encode_pair by done. simpl. apply IH.
Qed.

Lemma encode_pair_token kv : encode_pair kv <> [] /\ "&"%char ∉ encode_pair kv.
Proof.
  unfold encode_pair. split; [by destruct (encode_parameter kv.1)|].
  apply not_elem_of_app. split; [by apply encode_avoids|].
  apply not_elem_of_cons. split; [done|by apply encode_avoids].
Qed.

Lemma split_encoded_pairs params :
  RString.split (RString.intercalate "&"%char (map encode_pair params)) "&"%char =
  map encode_pair params.
Proof.
  apply RString.split_intercalate. apply Forall_map, Forall_true. intros kv. apply encode_pair_token.
Qed.

(** Parsing the query that a list of parameters is printed to gives the
    multimap of these parameters. *)
Lemma parse_encoded_pairs params :
  Forall (fun kv => no_nul kv.1 /\ no_nul kv.2) params ->
  insert_pairs (RString.split (RString.intercalate "&"%char (map encode_pair params)) "&"%char) [] =
  ok (mm_of_list str_ltb params).
Proof. intros H. rewrite split_encoded_pairs. by rewrite insert_pairs_encoded. Qed.

(** ** Components: lemmas *)

Lemma forallb_app_true {A} (p : A -> bool) l k :
  forallb p l = true -> forallb p k = true -> forallb p (l ++ k) = true.
Proof. intros. rewrite forallb_app. by apply andb_true_iff. Qed.

Section Components.
(** A URI [scheme://authority path rest]. *)
Variables (a : ascii) (sch auth path rest : str).
Hypothesis scheme_head : is_alpha a = true.
Hypothesis scheme_tail : forallb scheme_cls sch = true.
Hypothesis auth_nonempty : auth <> [].
Hypothesis auth_chars : forallb (not_of "/?#") auth = true.
Hypothesis path_chars : forallb path_cls path = true.
Hypothesis path_head : stops (not_of "/?#") (path ++ rest).
Hypothesis rest_head : stops path_cls rest.

Definition whole : str := (a :: sch) ++ lit "://" ++ auth ++ path ++ rest.

Lemma run_scheme {A} s c (k : @cont A) v :
  stops scheme_cls s -> k s c = Some v -> run re_scheme ((a :: sch) ++ s) c k = Some v.
Proof.
  intros Hs Hk. unfold re_scheme. cbn [run app]. rewrite scheme_head. by apply run_star_cls.
Qed.

Lemma run_path :
  exists c, regex_search_anchored re_path whole = Some c /\ cap 3 c = path /\ cap 2 c = auth.
Proof.
  eexists. split.
  - unfold regex_search_anchored, re_path, whole. rewrite run_cat. cbn [run]. apply orelse_Some.
    cbn [Cats]. rewrite run_cat. apply run_scheme; [done|].
    rewrite run_cat, run_lit. cbn [run]. apply orelse_Some.
    apply (run_plus_cls (not_of "/?#") auth (path ++ rest)); [done|done|done|].
    rewrite (proj2 (Nat.ltb_lt _ _)).
    2: { rewrite !length_app. destruct auth; [done|]. simpl. lia. }
    rewrite (proj2 (Nat.ltb_lt _ _)).
    2: { rewrite !length_app. simpl. lia. }
    apply (run_star_cls path_cls path rest); [done|done|]. reflexivity.
  - split; simpl.
    + by rewrite take_consumed.
    + by rewrite take_consumed.
Qed.

Lemma get_path_whole rel : get_path (mk whole rel) = if rel then auth ++ path else path.
Proof.
  unfold get_path, is_absolute. simpl.
  destruct run_path as (c & -> & H3 & H2).
  rewrite H3, H2. by destruct rel.
Qed.

Lemma get_scheme_whole rel : get_scheme (mk whole rel) = a :: sch.
Proof.
  unfold get_scheme, get_group, regex_search_anchored, re_get_scheme. cbn [m_uri]. unfold whole.
  rewrite run_cat, run_grp.
  erewrite run_scheme; [|done|].
  2: { change (lit "://" ++ auth ++ path ++ rest) with (lit ":" ++ lit "//" ++ auth ++ path ++ rest).
       rewrite run_lit. reflexivity. }
  cbn [cap Nat.eqb]. by rewrite take_consumed.
Qed.
End Components.

Lemma cls_incl (p q : ascii -> bool) s :
  forallb (fun c => implb (p c) (q c)) all_chars = true -> forallb p s = true -> forallb q s = true.
Proof.
  intros Hpq. induction s as [|c s IH]; simpl; [done|]. intros H. bool_simpl.
  pose proof (forall_chars _ Hpq c) as Hc. simpl in Hc. rewrite H in Hc. simpl in Hc.
  rewrite Hc. simpl. auto.
Qed.

Lemma path_cls_not_query s : forallb path_cls s = true -> forallb (not_of "?#") s = true.
Proof. apply cls_incl. by vm_compute. Qed.

(** The query of [prefix?query] or [prefix?query#...]. *)
Lemma get_query_whole prefix query rest rel :
  prefix <> [] -> forallb (not_of "?#") prefix = true ->
  query <> [] -> forallb (not_of "#") query = true -> stops (not_of "#") rest ->
  get_query (mk (prefix ++ lit "?" ++ query ++ rest) rel) = query.
Proof.
  intros Hp Hpc Hq Hqc Hr. unfold get_query, get_group, regex_search_anchored, re_query. cbn [m_uri Cats].
  rewrite run_cat.
  erewrite (run_plus_cls (not_of "?#") prefix (lit "?" ++ query ++ rest)); [|done|done|done|].
  2: { rewrite run_cat, run_lit.
       apply (run_grp_plus (not_of "#") 1 query rest); [done|done|done|]. reflexivity. }
  done.
Qed.

End Uri.

(** ** Properties *)
Section Properties.
Import Uri.

(** C40. Percent coding is inverted by decoding for text without NUL, as a
    whole and as a parameter, and leaves no reserved character but ['%']. *)
Theorem encode_decode_roundtrip (s : str) :
  no_nul s ->
  decode (encode s) = ok s /\ decode_parameter (encode_parameter s) = ok s
  /\ (forall c, reserved c = true -> c <> "%"%char -> c ∉ encode s).
Proof.
  intros H. split_and!; [by apply decode_encode_nonul|by apply decode_encode_parameter|].
  intros c. apply encode_avoids.
Qed.

(** Every ['%'] is followed by at least two characters. *)
Inductive escaped : str -> Prop :=
| E_nil : escaped []
| E_char c s : c <> "%"%char -> escaped s -> escaped (c :: s)
| E_percent h0 h1 s : escaped s -> escaped ("%"%char :: h0 :: h1 :: s).

Lemma decode_escaped s : escaped s -> exists r, decode s = ok r /\ length r <= length s.
Proof.
  induction 1 as [|c s Hc Hs (r & E & Hl)|h0 h1 s Hs (r & E & Hl)].
  - by exists [].
  - exists (c :: r). cbn [decode]. rewrite RString.ascii_eqb_ne by done. rewrite E. split; [done|simpl; lia].
  - eexists. cbn [decode]. rewrite RString.ascii_eqb_refl, E. split; [done|simpl; lia].
Qed.

Lemma decode_ok_escaped n s r : length s <= n -> decode s = ok r -> escaped s.
Proof.
  revert s r. induction n as [|n IH]; intros [|c s] r Hn; try (intros; exact E_nil); simpl in Hn; [lia|].
  cbn [decode]. unfold ascii_eqb. case_bool_decide as Hc.
  - subst c. destruct s as [|h0 [|h1 s]]; try done. simpl in Hn.
    destruct (decode s) as [|r'] eqn:E; [done|]. intros _. apply E_percent, (IH s r'); [lia|done].
  - destruct (decode s) as [|r'] eqn:E; [done|]. intros _. apply E_char; [done|]. apply (IH s r'); [lia|done].
Qed.

Lemma decode_err n s e : length s <= n -> decode s = err e -> e = Undef.
Proof.
  revert s. induction n as [|n IH]; intros [|c s] Hn; simpl in Hn; try lia; try done.
  cbn [decode]. destruct (ascii_eqb c "%"%char).
  - destruct s as [|h0 [|h1 s]]; try (by intros [=]). simpl in Hn.
    destruct (decode s) as [e'|] eqn:E; [|done]. intros [= ->]. apply (IH s); [lia|done].
  - destruct (decode s) as [e'|] eqn:E; [|done]. intros [= ->]. apply (IH s); [lia|done].
Qed.

(** Decoding is memory safe exactly on text in which two characters follow
    every percent sign: there it succeeds and does not lengthen the text;
    everywhere else it reads outside the string. *)
Theorem decode_safe_iff_escaped (s : str) :
  (escaped s <-> exists r, decode s = ok r /\ length r <= length s)
  /\ (decode s = err Undef <-> ~ escaped s).
Proof.
  assert (Hi : escaped s <-> exists r, decode s = ok r /\ length r <= length s).
  { split; [apply decode_escaped|]. intros (r & E & _). by eapply decode_ok_escaped. }
  split; [done|]. rewrite Hi. split.
  - intros E (r & E' & _). by rewrite E in E'.
  - intros H. destruct (decode s) as [e|r] eqn:E.
    + by rewrite (decode_err (length s) s e).
    + destruct H. exists r. split; [done|]. destruct (decode_escaped s) as (r' & E' & ?);
        [by eapply decode_ok_escaped|].
      rewrite E in E'. by injection E' as ->.
Qed.

Lemma pairs_no_hash params : forallb (not_of "#") (RString.intercalate "&"%char (map encode_pair params)) = true.
Proof.
  assert (Hp : forall kv, forallb (not_of "#") (encode_pair kv) = true).
  { intros kv. apply forallb_forall. intros c Hc. unfold not_of, one_of. apply negb_true_iff. simpl.
    rewrite orb_false_r. unfold ascii_eqb. apply bool_decide_eq_false. intros ->.
    apply list_elem_of_In in Hc. unfold encode_pair in Hc. rewrite elem_of_app, elem_of_cons in Hc.
    destruct Hc as [Hc|[Hc|Hc]]; [|done|]; revert Hc; apply encode_avoids; done. }
  induction params as [|kv params IH]; [done|]. simpl. destruct params as [|kv' params]; [apply Hp|].
  simpl in *. rewrite forallb_app. by rewrite Hp.
Qed.

(** The query parameters of a URI are those its query was made of, whatever
    characters but NUL they hold, each name's values in their order. *)
Theorem query_parameters_roundtrip (prefix fragment : str) (params : smap str) (rel : bool) :
  prefix <> [] -> forallb (not_of "?#") prefix = true -> stops (not_of "#") fragment -> params <> [] ->
  Forall (fun kv => no_nul kv.1 /\ no_nul kv.2) params ->
  get_query_parameters
    (mk (prefix ++ lit "?" ++ RString.intercalate "&"%char (map encode_pair params) ++ fragment) rel)
  = ok (mm_of_list str_ltb params).
Proof.
  intros Hp Hc Hf Hne Hn. unfold get_query_parameters.
  rewrite get_query_whole; [by apply parse_encoded_pairs|done|done| |apply pairs_no_hash|done].
  destruct params as [|kv params]; [done|]. simpl. destruct (encode_pair_token kv) as [Hk _].
  destruct (map encode_pair params); [done|]. by destruct (encode_pair kv).
Qed.

(** Of [scheme://authority path rest], the getters return the scheme and,
    for an absolute URI, the path; for a relative one the authority and the
    path. *)
Theorem uri_components (a : ascii) (sch auth path rest : str) (rel : bool) :
  is_alpha a = true -> forallb scheme_cls sch = true -> auth <> [] -> forallb (not_of "/?#") auth = true ->
  forallb path_cls path = true -> stops (not_of "/?#") (path ++ rest) -> stops path_cls rest ->
  let u := mk ((a :: sch) ++ lit "://" ++ auth ++ path ++ rest) rel in
  get_scheme u = a :: sch /\ get_path u = if rel then auth ++ path else path.
Proof.
  intros H1 H2 H3 H4 H5 H6 H7 u. split.
  - exact (get_scheme_whole a sch auth path rest H1 H2 rel).
  - exact (get_path_whole a sch auth path rest H1 H2 H3 H4 H5 H6 H7 rel).
Qed.

Lemma encode_decode_roundtrip_witness : decode (encode (lit "a b/c%")) = ok (lit "a b/c%").
Proof.
  refine (proj1 (encode_decode_roundtrip (lit "a b/c%") _)).
  repeat (constructor; [vm_compute; discriminate|]). constructor.
Defined.

Lemma query_parameters_roundtrip_witness :
  get_query_parameters (mk (lit "http://h/p" ++ lit "?" ++ lit "b=1%26&a=%3D" ++ lit "#top") false)
  = ok [(lit "a", lit "="); (lit "b", lit "1&")].
Proof.
  apply (query_parameters_roundtrip (lit "http://h/p") (lit "#top") [(lit "b", lit "1&"); (lit "a", lit "=")] false);
    [discriminate|reflexivity|reflexivity|discriminate|].
  repeat (constructor; [split; repeat (constructor; [vm_compute; discriminate|]); constructor|]). constructor.
Defined.

Lemma uri_components_witness :
  let u := mk (lit "http" ++ lit "://" ++ lit "h:80" ++ lit "/p/q" ++ lit "?x") false in
  get_scheme u = lit "http" /\ get_path u = lit "/p/q".
Proof.
  apply (uri_components "h"%char (lit "ttp") (lit "h:80") (lit "/p/q") (lit "?x") false);
    try reflexivity; discriminate.
Defined.
End Properties.
