(* ===== verification/Settings.v ===== *)
(** * restbed: the service's settings

    Models [settings.cpp] with [detail/settings_impl.hpp], and
    [ssl_settings.cpp] with [detail/ssl_settings_impl.hpp]: plain records with
    their defaults, a table of status messages and accessors; durations are in
    milliseconds. *)

From Stdlib Require Import ZArith Lia Ascii String Bool.
From stdpp Require Import base tactics option list.
From S2P Require Import Prelude StdMap RString Uri.

(** ** [SSLSettings] *)
Module SSLSettings.
Record t := mk {
  m_port : Z; m_http_disabled : bool; m_sslv2_enabled : bool; m_sslv3_enabled : bool;
  m_tlsv1_enabled : bool; m_tlsv11_enabled : bool; m_tlsv12_enabled : bool;
  m_compression_enabled : bool; m_default_workarounds_enabled : bool;
  m_single_diffie_hellman_use_enabled : bool;
  m_bind_address : str; m_passphrase : str; m_private_key : str; m_private_rsa_key : str;
  m_certificate : str; m_certificate_chain : str; m_certificate_authority_pool : str;
  m_temporary_diffie_hellman : str }.

Definition init : t :=
  mk 443 false true true true true true true true true [] [] [] [] [] [] [] [].

Definition set_port (v : Z) (s : t) : t := s <| m_port := u16 v |>.
Definition set_bind_address (v : str) (s : t) : t := s <| m_bind_address := v |>.
Definition set_http_disabled (v : bool) (s : t) : t := s <| m_http_disabled := v |>.
Definition set_sslv2_enabled (v : bool) (s : t) : t := s <| m_sslv2_enabled := v |>.
Definition set_sslv3_enabled (v : bool) (s : t) : t := s <| m_sslv3_enabled := v |>.
Definition set_tlsv1_enabled (v : bool) (s : t) : t := s <| m_tlsv1_enabled := v |>.
Definition set_tlsv11_enabled (v : bool) (s : t) : t := s <| m_tlsv11_enabled := v |>.
Definition set_tlsv12_enabled (v : bool) (s : t) : t := s <| m_tlsv12_enabled := v |>.
Definition set_compression_enabled (v : bool) (s : t) : t := s <| m_compression_enabled := v |>.
Definition set_default_workarounds_enabled (v : bool) (s : t) : t :=
  s <| m_default_workarounds_enabled := v |>.
Definition set_single_diffie_hellman_use_enabled (v : bool) (s : t) : t :=
  s <| m_single_diffie_hellman_use_enabled := v |>.
Definition set_passphrase (v : str) (s : t) : t := s <| m_passphrase := v |>.

(** [String::remove( "file://", value.to_string( ), CASE_INSENSITIVE )]. The
    loop of [replace] shortens its subject at each pass, so the length of the
    subject is enough fuel; [None] would be a loop that has not ended. *)
Definition filename (value : Uri.t) : option str :=
  let s := Uri.to_string value in RString.remove (S (length s)) (lit "file://") s true.

Definition set_certificate (v : Uri.t) (s : t) : option t :=
  f ← filename v; Some (s <| m_certificate := f |>).
Definition set_certificate_chain (v : Uri.t) (s : t) : option t :=
  f ← filename v; Some (s <| m_certificate_chain := f |>).
Definition set_certificate_authority_pool (v : Uri.t) (s : t) : option t :=
  f ← filename v; Some (s <| m_certificate_authority_pool := f |>).
Definition set_private_key (v : Uri.t) (s : t) : option t :=
  f ← filename v; Some (s <| m_private_key := f |>).
Definition set_private_rsa_key (v : Uri.t) (s : t) : option t :=
  f ← filename v; Some (s <| m_private_rsa_key := f |>).
Definition set_temporary_diffie_hellman (v : Uri.t) (s : t) : option t :=
  f ← filename v; Some (s <| m_temporary_diffie_hellman := f |>).
End SSLSettings.

(** ** [Settings] *)
Module Settings.
Record t := mk {
  m_port : Z; m_root : str; m_worker_limit : Z; m_connection_limit : Z; m_bind_address : str;
  m_case_insensitive_uris : bool; m_properties : smap str; m_ssl_settings : option SSLSettings.t;
  m_default_headers : smap str; m_connection_timeout : Z; m_status_messages : list (Z * str) }.

Definition default_status_messages : list (Z * str) :=
  map (fun '(c, s) => (c, lit s))
  [ (100, "Continue"); (101, "Switching Protocols"); (102, "Processing"); (200, "OK");
    (201, "Created"); (202, "Accepted"); (203, "Non-Authoritative Information"); (204, "No Content");
    (205, "Reset Content"); (206, "Partial Content"); (207, "Multi-Status"); (208, "Already Reported");
    (226, "IM Used"); (300, "Multiple Choices"); (301, "Moved Permanently"); (302, "Found");
    (303, "See Other"); (304, "Not Modified"); (305, "Use Proxy"); (306, "Reserved");
    (307, "Temporary Redirect"); (308, "Permanent Redirect"); (400, "Bad Request");
    (401, "Unauthorized"); (402, "Payment Required"); (403, "Forbidden"); (404, "Not Found");
    (405, "Method Not Allowed"); (406, "Not Acceptable"); (407, "Proxy Authentication Required");
    (408, "Request Timeout"); (409, "Conflict"); (410, "Gone"); (411, "Length Required");
    (412, "Precondition Failed"); (413, "Request Entity Too Large"); (414, "Request URI Too Long");
    (415, "Unsupported Media Type"); (416, "Requested Range Not Satisfiable");
    (417, "Expectation Failed"); (422, "Unprocessable Entity"); (423, "Locked");
    (424, "Failed Dependency"); (426, "Upgrade Required"); (428, "Precondition Required");
    (429, "Too Many Requests"); (431, "Request Header Fields Too Large");
    (500, "Internal Server Error"); (501, "Not Implemented"); (502, "Bad Gateway");
    (503, "Service Unavailable"); (504, "Gateway Timeout"); (505, "HTTP Version Not Supported");
    (506, "Variant Also Negotiates"); (507, "Insufficient Storage"); (508, "Loop Detected");
    (510, "Not Extended"); (511, "Network Authentication Required") ]%string%Z.

Definition init : t :=
  mk 80 (lit "/") 0 128 [] true [] None [] 5000 default_status_messages.

Definition get_status_message (code : Z) (s : t) : str :=
  default (lit "No Appropriate Status Message Found") (m_find code (m_status_messages s)).
Definition get_property (name : str) (s : t) : str := default [] (m_find name (m_properties s)).

Definition set_port (v : Z) (s : t) : t := s <| m_port := u16 v |>.
Definition set_root (v : str) (s : t) : t := s <| m_root := v |>.
Definition set_worker_limit (v : Z) (s : t) : t := s <| m_worker_limit := u32 v |>.
Definition set_connection_limit (v : Z) (s : t) : t := s <| m_connection_limit := u32 v |>.
Definition set_bind_address (v : str) (s : t) : t := s <| m_bind_address := v |>.
Definition set_case_insensitive_uris (v : bool) (s : t) : t := s <| m_case_insensitive_uris := v |>.
Definition set_connection_timeout_seconds (v : Z) (s : t) : t :=
  s <| m_connection_timeout := (v * 1000)%Z |>.
Definition set_connection_timeout (v : Z) (s : t) : t := s <| m_connection_timeout := v |>.
Definition set_status_message (code : Z) (message : str) (s : t) : t :=
  s <| m_status_messages := m_assign Z.ltb code message (m_status_messages s) |>.
Definition set_status_messages (v : list (Z * str)) (s : t) : t := s <| m_status_messages := v |>.
Definition set_property (name value : str) (s : t) : t :=
  s <| m_properties := sm_assign name value (m_properties s) |>.
Definition set_properties (v : smap str) (s : t) : t := s <| m_properties := v |>.
Definition set_ssl_settings (v : option SSLSettings.t) (s : t) : t := s <| m_ssl_settings := v |>.
Definition set_default_header (name value : str) (s : t) : t :=
  s <| m_default_headers := smm_insert name value (m_default_headers s) |>.
Definition set_default_headers (v : smap str) (s : t) : t := s <| m_default_headers := v |>.
End Settings.
