(* ===== verification/Message.v ===== *)
(** * restbed: requests, responses and their wire format

    Models [request.cpp], [response.cpp], [common.hpp], the serialisers of
    [http.cpp] and [detail/http_impl.cpp], and the request-line and header
    parsers of [detail/service_impl.cpp]. *)

From Stdlib Require Import ZArith Lia Ascii String Bool SpecFloat.
From stdpp Require Import base tactics option list.
From S2P Require Import Prelude StdMap Regex RString Uri.
Import Regex.

(** ** [double]: IEEE 754 binary64, as the standard library's specification *)
Module Double.
Definition t := spec_float.
Definition prec := 53%Z.
Definition emax := 1024%Z.

(** The correctly rounded quotient of two integers. *)
Definition of_frac (num : Z) (den : positive) : t :=
  match num with
  | Z0 => S754_zero false
  | Zpos p => SFdiv prec emax (S754_finite false p 0) (S754_finite false den 0)
  | Zneg p => SFdiv prec emax (S754_finite true p 0) (S754_finite false den 0)
  end.

Fixpoint pow10 (n : nat) : positive :=
  match n with O => 1%positive | S n => (10 * pow10 n)%positive end.

Fixpoint digits_of (s : str) : str :=
  match s with c :: s' => if is_digit c then c :: digits_of s' else [] | [] => [] end.

(** [stod] on [digits], [digits.digits] and [.digits]. *)
Definition stod (s : str) : res t :=
  let '(sg, s) := Uri.sign_of (Uri.skip_space s) in
  let int := digits_of s in
  let frac := match drop (length int) s with
              | c :: s' => if ascii_eqb c "."%char then digits_of s' else []
              | [] => []
              end in
  match int ++ frac with
  | [] => err (InvalidArgument (lit "stod"))
  | ds =>
      match of_frac (sg * Uri.dec_value 0 ds) (pow10 (length frac)) with
      | S754_infinity _ => err (OutOfRange (lit "stod"))
      | d => ok d
      end
  end.

(** Nearest integer to [num / den], ties to even. *)
Definition round_div (num den : Z) : Z :=
  let q := (num / den)%Z in
  let r := (2 * (num mod den))%Z in
  if (r <? den)%Z then q
  else if (den <? r)%Z then (q + 1)%Z
  else if Z.even q then q else (q + 1)%Z.

(** [printf( "%.1f" )]: the exact binary value rounded to tenths. *)
Definition fmt_1f (d : t) : str :=
  let show (neg : bool) (tenths : Z) :=
    (if neg then lit "-" else []) ++ Uri.to_dec (tenths / 10) ++ lit "." ++ Uri.to_dec (tenths mod 10) in
  match d with
  | S754_zero s => show s 0%Z
  | S754_infinity s => (if s then lit "-" else []) ++ lit "inf"
  | S754_nan => lit "nan"
  | S754_finite s m e =>
      show s (if (0 <=? e)%Z then (10 * Zpos m * 2 ^ e)%Z
              else round_div (10 * Zpos m) (2 ^ (- e)))
  end.

Definition v1_1 : t := of_frac 11 10.
End Double.

(** ** [Common]: parameter collections *)
Module Common.
(** [has_parameter]: names compare case-insensitively. *)
Definition has_parameter (name : str) (parameters : smap str) : bool :=
  let key := RString.lowercase name in
  existsb (fun p => bool_decide (key = RString.lowercase p.1)) parameters.

(** [get_parameters] inserts the matching pairs into a fresh container, in
    iteration order; [ins] is the insertion of that container. *)
Definition get_parameters (ins : str -> str -> smap str -> smap str)
    (name : str) (parameters : smap str) : smap str :=
  match name with
  | [] => parameters
  | _ =>
      let key := RString.lowercase name in
      fold_left (fun results p =>
        if bool_decide (key = RString.lowercase p.1) then ins p.1 p.2 results else results)
        parameters []
  end.

Definition get_parameters_mm := get_parameters smm_insert.
Definition get_parameters_m := get_parameters sm_insert.

Definition transform (value : str) (f : option (str -> str)) : str :=
  match f with None => value | Some f => f value end.

(** [parse_parameter<int>]: [istream >>] of a decimal number; the default
    when no digits are found or the value does not fit. *)
Definition parse_int (value : str) (default_value : Z) : Z :=
  match Uri.stoi value with inr v => v | inl _ => default_value end.

(** The first value for a name, or the default. *)
Definition get_first (ins : str -> str -> smap str -> smap str)
    (name : str) (parameters : smap str) (default_value : str) : str :=
  match name with
  | [] => default_value
  | _ => match get_parameters ins name parameters with
         | [] => default_value
         | (_, v) :: _ => v
         end
  end.
End Common.

(** ** [Response] *)
Module Response.
Record t := mk {
  m_body : list Z; m_version : Double.t; m_status_code : Z;
  m_protocol : str; m_status_message : str; m_headers : smap str }.

Definition init : t := mk [] Double.v1_1 0 (lit "HTTP") [] [].

Definition has_header (name : str) (r : t) : bool := Common.has_parameter name (m_headers r).
Definition get_header (name default_value : str) (r : t) : str :=
  Common.get_first smm_insert name (m_headers r) default_value.
Definition get_headers (name : str) (r : t) : smap str := Common.get_parameters_mm name (m_headers r).
Definition get_body_string (transform : option (list Z -> str)) (r : t) : str :=
  match transform with None => RString.to_string (m_body r) | Some f => f (m_body r) end.

Definition set_body (v : list Z) (r : t) : t :=
  mk v (m_version r) (m_status_code r) (m_protocol r) (m_status_message r) (m_headers r).
Definition set_body_string (v : str) (r : t) : t := set_body (RString.to_bytes v) r.
Definition set_version (v : Double.t) (r : t) : t :=
  mk (m_body r) v (m_status_code r) (m_protocol r) (m_status_message r) (m_headers r).
Definition set_status_code (v : Z) (r : t) : t :=
  mk (m_body r) (m_version r) v (m_protocol r) (m_status_message r) (m_headers r).
Definition set_protocol (v : str) (r : t) : t :=
  mk (m_body r) (m_version r) (m_status_code r) v (m_status_message r) (m_headers r).
Definition set_status_message (v : str) (r : t) : t :=
  mk (m_body r) (m_version r) (m_status_code r) (m_protocol r) v (m_headers r).
Definition set_headers (v : smap str) (r : t) : t :=
  mk (m_body r) (m_version r) (m_status_code r) (m_protocol r) (m_status_message r) v.
Definition add_header (name value : str) (r : t) : t :=
  set_headers (smm_insert name value (m_headers r)) r.
Definition set_header (name value : str) (r : t) : t :=
  set_headers (smm_insert name value (m_erase name (m_headers r))) r.
End Response.

(** ** [Request] *)
Module Request.
Record t := mk {
  m_body : list Z; m_port : Z; m_version : Double.t; m_host : str; m_path : str;
  m_method : str; m_protocol : str; m_uri : option Uri.t;
  m_headers : smap str; m_path_parameters : smap str; m_query_parameters : smap str;
  m_socket_open : option bool  (* the connection, when there is one, and whether it is open *) }.

Definition init : t :=
  mk [] 80 Double.v1_1 [] (lit "/") (lit "GET") (lit "HTTP") None [] [] [] None.

(** [Request( uri )] *)
Definition of_uri (getservbyname : str -> option Z) (value : Uri.t) : res t :=
  let* port := Uri.get_port getservbyname value in
  let* query := Uri.get_query_parameters value in
  let protocol := RString.uppercase (Uri.get_scheme value) in
  let path := match Uri.get_path value with [] => lit "/" | p => p end in
  let port := if (port =? 0)%Z
              then (if bool_decide (protocol = lit "HTTPS") then 443%Z else 80%Z) else port in
  ok (mk [] port Double.v1_1 (Uri.get_authority value) path (lit "GET") protocol (Some value)
        [] [] query None).

Definition has_header (name : str) (r : t) : bool := Common.has_parameter name (m_headers r).
Definition has_path_parameter (name : str) (r : t) : bool :=
  Common.has_parameter name (m_path_parameters r).
Definition has_query_parameter (name : str) (r : t) : bool :=
  Common.has_parameter name (m_query_parameters r).

Definition get_host (f : option (str -> str)) (r : t) : str := Common.transform (m_host r) f.
Definition get_path (f : option (str -> str)) (r : t) : str := Common.transform (m_path r) f.
Definition get_method (f : option (str -> str)) (r : t) : str := Common.transform (m_method r) f.
Definition get_protocol (f : option (str -> str)) (r : t) : str := Common.transform (m_protocol r) f.

Definition get_header (name default_value : str) (r : t) : str :=
  Common.get_first smm_insert name (m_headers r) default_value.
Definition get_header_f (name : str) (f : option (str -> str)) (r : t) : str :=
  match name with [] => [] | _ => Common.transform (get_header name [] r) f end.
Definition get_header_int (name : str) (default_value : Z) (r : t) : Z :=
  Common.parse_int (get_header name [] r) default_value.
Definition get_headers (name : str) (r : t) : smap str := Common.get_parameters_mm name (m_headers r).

Definition get_query_parameter (name default_value : str) (r : t) : str :=
  Common.get_first smm_insert name (m_query_parameters r) default_value.
Definition get_query_parameter_f (name : str) (f : option (str -> str)) (r : t) : str :=
  match name with [] => [] | _ => Common.transform (get_query_parameter name [] r) f end.
Definition get_query_parameters (name : str) (r : t) : smap str :=
  Common.get_parameters_mm name (m_query_parameters r).

Definition get_path_parameter (name default_value : str) (r : t) : str :=
  Common.get_first sm_insert name (m_path_parameters r) default_value.
Definition get_path_parameter_f (name : str) (f : option (str -> str)) (r : t) : str :=
  match name with [] => [] | _ => Common.transform (get_path_parameter name [] r) f end.
Definition get_path_parameters (name : str) (r : t) : smap str :=
  Common.get_parameters_m name (m_path_parameters r).

Definition set_body (v : list Z) (r : t) : t :=
  mk v (m_port r) (m_version r) (m_host r) (m_path r) (m_method r) (m_protocol r) (m_uri r)
    (m_headers r) (m_path_parameters r) (m_query_parameters r) (m_socket_open r).
Definition set_body_string (v : str) (r : t) : t := set_body (RString.to_bytes v) r.

(** Changing the endpoint closes the connection to the old one. *)
Definition close_socket (o : option bool) : option bool := match o with Some _ => Some false | None => None end.

Definition set_port (v : Z) (r : t) : t :=
  mk (m_body r) v (m_version r) (m_host r) (m_path r) (m_method r) (m_protocol r) (m_uri r)
    (m_headers r) (m_path_parameters r) (m_query_parameters r) (close_socket (m_socket_open r)).
Definition set_host (v : str) (r : t) : t :=
  mk (m_body r) (m_port r) (m_version r) v (m_path r) (m_method r) (m_protocol r) (m_uri r)
    (m_headers r) (m_path_parameters r) (m_query_parameters r) (close_socket (m_socket_open r)).
Definition set_version (v : Double.t) (r : t) : t :=
  mk (m_body r) (m_port r) v (m_host r) (m_path r) (m_method r) (m_protocol r) (m_uri r)
    (m_headers r) (m_path_parameters r) (m_query_parameters r) (m_socket_open r).
Definition set_path (v : str) (r : t) : t :=
  mk (m_body r) (m_port r) (m_version r) (m_host r) v (m_method r) (m_protocol r) (m_uri r)
    (m_headers r) (m_path_parameters r) (m_query_parameters r) (m_socket_open r).
Definition set_method (v : str) (r : t) : t :=
  mk (m_body r) (m_port r) (m_version r) (m_host r) (m_path r) v (m_protocol r) (m_uri r)
    (m_headers r) (m_path_parameters r) (m_query_parameters r) (m_socket_open r).
Definition set_protocol (v : str) (r : t) : t :=
  mk (m_body r) (m_port r) (m_version r) (m_host r) (m_path r) (m_method r) v (m_uri r)
    (m_headers r) (m_path_parameters r) (m_query_parameters r) (m_socket_open r).
Definition set_headers (v : smap str) (r : t) : t :=
  mk (m_body r) (m_port r) (m_version r) (m_host r) (m_path r) (m_method r) (m_protocol r) (m_uri r)
    v (m_path_parameters r) (m_query_parameters r) (m_socket_open r).
Definition add_header (name value : str) (r : t) : t :=
  set_headers (smm_insert name value (m_headers r)) r.
Definition set_header (name value : str) (r : t) : t :=
  set_headers (smm_insert name value (m_erase name (m_headers r))) r.
Definition set_query_parameters (v : smap str) (r : t) : t :=
  mk (m_body r) (m_port r) (m_version r) (m_host r) (m_path r) (m_method r) (m_protocol r) (m_uri r)
    (m_headers r) (m_path_parameters r) v (m_socket_open r).
Definition set_query_parameter (name value : str) (r : t) : t :=
  set_query_parameters (smm_insert name value (m_query_parameters r)) r.
Definition set_path_parameters (v : smap str) (r : t) : t :=
  mk (m_body r) (m_port r) (m_version r) (m_host r) (m_path r) (m_method r) (m_protocol r) (m_uri r)
    (m_headers r) v (m_query_parameters r) (m_socket_open r).
End Request.

(** ** Serialisation and parsing *)
Module Wire.
Definition crlf : str := lit (String "013" (String "010" EmptyString)).
Definition cr : str := lit (String "013" EmptyString).

(** The query a client sends: [name=value] pairs, each followed by ['&'],
    without the last character. *)
Definition query_string (parameters : smap str) : str :=
  let query := concat (map (fun p => Uri.encode_parameter p.1 ++ lit "=" ++
                                     Uri.encode_parameter p.2 ++ lit "&") parameters) in
  take (length query - 1) query.

Definition header_block (headers : smap str) : str :=
  match headers with
  | [] => []
  | _ => RString.join headers (lit ": ") crlf ++ crlf
  end.

(** The request target of [HttpImpl::to_bytes]. *)
Definition target (r : Request.t) : str :=
  let path := Request.get_path None r in
  let path := match Request.get_query_parameters [] r with
              | [] => path
              | ps => path ++ lit "?" ++ query_string ps
              end in
  match Request.m_uri r with
  | Some uri => match Uri.get_fragment uri with [] => path | f => path ++ lit "#" ++ f end
  | None => path
  end.

Definition wire_protocol (r : Request.t) : str :=
  let protocol := Request.get_protocol None r in
  if bool_decide (RString.uppercase protocol = lit "HTTPS") then lit "HTTP" else protocol.

(** [HttpImpl::to_bytes( request )] *)
Definition request_to_bytes (r : Request.t) : res (list Z) :=
  let* data := RString.format
    (RString.c_str (Request.get_method None r) ++ lit " " ++ RString.c_str (target r) ++ lit " "
     ++ RString.c_str (wire_protocol r) ++ lit "/" ++ Double.fmt_1f (Request.m_version r) ++ crlf) in
  ok (RString.to_bytes (data ++ header_block (Request.get_headers [] r) ++ crlf) ++ Request.m_body r).

(** [Http::to_bytes( response )] *)
Definition response_to_bytes (r : Response.t) : res (list Z) :=
  let* data := RString.format
    (RString.c_str (Response.m_protocol r) ++ lit "/" ++ Double.fmt_1f (Response.m_version r) ++ lit " "
     ++ Uri.to_dec (Response.m_status_code r) ++ lit " " ++ RString.c_str (Response.m_status_message r)
     ++ crlf) in
  ok (RString.to_bytes (data ++ header_block (Response.get_headers [] r) ++ crlf) ++ Response.m_body r).

(** [getline]: the text up to a line feed, which is consumed; it fails at
    the end of the stream. *)
Definition lf : ascii := "010"%char.

Definition getline (stream : str) : option (str * str) :=
  match stream with
  | [] => None
  | _ => match RString.find_char lf stream with
         | Some i => Some (take i stream, drop (S i) stream)
         | None => Some (stream, [])
         end
  end.

(** [([0-9a-zA-Z]* ) ([...]+) (HTTP/[0-9].[0-9])\s*] *)
Definition target_cls (c : ascii) : bool := is_alnum c || one_of ":@_~!,;=#%&'-./?$()*+" c.

Definition re_version : re :=
  Cats [Lit (lit "HTTP/"); Cls is_digit; Lit (lit "."); Cls is_digit].

Definition re_request_line : re :=
  Cats [Grp 1 (Star (Cls is_alnum)); Lit (lit " "); Grp 2 (Plus (Cls target_cls)); Lit (lit " ");
        Grp 3 re_version; Star (Cls is_space)].

Record request_line := { rl_path : str; rl_method : str; rl_version : str; rl_protocol : str }.

Definition bad_request_line : exn :=
  RuntimeError (lit "Your client has issued a malformed or illegal request status line. That’s all we know.").
Definition bad_request_header : exn :=
  RuntimeError (lit "Your client has issued a malformed or illegal request header. That’s all we know.").

(** [ServiceImpl::parse_request_line], a reader of the stream. *)
Definition parse_request_line : st str request_line := fun stream =>
  let '(data, rest) := match getline stream with Some x => x | None => ([], []) end in
  match regex_match re_request_line data with
  | None => (err bad_request_line, rest)
  | Some m =>
      let protocol := cap 3 m in
      let delimiter := default 0 (RString.find_char "/"%char protocol) in
      (ok {| rl_path := cap 2 m; rl_method := cap 1 m;
             rl_version := drop (S delimiter) protocol;
             rl_protocol := take delimiter protocol |}, rest)
  end.

(** [([^:.]* ): *(.* )\s*] *)
Definition re_header : re :=
  Cats [Grp 1 (Star (Cls (not_of ":."))); Lit (lit ":"); Star (Cls (ascii_eqb " "%char));
        Grp 2 (Star (Cls is_dot)); Star (Cls is_space)].

(** [ServiceImpl::parse_request_headers]; each iteration consumes a line, so
    fuel above the length of the stream is enough. *)
Fixpoint parse_headers_loop (fuel : nat) (headers : smap str) (stream : str) : res (smap str) * str :=
  match fuel with
  | O => (err Undef, stream)
  | S fuel =>
      match getline stream with
      | None => (ok headers, stream)
      | Some (data, rest) =>
          if bool_decide (data = cr) then (ok headers, rest)
          else match regex_match re_header data with
               | None => (err bad_request_header, rest)
               | Some m => parse_headers_loop fuel (smm_insert (cap 1 m) (cap 2 m) headers) rest
               end
      end
  end.

Definition parse_request_headers : st str (smap str) := fun stream =>
  parse_headers_loop (S (length stream)) [] stream.

(** [ServiceImpl::discard_request]: the lines up to and including the blank one. *)
Fixpoint discard_loop (fuel : nat) (stream : str) : str :=
  match fuel with
  | O => stream
  | S fuel =>
      match getline stream with
      | None => stream
      | Some (line, rest) => if bool_decide (line = cr) then rest else discard_loop fuel rest
      end
  end.
Definition discard_request (stream : str) : str := discard_loop (S (length stream)) stream.

(** The part of [ServiceImpl::parse_request] that reads the request: the
  state is the request and its stream; fields set before a failure stay set. *)
Definition on_stream {A} (c : st str A) : st (Request.t * str) A := fun '(r, stream) =>
  let '(x, stream') := c stream in (x, (r, stream')).
Definition on_request (f : Request.t -> Request.t) : st (Request.t * str) unit :=
  st_modify (fun '(r, stream) => (f r, stream)).

Definition parse_request : st (Request.t * str) unit :=
  do items <- on_stream parse_request_line ;;
  do uri <- st_lift (Uri.parse (lit "http://localhost" ++ rl_path items)) ;;
  do path <- st_lift (Uri.decode (Uri.get_path uri)) ;;
  do _ <- on_request (Request.set_path path) ;;
  do _ <- on_request (Request.set_method (rl_method items)) ;;
  do version <- st_lift (Double.stod (rl_version items)) ;;
  do _ <- on_request (Request.set_version version) ;;
  do headers <- on_stream parse_request_headers ;;
  do _ <- on_request (Request.set_headers headers) ;;
  do query <- st_lift (Uri.get_query_parameters uri) ;;
  on_request (Request.set_query_parameters query).
End Wire.
