(* ===== verification/WireFacts.v ===== *)
(** * restbed: what a client writes, the server reads back

    The lemmas behind the wire round trip: the request [HttpImpl::to_bytes]
    prints is the request [ServiceImpl::parse_request] fills in. *)

From Stdlib Require Import ZArith Lia Ascii String Bool.
From stdpp Require Import base tactics option list.
From S2P Require Import Prelude StdMap Regex RString Uri Message.
Import Regex Wire.

(** ** Languages of simple expressions *)

Lemma lang_star_cls p s : forallb p s = true -> lang (Star (Cls p)) s.
Proof.
  induction s as [|c s IH]; simpl; intros H; [constructor|]. bool_simpl.
  apply (L_StarCons (Cls p) [c] s); [by constructor|auto].
Qed.

Lemma lang_plus_cls p s : s <> [] -> forallb p s = true -> lang (Plus (Cls p)) s.
Proof.
  destruct s as [|c s]; [done|]. simpl. intros _ H. bool_simpl.
  apply (L_Cat (Cls p) (Star (Cls p)) [c] s); [by constructor|by apply lang_star_cls].
Qed.

Lemma lang_lit l : lang (Lit l) l.
Proof.
  induction l as [|c l IH]; simpl; [constructor|].
  apply (L_Cat (Cls (ascii_eqb c)) (Lit l) [c] l); [|done]. constructor. apply RString.ascii_eqb_refl.
Qed.

Lemma lang_lit_inv l s : lang (Lit l) s -> s = l.
Proof.
  revert s. induction l as [|c l IH]; simpl; intros s H; inversion H; subst; [done|].
  match goal with H : lang (Cls _) _ |- _ => inversion H; subst end.
  match goal with H : ascii_eqb _ _ = true |- _ => apply RString.ascii_eqb_eq in H; subst end.
  simpl. f_equal. auto.
Qed.

Lemma lang_cat_inv r1 r2 s :
  lang (Cat r1 r2) s -> exists s1 s2, s = s1 ++ s2 /\ lang r1 s1 /\ lang r2 s2.
Proof. inversion 1; subst; eauto. Qed.

(** ** URIs of request targets *)

Section Target.
Variables (path query : str).
Hypothesis path_slash : stops (not_of "/?#") path.
Hypothesis path_chars : forallb Uri.path_cls path = true.
Hypothesis query_chars : forallb Uri.path_cls query = true.

Definition target_uri (rest : str) : str := lit "http://localhost" ++ path ++ rest.

Lemma valid_target rest :
  rest = [] \/ rest = lit "?" ++ query -> Uri.is_valid (target_uri rest) = true.
Proof.
  intros Hrest. unfold Uri.is_valid. apply bool_decide_eq_true. apply regex_match_lang.
  unfold Uri.re_valid, target_uri. cbn [Cats].
  change (lit "http://localhost" ++ path ++ rest)
    with (lit "http" ++ lit "://" ++ [] ++ [] ++ (lit "localhost" ++ path) ++ rest).
  apply L_Cat.
  { apply (L_Cat _ _ (lit "h") (lit "ttp")); [by constructor|by apply lang_star_cls]. }
  apply L_Cat; [apply lang_lit|]. apply L_Cat; [constructor|]. apply L_Cat; [constructor|].
  apply L_Cat; [apply lang_plus_cls; [done|]; by apply Uri.forallb_app_true|].
  replace rest with (rest ++ []) by apply app_nil_r.
  apply L_Cat; [|constructor].
  destruct Hrest as [->| ->]; [constructor|]. apply L_OptSome. constructor.
  apply L_Cat; [apply lang_lit|by apply lang_star_cls].
Qed.

Lemma parse_target rest :
  rest = [] \/ rest = lit "?" ++ query ->
  Uri.parse (target_uri rest) = ok (Uri.mk (target_uri rest) false).
Proof. intros H. unfold Uri.parse, Uri.make. by rewrite valid_target. Qed.

Lemma path_of_target rest :
  stops (not_of "/?#") rest -> stops Uri.path_cls rest ->
  Uri.get_path (Uri.mk (target_uri rest) false) = path.
Proof.
  intros Hr1 Hr2.
  apply (Uri.get_path_whole "h"%char (lit "ttp") (lit "localhost") path rest); try done.
  by destruct path.
Qed.

Lemma query_of_target :
  query <> [] -> Uri.get_query (Uri.mk (target_uri (lit "?" ++ query)) false) = query.
Proof.
  intros Hq. unfold target_uri.
  replace (lit "http://localhost" ++ path ++ lit "?" ++ query)
    with ((lit "http://localhost" ++ path) ++ lit "?" ++ query ++ []) by (by rewrite app_nil_r, <-app_assoc).
  apply Uri.get_query_whole; [done| |done| |done].
  - apply Uri.forallb_app_true; [done|]. by apply Uri.path_cls_not_query.
  - revert query_chars. apply Uri.cls_incl. by vm_compute.
Qed.

Lemma no_query_of_target : Uri.get_query (Uri.mk (target_uri []) false) = [].
Proof.
  unfold Uri.get_query, Uri.get_group. cbn [Uri.m_uri].
  destruct (regex_search_anchored Uri.re_query (target_uri [])) as [c|] eqn:E; [|done].
  exfalso. unfold regex_search_anchored in E.
  assert (is_Some (run Uri.re_query (target_uri []) [] (fun _ c => Some c))) as H by eauto.
  apply run_decides in H; [|intros s c1 c2; split; eauto].
  destruct H as (s1 & s2 & Heq & Hl & _).
  assert ("?"%char ∈ s1) as Hin.
  { unfold Uri.re_query in Hl. cbn [Cats] in Hl.
    apply lang_cat_inv in Hl as (? & ? & -> & _ & (? & ? & -> & ->%lang_lit_inv & _)%lang_cat_inv).
    apply elem_of_app. right. apply elem_of_app. left. apply list_elem_of_here. }
  assert (forallb (not_of "?#") (target_uri []) = true) as Hall.
  { unfold target_uri. rewrite app_nil_r. apply Uri.forallb_app_true; [done|].
    by apply Uri.path_cls_not_query. }
  rewrite Heq, forallb_app in Hall. bool_simpl.
  rewrite forallb_forall in H. specialize (H "?"%char). apply list_elem_of_In in Hin.
  apply H in Hin. done.
Qed.
End Target.

Lemma decode_no_percent s : "%"%char ∉ s -> Uri.decode s = ok s.
Proof.
  induction s as [|c s IH]; simpl; intros H; [done|].
  apply not_elem_of_cons in H as [H1 H2]. rewrite RString.ascii_eqb_ne by congruence.
  rewrite IH by done. done.
Qed.

(** ** The query a client prints *)

Lemma query_string_intercalate params :
  query_string params = RString.intercalate "&"%char (map Uri.encode_pair params).
Proof.
  unfold query_string.
  assert (forall p ps,
    concat (map (fun p => Uri.encode_parameter p.1 ++ lit "=" ++ Uri.encode_parameter p.2 ++ lit "&") (p :: ps))
    = RString.intercalate "&"%char (map Uri.encode_pair (p :: ps)) ++ lit "&") as H.
  { intros p ps. revert p. induction ps as [|p' ps IH]; intros p.
    - cbn [map concat RString.intercalate]. unfold Uri.encode_pair. by simplify_list_eq.
    - specialize (IH p'). cbn [map concat RString.intercalate] in *. rewrite IH.
      set (X := match map _ ps with [] => _ | _ => _ end). clearbody X.
      unfold Uri.encode_pair. by simplify_list_eq. }
  destruct params as [|p ps]; [done|]. rewrite H, length_app.
  rewrite take_app_length'; [done|]. simpl. lia.
Qed.

(** Printable ASCII. *)
Definition printable (c : ascii) : bool := between 32 126 c.

Lemma encode_char_chars c : forallb Uri.path_cls (Uri.encode_char c) = true \/ printable c = false.
Proof. revert c. by_chars. Qed.

Lemma encode_chars s : forallb printable s = true -> forallb Uri.path_cls (Uri.encode s) = true.
Proof.
  unfold Uri.encode. induction s as [|c s IH]; simpl; intros H; [done|]. bool_simpl.
  apply Uri.forallb_app_true; [|auto]. destruct (encode_char_chars c); [done|congruence].
Qed.

Lemma printable_no_nul s : forallb printable s = true -> Uri.no_nul s.
Proof.
  intros H. apply Forall_forall. intros c Hc. rewrite forallb_forall in H.
  apply list_elem_of_In, H in Hc. unfold printable, between in Hc. bool_simpl. lia.
Qed.

Definition printable_pair (kv : str * str) : bool := forallb printable kv.1 && forallb printable kv.2.

Lemma query_string_chars params :
  forallb printable_pair params = true -> forallb Uri.path_cls (query_string params) = true.
Proof.
  rewrite query_string_intercalate. induction params as [|kv ps IH]; [done|].
  cbn [forallb]. intros H. bool_simpl.
  assert (forallb Uri.path_cls (Uri.encode_pair kv) = true) as Hkv.
  { unfold printable_pair in H. bool_simpl. unfold Uri.encode_pair.
    apply Uri.forallb_app_true; [by apply encode_chars|]. simpl. by apply encode_chars. }
  destruct ps as [|kv' ps]; [done|].
  change (RString.intercalate "&"%char (map Uri.encode_pair (kv :: kv' :: ps)))
    with (Uri.encode_pair kv ++ "&"%char :: RString.intercalate "&"%char (map Uri.encode_pair (kv' :: ps))).
  apply Uri.forallb_app_true; [done|]. apply andb_true_iff. split; [done|]. by apply IH.
Qed.

Lemma query_string_nonempty kv ps : query_string (kv :: ps) <> [].
Proof.
  rewrite query_string_intercalate. cbn [map RString.intercalate].
  pose proof (proj1 (Uri.encode_pair_token kv)). destruct (map Uri.encode_pair ps); [done|].
  by destruct (Uri.encode_pair kv).
Qed.

Lemma printable_pairs_no_nul params :
  forallb printable_pair params = true -> Forall (fun kv => Uri.no_nul kv.1 /\ Uri.no_nul kv.2) params.
Proof.
  intros H. apply Forall_forall. intros kv Hkv. rewrite forallb_forall in H.
  apply list_elem_of_In, H in Hkv. unfold printable_pair in Hkv. bool_simpl.
  auto using printable_no_nul.
Qed.

(** ** The request line *)

Lemma getline_line data rest : lf ∉ data -> getline (data ++ lf :: rest) = Some (data, rest).
Proof.
  intros H. unfold getline. destruct (data ++ lf :: rest) eqn:E; [by destruct data|].
  rewrite <-E. rewrite RString.find_char_app by done.
  by rewrite take_app_length, drop_S_app.
Qed.

Lemma target_cls_path s : forallb Uri.path_cls s = true -> forallb target_cls s = true.
Proof. apply Uri.cls_incl. by vm_compute. Qed.

Lemma match_request_line method target a b :
  forallb is_alnum method = true -> target <> [] -> forallb target_cls target = true ->
  is_digit a = true -> is_digit b = true ->
  exists m, regex_match re_request_line
      (method ++ lit " " ++ target ++ lit " " ++ (lit "HTTP/" ++ [a; "."%char; b]) ++ cr) = Some m
    /\ cap 1 m = method /\ cap 2 m = target /\ cap 3 m = lit "HTTP/" ++ [a; "."%char; b].
Proof.
  intros Hm Htn Ht Ha Hb. eexists. split.
  - unfold regex_match, re_request_line. cbn [Cats]. rewrite run_cat.
    apply run_grp_star; [done|done|]. rewrite run_cat, run_lit, run_cat.
    apply run_grp_plus; [done|done|done|]. rewrite run_cat, run_lit, run_cat, run_grp.
    unfold re_version. cbn [Cats]. rewrite <-app_assoc. rewrite run_cat, run_lit, run_cat.
    cbn [run app]. rewrite Ha. change (lit ".") with ["."%char]. cbn [Lit run].
    rewrite RString.ascii_eqb_refl, Hb. change cr with (cr ++ []) at 1.
    apply run_star_cls; [done|done|]. reflexivity.
  - cbn [cap Nat.eqb]. split_and!; [done|done|]. reflexivity.
Qed.

(** ** Headers *)

Definition header_ok (h : str * str) : bool :=
  forallb (fun c => not_of ":." c && is_dot c) h.1
  && forallb is_dot h.2
  && match h.2 with c :: _ => negb (ascii_eqb " "%char c) | [] => true end.

Definition header_line (h : str * str) : str := h.1 ++ lit ":" ++ lit " " ++ h.2 ++ cr.

Lemma is_dot_no_crlf s c : forallb is_dot s = true -> is_dot c = false -> c ∉ s.
Proof.
  intros H Hc Hin. rewrite forallb_forall in H. apply list_elem_of_In, H in Hin. congruence.
Qed.

Lemma header_ok_split h :
  header_ok h = true ->
  forallb (not_of ":.") h.1 = true /\ forallb is_dot h.1 = true /\ forallb is_dot h.2 = true
  /\ stops (ascii_eqb " "%char) (h.2 ++ cr).
Proof.
  unfold header_ok. intros H. bool_simpl. split_and!.
  - revert H. apply Uri.cls_incl. by vm_compute.
  - revert H. apply Uri.cls_incl. by vm_compute.
  - done.
  - destruct h.2; [done|]. simpl. by apply negb_true_iff.
Qed.

Lemma match_header h :
  header_ok h = true ->
  exists m, regex_match re_header (header_line h) = Some m /\ cap 1 m = h.1 /\ cap 2 m = h.2.
Proof.
  intros (H1 & _ & H2 & H3)%header_ok_split. eexists. split.
  - unfold regex_match, re_header, header_line. cbn [Cats]. rewrite run_cat.
    apply run_grp_star; [done|done|]. rewrite run_cat, run_lit, run_cat.
    apply run_star_cls; [done|done|]. rewrite run_cat.
    apply run_grp_star; [done|done|]. change cr with (cr ++ []).
    apply run_star_cls; [done|done|]. reflexivity.
  - done.
Qed.

Lemma header_line_no_lf h : header_ok h = true -> lf ∉ header_line h.
Proof.
  intros (_ & H1 & H2 & _)%header_ok_split. unfold header_line. rewrite !not_elem_of_app. split_and!.
  - by apply is_dot_no_crlf.
  - by apply (bool_decide_eq_true_1 _).
  - by apply (bool_decide_eq_true_1 _).
  - by apply is_dot_no_crlf.
  - by apply (bool_decide_eq_true_1 _).
Qed.

Lemma header_line_not_cr h : bool_decide (header_line h = cr) = false.
Proof.
  apply bool_decide_eq_false. intros E. apply (f_equal length) in E.
  unfold header_line in E. rewrite !length_app in E. simpl in E. lia.
Qed.

Definition header_lines (hs : smap str) : str := concat (map (fun h => header_line h ++ [lf]) hs).

Lemma header_lines_length hs : length hs <= length (header_lines hs).
Proof.
  unfold header_lines. induction hs as [|h hs IH]; simpl; [lia|]. rewrite !length_app. simpl. lia.
Qed.

Lemma parse_headers_lines hs fuel acc rest :
  forallb header_ok hs = true -> length hs < fuel ->
  parse_headers_loop fuel acc (header_lines hs ++ crlf ++ rest) =
  (ok (fold_left (fun m h => smm_insert h.1 h.2 m) hs acc), rest).
Proof.
  revert fuel acc. induction hs as [|h hs IH]; intros fuel acc Hok Hf; simpl in Hf;
    (destruct fuel as [|fuel]; [lia|]).
  - cbn [parse_headers_loop]. change (header_lines [] ++ crlf ++ rest) with (cr ++ lf :: rest).
    rewrite getline_line by (by apply (bool_decide_eq_true_1 _)). by rewrite bool_decide_true.
  - cbn [forallb] in Hok. bool_simpl. cbn [parse_headers_loop].
    replace (header_lines (h :: hs) ++ crlf ++ rest)
      with (header_line h ++ lf :: header_lines hs ++ crlf ++ rest).
    2: { unfold header_lines. simpl. by simplify_list_eq. }
    rewrite getline_line by (by apply header_line_no_lf). rewrite header_line_not_cr.
    destruct (match_header h) as (m & -> & -> & ->); [done|].
    rewrite IH by (done || lia). done.
Qed.

Lemma header_block_lines hs :
  forallb header_ok hs = true -> header_block hs = header_lines hs.
Proof.
  intros Hok. destruct hs as [|[k v] hs _] using rev_ind; [done|].
  unfold header_block. destruct (hs ++ [(k, v)]) eqn:E; [by destruct hs|]. rewrite <-E in *. clear E.
  rewrite forallb_app in Hok. bool_simpl. simpl in H0. rewrite andb_true_r in H0.
  apply header_ok_split in H0 as (_ & _ & Hv & _). simpl in Hv.
  assert (exists body c, k ++ lit ": " ++ v = body ++ [c] /\ c ∉ crlf) as (body & c & Hb & Hc).
  { destruct v as [|c v _] using rev_ind.
    - exists (k ++ lit ":"), " "%char. split; [by simplify_list_eq|].
      by apply (bool_decide_eq_true_1 _).
    - exists (k ++ lit ": " ++ v), c. split; [by simplify_list_eq|].
      rewrite forallb_app in Hv. bool_simpl. simpl in H1. rewrite andb_true_r in H1.
      intros Hin. revert c H1 Hin.
      apply (forall_chars_dec (fun c => is_dot c = true -> c ∈ crlf -> False)). by vm_compute. }
  rewrite (RString.join_snoc _ _ _ _ _ _ _ Hb Hc). unfold header_lines.
  rewrite map_app, concat_app. simpl. rewrite app_nil_r, <-app_assoc. f_equal.
  - f_equal. apply map_ext. intros [k' v']. unfold header_line, crlf, cr, lf. by simplify_list_eq.
  - unfold header_line, crlf, cr, lf. by simplify_list_eq.
Qed.

(** ** A whole request *)

(** [printf( "%.1f", stod( "a.b" ) )] prints ["a.b"]. *)
Definition version_text (a b : ascii) : str := [a; "."%char; b].

Definition version_prints (a b : ascii) : bool :=
  match Double.stod (version_text a b) with
  | inr v => bool_decide (Double.fmt_1f v = version_text a b)
  | inl _ => false
  end.

Lemma stod_fmt_1f a b v :
  is_digit a = true -> is_digit b = true ->
  Double.stod (version_text a b) = inr v -> Double.fmt_1f v = version_text a b.
Proof.
  intros Ha Hb Hv.
  assert (implb (is_digit a) (implb (is_digit b) (version_prints a b)) = true) as H.
  { revert a b Ha Hb Hv. intros a b _ _ _. revert a b. apply forall_chars2. by vm_compute. }
  rewrite Ha, Hb in H. simpl in H. unfold version_prints in H. rewrite Hv in H.
  by apply bool_decide_eq_true in H.
Qed.

(** The requests a client can hand to the serialiser: no URI set, a method of
    letters and digits, an absolute path of the characters of a URI, whose
    percent escapes decode to [p], HTTP, a version [a.b], printable query
    parameters, headers without line breaks, and a request line that fits the
    1024 characters of [String::format]. *)
Record sendable (r : Request.t) (a b : ascii) (p : str) : Prop := {
  s_method : forallb is_alnum (Request.m_method r) = true;
  s_path_head : exists p, Request.m_path r = "/"%char :: p;
  s_path : forallb Uri.path_cls (Request.m_path r) = true;
  s_decodes : Uri.decode (Request.m_path r) = ok p;
  s_protocol : Request.m_protocol r = lit "HTTP";
  s_uri : Request.m_uri r = None;
  s_digits : is_digit a && is_digit b = true;
  s_version : Double.stod (version_text a b) = inr (Request.m_version r);
  s_query : forallb printable_pair (Request.m_query_parameters r) = true;
  s_query_sorted : mm_sorted str_ltb (Request.m_query_parameters r);
  s_headers : forallb header_ok (Request.m_headers r) = true;
  s_headers_sorted : mm_sorted str_ltb (Request.m_headers r);
  s_length : length (Request.m_method r) + length (target r) <= 1012 }.

(** The client does not encode the path and the server decodes it. *)
Definition received (r : Request.t) (p : str) (r0 : Request.t) : Request.t :=
  Request.set_query_parameters (Request.m_query_parameters r)
    (Request.set_headers (Request.m_headers r)
      (Request.set_version (Request.m_version r)
        (Request.set_method (Request.m_method r)
          (Request.set_path p r0)))).

Lemma class_nonzero p s :
  forallb (fun c => implb (p c) (negb (code c =? 0)%Z)) all_chars = true ->
  forallb p s = true -> Forall (fun c => code c <> 0%Z) s.
Proof.
  intros Hp H. apply Forall_forall. intros c Hc.
  rewrite forallb_forall in H. apply list_elem_of_In, H in Hc.
  pose proof (forall_chars _ Hp c) as Hn. simpl in Hn. rewrite Hc in Hn. simpl in Hn. bool_simpl. lia.
Qed.

Lemma class_no_nul p s :
  forallb (fun c => implb (p c) (negb (code c =? 0)%Z)) all_chars = true ->
  forallb p s = true -> RString.c_str s = s.
Proof. eauto using RString.c_str_no_nul, class_nonzero. Qed.

Section Roundtrip.
Variables (r : Request.t) (a b : ascii) (p : str).
Hypothesis Hr : sendable r a b p.

Let rest : str := match Request.m_query_parameters r with
                  | [] => [] | ps => lit "?" ++ query_string ps end.

Lemma target_split : target r = Request.m_path r ++ rest.
Proof.
  unfold target, rest, Request.get_path, Common.transform. rewrite (s_uri _ _ _ _ Hr).
  change (Request.get_query_parameters [] r) with (Request.m_query_parameters r).
  destruct (Request.m_query_parameters r); [by rewrite app_nil_r|done].
Qed.

Lemma target_uri_split :
  lit "http://localhost" ++ target r = target_uri (Request.m_path r) rest.
Proof. unfold target_uri. by rewrite target_split. Qed.

Lemma rest_shape :
  (rest = [] \/ rest = lit "?" ++ query_string (Request.m_query_parameters r))
  /\ stops (not_of "/?#") rest /\ stops Uri.path_cls rest
  /\ forallb target_cls rest = true.
Proof.
  pose proof (query_string_chars _ (s_query _ _ _ _ Hr)) as Hq. unfold rest.
  destruct (Request.m_query_parameters r) as [|kv ps]; [by split_and!; [left|..]|].
  split_and!; [by right|done|done|]. apply Uri.forallb_app_true; [done|]. by apply target_cls_path.
Qed.

Lemma path_stops : stops (not_of "/?#") (Request.m_path r).
Proof. by destruct (s_path_head _ _ _ _ Hr) as [q ->]. Qed.

Lemma target_chars : target r <> [] /\ forallb target_cls (target r) = true.
Proof.
  rewrite target_split. destruct rest_shape as (_ & _ & _ & H). split.
  - by destruct (s_path_head _ _ _ _ Hr) as [q ->].
  - apply Uri.forallb_app_true; [|done]. apply target_cls_path, (s_path _ _ _ _ Hr).
Qed.

(** What the client puts on the wire. *)
Definition request_line_text : str :=
  Request.m_method r ++ lit " " ++ target r ++ lit " " ++ (lit "HTTP/" ++ version_text a b) ++ cr.

Lemma request_text :
  request_to_bytes r =
  ok (RString.to_bytes (request_line_text ++ lf :: header_lines (Request.m_headers r) ++ crlf)
      ++ Request.m_body r).
Proof.
  pose proof (s_digits _ _ _ _ Hr) as Hd. bool_simpl.
  unfold request_to_bytes, Request.get_method, wire_protocol, Request.get_protocol, Common.transform.
  rewrite (s_protocol _ _ _ _ Hr). simpl bool_decide.
  rewrite (stod_fmt_1f a b) by eauto using s_version.
  rewrite (class_no_nul is_alnum); [|by vm_compute|apply (s_method _ _ _ _ Hr)].
  rewrite (class_no_nul target_cls (target r)); [|by vm_compute|apply target_chars].
  change (RString.c_str (if false then lit "HTTP" else lit "HTTP")) with (lit "HTTP").
  match goal with |- context [RString.format ?x] =>
    replace x with (request_line_text ++ [lf])
      by (unfold request_line_text, crlf, cr, lf; by simplify_list_eq) end.
  unfold RString.format.
  rewrite (proj2 (Z.ltb_ge _ _)).
  2: { pose proof (s_length _ _ _ _ Hr). unfold request_line_text. rewrite !length_app. simpl. lia. }
  cbn [res_bind ok]. unfold ok. do 3 f_equal.
  change (Request.get_headers [] r) with (Request.m_headers r).
  rewrite header_block_lines by apply (s_headers _ _ _ _ Hr).
  rewrite (class_no_nul (fun c => target_cls c || one_of " " c || is_space c) (request_line_text ++ [lf]));
    [by simplify_list_eq|by vm_compute|].
  unfold request_line_text. rewrite !forallb_app, !andb_true_iff. split_and!; try done.
  - generalize (s_method _ _ _ _ Hr). apply Uri.cls_incl. by vm_compute.
  - generalize (proj2 target_chars). apply Uri.cls_incl. by vm_compute.
  - assert (forallb (fun c => is_digit c || one_of "." c) (version_text a b) = true) as Hv
      by (unfold version_text; simpl; by rewrite H, H0).
    revert Hv. apply Uri.cls_incl. by vm_compute.
Qed.

Lemma request_line_no_lf : lf ∉ request_line_text.
Proof.
  pose proof (s_digits _ _ _ _ Hr) as Hd. bool_simpl.
  unfold request_line_text. rewrite !not_elem_of_app. split_and!.
  all: try by apply (bool_decide_eq_true_1 _).
  - apply is_dot_no_crlf; [|done]. generalize (s_method _ _ _ _ Hr). apply Uri.cls_incl. by vm_compute.
  - apply is_dot_no_crlf; [|done]. generalize (proj2 target_chars). apply Uri.cls_incl. by vm_compute.
  - unfold version_text. rewrite !not_elem_of_cons. split_and!; try done.
    + intros <-. done.
    + intros <-. done.
    + apply not_elem_of_nil.
Qed.

Lemma read_request_line stream :
  parse_request_line (request_line_text ++ lf :: stream) =
  (ok {| rl_path := target r; rl_method := Request.m_method r;
         rl_version := version_text a b; rl_protocol := lit "HTTP" |}, stream).
Proof.
  pose proof (s_digits _ _ _ _ Hr) as Hd. bool_simpl.
  unfold parse_request_line. rewrite getline_line by apply request_line_no_lf.
  destruct (match_request_line (Request.m_method r) (target r) a b) as (m & Hm & H1 & H2 & H3);
    try done; try apply (s_method _ _ _ _ Hr); try apply target_chars.
  unfold request_line_text, version_text. by rewrite Hm, H1, H2, H3.
Qed.

Lemma read_uri :
  let u := Uri.mk (lit "http://localhost" ++ target r) false in
  Uri.parse (lit "http://localhost" ++ target r) = ok u
  /\ Uri.get_path u = Request.m_path r
  /\ Uri.get_query_parameters u = ok (Request.m_query_parameters r).
Proof.
  cbv zeta. rewrite target_uri_split. destruct rest_shape as (Hrest & H1 & H2 & H3).
  pose proof (query_string_chars _ (s_query _ _ _ _ Hr)) as Hq. split_and!.
  - apply (parse_target _ (query_string (Request.m_query_parameters r)));
      [apply (s_path _ _ _ _ Hr)|done|done].
  - apply path_of_target; [apply path_stops|apply (s_path _ _ _ _ Hr)|done|done].
  - unfold Uri.get_query_parameters, rest.
    destruct (Request.m_query_parameters r) as [|kv ps] eqn:E.
    + rewrite no_query_of_target by apply (s_path _ _ _ _ Hr). done.
    + rewrite query_of_target; [|apply (s_path _ _ _ _ Hr)|done|apply query_string_nonempty].
      rewrite query_string_intercalate, <-E.
      rewrite Uri.parse_encoded_pairs by apply printable_pairs_no_nul, (s_query _ _ _ _ Hr).
      f_equal. apply mm_of_list_id, (s_query_sorted _ _ _ _ Hr).
Qed.

Lemma read_request r0 tail :
  parse_request (r0, request_line_text ++ lf :: header_lines (Request.m_headers r) ++ crlf ++ tail)
  = (ok tt, (received r p r0, tail)).
Proof.
  destruct read_uri as (Hu & Hp & Hq).
  unfold parse_request. erewrite st_bind_ok by (unfold on_stream; by rewrite read_request_line).
  cbn [rl_path rl_method rl_version].
  erewrite st_bind_ok by (unfold st_lift; by rewrite Hu). cbn beta.
  rewrite Hp. erewrite st_bind_ok by (unfold st_lift; by rewrite (s_decodes _ _ _ _ Hr)).
  do 2 (erewrite st_bind_ok by reflexivity).
  erewrite st_bind_ok by (unfold st_lift; by rewrite (s_version _ _ _ _ Hr)).
  erewrite st_bind_ok by reflexivity.
  erewrite st_bind_ok.
  2: { unfold on_stream, parse_request_headers.
       rewrite parse_headers_lines; [done|apply (s_headers _ _ _ _ Hr)|].
       rewrite length_app. pose proof (header_lines_length (Request.m_headers r)). lia. }
  erewrite st_bind_ok by reflexivity.
  erewrite st_bind_ok by (unfold st_lift; by rewrite Hq).
  unfold on_request, st_modify, received. f_equal. f_equal.
  change (fold_left _ _ _) with (mm_of_list str_ltb (Request.m_headers r)).
  rewrite mm_of_list_id by (apply _ || apply (s_headers_sorted _ _ _ _ Hr)). done.
Qed.
End Roundtrip.


Definition sample_request : Request.t :=
  Request.add_header (lit "Host") (lit "localhost:80")
    (Request.add_header (lit "Accept") (lit "*/*")
      (Request.set_query_parameter (lit "a b") (lit "c&=d")
        (Request.set_body_string (lit "body")
          (Request.set_path (lit "/v1/%66ilter") Request.init)))).

Lemma sample_sendable : sendable sample_request "1"%char "1"%char (lit "/v1/filter").
Proof.
  split; try (by vm_compute); try (by eexists);
    try (apply (bool_decide_eq_true_1 _); by vm_compute); vm_compute; try lia; repeat constructor.
Qed.

