(* ===== verification/WebSocket.v ===== *)
(** * restbed: WebSocket messages, frames and the frame reader

    Models [web_socket_message.cpp], [detail/web_socket_manager_impl.cpp]
    (the frame codec and the table of open sockets) and the reader of
    [detail/web_socket_impl.cpp], a state machine fed by exact-length socket
    reads. Bytes are values of [Z]; a read outside a [Bytes] vector and the use
    of a null message are [Undef]. *)

From Stdlib Require Import ZArith Lia Ascii String Bool.
From stdpp Require Import base tactics option list.
From S2P Require Import Prelude StdMap RString.

Local Open Scope Z_scope.

(** ** Messages *)
Module WebSocketMessage.
(** [OpCode]: any four-bit value can arrive on the wire. *)
Definition CONTINUATION_FRAME := 0.
Definition TEXT_FRAME := 1.
Definition BINARY_FRAME := 2.
Definition CONNECTION_CLOSE_FRAME := 8.
Definition PING_FRAME := 9.
Definition PONG_FRAME := 10.

(** [WebSocketMessageImpl] *)
Record t := mk {
  m_data : list Z; m_mask : Z; m_length : Z; m_extended_length : Z;
  m_mask_flag : bool; m_final_frame_flag : bool;
  m_reserved_flag_one : bool; m_reserved_flag_two : bool; m_reserved_flag_three : bool;
  m_opcode : Z }.

Definition init : t := mk [] 0 0 0 false true false false false BINARY_FRAME.

Definition set_data (v : list Z) (m : t) : t :=
  mk v (m_mask m) (m_length m) (m_extended_length m) (m_mask_flag m) (m_final_frame_flag m)
    (m_reserved_flag_one m) (m_reserved_flag_two m) (m_reserved_flag_three m) (m_opcode m).
Definition set_data_string (v : str) (m : t) : t := set_data (RString.to_bytes v) m.
Definition set_opcode (v : Z) (m : t) : t :=
  mk (m_data m) (m_mask m) (m_length m) (m_extended_length m) (m_mask_flag m) (m_final_frame_flag m)
    (m_reserved_flag_one m) (m_reserved_flag_two m) (m_reserved_flag_three m) v.
Definition set_length (v : Z) (m : t) : t :=
  mk (m_data m) (m_mask m) v (m_extended_length m) (m_mask_flag m) (m_final_frame_flag m)
    (m_reserved_flag_one m) (m_reserved_flag_two m) (m_reserved_flag_three m) (m_opcode m).
Definition set_extended_length (v : Z) (m : t) : t :=
  mk (m_data m) (m_mask m) (m_length m) v (m_mask_flag m) (m_final_frame_flag m)
    (m_reserved_flag_one m) (m_reserved_flag_two m) (m_reserved_flag_three m) (m_opcode m).
Definition set_mask_flag (v : bool) (m : t) : t :=
  mk (m_data m) (m_mask m) (m_length m) (m_extended_length m) v (m_final_frame_flag m)
    (m_reserved_flag_one m) (m_reserved_flag_two m) (m_reserved_flag_three m) (m_opcode m).
(** Setting a masking key also sets the flag, and a zero key clears it. *)
Definition set_mask (v : Z) (m : t) : t :=
  mk (m_data m) v (m_length m) (m_extended_length m) (negb (v =? 0)) (m_final_frame_flag m)
    (m_reserved_flag_one m) (m_reserved_flag_two m) (m_reserved_flag_three m) (m_opcode m).
Definition set_final_frame_flag (v : bool) (m : t) : t :=
  mk (m_data m) (m_mask m) (m_length m) (m_extended_length m) (m_mask_flag m) v
    (m_reserved_flag_one m) (m_reserved_flag_two m) (m_reserved_flag_three m) (m_opcode m).
Definition set_reserved_flags (r1 r2 r3 : bool) (m : t) : t :=
  mk (m_data m) (m_mask m) (m_length m) (m_extended_length m) (m_mask_flag m) (m_final_frame_flag m)
    r1 r2 r3 (m_opcode m).

(** [WebSocketMessage( code, data, mask )] *)
Definition make (opcode : Z) (data : list Z) (mask : Z) : t :=
  let length := Z.of_nat (List.length data) in
  let mask_flag := negb (mask =? 0) in
  if length <=? 125
  then mk data mask (u8 length) 0 mask_flag true false false false opcode
  else mk data mask (if length <? 65535 then 126 else 127) length mask_flag true false false false opcode.
End WebSocketMessage.

Import WebSocketMessage (m_data, m_mask, m_length, m_extended_length, m_mask_flag, m_opcode,
  m_final_frame_flag, m_reserved_flag_one, m_reserved_flag_two, m_reserved_flag_three).

(** ** The frame codec: [WebSocketManagerImpl::parse] and [compose] *)
Module Codec.
Definition at_ (packet : list Z) (i : nat) : res Z :=
  match packet !! i with Some b => ok b | None => err Undef end.

Definition bit (b mask : Z) : bool := negb (Z.land b mask =? 0).

(** [( packet_length - ( offset + n ) ) <= 0] in [size_t] arithmetic. *)
Definition exhausted (packet_length need : Z) : bool := u64 (packet_length - need) <=? 0.

(** [payload[ index ] ^= mask[ index % 4 ]] *)
Definition xor_mask (mask : list Z) (data : list Z) : list Z :=
  imap (fun i d => Z.lxor d (nth (i mod 4) mask 0)) data.

Definition mask_bytes (key : Z) : list Z :=
  [Z.land (Z.shiftr key 24) 255; Z.land (Z.shiftr key 16) 255;
   Z.land (Z.shiftr key 8) 255; Z.land key 255].

(** The extended length: the message and the offset after it; [None] is
    the null pointer the code returns. *)
Definition parse_length (packet : list Z) (m : WebSocketMessage.t)
    : res (option (WebSocketMessage.t * nat)) :=
  let packet_length := Z.of_nat (List.length packet) in
  let length := m_length m in
  if length =? 126 then
    if exhausted packet_length 3 then ok None else
    let* b2 := at_ packet 2 in
    let* b3 := at_ packet 3 in
    ok (Some (WebSocketMessage.set_extended_length (Z.lor (Z.shiftl b2 8) b3) m, 4%nat))
  else if length =? 127 then
    if exhausted packet_length 5 then ok None else
    let* b2 := at_ packet 2 in
    let* b3 := at_ packet 3 in
    let* b4 := at_ packet 4 in
    let* b5 := at_ packet 5 in
    let l := Z.lor length (u64 (signed 32 (Z.shiftl b2 24))) in
    let l := Z.lor l (Z.shiftl b3 16) in
    let l := Z.lor l (Z.shiftl b4 8) in
    let l := b5 in  (* an assignment: the three bytes above are overwritten *)
    ok (Some (WebSocketMessage.set_extended_length l m, 6%nat))
  else ok (Some (m, 2%nat)).

Definition parse_mask (packet : list Z) (m : WebSocketMessage.t) (offset : nat)
    : res (option (WebSocketMessage.t * nat)) :=
  if m_mask_flag m then
    if exhausted (Z.of_nat (List.length packet)) (Z.of_nat offset + 3) then ok None else
    let* k0 := at_ packet offset in
    let* k1 := at_ packet (offset + 1) in
    let* k2 := at_ packet (offset + 2) in
    let* k3 := at_ packet (offset + 3) in
    let mask := u32 (Z.shiftl k0 24) in
    let mask := Z.lor mask (Z.shiftl k1 16) in
    let mask := Z.lor mask (Z.shiftl k2 8) in
    let mask := Z.lor mask k3 in
    ok (Some (WebSocketMessage.set_mask mask m, (offset + 4)%nat))
  else ok (Some (m, offset)).

Definition parse_payload (packet : list Z) (m : WebSocketMessage.t) (offset : nat) : WebSocketMessage.t :=
  let payload := drop offset packet in
  let payload := if m_mask_flag m then xor_mask (mask_bytes (m_mask m)) payload else payload in
  WebSocketMessage.set_data payload m.

Definition parse_flags_byte (b : Z) : WebSocketMessage.t :=
  WebSocketMessage.set_opcode (Z.land b 15)
    (WebSocketMessage.set_reserved_flags (bit b 64) (bit b 32) (bit b 16)
      (WebSocketMessage.set_final_frame_flag (bit b 128) WebSocketMessage.init)).

Definition parse (packet : list Z) : res (option WebSocketMessage.t) :=
  match packet with
  | [] => ok None
  | [b0] => ok (Some (parse_flags_byte b0))
  | b0 :: b1 :: rest =>
      let m := WebSocketMessage.set_length (Z.land b1 127)
                 (WebSocketMessage.set_mask_flag (bit b1 128) (parse_flags_byte b0)) in
      match rest with
      | [] => ok (Some m)
      | _ =>
          let* x := parse_length packet m in
          match x with
          | None => ok None
          | Some (m, offset) =>
              let* y := parse_mask packet m offset in
              match y with
              | None => ok None
              | Some (m, offset) => ok (Some (parse_payload packet m offset))
              end
          end
      end
  end.

Definition compose_flags (m : WebSocketMessage.t) : Z :=
  let byte := if m_final_frame_flag m then 128 else 0 in
  let byte := if m_reserved_flag_one m then Z.lor byte 64 else byte in
  let byte := if m_reserved_flag_two m then Z.lor byte 32 else byte in
  let byte := if m_reserved_flag_three m then Z.lor byte 16 else byte in
  Z.lor byte (Z.land (m_opcode m) 15).

Definition byte_of (v shift : Z) : Z := Z.land (Z.shiftr v shift) 255.

Definition compose_length (m : WebSocketMessage.t) : list Z :=
  let length := m_length m in
  let e := m_extended_length m in
  if length =? 126 then
    [if m_mask_flag m then 254 else 126; byte_of e 8; byte_of e 0]
  else if length =? 127 then
    [if m_mask_flag m then 255 else 127; byte_of e 56; byte_of e 48; byte_of e 40; byte_of e 32;
     byte_of e 24; byte_of e 16; byte_of e 8; byte_of e 0]
  else [if m_mask_flag m then Z.lor length 128 else Z.land length 127].

Definition compose_payload (m : WebSocketMessage.t) : list Z :=
  if m_mask_flag m then
    let k := m_mask m in
    let mask := [byte_of k 0; byte_of k 8; byte_of k 16; byte_of k 24] in
    [byte_of k 24; byte_of k 16; byte_of k 8; byte_of k 0] ++ xor_mask mask (m_data m)
  else m_data m.

Definition compose (m : WebSocketMessage.t) : list Z :=
  compose_flags m :: compose_length m ++ compose_payload m.
End Codec.

(** ** The table of sockets: [WebSocketManagerImpl::create], [read], [destroy] *)
Module Manager.
Section Sockets.
Context {socket : Type} (get_key : socket -> str).

(** [create] draws a fresh key from [kashmir] ([uuid]) and registers the
    socket built for it; without a session it does nothing. *)
Definition create (uuid : str) (make_socket : str -> socket) (has_session : bool)
    (m_sockets : smap socket) : option socket * smap socket :=
  if has_session then
    let s := make_socket uuid in (Some s, sm_insert uuid s m_sockets)
  else (None, m_sockets).

Definition read (key : str) (m_sockets : smap socket) : option socket := m_find key m_sockets.
Definition update (s : socket) : socket := s.
Definition destroy (s : option socket) (m_sockets : smap socket) : smap socket :=
  match s with None => m_sockets | Some s => m_erase (get_key s) m_sockets end.
End Sockets.
End Manager.

(** ** The frame reader: [WebSocketImpl::listen], [parse_flags],
    [parse_length_and_mask], [parse_payload] *)
Module Reader.
(** Which callback waits for the socket, with the bytes it was bound to and
    the number of bytes asked for. *)
Inductive state : Type :=
| Listening
| ReadingLength (packet : list Z) (length : Z)
| ReadingPayload (packet : list Z) (length : Z).

Definition need (s : state) : Z :=
  match s with Listening => 2 | ReadingLength _ n => n | ReadingPayload _ n => n end.

(** Dereferencing the message that [parse] returned. *)
Definition deref (x : res (option WebSocketMessage.t)) : res WebSocketMessage.t :=
  let* m := x in match m with Some m => ok m | None => err Undef end.

Definition parse_flags (data : list Z) : res state :=
  let* message := deref (Codec.parse data) in
  let length := m_length message in
  let length := if length =? 126 then 2 else if length =? 127 then 4 else 0 in
  let length := if m_mask_flag message then u8 (length + 4) else length in
  ok (ReadingLength data length).

Definition parse_length_and_mask (data packet : list Z) : res state :=
  let packet := packet ++ data in
  let* message := deref (Codec.parse packet) in
  let length := m_extended_length message in
  let length := if length =? 0 then m_length message else length in
  ok (ReadingPayload packet length).

(** The message goes to the handler (a null message too); then [listen]. *)
Definition parse_payload (data packet : list Z) : res (option WebSocketMessage.t * state) :=
  let packet := packet ++ data in
  let* message := Codec.parse packet in
  ok (message, Listening).

(** One completed socket read of [need s] bytes. *)
Definition step (s : state) (data : list Z) : res (list (option WebSocketMessage.t) * state) :=
  match s with
  | Listening => let* s' := parse_flags data in ok ([], s')
  | ReadingLength packet _ => let* s' := parse_length_and_mask data packet in ok ([], s')
  | ReadingPayload packet _ => let* (m, s') := parse_payload data packet in ok ([m], s')
  end.

(** Everything the reader delivers from the bytes received so far. *)
Fixpoint run (fuel : nat) (s : state) (buffer : list Z)
    : res (list (option WebSocketMessage.t) * state * list Z) :=
  match fuel with
  | O => ok ([], s, buffer)
  | S fuel =>
      let n := Z.to_nat (need s) in
      if (n <=? List.length buffer)%nat then
        let* (ms, s') := step s (take n buffer) in
        let* (r, s'', b) := run fuel s' (drop n buffer) in
        ok (ms ++ r, s'', b)
      else ok ([], s, buffer)
  end.
End Reader.

(** ** Codec: lemmas *)
Module CodecFacts.
Import Codec.

Definition byte (z : Z) : Prop := 0 <= z < 256.

Lemma exhausted_false p n : n < p < 2 ^ 64 -> 0 <= n -> exhausted p n = false.
Proof.
  intros Hp Hn. unfold exhausted, u64. rewrite wrap_small by width_lia.
  apply Z.leb_gt. lia.
Qed.

(** An integer as its four bytes. *)
Definition key_of (k0 k1 k2 k3 : Z) : Z :=
  Z.lor (Z.lor (Z.lor (u32 (Z.shiftl k0 24)) (Z.shiftl k1 16)) (Z.shiftl k2 8)) k3.

Lemma key_of_sum k0 k1 k2 k3 :
  byte k0 -> byte k1 -> byte k2 -> byte k3 ->
  key_of k0 k1 k2 k3 = k0 * 2 ^ 24 + k1 * 2 ^ 16 + k2 * 2 ^ 8 + k3.
Proof.
  unfold byte. intros H0 H1 H2 H3. unfold key_of, u32.
  rewrite wrap_small by (rewrite Z.shiftl_mul_pow2 by lia; width_lia).
  replace (Z.shiftl k0 24) with (Z.shiftl (Z.shiftl k0 8) 16) by (by rewrite Z.shiftl_shiftl).
  rewrite <-Z.shiftl_lor, (lor_shiftl_add k0 k1 8) by width_lia.
  replace (Z.shiftl (k0 * 2 ^ 8 + k1) 16) with (Z.shiftl (Z.shiftl (k0 * 2 ^ 8 + k1) 8) 8)
    by (by rewrite Z.shiftl_shiftl).
  rewrite <-Z.shiftl_lor, (lor_shiftl_add _ k2 8) by width_lia.
  rewrite lor_shiftl_add by width_lia. lia.
Qed.

Lemma mask_bytes_key k0 k1 k2 k3 :
  byte k0 -> byte k1 -> byte k2 -> byte k3 ->
  mask_bytes (key_of k0 k1 k2 k3) = [k0; k1; k2; k3].
Proof.
  intros H0 H1 H2 H3. rewrite key_of_sum by done. unfold mask_bytes, byte in *.
  rewrite !shiftr_land_255 by lia. rewrite land_255. unfold u8, wrap.
  repeat f_equal; Z.div_mod_to_equations; lia.
Qed.

Lemma xor_mask_involutive mask data : xor_mask mask (xor_mask mask data) = data.
Proof.
  unfold xor_mask. apply list_eq. intros i. rewrite !list_lookup_imap. destruct (data !! i); simpl; [|done].
  by rewrite Z.lxor_assoc, Z.lxor_nilpotent, Z.lxor_0_r.
Qed.

Lemma length_xor_mask mask data : length (xor_mask mask data) = length data.
Proof. apply length_imap. Qed.

(** *** What [parse] extracts from the first bytes of a packet *)
Definition masked_bit (b1 : Z) : bool := bit b1 128.
Definition length_field (b1 : Z) : Z := Z.land b1 127.
Definition extended_size (b1 : Z) : nat :=
  if length_field b1 =? 126 then 2 else if length_field b1 =? 127 then 4 else 0.
Definition header_rest (b1 : Z) : nat := extended_size b1 + if masked_bit b1 then 4 else 0.

Lemma length_field_range b1 : 0 <= b1 -> 0 <= length_field b1 < 128.
Proof.
  intros H. unfold length_field. change 127 with (Z.ones 7). rewrite Z.land_ones by lia.
  apply Z.mod_pos_bound. lia.
Qed.

Lemma length_byte l (masked : bool) :
  0 <= l < 128 ->
  length_field ((if masked then 128 else 0) + l) = l /\ masked_bit ((if masked then 128 else 0) + l) = masked.
Proof.
  intros Hl.
  assert (forallb (fun n => (length_field (Z.of_nat n) =? Z.of_nat n) && negb (masked_bit (Z.of_nat n))
    && (length_field (128 + Z.of_nat n) =? Z.of_nat n) && masked_bit (128 + Z.of_nat n)) (seq 0 128) = true)
    as Hall by (vm_compute; reflexivity).
  rewrite forallb_forall in Hall. specialize (Hall (Z.to_nat l)).
  rewrite Z2Nat.id in Hall by lia.
  assert (In (Z.to_nat l) (seq 0 128)) as Hin by (apply in_seq; lia).
  specialize (Hall Hin). rewrite !andb_true_iff in Hall. destruct Hall as [[[H1 H2] H3] H4].
  rewrite Z.eqb_eq in H1, H3. rewrite negb_true_iff in H2. destruct masked; done.
Qed.

Definition fits (l : list Z) : Prop := Z.of_nat (length l) < 2 ^ 62.

(** A packet that holds its whole header is parsed without an access outside
    of it, into a message. *)
Lemma parse_total b0 b1 rest :
  fits rest -> Forall byte rest -> (header_rest b1 <= length rest)%nat ->
  exists m, parse (b0 :: b1 :: rest) = ok (Some m) /\
    m_length m = length_field b1 /\ 0 <= m_extended_length m.
Proof.
  unfold fits, header_rest, extended_size. intros Hf Hb Hn.
  destruct rest as [|r0 rest]; [by eexists|].
  cbn [parse]. unfold parse_length, parse_mask. cbn [m_length WebSocketMessage.set_length].
  fold (length_field b1) in *. fold (masked_bit b1).
  destruct (length_field b1 =? 126), (length_field b1 =? 127), (masked_bit b1) eqn:Hm; simpl in Hn;
    repeat (destruct rest as [|? rest]; simpl in Hn; [lia|]);
    rewrite ?exhausted_false by (rewrite ?length_cons in *; lia);
    cbn; rewrite ?Hm; cbn; rewrite ?exhausted_false by (cbn; rewrite ?length_cons in *; lia);
    cbn; eexists; (split_and!; [done|done|]); cbn; [..|lia]; rewrite ?Forall_cons in Hb; unfold byte in Hb;
    rewrite ?Z.lor_nonneg, ?Z.shiftl_nonneg; lia.
Qed.
End CodecFacts.

(** ** The frames of RFC 6455, section 5.2

    The wire format, independent of the code above: a frame has its control
    bits, an optional masking key and a payload of less than 2^16 octets. *)
Module Rfc6455.
Record frame := Frame {
  fin : bool; rsv1 : bool; rsv2 : bool; rsv3 : bool; opcode : Z;
  masking_key : option (Z * Z * Z * Z); payload : list Z }.

Fixpoint mask (k0 k1 k2 k3 : Z) (data : list Z) : list Z :=
  match data with
  | [] => []
  | d :: data => Z.lxor d k0 :: mask k1 k2 k3 k0 data
  end.

Definition is_masked (f : frame) : bool := bool_decide (is_Some (masking_key f)).
Definition payload_length (f : frame) : Z := Z.of_nat (length (payload f)).

Definition flags (f : frame) : Z :=
  (if fin f then 128 else 0) + (if rsv1 f then 64 else 0) + (if rsv2 f then 32 else 0)
  + (if rsv3 f then 16 else 0) + opcode f.

Definition length_octet (f : frame) : Z :=
  (if is_masked f then 128 else 0) + (if payload_length f <? 126 then payload_length f else if payload_length f <? 65536 then 126 else 127).
Definition extended_octets (f : frame) : list Z :=
  if payload_length f <? 126 then []
  else if payload_length f <? 65536 then [payload_length f / 256; payload_length f mod 256]
  else map (fun i => Z.shiftr (payload_length f) (8 * i) mod 256) [7; 6; 5; 4; 3; 2; 1; 0].
Definition key_octets (f : frame) : list Z :=
  match masking_key f with Some (k0, k1, k2, k3) => [k0; k1; k2; k3] | None => [] end.
Definition payload_octets (f : frame) : list Z :=
  match masking_key f with Some (k0, k1, k2, k3) => mask k0 k1 k2 k3 (payload f) | None => payload f end.

Definition header (f : frame) : list Z :=
  flags f :: length_octet f :: extended_octets f ++ key_octets f.
Definition wire (f : frame) : list Z := header f ++ payload_octets f.

(** A frame of the protocol: its length fits 63 bits. *)
Definition valid (f : frame) : Prop :=
  0 <= opcode f < 16 /\ payload_length f < 2 ^ 63 /\
  match masking_key f with
  | Some (k0, k1, k2, k3) => 0 <= k0 < 256 /\ 0 <= k1 < 256 /\ 0 <= k2 < 256 /\ 0 <= k3 < 256
  | None => True
  end.

(** A frame whose length needs no more than 16 bits. *)
Definition short (f : frame) : Prop := valid f /\ payload_length f < 65536.

(** The key as the integer a message stores. *)
Definition key_value (f : frame) : Z :=
  match masking_key f with
  | Some (k0, k1, k2, k3) => k0 * 2 ^ 24 + k1 * 2 ^ 16 + k2 * 2 ^ 8 + k3
  | None => 0
  end.

(** The message a receiver makes of the frame when [data] is its payload. *)
Definition message (f : frame) (data : list Z) : WebSocketMessage.t :=
  WebSocketMessage.mk data (key_value f)
    (if payload_length f <? 126 then payload_length f else 126)
    (if payload_length f <? 126 then 0 else payload_length f)
    (negb (key_value f =? 0)) (fin f) (rsv1 f) (rsv2 f) (rsv3 f) (opcode f).

Definition unmask (f : frame) (data : list Z) : list Z :=
  match masking_key f with Some (k0, k1, k2, k3) => mask k0 k1 k2 k3 data | None => data end.

(** *** Facts *)
Lemma mask_involutive k0 k1 k2 k3 data : mask k0 k1 k2 k3 (mask k0 k1 k2 k3 data) = data.
Proof.
  revert k0 k1 k2 k3. induction data as [|d data IH]; intros; simpl; [done|].
  by rewrite IH, Z.lxor_assoc, Z.lxor_nilpotent, Z.lxor_0_r.
Qed.

Lemma length_mask k0 k1 k2 k3 data : length (mask k0 k1 k2 k3 data) = length data.
Proof. revert k0 k1 k2 k3. induction data; intros; simpl; auto. Qed.

Lemma mask_zero data : mask 0 0 0 0 data = data.
Proof. induction data as [|d data IH]; simpl; [done|]. by rewrite Z.lxor_0_r, IH. Qed.

Lemma unmask_payload f : unmask f (payload_octets f) = payload f.
Proof. unfold unmask, payload_octets. destruct (masking_key f) as [[[[]]]|]; [apply mask_involutive|done]. Qed.

Lemma length_payload_octets f : length (payload_octets f) = length (payload f).
Proof. unfold payload_octets. destruct (masking_key f) as [[[[]]]|]; [apply length_mask|done]. Qed.

Lemma unmask_nil f : unmask f [] = [].
Proof. unfold unmask. by destruct (masking_key f) as [[[[]]]|]. Qed.
End Rfc6455.

(** ** The codec reads the frames of the RFC *)
Module FrameFacts.
Import Codec CodecFacts Rfc6455.

(** The indexed loop of [parse] is the rotating key of the RFC. *)
Lemma xor_mask_rotate k0 k1 k2 k3 data : xor_mask [k0; k1; k2; k3] data = mask k0 k1 k2 k3 data.
Proof.
  unfold xor_mask.
  enough (forall n l, (n < 4)%nat ->
    imap (fun i d => Z.lxor d (nth ((n + i) mod 4) [k0; k1; k2; k3] 0)) l
    = mask (nth n [k0; k1; k2; k3] 0) (nth ((n + 1) mod 4) [k0; k1; k2; k3] 0)
        (nth ((n + 2) mod 4) [k0; k1; k2; k3] 0) (nth ((n + 3) mod 4) [k0; k1; k2; k3] 0) l) as H.
  { apply (H 0%nat). lia. }
  intros n l. revert n. induction l as [|d l IH]; intros n Hn; [done|].
  cbn [imap mask]. f_equal.
  - rewrite Nat.add_0_r, Nat.mod_small by lia. done.
  - rewrite <-(imap_ext (fun i d => Z.lxor d (nth ((((n + 1) mod 4) + i) mod 4) [k0; k1; k2; k3] 0))).
    + rewrite IH by (apply Nat.mod_upper_bound; lia).
      destruct n as [|[|[|[|n]]]]; try lia; reflexivity.
    + intros i x _. unfold Basics.compose. cbv beta. rewrite Nat.Div0.add_mod_idemp_l.
      replace (n + 1 + i)%nat with (n + S i)%nat by lia. done.
Qed.

Lemma parse_flags_octet f :
  0 <= opcode f < 16 ->
  parse_flags_byte (flags f)
  = WebSocketMessage.mk [] 0 0 0 false (fin f) (rsv1 f) (rsv2 f) (rsv3 f) (opcode f).
Proof.
  destruct f as [ff r1 r2 r3 op k p]. unfold flags. simpl. intros Hop.
  assert (op = 0 \/ op = 1 \/ op = 2 \/ op = 3 \/ op = 4 \/ op = 5 \/ op = 6 \/ op = 7 \/ op = 8
    \/ op = 9 \/ op = 10 \/ op = 11 \/ op = 12 \/ op = 13 \/ op = 14 \/ op = 15) as Hin by lia.
  destruct_or! Hin; subst; destruct ff, r1, r2, r3; reflexivity.
Qed.

Lemma length_octet_fields f :
  short f ->
  length_field (length_octet f) = (if payload_length f <? 126 then payload_length f else 126)
  /\ masked_bit (length_octet f) = is_masked f.
Proof.
  intros [_ Hs]. unfold length_octet. rewrite (proj2 (Z.ltb_lt _ 65536) Hs). apply length_byte. unfold payload_length.
  destruct (Z.ltb_spec (Z.of_nat (length (payload f))) 126); lia.
Qed.

Lemma extended_octets_value f :
  short f -> Z.lor (Z.shiftl (payload_length f / 256) 8) (payload_length f mod 256) = payload_length f.
Proof.
  intros _. rewrite lor_shiftl_add; [|lia|apply Z.mod_pos_bound; lia].
  change (2 ^ 8) with 256. Z.div_mod_to_equations. lia.
Qed.

Lemma header_rest_octets f :
  short f -> length (extended_octets f ++ key_octets f) = header_rest (length_octet f).
Proof.
  intros Hv. destruct (length_octet_fields f Hv) as [Hl Hm].
  unfold header_rest, extended_size. rewrite Hl, Hm, length_app. unfold extended_octets, key_octets, is_masked.
  rewrite (proj2 (Z.ltb_lt _ 65536) (proj2 Hv)).
  destruct (Z.ltb_spec (payload_length f) 126).
  - rewrite (proj2 (Z.eqb_neq _ 126)), (proj2 (Z.eqb_neq _ 127)) by lia.
    by destruct (masking_key f) as [[[[]]]|].
  - by destruct (masking_key f) as [[[[]]]|].
Qed.

(** The two stages of [parse] behind the first two octets. *)
Lemma parse_length_frame f m raw :
  short f -> fits raw -> m_length m = length_field (length_octet f) ->
  parse_length (header f ++ raw) m
  = ok (Some ((if payload_length f <? 126 then m
               else WebSocketMessage.set_extended_length (payload_length f) m),
              (2 + length (extended_octets f))%nat)).
Proof.
  intros Hv Hf Hm. pose proof (extended_octets_value f Hv) as He. unfold parse_length.
  rewrite Hm, (proj1 (length_octet_fields f Hv)). unfold fits in Hf.
  unfold header, extended_octets. rewrite (proj2 (Z.ltb_lt _ 65536) (proj2 Hv)). destruct (Z.ltb_spec (payload_length f) 126).
  - by rewrite (proj2 (Z.eqb_neq _ 126)), (proj2 (Z.eqb_neq _ 127)) by lia.
  - change (126 =? 126) with true. cbv iota.
    rewrite exhausted_false; [|unfold key_octets; destruct (masking_key f) as [[[[]]]|]; simpl; lia|lia].
    cbn [at_ app lookup list_lookup res_bind ok length Nat.add]. unfold ok. cbn [res_bind]. by rewrite He.
Qed.

Lemma key_of_octets f k0 k1 k2 k3 :
  short f -> masking_key f = Some (k0, k1, k2, k3) -> key_of k0 k1 k2 k3 = key_value f.
Proof.
  intros ((_ & _ & Hk) & _) E. unfold key_value. rewrite E in *. destruct Hk as (? & ? & ? & ?).
  by apply key_of_sum.
Qed.

Lemma parse_mask_frame f m raw :
  short f -> fits raw -> m_mask_flag m = is_masked f ->
  parse_mask (header f ++ raw) m (2 + length (extended_octets f))
  = ok (Some ((if is_masked f then WebSocketMessage.set_mask (key_value f) m else m), length (header f))).
Proof.
  intros Hv Hf Hm. unfold parse_mask. rewrite Hm. unfold is_masked, fits in *.
  destruct (masking_key f) as [[[[k0 k1] k2] k3]|] eqn:Hk; cbn [bool_decide decide].
  - assert (length (extended_octets f) <= 2)%nat by (unfold extended_octets; rewrite (proj2 (Z.ltb_lt _ 65536) (proj2 Hv)); destruct (_ <? _); simpl; lia).
    assert (header f ++ raw = (flags f :: length_octet f :: extended_octets f) ++ k0 :: k1 :: k2 :: k3 :: raw)
      as -> by (unfold header, key_octets; rewrite Hk; by simplify_list_eq).
    unfold header, key_octets. rewrite Hk.
    rewrite bool_decide_true by (by eexists).
    rewrite exhausted_false by (simpl; rewrite ?length_app; simpl; lia).
    assert (forall i, ((flags f :: length_octet f :: extended_octets f) ++ k0 :: k1 :: k2 :: k3 :: raw)
      !! (2 + length (extended_octets f) + i)%nat = (k0 :: k1 :: k2 :: k3 :: raw) !! i) as Hat.
    { intros i. rewrite lookup_app_r by (simpl; lia). f_equal. simpl. lia. }
    unfold at_. rewrite <-(Nat.add_0_r (2 + length (extended_octets f))) at 1. rewrite !Hat. simpl.
    fold (key_of k0 k1 k2 k3). rewrite (key_of_octets f k0 k1 k2 k3 Hv Hk), length_app. simpl.
    do 3 f_equal; lia.
  - rewrite bool_decide_false by (intros [? ?]; done).
    unfold header, key_octets. rewrite Hk, app_nil_r. done.
Qed.

Lemma key_value_zero f k0 k1 k2 k3 :
  short f -> masking_key f = Some (k0, k1, k2, k3) -> key_value f = 0 -> k0 = 0 /\ k1 = 0 /\ k2 = 0 /\ k3 = 0.
Proof. intros ((_ & _ & Hk) & _) E. unfold key_value. rewrite E in *. lia. Qed.

Lemma parse_payload_frame f m raw :
  short f -> m_mask m = key_value f -> m_mask_flag m = negb (key_value f =? 0) ->
  parse_payload (header f ++ raw) m (length (header f)) = WebSocketMessage.set_data (unmask f raw) m.
Proof.
  intros Hv Hm Hf. unfold parse_payload. rewrite drop_app_length, Hf, Hm. f_equal.
  unfold unmask. destruct (masking_key f) as [[[[k0 k1] k2] k3]|] eqn:Hk.
  - destruct (Z.eqb_spec (key_value f) 0) as [E|E]; cbn [negb].
    + destruct (key_value_zero f _ _ _ _ Hv Hk E) as (-> & -> & -> & ->). by rewrite mask_zero.
    + rewrite <-(key_of_octets f _ _ _ _ Hv Hk). destruct Hv as ((_ & _ & Hb) & _). rewrite Hk in Hb.
      destruct Hb as (? & ? & ? & ?). rewrite mask_bytes_key by done. apply xor_mask_rotate.
  - unfold key_value. by rewrite Hk.
Qed.

(** [parse] reads a frame, complete or cut after [raw] octets of its payload. *)
Lemma parse_frame f raw :
  short f -> fits raw -> header f ++ raw <> [flags f; length_octet f] ->
  parse (header f ++ raw) = ok (Some (message f (unmask f raw))).
Proof.
  intros Hv Hf Hlong. destruct (length_octet_fields f Hv) as [Hl Hm].
  assert (exists r0 rest, header f ++ raw = flags f :: length_octet f :: r0 :: rest) as (r0 & rest & E).
  { unfold header in *. simpl in *. destruct ((_ ++ _) ++ raw); [done|by eexists _, _]. }
  rewrite E. cbn [parse]. rewrite <-E.
  fold (length_field (length_octet f)). fold (masked_bit (length_octet f)).
  rewrite parse_length_frame by done. unfold ok at 1. cbn [res_bind].
  rewrite parse_mask_frame; [|done..|by destruct (_ <? _); simpl].
  unfold ok at 1. cbn [res_bind]. rewrite parse_flags_octet by apply Hv. rewrite Hm.
  rewrite parse_payload_frame; [|done| |]; unfold message, is_masked, key_value, WebSocketMessage.set_mask,
    WebSocketMessage.set_extended_length; destruct (masking_key f) as [[[[k0 k1] k2] k3]|] eqn:Hk;
    cbn; rewrite ?Hl; destruct (_ <? _); done.
Qed.
End FrameFacts.

(** ** The reader *)
Module ReaderFacts.
Import Codec CodecFacts Rfc6455 FrameFacts Reader.

Lemma run_step k s data rest :
  Z.of_nat (length data) = need s ->
  run (S k) s (data ++ rest) =
    (let* (ms, s') := step s data in
     let* (r, s'', b) := run k s' rest in ok (ms ++ r, s'', b)).
Proof.
  intros Hn. simpl. rewrite <-Hn, Nat2Z.id, take_app_length, drop_app_length, length_app.
  rewrite (proj2 (Nat.leb_le _ _)) by lia. done.
Qed.

Lemma parse_flags_two b0 b1 :
  Reader.parse_flags [b0; b1] = ok (ReadingLength [b0; b1] (Z.of_nat (header_rest b1))).
Proof.
  unfold Reader.parse_flags, header_rest, extended_size. cbn.
  fold (length_field b1). fold (masked_bit b1).
  by destruct (length_field b1 =? 126), (length_field b1 =? 127), (masked_bit b1).
Qed.

(** *** One frame: three socket reads, one message *)
Lemma parse_frame_short f raw :
  short f -> fits raw ->
  parse (header f ++ raw) = ok (Some (message f (unmask f raw))).
Proof.
  intros Hv Hf. destruct (decide (header f ++ raw = [flags f; length_octet f])) as [E|E];
    [|by apply parse_frame].
  pose proof (header_rest_octets f Hv) as Hr. destruct (length_octet_fields f Hv) as [Hl Hm].
  unfold header in *. simpl in E. injection E as E. apply app_eq_nil in E as [E ->]. simpl.
  rewrite E in *. simpl. fold (length_field (length_octet f)) (masked_bit (length_octet f)).
  rewrite parse_flags_octet, Hl, Hm, unmask_nil by apply Hv.
  apply app_eq_nil in E as [E1 E2]. unfold extended_octets, key_octets, message, is_masked, key_value in *.
  destruct (_ <? 126); [|by destruct (_ <? 65536)]. by destruct (masking_key f) as [[[[]]]|].
Qed.

Lemma next_read f :
  (if m_extended_length (message f []) =? 0 then m_length (message f []) else m_extended_length (message f []))
  = payload_length f.
Proof.
  unfold message; simpl. destruct (Z.ltb_spec (payload_length f) 126); [done|].
  by rewrite (proj2 (Z.eqb_neq _ _)) by lia.
Qed.

Lemma run_frame k f rest :
  short f ->
  run (3 + k) Listening (wire f ++ rest) =
    (let* (r, s, b) := run k Listening rest in ok (Some (message f (payload f)) :: r, s, b)).
Proof.
  intros Hv. pose proof (header_rest_octets f Hv) as Hr.
  assert (Hfit : fits (payload_octets f)).
  { unfold fits. rewrite length_payload_octets. destruct Hv as [_ Hp]. unfold payload_length in Hp. lia. }
  replace (wire f ++ rest) with ([flags f; length_octet f]
    ++ (extended_octets f ++ key_octets f) ++ payload_octets f ++ rest)
    by (unfold wire, header; by simplify_list_eq).
  change (3 + k)%nat with (S (S (S k))).
  rewrite run_step by done. cbn [step]. rewrite parse_flags_two. unfold ok. cbn [res_bind].
  rewrite run_step by (simpl; lia). cbn [step]. unfold parse_length_and_mask.
  change ([flags f; length_octet f] ++ extended_octets f ++ key_octets f) with (header f).
  rewrite <-(app_nil_r (header f)) at 1.
  rewrite parse_frame_short by (done || unfold fits; simpl; lia). unfold deref, ok. cbn [res_bind].
  rewrite unmask_nil, next_read.
  rewrite run_step by (simpl; rewrite length_payload_octets; done). cbn [step]. unfold Reader.parse_payload.
  rewrite parse_frame_short, unmask_payload by done. unfold ok. cbn [res_bind app].
  by destruct (run k Listening rest) as [?|[[? ?] ?]].
Qed.

Lemma run_frames fs k rest :
  Forall short fs ->
  run (3 * length fs + k) Listening (concat (map wire fs) ++ rest) =
    (let* (r, s, b) := run k Listening rest in
     ok (map (fun f => Some (message f (payload f))) fs ++ r, s, b)).
Proof.
  induction 1 as [|f fs Hv Hfs IH]; cbn [length map concat].
  - simpl. by destruct (run k Listening rest) as [?|[[? ?] ?]].
  - replace (3 * S (length fs) + k)%nat with (3 + (3 * length fs + k))%nat by lia.
    rewrite <-app_assoc, run_frame, IH by done.
    by destruct (run k Listening rest) as [?|[[? ?] ?]].
Qed.

(** *** Safety: any octets at all *)
Definition inv (s : state) : Prop :=
  match s with
  | Listening => True
  | ReadingLength packet n =>
      exists b0 b1, packet = [b0; b1] /\ 0 <= b1 /\ n = Z.of_nat (header_rest b1)
  | ReadingPayload packet n =>
      exists b0 b1 rest, packet = b0 :: b1 :: rest /\ (header_rest b1 <= length rest)%nat
        /\ Forall byte rest /\ 0 <= n
  end.

Lemma inv_need s : inv s -> 0 <= need s.
Proof. destruct s; simpl; [lia| |]; [intros (? & ? & _ & _ & ->)|intros (? & ? & ? & _ & _ & _ & ?)]; lia. Qed.

Definition held (s : state) : nat :=
  match s with Listening => 0 | ReadingLength p _ => length p | ReadingPayload p _ => length p end.

Lemma step_safe s data :
  inv s -> Forall byte data -> Z.of_nat (length data) = need s ->
  Z.of_nat (held s + length data) < 2 ^ 62 ->
  exists ms s', step s data = ok (ms, s') /\ inv s' /\ Forall is_Some ms.
Proof.
  intros Hs Hb Hn Hfit. destruct s as [|packet n|packet n]; simpl in *.
  - destruct data as [|b0 [|b1 [|]]]; simpl in Hn; try lia. rewrite parse_flags_two.
    eexists _, _. split_and!; [done| |by constructor]. exists b0, b1. split_and!; try done.
    rewrite !Forall_cons in Hb. unfold byte in Hb. lia.
  - destruct Hs as (b0 & b1 & -> & H1 & ->). apply Nat2Z.inj in Hn.
    unfold parse_length_and_mask. cbn [app].
    destruct (parse_total b0 b1 data) as (m & -> & Hl & He); [unfold fits; simpl in *; lia|done|lia|].
    eexists _, _. split_and!; [done| |by constructor]. exists b0, b1, data. split_and!; [done|lia|done|].
    pose proof (length_field_range b1 H1). destruct (_ =? 0); lia.
  - destruct Hs as (b0 & b1 & rest & -> & Hr & Hf & Hpos). unfold Reader.parse_payload. cbn [app].
    destruct (parse_total b0 b1 (rest ++ data)) as (m & -> & _).
    + unfold fits. rewrite length_app. simpl in Hfit. lia.
    + by apply Forall_app.
    + rewrite length_app. lia.
    + eexists _, _. split_and!; [done|done|]. by constructor; [eexists|].
Qed.

Lemma step_held s data ms s' : step s data = ok (ms, s') -> (held s' <= held s + length data)%nat.
Proof.
  unfold step, Reader.parse_flags, parse_length_and_mask, Reader.parse_payload, deref, res_bind, ok.
  destruct s; intros H; repeat case_match; simplify_eq; simpl; rewrite ?length_app; lia.
Qed.

Lemma run_safe k s buffer :
  inv s -> Forall byte buffer -> Z.of_nat (held s + length buffer) < 2 ^ 62 ->
  exists ms s' b, run k s buffer = ok (ms, s', b) /\ inv s' /\ Forall is_Some ms.
Proof.
  revert s buffer. induction k as [|k IH]; intros s buffer Hs Hb Hf.
  { by eexists _, _, _. }
  cbn [run]. destruct (Nat.leb_spec (Z.to_nat (need s)) (length buffer)) as [Hle|]; [|by eexists _, _, _].
  pose proof (inv_need s Hs). rewrite <-(take_drop (Z.to_nat (need s)) buffer), Forall_app in Hb.
  destruct (step_safe s (take (Z.to_nat (need s)) buffer)) as (ms & s' & E & Hs' & Hms);
    [done|apply Hb|rewrite length_take; lia|rewrite length_take; lia|].
  rewrite E. pose proof (step_held _ _ _ _ E) as Hh. rewrite length_take in Hh.
  destruct (IH s' (drop (Z.to_nat (need s)) buffer)) as (r & s'' & b & Er & Hs'' & Hr);
    [done|apply Hb|rewrite length_drop; lia|].
  unfold ok. cbn [res_bind]. rewrite Er. eexists _, _, _. split_and!; [done|done|by apply Forall_app].
Qed.
End ReaderFacts.

(** ** What [compose] sends *)
Module ComposeFacts.
Import Codec CodecFacts Rfc6455 FrameFacts ReaderFacts.

(** The frame of a message made with [WebSocketMessage( code, data, mask )]. *)
Definition key_tuple (key : Z) : option (Z * Z * Z * Z) :=
  if key =? 0 then None else Some (byte_of key 24, byte_of key 16, byte_of key 8, byte_of key 0).
Definition frame_of (op : Z) (data : list Z) (key : Z) : frame :=
  Frame true false false false op (key_tuple key) data.

Definition sendable_message (op : Z) (data : list Z) (key : Z) : Prop :=
  0 <= op < 16 /\ Z.of_nat (length data) < 65535 /\ 0 <= key < 2 ^ 32.

Lemma byte_of_range v n : 0 <= byte_of v n < 256.
Proof. unfold byte_of. change 255 with (Z.ones 8). rewrite Z.land_ones by lia. apply Z.mod_pos_bound. lia. Qed.

Lemma byte_of_div v n : 0 <= n -> byte_of v n = v / 2 ^ n mod 256.
Proof. intros Hn. unfold byte_of. by rewrite shiftr_land_255. Qed.

Lemma frame_of_valid op data key : sendable_message op data key -> short (frame_of op data key).
Proof.
  intros (Ho & Hd & Hk). unfold short, valid, frame_of, payload_length; simpl. split_and!; try lia.
  unfold key_tuple. destruct (key =? 0); [done|]. split_and!; apply byte_of_range.
Qed.

Lemma key_value_frame_of op data key : 0 <= key < 2 ^ 32 -> key_value (frame_of op data key) = key.
Proof.
  intros Hk. unfold key_value, frame_of; simpl. unfold key_tuple.
  destruct (Z.eqb_spec key 0) as [->|]; [done|]. rewrite !byte_of_div by lia.
  change (2 ^ 0) with 1. Z.div_mod_to_equations. lia.
Qed.

Lemma make_message op data key :
  sendable_message op data key ->
  WebSocketMessage.make op data key = message (frame_of op data key) data.
Proof.
  intros (Ho & Hd & Hk). unfold message. rewrite key_value_frame_of by done.
  unfold WebSocketMessage.make, payload_length; simpl.
  destruct (Z.leb_spec (Z.of_nat (length data)) 125), (Z.ltb_spec (Z.of_nat (length data)) 126); try lia.
  - unfold u8. by rewrite wrap_small by width_lia.
  - by rewrite (proj2 (Z.ltb_lt _ _)) by lia.
Qed.

Lemma lor_128 l : 0 <= l < 128 -> Z.lor l 128 = 128 + l.
Proof.
  intros H. rewrite Z.lor_comm. exact (lor_shiftl_add 1 l 7 ltac:(lia) H).
Qed.

Lemma compose_flags_frame op data key :
  0 <= op < 16 -> compose_flags (message (frame_of op data key) data) = flags (frame_of op data key).
Proof.
  unfold message, frame_of, flags, compose_flags. simpl. intros Ho.
  change 15 with (Z.ones 4). rewrite Z.land_ones, Z.mod_small by lia.
  rewrite (lor_shiftl_add 8 op 4 ltac:(lia) Ho : Z.lor 128 op = _). lia.
Qed.

Lemma compose_length_frame op data key :
  sendable_message op data key ->
  let f := frame_of op data key in
  compose_length (message f data) = length_octet f :: extended_octets f.
Proof.
  intros (Ho & Hd & Hk) f. subst f. unfold compose_length, length_octet, extended_octets.
  assert (is_masked (frame_of op data key) = negb (key =? 0)) as ->.
  { unfold is_masked, frame_of, key_tuple. simpl. by destruct (key =? 0). }
  unfold message. rewrite key_value_frame_of by done. unfold payload_length; simpl.
  rewrite (proj2 (Z.ltb_lt (Z.of_nat (length data)) 65536)) by lia.
  destruct (Z.ltb_spec (Z.of_nat (length data)) 126) as [Hl|Hl].
  - rewrite (proj2 (Z.eqb_neq _ 126)), (proj2 (Z.eqb_neq _ 127)) by lia.
    destruct (key =? 0); simpl; f_equal; [|apply lor_128; lia].
    change 127 with (Z.ones 7). rewrite Z.land_ones, Z.mod_small by lia. done.
  - rewrite !byte_of_div by lia. change (2 ^ 8) with 256. change (2 ^ 0) with 1. rewrite Z.div_1_r.
    rewrite (Z.mod_small (_ / 256)) by (Z.div_mod_to_equations; lia).
    by destruct (key =? 0).
Qed.

(** What goes out: the right header, then the payload XORed with the key's
    octets in the opposite order. *)
Definition sent_payload (data : list Z) (key : Z) : list Z :=
  if key =? 0 then data
  else mask (byte_of key 0) (byte_of key 8) (byte_of key 16) (byte_of key 24) data.

Lemma compose_made op data key :
  sendable_message op data key ->
  compose (WebSocketMessage.make op data key) = header (frame_of op data key) ++ sent_payload data key.
Proof.
  intros Hs. rewrite make_message by done. unfold compose.
  rewrite compose_flags_frame by apply Hs. rewrite compose_length_frame by done.
  unfold header. simpl. do 2 f_equal. rewrite <-app_assoc. f_equal.
  unfold compose_payload, message. rewrite key_value_frame_of by apply Hs. simpl.
  unfold key_octets, sent_payload, frame_of, key_tuple. simpl.
  destruct (key =? 0); simpl; [done|]. by rewrite xor_mask_rotate.
Qed.

Lemma length_sent_payload data key : length (sent_payload data key) = length data.
Proof. unfold sent_payload. destruct (key =? 0); [done|apply length_mask]. Qed.

Lemma parse_composed op data key :
  sendable_message op data key ->
  parse (compose (WebSocketMessage.make op data key))
  = ok (Some (WebSocketMessage.set_data (unmask (frame_of op data key) (sent_payload data key))
                (WebSocketMessage.make op data key))).
Proof.
  intros Hs. rewrite compose_made by done. rewrite parse_frame_short.
  - by rewrite make_message.
  - by apply frame_of_valid.
  - unfold fits. rewrite length_sent_payload. destruct Hs as (_ & ? & _). lia.
Qed.

Lemma compose_unmasked op data :
  sendable_message op data 0 -> compose (WebSocketMessage.make op data 0) = wire (frame_of op data 0).
Proof. intros Hs. by rewrite compose_made. Qed.

Lemma set_data_same op data key :
  WebSocketMessage.set_data data (WebSocketMessage.make op data key) = WebSocketMessage.make op data key.
Proof. unfold WebSocketMessage.make. by destruct (_ <=? _). Qed.
End ComposeFacts.

(** ** The properties of the component *)
Section Properties.
Import Codec CodecFacts Rfc6455 ReaderFacts ComposeFacts.

(** C5. A server fed with any sequence of RFC 6455 frames of fewer than 65536 octets
    of payload ([short]: the 64-bit lengths of longer ones are read wrongly),
    masked or not, delivers exactly one message per
    frame, in order, each with the frame's control bits and its unmasked
    payload, and is back to listening with nothing but the octets after the
    last frame left. *)
Theorem reader_delivers_frames (fs : list frame) (rest : list Z) :
  Forall short fs ->
  Reader.run (3 * length fs) Reader.Listening (concat (map wire fs) ++ rest)
  = ok (map (fun f => Some (message f (payload f))) fs, Reader.Listening, rest).
Proof.
  intros H. pose proof (run_frames fs 0 rest H) as E. rewrite Nat.add_0_r in E. rewrite E. simpl.
  by rewrite app_nil_r.
Qed.

(** The octets [compose] produces for unmasked messages, sent one after the
    other, make the peer's reader deliver these very messages in order. *)
Theorem composed_messages_delivered (ms : list (Z * list Z)) (rest : list Z) :
  Forall (fun '(op, data) => sendable_message op data 0) ms ->
  Reader.run (3 * length ms) Reader.Listening
    (concat (map (fun '(op, data) => compose (WebSocketMessage.make op data 0)) ms) ++ rest)
  = ok (map (fun '(op, data) => Some (WebSocketMessage.make op data 0)) ms, Reader.Listening, rest).
Proof.
  intros H. pose (fs := map (fun '(op, data) => frame_of op data 0) ms).
  assert (Hv : Forall short fs).
  { unfold fs. apply Forall_map. eapply Forall_impl; [exact H|]. intros [op data]. apply frame_of_valid. }
  pose proof (run_frames fs 0 rest Hv) as E. unfold fs in E.
  rewrite Nat.add_0_r, length_map, !map_map in E. cbn [Reader.run res_bind ok] in E.
  assert (map (fun '(op, data) => compose (WebSocketMessage.make op data 0)) ms
    = map (fun x => wire (let '(op, data) := x in frame_of op data 0)) ms) as ->.
  { clear -H. induction H as [|[op data] ms Hm H IH]; [done|]. simpl. by rewrite IH, compose_unmasked. }
  rewrite E. unfold ok. simpl. rewrite app_nil_r. do 3 f_equal. clear -H.
  induction H as [|[op data] ms Hm H IH]; [done|]. simpl. by rewrite IH, make_message.
Qed.

(** A masked message survives [compose] followed by [parse] for every payload
    exactly when its key reads the same in both octet orders: [compose] applies
    the key in the order opposite to the one it announces. *)
Theorem masked_roundtrip_iff (op key : Z) :
  0 <= op < 16 -> 0 < key < 2 ^ 32 ->
  (forall data, Z.of_nat (length data) < 65535 ->
     parse (compose (WebSocketMessage.make op data key)) = ok (Some (WebSocketMessage.make op data key)))
  <-> byte_of key 24 = byte_of key 0 /\ byte_of key 16 = byte_of key 8.
Proof.
  intros Ho Hk. assert ((key =? 0) = false) as Hz by (apply Z.eqb_neq; lia). split.
  - intros H. specialize (H [0; 0] ltac:(done)).
    rewrite parse_composed in H by (split_and!; simpl; lia).
    injection H as H.
    unfold unmask, frame_of, key_tuple, sent_payload in H. simpl in H. rewrite Hz in H. simpl in H.
    rewrite !Z.lxor_0_l in H. injection H as H1 H2. split; [symmetry|symmetry]; by apply Z.lxor_eq.
  - intros [E1 E2] data Hd. rewrite parse_composed by (split_and!; lia). do 2 f_equal.
    unfold unmask, frame_of, key_tuple, sent_payload. simpl. rewrite Hz. simpl. rewrite E1, E2.
    rewrite mask_involutive. apply set_data_same.
Qed.

(** C6. Whatever octets a peer sends, in whatever state the reader is reached,
    the reader never reads outside a packet and never delivers or dereferences
    a null message. *)
Theorem reader_never_fails (k : nat) (octets : list Z) :
  Forall byte octets -> Z.of_nat (length octets) < 2 ^ 62 ->
  exists ms s rest, Reader.run k Reader.Listening octets = ok (ms, s, rest) /\ Forall is_Some ms.
Proof.
  intros Hb Hl. destruct (run_safe k Reader.Listening octets) as (ms & s & b & E & _ & Hms); [done..|].
  by eexists _, _, _.
Qed.
End Properties.

(** ** Witnesses *)
Section Witnesses.
Import Codec CodecFacts Rfc6455 ReaderFacts ComposeFacts.

(** A masked "Hi" (the key 0x37fa213d) and an unmasked ping, then a stray octet. *)
Definition sample_frames : list frame :=
  [Frame true false false false 1 (Some (55, 250, 33, 61)) [72; 105];
   Frame true false false false 9 None []].

Lemma reader_delivers_frames_witness :
  Reader.run 6 Reader.Listening ([129; 130; 55; 250; 33; 61; 127; 147; 137; 0] ++ [7])
  = ok (map (fun f => Some (message f (payload f))) sample_frames, Reader.Listening, [7]).
Proof.
  apply (reader_delivers_frames sample_frames [7]). unfold sample_frames.
  repeat (constructor; [cbv; repeat split; (discriminate || reflexivity || exact I)|]). constructor.
Defined.

Lemma composed_messages_delivered_witness :
  Reader.run 6 Reader.Listening ([129; 2; 72; 105; 130; 0] ++ [])
  = ok ([Some (WebSocketMessage.make 1 [72; 105] 0); Some (WebSocketMessage.make 2 [] 0)],
        Reader.Listening, []).
Proof.
  apply (composed_messages_delivered [(1, [72; 105]); (2, [])] []).
  repeat (constructor; [cbv; repeat split; (discriminate || reflexivity)|]). constructor.
Defined.

Lemma masked_roundtrip_iff_witness :
  (forall data, Z.of_nat (length data) < 65535 ->
     parse (compose (WebSocketMessage.make 1 data 1)) = ok (Some (WebSocketMessage.make 1 data 1)))
  <-> 0 = 1 /\ 0 = 0.
Proof. apply (masked_roundtrip_iff 1 1); split; (discriminate || reflexivity). Defined.

Lemma reader_never_fails_witness :
  exists ms s rest, Reader.run 9 Reader.Listening [255; 255; 0; 0; 0; 0; 1; 2; 3; 4] = ok (ms, s, rest)
    /\ Forall is_Some ms.
Proof.
  apply (reader_never_fails 9 [255; 255; 0; 0; 0; 0; 1; 2; 3; 4]); [|reflexivity].
  repeat (constructor; [split; (discriminate || reflexivity)|]). constructor.
Defined.
End Witnesses.
