(* ===== verification/Socket.v ===== *)
(** * restbed: sockets and their timeouts

    Models [detail/socket_impl.cpp]. The plain and the TLS branches of each
    operation are the same code on two stream types; [asio] (the operations
    themselves and the timer queue) is the environment, seen through the
    completions it delivers. A timer's waits complete once: with
    [operation_aborted] when they are cancelled first, successfully when the
    expiry is reached first; a completion that is already queued cannot be
    cancelled. Times are milliseconds of the steady clock. *)

From Stdlib Require Import ZArith Lia Ascii String Bool.
From stdpp Require Import base tactics option list.
From S2P Require Import Prelude.

Local Open Scope Z_scope.

Module Socket.
(** [std::error_code], with what the sources ask of it. *)
Record ecode := { ec_aborted : bool; ec_eof : bool; ec_message : str }.

(** [write]; the two [read]s with a completion callback; the [read] of exactly
    [length] bytes with [success] and [failure]. *)
Inductive op := Write | ReadAtLeast | ReadUntil | ReadExactly.
#[global] Instance op_eq_dec : EqDecision op.
Proof. solve_decision. Defined.

Inductive wait_kind := TimeoutHandler | SleepCallback.
Inductive wait_state := Pending | Queued (aborted : bool).
Definition wait : Type := wait_kind * wait_state.

Record t := mk {
  m_is_open : bool; m_timeout : Z;
  expires_at : Z;            (* of [m_timer] *)
  waits : list wait;         (* of [m_timer], not yet run *)
  in_flight : list op }.     (* operations not yet completed *)

(** What the owner of the socket sees. *)
Inductive output :=
| Callback (o : op) (e : option ecode)
| Slept (aborted : bool)
| TimedOut.

Definition cancel_wait (w : wait) : wait :=
  match w with (k, Pending) => (k, Queued true) | w => w end.
Definition cancel (s : t) : t := s <| waits := map cancel_wait (waits s) |>.
Definition expires_from_now (now delay : Z) (s : t) : t := (cancel s) <| expires_at := now + delay |>.
Definition async_wait (k : wait_kind) (s : t) : t := s <| waits := (k, Pending) :: waits s |>.

Definition set_timeout (v : Z) (s : t) : t := s <| m_timeout := v |>.
Definition is_open (s : t) : bool := m_is_open s.
Definition is_closed (s : t) : bool := negb (m_is_open s).

(** Closing cancels the timer; the stream is closed, so the operations in
    flight will complete with [operation_aborted]. *)
Definition close (s : t) : t := cancel (s <| m_is_open := false |>).

Definition sleep_for (now delay : Z) (s : t) : t :=
  async_wait SleepCallback (expires_from_now now delay (cancel s)).

(** The common prefix of [write] and the [read]s: nothing at all happens on a
    closed socket, the callback is not invoked either. *)
Definition start (now : Z) (o : op) (s : t) : t :=
  if m_is_open s then
    (async_wait TimeoutHandler (expires_from_now now (m_timeout s) (cancel s)))
      <| in_flight := o :: in_flight s |>
  else s.

Fixpoint remove_op (o : op) (l : list op) : list op :=
  match l with
  | [] => []
  | o' :: l => if bool_decide (o = o') then l else o' :: remove_op o l
  end.

(** Whether the owner is told of a completion: [operation_aborted] is swallowed
    except by the exact read, which calls [failure]. *)
Definition reports (o : op) (e : option ecode) : bool :=
  match e with
  | None => true
  | Some e => match o with ReadExactly => true | _ => negb (ec_aborted e) end
  end.

Definition complete (o : op) (e : option ecode) (s : t) : t * list output :=
  let s := cancel s in
  let s := match e with Some _ => s <| m_is_open := false |> | None => s end in
  (s <| in_flight := remove_op o (in_flight s) |>, if reports o e then [Callback o e] else []).

Definition connection_timeout_handler (now : Z) (error : bool) (s : t) : t * list output :=
  if error then (s, [])
  else if now <? expires_at s then (s, [])
  else (close s, [TimedOut]).

(** The timer queue reaches [now]. *)
Definition fire_wait (w : wait) : wait :=
  match w with (k, Pending) => (k, Queued false) | w => w end.
Definition fire (now : Z) (s : t) : t :=
  if expires_at s <=? now then s <| waits := map fire_wait (waits s) |> else s.

(** The [i]-th wait, if it is queued, runs its handler. *)
Definition run_wait (now : Z) (i : nat) (s : t) : t * list output :=
  match waits s !! i with
  | Some (k, Queued aborted) =>
      let s := s <| waits := take i (waits s) ++ drop (S i) (waits s) |> in
      match k with
      | TimeoutHandler => connection_timeout_handler now aborted s
      | SleepCallback => (s, [Slept aborted])
      end
  | _ => (s, [])
  end.

Inductive event :=
| Start (o : op)
| Complete (o : op) (e : option ecode)
| SleepFor (delay : Z)
| Close
| Fire
| RunWait (i : nat).

Definition step (now : Z) (e : event) (s : t) : t * list output :=
  match e with
  | Start o => (start now o s, [])
  | Complete o e => if bool_decide (o ∈ in_flight s) then complete o e s else (s, [])
  | SleepFor delay => (sleep_for now delay s, [])
  | Close => (close s, [])
  | Fire => (fire now s, [])
  | RunWait i => run_wait now i s
  end.

Definition init (timeout : Z) : t := mk true timeout 0 [] [].

(** Runs of the socket: the clock does not go back. *)
Inductive reachable (timeout : Z) (allowed : event -> t -> Prop) : Z -> t -> Prop :=
| R_init now : reachable timeout allowed now (init timeout)
| R_step now now' e s :
    reachable timeout allowed now s -> now <= now' -> allowed e s ->
    reachable timeout allowed now' (step now' e s).1.
End Socket.

(** ** Lemmas *)
Module SocketFacts.
Import Socket.

(** One operation at a time, and no sleep while one is in flight: how sessions
    and the HTTP client use their sockets. *)
Definition one_at_a_time (e : event) (s : t) : Prop :=
  match e with Start _ | SleepFor _ => in_flight s = [] | _ => True end.

(** An operation in flight on an open socket is watched: its wait is pending,
    or has expired and waits to run. *)
Definition watched (now : Z) (s : t) : Prop :=
  m_is_open s = true -> in_flight s <> [] ->
  (TimeoutHandler, Pending) ∈ waits s
  \/ (TimeoutHandler, Queued false) ∈ waits s /\ expires_at s <= now.

Lemma remove_op_single o o' : remove_op o [o'] = [] \/ o <> o'.
Proof. simpl. case_bool_decide; auto. Qed.

Lemma fire_wait_pending l : (TimeoutHandler, Pending) ∈ l -> (TimeoutHandler, Queued false) ∈ map fire_wait l.
Proof. intros H. by apply (list_elem_of_fmap_2 fire_wait) in H. Qed.

Lemma fire_wait_queued l : (TimeoutHandler, Queued false) ∈ l -> (TimeoutHandler, Queued false) ∈ map fire_wait l.
Proof. intros H. by apply (list_elem_of_fmap_2 fire_wait) in H. Qed.

Lemma elem_of_without {A} (x y : A) i l :
  l !! i = Some y -> x ∈ l -> x <> y -> x ∈ take i l ++ drop (S i) l.
Proof.
  intros Hi Hx Hne. rewrite <-(take_drop_middle l i y Hi) in Hx.
  rewrite elem_of_app in Hx |- *. rewrite elem_of_cons in Hx. tauto.
Qed.

Definition single (s : t) : Prop := (length (in_flight s) <= 1)%nat.

Lemma step_single now e s : single s -> one_at_a_time e s -> single (step now e s).1.
Proof.
  unfold single. intros Hs He. destruct s as [op to ex ws fl]. destruct e; cbn in *.
  - unfold start; cbn. destruct op; cbn; [|done]. rewrite He. simpl. lia.
  - case_bool_decide as Hin; [|done]. cbn. destruct e; cbn; destruct fl as [|o' [|]]; cbn in *; try lia;
      case_bool_decide; simpl; lia.
  - done.
  - done.
  - unfold fire; cbn. by destruct (ex <=? now).
  - unfold run_wait, connection_timeout_handler; cbn. repeat case_match; done.
Qed.

Lemma step_watched now now' e s :
  now <= now' -> single s -> one_at_a_time e s -> watched now s -> watched now' (step now' e s).1.
Proof.
  unfold watched, single. intros Hn Hs He Hw. destruct s as [op to ex ws fl]. destruct e; cbn in *.
  - unfold start; cbn. destruct op; cbn; [|done]. intros _ _. left. apply list_elem_of_here.
  - case_bool_decide as Hin; cbn.
    + destruct fl as [|o' [|]]; cbn in *; [by apply elem_of_nil in Hin| |lia].
      apply list_elem_of_singleton in Hin as ->.
      destruct e; cbn; rewrite bool_decide_true by done; intros _ Hne; by destruct Hne.
    + intros Ho Hf. destruct (Hw Ho Hf) as [|[? ?]]; [by left|right; split; [done|lia]].
  - done.
  - done.
  - unfold fire; cbn. destruct (Z.leb_spec ex now'); cbn; intros Ho Hf; destruct (Hw Ho Hf) as [H'|[H' ?]].
    + right. split; [by apply fire_wait_pending|done].
    + right. split; [by apply fire_wait_queued|done].
    + by left.
    + right. split; [done|lia].
  - unfold run_wait; cbn. destruct (ws !! i) as [[k [|ab]]|] eqn:Hi; cbn.
    1,3: intros Ho Hf; destruct (Hw Ho Hf) as [|[? ?]]; [by left|right; split; [done|lia]].
    destruct k; cbn.
    + unfold connection_timeout_handler. destruct ab; cbn.
      * intros Ho Hf. destruct (Hw Ho Hf) as [?|[? ?]]; [left|right; split; [|lia]]; by eapply elem_of_without.
      * destruct (Z.ltb_spec now' ex); cbn; [|done]. intros Ho Hf.
        destruct (Hw Ho Hf) as [?|[? ?]]; [left; by eapply elem_of_without|lia].
    + intros Ho Hf. destruct (Hw Ho Hf) as [?|[? ?]]; [left|right; split; [|lia]]; by eapply elem_of_without.
Qed.

Lemma reachable_watched timeout now s :
  reachable timeout one_at_a_time now s -> single s /\ watched now s.
Proof.
  induction 1 as [now|now now' e s H [Hs Hw] Hle Ha]; [split; [unfold single; simpl; lia|]|].
  { unfold watched. simpl. intros _ Hne. by destruct Hne. }
  split; [by apply step_single|by eapply step_watched].
Qed.

(** Running a queued timeout at or after the expiry closes the socket. *)
Lemma run_expired now i s :
  waits s !! i = Some (TimeoutHandler, Queued false) -> expires_at s <= now ->
  m_is_open (run_wait now i s).1 = false /\ TimedOut ∈ (run_wait now i s).2.
Proof.
  intros Hi He. destruct s as [op to ex ws fl]. unfold run_wait; cbn in *. rewrite Hi.
  unfold connection_timeout_handler. cbn. rewrite (proj2 (Z.ltb_ge now ex)) by lia. cbn.
  split; [done|apply list_elem_of_here].
Qed.

Lemma lookup_timeout_fire now s :
  expires_at s <= now ->
  ((TimeoutHandler, Pending) ∈ waits s \/ (TimeoutHandler, Queued false) ∈ waits s) ->
  exists i, waits (fire now s) !! i = Some (TimeoutHandler, Queued false)
    /\ expires_at (fire now s) = expires_at s.
Proof.
  intros He Hw. destruct s as [op to ex ws fl]. unfold fire; cbn in *.
  rewrite (proj2 (Z.leb_le _ _)) by lia. cbn.
  assert ((TimeoutHandler, Queued false) ∈ map fire_wait ws) as Hin
    by (destruct Hw; [by apply fire_wait_pending|by apply fire_wait_queued]).
  apply list_elem_of_lookup in Hin as [i Hi]. by exists i.
Qed.

(** Expiries of operations already started never move back while nobody sleeps. *)
Definition no_sleep (e : event) (s : t) : Prop := match e with SleepFor _ => False | _ => True end.

Lemma step_expiry now e s :
  no_sleep e s -> expires_at (step now e s).1 = expires_at s
    \/ expires_at (step now e s).1 = now + m_timeout s.
Proof.
  destruct s as [op to ex ws fl]. destruct e; cbn; intros He; try done; auto.
  - unfold start; cbn. destruct op; cbn; auto.
  - case_bool_decide; auto. destruct e; auto.
  - unfold fire; cbn. destruct (ex <=? now); auto.
  - unfold run_wait, connection_timeout_handler; cbn. repeat case_match; auto.
Qed.

Lemma step_timeout now e s : m_timeout (step now e s).1 = m_timeout s.
Proof.
  destruct s as [op to ex ws fl]. destruct e; cbn; try done.
  - unfold start; cbn. by destruct op.
  - case_bool_decide; [by destruct e|done].
  - unfold fire; cbn. by destruct (ex <=? now).
  - unfold run_wait, connection_timeout_handler; cbn. by repeat case_match.
Qed.

(** The events of a run with the times they happened at, newest first. *)
Fixpoint play (s : t) (tr : list (Z * event)) : t :=
  match tr with [] => s | (now, e) :: tr => (step now e (play s tr)).1 end.

Fixpoint chronological (tr : list (Z * event)) : Prop :=
  match tr with
  | [] => True
  | (now, _) :: tr' =>
      (match tr' with [] => True | (now', _) :: _ => now' <= now end) /\ chronological tr'
  end.

Lemma play_timeout s tr : m_timeout (play s tr) = m_timeout s.
Proof. induction tr as [|[now e] tr IH]; simpl; [done|]. by rewrite step_timeout. Qed.

Lemma chronological_le now e tr now' e' :
  chronological ((now, e) :: tr) -> (now', e') ∈ tr -> now' <= now.
Proof.
  revert now e. induction tr as [|[n2 e2] tr IH]; intros now e [H1 H2] Hin; [by apply elem_of_nil in Hin|].
  apply elem_of_cons in Hin as [E|Hin]; [by simplify_eq|].
  specialize (IH n2 e2 H2 Hin). lia.
Qed.

Lemma expiry_covers s tr now o :
  chronological tr -> Forall (fun '(_, e) => no_sleep e s) tr -> (now, Start o) ∈ tr ->
  m_is_open (play s tr) = true -> now + m_timeout s <= expires_at (play s tr).
Proof.
  induction tr as [|[n e] tr IH]; intros Hc Hf Hin Ho; [by apply elem_of_nil in Hin|].
  apply Forall_cons in Hf as [He Hf]. cbn [play] in *.
  assert (m_is_open (play s tr) = true) as Ho'.
  { destruct (play s tr) as [op to ex ws fl]. destruct e; cbn in *; try done.
    - unfold start in Ho; cbn in Ho. by destruct op.
    - case_bool_decide; cbn in *; [by destruct e|done].
    - unfold fire in Ho; cbn in Ho. by destruct (ex <=? n).
    - unfold run_wait, connection_timeout_handler in Ho; cbn in Ho. by repeat case_match. }
  apply elem_of_cons in Hin as [[= <- <-]|Hin].
  - cbn. unfold start. rewrite Ho'. pose proof (play_timeout s tr) as Ht.
    destruct (play s tr) as [op to ex ws fl]. cbn in *. lia.
  - specialize (IH (proj2 Hc) Hf Hin Ho').
    pose proof (chronological_le _ _ _ _ _ Hc Hin). pose proof (play_timeout s tr).
    destruct (step_expiry n e (play s tr) He) as [->| ->]; lia.
Qed.
End SocketFacts.

(** ** Properties *)
Section Properties.
Import Socket SocketFacts.

(** C39. While a socket is used one operation at a time, an operation that stalls
    is always timed out: in every reachable state in which an operation is in
    flight on the open socket, letting the clock reach the expiry and running
    a queued handler closes the socket. *)
Theorem stalled_operation_times_out (timeout now later : Z) (s : t) :
  reachable timeout one_at_a_time now s ->
  m_is_open s = true -> in_flight s <> [] -> now <= later -> expires_at s <= later ->
  exists i, m_is_open (run_wait later i (fire later s)).1 = false
    /\ TimedOut ∈ (run_wait later i (fire later s)).2.
Proof.
  intros Hr Ho Hf Hl He. destruct (reachable_watched _ _ _ Hr) as [_ Hw].
  destruct (lookup_timeout_fire later s He) as (i & Hi & Hx).
  { destruct (Hw Ho Hf) as [|[? _]]; auto. }
  exists i. apply run_expired; [done|lia].
Qed.

(** A socket is never timed out early: when the timeout handler closes the
    socket, every operation of the run was started at least a whole timeout
    before (runs without [sleep_for], which re-arms the same timer). *)
Theorem no_early_timeout (timeout now now0 : Z) (i : nat) (o : op) (tr : list (Z * event)) :
  let s := play (init timeout) tr in
  chronological ((now, RunWait i) :: tr) ->
  Forall (fun '(_, e) => no_sleep e (init timeout)) tr ->
  (now0, Start o) ∈ tr -> m_is_open s = true ->
  TimedOut ∈ (step now (RunWait i) s).2 -> now0 + timeout <= now.
Proof.
  intros s Hc Hf Hin Ho Ht.
  pose proof (expiry_covers (init timeout) tr now0 o (proj2 Hc) Hf Hin Ho) as Hx. fold s in Hx.
  cbn [step] in Ht. unfold run_wait, connection_timeout_handler in Ht. destruct s as [op to ex ws fl]; cbn in *.
  repeat case_match; cbn in *; rewrite ?elem_of_nil, ?list_elem_of_singleton in Ht; try done; lia.
Qed.
End Properties.

Section Unwatched.
Import Socket SocketFacts.

Definition read_then_write : list (Z * event) :=
  [(20, Complete Write None); (10, Start Write); (0, Start ReadUntil)].

(** A write that completes while a read is in flight disarms the only timer: the
    read is left with no timeout. *)
Theorem completed_write_disarms_read (later : Z) (i : nat) :
  let s := play (init 5000) read_then_write in
  in_flight s = [ReadUntil] /\ m_is_open (run_wait later i (fire later s)).1 = true.
Proof.
  split; [done|]. unfold fire. change (expires_at _) with 5010.
  destruct (5010 <=? later); destruct i as [|[|i]]; reflexivity.
Qed.
End Unwatched.

(** ** Witnesses *)
Section Witnesses.
Import Socket SocketFacts.

Lemma stalled_operation_times_out_witness :
  exists i, m_is_open (run_wait 5000 i (fire 5000 (play (init 5000) [(0, Start ReadUntil)]))).1 = false
    /\ TimedOut ∈ (run_wait 5000 i (fire 5000 (play (init 5000) [(0, Start ReadUntil)]))).2.
Proof.
  apply (stalled_operation_times_out 5000 0 5000); [|reflexivity|discriminate|lia|cbn; lia].
  apply (R_step 5000 one_at_a_time 0 0 (Start ReadUntil) (init 5000)); [constructor|lia|reflexivity].
Defined.

Lemma no_early_timeout_witness : 0 + 5000 <= 6000.
Proof.
  apply (no_early_timeout 5000 6000 0 0 ReadUntil [(5500, Fire); (0, Start ReadUntil)]).
  - cbn. lia.
  - repeat constructor.
  - right. left.
  - reflexivity.
  - vm_compute. left.
Defined.
End Witnesses.
