(* ===== verification/Resource.v ===== *)
(** * restbed: rules, the rule engine and resources

    Models [rule.cpp], [detail/rule_engine_impl.hpp], [resource.cpp] with
    [detail/resource_impl.hpp]. Handlers and rules are user code: they are known
    by names of a type [K], and what a name does is an argument of the
    definitions that invoke it. *)

From Stdlib Require Import ZArith Lia Ascii String Bool.
From stdpp Require Import base tactics option list.
From S2P Require Import Prelude StdMap.

(** ** Rules and [std::stable_sort] by priority *)
Module Rule.
Record t (K : Type) := mk { m_name : K; m_priority : Z }.
Arguments mk {K} m_name m_priority.
Arguments m_name {K} _.
Arguments m_priority {K} _.

Definition init {K} (name : K) : t K := mk name 0.
Definition get_priority {K} (r : t K) : Z := m_priority r.
Definition set_priority {K} (v : Z) (r : t K) : t K := r <| m_priority := v |>.

(** [stable_sort( ..., lhs->get_priority( ) < rhs->get_priority( ) )]: each rule
    goes behind those of the same or a lower priority value. *)
Definition keyed {K} (r : t K) : Z * t K := (get_priority r, r).
Definition stable_sort {K} (rules : list (t K)) : list (t K) :=
  map snd (mm_of_list Z.ltb (map keyed rules)).
End Rule.

(** ** The rule engine *)
Module RuleEngine.
Section Engine.
Context {S K : Type} (condition : K -> st S bool) (action : K -> st S unit -> st S unit).

(** [rule_engine( session, rules, callback, index )]; [rules] stands for the
    rules from [index] on. The rest of the chain is handed to the action. *)
Fixpoint rule_engine (rules : list (Rule.t K)) (callback : st S unit) : st S unit :=
  match rules with
  | [] => callback
  | rule :: rules =>
      do b <- condition (Rule.m_name rule) ;;
      if b : bool then action (Rule.m_name rule) (rule_engine rules callback)
      else rule_engine rules callback
  end.
End Engine.
End RuleEngine.

(** ** Resources *)
Module Resource.
Section Resource.
Context {K : Type}.

(** Sets of strings are maps to [unit]. *)
Record t := mk {
  m_paths : smap unit; m_methods : smap unit; m_rules : list (Rule.t K);
  m_default_headers : smap str;
  m_failed_filter_validation_handler : option K;
  m_error_handler : option K;
  m_authentication_handler : option K;
  m_method_handlers : smap (smap str * K) }.

Definition init : t := mk [] [] [] [] None None None [].

Definition add_rule (rule : option (Rule.t K)) (r : t) : t :=
  match rule with
  | Some rule => r <| m_rules := Rule.stable_sort (m_rules r ++ [rule]) |>
  | None => r
  end.
Definition add_rule_priority (rule : option (Rule.t K)) (priority : Z) (r : t) : t :=
  match rule with Some rule => add_rule (Some (Rule.set_priority priority rule)) r | None => r end.

Definition set_path (value : str) (r : t) : t := r <| m_paths := [(value, tt)] |>.
Definition set_paths (values : smap unit) (r : t) : t := r <| m_paths := values |>.
Definition set_default_header (name value : str) (r : t) : t :=
  r <| m_default_headers := smm_insert name value (m_default_headers r) |>.
Definition set_default_headers (values : smap str) (r : t) : t := r <| m_default_headers := values |>.
Definition set_failed_filter_validation_handler (v : option K) (r : t) : t :=
  r <| m_failed_filter_validation_handler := v |>.
Definition set_error_handler (v : option K) (r : t) : t := r <| m_error_handler := v |>.
Definition set_authentication_handler (v : option K) (r : t) : t := r <| m_authentication_handler := v |>.

Definition empty_method : exn :=
  InvalidArgument (lit "Attempt to set resource handler to an empty protocol method.").

Definition set_method_handler (method : str) (filters : smap str) (callback : option K) (r : t) : res t :=
  match method with
  | [] => err empty_method
  | _ =>
      match callback with
      | Some k =>
          ok (r <| m_methods := sm_insert method tt (m_methods r) |>
                <| m_method_handlers := smm_insert method (filters, k) (m_method_handlers r) |>)
      | None => ok r
      end
  end.
Definition set_method_handler_unfiltered (method : str) (callback : option K) (r : t) : res t :=
  set_method_handler method [] callback r.
End Resource.
Arguments t K : clear implicits.
End Resource.

(** ** Lemmas *)
Module ResourceFacts.
Import Rule.

Section Sort.
Context {K : Type}.
Implicit Types (rules : list (t K)).

Lemma keyed_sorted rules : map keyed (stable_sort rules) = mm_of_list Z.ltb (map keyed rules).
Proof.
  unfold stable_sort. rewrite map_map.
  assert (Forall (fun kv => keyed kv.2 = kv) (mm_of_list Z.ltb (map keyed rules))) as Hf.
  { rewrite mm_of_list_perm. apply Forall_map, Forall_true. done. }
  induction Hf as [|kv m Hk Hm IH]; simpl; [done|]. by rewrite Hk, IH.
Qed.

(** Sorting again after one more rule is sorting everything. *)
Lemma stable_sort_snoc rules rule :
  stable_sort (stable_sort rules ++ [rule]) = stable_sort (rules ++ [rule]).
Proof.
  unfold stable_sort at 1 3. f_equal. rewrite !map_app, keyed_sorted. simpl.
  unfold mm_of_list at 1 3. rewrite !fold_left_app. simpl. f_equal.
  apply (mm_of_list_id Z.ltb), (mm_of_list_sorted Z.ltb).
Qed.

Lemma stable_sort_perm rules : stable_sort rules ≡ₚ rules.
Proof.
  unfold stable_sort. rewrite mm_of_list_perm, map_map. simpl. by rewrite map_id.
Qed.

Lemma stable_sort_class rules p :
  filter (fun r => get_priority r = p) (stable_sort rules) = filter (fun r => get_priority r = p) rules.
Proof.
  assert (forall l : list (t K), map snd (filter (fun kv => kv.1 = p) (map keyed l))
    = filter (fun r => get_priority r = p) l) as Hm.
  { induction l as [|r l IH]; [done|]. simpl. rewrite !filter_cons. simpl.
    case_decide; simpl; by rewrite IH. }
  rewrite <-(Hm (stable_sort rules)), keyed_sorted.
  pose proof (equal_range_of_list Z.ltb p (map keyed rules)) as E. unfold equal_range in E.
  by rewrite E.
Qed.

Lemma stable_sort_ordered rules i j r1 r2 :
  stable_sort rules !! i = Some r1 -> stable_sort rules !! j = Some r2 -> (i < j)%nat ->
  (get_priority r1 <= get_priority r2)%Z.
Proof.
  intros Hi Hj Hlt. pose proof (mm_of_list_sorted Z.ltb (map keyed rules)) as Hs.
  rewrite <-keyed_sorted in Hs. revert i j Hi Hj Hlt.
  induction (stable_sort rules) as [|r l IH]; intros i j Hi Hj Hlt; [done|].
  destruct Hs as [Hall Hs]. destruct i as [|i], j as [|j]; simpl in *; try lia.
  - simplify_eq. apply list_elem_of_lookup_2 in Hj. rewrite Forall_map, Forall_forall in Hall.
    specialize (Hall _ Hj). simpl in Hall. lia.
  - eapply (IH Hs i j); [done..|lia].
Qed.
End Sort.

Section Engine.
Context {S K : Type} (condition : K -> st S bool) (action : K -> st S unit -> st S unit).
Import RuleEngine.

Lemma rule_engine_app (rules1 rules2 : list (Rule.t K)) callback s :
  rule_engine condition action (rules1 ++ rules2) callback s
  = rule_engine condition action rules1 (rule_engine condition action rules2 callback) s.
Proof.
  assert (rule_engine condition action (rules1 ++ rules2) callback
    = rule_engine condition action rules1 (rule_engine condition action rules2 callback)) as ->; [|done].
  induction rules1 as [|r rules1 IH]; simpl; [done|]. by rewrite IH.
Qed.
End Engine.
End ResourceFacts.

(** ** Properties *)
Section Properties.
Import Rule ResourceFacts RuleEngine.
Context {K : Type}.

(** Rules added to a resource in any order run in ascending priority, those
    of equal priority in the order they were added, and none is lost. *)
Theorem add_rules_stable (rules : list (Rule.t K)) :
  let result := Resource.m_rules (fold_left (fun r rule => Resource.add_rule (Some rule) r) rules Resource.init) in
  result ≡ₚ rules
  /\ (forall i j r1 r2, result !! i = Some r1 -> result !! j = Some r2 -> (i < j)%nat ->
        (get_priority r1 <= get_priority r2)%Z)
  /\ (forall p, filter (fun r => get_priority r = p) result = filter (fun r => get_priority r = p) rules).
Proof.
  assert (Resource.m_rules (fold_left (fun r rule => Resource.add_rule (Some rule) r) rules Resource.init)
    = stable_sort rules) as ->.
  { induction rules as [|r rules IH] using rev_ind; [done|].
    rewrite fold_left_app. simpl. rewrite <-(stable_sort_snoc rules r), <-IH. by destruct (fold_left _ _ _). }
  split_and!; [apply stable_sort_perm|intros *; apply stable_sort_ordered|intros; apply stable_sort_class].
Qed.

(** The rule engine runs exactly the rules whose condition holds, in order,
    and then the callback, when each action continues the chain: with actions
    that record their names, the record is the accepted rules, and the
    callback runs once, last. *)
Theorem rule_engine_runs_accepted (accepts : K -> bool) (rules : list (Rule.t K))
    (callback : st (list K) unit) (log : list K) :
  rule_engine (fun k => st_ret (accepts k))
    (fun k next => do _ <- st_modify (fun l => l ++ [k]) ;; next) rules callback log
  = callback (log ++ filter (fun k => accepts k = true) (map Rule.m_name rules)).
Proof.
  revert log. induction rules as [|r rules IH]; intros log; simpl.
  - by rewrite app_nil_r.
  - unfold st_bind at 1, st_ret at 1. rewrite filter_cons. destruct (accepts (Rule.m_name r)) eqn:E.
    + unfold st_bind, st_modify. rewrite IH, decide_True by done. by rewrite <-app_assoc.
    + rewrite IH, decide_False by done. done.
Qed.
End Properties.
