(* ===== verification/Session.v ===== *)
(** * restbed: sessions

    Models [session.cpp], [detail/session_impl.cpp], [session_manager.cpp] and
    [ServiceImpl::default_error_handler]. A session starts asynchronous socket
    operations; each carries what its completion lambda has captured, as a value
    of [completion], and [complete] runs that lambda. User callbacks are the
    last thing any of these functions does: invoking one is an entry of the
    session's log, and what the callback does next is a further call of an
    operation. The connection ([m_socket]) is seen as in [Socket], reduced to
    whether it is open. *)

From Stdlib Require Import ZArith Lia Ascii String Bool.
From stdpp Require Import base tactics option list.
From S2P Require Import Prelude StdMap RString Uri Message Settings Socket Resource.

(** The state a session shares with its socket and request. *)
Module Session.
Section Session.
Context {K V : Type}.  (* names of user callbacks; context values *)

(** [m_error_handler]: the service's default one or the user's. *)
Inductive error_handler := DefaultErrorHandler | UserErrorHandler (k : K).

(** A callback given to [yield]: the user's, or the user's bound to the new
    web socket by [upgrade]. *)
Inductive callback := Plain (k : K) | Upgraded (k : K) (socket : str).

Inductive completion :=
| CloseDone
| YieldDone (cb : option callback)
| YieldResponseDone (cb : option callback)
| KeepAlive
| FetchLength (length : nat) (cb : K)
| FetchDelimiter (cb : K)
| SleepDone (cb : option K).

Inductive io :=
| Write (data : list Z) (c : completion)
| ReadAtLeast (length : nat) (c : completion)
| ReadUntil (delimiter : str) (c : completion)
| SleepFor (delay : Z) (c : completion).

Inductive event :=
| Called (cb : callback)
| Fetched (cb : K) (data : list Z)
| ErrorHandled (k : K) (status : Z) (what : str)   (* by [SessionImpl::get_error_handler] *)
| RequestFailed (k : K) (status : Z) (what : str)  (* by [ServiceImpl::parse_request] *)
| NextRequest (e : option Socket.ecode) (length : nat).  (* [m_keep_alive_callback] *)

Record t := mk {
  m_id : str; m_request : option Request.t; m_buffer : list Z;
  m_resource : option (Resource.t K); m_settings : Settings.t;
  m_headers : smap str; m_context : smap V;
  m_error_handler : option error_handler; m_error_handler_invoked : bool;
  m_sockets : smap str;      (* the keys of the sockets [m_web_socket_manager] knows *)
  pending : list io;         (* operations handed to the socket, not completed *)
  sent : list Z;             (* what the peer has been sent *)
  log : list event }.

Definition op := st t unit.

(** ** The session's data *)
Definition has (name : str) (s : t) : bool := bool_decide (is_Some (m_find name (m_context s))).
Definition erase (name : str) (s : t) : t :=
  match name with
  | [] => s <| m_context := [] |>
  | _ => s <| m_context := m_erase name (m_context s) |>
  end.
Definition keys (s : t) : list str := map fst (m_context s).
Definition get (name : str) (s : t) : res V :=
  match m_find name (m_context s) with Some v => ok v | None => err (OutOfRange (lit "map::at")) end.
Definition get_default (name : str) (default_value : V) (s : t) : V :=
  default default_value (m_find name (m_context s)).
Definition set (name : str) (value : V) (s : t) : t :=
  let context := if has name s then m_erase name (m_context s) else m_context s in
  s <| m_context := sm_insert name value context |>.
Definition set_id (v : str) (s : t) : t := s <| m_id := v |>.
Definition add_header (name value : str) (s : t) : t :=
  s <| m_headers := smm_insert name value (m_headers s) |>.
Definition set_header (name value : str) (s : t) : t :=
  s <| m_headers := smm_insert name value (m_erase name (m_headers s)) |>.
Definition set_headers (v : smap str) (s : t) : t := s <| m_headers := v |>.

(** ** The socket *)
Definition is_open (s : t) : bool :=
  match m_request s with
  | Some r => default false (Request.m_socket_open r)
  | None => false
  end.
Definition is_closed (s : t) : bool := negb (is_open s).

Definition close_request (r : Request.t) : Request.t :=
  r <| Request.m_socket_open := Request.close_socket (Request.m_socket_open r) |>.
Definition socket_close (s : t) : t := s <| m_request := close_request <$> m_request s |>.

(** [SocketImpl] starts a read or a write only while it is open; [sleep_for]
    always arms the timer. *)
Definition issue (i : io) : op := fun s =>
  match i with
  | SleepFor _ _ => (ok tt, s <| pending := pending s ++ [i] |>)
  | _ => (ok tt, if is_open s then s <| pending := pending s ++ [i] |> else s)
  end.
Definition emit (e : event) : op := st_modify (fun s => s <| log := log s ++ [e] |>).

(** ** Responses *)
Definition insert_all (values headers : smap str) : smap str :=
  fold_left (fun m kv => smm_insert kv.1 kv.2 m) values headers.

(** The headers [SessionImpl::transmit] sends. *)
Definition merged_headers (response : Response.t) (s : t) : smap str :=
  let hdrs := Settings.m_default_headers (m_settings s) in
  let hdrs := match m_resource s with
              | Some r => insert_all (Resource.m_default_headers r) hdrs
              | None => hdrs
              end in
  let hdrs := insert_all (m_headers s) hdrs in
  insert_all (Response.get_headers [] response) hdrs.

Definition payload (response : Response.t) (s : t) : Response.t :=
  let p := Response.init in
  let p := Response.set_headers (merged_headers response s) p in
  let p := Response.set_body (Response.m_body response) p in
  let p := Response.set_version (Response.m_version response) p in
  let p := Response.set_protocol (Response.m_protocol response) p in
  let p := Response.set_status_code (Response.m_status_code response) p in
  let p := Response.set_status_message (Response.m_status_message response) p in
  match Response.m_status_message p with
  | [] => Response.set_status_message
            (Settings.get_status_message (Response.m_status_code p) (m_settings s)) p
  | _ => p
  end.

Definition transmit (response : Response.t) (c : completion) : op :=
  do s <- st_get ;;
  do bytes <- st_lift (Wire.response_to_bytes (payload response s)) ;;
  issue (Write bytes c).

Definition make_response (status : Z) (body : list Z) (headers : smap str) : Response.t :=
  Response.set_status_code status (Response.set_headers headers (Response.set_body body Response.init)).

(** ** Error handlers *)

(** [ServiceImpl::default_error_handler]; on an open session [close( status,
    body, headers )] goes straight to [transmit]. *)
Definition default_error_handler (status : Z) (what : str) : op :=
  do s <- st_get ;;
  if is_open s then
    let body := what in
    let headers := mm_of_list str_ltb
      [(lit "Content-Type", lit "text/plain");
       (lit "Content-Length", Uri.to_dec (Z.of_nat (length body)))] in
    transmit (make_response status (RString.to_bytes body) headers) CloseDone
  else st_ret tt.

(** [SessionImpl::get_error_handler( )], applied: the handler of the resource,
    else the session's, else one that closes the session; once per session. *)
Definition call_error_handler (status : Z) (what : str) : op :=
  do s <- st_get ;;
  if m_error_handler_invoked s then st_ret tt else
  do _ <- st_modify (fun s => s <| m_error_handler_invoked := true |>) ;;
  match (r ← m_resource s; Resource.m_error_handler r) with
  | Some k => emit (ErrorHandled k status what)
  | None =>
      match m_error_handler s with
      | Some DefaultErrorHandler => default_error_handler status what
      | Some (UserErrorHandler k) => emit (ErrorHandled k status what)
      | None => if is_open s then issue (Write [] CloseDone) else st_ret tt
      end
  end.

(** [String::format( "... failed: %s", error.message( ).data( ) )], then the handler. *)
Definition failed (prefix : str) (e : Socket.ecode) : op :=
  do message <- st_lift (RString.format (prefix ++ RString.c_str (Socket.ec_message e))) ;;
  call_error_handler 500 message.

Definition unless_closed (what : str) (o : op) : op :=
  do s <- st_get ;; if is_closed s then call_error_handler 500 what else o.

(** ** Operations *)
Definition close_body (body : list Z) : op :=
  unless_closed (lit "Close failed: session already closed.") (issue (Write body CloseDone)).
Definition close_response (response : Response.t) : op :=
  unless_closed (lit "Close failed: session already closed.") (transmit response CloseDone).
Definition close (status : Z) (body : list Z) (headers : smap str) : op :=
  close_response (make_response status body headers).

Definition yield_body (body : list Z) (cb : option callback) : op :=
  unless_closed (lit "Yield failed: session already closed.") (issue (Write body (YieldDone cb))).
Definition yield_response (response : Response.t) (cb : option callback) : op :=
  unless_closed (lit "Yield failed: session already closed.") (transmit response (YieldResponseDone cb)).
Definition yield (status : Z) (body : list Z) (headers : smap str) (cb : option callback) : op :=
  yield_response (make_response status body headers) cb.

(** [WebSocketManagerImpl::create] registers a socket under a fresh key
    ([uuid], drawn from the system), even if the yield then fails. *)
Definition upgrade (uuid : str) (status : Z) (body : list Z) (headers : smap str) (cb : K) : op :=
  do _ <- st_modify (fun s => s <| m_sockets := sm_insert uuid uuid (m_sockets s) |>) ;;
  yield status body headers (Some (Upgraded cb uuid)).

(** [SessionImpl::fetch_body]; [length] bytes are read from the buffer
    whether it holds them or not. *)
Definition fetch_body (length : nat) (cb : K) : op := fun s =>
  if (List.length (m_buffer s) <? length)%nat then (err Undef, s) else
  match m_request s with
  | None => (err Undef, s)
  | Some r =>
      let data := take length (m_buffer s) in
      let body := match Request.m_body r with [] => data | b => b ++ data end in
      emit (Fetched cb data)
        (s <| m_buffer := drop length (m_buffer s) |>
           <| m_request := Some (Request.set_body body r) |>)
  end.

Definition fetch (length : nat) (cb : K) : op :=
  unless_closed (lit "Fetch failed: session already closed.")
    (do s <- st_get ;;
     if (List.length (m_buffer s) <? length)%nat
     then issue (ReadAtLeast (length - List.length (m_buffer s)) (FetchLength length cb))
     else fetch_body length cb).

Definition fetch_delimiter (delimiter : str) (cb : K) : op :=
  unless_closed (lit "Fetch failed: session already closed.")
    (issue (ReadUntil delimiter (FetchDelimiter cb))).

Definition sleep_for (delay : Z) (cb : option K) : op :=
  unless_closed (lit "Sleep failed: session already closed.") (issue (SleepFor delay (SleepDone cb))).

(** ** Completions *)
Definition call (cb : option callback) : op :=
  match cb with Some cb => emit (Called cb) | None => st_ret tt end.

(** [SessionManager::save] and [load] of the base class call back at once. *)
Definition save (k : op) : op := k.
Definition load (k : op) : op := k.

Definition request_end : str := Wire.crlf ++ Wire.crlf.

(** The lambda given to the socket. [length] is what the operation reports. *)
Definition finish (c : completion) (e : option Socket.ecode) (length : nat) : op :=
  match c, e with
  | CloseDone, Some e => failed (lit "Close failed: ") e
  | CloseDone, None => save (st_modify socket_close)
  | YieldDone _, Some e => failed (lit "Yield failed: ") e
  | YieldDone cb, None => call cb
  | YieldResponseDone _, Some e => failed (lit "Yield failed: ") e
  | YieldResponseDone (Some cb), None => call (Some cb)
  | YieldResponseDone None, None => issue (ReadUntil request_end KeepAlive)
  | KeepAlive, e => emit (NextRequest e length)
  | FetchLength _ _, Some e => failed (lit "Fetch failed: ") e
  | FetchLength n cb, None => fetch_body n cb
  | FetchDelimiter _, Some e => failed (lit "Fetch failed: ") e
  | FetchDelimiter cb, None => fetch_body length cb
  | SleepDone _, Some e => failed (lit "Wait failed: ") e
  | SleepDone cb, None => call (Plain <$> cb)
  end.

(** The wrapper of [SocketImpl]: an error closes the socket, and the lambda
    does not hear of an aborted operation. *)
Definition after_io (e : option Socket.ecode) (c : completion) (length : nat) : op :=
  match e with
  | None => finish c None length
  | Some ec =>
      do _ <- st_modify socket_close ;;
      if Socket.ec_aborted ec then st_ret tt else finish c e length
  end.

(** The first operation of the queue completes: [received] bytes have reached
    the buffer, [length] is the count reported. *)
Definition complete (e : option Socket.ecode) (received : list Z) (length : nat) : op := fun s =>
  match pending s with
  | [] => (ok tt, s)
  | i :: rest =>
      let s := s <| pending := rest |> in
      match i with
      | Write data c =>
          after_io e c length (match e with None => s <| sent := sent s ++ data |> | Some _ => s end)
      | ReadAtLeast _ c | ReadUntil _ c =>
          after_io e c length (s <| m_buffer := m_buffer s ++ received |>)
      | SleepFor _ c => finish c e length s
      end
  end.

(** [SessionManager::create] and what [create_session] puts into the session. *)
Definition create (settings : Settings.t) (handler : option error_handler) : t :=
  mk [] (Some (Request.init <| Request.m_socket_open := Some true |>)) [] None settings [] []
    handler false [] [ReadUntil request_end KeepAlive] [] [].
End Session.
Arguments t K V : clear implicits.
Arguments error_handler K : clear implicits.
Arguments callback K : clear implicits.
Arguments completion K : clear implicits.
Arguments io K : clear implicits.
Arguments event K : clear implicits.
Arguments op K V : clear implicits.
End Session.

(** ** Lemmas *)
Module SessionFacts.
Import Session.

(** *** Invariants of operations, by composition *)
Section Preserves.
Context {K V : Type}.
Implicit Types (P : t K V -> Prop).

Definition preserves {A} P (o : st (t K V) A) : Prop := forall s, P s -> P (o s).2.

Lemma preserves_bind {A B} P (o : st (t K V) A) (f : A -> st (t K V) B) :
  preserves P o -> (forall a, preserves P (f a)) -> preserves P (st_bind o f).
Proof.
  intros Ho Hf s Hs. unfold st_bind. specialize (Ho s Hs). destruct (o s) as [[e|a] s']; simpl in *; [done|].
  by apply Hf.
Qed.

Lemma preserves_ret {A} P (a : A) : preserves P (st_ret a).
Proof. intros s Hs. done. Qed.
Lemma preserves_lift {A} P (x : res A) : preserves P (st_lift x).
Proof. intros s Hs. done. Qed.
Lemma preserves_get P : preserves P st_get.
Proof. intros s Hs. done. Qed.
Lemma preserves_modify P f : (forall s, P s -> P (f s)) -> preserves P (st_modify f).
Proof. intros H s Hs. by apply H. Qed.
Lemma preserves_if {A} P (b : bool) (o1 o2 : st (t K V) A) :
  preserves P o1 -> preserves P o2 -> preserves P (if b then o1 else o2).
Proof. by destruct b. Qed.
Lemma preserves_opt {A X} P (x : option X) (f : X -> st (t K V) A) (o : st (t K V) A) :
  (forall y, preserves P (f y)) -> preserves P o ->
  preserves P (match x with Some y => f y | None => o end).
Proof. by destruct x. Qed.
End Preserves.

Create HintDb session discriminated.
#[export] Hint Resolve preserves_bind preserves_ret preserves_lift preserves_get preserves_modify
  preserves_if preserves_opt : session.

(** *** The error handler runs at most once *)
Section Errors.
Context {K V : Type}.
Implicit Types (s : t K V).

Definition is_error (e : event K) : bool := match e with ErrorHandled _ _ _ => true | _ => false end.
Definition errors (l : list (event K)) : nat := length (filter (fun e => is_error e = true) l).
Definition once (s : t K V) : Prop := (errors (log s) <= if m_error_handler_invoked s then 1 else 0)%nat.

Lemma errors_app l l' : errors (l ++ l') = (errors l + errors l')%nat.
Proof. unfold errors. by rewrite filter_app, length_app. Qed.

Lemma once_issue i : preserves once (@issue K V i).
Proof.
  intros s Hs. unfold issue. destruct i; simpl; try destruct (is_open s); by destruct s.
Qed.

Lemma once_emit e : is_error e = false -> preserves once (@emit K V e).
Proof.
  intros He s Hs. destruct s. unfold emit, once in *. cbn -[errors] in *. rewrite errors_app.
  replace (errors [e]) with 0%nat by (by destruct e). lia.
Qed.

Lemma once_transmit r c : preserves once (@transmit K V r c).
Proof. unfold transmit. eauto using once_issue with session. Qed.

Lemma once_default status what : preserves once (@default_error_handler K V status what).
Proof. unfold default_error_handler. eauto using once_transmit with session. Qed.

Lemma once_call status what : preserves once (@call_error_handler K V status what).
Proof.
  intros s Hs. unfold call_error_handler, st_bind at 1, st_get.
  destruct (m_error_handler_invoked s) eqn:Hi; [done|].
  unfold st_bind at 1, st_modify.
  assert (once (s <| m_error_handler_invoked := true |>)) as Hs'.
  { destruct s. unfold once in *. cbn -[errors] in *. rewrite Hi in Hs. lia. }
  assert (Hadd : forall k, once (emit (ErrorHandled k status what) (s <| m_error_handler_invoked := true |>)).2).
  { intros k. destruct s. unfold once, emit in *. cbn -[errors] in *. rewrite Hi in Hs. rewrite errors_app.
    change (errors [_]) with 1%nat. lia. }
  destruct (r ← m_resource s; Resource.m_error_handler r) as [k|]; [apply Hadd|].
  destruct (m_error_handler s) as [[|k]|]; [by apply once_default|apply Hadd|].
  destruct (is_open s); [by apply once_issue|done].
Qed.
End Errors.
#[export] Hint Resolve once_issue once_transmit once_default once_call : session.

Section Ops.
Context {K V : Type}.

Lemma once_failed p e : preserves once (@failed K V p e).
Proof. unfold failed. eauto with session. Qed.
Lemma once_unless w (o : op K V) : preserves once o -> preserves once (unless_closed w o).
Proof. intros. unfold unless_closed. eauto 6 with session. Qed.
Lemma once_socket_close (s : t K V) : once s -> once (socket_close s).
Proof. by destruct s. Qed.

Lemma once_fetch_body n cb : preserves once (@fetch_body K V n cb).
Proof.
  intros s Hs. unfold fetch_body. destruct (_ <? _)%nat; [done|].
  destruct (m_request s) as [r|]; [|done]. apply once_emit; [done|]. by destruct s.
Qed.

Lemma once_finish c e n : preserves once (@finish K V c e n).
Proof.
  destruct c as [|cb|[cb|]| | | |cb], e as [e|]; simpl;
    try (apply once_failed); try (apply once_fetch_body); try (by apply once_emit); eauto with session.
  - apply preserves_modify, once_socket_close.
  - destruct cb; [by apply once_emit|apply preserves_ret].
  - destruct cb; [by apply once_emit|apply preserves_ret].
Qed.

Lemma once_after_io e c n : preserves once (@after_io K V e c n).
Proof.
  unfold after_io. destruct e as [e|]; [|apply once_finish].
  apply preserves_bind; [apply preserves_modify, once_socket_close|].
  intros _. destruct (Socket.ec_aborted e); [apply preserves_ret|apply once_finish].
Qed.

Lemma once_complete e d n : preserves once (@complete K V e d n).
Proof.
  intros s Hs. unfold complete. destruct (pending s) as [|i l] eqn:Hp; [done|].
  assert (once (s <| pending := l |>)) by (by destruct s).
  destruct i; (apply once_after_io || apply once_finish); try done; [destruct e; [done|]| |]; by destruct s.
Qed.
End Ops.

(** *** Responses *)
Lemma transmit_ok {K V} (s : t K V) response c bytes :
  is_open s = true -> Wire.response_to_bytes (payload response s) = ok bytes ->
  transmit response c s = (ok tt, s <| pending := pending s ++ [Write bytes c] |>).
Proof.
  intros Ho Hb. unfold transmit, st_bind, st_get, st_lift. rewrite Hb. unfold issue, ok. by rewrite Ho.
Qed.

Lemma payload_ext {K V} (s s' : t K V) response :
  m_settings s = m_settings s' -> m_resource s = m_resource s' -> m_headers s = m_headers s' ->
  payload response s = payload response s'.
Proof. intros H1 H2 H3. unfold payload, merged_headers. by rewrite H1, H2, H3. Qed.

(** *** Headers *)
Lemma equal_range_insert_all name values m :
  mm_sorted str_ltb m ->
  mm_sorted str_ltb (insert_all values m) /\
  equal_range name (insert_all values m) = equal_range name m ++ equal_range name values.
Proof.
  revert m. induction values as [|[k v] values IH]; intros m Hm; simpl.
  - split; [done|]. unfold equal_range at 3. by rewrite filter_nil, app_nil_r.
  - destruct (IH (smm_insert k v m)) as [Hs ->]; [by apply mm_insert_sorted; [apply _|]|]. split; [done|].
    unfold equal_range at 4. rewrite filter_cons. simpl. case_decide as E.
    + subst k. rewrite (equal_range_insert_eq str_ltb) by done. by rewrite <-app_assoc.
    + rewrite (equal_range_insert_ne str_ltb) by congruence. done.
Qed.
End SessionFacts.

(** ** Runs of a session *)
Module SessionRun.
Import Session.
Section Run.
Context {K V : Type}.

(** Every call a program can make on a session, and the completions the
    socket delivers. *)
Inductive action :=
| ACloseBody (body : list Z)
| AClose (response : Response.t)
| AYieldBody (body : list Z) (cb : option (callback K))
| AYield (response : Response.t) (cb : option (callback K))
| AFetch (length : nat) (cb : K)
| AFetchDelimiter (delimiter : str) (cb : K)
| AUpgrade (uuid : str) (status : Z) (body : list Z) (headers : smap str) (cb : K)
| ASleep (delay : Z) (cb : option K)
| ASet (name : str) (value : V)
| AErase (name : str)
| AComplete (e : option Socket.ecode) (received : list Z) (length : nat).

Definition perform (a : action) : op K V :=
  match a with
  | ACloseBody b => close_body b
  | AClose r => close_response r
  | AYieldBody b cb => yield_body b cb
  | AYield r cb => yield_response r cb
  | AFetch n cb => fetch n cb
  | AFetchDelimiter d cb => fetch_delimiter d cb
  | AUpgrade u st b h cb => upgrade u st b h cb
  | ASleep d cb => sleep_for d cb
  | ASet n v => st_modify (set n v)
  | AErase n => st_modify (erase n)
  | AComplete e d n => complete e d n
  end.

Definition run (l : list action) (s : t K V) : t K V :=
  fold_left (fun s a => (perform a s).2) l s.
End Run.
Arguments action K V : clear implicits.

Section Errors.
Import SessionFacts.
Context {K V : Type}.

(** No call and no completion runs the session's error handler a second time. *)
Lemma once_perform (a : action K V) : preserves once (perform a).
Proof.
  destruct a; unfold perform, close_body, close_response, yield_body, yield_response, fetch, fetch_delimiter,
    upgrade, yield, yield_response, sleep_for; eauto using once_unless, once_complete with session.
  - apply once_unless, preserves_bind; [apply preserves_get|]. intros s.
    apply preserves_if; [apply once_issue|apply once_fetch_body].
  - apply preserves_bind; [apply preserves_modify; by intros []|]. eauto using once_unless with session.
  - apply preserves_modify. by intros [].
  - apply preserves_modify. intros []. by destruct name.
Qed.

Lemma once_run (l : list (action K V)) s : once s -> once (run l s).
Proof. unfold run. revert s. induction l as [|a l IH]; intros s Hs; simpl; [done|]. by apply IH, once_perform. Qed.
End Errors.
End SessionRun.

(** ** Properties *)
Section Properties.
Import Session SessionFacts SessionRun.
Context {K V : Type}.
Implicit Types (s : t K V).

(** A closed session does no input or output: closing, yielding, fetching,
    upgrading and sleeping hand nothing to the socket and send nothing. *)
Theorem closed_session_is_silent s (a : action K V) :
  is_open s = false -> (forall e d n, a <> AComplete e d n) ->
  pending (perform a s).2 = pending s /\ sent (perform a s).2 = sent s.
Proof.
  intros Hc Ha.
  assert (Hcall : forall w s', is_open s' = false ->
    pending (@call_error_handler K V 500 w s').2 = pending s' /\ sent (@call_error_handler K V 500 w s').2 = sent s').
  { intros w s' Hc'. unfold call_error_handler, st_bind, st_get, st_modify.
    destruct (m_error_handler_invoked s'); [done|].
    destruct (r ← m_resource s'; Resource.m_error_handler r); [by destruct s'|].
    destruct (m_error_handler s') as [[|k]|]; [|by destruct s'|rewrite Hc'; by destruct s'].
    unfold default_error_handler, st_bind, st_get.
    replace (is_open (s' <| m_error_handler_invoked := true |>)) with false by (by destruct s').
    by destruct s'. }
  assert (Hun : forall w o s', is_open s' = false -> pending (unless_closed w o s').2 = pending s'
    /\ sent (unless_closed w o s').2 = sent s').
  { intros w o s' Hc'. unfold unless_closed, st_bind, st_get, is_closed. rewrite Hc'. simpl. by apply Hcall. }
  destruct a; simpl; try (by apply Hun).
  - unfold upgrade, st_bind, st_modify. set (s' := field_update _ s).
    destruct (Hun (lit "Yield failed: session already closed.")
      (transmit (make_response status body headers) (YieldResponseDone (Some (Upgraded cb uuid)))) s') as [H1 H2];
      [by destruct s|].
    unfold yield, yield_response. rewrite H1, H2. by destruct s.
  - unfold set. destruct (has name s); by destruct s.
  - destruct name; by destruct s.
  - by destruct (Ha e received length).
Qed.

(** C9. [fetch( n )] hands over exactly the next [n] bytes of the connection,
    those already buffered first, and loses none: the request's body grows by
    them and the buffer keeps the rest. The socket read asks for the missing
    bytes and [asio] delivers at least as many ([transfer_at_least]). *)
Theorem fetch_delivers s (r : Request.t) (n : nat) (cb : K) (received : list Z) (count : nat) :
  is_open s = true -> m_request s = Some r -> pending s = [] ->
  (n - length (m_buffer s) <= length received)%nat ->
  let missing := (length (m_buffer s) <? n)%nat in
  let stream := m_buffer s ++ (if missing then received else []) in
  let s' := (if missing then complete None received count (fetch n cb s).2 else fetch n cb s).2 in
  log s' = log s ++ [Fetched cb (take n stream)]
  /\ m_buffer s' = drop n stream
  /\ Request.m_body <$> m_request s' = Some (Request.m_body r ++ take n stream)
  /\ pending s' = [].
Proof.
  intros Ho Hr Hp Hn missing stream s'. subst s' stream missing.
  unfold fetch, unless_closed, st_bind, st_get, is_closed. rewrite Ho. change (negb true) with false. cbv beta iota.
  assert (Hbody : forall x : list Z, match Request.m_body r with [] => x | b => b ++ x end = Request.m_body r ++ x)
    by (intros; by destruct (Request.m_body r)).
  destruct (Nat.ltb_spec (length (m_buffer s)) n) as [Hlt|Hge].
  - unfold issue. cbv beta iota. rewrite Ho. cbv beta iota. 
    destruct s as [id rq buf rs se hd cx eh inv ws pe sn lg]; cbn -[Nat.ltb] in *. subst pe rq.
    cbn -[Nat.ltb]. unfold fetch_body; cbn -[Nat.ltb]. rewrite (proj2 (Nat.ltb_ge _ _)) by (rewrite length_app; lia).
    unfold emit, st_modify; cbn. rewrite Hbody. done.
  - unfold fetch_body. rewrite (proj2 (Nat.ltb_ge _ _)) by lia. rewrite Hr, app_nil_r.
    destruct s as [id rq buf rs se hd cx eh inv ws pe sn lg]; cbn in *. subst. by rewrite Hbody.
Qed.

(** A response is sent with the default headers of the settings, then of the
    resource, the session's own and the response's, in this order under each
    name; none replaces another. *)
Theorem transmitted_headers_in_order s (response : Response.t) (name : str) :
  mm_sorted str_ltb (Settings.m_default_headers (m_settings s)) ->
  equal_range name (Response.m_headers (payload response s))
  = equal_range name (Settings.m_default_headers (m_settings s))
    ++ match m_resource s with Some r => equal_range name (Resource.m_default_headers r) | None => [] end
    ++ equal_range name (m_headers s) ++ equal_range name (Response.m_headers response).
Proof.
  intros Hs. assert (Response.m_headers (payload response s) = merged_headers response s) as ->.
  { unfold payload. case_goal; reflexivity. }
  unfold merged_headers, Response.get_headers, Common.get_parameters_mm, Common.get_parameters.
  assert (exists m, match m_resource s with
    | Some r => insert_all (Resource.m_default_headers r) (Settings.m_default_headers (m_settings s))
    | None => Settings.m_default_headers (m_settings s) end = m /\ mm_sorted str_ltb m
    /\ equal_range name m = equal_range name (Settings.m_default_headers (m_settings s))
      ++ match m_resource s with Some r => equal_range name (Resource.m_default_headers r) | None => [] end)
    as (m & -> & Hm & Em).
  { destruct (m_resource s) as [r|].
    - destruct (equal_range_insert_all name (Resource.m_default_headers r) _ Hs). by eexists.
    - eexists. split_and!; [done..|by rewrite app_nil_r]. }
  destruct (equal_range_insert_all name (m_headers s) _ Hm) as [Hm2 E2].
  destruct (equal_range_insert_all name (Response.m_headers response) _ Hm2) as [_ ->].
  rewrite E2, Em. by rewrite <-!app_assoc.
Qed.

(** Closing with a response sends the peer exactly the bytes of that response,
    with its merged headers and a status message, and then closes the socket. *)
Theorem close_sends_then_closes s (response : Response.t) (bytes : list Z) :
  is_open s = true -> pending s = [] ->
  Wire.response_to_bytes (payload response s) = ok bytes ->
  let s' := (complete None [] (length bytes) (close_response response s).2).2 in
  sent s' = sent s ++ bytes /\ is_open s' = false /\ pending s' = [] /\ log s' = log s.
Proof.
  intros Ho Hp Hb s'. subst s'.
  unfold close_response, unless_closed, is_closed, st_bind, st_get.
  rewrite Ho. change (negb true) with false. cbv beta iota. rewrite (transmit_ok s response CloseDone bytes) by done.
  destruct s as [id [rq|] buf rs se hd cx eh inv ws pe sn lg]; cbn in *; [|done]. subst pe. cbn.
  destruct rq as [? ? ? ? ? ? ? ? ? ? ? [o|]]; cbn in *; done.
Qed.
End Properties.

(** ** Witnesses *)
Section Witnesses.
Import Session SessionFacts SessionRun.

Definition open_session : t nat unit :=
  (create Settings.init (Some DefaultErrorHandler)) <| pending := [] |> <| m_buffer := [1; 2]%Z |>.
Definition closed_session : t nat unit := socket_close open_session.
Definition sample_response : Response.t := make_response 200 [104; 105]%Z [(lit "Content-Length", lit "2")].
Definition sample_bytes : list Z :=
  match Wire.response_to_bytes (payload sample_response open_session) with inr b => b | inl _ => [] end.

Lemma closed_session_is_silent_witness :
  pending (perform (AYield sample_response None) closed_session).2 = []
  /\ sent (perform (AYield sample_response None) closed_session).2 = [].
Proof.
  apply (closed_session_is_silent closed_session (AYield sample_response None)); [reflexivity|].
  intros e d n. discriminate.
Defined.

Lemma fetch_delivers_witness :
  let s' := (complete None [3; 4; 5]%Z 3 (fetch 4 7%nat open_session).2).2 in
  log s' = [Fetched 7%nat [1; 2; 3; 4]%Z] /\ m_buffer s' = [5%Z]
  /\ Request.m_body <$> m_request s' = Some [1; 2; 3; 4]%Z /\ pending s' = [].
Proof.
  exact (fetch_delivers open_session (Request.init <| Request.m_socket_open := Some true |>) 4 7%nat [3; 4; 5]%Z 3
    eq_refl eq_refl eq_refl ltac:(simpl; lia)).
Defined.

Lemma transmitted_headers_in_order_witness :
  equal_range (lit "Content-Length") (Response.m_headers (payload sample_response
    (add_header (lit "Content-Length") (lit "0") open_session)))
  = [(lit "Content-Length", lit "0"); (lit "Content-Length", lit "2")].
Proof.
  apply (transmitted_headers_in_order (add_header (lit "Content-Length") (lit "0") open_session)
    sample_response (lit "Content-Length")). exact I.
Defined.

Lemma close_sends_then_closes_witness :
  let s' := (complete None [] (length sample_bytes) (close_response sample_response open_session).2).2 in
  sent s' = sample_bytes /\ is_open s' = false /\ pending s' = [] /\ log s' = [].
Proof.
  apply (close_sends_then_closes open_session sample_response sample_bytes);
    [reflexivity|reflexivity|vm_compute; reflexivity].
Defined.
End Witnesses.
