(* ===== verification/Service.v ===== *)
(** * restbed: the service

    Models [service.cpp] and [detail/service_impl.cpp]: the configuration of a
    service (rules, published resources, handlers), its start and stop, and the
    way a request takes through it: [parse_request], [authenticate], [router],
    the rules, the resource's authentication, [find_method_handler] and the
    method handler. User code (handlers, rules, authentication) is an argument;
    so is the compilation of a pattern by [std::regex]. Reading a request from
    the connection's buffer is [Wire.parse_request]. *)

From Stdlib Require Import ZArith Lia Ascii String Bool.
From stdpp Require Import base tactics option list.
From S2P Require Import Prelude StdMap Regex RString Uri Message WireFacts Settings Socket Resource Session.
Import Regex.

(** ** The service object *)
Module Service.
Section Config.
Context {K : Type}.

Record t := mk {
  m_uptime : option Z;       (* [None]: [time_point::min( )], the service is down *)
  m_settings : Settings.t;
  m_supported_methods : smap unit;
  m_rules : list (Rule.t K);
  m_resource_paths : smap str;
  m_resource_routes : smap (Resource.t K);
  m_workers : nat;
  m_logger : option K; m_session_manager : option K; m_ready_handler : option K;
  m_signal_handlers : list (Z * K);
  m_not_found_handler : option K; m_method_not_allowed_handler : option K;
  m_method_not_implemented_handler : option K; m_failed_filter_validation_handler : option K;
  m_error_handler : option (Session.error_handler K);
  m_authentication_handler : option K }.

Definition init : t :=
  mk None Settings.init [] [] [] [] 0 None None None [] None None None None
    (Some Session.DefaultErrorHandler) None.

Definition is_up (s : t) : bool := bool_decide (is_Some (m_uptime s)).
Definition is_down (s : t) : bool := negb (is_up s).

Definition prohibited : exn := RuntimeError (lit "Runtime modifications of the service are prohibited.").
Definition polluted : exn :=
  InvalidArgument (lit "Resource would pollute namespace. Please ensure all published resources have unique paths.").

(** Every modification first checks that the service is down; the state is
    returned with the failure. *)
Definition when_down (f : st t unit) : st t unit := fun s =>
  if is_up s then (err prohibited, s) else f s.

Definition add_rule (rule : option (Rule.t K)) : st t unit :=
  when_down (st_modify (fun s =>
    match rule with Some rule => s <| m_rules := m_rules s ++ [rule] |> | None => s end)).
Definition add_rule_priority (rule : option (Rule.t K)) (priority : Z) : st t unit :=
  when_down (st_modify (fun s =>
    match rule with
    | Some rule => s <| m_rules := m_rules s ++ [Rule.set_priority priority rule] |>
    | None => s
    end)).

(** *** Publishing *)

(** [^\{[a-zA-Z0-9_\-]+: ?( .* )\}$] *)
Definition name_cls (c : ascii) : bool := is_alnum c || one_of "_-" c.
Definition re_parameter (name pattern : re -> re) : re :=
  Cats [Lit (lit "{"); name (Plus (Cls name_cls)); Lit (lit ":"); Opt (Lit (lit " "));
        pattern (Star (Cls is_dot)); Lit (lit "}")].
Definition re_declaration : re := re_parameter id (Grp 1).

(** [folder.front( ) == '{' and folder.back( ) == '}'], of a non-empty folder. *)
Definition is_parameter (folder : str) : bool :=
  match folder with
  | c :: _ => ascii_eqb c "{"%char && ascii_eqb (List.last folder c) "}"%char
  | [] => false
  end.

Definition sanitise_folder (folder : str) : res str :=
  if is_parameter folder then
    match regex_match re_declaration folder with
    | Some m => ok (lit "/" ++ cap 1 m)
    | None =>
        let* what := RString.format
          (lit "Resource path parameter declaration is malformed '" ++ RString.c_str folder ++ lit "'.") in
        err (RuntimeError what)
    end
  else ok (lit "/" ++ folder).

Fixpoint sanitise_folders (folders : list str) : res str :=
  match folders with
  | [] => ok []
  | f :: folders => let* a := sanitise_folder f in let* b := sanitise_folders folders in ok (a ++ b)
  end.

(** [path.back( )] of an empty path is undefined. *)
Definition sanitise_path (path : str) : res str :=
  if bool_decide (path = lit "/") then ok path else
  let* sanitised := sanitise_folders (RString.split path "/"%char) in
  match last path with
  | Some c => ok (if ascii_eqb c "/"%char then sanitised ++ lit "/" else sanitised)
  | None => err Undef
  end.

Definition has_unique_paths (paths : smap unit) (s : t) : bool :=
  match paths with
  | [] => false
  | _ => forallb (fun p => negb (bool_decide (is_Some (m_find p.1 (m_resource_routes s))))) paths
  end.

(** The loop over the paths: what was entered before a failure stays. *)
Fixpoint publish_paths (paths : list str) (resource : Resource.t K) : st t unit :=
  match paths with
  | [] => st_ret tt
  | path :: paths =>
      do sanitised_path <- st_lift (sanitise_path path) ;;
      do _ <- st_modify (fun s =>
        s <| m_resource_paths := sm_assign sanitised_path path (m_resource_paths s) |>
          <| m_resource_routes := sm_assign sanitised_path resource (m_resource_routes s) |>) ;;
      publish_paths paths resource
  end.

Definition insert_methods (methods supported : smap unit) : smap unit :=
  fold_left (fun m kv => sm_insert kv.1 tt m) methods supported.

Definition publish (resource : option (Resource.t K)) : st t unit :=
  when_down
    match resource with
    | None => st_ret tt
    | Some resource =>
        do s <- st_get ;;
        if has_unique_paths (Resource.m_paths resource) s then
          do _ <- publish_paths (map fst (Resource.m_paths resource)) resource ;;
          st_modify (fun s => s <| m_supported_methods :=
            insert_methods (Resource.m_methods resource) (m_supported_methods s) |>)
        else st_throw polluted
    end.

(** [erase( path )] of each path as written, not sanitised; both outcomes are
    logged ([true]: found). *)
Definition suppress_log (found : bool) (path : str) : res str :=
  RString.format
    (if found then lit "Suppressed resource route '" ++ RString.c_str path ++ lit "'."
     else lit "Failed to suppress resource route '" ++ RString.c_str path ++ lit "'; Not Found!").

Fixpoint suppress_paths (paths : list str) : st t unit :=
  match paths with
  | [] => st_ret tt
  | path :: paths =>
      do s <- st_get ;;
      let found := bool_decide (is_Some (m_find path (m_resource_routes s))) in
      do _ <- st_modify (fun s => s <| m_resource_routes := m_erase path (m_resource_routes s) |>) ;;
      do _ <- st_lift (suppress_log found path) ;;
      suppress_paths paths
  end.

Definition suppress (resource : option (Resource.t K)) : st t unit :=
  when_down
    match resource with
    | None => st_ret tt
    | Some resource => suppress_paths (map fst (Resource.m_paths resource))
    end.

(** *** Handlers *)
Definition set_logger (v : option K) : st t unit := when_down (st_modify (fun s => s <| m_logger := v |>)).
Definition set_session_manager (v : option K) : st t unit :=
  when_down (st_modify (fun s => s <| m_session_manager := v |>)).
Definition set_ready_handler (v : option K) : st t unit :=
  when_down (st_modify (fun s => match v with Some _ => s <| m_ready_handler := v |> | None => s end)).
Definition set_signal_handler (signal : Z) (v : option K) : st t unit :=
  when_down (st_modify (fun s =>
    match v with
    | Some k => s <| m_signal_handlers := m_assign Z.ltb signal k (m_signal_handlers s) |>
    | None => s
    end)).
Definition set_not_found_handler (v : option K) : st t unit :=
  when_down (st_modify (fun s => s <| m_not_found_handler := v |>)).
Definition set_method_not_allowed_handler (v : option K) : st t unit :=
  when_down (st_modify (fun s => s <| m_method_not_allowed_handler := v |>)).
Definition set_method_not_implemented_handler (v : option K) : st t unit :=
  when_down (st_modify (fun s => s <| m_method_not_implemented_handler := v |>)).
Definition set_failed_filter_validation_handler (v : option K) : st t unit :=
  when_down (st_modify (fun s => s <| m_failed_filter_validation_handler := v |>)).
(** A null handler is replaced by the default one, and then assigned all the same. *)
Definition set_error_handler (v : option K) : st t unit :=
  when_down (st_modify (fun s =>
    let s := match v with None => s <| m_error_handler := Some Session.DefaultErrorHandler |> | Some _ => s end in
    s <| m_error_handler := Session.UserErrorHandler <$> v |>)).
Definition set_authentication_handler (v : option K) : st t unit :=
  when_down (st_modify (fun s => s <| m_authentication_handler := v |>)).

(** *** Start and stop *)

(** The route as logged: [String::format( "/%s/%s" )], doubled slashes removed. *)
Definition published_route (root path : str) : res (option str) :=
  let* p := RString.format (lit "/" ++ RString.c_str root ++ lit "/" ++ RString.c_str path) in
  ok (RString.replace (S (length p)) (lit "//") (lit "/") p false).

(** The threads started besides the calling one. *)
Definition worker_count (limit : Z) : nat := if (0 <? limit)%Z then Z.to_nat (limit - 1) else 0.

Definition start (settings : option Settings.t) (now : Z) : st t unit := st_modify (fun s =>
  let settings := default Settings.init settings in
  s <| m_settings := settings |>
    <| m_rules := Rule.stable_sort (m_rules s) |>
    <| m_uptime := Some now |>
    <| m_workers := m_workers s + worker_count (Settings.m_worker_limit settings) |>).

Definition stop : st t unit := st_modify (fun s => s <| m_uptime := None |> <| m_workers := 0 |>).
Definition restart (settings : option Settings.t) (now : Z) : st t unit :=
  do _ <- stop ;; start settings now.

Definition get_uptime (now : Z) (s : t) : Z :=
  match m_uptime s with None => 0 | Some t0 => (now - t0) / 1000 end.
End Config.
Arguments t K : clear implicits.
End Service.

(** ** The way of a request *)
Module Router.
Section Router.
Context {K V : Type}.
Abbreviation session := (Session.t K V).
Abbreviation op := (Session.op K V).

(** User code; what an error handler throws is not caught. *)
Context (handler : K -> op) (on_error : K -> Z -> str -> op) (condition : K -> st session bool) (action authentication : K -> op -> op).
(** [std::regex( pattern )], with [icase] or without; [std::regex_error] for a bad pattern. *)
Context (regex : bool -> str -> res re).
(** [get_origin( )]: the peer's address. *)
Context (origin : str).
Context (svc : Service.t K).

Definition request (s : session) : Request.t := default Request.init (Session.m_request s).

(** Logging formats its message whether there is a logger or not. *)
Definition log (message : session -> str) : op :=
  do s <- st_get ;; do _ <- st_lift (RString.format (message s)) ;; st_ret tt.

Definition path_of (s : session) : str := RString.c_str (Request.get_path None (request s)).
Definition method_of (s : session) : str := RString.c_str (Request.get_method None (request s)).
Definition quoted (x : str) : str := lit "'" ++ x ++ lit "'".

Definition NOT_FOUND : Z := 404.
Definition METHOD_NOT_ALLOWED : Z := 405.
Definition NOT_IMPLEMENTED : Z := 501.
Definition BAD_REQUEST : Z := 400.

Definition not_found : op :=
  do _ <- log (fun s => quoted (RString.c_str origin) ++ lit " resource route not found " ++ quoted (path_of s) ++ lit ".") ;;
  match Service.m_not_found_handler svc with
  | Some k => handler k
  | None => Session.close NOT_FOUND [] []
  end.

Definition method_not_allowed : op :=
  do _ <- log (fun s => quoted (RString.c_str origin) ++ lit " " ++ quoted (method_of s)
                        ++ lit " method not allowed " ++ quoted (path_of s) ++ lit ".") ;;
  match Service.m_method_not_allowed_handler svc with
  | Some k => handler k
  | None => Session.close METHOD_NOT_ALLOWED [] []
  end.

Definition method_not_implemented : op :=
  do _ <- log (fun s => quoted (RString.c_str origin) ++ lit " " ++ quoted (method_of s)
                        ++ lit " method not implemented " ++ quoted (path_of s) ++ lit ".") ;;
  match Service.m_method_not_implemented_handler svc with
  | Some k => handler k
  | None => Session.close NOT_IMPLEMENTED [] []
  end.

Definition failed_filter_validation : op :=
  do _ <- log (fun s => quoted (RString.c_str origin) ++ lit " failed filter validation " ++ quoted (path_of s) ++ lit ".") ;;
  match Service.m_failed_filter_validation_handler svc with
  | Some k => handler k
  | None => Session.close BAD_REQUEST [] [(lit "Connection", lit "close")]
  end.

(** *** Matching a route *)
Fixpoint match_folders (icase : bool) (path_folders route_folders : list str) : res bool :=
  match path_folders, route_folders with
  | p :: ps, r :: rs =>
      let* e := regex icase r in
      if bool_decide (is_Some (regex_match e p))
      then match ps with [] => ok true | _ => match_folders icase ps rs end
      else ok false
  | _, _ => ok false
  end.

Definition resource_router (r : Request.t) (route : str) : res bool :=
  let path_folders := RString.split (Request.get_path None r) "/"%char in
  let route_folders :=
    RString.split (Settings.m_root (Service.m_settings svc) ++ lit "/" ++ route) "/"%char in
  match path_folders, route_folders with
  | [], [] => ok true
  | _, _ =>
      if (length path_folders =? length route_folders)%nat
      then match_folders (Settings.m_case_insensitive_uris (Service.m_settings svc)) path_folders route_folders
      else ok false
  end.

(** [find_if] over the routes, in the order of their paths. *)
Fixpoint find_route (r : Request.t) (routes : smap (Resource.t K)) : res (option (str * Resource.t K)) :=
  match routes with
  | [] => ok None
  | (path, resource) :: routes =>
      let* m := resource_router r path in
      if m : bool then ok (Some (path, resource)) else find_route r routes
  end.

(** *** Path parameters *)
Definition re_parameter_name : re := Service.re_parameter (Grp 1) id.

Fixpoint bind_parameters (folders declarations : list str) (parameters : smap str) : smap str :=
  match folders, declarations with
  | f :: folders, d :: declarations =>
      let parameters :=
        if Service.is_parameter d
        then sm_insert (match regex_match re_parameter_name d with Some m => cap 1 m | None => [] end) f parameters
        else parameters in
      bind_parameters folders declarations parameters
  | _, _ => parameters
  end.

Definition extract_path_parameters (sanitised_path : str) : op := fun s =>
  match m_find sanitised_path (Service.m_resource_paths svc), Session.m_request s with
  | None, _ => (err (OutOfRange (lit "map::at")), s)
  | _, None => (err Undef, s)
  | Some declared, Some r =>
      let folders := RString.split (Request.get_path None r) "/"%char in
      let declarations :=
        RString.split (Settings.m_root (Service.m_settings svc) ++ lit "/" ++ declared) "/"%char in
      let parameters := bind_parameters folders declarations (Request.m_path_parameters r) in
      (ok tt, s <| Session.m_request := Some (Request.set_path_parameters parameters r) |>)
  end.

(** *** Method handlers *)
Inductive method_handler := UserHandler (k : K) | FailedFilterValidation.

Definition run_handler (h : method_handler) : op :=
  match h with UserHandler k => handler k | FailedFilterValidation => failed_filter_validation end.

(** Whether every header that a filter names matches the filter's pattern. *)
Fixpoint headers_match (pattern : str) (headers : smap str) : res bool :=
  match headers with
  | [] => ok true
  | (_, value) :: headers =>
      let* e := regex false pattern in
      let* rest := headers_match pattern headers in
      ok (bool_decide (is_Some (regex_match e value)) && rest)
  end.
Fixpoint filters_match (r : Request.t) (filters : smap str) : res bool :=
  match filters with
  | [] => ok true
  | (name, pattern) :: filters =>
      let* a := headers_match pattern (Request.get_headers name r) in
      let* b := filters_match r filters in
      ok (a && b)
  end.

(** The loop: the first handler whose filters accept the request; the boolean
    tells whether some filter has failed. *)
Fixpoint select_handler (r : Request.t) (handlers : list (str * (smap str * K))) (failed : bool)
    : res (option K * bool) :=
  match handlers with
  | [] => ok (None, failed)
  | (_, (filters, k)) :: handlers =>
      let* m := filters_match r filters in
      if m : bool then ok (Some k, failed) else select_handler r handlers true
  end.

Definition find_method_handler (r : Request.t) (resource : Resource.t K) : res (option method_handler) :=
  let* (k, failed) :=
    select_handler r (equal_range (Request.get_method None r) (Resource.m_method_handlers resource)) false in
  match k, failed with
  | Some k, _ => ok (Some (UserHandler k))
  | None, true =>
      ok (Some match Resource.m_failed_filter_validation_handler resource with
               | Some k => UserHandler k
               | None => FailedFilterValidation
               end)
  | None, false => ok None
  end.

(** *** The router *)
Definition dispatch : op :=
  do s <- st_get ;;
  if Session.is_closed s then st_ret tt else
  match Session.m_resource s with
  | None => st_throw Undef
  | Some resource =>
      do h <- st_lift (find_method_handler (request s) resource) ;;
      match h with
      | Some h => run_handler h
      | None =>
          match m_find (Request.get_method None (request s)) (Service.m_supported_methods svc) with
          | None => method_not_implemented
          | Some _ => method_not_allowed
          end
      end
  end.

(** The callback given to the resource's authentication. *)
Definition resource_chain : op :=
  do s <- st_get ;;
  match Session.m_resource s with
  | None => st_throw Undef
  | Some resource => RuleEngine.rule_engine condition action (Resource.m_rules resource) dispatch
  end.

Definition route : op :=
  do s <- st_get ;;
  do found <- st_lift (find_route (request s) (Service.m_resource_routes svc)) ;;
  match found with
  | None => not_found
  | Some (path, resource) =>
      do _ <- st_modify (fun s => s <| Session.m_resource := Some resource |>) ;;
      do _ <- extract_path_parameters path ;;
      match Resource.m_authentication_handler resource with
      | Some k => authentication k resource_chain
      | None => resource_chain
      end
  end.

Definition router : op :=
  do _ <- log (fun s => lit "Incoming " ++ quoted (method_of s) ++ lit " request from "
                        ++ quoted (RString.c_str origin) ++ lit " for route " ++ quoted (path_of s) ++ lit ".") ;;
  do s <- st_get ;;
  if Session.is_closed s then st_ret tt
  else RuleEngine.rule_engine condition action (Service.m_rules svc) route.

Definition authenticate : op :=
  match Service.m_authentication_handler svc with
  | Some k => authentication k (Session.load router)
  | None => Session.load router
  end.

(** *** [parse_request] *)
Definition on_wire {A} (c : st (Request.t * str) A) : st session A := fun s =>
  match Session.m_request s with
  | None => (err Undef, s)
  | Some r =>
      let '(x, (r', stream')) := c (r, RString.to_string (Session.m_buffer s)) in
      (x, s <| Session.m_request := Some r' |> <| Session.m_buffer := RString.to_bytes stream' |>)
  end.

Definition discard : op :=
  st_modify (fun s => s <| Session.m_buffer :=
    RString.to_bytes (Wire.discard_request (RString.to_string (Session.m_buffer s))) |>).

(** [ServiceImpl::get_error_handler( session )], applied, which does not ask whether
    the session has called its error handler. An empty [std::function] throws
    [bad_function_call]. *)
Definition bad_function_call : exn := Foreign.
Definition call_error_handler (status : Z) (what : str) : op :=
  do s <- st_get ;;
  match (r ← Session.m_resource s; Resource.m_error_handler r) with
  | Some k => on_error k status what
  | None =>
      match Service.m_error_handler svc with
      | Some Session.DefaultErrorHandler => Session.default_error_handler status what
      | Some (Session.UserErrorHandler k) => on_error k status what
      | None => st_throw bad_function_call
      end
  end.

(** The [catch] clauses: status and text of each; undefined behaviour is not
    an exception. *)
Definition caught (e : exn) : option (Z * str) :=
  match e with
  | StatusCode c => Some (c, Settings.get_status_message c (Service.m_settings svc))
  | RegexError what => Some (500%Z, what)
  | RuntimeError what => Some (400%Z, what)
  | InvalidArgument what | OutOfRange what => Some (500%Z, what)
  | Foreign => Some (500%Z, lit "Internal Server Error")
  | Undef => None
  end.

Definition try_catch (body : op) : op := fun s =>
  match body s with
  | (inl e, s') =>
      match caught e with
      | Some (status, what) => (do _ <- discard ;; call_error_handler status what) s'
      | None => (inl e, s')
      end
  | r => r
  end.

Definition parse_request (error : option Socket.ecode) : op :=
  match error with
  | Some e => do _ <- discard ;; call_error_handler 400 (Socket.ec_message e)
  | None => try_catch (do _ <- on_wire Wire.parse_request ;; authenticate)
  end.
End Router.
Arguments method_handler K : clear implicits.
End Router.

(** ** Configuration: lemmas *)
Module ServiceFacts.
Import Service.

(** *** Invariants by composition *)
Section Preserves.
Context {S : Type}.
Definition keeps {A} (P : S -> Prop) (c : st S A) : Prop := forall s, P s -> P (c s).2.

Lemma keeps_bind {A B} P (c : st S A) (f : A -> st S B) :
  keeps P c -> (forall a, keeps P (f a)) -> keeps P (st_bind c f).
Proof.
  intros Hc Hf s Hs. unfold st_bind. specialize (Hc s Hs). destruct (c s) as [[e|a] s']; simpl in *; [done|].
  by apply Hf.
Qed.
Lemma keeps_ret {A} P (a : A) : keeps P (st_ret (S := S) a).
Proof. by intros s. Qed.
Lemma keeps_throw {A} P e : keeps P (st_throw (S := S) (A := A) e).
Proof. by intros s. Qed.
Lemma keeps_lift {A} P (x : res A) : keeps P (st_lift (S := S) x).
Proof. by intros s. Qed.
Lemma keeps_get P : keeps P (st_get (S := S)).
Proof. by intros s. Qed.
Lemma keeps_modify P (f : S -> S) : (forall s, P s -> P (f s)) -> keeps P (st_modify f).
Proof. intros H s Hs. by apply H. Qed.
End Preserves.

Section Config.
Context {K : Type}.
Implicit Types (s : t K).

(** Every configuration call. *)
Inductive call :=
| AddRule (rule : option (Rule.t K))
| AddRulePriority (rule : option (Rule.t K)) (priority : Z)
| Publish (resource : option (Resource.t K))
| Suppress (resource : option (Resource.t K))
| SetLogger (v : option K)
| SetSessionManager (v : option K)
| SetReadyHandler (v : option K)
| SetSignalHandler (signal : Z) (v : option K)
| SetNotFoundHandler (v : option K)
| SetMethodNotAllowedHandler (v : option K)
| SetMethodNotImplementedHandler (v : option K)
| SetFailedFilterValidationHandler (v : option K)
| SetErrorHandler (v : option K)
| SetAuthenticationHandler (v : option K).

Definition configure (c : call) : st (t K) unit :=
  match c with
  | AddRule r => add_rule r
  | AddRulePriority r p => add_rule_priority r p
  | Publish r => publish r
  | Suppress r => suppress r
  | SetLogger v => set_logger v
  | SetSessionManager v => set_session_manager v
  | SetReadyHandler v => set_ready_handler v
  | SetSignalHandler n v => set_signal_handler n v
  | SetNotFoundHandler v => set_not_found_handler v
  | SetMethodNotAllowedHandler v => set_method_not_allowed_handler v
  | SetMethodNotImplementedHandler v => set_method_not_implemented_handler v
  | SetFailedFilterValidationHandler v => set_failed_filter_validation_handler v
  | SetErrorHandler v => set_error_handler v
  | SetAuthenticationHandler v => set_authentication_handler v
  end.

Lemma configure_guarded c : exists f, configure c = when_down f.
Proof. destruct c; simpl; unfold add_rule, add_rule_priority, publish, suppress; by eexists. Qed.

(** Each route has its path on record. *)
Definition routes_known (s : t K) : Prop :=
  forall p, is_Some (m_find p (m_resource_routes s)) -> is_Some (m_find p (m_resource_paths s)).

Lemma keeps_when_down P (f : st (t K) unit) : keeps P f -> keeps P (when_down f).
Proof. intros H s Hs. unfold when_down. destruct (is_up s); [done|by apply H]. Qed.

Lemma known_assign s p path resource :
  routes_known s ->
  routes_known (s <| m_resource_paths := sm_assign p path (m_resource_paths s) |>
                  <| m_resource_routes := sm_assign p resource (m_resource_routes s) |>).
Proof.
  intros H q. destruct s; cbn -[m_erase m_find m_assign] in *. destruct (decide (q = p)) as [->|Hne].
  - rewrite !(m_find_assign_eq str_ltb). eauto.
  - rewrite !(m_find_assign_ne str_ltb) by done. apply H.
Qed.

Lemma known_erase s p :
  routes_known s -> routes_known (s <| m_resource_routes := m_erase p (m_resource_routes s) |>).
Proof.
  intros H q. destruct s; cbn -[m_erase m_find m_assign] in *. destruct (decide (q = p)) as [->|Hne].
  - rewrite m_find_erase_eq. by intros [? ?].
  - rewrite m_find_erase_ne by done. apply H.
Qed.

Lemma known_publish_paths paths resource : keeps routes_known (publish_paths (K := K) paths resource).
Proof.
  induction paths as [|p paths IH]; simpl; [apply keeps_ret|].
  apply keeps_bind; [apply keeps_lift|]. intros q. apply keeps_bind; [|done].
  apply keeps_modify. intros s. apply known_assign.
Qed.

Lemma known_suppress_paths paths : keeps routes_known (suppress_paths (K := K) paths).
Proof.
  induction paths as [|p paths IH]; simpl; [apply keeps_ret|].
  apply keeps_bind; [apply keeps_get|]. intros s0.
  apply keeps_bind; [apply keeps_modify; intros s; apply known_erase|]. intros _.
  apply keeps_bind; [apply keeps_lift|done].
Qed.

Lemma known_configure c : keeps routes_known (configure c).
Proof.
  destruct c; simpl; apply keeps_when_down;
    try (apply keeps_modify; intros s Hs; try destruct rule; try destruct v; by destruct s).
  - destruct resource as [r|]; [|apply keeps_ret].
    apply keeps_bind; [apply keeps_get|]. intros s0.
    destruct (has_unique_paths _ s0); [|apply keeps_throw].
    apply keeps_bind; [apply known_publish_paths|]. intros _. apply keeps_modify. intros s Hs. by destruct s.
  - destruct resource as [r|]; [|apply keeps_ret]. apply known_suppress_paths.
Qed.

Definition configure_all (calls : list (call)) (s : t K) : t K :=
  fold_left (fun s c => (configure c s).2) calls s.

Lemma known_all calls : routes_known (configure_all calls init).
Proof.
  assert (forall s, routes_known s -> routes_known (configure_all calls s)) as H.
  { unfold configure_all. induction calls as [|c calls IH]; intros s Hs; simpl; [done|].
    apply IH. by apply known_configure. }
  apply H. by intros p [? ?].
Qed.
End Config.
Arguments call K : clear implicits.
End ServiceFacts.

(** ** Routing: lemmas *)
Module RouterFacts.
Import Router.

(** *** Folders without metacharacters *)
Definition plain_char (c : ascii) : bool := is_alnum c || one_of "_-" c.
Definition plain (folder : str) : Prop := Forall (fun c => plain_char c = true) folder.

(** What the code relies on [std::regex] for: a pattern without metacharacters
    matches itself, up to case with [icase]. *)
Definition fold_case (icase : bool) (s : str) : str := if icase then RString.lowercase s else s.
Definition literal_patterns (regex : bool -> str -> res re) : Prop :=
  forall icase folder, plain folder ->
    exists e, regex icase folder = ok e /\ forall s, lang e s <-> fold_case icase s = fold_case icase folder.

Section Plain.
Context (regex : bool -> str -> res re) (literal : literal_patterns regex).

Lemma match_folders_plain icase ps rs :
  Forall plain rs -> length ps = length rs -> ps <> [] ->
  match_folders regex icase ps rs
  = ok (bool_decide (map (fold_case icase) ps = map (fold_case icase) rs)).
Proof.
  intros Hr. revert ps. induction Hr as [|r rs Hr Hrs IH]; intros [|p ps] Hl Hne; try done.
  cbn [match_folders]. destruct (literal icase r Hr) as (e & -> & He). unfold ok at 1. cbn [res_bind].
  simpl in Hl. injection Hl as Hl.
  destruct (decide (fold_case icase p = fold_case icase r)) as [E|E].
  - rewrite bool_decide_true by (by apply regex_match_lang, He).
    destruct ps as [|p' ps].
    + destruct rs; [|done]. simpl. by rewrite E, bool_decide_true.
    + rewrite IH by done. f_equal. apply bool_decide_ext. simpl. rewrite E.
      split; congruence.
  - rewrite bool_decide_false by (by rewrite regex_match_lang, He).
    rewrite bool_decide_false; [done|]. simpl. congruence.
Qed.
End Plain.

(** *** Method handlers *)
Section Handlers.
Context {K : Type} (regex : bool -> str -> res re) (r : Request.t) (accepts : smap str -> bool).

Lemma select_handler_first (handlers : list (str * (smap str * K))) failed :
  Forall (fun h => filters_match regex r h.2.1 = ok (accepts h.2.1)) handlers ->
  select_handler regex r handlers failed
  = ok (snd ∘ snd <$> List.find (fun h => accepts h.2.1) handlers,
        failed || match handlers with (_, (fs, _)) :: _ => negb (accepts fs) | [] => false end).
Proof.
  intros H. revert failed. induction H as [|[m [fs k]] l Hh Hl IH]; intros failed; simpl.
  - by rewrite orb_false_r.
  - simpl in Hh. rewrite Hh. unfold ok at 1. cbn [res_bind]. destruct (accepts fs) eqn:E; simpl.
    + by rewrite orb_false_r.
    + rewrite IH. by rewrite orb_true_r.
Qed.
End Handlers.

(** *** Routes without metacharacters *)
Definition same_folders {K} (svc : Service.t K) (r : Request.t) (route : str) : bool :=
  let fold := map (fold_case (Settings.m_case_insensitive_uris (Service.m_settings svc))) in
  bool_decide (fold (RString.split (Request.get_path None r) "/"%char)
    = fold (RString.split (Settings.m_root (Service.m_settings svc) ++ lit "/" ++ route) "/"%char)).

Definition plain_route {K} (svc : Service.t K) (route : str) : Prop :=
  Forall plain (RString.split (Settings.m_root (Service.m_settings svc) ++ lit "/" ++ route) "/"%char).

Section Routes.
Context {K : Type} (regex : bool -> str -> res re) (literal : literal_patterns regex) (svc : Service.t K).

Lemma resource_router_same r route :
  plain_route svc route -> resource_router regex svc r route = ok (same_folders svc r route).
Proof.
  unfold plain_route, resource_router, same_folders. set (rf := RString.split (_ ++ _ ++ route) _).
  set (pf := RString.split (Request.get_path None r) _). intros Hp.
  destruct (Nat.eqb_spec (length pf) (length rf)) as [E|E].
  - clearbody pf rf. destruct pf as [|p pf], rf as [|f rf]; try done.
    by rewrite (match_folders_plain regex literal) by done.
  - rewrite bool_decide_false; [by destruct pf, rf|].
    intros H. apply (f_equal length) in H. by rewrite !length_map in H.
Qed.

Lemma find_route_find r routes path resource :
  find_route regex svc r routes = ok (Some (path, resource)) -> is_Some (m_find path routes).
Proof.
  clear literal. induction routes as [|[p rs] l IH]; simpl; [done|].
  destruct (resource_router regex svc r p) as [e|[|]]; simpl; [done| |].
  - intros [= <- <-]. rewrite keqb_refl. by eexists.
  - intros H. destruct (keqb path p); [by eexists|auto].
Qed.

Lemma find_route_same r routes :
  Forall (fun p => plain_route svc p.1) routes ->
  find_route regex svc r routes = ok (List.find (fun p => same_folders svc r p.1) routes).
Proof.
  induction 1 as [|[p res] l Hp Hl IH]; simpl; [done|].
  rewrite resource_router_same by done. unfold ok at 1. cbn [res_bind].
  by destruct (same_folders svc r p).
Qed.
End Routes.

(** Reading a request leaves its socket alone. *)
Lemma parse_request_socket o :
  ServiceFacts.keeps (fun x : Request.t * str => Request.m_socket_open x.1 = o) Wire.parse_request.
Proof.
  assert (forall A (c : st str A), ServiceFacts.keeps (fun x : Request.t * str => Request.m_socket_open x.1 = o)
    (Wire.on_stream c)) as Hs.
  { intros A c [r stream] H. unfold Wire.on_stream. by destruct (c stream). }
  assert (forall f, (forall r, Request.m_socket_open (f r) = Request.m_socket_open r) ->
    ServiceFacts.keeps (fun x : Request.t * str => Request.m_socket_open x.1 = o) (Wire.on_request f)) as Hq.
  { intros f Hf [r stream] H. unfold Wire.on_request, st_modify. simpl in *. by rewrite Hf. }
  unfold Wire.parse_request.
  repeat (apply ServiceFacts.keeps_bind; [first [apply Hs | apply ServiceFacts.keeps_lift | by apply Hq]|intros ?]).
  by apply Hq.
Qed.

(** *** The steps of a request *)
Section Steps.
Context {K V : Type}.
Context (handler : K -> Session.op K V) (condition : K -> st (Session.t K V) bool)
  (action authentication : K -> Session.op K V -> Session.op K V)
  (regex : bool -> str -> res re) (origin : str) (svc : Service.t K).

Lemma format_short x : (length x <= 1024)%nat -> is_Some (match RString.format x with inr y => Some y | _ => None end).
Proof. intros H. unfold RString.format. rewrite (proj2 (Z.ltb_ge _ _)) by lia. by eexists. Qed.

Lemma log_ok (message : Session.t K V -> str) s :
  (length (message s) <= 1024)%nat -> log message s = (ok tt, s).
Proof.
  intros H. unfold log, st_bind, st_get, st_lift. destruct (format_short _ H) as [y Hy].
  destruct (RString.format (message s)); done.
Qed.

Lemma c_str_length x : (length (RString.c_str x) <= length x)%nat.
Proof. induction x as [|c x IH]; simpl; [lia|]. destruct (_ =? _)%Z; simpl; lia. Qed.

Lemma dispatch_ok s r resource k rest :
  Session.is_open s = true -> Session.m_request s = Some r -> Session.m_resource s = Some resource ->
  equal_range (Request.get_method None r) (Resource.m_method_handlers resource)
    = (Request.get_method None r, ([], k)) :: rest ->
  dispatch handler regex origin svc s = handler k s.
Proof.
  intros Ho Hr Hres Hk. unfold dispatch, st_bind, st_get, Session.is_closed. rewrite Ho. simpl.
  rewrite Hres. unfold st_lift, request. rewrite Hr. simpl.
  unfold find_method_handler. rewrite Hk. simpl. done.
Qed.

Lemma router_ok s r path resource declared k rest :
  Service.m_rules svc = [] -> Resource.m_rules resource = [] ->
  Resource.m_authentication_handler resource = None ->
  (length (Request.m_path r) + length (Request.m_method r) + length origin <= 900)%nat ->
  Session.is_open s = true -> Session.m_request s = Some r ->
  find_route regex svc r (Service.m_resource_routes svc) = ok (Some (path, resource)) ->
  m_find path (Service.m_resource_paths svc) = Some declared ->
  equal_range (Request.m_method r) (Resource.m_method_handlers resource)
    = (Request.m_method r, ([], k)) :: rest ->
  exists parameters,
    router handler condition action authentication regex origin svc s
    = handler k (s <| Session.m_resource := Some resource |>
                   <| Session.m_request := Some (Request.set_path_parameters parameters r) |>).
Proof.
  intros Hrules Hrr Hauth Hlen Ho Hr Hf Hd Hk.
  set (ps := bind_parameters (RString.split (Request.get_path None r) "/"%char)
    (RString.split (Settings.m_root (Service.m_settings svc) ++ lit "/" ++ declared) "/"%char)
    (Request.m_path_parameters r)).
  exists ps. unfold router.
  erewrite st_bind_ok.
  2: { apply log_ok. unfold quoted, path_of, method_of, request. rewrite Hr. cbn [default].
       unfold Request.get_method, Request.get_path, Common.transform.
       pose proof (c_str_length (Request.m_path r)). pose proof (c_str_length (Request.m_method r)).
       pose proof (c_str_length origin). rewrite !length_app. simpl. lia. }
  unfold st_bind at 1, st_get at 1, Session.is_closed. rewrite Ho, Hrules. simpl.
  unfold route, st_bind at 1, st_get at 1, request. rewrite Hr. simpl default.
  erewrite st_bind_ok by (unfold st_lift; by rewrite Hf). cbv beta iota.
  erewrite st_bind_ok by reflexivity. cbv beta. rewrite Hauth.
  erewrite st_bind_ok.
  2: { unfold extract_path_parameters. rewrite Hd. destruct s; simpl in *. by rewrite Hr. }
  unfold resource_chain, st_bind at 1, st_get at 1.
  replace (Session.m_resource _) with (Some resource) by (by destruct s).
  rewrite Hrr. simpl.
  apply (dispatch_ok _ (Request.set_path_parameters ps r) resource k rest).
  - destruct s as [? [rq|] ? ? ? ? ? ? ? ? ? ? ?]; simpl in *; simplify_eq; done.
  - by destruct s.
  - by destruct s.
  - by destruct r.
Qed.
End Steps.
End RouterFacts.

(** ** The life of a session

    What happens to a session from [create] on: calls of user code and completions
    of its socket ([SessionRun]), and requests on its connection, which
    [parse_request] takes through the service. User code does what it likes with
    the session, through the session's operations, and can throw. *)
Module Life.
Import Router.
Section Life.
Context {K V : Type} (regex : bool -> str -> res re) (origin : str) (svc : Service.t K).
Context (prog : K -> Session.t K V -> list (SessionRun.action K V) * option exn) (verdict : K -> Session.t K V -> bool).

Definition play (k : K) : Session.op K V := fun s =>
  (match snd (prog k s) with Some e => err e | None => ok tt end, SessionRun.run (fst (prog k s)) s).
(** An error handler that [parse_request] calls. *)
Definition on_error (k : K) (status : Z) (what : str) : Session.op K V :=
  do _ <- Session.emit (Session.RequestFailed k status what) ;; play k.
Definition condition (k : K) : st (Session.t K V) bool := do _ <- play k ;; do s <- st_get ;; st_ret (verdict k s).
(** A rule's action and an authentication handler pass the session on or not. *)
Definition pass (k : K) (next : Session.op K V) : Session.op K V :=
  do _ <- play k ;; do s <- st_get ;; if verdict k s then next else st_ret tt.

Inductive action := Act (a : SessionRun.action K V) | Request (error : option Socket.ecode).
Definition perform (a : action) : Session.op K V :=
  match a with
  | Act a => SessionRun.perform a
  | Request error => parse_request play on_error condition pass pass regex origin svc error
  end.
Definition run (l : list action) (s : Session.t K V) : Session.t K V := fold_left (fun s a => (perform a s).2) l s.

(** *** [parse_request] leaves the guard of the session's error handler intact *)
Abbreviation guarded := (SessionFacts.preserves (K := K) (V := V) SessionFacts.once).
Import SessionFacts.

Lemma play_guarded k : guarded (play k).
Proof. intros s Hs. by apply SessionRun.once_run. Qed.
Lemma emit_guarded e : is_error e = false -> guarded (Session.emit e).
Proof. apply once_emit. Qed.
Lemma on_error_guarded k status what : guarded (on_error k status what).
Proof. apply preserves_bind; [by apply emit_guarded|]. intros _. apply play_guarded. Qed.
Lemma condition_guarded k : guarded (condition k).
Proof. apply preserves_bind; [apply play_guarded|]. eauto with session. Qed.
Lemma pass_guarded k next : guarded next -> guarded (pass k next).
Proof. intros Hn. apply preserves_bind; [apply play_guarded|]. eauto with session. Qed.
Lemma rules_guarded rules callback : guarded callback -> guarded (RuleEngine.rule_engine condition pass rules callback).
Proof.
  intros Hc. induction rules as [|r rules IH]; simpl; [done|]. apply preserves_bind; [apply condition_guarded|].
  intros []; [by apply pass_guarded|done].
Qed.
Lemma log_guarded message : guarded (log message).
Proof. unfold log. eauto with session. Qed.
Lemma close_guarded status body headers : guarded (Session.close status body headers).
Proof. apply (SessionRun.once_perform (SessionRun.AClose _)). Qed.

Lemma fallback_guarded message (o : option K) status body headers :
  guarded (do _ <- log message ;; match o with Some k => play k | None => Session.close status body headers end).
Proof. apply preserves_bind; [apply log_guarded|]. intros _. destruct o; [apply play_guarded|apply close_guarded]. Qed.

Lemma dispatch_guarded : guarded (dispatch play regex origin svc).
Proof.
  unfold dispatch. apply preserves_bind; [apply preserves_get|]. intros s. apply preserves_if; [apply preserves_ret|].
  destruct (Session.m_resource s) as [resource|]; [|by intros ? ?]. apply preserves_bind; [apply preserves_lift|].
  intros [[k|]|]; [apply play_guarded|apply fallback_guarded|]. case_match; apply fallback_guarded.
Qed.

Lemma extract_guarded path : guarded (extract_path_parameters svc path).
Proof. intros s Hs. unfold extract_path_parameters. repeat case_match; try done. by destruct s. Qed.

Lemma route_guarded : guarded (route play condition pass pass regex origin svc).
Proof.
  unfold route. apply preserves_bind; [apply preserves_get|]. intros s. apply preserves_bind; [apply preserves_lift|].
  intros [[path resource]|]; [|apply fallback_guarded]. apply preserves_bind; [apply preserves_modify; by intros []|]. intros _.
  apply preserves_bind; [apply extract_guarded|]. intros _.
  assert (guarded (resource_chain play condition pass regex origin svc)).
  { unfold resource_chain. apply preserves_bind; [apply preserves_get|]. intros s'.
    destruct (Session.m_resource s'); [|by intros ? ?]. apply rules_guarded, dispatch_guarded. }
  destruct (Resource.m_authentication_handler resource); [by apply pass_guarded|done].
Qed.

Lemma authenticate_guarded : guarded (authenticate play condition pass pass regex origin svc).
Proof.
  assert (guarded (router play condition pass pass regex origin svc)).
  { unfold router. apply preserves_bind; [apply log_guarded|]. intros _. apply preserves_bind; [apply preserves_get|]. intros s.
    apply preserves_if; [apply preserves_ret|apply rules_guarded, route_guarded]. }
  unfold authenticate. destruct (Service.m_authentication_handler svc); [by apply pass_guarded|done].
Qed.

Lemma failure_guarded status what : guarded (do _ <- discard ;; call_error_handler on_error svc status what).
Proof.
  apply preserves_bind; [apply preserves_modify; by intros []|]. intros _. unfold call_error_handler.
  apply preserves_bind; [apply preserves_get|]. intros s. repeat case_match; try apply on_error_guarded; [apply once_default|by intros ? ?].
Qed.

Lemma parse_request_guarded error : guarded (parse_request play on_error condition pass pass regex origin svc error).
Proof.
  unfold parse_request. destruct error as [e|]; [apply failure_guarded|].
  assert (Hb : guarded (do _ <- on_wire Wire.parse_request ;; authenticate play condition pass pass regex origin svc)).
  { apply preserves_bind; [|intros _; apply authenticate_guarded]. intros s Hs. unfold on_wire.
    destruct (Session.m_request s); [|done]. destruct (Wire.parse_request _) as [x [r' stream']]. by destruct s. }
  intros s Hs. specialize (Hb s Hs). unfold try_catch. destruct (st_bind _ _ s) as [[e|[]] s']; [|done].
  destruct (caught svc e) as [[status what]|]; [by apply failure_guarded|done].
Qed.
End Life.
End Life.

(** ** Properties *)
Section Properties.
Import Router RouterFacts ServiceFacts.
Context {K V : Type}.
Context (handler : K -> Session.op K V) (on_error : K -> Z -> str -> Session.op K V) (condition : K -> st (Session.t K V) bool)
  (action authentication : K -> Session.op K V -> Session.op K V)
  (regex : bool -> str -> res re) (origin : str).

(** While the service is up, every configuration call is refused and changes
    nothing. *)
Theorem running_service_is_frozen (c : call K) (s : Service.t K) :
  Service.is_up s = true -> configure c s = (err Service.prohibited, s).
Proof.
  intros Hu. destruct (configure_guarded c) as [f ->]. unfold Service.when_down. by rewrite Hu.
Qed.

(** After any sequence of configuration calls, failed ones included, a route
    that the router finds has its declared path on record, so extracting the
    path parameters never fails with [std::out_of_range]. *)
Theorem found_route_has_path (calls : list (call K)) (r : Request.t) (path : str) (resource : Resource.t K)
    (s : Session.t K V) :
  let svc := configure_all calls Service.init in
  find_route regex svc r (Service.m_resource_routes svc) = ok (Some (path, resource)) ->
  Session.m_request s = Some r ->
  (extract_path_parameters svc path s).1 = ok tt.
Proof.
  intros svc Hf Hr. apply find_route_find in Hf. apply (known_all calls) in Hf as [d Hd].
  fold svc in Hd. unfold extract_path_parameters. by rewrite Hd, Hr.
Qed.

(** A route whose folders hold no pattern characters matches exactly the
    request paths with the same folders, up to case when the settings say so. *)
Theorem plain_route_matches_its_folders (svc : Service.t K) (r : Request.t) (route : str) :
  literal_patterns regex -> plain_route svc route ->
  resource_router regex svc r route = ok (same_folders svc r route).
Proof. intros Hl. by apply resource_router_same. Qed.

(** The user's error handler that is in force: that of the resource, or else that of the
    service. *)
Definition in_force (svc : Service.t K) (s : Session.t K V) (k : K) : Prop :=
  match (r ← Session.m_resource s; Resource.m_error_handler r) with
  | Some k' => k' = k
  | None => Service.m_error_handler svc = Some (Session.UserErrorHandler k)
  end.

(** What leaves the call of an error handler was thrown by the user's, or the
    default one's response met the undefined behaviour of [format]. *)
Lemma call_error_handler_contained (svc : Service.t K) status what (s s' : Session.t K V) e :
  Service.m_error_handler svc <> None ->
  call_error_handler on_error svc status what s = (err e, s') ->
  e = Undef \/ exists k, in_force svc s k /\ on_error k status what s = (err e, s').
Proof.
  intros Hh. unfold call_error_handler, in_force, st_bind, st_get.
  destruct (r ← Session.m_resource s; Resource.m_error_handler r) as [k|]; [by right; exists k|].
  destruct (Service.m_error_handler svc) as [[|k]|]; [|by right; exists k|done]. intros H%(f_equal fst). left. revert H.
  unfold Session.default_error_handler, st_bind at 1, st_get.
  destruct (Session.is_open s); [|done].
  unfold Session.transmit, st_bind, st_get, st_lift, Wire.response_to_bytes, RString.format.
  destruct (_ <? _)%Z; simpl; [by intros [=]|]. unfold Session.issue. by destruct (Session.is_open s).
Qed.

(** C38. When the service has an error handler, whatever a peer sends and whatever
    the handlers, rules and authentication throw, an exception that leaves
    [parse_request] is one the user's error handler threw: the call returns normally,
    or it ends as the call of the error handler in force, the resource's or the
    service's, ended, or undefined behaviour was met (a text too long for
    [String::format], or in user code). *)
Theorem parse_request_contains_errors (svc : Service.t K) (error : option Socket.ecode) (s : Session.t K V) :
  Service.m_error_handler svc <> None ->
  let result := parse_request handler on_error condition action authentication regex origin svc error s in
  result.1 = ok tt \/ result.1 = err Undef
  \/ exists k status what s', in_force svc s' k /\ on_error k status what s' = result.
Proof.
  intros Hh result. destruct result as [[e|[]] s2] eqn:E; [right|by left].
  enough (e = Undef \/ exists k status what s', in_force svc s' k /\ on_error k status what s' = (err e, s2)) as [->|H]; [by left|by right|].
  revert E. unfold result, parse_request. destruct error as [ec|].
  - intros [?|[k ?]]%call_error_handler_contained; [by left|right; eauto|done].
  - unfold try_catch. destruct (st_bind _ _ s) as [[e'|[]] s'] eqn:E; [|done].
    destruct (caught svc e') as [[status what]|] eqn:Ec.
    + intros [?|[k ?]]%call_error_handler_contained; [by left|right; eauto|done].
    + destruct e'; simpl in Ec; try done. intros [= <-]. by left.
Qed.

(** C8. In the whole life of a session, whatever user code calls on it, whatever its
    socket reports, however many requests come in on its connection and whatever
    resources they reach, the handlers that [SessionImpl::get_error_handler] gives
    out to the session's operations run at most once. (A handler that
    [ServiceImpl::parse_request] calls itself, once for a request that fails, is not
    subject to that guard and is another entry of the log, [RequestFailed].) *)
Theorem error_handler_at_most_once (svc : Service.t K) prog verdict (settings : Settings.t)
    (error_handler : option (Session.error_handler K)) (l : list (Life.action (K := K) (V := V))) :
  (SessionFacts.errors (Session.log (Life.run regex origin svc prog verdict l (Session.create settings error_handler))) <= 1)%nat.
Proof.
  assert (H : forall s, SessionFacts.once s -> SessionFacts.once (Life.run regex origin svc prog verdict l s)).
  { unfold Life.run. induction l as [|[a|e] l' IH]; intros s Hs; simpl; [done| |]; apply IH.
    - by apply SessionRun.once_perform.
    - by apply Life.parse_request_guarded. }
  specialize (H (Session.create settings error_handler) (le_n 0)). unfold SessionFacts.once in H.
  destruct (Session.m_error_handler_invoked _); lia.
Qed.

(** A request that cannot be read is answered: with the default error handler
    the session sends one response with the status of the failure (400 for a
    malformed line or header, 500 for a target that is not a URI) and its text
    as the body, and will close. *)
Theorem unreadable_request_is_answered (svc : Service.t K) (s : Session.t K V) (r : Request.t) (e : exn)
    (x : Request.t * str) (status : Z) (what : str) (bytes : list Z) :
  Service.m_error_handler svc = Some Session.DefaultErrorHandler ->
  Session.m_request s = Some r -> Session.m_resource s = None ->
  Session.is_open s = true -> Session.pending s = [] ->
  Wire.parse_request (r, RString.to_string (Session.m_buffer s)) = (inl e, x) ->
  caught svc e = Some (status, what) ->
  Wire.response_to_bytes (Session.payload (Session.make_response status (RString.to_bytes what)
    (mm_of_list str_ltb [(lit "Content-Type", lit "text/plain");
                         (lit "Content-Length", Uri.to_dec (Z.of_nat (length what)))])) s) = ok bytes ->
  let result := parse_request handler on_error condition action authentication regex origin svc None s in
  result.1 = ok tt /\ Session.pending result.2 = [Session.Write bytes Session.CloseDone]
  /\ Session.log result.2 = Session.log s.
Proof.
  intros Hh Hr Hres Ho Hp Hw Hc Hb result.
  pose proof (parse_request_socket (Request.m_socket_open r) (r, RString.to_string (Session.m_buffer s)) eq_refl) as Hx.
  rewrite Hw in Hx. simpl in Hx.
  enough (exists s2, result = (ok tt, s2) /\ Session.pending s2 = [Session.Write bytes Session.CloseDone]
    /\ Session.log s2 = Session.log s) as (s2 & E & H1 & H2)
    by (rewrite E; split; [reflexivity|split; assumption]).
  unfold result, parse_request, try_catch, st_bind at 1, on_wire. rewrite Hr, Hw.
  destruct x as [r' stream']. rewrite Hc.
  unfold st_bind at 1, discard, st_modify. set (s1 := field_update _ _).
  assert (Session.m_resource s1 = None) as Hres1 by (unfold s1; by destruct s).
  assert (Session.is_open s1 = true) as Ho1.
  { clear Hb Hw Hc. unfold s1. destruct s; unfold Session.is_open in *; cbn in *. rewrite Hx. by rewrite Hr in Ho. }
  assert (Session.pending s1 = [] /\ Session.log s1 = Session.log s) as [Hp1 Hl1]
    by (clear -Hp; unfold s1; destruct s; split; [exact Hp|reflexivity]).
  unfold call_error_handler, st_bind at 1, st_get at 1. rewrite Hres1. cbn [mbind option_bind]. rewrite Hh.
  unfold Session.default_error_handler, st_bind at 1, st_get at 1. rewrite Ho1.
  rewrite (SessionFacts.transmit_ok s1 _ _ bytes); [|done|].
  - eexists. split; [done|]. rewrite <-Hl1. clearbody s1. clear -Hp1. destruct s1; cbn in *. by subst.
  - rewrite <-Hb. f_equal. apply SessionFacts.payload_ext; unfold s1; by destruct s.
Qed.


(** Among the handlers of the request's method, in the order they were set,
    the first one whose filters all accept the request is chosen; if there are
    handlers but none accepts, the request has failed filter validation, and
    without any handler there is none. *)
Theorem first_accepting_handler (r : Request.t) (resource : Resource.t K) (accepts : smap str -> bool) :
  let handlers := equal_range (Request.get_method None r) (Resource.m_method_handlers resource) in
  Forall (fun h => filters_match regex r h.2.1 = ok (accepts h.2.1)) handlers ->
  find_method_handler regex r resource =
    ok match List.find (fun h => accepts h.2.1) handlers, handlers with
       | Some h, _ => Some (UserHandler h.2.2)
       | None, [] => None
       | None, _ => Some match Resource.m_failed_filter_validation_handler resource with
                         | Some k => UserHandler k
                         | None => FailedFilterValidation
                         end
       end.
Proof.
  intros handlers Hf. unfold find_method_handler. fold handlers.
  rewrite (select_handler_first regex r accepts) by done. unfold ok at 1. cbn [res_bind].
  destruct (List.find _ handlers) as [[m [fs k]]|] eqn:E; [done|]. cbn.
  destruct handlers as [|[m [fs k]] l]; [done|]. simpl in E.
  by destruct (accepts fs); simpl in *.
Qed.
End Properties.

(** ** Divergences *)
Section Divergences.
Import Router RouterFacts ServiceFacts.

(** On a connection that is kept alive, the parameters of an earlier request
    hide those of a later one: [std::map::insert] keeps the old value. *)
Theorem kept_alive_parameter_is_stale (name old : str) (folders declarations : list str)
    (parameters : smap str) :
  m_find name parameters = Some old ->
  m_find name (bind_parameters folders declarations parameters) = Some old.
Proof.
  revert declarations parameters. induction folders as [|f folders IH]; intros [|d ds] ps H; simpl; try done.
  apply IH. destruct (Service.is_parameter d); [|done].
  set (q := match regex_match _ d with Some m => cap 1 m | None => [] end).
  destruct (decide (name = q)) as [->|Hne].
  - unfold m_insert. by rewrite H.
  - by rewrite (m_find_insert_ne str_ltb).
Qed.

Definition parameter_path : str := lit "/members/{id: .*}".
Definition parameter_resource : Resource.t nat := Resource.set_path parameter_path Resource.init.

(** A resource with a path parameter can be published but not suppressed: the
    route is stored under the sanitised path and erased under the written one. *)
Theorem suppress_misses_parameter_path :
  let published := (Service.publish (Some parameter_resource) Service.init).2 in
  let suppressed := (Service.suppress (Some parameter_resource) published).2 in
  m_find (lit "/members/.*") (Service.m_resource_routes published) = Some parameter_resource
  /\ Service.m_resource_routes suppressed = Service.m_resource_routes published.
Proof. by vm_compute. Qed.

(** A path of more than 1024 characters takes the router into undefined
    behaviour, before any handler can refuse it. *)
Theorem long_path_is_undefined {K V} (handler : K -> Session.op K V) condition action authentication regex origin
    (svc : Service.t K) (s : Session.t K V) (r : Request.t) :
  Session.m_request s = Some r -> (1024 < length (RString.c_str (Request.m_path r)))%nat ->
  (router handler condition action authentication regex origin svc s).1 = err Undef.
Proof.
  intros Hr Hl. unfold router, st_bind at 1, log, st_bind, st_get, st_lift.
  unfold RString.format. rewrite (proj2 (Z.ltb_lt _ _)); [done|].
  unfold path_of, request. rewrite Hr. cbn [default]. unfold Request.get_path, Common.transform, quoted.
  rewrite !length_app. unfold id. lia.
Qed.
End Divergences.

(** ** Witnesses *)
Section Witnesses.
Import Router RouterFacts ServiceFacts.

(** The service's own calls of a user's error handler are not guarded: two requests
    that fail on one connection call it twice. *)
Example each_failed_request_calls_the_handler :
  Session.log (Life.run (V := unit) (fun _ _ => ok Eps) [] (configure_all [SetErrorHandler (Some 3%nat)] Service.init)
    (fun _ _ => ([], None)) (fun _ _ => true) [Life.Request (Some (Socket.Build_ecode false true (lit "reset"))); Life.Request (Some (Socket.Build_ecode false true (lit "reset")))]
    (Session.create Settings.init (Some (Session.UserErrorHandler 3%nat))))
  = [Session.RequestFailed 3%nat 400 (lit "reset"); Session.RequestFailed 3%nat 400 (lit "reset")].
Proof. vm_compute. reflexivity. Qed.

(** [std::regex] on patterns without metacharacters. *)
Fixpoint lit_re (icase : bool) (f : str) : re :=
  match f with
  | [] => Eps
  | c :: f => Cat (Cls (fun x => ascii_eqb (if icase then RString.tolower x else x)
                                          (if icase then RString.tolower c else c))) (lit_re icase f)
  end.
Definition literal_regex (icase : bool) (f : str) : res re := ok (lit_re icase f).

Lemma lit_re_lang icase f s : lang (lit_re icase f) s <-> fold_case icase s = fold_case icase f.
Proof.
  revert s. induction f as [|c f IH]; intros s; simpl.
  - split; [intros H; inversion H; by destruct icase|].
    intros H. destruct s; [constructor|by destruct icase].
  - split.
    + intros H. inversion H as [| |? ? s1 s2 H1 H2| | | | | | |]; subst.
      inversion H1 as [|? a Ha| | | | | | | |]; subst. apply IH in H2.
      unfold ascii_eqb in Ha. apply bool_decide_eq_true in Ha. destruct icase; simpl in *; congruence.
    + intros H. destruct s as [|a s]; [by destruct icase|].
      change (a :: s) with ([a] ++ s). constructor.
      * constructor. unfold ascii_eqb. apply bool_decide_eq_true. destruct icase; simpl in H; congruence.
      * apply IH. destruct icase; simpl in *; congruence.
Qed.

Lemma literal_regex_literal : literal_patterns literal_regex.
Proof. intros icase f _. eexists. split; [done|]. intros s. apply lit_re_lang. Qed.

Definition sample_resource : Resource.t nat :=
  match Resource.set_method_handler_unfiltered (lit "GET") (Some 7%nat)
          (Resource.set_path (lit "/v1/filter") Resource.init) with
  | inr r => r | inl _ => Resource.init end.
Definition sample_service : Service.t nat := configure_all [Publish (Some sample_resource)] Service.init.
Definition sample_bytes : list Z :=
  match Wire.request_to_bytes sample_request with inr b => b | inl _ => [] end.
Definition sample_session : Session.t nat unit :=
  (Session.create Settings.init (Some Session.DefaultErrorHandler)) <| Session.m_buffer := sample_bytes |>.
Definition no_handler : nat -> Session.op nat unit := fun _ => st_ret tt.
Definition no_error_handler : nat -> Z -> str -> Session.op nat unit := fun k status what => Session.emit (Session.RequestFailed k status what).
Definition no_condition : nat -> st (Session.t nat unit) bool := fun _ => st_ret true.
Definition pass_on : nat -> Session.op nat unit -> Session.op nat unit := fun _ next => next.

Definition read_request_ : Request.t := Request.set_path (lit "/v1/filter") sample_request.

Lemma running_service_is_frozen_witness :
  configure (Publish (Some sample_resource)) (Service.start None 5 sample_service).2
  = (err Service.prohibited, (Service.start None 5 sample_service).2).
Proof.
  apply (running_service_is_frozen (Publish (Some sample_resource)) (Service.start None 5 sample_service).2).
  reflexivity.
Defined.

Lemma found_route_has_path_witness :
  (extract_path_parameters sample_service (lit "/v1/filter")
     (sample_session <| Session.m_request := Some read_request_ |>)).1 = ok tt.
Proof.
  apply (found_route_has_path literal_regex [Publish (Some sample_resource)] read_request_
    (lit "/v1/filter") sample_resource (sample_session <| Session.m_request := Some read_request_ |>));
    vm_compute; reflexivity.
Defined.

Lemma plain_route_matches_its_folders_witness :
  resource_router literal_regex sample_service read_request_ (lit "/v1/filter") = ok true.
Proof.
  apply (plain_route_matches_its_folders literal_regex sample_service read_request_ (lit "/v1/filter")).
  - exact literal_regex_literal.
  - apply (bool_decide_eq_true_1 _). vm_compute. reflexivity.
Defined.


Definition bad_line_session : Session.t nat unit :=
  (Session.create Settings.init (Some Session.DefaultErrorHandler))
    <| Session.pending := [] |> <| Session.m_buffer := RString.to_bytes (lit "nonsense" ++ Wire.crlf ++ Wire.crlf) |>.

Definition bad_line_text : str :=
  match Wire.bad_request_line with RuntimeError what => what | _ => [] end.
Definition bad_line_bytes : list Z :=
  match Wire.response_to_bytes (Session.payload (Session.make_response 400 (RString.to_bytes bad_line_text)
    (mm_of_list str_ltb [(lit "Content-Type", lit "text/plain");
                         (lit "Content-Length", Uri.to_dec (Z.of_nat (length bad_line_text)))])) bad_line_session)
  with inr b => b | inl _ => [] end.

Lemma unreadable_request_is_answered_witness :
  let result :=
    parse_request no_handler no_error_handler no_condition pass_on pass_on literal_regex [] sample_service None bad_line_session in
  result.1 = ok tt /\ Session.pending result.2 = [Session.Write bad_line_bytes Session.CloseDone]
  /\ Session.log result.2 = [].
Proof.
  apply (unreadable_request_is_answered no_handler no_error_handler no_condition pass_on pass_on literal_regex [] sample_service
    bad_line_session (Request.init <| Request.m_socket_open := Some true |>) Wire.bad_request_line
    (Request.init <| Request.m_socket_open := Some true |>, Wire.crlf) 400 bad_line_text bad_line_bytes);
    vm_compute; reflexivity.
Defined.

Lemma parse_request_contains_errors_witness :
  let result := parse_request (fun _ => st_throw (StatusCode 404)) no_error_handler no_condition pass_on pass_on literal_regex []
    sample_service None sample_session in
  result.1 = ok tt \/ result.1 = err Undef
  \/ exists k status what s', in_force sample_service s' k /\ no_error_handler k status what s' = result.
Proof.
  apply (parse_request_contains_errors (fun _ => st_throw (StatusCode 404)) no_error_handler no_condition pass_on pass_on
    literal_regex [] sample_service None sample_session). discriminate.
Defined.

Lemma first_accepting_handler_witness :
  find_method_handler literal_regex sample_request sample_resource = ok (Some (UserHandler 7%nat)).
Proof.
  apply (first_accepting_handler literal_regex sample_request sample_resource (fun _ => true)).
  assert (equal_range (Request.get_method None sample_request) (Resource.m_method_handlers sample_resource)
    = [(lit "GET", ([], 7%nat))]) as -> by reflexivity.
  constructor; [reflexivity|constructor].
Defined.

Lemma kept_alive_parameter_is_stale_witness :
  m_find (lit "id") (bind_parameters [lit "members"; lit "2"] [lit "members"; lit "{id: .*}"]
    [(lit "id", lit "1")]) = Some (lit "1").
Proof.
  apply (kept_alive_parameter_is_stale (lit "id") (lit "1") [lit "members"; lit "2"]
    [lit "members"; lit "{id: .*}"] [(lit "id", lit "1")]). reflexivity.
Defined.

Lemma long_path_is_undefined_witness :
  (router no_handler no_condition pass_on pass_on literal_regex [] sample_service
     (sample_session <| Session.m_request := Some (Request.set_path (repeat "a"%char 1025) Request.init) |>)).1
  = err Undef.
Proof.
  apply (long_path_is_undefined no_handler no_condition pass_on pass_on literal_regex [] sample_service
    (sample_session <| Session.m_request := Some (Request.set_path (repeat "a"%char 1025) Request.init) |>)
    (Request.set_path (repeat "a"%char 1025) Request.init)); [reflexivity|].
  apply Nat.ltb_lt. vm_compute. reflexivity.
Defined.
End Witnesses.
