(* ===== verification/HttpClient.v ===== *)
(** * restbed: the HTTP client

    Models [http.cpp] and [detail/http_impl.cpp]: the chain of completion
    handlers of [Http::async] (connect, write, status line, headers), the error
    response, and [Http::fetch]. The serialisers are in [Message.Wire]. A
    handler's error is the completion's [error_code]; [received] is what the read
    has added to the buffer. Exceptions that [stod] and [stoi] throw inside a
    handler leave it, and with it the client's event loop. *)

From Stdlib Require Import ZArith Lia Ascii String Bool.
From stdpp Require Import base tactics option list.
From S2P Require Import Prelude StdMap Regex RString Uri Message WireFacts Settings Socket.
Import Regex.

Module Http.
(** Which completion the client waits for. *)
Inductive phase := Connecting | Writing (data : list Z) | ReadingStatus | ReadingHeaders | Finished.

Record t := mk {
  m_request : Request.t; m_response : Response.t; m_buffer : str; m_phase : phase }.

Definition close (s : t) : t :=
  s <| m_request := (m_request s) <| Request.m_socket_open := Request.close_socket (Request.m_socket_open (m_request s)) |> |>.
Definition is_open (s : t) : bool := default false (Request.m_socket_open (m_request s)).
Definition is_closed (s : t) : bool := negb (is_open s).

(** [HttpImpl::create_error_response] *)
Definition create_error_response (message : str) (s : t) : t :=
  let r := m_response s in
  let r := Response.set_protocol (Request.get_protocol None (m_request s)) r in
  let r := Response.set_version (Request.m_version (m_request s)) r in
  let r := Response.set_status_code 0 r in
  let r := Response.set_status_message (lit "Error") r in
  let r := Response.set_header (lit "Content-Type") (lit "text/plain; utf-8") r in
  let r := Response.set_header (lit "Content-Length") (Uri.to_dec (Z.of_nat (length message))) r in
  let r := Response.set_body_string message r in
  s <| m_response := r |>.

(** The callback ends the exchange. *)
Definition finished : st t unit := st_modify (fun s => s <| m_phase := Finished |>).
Definition fail_with (message : str) : st t unit :=
  do body <- st_lift (RString.format message) ;;
  do _ <- st_modify (create_error_response body) ;; finished.

Definition send_request : st t unit :=
  do s <- st_get ;;
  do bytes <- st_lift (Wire.request_to_bytes (m_request s)) ;;
  st_modify (fun s => s <| m_phase := Writing bytes |>).

Definition request_handler (error : option Socket.ecode) : st t unit :=
  match error with
  | Some e => fail_with (lit "Failed to locate HTTP endpoint: " ++ RString.c_str (Socket.ec_message e))
  | None => send_request
  end.

Definition write_handler (error : option Socket.ecode) : st t unit :=
  match error with
  | Some e => fail_with (lit "Socket write failed: " ++ RString.c_str (Socket.ec_message e))
  | None => st_modify (fun s => s <| m_buffer := [] |> <| m_phase := ReadingStatus |>)
  end.

(** [([a-zA-Z]+)/([0-9]*.?[0-9]* ) (-?[0-9]+) (.+)] and a carriage return *)
Definition re_status_line : re :=
  Cats [Grp 1 (Plus (Cls is_alpha)); Lit (lit "/");
        Grp 2 (Cats [Star (Cls is_digit); Opt (Lit (lit ".")); Star (Cls is_digit)]); Lit (lit " ");
        Grp 3 (Cat (Opt (Lit (lit "-"))) (Plus (Cls is_digit))); Lit (lit " ");
        Grp 4 (Plus (Cls is_dot)); Lit Wire.cr].

Definition set_response (f : Response.t -> Response.t) : st t unit :=
  st_modify (fun s => s <| m_response := f (m_response s) |>).

Definition read_status_handler (error : option Socket.ecode) : st t unit :=
  match error with
  | Some e => fail_with (lit "Failed to read HTTP response status line: " ++ RString.c_str (Socket.ec_message e))
  | None =>
      do s <- st_get ;;
      let '(status_line, rest) := match Wire.getline (m_buffer s) with Some x => x | None => ([], []) end in
      do _ <- st_modify (fun s => s <| m_buffer := rest |>) ;;
      match regex_match re_status_line status_line with
      | None => fail_with (lit "HTTP response status line malformed: '" ++ RString.c_str status_line ++ lit "'")
      | Some m =>
          do _ <- set_response (Response.set_protocol (cap 1 m)) ;;
          do version <- st_lift (Double.stod (cap 2 m)) ;;
          do _ <- set_response (Response.set_version version) ;;
          do status <- st_lift (Uri.stoi (cap 3 m)) ;;
          do _ <- set_response (Response.set_status_code status) ;;
          do _ <- set_response (Response.set_status_message (cap 4 m)) ;;
          st_modify (fun s => s <| m_phase := ReadingHeaders |>)
      end
  end.

(** The loop over the header lines: a malformed one, or the headers. *)
Fixpoint headers_loop (fuel : nat) (headers : smap str) (stream : str) : (str + smap str) * str :=
  match fuel with
  | O => (inr headers, stream)
  | S fuel =>
      match Wire.getline stream with
      | None => (inr headers, stream)
      | Some (header, rest) =>
          if bool_decide (header = Wire.cr) then (inr headers, rest)
          else match regex_match Wire.re_header header with
               | None => (inl header, rest)
               | Some m => headers_loop fuel (smm_insert (cap 1 m) (cap 2 m) headers) rest
               end
      end
  end.

Definition read_headers_handler (error : option Socket.ecode) : st t unit :=
  match error with
  | Some e =>
      if Socket.ec_eof e then finished
      else fail_with (lit "Failed to read HTTP response status headers: '" ++ RString.c_str (Socket.ec_message e) ++ lit "'")
  | None =>
      do s <- st_get ;;
      let '(result, rest) := headers_loop (S (length (m_buffer s))) [] (m_buffer s) in
      do _ <- st_modify (fun s => s <| m_buffer := rest |>) ;;
      match result with
      | inl header => fail_with (lit "Malformed HTTP response header: '" ++ RString.c_str header ++ lit "'")
      | inr headers => do _ <- set_response (Response.set_headers headers) ;; finished
      end
  end.

(** [Http::async]: a new response, then connect or write. *)
Definition async (request : Request.t) : st t unit := fun s =>
  let s := mk request Response.init (m_buffer s) Connecting in
  if is_closed s then (ok tt, s) else send_request s.

(** Whether a text holds a delimiter. *)
Fixpoint holds (delimiter s : str) : bool :=
  bool_decide (take (length delimiter) s = delimiter) || match s with [] => false | _ :: s => holds delimiter s end.

(** What the socket reports: [received] is what has come into the buffer. A
    [read_until] that has met no error completes when the buffer holds its
    delimiter, at once if it already did, and goes on otherwise. *)
Definition until (delimiter : str) (error : option Socket.ecode) (k : st t unit) : st t unit :=
  do s <- st_get ;;
  match error with
  | None => if holds delimiter (m_buffer s) then k else st_ret tt
  | Some _ => k
  end.
Definition complete (error : option Socket.ecode) (received : str) : st t unit :=
  do s <- st_get ;;
  do _ <- st_modify (fun s => s <| m_buffer := m_buffer s ++ received |>) ;;
  match m_phase s with
  | Connecting => request_handler error
  | Writing _ => write_handler error
  | ReadingStatus => until Wire.crlf error (read_status_handler error)
  | ReadingHeaders => until (Wire.crlf ++ Wire.crlf) error (read_headers_handler error)
  | Finished => st_ret tt
  end.

(** *** Fetching the body *)
Definition receive_failed (e : Socket.ecode) : st t unit :=
  do what <- st_lift (RString.format (lit "Socket receive failed: '" ++ RString.c_str (Socket.ec_message e) ++ lit "'")) ;;
  st_throw (RuntimeError what).

Definition take_body (length : nat) : st t (list Z) := fun s =>
  if (List.length (m_buffer s) <? length)%nat then (err Undef, s) else
  let data := RString.to_bytes (take length (m_buffer s)) in
  let body := match Response.m_body (m_response s) with [] => data | b => b ++ data end in
  (ok data, s <| m_buffer := drop length (m_buffer s) |> <| m_response := Response.set_body body (m_response s) |>).

(** [fetch( length )]: [error] and [received] are the outcome of the blocking
    read, if one is needed. *)
Definition fetch (length : nat) (error : option Socket.ecode) (received : str) : st t (list Z) :=
  do s <- st_get ;;
  if (List.length (m_buffer s) <? length)%nat then
    do _ <- st_modify (fun s => s <| m_buffer := m_buffer s ++ received |>) ;;
    do _ <- match error with
            | Some e => if Socket.ec_eof e then st_ret tt else receive_failed e
            | None => st_ret tt
            end ;;
    take_body length
  else take_body length.

(** [fetch( delimiter )]: [size] is the count the blocking read reports. *)
Definition fetch_delimiter (error : option Socket.ecode) (received : str) (size : nat) : st t (list Z) :=
  do _ <- st_modify (fun s => s <| m_buffer := m_buffer s ++ received |>) ;;
  do _ <- match error with Some e => receive_failed e | None => st_ret tt end ;;
  take_body size.
End Http.

(** ** Lemmas *)
Module HttpFacts.
Import Http.

Lemma holds_here d u v : holds d (u ++ d ++ v) = true.
Proof.
  induction u as [|c u IH]; cbn [app]; [|cbn; rewrite IH; apply orb_true_r].
  destruct (d ++ v) as [|c s] eqn:E; cbn [holds]; (rewrite bool_decide_true; [done|]); rewrite <- E; apply take_app_length.
Qed.

Lemma headers_loop_parse fuel headers stream hs rest :
  Wire.parse_headers_loop fuel headers stream = (ok hs, rest) ->
  headers_loop fuel headers stream = (inr hs, rest).
Proof.
  revert headers stream. induction fuel as [|fuel IH]; intros headers stream; simpl; [done|].
  destruct (Wire.getline stream) as [[data rest']|]; [|by intros [= -> ->]].
  case_bool_decide; [by intros [= -> ->]|]. destruct (regex_match _ data); [apply IH|done].
Qed.

(** Status codes of up to three digits print and read back. *)
Lemma status_digits n :
  (0 <= n < 1000)%Z ->
  Uri.to_dec n <> [] /\ forallb is_digit (Uri.to_dec n) = true /\ Uri.stoi (Uri.to_dec n) = ok n.
Proof.
  intros Hn.
  assert (forallb (fun k => let n := Z.of_nat k in
    negb (bool_decide (Uri.to_dec n = [])) && forallb is_digit (Uri.to_dec n)
    && match Uri.stoi (Uri.to_dec n) with inr m => (m =? n)%Z | inl _ => false end) (seq 0 1000) = true) as H
    by (vm_compute; reflexivity).
  rewrite forallb_forall in H. specialize (H (Z.to_nat n)). rewrite Z2Nat.id in H by lia.
  assert (In (Z.to_nat n) (seq 0 1000)) as Hin by (apply in_seq; lia). specialize (H Hin).
  cbv zeta in H. rewrite !andb_true_iff, negb_true_iff, bool_decide_eq_false in H. destruct H as [[H1 H2] H3].
  split_and!; [done|done|]. destruct (Uri.stoi (Uri.to_dec n)) as [|m]; [done|]. apply Z.eqb_eq in H3. by subst.
Qed.

Lemma digits_length n : (0 <= n < 1000)%Z -> (length (Uri.to_dec n) <= 3)%nat.
Proof.
  intros Hn.
  assert (forallb (fun k => length (Uri.to_dec (Z.of_nat k)) <=? 3)%nat (seq 0 1000) = true) as H
    by (vm_compute; reflexivity).
  rewrite forallb_forall in H. specialize (H (Z.to_nat n)). rewrite Z2Nat.id in H by lia.
  apply Nat.leb_le, H, in_seq. lia.
Qed.

Lemma no_dash {A} status rest c (k : @cont A) y :
  status <> [] -> forallb is_digit status = true ->
  orelse (run (Lit (lit "-")) (status ++ rest) c k) y = y.
Proof.
  intros Hs Hd. destruct status as [|d status]; [done|]. simpl in Hd. apply andb_true_iff in Hd as [Hd _].
  replace (run (Lit (lit "-")) ((d :: status) ++ rest) c k) with (@None A); [done|].
  simpl. unfold ascii_eqb. rewrite bool_decide_false; [done|]. intros <-. done.
Qed.

Lemma match_status_line protocol a b status message :
  protocol <> [] -> forallb is_alpha protocol = true -> is_digit a = true -> is_digit b = true ->
  status <> [] -> forallb is_digit status = true -> message <> [] -> forallb is_dot message = true ->
  exists m, regex_match re_status_line
      (protocol ++ lit "/" ++ version_text a b ++ lit " " ++ status ++ lit " " ++ message ++ Wire.cr) = Some m
    /\ cap 1 m = protocol /\ cap 2 m = version_text a b /\ cap 3 m = status /\ cap 4 m = message.
Proof.
  intros Hp1 Hp2 Ha Hb Hs1 Hs2 Hm1 Hm2. eexists. split.
  - unfold regex_match, re_status_line. cbn [Cats]. rewrite run_cat.
    apply run_grp_plus; [done|done|done|]. rewrite run_cat, run_lit, run_cat, run_grp, run_cat.
    change (version_text a b ++ ?x) with ([a] ++ ["."%char] ++ [b] ++ x).
    apply run_star_cls; [simpl; by rewrite Ha|done|]. rewrite run_cat. cbn [run].
    apply orelse_Some. change (Lit (lit ".")) with (Lit ["."%char]). rewrite run_lit.
    rewrite (proj2 (Nat.ltb_lt _ _)) by (rewrite !length_app; simpl; lia).
    apply (run_star_cls is_digit [b]); [simpl; by rewrite Hb|done|].
    rewrite run_lit. rewrite (no_dash status) by done.
    apply run_plus_cls; [done|done|done|]. rewrite run_lit.
    apply run_plus_cls; [done|done|done|]. 
    change (run (Lit Wire.cr) Wire.cr) with (run (A := caps) (Lit Wire.cr) (Wire.cr ++ [])). rewrite run_lit. reflexivity.
  - cbn [cap Nat.eqb]. rewrite !take_consumed.
    split_and!; [done| |done|done].
    change ([a] ++ ["."%char] ++ [b] ++ ?x) with (version_text a b ++ x). apply take_consumed.
Qed.

(** *** A whole response *)
Record answerable (p : Response.t) (a b : ascii) : Prop := {
  a_protocol : Response.m_protocol p <> [] /\ forallb is_alpha (Response.m_protocol p) = true;
  a_digits : is_digit a = true /\ is_digit b = true;
  a_version : Double.stod (version_text a b) = inr (Response.m_version p);
  a_status : (0 <= Response.m_status_code p < 1000)%Z;
  a_message : Response.m_status_message p <> [] /\ forallb printable (Response.m_status_message p) = true;
  a_headers : forallb header_ok (Response.m_headers p) = true;
  a_headers_sorted : mm_sorted str_ltb (Response.m_headers p);
  a_length : (length (Response.m_protocol p) + length (Response.m_status_message p) <= 1000)%nat }.

Definition status_line (p : Response.t) (a b : ascii) : str :=
  Response.m_protocol p ++ lit "/" ++ version_text a b ++ lit " " ++ Uri.to_dec (Response.m_status_code p)
  ++ lit " " ++ Response.m_status_message p ++ Wire.cr.

Section Answer.
Context (p : Response.t) (a b : ascii) (Hp : answerable p a b).

Lemma printable_dot x : forallb printable x = true -> forallb is_dot x = true.
Proof. apply Uri.cls_incl. by vm_compute. Qed.

Lemma status_line_no_lf : Wire.lf ∉ status_line p a b.
Proof.
  destruct (a_protocol _ _ _ Hp) as [_ H1], (a_digits _ _ _ Hp) as [Ha Hb], (a_message _ _ _ Hp) as [_ H2].
  destruct (status_digits _ (a_status _ _ _ Hp)) as (_ & H3 & _).
  unfold status_line. rewrite !not_elem_of_app. split_and!.
  all: try by apply (bool_decide_eq_true_1 _).
  - apply is_dot_no_crlf; [|done]. revert H1. apply Uri.cls_incl. by vm_compute.
  - unfold version_text. rewrite !not_elem_of_cons. split_and!; [by intros <-|done|by intros <-|apply not_elem_of_nil].
  - apply is_dot_no_crlf; [|done]. revert H3. apply Uri.cls_incl. by vm_compute.
  - apply is_dot_no_crlf; [|done]. by apply printable_dot.
Qed.

Lemma response_text :
  Wire.response_to_bytes p =
  ok (RString.to_bytes (status_line p a b ++ Wire.lf :: header_lines (Response.m_headers p) ++ Wire.crlf)
      ++ Response.m_body p).
Proof.
  destruct (a_protocol _ _ _ Hp) as [_ H1], (a_digits _ _ _ Hp) as [Ha Hb], (a_message _ _ _ Hp) as [_ H2].
  destruct (status_digits _ (a_status _ _ _ Hp)) as (_ & H3 & _).
  unfold Wire.response_to_bytes. rewrite (stod_fmt_1f a b) by eauto using a_version.
  rewrite (class_no_nul is_alpha (Response.m_protocol p)) by (done || by vm_compute).
  rewrite (class_no_nul printable (Response.m_status_message p)) by (done || by vm_compute).
  match goal with |- context [RString.format ?x] =>
    replace x with (status_line p a b ++ [Wire.lf])
      by (unfold status_line, Wire.crlf, Wire.cr, Wire.lf; by simplify_list_eq) end.
  unfold RString.format. rewrite (proj2 (Z.ltb_ge _ _)).
  2: { pose proof (a_length _ _ _ Hp). pose proof (digits_length _ (a_status _ _ _ Hp)).
       unfold status_line. rewrite !length_app. simpl. lia. }
  cbn [res_bind ok]. unfold ok. do 3 f_equal.
  change (Response.get_headers [] p) with (Response.m_headers p).
  rewrite header_block_lines by apply (a_headers _ _ _ Hp).
  rewrite (class_no_nul (fun c => printable c || is_space c) (status_line p a b ++ [Wire.lf]));
    [by simplify_list_eq|by vm_compute|].
  unfold status_line. rewrite !forallb_app, !andb_true_iff. split_and!; try done.
  - revert H1. apply Uri.cls_incl. by vm_compute.
  - assert (forallb (fun c => is_digit c || one_of "." c) (version_text a b) = true) as Hv
      by (unfold version_text; simpl; by rewrite Ha, Hb).
    revert Hv. apply Uri.cls_incl. by vm_compute.
  - revert H3. apply Uri.cls_incl. by vm_compute.
  - revert H2. apply Uri.cls_incl. by vm_compute.
Qed.

Lemma status_line_end x : status_line p a b ++ Wire.lf :: x
  = (Response.m_protocol p ++ lit "/" ++ version_text a b ++ lit " " ++ Uri.to_dec (Response.m_status_code p) ++ lit " " ++ Response.m_status_message p)
    ++ Wire.crlf ++ x.
Proof. unfold status_line. by rewrite <- !app_assoc. Qed.

Lemma read_status s x :
  m_phase s = ReadingStatus -> m_buffer s = [] ->
  complete None (status_line p a b ++ Wire.lf :: x) s
  = (ok tt, mk (m_request s)
      (Response.set_status_message (Response.m_status_message p)
        (Response.set_status_code (Response.m_status_code p)
          (Response.set_version (Response.m_version p)
            (Response.set_protocol (Response.m_protocol p) (m_response s))))) x ReadingHeaders).
Proof.
  intros Hph Hb. destruct s as [rq rs bf ph]; cbn in Hph, Hb. subst. unfold complete.
  do 2 (erewrite st_bind_ok by reflexivity; cbv beta). cbn [m_phase app]. unfold until. erewrite st_bind_ok by reflexivity.
  match goal with |- context [holds ?d ?z] => replace (holds d z) with true end.
  2: { symmetry. change (holds Wire.crlf (status_line p a b ++ Wire.lf :: x) = true). rewrite status_line_end. apply holds_here. }
  unfold read_status_handler. erewrite st_bind_ok by reflexivity.
  match goal with |- context [Wire.getline ?z] => change z with (status_line p a b ++ Wire.lf :: x) end.
  rewrite getline_line by apply status_line_no_lf.
  destruct (a_protocol _ _ _ Hp) as [H0 H1], (a_digits _ _ _ Hp) as [Ha Hbb], (a_message _ _ _ Hp) as [H2 H3].
  destruct (status_digits _ (a_status _ _ _ Hp)) as (H4 & H5 & H6).
  destruct (match_status_line (Response.m_protocol p) a b (Uri.to_dec (Response.m_status_code p))
    (Response.m_status_message p)) as (m & Hm & E1 & E2 & E3 & E4); try done; [by apply printable_dot|].
  erewrite st_bind_ok by reflexivity. unfold status_line. rewrite Hm, E1, E2, E3, E4.
  erewrite st_bind_ok by reflexivity.
  erewrite st_bind_ok by (unfold st_lift; by rewrite (a_version _ _ _ Hp)).
  erewrite st_bind_ok by reflexivity.
  erewrite st_bind_ok by (unfold st_lift; by rewrite H6). reflexivity.
Qed.

Lemma header_lines_end h hs : exists u, header_lines (h :: hs) = u ++ Wire.crlf.
Proof.
  revert h. induction hs as [|h' hs IH]; intros h.
  - exists (h.1 ++ lit ":" ++ lit " " ++ h.2). unfold header_lines, header_line. cbn [map concat]. rewrite app_nil_r, <- !app_assoc. done.
  - destruct (IH h') as [u E]. exists (header_line h ++ [Wire.lf] ++ u). unfold header_lines in *. cbn [map concat] in *. by rewrite E, <- !app_assoc.
Qed.

Lemma read_headers rq rs x y tail :
  Response.m_headers p <> [] ->
  x ++ y = header_lines (Response.m_headers p) ++ Wire.crlf ++ tail ->
  complete None y (mk rq rs x ReadingHeaders)
  = (ok tt, mk rq (Response.set_headers (Response.m_headers p) rs) tail Finished).
Proof.
  intros Hne E. unfold complete. do 2 (erewrite st_bind_ok by reflexivity; cbv beta). cbn [m_phase].
  unfold until. erewrite st_bind_ok by reflexivity.
  match goal with |- context [holds ?d ?z] => replace (holds d z) with true end.
  2: { symmetry. change (holds (Wire.crlf ++ Wire.crlf) (x ++ y) = true). rewrite E. destruct (Response.m_headers p) as [|h hs]; [done|].
       destruct (header_lines_end h hs) as [u ->]. rewrite <- app_assoc, (app_assoc Wire.crlf Wire.crlf). apply holds_here. }
  unfold read_headers_handler. erewrite st_bind_ok by reflexivity. cbv beta.
  match goal with |- context [headers_loop (S (length ?z)) [] ?z] => change z with (x ++ y) end. rewrite E.
  erewrite headers_loop_parse.
  2: { apply parse_headers_lines; [apply (a_headers _ _ _ Hp)|].
       rewrite length_app. pose proof (header_lines_length (Response.m_headers p)). lia. }
  cbn. do 3 f_equal. change (fold_left _ _ _) with (mm_of_list str_ltb (Response.m_headers p)).
  rewrite mm_of_list_id by (apply _ || apply (a_headers_sorted _ _ _ Hp)). done.
Qed.
End Answer.
End HttpFacts.

(** ** Properties *)
Section Properties.
Import Http HttpFacts.


(** A response without headers and body does not end: behind its status line there is
    one line end, and the read waits for two. *)
Theorem bare_response_stalls (p : Response.t) (a b : ascii) (s : t) :
  answerable p a b -> Response.m_headers p = [] -> Response.m_body p = [] ->
  m_phase s = ReadingStatus -> m_buffer s = [] ->
  exists bytes s', Wire.response_to_bytes p = ok bytes
    /\ (do _ <- complete None (RString.to_string bytes) ;; complete None []) s = (ok tt, s') /\ m_phase s' = ReadingHeaders.
Proof.
  intros Hp Hh Hbody Hph Hb. eexists _, _. split; [by apply response_text|]. rewrite Hh, Hbody, app_nil_r, RString.to_string_to_bytes.
  erewrite st_bind_ok by (by apply read_status). split; reflexivity.
Qed.

(** [fetch( n )] of the client hands over exactly the next [n] bytes of the
    connection when they arrive, and appends them to the response's body. *)
Theorem client_fetch_delivers (s : t) (n : nat) (received : str) :
  (n - length (m_buffer s) <= length received)%nat ->
  let stream := m_buffer s ++ (if (length (m_buffer s) <? n)%nat then received else []) in
  exists s', fetch n None received s = (ok (RString.to_bytes (take n stream)), s')
    /\ m_buffer s' = drop n stream
    /\ Response.m_body (m_response s')
       = Response.m_body (m_response s) ++ RString.to_bytes (take n stream).
Proof.
  intros Hn stream. subst stream. unfold fetch, st_bind at 1, st_get.
  assert (Hbody : forall z : list Z, match Response.m_body (m_response s) with [] => z | l => l ++ z end
    = Response.m_body (m_response s) ++ z) by (intros; by destruct (Response.m_body (m_response s))).
  destruct (Nat.ltb_spec (length (m_buffer s)) n) as [Hlt|Hge].
  - destruct s as [rq rs bf ph]; cbn -[Nat.ltb] in *. unfold take_body; cbn -[Nat.ltb].
    rewrite (proj2 (Nat.ltb_ge _ _)) by (rewrite length_app; lia). rewrite Hbody. by eexists.
  - unfold take_body. rewrite (proj2 (Nat.ltb_ge _ _)) by lia. rewrite Hbody, app_nil_r.
    destruct s as [rq rs bf ph]; cbn. by eexists.
Qed.

(** When the peer closes early, [fetch( n )] reads past the end of its buffer. *)
Theorem client_fetch_overreads (s : t) (n : nat) (received : str) (e : Socket.ecode) :
  Socket.ec_eof e = true -> (length (m_buffer s) + length received < n)%nat ->
  (fetch n (Some e) received s).1 = err Undef.
Proof.
  intros He Hn. unfold fetch, st_bind at 1, st_get. rewrite (proj2 (Nat.ltb_lt _ _)) by lia.
  destruct s as [rq rs bf ph]; cbn -[Nat.ltb] in *. rewrite He. cbn -[Nat.ltb]. unfold take_body; cbn -[Nat.ltb].
  by rewrite (proj2 (Nat.ltb_lt _ _)) by (rewrite length_app; lia).
Qed.

(** A status line with an empty version passes the pattern and makes [stod] throw
    out of the completion handler. *)
Example empty_version_throws :
  (complete None (lit "HTTP/ 200 OK" ++ Wire.crlf)
     (mk Request.init Response.init [] ReadingStatus)).1 = err (InvalidArgument (lit "stod")).
Proof. by vm_compute. Qed.
End Properties.

(** ** Witnesses *)
Section Witnesses.
Import Http HttpFacts.

Definition sample_answer : Response.t :=
  Response.set_body_string (lit "hi")
    (Response.set_header (lit "Content-Length") (lit "2")
      (Response.set_status_message (lit "OK") (Response.set_status_code 200 Response.init))).
Definition waiting : t := mk Request.init Response.init [] ReadingStatus.


Lemma client_fetch_delivers_witness :
  exists s', fetch 3 None (lit "cdef") (waiting <| m_buffer := lit "ab" |>)
      = (ok (RString.to_bytes (lit "abc")), s')
    /\ m_buffer s' = lit "def"
    /\ Response.m_body (m_response s') = RString.to_bytes (lit "abc").
Proof.
  exact (client_fetch_delivers (waiting <| m_buffer := lit "ab" |>) 3 (lit "cdef") ltac:(apply Nat.leb_le; reflexivity)).
Defined.

Lemma client_fetch_overreads_witness :
  (fetch 3 (Some {| Socket.ec_aborted := false; Socket.ec_eof := true; Socket.ec_message := [] |}) (lit "b")
     (waiting <| m_buffer := lit "a" |>)).1 = err Undef.
Proof.
  apply (client_fetch_overreads (waiting <| m_buffer := lit "a" |>) 3 (lit "b")
    {| Socket.ec_aborted := false; Socket.ec_eof := true; Socket.ec_message := [] |}); [reflexivity|apply Nat.ltb_lt; reflexivity].
Defined.
End Witnesses.
