(* ===== verification/Checksum.v ===== *)
(** * The Internet checksum of the data plane

    Models [alpha/al_chksum.c], the checksums that [al_process] and the ICMP code
    write into forwarded packets, on a little-endian machine as DPDK runs on. A
    buffer is its bytes together with the parity of its address; an mbuf chain
    is a list of such buffers. Sums are kept in 32 bits and folded as the code
    does. [Rfc1071] is the specification: the ones' complement sum of the
    big-endian words of the data.

    The proofs read data as one number in base 256. Modulo 65535 the square of
    256 is one, so that this number is also the sum of the words, and both the
    alignment tricks and the byte swaps of the code are multiplications by 256. *)

From Stdlib Require Import ZArith Lia Bool.
From stdpp Require Import base tactics list.
From S2P Require Import Prelude.

Open Scope Z_scope.

(** ** The code *)
Module Chksum.
(** A [uint16_t] load from memory. *)
Definition le16 (lo hi : Z) : Z := lo + 256 * hi.

(** [SWAP_BYTES_IN_WORD] is [rte_cpu_to_be_16], whose argument is a [uint16_t]. *)
Definition bswap16 (w : Z) : Z :=
  let w := u16 w in Z.lor (u16 (Z.shiftl w 8)) (Z.shiftr w 8).

(** [FOLD_U32T] *)
Definition fold_u32t (u : Z) : Z := u32 (Z.shiftr u 16 + Z.land u 65535).

(** [while (len > 1)] *)
Fixpoint add_words (ps : list Z) (sum : Z) : Z * list Z :=
  match ps with
  | lo :: hi :: ps => add_words ps (u32 (sum + le16 lo hi))
  | _ => (sum, ps)
  end.

(** [odd] is [(uintptr_t)pb & 1]. *)
Definition lwip_standard_chksum (odd : bool) (dataptr : list Z) : Z :=
  let '(t1, pb) := match odd, dataptr with true, b :: pb => (b, pb) | _, _ => (0, dataptr) end in
  let '(sum, ps) := add_words pb 0 in
  let t0 := match ps with b :: _ => b | [] => 0 end in
  let sum := u32 (sum + le16 t0 t1) in
  let sum := fold_u32t sum in
  let sum := fold_u32t sum in
  let sum := if odd then bswap16 sum else sum in
  u16 sum.

(** [len], a [uint16_t], is the number of bytes of [dataptr]. *)
Definition inet_chksum (odd : bool) (dataptr : list Z) : Z :=
  u16 (Z.lnot (lwip_standard_chksum odd dataptr)).

(** One [rte_mbuf]: whether its data starts at an odd address, and the data. *)
Record segment := { seg_odd : bool; seg_data : list Z }.

Definition data_len (q : segment) : Z := Z.of_nat (length (seg_data q)).

(** [rte_pktmbuf_mtod_offset( q, void*, boff )] *)
Definition mtod_odd (q : segment) (boff : Z) : bool := xorb (seg_odd q) (Z.odd boff).
Definition mtod_data (q : segment) (boff : Z) : list Z := drop (Z.to_nat boff) (seg_data q).

(** The loop of [inet_chksum_pseudo] over the chain. *)
Fixpoint sum_chain (q : list segment) (boff acc : Z) (swapped : bool) : Z * bool :=
  match q with
  | [] => (acc, swapped)
  | q :: next =>
      let acc := u32 (acc + lwip_standard_chksum (mtod_odd q boff) (mtod_data q boff)) in
      let acc := fold_u32t acc in
      if Z.odd (data_len q - boff)
      then sum_chain next 0 (bswap16 acc) (negb swapped)
      else sum_chain next 0 acc swapped
  end.

Definition inet_chksum_pseudo (p : list segment) (boff src dest proto proto_len : Z) : Z :=
  let '(acc, swapped) := sum_chain p boff 0 false in
  let acc := if swapped then bswap16 acc else acc in
  let acc := u32 (acc + Z.land src 65535) in
  let acc := u32 (acc + Z.land (Z.shiftr src 16) 65535) in
  let acc := u32 (acc + Z.land dest 65535) in
  let acc := u32 (acc + Z.land (Z.shiftr dest 16) 65535) in
  let acc := u32 (acc + bswap16 proto) in
  let acc := u32 (acc + bswap16 proto_len) in
  let acc := fold_u32t acc in
  let acc := fold_u32t acc in
  u16 (Z.lnot (Z.land acc 65535)).

(** [chksum], which [inet6_chksum_pseudo] uses: an odd byte is taken from the
    start of the data. *)
Definition chksum (dataptr : list Z) : Z :=
  let '(acc, rest) := add_words dataptr 0 in
  match rest with
  | [] => acc
  | _ => u32 (acc + bswap16 (Z.shiftl (hd 0 dataptr) 8))
  end.

(** [while (acc >> 16)]; a 32-bit value needs two rounds at most. *)
Fixpoint fold_all (fuel : nat) (acc : Z) : Z :=
  match fuel with
  | O => acc
  | S fuel => if Z.shiftr acc 16 =? 0 then acc
              else fold_all fuel (u32 (Z.land acc 65535 + Z.shiftr acc 16))
  end.

(** [((acc & 0xff) << 8) | ((acc & 0xff00) >> 8)] *)
Definition swap_bytes (acc : Z) : Z :=
  Z.lor (Z.shiftl (Z.land acc 255) 8) (Z.shiftr (Z.land acc 65280) 8).

Fixpoint sum_chain6 (q : list segment) (boff acc : Z) (swapped : bool) : Z * bool :=
  match q with
  | [] => (acc, swapped)
  | q :: next =>
      let acc := fold_all 3 (u32 (acc + chksum (mtod_data q boff))) in
      if Z.odd (data_len q) then sum_chain6 next 0 (swap_bytes acc) (negb swapped)
      else sum_chain6 next 0 acc swapped
  end.

(** [src] and [dest] are the eight words of each address as loaded. *)
Definition add_words16 (acc : Z) (words : Z * Z) : Z :=
  fold_all 3 (u32 (u32 (acc + Z.land words.1 65535) + Z.land words.2 65535)).

Definition inet6_chksum_pseudo (p : list segment) (boff : Z) (src dest : list Z) (proto proto_len : Z) : Z :=
  let '(acc, swapped) := sum_chain6 p boff 0 false in
  let acc := if swapped then swap_bytes acc else acc in
  let acc := fold_left add_words16 (zip src dest) acc in
  let acc := u32 (acc + u16 (bswap16 proto)) in
  let acc := u32 (acc + Z.land proto_len 65535) in
  let acc := u32 (acc + Z.land (Z.shiftr proto_len 16) 65535) in
  u16 (Z.lnot (Z.land (fold_all 3 acc) 65535)).
End Chksum.

(** ** The specification *)
Module Rfc1071.
Fixpoint words (data : list Z) : list Z :=
  match data with
  | a :: b :: data => (256 * a + b) :: words data
  | [a] => [256 * a]
  | [] => []
  end.

(** Addition with end-around carry. *)
Definition add (x y : Z) : Z := if x + y <? 65536 then x + y else x + y - 65535.
Definition sum (data : list Z) : Z := fold_left add (words data) 0.
Definition checksum (data : list Z) : Z := 65535 - sum data.

(** The bytes of an IPv4 pseudo header; addresses are words as loaded from the packet. *)
Definition bytes32 (v : Z) : list Z :=
  [v mod 256; v / 256 mod 256; v / 65536 mod 256; v / 16777216 mod 256].
Definition pseudo_header (src dest proto len : Z) : list Z :=
  bytes32 src ++ bytes32 dest ++ [0; proto; len / 256; len mod 256].
End Rfc1071.

(** ** Arithmetic modulo 65535 *)
Module ChksumFacts.
Import Chksum.

#[local] Ltac Zify.zify_post_hook ::= Z.to_euclidean_division_equations.

Definition byte (b : Z) : Prop := 0 <= b < 256.

(** [x] is the sixteen-bit ones' complement representative of [n]. *)
Definition rep (x n : Z) : Prop :=
  0 <= x <= 65535 /\ 0 <= n /\ (exists k, x = n + k * 65535) /\ (x = 0 <-> n = 0).

(** Equal up to a multiple of 65535, both zero or both positive. *)
Definition same (n m : Z) : Prop := 0 <= n /\ 0 <= m /\ (exists k, n = m + k * 65535) /\ (n = 0 <-> m = 0).

Lemma same_refl n : 0 <= n -> same n n.
Proof. intros. split_and!; [done|done|exists 0; lia|done]. Qed.

Lemma same_trans n m p : same n m -> same m p -> same n p.
Proof. intros (?&?&[k ->]&?) (?&?&[j ->]&?). split_and!; [done|done|exists (k + j); lia|lia]. Qed.

Lemma same_sym n m : same n m -> same m n.
Proof. intros (?&?&[k ->]&?). split_and!; [done|done|exists (- k); lia|lia]. Qed.

Lemma same_add n m p q : same n m -> same p q -> same (n + p) (m + q).
Proof. intros (?&?&[k ->]&?) (?&?&[j ->]&?). split_and!; [lia|lia|exists (k + j); lia|lia]. Qed.

Lemma same_mul256 n m : same n m -> same (256 * n) (256 * m).
Proof. intros (?&?&[k ->]&?). split_and!; [lia|lia|exists (256 * k); lia|lia]. Qed.

Lemma same_65536 n : 0 <= n -> same (256 * (256 * n)) n.
Proof. intros. split_and!; [lia|done|exists n; lia|lia]. Qed.

Lemma rep_same x n m : rep x n -> same n m -> rep x m.
Proof. intros (?&?&[k ->]&?) (?&?&[j ->]&?). split_and!; [lia|lia|done|exists (k + j); lia|lia]. Qed.

Lemma rep_unique x y n : rep x n -> rep y n -> x = y.
Proof.
  intros (?&?&[k E]&?) (?&?&[j F]&?).
  destruct (decide (n = 0)); [lia|]. assert (k = j) by nia. lia.
Qed.

Lemma rep_is_same x n : rep x n -> same x n.
Proof. intros (?&?&[k ->]&?). split_and!; [lia|done|by exists k|done]. Qed.

Lemma rep_intro x n : 0 <= x <= 65535 -> same x n -> rep x n.
Proof. intros ? (?&?&?&?). unfold rep. eauto. Qed.

(** *** Folding and swapping *)
Lemma fold_u32t_eq u : in_width 32 u -> fold_u32t u = u / 65536 + u mod 65536.
Proof.
  intros H. unfold fold_u32t. rewrite Z.shiftr_div_pow2 by lia.
  change 65535 with (Z.ones 16). rewrite Z.land_ones by lia. change (2 ^ 16) with 65536.
  apply wrap_small. pose proof (Z.mod_pos_bound u 65536). width_lia.
Qed.

Lemma fold_u32t_same u : in_width 32 u -> same (fold_u32t u) u /\ fold_u32t u <= 131070.
Proof.
  intros H. rewrite fold_u32t_eq by done. unfold in_width in H. change (2 ^ 32) with 4294967296 in H.
  pose proof (Z.div_mod u 65536). pose proof (Z.mod_pos_bound u 65536).
  split; [|lia]. split_and!; [lia|lia|exists (- (u / 65536)); lia|lia].
Qed.

Lemma fold_u32t_16 u : 0 <= u <= 131070 -> rep (fold_u32t u) u.
Proof.
  intros H. apply rep_intro; [|apply fold_u32t_same; width_lia].
  rewrite fold_u32t_eq by width_lia. lia.
Qed.

Lemma fold_twice u : in_width 32 u -> rep (fold_u32t (fold_u32t u)) u.
Proof.
  intros H. destruct (fold_u32t_same u H) as [Hs Hb].
  eapply rep_same; [apply fold_u32t_16|exact Hs]. destruct Hs. lia.
Qed.

Lemma bswap16_eq w : 0 <= w <= 65535 -> bswap16 w = w / 256 + 256 * (w mod 256).
Proof.
  intros H. unfold bswap16. rewrite (u16_small w) by lia.
  rewrite Z.shiftl_mul_pow2, Z.shiftr_div_pow2 by lia. change (2 ^ 8) with 256.
  assert (u16 (w * 256) = Z.shiftl (w mod 256) 8) as ->.
  { rewrite Z.shiftl_mul_pow2 by lia. unfold u16, wrap. change (2 ^ 16) with (256 * 256). change (2 ^ 8) with 256.
    rewrite Zmult_mod_distr_r. lia. }
  rewrite lor_shiftl_add; [|lia|]; change (2 ^ 8) with 256; width_lia.
Qed.

Lemma bswap16_bounds w : 0 <= w <= 65535 -> 0 <= bswap16 w <= 65535.
Proof. intros. rewrite bswap16_eq by done. lia. Qed.

Lemma bswap16_same w : 0 <= w <= 65535 -> same (bswap16 w) (256 * w).
Proof.
  intros H. rewrite bswap16_eq by done. split_and!; [lia|lia|exists (- (w / 256)); lia|lia].
Qed.

Lemma bswap16_rep x n : rep x n -> rep (bswap16 x) (256 * n).
Proof.
  intros H. pose proof H as [Hb _]. apply rep_intro; [by apply bswap16_bounds|].
  eapply same_trans; [by apply bswap16_same|]. by apply same_mul256, rep_is_same.
Qed.

Lemma bswap16_not x : 0 <= x <= 65535 -> bswap16 (65535 - x) = 65535 - bswap16 x.
Proof. intros. rewrite !bswap16_eq by lia. lia. Qed.

Lemma not_eq x : 0 <= x <= 65535 -> u16 (Z.lnot x) = 65535 - x.
Proof. intros. unfold Z.lnot, u16, wrap. change (2 ^ 16) with 65536. lia. Qed.

(** *** Data as a number *)
Fixpoint num (data : list Z) : Z := match data with [] => 0 | a :: data => a + 256 * num data end.

Lemma num_nonneg data : Forall byte data -> 0 <= num data.
Proof. induction 1 as [|a data Ha _ IH]; simpl; [done|]. unfold byte in Ha. lia. Qed.

Lemma num_app x y : num (x ++ y) = num x + 256 ^ Z.of_nat (length x) * num y.
Proof.
  induction x as [|a x IH]; cbn [num app length]; [lia|].
  rewrite IH, Nat2Z.inj_succ, Z.pow_succ_r by lia. lia.
Qed.

(** The weight of a byte behind [n] others, modulo 65535. *)
Definition shift (odd : bool) (n : Z) : Z := if odd then 256 * n else n.

Lemma shift_same b n m : same n m -> same (shift b n) (shift b m).
Proof. destruct b; [apply same_mul256|done]. Qed.

Lemma shift_twice a b n : 0 <= n -> same (shift a (shift b n)) (shift (xorb a b) n).
Proof. intros. destruct a, b; simpl; try (apply same_refl; lia). by apply same_65536. Qed.

Lemma pow_same k n : 0 <= n -> same (256 ^ Z.of_nat k * n) (shift (Nat.odd k) n).
Proof.
  intros Hn. induction k as [|k IH]; [simpl; rewrite Z.mul_1_l; by apply same_refl|].
  rewrite Nat2Z.inj_succ, Z.pow_succ_r by lia. rewrite <-Z.mul_assoc.
  eapply same_trans; [apply same_mul256, IH|]. rewrite Nat.odd_succ, <-Nat.negb_odd.
  destruct (Nat.odd k); simpl; [by apply same_65536|apply same_refl; lia].
Qed.

Lemma num_app_same x y : Forall byte x -> Forall byte y ->
  same (num (x ++ y)) (num x + shift (Nat.odd (length x)) (num y)).
Proof.
  intros Hx Hy. rewrite num_app. apply same_add.
  - by apply same_refl, num_nonneg.
  - by apply pow_same, num_nonneg.
Qed.

(** Induction in steps of a word. *)
Lemma word_ind (P : list Z -> Prop) :
  P [] -> (forall a, P [a]) -> (forall a b l, P l -> P (a :: b :: l)) -> forall l, P l.
Proof.
  intros H0 H1 H2. assert (forall l, P l /\ forall a, P (a :: l)) as H; [|apply H].
  induction l as [|a l [IH IH']]; auto.
Qed.

Lemma add_words_same ps : forall sum, Forall byte ps -> 0 <= sum ->
  2 * sum + 65535 * Z.of_nat (length ps) < 8589934592 ->
  let '(s, rest) := add_words ps sum in
  0 <= s /\ 2 * s + 65535 * Z.of_nat (length rest) <= 2 * sum + 65535 * Z.of_nat (length ps)
  /\ same (s + num rest) (sum + num ps) /\ (length rest <= 1)%nat /\ Forall byte rest.
Proof.
  induction ps as [|a|a b ps IH] using word_ind; intros sum Hps H0 Hb.
  - simpl in *. split_and!; [lia|lia|apply same_refl; lia|lia|done].
  - cbn [add_words num length] in *. pose proof (proj1 (Forall_singleton _ _) Hps) as Ha. unfold byte in Ha.
    split_and!; [lia|lia|apply same_refl; lia|lia|done].
  - rewrite !Forall_cons in Hps. destruct Hps as (Ha & Hb' & Hps). unfold byte in Ha, Hb'.
    cbn [add_words]. unfold le16. cbn [length] in *. rewrite u32_small by lia.
    specialize (IH (sum + (a + 256 * b)) Hps ltac:(lia) ltac:(lia)).
    destruct (add_words ps _) as [s rest]. destruct IH as (? & ? & Hs & ? & ?).
    split_and!; [done|lia| |done|done].
    eapply same_trans; [exact Hs|]. cbn [num].
    pose proof (num_nonneg ps Hps).
    replace (sum + (a + 256 * b) + num ps) with (sum + a + 256 * b + num ps) by lia.
    replace (sum + (a + 256 * (b + 256 * num ps))) with (sum + a + 256 * b + 256 * (256 * num ps)) by lia.
    apply same_add; [apply same_refl; lia|]. by apply same_sym, same_65536.
Qed.

(** *** The sum of a buffer *)
Lemma lwip_standard_chksum_rep odd data :
  Forall byte data -> Z.of_nat (length data) <= 131072 -> rep (lwip_standard_chksum odd data) (num data).
Proof.
  intros Hd Hl. unfold lwip_standard_chksum.
  destruct (match odd, data with true, b :: pb => (b, pb) | _, _ => (0, data) end) as [t1 pb] eqn:Epb.
  assert (Forall byte pb /\ byte t1 /\ Z.of_nat (length pb) <= 131072 /\ (t1 <> 0 -> Z.of_nat (length pb) < 131072)
    /\ same (num pb + 256 * t1) (shift odd (num data))) as (Hpb & Ht1 & Hlp & Hlt & Hs).
  { destruct odd, data as [|a data]; injection Epb as <- <-; cbn [length shift num] in Hl |- *;
      refine (conj _ (conj _ (conj _ (conj _ _)))); try done; try lia; try (by apply same_refl).
    - by inversion Hd.
    - by inversion Hd.
    - rewrite Forall_cons in Hd. destruct Hd as [Ha Hd]. pose proof (num_nonneg _ Hd). unfold byte in Ha.
      replace (256 * (a + 256 * num data)) with (256 * (256 * num data) + 256 * a) by lia.
      apply same_add; [by apply same_sym, same_65536|apply same_refl; lia].
    - rewrite Z.mul_0_r, Z.add_0_r. apply same_refl, (num_nonneg (a :: data) Hd). }
  unfold byte in Ht1.
  pose proof (add_words_same pb 0 Hpb ltac:(lia) ltac:(lia)) as Hw.
  destruct (add_words pb 0) as [s rest]. destruct Hw as (Hs0 & Hsb & Hsame & Hr & Hrest).
  set (t0 := match rest with b :: _ => b | [] => 0 end).
  assert (0 <= t0 < 256 /\ num rest = t0 /\ 2 * t0 <= 65535 * Z.of_nat (length rest)) as (Ht0 & Hnum & Ht0').
  { unfold t0. destruct rest as [|b [|? ?]]; [simpl; lia| |simpl in Hr; lia].
    pose proof (proj1 (Forall_singleton _ _) Hrest) as Hb. unfold byte in Hb. cbn [num length]. lia. }
  unfold le16. rewrite u32_small by (destruct (decide (t1 = 0)); [|specialize (Hlt ltac:(done))]; lia).
  assert (Hsum : same (s + (t0 + 256 * t1)) (shift odd (num data))).
  { eapply same_trans; [|exact Hs]. replace (s + (t0 + 256 * t1)) with ((s + num rest) + 256 * t1) by lia.
    apply same_add; [exact Hsame|apply same_refl; lia]. }
  assert (Hf : rep (fold_u32t (fold_u32t (s + (t0 + 256 * t1)))) (shift odd (num data))).
  { eapply rep_same; [|exact Hsum]. apply fold_twice.
    split; [lia|]. change (2 ^ 32) with 4294967296. destruct (decide (t1 = 0)); [|specialize (Hlt ltac:(done))]; lia. }
  pose proof (num_nonneg data Hd) as Hn.
  destruct odd; simpl in Hf.
  - apply bswap16_rep in Hf. pose proof Hf as [Hb _]. rewrite u16_small by lia.
    eapply rep_same; [exact Hf|]. by apply same_65536.
  - pose proof Hf as [Hb _]. by rewrite u16_small by lia.
Qed.

Lemma words_bounds data : Forall byte data -> Forall (fun w => 0 <= w <= 65535) (Rfc1071.words data).
Proof.
  induction data as [|a|a b data IH] using word_ind; intros Hd; cbn [Rfc1071.words]; [constructor| |].
  - pose proof (proj1 (Forall_singleton _ _) Hd) as Ha. unfold byte in Ha. constructor; [lia|constructor].
  - rewrite !Forall_cons in Hd. destruct Hd as (Ha & Hb & Hd). unfold byte in Ha, Hb.
    constructor; [lia|by apply IH].
Qed.

Lemma rfc_fold_rep ws : forall x n, Forall (fun w => 0 <= w <= 65535) ws -> rep x n ->
  rep (fold_left Rfc1071.add ws x) (n + foldr Z.add 0 ws).
Proof.
  induction ws as [|w ws IH]; intros x n Hws Hx; simpl; [by rewrite Z.add_0_r|].
  rewrite Forall_cons in Hws. destruct Hws as [Hw Hws]. rewrite Z.add_assoc. apply IH; [done|].
  destruct Hx as (Hb & Hn & [k Hk] & Hz). unfold Rfc1071.add.
  destruct (Z.ltb_spec (x + w) 65536).
  - apply rep_intro; [lia|]. split_and!; [lia|lia|exists k; lia|lia].
  - apply rep_intro; [lia|]. split_and!; [lia|lia|exists (k - 1); lia|lia].
Qed.

Lemma words_sum_same data : Forall byte data -> same (foldr Z.add 0 (Rfc1071.words data)) (256 * num data).
Proof.
  induction data as [|a|a b data IH] using word_ind; intros Hd; cbn [Rfc1071.words num].
  - by apply same_refl.
  - pose proof (proj1 (Forall_singleton _ _) Hd) as Ha. unfold byte in Ha. cbn.
    rewrite !Z.add_0_r. apply same_refl. lia.
  - rewrite !Forall_cons in Hd. destruct Hd as (Ha & Hb & Hd). unfold byte in Ha, Hb.
    specialize (IH Hd). pose proof (num_nonneg data Hd).
    change (foldr Z.add 0 (256 * a + b :: Rfc1071.words data))
      with (256 * a + b + foldr Z.add 0 (Rfc1071.words data)).
    replace (256 * (a + 256 * (b + 256 * num data))) with (256 * a + (256 * (256 * b) + 256 * (256 * (256 * num data)))) by lia.
    rewrite <-Z.add_assoc. apply same_add; [apply same_refl; lia|].
    apply same_add; [apply same_sym, same_65536; lia|].
    eapply same_trans; [exact IH|]. apply same_sym, same_65536. lia.
Qed.

Lemma rfc_sum_rep data : Forall byte data -> rep (Rfc1071.sum data) (256 * num data).
Proof.
  intros Hd. eapply rep_same; [|by apply words_sum_same].
  apply (rfc_fold_rep (Rfc1071.words data) 0 0); [by apply words_bounds|].
  apply rep_intro; [lia|by apply same_refl].
Qed.

(** A folded sum of the data, complemented and stored, is the checksum. *)
Lemma complement_is_checksum x data :
  Forall byte data -> rep x (num data) -> bswap16 (u16 (Z.lnot x)) = Rfc1071.checksum data.
Proof.
  intros Hd Hx. pose proof Hx as [Hb _]. rewrite not_eq by done. rewrite bswap16_not by done.
  unfold Rfc1071.checksum. f_equal. eapply rep_unique; [by apply bswap16_rep|by apply rfc_sum_rep].
Qed.

(** Zeros behind the data change nothing. *)
Lemma checksum_zeros data zeros : Forall byte data -> Forall (eq 0) zeros -> Rfc1071.checksum (data ++ zeros) = Rfc1071.checksum data.
Proof.
  intros Hd Hz. assert (num zeros = 0 /\ Forall byte zeros) as [En Hb].
  { induction Hz as [|z zeros <- _ [IH1 IH2]]; [done|]. split; [cbn; lia|by constructor]. }
  unfold Rfc1071.checksum. f_equal. eapply rep_unique; [apply rfc_sum_rep, Forall_app; by split|].
  rewrite num_app, En, Z.mul_0_r, Z.add_0_r. by apply rfc_sum_rep.
Qed.

(** *** Storing a checksum *)
Lemma bytes_of_word c : 0 <= c <= 65535 -> 0 <= c mod 256 < 256 /\ 0 <= c / 256 < 256.
Proof. lia. Qed.

Lemma bswap16_zero w : 0 <= w <= 65535 -> bswap16 w = 0 -> w = 0.
Proof. intros H. rewrite bswap16_eq by done. lia. Qed.

(** Data with its checksum in place of a word that was zero has checksum zero. *)
Lemma store_checksum before after c :
  Forall byte before -> Forall byte after -> Nat.odd (length before) = false -> 0 <= c <= 65535 ->
  bswap16 c = Rfc1071.checksum (before ++ [0; 0] ++ after) ->
  Rfc1071.checksum (before ++ [c mod 256; c / 256] ++ after) = 0.
Proof.
  intros Hb Ha He Hc Hs. pose proof (bytes_of_word c Hc) as [Hlo Hhi].
  assert (H0 : Forall byte (before ++ [0; 0] ++ after)) by (apply Forall_app_2; [done|]; by repeat apply Forall_cons_2).
  assert (H1 : Forall byte (before ++ [c mod 256; c / 256] ++ after))
    by (apply Forall_app_2; [done|]; by repeat apply Forall_cons_2).
  pose proof (rfc_sum_rep _ H0) as R0. pose proof (rfc_sum_rep _ H1) as R1.
  unfold Rfc1071.checksum in *.
  assert (num (before ++ [c mod 256; c / 256] ++ after)
    = num (before ++ [0; 0] ++ after) + 256 ^ Z.of_nat (length before) * c) as E.
  { rewrite !(num_app before). cbn [num app].
    replace (c mod 256 + 256 * (c / 256 + 256 * num after)) with (c + 256 * (256 * num after)) by lia. ring. }
  pose proof (pow_same (length before) c ltac:(lia)) as Hp. rewrite He in Hp. simpl in Hp.
  enough (Rfc1071.sum (before ++ [c mod 256; c / 256] ++ after) = 65535) by lia.
  eapply rep_unique; [exact R1|]. rewrite E, Z.mul_add_distr_l.
  eapply rep_same; [apply (rep_intro 65535 65535); [lia|by apply same_refl]|].
  replace 65535 with (Rfc1071.sum (before ++ [0; 0] ++ after) + bswap16 c) by lia.
  apply same_add; [by apply rep_is_same|].
  eapply same_trans; [by apply bswap16_same|]. by apply same_mul256, same_sym.
Qed.

(** *** The sum of a chain *)
Definition payload (p : list segment) (boff : Z) : list Z :=
  match p with [] => [] | q :: next => mtod_data q boff ++ concat (map seg_data next) end.

(** What DPDK guarantees of a segment: its length is a [uint16_t]. *)
Definition valid_segment (q : segment) : Prop := Forall byte (seg_data q) /\ data_len q <= 65535.

Lemma mtod_valid q boff : valid_segment q -> 0 <= boff <= data_len q ->
  Forall byte (mtod_data q boff) /\ Z.of_nat (length (mtod_data q boff)) = data_len q - boff.
Proof.
  intros [Hq _] Hb. unfold mtod_data. split; [by apply Forall_drop|].
  rewrite length_drop. unfold data_len in *. lia.
Qed.

Lemma payload_cons q next boff :
  0 <= boff -> payload (q :: next) boff = mtod_data q boff ++ payload next 0.
Proof. intros. simpl. f_equal. destruct next; [done|]. simpl. f_equal. Qed.

Lemma shift_add b n m : shift b (n + m) = shift b n + shift b m.
Proof. destruct b; simpl; lia. Qed.

Lemma odd_of_nat n : Z.odd (Z.of_nat n) = Nat.odd n.
Proof.
  induction n as [|n IH]; [done|]. rewrite Nat2Z.inj_succ, Z.odd_succ, Nat.odd_succ.
  by rewrite <-Z.negb_odd, <-Nat.negb_odd, IH.
Qed.

(** One more buffer [d] behind the bytes [done_] already summed. *)
Lemma sum_step acc x done_ d :
  Forall byte done_ -> Forall byte d ->
  rep acc (shift (Nat.odd (length done_)) (num done_)) -> rep x (num d) ->
  rep (fold_u32t (u32 (acc + x))) (shift (Nat.odd (length done_)) (num (done_ ++ d))).
Proof.
  intros Hp Hd Ha Hx. pose proof Ha as [Hab _]. pose proof Hx as [Hxb _].
  rewrite u32_small by lia. eapply rep_same; [apply fold_u32t_16; lia|].
  pose proof (num_nonneg _ Hd).
  eapply same_trans; [|apply shift_same, same_sym, num_app_same; done]. rewrite shift_add.
  apply same_add; [by apply rep_is_same|].
  eapply same_trans; [by apply rep_is_same|]. apply same_sym.
  eapply same_trans; [by apply shift_twice|]. destruct (Nat.odd _); by apply same_refl.
Qed.

Lemma sum_chain_rep p : forall boff acc done_,
  Forall valid_segment p -> 0 <= boff -> match p with q :: _ => boff <= data_len q | [] => True end ->
  Forall byte done_ -> rep acc (shift (Nat.odd (length done_)) (num done_)) ->
  let '(acc', swapped) := sum_chain p boff acc (Nat.odd (length done_)) in
  let all := done_ ++ payload p boff in
  swapped = Nat.odd (length all) /\ Forall byte all /\ rep acc' (shift swapped (num all)).
Proof.
  induction p as [|q next IH]; intros boff acc done_ Hp Hb Hq Hd Ha.
  - simpl. by rewrite app_nil_r.
  - rewrite Forall_cons in Hp. destruct Hp as [Hvq Hnext]. pose proof Hvq as [_ Hlq].
    destruct (mtod_valid q boff Hvq ltac:(lia)) as [Hm Hml].
    rewrite payload_cons by done. cbn [sum_chain]. rewrite app_assoc.
    pose proof (lwip_standard_chksum_rep (mtod_odd q boff) _ Hm ltac:(lia)) as Hx.
    pose proof (sum_step _ _ done_ _ Hd Hm Ha Hx) as Hs.
    assert (Nat.odd (length (done_ ++ mtod_data q boff))
      = xorb (Nat.odd (length done_)) (Z.odd (data_len q - boff))) as Ho.
    { rewrite length_app, Nat.odd_add, <-Hml. f_equal. symmetry. apply odd_of_nat. }
    assert (match next with q :: _ => 0 <= data_len q | [] => True end) as Hn.
    { destruct next; [done|]. unfold data_len. lia. }
    assert (Hall : Forall byte (done_ ++ mtod_data q boff)) by (by apply Forall_app_2).
    pose proof (num_nonneg _ Hall).
    destruct (Z.odd (data_len q - boff)).
    + rewrite xorb_true_r in Ho. rewrite <-Ho. apply IH; try done.
      eapply rep_same; [by apply bswap16_rep|]. rewrite Ho.
      change (256 * ?z) with (shift true z). eapply same_trans; [by apply shift_twice|].
      by apply same_refl; destruct (Nat.odd (length done_)); simpl; lia.
    + rewrite xorb_false_r in Ho. rewrite <-Ho. apply IH; try done. by rewrite Ho.
Qed.

(** *** The pseudo header *)
Lemma bytes32_bytes v : Forall byte (Rfc1071.bytes32 v).
Proof. unfold Rfc1071.bytes32. repeat constructor; lia. Qed.

Lemma bytes32_num v : in_width 32 v -> num (Rfc1071.bytes32 v) = v.
Proof. intros H. unfold in_width in H. change (2 ^ 32) with 4294967296 in H. cbn [num Rfc1071.bytes32]. lia. Qed.

Lemma word_halves v : in_width 32 v -> same (u16 v + u16 (v / 65536)) v.
Proof.
  intros H. unfold in_width in H. change (2 ^ 32) with 4294967296 in H.
  rewrite (u16_small (v / 65536)) by lia. unfold u16, wrap. change (2 ^ 16) with 65536.
  split_and!; [lia|lia|exists (- (v / 65536)); lia|lia].
Qed.

Lemma pseudo_header_bytes src dest proto len :
  byte proto -> in_width 16 len -> Forall byte (Rfc1071.pseudo_header src dest proto len).
Proof.
  intros Hp Hl. unfold Rfc1071.pseudo_header. unfold in_width in Hl. change (2 ^ 16) with 65536 in Hl.
  repeat (apply Forall_app_2; [apply bytes32_bytes|]). repeat apply Forall_cons_2; try done; unfold byte; lia.
Qed.

Lemma pseudo_header_num src dest proto len :
  in_width 32 src -> in_width 32 dest -> byte proto -> in_width 16 len ->
  same (num (Rfc1071.pseudo_header src dest proto len))
       (u16 src + u16 (src / 65536) + (u16 dest + u16 (dest / 65536)) + (bswap16 proto + bswap16 len)).
Proof.
  intros Hs Hd Hp Hl. unfold Rfc1071.pseudo_header.
  rewrite !num_app, !bytes32_num by done. pose proof (word_halves src Hs) as Es. pose proof (word_halves dest Hd) as Ed.
  unfold byte in Hp. unfold in_width in *. change (2 ^ 32) with 4294967296 in *. change (2 ^ 16) with 65536 in *.
  assert (num [0; proto; len / 256; len mod 256] = 256 * proto + 65536 * bswap16 len) as ->.
  { rewrite bswap16_eq by lia. cbn [num]. lia. }
  rewrite (bswap16_eq proto) by lia. pose proof (bswap16_bounds len ltac:(lia)).
  rewrite Z.mul_add_distr_l, Z.add_assoc.
  change (Z.of_nat (length (Rfc1071.bytes32 src))) with (Z.of_nat 4).
  change (Z.of_nat (length (Rfc1071.bytes32 dest))) with (Z.of_nat 4).
  apply same_add; [apply same_add; [by apply same_sym|]|].
  - eapply same_trans; [apply pow_same; lia|]. by apply same_sym.
  - eapply same_trans; [apply pow_same; apply Z.mul_nonneg_nonneg; lia|]. simpl shift.
    eapply same_trans; [apply pow_same; lia|]. simpl shift.
    apply same_add; [rewrite Z.div_small, Z.mod_small by lia; apply same_refl; lia|].
    replace (65536 * bswap16 len) with (256 * (256 * bswap16 len)) by lia. apply same_65536. lia.
Qed.

Lemma chksum_correct odd data : Forall byte data -> Z.of_nat (length data) <= 131072 ->
  bswap16 (inet_chksum odd data) = Rfc1071.checksum data.
Proof. intros Hd Hl. apply complement_is_checksum; [done|]. by apply lwip_standard_chksum_rep. Qed.

Lemma chksum_pseudo_correct (p : list segment) (boff src dest proto len : Z) :
  Forall valid_segment p -> 0 <= boff -> match p with q :: _ => boff <= data_len q | [] => True end ->
  in_width 32 src -> in_width 32 dest -> byte proto -> in_width 16 len ->
  bswap16 (inet_chksum_pseudo p boff src dest proto len)
  = Rfc1071.checksum (Rfc1071.pseudo_header src dest proto len ++ payload p boff).
Proof.
  intros Hp Hb Hq Hsrc Hdst Hproto Hlen. unfold inet_chksum_pseudo.
  pose proof (sum_chain_rep p boff 0 [] Hp Hb Hq (Forall_nil_2 _)
    ltac:(apply rep_intro; [lia|by apply same_refl])) as H.
  change (Nat.odd (@length Z [])) with false in H.
  destruct (sum_chain p boff 0 false) as [acc sw]. destruct H as (_ & Hpl & Hr).
  set (a := if sw then bswap16 acc else acc).
  assert (rep a (num (payload p boff))) as Ha.
  { unfold a. destruct sw; simpl in Hr; [|done]. eapply rep_same; [by apply bswap16_rep|].
    by apply same_65536, num_nonneg. }
  pose proof Ha as [Hab _]. unfold byte in Hproto. unfold in_width in *.
  change (2 ^ 32) with 4294967296 in *. change (2 ^ 16) with 65536 in *.
  rewrite !land_65535, !Z.shiftr_div_pow2 by lia. change (2 ^ 16) with 65536.
  pose proof (bswap16_bounds proto ltac:(lia)). pose proof (bswap16_bounds len ltac:(lia)).
  pose proof (u16_bounds src). pose proof (u16_bounds dest).
  pose proof (u16_bounds (src / 65536)). pose proof (u16_bounds (dest / 65536)).
  rewrite (u32_small (a + u16 src)) by lia.
  rewrite (u32_small (_ + u16 (src / 65536))) by lia. rewrite (u32_small (_ + u16 dest)) by lia.
  rewrite (u32_small (_ + u16 (dest / 65536))) by lia. rewrite (u32_small (_ + bswap16 proto)) by lia.
  rewrite (u32_small (_ + bswap16 len)) by lia.
  set (total := a + _ + _ + _ + _ + _ + _).
  assert (0 <= total < 4294967296) as Ht by (unfold total; lia).
  pose proof (fold_twice total Ht) as Hf.
  pose proof Hf as [Hfb _]. rewrite (u16_small (fold_u32t _)) by lia.
  apply complement_is_checksum.
  - apply Forall_app_2; [|done]. by apply pseudo_header_bytes.
  - eapply rep_same; [exact Hf|]. apply same_sym.
    assert (Forall byte (Rfc1071.pseudo_header src dest proto len)) as Hh by (by apply pseudo_header_bytes).
    eapply same_trans; [by apply num_app_same|]. simpl shift.
    eapply same_trans; [apply same_add; [by apply pseudo_header_num|apply same_sym, rep_is_same, Ha]|].
    match goal with |- same ?x _ => replace total with x by (unfold total; lia) end. apply same_refl. lia.
Qed.
(** Three rounds end the loop [while (acc >> 16)] of the IPv6 sum: its condition
    is false for the result, which is congruent to the sum. *)
Lemma fold_all_ends acc : in_width 32 acc -> Z.shiftr (fold_all 3 acc) 16 = 0 /\ same (fold_all 3 acc) acc.
Proof.
  assert (forall n a, fold_all (S n) a = if Z.shiftr a 16 =? 0 then a else fold_all n (fold_u32t a)) as E.
  { intros. cbn [fold_all]. unfold fold_u32t. by rewrite (Z.add_comm (Z.land a 65535)). }
  intros Hw. destruct (fold_u32t_same acc Hw) as [Hs Hb].
  rewrite !E. destruct (Z.shiftr acc 16 =? 0) eqn:E1; [apply Z.eqb_eq in E1; split; [done|apply same_refl; width_lia]|].
  assert (0 <= fold_u32t acc) as H0 by apply u32_bounds.
  destruct (Z.shiftr (fold_u32t acc) 16 =? 0) eqn:E2; [by apply Z.eqb_eq in E2|].
  destruct (fold_u32t_16 (fold_u32t acc)) as [Hr1 Hr2]; [lia|].
  assert (Z.shiftr (fold_u32t (fold_u32t acc)) 16 = 0) as E3
    by (rewrite Z.shiftr_div_pow2 by done; apply Z.div_small; width_lia).
  rewrite E3. cbn [Z.eqb]. split; [done|].
  eapply same_trans; [|exact Hs]. apply rep_is_same. by split.
Qed.
End ChksumFacts.

(** ** Properties *)
Section Properties.
Import Chksum ChksumFacts.

(** C10. [inet_chksum], stored as it is, is the Internet checksum of RFC 1071 in
    network byte order, whatever the alignment of the buffer, for every length
    up to the 0x20000 bytes that its comment promises. *)
Theorem inet_chksum_is_rfc1071 (odd : bool) (data : list Z) :
  Forall byte data -> Z.of_nat (length data) <= 131072 ->
  bswap16 (inet_chksum odd data) = Rfc1071.checksum data.
Proof. apply chksum_correct. Qed.

(** A header whose checksum field was zero when [inet_chksum] ran, and holds
    its result now, passes the receiver's check: its own checksum is zero. *)
Theorem stored_checksum_verifies (odd odd' : bool) (before after : list Z) :
  Forall byte (before ++ after) -> Nat.odd (length before) = false ->
  Z.of_nat (length before + length after) <= 131070 ->
  let c := inet_chksum odd (before ++ [0; 0] ++ after) in
  inet_chksum odd' (before ++ [c mod 256; c / 256] ++ after) = 0.
Proof.
  intros Hd He Hl c. apply Forall_app in Hd as [Hd1 Hd2].
  assert (0 <= c <= 65535) as Hc by (pose proof (u16_bounds (Z.lnot (lwip_standard_chksum odd (before ++ [0; 0] ++ after))));
    unfold c, inet_chksum; lia).
  assert (forall x y, 0 <= x < 256 -> 0 <= y < 256 -> Forall byte (before ++ [x; y] ++ after)) as Hb
    by (intros; apply Forall_app_2; [done|]; by repeat apply Forall_cons_2).
  assert (forall o x y, 0 <= x < 256 -> 0 <= y < 256 ->
    bswap16 (inet_chksum o (before ++ [x; y] ++ after)) = Rfc1071.checksum (before ++ [x; y] ++ after)) as Hr.
  { intros o x y Hx Hy. apply chksum_correct; [by apply Hb|]. rewrite !length_app. simpl length. lia. }
  pose proof (bytes_of_word c Hc) as [Hlo Hhi]. apply bswap16_zero.
  - pose proof (u16_bounds (Z.lnot (lwip_standard_chksum odd' (before ++ [c mod 256; c / 256] ++ after)))).
    unfold inet_chksum. lia.
  - rewrite (Hr odd') by done. apply store_checksum; try done. by apply Hr.
Qed.

(** C11. [inet_chksum_pseudo] is the TCP and UDP checksum over the IPv4 pseudo
    header and the packet's bytes behind [boff], however the packet is cut into
    segments and wherever these lie in memory. *)
Theorem inet_chksum_pseudo_is_rfc1071 (p : list segment) (boff src dest proto len : Z) :
  Forall valid_segment p -> 0 <= boff -> match p with q :: _ => boff <= data_len q | [] => True end ->
  in_width 32 src -> in_width 32 dest -> byte proto -> in_width 16 len ->
  bswap16 (inet_chksum_pseudo p boff src dest proto len)
  = Rfc1071.checksum (Rfc1071.pseudo_header src dest proto len ++ payload p boff).
Proof. apply chksum_pseudo_correct. Qed.

(** The IPv6 variant disagrees with the specification on a payload of odd length,
    [chksum] counting its first byte instead of its last, and on the length,
    which it adds in host byte order. *)
Example chksum_odd_byte : chksum [1; 0; 2] = 2 /\ lwip_standard_chksum false [1; 0; 2] = 3.
Proof. by vm_compute. Qed.

Example inet6_length_in_host_order :
  inet6_chksum_pseudo [{| seg_odd := false; seg_data := [] |}] 0 (repeat 0 8) (repeat 0 8) 6 20
  <> inet_chksum false ([0; 0; 0; 20] ++ [0; 0; 0; 6]).
Proof. by vm_compute. Qed.
End Properties.

(** ** Witnesses *)
Section Witnesses.
Import Chksum ChksumFacts.

(** An IPv4 header, and a TCP segment in two pieces of odd length. *)
Definition sample_header : list Z := [69; 0; 0; 60; 28; 70; 64; 0; 64; 6].
Definition sample_addresses : list Z := [172; 16; 10; 99; 172; 16; 10; 12].

Lemma inet_chksum_is_rfc1071_witness :
  bswap16 (inet_chksum true (sample_header ++ [0; 0] ++ sample_addresses))
  = Rfc1071.checksum (sample_header ++ [0; 0] ++ sample_addresses).
Proof.
  apply (inet_chksum_is_rfc1071 true (sample_header ++ [0; 0] ++ sample_addresses)).
  - repeat constructor; discriminate.
  - vm_compute. discriminate.
Defined.

Lemma stored_checksum_verifies_witness :
  let c := inet_chksum false (sample_header ++ [0; 0] ++ sample_addresses) in
  inet_chksum true (sample_header ++ [c mod 256; c / 256] ++ sample_addresses) = 0.
Proof.
  apply (stored_checksum_verifies false true sample_header sample_addresses).
  - repeat constructor; discriminate.
  - reflexivity.
  - vm_compute. discriminate.
Defined.

Definition sample_chain : list segment :=
  [{| seg_odd := false; seg_data := [9; 9; 0; 80; 1] |}; {| seg_odd := true; seg_data := [2; 3; 4] |}].

Lemma inet_chksum_pseudo_is_rfc1071_witness :
  bswap16 (inet_chksum_pseudo sample_chain 2 1678381228 201330860 6 6)
  = Rfc1071.checksum (Rfc1071.pseudo_header 1678381228 201330860 6 6 ++ [0; 80; 1; 2; 3; 4]).
Proof.
  apply (inet_chksum_pseudo_is_rfc1071 sample_chain 2 1678381228 201330860 6 6).
  - repeat constructor; discriminate.
  - discriminate.
  - discriminate.
  - split; [discriminate|reflexivity].
  - split; [discriminate|reflexivity].
  - split; [discriminate|reflexivity].
  - split; [discriminate|reflexivity].
Defined.
End Witnesses.
