(* ===== verification/Tuple5.v ===== *)
(** * Connections and their ports

    Models [alpha/al_session.h] (the session record and its keys) and
    [alpha/al_tuple5.c]: the tables that tell which thread owns a connection and
    which local ports are taken, and the allocation of local ports for
    translated connections. The hash tables keep the lists of their buckets;
    locks are left out, each operation being one critical section. The mempool
    is the number of objects left in it. [al_filter4_search] and
    [al_filter6_search] are arguments: what they answer for an address, a port
    and a protocol, zero for a match. *)

From Stdlib Require Import ZArith Lia Bool.
From stdpp Require Import base tactics option gmap list.
From S2P Require Import Prelude.

Open Scope Z_scope.

(** ** [session_t] *)
Module Session_t.
Definition ptr := nat.

Record t := mk {
  stype : Z; is_ups : bool; port_alloc : bool; proto : Z; is_dr : bool; ftype : Z;
  in_type : bool;                    (* set for IPv6 *)
  portid : Z; stout : Z;
  up : ptr;
  local_addr : Z; remote_addr : Z;   (* the union [ipcs_t], as its 128 bits *)
  local_port : Z; remote_port : Z;
  to_haddr : list Z; from_haddr : list Z;
  fid : Z; mid : Z }.

Definition SESSION_NORMAL : Z := 1.
Definition SESSION_IDLE_TIMEOUT : Z := 300.

(** Members of the union [ipcs_t]. *)
Definition address4 (a : Z) : Z := u32 a.
Definition address6 (a : Z) : Z := a.
Definition set_address4 (v a : Z) : Z := a - u32 a + u32 v.

Definition pcb4_key (rip rport lip lport proto mask : Z) : Z :=
  let rkey := Z.lxor rip (Z.shiftr rip 16) in
  let lkey := Z.lxor lip (Z.shiftr lip 16) in
  Z.land (Z.lxor (Z.lxor (Z.lxor rkey lkey) (Z.lxor lport rport)) proto) mask.

Definition pcb6_key (rip rport lip lport proto mask : Z) : Z :=
  let rkey := Z.lxor rip lip in
  pcb4_key (u32 rkey) rport (u32 (Z.shiftr rkey 32)) lport proto mask.
End Session_t.

(** ** The tables *)
Module Tuple5.
Import Session_t.

Definition TCP_LOCAL_PORT_RANGE_START : Z := 1.
Definition TCP_LOCAL_PORT_RANGE_END : Z := 60000.
Definition MAX_PORT_COUNTER : Z := 65536.

Record port_t := mk_port { rip : Z; lip : Z; rport : Z; lport : Z; proto_type : Z; thread_id : Z }.

Abbreviation table := (gmap Z (list port_t)).

Record state := mk {
  port_table_v4 : table; port_table_v6 : table; port_start : Z; port_mem_pool : Z }.

Definition port_mask : Z := MAX_PORT_COUNTER - 1.

(** [TCP_ENSURE_LOCAL_PORT_RANGE] of a [rand()] cut to sixteen bits *)
Definition port_init (rand : Z) : state :=
  mk ∅ ∅ (u16 (Z.land (u16 rand) (Z.lnot TCP_LOCAL_PORT_RANGE_START) + TCP_LOCAL_PORT_RANGE_START))
    MAX_PORT_COUNTER.

Definition connect_session_key_v4 (rip rport lip lport proto mask : Z) : Z :=
  Z.land (Z.lor (Z.lor (Z.lxor rip lip) (Z.lxor rport lport)) proto) mask.

Definition connect_session_key_v6 (rip rport lip lport proto mask : Z) : Z :=
  let key := Z.lor (Z.lor (Z.lxor rip lip) (Z.lxor rport lport)) proto in
  Z.land (Z.lxor (Z.land key 4294967295) (Z.shiftr key 32)) mask.

(** The two families share their code; [v6] says which table is meant. *)
Definition key_of (v6 : bool) : Z -> Z -> Z -> Z -> Z -> Z -> Z :=
  if v6 then connect_session_key_v6 else connect_session_key_v4.
Definition get_table (v6 : bool) (s : state) : table := if v6 then port_table_v6 s else port_table_v4 s.
Definition set_table (v6 : bool) (t : table) (s : state) : state :=
  if v6 then s <| port_table_v6 := t |> else s <| port_table_v4 := t |>.
Definition bucket (t : table) (key : Z) : list port_t := default [] (t !! key).

Definition same_tuple (r l rp lp p : Z) (pos : port_t) : bool :=
  (rip pos =? r) && (lip pos =? l) && (rport pos =? rp) && (lport pos =? lp) && (proto_type pos =? p).

Section Ports.
Context (g_lcoreid : Z).
Context (al_filter4_search al_filter6_search : Z -> Z -> Z -> Z).

(** The result of [rte_mempool_get] is not looked at: from an empty pool the
    pointer is never set. *)
Definition port_create : st state unit := fun s =>
  if 0 <? port_mem_pool s then (ok tt, s <| port_mem_pool := port_mem_pool s - 1 |>) else (err Undef, s).

Definition al_port_insert_ (v6 : bool) (r l rp lp p : Z) : st state Z :=
  do _ <- port_create ;;
  let key := key_of v6 r rp l lp p port_mask in
  do _ <- st_modify (fun s =>
    let t := get_table v6 s in
    set_table v6 (<[key := mk_port r l rp lp p g_lcoreid :: bucket t key]> t) s) ;;
  st_ret 0.
Definition al_port_insert_v4 := al_port_insert_ false.
Definition al_port_insert_v6 := al_port_insert_ true.

(** [hlist_for_each_entry] with [hlist_del] and [break] *)
Fixpoint delete_first (P : port_t -> bool) (l : list port_t) : option (list port_t) :=
  match l with
  | [] => None
  | pos :: l => if P pos then Some l else cons pos <$> delete_first P l
  end.

Definition al_port_del_ (v6 : bool) (r l rp lp p : Z) : st state Z := fun s =>
  let t := get_table v6 s in
  let key := key_of v6 r rp l lp p port_mask in
  match delete_first (same_tuple r l rp lp p) (bucket t key) with
  | Some rest => (ok 1, set_table v6 (<[key := rest]> t) s <| port_mem_pool := port_mem_pool s + 1 |>)
  | None => (ok 0, s)
  end.
Definition al_port_del_v4 := al_port_del_ false.
Definition al_port_del_v6 := al_port_del_ true.

Definition which_thread (v6 : bool) (r l rp lp p : Z) (s : state) : Z :=
  let key := key_of v6 r rp l lp p port_mask in
  match List.find (same_tuple r l rp lp p) (bucket (get_table v6 s) key) with
  | Some pos => thread_id pos
  | None => -1
  end.
Definition which_thread_v4 := which_thread false.
Definition which_thread_v6 := which_thread true.

(** A zero address stands for any. *)
Definition conflicts (r l rp lp p : Z) (pos : port_t) : bool :=
  (lport pos =? lp) && ((rip pos =? r) || (r =? 0)) && ((lip pos =? l) || (l =? 0))
  && (rport pos =? rp) && (proto_type pos =? p).

Definition is_connect_port_already_used (v6 : bool) (r l rp lp p : Z) (s : state) : bool :=
  let key := key_of v6 r rp l lp p port_mask in
  existsb (conflicts r l rp lp p) (bucket (get_table v6 s) key).

(** *** The callers' view: a session *)
Definition al_port_insert (u : t) : st state Z :=
  if negb (in_type u)
  then al_port_insert_v4 (address4 (remote_addr u)) (address4 (local_addr u)) (remote_port u) (local_port u) (proto u)
  else al_port_insert_v6 (address6 (remote_addr u)) (address6 (local_addr u)) (remote_port u) (local_port u) (proto u).

(** For IPv6 it inserts. Only [-1] counts as a failure. *)
Definition al_port_del (u : t) : st state Z :=
  do rc <- (if negb (in_type u)
    then al_port_del_v4 (address4 (remote_addr u)) (address4 (local_addr u)) (remote_port u) (local_port u) (proto u)
    else al_port_insert_v6 (address6 (remote_addr u)) (address6 (local_addr u)) (remote_port u) (local_port u) (proto u)) ;;
  st_ret (if rc =? -1 then -1 else 0).

(** Also returns the session, whose [port_alloc] it sets. For IPv6 it keys the
    table by the IPv4 members of the addresses. *)
Definition al_new_port_with_session (s : t) : st state (Z * t) :=
  let v6 := in_type s in
  let filtered := if v6 then al_filter6_search (address6 (local_addr s)) (local_port s) (proto s)
                  else al_filter4_search (address4 (local_addr s)) (local_port s) (proto s) in
  if filtered =? 0 then st_ret (-1, s) else
  do ps <- st_get ;;
  let r := address4 (remote_addr s) in
  let l := address4 (local_addr s) in
  if is_connect_port_already_used v6 r l (remote_port s) (local_port s) (proto s) ps then st_ret (-1, s) else
  do rc <- al_port_insert_ v6 r l (remote_port s) (local_port s) (proto s) ;;
  if rc =? -1 then st_ret (-1, s) else st_ret (0, s <| port_alloc := true |>).

(** [rte_cpu_to_be_16] *)
Definition cpu_to_be_16 (v : Z) : Z := v / 256 mod 256 + 256 * (v mod 256).

(** [if (port_start++ == TCP_LOCAL_PORT_RANGE_END) port_start = TCP_LOCAL_PORT_RANGE_START] *)
Definition next_port (p : Z) : Z :=
  if p =? TCP_LOCAL_PORT_RANGE_END then TCP_LOCAL_PORT_RANGE_START else u16 (p + 1).

(** Whether the port just drawn is refused: by a filter, or as in use. For
    IPv6 the filter is [al_filter4_search], whose parameter cuts the address
    to 32 bits. *)
Definition refused (s : t) (lp : Z) (ps : state) : bool :=
  (al_filter4_search (u32 (local_addr s)) lp (proto s) =? 0)
  || (if in_type s
      then is_connect_port_already_used true (address6 (remote_addr s)) (address6 (local_addr s)) (remote_port s) lp (proto s) ps
      else is_connect_port_already_used false (address4 (remote_addr s)) (address4 (local_addr s)) (remote_port s) lp (proto s) ps).

(** The label [again]: [n] counts the ports refused; [fuel] bounds the rounds,
    which [++n <= END - START] does. *)
Fixpoint draw_port (fuel : nat) (s : t) (n : Z) (ps : state) : option Z * state :=
  match fuel with
  | O => (None, ps)
  | S fuel =>
      let ps := ps <| port_start := next_port (port_start ps) |> in
      let lp := cpu_to_be_16 (port_start ps) in
      if refused s lp ps then
        let n := u16 (n + 1) in
        if n <=? TCP_LOCAL_PORT_RANGE_END - TCP_LOCAL_PORT_RANGE_START then draw_port fuel s n ps
        else (None, ps)
      else (Some lp, ps)
  end.

Definition al_alocate_new_port_with_session (s : t) : st state (Z * t) := fun ps =>
  match draw_port (Z.to_nat TCP_LOCAL_PORT_RANGE_END) s 0 ps with
  | (None, ps) => (ok (-1, s), ps)
  | (Some lp, ps) =>
      let s := s <| local_port := lp |> in
      (do rc <- al_port_insert s ;; st_ret (if rc =? -1 then -1 else 0, s)) ps
  end.
End Ports.
End Tuple5.

(** ** Lemmas *)
Module Tuple5Facts.
Import Session_t Tuple5.

(** A connection as its remote and local ends; what the tables say of it: the
    threads that registered it, the last one first. *)
Record tuple := { t_rip : Z; t_lip : Z; t_rport : Z; t_lport : Z; t_proto : Z }.
#[export] Instance tuple_eq_dec : EqDecision tuple.
Proof. solve_decision. Defined.

Definition matches (c : tuple) : port_t -> bool := same_tuple (t_rip c) (t_lip c) (t_rport c) (t_lport c) (t_proto c).
Definition tuple_key (v6 : bool) (c : tuple) : Z :=
  key_of v6 (t_rip c) (t_rport c) (t_lip c) (t_lport c) (t_proto c) port_mask.
Definition entries (v6 : bool) (s : state) (c : tuple) : list Z :=
  map thread_id (List.filter (matches c) (bucket (get_table v6 s) (tuple_key v6 c))).

Lemma matches_inj c c' pos : matches c pos = true -> matches c' pos = true -> c = c'.
Proof.
  unfold matches, same_tuple. intros H H'.
  rewrite !andb_true_iff, !Z.eqb_eq in H, H'. destruct c, c'; simpl in *. f_equal; intuition congruence.
Qed.

Lemma bucket_insert t k k' l : bucket (<[k := l]> t) k' = if decide (k = k') then l else bucket t k'.
Proof. unfold bucket. case_decide; subst; by simplify_map_eq. Qed.

Lemma get_set_table v6 v6' t s : get_table v6' (set_table v6 t s) = if decide (v6 = v6') then t else get_table v6' s.
Proof. destruct s, v6, v6'; reflexivity. Qed.

Lemma pool_set_table v6 t s : port_mem_pool (set_table v6 t s) = port_mem_pool s.
Proof. by destruct s, v6. Qed.
Lemma start_set_table v6 t s : port_start (set_table v6 t s) = port_start s.
Proof. by destruct s, v6. Qed.

(** Replacing one bucket changes the entries of the connections in it only. *)
Lemma entries_set_bucket v6 v6' s s1 c' k l :
  (forall v, get_table v s1 = get_table v s) ->
  entries v6' (set_table v6 (<[k := l]> (get_table v6 s)) s1) c'
  = if decide (v6 = v6' /\ k = tuple_key v6' c') then map thread_id (List.filter (matches c') l)
    else entries v6' s c'.
Proof.
  intros Ht. unfold entries. rewrite get_set_table, Ht. destruct (decide (v6 = v6')) as [<-|Hn].
  - rewrite bucket_insert. repeat case_decide; by intuition.
  - rewrite decide_False by (by intros [? _]). done.
Qed.

Lemma filter_delete_first P (l l' : list port_t) :
  delete_first P l = Some l' ->
  exists pos, P pos = true /\ List.filter P l = pos :: List.filter P l'
    /\ forall Q, Q pos = false -> List.filter Q l = List.filter Q l'.
Proof.
  revert l'. induction l as [|x l IH]; simpl; intros l' H; [done|].
  destruct (P x) eqn:E; [injection H as <-|].
  - exists x. split_and!; [done|done|]. intros Q HQ. by rewrite HQ.
  - destruct (delete_first P l) as [l0|] eqn:Ed; [|done]. injection H as <-.
    destruct (IH l0 eq_refl) as (pos & H1 & H2 & H3). exists pos. simpl. rewrite E.
    split_and!; [done|done|]. intros Q HQ. rewrite (H3 Q HQ). by destruct (Q x).
Qed.

Lemma delete_first_None P (l : list port_t) : delete_first P l = None -> List.filter P l = [].
Proof.
  induction l as [|x l IH]; simpl; intros H; [done|].
  destruct (P x); [done|]. destruct (delete_first P l); [done|]. by apply IH.
Qed.

Lemma find_filter {A} (P : A -> bool) l : List.find P l = head (List.filter P l).
Proof. induction l as [|x l IH]; simpl; [done|]. by destruct (P x). Qed.

Lemma entries_insert g v6 c s :
  0 < port_mem_pool s ->
  exists s', al_port_insert_ g v6 (t_rip c) (t_lip c) (t_rport c) (t_lport c) (t_proto c) s = (ok 0, s')
    /\ port_start s' = port_start s
    /\ forall v6' c', entries v6' s' c'
       = if decide ((v6', c') = (v6, c)) then g :: entries v6' s c' else entries v6' s c'.
Proof.
  intros Hp. unfold al_port_insert_, port_create, st_bind, st_modify, st_ret.
  rewrite (proj2 (Z.ltb_lt _ _) Hp). set (s1 := field_update _ s).
  assert (forall v, get_table v s1 = get_table v s) as Ht by (intros []; unfold s1; by destruct s).
  eexists. split; [reflexivity|]. split; [rewrite start_set_table; unfold s1; by destruct s|].
  intros v6' c'. rewrite Ht, (entries_set_bucket v6 v6' s s1) by done. fold (tuple_key v6 c).
  destruct (decide ((v6', c') = (v6, c))) as [[= -> ->]|Hn].
  - rewrite decide_True by done. simpl.
    replace (matches c _) with true by (unfold matches, same_tuple; simpl; by rewrite !Z.eqb_refl). done.
  - case_decide as Hk; [|done]. destruct Hk as [-> Hk]. simpl.
    destruct (matches c' _) eqn:Em.
    + exfalso. apply Hn. f_equal. eapply matches_inj; [exact Em|].
      unfold matches, same_tuple; simpl; by rewrite !Z.eqb_refl.
    + unfold entries. by rewrite <-Hk.
Qed.

Lemma entries_delete v6 c s :
  exists s', al_port_del_ v6 (t_rip c) (t_lip c) (t_rport c) (t_lport c) (t_proto c) s
      = (ok (match entries v6 s c with [] => 0 | _ => 1 end), s')
    /\ forall v6' c', entries v6' s' c'
       = if decide ((v6', c') = (v6, c)) then tail (entries v6' s c') else entries v6' s c'.
Proof.
  unfold al_port_del_. fold (tuple_key v6 c) (matches c).
  destruct (delete_first (matches c) _) as [rest|] eqn:Ed.
  - destruct (filter_delete_first _ _ _ Ed) as (pos & H1 & H2 & H3).
    eexists. split; [unfold entries at 1; by rewrite H2|]. intros v6' c'.
    rewrite entries_set_bucket by (intros []; by destruct s).
    destruct (decide ((v6', c') = (v6, c))) as [[= -> ->]|Hn].
    + rewrite decide_True by done. unfold entries. by rewrite H2.
    + case_decide as Hk; [|done]. destruct Hk as [-> Hk]. unfold entries. rewrite <-Hk, (H3 (matches c')); [done|].
      destruct (matches c' pos) eqn:Em; [|done]. exfalso. apply Hn. f_equal. by eapply matches_inj.
  - exists s. pose proof (delete_first_None _ _ Ed) as E.
    assert (entries v6 s c = []) as He by (unfold entries; by rewrite E).
    rewrite He. split; [done|]. intros v6' c'. case_decide as Hk; [|done]. injection Hk as -> ->. by rewrite He.
Qed.

Lemma which_thread_entries v6 c s :
  which_thread v6 (t_rip c) (t_lip c) (t_rport c) (t_lport c) (t_proto c) s = default (-1) (head (entries v6 s c)).
Proof.
  unfold which_thread, entries. fold (tuple_key v6 c) (matches c). rewrite find_filter. by destruct (List.filter _ _).
Qed.

(** *** Drawing ports *)
Definition in_range (p : Z) : Prop := TCP_LOCAL_PORT_RANGE_START <= p <= TCP_LOCAL_PORT_RANGE_END.

(** The port after [k] steps round the range. *)
Definition step (k : nat) (p : Z) : Z := Nat.iter k next_port p.

Lemma next_port_range p : in_range p -> in_range (next_port p).
Proof.
  unfold in_range, next_port, TCP_LOCAL_PORT_RANGE_START, TCP_LOCAL_PORT_RANGE_END. intros H.
  destruct (Z.eqb_spec p 60000); [lia|]. rewrite u16_small; lia.
Qed.

Lemma step_range k p : in_range p -> in_range (step k p).
Proof. intros. induction k; simpl; [done|]. by apply next_port_range. Qed.

Lemma step_eq k p : in_range p -> step k p = 1 + (p - 1 + Z.of_nat k) mod 60000.
Proof.
  intros Hp. pose proof Hp as Hp'.
  unfold in_range, TCP_LOCAL_PORT_RANGE_START, TCP_LOCAL_PORT_RANGE_END in Hp'.
  induction k as [|k IH].
  - simpl. rewrite Z.mod_small; lia.
  - change (step (S k) p) with (next_port (step k p)). rewrite IH, Nat2Z.inj_succ.
    unfold next_port, TCP_LOCAL_PORT_RANGE_START, TCP_LOCAL_PORT_RANGE_END.
    pose proof (Z.mod_pos_bound (p - 1 + Z.of_nat k) 60000). pose proof (Z.div_mod (p - 1 + Z.of_nat k) 60000).
    replace (p - 1 + Z.succ (Z.of_nat k)) with (1 + (p - 1 + Z.of_nat k)) by lia.
    destruct (Z.eqb_spec (1 + (p - 1 + Z.of_nat k) mod 60000) 60000) as [E|E].
    + assert ((1 + (p - 1 + Z.of_nat k)) mod 60000 = 0) as ->; [|done].
      apply Z.mod_divide; [done|]. exists (1 + (p - 1 + Z.of_nat k) / 60000). lia.
    + rewrite u16_small by lia. rewrite (Z.mod_unique_pos (1 + (p - 1 + Z.of_nat k)) 60000
        ((p - 1 + Z.of_nat k) / 60000) (1 + (p - 1 + Z.of_nat k) mod 60000)); lia.
Qed.

(** The ports that one call tries, from where the last one stopped: the range, unless
    it starts above it, as [port_init] may leave it; then the counter passes through
    zero and the call ends before it is back at the end of the range. *)
Definition tried (start p : Z) : Prop :=
  if start <=? TCP_LOCAL_PORT_RANGE_END then in_range p
  else 0 <= p < 2 ^ 16 /\ 1 <= (p - start) mod 2 ^ 16 <= TCP_LOCAL_PORT_RANGE_END.

Lemma step_zero k : (1 <= k)%nat -> step k 0 = step (k - 1) 1.
Proof. intros H. destruct k as [|k]; [lia|]. unfold step. rewrite Nat.iter_succ_r. by replace (S k - 1)%nat with k by lia. Qed.

Lemma step_above k p : 60000 < p < 65536 -> Z.of_nat k <= 60000 -> step k p = (p + Z.of_nat k) mod 65536.
Proof.
  intros Hp. induction k as [|k IH]; intros Hk.
  - simpl. rewrite Z.mod_small; lia.
  - change (step (S k) p) with (next_port (step k p)). rewrite IH, Nat2Z.inj_succ by lia.
    unfold next_port, TCP_LOCAL_PORT_RANGE_START, TCP_LOCAL_PORT_RANGE_END.
    pose proof (Z.mod_pos_bound (p + Z.of_nat k) 65536). pose proof (Z.div_mod (p + Z.of_nat k) 65536).
    destruct (Z.eqb_spec ((p + Z.of_nat k) mod 65536) 60000) as [E|_]; [nia|].
    unfold u16, wrap. change (2 ^ 16) with 65536. rewrite Z.add_mod_idemp_l by done. f_equal. lia.
Qed.

Lemma step_tried start k : 0 <= start < 65536 -> 1 <= Z.of_nat k <= 60000 -> tried start (step k start).
Proof.
  intros Hs Hk. unfold tried, TCP_LOCAL_PORT_RANGE_END. destruct (Z.leb_spec start 60000).
  - destruct (Z.eq_dec start 0) as [->|]; [rewrite step_zero by lia|]; apply step_range; split;
      unfold TCP_LOCAL_PORT_RANGE_START, TCP_LOCAL_PORT_RANGE_END; lia.
  - rewrite step_above by lia. change (2 ^ 16) with 65536. split; [apply Z.mod_pos_bound; lia|].
    rewrite Zminus_mod_idemp_l. replace (start + Z.of_nat k - start) with (Z.of_nat k) by lia. rewrite Z.mod_small; lia.
Qed.

(** A full round meets every port of the range. *)
Lemma step_covers p q : in_range p -> in_range q -> exists k, 1 <= Z.of_nat k <= 60000 /\ step k p = q.
Proof.
  intros Hp Hq. pose proof Hp as Hp'. pose proof Hq as Hq'.
  unfold in_range, TCP_LOCAL_PORT_RANGE_START, TCP_LOCAL_PORT_RANGE_END in Hp', Hq'.
  destruct (Z.lt_ge_cases p q).
  - exists (Z.to_nat (q - p)). split; [lia|]. rewrite step_eq by done. rewrite Z.mod_small; lia.
  - exists (Z.to_nat (q - p + 60000)). split; [lia|]. rewrite step_eq by done.
    rewrite <-(Z.mod_unique_pos _ 60000 1 (q - 1)); lia.
Qed.

Lemma tried_step start p : 0 <= start < 65536 -> tried start p -> exists k, 1 <= Z.of_nat k <= 60000 /\ step k start = p.
Proof.
  intros Hs. unfold tried, TCP_LOCAL_PORT_RANGE_END. destruct (Z.leb_spec start 60000) as [Hl|Hl].
  - intros Hp. destruct (Z.eq_dec start 0) as [->|].
    + unfold in_range, TCP_LOCAL_PORT_RANGE_START, TCP_LOCAL_PORT_RANGE_END in Hp. exists (Z.to_nat p). split; [lia|].
      rewrite step_zero, step_eq by (unfold in_range, TCP_LOCAL_PORT_RANGE_START, TCP_LOCAL_PORT_RANGE_END; lia).
      rewrite Z.mod_small; lia.
    + apply step_covers; [|done]. unfold in_range, TCP_LOCAL_PORT_RANGE_START, TCP_LOCAL_PORT_RANGE_END. lia.
  - intros [Hp Hd]. change (2 ^ 16) with 65536 in *. exists (Z.to_nat ((p - start) mod 65536)). split; [lia|].
    rewrite step_above by lia. rewrite Z2Nat.id, Z.add_mod_idemp_r by lia.
    replace (start + (p - start)) with p by lia. rewrite Z.mod_small; lia.
Qed.

Section Allocation.
Context (g_lcoreid : Z) (filter4 : Z -> Z -> Z -> Z).

Lemma refused_start s lp ps x : refused filter4 s lp (ps <| port_start := x |>) = refused filter4 s lp ps.
Proof. by destruct ps. Qed.

Lemma draw_port_spec s : forall fuel n ps,
  0 <= n -> n + Z.of_nat fuel = 60000 ->
  let '(r, ps') := draw_port filter4 fuel s n ps in
  (exists k, (k <= fuel)%nat /\ ps' = ps <| port_start := step k (port_start ps) |>
     /\ match r with
        | Some lp => (1 <= k)%nat /\ lp = cpu_to_be_16 (step k (port_start ps)) /\ refused filter4 s lp ps = false
        | None => forall j, (1 <= j <= fuel)%nat -> refused filter4 s (cpu_to_be_16 (step j (port_start ps))) ps = true
        end).
Proof.
  induction fuel as [|fuel IH]; intros n ps Hn Hf.
  - simpl. exists 0%nat. split_and!; [done|by destruct ps|lia].
  - cbn [draw_port]. set (ps1 := field_update _ ps).
    assert (port_start ps1 = next_port (port_start ps)) as E1 by (by destruct ps). rewrite E1.
    assert (forall lp, refused filter4 s lp ps1 = refused filter4 s lp ps) as Er by (intros; apply refused_start).
    rewrite Er. destruct (refused filter4 s _ ps) eqn:E.
    + rewrite u16_small by lia.
      change (TCP_LOCAL_PORT_RANGE_END - TCP_LOCAL_PORT_RANGE_START) with 59999.
      destruct (Z.leb_spec (n + 1) 59999).
      * specialize (IH (n + 1) ps1 ltac:(lia) ltac:(lia)).
        destruct (draw_port filter4 fuel s (n + 1) ps1) as [r ps'].
        destruct IH as (k & Hk & Hps & Hr). exists (S k). rewrite E1 in Hps, Hr.
        assert (forall j, step (S j) (port_start ps) = step j (next_port (port_start ps))) as Es.
        { intros j. unfold step. by rewrite Nat.iter_succ_r. }
        rewrite Es. split_and!; [lia|rewrite Hps; by destruct ps|].
        destruct r as [lp|].
        -- destruct Hr as (? & ? & Hr). rewrite Er in Hr. split_and!; [lia|done|done].
        -- intros [|[|j]] Hj; [lia|done|]. rewrite Es, <-Er. apply Hr. lia.
      * assert (fuel = 0%nat) as -> by lia. exists 1%nat. split_and!; [lia|done|].
        intros j Hj. assert (j = 1%nat) as -> by lia. done.
    + exists 1%nat. split_and!; try done; lia.
Qed.
End Allocation.
(** The allocator finds a port exactly when there is one. *)
Lemma allocation_ok (g : Z) (filter4 : Z -> Z -> Z -> Z) (s : t) (ps : state) :
  0 <= port_start ps < 65536 -> 0 < port_mem_pool ps ->
  exists rc s' ps',
    al_alocate_new_port_with_session g filter4 s ps = (ok (rc, s'), ps')
    /\ ((exists p, tried (port_start ps) p /\ refused filter4 s (cpu_to_be_16 p) ps = false) <-> rc = 0)
    /\ (rc = 0 ->
        (exists p, tried (port_start ps) p /\ s' = s <| local_port := cpu_to_be_16 p |>
           /\ refused filter4 s (cpu_to_be_16 p) ps = false)
        /\ which_thread (in_type s') (if in_type s' then remote_addr s' else address4 (remote_addr s'))
             (if in_type s' then local_addr s' else address4 (local_addr s'))
             (remote_port s') (local_port s') (proto s') ps' = g)
    /\ (rc <> 0 -> rc = -1 /\ s' = s).
Proof.
  intros Hr Hp. unfold al_alocate_new_port_with_session.
  pose proof (draw_port_spec filter4 s (Z.to_nat TCP_LOCAL_PORT_RANGE_END) 0 ps ltac:(lia) ltac:(done)) as H.
  destruct (draw_port _ _ _ _ _) as [[lp|] ps1].
  - destruct H as (k & Hk & -> & Hk1 & Hlp & Href). unfold TCP_LOCAL_PORT_RANGE_END in Hk.
    assert (tried (port_start ps) (step k (port_start ps))) as Ht by (apply step_tried; lia).
    set (s1 := s <| local_port := lp |>). set (ps1 := ps <| port_start := _ |>).
    pose (c := {| t_rip := if in_type s1 then remote_addr s1 else address4 (remote_addr s1);
                  t_lip := if in_type s1 then local_addr s1 else address4 (local_addr s1);
                  t_rport := remote_port s1; t_lport := local_port s1; t_proto := proto s1 |}).
    destruct (entries_insert g (in_type s1) c ps1 ltac:(by destruct ps)) as (ps2 & E & _ & He).
    assert (al_port_insert g s1 ps1 = (ok 0, ps2)) as Ei.
    { rewrite <-E. unfold al_port_insert, c. by destruct (in_type s1). }
    exists 0, s1, ps2. split_and!.
    + unfold st_bind. by rewrite Ei.
    + split; [done|]. intros _. exists (step k (port_start ps)). split; [exact Ht|]. by rewrite <-Hlp.
    + intros _. split.
      * exists (step k (port_start ps)). rewrite <-Hlp. split_and!; [exact Ht|done|done].
      * pose proof (which_thread_entries (in_type s1) c ps2) as Ew. simpl in Ew. rewrite Ew, He.
        by rewrite decide_True.
    + done.
  - destruct H as (k & Hk & -> & Hall). eexists (-1), s, _. split_and!; [reflexivity| |done|done].
    split; [|done]. intros (p & Hpr & Hf). exfalso.
    destruct (tried_step (port_start ps) p Hr Hpr) as (j & Hj & <-).
    rewrite (Hall j) in Hf; [done|]. unfold TCP_LOCAL_PORT_RANGE_END. lia.
Qed.
End Tuple5Facts.

(** ** Properties *)
Section Properties.
Import Session_t Tuple5 Tuple5Facts.

(** C18. The hash tables of connections behave as a map from connections to the
    threads that registered them: registering puts the calling thread in front
    of this connection's threads, deleting takes the first away and says
    whether there was one, [which_thread] reads the first, and no operation
    touches another connection, another bucket or the other family. *)
Theorem port_table_refines_map (g : Z) (v6 : bool) (c : tuple) (s : state) :
  0 < port_mem_pool s ->
  let inserted := al_port_insert_ g v6 (t_rip c) (t_lip c) (t_rport c) (t_lport c) (t_proto c) s in
  let deleted := al_port_del_ v6 (t_rip c) (t_lip c) (t_rport c) (t_lport c) (t_proto c) s in
  inserted.1 = ok 0
  /\ (forall v6' c', entries v6' inserted.2 c'
       = if decide ((v6', c') = (v6, c)) then g :: entries v6' s c' else entries v6' s c')
  /\ deleted.1 = ok (match entries v6 s c with [] => 0 | _ => 1 end)
  /\ (forall v6' c', entries v6' deleted.2 c'
       = if decide ((v6', c') = (v6, c)) then tail (entries v6' s c') else entries v6' s c')
  /\ which_thread v6 (t_rip c) (t_lip c) (t_rport c) (t_lport c) (t_proto c) s
     = default (-1) (head (entries v6 s c)).
Proof.
  intros Hp inserted deleted. unfold inserted, deleted.
  destruct (entries_insert g v6 c s Hp) as (s1 & -> & _ & H1).
  destruct (entries_delete v6 c s) as (s2 & -> & H2). simpl.
  split_and!; [done|exact H1|done|exact H2|apply which_thread_entries].
Qed.


(** [port_init] may start outside the range, from where port 0 is drawn. *)
Example port_zero_is_drawn : next_port (port_start (port_init 65534)) = 0.
Proof. reflexivity. Qed.
End Properties.

(** ** Witnesses *)
Section Witnesses.
Import Session_t Tuple5 Tuple5Facts.

Definition sample_tuple : tuple :=
  {| t_rip := 167772161; t_lip := 167772170; t_rport := 20480; t_lport := 4660; t_proto := 6 |}.
Definition sample_ports : state := (al_port_insert_ 2 false 167772161 167772170 20480 4660 6 (port_init 41)).2.
Definition sample_session_t : t :=
  Session_t.mk 1 true false 6 false 4 false 0 300 0%nat 167772170 167772161 0 20480 [] [] 1 1.

Lemma port_table_refines_map_witness :
  let inserted := al_port_insert_ 3 false 167772161 167772170 20480 4660 6 sample_ports in
  entries false inserted.2 sample_tuple = 3 :: entries false sample_ports sample_tuple.
Proof.
  exact (proj1 (proj2 (port_table_refines_map 3 false sample_tuple sample_ports eq_refl)) false sample_tuple).
Defined.

End Witnesses.
