(* ===== verification/AlSession.v ===== *)
(** * The session table of a worker thread

    Models [alpha/al_session.c]. Sessions live in a heap of pool objects and
    point at each other ([up]); the hash table keeps, per bucket, the pointers
    in list order. Following a pointer to an object that was given back to the
    pool, and unlinking a node that is on no list, is undefined behaviour.
    [al_session_timeout] walks each bucket as [hlist_for_each_entry_safe] does:
    the successor is read before the body runs, which may delete nodes. *)

From Stdlib Require Import ZArith Lia Bool.
From stdpp Require Import base tactics option gmap fin_maps list.
From S2P Require Import Prelude Tuple5.

Open Scope Z_scope.

Module AlSession.
Import Session_t.

Definition MAX_SESSION_COUNTER : Z := 65536.
Definition session_mask : Z := MAX_SESSION_COUNTER - 1.

Record state := mk {
  heap : gmap ptr Session_t.t;
  session_table : gmap Z (list ptr);
  session_memory_pool : Z;
  ports : Tuple5.state }.

Definition init (ports : Tuple5.state) : state := mk ∅ ∅ MAX_SESSION_COUNTER ports.

Definition bucket (s : state) (i : Z) : list ptr := default [] (session_table s !! i).

(** [s->field] of a live object. *)
Definition deref (p : ptr) : st state Session_t.t := fun s =>
  match heap s !! p with Some x => (ok x, s) | None => (err Undef, s) end.
Definition assign (p : ptr) (x : Session_t.t) : st state unit :=
  st_modify (fun s => s <| heap := <[p := x]> (heap s) |>).

(** The pool hands out an object not in use, with whatever it held before. *)
Definition al_session_create (garbage : Session_t.t) : st state (option ptr) := fun s =>
  if session_memory_pool s <=? 0 then (ok None, s) else
  let p := fresh (dom (heap s)) in
  let x := garbage <| port_alloc := false |> <| proto := 0 |> <| is_dr := false |>
                   <| stout := SESSION_IDLE_TIMEOUT |> in
  (ok (Some p), s <| heap := <[p := x]> (heap s) |> <| session_memory_pool := session_memory_pool s - 1 |>).

Definition on_ports {A} (c : st Tuple5.state A) : st state A := fun s =>
  let '(r, ps) := c (ports s) in (r, s <| ports := ps |>).

(** [rc == 1] is only logged. *)
Definition al_session_free (p : ptr) : st state unit :=
  do x <- deref p ;;
  do _ <- on_ports (if negb (in_type x)
    then Tuple5.al_port_del_v4 (address4 (remote_addr x)) (address4 (local_addr x)) (remote_port x) (local_port x) (proto x)
    else Tuple5.al_port_del_v6 (address6 (remote_addr x)) (address6 (local_addr x)) (remote_port x) (local_port x) (proto x)) ;;
  st_modify (fun s => s <| heap := delete p (heap s) |>
                        <| session_memory_pool := session_memory_pool s + 1 |>).

(** *** Lookup and insertion *)
Definition matches4 (rip rport lip lport_ proto_type : Z) (x : Session_t.t) : bool :=
  (local_port x =? lport_) && (remote_port x =? rport) && (address4 (local_addr x) =? lip)
  && (address4 (remote_addr x) =? rip) && (proto x =? proto_type).
Definition matches6 (rip rport lip lport_ proto_type : Z) (x : Session_t.t) : bool :=
  (local_port x =? lport_) && (remote_port x =? rport) && (address6 (local_addr x) =? lip)
  && (address6 (remote_addr x) =? rip) && (proto x =? proto_type).

(** [hlist_for_each_entry] with [return pos]. *)
Fixpoint search (P : Session_t.t -> bool) (l : list ptr) (h : gmap ptr Session_t.t) : res (option ptr) :=
  match l with
  | [] => ok None
  | pos :: l =>
      match h !! pos with
      | None => err Undef
      | Some x => if P x then ok (Some pos) else search P l h
      end
  end.

Definition tcp4_session_get (rip rport lip lport_ proto_type : Z) (s : state) : res (option ptr) :=
  let key := pcb4_key rip rport lip lport_ proto_type session_mask in
  search (matches4 rip rport lip lport_ proto_type) (bucket s (Z.land key session_mask)) (heap s).
Definition tcp6_session_get (rip rport lip lport_ proto_type : Z) (s : state) : res (option ptr) :=
  let key := pcb6_key rip rport lip lport_ proto_type session_mask in
  search (matches6 rip rport lip lport_ proto_type) (bucket s (Z.land key session_mask)) (heap s).

Definition session_key (x : Session_t.t) : Z :=
  if negb (in_type x)
  then pcb4_key (address4 (remote_addr x)) (remote_port x) (address4 (local_addr x)) (local_port x) (proto x) session_mask
  else pcb6_key (address6 (remote_addr x)) (remote_port x) (address6 (local_addr x)) (local_port x) (proto x) session_mask.

Definition al_session_add (p : ptr) : st state unit :=
  do x <- deref p ;;
  let i := Z.land (session_key x) session_mask in
  st_modify (fun s => s <| session_table := <[i := p :: bucket s i]> (session_table s) |>).

(** *** Expiry *)

(** [hlist_del]: out of whichever list the node is on. *)
Definition linked (p : ptr) (s : state) : bool :=
  existsb (fun kl : Z * list ptr => bool_decide (p ∈ kl.2)) (map_to_list (session_table s)).
Definition hlist_del (p : ptr) : st state unit := fun s =>
  if linked p s
  then (ok tt, s <| session_table := filter (fun q => q <> p) <$> session_table s |>)
  else (err Undef, s).

(** [pos->list.next] within a list. *)
Fixpoint successor (p : ptr) (l : list ptr) : option ptr :=
  match l with
  | [] => None
  | q :: l => if decide (q = p) then head l else successor p l
  end.

(** [x->stout > 0 ? --x->stout : 0] *)
Definition tick (x : Session_t.t) : Session_t.t :=
  if 0 <? stout x then x <| stout := stout x - 1 |> else x.

(** The body of the loop. *)
Definition expire (p : ptr) : st state unit :=
  do x <- deref p ;;
  let u := up x in
  do _ <- assign p (tick x) ;;
  do y <- deref u ;;
  do _ <- assign u (tick y) ;;
  if (stout (tick x) =? 0) && (stout (tick y) =? 0) then
    do _ <- hlist_del p ;;
    do _ <- al_session_free p ;;
    do _ <- hlist_del u ;;
    al_session_free u
  else st_ret tt.

(** [hlist_for_each_entry_safe( s, t, ... )] over bucket [i] from [pos]. *)
Fixpoint walk (fuel : nat) (i : Z) (pos : option ptr) : st state unit :=
  match fuel, pos with
  | _, None => st_ret tt
  | O, _ => st_throw Undef
  | S fuel, Some p =>
      do s <- st_get ;;
      do _ <- deref p ;;
      let t := successor p (bucket s i) in
      do _ <- expire p ;;
      walk fuel i t
  end.

(** A node is visited at most once, so that the length of the list bounds the walk. *)
Fixpoint sweep (buckets : list Z) : st state unit :=
  match buckets with
  | [] => st_ret tt
  | i :: buckets =>
      do s <- st_get ;;
      do _ <- walk (S (length (bucket s i))) i (head (bucket s i)) ;;
      sweep buckets
  end.

(** [for( i=0; i<HASHSIZE(MAX_SESSION_COUNTER); i++)] *)
Fixpoint indices (n : nat) (i : Z) : list Z :=
  match n with O => [] | S n => i :: indices n (i + 1) end.
Definition all_buckets : list Z := indices (Z.to_nat MAX_SESSION_COUNTER) 0.

Definition al_session_timeout : st state unit := sweep all_buckets.
End AlSession.

(** ** Lemmas *)
Module AlSessionFacts.
Import Session_t AlSession.

Lemma elem_of_indices n i k : k ∈ indices n i <-> i <= k < i + Z.of_nat n.
Proof.
  revert i. induction n as [|n IH]; intros i; cbn [indices].
  - rewrite elem_of_nil. lia.
  - rewrite elem_of_cons, IH. lia.
Qed.

Lemma elem_of_all_buckets k : 0 <= k < MAX_SESSION_COUNTER -> k ∈ all_buckets.
Proof. unfold all_buckets, MAX_SESSION_COUNTER. rewrite elem_of_indices. lia. Qed.

#[local] Opaque all_buckets.

Definition nodes (s : state) : list ptr := concat (map (bucket s) all_buckets).

(** Sessions in the table are live, come in pairs that point at each other, and
    are on one list once. Idle counters are even: they are set to
    [SESSION_IDLE_TIMEOUT] and every sweep visits both sessions of a pair. *)
Record wf (s : state) : Prop := {
  wf_nodup : NoDup (nodes s);
  wf_range i p : p ∈ bucket s i -> i ∈ all_buckets;
  wf_pair p : p ∈ nodes s -> exists x y,
    heap s !! p = Some x /\ heap s !! up x = Some y /\ up x ∈ nodes s /\ up y = p /\ up x <> p
    /\ 0 <= stout x /\ 0 <= stout y /\ Z.even (stout x) = true /\ Z.even (stout y) = true
    /\ (2 <= stout x \/ 2 <= stout y) }.

Definition aged (k : nat) (x : Session_t.t) : Session_t.t := Nat.iter k tick x.

Lemma stout_tick x : 0 <= stout x -> stout (tick x) = Z.max 0 (stout x - 1).
Proof. intros H. unfold tick. destruct (Z.ltb_spec 0 (stout x)); [destruct x; simpl in *; lia|lia]. Qed.

Lemma stout_aged k x : 0 <= stout x -> stout (aged k x) = Z.max 0 (stout x - Z.of_nat k).
Proof.
  intros H. induction k as [|k IH]; [simpl; lia|].
  change (aged (S k) x) with (tick (aged k x)). rewrite stout_tick; lia.
Qed.

Lemma up_tick x : up (tick x) = up x.
Proof. unfold tick. destruct (_ <? _); [by destruct x|done]. Qed.
Lemma up_aged k x : up (aged k x) = up x.
Proof. induction k as [|k IH]; [done|]. by rewrite <-IH, <-(up_tick (aged k x)). Qed.

Lemma tick_eq x : 0 <= stout x -> tick x = x <| stout := Z.max 0 (stout x - 1) |>.
Proof.
  intros H. unfold tick. destruct (Z.ltb_spec 0 (stout x)); destruct x; cbn in *; f_equal; lia.
Qed.

Lemma aged_eq k x : 0 <= stout x -> aged k x = x <| stout := Z.max 0 (stout x - Z.of_nat k) |>.
Proof.
  intros H. induction k as [|k IH].
  - destruct x; cbn in *; f_equal; lia.
  - change (aged (S k) x) with (tick (aged k x)). rewrite tick_eq by (rewrite stout_aged; lia).
    rewrite stout_aged by done. rewrite IH. destruct x; cbn in *; f_equal; lia.
Qed.

Lemma bucket_nodes s p i : p ∈ bucket s i -> i ∈ all_buckets -> p ∈ nodes s.
Proof.
  rewrite !list_elem_of_In. intros Hp Hi. unfold nodes. rewrite in_concat.
  exists (bucket s i). split; [|done]. by apply in_map.
Qed.

Lemma nodes_bucket s p : p ∈ nodes s -> exists i, i ∈ all_buckets /\ p ∈ bucket s i.
Proof.
  unfold nodes. rewrite list_elem_of_In, in_concat. intros (l & Hl & Hp).
  apply in_map_iff in Hl as (i & <- & Hi). exists i. rewrite !list_elem_of_In. by split.
Qed.

Lemma nodes_filter (P : ptr -> Prop) `{!forall p, Decision (P p)} s s' :
  (forall i, bucket s' i = filter P (bucket s i)) -> nodes s' = filter P (nodes s).
Proof.
  intros Hb. unfold nodes. induction all_buckets as [|i ks IH]; [done|].
  cbn [map concat]. by rewrite filter_app, Hb, IH.
Qed.

Lemma linked_iff p s : linked p s = true <-> exists i, p ∈ bucket s i.
Proof.
  unfold linked, bucket. rewrite existsb_exists. split.
  - intros ([i l] & Hin & Hp). bool_simpl. exists i.
    apply list_elem_of_In, elem_of_map_to_list in Hin. by rewrite Hin.
  - intros (i & Hp). destruct (session_table s !! i) as [l|] eqn:E; [|by apply elem_of_nil in Hp].
    exists (i, l). split; [by apply list_elem_of_In, elem_of_map_to_list|]. apply bool_decide_eq_true. exact Hp.
Qed.

Lemma hlist_del_ok p s i : p ∈ bucket s i ->
  exists s', hlist_del p s = (ok tt, s') /\ heap s' = heap s
    /\ forall j, bucket s' j = filter (fun q => q <> p) (bucket s j).
Proof.
  intros Hp. unfold hlist_del. rewrite (proj2 (linked_iff p s)) by eauto.
  eexists. split; [reflexivity|]. split; [by destruct s|].
  intros j. unfold bucket. destruct s as [h tb mp ps]; cbn. rewrite lookup_fmap. by destruct (tb !! j).
Qed.

Lemma free_ok p x s : heap s !! p = Some x ->
  exists s', al_session_free p s = (ok tt, s') /\ heap s' = delete p (heap s)
    /\ session_table s' = session_table s.
Proof.
  intros H. unfold al_session_free. erewrite st_bind_ok by (unfold deref; by rewrite H). cbv beta.
  assert (forall v6 r l rp lp q ps, exists rc ps', Tuple5.al_port_del_ v6 r l rp lp q ps = (ok rc, ps')) as Hd.
  { intros. unfold Tuple5.al_port_del_. destruct (Tuple5.delete_first _ _); eauto. }
  match goal with |- context [on_ports ?z] => set (c := z) end. unfold st_bind, on_ports.
  assert (exists rc ps', c (ports s) = (ok rc, ps')) as (rc & ps' & ->)
    by (unfold c; destruct (negb (in_type x)); apply Hd).
  eexists. split; [reflexivity|]. by destruct s.
Qed.

(** Both sides of a pair unlinked and freed. *)
Lemma release_pair p u x y s i j :
  heap s !! p = Some x -> heap s !! u = Some y -> u <> p -> p ∈ bucket s i -> u ∈ bucket s j ->
  exists s', (do _ <- hlist_del p ;; do _ <- al_session_free p ;; do _ <- hlist_del u ;; al_session_free u) s = (ok tt, s')
    /\ (forall q, heap s' !! q = if decide (q = p \/ q = u) then None else heap s !! q)
    /\ (forall l, bucket s' l = filter (fun q => q <> u) (filter (fun q => q <> p) (bucket s l))).
Proof.
  intros Hp Hu Hne Hi Hj.
  destruct (hlist_del_ok p s i Hi) as (s3 & E3 & Eh3 & Eb3). erewrite st_bind_ok by exact E3. cbv beta.
  destruct (free_ok p x s3) as (s4 & E4 & Eh4 & Et4); [by rewrite Eh3|]. erewrite st_bind_ok by exact E4. cbv beta.
  assert (forall l, bucket s4 l = bucket s3 l) as Eb4 by (intros; unfold bucket; by rewrite Et4).
  destruct (hlist_del_ok u s4 j) as (s5 & E5 & Eh5 & Eb5); [rewrite Eb4, Eb3; by apply list_elem_of_filter|].
  erewrite st_bind_ok by exact E5. cbv beta.
  destruct (free_ok u y s5) as (s6 & E6 & Eh6 & Et6); [by rewrite Eh5, Eh4, lookup_delete_ne, Eh3|].
  exists s6. split_and!; [exact E6| |].
  - intros q. rewrite Eh6, Eh5, Eh4, Eh3. case_decide as H.
    + destruct (decide (q = u)) as [->|Hqu]; [apply lookup_delete_eq|rewrite lookup_delete_ne by done].
      destruct H as [->| ->]; [apply lookup_delete_eq|done].
    + rewrite !lookup_delete_ne by (intros ->; tauto). done.
  - intros l. unfold bucket at 1. rewrite Et6. fold (bucket s5 l). by rewrite Eb5, Eb4, Eb3.
Qed.

(** Sets of visited nodes. *)
Lemma visit_nil (V : gset ptr) : list_to_set [] ∪ V = V.
Proof. by rewrite list_to_set_nil, union_empty_l_L. Qed.
Lemma visit_cons b B (V : gset ptr) : list_to_set B ∪ ({[b]} ∪ V) = list_to_set (b :: B) ∪ V.
Proof. rewrite list_to_set_cons, (assoc_L (∪)). f_equal. apply (comm_L (∪)). Qed.
Lemma visit_app A B (V : gset ptr) : list_to_set B ∪ (list_to_set A ∪ V) = list_to_set (A ++ B) ∪ V.
Proof. rewrite list_to_set_app_L, (assoc_L (∪)). f_equal. apply (comm_L (∪)). Qed.

(** *** One sweep: the state after the nodes [V] have been visited *)
Section Sweep.
Context (s0 : state) (Hwf : wf s0).

(** The pair of [p] has expired: both visited, both idle for long enough. *)
Definition dead (V : gset ptr) (p : ptr) : bool :=
  match heap s0 !! p with
  | Some x =>
      match heap s0 !! up x with
      | Some y => bool_decide (p ∈ V) && bool_decide (up x ∈ V) && (stout x <=? 2) && (stout y <=? 2)
      | None => false
      end
  | None => false
  end.
Definition visits (V : gset ptr) (p : ptr) (x : Session_t.t) : nat :=
  (if decide (p ∈ V) then 1 else 0) + (if decide (up x ∈ V) then 1 else 0).
Definition view (V : gset ptr) (p : ptr) : option Session_t.t :=
  if decide (p ∈ nodes s0) then
    if dead V p then None else (fun x => aged (visits V p x) x) <$> heap s0 !! p
  else heap s0 !! p.

Record visited (V : gset ptr) (s : state) : Prop := {
  v_heap p : heap s !! p = view V p;
  v_bucket i : bucket s i = filter (fun p => dead V p = false) (bucket s0 i);
  v_sub p : p ∈ V -> p ∈ nodes s0 }.

Lemma filter_in_ext {A} (P Q : A -> Prop) `{!forall x, Decision (P x)} `{!forall x, Decision (Q x)} (l : list A) :
  (forall x, x ∈ l -> P x <-> Q x) -> filter P l = filter Q l.
Proof.
  induction l as [|x l IH]; intros HPQ; [done|].
  assert (P x <-> Q x) as Hx by (apply HPQ; left).
  assert (filter P l = filter Q l) as E by (apply IH; intros; apply HPQ; by right).
  rewrite !filter_cons, E. destruct (decide (P x)), (decide (Q x)); (done || tauto).
Qed.

Lemma bucket_node i p : p ∈ bucket s0 i -> p ∈ nodes s0.
Proof. intros Hp. eapply bucket_nodes; [exact Hp|]. by eapply wf_range. Qed.

(** The partner of [p], when [p] is on a list. *)
Lemma pair_facts p : p ∈ nodes s0 -> exists x y,
  heap s0 !! p = Some x /\ heap s0 !! up x = Some y /\ up x ∈ nodes s0 /\ up y = p /\ up x <> p
  /\ 0 <= stout x /\ 0 <= stout y /\ (2 <= stout x \/ 2 <= stout y).
Proof.
  intros Hp. destruct (wf_pair _ Hwf p Hp) as (x & y & ? & ? & ? & ? & ? & ? & ? & ? & ? & ?).
  exists x, y. by split_and!.
Qed.

Lemma pair_of p x y : p ∈ nodes s0 -> heap s0 !! p = Some x -> heap s0 !! up x = Some y ->
  up x ∈ nodes s0 /\ up y = p /\ up x <> p /\ 0 <= stout x /\ 0 <= stout y /\ (2 <= stout x \/ 2 <= stout y).
Proof.
  intros Hp Hx Hy. destruct (pair_facts p Hp) as (x' & y' & Hx' & Hy' & H').
  rewrite Hx in Hx'. injection Hx' as <-. rewrite Hy in Hy'. by injection Hy' as <-.
Qed.

Lemma dead_pair V p x y : heap s0 !! p = Some x -> heap s0 !! up x = Some y ->
  dead V p = bool_decide (p ∈ V) && bool_decide (up x ∈ V) && (stout x <=? 2) && (stout y <=? 2).
Proof. intros Hx Hy. unfold dead. by rewrite Hx, Hy. Qed.

Lemma elem_add (V : gset ptr) p q : q ∈ {[p]} ∪ V <-> q = p \/ q ∈ V.
Proof. by rewrite elem_of_union, elem_of_singleton. Qed.
Lemma elem_add_ne (V : gset ptr) p q : q <> p -> q ∈ {[p]} ∪ V <-> q ∈ V.
Proof. rewrite elem_add. tauto. Qed.

(** Visiting [p] changes the fate of [p] and its partner only. *)
Lemma dead_other V p x q : p ∈ nodes s0 -> heap s0 !! p = Some x -> q ∈ nodes s0 -> q <> p -> q <> up x ->
  dead ({[p]} ∪ V) q = dead V q.
Proof.
  intros Hp Hx Hq Hqp Hqu. destruct (pair_facts q Hq) as (z & w & Hz & Hw & _ & Hup & _).
  rewrite !(dead_pair _ q z w) by done.
  assert (up z <> p) as Hne. { intros E. rewrite E, Hx in Hw. injection Hw as ->. by rewrite Hup in Hqu. }
  by rewrite (bool_decide_ext _ _ (elem_add_ne V p q Hqp)), (bool_decide_ext _ _ (elem_add_ne V p _ Hne)).
Qed.

Lemma visits_other V p x q z : heap s0 !! p = Some x -> q ∈ nodes s0 -> heap s0 !! q = Some z ->
  q <> p -> q <> up x -> visits ({[p]} ∪ V) q z = visits V q z.
Proof.
  intros Hx Hq Hz Hqp Hqu. destruct (pair_facts q Hq) as (z' & w & Hz' & Hw & _ & Hup & _).
  rewrite Hz in Hz'. injection Hz' as <-.
  assert (up z <> p) as Hne. { intros E. rewrite E in Hw. rewrite Hx in Hw. injection Hw as ->. by rewrite Hup in Hqu. }
  unfold visits.
  by rewrite (decide_ext _ _ _ _ (elem_add_ne V p q Hqp)), (decide_ext _ _ _ _ (elem_add_ne V p _ Hne)).
Qed.

(** The two sides of a pair, after a visit to [p]. *)
Lemma visited_heap V s p x y :
  visited V s -> p ∈ nodes s0 -> p ∉ V -> heap s0 !! p = Some x -> heap s0 !! up x = Some y ->
  heap s !! p = Some (aged (visits V p x) x) /\ heap s !! up x = Some (aged (visits V p x) y)
  /\ (visits V p x = if decide (up x ∈ V) then 1 else 0)%nat.
Proof.
  intros Hv Hp HpV Hx Hy.
  destruct (pair_of p x y Hp Hx Hy) as (Hu & Hup & Hne & _).
  assert (visits V p x = if decide (up x ∈ V) then 1 else 0)%nat as Ek
    by (unfold visits; by rewrite decide_False).
  split_and!; [| |done].
  - rewrite (v_heap _ _ Hv). unfold view. rewrite decide_True by done.
    rewrite (dead_pair V p x y), bool_decide_eq_false_2 by done. by rewrite Hx.
  - rewrite (v_heap _ _ Hv). unfold view. rewrite decide_True by done.
    assert (heap s0 !! up y = Some x) as Hx2 by congruence.
    rewrite (dead_pair V (up x) y x), (bool_decide_eq_false_2 (up y ∈ V)), andb_false_r by congruence.
    rewrite Hy, Ek. simpl. unfold visits. rewrite (decide_False (P := up y ∈ V)) by congruence. by rewrite Nat.add_0_r.
Qed.

(** A visit with no expiry only ages the pair. *)
Lemma visited_age V s s' p x y :
  visited V s -> p ∈ nodes s0 -> p ∉ V -> heap s0 !! p = Some x -> heap s0 !! up x = Some y ->
  dead ({[p]} ∪ V) p = false ->
  heap s' = <[up x := aged (S (visits V p x)) y]> (<[p := aged (S (visits V p x)) x]> (heap s)) ->
  (forall i, bucket s' i = bucket s i) ->
  visited ({[p]} ∪ V) s'.
Proof.
  intros Hv Hp HpV Hx Hy Hd Hh Hb.
  destruct (pair_of p x y Hp Hx Hy) as (Hu & Hup & Hne & _).
  assert (heap s0 !! up y = Some x) as Hx2 by congruence.
  assert (dead ({[p]} ∪ V) (up x) = false) as Hdu.
  { rewrite (dead_pair _ p x y) in Hd by done. rewrite (dead_pair _ (up x) y x) by done. rewrite Hup.
    rewrite <-Hd. destruct (bool_decide (up x ∈ _)), (bool_decide (p ∈ _)), (stout x <=? 2), (stout y <=? 2); done. }
  assert (forall q, q ∈ nodes s0 -> dead ({[p]} ∪ V) q = dead V q) as Hdq.
  { intros q Hq. destruct (decide (q = p)) as [->|Hqp].
    - rewrite Hd. rewrite (dead_pair V p x y) by done. by rewrite bool_decide_eq_false_2.
    - destruct (decide (q = up x)) as [->|Hqu]; [|by eapply dead_other].
      rewrite Hdu, (dead_pair V (up x) y x), (bool_decide_eq_false_2 (up y ∈ V)), andb_false_r by congruence. done. }
  split.
  - intros q. rewrite Hh. unfold view.
    destruct (decide (q = up x)) as [->|Hqu].
    + rewrite lookup_insert_eq, decide_True, Hdu, Hy by done. simpl. do 2 f_equal.
      unfold visits. rewrite Hup. rewrite (decide_True (P := p ∈ {[p]} ∪ V)) by (apply elem_add; by left).
      rewrite (decide_False (P := p ∈ V)) by done. rewrite (decide_ext _ _ _ _ (elem_add_ne V p (up x) Hne)). by rewrite Nat.add_1_r.
    + rewrite lookup_insert_ne by done. destruct (decide (q = p)) as [->|Hqp].
      * rewrite lookup_insert_eq, decide_True, Hd, Hx by done. simpl. do 2 f_equal.
        unfold visits. rewrite (decide_True (P := p ∈ {[p]} ∪ V)) by (apply elem_add; by left).
        rewrite (decide_False (P := p ∈ V)) by done. by rewrite (decide_ext _ _ _ _ (elem_add_ne V p (up x) Hne)).
      * rewrite lookup_insert_ne by done. rewrite (v_heap _ _ Hv). unfold view. case_decide as Hq; [|done].
        rewrite Hdq by done. destruct (dead V q); [done|]. destruct (heap s0 !! q) as [z|] eqn:Ez; [|done].
        simpl. do 2 f_equal. symmetry. by eapply visits_other.
  - intros i. rewrite Hb, (v_bucket _ _ Hv). apply filter_in_ext. intros q Hq.
    rewrite Hdq; [done|]. by eapply bucket_node.
  - intros q Hq. apply elem_add in Hq as [->|Hq]; [done|]. by apply (v_sub _ _ Hv).
Qed.

(** A visit that expires the pair removes both sides. *)
Lemma visited_expire V s s' p x y :
  visited V s -> p ∈ nodes s0 -> heap s0 !! p = Some x -> heap s0 !! up x = Some y ->
  dead ({[p]} ∪ V) p = true ->
  (forall q, heap s' !! q = if decide (q = p \/ q = up x) then None else heap s !! q) ->
  (forall i, bucket s' i = filter (fun q => q <> up x) (filter (fun q => q <> p) (bucket s i))) ->
  visited ({[p]} ∪ V) s'.
Proof.
  intros Hv Hp Hx Hy Hd Hh Hb. destruct (pair_of p x y Hp Hx Hy) as (Hu & Hup & Hne & _).
  assert (heap s0 !! up y = Some x) as Hx2 by congruence.
  assert (dead ({[p]} ∪ V) (up x) = true) as Hdu.
  { rewrite (dead_pair _ p x y) in Hd by done. rewrite (dead_pair _ (up x) y x) by done. rewrite Hup.
    rewrite <-Hd. destruct (bool_decide (up x ∈ _)), (bool_decide (p ∈ _)), (stout x <=? 2), (stout y <=? 2); done. }
  split.
  - intros q. rewrite Hh. unfold view. destruct (decide (q = p)) as [->|Hqp].
    { rewrite decide_True, decide_True, Hd by tauto. done. }
    destruct (decide (q = up x)) as [->|Hqu].
    { rewrite decide_True, decide_True, Hdu by tauto. done. }
    rewrite decide_False by tauto. rewrite (v_heap _ _ Hv). unfold view. case_decide as Hq; [|done].
    rewrite (dead_other V p x q) by done. destruct (dead V q); [done|].
    destruct (heap s0 !! q) as [z|] eqn:Ez; [|done]. simpl. do 2 f_equal. symmetry. by eapply visits_other.
  - intros i. rewrite Hb, (v_bucket _ _ Hv).
    rewrite !list_filter_filter. apply filter_in_ext. intros q Hq. apply bucket_node in Hq.
    destruct (decide (q = p)) as [->|Hqp]; [rewrite Hd; split; [tauto|done]|].
    destruct (decide (q = up x)) as [->|Hqu]; [rewrite Hdu; split; [tauto|done]|].
    rewrite (dead_other V p x q) by done. tauto.
  - intros q Hq. apply elem_add in Hq as [->|Hq]; [done|]. by apply (v_sub _ _ Hv).
Qed.

Lemma in_live_bucket V s p : visited V s -> p ∈ nodes s0 -> dead V p = false -> exists i, p ∈ bucket s i.
Proof.
  intros Hv Hp Hd. destruct (nodes_bucket s0 p Hp) as (i & _ & Hi). exists i.
  rewrite (v_bucket _ _ Hv). by apply list_elem_of_filter.
Qed.

Lemma expire_visit V s p :
  visited V s -> p ∈ nodes s0 -> p ∉ V ->
  exists s', expire p s = (ok tt, s') /\ visited ({[p]} ∪ V) s'.
Proof.
  intros Hv Hp HpV. destruct (pair_facts p Hp) as (x & y & Hx & Hy & _).
  destruct (pair_of p x y Hp Hx Hy) as (Hu & Hup & Hne & Hsx & Hsy & H2).
  destruct (visited_heap V s p x y Hv Hp HpV Hx Hy) as (Hhp & Hhu & Hk).
  set (k := visits V p x) in *.
  unfold expire. erewrite st_bind_ok by (unfold deref; by rewrite Hhp). cbv beta zeta. rewrite up_aged.
  erewrite st_bind_ok by reflexivity. cbv beta.
  set (s1 := field_update _ s).
  assert (heap s1 = <[p := aged (S k) x]> (heap s)) as Eh1 by (by destruct s).
  assert (forall i, bucket s1 i = bucket s i) as Eb1 by (by destruct s).
  erewrite st_bind_ok by (unfold deref; rewrite Eh1, lookup_insert_ne by done; by rewrite Hhu). cbv beta.
  erewrite st_bind_ok by reflexivity. cbv beta.
  set (s2 := field_update _ s1).
  assert (heap s2 = <[up x := aged (S k) y]> (<[p := aged (S k) x]> (heap s))) as Eh2
    by (rewrite <-Eh1; by destruct s1).
  assert (forall i, bucket s2 i = bucket s i) as Eb2 by (intros; rewrite <-Eb1; by destruct s1).
  change (tick (aged k x)) with (aged (S k) x). change (tick (aged k y)) with (aged (S k) y).
  rewrite !stout_aged by done.
  assert (dead ({[p]} ∪ V) p = (Z.max 0 (stout x - Z.of_nat (S k)) =? 0) && (Z.max 0 (stout y - Z.of_nat (S k)) =? 0)) as Hd.
  { rewrite (dead_pair _ p x y) by done. rewrite (bool_decide_eq_true_2 (p ∈ _)) by (apply elem_add; by left).
    rewrite (bool_decide_ext _ _ (elem_add_ne V p (up x) Hne)). rewrite Hk.
    case_decide as Hin; [rewrite bool_decide_eq_true_2 by done|rewrite bool_decide_eq_false_2 by done]; simpl.
    all: apply eq_true_iff_eq; rewrite ?andb_true_iff, ?Z.leb_le, ?Z.eqb_eq; lia. }
  rewrite <-Hd. destruct (dead _ p) eqn:Hdead.
  - destruct (in_live_bucket V s p Hv Hp) as [i Hi].
    { unfold dead. rewrite Hx, Hy. by rewrite bool_decide_eq_false_2. }
    destruct (in_live_bucket V s (up x) Hv Hu) as [j Hj].
    { unfold dead. rewrite Hy, Hup, Hx. by rewrite (bool_decide_eq_false_2 (p ∈ V)), andb_false_r by done. }
    destruct (release_pair p (up x) (aged (S k) x) (aged (S k) y) s2 i j) as (s' & E & Eh & Eb);
      [by rewrite Eh2, lookup_insert_ne, lookup_insert_eq|by rewrite Eh2, lookup_insert_eq|done|by rewrite Eb2..|].
    exists s'. split; [exact E|]. eapply visited_expire; [exact Hv|exact Hp|exact Hx|exact Hy|exact Hdead| |].
    + intros q. rewrite Eh, Eh2. assert (Decision (q = p \/ q = up x)) as [Hq|Hq] by apply _.
      * by rewrite !decide_True by done.
      * rewrite !decide_False by done. by rewrite !lookup_insert_ne by (intros <-; tauto).
    + intros l. by rewrite Eb, Eb2.
  - eexists. split; [reflexivity|]. by eapply visited_age.
Qed.

Lemma dead_visited V p : dead V p = true -> p ∈ V.
Proof. unfold dead. repeat case_match; try done. intros H'. bool_simpl. done. Qed.

Lemma filter_unvisited (V : gset ptr) (l : list ptr) : (forall p, p ∈ l -> p ∉ V) -> filter (fun p => dead V p = false) l = l.
Proof.
  intros H'. apply filter_all, Forall_forall. intros p Hp. destruct (dead V p) eqn:E; [|done].
  exfalso. by eapply H', dead_visited.
Qed.

Lemma successor_app p (A B : list ptr) : p ∉ A -> successor p (A ++ p :: B) = head B.
Proof.
  induction A as [|a A IH]; intros Hp; simpl; [by rewrite decide_True|].
  rewrite not_elem_of_cons in Hp. destruct Hp as [Hpa Hp]. rewrite decide_False by congruence. by apply IH.
Qed.

Lemma walk_visits i : forall B fuel V s A,
  bucket s0 i = A ++ B -> (forall a, a ∈ A -> a ∈ V) -> (forall b, b ∈ B -> b ∉ V) -> NoDup (A ++ B) ->
  visited V s -> (length B < fuel)%nat ->
  exists s', walk fuel i (head B) s = (ok tt, s') /\ visited (list_to_set B ∪ V) s'.
Proof.
  intros B. induction B as [|b B IH]; intros fuel V s A Ei HA HB Hnd Hv Hf.
  - exists s. split; [by destruct fuel|]. by rewrite visit_nil.
  - destruct fuel as [|fuel]; [simpl in Hf; lia|]. cbn [walk head].
    assert (b ∈ nodes s0) as Hb. { eapply bucket_node. rewrite Ei. apply elem_of_app. right. left. }
    assert (b ∉ V) as HbV by (apply HB; left).
    erewrite st_bind_ok by reflexivity. cbv beta.
    destruct (pair_facts b Hb) as (x & y & Hx & Hy & _).
    destruct (visited_heap V s b x y Hv Hb HbV Hx Hy) as (Hh & _).
    erewrite st_bind_ok by (unfold deref; by rewrite Hh). cbv beta zeta.
    rewrite (v_bucket _ _ Hv), Ei, filter_app, (filter_unvisited V (b :: B)) by done.
    rewrite successor_app.
    2: { intros Hin. apply list_elem_of_filter in Hin as [_ Hin]. by apply HbV, HA. }
    destruct (expire_visit V s b Hv Hb HbV) as (s1 & E1 & Hv1).
    erewrite st_bind_ok by exact E1. cbv beta.
    rewrite cons_middle, app_assoc in Ei, Hnd.
    destruct (IH fuel ({[b]} ∪ V) s1 (A ++ [b])) as (s2 & E2 & Hv2); [done| | |done|done|simpl in Hf; lia|].
    + intros a Ha. apply elem_add. apply elem_of_app in Ha as [Ha|Ha]; [right; by apply HA|].
      left. by apply list_elem_of_singleton in Ha.
    + intros c Hc. rewrite elem_add_ne; [by apply HB; right|]. intros ->.
      rewrite <-app_assoc in Hnd. apply NoDup_app in Hnd as (_ & _ & Hnd). by apply NoDup_cons in Hnd as [? _].
    + exists s2. split; [done|]. by rewrite <-visit_cons.
Qed.

Lemma sweep_visits : forall ks V s,
  NoDup (concat (map (bucket s0) ks)) -> (forall p, p ∈ concat (map (bucket s0) ks) -> p ∉ V) -> visited V s ->
  exists s', sweep ks s = (ok tt, s') /\ visited (list_to_set (concat (map (bucket s0) ks)) ∪ V) s'.
Proof.
  induction ks as [|i ks IH]; intros V s Hnd HV Hv.
  - exists s. split; [done|]. by rewrite visit_nil.
  - cbn [sweep map concat] in *. erewrite st_bind_ok by reflexivity. cbv beta.
    apply NoDup_app in Hnd as (Hn1 & Hd & Hn2).
    assert (bucket s i = bucket s0 i) as ->.
    { rewrite (v_bucket _ _ Hv). apply filter_unvisited. intros p Hp. apply HV, elem_of_app. by left. }
    destruct (walk_visits i (bucket s0 i) (S (length (bucket s0 i))) V s []) as (s1 & E1 & Hv1);
      [done|by intros a Ha; apply elem_of_nil in Ha|intros b Hb; apply HV, elem_of_app; by left|done|done|lia|].
    erewrite st_bind_ok by exact E1. cbv beta.
    destruct (IH (list_to_set (bucket s0 i) ∪ V) s1) as (s2 & E2 & Hv2); [done| |done|].
    + intros p Hp. rewrite elem_of_union, elem_of_list_to_set. intros [Hi|Hi]; [by eapply Hd|].
      apply (HV p); [apply elem_of_app; by right|done].
    + exists s2. split; [done|]. by rewrite <-visit_app.
Qed.

Lemma visited_start : visited ∅ s0.
Proof.
  split.
  - intros p. unfold view. case_decide as Hp; [|done]. destruct (pair_facts p Hp) as (x & y & Hx & Hy & _).
    rewrite (dead_pair ∅ p x y), bool_decide_eq_false_2 by (done || apply not_elem_of_empty).
    simpl. rewrite Hx. simpl. unfold visits. by rewrite !decide_False by apply not_elem_of_empty.
  - intros i. symmetry. apply filter_unvisited. intros q _. apply not_elem_of_empty.
  - intros q Hq. by apply elem_of_empty in Hq.
Qed.

(** After a sweep: a pair idle for at most two ticks is gone, the others are two
    ticks older. *)
Lemma sweep_result :
  exists s', al_session_timeout s0 = (ok tt, s')
    /\ nodes s' = filter (fun p => dead (list_to_set (nodes s0)) p = false) (nodes s0)
    /\ visited (list_to_set (nodes s0)) s'.
Proof.
  destruct (sweep_visits all_buckets ∅ s0 (wf_nodup _ Hwf) (fun p _ => not_elem_of_empty p) visited_start)
    as (s' & E & Hv).
  fold (nodes s0) in Hv. rewrite union_empty_r_L in Hv.
  exists s'. split; [exact E|]. split; [|exact Hv].
  apply nodes_filter, Hv.
Qed.
End Sweep.

(** *** Consequences for the table *)
Lemma dead_all s p x y : wf s -> p ∈ nodes s -> heap s !! p = Some x -> heap s !! up x = Some y ->
  dead s (list_to_set (nodes s)) p = (stout x <=? 2) && (stout y <=? 2).
Proof.
  intros Hwf Hp Hx Hy. destruct (pair_of s Hwf p x y Hp Hx Hy) as (Hu & _).
  rewrite (dead_pair s _ p x y) by done. by rewrite !bool_decide_eq_true_2 by (by apply elem_of_list_to_set).
Qed.

Lemma sweep_pair s : wf s -> exists s', al_session_timeout s = (ok tt, s')
  /\ (forall p, p ∈ nodes s' -> p ∈ nodes s)
  /\ (forall p, p ∉ nodes s -> heap s' !! p = heap s !! p)
  /\ forall p x y, p ∈ nodes s -> heap s !! p = Some x -> heap s !! up x = Some y ->
     if (stout x <=? 2) && (stout y <=? 2) then heap s' !! p = None /\ p ∉ nodes s'
     else heap s' !! p = Some (x <| stout := Z.max 0 (stout x - 2) |>) /\ p ∈ nodes s'.
Proof.
  intros Hwf. destruct (sweep_result s Hwf) as (s' & E & En & Hv). exists s'. split; [exact E|]. split_and!.
  - intros p. rewrite En, list_elem_of_filter. tauto.
  - intros p Hp. rewrite (v_heap _ _ _ Hv). unfold view. by rewrite decide_False.
  - intros p x y Hp Hx Hy. rewrite (v_heap _ _ _ Hv). unfold view.
    assert (p ∈ nodes s' <-> dead s (list_to_set (nodes s)) p = false /\ p ∈ nodes s) as Hin
      by (by rewrite En, list_elem_of_filter).
    rewrite (dead_all s p x y) in Hin |- * by done. rewrite decide_True by done.
    destruct (pair_of s Hwf p x y Hp Hx Hy) as (Hu & _ & _ & Hsx & _).
    destruct ((stout x <=? 2) && (stout y <=? 2)) eqn:Ed; [split; [done|]; rewrite Hin; by intros [? _]|].
    split; [|by rewrite Hin]. rewrite Hx. simpl. unfold visits.
    rewrite !decide_True by (by apply elem_of_list_to_set). by rewrite aged_eq.
Qed.

Lemma sweep_wf s s' : wf s -> al_session_timeout s = (ok tt, s') -> wf s'.
Proof.
  intros Hwf E. destruct (sweep_result s Hwf) as (s1 & E1 & En & Hv). rewrite E in E1. injection E1 as <-.
  destruct (sweep_pair s Hwf) as (s1 & E1 & Hsub & _ & Hpair). rewrite E in E1. injection E1 as <-.
  split.
  - rewrite En. apply NoDup_filter, (wf_nodup _ Hwf).
  - intros i p. rewrite (v_bucket _ _ _ Hv), list_elem_of_filter. intros [_ Hp]. by eapply (wf_range _ Hwf).
  - intros p Hp. pose proof (Hsub p Hp) as Hp0.
    destruct (wf_pair _ Hwf p Hp0) as (x & y & Hx & Hy & Hu & Hup & Hne & Hsx & Hsy & Hex & Hey & H2).
    pose proof (Hpair p x y Hp0 Hx Hy) as HA.
    pose proof (Hpair (up x) y x Hu Hy ltac:(congruence)) as HB. rewrite andb_comm in HB.
    destruct ((stout x <=? 2) && (stout y <=? 2)) eqn:Ed; [by destruct HA as [_ HA]|].
    destruct HA as [HA HAn], HB as [HB HBn].
    exists (x <| stout := Z.max 0 (stout x - 2) |>), (y <| stout := Z.max 0 (stout y - 2) |>).
    assert (forall z v, up (z <| stout := v |>) = up z) as Hupz by (by intros []).
    assert (forall z v, stout (z <| stout := v |>) = v) as Hsz by (by intros []).
    rewrite !Hupz, !Hsz.
    assert (forall v, 0 <= v -> Z.even v = true -> Z.even (Z.max 0 (v - 2)) = true) as Hev.
    { intros v Hv0 Hev. destruct (Z.max_spec 0 (v - 2)) as [[_ ->]|[_ ->]]; [|done].
      by rewrite Z.even_sub, Hev. }
    assert (4 <= stout x \/ 4 <= stout y) as H4.
    { apply andb_false_iff in Ed. rewrite !Z.leb_gt in Ed.
      assert (forall v, Z.even v = true -> 2 < v -> 4 <= v) as H3.
      { intros v Ev Hv3. assert (v <> 3) by (intros ->; done). lia. }
      destruct Ed; [left|right]; by apply H3. }
    split_and!; auto; lia.
Qed.

(** [k] sweeps in a row. *)
Fixpoint sweeps (k : nat) : st state unit :=
  match k with O => st_ret tt | S k => do _ <- al_session_timeout ;; sweeps k end.

Lemma sweeps_gone k : forall s p, wf s -> p ∉ nodes s -> heap s !! p = None ->
  exists s', sweeps k s = (ok tt, s') /\ wf s' /\ heap s' !! p = None /\ p ∉ nodes s'.
Proof.
  induction k as [|k IH]; intros s p Hwf Hp Hh; [by exists s|].
  destruct (sweep_pair s Hwf) as (s1 & E & Hsub & Hun & _).
  destruct (IH s1 p) as (s2 & E2 & H2); [by eapply sweep_wf|by intros Hin; apply Hp, Hsub|by rewrite Hun|].
  exists s2. split; [|done]. cbn [sweeps]. by rewrite (st_bind_ok _ _ _ _ _ E).
Qed.

(** *** Deciding the invariant *)
Definition pair_check (s : state) (p : ptr) : bool :=
  match heap s !! p with
  | Some x =>
      match heap s !! up x with
      | Some y =>
          bool_decide (up x ∈ nodes s) && bool_decide (up y = p) && bool_decide (up x <> p)
          && (0 <=? stout x) && (0 <=? stout y) && Z.even (stout x) && Z.even (stout y)
          && ((2 <=? stout x) || (2 <=? stout y))
      | None => false
      end
  | None => false
  end.
Definition wf_check (s : state) : bool :=
  bool_decide (NoDup (nodes s))
  && forallb (fun kl : Z * list ptr => (0 <=? kl.1) && (kl.1 <? MAX_SESSION_COUNTER)) (map_to_list (session_table s))
  && forallb (pair_check s) (nodes s).

Lemma wf_check_sound s : wf_check s = true -> wf s.
Proof.
  unfold wf_check. rewrite !andb_true_iff. intros [[Hnd Hr] Hp]. split.
  - by apply bool_decide_eq_true in Hnd.
  - intros i p. unfold bucket. destruct (session_table s !! i) as [l|] eqn:E; simpl; intros Hin; [|by apply elem_of_nil in Hin].
    rewrite forallb_forall in Hr. specialize (Hr (i, l)). rewrite <-list_elem_of_In, elem_of_map_to_list in Hr.
    specialize (Hr E). simpl in Hr. bool_simpl. by apply elem_of_all_buckets.
  - intros p Hin. rewrite forallb_forall in Hp. specialize (Hp p). rewrite <-list_elem_of_In in Hp. specialize (Hp Hin).
    unfold pair_check in Hp. destruct (heap s !! p) as [x|] eqn:Ex; [|done].
    destruct (heap s !! up x) as [y|] eqn:Ey; [|done]. exists x, y.
    rewrite !andb_true_iff, orb_true_iff, !bool_decide_eq_true, !Z.leb_le in Hp. by intuition.
Qed.
(** A session in the table, and what the lookups find. *)
Lemma add_ok s p x : heap s !! p = Some x -> let k := Z.land (session_key x) session_mask in
  al_session_add p s = (ok tt, s <| session_table := <[k := p :: bucket s k]> (session_table s) |>).
Proof. intros Hx. unfold al_session_add. erewrite st_bind_ok by (unfold deref; by rewrite Hx). done. Qed.
Lemma bucket_add s k l i : bucket (s <| session_table := <[k := l]> (session_table s) |>) i = if decide (i = k) then l else bucket s i.
Proof.
  unfold bucket. destruct s as [h t n ps]. cbn. case_decide as Hi; [subst i; by rewrite lookup_insert_eq|].
  by rewrite lookup_insert_ne by congruence.
Qed.
Definition own_key (x : Session_t.t) : Z :=
  pcb4_key (address4 (remote_addr x)) (remote_port x) (address4 (local_addr x)) (local_port x) (proto x) session_mask.
Lemma matches4_own x : matches4 (address4 (remote_addr x)) (remote_port x) (address4 (local_addr x)) (local_port x) (proto x) x = true.
Proof. unfold matches4. by rewrite !Z.eqb_refl. Qed.
Lemma matches6_own x : matches6 (address6 (remote_addr x)) (remote_port x) (address6 (local_addr x)) (local_port x) (proto x) x = true.
Proof. unfold matches6. by rewrite !Z.eqb_refl. Qed.
End AlSessionFacts.

(** ** Properties *)
Section Properties.
Import Session_t AlSession AlSessionFacts.

(** C15. A session entered into the table is the one that packets of its connection
    are given from then on, by the lookup of its own address family, IPv4 or IPv6. Lookups
    of either family for other tuples give what they gave before, also when they share
    its bucket; neither lookup compares the family, so that a tuple of the other family
    is another one when it differs from the session's addresses read at that width. *)
Theorem added_session_is_found (s : state) (p : ptr) (x : Session_t.t) :
  heap s !! p = Some x ->
  exists s', al_session_add p s = (ok tt, s')
    /\ (if in_type x
        then tcp6_session_get (address6 (remote_addr x)) (remote_port x) (address6 (local_addr x)) (local_port x) (proto x) s'
        else tcp4_session_get (address4 (remote_addr x)) (remote_port x) (address4 (local_addr x)) (local_port x) (proto x) s')
       = ok (Some p)
    /\ (forall rip rport lip lport_ pr, matches4 rip rport lip lport_ pr x = false ->
        tcp4_session_get rip rport lip lport_ pr s' = tcp4_session_get rip rport lip lport_ pr s)
    /\ (forall rip rport lip lport_ pr, matches6 rip rport lip lport_ pr x = false ->
        tcp6_session_get rip rport lip lport_ pr s' = tcp6_session_get rip rport lip lport_ pr s).
Proof.
  intros Hx. pose proof (add_ok s p x Hx) as E. cbv zeta in E. eexists. split; [exact E|]. clear E.
  set (k := Z.land (session_key x) session_mask). set (s' := field_update _ s).
  assert (heap s' = heap s) as Eh by (by destruct s).
  unfold tcp4_session_get, tcp6_session_get. rewrite Eh. unfold s'. split_and!.
  - assert (k = Z.land (session_key x) session_mask) as Ek by done. unfold session_key in Ek.
    destruct (in_type x); cbn [negb] in Ek; rewrite bucket_add, decide_True by (by rewrite Ek); cbn; rewrite Hx.
    + by rewrite matches6_own.
    + by rewrite matches4_own.
  - intros rip rport lip lport_ pr Hm. rewrite bucket_add. case_decide as Hk; [|done]. rewrite Hk. simpl. by rewrite Hx, Hm.
  - intros rip rport lip lport_ pr Hm. rewrite bucket_add. case_decide as Hk; [|done]. rewrite Hk. simpl. by rewrite Hx, Hm.
Qed.

(** C16. A sweep of the session table is safe and keeps the table sound. It visits
    both sessions of every pair, so that it takes two ticks off each idle
    counter, and removes exactly the pairs of which both sides have run out; it
    never follows a node that it has freed, although it removes nodes while
    it walks the lists. *)
Theorem sweep_keeps_table_sound (s : state) :
  wf s ->
  exists s', al_session_timeout s = (ok tt, s') /\ wf s'
    /\ forall p x y, p ∈ nodes s -> heap s !! p = Some x -> heap s !! up x = Some y ->
       if (stout x <=? 2) && (stout y <=? 2) then heap s' !! p = None /\ p ∉ nodes s'
       else heap s' !! p = Some (x <| stout := Z.max 0 (stout x - 2) |>) /\ p ∈ nodes s'.
Proof.
  intros Hwf. destruct (sweep_pair s Hwf) as (s' & E & _ & _ & Hp).
  exists s'. split; [exact E|]. split; [by eapply sweep_wf|exact Hp].
Qed.

(** C17. Sessions without traffic are freed: a pair whose counters are at most
    [2 * k] is gone after [k] sweeps. From [SESSION_IDLE_TIMEOUT], the 300
    ticks take 150 sweeps. *)
Theorem idle_pair_expires (k : nat) (s : state) (p : ptr) (x y : Session_t.t) :
  wf s -> p ∈ nodes s -> heap s !! p = Some x -> heap s !! up x = Some y ->
  stout x <= 2 * Z.of_nat k -> stout y <= 2 * Z.of_nat k ->
  exists s', sweeps k s = (ok tt, s') /\ wf s' /\ heap s' !! p = None /\ p ∉ nodes s'.
Proof.
  revert s x y. induction k as [|k IH]; intros s x y Hwf Hp Hx Hy Hkx Hky.
  - destruct (pair_of s Hwf p x y Hp Hx Hy) as (_ & _ & _ & _ & _ & [H2|H2]); lia.
  - destruct (sweep_pair s Hwf) as (s1 & E & Hsub & Hun & Hpair).
    assert (wf s1) as Hwf1 by (by eapply sweep_wf).
    destruct (pair_of s Hwf p x y Hp Hx Hy) as (Hu & Hup & Hne & Hsx & Hsy & H2).
    pose proof (Hpair p x y Hp Hx Hy) as HA.
    pose proof (Hpair (up x) y x Hu Hy ltac:(congruence)) as HB. rewrite andb_comm in HB.
    assert (exists s', sweeps k s1 = (ok tt, s') /\ wf s' /\ heap s' !! p = None /\ p ∉ nodes s') as (s' & E' & H').
    { destruct ((stout x <=? 2) && (stout y <=? 2)).
      - apply sweeps_gone; [done|apply HA..].
      - destruct HA as [HA HAn], HB as [HB _].
        apply (IH s1 (x <| stout := Z.max 0 (stout x - 2) |>) (y <| stout := Z.max 0 (stout y - 2) |>));
          [done|done|done| | |].
        + by destruct x.
        + destruct x; cbn in *; lia.
        + destruct y; cbn in *; lia. }
    exists s'. split; [|done]. cbn [sweeps]. by rewrite (st_bind_ok _ _ _ _ _ E).
Qed.

(** With an odd counter the walk would meet a freed node: two sessions whose
    ends mirror each other share a bucket, and the first removes the second. *)
Lemma mirrored_sessions_collide (a ap b bp pr : Z) :
  pcb4_key a ap b bp pr session_mask = pcb4_key b bp a ap pr session_mask.
Proof.
  unfold pcb4_key. f_equal. f_equal. f_equal; [apply Z.lxor_comm|apply Z.lxor_comm].
Qed.
End Properties.

(** ** Witnesses *)
Section Witnesses.
Import Session_t AlSession AlSessionFacts.

(** A client at 10.0.0.1:80 behind the virtual address 10.0.0.10:8080. *)
Definition client_side : Session_t.t :=
  Session_t.mk 1 false false 6 false 3 false 0 4 1%nat 167772170 16777226 36895 20480 [] [] 1 1.
Definition server_side : Session_t.t :=
  Session_t.mk 1 true true 6 false 3 false 0 2 0%nat 33554442 50331658 4660 20480 [] [] 1 1.
Definition sample_heap : state :=
  mk {[ 0%nat := client_side; 1%nat := server_side ]} ∅ 65534 (Tuple5.port_init 41).
Definition sample_table : state := (al_session_add 1%nat ((al_session_add 0%nat sample_heap).2)).2.

(** The same ends as addresses of IPv6. *)
Definition server_side6 : Session_t.t := server_side <| in_type := true |>.
Definition sample_heap6 : state := mk {[ 1%nat := server_side6 ]} ∅ 65534 (Tuple5.port_init 41).

Lemma added_session_is_found_witness :
  (exists s', al_session_add 1%nat sample_heap = (ok tt, s')
    /\ tcp4_session_get 50331658 20480 33554442 4660 6 s' = ok (Some 1%nat))
  /\ exists s', al_session_add 1%nat sample_heap6 = (ok tt, s')
    /\ tcp6_session_get 50331658 20480 33554442 4660 6 s' = ok (Some 1%nat).
Proof.
  split.
  - destruct (added_session_is_found sample_heap 1%nat server_side eq_refl) as (s' & E & H & _).
    exact (ex_intro _ s' (conj E H)).
  - destruct (added_session_is_found sample_heap6 1%nat server_side6 eq_refl) as (s' & E & H & _).
    exact (ex_intro _ s' (conj E H)).
Defined.

Lemma sample_table_wf : wf sample_table.
Proof. apply wf_check_sound. vm_compute. reflexivity. Qed.

Lemma sweep_keeps_table_sound_witness :
  exists s', al_session_timeout sample_table = (ok tt, s') /\ wf s'.
Proof.
  destruct (sweep_keeps_table_sound sample_table sample_table_wf) as (s' & E & H & _).
  exact (ex_intro _ s' (conj E H)).
Defined.

Lemma idle_pair_expires_witness :
  exists s', sweeps 2 sample_table = (ok tt, s') /\ wf s' /\ heap s' !! 0%nat = None /\ 0%nat ∉ nodes s'.
Proof.
  apply (idle_pair_expires 2 sample_table 0%nat client_side server_side sample_table_wf).
  - apply (bool_decide_eq_true_1 _). vm_compute. reflexivity.
  - reflexivity.
  - reflexivity.
  - discriminate.
  - discriminate.
Defined.
End Witnesses.
