(* ===== verification/Process.v ===== *)
(** * Forwarding a packet

    Models [alpha/al_process.c]: the packet of a session leaves with the Ethernet
    addresses, IP addresses and ports of the session's partner and with fresh
    checksums. The packet is an mbuf chain as in [Checksum]; headers are
    addressed by their offset in the first segment, as the pointers the
    callers pass are. Access outside the first segment is undefined
    behaviour. *)

From Stdlib Require Import ZArith Lia Bool.
From stdpp Require Import base tactics option list.
From S2P Require Import Prelude Checksum Tuple5.

Open Scope Z_scope.

Module Process.
Import Session_t Chksum.

Definition AL_FLT_LLB : Z := 2.

Abbreviation packet := (list segment).

(** Bytes at an offset of a list. *)
Definition poke (off : nat) (bs l : list Z) : list Z := take off l ++ bs ++ drop (off + length bs) l.
Definition slice (off n : nat) (l : list Z) : list Z := take n (drop off l).

Definition on_first {A} (f : segment -> res (A * segment)) : st packet A := fun p =>
  match p with
  | [] => (err Undef, p)
  | q :: next =>
      match f q with
      | inl e => (err e, p)
      | inr (a, q) => (ok a, q :: next)
      end
  end.

(** Writes and reads through the header pointers. *)
Definition store (off : nat) (bs : list Z) : st packet unit := on_first (fun q =>
  if (off + length bs <=? length (seg_data q))%nat
  then ok (tt, {| seg_odd := seg_odd q; seg_data := poke off bs (seg_data q) |})
  else err Undef).
Definition load (off n : nat) : st packet (list Z) := on_first (fun q =>
  if (off + n <=? length (seg_data q))%nat then ok (slice off n (seg_data q), q) else err Undef).

(** Little-endian stores and loads of machine words. *)
Definition word16 (v : Z) : list Z := [v mod 256; v / 256 mod 256].
Definition word32 (v : Z) : list Z := Rfc1071.bytes32 v.
Definition word128 (v : Z) : list Z :=
  Rfc1071.bytes32 v ++ Rfc1071.bytes32 (v / 2 ^ 32) ++ Rfc1071.bytes32 (v / 2 ^ 64) ++ Rfc1071.bytes32 (v / 2 ^ 96).
Fixpoint words_of (bs : list Z) : list Z :=
  match bs with lo :: hi :: bs => le16 lo hi :: words_of bs | _ => [] end.
Definition be16 (bs : list Z) : Z := match bs with [hi; lo] => 256 * hi + lo | _ => 0 end.
Definition byte_of (bs : list Z) : Z := match bs with [b] => b | _ => 0 end.

Definition ihl (version_ihl : Z) : Z := Z.land version_ihl 15 * 4.

(** The addresses and ports are those of [up]; the checksum functions read the
    packet as it is by then. *)
Definition rewrite_v4 (up : Session_t.t) (iphdr tcphdr : nat) : st packet unit :=
  do _ <- store (iphdr + 12) (word32 (address4 (local_addr up))) ;;
  do _ <- store (iphdr + 16) (word32 (address4 (remote_addr up))) ;;
  do _ <- store (tcphdr + 16) (word16 0) ;;
  do version_ihl <- load iphdr 1 ;;
  do total_length <- load (iphdr + 2) 2 ;;
  do next_proto_id <- load (iphdr + 9) 1 ;;
  do p <- st_get ;;
  let hlen := ihl (byte_of version_ihl) in
  do _ <- store (tcphdr + 16) (word16 (inet_chksum_pseudo p (u16 (Z.of_nat tcphdr))
    (address4 (local_addr up)) (address4 (remote_addr up)) (byte_of next_proto_id) (u16 (be16 total_length - hlen)))) ;;
  do _ <- store (iphdr + 10) (word16 0) ;;
  do header <- load iphdr (Z.to_nat hlen) ;;
  do p <- st_get ;;
  let odd := match p with q :: _ => mtod_odd q (Z.of_nat iphdr) | [] => false end in
  store (iphdr + 10) (word16 (inet_chksum odd header)).

Definition rewrite_v6 (up : Session_t.t) (iphdr tcphdr : nat) : st packet unit :=
  do _ <- store (iphdr + 8) (word128 (address6 (local_addr up))) ;;
  do _ <- store (iphdr + 24) (word128 (address6 (remote_addr up))) ;;
  do _ <- store (tcphdr + 16) (word16 0) ;;
  do payload_len <- load (iphdr + 4) 2 ;;
  do proto <- load (iphdr + 6) 1 ;;
  do p <- st_get ;;
  store (tcphdr + 16) (word16 (inet6_chksum_pseudo p (u16 (Z.of_nat tcphdr))
    (words_of (word128 (address6 (local_addr up)))) (words_of (word128 (address6 (remote_addr up))))
    (byte_of proto) (u32 (be16 payload_len - 40)))).

(** [al_process( s, buf, iphdr, tcphdr )]: the session [s], its partner
    [s->up], the new [s] and the port the packet is sent to. *)
Definition al_process (s up : Session_t.t) (iphdr tcphdr : nat) : st packet (Session_t.t * Z) :=
  let s := s <| stout := SESSION_IDLE_TIMEOUT |> in
  do _ <- store 0 (from_haddr up) ;;
  do _ <- (if is_dr s then st_ret tt else store 6 (to_haddr up)) ;;
  do _ <- (if ftype s =? AL_FLT_LLB then st_ret tt else
    do _ <- store tcphdr (word16 (local_port up)) ;;
    do _ <- store (tcphdr + 2) (word16 (remote_port up)) ;;
    if negb (in_type up) then rewrite_v4 up iphdr tcphdr else rewrite_v6 up iphdr tcphdr) ;;
  st_ret (s, portid up).
End Process.

(** ** Lemmas *)
Module ProcessFacts.
Import Session_t Chksum ChksumFacts Process.

Lemma length_poke off bs l : (off + length bs <= length l)%nat -> length (poke off bs l) = length l.
Proof. intros H. unfold poke. rewrite !length_app, length_take, length_drop. lia. Qed.

Lemma drop_poke_before a off bs l :
  (off + length bs <= length l)%nat -> (off + length bs <= a)%nat -> drop a (poke off bs l) = drop a l.
Proof.
  intros Hl Ha. unfold poke. rewrite app_assoc, drop_app_ge by (rewrite length_app, length_take; lia).
  rewrite drop_drop. f_equal. rewrite length_app, length_take. lia.
Qed.

Lemma drop_poke_inside a off bs l :
  (off + length bs <= length l)%nat -> (a <= off)%nat -> drop a (poke off bs l) = poke (off - a) bs (drop a l).
Proof.
  intros Hl Ha. unfold poke. rewrite drop_app_le by (rewrite length_take; lia).
  rewrite skipn_firstn_comm, drop_drop. do 3 f_equal. lia.
Qed.

Lemma take_poke_after n off bs l : (n <= off)%nat -> (off + length bs <= length l)%nat ->
  take n (poke off bs l) = take n l.
Proof.
  intros Hn Hl. unfold poke. rewrite take_app_le by (rewrite length_take; lia).
  rewrite take_take. f_equal. lia.
Qed.

Lemma take_poke_inside n off bs l : (off + length bs <= n)%nat -> (n <= length l)%nat ->
  take n (poke off bs l) = poke off bs (take n l).
Proof.
  intros Hn Hl. unfold poke.
  rewrite take_app_ge by (rewrite length_take; lia). rewrite length_take.
  rewrite take_app_ge by lia. rewrite take_take. f_equal; [f_equal; lia|]. f_equal.
  rewrite skipn_firstn_comm. f_equal. lia.
Qed.

(** A field behind or in front of the bytes written. *)
Lemma slice_poke_other a n off bs l :
  (off + length bs <= length l)%nat -> (off + length bs <= a \/ a + n <= off)%nat ->
  slice a n (poke off bs l) = slice a n l.
Proof.
  intros Hl [H|H]; unfold slice.
  - by rewrite drop_poke_before.
  - rewrite drop_poke_inside by lia. apply take_poke_after; [lia|]. rewrite length_drop. lia.
Qed.

Lemma slice_poke_inside a n off bs l :
  (a <= off)%nat -> (off + length bs <= a + n)%nat -> (a + n <= length l)%nat ->
  slice a n (poke off bs l) = poke (off - a) bs (slice a n l).
Proof.
  intros H1 H2 H3. unfold slice. rewrite drop_poke_inside by lia.
  apply take_poke_inside; [lia|]. rewrite length_drop. lia.
Qed.

Lemma slice_poke_same off bs l n : (off + length bs <= length l)%nat -> n = length bs -> slice off n (poke off bs l) = bs.
Proof.
  intros H ->. rewrite slice_poke_inside by lia. rewrite Nat.sub_diag. unfold poke. simpl.
  rewrite drop_ge by (unfold slice; rewrite length_take; lia). apply app_nil_r.
Qed.

Lemma poke_poke off bs bs' l : (off + length bs <= length l)%nat -> length bs = length bs' ->
  poke off bs' (poke off bs l) = poke off bs' l.
Proof.
  intros H E. unfold poke at 1. rewrite <-E, take_poke_after, drop_poke_before by lia. unfold poke. by rewrite E.
Qed.

Lemma poke_bytes off bs l : Forall byte bs -> Forall byte l -> Forall byte (poke off bs l).
Proof.
  intros Hb Hl. unfold poke. repeat apply Forall_app_2; [by apply Forall_take|done|by apply Forall_drop].
Qed.

Lemma word16_bytes v : Forall byte (word16 v).
Proof. unfold word16. repeat apply Forall_cons_2; try done; apply Z.mod_pos_bound; lia. Qed.

Lemma word16_eq v : 0 <= v <= 65535 -> word16 v = [v mod 256; v / 256].
Proof. intros H. unfold word16. do 2 f_equal. apply Z.mod_small. by apply bytes_of_word. Qed.

Lemma store_ok off bs q next : (off + length bs <= length (seg_data q))%nat ->
  store off bs (q :: next) = (ok tt, {| seg_odd := seg_odd q; seg_data := poke off bs (seg_data q) |} :: next).
Proof. intros H. unfold store, on_first. by rewrite (proj2 (Nat.leb_le _ _) H). Qed.

Lemma load_ok off n q next : (off + n <= length (seg_data q))%nat ->
  load off n (q :: next) = (ok (slice off n (seg_data q)), q :: next).
Proof. intros H. unfold load, on_first. rewrite (proj2 (Nat.leb_le _ _) H). by destruct q. Qed.

(** Stores into one segment, one after the other. *)
Definition write (q : segment) (off : nat) (bs : list Z) : segment :=
  {| seg_odd := seg_odd q; seg_data := poke off bs (seg_data q) |}.

Lemma seg_data_write q off bs : seg_data (write q off bs) = poke off bs (seg_data q).
Proof. done. Qed.

Lemma bind_store {B} off bs q next (k : unit -> st packet B) :
  (off + length bs <= length (seg_data q))%nat ->
  st_bind (store off bs) k (q :: next) = k tt (write q off bs :: next).
Proof. intros H. by rewrite (st_bind_ok _ _ _ _ _ (store_ok off bs q next H)). Qed.

Lemma bind_load {B} off n q next (k : list Z -> st packet B) :
  (off + n <= length (seg_data q))%nat ->
  st_bind (load off n) k (q :: next) = k (slice off n (seg_data q)) (q :: next).
Proof. intros H. by rewrite (st_bind_ok _ _ _ _ _ (load_ok off n q next H)). Qed.

Lemma length_write q off bs : (off + length bs <= length (seg_data q))%nat ->
  length (seg_data (write q off bs)) = length (seg_data q).
Proof. apply length_poke. Qed.

(** A header field that [inet_chksum] has filled. *)
Lemma poke_checksum off l c : Forall byte l -> (off + 2 <= length l)%nat -> Nat.odd off = false ->
  0 <= c <= 65535 -> bswap16 c = Rfc1071.checksum (poke off [0; 0] l) ->
  Rfc1071.checksum (poke off (word16 c) l) = 0.
Proof.
  intros Hl Hn He Hc Hs. rewrite word16_eq by done. unfold poke in *.
  apply store_checksum; [by apply Forall_take|by apply Forall_drop| |done|exact Hs].
  by rewrite length_take, Nat.min_l by lia.
Qed.

Lemma inet_chksum_bounds odd data : 0 <= inet_chksum odd data <= 65535.
Proof. unfold inet_chksum. pose proof (u16_bounds (Z.lnot (lwip_standard_chksum odd data))). lia. Qed.
Lemma inet_chksum_pseudo_bounds p boff src dst proto len : 0 <= inet_chksum_pseudo p boff src dst proto len <= 65535.
Proof.
  unfold inet_chksum_pseudo. destruct (sum_chain _ _ _ _).
  match goal with |- 0 <= u16 ?z <= _ => pose proof (u16_bounds z) end. lia.
Qed.

Lemma length_word16 v : length (word16 v) = 2%nat.
Proof. done. Qed.
Lemma length_word32 v : length (word32 v) = 4%nat.
Proof. done. Qed.

(** Side conditions that a field lies in the packet. *)
Ltac in_bounds := rewrite ?length_word16, ?length_word32; cbn [length]; lia.

(** *** The IPv4 rewrite *)
Section Headers.
Context (ip tcp : nat) (q : segment) (next : list segment).

Definition hlen (data : list Z) : Z := ihl (byte_of (slice ip 1 data)).
Definition proto_of (data : list Z) : Z := byte_of (slice (ip + 9) 1 data).
Definition proto_len (data : list Z) : Z := be16 (slice (ip + 2) 2 data) - hlen data.

(** What the callers have checked: the headers lie in the first segment, the IP
    header has its minimal length and ends before the TCP header. *)
Definition has_headers : Prop :=
  Forall valid_segment (q :: next) /\ (14 <= ip)%nat /\ 20 <= hlen (seg_data q)
  /\ Z.of_nat ip + hlen (seg_data q) <= Z.of_nat tcp /\ (tcp + 20 <= length (seg_data q))%nat
  /\ 0 <= proto_len (seg_data q).

(** A TCP packet over IPv4: what follows its total length in the frame, as an Ethernet
    frame is padded, is zeros. *)
Definition tcp_packet : Prop :=
  has_headers /\ proto_of (seg_data q) = 6 /\ 20 <= proto_len (seg_data q)
  /\ Forall (eq 0) (drop (Z.to_nat (proto_len (seg_data q))) (payload (q :: next) (Z.of_nat tcp))).

Lemma header_bounds : has_headers -> (ip + 20 <= tcp)%nat /\ (tcp + 20 <= length (seg_data q))%nat /\ (14 <= ip)%nat
  /\ Z.of_nat (length (seg_data q)) <= 65535.
Proof.
  intros Hq. destruct Hq as (Hv & ? & ? & ? & ? & _). apply Forall_cons in Hv as [[_ Hl] _]. unfold data_len in Hl. lia.
Qed.
End Headers.

Section V4.
Context (up : Session_t.t) (ip tcp : nat) (q : segment) (next : list segment).

(** The packet after the addresses are in place. *)
Let addressed : segment :=
  write (write q (ip + 12) (word32 (address4 (local_addr up)))) (ip + 16) (word32 (address4 (remote_addr up))).
Let zeroed : segment := write addressed (tcp + 16) (word16 0).
Let tcp_sum : Z := inet_chksum_pseudo (zeroed :: next) (u16 (Z.of_nat tcp))
  (address4 (local_addr up)) (address4 (remote_addr up)) (proto_of ip (seg_data q)) (u16 (proto_len ip (seg_data q))).
Let summed : segment := write zeroed (tcp + 16) (word16 tcp_sum).
Let unsummed : segment := write summed (ip + 10) (word16 0).
Let ip_sum : Z :=
  inet_chksum (mtod_odd unsummed (Z.of_nat ip)) (slice ip (Z.to_nat (hlen ip (seg_data q))) (seg_data unsummed)).
Definition rewritten_v4 : segment := write unsummed (ip + 10) (word16 ip_sum).

Context (Hq : has_headers ip tcp q next).

(** Every store stays inside. *)
Lemma lengths : length (seg_data addressed) = length (seg_data q) /\ length (seg_data zeroed) = length (seg_data q)
  /\ length (seg_data summed) = length (seg_data q) /\ length (seg_data unsummed) = length (seg_data q).
Proof.
  pose proof (header_bounds ip tcp q next Hq) as (H1 & H2 & H3 & _).
  assert (length (seg_data (write q (ip + 12) (word32 (address4 (local_addr up))))) = length (seg_data q)) as E0
    by (apply length_write; in_bounds).
  assert (length (seg_data addressed) = length (seg_data q)) as E1
    by (unfold addressed; rewrite length_write; [exact E0|rewrite E0; in_bounds]).
  assert (length (seg_data zeroed) = length (seg_data q)) as E2
    by (unfold zeroed; rewrite length_write; [exact E1|rewrite E1; in_bounds]).
  assert (length (seg_data summed) = length (seg_data q)) as E3
    by (unfold summed; rewrite length_write; [exact E2|rewrite E2; in_bounds]).
  split_and!; [done|done|done|]. unfold unsummed. rewrite length_write; [exact E3|rewrite E3; in_bounds].
Qed.

(** The fields that the code reads again are as they were. *)
Lemma slice_addressed a n : (a + n <= ip + 12)%nat -> slice a n (seg_data zeroed) = slice a n (seg_data q).
Proof.
  intros H. pose proof (header_bounds ip tcp q next Hq) as (H1 & H2 & H3 & _). destruct lengths as (E1 & E2 & _).
  unfold zeroed, addressed in *. simpl seg_data in *.
  rewrite slice_poke_other; [|rewrite E1; in_bounds|in_bounds].
  rewrite slice_poke_other; [|rewrite length_poke; in_bounds|in_bounds].
  rewrite slice_poke_other; [done|in_bounds|in_bounds].
Qed.

Lemma rewrite_v4_ok : rewrite_v4 up ip tcp (q :: next) = (ok tt, rewritten_v4 :: next).
Proof.
  pose proof (header_bounds ip tcp q next Hq) as (H1 & H2 & H3 & H4). destruct lengths as (E1 & E2 & E3 & E4).
  destruct Hq as (_ & _ & Hh1 & Hh2 & _ & Hpl).
  unfold rewrite_v4. rewrite bind_store by in_bounds.
  rewrite bind_store by (rewrite length_write; in_bounds). fold addressed.
  rewrite bind_store by (rewrite E1; in_bounds). fold zeroed.
  rewrite !bind_load by (rewrite E2; lia).
  erewrite st_bind_ok by reflexivity. cbv beta zeta.
  rewrite !slice_addressed by lia. fold (hlen ip (seg_data q)) (proto_of ip (seg_data q)) (proto_len ip (seg_data q)).
  fold tcp_sum. rewrite bind_store by (rewrite E2; in_bounds). fold summed.
  rewrite bind_store by (rewrite E3; in_bounds). fold unsummed.
  rewrite bind_load by (rewrite E4; lia).
  erewrite st_bind_ok by reflexivity. cbv beta zeta iota.
  fold ip_sum. apply store_ok. rewrite E4. in_bounds.
Qed.

Lemma byte_slice a l : Forall byte l -> (a + 1 <= length l)%nat -> byte (byte_of (slice a 1 l)).
Proof.
  intros Hl Ha. unfold slice. pose proof (Forall_drop _ a _ Hl) as H.
  destruct (drop a l) as [|b r] eqn:E; [|by inversion H].
  exfalso. apply (f_equal length) in E. rewrite length_drop in E. simpl in E. lia.
Qed.

Lemma be16_slice a l : Forall byte l -> be16 (slice a 2 l) <= 65535.
Proof.
  intros Hl. unfold slice. pose proof (Forall_drop _ a _ Hl) as H.
  destruct (drop a l) as [|b [|c r]]; simpl; try lia. rewrite !Forall_cons in H.
  destruct H as (Hb & Hc & _). unfold byte in *. lia.
Qed.

Lemma segment_bytes : Forall byte (seg_data addressed) /\ Forall byte (concat (map seg_data next)).
Proof.
  destruct Hq as (Hv & _). apply Forall_cons in Hv as [[Hb _] Hn]. split.
  - unfold addressed, write. simpl. by repeat apply poke_bytes; try apply bytes32_bytes.
  - apply Forall_concat, Forall_map. eapply Forall_impl; [exact Hn|]. by intros r [Hr _].
Qed.

Lemma written_bytes : Forall byte (seg_data zeroed) /\ Forall byte (seg_data summed).
Proof.
  destruct segment_bytes as [Ha _]. assert (Forall byte (seg_data zeroed)) as Hz.
  { unfold zeroed, write. simpl. apply poke_bytes; [apply word16_bytes|done]. }
  split; [done|]. unfold summed, write. simpl. apply poke_bytes; [apply word16_bytes|done].
Qed.

(** Apart from the checksums and the addresses nothing changes. *)
Lemma slice_addresses_only a n : (a + n <= length (seg_data q))%nat ->
  (a + n <= ip + 10 \/ ip + 12 <= a)%nat -> (a + n <= tcp + 16 \/ tcp + 18 <= a)%nat ->
  slice a n (seg_data rewritten_v4) = slice a n (seg_data addressed).
Proof.
  intros Ha H H'. pose proof (header_bounds ip tcp q next Hq) as (H1 & H2 & H3 & H4). destruct lengths as (E1 & E2 & E3 & E4).
  unfold rewritten_v4. rewrite seg_data_write, slice_poke_other by in_bounds.
  unfold unsummed. rewrite seg_data_write, slice_poke_other by in_bounds.
  unfold summed. rewrite seg_data_write, slice_poke_other by in_bounds.
  unfold zeroed. rewrite seg_data_write, slice_poke_other by in_bounds. done.
Qed.

Lemma slice_rewritten a n : (a + n <= length (seg_data q))%nat ->
  (a + n <= ip + 10 \/ ip + 20 <= a)%nat -> (a + n <= tcp + 16 \/ tcp + 18 <= a)%nat ->
  slice a n (seg_data rewritten_v4) = slice a n (seg_data q).
Proof.
  intros Ha H H'. pose proof (header_bounds ip tcp q next Hq) as (H1 & H2 & H3 & H4).
  rewrite slice_addresses_only by lia. unfold addressed.
  rewrite seg_data_write, slice_poke_other by (rewrite ?length_write by in_bounds; in_bounds).
  rewrite seg_data_write, slice_poke_other by in_bounds. done.
Qed.

Lemma slice_addresses :
  slice (ip + 12) 4 (seg_data rewritten_v4) = word32 (address4 (local_addr up))
  /\ slice (ip + 16) 4 (seg_data rewritten_v4) = word32 (address4 (remote_addr up)).
Proof.
  pose proof (header_bounds ip tcp q next Hq) as (H1 & H2 & H3 & H4).
  rewrite !slice_addresses_only by lia. unfold addressed. rewrite seg_data_write. split.
  - rewrite slice_poke_other by (rewrite ?length_write by in_bounds; in_bounds).
    rewrite seg_data_write. apply slice_poke_same; in_bounds.
  - apply slice_poke_same; [rewrite ?length_write by in_bounds; in_bounds|done].
Qed.

Lemma length_rewritten : length (seg_data rewritten_v4) = length (seg_data q).
Proof.
  pose proof (header_bounds ip tcp q next Hq) as (H1 & H2 & H3 & H4). destruct lengths as (E1 & E2 & E3 & E4).
  unfold rewritten_v4. rewrite length_write; in_bounds.
Qed.

(** The IP header that leaves passes the receiver's check. *)
Lemma header_verifies :
  Rfc1071.checksum (slice ip (Z.to_nat (hlen ip (seg_data q))) (seg_data rewritten_v4)) = 0.
Proof.
  pose proof (header_bounds ip tcp q next Hq) as (H1 & H2 & H3 & H4). destruct lengths as (E1 & E2 & E3 & E4).
  destruct written_bytes as [_ Hs]. destruct Hq as (_ & _ & Hh1 & Hh2 & _ & _).
  set (n := Z.to_nat (hlen ip (seg_data q))) in *.
  assert (Z.of_nat n = hlen ip (seg_data q)) as Hn by (unfold n; lia).
  assert (slice ip n (seg_data unsummed) = poke 10 [0; 0] (slice ip n (seg_data summed))) as Eu.
  { unfold unsummed. rewrite seg_data_write, slice_poke_inside by in_bounds.
    by replace (ip + 10 - ip)%nat with 10%nat by lia. }
  unfold rewritten_v4. rewrite seg_data_write.
  rewrite slice_poke_inside by in_bounds. replace (ip + 10 - ip)%nat with 10%nat by lia.
  assert (length (slice ip n (seg_data summed)) = n) as En
    by (unfold slice; rewrite length_take, length_drop; lia).
  rewrite Eu, poke_poke by in_bounds.
  assert (Forall byte (slice ip n (seg_data summed))) as Hb by (by apply Forall_take, Forall_drop).
  apply poke_checksum; [done|lia|done|apply inet_chksum_bounds|]. rewrite <-Eu.
  apply chksum_correct.
  - rewrite Eu. apply poke_bytes; [by repeat constructor|done].
  - rewrite Eu, length_poke, En by in_bounds. lia.
Qed.

Lemma poke_app_l off bs l r : (off + length bs <= length l)%nat -> poke off bs l ++ r = poke off bs (l ++ r).
Proof.
  intros H. unfold poke. rewrite <-!app_assoc, take_app_le, drop_app_le by lia. done.
Qed.
Lemma poke_app_r pre off bs l : pre ++ poke off bs l = poke (length pre + off) bs (pre ++ l).
Proof.
  unfold poke. rewrite take_app_ge by lia. replace (length pre + off - length pre)%nat with off by lia.
  rewrite drop_app_ge by lia. replace (length pre + off + length bs - length pre)%nat with (off + length bs)%nat by lia.
  by rewrite <-app_assoc.
Qed.

(** So does the TCP segment. *)
Lemma segment_verifies :
  Rfc1071.checksum (Rfc1071.pseudo_header (address4 (local_addr up)) (address4 (remote_addr up))
      (proto_of ip (seg_data q)) (proto_len ip (seg_data q)) ++ payload (rewritten_v4 :: next) (Z.of_nat tcp)) = 0.
Proof.
  pose proof (header_bounds ip tcp q next Hq) as (H1 & H2 & H3 & H4). destruct lengths as (E1 & E2 & E3 & E4).
  destruct segment_bytes as [Ha Hn]. destruct written_bytes as [Hz _].
  pose proof Hq as (Hv & _ & Hh1 & Hh2 & _ & Hpl). apply Forall_cons in Hv as [[Hb Hl] Hvn].
  set (header := Rfc1071.pseudo_header _ _ _ _).
  assert (byte (proto_of ip (seg_data q))) as Hp by (apply byte_slice; [done|lia]).
  assert (in_width 16 (proto_len ip (seg_data q))) as Hlen.
  { pose proof (be16_slice (ip + 2) _ Hb). unfold proto_len in *. width_lia. }
  assert (forall c, payload (write zeroed (tcp + 16) (word16 c) :: next) (Z.of_nat tcp)
    = poke 16 (word16 c) (drop tcp (seg_data addressed)) ++ concat (map seg_data next)) as Epay.
  { intros c. unfold payload. f_equal. unfold mtod_data. rewrite Nat2Z.id.
    unfold zeroed. rewrite !seg_data_write. rewrite poke_poke by in_bounds. rewrite drop_poke_inside by in_bounds.
    by replace (tcp + 16 - tcp)%nat with 16%nat by lia. }
  assert (payload (rewritten_v4 :: next) (Z.of_nat tcp) = payload (summed :: next) (Z.of_nat tcp)) as ->.
  { unfold payload. f_equal. unfold mtod_data. rewrite Nat2Z.id. unfold rewritten_v4. rewrite seg_data_write.
    rewrite drop_poke_before by in_bounds. unfold unsummed. rewrite seg_data_write.
    apply drop_poke_before; in_bounds. }
  unfold summed. rewrite Epay.
  rewrite poke_app_l by (rewrite length_drop; in_bounds). rewrite poke_app_r.
  assert (Forall byte header) as Hh by (by apply pseudo_header_bytes).
  apply poke_checksum.
  - apply Forall_app_2; [done|]. apply Forall_app_2; [by apply Forall_drop|done].
  - rewrite !length_app, length_drop, E1. simpl. lia.
  - done.
  - apply inet_chksum_pseudo_bounds.
  - rewrite <-poke_app_r, <-poke_app_l by (rewrite length_drop; in_bounds).
    change [0; 0] with (word16 0). rewrite <-Epay.
    assert (write zeroed (tcp + 16) (word16 0) = zeroed) as ->.
    { unfold zeroed at 1. unfold write at 1. rewrite seg_data_write. unfold zeroed, write. f_equal.
      apply poke_poke; in_bounds. }
    unfold tcp_sum. rewrite !u16_small by (width_lia || lia).
    apply chksum_pseudo_correct; try done.
    + apply Forall_cons. split; [|done]. split; [done|]. unfold data_len. lia.
    + lia.
    + unfold data_len. lia.
    + apply u32_bounds.
    + apply u32_bounds.
Qed.
(** Of a padded packet the receiver takes the segment only. *)
Lemma segment_alone_verifies : let n := Z.to_nat (proto_len ip (seg_data q)) in
  Forall (eq 0) (drop n (payload (rewritten_v4 :: next) (Z.of_nat tcp))) ->
  Rfc1071.checksum (Rfc1071.pseudo_header (address4 (local_addr up)) (address4 (remote_addr up))
      (proto_of ip (seg_data q)) (proto_len ip (seg_data q)) ++ take n (payload (rewritten_v4 :: next) (Z.of_nat tcp))) = 0.
Proof.
  intros n Hz. pose proof segment_verifies as E. rewrite <- (take_drop n (payload (rewritten_v4 :: next) (Z.of_nat tcp))) in E.
  rewrite app_assoc, checksum_zeros in E; [exact E| |exact Hz]. clear E.
  pose proof (header_bounds ip tcp q next Hq) as (H1 & H2 & H3 & H4). destruct segment_bytes as [_ Hn]. destruct written_bytes as [_ Hs].
  pose proof Hq as (Hv & _ & Hh1 & Hh2 & _ & Hpl). apply Forall_cons in Hv as [[Hb Hl] _].
  assert (byte (proto_of ip (seg_data q))) as Hp by (apply byte_slice; [done|lia]).
  assert (in_width 16 (proto_len ip (seg_data q))) as Hlen.
  { pose proof (be16_slice (ip + 2) _ Hb). unfold proto_len in *. width_lia. }
  apply Forall_app_2.
  - by apply pseudo_header_bytes.
  - apply Forall_take. unfold payload, mtod_data. apply Forall_app_2; [|done]. apply Forall_drop. unfold rewritten_v4, unsummed.
    rewrite !seg_data_write. apply poke_bytes; [apply word16_bytes|]. by apply poke_bytes; [repeat constructor|].
Qed.
End V4.

(** *** The Ethernet header and the ports *)
Lemma has_headers_write ip tcp q next off bs :
  has_headers ip tcp q next -> Forall byte bs -> (off + length bs <= length (seg_data q))%nat ->
  (off + length bs <= ip \/ ip + 20 <= off)%nat -> has_headers ip tcp (write q off bs) next.
Proof.
  intros H Hbs Hl Hd. pose proof (header_bounds ip tcp q next H) as (H1 & H2 & H3 & _).
  destruct H as (Hv & Hip & Hh & Ht & Hlen & Hp). apply Forall_cons in Hv as [[Hb Hdl] Hn].
  unfold has_headers, hlen, proto_len, hlen in *. rewrite !seg_data_write, length_poke by done.
  rewrite !slice_poke_other by lia. split_and!; try done. apply Forall_cons. split; [|done].
  split; [by apply poke_bytes|]. unfold data_len. by rewrite length_write.
Qed.

(** The packet with the partner's Ethernet addresses and ports. *)
Definition readdressed (s up : Session_t.t) (tcp : nat) (q : segment) : segment :=
  let q := write q 0 (from_haddr up) in
  let q := if is_dr s then q else write q 6 (to_haddr up) in
  write (write q tcp (word16 (local_port up))) (tcp + 2) (word16 (remote_port up)).

(** A hardware address is six bytes. *)
Definition haddr (a : list Z) : Prop := Forall byte a /\ length a = 6%nat.

Section Readdressed.
Context (s up : Session_t.t) (ip tcp : nat) (q : segment) (next : list segment).
Context (Hq : has_headers ip tcp q next) (Hf : haddr (from_haddr up)) (Ht : haddr (to_haddr up)).
Let ethernet : segment :=
  if is_dr s then write q 0 (from_haddr up) else write (write q 0 (from_haddr up)) 6 (to_haddr up).

Lemma length_ethernet : length (seg_data ethernet) = length (seg_data q).
Proof.
  pose proof (header_bounds _ _ _ _ Hq) as (H1 & H2 & H3 & _). destruct Hf as [_ Ef], Ht as [_ Et].
  unfold ethernet. destruct (is_dr s); rewrite ?length_write; rewrite ?length_write; lia.
Qed.

Lemma length_readdressed : length (seg_data (readdressed s up tcp q)) = length (seg_data q).
Proof.
  pose proof (header_bounds _ _ _ _ Hq) as (H1 & H2 & H3 & _). pose proof length_ethernet as E.
  unfold readdressed. fold ethernet. rewrite length_write; rewrite length_write; in_bounds.
Qed.

Lemma readdressed_headers : has_headers ip tcp (readdressed s up tcp q) next.
Proof.
  pose proof (header_bounds _ _ _ _ Hq) as (H1 & H2 & H3 & _). pose proof length_ethernet as E.
  destruct Hf as [Hfb Ef], Ht as [Htb Et].
  unfold readdressed. fold ethernet. repeat (apply has_headers_write; [|apply word16_bytes| |]).
  2-5: (rewrite ?length_write; in_bounds).
  unfold ethernet. destruct (is_dr s); repeat (apply has_headers_write; [|done| |]); try done; rewrite ?length_write; lia.
Qed.

Lemma slice_readdressed a n : (14 <= a)%nat -> (a + n <= tcp \/ tcp + 4 <= a)%nat -> (a + n <= length (seg_data q))%nat ->
  slice a n (seg_data (readdressed s up tcp q)) = slice a n (seg_data q).
Proof.
  intros Ha H Hn. pose proof (header_bounds _ _ _ _ Hq) as (H1 & H2 & H3 & _). pose proof length_ethernet as E.
  destruct Hf as [_ Ef], Ht as [_ Et]. unfold readdressed. fold ethernet.
  rewrite seg_data_write, slice_poke_other by (rewrite ?length_write by in_bounds; in_bounds).
  rewrite seg_data_write, slice_poke_other by in_bounds.
  unfold ethernet. destruct (is_dr s); rewrite ?seg_data_write, !slice_poke_other;
    rewrite ?length_poke; rewrite ?length_poke; try done; lia.
Qed.

Lemma readdressed_fields :
  slice 0 6 (seg_data (readdressed s up tcp q)) = from_haddr up
  /\ slice tcp 2 (seg_data (readdressed s up tcp q)) = word16 (local_port up)
  /\ slice (tcp + 2) 2 (seg_data (readdressed s up tcp q)) = word16 (remote_port up).
Proof.
  pose proof (header_bounds _ _ _ _ Hq) as (H1 & H2 & H3 & _). pose proof length_ethernet as E.
  destruct Hf as [_ Ef], Ht as [_ Et]. unfold readdressed. fold ethernet. rewrite !seg_data_write. split_and!.
  - rewrite !slice_poke_other by (rewrite ?length_poke by in_bounds; in_bounds).
    unfold ethernet. destruct (is_dr s); rewrite ?seg_data_write.
    + apply slice_poke_same; lia.
    + rewrite slice_poke_other by (rewrite ?length_poke; lia). apply slice_poke_same; lia.
  - rewrite slice_poke_other by (rewrite ?length_poke by in_bounds; in_bounds). apply slice_poke_same; in_bounds.
  - apply slice_poke_same; [rewrite ?length_poke by in_bounds; in_bounds|done].
Qed.

Lemma al_process_ok : ftype s <> AL_FLT_LLB -> in_type up = false ->
  al_process s up ip tcp (q :: next)
  = (ok (s <| stout := SESSION_IDLE_TIMEOUT |>, portid up),
     rewritten_v4 up ip tcp (readdressed s up tcp q) next :: next).
Proof.
  intros Hll Hv4. pose proof (header_bounds _ _ _ _ Hq) as (H1 & H2 & H3 & _). pose proof length_ethernet as E.
  destruct Hf as [Hfb Ef], Ht as [Htb Et]. unfold al_process. cbv zeta.
  assert (forall z, is_dr (s <| stout := z |>) = is_dr s) as -> by (by destruct s).
  assert (forall z, ftype (s <| stout := z |>) = ftype s) as -> by (by destruct s).
  rewrite bind_store by lia.
  assert ((if is_dr s then st_ret tt else store 6 (to_haddr up)) (write q 0 (from_haddr up) :: next)
    = (ok tt, ethernet :: next)) as Ee.
  { unfold ethernet. destruct (is_dr s); [done|]. apply store_ok. rewrite length_write; lia. }
  rewrite (st_bind_ok _ _ _ _ _ Ee), (proj2 (Z.eqb_neq _ _) Hll), Hv4.
  erewrite st_bind_ok; [reflexivity|].
  rewrite bind_store by in_bounds. rewrite bind_store by (rewrite length_write by in_bounds; in_bounds).
  apply (rewrite_v4_ok up ip tcp (readdressed s up tcp q) next), readdressed_headers.
Qed.
End Readdressed.

(** The packet that leaves: the partner's hardware address, addresses and ports, the
    data unchanged, and checksums that the receiver accepts, who takes from the total
    length how long the header and the segment are. *)
Definition forwards (up : Session_t.t) (ip tcp : nat) (q q' : segment) (next : list segment) : Prop :=
  let d := seg_data q' in
  length d = length (seg_data q)
  /\ slice 0 6 d = from_haddr up
  /\ slice (ip + 12) 4 d = word32 (address4 (local_addr up))
  /\ slice (ip + 16) 4 d = word32 (address4 (remote_addr up))
  /\ slice tcp 2 d = word16 (local_port up) /\ slice (tcp + 2) 2 d = word16 (remote_port up)
  /\ (forall n, (tcp + 18 + n <= length (seg_data q))%nat -> slice (tcp + 18) n d = slice (tcp + 18) n (seg_data q))
  /\ Rfc1071.checksum (slice ip (Z.to_nat (hlen ip d)) d) = 0
  /\ Rfc1071.checksum (Rfc1071.pseudo_header (address4 (local_addr up)) (address4 (remote_addr up)) (proto_of ip d) (proto_len ip d)
       ++ take (Z.to_nat (proto_len ip d)) (payload (q' :: next) (Z.of_nat tcp))) = 0.

(** What is behind the checksum stays, so the padding is still zeros. *)
Lemma padding_stays tcp q q' next n : (tcp + 18 <= length (seg_data q))%nat -> length (seg_data q') = length (seg_data q) ->
  (forall n, (tcp + 18 + n <= length (seg_data q))%nat -> slice (tcp + 18) n (seg_data q') = slice (tcp + 18) n (seg_data q)) ->
  (18 <= n)%nat -> drop n (payload (q' :: next) (Z.of_nat tcp)) = drop n (payload (q :: next) (Z.of_nat tcp)).
Proof.
  intros Hl El Hs Hn. unfold payload, mtod_data. rewrite Nat2Z.id. replace n with (18 + (n - 18))%nat by lia. rewrite <- !drop_drop. f_equal.
  rewrite !drop_app_le by (rewrite length_drop; lia). rewrite !drop_drop. f_equal.
  specialize (Hs (length (seg_data q) - (tcp + 18))%nat ltac:(lia)). unfold slice in Hs. rewrite !take_ge in Hs by (rewrite length_drop; lia). exact Hs.
Qed.

Lemma al_process_forwards (s up : Session_t.t) (ip tcp : nat) (q : segment) (next : list segment) :
  tcp_packet ip tcp q next -> haddr (from_haddr up) -> haddr (to_haddr up) ->
  ftype s <> AL_FLT_LLB -> in_type up = false ->
  exists q', al_process s up ip tcp (q :: next)
      = (ok (s <| stout := SESSION_IDLE_TIMEOUT |>, portid up), q' :: next) /\ forwards up ip tcp q q' next.
Proof.
  intros (Hq & Hp6 & Hp20 & Hpad) Hf Ht Hll Hv4. pose proof (header_bounds _ _ _ _ Hq) as (H1 & H2 & H3 & _).
  pose proof (readdressed_headers s up ip tcp q next Hq Hf Ht) as Hr.
  pose proof (length_readdressed s up ip tcp q next Hq Hf Ht) as El.
  pose proof (readdressed_fields s up ip tcp q next Hq Hf Ht) as (F1 & F2 & F3).
  set (r := readdressed s up tcp q) in *.
  eexists. split; [by apply al_process_ok|]. unfold forwards. cbv zeta. fold r.
  pose proof (slice_rewritten up ip tcp r next Hr) as S. rewrite El in S.
  assert (hlen ip (seg_data (rewritten_v4 up ip tcp r next)) = hlen ip (seg_data r)) as Eh
    by (unfold hlen; by rewrite S by lia).
  assert (proto_of ip (seg_data (rewritten_v4 up ip tcp r next)) = proto_of ip (seg_data r)) as Ep
    by (unfold proto_of; by rewrite S by lia).
  assert (proto_len ip (seg_data (rewritten_v4 up ip tcp r next)) = proto_len ip (seg_data r)) as Epl
    by (unfold proto_len; by rewrite Eh, S by lia).
  rewrite Eh, Ep, Epl. destruct (slice_addresses up ip tcp r next Hr) as [A1 A2].
  assert (Hdata : forall n, (tcp + 18 + n <= length (seg_data q))%nat ->
    slice (tcp + 18) n (seg_data (rewritten_v4 up ip tcp r next)) = slice (tcp + 18) n (seg_data q)).
  { intros n Hn. rewrite S by lia. eapply slice_readdressed; [done|done|done|lia|lia|lia]. }
  split_and!; [by rewrite length_rewritten|by rewrite S by lia|done|done|by rewrite S by lia|by rewrite S by lia| | |].
  - exact Hdata.
  - by apply header_verifies.
  - assert (proto_len ip (seg_data r) = proto_len ip (seg_data q)) as Er.
    { unfold proto_len, hlen, r. by rewrite !(slice_readdressed s up ip tcp q next Hq Hf Ht) by lia. }
    apply segment_alone_verifies; [done|]. rewrite Er. rewrite (padding_stays tcp q); [exact Hpad|lia|by rewrite length_rewritten|exact Hdata|lia].
Qed.
End ProcessFacts.

(** ** Properties *)
Section Properties.
Import Session_t Chksum ChksumFacts Process ProcessFacts.

(** C14. A TCP packet over IPv4 of a session of a translating filter (any type but
    LLB) leaves valid, when what the frame holds behind the IP packet is zeros: with
    the partner session's hardware address, addresses and ports, a header checksum
    and, over the length the IP header gives, a TCP checksum that the receiver
    accepts, every byte behind the checksum field unchanged, on the partner's port;
    the session's idle time starts again. *)
Theorem forwarded_packet_is_valid (s up : Session_t.t) (ip tcp : nat) (q : segment) (next : list segment) :
  tcp_packet ip tcp q next -> haddr (from_haddr up) -> haddr (to_haddr up) ->
  ftype s <> AL_FLT_LLB -> in_type up = false ->
  exists q', al_process s up ip tcp (q :: next)
      = (ok (s <| stout := SESSION_IDLE_TIMEOUT |>, portid up), q' :: next)
    /\ let d := seg_data q' in
       length d = length (seg_data q)
       /\ slice 0 6 d = from_haddr up
       /\ slice (ip + 12) 4 d = word32 (address4 (local_addr up))
       /\ slice (ip + 16) 4 d = word32 (address4 (remote_addr up))
       /\ slice tcp 2 d = word16 (local_port up) /\ slice (tcp + 2) 2 d = word16 (remote_port up)
       /\ (forall n, (tcp + 18 + n <= length (seg_data q))%nat -> slice (tcp + 18) n d = slice (tcp + 18) n (seg_data q))
       /\ Rfc1071.checksum (slice ip (Z.to_nat (hlen ip d)) d) = 0
       /\ Rfc1071.checksum (Rfc1071.pseudo_header (address4 (local_addr up)) (address4 (remote_addr up)) (proto_of ip d) (proto_len ip d)
            ++ take (Z.to_nat (proto_len ip d)) (payload (q' :: next) (Z.of_nat tcp))) = 0.
Proof. apply al_process_forwards. Qed.
End Properties.

(** ** Witnesses *)
Section Witnesses.
Import Session_t Chksum ChksumFacts Process ProcessFacts.

(** A TCP packet of 10.0.0.2 with five bytes of data, the last two in a second
    segment, and the partner session towards 10.0.0.3. *)
Definition sample_packet : segment :=
  {| seg_odd := false;
     seg_data := repeat 1 12 ++ [8; 0]
       ++ [69; 0; 0; 45; 0; 1; 0; 0; 64; 6; 0; 0; 10; 0; 0; 2; 10; 0; 0; 1]
       ++ [48; 57; 0; 80; 0; 0; 0; 1; 0; 0; 0; 2; 80; 24; 1; 0; 0; 0; 0; 0] ++ [104; 101; 108] |}.
Definition sample_tail : list segment := [{| seg_odd := true; seg_data := [108; 111] |}].
Definition sample_partner : Session_t.t :=
  Session_t.mk 1 true true 6 false 3 false 7 300 0%nat 16777226 50331658 4660 20480
    [2; 0; 0; 0; 0; 1] [2; 0; 0; 0; 0; 3] 1 1.

Lemma forwarded_packet_is_valid_witness :
  exists q', al_process sample_partner sample_partner 14 34 (sample_packet :: sample_tail)
      = (ok (sample_partner, 7), q' :: sample_tail)
    /\ slice 0 6 (seg_data q') = [2; 0; 0; 0; 0; 3]
    /\ Rfc1071.checksum (slice 14 20 (seg_data q')) = 0.
Proof.
  destruct (forwarded_packet_is_valid sample_partner sample_partner 14 34 sample_packet sample_tail)
    as (q' & E & _ & H1 & _ & _ & _ & _ & _ & H2 & _).
  - split; [|split; [reflexivity|split; [discriminate|repeat constructor]]].
    unfold has_headers. split; [repeat constructor; discriminate|].
    repeat split; try (apply Nat.leb_le; reflexivity); discriminate.
  - split; [repeat constructor; discriminate|reflexivity].
  - split; [repeat constructor; discriminate|reflexivity].
  - discriminate.
  - reflexivity.
  - vm_compute in E. injection E as <-.
    eexists. split; [vm_compute; reflexivity|]. split; [exact H1|exact H2].
Defined.
End Witnesses.
