(* ===== verification/RbTree.v ===== *)
(** * The red-black tree of the data plane's tables

    Models [alpha/al_tree.c] and [alpha/al_tree.h] with their pointers: nodes live
    in a heap and point at their children and their parent; leaves are one
    shared sentinel node, whose parent pointer the deletion uses; the root's
    parent pointer may dangle. Loops take the number of nodes in the heap as
    fuel. [tree->insert] is [al_rbtree_insert_value], which is what every
    caller installs. *)

From Stdlib Require Import ZArith Lia Bool Sorted.
From stdpp Require Import base tactics option gmap list sets.
From S2P Require Import Prelude.

Module RbTree.
Definition ptr := nat.
Definition NULL : ptr := 0.

(** [al_rbtree_node_t]; the color is set for red. What follows it in memory is
    the caller's. *)
Record node := mk_node { key : Z; left_ : ptr; right_ : ptr; parent : ptr; color : bool }.

(** [al_rbtree_t] with the memory it lives in. *)
Record state := mk { heap : gmap ptr node; root : ptr; sentinel : ptr }.

(** *** Memory accesses *)
Definition deref (p : ptr) : st state node := fun s =>
  match heap s !! p with Some x => (ok x, s) | None => (err Undef, s) end.
Definition update (p : ptr) (f : node -> node) : st state unit :=
  do x <- deref p ;; st_modify (fun s => s <| heap := <[p := f x]> (heap s) |>).
Definition get {A} (field : node -> A) (p : ptr) : st state A := do x <- deref p ;; st_ret (field x).

Definition set_left (p v : ptr) : st state unit := update p (fun x => x <| left_ := v |>).
Definition set_right (p v : ptr) : st state unit := update p (fun x => x <| right_ := v |>).
Definition set_parent (p v : ptr) : st state unit := update p (fun x => x <| parent := v |>).
Definition set_color (c : bool) (p : ptr) : st state unit := update p (fun x => x <| color := c |>).
Definition al_rbt_red : ptr -> st state unit := set_color true.
Definition al_rbt_black : ptr -> st state unit := set_color false.
Definition al_rbt_is_red (p : ptr) : st state bool := get color p.
Definition al_rbt_is_black (p : ptr) : st state bool := do c <- get color p ;; st_ret (negb c).
Definition get_root : st state ptr := fun s => (ok (root s), s).
Definition set_root (p : ptr) : st state unit := st_modify (fun s => s <| root := p |>).
Definition get_sentinel : st state ptr := fun s => (ok (sentinel s), s).
Definition when (b : bool) (c : st state unit) : st state unit := if b then c else st_ret tt.
Definition fuel (s : state) : nat := S (size (heap s)).

(** [al_rbtree_init] *)
Definition al_rbtree_init (s : ptr) : st state unit :=
  do _ <- al_rbt_black s ;;
  do _ <- set_root s ;;
  st_modify (fun t => t <| sentinel := s |>).

(** *** Rotations *)

(** [if (node == node->parent->left) node->parent->left = temp; else node->parent->right = temp;] *)
Definition relink (node temp : ptr) : st state unit :=
  do np <- get parent node ;;
  do npl <- get left_ np ;;
  if (node =? npl)%nat
  then do np <- get parent node ;; set_left np temp
  else do np <- get parent node ;; set_right np temp.
(** The same in the order of the right rotation. *)
Definition relink_right (node temp : ptr) : st state unit :=
  do np <- get parent node ;;
  do npr <- get right_ np ;;
  if (node =? npr)%nat
  then do np <- get parent node ;; set_right np temp
  else do np <- get parent node ;; set_left np temp.
(** [if (p != sentinel) p->parent = node;] *)
Definition adopt (p node : ptr) : st state unit :=
  do sentinel <- get_sentinel ;;
  when (negb (p =? sentinel)%nat) (set_parent p node).

Definition al_rbtree_left_rotate (node : ptr) : st state unit :=
  do temp <- get right_ node ;;
  do tl <- get left_ temp ;;
  do _ <- set_right node tl ;;
  do tl <- get left_ temp ;;
  do _ <- adopt tl node ;;
  do np <- get parent node ;;
  do _ <- set_parent temp np ;;
  do root <- get_root ;;
  do _ <- (if (node =? root)%nat then set_root temp else relink node temp) ;;
  do _ <- set_left temp node ;;
  set_parent node temp.

Definition al_rbtree_right_rotate (node : ptr) : st state unit :=
  do temp <- get left_ node ;;
  do tr <- get right_ temp ;;
  do _ <- set_left node tr ;;
  do tr <- get right_ temp ;;
  do _ <- adopt tr node ;;
  do np <- get parent node ;;
  do _ <- set_parent temp np ;;
  do root <- get_root ;;
  do _ <- (if (node =? root)%nat then set_root temp else relink_right node temp) ;;
  do _ <- set_right temp node ;;
  set_parent node temp.

(** *** Insertion *)
Fixpoint insert_value_loop (fuel : nat) (temp node : ptr) : st state unit :=
  match fuel with
  | O => st_throw Undef
  | S fuel =>
      do nk <- get key node ;;
      do tk <- get key temp ;;
      do sentinel <- get_sentinel ;;
      let side := (nk <? tk)%Z in
      do p <- (if side then get left_ temp else get right_ temp) ;;
      if (p =? sentinel)%nat then
        do _ <- (if side then set_left temp node else set_right temp node) ;;
        do _ <- set_parent node temp ;;
        do _ <- set_left node sentinel ;;
        do _ <- set_right node sentinel ;;
        al_rbt_red node
      else insert_value_loop fuel p node
  end.
Definition al_rbtree_insert_value (temp node : ptr) : st state unit :=
  do s <- st_get ;; insert_value_loop (fuel s) temp node.

(** [node->parent->parent] *)
Definition grandparent (node : ptr) : st state ptr := do p <- get parent node ;; get parent p.

(** The branch of the loop for a parent that is a left child. *)
Definition insert_fix_left (node : ptr) : st state ptr :=
  do g <- grandparent node ;;
  do temp <- get right_ g ;;
  do red <- al_rbt_is_red temp ;;
  if red then
    do p <- get parent node ;; do _ <- al_rbt_black p ;;
    do _ <- al_rbt_black temp ;;
    do g <- grandparent node ;; do _ <- al_rbt_red g ;;
    grandparent node
  else
    do p <- get parent node ;;
    do pr <- get right_ p ;;
    do node <- (if (node =? pr)%nat
                then do node <- get parent node ;; do _ <- al_rbtree_left_rotate node ;; st_ret node
                else st_ret node) ;;
    do p <- get parent node ;; do _ <- al_rbt_black p ;;
    do g <- grandparent node ;; do _ <- al_rbt_red g ;;
    do g <- grandparent node ;; do _ <- al_rbtree_right_rotate g ;;
    st_ret node.

(** The branch for a parent that is a right child. *)
Definition insert_fix_right (node : ptr) : st state ptr :=
  do g <- grandparent node ;;
  do temp <- get left_ g ;;
  do red <- al_rbt_is_red temp ;;
  if red then
    do p <- get parent node ;; do _ <- al_rbt_black p ;;
    do _ <- al_rbt_black temp ;;
    do g <- grandparent node ;; do _ <- al_rbt_red g ;;
    grandparent node
  else
    do p <- get parent node ;;
    do pl <- get left_ p ;;
    do node <- (if (node =? pl)%nat
                then do node <- get parent node ;; do _ <- al_rbtree_right_rotate node ;; st_ret node
                else st_ret node) ;;
    do p <- get parent node ;; do _ <- al_rbt_black p ;;
    do g <- grandparent node ;; do _ <- al_rbt_red g ;;
    do g <- grandparent node ;; do _ <- al_rbtree_left_rotate g ;;
    st_ret node.

(** [while (node != *root && al_rbt_is_red(node->parent))], and the blackening of
    the root behind it. *)
Fixpoint insert_rebalance (fuel : nat) (node : ptr) : st state unit :=
  match fuel with
  | O => st_throw Undef
  | S fuel =>
      do root <- get_root ;;
      do again <- (if (node =? root)%nat then st_ret false
                   else do p <- get parent node ;; al_rbt_is_red p) ;;
      if again : bool then
        do p <- get parent node ;;
        do g <- grandparent node ;;
        do gl <- get left_ g ;;
        do node <- (if (p =? gl)%nat then insert_fix_left node else insert_fix_right node) ;;
        insert_rebalance fuel node
      else do root <- get_root ;; al_rbt_black root
  end.

Definition al_rbtree_insert (node : ptr) : st state unit :=
  do root <- get_root ;;
  do sentinel <- get_sentinel ;;
  if (root =? sentinel)%nat then
    do _ <- set_parent node NULL ;;
    do _ <- set_left node sentinel ;;
    do _ <- set_right node sentinel ;;
    do _ <- al_rbt_black node ;;
    set_root node
  else
    do _ <- al_rbtree_insert_value root node ;;
    do s <- st_get ;;
    insert_rebalance (fuel s) node.

(** *** Lookup and iteration *)
Fixpoint min_loop (fuel : nat) (node : ptr) : st state ptr :=
  match fuel with
  | O => st_throw Undef
  | S fuel =>
      do sentinel <- get_sentinel ;;
      do l <- get left_ node ;;
      if negb (l =? sentinel)%nat then min_loop fuel l else st_ret node
  end.
Definition al_rbtree_min (node : ptr) : st state ptr := do s <- st_get ;; min_loop (fuel s) node.

Fixpoint lookup_loop (fuel : nat) (key_ : Z) (p : ptr) : st state ptr :=
  match fuel with
  | O => st_throw Undef
  | S fuel =>
      do sentinel <- get_sentinel ;;
      if (p =? sentinel)%nat then st_ret NULL else
      do k <- get key p ;;
      if (key_ <? k)%Z then do p <- get left_ p ;; lookup_loop fuel key_ p else
      do k <- get key p ;;
      if (k <? key_)%Z then do p <- get right_ p ;; lookup_loop fuel key_ p else
      st_ret p
  end.
Definition al_rbtree_lookup (key_ : Z) : st state ptr :=
  do s <- st_get ;; lookup_loop (fuel s) key_ (root s).

Fixpoint next_loop (fuel : nat) (root node : ptr) : st state ptr :=
  match fuel with
  | O => st_throw Undef
  | S fuel =>
      do parent_ <- get parent node ;;
      if (node =? root)%nat then st_ret NULL else
      do pl <- get left_ parent_ ;;
      if (node =? pl)%nat then st_ret parent_ else next_loop fuel root parent_
  end.
Definition al_rbtree_next (node : ptr) : st state ptr :=
  do sentinel <- get_sentinel ;;
  do r <- get right_ node ;;
  if negb (r =? sentinel)%nat then al_rbtree_min r
  else do root <- get_root ;; do s <- st_get ;; next_loop (fuel s) root node.

(** *** Deletion *)

(** The node to unlink, and the child that takes its place. *)
Definition find_subst (node : ptr) : st state (ptr * ptr) :=
  do sentinel <- get_sentinel ;;
  do nl <- get left_ node ;;
  if (nl =? sentinel)%nat then do temp <- get right_ node ;; st_ret (temp, node) else
  do nr <- get right_ node ;;
  if (nr =? sentinel)%nat then do temp <- get left_ node ;; st_ret (temp, node) else
  do nr <- get right_ node ;;
  do subst <- al_rbtree_min nr ;;
  do sl <- get left_ subst ;;
  if negb (sl =? sentinel)%nat then do temp <- get left_ subst ;; st_ret (temp, subst)
  else do temp <- get right_ subst ;; st_ret (temp, subst).

(** [node->left = NULL; node->right = NULL; node->parent = NULL; node->key = 0;] *)
Definition clear_node (node : ptr) : st state unit :=
  do _ <- set_left node NULL ;;
  do _ <- set_right node NULL ;;
  do _ <- set_parent node NULL ;;
  update node (fun x => x <| key := 0%Z |>).

(** [subst] takes the place of [node]. *)
Definition replace_node (node subst temp : ptr) : st state unit :=
  do sp <- get parent subst ;;
  do _ <- (if (sp =? node)%nat then set_parent temp subst
           else do sp <- get parent subst ;; set_parent temp sp) ;;
  do nl <- get left_ node ;; do _ <- set_left subst nl ;;
  do nr <- get right_ node ;; do _ <- set_right subst nr ;;
  do np <- get parent node ;; do _ <- set_parent subst np ;;
  do nc <- get color node ;; do _ <- set_color nc subst ;;
  do root <- get_root ;;
  do _ <- (if (node =? root)%nat then set_root subst else relink node subst) ;;
  do sl <- get left_ subst ;; do _ <- adopt sl subst ;;
  do sr <- get right_ subst ;; adopt sr subst.

(** The fixup loop's branch for a left child: the end of the case of a red
    nephew, the cases of a black sibling [w], and the whole branch. *)
Definition delete_fix_left_end (temp w : ptr) : st state ptr :=
  do tp <- get parent temp ;; do c <- get color tp ;; do _ <- set_color c w ;;
  do tp <- get parent temp ;; do _ <- al_rbt_black tp ;;
  do wr <- get right_ w ;; do _ <- al_rbt_black wr ;;
  do tp <- get parent temp ;; do _ <- al_rbtree_left_rotate tp ;;
  get_root.

Definition delete_fix_left_black (temp w : ptr) : st state ptr :=
  do wl <- get left_ w ;;
  do bl <- al_rbt_is_black wl ;;
  do both <- (if bl : bool then do wr <- get right_ w ;; al_rbt_is_black wr else st_ret false) ;;
  if both : bool then do _ <- al_rbt_red w ;; get parent temp
  else
    do wr <- get right_ w ;;
    do br <- al_rbt_is_black wr ;;
    do w <- (if br : bool then
               do wl <- get left_ w ;; do _ <- al_rbt_black wl ;;
               do _ <- al_rbt_red w ;;
               do _ <- al_rbtree_right_rotate w ;;
               do tp <- get parent temp ;; get right_ tp
             else st_ret w) ;;
    delete_fix_left_end temp w.

Definition delete_fix_left (temp : ptr) : st state ptr :=
  do tp <- get parent temp ;;
  do w <- get right_ tp ;;
  do red <- al_rbt_is_red w ;;
  do w <- (if red : bool then
             do _ <- al_rbt_black w ;;
             do tp <- get parent temp ;; do _ <- al_rbt_red tp ;;
             do tp <- get parent temp ;; do _ <- al_rbtree_left_rotate tp ;;
             do tp <- get parent temp ;; get right_ tp
           else st_ret w) ;;
  delete_fix_left_black temp w.

(** The branch for a right child. *)
Definition delete_fix_right_end (temp w : ptr) : st state ptr :=
  do tp <- get parent temp ;; do c <- get color tp ;; do _ <- set_color c w ;;
  do tp <- get parent temp ;; do _ <- al_rbt_black tp ;;
  do wl <- get left_ w ;; do _ <- al_rbt_black wl ;;
  do tp <- get parent temp ;; do _ <- al_rbtree_right_rotate tp ;;
  get_root.

Definition delete_fix_right_black (temp w : ptr) : st state ptr :=
  do wl <- get left_ w ;;
  do bl <- al_rbt_is_black wl ;;
  do both <- (if bl : bool then do wr <- get right_ w ;; al_rbt_is_black wr else st_ret false) ;;
  if both : bool then do _ <- al_rbt_red w ;; get parent temp
  else
    do wl <- get left_ w ;;
    do bl <- al_rbt_is_black wl ;;
    do w <- (if bl : bool then
               do wr <- get right_ w ;; do _ <- al_rbt_black wr ;;
               do _ <- al_rbt_red w ;;
               do _ <- al_rbtree_left_rotate w ;;
               do tp <- get parent temp ;; get left_ tp
             else st_ret w) ;;
    delete_fix_right_end temp w.

Definition delete_fix_right (temp : ptr) : st state ptr :=
  do tp <- get parent temp ;;
  do w <- get left_ tp ;;
  do red <- al_rbt_is_red w ;;
  do w <- (if red : bool then
             do _ <- al_rbt_black w ;;
             do tp <- get parent temp ;; do _ <- al_rbt_red tp ;;
             do tp <- get parent temp ;; do _ <- al_rbtree_right_rotate tp ;;
             do tp <- get parent temp ;; get left_ tp
           else st_ret w) ;;
  delete_fix_right_black temp w.

(** [while (temp != *root && al_rbt_is_black(temp))], and the blackening of [temp]. *)
Fixpoint delete_fixup (fuel : nat) (temp : ptr) : st state unit :=
  match fuel with
  | O => st_throw Undef
  | S fuel =>
      do root <- get_root ;;
      do again <- (if (temp =? root)%nat then st_ret false else al_rbt_is_black temp) ;;
      if again : bool then
        do tp <- get parent temp ;;
        do tpl <- get left_ tp ;;
        do temp <- (if (temp =? tpl)%nat then delete_fix_left temp else delete_fix_right temp) ;;
        delete_fixup fuel temp
      else al_rbt_black temp
  end.

Definition al_rbtree_delete (node : ptr) : st state unit :=
  do (temp, subst) <- find_subst node ;;
  do root <- get_root ;;
  if (subst =? root)%nat then
    do _ <- set_root temp ;;
    do _ <- al_rbt_black temp ;;
    clear_node node
  else
    do red <- al_rbt_is_red subst ;;
    do _ <- relink subst temp ;;
    do _ <- (if (subst =? node)%nat then do sp <- get parent subst ;; set_parent temp sp
             else replace_node node subst temp) ;;
    do _ <- clear_node node ;;
    if red : bool then st_ret tt
    else do s <- st_get ;; delete_fixup (fuel s) temp.
End RbTree.
