(* ===== verification/RbRep.v ===== *)
(** * Red-black trees in memory

    The shapes of the trees of [RbTree], what it means that the memory holds one,
    and the effect of the memory accesses, rotations and recolourings of
    [alpha/al_tree.c] on the shape. A place in a tree is a context ([ctx]); code
    that works at a place is specified on the subtree there, for every context. *)

From Stdlib Require Import ZArith Lia Bool Sorted.
From stdpp Require Import base tactics option gmap list sets.
From S2P Require Import Prelude RbTree.

(** ** Trees and contexts

    The shape of a tree of nodes, and of a tree with a hole, seen from the hole. *)
Module RbShape.
Import RbTree.

Inductive tree :=
| E
| N (c : bool) (l : tree) (p : ptr) (k : Z) (r : tree).

Inductive ctx :=
| Top
| CL (c : bool) (p : ptr) (k : Z) (r : tree) (C : ctx)
| CR (c : bool) (l : tree) (p : ptr) (k : Z) (C : ctx).

Fixpoint plug (C : ctx) (t : tree) : tree :=
  match C with
  | Top => t
  | CL c p k r C => plug C (N c t p k r)
  | CR c l p k C => plug C (N c l p k t)
  end.
Fixpoint capp (D C : ctx) : ctx :=
  match D with
  | Top => C
  | CL c p k r D => CL c p k r (capp D C)
  | CR c l p k D => CR c l p k (capp D C)
  end.
Fixpoint depth (C : ctx) : nat :=
  match C with Top => 0 | CL _ _ _ _ C | CR _ _ _ _ C => S (depth C) end.

(** Keys and nodes in order. *)
Fixpoint elems (t : tree) : list (Z * ptr) :=
  match t with E => [] | N _ l p k r => elems l ++ (k, p) :: elems r end.
Fixpoint before (C : ctx) : list (Z * ptr) :=
  match C with Top => [] | CL _ _ _ _ C => before C | CR _ l p k C => before C ++ elems l ++ [(k, p)] end.
Fixpoint after (C : ctx) : list (Z * ptr) :=
  match C with Top => [] | CL _ p k r C => (k, p) :: elems r ++ after C | CR _ _ _ _ C => after C end.
Definition ptrs (t : tree) : list ptr := (elems t).*2.
Definition cptrs (C : ctx) : list ptr := (before C).*2 ++ (after C).*2.

Lemma elems_plug C t : elems (plug C t) = before C ++ elems t ++ after C.
Proof.
  revert t. induction C as [|c p k r C IH|c l p k C IH]; intros t; simpl; [by rewrite app_nil_r|..].
  - rewrite IH. simpl. by rewrite <-!app_assoc.
  - rewrite IH. simpl. by rewrite <-!app_assoc.
Qed.
Lemma plug_capp D C t : plug (capp D C) t = plug C (plug D t).
Proof. revert t. induction D; intros; simpl; auto. Qed.
Lemma depth_capp D C : depth (capp D C) = (depth D + depth C)%nat.
Proof. induction D; simpl; auto. Qed.
Lemma ptrs_plug C t : ptrs (plug C t) ≡ₚ ptrs t ++ cptrs C.
Proof. unfold ptrs, cptrs. rewrite elems_plug, !fmap_app. solve_Permutation. Qed.
Lemma ptrs_N c l p k r : ptrs (N c l p k r) = ptrs l ++ p :: ptrs r.
Proof. unfold ptrs. simpl. by rewrite fmap_app. Qed.
Lemma depth_le C t : (depth C <= length (ptrs (plug C t)))%nat.
Proof.
  rewrite ptrs_plug, length_app. unfold cptrs. rewrite length_app, !length_fmap.
  assert (depth C <= length (before C) + length (after C))%nat; [|lia].
  induction C; simpl; rewrite ?length_app; simpl; rewrite ?length_app; lia.
Qed.

(** *** Red-black trees: [rb t pc n], a tree below a parent of color [pc] with
    [n] black nodes on every path; the parent of the root counts as red *)
Fixpoint rb (t : tree) (pc : bool) (n : nat) : Prop :=
  match t with
  | E => n = 0%nat
  | N true l _ _ r => pc = false /\ rb l true n /\ rb r true n
  | N false l _ _ r => match n with O => False | S n => rb l false n /\ rb r false n end
  end.
Fixpoint rbc (C : ctx) (pc : bool) (n : nat) : Prop :=
  match C with
  | Top => pc = true
  | CL true _ _ t C | CR true t _ _ C => pc = true /\ rb t true n /\ rbc C false n
  | CL false _ _ t C | CR false t _ _ C => pc = false /\ rb t false n /\ exists pc', rbc C pc' (S n)
  end.
Definition balanced (t : tree) : Prop := exists n, rb t true n.

Lemma rb_weaken t pc n : rb t true n -> rb t pc n.
Proof. destruct t as [|[] l p k r]; simpl; [done|by intros [? _]|done]. Qed.
Lemma rb_black l p k r pc n : rb l false n -> rb r false n -> rb (N false l p k r) pc (S n).
Proof. done. Qed.

Lemma plug_rb C t pc n : rbc C pc n -> rb t pc n -> balanced (plug C t).
Proof.
  revert t pc n. induction C as [|c p k r C IH|c l p k C IH]; intros t pc n; simpl.
  - intros -> ?. by exists n.
  - destruct c; [intros (-> & Hr & HC) Ht|intros (-> & Hr & pc' & HC) Ht]; (eapply IH; [exact HC|done]).
  - destruct c; [intros (-> & Hr & HC) Ht|intros (-> & Hr & pc' & HC) Ht]; (eapply IH; [exact HC|done]).
Qed.

Lemma rb_plug C t m pc0 : rb (plug C t) pc0 m -> pc0 = true -> exists pc n, rbc C pc n /\ rb t pc n.
Proof.
  revert t. induction C as [|c p k r C IH|c l p k C IH]; intros t H ->; simpl in *; [eauto|..].
  - destruct (IH _ H eq_refl) as (pc & n & HC & Ht). destruct c; simpl in Ht.
    + destruct Ht as (-> & ? & ?). eauto 6.
    + destruct n as [|n]; [done|]. destruct Ht as [? ?]. eauto 8.
  - destruct (IH _ H eq_refl) as (pc & n & HC & Ht). destruct c; simpl in Ht.
    + destruct Ht as (-> & ? & ?). eauto 6.
    + destruct n as [|n]; [done|]. destruct Ht as [? ?]. eauto 8.
Qed.

(** *** Height *)
Fixpoint height (t : tree) : nat :=
  match t with E => 0 | N _ l _ _ r => S (Nat.max (height l) (height r)) end.

Lemma height_le t : (height t <= length (ptrs t))%nat.
Proof.
  unfold ptrs. rewrite length_fmap. induction t as [|c l IHl p k r IHr]; simpl; [done|]. rewrite length_app. simpl. lia.
Qed.
Lemma rb_height t pc n : rb t pc n -> (height t <= 2 * n + (if pc then 0 else 1))%nat.
Proof.
  revert pc n. induction t as [|[] l IHl p k r IHr]; intros pc n; simpl; [lia|..].
  - intros (-> & Hl & Hr). specialize (IHl _ _ Hl). specialize (IHr _ _ Hr). simpl in *. lia.
  - destruct n as [|n]; [done|]. intros [Hl Hr]. specialize (IHl _ _ Hl). specialize (IHr _ _ Hr).
    simpl in *. destruct pc; lia.
Qed.
Lemma rb_size t pc n : rb t pc n -> (2 ^ n <= S (length (elems t)))%nat.
Proof.
  revert pc n. induction t as [|[] l IHl p k r IHr]; intros pc n; simpl; rewrite ?length_app; simpl.
  - by intros ->.
  - intros (_ & Hl & Hr). specialize (IHl _ _ Hl). lia.
  - destruct n as [|n]; [done|]. intros [Hl Hr]. specialize (IHl _ _ Hl). specialize (IHr _ _ Hr). simpl. lia.
Qed.
Lemma balanced_height t : balanced t -> (height t <= 2 * Nat.log2 (S (length (elems t))))%nat.
Proof.
  intros [n H]. pose proof (rb_height _ _ _ H). pose proof (rb_size _ _ _ H) as Hs. simpl in *.
  assert (n <= Nat.log2 (S (length (elems t))))%nat; [|lia].
  rewrite <-(Nat.log2_pow2 n) by lia. by apply Nat.log2_le_mono.
Qed.
End RbShape.

(** ** Trees in memory *)
Module RbRep.
Import RbTree RbShape.

Section Repr.
Context (sn : ptr).
Implicit Types (h : gmap ptr node) (t : tree) (C D : ctx).

Definition rootp t : ptr := match t with E => sn | N _ _ p _ _ => p end.
Fixpoint repr h (par : ptr) t : Prop :=
  match t with
  | E => True
  | N c l p k r => h !! p = Some (mk_node k (rootp l) (rootp r) par c) /\ repr h p l /\ repr h p r
  end.

(** The parent of the hole, below a root with parent [par]. *)
Definition cptr (par : ptr) C : ptr := match C with Top => par | CL _ p _ _ _ | CR _ _ p _ _ => p end.
(** The root, if the hole holds [q]. *)
Fixpoint ctop (q : ptr) C : ptr := match C with Top => q | CL _ p _ _ C | CR _ _ p _ C => ctop p C end.
Fixpoint reprc h (par q : ptr) C : Prop :=
  match C with
  | Top => True
  | CL c p k r C => h !! p = Some (mk_node k q (rootp r) (cptr par C) c) /\ repr h p r /\ reprc h par p C
  | CR c l p k C => h !! p = Some (mk_node k (rootp l) q (cptr par C) c) /\ repr h p l /\ reprc h par p C
  end.

Lemma repr_plug h par C t : repr h par (plug C t) <-> repr h (cptr par C) t /\ reprc h par (rootp t) C.
Proof. revert t. induction C; intros t; simpl; [tauto|rewrite IHC; simpl; tauto..]. Qed.
Lemma rootp_plug C t : rootp (plug C t) = ctop (rootp t) C.
Proof. revert t. induction C; intros t; simpl; [done|by rewrite IHC..]. Qed.
Lemma cptr_capp par D C : cptr par (capp D C) = cptr (cptr par C) D.
Proof. by destruct D. Qed.
Lemma reprc_capp h par q D C :
  reprc h par q (capp D C) <-> reprc h (cptr par C) q D /\ reprc h par (ctop q D) C.
Proof. revert q. induction D; intros q; simpl; [tauto|rewrite IHD, cptr_capp; tauto..]. Qed.

Lemma rootp_in t : rootp t = sn \/ rootp t ∈ ptrs t.
Proof. destruct t as [|c l p k r]; [by left|right]. unfold ptrs. simpl. rewrite fmap_app. set_solver. Qed.
Lemma ctop_in q C : C = Top \/ ctop q C ∈ cptrs C.
Proof.
  revert q. induction C as [|c p k r C IH|c l p k C IH]; intros q; simpl; [by left|right..];
    destruct (IH p) as [->|IH']; unfold cptrs in *; simpl; rewrite ?fmap_app; simpl;
    clear IH; set_unfold; simpl; tauto.
Qed.

Lemma repr_frame h h' par t : (forall q, q ∈ ptrs t -> h' !! q = h !! q) -> repr h par t -> repr h' par t.
Proof.
  revert par. induction t as [|c l IHl p k r IHr]; intros par Hq; simpl; [done|].
  unfold ptrs in *. simpl in *. rewrite fmap_app in Hq. intros (Hp & Hl & Hr).
  split_and!; [rewrite Hq by set_solver; done|apply IHl; set_solver|apply IHr; set_solver].
Qed.
Lemma reprc_frame h h' par q C : (forall x, x ∈ cptrs C -> h' !! x = h !! x) -> reprc h par q C -> reprc h' par q C.
Proof.
  revert q. induction C as [|c p k r C IH|c l p k C IH]; intros q Hq; simpl; [done|..];
    unfold cptrs in *; simpl in *; rewrite ?fmap_app in Hq; intros (Hp & Ht & HC);
    (split_and!; [rewrite Hq by set_solver; done|eapply repr_frame; [|done]; unfold ptrs; set_solver|apply IH; set_solver]).
Qed.
Lemma repr_in_dom h par t q : repr h par t -> q ∈ ptrs t -> is_Some (h !! q).
Proof.
  revert par. induction t as [|c l IHl p k r IHr]; intros par; unfold ptrs; simpl; [set_solver|].
  rewrite fmap_app. intros (Hp & Hl & Hr). simpl. rewrite elem_of_app, elem_of_cons.
  intros [?|[->|?]]; eauto.
Qed.
End Repr.

(** The state holds [t], with [par] as the root's parent pointer. *)
Record rep (sn : ptr) (s : state) (par : ptr) (t : tree) : Prop := {
  rep_sentinel : sentinel s = sn;
  rep_root : root s = rootp sn t;
  rep_repr : repr sn (heap s) par t;
  rep_nodup : NoDup (NULL :: sn :: ptrs t);
  rep_sn : exists x, heap s !! sn = Some x /\ color x = false }.

(** What the code leaves alone. *)
Definition same_off (P : list ptr) (s s' : state) : Prop :=
  sentinel s' = sentinel s /\ forall q, q ∉ P -> heap s' !! q = heap s !! q.

Lemma same_off_refl P s : same_off P s s.
Proof. done. Qed.
Lemma same_off_trans P s1 s2 s3 : same_off P s1 s2 -> same_off P s2 s3 -> same_off P s1 s3.
Proof. intros [? H1] [? H2]. split; [congruence|]. intros q Hq. by rewrite H2, H1. Qed.

(** *** Memory accesses *)
Lemma wp_field {A} (f : node -> A) p s x (Q : A -> state -> Prop) :
  heap s !! p = Some x -> Q (f x) s -> wp (get f p) s Q.
Proof. intros H ?. unfold get. apply wp_bind. unfold wp, deref. by rewrite H. Qed.
Lemma wp_update p f h rt sn x (Q : unit -> state -> Prop) :
  h !! p = Some x -> Q tt (mk (<[p := f x]> h) rt sn) -> wp (update p f) (mk h rt sn) Q.
Proof. intros H ?. unfold update. apply wp_bind. unfold wp, deref. simpl. by rewrite H. Qed.

(** A step of code whose next statement is a memory access. *)
Ltac wp_read := apply wp_bind; eapply wp_field; [first [eassumption|simplify_map_eq; done]|]; cbv beta; simpl.
Ltac wp_write := eapply wp_update; [first [eassumption|simplify_map_eq; done]|]; cbv beta; simpl.

(** *** Reparenting and relinking *)
Lemma wp_adopt h rt sn par t p (Q : unit -> state -> Prop) :
  repr sn h par t -> sn ∉ ptrs t -> NoDup (ptrs t) ->
  (forall h', (forall q, q ∉ ptrs t -> h' !! q = h !! q) -> repr sn h' p t -> Q tt (mk h' rt sn)) ->
  wp (adopt (rootp sn t) p) (mk h rt sn) Q.
Proof.
  intros Ht Hsn Hnd HQ. unfold adopt. apply wp_bind. change (wp (when (negb (rootp sn t =? sn)%nat) (set_parent (rootp sn t) p)) (mk h rt sn) Q).
  destruct t as [|c l q k r]; simpl in *.
  - rewrite Nat.eqb_refl. simpl. apply wp_ret. by apply HQ.
  - unfold ptrs in *. simpl in *. rewrite fmap_app in *. simpl in *. destruct Ht as (Hq & Hl & Hr).
    apply NoDup_app in Hnd as (Hn1 & Hn2 & [Hn3 Hn4]%NoDup_cons).
    destruct (Nat.eqb_spec q sn) as [->|Hne]; [set_solver|]. simpl.
    wp_write. apply HQ.
    + intros x Hx. rewrite lookup_insert_ne; [done|]. set_solver.
    + split_and!; [by rewrite lookup_insert_eq|..]; (eapply repr_frame; [|eassumption]);
        intros x Hx; (rewrite lookup_insert_ne; [done|]); unfold ptrs in Hx; set_solver.
Qed.

(** Pointers that occur once: membership facts from [NoDup]. *)
Ltac nodup_facts H :=
  unfold ptrs, cptrs in *; simpl in *; rewrite ?fmap_app in *; simpl in *;
  repeat first [rewrite NoDup_cons in H|rewrite NoDup_app in H|rewrite not_elem_of_cons in H|rewrite not_elem_of_app in H].

(** The child link of the hole changed. *)
Lemma reprc_new_child sn h par node new C h' :
  reprc sn h par node C -> NoDup (cptrs C) ->
  match C with
  | Top => h' = h
  | CL c p k r C => h' = <[p := mk_node k new (rootp sn r) (cptr par C) c]> h
  | CR c l p k C => h' = <[p := mk_node k (rootp sn l) new (cptr par C) c]> h
  end -> (forall q, q ∉ cptrs C -> h' !! q = h !! q) /\ reprc sn h' par new C.
Proof.
  intros HC Hnd.
  destruct C as [|c p k r C'|c l p k C']; [by intros ->|..]; simpl in *; intros ->; nodup_facts Hnd;
    destruct HC as (H1 & H2 & H3); destruct_and!; (split; [intros q Hq; apply lookup_insert_ne; set_solver|]).
  all: split_and!; [apply lookup_insert_eq|eapply repr_frame; [|exact H2]|eapply reprc_frame; [|exact H3]];
    intros y Hy; apply lookup_insert_ne; unfold ptrs, cptrs in *; set_solver.
Qed.

Section Relink.
Context (h : gmap ptr node) (rt sn par node new : ptr) (x : RbTree.node) (C : ctx).
Context (Hn : h !! node = Some x) (Hp : parent x = cptr par C) (HC : reprc sn h par node C).
Context (Hnd : NoDup (node :: sn :: cptrs C)).

Lemma nodup_ctx : NoDup (cptrs C).
Proof using Hnd. by apply NoDup_cons in Hnd as [_ [_ ?]%NoDup_cons]. Qed.

Lemma sibling_differs t : node ∉ ptrs t -> node <> sn -> (node =? rootp sn t)%nat = false.
Proof using Type. clear. intros H Hsn. apply Nat.eqb_neq. destruct (rootp_in sn t); congruence. Qed.

Lemma wp_relink (Q : unit -> state -> Prop) :
  C <> Top ->
  (forall h', (forall q, q ∉ cptrs C -> h' !! q = h !! q) -> reprc sn h' par new C -> Q tt (mk h' rt sn)) ->
  wp (relink node new) (mk h rt sn) Q.
Proof using Hn Hp HC Hnd.
  intros HT HQ. unfold relink. wp_read. rewrite Hp.
  pose proof (fun h' => reprc_new_child sn h par node new C h' HC nodup_ctx) as Hnew. destruct C as [|c p k r C'|c l p k C']; [done|..]; simpl in *.
  - destruct HC as (H1 & H2 & H3). wp_read. rewrite Nat.eqb_refl. wp_read. rewrite Hp. wp_write.
    destruct (Hnew _ eq_refl). auto.
  - destruct HC as (H1 & H2 & H3). wp_read. rewrite sibling_differs by (clear - Hnd; nodup_facts Hnd; tauto).
    wp_read. rewrite Hp. wp_write. destruct (Hnew _ eq_refl). auto.
Qed.

Lemma wp_relink_right (Q : unit -> state -> Prop) :
  C <> Top ->
  (forall h', (forall q, q ∉ cptrs C -> h' !! q = h !! q) -> reprc sn h' par new C -> Q tt (mk h' rt sn)) ->
  wp (relink_right node new) (mk h rt sn) Q.
Proof using Hn Hp HC Hnd.
  intros HT HQ. unfold relink_right. wp_read. rewrite Hp.
  pose proof (fun h' => reprc_new_child sn h par node new C h' HC nodup_ctx) as Hnew. destruct C as [|c p k r C'|c l p k C']; [done|..]; simpl in *.
  - destruct HC as (H1 & H2 & H3). wp_read. rewrite sibling_differs by (clear - Hnd; nodup_facts Hnd; tauto).
    wp_read. rewrite Hp. wp_write. destruct (Hnew _ eq_refl). auto.
  - destruct HC as (H1 & H2 & H3). wp_read. rewrite Nat.eqb_refl. wp_read. rewrite Hp. wp_write.
    destruct (Hnew _ eq_refl). auto.
Qed.

(** [if (node == *root) *root = new; else ...] *)
Lemma wp_replace (f : ptr -> ptr -> st state unit) (Q : unit -> state -> Prop) :
  (f = relink \/ f = relink_right) -> rt = ctop node C ->
  (forall h', (forall q, q ∉ cptrs C -> h' !! q = h !! q) -> reprc sn h' par new C -> Q tt (mk h' (ctop new C) sn)) ->
  wp (if (node =? rt)%nat then set_root new else f node new) (mk h rt sn) Q.
Proof using Hn Hp HC Hnd.
  intros Hf Hrt HQ. destruct (ctop_in node C) as [HT|Hin].
  - rewrite HT in Hrt. simpl in Hrt. subst rt. rewrite Nat.eqb_refl. apply wp_modify. simpl.
    destruct (reprc_new_child sn h par node new C h HC nodup_ctx) as [H1 H2]; [by rewrite HT|]. specialize (HQ h H1 H2). rewrite HT in HQ. done.
  - assert (C <> Top) as HT by (intros HT; rewrite HT in Hin; by apply not_elem_of_nil in Hin).
    assert ((node =? rt)%nat = false) as ->.
    { apply Nat.eqb_neq. intros ->. rewrite <-Hrt in Hin. apply NoDup_cons in Hnd as [Hnd _]. set_solver. }
    assert (rt = ctop new C) as Hrt' by (rewrite Hrt; by destruct C).
    destruct Hf as [-> | ->]; [apply wp_relink|apply wp_relink_right]; try done;
      intros h' H1 H2; specialize (HQ h' H1 H2); by rewrite <-Hrt' in HQ.
Qed.
End Relink.

(** *** Rotations *)

(** Membership facts used below, for two pointers, three subtrees and a context. *)
Lemma apart sn p q l m r C :
  NoDup (NULL :: sn :: (ptrs l ++ p :: ptrs m ++ q :: ptrs r) ++ cptrs C) ->
  (p <> q /\ p <> sn /\ q <> sn)
  /\ ((p ∉ ptrs l) /\ (p ∉ ptrs m) /\ (p ∉ ptrs r) /\ p ∉ cptrs C)
  /\ ((q ∉ ptrs l) /\ (q ∉ ptrs m) /\ (q ∉ ptrs r) /\ q ∉ cptrs C)
  /\ ((sn ∉ ptrs m) /\ sn ∉ cptrs C)
  /\ NoDup (ptrs m) /\ NoDup (cptrs C)
  /\ (forall x, x ∈ ptrs m -> x ∈ ptrs l -> False) /\ (forall x, x ∈ ptrs m -> x ∈ ptrs r -> False)
  /\ (forall x, x ∈ ptrs m -> x ∈ cptrs C -> False)
  /\ (forall x, x ∈ cptrs C -> x ∈ ptrs l -> False) /\ (forall x, x ∈ cptrs C -> x ∈ ptrs r -> False).
Proof.
  intros H.
  assert (NULL :: sn :: (ptrs l ++ p :: ptrs m ++ q :: ptrs r) ++ cptrs C
    ≡ₚ p :: q :: NULL :: sn :: ptrs m ++ cptrs C ++ ptrs l ++ ptrs r) as HP by solve_Permutation.
  rewrite HP in H. clear HP. rewrite !NoDup_cons, !NoDup_app in H.
  destruct H as (Hp & Hq & _ & Hs & Hm & Hmx & HC & HCx & _).
  rewrite !elem_of_cons, !elem_of_app in Hp. rewrite !elem_of_cons, !elem_of_app in Hq. rewrite !elem_of_app in Hs.
  split_and!; try tauto; intros x Hx Hy.
  1-3: apply (Hmx x Hx); rewrite !elem_of_app; tauto.
  1-2: apply (HCx x Hx); rewrite !elem_of_app; tauto.
Qed.

(** Lookups in memory changed elsewhere: the pointer is none of those written. *)
Ltac apart_solve := first [assumption|congruence|intros ?; subst; contradiction|intros ?; subst; eauto 2].
Ltac off := repeat first
  [ rewrite lookup_insert_ne by apart_solve
  | match goal with H : forall q, q ∉ _ -> ?h' !! q = _ |- context [?h' !! ?x] => rewrite (H x) by apart_solve end ].
Lemma wp_left_rotate sn s par C c l p k c2 m q k2 r (Q : unit -> state -> Prop) :
  rep sn s par (plug C (N c l p k (N c2 m q k2 r))) ->
  (forall s', rep sn s' par (plug C (N c2 (N c l p k m) q k2 r)) ->
     same_off (ptrs (plug C (N c l p k (N c2 m q k2 r)))) s s' -> Q tt s') ->
  wp (al_rbtree_left_rotate p) s Q.
Proof.
  destruct s as [h rt sn']. intros [Hss Hrt Hr Hnd Hsn] HQ. simpl in *. subst sn'.
  rewrite rootp_plug in Hrt. simpl in Hrt. rewrite repr_plug in Hr. destruct Hr as [(Hp & Hl & Hq & Hm & Hr) HC].
  simpl in HC, Hp.
  assert (elems (plug C (N c l p k (N c2 m q k2 r))) = elems (plug C (N c2 (N c l p k m) q k2 r))) as Hel
    by (rewrite !elems_plug; simpl; rewrite <-!app_assoc; simpl; by rewrite <-!app_assoc).
  assert (NoDup (NULL :: sn :: (ptrs l ++ p :: ptrs m ++ q :: ptrs r) ++ cptrs C)) as Hnd'.
  { by rewrite ptrs_plug, !ptrs_N in Hnd. }
  apply apart in Hnd'. destruct_and!.
  unfold al_rbtree_left_rotate.
  wp_read. wp_read. apply wp_bind. wp_write. wp_read.
  apply wp_bind. eapply (wp_adopt _ _ sn q m p); [|done|done|].
  { eapply repr_frame; [|exact Hm]. intros x Hx. off. done. }
  intros h2 Hoff2 Hm2.
  assert (h2 !! p = Some (mk_node k (rootp sn l) (rootp sn m) (cptr par C) c)) as Hp2 by (off; by simplify_map_eq).
  assert (h2 !! q = Some (mk_node k2 (rootp sn m) (rootp sn r) p c2)) as Hq2 by (off; by simplify_map_eq).
  wp_read. apply wp_bind. wp_write. apply wp_bind. unfold get_root. unfold wp at 1. simpl.
  apply wp_bind. eapply (wp_replace _ _ sn par p q _ C); [simplify_map_eq; done|done| | |by left|done|].
  { eapply reprc_frame; [|exact HC]. intros x Hx. off. done. }
  { rewrite !NoDup_cons, not_elem_of_cons. tauto. }
  intros h4 Hoff4 HC4.
  assert (h4 !! q = Some (mk_node k2 (rootp sn m) (rootp sn r) (cptr par C) c2)) as Hq4 by (off; by simplify_map_eq).
  assert (h4 !! p = Some (mk_node k (rootp sn l) (rootp sn m) (cptr par C) c)) as Hp4 by (off; by simplify_map_eq).
  apply wp_bind. wp_write. wp_write. apply HQ.
  - split; simpl; [done|by rewrite rootp_plug| |unfold ptrs; by rewrite <-Hel|].
    + apply repr_plug. split; simpl; [split_and!|].
      * by off; simplify_map_eq.
      * by simplify_map_eq.
      * eapply repr_frame; [|exact Hl]. intros x Hx. off. done.
      * eapply repr_frame; [|exact Hm2]. intros x Hx. off. done.
      * eapply repr_frame; [|exact Hr]. intros x Hx. off. done.
      * eapply reprc_frame; [|exact HC4]. intros x Hx. off. done.
    + destruct Hsn as (y & Hy & Hc). exists y. split; [|done]. off. done.
  - split; [done|]. simpl. intros y Hy. rewrite ptrs_plug, !ptrs_N in Hy.
    repeat first [rewrite elem_of_app in Hy|rewrite elem_of_cons in Hy].
    assert (y <> p /\ y <> q /\ (y ∉ ptrs m) /\ y ∉ cptrs C) by (unfold not; tauto).
    destruct_and!. off. done.
Qed.

Lemma wp_right_rotate sn s par C c l p k c2 m q k2 r (Q : unit -> state -> Prop) :
  rep sn s par (plug C (N c (N c2 l q k2 m) p k r)) ->
  (forall s', rep sn s' par (plug C (N c2 l q k2 (N c m p k r))) ->
     same_off (ptrs (plug C (N c (N c2 l q k2 m) p k r))) s s' -> Q tt s') ->
  wp (al_rbtree_right_rotate p) s Q.
Proof.
  destruct s as [h rt sn']. intros [Hss Hrt Hr Hnd Hsn] HQ. simpl in *. subst sn'.
  rewrite rootp_plug in Hrt. simpl in Hrt. rewrite repr_plug in Hr. destruct Hr as [(Hp & (Hq & Hl & Hm) & Hr) HC].
  simpl in HC, Hp.
  assert (elems (plug C (N c (N c2 l q k2 m) p k r)) = elems (plug C (N c2 l q k2 (N c m p k r)))) as Hel
    by (rewrite !elems_plug; simpl; rewrite <-!app_assoc; simpl; by rewrite <-!app_assoc).
  assert (NoDup (NULL :: sn :: (ptrs l ++ q :: ptrs m ++ p :: ptrs r) ++ cptrs C)) as Hnd'.
  { rewrite ptrs_plug, !ptrs_N in Hnd. by rewrite <-(app_assoc (ptrs l)) in Hnd. }
  apply apart in Hnd'. destruct_and!.
  unfold al_rbtree_right_rotate.
  wp_read. wp_read. apply wp_bind. wp_write. wp_read.
  apply wp_bind. eapply (wp_adopt _ _ sn q m p); [|done|done|].
  { eapply repr_frame; [|exact Hm]. intros x Hx. off. done. }
  intros h2 Hoff2 Hm2.
  assert (h2 !! p = Some (mk_node k (rootp sn m) (rootp sn r) (cptr par C) c)) as Hp2 by (off; by simplify_map_eq).
  assert (h2 !! q = Some (mk_node k2 (rootp sn l) (rootp sn m) p c2)) as Hq2 by (off; by simplify_map_eq).
  wp_read. apply wp_bind. wp_write. apply wp_bind. unfold get_root. unfold wp at 1. simpl.
  apply wp_bind. eapply (wp_replace _ _ sn par p q _ C); [simplify_map_eq; done|done| | |by right|done|].
  { eapply reprc_frame; [|exact HC]. intros x Hx. off. done. }
  { rewrite !NoDup_cons, not_elem_of_cons. tauto. }
  intros h4 Hoff4 HC4.
  assert (h4 !! q = Some (mk_node k2 (rootp sn l) (rootp sn m) (cptr par C) c2)) as Hq4 by (off; by simplify_map_eq).
  assert (h4 !! p = Some (mk_node k (rootp sn m) (rootp sn r) (cptr par C) c)) as Hp4 by (off; by simplify_map_eq).
  apply wp_bind. wp_write. wp_write. apply HQ.
  - split; simpl; [done|by rewrite rootp_plug| |unfold ptrs; by rewrite <-Hel|].
    + apply repr_plug. split; simpl; [split_and!|].
      * by off; simplify_map_eq.
      * eapply repr_frame; [|exact Hl]. intros x Hx. off. done.
      * by simplify_map_eq.
      * eapply repr_frame; [|exact Hm2]. intros x Hx. off. done.
      * eapply repr_frame; [|exact Hr]. intros x Hx. off. done.
      * eapply reprc_frame; [|exact HC4]. intros x Hx. off. done.
    + destruct Hsn as (y & Hy & Hc). exists y. split; [|done]. off. done.
  - split; [done|]. simpl. intros y Hy. rewrite ptrs_plug, !ptrs_N in Hy.
    repeat first [rewrite elem_of_app in Hy|rewrite elem_of_cons in Hy].
    assert (y <> p /\ y <> q /\ (y ∉ ptrs m) /\ y ∉ cptrs C) by (unfold not; tauto).
    destruct_and!. off. done.
Qed.

(** *** Reading and colouring at a place *)
Definition color_of (t : tree) : bool := match t with E => false | N c _ _ _ _ => c end.

Lemma rep_color sn s par C t : rep sn s par (plug C t) ->
  exists x, heap s !! rootp sn t = Some x /\ color x = color_of t.
Proof.
  intros H. pose proof (rep_repr _ _ _ _ H) as Hr. rewrite repr_plug in Hr. destruct Hr as [Hr _].
  destruct t as [|c l p k r]; [exact (rep_sn _ _ _ _ H)|]. destruct Hr as [Hr _]. simpl. eauto.
Qed.

Lemma wp_is_red sn s par C t q (Q : bool -> state -> Prop) :
  rep sn s par (plug C t) -> q = rootp sn t -> Q (color_of t) s -> wp (al_rbt_is_red q) s Q.
Proof. intros H -> HQ. destruct (rep_color _ _ _ _ _ H) as (x & Hx & Hc). eapply wp_field; [exact Hx|]. by rewrite Hc. Qed.
Lemma wp_is_black sn s par C t q (Q : bool -> state -> Prop) :
  rep sn s par (plug C t) -> q = rootp sn t -> Q (negb (color_of t)) s -> wp (al_rbt_is_black q) s Q.
Proof.
  intros H -> HQ. destruct (rep_color _ _ _ _ _ H) as (x & Hx & Hc). apply wp_bind.
  eapply wp_field; [exact Hx|]. apply wp_ret. by rewrite Hc.
Qed.

Lemma wp_color sn s par C c l p k r c' (Q : unit -> state -> Prop) :
  rep sn s par (plug C (N c l p k r)) ->
  (forall s', rep sn s' par (plug C (N c' l p k r)) -> same_off (ptrs (plug C (N c l p k r))) s s' -> Q tt s') ->
  wp (set_color c' p) s Q.
Proof.
  destruct s as [h rt sn']. intros [Hss Hrt Hr Hnd Hsn] HQ. simpl in *. subst sn'.
  rewrite rootp_plug in Hrt. rewrite repr_plug in Hr. destruct Hr as [(Hp & Hl & Hr) HC].
  pose proof Hnd as Hnd'. rewrite ptrs_plug, ptrs_N in Hnd'.
  assert (p <> sn /\ (p ∉ ptrs l) /\ (p ∉ ptrs r) /\ p ∉ cptrs C) as (Hps & Hpl & Hpr & HpC).
  { assert (NULL :: sn :: (ptrs l ++ p :: ptrs r) ++ cptrs C ≡ₚ p :: NULL :: sn :: ptrs l ++ ptrs r ++ cptrs C) as HP
      by solve_Permutation.
    rewrite HP, NoDup_cons, !elem_of_cons, !elem_of_app in Hnd'. destruct Hnd' as [Hnd' _]. unfold not. tauto. }
  wp_write. apply HQ; [split; simpl; [done|by rewrite rootp_plug| | |]|].
  - apply repr_plug. split; [split_and!|]; simpl; [by simplify_map_eq|..];
      [eapply repr_frame; [|exact Hl]|eapply repr_frame; [|exact Hr]|eapply reprc_frame; [|exact HC]]; intros x Hx; off; done.
  - unfold ptrs in *. rewrite elems_plug in *. done.
  - destruct Hsn as (y & Hy & Hc). exists y. split; [|done]. off. done.
  - split; [done|]. simpl. intros y Hy. rewrite ptrs_plug, ptrs_N in Hy.
    repeat first [rewrite elem_of_app in Hy|rewrite elem_of_cons in Hy]. rewrite lookup_insert_ne by (intros ->; tauto). done.
Qed.

(** What the nodes in sight hold. *)
Ltac look H :=
  let Hr := fresh "Hr" in
  pose proof (rep_repr _ _ _ _ H) as Hr;
  repeat first [rewrite repr_plug in Hr | progress cbn [plug repr reprc rootp cptr] in Hr];
  destruct_and?.

Lemma wp_grandparent s p x y (Q : ptr -> state -> Prop) :
  heap s !! p = Some x -> heap s !! parent x = Some y -> Q (parent y) s -> wp (grandparent p) s Q.
Proof. intros Hx Hy HQ. unfold grandparent. apply wp_bind. eapply wp_field; [exact Hx|]. by eapply wp_field. Qed.

(** One statement that only reads. *)
Ltac wp_step :=
  lazymatch goal with
  | |- wp (st_bind (get _ _) _) _ _ => apply wp_bind; eapply wp_field; [eassumption|]
  | |- wp (get _ _) _ _ => eapply wp_field; [eassumption|]
  | |- wp (st_bind (grandparent _) _) _ _ => apply wp_bind; eapply wp_grandparent; [eassumption|eassumption|]
  | |- wp (grandparent _) _ _ => eapply wp_grandparent; [eassumption|eassumption|]
  | |- wp (st_bind (st_ret _) _) _ _ => apply wp_bind, wp_ret
  | |- wp (st_ret _) _ _ => apply wp_ret
  end;
  cbv beta; cbn [key left_ right_ parent color].

Lemma wp_root sn s par t (Q : ptr -> state -> Prop) :
  rep sn s par t -> Q (rootp sn t) s -> wp get_root s Q.
Proof. intros H HQ. unfold wp, get_root. by rewrite (rep_root _ _ _ _ H). Qed.
Lemma wp_sentinel sn s par t (Q : ptr -> state -> Prop) :
  rep sn s par t -> Q sn s -> wp get_sentinel s Q.
Proof. intros H HQ. unfold wp, get_sentinel. by rewrite (rep_sentinel _ _ _ _ H). Qed.

(** Only the hole of [Top] holds the root. *)
Lemma hole_is_root sn s par C t : rep sn s par (plug C t) ->
  (rootp sn t =? rootp sn (plug C t))%nat = match C with Top => true | _ => false end.
Proof.
  intros [_ _ _ Hnd _]. rewrite rootp_plug. destruct C as [|c p k r C|c l p k C]; [apply Nat.eqb_refl|..];
    apply Nat.eqb_neq; rewrite ptrs_plug in Hnd;
    match goal with |- _ <> ctop _ ?C' => destruct (ctop_in (rootp sn t) C') as [|Hin]; [done|]; remember C' as D end;
    apply NoDup_cons in Hnd as [_ [Hsn Hnd]%NoDup_cons]; rewrite elem_of_app in Hsn; intros Heq; rewrite <-Heq in Hin;
    (destruct (rootp_in sn t) as [Hr|Hr]; [rewrite Hr in Hin; tauto|]); apply NoDup_app in Hnd as (_ & Hd & _); by apply (Hd _ Hr).
Qed.
(** The two children of a node differ, unless both are leaves. *)
Lemma siblings_differ sn s par C c l p k r : rep sn s par (plug C (N c l p k r)) -> (l <> E \/ r <> E) ->
  (rootp sn l =? rootp sn r)%nat = false.
Proof.
  intros [_ _ _ Hnd _] Hne. apply Nat.eqb_neq. rewrite ptrs_plug, ptrs_N in Hnd.
  apply NoDup_cons in Hnd as [_ [Hsn Hnd]%NoDup_cons]. rewrite !elem_of_app, elem_of_cons in Hsn.
  apply NoDup_app in Hnd as (Hnd & _). apply NoDup_app in Hnd as (_ & Hd & _).
  destruct (rootp_in sn l) as [Hl|Hl], (rootp_in sn r) as [Hr|Hr].
  - intros _. destruct Hne as [Hne|Hne]; [destruct l as [|? ? q ? ?]|destruct r as [|? ? q ? ?]]; try done; simpl in *; subst q;
      apply Hsn; rewrite ptrs_N; set_solver.
  - rewrite Hl. intros Heq. rewrite <-Heq in Hr. tauto.
  - rewrite Hr. intros Heq. rewrite Heq in Hl. tauto.
  - intros Heq. apply (Hd _ Hl). rewrite Heq. by right.
Qed.

(** The order of the elements is that of both trees. *)
Ltac elems_eq := cbn [plug]; rewrite ?elems_plug; cbn [elems before after]; repeat (progress (rewrite <-?app_assoc; cbn [app])); reflexivity.
Lemma same_off_elems a b s s' : elems a = elems b -> same_off (ptrs a) s s' -> same_off (ptrs b) s s'.
Proof. unfold ptrs. by intros ->. Qed.
Ltac offs := repeat first
  [ eapply same_off_elems; [|eassumption]; elems_eq
  | eapply same_off_trans; [eapply same_off_elems; [|eassumption]; elems_eq|] ].

Lemma rb_of_black t pc pc' n : color_of t = false -> rb t pc n -> rb t pc' n.
Proof. by destruct t as [|[] ????]. Qed.

Lemma rep_size sn s par t : rep sn s par t -> (length (ptrs t) < size (heap s))%nat.
Proof.
  intros [_ _ Hr Hnd (x & Hx & _)].
  apply NoDup_cons in Hnd as [_ Hnd].
  assert (list_to_set (sn :: ptrs t) ⊆ dom (heap s)) as Hsub.
  { intros q. rewrite elem_of_list_to_set, elem_of_cons, elem_of_dom.
    intros [->|Hq]; [eauto|]. by eapply repr_in_dom. }
  apply subseteq_size in Hsub. rewrite size_list_to_set, size_dom in Hsub by done. simpl in Hsub. lia.
Qed.
End RbRep.
