(* ===== verification/RbInsert.v ===== *)
(** * Insertion into the red-black tree

    [al_rbtree_insert] enters its node at the leaf that [al_rbtree_insert_value]
    finds, and restores the red-black conditions. *)

From Stdlib Require Import ZArith Lia Bool Sorted.
From stdpp Require Import base tactics option gmap list sets sorting.
From S2P Require Import Prelude RbTree RbRep.

Module RbInsert.
Import RbTree RbShape RbRep.

(** Keys in order. *)
Definition sorted (t : tree) : Prop := StronglySorted Z.lt (elems t).*1.
Definition below (k : Z) (l : list (Z * ptr)) : Prop := Forall (fun e => e.1 <= k)%Z l.
Definition above (k : Z) (l : list (Z * ptr)) : Prop := Forall (fun e => k < e.1)%Z l.

Lemma sorted_around C c l p k r : sorted (plug C (N c l p k r)) ->
  Forall (fun e => e.1 < k)%Z (elems l) /\ Forall (fun e => k < e.1)%Z (elems r).
Proof.
  unfold sorted. rewrite elems_plug. simpl. rewrite <-app_assoc. simpl. rewrite !fmap_app, fmap_cons, fmap_app. simpl.
  rewrite !StronglySorted_app. intros (_ & _ & Hl & _ & Hr). rewrite !Forall_forall. split.
  - intros e He. apply Hl; [by apply list_elem_of_fmap_2|left].
  - intros e He. apply StronglySorted_inv in Hr as [_ Hr]. rewrite Forall_forall in Hr.
    apply Hr, elem_of_app. left. by apply list_elem_of_fmap_2.
Qed.

Section Descent.
Context (sn : ptr).

(** A free node linked in at a leaf. *)
Lemma wp_link_leaf s par C nd x (side : bool) (temp : ptr) (Q : unit -> state -> Prop) :
  rep sn s par (plug C E) -> heap s !! nd = Some x -> nd ∉ NULL :: sn :: ptrs (plug C E) ->
  match C with CL _ p _ _ _ => temp = p /\ side = true | CR _ _ p _ _ => temp = p /\ side = false | Top => False end ->
  (forall s', rep sn s' par (plug C (N true E nd (key x) E)) ->
     same_off (nd :: ptrs (plug C E)) s s' -> Q tt s') ->
  wp (do _ <- (if side then set_left temp nd else set_right temp nd) ;;
      do _ <- set_parent nd temp ;; do _ <- set_left nd sn ;; do _ <- set_right nd sn ;; al_rbt_red nd) s Q.
Proof.
  destruct s as [h rt sn']. intros [Hss Hrt Hr Hnd Hsn] Hx Hfresh HC HQ. simpl in *. subst sn'.
  rewrite rootp_plug in Hrt. rewrite repr_plug in Hr. destruct Hr as [_ Hr]. simpl in Hr.
  rewrite ptrs_plug in Hnd, Hfresh. simpl in Hnd, Hfresh. rewrite !elem_of_cons in Hfresh.
  apply NoDup_cons in Hnd as HndC. destruct HndC as [Hnull [Hsnn HndC]%NoDup_cons]. rewrite elem_of_cons in Hnull.
  assert (exists h1, wp (if side then set_left temp nd else set_right temp nd) (mk h rt sn)
      (fun _ s1 => s1 = mk h1 rt sn) /\ (forall q, q ∉ cptrs C -> h1 !! q = h !! q) /\ reprc sn h1 par nd C
      /\ cptr par C = temp /\ rt = ctop nd C) as (h1 & Hwp & Hoff & Hrc & Hcp & Hrt').
  { pose proof (fun h' => reprc_new_child sn h par sn nd C h' Hr HndC) as Hnew.
    destruct C as [|c p k r C'|c l p k C']; [done|..]; destruct HC as [-> ->]; destruct Hr as (Hp & _);
      eexists; (split; [wp_write; reflexivity|]); destruct (Hnew _ eq_refl); done. }
  apply wp_bind. eapply wp_conseq; [exact Hwp|]. intros _ _ ->.
  assert (h1 !! nd = Some x) as Hx1 by (rewrite Hoff; [done|tauto]).
  do 3 (apply wp_bind; wp_write). wp_write. rewrite !insert_insert_eq. apply HQ.
  - split; simpl; [done|by rewrite rootp_plug| | |].
    + apply repr_plug. simpl. split; [|eapply reprc_frame; [|exact Hrc]; intros q Hq; apply lookup_insert_ne; intros <-; tauto].
      split; [|done]. rewrite lookup_insert_eq. by destruct x; rewrite Hcp.
    + rewrite ptrs_plug. change (NoDup (NULL :: sn :: nd :: cptrs C)). rewrite !NoDup_cons, !elem_of_cons.
      assert (NULL <> nd) by (intros <-; tauto). assert (sn <> nd) by (intros <-; tauto). tauto.
    + destruct Hsn as (y & Hy & Hc). exists y. split; [|done]. rewrite lookup_insert_ne by tauto. rewrite Hoff; tauto.
  - split; [done|]. simpl. intros q Hq. rewrite ptrs_plug, elem_of_cons in Hq. simpl in Hq.
    rewrite lookup_insert_ne by (intros ->; tauto). apply Hoff. tauto.
Qed.

Lemma wp_insert_value_loop fuel s par C c l p k r nd x (Q : unit -> state -> Prop) :
  let t := plug C (N c l p k r) in
  rep sn s par t -> heap s !! nd = Some x -> nd ∉ NULL :: sn :: ptrs t ->
  (height (N c l p k r) < fuel)%nat -> sorted t -> below (key x) (before C) -> above (key x) (after C) ->
  (forall s' C', plug C' E = t -> below (key x) (before C') -> above (key x) (after C') ->
     rep sn s' par (plug C' (N true E nd (key x) E)) -> same_off (nd :: ptrs t) s s' -> Q tt s') ->
  wp (insert_value_loop fuel p nd) s Q.
Proof.
  revert C c l p k r. induction fuel as [|fuel IH]; intros C c l p k r t Hrep Hx Hf Hh Hs Hb Ha HQ; [lia|].
  cbn [insert_value_loop]. pose proof (rep_repr _ _ _ _ Hrep) as Hr. unfold t in Hr. rewrite repr_plug in Hr.
  destruct Hr as [(Hp & _) _]. simpl in Hp. destruct (sorted_around C c l p k r Hs) as [Hl Hr'].
  wp_read. wp_read. apply wp_bind. unfold get_sentinel. unfold wp at 1. rewrite (rep_sentinel _ _ _ _ Hrep).
  assert ((key x < k)%Z -> above (key x) (after (CL c p k r C))) as HaL.
  { intros Hlt. constructor; [done|]. apply Forall_app. split; [|done]. eapply Forall_impl; [exact Hr'|]. simpl. intros. lia. }
  assert ((k <= key x)%Z -> below (key x) (before (CR c l p k C))) as HbR.
  { intros Hlt. repeat apply Forall_app_2; [done| |by constructor]. eapply Forall_impl; [exact Hl|]. simpl. intros. lia. }
  simpl in Hh. destruct (Z.ltb_spec (key x) k) as [Hlt|Hlt].
  - wp_read. destruct l as [|c' l' p' k' r']; simpl in *.
    + rewrite Nat.eqb_refl. apply (wp_link_leaf s par (CL c p k r C) nd x true p); [exact Hrep|done..|].
      intros s' Hs' Hoff. eapply (HQ s' (CL c p k r C)); simpl; auto.
    + assert (p' <> sn) as Hne.
      { pose proof (rep_nodup _ _ _ _ Hrep) as Hn. unfold t in Hn. rewrite ptrs_plug, !ptrs_N in Hn.
        apply NoDup_cons in Hn as [_ [Hn _]%NoDup_cons]. set_solver. }
      apply Nat.eqb_neq in Hne. rewrite Hne. apply (IH (CL c p k r C) c' l' p' k' r'); auto; simpl; lia.
  - wp_read. destruct r as [|c' l' p' k' r']; simpl in *.
    + rewrite Nat.eqb_refl. apply (wp_link_leaf s par (CR c l p k C) nd x false p); [exact Hrep|done..|].
      intros s' Hs' Hoff. eapply (HQ s' (CR c l p k C)); simpl; auto.
    + assert (p' <> sn) as Hne.
      { pose proof (rep_nodup _ _ _ _ Hrep) as Hn. unfold t in Hn. rewrite ptrs_plug, !ptrs_N in Hn.
        apply NoDup_cons in Hn as [_ [Hn _]%NoDup_cons]. set_solver. }
      apply Nat.eqb_neq in Hne. rewrite Hne. apply (IH (CR c l p k C) c' l' p' k' r'); auto; simpl; lia.
Qed.
End Descent.
Section Rebalance.
Context (sn : ptr).

(** The state of the loop: the only red child of a red parent may be the node
    at the hole. *)
Definition red_hole (C : ctx) (t : tree) : Prop :=
  exists l p k r n pc, t = N true l p k r /\ rb l true n /\ rb r true n /\ rbc C pc n.

(** What a pass of the loop establishes. *)
Definition progresses (s : state) (par : ptr) (C : ctx) (t : tree) (q : ptr) (s' : state) : Prop :=
  exists C' t', rootp sn t' = q /\ rep sn s' par (plug C' t') /\ red_hole C' t' /\ (depth C' < depth C)%nat
    /\ elems (plug C' t') = elems (plug C t) /\ same_off (ptrs (plug C t)) s s'.

Lemma wp_insert_fix_left s par C l p k r pp pk g gk u C2 (inner : bool) sib n pc2 :
  let t := N true l p k r in
  C = (if inner then CR true sib pp pk (CL false g gk u C2) else CL true pp pk sib (CL false g gk u C2)) ->
  rep sn s par (plug C t) -> rb l true n -> rb r true n -> rb sib true n -> rb u false n -> rbc C2 pc2 (S n) ->
  wp (insert_fix_left p) s (progresses s par C t).
Proof.
  intros t HC Hrep Hl Hr Hsib Hu HC2. unfold insert_fix_left.
  assert (rep sn s par (plug (CR false (if inner then N true sib pp pk t else N true t pp pk sib) g gk C2) u)) as Hrepu
    by (rewrite HC in Hrep; by destruct inner).
  destruct (color_of u) eqn:Ecu.
  - destruct u as [|cu ul up uk ur]; [done|]. simpl in Ecu. subst cu.
    destruct inner; rewrite HC in *; unfold t in *; look Hrep.
    all: wp_step; wp_step; apply wp_bind; (eapply (wp_is_red sn); [exact Hrepu|done|]); simpl.
    all: wp_step; apply wp_bind; eapply (wp_color _ _ _ (CL false g gk _ C2)); [exact Hrep|]; intros s1 R1 O1; look R1.
    all: apply wp_bind; eapply (wp_color _ _ _ (CR false _ g gk C2)); [exact R1|]; intros s2 R2 O2; look R2.
    all: wp_step; apply wp_bind; eapply (wp_color _ _ _ C2); [exact R2|]; intros s3 R3 O3; look R3; wp_step.
    all: eexists C2, _; split; [|split; [exact R3|]]; [done|].
    all: simpl in Hu; destruct Hu as (_ & Hul & Hur); split_and!; [|simpl; lia|elems_eq|offs].
    all: do 6 eexists; split_and!; [done| | |exact HC2]; simpl; eauto using rb_weaken.
  - assert (rb u true n) as Hu' by (by eapply rb_of_black).
    destruct inner; rewrite HC in *; unfold t in *; look Hrep.
    + wp_step. wp_step. apply wp_bind. eapply (wp_is_red sn); [exact Hrepu|done|]. rewrite Ecu.
      wp_step. wp_step. rewrite Nat.eqb_refl. apply wp_bind. wp_step.
      apply wp_bind. eapply (wp_left_rotate _ _ _ (CL false g gk u C2)); [exact Hrep|]. intros s1 R1 O1. look R1.
      wp_step. wp_step. apply wp_bind. eapply (wp_color _ _ _ (CL false g gk u C2)); [exact R1|]. intros s2 R2 O2. look R2.
      wp_step. apply wp_bind. eapply (wp_color _ _ _ C2); [exact R2|]. intros s3 R3 O3. look R3.
      wp_step. apply wp_bind. eapply (wp_right_rotate _ _ _ C2); [exact R3|]. intros s4 R4 O4. wp_step.
      exists (CL false p k (N true r g gk u) C2), (N true sib pp pk l).
      split_and!; [done|exact R4| |simpl; lia|elems_eq|offs].
      do 6 eexists. split_and!; [done|exact Hsib|exact Hl|]. simpl. eauto 10.
    + wp_step. wp_step. apply wp_bind. eapply (wp_is_red sn); [exact Hrepu|done|]. rewrite Ecu.
      wp_step. wp_step.
      assert ((p =? rootp sn sib)%nat = false) as -> by (apply (siblings_differ sn s par (CL false g gk u C2) true (N true l p k r) pp pk sib); [exact Hrep|by left]).
      wp_step.
      wp_step. apply wp_bind. eapply (wp_color _ _ _ (CL false g gk u C2)); [exact Hrep|]. intros s2 R2 O2. look R2.
      wp_step. apply wp_bind. eapply (wp_color _ _ _ C2); [exact R2|]. intros s3 R3 O3. look R3.
      wp_step. apply wp_bind. eapply (wp_right_rotate _ _ _ C2); [exact R3|]. intros s4 R4 O4. wp_step.
      exists (CL false pp pk (N true sib g gk u) C2), (N true l p k r).
      split_and!; [done|exact R4| |simpl; lia|elems_eq|offs].
      do 6 eexists. split_and!; [done|exact Hl|exact Hr|]. simpl. eauto 10.
Qed.

Lemma wp_insert_fix_right s par C l p k r pp pk g gk u C2 (inner : bool) sib n pc2 :
  let t := N true l p k r in
  C = (if inner then CL true pp pk sib (CR false u g gk C2) else CR true sib pp pk (CR false u g gk C2)) ->
  rep sn s par (plug C t) -> rb l true n -> rb r true n -> rb sib true n -> rb u false n -> rbc C2 pc2 (S n) ->
  wp (insert_fix_right p) s (progresses s par C t).
Proof.
  intros t HC Hrep Hl Hr Hsib Hu HC2. unfold insert_fix_right.
  assert (rep sn s par (plug (CL false g gk (if inner then N true t pp pk sib else N true sib pp pk t) C2) u)) as Hrepu
    by (rewrite HC in Hrep; by destruct inner).
  destruct (color_of u) eqn:Ecu.
  - destruct u as [|cu ul up uk ur]; [done|]. simpl in Ecu. subst cu.
    destruct inner; rewrite HC in *; unfold t in *; look Hrep.
    all: wp_step; wp_step; apply wp_bind; (eapply (wp_is_red sn); [exact Hrepu|done|]); simpl.
    all: wp_step; apply wp_bind; eapply (wp_color _ _ _ (CR false _ g gk C2)); [exact Hrep|]; intros s1 R1 O1; look R1.
    all: apply wp_bind; eapply (wp_color _ _ _ (CL false g gk _ C2)); [exact R1|]; intros s2 R2 O2; look R2.
    all: wp_step; apply wp_bind; eapply (wp_color _ _ _ C2); [exact R2|]; intros s3 R3 O3; look R3; wp_step.
    all: eexists C2, _; split; [|split; [exact R3|]]; [done|].
    all: simpl in Hu; destruct Hu as (_ & Hul & Hur); split_and!; [|simpl; lia|elems_eq|offs].
    all: do 6 eexists; split_and!; [done| | |exact HC2]; simpl; eauto using rb_weaken.
  - assert (rb u true n) as Hu' by (by eapply rb_of_black).
    destruct inner; rewrite HC in *; unfold t in *; look Hrep.
    + wp_step. wp_step. apply wp_bind. eapply (wp_is_red sn); [exact Hrepu|done|]. rewrite Ecu.
      wp_step. wp_step. rewrite Nat.eqb_refl. apply wp_bind. wp_step.
      apply wp_bind. eapply (wp_right_rotate _ _ _ (CR false u g gk C2)); [exact Hrep|]. intros s1 R1 O1. look R1.
      wp_step. wp_step. apply wp_bind. eapply (wp_color _ _ _ (CR false u g gk C2)); [exact R1|]. intros s2 R2 O2. look R2.
      wp_step. apply wp_bind. eapply (wp_color _ _ _ C2); [exact R2|]. intros s3 R3 O3. look R3.
      wp_step. apply wp_bind. eapply (wp_left_rotate _ _ _ C2); [exact R3|]. intros s4 R4 O4. wp_step.
      exists (CR false (N true u g gk l) p k C2), (N true r pp pk sib).
      split_and!; [done|exact R4| |simpl; lia|elems_eq|offs].
      do 6 eexists. split_and!; [done|exact Hr|exact Hsib|]. simpl. eauto 10.
    + wp_step. wp_step. apply wp_bind. eapply (wp_is_red sn); [exact Hrepu|done|]. rewrite Ecu.
      wp_step. wp_step.
      assert ((p =? rootp sn sib)%nat = false) as -> by (rewrite Nat.eqb_sym;
        apply (siblings_differ sn s par (CR false u g gk C2) true sib pp pk (N true l p k r)); [exact Hrep|by right]).
      wp_step.
      wp_step. apply wp_bind. eapply (wp_color _ _ _ (CR false u g gk C2)); [exact Hrep|]. intros s2 R2 O2. look R2.
      wp_step. apply wp_bind. eapply (wp_color _ _ _ C2); [exact R2|]. intros s3 R3 O3. look R3.
      wp_step. apply wp_bind. eapply (wp_left_rotate _ _ _ C2); [exact R3|]. intros s4 R4 O4. wp_step.
      exists (CR false (N true u g gk sib) pp pk C2), (N true l p k r).
      split_and!; [done|exact R4| |simpl; lia|elems_eq|offs].
      do 6 eexists. split_and!; [done|exact Hl|exact Hr|]. simpl. eauto 10.
Qed.

(** The root is blackened. *)
Lemma wp_blacken_root s par C t (Q : unit -> state -> Prop) :
  rep sn s par (plug C t) -> red_hole C t -> (C = Top \/ exists n, rbc C false n /\ rb t false n) ->
  (forall s' t', rep sn s' par t' -> balanced t' -> elems t' = elems (plug C t) -> same_off (ptrs (plug C t)) s s' -> Q tt s') ->
  wp (do root <- get_root ;; al_rbt_black root) s Q.
Proof.
  intros Hrep (l & p & k & r & n & pc & -> & Hl & Hr & HC) Hcase HQ.
  apply wp_bind. eapply wp_root; [exact Hrep|]. destruct Hcase as [->|(m & HCm & Htm)].
  - eapply (wp_color _ _ _ Top); [exact Hrep|]. intros s' R' O'. eapply HQ; [exact R'| |done|done].
    exists (S n). simpl. eauto using rb_weaken.
  - assert (balanced (plug C (N true l p k r))) as Hbal by (by eapply plug_rb).
    destruct (plug C (N true l p k r)) as [|c0 l0 p0 k0 r0] eqn:Et.
    + assert (elems (plug C (N true l p k r)) = []) as He by (by rewrite Et). rewrite elems_plug in He. simpl in He.
      by destruct (before C), (elems l).
    + eapply (wp_color _ _ _ Top); [exact Hrep|]. simpl. intros s' R' O'. destruct Hbal as [b Hb].
      assert (c0 = false) as -> by (destruct c0; [by destruct Hb|done]). eapply HQ; [exact R'|by exists b|done|done].
Qed.

Lemma wp_insert_rebalance fuel : forall s par C t (Q : unit -> state -> Prop),
  rep sn s par (plug C t) -> red_hole C t -> (depth C < fuel)%nat ->
  (forall s' t', rep sn s' par t' -> balanced t' -> elems t' = elems (plug C t) -> same_off (ptrs (plug C t)) s s' -> Q tt s') ->
  wp (insert_rebalance fuel (rootp sn t)) s Q.
Proof.
  induction fuel as [|fuel IH]; intros s par C t Q Hrep Hred Hf HQ; [lia|]. cbn [insert_rebalance].
  apply wp_bind. eapply wp_root; [exact Hrep|]. rewrite (hole_is_root _ _ _ _ _ Hrep).
  pose proof Hred as (l & p & k & r & n & pc & Et & Hl & Hr & HC).
  (* a pass of the loop *)
  assert (forall f, wp f s (progresses s par C t) ->
    wp (do node <- f ;; insert_rebalance fuel node) s Q) as Hpass.
  { intros f Hwp. apply wp_bind. eapply wp_conseq; [exact Hwp|].
    intros q s' (C' & t' & <- & R' & Hred' & Hd & He & Ho). eapply (IH s' par C'); [done|done|lia|].
    intros s2 t2 R2 Hb2 He2 Ho2. eapply HQ; [done|done|congruence|].
    eapply same_off_trans; [exact Ho|]. by eapply same_off_elems. }
  (* the loop ends *)
  assert ((C = Top \/ exists n, rbc C false n /\ rb t false n) -> wp (do root <- get_root ;; al_rbt_black root) s Q) as Hend
    by (intros; by eapply wp_blacken_root).
  destruct C as [|c pp pk sib C1|c sib pp pk C1].
  - wp_step. auto.
  - subst t. look Hrep. apply wp_bind. wp_step. eapply wp_field; [eassumption|]. cbn [color].
    destruct c; [|apply Hend; right; exists n; simpl in *; destruct_and!; by split_and!]. destruct HC as (-> & Hsib & HC). wp_step.
    destruct C1 as [|[] g gk u C2|[] u g gk C2]; simpl in HC; [done|by destruct HC| |by destruct HC|];
      destruct HC as (_ & Hu & pc2 & HC2); look Hrep; wp_step; wp_step.
    + rewrite Nat.eqb_refl. apply Hpass. by eapply (wp_insert_fix_left _ _ _ _ _ _ _ _ _ _ _ _ _ false).
    + assert ((pp =? rootp sn u)%nat = false) as -> by (rewrite Nat.eqb_sym;
        apply (siblings_differ sn s par C2 false u g gk (N true (N true l p k r) pp pk sib)); [exact Hrep|by right]).
      apply Hpass. by eapply (wp_insert_fix_right _ _ _ _ _ _ _ _ _ _ _ _ _ true).
  - subst t. look Hrep. apply wp_bind. wp_step. eapply wp_field; [eassumption|]. cbn [color].
    destruct c; [|apply Hend; right; exists n; simpl in *; destruct_and!; by split_and!]. destruct HC as (-> & Hsib & HC). wp_step.
    destruct C1 as [|[] g gk u C2|[] u g gk C2]; simpl in HC; [done|by destruct HC| |by destruct HC|];
      destruct HC as (_ & Hu & pc2 & HC2); look Hrep; wp_step; wp_step.
    + rewrite Nat.eqb_refl. apply Hpass. by eapply (wp_insert_fix_left _ _ _ _ _ _ _ _ _ _ _ _ _ true).
    + assert ((pp =? rootp sn u)%nat = false) as -> by (rewrite Nat.eqb_sym;
        apply (siblings_differ sn s par C2 false u g gk (N true sib pp pk (N true l p k r))); [exact Hrep|by right]).
      apply Hpass. by eapply (wp_insert_fix_right _ _ _ _ _ _ _ _ _ _ _ _ _ false).
Qed.

(** Insertion of a node whose key is new. *)
Lemma wp_insert s par t nd x (Q : unit -> state -> Prop) :
  rep sn s par t -> sorted t -> balanced t -> heap s !! nd = Some x -> nd ∉ NULL :: sn :: ptrs t ->
  key x ∉ (elems t).*1 ->
  (forall s' par' t' A B, rep sn s' par' t' -> balanced t' -> elems t = A ++ B -> elems t' = A ++ (key x, nd) :: B ->
     Forall (fun e => e.1 < key x)%Z A -> above (key x) B -> same_off (nd :: ptrs t) s s' -> Q tt s') ->
  wp (al_rbtree_insert nd) s Q.
Proof.
  intros Hrep Hs Hbal Hx Hf Hk HQ. unfold al_rbtree_insert.
  apply wp_bind. eapply wp_root; [exact Hrep|]. apply wp_bind. eapply wp_sentinel; [exact Hrep|].
  destruct t as [|c l p k r]; simpl rootp.
  - rewrite Nat.eqb_refl. destruct s as [h rt sn']. destruct Hrep as [Hss Hrt _ Hnd Hsn]. simpl in *. subst sn'.
    do 4 (apply wp_bind; wp_write). apply wp_modify. rewrite !insert_insert_eq. rewrite !elem_of_cons in Hf.
    apply (HQ _ NULL (N false E nd (key x) E) [] []); [|exists 1%nat; done|done|done|constructor|constructor|].
    + split; simpl; [done|done| | |].
      * split; [|done]. rewrite lookup_insert_eq. by destruct x; subst.
      * change (NoDup [NULL; sn; nd]). change (NoDup [NULL; sn]) in Hnd. rewrite !NoDup_cons, !elem_of_cons in *.
        assert (NULL <> nd) by (intros <-; tauto). assert (sn <> nd) by (intros <-; tauto). tauto.
      * destruct Hsn as (y & Hy & Hc). exists y. split; [|done]. rewrite lookup_insert_ne; [done|]. intros ->. tauto.
    + split; [done|]. simpl. intros q Hq. rewrite lookup_insert_ne; [done|]. set_solver.
  - assert ((p =? sn)%nat = false) as ->.
    { apply Nat.eqb_neq. intros ->. destruct Hrep as [_ _ _ Hnd _]. rewrite ptrs_N in Hnd.
      apply NoDup_cons in Hnd as [_ [Hnd _]%NoDup_cons]. set_solver. }
    apply wp_bind. unfold al_rbtree_insert_value. apply wp_bind, wp_get.
    eapply (wp_insert_value_loop sn _ s par Top); [exact Hrep|done|done| |done|constructor|constructor|].
    { pose proof (rep_size _ _ _ _ Hrep). unfold fuel. pose proof (height_le (N c l p k r)). lia. }
    simpl. intros s1 C Et Hb Ha R1 O1. apply wp_bind, wp_get. rewrite <-Et in *.
    destruct Hbal as [m Hm]. destruct (rb_plug C E m true Hm eq_refl) as (pc & n & HC & Hn).
    eapply (wp_insert_rebalance (fuel s1) s1 par C (N true E nd (key x) E)); [exact R1| | |].
    { do 6 eexists. split_and!; [done| | |exact HC]; done. }
    { unfold fuel. pose proof (rep_size _ _ _ _ R1). pose proof (depth_le C (N true E nd (key x) E)). lia. }
    intros s2 t2 R2 Hb2 He2 O2. rewrite elems_plug in *. simpl in *.
    eapply (HQ s2 par t2 (before C) (after C)); [done|done|done|done| |done|].
    + rewrite Forall_forall. intros e He. pose proof (proj1 (Forall_forall _ _) Hb e He) as Hle. simpl in Hle.
      assert (e.1 <> key x); [|lia]. intros Heq. apply Hk. rewrite fmap_app, elem_of_app. left. rewrite <-Heq. by apply list_elem_of_fmap_2.
    + destruct O1 as [O1a O1]. destruct O2 as [O2a O2]. split; [congruence|]. intros q Hq.
      rewrite O2, O1; [done|done|]. revert Hq. rewrite !ptrs_plug, elem_of_cons. set_solver.
Qed.
End Rebalance.
End RbInsert.
