(* ===== verification/RbDelete.v ===== *)
(** * Deletion from the red-black tree

    [al_rbtree_delete] unlinks its node, or puts the node's successor in its
    place, and restores the red-black conditions from the child that moved up. *)

From Stdlib Require Import ZArith Lia Bool Sorted.
From stdpp Require Import base tactics option gmap list sets sorting.
From S2P Require Import Prelude RbTree RbRep RbInsert.

Module RbDelete.
Import RbTree RbShape RbRep RbInsert.

(** ** The fixup loop *)
Section Fixup.
Context (sn : ptr).

(** A leaf at the hole must know its parent. *)
Definition at_hole (s : state) (par : ptr) (C : ctx) (t : tree) : Prop :=
  rep sn s par (plug C t) /\ (t = E -> exists x, heap s !! sn = Some x /\ parent x = cptr par C).

Lemma hole_node s par C t : at_hole s par C t -> exists x, heap s !! rootp sn t = Some x /\ parent x = cptr par C.
Proof.
  intros [H Hsn]. destruct t as [|c l p k r]; [auto|]. look H. simpl. eauto.
Qed.
Lemma at_hole_step s s' par C C' t T : at_hole s par C t -> rep sn s' par (plug C' t) ->
  same_off (ptrs T) s s' -> ptrs T ≡ₚ ptrs (plug C t) -> cptr par C' = cptr par C -> at_hole s' par C' t.
Proof.
  intros [Hr Hsn] Hr' [_ Ho] HT Hc. split; [done|]. intros ->. destruct (Hsn eq_refl) as (x & Hx & Hp). exists x.
  rewrite Ho, Hc; [done|]. rewrite HT. destruct Hr as [_ _ _ Hnd _]. by apply NoDup_cons in Hnd as [_ [? _]%NoDup_cons].
Qed.
Lemma at_hole_full s par C c l p k r : rep sn s par (plug C (N c l p k r)) -> at_hole s par C (N c l p k r).
Proof. by split. Qed.

(** The subtree at the hole lacks one black node, or is red. *)
Definition lacks (t : tree) (n : nat) : Prop :=
  match t with N true l _ _ r => rb l false n /\ rb r false n | _ => rb t false n end.
Definition deficient (C : ctx) (t : tree) : Prop := exists n pc, lacks t n /\ rbc C pc (S n).
Definition measure (C : ctx) (t : tree) : nat := if color_of t then 0 else depth C.

(** What a pass of the loop establishes. *)
Definition repaired (bound : nat) (s : state) (par : ptr) (T : tree) (q : ptr) (s' : state) : Prop :=
  exists C' t', q = rootp sn t' /\ at_hole s' par C' t' /\ deficient C' t' /\ (measure C' t' < bound)%nat
    /\ elems (plug C' t') = elems T /\ same_off (ptrs T) s s'.

Lemma repaired_trans b b' s s1 par T T1 q s' : repaired b s1 par T1 q s' -> (b <= b')%nat ->
  elems T1 = elems T -> same_off (ptrs T) s s1 -> repaired b' s par T q s'.
Proof.
  intros (C' & t' & Hq & Hat & Hd & Hm & He & Ho) Hb HT HO. exists C', t'. split_and!; [done..|lia|congruence|].
  eapply same_off_trans; [exact HO|]. by eapply same_off_elems.
Qed.

(** Contexts one level up. *)
Definition above_hole (c : bool) (C : ctx) (n : nat) : Prop :=
  if c then rbc C false n else exists pc, rbc C pc (S n).

Lemma plug_not_E C c l p k r : plug C (N c l p k r) <> E.
Proof.
  intros H. assert (elems (plug C (N c l p k r)) = []) as He by (by rewrite H). rewrite elems_plug in He. simpl in He.
  by destruct (before C), (elems l).
Qed.

Lemma whole_repaired s s' par T T' : rep sn s' par T' -> T' <> E -> balanced T' ->
  elems T' = elems T -> same_off (ptrs T) s s' -> repaired 1 s par T (rootp sn T') s'.
Proof.
  intros HT HE [m Hm] He Ho. exists Top, T'. split_and!; [done| | | |done|done].
  - by destruct T'.
  - exists m, true. split; [|done]. destruct T' as [|[] ????]; [done|by destruct Hm|done].
  - unfold measure. simpl. destruct (color_of T'); lia.
Qed.

Section Left.
Context (par : ptr) (t : tree) (n : nat) (Hct : color_of t = false) (Ht : rb t false n).

(** The sibling's right child is red. *)
Lemma wp_fix_left_end s C c P k x w wk a q qk b C1 :
  C = CL c P k (N false x w wk (N true a q qk b)) C1 ->
  at_hole s par C t -> rb x false n -> rb a true n -> rb b true n -> above_hole c C1 (S n) ->
  wp (delete_fix_left_end (rootp sn t) w) s (repaired 1 s par (plug C t)).
Proof.
  intros HC Hat Hx Ha Hb HC1. subst C. unfold delete_fix_left_end.
  destruct (hole_node _ _ _ _ Hat) as (y & Hy & Hpy). simpl in Hpy. pose proof Hat as [Hrep _]. simpl in Hrep. look Hrep.
  wp_step. rewrite Hpy. wp_step.
  apply wp_bind. eapply (wp_color _ _ _ (CR c t P k C1)); [exact Hrep|]. intros s1 R1 O1. look R1.
  assert (at_hole s1 par (CL c P k (N c x w wk (N true a q qk b)) C1) t) as Hat1
    by (eapply at_hole_step; [exact Hat|exact R1|exact O1|done|done]).
  destruct (hole_node _ _ _ _ Hat1) as (y1 & Hy1 & Hpy1). simpl in Hpy1.
  wp_step. rewrite Hpy1. apply wp_bind. eapply (wp_color _ _ _ C1); [exact R1|]. intros s2 R2 O2. look R2.
  assert (at_hole s2 par (CL false P k (N c x w wk (N true a q qk b)) C1) t) as Hat2
    by (eapply at_hole_step; [exact Hat1|exact R2|exact O2|done|done]).
  wp_step. apply wp_bind. eapply (wp_color _ _ _ (CR c x w wk (CR false t P k C1))); [exact R2|]. intros s3 R3 O3. look R3.
  assert (at_hole s3 par (CL false P k (N c x w wk (N false a q qk b)) C1) t) as Hat3
    by (eapply at_hole_step; [exact Hat2|exact R3|exact O3| |done]; unfold ptrs; simpl; by rewrite !elems_plug).
  destruct (hole_node _ _ _ _ Hat3) as (y3 & Hy3 & Hpy3). simpl in Hpy3.
  wp_step. rewrite Hpy3. apply wp_bind. eapply (wp_left_rotate _ _ _ C1); [exact R3|]. intros s4 R4 O4.
  eapply wp_root; [exact R4|].
  apply whole_repaired; [exact R4|apply plug_not_E| |elems_eq|cbn [plug]; offs].
  destruct c; simpl in HC1.
  - eapply plug_rb; [exact HC1|]. simpl. eauto 10 using rb_weaken.
  - destruct HC1 as [pc HC1]. eapply plug_rb; [exact HC1|]. simpl. eauto 10 using rb_weaken.
Qed.

(** The sibling is black. *)
Lemma wp_fix_left_black s C c P k wl w wk wr C1 :
  C = CL c P k (N false wl w wk wr) C1 ->
  at_hole s par C t -> rb wl false n -> rb wr false n -> above_hole c C1 (S n) ->
  wp (delete_fix_left_black (rootp sn t) w) s (repaired (if c then 1 else depth C) s par (plug C t)).
Proof.
  intros HC Hat Hwl Hwr HC1. unfold delete_fix_left_black. rewrite HC in Hat.
  destruct (hole_node _ _ _ _ Hat) as (y & Hy & Hpy). simpl in Hpy. pose proof Hat as [Hrep _]. simpl in Hrep. look Hrep.
  wp_step. apply wp_bind. eapply (wp_is_black _ _ _ (CL false w wk wr (CR c t P k C1))); [exact Hrep|done|].
  assert (wp (al_rbt_is_black (rootp sn wr)) s (fun b s' => b = negb (color_of wr) /\ s' = s)) as Hbr
    by (eapply (wp_is_black _ _ _ (CR false wl w wk (CR c t P k C1))); [exact Hrep|done|done]).
  assert (1 <= if c then 1 else depth C)%nat as Hone by (destruct c; [done|]; subst C; simpl; lia).
  destruct (color_of wr) eqn:Ecr.
  - (* the right nephew is red *)
    apply wp_bind. apply wp_conseq with (P := fun b s' => b = false /\ s' = s).
    { destruct (negb (color_of wl)); [|by apply wp_ret]. wp_step. exact Hbr. }
    intros b s' [-> ->]. wp_step. apply wp_bind. eapply wp_conseq; [exact Hbr|]. intros b s' [-> ->]. simpl.
    wp_step. destruct wr as [|[] a q qk b]; [done| |done]. simpl in Hwr. destruct Hwr as (_ & Ha & Hb).
    eapply wp_conseq; [eapply wp_fix_left_end; [reflexivity|exact Hat|done|done|done|done]|].
    intros q' s' H'. subst C. eapply repaired_trans; [exact H'|done|done|done].
  - destruct (color_of wl) eqn:Ecl; simpl.
    + (* the left nephew is red *)
      wp_step. wp_step. apply wp_bind. eapply wp_conseq; [exact Hbr|]. intros b s' [-> ->]. simpl.
      destruct wl as [|[] a q qk b]; [done| |done]. simpl in Hwl. destruct Hwl as (_ & Ha & Hb). simpl rootp in *.
      apply wp_bind. wp_step. apply wp_bind. eapply (wp_color _ _ _ (CL false w wk wr (CR c t P k C1))); [exact Hrep|].
      intros s1 R1 O1. look R1.
      apply wp_bind. eapply (wp_color _ _ _ (CR c t P k C1)); [exact R1|]. intros s2 R2 O2. look R2.
      apply wp_bind. eapply (wp_right_rotate _ _ _ (CR c t P k C1)); [exact R2|]. intros s3 R3 O3. look R3.
      assert (same_off (ptrs (plug C t)) s s3) as O by (subst C; cbn [plug]; offs).
      assert (at_hole s3 par (CL c P k (N false a q qk (N true b w wk wr)) C1) t) as Hat3
        by (eapply at_hole_step; [exact Hat|exact R3|exact O|by subst C|done]).
      destruct (hole_node _ _ _ _ Hat3) as (y3 & Hy3 & Hpy3). simpl in Hpy3.
      wp_step. rewrite Hpy3. wp_step.
      eapply wp_conseq; [eapply wp_fix_left_end; [reflexivity|exact Hat3|by apply rb_weaken|done|by eapply rb_of_black|done]|].
      intros q' s' H'. eapply repaired_trans; [exact H'|done|subst C; elems_eq|done].
    + (* both are black *)
      apply wp_bind. wp_step. eapply wp_conseq; [exact Hbr|]. intros b s' [-> ->]. simpl.
      apply wp_bind. eapply (wp_color _ _ _ (CR c t P k C1)); [exact Hrep|]. intros s1 R1 O1. look R1.
      assert (at_hole s1 par (CL c P k (N true wl w wk wr) C1) t) as Hat1
        by (eapply at_hole_step; [exact Hat|exact R1|exact O1|done|done]).
      destruct (hole_node _ _ _ _ Hat1) as (y1 & Hy1 & Hpy1). simpl in Hpy1. wp_step. rewrite Hpy1.
      exists C1, (N c t P k (N true wl w wk wr)). subst C. split_and!; [done|by apply at_hole_full| | |elems_eq|cbn [plug]; offs].
      * assert (rb wl true n /\ rb wr true n) as [? ?] by (split; by eapply rb_of_black).
        destruct c; simpl in HC1; [exists n, false; simpl; eauto|]. destruct HC1 as [pc HC1]. exists (S n), pc. simpl. eauto 6.
      * unfold measure. destruct c; simpl; lia.
Qed.

Lemma wp_fix_left s C c P k W C1 pc :
  C = CL c P k W C1 -> at_hole s par C t -> rbc C pc (S n) ->
  wp (delete_fix_left (rootp sn t)) s (repaired (depth C) s par (plug C t)).
Proof.
  intros HC Hat HC1. unfold delete_fix_left. rewrite HC in Hat, HC1.
  destruct (hole_node _ _ _ _ Hat) as (y & Hy & Hpy). simpl in Hpy. pose proof Hat as [Hrep _]. simpl in Hrep. look Hrep.
  wp_step. rewrite Hpy. wp_step. apply wp_bind. eapply (wp_is_red _ _ _ (CR c t P k C1)); [exact Hrep|done|].
  destruct W as [|[] wl w wk wr]; [by destruct c; destruct_and?; simpl in *; destruct_and?| |].
  - (* a red sibling *)
    destruct c; [by destruct HC1 as (_ & [? _] & _)|]. destruct HC1 as (_ & (_ & Hwl & Hwr) & pc1 & HC1). simpl.
    apply wp_bind. apply wp_bind. eapply (wp_color _ _ _ (CR false t P k C1)); [exact Hrep|]. intros s1 R1 O1. look R1.
    assert (at_hole s1 par (CL false P k (N false wl w wk wr) C1) t) as Hat1
      by (eapply at_hole_step; [exact Hat|exact R1|exact O1|done|done]).
    destruct (hole_node _ _ _ _ Hat1) as (y1 & Hy1 & Hpy1). simpl in Hpy1.
    wp_step. rewrite Hpy1. apply wp_bind. eapply (wp_color _ _ _ C1); [exact R1|]. intros s2 R2 O2. look R2.
    assert (at_hole s2 par (CL true P k (N false wl w wk wr) C1) t) as Hat2
      by (eapply at_hole_step; [exact Hat1|exact R2|exact O2|done|done]).
    destruct (hole_node _ _ _ _ Hat2) as (y2 & Hy2 & Hpy2). simpl in Hpy2.
    wp_step. rewrite Hpy2. apply wp_bind. eapply (wp_left_rotate _ _ _ C1); [exact R2|]. intros s3 R3 O3. look R3.
    assert (same_off (ptrs (plug C t)) s s3) as O by (subst C; cbn [plug]; offs).
    assert (at_hole s3 par (CL true P k wl (CL false w wk wr C1)) t) as Hat3
      by (eapply at_hole_step; [exact Hat|exact R3|exact O|by subst C|done]).
    destruct (hole_node _ _ _ _ Hat3) as (y3 & Hy3 & Hpy3). simpl in Hpy3. wp_step. rewrite Hpy3. wp_step.
    destruct wl as [|[] a q qk b]; [done|by destruct Hwl|]. simpl in Hwl. destruct Hwl as [Ha Hb].
    eapply wp_conseq; [eapply wp_fix_left_black; [reflexivity|exact Hat3|done|done|]|].
    { simpl. split_and!; [done|by apply rb_weaken|eauto]. }
    intros q' s' H'. eapply repaired_trans; [exact H'|subst C; simpl; lia|subst C; elems_eq|done].
  - simpl color_of. cbv iota. wp_step. subst C. eapply wp_conseq; [eapply (wp_fix_left_black s (CL c P k (N false wl w wk wr) C1)); [reflexivity|exact Hat| | |]|].
    1-2: destruct c; simpl in HC1; by destruct_and!.
    + destruct c; simpl in HC1; by destruct_and!.
    + intros q' s' H'. eapply repaired_trans; [exact H'|destruct c; simpl; lia|done|done].
Qed.
End Left.

Section Right.
Context (par : ptr) (t : tree) (n : nat) (Hct : color_of t = false) (Ht : rb t false n).

(** The sibling's left child is red. *)
Lemma wp_fix_right_end s C c P k x w wk a q qk b C1 :
  C = CR c (N false (N true a q qk b) w wk x) P k C1 ->
  at_hole s par C t -> rb x false n -> rb a true n -> rb b true n -> above_hole c C1 (S n) ->
  wp (delete_fix_right_end (rootp sn t) w) s (repaired 1 s par (plug C t)).
Proof.
  intros HC Hat Hx Ha Hb HC1. subst C. unfold delete_fix_right_end.
  destruct (hole_node _ _ _ _ Hat) as (y & Hy & Hpy). simpl in Hpy. pose proof Hat as [Hrep _]. simpl in Hrep. look Hrep.
  wp_step. rewrite Hpy. wp_step.
  apply wp_bind. eapply (wp_color _ _ _ (CL c P k t C1)); [exact Hrep|]. intros s1 R1 O1. look R1.
  assert (at_hole s1 par (CR c (N c (N true a q qk b) w wk x) P k C1) t) as Hat1
    by (eapply at_hole_step; [exact Hat|exact R1|exact O1|done|done]).
  destruct (hole_node _ _ _ _ Hat1) as (y1 & Hy1 & Hpy1). simpl in Hpy1.
  wp_step. rewrite Hpy1. apply wp_bind. eapply (wp_color _ _ _ C1); [exact R1|]. intros s2 R2 O2. look R2.
  assert (at_hole s2 par (CR false (N c (N true a q qk b) w wk x) P k C1) t) as Hat2
    by (eapply at_hole_step; [exact Hat1|exact R2|exact O2|done|done]).
  wp_step. apply wp_bind. eapply (wp_color _ _ _ (CL c w wk x (CL false P k t C1))); [exact R2|]. intros s3 R3 O3. look R3.
  assert (at_hole s3 par (CR false (N c (N false a q qk b) w wk x) P k C1) t) as Hat3
    by (eapply at_hole_step; [exact Hat2|exact R3|exact O3| |done]; unfold ptrs; simpl; by rewrite !elems_plug).
  destruct (hole_node _ _ _ _ Hat3) as (y3 & Hy3 & Hpy3). simpl in Hpy3.
  wp_step. rewrite Hpy3. apply wp_bind. eapply (wp_right_rotate _ _ _ C1); [exact R3|]. intros s4 R4 O4.
  eapply wp_root; [exact R4|].
  apply whole_repaired; [exact R4|apply plug_not_E| |elems_eq|cbn [plug]; offs].
  destruct c; simpl in HC1.
  - eapply plug_rb; [exact HC1|]. simpl. eauto 10 using rb_weaken.
  - destruct HC1 as [pc HC1]. eapply plug_rb; [exact HC1|]. simpl. eauto 10 using rb_weaken.
Qed.

(** The sibling is black. *)
Lemma wp_fix_right_black s C c P k wl w wk wr C1 :
  C = CR c (N false wl w wk wr) P k C1 ->
  at_hole s par C t -> rb wl false n -> rb wr false n -> above_hole c C1 (S n) ->
  wp (delete_fix_right_black (rootp sn t) w) s (repaired (if c then 1 else depth C) s par (plug C t)).
Proof.
  intros HC Hat Hwl Hwr HC1. unfold delete_fix_right_black. rewrite HC in Hat.
  destruct (hole_node _ _ _ _ Hat) as (y & Hy & Hpy). simpl in Hpy. pose proof Hat as [Hrep _]. simpl in Hrep. look Hrep.
  wp_step. 
  assert (wp (al_rbt_is_black (rootp sn wl)) s (fun b s' => b = negb (color_of wl) /\ s' = s)) as Hbl
    by (eapply (wp_is_black _ _ _ (CL false w wk wr (CL c P k t C1))); [exact Hrep|done|done]).
  assert (wp (al_rbt_is_black (rootp sn wr)) s (fun b s' => b = negb (color_of wr) /\ s' = s)) as Hbr
    by (eapply (wp_is_black _ _ _ (CR false wl w wk (CL c P k t C1))); [exact Hrep|done|done]).
  apply wp_bind. eapply wp_conseq; [exact Hbl|]. intros b s' [-> ->].
  assert (1 <= if c then 1 else depth C)%nat as Hone by (destruct c; [done|]; subst C; simpl; lia).
  destruct (color_of wl) eqn:Ecl; simpl.
  - (* the left nephew is red *)
    wp_step. wp_step. apply wp_bind. eapply wp_conseq; [exact Hbl|]. intros b s' [-> ->]. simpl.
    wp_step. destruct wl as [|[] a q qk b]; [done| |done]. simpl in Hwl. destruct Hwl as (_ & Ha & Hb).
    eapply wp_conseq; [eapply wp_fix_right_end; [reflexivity|exact Hat|done|done|done|done]|].
    intros q' s' H'. subst C. eapply repaired_trans; [exact H'|done|done|done].
  - apply wp_bind. wp_step. eapply wp_conseq; [exact Hbr|]. intros b s' [-> ->].
    destruct (color_of wr) eqn:Ecr; simpl.
    + (* the right nephew is red *)
      wp_step. apply wp_bind. eapply wp_conseq; [exact Hbl|]. intros b s' [-> ->]. simpl.
      destruct wr as [|[] a q qk b]; [done| |done]. simpl in Hwr. destruct Hwr as (_ & Ha & Hb). simpl rootp in *.
      apply wp_bind. wp_step. apply wp_bind. eapply (wp_color _ _ _ (CR false wl w wk (CL c P k t C1))); [exact Hrep|].
      intros s1 R1 O1. look R1.
      apply wp_bind. eapply (wp_color _ _ _ (CL c P k t C1)); [exact R1|]. intros s2 R2 O2. look R2.
      apply wp_bind. eapply (wp_left_rotate _ _ _ (CL c P k t C1)); [exact R2|]. intros s3 R3 O3. look R3.
      assert (same_off (ptrs (plug C t)) s s3) as O by (subst C; cbn [plug]; offs).
      assert (at_hole s3 par (CR c (N false (N true wl w wk a) q qk b) P k C1) t) as Hat3
        by (eapply at_hole_step; [exact Hat|exact R3|exact O|by subst C|done]).
      destruct (hole_node _ _ _ _ Hat3) as (y3 & Hy3 & Hpy3). simpl in Hpy3.
      wp_step. rewrite Hpy3. wp_step.
      eapply wp_conseq; [eapply wp_fix_right_end; [reflexivity|exact Hat3|by apply rb_weaken|by eapply rb_of_black|done|done]|].
      intros q' s' H'. eapply repaired_trans; [exact H'|done|subst C; elems_eq|done].
    + (* both are black *)
      apply wp_bind. eapply (wp_color _ _ _ (CL c P k t C1)); [exact Hrep|]. intros s1 R1 O1. look R1.
      assert (at_hole s1 par (CR c (N true wl w wk wr) P k C1) t) as Hat1
        by (eapply at_hole_step; [exact Hat|exact R1|exact O1|done|done]).
      destruct (hole_node _ _ _ _ Hat1) as (y1 & Hy1 & Hpy1). simpl in Hpy1. wp_step. rewrite Hpy1.
      exists C1, (N c (N true wl w wk wr) P k t). subst C. split_and!; [done|by apply at_hole_full| | |elems_eq|cbn [plug]; offs].
      * assert (rb wl true n /\ rb wr true n) as [? ?] by (split; by eapply rb_of_black).
        destruct c; simpl in HC1; [exists n, false; simpl; eauto|]. destruct HC1 as [pc HC1]. exists (S n), pc. simpl. eauto 6.
      * unfold measure. destruct c; simpl; lia.
Qed.

Lemma wp_fix_right s C c P k W C1 pc :
  C = CR c W P k C1 -> at_hole s par C t -> rbc C pc (S n) ->
  wp (delete_fix_right (rootp sn t)) s (repaired (depth C) s par (plug C t)).
Proof.
  intros HC Hat HC1. unfold delete_fix_right. rewrite HC in Hat, HC1.
  destruct (hole_node _ _ _ _ Hat) as (y & Hy & Hpy). simpl in Hpy. pose proof Hat as [Hrep _]. simpl in Hrep. look Hrep.
  wp_step. rewrite Hpy. wp_step. apply wp_bind. eapply (wp_is_red _ _ _ (CL c P k t C1)); [exact Hrep|done|].
  destruct W as [|[] wl w wk wr]; [by destruct c; destruct_and?; simpl in *; destruct_and?| |].
  - (* a red sibling *)
    destruct c; [by destruct HC1 as (_ & [? _] & _)|]. destruct HC1 as (_ & (_ & Hwl & Hwr) & pc1 & HC1). simpl.
    apply wp_bind. apply wp_bind. eapply (wp_color _ _ _ (CL false P k t C1)); [exact Hrep|]. intros s1 R1 O1. look R1.
    assert (at_hole s1 par (CR false (N false wl w wk wr) P k C1) t) as Hat1
      by (eapply at_hole_step; [exact Hat|exact R1|exact O1|done|done]).
    destruct (hole_node _ _ _ _ Hat1) as (y1 & Hy1 & Hpy1). simpl in Hpy1.
    wp_step. rewrite Hpy1. apply wp_bind. eapply (wp_color _ _ _ C1); [exact R1|]. intros s2 R2 O2. look R2.
    assert (at_hole s2 par (CR true (N false wl w wk wr) P k C1) t) as Hat2
      by (eapply at_hole_step; [exact Hat1|exact R2|exact O2|done|done]).
    destruct (hole_node _ _ _ _ Hat2) as (y2 & Hy2 & Hpy2). simpl in Hpy2.
    wp_step. rewrite Hpy2. apply wp_bind. eapply (wp_right_rotate _ _ _ C1); [exact R2|]. intros s3 R3 O3. look R3.
    assert (same_off (ptrs (plug C t)) s s3) as O by (subst C; cbn [plug]; offs).
    assert (at_hole s3 par (CR true wr P k (CR false wl w wk C1)) t) as Hat3
      by (eapply at_hole_step; [exact Hat|exact R3|exact O|by subst C|done]).
    destruct (hole_node _ _ _ _ Hat3) as (y3 & Hy3 & Hpy3). simpl in Hpy3. wp_step. rewrite Hpy3. wp_step.
    destruct wr as [|[] a q qk b]; [done|by destruct Hwr|]. simpl in Hwr. destruct Hwr as [Ha Hb].
    eapply wp_conseq; [eapply wp_fix_right_black; [reflexivity|exact Hat3|done|done|]|].
    { simpl. split_and!; [done|by apply rb_weaken|eauto]. }
    intros q' s' H'. eapply repaired_trans; [exact H'|subst C; simpl; lia|subst C; elems_eq|done].
  - simpl color_of. cbv iota. wp_step. subst C. eapply wp_conseq; [eapply (wp_fix_right_black s (CR c (N false wl w wk wr) P k C1)); [reflexivity|exact Hat| | |]|].
    1-2: destruct c; simpl in HC1; by destruct_and!.
    + destruct c; simpl in HC1; by destruct_and!.
    + intros q' s' H'. eapply repaired_trans; [exact H'|destruct c; simpl; lia|done|done].
Qed.
End Right.

(** The loop ends: [temp] is blackened. *)
Lemma wp_blacken_temp s par C t (Q : unit -> state -> Prop) :
  rep sn s par (plug C t) -> deficient C t -> (C = Top \/ color_of t = true) ->
  (forall s' t', rep sn s' par t' -> balanced t' -> elems t' = elems (plug C t) ->
     same_off (sn :: ptrs (plug C t)) s s' -> Q tt s') ->
  wp (al_rbt_black (rootp sn t)) s Q.
Proof.
  intros Hrep (n & pc & Ht & HC) Hcase HQ. destruct t as [|c l p k r].
  - destruct Hcase as [->|Hc]; [|done]. destruct s as [h rt sn']. destruct Hrep as [Hss Hrt _ Hnd (x & Hx & Hcx)].
    simpl in *. subst sn'. wp_write. apply (HQ _ E); [|by exists 0%nat|done|].
    + split; simpl; [done|done|done|done|]. exists (x <| color := false |>). split; [apply lookup_insert_eq|by destruct x].
    + split; [done|]. simpl. intros q Hq. apply lookup_insert_ne. set_solver.
  - eapply wp_color; [exact Hrep|]. intros s' R' O'. eapply HQ; [exact R'| |elems_eq|].
    + destruct c; [eapply plug_rb; [exact HC|done]|]. destruct Hcase as [->|Hc]; [|done]. exists n. by destruct n.
    + destruct O' as [Ha Ho]. split; [done|]. intros q Hq. apply Ho. set_solver.
Qed.

(** The loop. *)
Lemma wp_delete_fixup fuel : forall s par C t (Q : unit -> state -> Prop),
  at_hole s par C t -> deficient C t -> (measure C t < fuel)%nat ->
  (forall s' t', rep sn s' par t' -> balanced t' -> elems t' = elems (plug C t) ->
     same_off (sn :: ptrs (plug C t)) s s' -> Q tt s') ->
  wp (delete_fixup fuel (rootp sn t)) s Q.
Proof.
  induction fuel as [|fuel IH]; intros s par C t Q Hat Hdef Hf HQ; [lia|]. cbn [delete_fixup].
  pose proof Hat as [Hrep _]. pose proof Hdef as (n & pc & Ht & HC).
  apply wp_bind. eapply wp_root; [exact Hrep|]. rewrite (hole_is_root _ _ _ _ _ Hrep).
  assert (forall f, color_of t = false -> wp f s (repaired (depth C) s par (plug C t)) ->
    wp (do temp <- f ;; delete_fixup fuel temp) s Q) as Hpass.
  { intros f Hct Hwp. apply wp_bind. eapply wp_conseq; [exact Hwp|].
    intros q s' (C' & t' & -> & Hat' & Hd' & Hm & He & Ho). eapply (IH s' par C'); [done|done|unfold measure in Hf; rewrite Hct in Hf; lia|].
    intros s2 t2 R2 Hb2 He2 Ho2. eapply HQ; [done|done|congruence|].
    destruct Ho as [Hoa Ho], Ho2 as [Ho2a Ho2]. split; [congruence|]. intros x Hx. unfold ptrs in *.
    rewrite He in Ho2. rewrite Ho2, Ho by set_solver. done. }
  destruct C as [|c P k W C1|c W P k C1].
  - wp_step. eapply wp_blacken_temp; eauto.
  - apply wp_bind. eapply (wp_is_black _ _ _ (CL c P k W C1)); [exact Hrep|done|].
    destruct (color_of t) eqn:Hct; simpl; [eapply wp_blacken_temp; eauto|].
    destruct (hole_node _ _ _ _ Hat) as (y & Hy & Hpy). simpl in Hpy. look Hrep.
    wp_step. rewrite Hpy. wp_step. rewrite Nat.eqb_refl. apply Hpass; [done|].
    eapply (wp_fix_left par t n); [|reflexivity|exact Hat|exact HC]. by destruct t as [|[] ????].
  - apply wp_bind. eapply (wp_is_black _ _ _ (CR c W P k C1)); [exact Hrep|done|].
    destruct (color_of t) eqn:Hct; simpl; [eapply wp_blacken_temp; eauto|].
    destruct (hole_node _ _ _ _ Hat) as (y & Hy & Hpy). simpl in Hpy. look Hrep.
    wp_step. rewrite Hpy. wp_step.
    assert ((rootp sn t =? rootp sn W)%nat = false) as -> by (rewrite Nat.eqb_sym;
      apply (siblings_differ sn s par C1 c W P k t); [exact Hrep|left; intros ->; simpl in HC; by destruct c; destruct_and?; simpl in *]).
    apply Hpass; [done|]. eapply (wp_fix_right par t n); [|reflexivity|exact Hat|exact HC]. by destruct t as [|[] ????].
Qed.
End Fixup.

(** ** Unlinking *)
Section Unlink.
Context (sn : ptr).

(** [t->parent = p] also on a leaf. *)
Lemma wp_reparent h rt par t p x (Q : unit -> state -> Prop) :
  repr sn h par t -> NoDup (sn :: ptrs t) -> h !! sn = Some x ->
  (forall h' x', (forall q, q ∉ sn :: ptrs t -> h' !! q = h !! q) -> repr sn h' p t ->
     h' !! sn = Some x' -> color x' = color x -> (t = E -> parent x' = p) -> Q tt (mk h' rt sn)) ->
  wp (set_parent (rootp sn t) p) (mk h rt sn) Q.
Proof.
  intros Hr Hnd Hsn HQ. destruct t as [|c l q k r]; simpl in *.
  - wp_write. eapply HQ; [|done|apply lookup_insert_eq|by destruct x|by destruct x].
    intros y Hy. apply lookup_insert_ne. set_solver.
  - rewrite ptrs_N in *. destruct Hr as (Hq & Hl & Hr). apply NoDup_cons in Hnd as [Hs Hnd].
    assert (ptrs l ++ q :: ptrs r ≡ₚ q :: ptrs l ++ ptrs r) as HP by solve_Permutation.
    rewrite HP in Hnd, Hs. apply NoDup_cons in Hnd as [Hqn _]. rewrite elem_of_cons in Hs. rewrite elem_of_app in Hqn.
    wp_write. eapply HQ; [| |rewrite lookup_insert_ne by (intros ->; tauto); exact Hsn|done|done].
    + intros y Hy. apply lookup_insert_ne. rewrite HP in Hy. set_solver.
    + split_and!; [apply lookup_insert_eq|..]; (eapply repr_frame; [|eassumption]);
        intros y Hy; apply lookup_insert_ne; intros <-; tauto.
Qed.

(** The successor takes the place of the node. *)
Lemma wp_replace_node h rt par nd k c sub ks cs l rr D C x (Q : unit -> state -> Prop) :
  h !! sub = Some (mk_node ks sn (rootp sn rr) (cptr nd D) cs) ->
  h !! nd = Some (mk_node k (rootp sn l) (rootp sn (plug D rr)) (cptr par C) c) ->
  reprc sn h nd (rootp sn rr) D -> repr sn h nd l -> repr sn h sub rr -> reprc sn h par nd C ->
  rt = ctop nd C -> h !! sn = Some x ->
  NoDup (sub :: nd :: sn :: ptrs l ++ ptrs rr ++ cptrs D ++ cptrs C) ->
  (forall h' x', 
     h' !! nd = h !! nd ->
     (forall q, q ∉ sub :: nd :: sn :: ptrs l ++ ptrs rr ++ cptrs D ++ cptrs C -> h' !! q = h !! q) ->
     repr sn h' (cptr par C) (N c l sub ks (plug D rr)) -> reprc sn h' par sub C ->
     h' !! sn = Some x' -> color x' = color x -> (rr = E -> parent x' = cptr sub D) ->
     Q tt (mk h' (ctop sub C) sn)) ->
  wp (replace_node nd sub (rootp sn rr)) (mk h rt sn) Q.
Proof.
  intros Hsub Hnd HD Hl Hrr HC Hrt Hsn Hdup HQ. unfold replace_node.
  rewrite !NoDup_cons in Hdup. destruct Hdup as (N1 & N2 & N3 & Hdup).
  rewrite !elem_of_cons, !elem_of_app in N1. rewrite !elem_of_cons, !elem_of_app in N2. rewrite !elem_of_app in N3.
  rewrite !NoDup_app in Hdup. destruct Hdup as (Dl & Dlx & Drr & Drx & DD & DDx & DC).
  wp_read. apply wp_bind.
  (* temp->parent *)
  apply wp_conseq with (P := fun _ s => exists h2 x2, s = mk h2 rt sn /\ (forall q, q ∉ sn :: ptrs rr -> h2 !! q = h !! q)
    /\ repr sn h2 (cptr sub D) rr /\ h2 !! sn = Some x2 /\ color x2 = color x /\ (rr = E -> parent x2 = cptr sub D)).
  { assert (wp (set_parent (rootp sn rr) (cptr sub D)) (mk h rt sn) (fun _ s => exists h2 x2, s = mk h2 rt sn
      /\ (forall q, q ∉ sn :: ptrs rr -> h2 !! q = h !! q) /\ repr sn h2 (cptr sub D) rr /\ h2 !! sn = Some x2
      /\ color x2 = color x /\ (rr = E -> parent x2 = cptr sub D))) as Hwp.
    { eapply wp_reparent; [exact Hrr| |exact Hsn|]. { rewrite NoDup_cons. tauto. } intros h2 x2 ?????. eauto 10. }
    destruct D as [|? ? ? ? ?|? ? ? ? ?]; simpl in *.
    - rewrite Nat.eqb_refl. exact Hwp.
    - rewrite (proj2 (Nat.eqb_neq _ _)); [wp_read; exact Hwp|]. intros ->. clear - N2. unfold cptrs in N2. simpl in N2. set_solver.
    - rewrite (proj2 (Nat.eqb_neq _ _)); [wp_read; exact Hwp|]. intros ->. clear - N2. unfold cptrs in N2. simpl in N2.
      rewrite !fmap_app in N2. set_solver. }
  intros [] s (h2 & x2 & -> & Hoff2 & Hrr2 & Hsn2 & Hc2 & Hp2).
  assert (h2 !! nd = Some (mk_node k (rootp sn l) (rootp sn (plug D rr)) (cptr par C) c)) as Hnd2
    by (rewrite Hoff2; [done|rewrite elem_of_cons; tauto]).
  assert (h2 !! sub = Some (mk_node ks sn (rootp sn rr) (cptr nd D) cs)) as Hsub2
    by (rewrite Hoff2; [done|rewrite elem_of_cons; tauto]).
  assert (sub <> nd) as Hne by tauto.
  wp_read. apply wp_bind. wp_write. wp_read. apply wp_bind. wp_write. wp_read. apply wp_bind. wp_write. wp_read. apply wp_bind. wp_write.
  rewrite !insert_insert_eq. simpl. set (h3 := <[sub := _]> h2).
  assert (((sub ∉ ptrs l) /\ (sub ∉ ptrs rr) /\ (sub ∉ cptrs D) /\ (sub ∉ cptrs C) /\ sub <> sn)
    /\ ((nd ∉ ptrs l) /\ (nd ∉ ptrs rr) /\ (nd ∉ cptrs D) /\ (nd ∉ cptrs C) /\ nd <> sn)
    /\ (sn ∉ ptrs l) /\ (sn ∉ ptrs rr) /\ (sn ∉ cptrs D) /\ (sn ∉ cptrs C)) by (split_and!; tauto).
  assert ((forall y, y ∈ ptrs l -> y ∈ ptrs rr -> False) /\ (forall y, y ∈ ptrs l -> y ∈ cptrs D -> False)
    /\ (forall y, y ∈ ptrs l -> y ∈ cptrs C -> False) /\ (forall y, y ∈ ptrs rr -> y ∈ cptrs D -> False)
    /\ (forall y, y ∈ ptrs rr -> y ∈ cptrs C -> False) /\ (forall y, y ∈ cptrs D -> y ∈ cptrs C -> False)).
  { split_and!; intros y Hy Hy'; [eapply Dlx|eapply Dlx|eapply Dlx|eapply Drx|eapply Drx|eapply DDx]; try exact Hy;
      rewrite ?elem_of_app; tauto. }
  clear N1 N2 N3 Dlx Drx DDx. destruct_and!.
  apply wp_bind. unfold get_root. unfold wp at 1. simpl.
  apply wp_bind. eapply (wp_replace h3 rt sn par nd sub (mk_node k (rootp sn l) (rootp sn (plug D rr)) (cptr par C) c) C); [|done| | |by left|done|].
  { unfold h3. rewrite lookup_insert_ne by done. exact Hnd2. }
  { eapply reprc_frame; [|exact HC]. intros y Hy. unfold h3. rewrite lookup_insert_ne by apart_solve.
    apply Hoff2. rewrite not_elem_of_cons. split; apart_solve. }
  { rewrite !NoDup_cons, not_elem_of_cons. tauto. }
  intros h4 Hoff4 HC4.
  assert (h4 !! sub = Some (mk_node ks (rootp sn l) (rootp sn (plug D rr)) (cptr par C) c)) as Hsub4
    by (rewrite Hoff4 by apart_solve; unfold h3; rewrite lookup_insert_eq; done).
  wp_read. apply wp_bind. eapply (wp_adopt h4 _ sn nd l sub); [|done|done|].
  { eapply repr_frame; [|exact Hl]. intros y Hy. rewrite Hoff4 by apart_solve. unfold h3. rewrite lookup_insert_ne by apart_solve.
    apply Hoff2. rewrite not_elem_of_cons. split; apart_solve. }
  intros h5 Hoff5 Hl5.
  assert (forall y, (y ∉ cptrs C) -> y <> sub -> (y ∉ ptrs l) -> h5 !! y = h2 !! y) as Hall5.
  { intros y ???. rewrite Hoff5, Hoff4 by done. unfold h3. by rewrite lookup_insert_ne by apart_solve. }
  assert (h5 !! sub = Some (mk_node ks (rootp sn l) (rootp sn (plug D rr)) (cptr par C) c)) as Hsub5
    by (rewrite Hoff5 by done; exact Hsub4).
  wp_read.
  assert (forall y, y ∈ ptrs (plug D rr) -> (y ∈ ptrs rr \/ y ∈ cptrs D)) as HinR by (intros y; rewrite ptrs_plug, elem_of_app; done).
  eapply (wp_adopt h5 _ sn (match D with Top => sub | _ => nd end) (plug D rr) sub).
  { apply repr_plug. split.
    - replace (cptr (match D with Top => sub | _ => nd end) D) with (cptr sub D) by (by destruct D).
      eapply repr_frame; [|exact Hrr2]. intros y Hy. rewrite Hall5 by apart_solve. done.
    - replace (reprc sn h5 (match D with Top => sub | _ => nd end) (rootp sn rr) D) with (reprc sn h5 nd (rootp sn rr) D)
        by (by destruct D).
      eapply reprc_frame; [|exact HD]. intros y Hy. rewrite Hall5 by apart_solve. apply Hoff2. rewrite not_elem_of_cons. split; apart_solve. }
  { intros [?|?]%HinR; contradiction. }
  { rewrite ptrs_plug. apply NoDup_app. split_and!; [done|intros y ??; eauto|done]. }
  intros h6 Hoff6 HR6. apply (HQ h6 x2).
  - rewrite Hoff6 by (intros [?|?]%HinR; contradiction). rewrite Hall5, Hoff2 by (rewrite ?not_elem_of_cons; split_and?; apart_solve). done.
  - intros q Hq. rewrite !elem_of_cons, !elem_of_app in Hq.
    rewrite Hoff6 by (intros [?|?]%HinR; tauto). rewrite Hall5, Hoff2 by (rewrite ?not_elem_of_cons; tauto). done.
  - simpl. split_and!; [|eapply repr_frame; [|exact Hl5]|exact HR6].
    + rewrite Hoff6 by (intros [?|?]%HinR; contradiction). done.
    + intros y Hy. rewrite Hoff6 by (intros [?|?]%HinR; eauto). done.
  - eapply reprc_frame; [|exact HC4]. intros y Hy. rewrite Hoff6 by (intros [?|?]%HinR; eauto). by rewrite Hoff5 by apart_solve.
  - rewrite Hoff6 by (intros [?|?]%HinR; contradiction). by rewrite Hall5 by done.
  - done.
  - done.
Qed.

Lemma wp_clear_node s par C t nd (Q : unit -> state -> Prop) :
  at_hole sn s par C t -> nd ∉ sn :: ptrs (plug C t) -> is_Some (heap s !! nd) ->
  (forall s', at_hole sn s' par C t -> same_off [nd] s s' -> Q tt s') -> wp (clear_node nd) s Q.
Proof.
  destruct s as [h rt sn']. intros [[Hss Hrt Hr Hnd Hsn] Hleaf] Hin [x Hx] HQ. simpl in *. subst sn'.
  rewrite elem_of_cons in Hin. assert (nd <> sn) by tauto.
  unfold clear_node. do 3 (apply wp_bind; wp_write). wp_write. rewrite !insert_insert_eq. apply HQ.
  - split; [split; simpl; [done|done| |done|]|]; simpl.
    + eapply repr_frame; [|exact Hr]. intros q Hq. apply lookup_insert_ne. intros <-. tauto.
    + destruct Hsn as (y & Hy & Hc). exists y. by rewrite lookup_insert_ne.
    + intros Ht. destruct (Hleaf Ht) as (y & Hy & Hc). exists y. by rewrite lookup_insert_ne.
  - split; [done|]. simpl. intros q Hq. apply lookup_insert_ne. set_solver.
Qed.

(** *** The node to unlink *)
Lemma wp_min_loop fuel : forall s par C c l p k r (Q : ptr -> state -> Prop),
  rep sn s par (plug C (N c l p k r)) -> (height l < fuel)%nat ->
  (forall D c' q k' r', N c l p k r = plug D (N c' E q k' r') -> before D = [] -> Q q s) ->
  wp (min_loop fuel p) s Q.
Proof.
  induction fuel as [|fuel IH]; intros s par C c l p k r Q Hrep Hf HQ; [lia|]. cbn [min_loop].
  apply wp_bind. eapply wp_sentinel; [exact Hrep|]. look Hrep. wp_step.
  destruct l as [|c' l' p' k' r']; simpl.
  - rewrite Nat.eqb_refl. simpl. apply wp_ret. by apply (HQ Top c p k r).
  - assert (p' <> sn) as Hne.
    { destruct Hrep as [_ _ _ Hnd _]. rewrite ptrs_plug, !ptrs_N in Hnd. apply NoDup_cons in Hnd as [_ [Hnd _]%NoDup_cons]. set_solver. }
    apply Nat.eqb_neq in Hne. rewrite Hne. simpl. simpl in Hf. eapply (IH s par (CL c p k r C)); [exact Hrep|lia|].
    intros D c2 q k2 r2 HD Hb. apply (HQ (capp D (CL c p k r Top)) c2 q k2 r2); [by rewrite plug_capp, <-HD|].
    clear - Hb. induction D as [|????? IHD|? l0]; simpl in *; [done|auto|]. apply app_nil in Hb as [_ Hb]. by destruct (elems l0).
Qed.

Lemma wp_find_subst s par C c l nd k r (Q : ptr * ptr -> state -> Prop) :
  rep sn s par (plug C (N c l nd k r)) ->
  (forall t, (l = E /\ t = r) \/ (r = E /\ t = l) -> Q (rootp sn t, nd) s) ->
  (forall D cs sub ks rr, r = plug D (N cs E sub ks rr) -> before D = [] -> Q (rootp sn rr, sub) s) ->
  wp (find_subst nd) s Q.
Proof.
  intros Hrep HQ1 HQ2. unfold find_subst. apply wp_bind. eapply wp_sentinel; [exact Hrep|]. look Hrep. wp_step.
  assert (forall t, t = l \/ t = r -> t <> E -> (rootp sn t =? sn)%nat = false) as Hne.
  { intros t Ht HE. apply Nat.eqb_neq. destruct Hrep as [_ _ _ Hnd _]. rewrite ptrs_plug, ptrs_N in Hnd.
    apply NoDup_cons in Hnd as [_ [Hnd _]%NoDup_cons]. destruct t as [|? ? q ? ?]; [done|]. simpl.
    intros ->. apply Hnd. destruct Ht as [<-|<-]; rewrite ptrs_N; set_solver. }
  destruct (decide (rootp sn l = sn)) as [Hl|Hl].
  { assert (l = E) as -> by (destruct l as [|c0 l0 q0 k0 r0]; [done|]; specialize (Hne (N c0 l0 q0 k0 r0) ltac:(by left) ltac:(done));
      rewrite Hl, Nat.eqb_refl in Hne; done).
    simpl. rewrite Nat.eqb_refl. wp_step. apply wp_ret. apply HQ1. by left. }
  apply Nat.eqb_neq in Hl. rewrite Hl. wp_step.
  destruct r as [|cr rl rp rk rrr]; simpl rootp.
  { rewrite Nat.eqb_refl. wp_step. apply wp_ret. apply HQ1. by right. }
  pose proof (Hne (N cr rl rp rk rrr) ltac:(by right) ltac:(done)) as Hne'. simpl in Hne'. rewrite Hne'. wp_step.
  apply wp_bind. unfold al_rbtree_min. apply wp_bind, wp_get.
  eapply (wp_min_loop _ s par (CR c l nd k C)); [exact Hrep| |].
  { unfold fuel. pose proof (rep_size _ _ _ _ Hrep) as Hsz. rewrite ptrs_plug, !ptrs_N, length_app in Hsz.
    pose proof (height_le rl). rewrite !length_app in Hsz. simpl in Hsz. rewrite length_app in Hsz. lia. }
  intros D cs sub ks rr HD Hb. simpl rootp in HD.
  assert (heap s !! sub = Some (mk_node ks sn (rootp sn rr) (cptr par (capp D (CR c l nd k C))) cs)) as Hsub.
  { pose proof (rep_repr _ _ _ _ Hrep) as Hr. rewrite HD in Hr.
    change (plug C (N c l nd k (plug D (N cs E sub ks rr)))) with (plug (CR c l nd k C) (plug D (N cs E sub ks rr))) in Hr.
    rewrite <-plug_capp in Hr. rewrite repr_plug in Hr. by destruct Hr as [(Hr & _) _]. }
  wp_step. rewrite Nat.eqb_refl. simpl. wp_step. apply wp_ret. by eapply HQ2.
Qed.

(** *** Unlinking *)
Lemma wp_unlink_node s par C c l nd k r t (Q : unit -> state -> Prop) :
  rep sn s par (plug C (N c l nd k r)) -> C <> Top -> (l = E /\ t = r) \/ (r = E /\ t = l) ->
  (forall s', at_hole sn s' par C t -> is_Some (heap s' !! nd) ->
     same_off (sn :: ptrs (plug C (N c l nd k r))) s s' -> Q tt s') ->
  wp (do _ <- relink nd (rootp sn t) ;; do sp <- get parent nd ;; set_parent (rootp sn t) sp) s Q.
Proof.
  destruct s as [h rt sn']. intros [Hss Hrt Hr Hnd (x & Hx & Hcx)] HT Ht HQ. simpl in *. subst sn'.
  rewrite rootp_plug in Hrt. rewrite repr_plug in Hr. destruct Hr as [(Hn & Hl & Hr) HC].
  assert (NoDup (NULL :: nd :: sn :: ptrs t ++ cptrs C) /\ repr sn h nd t) as [Hnd' Ht'].
  { assert (NULL :: sn :: (ptrs l ++ nd :: ptrs r) ++ cptrs C ≡ₚ NULL :: nd :: sn :: (ptrs l ++ ptrs r) ++ cptrs C) as HP by solve_Permutation.
    rewrite ptrs_plug, ptrs_N, HP in Hnd. destruct Ht as [[-> ->]|[-> ->]]; [|rewrite app_nil_r in Hnd]; done. }
  assert (forall q, q ∉ sn :: ptrs (plug C (N c l nd k r)) -> (q ∉ sn :: ptrs t) /\ q ∉ cptrs C) as Hsub.
  { intros q. rewrite ptrs_plug, ptrs_N. destruct Ht as [[-> ->]|[-> ->]]; set_solver. }
  rewrite !NoDup_cons, NoDup_app in Hnd'. destruct Hnd' as (N0 & N1 & N2 & Dt & DtC & DC).
  rewrite !elem_of_cons, elem_of_app in N0. rewrite elem_of_cons, elem_of_app in N1. rewrite elem_of_app in N2.
  apply wp_bind. eapply (wp_relink h rt sn par nd _ _ C); [exact Hn|done|exact HC| |done|].
  { rewrite !NoDup_cons, elem_of_cons. tauto. }
  intros h1 Hoff1 HC1.
  assert (h1 !! nd = Some (mk_node k (rootp sn l) (rootp sn r) (cptr par C) c)) as Hn1 by (rewrite Hoff1 by tauto; exact Hn).
  wp_read. eapply (wp_reparent h1 rt nd t _ x).
  { eapply repr_frame; [|exact Ht']. intros q Hq. apply Hoff1. auto. }
  { rewrite NoDup_cons. tauto. }
  { rewrite Hoff1 by tauto. done. }
  intros h2 x2 Hoff2 Ht2 Hx2 Hc2 Hp2. apply HQ.
  - split; [|intros ->; eauto]. split; simpl; [done| | | |].
    + rewrite rootp_plug, Hrt. by destruct C.
    + apply repr_plug. split; [exact Ht2|]. eapply reprc_frame; [|exact HC1]. intros q Hq. apply Hoff2.
      rewrite elem_of_cons. intros [->|Hq']; [tauto|]. by apply (DtC q).
    + rewrite ptrs_plug, !NoDup_cons, NoDup_app, elem_of_cons, !elem_of_app. tauto.
    + exists x2. by rewrite Hc2.
  - simpl. rewrite Hoff2 by (rewrite elem_of_cons; tauto). eauto.
  - split; [done|]. simpl. intros q Hq. destruct (Hsub q Hq). by rewrite Hoff2, Hoff1.
Qed.

Lemma cptrs_capp D C : cptrs (capp D C) ≡ₚ cptrs D ++ cptrs C.
Proof.
  pose proof (ptrs_plug (capp D C) E) as H. rewrite plug_capp, !ptrs_plug in H. symmetry. rewrite <-H. simpl. done.
Qed.

Lemma wp_unlink_successor s par C c l nd k D cs sub ks rr (Q : unit -> state -> Prop) :
  let T := plug C (N c l nd k (plug D (N cs E sub ks rr))) in
  rep sn s par T ->
  (forall s', at_hole sn s' par (capp D (CR c l sub ks C)) rr -> is_Some (heap s' !! nd) ->
     same_off (sn :: ptrs T) s s' -> Q tt s') ->
  wp (do _ <- relink sub (rootp sn rr) ;; replace_node nd sub (rootp sn rr)) s Q.
Proof.
  destruct s as [h rt sn']. intros T [Hss Hrt Hr Hnd (x & Hx & Hcx)] HQ. simpl in *. subst sn'.
  assert (T = plug (capp D (CR c l nd k C)) (N cs E sub ks rr)) as HT by (by rewrite plug_capp).
  assert (ptrs T ≡ₚ sub :: nd :: ptrs l ++ ptrs rr ++ cptrs D ++ cptrs C) as HP.
  { unfold T. rewrite ptrs_plug, ptrs_N, ptrs_plug, ptrs_N. simpl. solve_Permutation. }
  assert (NoDup (NULL :: sub :: nd :: sn :: ptrs l ++ ptrs rr ++ cptrs D ++ cptrs C)) as Hnd'.
  { assert (NULL :: sn :: ptrs T ≡ₚ NULL :: sub :: nd :: sn :: ptrs l ++ ptrs rr ++ cptrs D ++ cptrs C) as HP2
      by (rewrite HP; solve_Permutation). by rewrite HP2 in Hnd. }
  rewrite HT, repr_plug in Hr. destruct Hr as [(Hsub & _ & Hrr) HK]. simpl in Hsub, HK.
  assert (cptrs (capp D (CR c l nd k C)) ≡ₚ nd :: ptrs l ++ cptrs D ++ cptrs C) as HPK.
  { rewrite cptrs_capp. unfold cptrs at 2. simpl. rewrite !fmap_app. unfold cptrs, ptrs. solve_Permutation. }
  apply NoDup_cons in Hnd' as [N0 Hdup]. pose proof Hdup as Hdup'. rewrite !NoDup_cons, !NoDup_app in Hdup'.
  destruct Hdup' as (N1 & N2 & N3 & Dl & Dlx & Drr & Drx & DD & DDx & DC).
  rewrite !elem_of_cons, !elem_of_app in N1. rewrite !elem_of_app in N3. rewrite !elem_of_cons, !elem_of_app in N2.
  apply wp_bind. eapply (wp_relink h rt sn par sub _ _ (capp D (CR c l nd k C))); [exact Hsub|done|exact HK| |by destruct D|].
  { rewrite HPK, !NoDup_cons, !NoDup_app, !elem_of_cons, !elem_of_app. split_and!; try done; try (intuition congruence).
    intros q Hq Hq'. apply (Dlx q Hq). rewrite elem_of_app. by right. }
  intros h1 Hoff1 HK1. rewrite reprc_capp in HK1. destruct HK1 as [HD1 (Hnd1 & Hl1 & HC1)]. simpl in HD1.
  assert (h1 !! sub = Some (mk_node ks sn (rootp sn rr) (cptr nd D) cs)) as Hsub1.
  { rewrite Hoff1; [rewrite Hsub; f_equal; f_equal; by rewrite cptr_capp|]. rewrite HPK, elem_of_cons, !elem_of_app. tauto. }
  eapply (wp_replace_node h1 rt par nd k c sub ks cs l rr D C x); [exact Hsub1|by rewrite rootp_plug|exact HD1|exact Hl1| |exact HC1| | |exact Hdup|].
  { eapply repr_frame; [|exact Hrr]. intros q Hq. apply Hoff1. rewrite HPK. specialize (Drx q Hq). rewrite elem_of_app in Drx.
    rewrite elem_of_cons, !elem_of_app. intros [->|[Hq'|?]]; [tauto| |tauto]. apply (Dlx q Hq'). rewrite elem_of_app. by left. }
  { rewrite Hrt, HT, rootp_plug. simpl. clear. generalize sub. induction D; intros; simpl; auto. }
  { rewrite Hoff1; [done|]. rewrite HPK, elem_of_cons, !elem_of_app. intuition congruence. }
  intros h2 x2 Hn2 Hoff2 Hr2 HC2 Hx2 Hc2 Hp2. apply HQ.
  - assert (plug (capp D (CR c l sub ks C)) rr = plug C (N c l sub ks (plug D rr))) as HT2 by (by rewrite plug_capp).
    split; [|intros ->; exists x2; split; [done|]; rewrite cptr_capp; auto]. rewrite HT2. split; simpl; [done|by rewrite rootp_plug| | |].
    + apply repr_plug. by split.
    + assert (NULL :: sn :: ptrs (plug C (N c l sub ks (plug D rr))) ≡ₚ NULL :: sub :: sn :: ptrs l ++ ptrs rr ++ cptrs D ++ cptrs C) as ->
        by (rewrite ptrs_plug, ptrs_N, ptrs_plug; solve_Permutation).
      rewrite !NoDup_cons in *. rewrite !elem_of_cons in *. tauto.
    + exists x2. by rewrite Hc2.
  - simpl. rewrite Hn2. eauto.
  - split; [done|]. simpl. intros q Hq. rewrite HP, !elem_of_cons, !elem_of_app in Hq.
    rewrite Hoff2, Hoff1; [done|rewrite HPK|]; rewrite !elem_of_cons, !elem_of_app; tauto.
Qed.

(** *** Deletion *)
Lemma in_tree t k nd : (k, nd) ∈ elems t -> exists C c l r, t = plug C (N c l nd k r).
Proof.
  induction t as [|c l IHl p k' r IHr]; simpl; [by intros ?%not_elem_of_nil|].
  rewrite elem_of_app, elem_of_cons. intros [H|[H|H]].
  - destruct (IHl H) as (C & c' & l' & r' & ->). exists (capp C (CL c p k' r Top)), c', l', r'. by rewrite plug_capp.
  - simplify_eq. by exists Top, c, l, r.
  - destruct (IHr H) as (C & c' & l' & r' & ->). exists (capp C (CR c l p k' Top)), c', l', r'. by rewrite plug_capp.
Qed.

Lemma rb_lacks t pc n : rb t pc n -> lacks t n.
Proof. destruct t as [|[] l p k r]; simpl; [done|intros (_ & ? & ?)|done]. eauto using rb_weaken. Qed.

Lemma rbc_swap D c l p k p' k' C pc n :
  rbc (capp D (CR c l p k C)) pc n -> rbc (capp D (CR c l p' k' C)) pc n.
Proof.
  revert pc n. induction D as [|[] ? ? ? D IH|[] ? ? ? D IH]; intros pc n; simpl; [done|..].
  1,3: intros (? & ? & ?); auto.
  1,2: intros (? & ? & pc' & ?); eauto 6.
Qed.

(** Behind the unlinking: clear the node, and repair. *)
Lemma wp_delete_rest s0 s par C t nd (red : bool) T n pc (Q : unit -> state -> Prop) :
  at_hole sn s par C t -> is_Some (heap s !! nd) -> nd ∉ sn :: ptrs (plug C t) ->
  rbc C pc n -> (if red then rb t pc n else match n with O => False | S n => lacks t n end) ->
  same_off (sn :: ptrs T) s0 s -> ptrs T ≡ₚ nd :: ptrs (plug C t) ->
  (forall s' par' t', rep sn s' par' t' -> balanced t' -> elems t' = elems (plug C t) ->
     same_off (sn :: ptrs T) s0 s' -> Q tt s') ->
  wp (do _ <- clear_node nd ;; if red then st_ret tt else do s <- st_get ;; delete_fixup (fuel s) (rootp sn t)) s Q.
Proof.
  intros Hat Hsome Hin HC Ht Hoff HT HQ. apply wp_bind. eapply wp_clear_node; [exact Hat|done|done|].
  intros s1 Hat1 Hoff1.
  assert (same_off (sn :: ptrs T) s0 s1) as Hoff01.
  { destruct Hoff as [E1 H1], Hoff1 as [E2 H2]. split; [congruence|]. intros q Hq. rewrite H2, H1; [done|done|].
    rewrite HT in Hq. set_solver. }
  destruct red.
  - apply wp_ret. destruct Hat1 as [R1 _]. eapply HQ; [exact R1|by eapply plug_rb|done|done].
  - destruct n as [|n]; [done|]. apply wp_bind, wp_get. eapply wp_delete_fixup; [exact Hat1|by exists n, pc| |].
    { destruct Hat1 as [R1 _]. pose proof (rep_size _ _ _ _ R1). pose proof (depth_le C t). unfold fuel, measure.
      destruct (color_of t); lia. }
    intros s2 t2 R2 Hb2 He2 Hoff2. eapply HQ; [exact R2|done|done|].
    destruct Hoff01 as [E1 H1], Hoff2 as [E2 H2]. split; [congruence|]. intros q Hq. rewrite H2, H1; [done|done|].
    rewrite elem_of_cons, HT in Hq. set_solver.
Qed.

Lemma rep_at_top s par t : rep sn s par t -> exists par', at_hole sn s par' Top t.
Proof.
  intros [Hss Hrt Hr Hnd (x & Hx & Hc)]. destruct t as [|c l p k r].
  - exists (parent x). split; [|eauto]. split; simpl; eauto.
  - exists par. split; [|done]. split; simpl; eauto.
Qed.

(** The node is the root and has a child at most. *)
Lemma wp_delete_root s par l nd k r c t (Q : unit -> state -> Prop) :
  rep sn s par (N c l nd k r) -> balanced (N c l nd k r) -> (l = E /\ t = r) \/ (r = E /\ t = l) -> nd ∉ sn :: ptrs t ->
  (forall s' par' t', rep sn s' par' t' -> balanced t' -> elems t' = elems t ->
     same_off (sn :: ptrs (N c l nd k r)) s s' -> Q tt s') ->
  wp (do _ <- set_root (rootp sn t) ;; do _ <- al_rbt_black (rootp sn t) ;; clear_node nd) s Q.
Proof.
  intros Hrep [m Hm] Ht Hnd HQ. destruct s as [h rt sn']. pose proof Hrep as [Hss Hrt (Hn & Hl & Hr) Hdup Hsn].
  simpl in Hss. subst sn'. apply wp_bind, wp_modify. change (mk h rt sn) <| root := rootp sn t |> with (mk h (rootp sn t) sn).
  assert (ptrs (N c l nd k r) ≡ₚ nd :: ptrs t) as HP.
  { rewrite ptrs_N. destruct Ht as [[-> ->]|[-> ->]]; simpl; [done|]. change (ptrs E) with (@nil ptr). solve_Permutation. }
  assert (rep sn (mk h (rootp sn t) sn) nd (plug Top t)) as R0.
  { split; simpl; [done|done|destruct Ht as [[-> ->]|[-> ->]]; done| |done].
    rewrite HP, !NoDup_cons in Hdup. rewrite !NoDup_cons. rewrite !elem_of_cons in *. tauto. }
  apply wp_bind. eapply wp_blacken_temp; [exact R0| |by left|].
  { destruct c; [by destruct Hm|]. destruct m as [|m]; [done|]. destruct Hm as [Hml Hmr].
    exists m, true. split; [|done]. destruct Ht as [[-> ->]|[-> ->]]; by eapply rb_lacks. }
  intros s1 t1 R1 Hb1 He1 Hoff1. simpl in He1, Hoff1. destruct (rep_at_top _ _ _ R1) as [par1 Hat1].
  eapply wp_clear_node; [exact Hat1| | |].
  - unfold ptrs in *. simpl. by rewrite He1.
  - destruct Hoff1 as [_ Hoff1]. rewrite Hoff1 by done. simpl. simpl in Hn. eauto.
  - intros s2 [R2 _] Hoff2. eapply HQ; [exact R2|done|done|]. destruct Hoff1 as [E1 H1], Hoff2 as [E2 H2].
    split; [simpl in *; congruence|]. intros q Hq. rewrite elem_of_cons, HP in Hq. rewrite H2, H1; [done|set_solver..].
Qed.

Lemma wp_delete s par t k nd (Q : unit -> state -> Prop) :
  rep sn s par t -> balanced t -> (k, nd) ∈ elems t ->
  (forall s' par' t' A B, rep sn s' par' t' -> balanced t' -> elems t = A ++ (k, nd) :: B -> elems t' = A ++ B ->
     same_off (sn :: ptrs t) s s' -> Q tt s') ->
  wp (al_rbtree_delete nd) s Q.
Proof.
  intros Hrep Hbal Hin HQ. destruct (in_tree t k nd Hin) as (C & c & l & r & ->). clear Hin.
  destruct Hbal as [m Hm]. destruct (rb_plug C _ m true Hm eq_refl) as (pc & n & HC & Hn).
  assert (nd ∉ NULL :: sn :: ptrs l ++ ptrs r ++ cptrs C) as Hnd.
  { destruct Hrep as [_ _ _ Hnd _].
    assert (NULL :: sn :: ptrs (plug C (N c l nd k r)) ≡ₚ nd :: NULL :: sn :: ptrs l ++ ptrs r ++ cptrs C) as HP
      by (rewrite ptrs_plug, ptrs_N; solve_Permutation). rewrite HP in Hnd. by apply NoDup_cons in Hnd as [? _]. }
  unfold al_rbtree_delete. apply wp_bind. eapply wp_find_subst; [exact Hrep|..].
  - intros t Ht. apply wp_bind. eapply wp_root; [exact Hrep|].
    pose proof (hole_is_root _ _ _ _ _ Hrep) as Hroot. simpl in Hroot. rewrite Hroot. clear Hroot.
    assert (elems t = elems l ++ elems r) as Hel by (by destruct Ht as [[-> ->]|[-> ->]]; rewrite ?app_nil_r).
    assert (nd ∉ sn :: ptrs (plug C t)) as Hnd' by (rewrite ptrs_plug; unfold ptrs in *; rewrite Hel, fmap_app; set_solver).
    assert (forall s' par' t', rep sn s' par' t' -> balanced t' -> elems t' = elems (plug C t) ->
      same_off (sn :: ptrs (plug C (N c l nd k r))) s s' -> Q tt s') as HQ'.
    { intros s' par' t' R' Hb' He' Ho'. eapply (HQ s' par' t' (before C ++ elems l) (elems r ++ after C)); [done|done|elems_eq| |done].
      rewrite He', elems_plug, Hel. by rewrite <-!app_assoc. }
    destruct C as [|c1 p1 k1 r1 C1|c1 l1 p1 k1 C1].
    { eapply wp_delete_root; eauto. by exists m. }
    all: look Hrep; apply wp_bind; (eapply wp_field; [eassumption|]); cbn [color]; rewrite Nat.eqb_refl;
      apply wp_assoc, wp_bind; (eapply wp_unlink_node; [exact Hrep|done|exact Ht|]); intros s1 Hat1 Hsome1 Hoff1.
    all: eapply (wp_delete_rest s s1 par _ t nd c _ n pc); [exact Hat1|done|done|exact HC| |exact Hoff1| |exact HQ'].
    all: try (rewrite !ptrs_plug, ptrs_N; unfold ptrs at 3; rewrite Hel, fmap_app; solve_Permutation).
    all: destruct c; simpl in Hn; [destruct_and!; destruct Ht as [[-> ->]|[-> ->]]; by apply rb_weaken|].
    all: destruct n; [done|]; destruct_and!; destruct Ht as [[-> ->]|[-> ->]]; by eapply rb_lacks.
  - intros D cs sub ks rr -> Hb.
    pose (K := capp D (CR c l nd k C)).
    assert (plug C (N c l nd k (plug D (N cs E sub ks rr))) = plug K (N cs E sub ks rr)) as HT by (unfold K; by rewrite plug_capp).
    apply wp_bind. eapply wp_root; [exact Hrep|]. rewrite HT.
    assert (rep sn s par (plug K (N cs E sub ks rr))) as HrepK by (by rewrite <-HT).
    pose proof (hole_is_root _ _ _ _ _ HrepK) as Hroot. simpl in Hroot. rewrite Hroot. clear Hroot.
    assert (exists x, heap s !! sub = Some x /\ color x = cs) as (x & Hx & Hcx) by exact (rep_color _ _ _ _ _ HrepK).
    assert ((sub =? nd)%nat = false) as Hsn.
    { apply Nat.eqb_neq. intros ->. apply Hnd. rewrite ptrs_plug, ptrs_N. set_solver. }
    replace (match K with Top => true | _ => false end) with false by (unfold K; by destruct D).
    apply wp_bind. eapply wp_field; [exact Hx|]. cbv beta. rewrite Hcx, Hsn.
    apply wp_assoc, wp_bind. eapply wp_unlink_successor; [exact Hrep|]. intros s1 Hat1 Hsome1 Hoff1.
    rewrite HT in Hm. destruct (rb_plug K _ m true Hm eq_refl) as (pc' & n' & HK & HnK).
    eapply (wp_delete_rest s s1 par _ rr nd cs _ n' pc'); [exact Hat1|done| |by eapply rbc_swap| |exact Hoff1| |].
    + rewrite plug_capp. cbn [plug]. rewrite ptrs_plug, ptrs_N. rewrite !ptrs_plug, ptrs_N in Hnd.
      assert (nd <> sub) by (intros ->; set_solver). rewrite ptrs_plug. set_solver.
    + destruct cs; simpl in HnK; [destruct_and!; by apply rb_weaken|]. destruct n'; [done|]. destruct_and!. by eapply rb_lacks.
    + rewrite plug_capp. cbn [plug]. rewrite !ptrs_plug, !ptrs_N, !ptrs_plug, ptrs_N. simpl. solve_Permutation.
    + intros s' par' t' R' Hb' He' Ho'.
      eapply (HQ s' par' t' (before C ++ elems l) ((ks, sub) :: elems rr ++ after D ++ after C)); [done|done| | |exact Ho'].
      * rewrite !elems_plug. cbn [elems]. rewrite elems_plug, Hb. cbn [elems app]. by rewrite <-!app_assoc; cbn [app]; rewrite <-!app_assoc.
      * rewrite He', plug_capp. cbn [plug]. rewrite !elems_plug. cbn [elems]. rewrite elems_plug, Hb. cbn [app]. by rewrite <-!app_assoc; cbn [app]; rewrite <-!app_assoc.
Qed.
End Unlink.
End RbDelete.
