(* ===== verification/RbMap.v ===== *)
(** * The red-black tree as a map

    The operations of [alpha/al_tree.c] implement a finite map from keys to
    nodes: lookup, insertion, deletion and iteration in the order of keys, in
    a number of steps logarithmic in its size. The tables of groups and of
    filters rely on these theorems through [implements]. *)

From Stdlib Require Import ZArith Lia Bool Sorted.
From stdpp Require Import base tactics option gmap list sets sorting.
From S2P Require Import Prelude RbTree RbRep RbInsert RbDelete.

Module RbMap.
Import RbTree RbShape RbRep RbInsert RbDelete.

Definition to_map (t : tree) : gmap Z ptr := list_to_map (elems t).

(** The tree in memory holds the bindings [m], in order and balanced. *)
Definition implements (s : state) (m : gmap Z ptr) : Prop :=
  exists par t, rep (sentinel s) s par t /\ sorted t /\ balanced t /\ to_map t = m.

(** A node of the caller's that is not in the tree. *)
Definition free_node (s : state) (m : gmap Z ptr) (nd : ptr) : Prop :=
  nd <> NULL /\ nd <> sentinel s /\ forall k, m !! k <> Some nd.

(** Memory outside the tree, its sentinel and [nd] stays as it is. *)
Definition untouched (m : gmap Z ptr) (nd : ptr) (s s' : state) : Prop :=
  sentinel s' = sentinel s
  /\ forall q, q <> nd -> q <> sentinel s -> (forall k, m !! k <> Some q) -> heap s' !! q = heap s !! q.

Lemma sorted_nodup t : sorted t -> NoDup (elems t).*1.
Proof.
  unfold sorted. induction 1 as [|k l _ IH Hk]; constructor; [|done].
  intros Hin. rewrite Forall_forall in Hk. specialize (Hk _ Hin). lia.
Qed.
Lemma to_map_elem t k p : sorted t -> to_map t !! k = Some p <-> (k, p) ∈ elems t.
Proof. intros H. symmetry. apply elem_of_list_to_map. by apply sorted_nodup. Qed.
Lemma to_map_None t k : to_map t !! k = None <-> k ∉ (elems t).*1.
Proof. symmetry. apply not_elem_of_list_to_map. Qed.

Lemma sorted_app (A B : list (Z * ptr)) k p :
  StronglySorted Z.lt (A ++ B).*1 -> Forall (fun e : Z * ptr => e.1 < k)%Z A -> above k B ->
  StronglySorted Z.lt (A ++ (k, p) :: B).*1.
Proof.
  rewrite !fmap_app, fmap_cons, !StronglySorted_app. simpl. intros (HAB & HA & HB) HAk HBk. split_and!; [|done|].
  - intros x y Hx [->|Hy]%elem_of_cons; [|auto]. apply list_elem_of_fmap in Hx as (e & -> & He).
    rewrite Forall_forall in HAk. auto.
  - constructor; [done|]. apply Forall_fmap. exact HBk.
Qed.
Lemma sorted_remove (A B : list (Z * ptr)) k p : StronglySorted Z.lt (A ++ (k, p) :: B).*1 -> StronglySorted Z.lt (A ++ B).*1.
Proof.
  rewrite !fmap_app, fmap_cons, !StronglySorted_app. simpl. intros (HAB & HA & HB). split_and!; [|done|].
  - intros x y Hx Hy. apply HAB; [done|by right].
  - by apply StronglySorted_inv in HB as [HB _].
Qed.
Lemma list_to_map_add (A B : list (Z * ptr)) k p : k ∉ (A ++ B).*1 ->
  (list_to_map (A ++ (k, p) :: B) : gmap Z ptr) = <[k := p]> (list_to_map (A ++ B)).
Proof.
  intros Hk. rewrite !list_to_map_app. simpl. rewrite insert_union_r; [done|].
  apply not_elem_of_list_to_map. rewrite fmap_app in Hk. set_solver.
Qed.

(** *** Lookup *)
Lemma to_map_around C c l p k r : sorted (plug C (N c l p k r)) -> forall key_,
  to_map (N c l p k r) !! key_
  = if (key_ <? k)%Z then to_map l !! key_ else if (k <? key_)%Z then to_map r !! key_ else Some p.
Proof.
  intros Hs key_. destruct (sorted_around _ _ _ _ _ _ Hs) as [Hl Hr]. unfold to_map. simpl.
  rewrite list_to_map_app. simpl.
  assert (forall q : list (Z * ptr), Forall (fun e => e.1 <> key_) q -> (list_to_map q : gmap Z ptr) !! key_ = None) as Hnone.
  { intros q Hq. apply not_elem_of_list_to_map. rewrite list_elem_of_fmap. intros (e & -> & He).
    rewrite Forall_forall in Hq. by apply (Hq e He). }
  destruct (Z.ltb_spec key_ k); [|destruct (Z.ltb_spec k key_)].
  - apply lookup_union_l. rewrite lookup_insert_ne by lia. apply Hnone. eapply Forall_impl; [exact Hr|]. simpl. intros. lia.
  - rewrite lookup_union_r, lookup_insert_ne; [done|lia|]. apply Hnone. eapply Forall_impl; [exact Hl|]. simpl. intros. lia.
  - assert (key_ = k) as -> by lia. rewrite lookup_union_r, lookup_insert_eq; [done|].
    apply Hnone. eapply Forall_impl; [exact Hl|]. simpl. intros. lia.
Qed.

Lemma lookup_loop_ok sn fuel : forall s par C t key_,
  rep sn s par (plug C t) -> sorted (plug C t) -> (height t < fuel)%nat ->
  lookup_loop fuel key_ (rootp sn t) s = (ok (default NULL (to_map t !! key_)), s).
Proof.
  induction fuel as [|fuel IH]; intros s par C t key_ Hrep Hs Hf; [lia|].
  assert (wp (lookup_loop (S fuel) key_ (rootp sn t)) s (fun q s' => q = default NULL (to_map t !! key_) /\ s' = s)) as Hwp.
  2: { apply wp_run in Hwp as (q & s' & E & -> & ->). exact E. }
  cbn [lookup_loop]. apply wp_bind. eapply wp_sentinel; [exact Hrep|]. destruct t as [|c l p k r]; simpl rootp.
  { rewrite Nat.eqb_refl. by apply wp_ret. }
  assert ((p =? sn)%nat = false) as ->.
  { apply Nat.eqb_neq. intros ->. destruct Hrep as [_ _ _ Hnd _]. rewrite ptrs_plug, ptrs_N in Hnd.
    apply NoDup_cons in Hnd as [_ [Hnd _]%NoDup_cons]. apply Hnd. rewrite !elem_of_app, elem_of_cons. tauto. }
  rewrite (to_map_around C c l p k r Hs). look Hrep. simpl in Hf. wp_step.
  destruct (key_ <? k)%Z.
  { wp_step. apply wp_run. exists (default NULL (to_map l !! key_)), s. split; [|done].
    apply (IH s par (CL c p k r C)); [done|done|lia]. }
  wp_step. destruct (k <? key_)%Z; [|by apply wp_ret].
  wp_step. apply wp_run. exists (default NULL (to_map r !! key_)), s. split; [|done].
  apply (IH s par (CR c l p k C)); [done|done|lia].
Qed.

(** *** Iteration *)

(** The successor of a node within its tree. *)
Lemma wp_min_head sn s par C c l p k r (Q : ptr -> state -> Prop) :
  rep sn s par (plug C (N c l p k r)) ->
  (forall k' q rest, elems (N c l p k r) = (k', q) :: rest -> Q q s) -> wp (al_rbtree_min p) s Q.
Proof.
  intros Hrep HQ. unfold al_rbtree_min. apply wp_bind, wp_get. eapply wp_min_loop; [exact Hrep| |].
  - unfold fuel. pose proof (rep_size _ _ _ _ Hrep) as Hsz. pose proof (height_le (N c l p k r)) as Hh.
    rewrite ptrs_plug, length_app in Hsz. simpl in Hh. lia.
  - intros D c' q k' r' HD Hb. eapply (HQ k' q). rewrite HD, elems_plug, Hb. simpl. reflexivity.
Qed.

Lemma wp_next_loop sn fuel : forall s par C t (Q : ptr -> state -> Prop),
  rep sn s par (plug C t) -> t <> E -> (depth C < fuel)%nat ->
  Q (match after C with [] => NULL | (_, q) :: _ => q end) s ->
  wp (next_loop fuel (rootp sn (plug C t)) (rootp sn t)) s Q.
Proof.
  induction fuel as [|fuel IH]; intros s par C t Q Hrep Ht Hf HQ; [lia|]. cbn [next_loop].
  destruct t as [|c l p k r]; [done|]. simpl rootp at 2. look Hrep. simpl rootp in *. wp_step.
  pose proof (hole_is_root _ _ _ _ _ Hrep) as Hroot. simpl rootp in Hroot at 1. rewrite Hroot. clear Hroot.
  destruct C as [|c1 p1 k1 r1 C1|c1 l1 p1 k1 C1]; simpl in *.
  - by apply wp_ret.
  - look Hrep. wp_step. rewrite Nat.eqb_refl. by apply wp_ret.
  - look Hrep. wp_step. pose proof (siblings_differ sn s par C1 c1 l1 p1 k1 (N c l p k r) Hrep ltac:(by right)) as Hd. simpl in Hd.
    rewrite Nat.eqb_sym, Hd.
    apply (IH s par C1 (N c1 l1 p1 k1 (N c l p k r))); [done|done|lia|done].
Qed.

Lemma wp_next sn s par t A k p B (Q : ptr -> state -> Prop) :
  rep sn s par t -> elems t = A ++ (k, p) :: B ->
  Q (match B with [] => NULL | (_, q) :: _ => q end) s -> wp (al_rbtree_next p) s Q.
Proof.
  intros Hrep He HQ. destruct (in_tree t k p) as (C & c & l & r & ->); [rewrite He, elem_of_app, elem_of_cons; tauto|].
  assert (elems r ++ after C = B) as HB.
  { assert (NoDup (elems (plug C (N c l p k r))).*2) as Hnd
      by (destruct Hrep as [_ _ _ Hnd _]; by apply NoDup_cons in Hnd as [_ [_ ?]%NoDup_cons]).
    rewrite elems_plug in He, Hnd. simpl in He, Hnd. rewrite He in Hnd.
    assert (forall X Y (x : Z * ptr) Z W, X ++ x :: Y = Z ++ x :: W -> NoDup (Z ++ x :: W).*2 -> Y = W) as Hu.
    { clear. intros X. induction X as [|a X IH]; intros Y x [|b Z] W He Hnd; simpl in *; simplify_eq; [done|..].
      - apply NoDup_cons in Hnd as [Hn _]. rewrite fmap_app in Hn. set_solver.
      - apply NoDup_cons in Hnd as [Hn _]. rewrite fmap_app in Hn. set_solver.
      - apply NoDup_cons in Hnd as [_ Hn]. eauto. }
    rewrite <-app_assoc in He. simpl in He. rewrite app_assoc in He. by eapply Hu. }
  unfold al_rbtree_next. apply wp_bind. eapply wp_sentinel; [exact Hrep|]. look Hrep. wp_step.
  destruct r as [|c' l' p' k' r']; simpl rootp.
  - rewrite Nat.eqb_refl. cbn [negb]. apply wp_bind. eapply wp_root; [exact Hrep|]. apply wp_bind, wp_get. cbv beta.
    apply (wp_next_loop sn _ s par C (N c l p k E)); [exact Hrep|done| |by rewrite <-HB in HQ].
    unfold fuel. pose proof (rep_size _ _ _ _ Hrep). pose proof (depth_le C (N c l p k E)). lia.
  - assert ((p' =? sn)%nat = false) as ->.
    { apply Nat.eqb_neq. intros ->. destruct Hrep as [_ _ _ Hnd _]. rewrite ptrs_plug, !ptrs_N in Hnd.
      apply NoDup_cons in Hnd as [_ [Hnd _]%NoDup_cons]. apply Hnd. rewrite !elem_of_app, elem_of_cons, elem_of_app, elem_of_cons. tauto. }
    cbn [negb]. eapply (wp_min_head sn s par (CR c l p k C)); [exact Hrep|]. intros k2 q rest E2. rewrite E2 in HB. by rewrite <-HB in HQ.
Qed.

(** *** The operations on the map *)
Lemma implements_init s x sn : heap s !! sn = Some x -> sn <> NULL ->
  exists s', al_rbtree_init sn s = (ok tt, s') /\ implements s' ∅.
Proof.
  intros Hx Hsn. apply wp_run_unit. destruct s as [h rt sn0]. unfold al_rbtree_init.
  apply wp_bind. wp_write. apply wp_bind, wp_modify, wp_modify. exists NULL, E. simpl.
  split_and!; [|constructor|by exists 0%nat|done]. split; simpl; [done|done|done| |].
  - rewrite !NoDup_cons. split_and!; [set_solver|set_solver|constructor].
  - eexists. split; [apply lookup_insert_eq|by destruct x].
Qed.

Lemma lookup_ok (s : state) (m : gmap Z ptr) (key_ : Z) :
  implements s m -> al_rbtree_lookup key_ s = (ok (default NULL (m !! key_)), s).
Proof.
  intros (par & t & Hrep & Hs & _ & <-). unfold al_rbtree_lookup. erewrite st_bind_ok by reflexivity. cbv beta.
  rewrite (rep_root _ _ _ _ Hrep). apply (lookup_loop_ok _ _ s par Top); [done|done|].
  unfold fuel. pose proof (rep_size _ _ _ _ Hrep). pose proof (height_le t). lia.
Qed.

Lemma insert_ok (s : state) (m : gmap Z ptr) (nd : ptr) (x : node) :
  implements s m -> heap s !! nd = Some x -> free_node s m nd -> m !! key x = None ->
  exists s', al_rbtree_insert nd s = (ok tt, s') /\ implements s' (<[key x := nd]> m) /\ untouched m nd s s'.
Proof.
  intros (par & t & Hrep & Hs & Hb & <-) Hx (Hn1 & Hn2 & Hn3) Hk. apply wp_run_unit. rewrite to_map_None in Hk.
  eapply wp_insert; [exact Hrep|exact Hs|exact Hb|exact Hx| |exact Hk|].
  { rewrite !elem_of_cons. intros [?|[?|Hin]]; [done|done|]. apply list_elem_of_fmap in Hin as ([k' q] & -> & Hin).
    apply (Hn3 k'). by apply to_map_elem. }
  intros s' par' t' A B R' Hb' He He' HA HB [Hss Hoff]. split.
  - exists par', t'. split_and!; [by rewrite Hss|unfold sorted in *; rewrite He', He in *; by apply sorted_app|done|].
    unfold to_map. rewrite He', He, list_to_map_add; [done|]. by rewrite <-He.
  - split; [done|]. intros q Hq1 Hq2 Hq. apply Hoff. rewrite elem_of_cons. intros [?|Hin]; [done|].
    apply list_elem_of_fmap in Hin as ([k' q'] & -> & Hin). apply (Hq k'). by apply to_map_elem.
Qed.

Lemma delete_ok (s : state) (m : gmap Z ptr) (k : Z) (nd : ptr) :
  implements s m -> m !! k = Some nd ->
  exists s', al_rbtree_delete nd s = (ok tt, s') /\ implements s' (delete k m) /\ untouched m nd s s'.
Proof.
  intros (par & t & Hrep & Hs & Hb & <-) Hk. apply wp_run_unit. apply to_map_elem in Hk; [|done].
  eapply wp_delete; [exact Hrep|exact Hb|exact Hk|].
  intros s' par' t' A B R' Hb' He He' [Hss Hoff].
  assert (k ∉ (A ++ B).*1) as HkAB.
  { pose proof (sorted_nodup t Hs) as Hnd. rewrite He in Hnd. rewrite fmap_app in *. simpl in Hnd.
    assert (A.*1 ++ k :: B.*1 ≡ₚ k :: A.*1 ++ B.*1) as HP by solve_Permutation. rewrite HP in Hnd. by apply NoDup_cons in Hnd as [? _]. }
  split.
  - exists par', t'. split_and!; [by rewrite Hss|unfold sorted in *; rewrite He', He in *; by eapply sorted_remove|done|].
    unfold to_map. rewrite He', He, list_to_map_add by done. rewrite delete_insert_id; [done|].
    by apply not_elem_of_list_to_map.
  - split; [done|]. intros q Hq1 Hq2 Hq. apply Hoff. rewrite elem_of_cons. intros [?|Hin]; [done|].
    apply list_elem_of_fmap in Hin as ([k' q'] & -> & Hin). apply (Hq k'). by apply to_map_elem.
Qed.
End RbMap.

(** ** Properties *)
Section Properties.
Import RbTree RbShape RbRep RbInsert RbDelete RbMap.

(** C26. [al_rbtree_insert] of a node with a new key adds exactly this binding to the
    tree's map, and touches no memory outside the tree. *)
Theorem rbtree_insert (s : state) (m : gmap Z ptr) (nd : ptr) (x : node) :
  implements s m -> heap s !! nd = Some x -> free_node s m nd -> m !! key x = None ->
  exists s', al_rbtree_insert nd s = (ok tt, s') /\ implements s' (<[key x := nd]> m) /\ untouched m nd s s'.
Proof. apply insert_ok. Qed.

(** C25. [al_rbtree_delete] of a node removes exactly its binding from the tree's map,
    and touches no memory outside the tree. *)
Theorem rbtree_delete (s : state) (m : gmap Z ptr) (k : Z) (nd : ptr) :
  implements s m -> m !! k = Some nd ->
  exists s', al_rbtree_delete nd s = (ok tt, s') /\ implements s' (delete k m) /\ untouched m nd s s'.
Proof. apply delete_ok. Qed.

(** C27. [al_rbtree_lookup] finds the node the map holds for a key and [NULL] for every
    other key, within twice the binary logarithm of the number of entries plus one: with
    this fuel, and one pass for the end of the search, its loop already gives
    the result. *)
Theorem rbtree_lookup_bound (s : state) (m : gmap Z ptr) (key_ : Z) :
  implements s m ->
  al_rbtree_lookup key_ s = (ok (default NULL (m !! key_)), s)
  /\ lookup_loop (S (2 * Nat.log2 (S (size m)))) key_ (root s) s = (ok (default NULL (m !! key_)), s).
Proof.
  intros Hi. split; [by apply lookup_ok|]. destruct Hi as (par & t & Hrep & Hs & Hb & <-).
  rewrite (rep_root _ _ _ _ Hrep). apply (lookup_loop_ok _ _ s par Top); [done|done|].
  assert (size (to_map t) = length (elems t)) as ->
    by (rewrite <-length_map_to_list; apply Permutation_length, map_to_list_to_map, sorted_nodup, Hs).
  pose proof (balanced_height t Hb). lia.
Qed.

(** [al_rbtree_next] goes through the nodes in the order of their keys: it
    returns the node of the least greater key, and [NULL] behind the last. *)
Theorem rbtree_next (s : state) (m : gmap Z ptr) (k : Z) (p : ptr) :
  implements s m -> m !! k = Some p ->
  exists q, al_rbtree_next p s = (ok q, s)
    /\ ((q = NULL /\ forall k', is_Some (m !! k') -> (k' <= k)%Z)
        \/ exists k', (k < k')%Z /\ m !! k' = Some q /\ forall k2, is_Some (m !! k2) -> (k2 <= k \/ k' <= k2)%Z).
Proof.
  intros (par & t & Hrep & Hs & Hb & <-) Hk. apply to_map_elem in Hk as Hin; [|done].
  apply list_elem_of_split in Hin as (A & B & He).
  assert (wp (al_rbtree_next p) s (fun q s' => q = match B with [] => NULL | (_, q) :: _ => q end /\ s' = s)) as Hwp
    by (eapply wp_next; [exact Hrep|exact He|done]).
  apply wp_run in Hwp as (q & s' & E & -> & ->). eexists. split; [exact E|].
  pose proof Hs as Hs'. unfold sorted in Hs'. rewrite He, fmap_app, fmap_cons, StronglySorted_app in Hs'.
  destruct Hs' as (HAB & _ & HB).
  assert (forall k', is_Some (to_map t !! k') -> k' ∈ A.*1 \/ k' = k \/ k' ∈ B.*1) as Hdom.
  { intros k' Hk'. destruct (decide (k' ∈ (elems t).*1)) as [Hd|Hd]; [|apply to_map_None in Hd; rewrite Hd in Hk'; by destruct Hk'].
    rewrite He, fmap_app, fmap_cons, elem_of_app, elem_of_cons in Hd. done. }
  assert (forall k', k' ∈ A.*1 -> (k' < k)%Z) as HA by (intros k' ?; apply HAB; [done|left]).
  destruct B as [|[k' q] B].
  - left. split; [done|]. intros k' [?|[->|Hn]]%Hdom; [by apply Z.lt_le_incl, HA|done|by apply not_elem_of_nil in Hn].
  - right. exists k'. simpl in HB. apply StronglySorted_inv in HB as [HB HBk]. apply StronglySorted_inv in HB as [_ HBk'].
    rewrite Forall_cons in HBk. split_and!; [tauto| |].
    + apply to_map_elem; [done|]. rewrite He. by apply elem_of_app; right; right; left.
    + intros k2 [?|[->|Hn]]%Hdom; [left; by apply Z.lt_le_incl, HA|by left|right].
      simpl in Hn. apply elem_of_cons in Hn as [->|Hn]; [done|]. rewrite Forall_forall in HBk'. by apply Z.lt_le_incl, HBk'.
Qed.
End Properties.

(** ** Witnesses *)
Section Witnesses.
Import RbTree RbShape RbRep RbInsert RbDelete RbMap.

(** The sentinel at 1, and the nodes 2, 3 and 4 with the keys 20, 10 and 30, of
    which the first two are entered. *)
Definition blank (k : Z) : node := mk_node k 0 0 0 false.
Definition fresh_table : state :=
  mk (list_to_map [(1, mk_node 0 0 0 0 true); (2, blank 20); (3, blank 10); (4, blank 30)]%nat) 0 0.
Definition two_entries : state :=
  snd ((do _ <- al_rbtree_init 1 ;; do _ <- al_rbtree_insert 2 ;; al_rbtree_insert 3) fresh_table).
Definition two_bindings : gmap Z ptr := {[20%Z := 2%nat; 10%Z := 3%nat]}.

Lemma two_entries_implements : implements two_entries two_bindings.
Proof.
  exists 0%nat, (N false (N true E 3 10 E) 2 20 E)%nat%Z. split_and!.
  - split; [reflexivity|reflexivity|by vm_compute| |].
    + apply (bool_decide_unpack _). by vm_compute.
    + exists (mk_node 0 0 0 0 false). by vm_compute.
  - unfold sorted. simpl. repeat constructor.
  - exists 1%nat. by vm_compute.
  - by vm_compute.
Qed.

Lemma rbtree_lookup_bound_witness :
  implements two_entries two_bindings
  /\ al_rbtree_lookup 15 two_entries = (ok (default NULL (two_bindings !! 15%Z)), two_entries)
  /\ lookup_loop (S (2 * Nat.log2 (S (size two_bindings)))) 15 (root two_entries) two_entries
     = (ok (default NULL (two_bindings !! 15%Z)), two_entries).
Proof. split; [exact two_entries_implements|exact (rbtree_lookup_bound _ _ 15 two_entries_implements)]. Defined.

Lemma rbtree_insert_witness :
  exists s', al_rbtree_insert 4 two_entries = (ok tt, s') /\ implements s' (<[30%Z := 4%nat]> two_bindings)
    /\ untouched two_bindings 4 two_entries s'.
Proof.
  apply (rbtree_insert two_entries two_bindings 4 (blank 30) two_entries_implements); [by vm_compute| |by vm_compute].
  split_and!; [done|by vm_compute|]. intros k. unfold two_bindings.
  rewrite lookup_insert_Some, lookup_singleton_Some. by intros [[_ ?]|[_ [_ ?]]].
Defined.

Lemma rbtree_delete_witness :
  exists s', al_rbtree_delete 2 two_entries = (ok tt, s') /\ implements s' (delete 20%Z two_bindings)
    /\ untouched two_bindings 2 two_entries s'.
Proof. apply (rbtree_delete two_entries two_bindings 20 2 two_entries_implements). by vm_compute. Defined.

Lemma rbtree_next_witness :
  exists q, al_rbtree_next 3 two_entries = (ok q, two_entries)
    /\ ((q = NULL /\ forall k', is_Some (two_bindings !! k') -> (k' <= 10)%Z)
        \/ exists k', (10 < k')%Z /\ two_bindings !! k' = Some q
             /\ forall k2, is_Some (two_bindings !! k2) -> (k2 <= 10 \/ k' <= k2)%Z).
Proof. apply (rbtree_next two_entries two_bindings 10 3 two_entries_implements). by vm_compute. Defined.
End Witnesses.
