(* ===== verification/Table.v ===== *)
(** * Tables of records in a red-black tree

    How [alpha/al_member.c] and [alpha/al_filter.c] keep their records: each is
    allocated together with the tree node that leads to it, so that a pointer
    to the node is also a pointer to the record behind it. A table is the tree
    with the records; [holds] is what its users rely on. *)

From Stdlib Require Import ZArith Lia Bool.
From stdpp Require Import base tactics option gmap list sets.
From S2P Require Import Prelude RbTree RbRep RbMap.

Module Table.
Import RbTree.

Section Operations.
Context {A : Type}.

Record table := mk { tree : RbTree.state; data : gmap ptr A }.

Definition on_tree {B} (c : st RbTree.state B) : st table B := fun T =>
  let '(r, s) := c (tree T) in (r, T <| tree := s |>).

(** [al_rbtree_lookup( &t, key )], [None] for [NULL]. *)
Definition find (key_ : Z) : st table (option ptr) :=
  do p <- on_tree (al_rbtree_lookup key_) ;; st_ret (if (p =? NULL)%nat then None else Some p).

(** The record behind a node. *)
Definition read (p : ptr) : st table A := fun T =>
  match data T !! p with Some a => (ok a, T) | None => (err Undef, T) end.
Definition write (p : ptr) (a : A) : st table unit :=
  do _ <- read p ;; st_modify (fun T => T <| data := <[p := a]> (data T) |>).

(** A node from [al_malloc], with what the memory held, and its insertion. *)
Definition enter (garbage : node) (key_ : Z) (a : A) : st table unit := fun T =>
  let p := fresh ({[NULL]} ∪ dom (heap (tree T))) in
  let T := T <| tree := (tree T) <| heap := <[p := garbage <| key := key_ |>]> (heap (tree T)) |> |>
             <| data := <[p := a]> (data T) |> in
  on_tree (al_rbtree_insert p) T.

(** [al_rbtree_delete( &t, node ); al_free( node );] *)
Definition remove (p : ptr) : st table unit :=
  do _ <- on_tree (al_rbtree_delete p) ;;
  st_modify (fun T => T <| tree := (tree T) <| heap := delete p (heap (tree T)) |> |>
                       <| data := delete p (data T) |>).

(** [al_rbtree_init] of a zeroed tree with its sentinel at [sn]. *)
Definition init (sn : ptr) : res unit * table :=
  on_tree (al_rbtree_init sn) (mk (RbTree.mk {[sn := mk_node 0 NULL NULL NULL false]} NULL NULL) ∅).
End Operations.
Arguments table A : clear implicits.
End Table.

(** ** Lemmas *)
Module TableFacts.
Import RbTree RbShape RbRep RbInsert RbMap Table.

Lemma implements_node s m k p : implements s m -> m !! k = Some p ->
  p <> NULL /\ p <> sentinel s /\ is_Some (heap s !! p) /\ forall k', m !! k' = Some p -> k' = k.
Proof.
  intros (par & t & [_ _ Hr Hnd _] & Hs & _ & <-) Hk. apply to_map_elem in Hk as Hin; [|done].
  assert (p ∈ ptrs t) as Hp by (by apply (list_elem_of_fmap_2 snd) in Hin).
  apply NoDup_cons in Hnd as [N1 [N2 Hnd]%NoDup_cons]. split_and!.
  - intros ->. apply N1. by right.
  - by intros ->.
  - by eapply repr_in_dom.
  - intros k' Hk'. apply to_map_elem in Hk'; [|done].
    apply list_elem_of_split in Hin as (A & B & He). unfold ptrs in Hnd. rewrite He in Hnd, Hk'.
    assert ((A ++ (k, p) :: B).*2 ≡ₚ p :: (A ++ B).*2) as HP by (rewrite !fmap_app, fmap_cons; solve_Permutation).
    rewrite HP in Hnd. apply NoDup_cons in Hnd as [Hnd _].
    rewrite elem_of_app, elem_of_cons in Hk'. destruct Hk' as [H|[H|H]]; [|by simplify_eq|];
      apply (list_elem_of_fmap_2 snd) in H; exfalso; apply Hnd; rewrite fmap_app, elem_of_app; auto.
Qed.
Lemma implements_sentinel s m : implements s m -> sentinel s <> NULL /\ is_Some (heap s !! sentinel s).
Proof.
  intros (par & t & [_ _ _ Hnd (x & Hx & _)] & _). split; [|eauto].
  apply NoDup_cons in Hnd as [Hnd _]. intros E. apply Hnd. rewrite E. left.
Qed.

(** Memory outside the tree does not matter to it. *)
Lemma implements_frame s s' m : implements s m -> root s' = root s -> sentinel s' = sentinel s ->
  (forall q, q = sentinel s \/ (exists k, m !! k = Some q) -> heap s' !! q = heap s !! q) -> implements s' m.
Proof.
  intros (par & t & [_ Hrt Hr Hnd (x & Hx & Hc)] & Hs & Hb & Hm) E1 E2 Hq. exists par, t. split_and!; [|done..].
  split; [done|by rewrite E1, E2| |by rewrite E2|exists x; rewrite E2, Hq; auto].
  rewrite E2. eapply repr_frame; [|exact Hr]. intros q Hin. apply Hq. right.
  apply list_elem_of_fmap in Hin as ([k p] & -> & Hin). exists k. rewrite <-Hm. by apply to_map_elem.
Qed.

Section Facts.
Context {A : Type}.
Implicit Types (T : table A) (mp : gmap Z ptr) (m : gmap Z A).

(** The table has the nodes [mp], and behind them the records [m]. *)
Record holds T mp m : Prop := {
  holds_tree : implements (tree T) mp;
  holds_data k : m !! k = mp !! k ≫= fun p => data T !! p;
  holds_live k p : mp !! k = Some p -> is_Some (data T !! p) }.

Lemma holds_lookup T mp m k p a : holds T mp m -> mp !! k = Some p -> m !! k = Some a -> data T !! p = Some a.
Proof. intros H Hp Hk. rewrite (holds_data _ _ _ H), Hp in Hk. done. Qed.
Lemma holds_None T mp m k : holds T mp m -> m !! k = None <-> mp !! k = None.
Proof.
  intros H. rewrite (holds_data _ _ _ H). destruct (mp !! k) as [p|] eqn:E; simpl; [|done].
  destruct (holds_live _ _ _ H k p E) as [a ->]. done.
Qed.
Lemma holds_node T mp m k a : holds T mp m -> m !! k = Some a -> exists p, mp !! k = Some p /\ data T !! p = Some a.
Proof. intros H Hk. rewrite (holds_data _ _ _ H) in Hk. destruct (mp !! k) as [p|]; [eauto|done]. Qed.

Lemma init_ok sn : sn <> NULL -> exists T, init sn = (ok tt, T) /\ holds T ∅ ∅.
Proof.
  intros Hsn. unfold init, on_tree. cbn [tree].
  destruct (implements_init (RbTree.mk {[sn := mk_node 0 NULL NULL NULL false]} NULL NULL)
    (mk_node 0 NULL NULL NULL false) sn) as (s' & E & Hi); [apply lookup_singleton_eq|done|].
  rewrite E. eexists. split; [reflexivity|].
  split; [exact Hi|done|]. intros k p. by rewrite lookup_empty.
Qed.

Lemma find_ok T mp m k : holds T mp m -> find k T = (ok (mp !! k), T).
Proof.
  intros H. unfold find, on_tree, st_bind. rewrite (lookup_ok _ _ k (holds_tree _ _ _ H)).
  destruct T as [s d]. cbn. destruct (mp !! k) as [p|] eqn:E; cbn; [|done].
  destruct (implements_node _ _ _ _ (holds_tree _ _ _ H) E) as [Hn _]. apply Nat.eqb_neq in Hn. by rewrite Hn.
Qed.
Lemma read_ok T mp m k p a : holds T mp m -> mp !! k = Some p -> m !! k = Some a -> read p T = (ok a, T).
Proof. intros H Hp Hk. unfold read. by rewrite (holds_lookup _ _ _ _ _ _ H Hp Hk). Qed.

Lemma write_ok T mp m k p a : holds T mp m -> mp !! k = Some p ->
  exists T', write p a T = (ok tt, T') /\ holds T' mp (<[k := a]> m).
Proof.
  intros H Hp. destruct (holds_live _ _ _ H k p Hp) as [b Hb]. unfold write, st_bind, read. rewrite Hb.
  eexists. split; [reflexivity|]. destruct T as [s d]. split; cbn in *.
  - exact (holds_tree _ _ _ H).
  - intros k'. destruct (decide (k' = k)) as [->|Hne].
    + rewrite lookup_insert_eq, Hp. cbn. by rewrite lookup_insert_eq.
    + rewrite lookup_insert_ne by done. rewrite (holds_data _ _ _ H). cbn. destruct (mp !! k') as [q|] eqn:E; cbn; [|done].
      rewrite lookup_insert_ne; [done|]. intros ->.
      destruct (implements_node _ _ _ _ (holds_tree _ _ _ H) Hp) as (_ & _ & _ & Hinj). by specialize (Hinj k' E).
  - intros k' q Hq. destruct (decide (q = p)) as [->|Hne]; [by rewrite lookup_insert_eq|].
    rewrite lookup_insert_ne by done. exact (holds_live _ _ _ H k' q Hq).
Qed.

(** A node with a new address and the key [k] joins the tree. *)
Lemma insert_fresh s mp k p garbage : implements s mp -> heap s !! p = None -> p <> NULL -> mp !! k = None ->
  exists s', al_rbtree_insert p (s <| heap := <[p := garbage <| key := k |>]> (heap s) |>) = (ok tt, s')
    /\ implements s' (<[k := p]> mp).
Proof.
  intros Hi Hfree Hnull Hk. destruct (implements_sentinel _ _ Hi) as [_ [x Hx]].
  assert (forall k', mp !! k' <> Some p) as Hnot.
  { intros k' Hq. destruct (implements_node _ _ _ _ Hi Hq) as (_ & _ & [y Hy] & _). congruence. }
  assert (key (garbage <| key := k |>) = k) as Ek by (by destruct garbage).
  set (g := garbage <| key := k |>) in *. clearbody g. destruct s as [h rt sn]. cbn in *.
  assert (implements (RbTree.mk (<[p := g]> h) rt sn) mp) as Hi1.
  { eapply implements_frame; [exact Hi|done|done|]. intros q Hq. cbn in *. apply lookup_insert_ne. intros <-.
    destruct Hq as [<-|[k' Hk']]; [congruence|by apply (Hnot k')]. }
  destruct (insert_ok _ mp p g Hi1) as (s2 & E2 & Hi2 & _); cbn.
  - by rewrite lookup_insert_eq.
  - split_and!; [done|cbn; intros Heq; congruence|done].
  - by rewrite Ek.
  - exists s2. split; [exact E2|by rewrite Ek in Hi2].
Qed.

Lemma enter_ok T mp m k a garbage : holds T mp m -> m !! k = None ->
  exists T' p, enter garbage k a T = (ok tt, T') /\ holds T' (<[k := p]> mp) (<[k := a]> m).
Proof.
  intros H Hk. unfold enter. pose proof (is_fresh ({[NULL]} ∪ dom (heap (tree T)))) as Hp.
  remember (fresh _) as p eqn:Ep. clear Ep. rewrite elem_of_union, elem_of_singleton in Hp.
  assert (heap (tree T) !! p = None) as Hfree by (apply not_elem_of_dom; tauto).
  assert (forall k' q, mp !! k' = Some q -> p <> q) as Hnot.
  { intros k' q Hq ->. destruct (implements_node _ _ _ _ (holds_tree _ _ _ H) Hq) as (_ & _ & [y Hy] & _). congruence. }
  destruct (insert_fresh _ _ k p garbage (holds_tree _ _ _ H) Hfree) as (s2 & E2 & Hi2); [tauto|by apply (holds_None _ _ _ _ H)|].
  destruct T as [s d]. cbn in *.
  exists (mk s2 (<[p := a]> d)), p. split; [unfold on_tree; cbn; by rewrite E2|]. split; cbn; [done|..].
  - intros k'. destruct (decide (k' = k)) as [->|Hne].
    + rewrite !lookup_insert_eq. cbn. by rewrite lookup_insert_eq.
    + rewrite !lookup_insert_ne by done. rewrite (holds_data _ _ _ H). cbn. destruct (mp !! k') as [q|] eqn:E; cbn; [|done].
      by rewrite lookup_insert_ne by eauto.
  - intros k' q. rewrite lookup_insert_Some. intros [[<- <-]|[Hne Hq]]; [by rewrite lookup_insert_eq|].
    rewrite lookup_insert_ne by eauto. exact (holds_live _ _ _ H k' q Hq).
Qed.

Lemma remove_ok T mp m k p : holds T mp m -> mp !! k = Some p ->
  exists T', remove p T = (ok tt, T') /\ holds T' (delete k mp) (delete k m).
Proof.
  intros H Hp. destruct T as [s d]. cbn in *.
  destruct (delete_ok s mp k p (holds_tree _ _ _ H) Hp) as (s1 & E1 & Hi1 & Hun1).
  destruct (implements_node _ _ _ _ (holds_tree _ _ _ H) Hp) as (_ & Hsn & _ & Hinj). cbn in Hsn.
  unfold remove, st_bind, on_tree. cbn. rewrite E1. eexists. split; [reflexivity|].
  assert (forall k' q, delete k mp !! k' = Some q -> q <> p) as Hnot.
  { intros k' q. rewrite lookup_delete_Some. intros [Hne Hq] ->. by apply Hne, eq_sym, Hinj. }
  split; cbn.
  - eapply implements_frame; [exact Hi1|by destruct s1|by destruct s1|]. intros q Hq. destruct s1 as [h1 rt1 sn1]. cbn in *.
    apply lookup_delete_ne. intros ->. destruct Hq as [->|[k' Hk']]; [|by apply (Hnot k' q)].
    destruct Hun1 as [Hsn1 _]. cbn in Hsn1. by rewrite Hsn1 in Hsn.
  - intros k'. destruct (decide (k' = k)) as [->|Hne]; [by rewrite !lookup_delete_eq|].
    rewrite !lookup_delete_ne by done. rewrite (holds_data _ _ _ H). cbn. destruct (mp !! k') as [q|] eqn:E; cbn; [|done].
    rewrite lookup_delete_ne; [done|]. intros <-. by apply Hne, Hinj.
  - intros k' q Hq. rewrite lookup_delete_ne by (intros <-; by apply (Hnot k' p)).
    rewrite lookup_delete_Some in Hq. exact (holds_live _ _ _ H k' q (proj2 Hq)).
Qed.
End Facts.
End TableFacts.
