(* ===== verification/Cluster.v ===== *)
(** * Clusters of slots

    The tables of [alpha/al_member.c] and [alpha/al_filter.c] share a shape: a
    node holds [cnt] and an array of eight slots with an [is_used] flag, and a
    chain of further such nodes. This file has the loops both run over it:
    [for(i=0, j=0; i<cnt; j++)], which looks at slots until it has met [cnt]
    used ones, and the search for a free slot. A slot beyond the array is
    undefined behaviour, so that a count that is too high shows. *)

From Stdlib Require Import ZArith Lia Bool.
From stdpp Require Import base tactics option list.
From S2P Require Import Prelude.

Open Scope Z_scope.

Module Cluster.
Definition CLUSTER_SIZE : nat := 8.

Record cluster (T : Type) := mk { cnt : Z; m : list T }.
Arguments mk {T} cnt m.
Arguments cnt {T} c.
Arguments m {T} c.

Section Cluster.
Context {T : Type} (is_used : T -> bool).

(** The body gives the slot's new value, the loop's new state and whether it
    returns from within the loop. *)
Fixpoint for_used {A} (body : T -> A -> T * A * bool) (i count : Z) (slots : list T) (acc : A)
    : res (list T * A * bool) :=
  if i <? count then
    match slots with
    | [] => err Undef
    | x :: slots =>
        if is_used x then
          let '(x, acc, stop) := body x acc in
          if stop : bool then ok (x :: slots, acc, true)
          else let* (slots, acc, stop) := for_used body (i + 1) count slots acc in ok (x :: slots, acc, stop)
        else let* (slots, acc, stop) := for_used body i count slots acc in ok (x :: slots, acc, stop)
    end
  else ok (slots, acc, false).

Definition for_cluster {A} (body : T -> A -> T * A * bool) (c : cluster T) (acc : A) : res (cluster T * A * bool) :=
  let* (slots, acc, stop) := for_used body 0 (cnt c) (m c) acc in ok (mk (cnt c) slots, acc, stop).

(** Over a chain, in list order. *)
Fixpoint for_chain {A} (body : T -> A -> T * A * bool) (cs : list (cluster T)) (acc : A)
    : res (list (cluster T) * A * bool) :=
  match cs with
  | [] => ok ([], acc, false)
  | c :: cs =>
      let* (c, acc, stop) := for_cluster body c acc in
      if stop : bool then ok (c :: cs, acc, true)
      else let* (cs, acc, stop) := for_chain body cs acc in ok (c :: cs, acc, stop)
  end.

(** The first free slot of an array, replaced. *)
Fixpoint fill (set_ : T -> T) (slots : list T) : option (list T) :=
  match slots with
  | [] => None
  | x :: slots => if is_used x then cons x <$> fill set_ slots else Some (set_ x :: slots)
  end.

Definition fill_cluster (set_ : T -> T) (c : cluster T) : option (cluster T) :=
  slots ← fill set_ (m c); Some (mk (u16 (cnt c + 1)) slots).

Fixpoint fill_chain (set_ : T -> T) (cs : list (cluster T)) : option (list (cluster T)) :=
  match cs with
  | [] => None
  | c :: cs =>
      match fill_cluster set_ c with
      | Some c => Some (c :: cs)
      | None => cons c <$> fill_chain set_ cs
      end
  end.
End Cluster.
End Cluster.

(** ** Lemmas *)
Module ClusterFacts.
Import Cluster.

Section Facts.
Context {T : Type} (is_used : T -> bool).

Definition used (slots : list T) : list T := List.filter is_used slots.
Definition members (cs : list (cluster T)) : list T := concat (map (fun c => used (m c)) cs).

(** The count is that of the used slots. *)
Definition sound (c : cluster T) : Prop :=
  length (m c) = CLUSTER_SIZE /\ cnt c = Z.of_nat (length (used (m c))).

(** The loop's state after a list of used slots, and what it makes of them. *)
Fixpoint run {A} (body : T -> A -> T * A * bool) (xs : list T) (acc : A) : list T * A * bool :=
  match xs with
  | [] => ([], acc, false)
  | x :: xs =>
      let '(x, acc, stop) := body x acc in
      if stop : bool then (x :: xs, acc, true)
      else let '(xs, acc, stop) := run body xs acc in (x :: xs, acc, stop)
  end.

Section Body.
Context {A : Type} (body : T -> A -> T * A * bool).

Lemma for_used_run slots : forall i acc, 
  exists slots', for_used is_used body i (i + Z.of_nat (length (used slots))) slots acc
      = ok (slots', (run body (used slots) acc).1.2, (run body (used slots) acc).2)
    /\ length slots' = length slots
    /\ ((forall x a, is_used x = true -> is_used (body x a).1.1 = true) -> used slots' = (run body (used slots) acc).1.1).
Proof.
  induction slots as [|x slots IH]; intros i acc.
  - exists []. cbn. rewrite Z.add_0_r, Z.ltb_irrefl. done.
  - cbn [used List.filter]. fold (used slots). destruct (is_used x) eqn:Ex.
    + cbn [for_used run length]. rewrite (proj2 (Z.ltb_lt _ _)) by lia. rewrite Ex.
      destruct (body x acc) as [[x' acc'] stop] eqn:Eb. destruct stop.
      * eexists. split; [reflexivity|]. split; [done|]. intros Hu.
        specialize (Hu x acc Ex). rewrite Eb in Hu. cbn in Hu. unfold used at 1. cbn. by rewrite Hu.
      * destruct (IH (i + 1) acc') as (slots' & E & El & Hr).
        replace (i + Z.of_nat (S (length (used slots)))) with (i + 1 + Z.of_nat (length (used slots))) by lia.
        rewrite E. destruct (run body (used slots) acc') as [[xs a] st]. cbn.
        eexists. split; [reflexivity|]. split; [cbn; by rewrite El|]. intros Hu.
        pose proof (Hu x acc Ex) as Hx. rewrite Eb in Hx. cbn in Hx.
        unfold used at 1. cbn. rewrite Hx. f_equal. by apply Hr.
    + cbn [for_used]. destruct (IH i acc) as (slots' & E & El & Hr).
      destruct (i <? i + Z.of_nat (length (used slots))) eqn:Elt.
      * rewrite Ex, E. cbn. eexists. split; [reflexivity|]. split; [cbn; by rewrite El|]. intros Hu. unfold used at 1. cbn.
        rewrite Ex. by apply Hr.
      * bool_simpl. assert (used slots = []) as Eu by (destruct (used slots); cbn in *; [done|lia]).
        rewrite Eu. cbn. exists (x :: slots). split; [done|]. split; [done|]. intros _. unfold used. cbn.
        by rewrite Ex.
Qed.

Lemma for_cluster_run c acc : sound c ->
  exists c', for_cluster is_used body c acc = ok (c', (run body (used (m c)) acc).1.2, (run body (used (m c)) acc).2)
    /\ cnt c' = cnt c /\ length (m c') = length (m c)
    /\ ((forall x a, is_used x = true -> is_used (body x a).1.1 = true) -> used (m c') = (run body (used (m c)) acc).1.1).
Proof.
  intros [Hl Hc]. unfold for_cluster. rewrite Hc.
  destruct (for_used_run (m c) 0 acc) as (slots' & E & El & Hr). rewrite Z.add_0_l in E. rewrite E. cbn.
  eexists. split; [reflexivity|]. done.
Qed.

Lemma run_length xs : forall acc, length (run body xs acc).1.1 = length xs.
Proof.
  induction xs as [|x xs IH]; intros acc; [done|]. cbn. destruct (body x acc) as [[x' a] []]; [done|].
  specialize (IH a). destruct (run body xs a) as [[xs' a'] st]. cbn in *. by rewrite IH.
Qed.

Lemma run_app xs ys : forall acc, run body (xs ++ ys) acc =
  let '(xs', a, stop) := run body xs acc in
  if stop : bool then (xs' ++ ys, a, true) else let '(ys', a, stop) := run body ys a in (xs' ++ ys', a, stop).
Proof.
  induction xs as [|x xs IH]; intros acc; cbn; [by destruct (run body ys acc) as [[? ?] ?]|].
  destruct (body x acc) as [[x' a] []]; [done|]. rewrite IH.
  destruct (run body xs a) as [[xs' a'] []]; [done|]. by destruct (run body ys a') as [[? ?] ?].
Qed.

(** A loop over a sound chain is a loop over its used slots. *)
Lemma for_chain_run cs : forall acc, Forall sound cs ->
  (forall x a, is_used x = true -> is_used (body x a).1.1 = true) ->
  exists cs', for_chain is_used body cs acc = ok (cs', (run body (members cs) acc).1.2, (run body (members cs) acc).2)
    /\ members cs' = (run body (members cs) acc).1.1 /\ Forall sound cs' /\ length cs' = length cs.
Proof.
  induction cs as [|c cs IH]; intros acc Hs Hu; [by exists []|].
  apply Forall_cons in Hs as [Hc Hs].
  destruct (for_cluster_run c acc Hc) as (c' & E & Ec & El & Hr). specialize (Hr Hu).
  assert (sound c') as Hc'.
  { destruct Hc as [Hl Hn]. split; [by rewrite El|]. by rewrite Hr, run_length, Ec. }
  cbn [for_chain]. rewrite E. cbn [res_bind ok].
  change (members (c :: cs)) with (used (m c) ++ members cs). rewrite run_app.
  destruct (run body (used (m c)) acc) as [[xs a] []]; cbn in *.
  - exists (c' :: cs). split_and!; [done| |by constructor|done].
    change (members (c' :: cs)) with (used (m c') ++ members cs). by rewrite Hr.
  - destruct (IH a Hs Hu) as (cs' & E' & Em & Hs' & Hlen).
    destruct (run body (members cs) a) as [[ys a'] st]. cbn in *. rewrite E'. cbn.
    exists (c' :: cs'). split_and!; [done| |by constructor|cbn; by f_equal].
    change (members (c' :: cs')) with (used (m c') ++ members cs'). by rewrite Hr, Em.
Qed.

(** A count above the number of used slots runs the loop off the array. *)
Lemma for_used_overrun slots : forall i count acc,
  (forall x a, is_used x = true -> (body x a).2 = false) -> i + Z.of_nat (length (used slots)) < count ->
  for_used is_used body i count slots acc = err Undef.
Proof.
  induction slots as [|x slots IH]; intros i count acc Hb Hc; cbn [for_used].
  - cbn in Hc. by rewrite (proj2 (Z.ltb_lt _ _)) by lia.
  - unfold used in Hc. cbn [List.filter] in Hc. fold (used slots) in Hc.
    rewrite (proj2 (Z.ltb_lt _ _)) by lia. destruct (is_used x) eqn:Ex.
    + specialize (Hb x acc Ex) as Hx. destruct (body x acc) as [[x' a] st]. cbn in Hx. subst st.
      rewrite (IH (i + 1) count a Hb); [done|]. cbn [length] in Hc. lia.
    + by rewrite (IH i count acc Hb).
Qed.
End Body.

(** *** Free slots *)
Lemma fill_spec set_ slots : forall slots', fill is_used set_ slots = Some slots' ->
  exists pre x post, slots = pre ++ x :: post /\ slots' = pre ++ set_ x :: post /\ is_used x = false
    /\ Forall (fun y => is_used y = true) pre.
Proof.
  induction slots as [|y slots IH]; intros slots' H; [done|]. cbn in H.
  destruct (is_used y) eqn:Ey.
  - destruct (fill is_used set_ slots) as [l|] eqn:E; [|done]. injection H as <-.
    destruct (IH l eq_refl) as (pre & x & post & -> & -> & Hx & Hp).
    exists (y :: pre), x, post. split_and!; [done|done|done|by constructor].
  - injection H as <-. exists [], y, slots. by split_and!.
Qed.

Lemma fill_None set_ slots : fill is_used set_ slots = None <-> used slots = slots.
Proof.
  induction slots as [|y slots IH]; [done|]. cbn. destruct (is_used y) eqn:Ey.
  - destruct (fill is_used set_ slots); cbn.
    + split; [done|]. intros [= E]. apply IH in E. done.
    + split; [|done]. intros _. f_equal. by apply IH.
  - split; [done|]. intros E. exfalso. apply (f_equal length) in E. cbn in E.
    pose proof (List.filter_length_le is_used slots). unfold used in E. lia.
Qed.

Lemma used_app l k : used (l ++ k) = used l ++ used k.
Proof. apply List.filter_app. Qed.

(** Filling a slot of a sound cluster adds the new member to it. *)
Lemma fill_cluster_sound set_ c c' : sound c -> (forall x, is_used (set_ x) = true) ->
  fill_cluster is_used set_ c = Some c' ->
  sound c' /\ exists x l k, used (m c) = l ++ k /\ used (m c') = l ++ set_ x :: k.
Proof.
  intros [Hl Hc] Hset. unfold fill_cluster. destruct (fill is_used set_ (m c)) as [slots|] eqn:E; [|done].
  intros [= <-]. destruct (fill_spec set_ _ _ E) as (pre & x & post & Em & -> & Hx & Hp). cbn.
  assert (used (m c) = used pre ++ used post) as Eu
    by (rewrite Em, used_app; unfold used at 2; cbn; by rewrite Hx).
  assert (used (pre ++ set_ x :: post) = used pre ++ set_ x :: used post) as Eu'
    by (rewrite used_app; unfold used at 2; cbn; by rewrite Hset).
  split; [|by exists x, (used pre), (used post)]. split.
  - cbn [m]. rewrite <-Hl, Em, !length_app. done.
  - cbn [cnt m]. rewrite Eu', Hc, Eu, !length_app. cbn [length].
    assert (length (used pre) + length (used post) <= length (m c))%nat.
    { rewrite <-length_app, <-Eu. apply List.filter_length_le. }
    rewrite u16_small; rewrite Hl in *; unfold CLUSTER_SIZE in *; lia.
Qed.
End Facts.
End ClusterFacts.
