(* ===== verification/Member.v ===== *)
(** * Groups of real servers and their scheduling

    Models the members of a group in [alpha/al_member.c]: a chain of clusters,
    insertion and removal, and the scheduling algorithms that pick the member
    for a new connection. Weights are [uint16_t] and wrap. What freshly
    allocated memory contains is an argument; locks are left out. *)

From Stdlib Require Import ZArith Lia Bool.
From stdpp Require Import base tactics option gmap list.
From S2P Require Import Prelude Checksum Cluster.

Open Scope Z_scope.

Module Member.
Import Cluster.

Definition AF_INET : Z := 2.

Record al_member := mk_member {
  is_used : bool; is_up : bool; port : Z; weight : Z; current_weight : Z; effective_weight : Z; mid : Z;
  viewid : Z; dnsttl : Z; intype : Z;
  mb_address : list Z }.        (* the union of addresses: length, family, 16 bytes *)

(** [al_member_conf_t] *)
Record al_member_conf := mk_conf { conf_weight : Z; conf_port : Z; conf_mid : Z; conf_addr : list Z }.

Definition al_addr_af (a : list Z) : Z := nth 1 a 0.
(** Assignment of the union's [addr4] member, six bytes. *)
Definition copy_addr4 (dst src : list Z) : list Z := take 6 src ++ drop 6 dst.

(** The family that is looked at is that of the address the slot held before. *)
Definition al_set_member (m : al_member) (conf : al_member_conf) : al_member :=
  m <| port := Chksum.bswap16 (conf_port conf) |> <| mid := conf_mid conf |> <| weight := conf_weight conf |>
    <| current_weight := 0 |> <| effective_weight := conf_weight conf |> <| is_up := true |>
    <| mb_address := if al_addr_af (mb_address m) =? AF_INET then copy_addr4 (mb_address m) (conf_addr conf)
                     else conf_addr conf |>.

(** [al_member_chain_t]: the first cluster and the list of further ones. *)
Record chain := mk_chain { first : cluster al_member; list_ : list (cluster al_member) }.

Definition clusters (c : chain) : list (cluster al_member) := first c :: list_ c.
Definition of_clusters (cs : list (cluster al_member)) (c : chain) : chain :=
  match cs with [] => c | f :: l => mk_chain f l end.

(** [INIT_MC] over memory with contents [garbage]. *)
Definition INIT_MC (garbage : list al_member) : list al_member :=
  map (fun m => m <| is_used := false |>) garbage.

(** [garbage] is the array in the memory [al_malloc] returns for a new cluster,
    [None] for a failure. *)
Definition al_member_insert (garbage : option (list al_member)) (c : chain) (conf : al_member_conf) : Z * chain :=
  let set_ := fun m => (al_set_member m conf) <| is_used := true |> in
  match fill_cluster is_used set_ (first c) with
  | Some f => (0, c <| first := f |>)
  | None =>
      match fill_chain is_used set_ (list_ c) with
      | Some l => (0, c <| list_ := l |>)
      | None =>
          match garbage with
          | None => (-1, c)
          | Some g =>
              match INIT_MC g with
              | [] => (-1, c)
              | m0 :: rest => (0, c <| list_ := mk 1 (set_ m0 :: rest) :: list_ c |>)
              end
          end
      end
  end.

(** [al_member_del]: the counts stay. A further cluster in which no member is
    seen is freed. *)
Definition del_body (id : Z) (m : al_member) (seen : bool) : al_member * bool * bool :=
  if mid m =? id then (m <| is_used := false |>, seen, true) else (m, true, false).

Fixpoint del_list (id : Z) (l : list (cluster al_member)) : res (Z * list (cluster al_member)) :=
  match l with
  | [] => ok (-1, [])
  | c :: l =>
      let* (c, seen, found) := for_cluster is_used (del_body id) c false in
      if found : bool then ok (0, c :: l) else
      let* (rc, l) := del_list id l in
      ok (rc, if seen : bool then c :: l else l)
  end.

Definition al_member_del (c : chain) (id : Z) : res (Z * chain) :=
  let* (f, _, found) := for_cluster is_used (del_body id) (first c) false in
  let c := c <| first := f |> in
  if found : bool then ok (0, c) else
  let* (rc, l) := del_list id (list_ c) in ok (rc, c <| list_ := l |>).

(** ** Scheduling *)

(** [al_alg_rr]. The loop's state: how many members were passed, the best so far
    (its position and its current weight) and the total. *)
Definition rr_acc : Type := nat * option (nat * Z) * Z.

Definition advance (m : al_member) : al_member :=
  let m := m <| current_weight := u16 (current_weight m + effective_weight m) |> in
  if effective_weight m <? weight m then m <| effective_weight := u16 (effective_weight m + 1) |> else m.

Definition rr_body (m : al_member) (acc : rr_acc) : al_member * rr_acc * bool :=
  let '(k, best, total) := acc in
  if negb (is_up m) then (m, (S k, best, total), false) else
  let m' := advance m in
  let total := u32 (total + effective_weight m) in
  let best := match best with
              | None => Some (k, current_weight m')
              | Some (_, b) => if b <? current_weight m' then Some (k, current_weight m') else best
              end in
  (m', (S k, best, total), false).

(** A pointer to the [k]-th used member. *)
Definition on_member (k : nat) (f : al_member -> al_member) (m : al_member) (acc : nat * option al_member)
    : al_member * (nat * option al_member) * bool :=
  if (acc.1 =? k)%nat then (f m, (S acc.1, Some (f m)), true) else (m, (S acc.1, acc.2), false).

Definition al_alg_rr (c : chain) : res (option al_member * chain) :=
  let* (cs, acc, _) := for_chain is_used rr_body (clusters c) (O, None, 0) in
  let c := of_clusters cs c in
  let '(_, best, total) := acc in
  match best with
  | None => ok (None, c)
  | Some (k, _) =>
      let* (cs, r, _) := for_chain is_used
        (on_member k (fun m => m <| current_weight := u16 (current_weight m - total) |>)) (clusters c) (O, None) in
      ok (r.2, of_clusters cs c)
  end.

Definition al_alg_weight (c : chain) : res (option al_member * chain) := al_alg_rr c.
Definition al_alg_rr_weight (c : chain) : res (option al_member * chain) := al_alg_rr c.

(** [al_alg_geoip]: the first member of the view, else the first one that is up. *)
Definition geoip_body (vid : Z) (m : al_member) (best : option al_member) : al_member * option al_member * bool :=
  if negb (is_up m) then (m, best, false)
  else if viewid m =? vid then (m, Some m, true)
  else (m, match best with None => Some m | Some _ => best end, false).

(** [al_margs]: the arguments and results of a lookup. *)
Record al_margs := mk_margs {
  a_mid : Z; a_addr : list Z; a_port : Z; vid : Z; ttl : Z; query_type : Z; data : list Z; data_len : Z; schd : Z }.

Definition DNS_Q_A : Z := 1.
Definition DNS_Q_NS : Z := 2.
Definition DNS_Q_CNAME : Z := 5.
Definition DNS_Q_AAAA : Z := 28.

(** Names are read from [ext], which has no room in the array of members. *)
Definition geoip_answer (best : al_member) (a : al_margs) : res al_margs :=
  let a := a <| query_type := intype best |> <| ttl := dnsttl best |> in
  if intype best =? DNS_Q_A then ok (a <| data_len := 4 |> <| data := take 4 (drop 2 (mb_address best)) ++ drop 4 (data a) |>)
  else if intype best =? DNS_Q_AAAA then ok (a <| data_len := 16 |> <| data := take 16 (drop 2 (mb_address best)) ++ drop 16 (data a) |>)
  else if (intype best =? DNS_Q_NS) || (intype best =? DNS_Q_CNAME) then err Undef
  else ok a.

Definition al_alg_geoip (c : chain) (a : al_margs) : res (option al_member * al_margs) :=
  let* (_, best, _) := for_chain is_used (geoip_body (vid a)) (clusters c) None in
  match best with
  | None => ok (None, a)
  | Some m => let* a := geoip_answer m a in ok (best, a)
  end.

(** [al_group_load_member( gid, mc, al_member_insert )]: stops at the first failure. *)
Fixpoint load_members (garbage : option (list al_member)) (confs : list al_member_conf) (c : chain) : Z * chain :=
  match confs with
  | [] => (0, c)
  | conf :: confs =>
      let '(rc, c) := al_member_insert garbage c conf in
      if rc =? 0 then load_members garbage confs c else (-1, c)
  end.
End Member.

(** ** Lemmas *)
Module MemberFacts.
Import Cluster ClusterFacts Member.

Abbreviation all c := (ClusterFacts.members is_used (clusters c)).
Definition sound_chain (c : chain) : Prop := Forall (sound is_used) (clusters c).

Definition adv (m : al_member) : al_member := if is_up m then advance m else m.
Definition sub_weight (total : Z) (m : al_member) : al_member :=
  m <| current_weight := u16 (current_weight m - total) |>.

Lemma is_used_advance m : is_used (advance m) = is_used m.
Proof. unfold advance. case_goal; by destruct m. Qed.
Lemma mid_advance m : mid (advance m) = mid m.
Proof. unfold advance. case_goal; by destruct m. Qed.
Lemma is_up_advance m : is_up (advance m) = is_up m.
Proof. unfold advance. case_goal; by destruct m. Qed.
Lemma current_advance m : current_weight (advance m) = u16 (current_weight m + effective_weight m).
Proof. unfold advance. case_goal; by destruct m. Qed.

(** *** The choice on the list of members *)

(** The sum of the effective weights of the members that are up. *)
Definition total_weight (ms : list al_member) : Z :=
  fold_left (fun t m => if is_up m then u32 (t + effective_weight m) else t) ms 0.

(** [i] is the first of the heaviest members that are up, weights taken after the round's increment. *)
Definition heaviest (ms : list al_member) (i : nat) : Prop :=
  exists m, ms !! i = Some m /\ is_up m = true
    /\ forall j m', ms !! j = Some m' -> is_up m' = true ->
       current_weight (advance m') <= current_weight (advance m)
       /\ ((j < i)%nat -> current_weight (advance m') < current_weight (advance m)).

(** Reference: one round on a list. *)
Definition rr_flat (ms : list al_member) : option nat * list al_member :=
  let '(ms', (_, best, total), _) := run rr_body ms (O, None, 0) in
  match best with
  | None => (None, ms')
  | Some (k, _) => (Some k, alter (sub_weight total) k ms')
  end.

Lemma run_rr ms : forall k best total,
  exists best', run rr_body ms (k, best, total)
    = (map adv ms, ((k + length ms)%nat, best',
        fold_left (fun t m => if is_up m then u32 (t + effective_weight m) else t) ms total), false).
Proof.
  induction ms as [|m ms IH]; intros k best total.
  - exists best. cbn. by rewrite Nat.add_0_r.
  - cbn [run map fold_left]. unfold rr_body at 1. unfold adv at 1. destruct (is_up m); cbn [negb].
    + edestruct IH as [best' ->]. exists best'. by rewrite Nat.add_succ_comm.
    + edestruct IH as [best' ->]. exists best'. by rewrite Nat.add_succ_comm.
Qed.

(** Invariant of the loop: the best so far is the first heaviest of the members passed. *)
Definition best_ok (passed : list al_member) (best : option (nat * Z)) : Prop :=
  match best with
  | None => Forall (fun m => is_up m = false) passed
  | Some (i, w) => heaviest passed i /\ exists m, passed !! i = Some m /\ w = current_weight (advance m)
  end.

Lemma lookup_snoc_cases (l : list al_member) m j m' : (l ++ [m]) !! j = Some m' ->
  l !! j = Some m' /\ (j < length l)%nat \/ j = length l /\ m' = m.
Proof.
  intros H. destruct (decide (j < length l)%nat) as [Hlt|Hge].
  - left. by rewrite lookup_app_l in H.
  - right. pose proof (lookup_lt_Some _ _ _ H) as Hlt. rewrite length_app in Hlt. cbn in Hlt.
    assert (j = length l) as -> by lia. rewrite lookup_app_r, Nat.sub_diag in H by lia. by injection H.
Qed.

Lemma heaviest_new l m : is_up m = true ->
  (forall j m', l !! j = Some m' -> is_up m' = true -> current_weight (advance m') < current_weight (advance m)) ->
  best_ok (l ++ [m]) (Some (length l, current_weight (advance m))).
Proof.
  intros Hu Hlt. assert ((l ++ [m]) !! length l = Some m) as Hl by (by rewrite lookup_app_r, Nat.sub_diag by lia).
  split; [|by exists m]. exists m. split_and!; [done|done|]. intros j m' Hj Hu'.
  apply lookup_snoc_cases in Hj as [[Hj _]|[-> ->]]; [|lia]. specialize (Hlt j m' Hj Hu'). lia.
Qed.

Lemma heaviest_keep l m i w : best_ok l (Some (i, w)) -> (is_up m = true -> current_weight (advance m) <= w) ->
  best_ok (l ++ [m]) (Some (i, w)).
Proof.
  intros [(m0 & Hm0 & Hu0 & Hmax) (m1 & Hm1 & ->)] Hle. rewrite Hm0 in Hm1. injection Hm1 as <-.
  split; [|exists m0; split; [by apply lookup_app_l_Some|done]].
  exists m0. split_and!; [by apply lookup_app_l_Some|done|]. intros j m' Hj Hu.
  apply lookup_snoc_cases in Hj as [[Hj _]|[-> ->]]; [by apply (Hmax j)|].
  apply lookup_lt_Some in Hm0. specialize (Hle Hu). lia.
Qed.

Lemma best_ok_step l m best total : best_ok l best ->
  exists best' total', (rr_body m (length l, best, total)).1.2 = (length (l ++ [m]), best', total')
    /\ (rr_body m (length l, best, total)).2 = false /\ best_ok (l ++ [m]) best'.
Proof.
  intros Hb. unfold rr_body. rewrite length_app, Nat.add_1_r. destruct (is_up m) eqn:Eu; cbn [negb].
  - eexists _, _. split; [reflexivity|]. split; [done|]. destruct best as [[i w]|].
    + destruct (Z.ltb_spec w (current_weight (advance m))) as [Hlt|Hge]; [|by apply heaviest_keep].
      apply heaviest_new; [done|]. destruct Hb as [(m0 & Hm0 & _ & Hmax) (m1 & Hm1 & ->)].
      rewrite Hm0 in Hm1. injection Hm1 as <-. intros j m' Hj Hu. destruct (Hmax j m' Hj Hu). lia.
    + apply heaviest_new; [done|]. intros j m' Hj Hu. cbn in Hb. rewrite Forall_lookup in Hb.
      by rewrite (Hb j m' Hj) in Hu.
  - eexists _, _. split; [reflexivity|]. split; [done|]. destruct best as [[i w]|].
    + apply heaviest_keep; [done|]. congruence.
    + apply Forall_app_2; [done|by constructor].
Qed.

Lemma run_rr_best ms : forall l best total, best_ok l best ->
  best_ok (l ++ ms) (run rr_body ms (length l, best, total)).1.2.1.2.
Proof.
  induction ms as [|m ms IH]; intros l best total Hb; [cbn; by rewrite app_nil_r|].
  destruct (best_ok_step l m best total Hb) as (best' & total' & E1 & E2 & Hb').
  cbn [run]. destruct (rr_body m (length l, best, total)) as [[m' acc] stop]. cbn in E1, E2. subst.
  specialize (IH (l ++ [m]) best' total' Hb'). rewrite <-app_assoc in IH.
  by destruct (run rr_body ms _) as [[? ?] ?].
Qed.

Lemma rr_flat_spec ms :
  match (rr_flat ms).1 with
  | None => Forall (fun m => is_up m = false) ms /\ (rr_flat ms).2 = ms
  | Some i => heaviest ms i /\ (rr_flat ms).2 = alter (sub_weight (total_weight ms)) i (map adv ms)
  end.
Proof.
  unfold rr_flat, total_weight. pose proof (run_rr_best ms [] None 0 (Forall_nil_2 _)) as Hb. cbn [length app] in Hb.
  destruct (run_rr ms O None 0) as [best' E]. rewrite E in Hb |- *. cbn in Hb |- *.
  destruct best' as [[i w]|]; cbn.
  - split; [apply Hb|done].
  - split; [done|]. clear E. induction Hb as [|m ms Hm Hb IH]; [done|]. cbn. unfold adv at 1. rewrite Hm. by f_equal.
Qed.

(** *** The chain *)
Lemma run_on_member f k xs : forall i, (i <= k)%nat -> (k - i < length xs)%nat ->
  run (on_member k f) xs (i, None) = (alter f (k - i)%nat xs, (S k, f <$> xs !! (k - i)%nat), true).
Proof.
  induction xs as [|x xs IH]; intros i Hi Hk; [cbn in Hk; lia|]. cbn [run]. unfold on_member at 1. cbn [fst snd].
  destruct (Nat.eqb_spec i k) as [->|Hne].
  - by rewrite Nat.sub_diag.
  - cbn [length] in Hk. rewrite IH by lia. replace (k - i)%nat with (S (k - S i)) by lia. done.
Qed.

Lemma of_clusters_id cs c : length cs = S (length (list_ c)) -> clusters (of_clusters cs c) = cs.
Proof. destruct cs; [done|]. by intros. Qed.

(** [al_alg_rr] on a sound chain is the reference on its members. *)
Lemma al_alg_rr_flat c : sound_chain c ->
  exists c', al_alg_rr c = ok (k ← (rr_flat (all c)).1; (rr_flat (all c)).2 !! k, c')
    /\ all c' = (rr_flat (all c)).2 /\ sound_chain c'.
Proof.
  intros Hs. unfold al_alg_rr.
  destruct (for_chain_run is_used rr_body (clusters c) (O, None, 0) Hs) as (cs & E & Em & Hs' & Hl).
  { intros x [[k best] total] Hx. unfold rr_body. destruct (negb _); [done|]. cbn. by rewrite is_used_advance. }
  rewrite E. cbn [res_bind ok]. unfold rr_flat.
  destruct (run_rr (all c) O None 0) as [best' Er]. rewrite Er in Em |- *. cbn [fst snd] in Em |- *.
  assert (clusters (of_clusters cs c) = cs) as Ecs by (by apply of_clusters_id).
  destruct best' as [[k w]|].
  - set (total := fold_left _ _ 0). rewrite Ecs.
    destruct (for_chain_run is_used (on_member k (sub_weight total)) cs (O, None) Hs') as (cs2 & E2 & Em2 & Hs2 & Hl2).
    { intros x acc Hx. unfold on_member. case_goal; [by destruct x|done]. }
    assert (k < length (all c))%nat as Hk.
    { pose proof (run_rr_best (all c) [] None 0 (Forall_nil_2 _)) as Hb. cbn [length app] in Hb. rewrite Er in Hb.
      destruct Hb as [(m & Hm & _) _]. by eapply lookup_lt_Some. }
    rewrite Em, run_on_member in E2, Em2 by (rewrite ?length_map; lia).
    cbn [fst snd] in E2, Em2. unfold sub_weight in E2. rewrite E2. cbn [res_bind ok fst snd]. rewrite Nat.sub_0_r in *.
    assert (clusters (of_clusters cs2 (of_clusters cs c)) = cs2) as Ecs2.
    { apply of_clusters_id. change (length cs2 = length (clusters (of_clusters cs c))). by rewrite Ecs. }
    eexists. split; [|split; [by rewrite Ecs2|unfold sound_chain; by rewrite Ecs2]].
    do 2 f_equal. fold (sub_weight total). cbn [mbind option_bind]. by rewrite list_lookup_alter_eq.
  - exists (of_clusters cs c). split; [done|]. split; [by rewrite Ecs|unfold sound_chain; by rewrite Ecs].
Qed.

(** *** Rounds of equal members *)

(** The members that [k] calls in a row choose. *)
Fixpoint picks (k : nat) (c : chain) : res (list (option Z)) :=
  match k with
  | O => ok []
  | S k => let* (m, c) := al_alg_rr c in let* r := picks k c in ok ((mid <$> m) :: r)
  end.

Fixpoint picks_flat (k : nat) (ms : list al_member) : list (option Z) :=
  match k with
  | O => []
  | S k => (mid <$> (i ← (rr_flat ms).1; (rr_flat ms).2 !! i)) :: picks_flat k (rr_flat ms).2
  end.

Lemma picks_is_flat k : forall c, sound_chain c -> picks k c = ok (picks_flat k (all c)).
Proof.
  induction k as [|k IH]; intros c Hs; [done|]. cbn [picks picks_flat].
  destruct (al_alg_rr_flat c Hs) as (c' & -> & Em & Hs'). cbn [res_bind ok]. rewrite (IH c' Hs'), Em. done.
Qed.

(** A member that is up, of weight [w] and current weight [v]. *)
Definition at_weight (w v : Z) (m : al_member) : Prop :=
  is_up m = true /\ weight m = w /\ effective_weight m = w /\ current_weight m = v.

Lemma adv_at w v m : at_weight w v m -> at_weight w (u16 (v + w)) (adv m).
Proof.
  intros (Hu & Hw & He & Hc). unfold adv, advance. rewrite Hu. destruct m; cbn in *. subst.
  rewrite Z.ltb_irrefl. done.
Qed.
Lemma mid_adv m : mid (adv m) = mid m.
Proof. unfold adv. destruct (is_up m); [apply mid_advance|done]. Qed.
Lemma sub_at w v t m : at_weight w v m -> at_weight w (u16 (v - t)) (sub_weight t m).
Proof. unfold at_weight. destruct m; cbn. by intros (-> & -> & -> & ->). Qed.

Lemma total_equal w v ms : 0 <= w -> Forall (fun m => at_weight w v m \/ exists v', at_weight w v' m) ms ->
  Z.of_nat (length ms) * w < 4294967296 -> total_weight ms = Z.of_nat (length ms) * w.
Proof.
  intros Hw Hms Hb. unfold total_weight. rewrite <-(Z.add_0_l (Z.of_nat (length ms) * w)).
  assert (0 <= 0) as H0 by lia. revert Hb H0. rewrite <-(Z.add_0_l (_ * _)) at 1. generalize 0 at 1 3 4 5 as t.
  induction Hms as [|m ms Hm Hms IH]; intros t Hb Ht; cbn [fold_left length] in *; [lia|].
  assert (is_up m = true /\ effective_weight m = w) as [-> ->] by (destruct Hm as [Hm|[v' Hm]]; split; apply Hm).
  rewrite u32_small by nia. rewrite IH; nia.
Qed.

(** A round in which the first of two kinds of members is the heaviest. *)
Lemma rr_first w a b x ys : 0 <= w -> at_weight w a x -> Forall (at_weight w b) ys ->
  u16 (b + w) <= u16 (a + w) -> Z.of_nat (S (length ys)) * w < 4294967296 ->
  exists x' ys', rr_flat (x :: ys) = (Some O, x' :: ys') /\ mid x' = mid x /\ length ys' = length ys
    /\ at_weight w (u16 (u16 (a + w) - Z.of_nat (S (length ys)) * w)) x' /\ Forall (at_weight w (u16 (b + w))) ys'.
Proof.
  intros Hw Hx Hys Hle Hb. pose proof (rr_flat_spec (x :: ys)) as Hspec.
  assert (Hup : is_up x = true) by apply Hx.
  destruct (rr_flat (x :: ys)) as [[i|] ms']; cbn [fst snd] in Hspec.
  2: { destruct Hspec as [Hall _]. apply Forall_cons in Hall as [Hall _]. congruence. }
  destruct Hspec as [(m & Hm & Hu & Hmax) ->].
  assert (i = O) as ->.
  { destruct i as [|i]; [done|]. exfalso. destruct (Hmax O x eq_refl Hup) as [_ Hlt]. specialize (Hlt ltac:(lia)).
    cbn in Hm. pose proof (proj1 (Forall_lookup _ _) Hys i m Hm) as (_ & _ & Em & Ec).
    destruct Hx as (_ & _ & Ex & Ecx). rewrite !current_advance, Em, Ec, Ex, Ecx in Hlt. lia. }
  assert (total_weight (x :: ys) = Z.of_nat (S (length ys)) * w) as ->.
  { apply (total_equal w b (x :: ys)); [done| |done]. constructor; [right; by exists a|].
    eapply Forall_impl; [exact Hys|by left]. }
  exists (sub_weight (Z.of_nat (S (length ys)) * w) (adv x)), (map adv ys). split_and!.
  - done.
  - transitivity (mid (adv x)); [by destruct (adv x)|apply mid_adv].
  - apply length_map.
  - by apply sub_at, adv_at.
  - apply Forall_map. eapply Forall_impl; [exact Hys|]. intros y. apply adv_at.
Qed.

(** A round of two members in which the second is the heavier. *)
Lemma rr_second w a b x y : 0 <= w < 65536 -> at_weight w a x -> at_weight w b y ->
  u16 (a + w) < u16 (b + w) ->
  exists x' y', rr_flat [x; y] = (Some 1%nat, [x'; y']) /\ mid x' = mid x /\ mid y' = mid y
    /\ at_weight w (u16 (a + w)) x' /\ at_weight w (u16 (u16 (b + w) - 2 * w)) y'.
Proof.
  intros Hw Hx Hy Hlt. pose proof (rr_flat_spec [x; y]) as Hspec.
  assert (Hup : is_up y = true) by apply Hy.
  destruct (rr_flat [x; y]) as [[i|] ms']; cbn [fst snd] in Hspec.
  2: { destruct Hspec as [Hall _]. rewrite !Forall_cons in Hall. destruct Hall as (_ & Hall & _). congruence. }
  destruct Hspec as [(m & Hm & Hu & Hmax) ->].
  assert (i = 1%nat) as ->.
  { destruct i as [|[|i]]; [|done|done]. exfalso. injection Hm as <-. destruct (Hmax 1%nat y eq_refl Hup) as [Hle _].
    destruct Hx as (_ & _ & Ex & Ecx), Hy as (_ & _ & Ey & Ecy). rewrite !current_advance, Ex, Ecx, Ey, Ecy in Hle. lia. }
  assert (total_weight [x; y] = 2 * w) as ->.
  { apply (total_equal w a [x; y]); [lia| |cbn; lia].
    constructor; [by left|]. constructor; [right; by exists b|constructor]. }
  exists (adv x), (sub_weight (2 * w) (adv y)). split_and!.
  - done.
  - apply mid_adv.
  - transitivity (mid (adv y)); [by destruct (adv y)|apply mid_adv].
  - by apply adv_at.
  - by apply sub_at, adv_at.
Qed.

Lemma u16_add_l a b : u16 (u16 a + b) = u16 (a + b).
Proof. unfold u16, wrap. by rewrite Zplus_mod_idemp_l. Qed.
Lemma u16_sub_l a b : u16 (u16 a - b) = u16 (a - b).
Proof. unfold u16, wrap. by rewrite Zminus_mod_idemp_l. Qed.
Lemma u16_neg p : 0 < p <= 65536 -> u16 (- p) = 65536 - p.
Proof. intros H. unfold u16, wrap. symmetry. apply (Z.mod_unique_pos _ _ (-1)); [change (2 ^ 16) with 65536; lia|]. change (2 ^ 16) with 65536. lia. Qed.

(** After [t] rounds the first of [n] equal members has been charged [t * (n-1)]
    weights, which has wrapped around: it stays the heaviest. *)
Lemma starve w k : 0 < w -> forall t x ys, 0 <= t -> (2 <= length ys)%nat ->
  at_weight w (u16 (- (t * Z.of_nat (length ys) * w))) x -> Forall (at_weight w (t * w)) ys ->
  (t + Z.of_nat k) * (Z.of_nat (S (length ys)) * w) <= 65536 ->
  picks_flat k (x :: ys) = repeat (Some (mid x)) k.
Proof.
  intros Hw. induction k as [|k IH]; intros t x ys Ht Hn Hx Hys Hb; [done|].
  set (n := Z.of_nat (length ys)) in *. assert (2 <= n) as Hn2 by lia.
  assert (Z.of_nat (S (length ys)) = n + 1) as En by lia. rewrite En in Hb.
  assert (0 < n * w) by nia.
  assert (t * (n * w) + t * w <= 65536) as Htb by nia.
  assert ((t + 1) * (n * w) + (t + 1) * w <= 65536) as Htb1 by nia.
  assert (u16 (t * w + w) <= u16 (u16 (- (t * n * w)) + w)) as Hle.
  { rewrite u16_add_l, (u16_small (t * w + w)) by nia.
    destruct (Z.eq_dec t 0) as [->|Ht0]; [rewrite u16_small; lia|].
    replace (- (t * n * w) + w) with (- (t * n * w - w)) by lia. rewrite u16_neg; nia. }
  destruct (rr_first w _ _ x ys ltac:(lia) Hx Hys Hle ltac:(rewrite En; nia)) as (x' & ys' & E & Emid & El & Hx' & Hys').
  cbn [picks_flat]. rewrite E. cbn [fst snd mbind option_bind lookup list_lookup fmap option_fmap option_map repeat].
  rewrite Emid. f_equal. rewrite <-Emid. apply (IH (t + 1)).
  - lia.
  - by rewrite El.
  - rewrite El. fold n. rewrite En in Hx'. rewrite u16_add_l, u16_sub_l in Hx'.
    by replace (- ((t + 1) * n * w)) with (- (t * n * w) + w - (n + 1) * w) by lia.
  - rewrite (u16_small (t * w + w)) in Hys' by nia. by replace ((t + 1) * w) with (t * w + w) by lia.
  - rewrite El, En. lia.
Qed.

(** Two equal members take turns. *)
Lemma alternate w k : 0 < w < 32768 -> forall x y, at_weight w 0 x -> at_weight w 0 y ->
  picks_flat (2 * k) [x; y] = concat (repeat [Some (mid x); Some (mid y)] k).
Proof.
  intros Hw. induction k as [|k IH]; intros x y Hx Hy; [done|].
  replace (2 * S k)%nat with (S (S (2 * k))) by lia. cbn [picks_flat].
  destruct (rr_first w 0 0 x [y] ltac:(lia) Hx ltac:(by constructor) ltac:(lia) ltac:(cbn; lia))
    as (x1 & ys1 & E1 & Em1 & El1 & Hx1 & Hys1).
  destruct ys1 as [|y1 [|? ?]]; try done. apply Forall_cons in Hys1 as [Hy1 _]. clear El1.
  assert (mid y1 = mid y) as Emy.
  { pose proof (rr_flat_spec [x; y]) as S. rewrite E1 in S. destruct S as [_ S]. injection S as _ ->. apply mid_adv. }
  rewrite Z.add_0_l, (u16_small w) in Hx1, Hy1 by lia. change (Z.of_nat (S (length [y]))) with 2 in Hx1.
  replace (w - 2 * w) with (- w) in Hx1 by lia. rewrite u16_neg in Hx1 by lia.
  assert (u16 (65536 - w + w) = 0) as Ea by (unfold u16, wrap; change (2 ^ 16) with 65536; by replace (65536 - w + w) with 65536 by lia).
  destruct (rr_second w _ _ x1 y1 ltac:(lia) Hx1 Hy1 ltac:(rewrite Ea, u16_small; lia)) as (x2 & y2 & E2 & Ex2 & Ey2 & Hx2 & Hy2).
  rewrite Ea in Hx2. rewrite (u16_small (w + w)) in Hy2 by lia. replace (w + w - 2 * w) with 0 in Hy2 by lia.
  rewrite E1. cbn [fst snd mbind option_bind lookup list_lookup fmap option_fmap option_map].
  rewrite E2. cbn [fst snd mbind option_bind lookup list_lookup fmap option_fmap option_map].
  rewrite Em1, Ey2, Emy. rewrite (IH x2 y2 Hx2 Hy2), Ex2, Ey2, Em1, Emy. done.
Qed.

(** *** Insertion and removal *)
Lemma fill_chain_sound set_ cs : forall cs', Forall (sound is_used) cs -> (forall x, is_used (set_ x) = true) ->
  fill_chain is_used set_ cs = Some cs' ->
  Forall (sound is_used) cs' /\ exists x, members is_used cs' ≡ₚ set_ x :: members is_used cs.
Proof.
  induction cs as [|c cs IH]; intros cs' Hs Hset H; [done|]. apply Forall_cons in Hs as [Hc Hs]. cbn in H.
  destruct (fill_cluster is_used set_ c) as [c'|] eqn:E.
  - injection H as <-. destruct (fill_cluster_sound is_used set_ c c' Hc Hset E) as [Hc' (x & l & k & El & Ek)].
    split; [by constructor|]. exists x. unfold members. cbn [map concat]. rewrite El, Ek. solve_Permutation.
  - destruct (fill_chain is_used set_ cs) as [l|] eqn:E'; [|done]. injection H as <-.
    destruct (IH l Hs Hset eq_refl) as [Hl [x Hx]]. split; [by constructor|]. exists x.
    unfold members in *. cbn [map concat]. rewrite Hx. solve_Permutation.
Qed.

Lemma INIT_MC_unused g : used is_used (INIT_MC g) = [].
Proof. unfold used, INIT_MC. induction g as [|x g IH]; [done|]. cbn. by destruct x. Qed.

Lemma del_loses id slots : forall i count seen slots' seen',
  for_used is_used (del_body id) i count slots seen = ok (slots', seen', true) ->
  (length (used is_used slots') < length (used is_used slots))%nat.
Proof.
  induction slots as [|x slots IH]; intros i count seen slots' seen' H; cbn [for_used] in H.
  - by destruct (i <? count).
  - destruct (i <? count); [|done]. unfold used. cbn [List.filter]. fold (used is_used slots).
    destruct (is_used x) eqn:Ex.
    + unfold del_body in H at 1. destruct (mid x =? id).
      * injection H as <- _. cbn [List.filter]. replace (is_used _) with false by (by destruct x). unfold used. cbn. lia.
      * destruct (for_used is_used (del_body id) (i + 1) count slots true) as [e|[[sl a] st]] eqn:E; [done|].
        cbn in H. injection H as <- <- ->. cbn [List.filter]. rewrite Ex. cbn [length]. specialize (IH _ _ _ _ _ E).
        unfold used in *. lia.
    + destruct (for_used is_used (del_body id) i count slots seen) as [e|[[sl a] st]] eqn:E; [done|].
      cbn in H. injection H as <- <- ->. cbn [List.filter]. rewrite Ex. by apply (IH _ _ _ _ _ E).
Qed.

Lemma run_del_found id xs : forall seen, Exists (fun m => mid m = id) xs -> (run (del_body id) xs seen).2 = true.
Proof.
  induction xs as [|x xs IH]; intros seen H; [by inversion H|]. cbn [run]. unfold del_body at 1.
  destruct (Z.eqb_spec (mid x) id) as [Heq|Hne]; [done|].
  apply Exists_cons in H as [H|H]; [done|]. specialize (IH true H).
  by destruct (run (del_body id) xs true) as [[? ?] ?].
Qed.

Lemma rr_body_continues x a : is_used x = true -> (rr_body x a).2 = false.
Proof. intros _. destruct a as [[k best] total]. unfold rr_body. by destruct (negb (is_up x)). Qed.

Lemma al_alg_rr_ok (c : chain) :
  sound_chain c ->
  exists best c', al_alg_rr c = ok (best, c') /\ sound_chain c'
    /\ match best with
       | None => Forall (fun m => is_up m = false) (all c) /\ all c' = all c
       | Some m => exists i, heaviest (all c) i /\ all c' !! i = Some m
           /\ all c' = alter (sub_weight (total_weight (all c))) i (map adv (all c))
       end.
Proof.
  intros Hs. destruct (al_alg_rr_flat c Hs) as (c' & E & Em & Hs').
  pose proof (rr_flat_spec (all c)) as Hspec.
  destruct (rr_flat (all c)) as [[i|] ms]; cbn [fst snd mbind option_bind] in *.
  - exists (ms !! i), c'. split; [exact E|]. split; [done|]. destruct Hspec as [Hh ->].
    pose proof Hh as (m & Hm & _).
    rewrite list_lookup_alter_eq, list_lookup_fmap, Hm. cbn [fmap option_fmap option_map].
    exists i. split; [done|]. split; [|done].
    by rewrite Em, list_lookup_alter_eq, list_lookup_fmap, Hm.
  - exists None, c'. split; [exact E|]. split; [done|]. destruct Hspec as [Hu ->]. by split.
Qed.

Lemma al_member_insert_ok (c : chain) (conf : al_member_conf) (garbage : list al_member) :
  sound_chain c -> length garbage = CLUSTER_SIZE ->
  exists m c', al_member_insert (Some garbage) c conf = (0, c') /\ sound_chain c' /\ all c' ≡ₚ m :: all c
    /\ mid m = conf_mid conf /\ port m = Chksum.bswap16 (conf_port conf)
    /\ at_weight (conf_weight conf) 0 m.
Proof.
  intros Hs Hg. apply Forall_cons in Hs as [Hf Hl]. unfold al_member_insert.
  set (set_ := fun m => (al_set_member m conf) <| is_used := true |>).
  assert (forall x, is_used (set_ x) = true) as Hset by (by intros []).
  assert (forall x, mid (set_ x) = conf_mid conf /\ port (set_ x) = Chksum.bswap16 (conf_port conf)
    /\ at_weight (conf_weight conf) 0 (set_ x)) as Hnew by (by intros []).
  destruct (fill_cluster is_used set_ (first c)) as [f|] eqn:E1.
  - destruct (fill_cluster_sound is_used set_ _ _ Hf Hset E1) as [Hf' (x & l & k & El & Ek)].
    exists (set_ x), (c <| first := f |>). split; [done|]. split; [destruct c; by constructor|]. split; [|apply Hnew].
    destruct c as [f0 l0]. cbn in *. unfold members. cbn [clusters map concat first list_]. rewrite El, Ek. solve_Permutation.
  - destruct (fill_chain is_used set_ (list_ c)) as [l|] eqn:E2.
    + destruct (fill_chain_sound set_ _ _ Hl Hset E2) as [Hl' [x Hx]].
      exists (set_ x), (c <| list_ := l |>). split; [done|]. split; [destruct c; by constructor|]. split; [|apply Hnew].
      destruct c as [f0 l0]. cbn in *. unfold members in *. cbn [clusters map concat first list_]. rewrite Hx. solve_Permutation.
    + destruct (INIT_MC garbage) as [|m0 rest] eqn:Eg.
      { apply (f_equal length) in Eg. unfold INIT_MC in Eg. rewrite length_map, Hg in Eg. done. }
      pose proof (INIT_MC_unused garbage) as Hu. rewrite Eg in Hu. unfold used in Hu. cbn in Hu.
      destruct (is_used m0) eqn:E0; [done|].
      assert (used is_used (set_ m0 :: rest) = [set_ m0]) as Hused by (unfold used; cbn [List.filter]; by rewrite Hset, Hu).
      exists (set_ m0). eexists. split; [reflexivity|]. split; [|split; [|apply Hnew]].
      * destruct c as [f0 l0]. constructor; [done|]. constructor; [|done]. split.
        -- cbn. apply (f_equal length) in Eg. unfold INIT_MC in Eg. rewrite length_map, Hg in Eg. cbn in Eg. by rewrite <-Eg.
        -- cbn [cnt m]. fold (set_ m0). rewrite Hused. done.
      * destruct c as [f0 l0]. cbn in *. unfold members. cbn [clusters map concat first list_ m].
        fold (set_ m0). rewrite Hused. solve_Permutation.
Qed.
End MemberFacts.

(** ** Properties *)
Section Properties.
Import Cluster ClusterFacts Member MemberFacts.

(** On a chain whose counts are right, as insertion keeps them, scheduling never leaves the arrays,
    chooses the first of the heaviest members that are up (none only if none is
    up), and changes the weights as smooth weighted round robin does: every
    member that is up gains its effective weight, the chosen one pays the
    total. *)
Theorem rr_chooses_heaviest (c : chain) :
  sound_chain c ->
  exists best c', al_alg_rr c = ok (best, c') /\ sound_chain c'
    /\ match best with
       | None => Forall (fun m => is_up m = false) (all c) /\ all c' = all c
       | Some m => exists i, heaviest (all c) i /\ all c' !! i = Some m
           /\ all c' = alter (sub_weight (total_weight (all c))) i (map adv (all c))
       end.
Proof. apply al_alg_rr_ok. Qed.

(** Two members of equal weight below 32768 take turns, the first one first. *)
Theorem equal_pair_alternates (c : chain) (w : Z) (x y : al_member) (k : nat) :
  sound_chain c -> all c = [x; y] -> 0 < w < 32768 -> at_weight w 0 x -> at_weight w 0 y ->
  picks (2 * k) c = ok (concat (repeat [Some (mid x); Some (mid y)] k)).
Proof. intros Hs E Hw Hx Hy. rewrite picks_is_flat, E by done. f_equal. by apply (alternate w). Qed.

(** Three or more members of equal weight do not take turns: the current
    weight is unsigned, so that the first member's debt makes it the heaviest
    again, and the first 65536 / (n * w) connections all go to it. *)
Theorem equal_members_starve (c : chain) (w : Z) (x : al_member) (ys : list al_member) (k : nat) :
  sound_chain c -> all c = x :: ys -> (2 <= length ys)%nat -> 0 < w ->
  at_weight w 0 x -> Forall (at_weight w 0) ys ->
  Z.of_nat k * (Z.of_nat (S (length ys)) * w) <= 65536 ->
  picks k c = ok (repeat (Some (mid x)) k).
Proof.
  intros Hs E Hn Hw Hx Hys Hk. rewrite picks_is_flat, E by done. f_equal.
  apply (starve w k Hw 0); [lia|done|exact Hx|exact Hys|lia].
Qed.

(** Insertion keeps the counts right and adds one member, with the
    configuration's port, weight and identifier, that is up and has no weight
    yet; it fails only for want of memory. *)
Theorem inserted_member_joins (c : chain) (conf : al_member_conf) (garbage : list al_member) :
  sound_chain c -> length garbage = CLUSTER_SIZE ->
  exists m c', al_member_insert (Some garbage) c conf = (0, c') /\ sound_chain c' /\ all c' ≡ₚ m :: all c
    /\ mid m = conf_mid conf /\ port m = Chksum.bswap16 (conf_port conf)
    /\ at_weight (conf_weight conf) 0 m.
Proof. apply al_member_insert_ok. Qed.

(** Removal does not decrease the count: once a member of the first cluster has
    been deleted, the next choice runs off the array. *)
Theorem deleted_member_breaks_lookup (c : chain) (id : Z) :
  sound is_used (first c) -> Exists (fun m => mid m = id) (used is_used (m (first c))) ->
  exists c', al_member_del c id = ok (0, c') /\ al_alg_rr c' = err Undef.
Proof.
  intros [Hl Hc] Hid.
  destruct (for_used_run is_used (del_body id) (m (first c)) 0 false) as (sl & E & El & _).
  rewrite Z.add_0_l, (run_del_found id _ false Hid) in E. pose proof (del_loses id _ _ _ _ _ _ E) as Hlt.
  unfold al_member_del, for_cluster. rewrite Hc, E. cbn [res_bind ok].
  eexists. split; [reflexivity|]. unfold al_alg_rr.
  assert (for_chain is_used rr_body (mk (cnt (first c)) sl :: list_ c) (O, None, 0) = err Undef) as Ho.
  { cbn [for_chain]. unfold for_cluster. cbn [cnt m]. rewrite for_used_overrun; [done|apply rr_body_continues|lia]. }
  destruct c as [f l]. cbn in Hc, Ho |- *. rewrite Hc in Ho. by rewrite Ho.
Qed.
End Properties.

(** ** Witnesses *)
Section Witnesses.
Import Cluster ClusterFacts Member MemberFacts.

Definition empty_member : al_member := mk_member false false 0 0 0 0 0 0 0 0 (repeat 0 18).
Definition sample_conf (id : Z) : al_member_conf := mk_conf 2 80 id ([6; 2; 10; 0; 0; id] ++ repeat 0 12).
(** A free slot with this configuration loaded. *)
Definition loaded (id : Z) : al_member := (al_set_member empty_member (sample_conf id)) <| is_used := true |>.
Definition sample_chain : chain := mk_chain (mk 0 (repeat empty_member 8)) [].
Definition pair_chain : chain := (load_members None [sample_conf 1; sample_conf 2] sample_chain).2.
Definition trio_chain : chain := (load_members None [sample_conf 1; sample_conf 2; sample_conf 3] sample_chain).2.

Lemma rr_chooses_heaviest_witness :
  exists best c', al_alg_rr trio_chain = ok (best, c') /\ sound_chain c'.
Proof.
  destruct (rr_chooses_heaviest trio_chain) as (best & c' & E & Hs & _).
  - constructor; [split; vm_compute; reflexivity|constructor].
  - exact (ex_intro _ best (ex_intro _ c' (conj E Hs))).
Defined.

Lemma equal_pair_alternates_witness :
  picks 6 pair_chain = ok [Some 1; Some 2; Some 1; Some 2; Some 1; Some 2].
Proof.
  apply (equal_pair_alternates pair_chain 2 (loaded 1)
    (loaded 2) 3).
  - constructor; [split; vm_compute; reflexivity|constructor].
  - vm_compute. reflexivity.
  - split; vm_compute; reflexivity.
  - repeat split.
  - repeat split.
Defined.

Lemma equal_members_starve_witness : picks 1000 trio_chain = ok (repeat (Some 1) 1000).
Proof.
  apply (equal_members_starve trio_chain 2 (loaded 1)
    [loaded 2;
     loaded 3] 1000).
  - constructor; [split; vm_compute; reflexivity|constructor].
  - vm_compute. reflexivity.
  - apply Nat.leb_le. reflexivity.
  - reflexivity.
  - repeat split.
  - repeat constructor.
  - vm_compute. discriminate.
Defined.

Lemma inserted_member_joins_witness :
  exists m c', al_member_insert (Some (repeat empty_member 8)) pair_chain (sample_conf 9) = (0, c')
    /\ sound_chain c' /\ mid m = 9.
Proof.
  destruct (inserted_member_joins pair_chain (sample_conf 9) (repeat empty_member 8)) as (m & c' & E & Hs & _ & Hm & _).
  - constructor; [split; vm_compute; reflexivity|constructor].
  - reflexivity.
  - exact (ex_intro _ m (ex_intro _ c' (conj E (conj Hs Hm)))).
Defined.

Lemma deleted_member_breaks_lookup_witness :
  exists c', al_member_del pair_chain 2 = ok (0, c') /\ al_alg_rr c' = err Undef.
Proof.
  apply (deleted_member_breaks_lookup pair_chain 2).
  - split; vm_compute; reflexivity.
  - apply Exists_cons_tl, Exists_cons_hd. vm_compute. reflexivity.
Defined.
End Witnesses.
