(* ===== verification/Group.v ===== *)
(** * The table of groups

    Models the groups of [alpha/al_member.c]: their table, a red-black tree under
    a key made of the filter's and the group's identifier, and the operations of
    the control plane and of the packet path on it. What the database holds is
    an argument, as is what [al_malloc] returns; the locks around each operation
    are left out. The operations refine a finite map keyed by the pair of
    identifiers. *)

From Stdlib Require Import ZArith Lia Bool.
From stdpp Require Import base tactics option gmap list.
From S2P Require Import Prelude Checksum RbTree RbRep RbMap Table Cluster Member.

Open Scope Z_scope.

Module Group.
Import Cluster Member Table.

(** [al_member_node_t] with the chain behind it. *)
Record al_group := mk_group { g_schd : Z; g_fid : Z; g_gid : Z; members_ : chain }.

Definition al_make_key (fid id : Z) : Z := Z.lor (Z.shiftl fid 32) id.

(** What the database answers: of a group its algorithm, if it has one, and its
    members; [None] when the query fails. *)
Record database := mk_db {
  algorithm : Z -> option (option Z);
  members_of : Z -> option (list al_member_conf) }.

(** What [al_malloc] returns for a group, and for a further cluster of it. *)
Record memory := mk_mem {
  mem_node : option (RbTree.node * cluster al_member);
  mem_cluster : option (list al_member) }.

(** [g_members] after [al_members_init], the sentinel at [sn]. *)
Definition al_members_init (sn : RbTree.ptr) : st (table al_group) unit := fun _ => init sn.

(** [g_alg_fun[ schd ]( mc, margs )] *)
Definition schedule (schd : Z) (c : chain) (a : al_margs) : res (option al_member * chain * al_margs) :=
  if schd =? 0 then let* (m, c) := al_alg_rr c in ok (m, c, a)
  else if schd =? 1 then let* (m, c) := al_alg_weight c in ok (m, c, a)
  else if schd =? 2 then let* (m, c) := al_alg_rr_weight c in ok (m, c, a)
  else if schd =? 3 then let* (m, a) := al_alg_geoip c a in ok (m, c, a)
  else err Undef.

(** What a lookup stores about the member it found. *)
Definition answer (g : al_group) (m : al_member) (a : al_margs) : al_margs :=
  a <| a_mid := mid m |> <| a_port := port m |>
    <| a_addr := if al_addr_af (mb_address m) =? AF_INET then copy_addr4 (a_addr a) (mb_address m) else mb_address m |>
    <| schd := g_schd g |>.

Definition al_member_lookup (fid gid : Z) (a : al_margs) : st (table al_group) (Z * al_margs) :=
  do node <- find (al_make_key fid gid) ;;
  match node with
  | None => st_ret (-1, a)
  | Some node =>
      do g <- read node ;;
      do (m, c, a) <- st_lift (schedule (g_schd g) (members_ g) a) ;;
      do _ <- write node (g <| members_ := c |>) ;;
      match m with
      | None => st_ret (-1, a)
      | Some m => st_ret (0, answer g m a)
      end
  end.

Definition al_member_add (mem : memory) (fid gid : Z) (conf : al_member_conf) : st (table al_group) Z :=
  do node <- find (al_make_key fid gid) ;;
  match node with
  | None => st_ret (-1)
  | Some node =>
      do g <- read node ;;
      let '(rc, c) := al_member_insert (mem_cluster mem) (members_ g) conf in
      do _ <- write node (g <| members_ := c |>) ;;
      st_ret rc
  end.

Definition al_member_delete (fid gid id : Z) : st (table al_group) Z :=
  do node <- find (al_make_key fid gid) ;;
  match node with
  | None => st_ret (-1)
  | Some node =>
      do g <- read node ;;
      do (rc, c) <- st_lift (al_member_del (members_ g) id) ;;
      do _ <- write node (g <| members_ := c |>) ;;
      st_ret rc
  end.

(** [al_group_load_member( gid, mc, al_member_insert )] *)
Definition al_group_load_member (mem : memory) (db : database) (gid : Z) (c : chain) : Z * chain :=
  match members_of db gid with
  | None => (-1, c)
  | Some confs => load_members (mem_cluster mem) confs c
  end.

(** The new node's [cnt] is what the memory held: it is not set. *)
Definition al_group_insert (mem : memory) (db : database) (fid gid sched : Z) : st (table al_group) Z :=
  do node <- find (al_make_key fid gid) ;;
  match node with
  | Some _ => st_ret (-1)
  | None =>
      match mem_node mem with
      | None => st_ret (-1)
      | Some (garbage, n) =>
          let mc := mk_chain (Cluster.mk (cnt n) (INIT_MC (m n))) [] in
          let '(rc, mc) := al_group_load_member mem db gid mc in
          if negb (rc =? 0) then st_ret (-1) else
          do _ <- enter garbage (al_make_key fid gid) (mk_group sched fid gid mc) ;;
          st_ret 0
      end
  end.

(** [al_group_load], through [al_group_info] and [al_group_load_cb]. *)
Definition al_group_load (mem : memory) (db : database) (fid gid : Z) : st (table al_group) Z :=
  match algorithm db gid with
  | None => st_ret (-1)
  | Some None => st_ret (-1)
  | Some (Some schd) => al_group_insert mem db fid gid schd
  end.

Definition al_group_delete (fid gid : Z) : st (table al_group) Z :=
  do node <- find (al_make_key fid gid) ;;
  match node with
  | Some node => do _ <- remove node ;; st_ret 0
  | None => st_ret (-1)
  end.
End Group.

(** ** The abstract table *)
Module GroupSpec.
Import Cluster Member Group.

Abbreviation groups := (gmap (Z * Z) al_group).

Definition lookup_ (fid gid : Z) (a : al_margs) : st groups (Z * al_margs) := fun G =>
  match G !! (fid, gid) with
  | None => (ok (-1, a), G)
  | Some g =>
      match schedule (g_schd g) (members_ g) a with
      | inl e => (err e, G)
      | inr (m, c, a) =>
          (ok (match m with None => (-1, a) | Some m => (0, answer g m a) end), <[(fid, gid) := g <| members_ := c |>]> G)
      end
  end.

(** An existing group's members are replaced. *)
Definition on_group {A} (dflt : A) (f : chain -> res (A * chain)) (fid gid : Z) : st groups A := fun G =>
  match G !! (fid, gid) with
  | None => (ok dflt, G)
  | Some g =>
      match f (members_ g) with
      | inl e => (err e, G)
      | inr (r, c) => (ok r, <[(fid, gid) := g <| members_ := c |>]> G)
      end
  end.

Definition insert_ (mem : memory) (db : database) (fid gid sched : Z) : st groups Z := fun G =>
  match G !! (fid, gid), mem_node mem with
  | None, Some (_, n) =>
      let '(rc, c) := al_group_load_member mem db gid (mk_chain (Cluster.mk (cnt n) (INIT_MC (m n))) []) in
      if rc =? 0 then (ok 0, <[(fid, gid) := mk_group sched fid gid c]> G) else (ok (-1), G)
  | _, _ => (ok (-1), G)
  end.

Definition delete_ (fid gid : Z) : st groups Z := fun G =>
  match G !! (fid, gid) with
  | None => (ok (-1), G)
  | Some _ => (ok 0, delete (fid, gid) G)
  end.

(** Requests to the table, and their answers: a result code and what a lookup
    reported. *)
Inductive request :=
| Load (mem : memory) (db : database) (fid gid : Z)
| Drop_ (fid gid : Z)
| Add (mem : memory) (fid gid : Z) (conf : al_member_conf)
| Del (fid gid id : Z)
| Look (fid gid : Z) (a : al_margs).

Definition ids (r : request) : Z * Z :=
  match r with
  | Load _ _ fid gid | Drop_ fid gid | Add _ fid gid _ | Del fid gid _ | Look fid gid _ => (fid, gid)
  end.
(** The identifiers are [uint32_t]. *)
Definition typed (r : request) : Prop := in_width 32 (ids r).1 /\ in_width 32 (ids r).2.

Definition code {S} (c : st S Z) : st S (Z * option al_margs) := do rc <- c ;; st_ret (rc, None).
Definition full {S} (c : st S (Z * al_margs)) : st S (Z * option al_margs) := do (rc, a) <- c ;; st_ret (rc, Some a).

Definition serve (r : request) : st (Table.table al_group) (Z * option al_margs) :=
  match r with
  | Load mem db fid gid => code (al_group_load mem db fid gid)
  | Drop_ fid gid => code (al_group_delete fid gid)
  | Add mem fid gid conf => code (al_member_add mem fid gid conf)
  | Del fid gid id => code (al_member_delete fid gid id)
  | Look fid gid a => full (al_member_lookup fid gid a)
  end.

Definition serve_spec (r : request) : st groups (Z * option al_margs) :=
  match r with
  | Load mem db fid gid =>
      code (match algorithm db gid with Some (Some schd) => insert_ mem db fid gid schd | _ => st_ret (-1) end)
  | Drop_ fid gid => code (delete_ fid gid)
  | Add mem fid gid conf => code (on_group (-1) (fun c => ok (al_member_insert (mem_cluster mem) c conf)) fid gid)
  | Del fid gid id => code (on_group (-1) (fun c => al_member_del c id) fid gid)
  | Look fid gid a => full (lookup_ fid gid a)
  end.

(** A sequence of requests, up to the first undefined step. *)
Fixpoint serve_all {S} (serve : request -> st S (Z * option al_margs)) (rs : list request)
    : st S (list (Z * option al_margs)) :=
  match rs with
  | [] => st_ret []
  | r :: rs => do a <- serve r ;; do l <- serve_all serve rs ;; st_ret (a :: l)
  end.
End GroupSpec.

(** ** Lemmas *)
Module GroupFacts.
Import Cluster ClusterFacts Member MemberFacts Table TableFacts Group GroupSpec.

Lemma al_make_key_inj fid gid fid' gid' : in_width 32 fid -> in_width 32 gid -> in_width 32 fid' -> in_width 32 gid' ->
  al_make_key fid gid = al_make_key fid' gid' -> (fid, gid) = (fid', gid').
Proof.
  intros Hf Hg Hf' Hg'. unfold al_make_key. rewrite !lor_shiftl_add by (done || lia). intros H.
  f_equal; unfold in_width in *; lia.
Qed.

(** The keys and the pairs of identifiers lead to the same groups. *)
Definition agree (mz : gmap Z al_group) (G : groups) : Prop :=
  forall fid gid, in_width 32 fid -> in_width 32 gid -> mz !! al_make_key fid gid = G !! (fid, gid).

(** The table holds the groups [G]. *)
Definition simulates (T : table al_group) (G : groups) : Prop := exists mp mz, holds T mp mz /\ agree mz G.

Definition sim {A} (c : st (table al_group) A) (d : st groups A) : Prop :=
  forall T G, simulates T G -> exists T', c T = ((d G).1, T') /\ simulates T' (d G).2.

Section Key.
Context (fid gid : Z) (Hf : in_width 32 fid) (Hg : in_width 32 gid).

(** A change at the key is one at the pair. *)
Lemma agree_alter mz G o : agree mz G ->
  agree (partial_alter (fun _ => o) (al_make_key fid gid) mz) (partial_alter (fun _ => o) (fid, gid) G).
Proof.
  intros H f g Hf' Hg'. destruct (decide ((fid, gid) = (f, g))) as [[= <- <-]|Hne].
  - by rewrite !lookup_partial_alter_eq.
  - rewrite !lookup_partial_alter_ne; [by apply H|done|]. intros E. apply Hne. by apply al_make_key_inj.
Qed.

(** What [al_rbtree_lookup] leads to: nothing, and the key is free; or the group's node. *)
Lemma find_cases T G : simulates T G ->
  match G !! (fid, gid) with
  | None => find (al_make_key fid gid) T = (ok None, T)
      /\ forall garbage g, exists T', enter garbage (al_make_key fid gid) g T = (ok tt, T')
                              /\ simulates T' (<[(fid, gid) := g]> G)
  | Some g => exists p, find (al_make_key fid gid) T = (ok (Some p), T) /\ read p T = (ok g, T)
      /\ (forall g', exists T', write p g' T = (ok tt, T') /\ simulates T' (<[(fid, gid) := g']> G))
      /\ exists T', remove p T = (ok tt, T') /\ simulates T' (delete (fid, gid) G)
  end.
Proof.
  intros (mp & mz & H & Ha). rewrite (find_ok _ _ _ _ H). pose proof (Ha fid gid Hf Hg) as Hz.
  destruct (G !! (fid, gid)) as [g|] eqn:E.
  - destruct (holds_node _ _ _ _ _ H Hz) as (p & Hp & _). exists p. rewrite Hp. split; [done|].
    split; [by eapply read_ok|]. split.
    + intros g'. destruct (write_ok _ _ _ _ _ g' H Hp) as (T' & ET & H'). exists T'. split; [done|].
      exists mp, (<[al_make_key fid gid := g']> mz). split; [done|by apply agree_alter].
    + destruct (remove_ok _ _ _ _ _ H Hp) as (T' & ET & H'). exists T'. split; [done|].
      eexists _, _. split; [exact H'|by apply agree_alter].
  - split; [by rewrite (proj1 (holds_None _ _ _ _ H) Hz)|]. intros garbage g.
    destruct (enter_ok _ _ _ _ g garbage H Hz) as (T' & p & ET & H'). exists T'. split; [done|].
    eexists _, _. split; [exact H'|by apply agree_alter].
Qed.

(** *** Each operation is the one on the map *)
Lemma lookup_sim a : sim (al_member_lookup fid gid a) (lookup_ fid gid a).
Proof.
  intros T G HS. pose proof (find_cases T G HS) as Hc. unfold al_member_lookup, lookup_.
  destruct (G !! (fid, gid)) as [g|]; [|destruct Hc as [E _]; rewrite (st_bind_ok _ _ _ _ _ E); eauto].
  destruct Hc as (p & E & Er & Ew & _). rewrite (st_bind_ok _ _ _ _ _ E), (st_bind_ok _ _ _ _ _ Er).
  unfold st_bind at 1, st_lift. destruct (schedule _ _ _) as [e|[[m c] a']]; [by exists T|].
  destruct (Ew (g <| members_ := c |>)) as (T' & E' & HS'). exists T'.
  rewrite (st_bind_ok _ _ _ _ _ E'). by destruct m.
Qed.

Lemma add_sim mem conf :
  sim (al_member_add mem fid gid conf) (on_group (-1) (fun c => ok (al_member_insert (mem_cluster mem) c conf)) fid gid).
Proof.
  intros T G HS. pose proof (find_cases T G HS) as Hc. unfold al_member_add, on_group.
  destruct (G !! (fid, gid)) as [g|]; [|destruct Hc as [E _]; rewrite (st_bind_ok _ _ _ _ _ E); eauto].
  destruct Hc as (p & E & Er & Ew & _). rewrite (st_bind_ok _ _ _ _ _ E), (st_bind_ok _ _ _ _ _ Er).
  destruct (al_member_insert _ _ _) as [rc c]. cbn [ok].
  destruct (Ew (g <| members_ := c |>)) as (T' & E' & HS'). exists T'. by rewrite (st_bind_ok _ _ _ _ _ E').
Qed.

Lemma del_sim id : sim (al_member_delete fid gid id) (on_group (-1) (fun c => al_member_del c id) fid gid).
Proof.
  intros T G HS. pose proof (find_cases T G HS) as Hc. unfold al_member_delete, on_group.
  destruct (G !! (fid, gid)) as [g|]; [|destruct Hc as [E _]; rewrite (st_bind_ok _ _ _ _ _ E); eauto].
  destruct Hc as (p & E & Er & Ew & _). rewrite (st_bind_ok _ _ _ _ _ E), (st_bind_ok _ _ _ _ _ Er).
  unfold st_bind at 1, st_lift. destruct (al_member_del _ _) as [e|[rc c]]; [by exists T|].
  destruct (Ew (g <| members_ := c |>)) as (T' & E' & HS'). exists T'. by rewrite (st_bind_ok _ _ _ _ _ E').
Qed.

Lemma insert_sim mem db sched : sim (al_group_insert mem db fid gid sched) (insert_ mem db fid gid sched).
Proof.
  intros T G HS. pose proof (find_cases T G HS) as Hc. unfold al_group_insert, insert_.
  destruct (G !! (fid, gid)) as [g|]; [destruct Hc as (p & E & _); rewrite (st_bind_ok _ _ _ _ _ E); eauto|].
  destruct Hc as [E En]. rewrite (st_bind_ok _ _ _ _ _ E).
  destruct (mem_node mem) as [[garbage n]|]; [|eauto].
  destruct (al_group_load_member _ _ _ _) as [rc c]. destruct (rc =? 0); cbn [negb]; [|eauto].
  destruct (En garbage (mk_group sched fid gid c)) as (T' & E' & HS'). exists T'. by rewrite (st_bind_ok _ _ _ _ _ E').
Qed.

Lemma delete_sim : sim (al_group_delete fid gid) (delete_ fid gid).
Proof.
  intros T G HS. pose proof (find_cases T G HS) as Hc. unfold al_group_delete, delete_.
  destruct (G !! (fid, gid)) as [g|]; [|destruct Hc as [E _]; rewrite (st_bind_ok _ _ _ _ _ E); eauto].
  destruct Hc as (p & E & _ & _ & T' & E' & HS'). rewrite (st_bind_ok _ _ _ _ _ E). exists T'. by rewrite (st_bind_ok _ _ _ _ _ E').
Qed.
End Key.

Lemma sim_ret {A} (a : A) : sim (st_ret a) (st_ret a).
Proof. intros T G HS. by exists T. Qed.
Lemma sim_bind {A B} (c : st (table al_group) A) d (f : A -> st (table al_group) B) g :
  sim c d -> (forall a, sim (f a) (g a)) -> sim (st_bind c f) (st_bind d g).
Proof.
  intros Hc Hf T G HS. destruct (Hc T G HS) as (T' & E & HS'). unfold st_bind. rewrite E.
  destruct (d G) as [[e|a] G']; cbn in *; [eauto|by apply Hf].
Qed.
#[local] Hint Resolve sim_ret sim_bind lookup_sim add_sim del_sim insert_sim delete_sim : core.

Lemma serve_sim r : typed r -> sim (serve r) (serve_spec r).
Proof.
  intros [Hf Hg]. destruct r as [mem db fid gid|fid gid|mem fid gid conf|fid gid id|fid gid a]; cbn in *;
    (apply sim_bind; [auto|]); [|intros; apply sim_ret..|intros []; apply sim_ret].
  unfold al_group_load. destruct (algorithm db gid) as [[]|]; auto.
Qed.

Lemma serve_all_sim rs : Forall typed rs -> sim (serve_all serve rs) (serve_all serve_spec rs).
Proof. induction 1; cbn; [apply sim_ret|]. apply sim_bind; [by apply serve_sim|]. intros. apply sim_bind; auto. Qed.

Lemma init_simulates sn T : sn <> RbTree.NULL -> exists T', al_members_init sn T = (ok tt, T') /\ simulates T' ∅.
Proof.
  intros Hsn. destruct (init_ok (A := al_group) sn Hsn) as (T' & E & H). exists T'. split; [exact E|].
  exists ∅, ∅. split; [exact H|]. by intros fid gid; rewrite !lookup_empty.
Qed.

(** *** A group with its members *)

(** The member was made from this configuration, and may serve. *)
Definition made_from (m : al_member) (conf : al_member_conf) : Prop :=
  mid m = conf_mid conf /\ port m = Chksum.bswap16 (conf_port conf) /\ is_up m = true.

Lemma load_members_ok garbage confs : length garbage = CLUSTER_SIZE -> forall c, sound_chain c ->
  exists c' ms, load_members (Some garbage) confs c = (0, c') /\ sound_chain c' /\ all c' ≡ₚ ms ++ all c
    /\ Forall2 made_from (reverse ms) confs.
Proof.
  intros Hg. induction confs as [|conf confs IH]; intros c Hs.
  { exists c, []. split_and!; [done|done|done|constructor]. }
  destruct (al_member_insert_ok c conf garbage Hs Hg) as (m & c1 & E & Hs1 & Hp & Hm & Hport & Hw).
  destruct (IH c1 Hs1) as (c2 & ms & E2 & Hs2 & Hp2 & Hall). exists c2, (ms ++ [m]). cbn. rewrite E. cbn.
  split_and!; [done|done|by rewrite Hp2, Hp, <-app_assoc|]. rewrite reverse_app. cbn. constructor; [|done].
  split_and!; [done|done|by destruct Hw as (? & _)].
Qed.

(** The choice among members of which one is up is one of them. *)
Lemma al_alg_rr_some c x : sound_chain c -> x ∈ all c -> is_up x = true ->
  exists m m0 c', al_alg_rr c = ok (Some m, c') /\ sound_chain c' /\ m0 ∈ all c /\ mid m = mid m0 /\ port m = port m0.
Proof.
  intros Hs Hx Hup. destruct (al_alg_rr_ok c Hs) as (best & c' & E & Hs' & Hb).
  destruct best as [m|]; [|destruct Hb as [Hb _]; rewrite Forall_forall in Hb; by rewrite (Hb x Hx) in Hup].
  destruct Hb as (i & (m0 & Hm0 & _) & Hm & Ha). exists m, m0, c'. split_and!; [done|done|by eapply list_elem_of_lookup_2|..];
    rewrite Ha, list_lookup_alter_eq, list_lookup_fmap, Hm0 in Hm; injection Hm as <-;
    unfold sub_weight, adv, advance; repeat case_goal; by destruct m0.
Qed.

(** The members of a new group in memory whose count field is zero. *)
Lemma load_new_group slots cluster_ confs : length slots = CLUSTER_SIZE -> length cluster_ = CLUSTER_SIZE -> confs <> [] ->
  exists c, load_members (Some cluster_) confs (mk_chain (Cluster.mk 0 (INIT_MC slots)) []) = (0, c) /\ sound_chain c
    /\ Forall (fun m => exists conf, conf ∈ confs /\ made_from m conf) (all c) /\ exists x, x ∈ all c.
Proof.
  intros Hl1 Hl2 Hne.
  destruct (load_members_ok cluster_ confs Hl2 (mk_chain (Cluster.mk 0 (INIT_MC slots)) [])) as (c & ms & El & Hs & Hp & Hall).
  { constructor; [|done]. split; cbn; [unfold INIT_MC; by rewrite length_map|by rewrite INIT_MC_unused]. }
  exists c. split; [exact El|]. split; [exact Hs|]. split.
  - rewrite Hp. unfold members. cbn [clusters map concat first list_ Cluster.m]. rewrite INIT_MC_unused, !app_nil_r.
    apply Forall_reverse. clear -Hall. induction Hall as [|m conf l k Hmk _ IH]; constructor; [exists conf; by split; [left|]|].
    eapply Forall_impl; [exact IH|]. intros m' (conf' & Hin & ?). exists conf'. by split; [right|].
  - destruct ms as [|x ms]; [by apply Forall2_nil_inv_l in Hall; subst|]. exists x. rewrite Hp. left.
Qed.

Lemma schedule_some schd c a : 0 <= schd <= 2 -> sound_chain c ->
  (exists x, x ∈ all c /\ is_up x = true) ->
  exists m m0 c', schedule schd c a = ok (Some m, c', a) /\ m0 ∈ all c /\ mid m = mid m0 /\ port m = port m0.
Proof.
  intros Hschd Hs (x & Hx & Hup). destruct (al_alg_rr_some c x Hs Hx Hup) as (m & m0 & c' & Er & _ & Hm0 & Em & Ep).
  exists m, m0, c'. split; [|done]. unfold schedule, al_alg_weight, al_alg_rr_weight. rewrite Er.
  assert (schd = 0 \/ schd = 1 \/ schd = 2) as [->|[->| ->]] by lia; done.
Qed.
End GroupFacts.

(** ** Properties *)
Section Properties.
Import Cluster ClusterFacts Member MemberFacts Table TableFacts Group GroupSpec GroupFacts.

(** C37. The table of groups refines a finite map keyed by the pair of the filter's and
    the group's identifier: from [al_members_init] on, any sequence of loads,
    deletions, member insertions, member deletions and lookups gives the
    results the map gives, step by step, including where a step is undefined. *)
Theorem group_table_refines (sn : RbTree.ptr) (T : table al_group) (rs : list request) :
  sn <> RbTree.NULL -> Forall typed rs ->
  exists T1 T2, al_members_init sn T = (ok tt, T1)
    /\ serve_all serve rs T1 = ((serve_all serve_spec rs ∅).1, T2)
    /\ simulates T2 (serve_all serve_spec rs ∅).2.
Proof.
  intros Hsn Hr. destruct (init_simulates sn T Hsn) as (T1 & E & HS).
  destruct (serve_all_sim rs Hr T1 ∅ HS) as (T2 & E2 & HS2). eauto.
Qed.

(** A group that is loaded serves: in memory whose count field is zero,
    [al_group_load] of a group with members and a round-robin algorithm
    succeeds, and the next lookup answers with one of the configured members. *)
Theorem loaded_group_serves (T : table al_group) (G : groups) (db : database) (mem : memory) (garbage : RbTree.node)
    (slots cluster_ : list al_member) (fid gid schd : Z) (confs : list al_member_conf) (a : al_margs) :
  simulates T G -> in_width 32 fid -> in_width 32 gid -> G !! (fid, gid) = None ->
  algorithm db gid = Some (Some schd) -> 0 <= schd <= 2 -> members_of db gid = Some confs -> confs <> [] ->
  mem_node mem = Some (garbage, Cluster.mk 0 slots) -> mem_cluster mem = Some cluster_ ->
  length slots = CLUSTER_SIZE -> length cluster_ = CLUSTER_SIZE ->
  exists T1 T2 a' conf, al_group_load mem db fid gid T = (ok 0, T1)
    /\ al_member_lookup fid gid a T1 = (ok (0, a'), T2)
    /\ conf ∈ confs /\ a_mid a' = conf_mid conf /\ a_port a' = Chksum.bswap16 (conf_port conf).
Proof.
  intros HS Hf Hg HG Ha Hschd Hc Hne Hn Hm Hl1 Hl2. unfold al_group_load. rewrite Ha.
  destruct (load_new_group slots cluster_ confs Hl1 Hl2 Hne) as (c & El & Hs & Hfrom & x & Hx).
  rewrite Forall_forall in Hfrom.
  destruct (insert_sim fid gid Hf Hg mem db schd T G HS) as (T1 & E1 & HS1). exists T1.
  unfold insert_, al_group_load_member in E1, HS1. rewrite HG, Hn, Hc, Hm in E1, HS1. cbn [cnt Cluster.m] in E1, HS1.
  rewrite El in E1, HS1. cbn in E1, HS1.
  destruct (lookup_sim fid gid Hf Hg a T1 _ HS1) as (T2 & E2 & _). exists T2.
  unfold lookup_ in E2. rewrite lookup_insert_eq in E2. cbn [g_schd members_] in E2.
  destruct (schedule_some schd c a Hschd Hs) as (m & m0 & c' & Esch & Hm0 & Em & Ep).
  { exists x. split; [done|]. by destruct (Hfrom x Hx) as (? & _ & _ & _ & ?). }
  rewrite Esch in E2. cbn in E2. destruct (Hfrom m0 Hm0) as (conf & Hin & Hmid & Hport & _).
  eexists _, conf. split; [exact E1|]. split; [exact E2|]. destruct a. cbn. by rewrite Em, Ep.
Qed.
End Properties.

(** ** Witnesses *)
Section Witnesses.
Import Cluster ClusterFacts Member MemberFacts Table TableFacts Group GroupSpec GroupFacts.

Definition dirty_node : RbTree.node := RbTree.mk_node 77 5%nat 6%nat 7%nat true.
Definition sample_memory : memory :=
  mk_mem (Some (dirty_node, Cluster.mk 0 (repeat empty_member 8))) (Some (repeat empty_member 8)).
Definition sample_db : database := mk_db (fun _ => Some (Some 1)) (fun _ => Some [sample_conf 1; sample_conf 2]).
Definition sample_args : al_margs := mk_margs 0 (repeat 0 18) 0 0 0 0 [] 0 0.
Definition empty_groups : table al_group := (al_members_init 1%nat (mk (RbTree.mk ∅ 0%nat 0%nat) ∅)).2.
Definition session_requests : list request :=
  [Load sample_memory sample_db 1 1; Load sample_memory sample_db 1 2; Load sample_memory sample_db 1 1;
   Look 1 1 sample_args; Look 1 1 sample_args; Drop_ 1 1; Look 1 1 sample_args; Look 1 2 sample_args].

Lemma group_table_refines_witness :
  exists T1 T2, al_members_init 1%nat (mk (RbTree.mk ∅ 0%nat 0%nat) ∅) = (ok tt, T1)
    /\ serve_all serve session_requests T1 = ((serve_all serve_spec session_requests ∅).1, T2)
    /\ map fst <$> (match (serve_all serve_spec session_requests ∅).1 with inr l => Some l | inl _ => None end)
       = Some [0; 0; -1; 0; 0; 0; -1; 0].
Proof.
  destruct (group_table_refines 1%nat (mk (RbTree.mk ∅ 0%nat 0%nat) ∅) session_requests) as (T1 & T2 & E1 & E2 & _).
  - discriminate.
  - unfold session_requests, typed, in_width. repeat (constructor; [cbn; split; split; [discriminate|reflexivity|discriminate|reflexivity]|]).
    constructor.
  - exists T1, T2. split; [exact E1|]. split; [exact E2|]. vm_compute. reflexivity.
Defined.

Lemma loaded_group_serves_witness :
  exists T1 T2 a' conf, al_group_load sample_memory sample_db 3 4 empty_groups = (ok 0, T1)
    /\ al_member_lookup 3 4 sample_args T1 = (ok (0, a'), T2)
    /\ conf ∈ [sample_conf 1; sample_conf 2] /\ a_mid a' = conf_mid conf /\ a_port a' = Chksum.bswap16 (conf_port conf).
Proof.
  destruct (init_simulates 1%nat (mk (RbTree.mk ∅ 0%nat 0%nat) ∅)) as (T0 & E0 & HS); [discriminate|].
  assert (empty_groups = T0) as -> by (unfold empty_groups; by rewrite E0).
  apply (loaded_group_serves T0 ∅ sample_db sample_memory dirty_node (repeat empty_member 8) (repeat empty_member 8) 3 4 1
    [sample_conf 1; sample_conf 2] sample_args HS); try reflexivity; try discriminate; split; reflexivity || discriminate.
Defined.
End Witnesses.
