(* ===== verification/Radix.v ===== *)
(** * The radix tree of prefixes

    Models [alpha/al_radix.c] and [alpha/al_radix.h] with their pointers: the tree
    of keys, the tree of masks beside it, chains of leaves with one key and the
    lists of masks on inner nodes. Keys are byte strings whose first byte is
    their length. A node is a leaf or an inner node as the union says; a read
    of the other part is undefined here, as is a read behind the bytes of a
    key. Loops take the number of nodes as fuel. *)

From Stdlib Require Import ZArith Lia Bool.
From stdpp Require Import base tactics option gmap list.
From S2P Require Import Prelude.

Open Scope Z_scope.

Module Radix.
Definition ptr := nat.
Definition NULL : ptr := 0%nat.

Definition RNF_NORMAL : Z := 1.
Definition RNF_ROOT : Z := 2.
Definition RNF_ACTIVE : Z := 4.
Definition RADIX_MAX_KEY_LEN : nat := 32.

(** The union [rn_u]. *)
Inductive payload :=
| Leaf_ (rn_Key rn_Mask rn_Dupedkey : ptr)
| Inner_ (rn_Off : nat) (rn_L rn_R : ptr).

Record radix_node := mk_node {
  rn_mklist : ptr; rn_parent : ptr; rn_bit : Z; rn_bmask : Z; rn_flags : Z; rn_u : payload }.

(** The union of [rm_mask] and [rm_leaf] is one pointer. *)
Record radix_mask := mk_mask { rm_bit : Z; rm_flags : Z; rm_mklist : ptr; rm_rmu : ptr; rm_refs : Z }.

(** Memory: nodes, masks, the bytes keys point at, the first free address, and
    what the next allocations do. *)
Record state := mk {
  nodes : gmap ptr radix_node; masks : gmap ptr radix_mask; bytes : gmap ptr (list Z); brk : ptr; oom : list bool }.

(** [radix_head] with the [radix_mask_head] it points to. *)
Record radix_head := mk_head { rnh_treetop : ptr; mask_nodes : ptr; mask_treetop : ptr }.

Definition rn_zeros : ptr := 1%nat.
Definition rn_ones : ptr := 2%nat.
(** The memory of a program that has not allocated. *)
Definition start (oom : list bool) : state :=
  mk ∅ ∅ {[rn_zeros := repeat 0 RADIX_MAX_KEY_LEN; rn_ones := repeat 255 RADIX_MAX_KEY_LEN]} 3%nat oom.

(** *** Memory accesses *)
Definition the {S A} (o : option A) : st S A := fun s => (match o with Some a => ok a | None => err Undef end, s).
Definition deref (p : ptr) : st state radix_node := do s <- st_get ;; the (nodes s !! p).
Definition update (p : ptr) (f : radix_node -> radix_node) : st state unit :=
  do x <- deref p ;; st_modify (fun s => s <| nodes := <[p := f x]> (nodes s) |>).
Definition get {A} (field : radix_node -> A) (p : ptr) : st state A := do x <- deref p ;; st_ret (field x).

Definition get_leaf (p : ptr) : st state (ptr * ptr * ptr) :=
  do x <- deref p ;; match rn_u x with Leaf_ k m d => st_ret (k, m, d) | Inner_ _ _ _ => st_throw Undef end.
Definition get_inner (p : ptr) : st state (nat * ptr * ptr) :=
  do x <- deref p ;; match rn_u x with Inner_ o l r => st_ret (o, l, r) | Leaf_ _ _ _ => st_throw Undef end.
Definition rn_key (p : ptr) : st state ptr := do (k, _, _) <- get_leaf p ;; st_ret k.
Definition rn_mask (p : ptr) : st state ptr := do (_, m, _) <- get_leaf p ;; st_ret m.
Definition rn_dupedkey (p : ptr) : st state ptr := do (_, _, d) <- get_leaf p ;; st_ret d.
Definition rn_offset (p : ptr) : st state nat := do (o, _, _) <- get_inner p ;; st_ret o.
Definition rn_left (p : ptr) : st state ptr := do (_, l, _) <- get_inner p ;; st_ret l.
Definition rn_right (p : ptr) : st state ptr := do (_, _, r) <- get_inner p ;; st_ret r.

Definition set_u (p : ptr) (u : payload) : st state unit := update p (fun x => x <| rn_u := u |>).
Definition set_key (p v : ptr) : st state unit := do (_, m, d) <- get_leaf p ;; set_u p (Leaf_ v m d).
Definition set_mask (p v : ptr) : st state unit := do (k, _, d) <- get_leaf p ;; set_u p (Leaf_ k v d).
Definition set_dupedkey (p v : ptr) : st state unit := do (k, m, _) <- get_leaf p ;; set_u p (Leaf_ k m v).
Definition set_left (p v : ptr) : st state unit := do (o, _, r) <- get_inner p ;; set_u p (Inner_ o v r).
Definition set_right (p v : ptr) : st state unit := do (o, l, _) <- get_inner p ;; set_u p (Inner_ o l v).
Definition set_offset (p : ptr) (v : nat) : st state unit := do (_, l, r) <- get_inner p ;; set_u p (Inner_ v l r).
Definition set_parent (p v : ptr) : st state unit := update p (fun x => x <| rn_parent := v |>).
Definition set_bit (p : ptr) (v : Z) : st state unit := update p (fun x => x <| rn_bit := v |>).
Definition set_bmask (p : ptr) (v : Z) : st state unit := update p (fun x => x <| rn_bmask := v |>).
Definition set_flags (p : ptr) (v : Z) : st state unit := update p (fun x => x <| rn_flags := v |>).
Definition set_mklist (p v : ptr) : st state unit := update p (fun x => x <| rn_mklist := v |>).

Definition deref_mask (m : ptr) : st state radix_mask := do s <- st_get ;; the (masks s !! m).
Definition update_mask (m : ptr) (f : radix_mask -> radix_mask) : st state unit :=
  do x <- deref_mask m ;; st_modify (fun s => s <| masks := <[m := f x]> (masks s) |>).

(** The bytes a key points at, and one of them. *)
Definition load (k : ptr) : st state (list Z) := do s <- st_get ;; the (bytes s !! k).
Definition at_ (v : list Z) (i : nat) : st state Z := the (v !! i).

(** A [struct radix_mask **]: the list field of a node or of a mask. *)
Inductive place := OfNode (p : ptr) | OfMask (m : ptr).
Definition get_place (l : place) : st state ptr :=
  match l with OfNode p => get rn_mklist p | OfMask m => do x <- deref_mask m ;; st_ret (rm_mklist x) end.
Definition set_place (l : place) (v : ptr) : st state unit :=
  match l with OfNode p => set_mklist p v | OfMask m => update_mask m (fun x => x <| rm_mklist := v |>) end.

(** [al_malloc] and [al_calloc]: [n] addresses, unless the allocation fails. *)
Definition alloc (n : nat) : st state (option ptr) := fun s =>
  match oom s with
  | true :: o => (ok None, s <| oom := o |>)
  | o => (ok (Some (brk s)), s <| brk := (brk s + n)%nat |> <| oom := tail o |>)
  end.

Definition when (b : bool) (c : st state unit) : st state unit := if b then c else st_ret tt.
Definition has (flag flags : Z) : bool := negb (Z.land flag flags =? 0).
Definition fuel : st state nat := do s <- st_get ;; st_ret (S (size (nodes s))).
Definition mask_fuel : st state nat := do s <- st_get ;; st_ret (S (size (masks s))).

(** *** Searching *)
Fixpoint search_loop (fuel : nat) (v : list Z) (x : ptr) : st state ptr :=
  match fuel with
  | O => st_throw Undef
  | S fuel =>
      do n <- deref x ;;
      if rn_bit n <? 0 then st_ret x else
      do (o, l, r) <- get_inner x ;;
      do c <- at_ v o ;;
      search_loop fuel v (if has (rn_bmask n) c then r else l)
  end.
Definition rn_search (v : list Z) (head : ptr) : st state ptr := do f <- fuel ;; search_loop f v head.

Fixpoint search_m_loop (fuel : nat) (v m : list Z) (x : ptr) : st state ptr :=
  match fuel with
  | O => st_throw Undef
  | S fuel =>
      do n <- deref x ;;
      if rn_bit n <? 0 then st_ret x else
      do (o, l, r) <- get_inner x ;;
      do d <- at_ m o ;;
      if has (rn_bmask n) d
      then do c <- at_ v o ;; search_m_loop fuel v m (if has (rn_bmask n) c then r else l)
      else search_m_loop fuel v m l
  end.
Definition rn_search_m (v : list Z) (head : ptr) (m : list Z) : st state ptr := do f <- fuel ;; search_m_loop f v m head.

(** The first byte from [i] on, of [n], in which the two differ. *)
Fixpoint first_diff (n i : nat) (v k : list Z) : st state (option nat) :=
  match n with
  | O => st_ret None
  | S n =>
      do c <- at_ v i ;; do c2 <- at_ k i ;;
      if c =? c2 then first_diff n (S i) v k else st_ret (Some i)
  end.

(** The bytes from [i] on agree under the mask. *)
Fixpoint satisfies (n i : nat) (v k m : list Z) : st state bool :=
  match n with
  | O => st_ret true
  | S n =>
      do c <- at_ v i ;; do c2 <- at_ k i ;; do c3 <- at_ m i ;;
      if negb (Z.land (Z.lxor c c2) c3 =? 0) then st_ret false else satisfies n (S i) v k m
  end.

Definition rn_satisfies_leaf (trial : list Z) (leaf : ptr) (skip : nat) : st state bool :=
  do (key_, mask_, _) <- get_leaf leaf ;;
  do cp2 <- load key_ ;;
  do l1 <- at_ trial 0 ;; do l2 <- at_ cp2 0 ;;
  let length := Z.min l1 l2 in
  if (mask_ =? NULL)%nat
  then do cp3 <- load rn_ones ;; satisfies (Z.to_nat length - skip) skip trial cp2 cp3
  else do cp3 <- load mask_ ;; do l3 <- at_ cp3 0 ;;
       satisfies (Z.to_nat (Z.min length l3) - skip) skip trial cp2 cp3.

(** The chain of leaves with the key the search ended at. *)
Fixpoint match_chain (fuel : nat) (v : list Z) (matched_off : nat) (bit : Z) (t : ptr) : st state (option ptr) :=
  match fuel with
  | O => st_throw Undef
  | S fuel =>
      if (t =? NULL)%nat then st_ret None else
      do n <- deref t ;;
      if has RNF_NORMAL (rn_flags n) then
        if bit <=? rn_bit n then st_ret (Some t)
        else do t <- rn_dupedkey t ;; match_chain fuel v matched_off bit t
      else
        do s <- rn_satisfies_leaf v t matched_off ;;
        if s : bool then st_ret (Some t)
        else do t <- rn_dupedkey t ;; match_chain fuel v matched_off bit t
  end.

(** [while (x && x->rn_mask != mask) x = x->rn_dupedkey;] *)
Fixpoint with_mask (fuel : nat) (mask_ x : ptr) : st state ptr :=
  match fuel with
  | O => st_throw Undef
  | S fuel =>
      if (x =? NULL)%nat then st_ret NULL else
      do m <- rn_mask x ;;
      if (m =? mask_)%nat then st_ret x else do x <- rn_dupedkey x ;; with_mask fuel mask_ x
  end.

(** The list of masks of the node [t]. *)
Fixpoint match_masks (fuel : nat) (v : list Z) (matched_off : nat) (bit : Z) (t m : ptr) : st state (option ptr) :=
  match fuel with
  | O => st_throw Undef
  | S fuel =>
      if (m =? NULL)%nat then st_ret None else
      do n <- deref_mask m ;;
      if has RNF_NORMAL (rm_flags n) then
        if bit <=? rm_bit n then st_ret (Some (rm_rmu n)) else match_masks fuel v matched_off bit t (rm_mklist n)
      else
        do o <- rn_offset t ;;
        let off := Nat.min o matched_off in
        do mb <- load (rm_rmu n) ;;
        do x <- rn_search_m v t mb ;;
        do f <- Radix.fuel ;;
        do x <- with_mask f (rm_rmu n) x ;;
        do s <- (if (x =? NULL)%nat then st_ret false else rn_satisfies_leaf v x off) ;;
        if s : bool then st_ret (Some x) else match_masks fuel v matched_off bit t (rm_mklist n)
  end.

(** [do { t = t->rn_parent; ... } while (t != top);] *)
Fixpoint match_up (fuel : nat) (v : list Z) (matched_off : nat) (bit : Z) (top t : ptr) : st state ptr :=
  match fuel with
  | O => st_throw Undef
  | S fuel =>
      do t <- get rn_parent t ;;
      do m <- get rn_mklist t ;;
      do f <- mask_fuel ;;
      do r <- match_masks f v matched_off bit t m ;;
      match r with
      | Some x => st_ret x
      | None => if (t =? top)%nat then st_ret NULL else match_up fuel v matched_off bit top t
      end
  end.

(** The first bit of the byte at [i] in which the two differ, counted from the start of the key. *)
Definition diff_bit (i : nat) (c c2 : Z) : Z := 7 - Z.log2 (Z.land (Z.lxor c c2) 255) + Z.shiftl (Z.of_nat i) 3.

Definition rn_match (v : list Z) (head : radix_head) : st state ptr :=
  let top := rnh_treetop head in
  do off <- rn_offset top ;;
  do vlen <- at_ v 0 ;;
  do t <- rn_search v top ;;
  do (key_, mask_, dup) <- get_leaf t ;;
  do vlen <- (if (mask_ =? NULL)%nat then st_ret vlen else do mb <- load mask_ ;; at_ mb 0) ;;
  do k <- load key_ ;;
  do d <- first_diff (Z.to_nat vlen - off) off v k ;;
  match d with
  | None =>
      do fl <- get rn_flags t ;;
      if has fl RNF_ROOT then st_ret dup else st_ret t
  | Some matched_off =>
      do c <- at_ v matched_off ;; do c2 <- at_ k matched_off ;;
      let bit := -1 - diff_bit matched_off c c2 in
      do f <- fuel ;;
      do r <- match_chain f v matched_off bit (if (mask_ =? NULL)%nat then dup else t) ;;
      match r with
      | Some x => st_ret x
      | None => match_up f v matched_off bit top t
      end
  end.

(** *** Insertion *)

(** [t = tt + 1] gets the bit to test, with [tt] at its left. *)
Definition rn_newpair (v : ptr) (b : Z) (tt_ : ptr) : st state ptr :=
  let t := S tt_ in
  do _ <- set_bit t b ;;
  do _ <- set_bmask t (Z.shiftr 128 (Z.land b 7)) ;;
  do _ <- set_left t tt_ ;;
  do _ <- set_offset t (Z.to_nat (Z.shiftr b 3)) ;;
  do _ <- set_bit tt_ (-1) ;;
  do _ <- set_key tt_ v ;;
  do _ <- set_parent tt_ t ;;
  do _ <- set_flags t RNF_ACTIVE ;;
  do _ <- set_flags tt_ RNF_ACTIVE ;;
  do _ <- set_mklist t NULL ;;
  do _ <- set_mklist tt_ NULL ;;
  st_ret t.

(** The child of [x] on the key's side. *)
Definition child (v : list Z) (x : ptr) : st state ptr :=
  do n <- deref x ;; do (o, l, r) <- get_inner x ;; do c <- at_ v o ;; st_ret (if has c (rn_bmask n) then r else l).

(** [do { p = x; x = child; } while (b > (unsigned) x->rn_bit);] *)
Fixpoint insert_point (fuel : nat) (v : list Z) (b : Z) (x : ptr) : st state (ptr * ptr) :=
  match fuel with
  | O => st_throw Undef
  | S fuel =>
      do y <- child v x ;;
      do yb <- get rn_bit y ;;
      if u32 yb <? b then insert_point fuel v b y else st_ret (x, y)
  end.

(** The result says whether the key was there. *)
Definition rn_insert (v_arg : ptr) (top : ptr) (nodes_ : ptr) : st state (bool * ptr) :=
  do v <- load v_arg ;;
  do head_off <- rn_offset top ;;
  do vlen <- at_ v 0 ;;
  do t <- rn_search v top ;;
  do key_ <- rn_key t ;;
  do k <- load key_ ;;
  do d <- first_diff (Z.to_nat vlen - head_off) head_off v k ;;
  match d with
  | None => st_ret (true, t)
  | Some i =>
      do c <- at_ v i ;; do c2 <- at_ k i ;;
      let b := diff_bit i c c2 in
      do f <- fuel ;;
      do (p, x) <- insert_point f v b top ;;
      do t <- rn_newpair v_arg b nodes_ ;;
      do tt_ <- rn_left t ;;
      do pn <- deref p ;; do po <- rn_offset p ;; do c <- at_ v po ;;
      do _ <- (if has c (rn_bmask pn) then set_right p t else set_left p t) ;;
      do _ <- set_parent x t ;;
      do _ <- set_parent t p ;;
      do tn <- deref t ;; do to <- rn_offset t ;; do c <- at_ v to ;;
      do _ <- (if has c (rn_bmask tn) then do _ <- set_right t tt_ ;; set_left t x else set_right t x) ;;
      st_ret (false, tt_)
  end.

(** *** Masks *)

(** [bcmp] over the first [n] bytes, as an equality test. *)
Definition same_bytes (n i : nat) (v k : list Z) : st state bool :=
  do d <- first_diff n i v k ;; st_ret (match d with None => true | Some _ => false end).

(** The length without the zeroes at the end. *)
Fixpoint trimmed (mlen : nat) (key_ : list Z) : nat :=
  match mlen with
  | O => O
  | S n => if nth n key_ 0 =? 0 then trimmed n key_ else mlen
  end.

(** [CONTIG] *)
Definition CONTIG (c : Z) : bool := Z.land (- c) c =? u8 (- c).

(** The first byte from [i] on that is not all ones, below [n]. *)
Fixpoint skip_ones (n i : nat) (key_ : list Z) : nat :=
  match n with
  | O => i
  | S n => if nth i key_ 0 =? 255 then skip_ones n (S i) key_ else i
  end.
(** [for (j = 0x80; (j & *cp) != 0; j >>= 1) b++;] *)
Fixpoint leading_ones (n : nat) (j c : Z) : Z :=
  match n with
  | O => 0
  | S n => if negb (Z.land j c =? 0) then 1 + leading_ones n (Z.shiftr j 1) c else 0
  end.

(** The number of the mask's bits, and whether they are contiguous. *)
Definition mask_index (key_ : list Z) (mlen skip : nat) : Z * bool :=
  let cp := skip_ones (mlen - skip) skip key_ in
  if (cp =? mlen)%nat then (Z.shiftl (Z.of_nat cp) 3, true) else
  let c := nth cp key_ 0 in
  (leading_ones 8 128 c + Z.shiftl (Z.of_nat cp) 3, CONTIG c && (cp =? mlen - 1)%nat).

Definition zero_leaf : radix_node := mk_node NULL NULL 0 0 0 (Leaf_ NULL NULL NULL).
Definition zero_inner : radix_node := mk_node NULL NULL 0 0 0 (Inner_ 0 NULL NULL).
(** Zeroed memory for [struct radix_node nodes[2]]. *)
Definition put_pair (p : ptr) : st state unit :=
  st_modify (fun s => s <| nodes := <[p := zero_leaf]> (<[S p := zero_inner]> (nodes s)) |>).
Definition put_bytes (p : ptr) (v : list Z) : st state unit := st_modify (fun s => s <| bytes := <[p := v]> (bytes s) |>).

Definition rn_addmask (netmask : list Z) (head : radix_head) (search : bool) (skip : nat) : st state ptr :=
  do len <- at_ netmask 0 ;;
  let mlen := Nat.min (Z.to_nat len) RADIX_MAX_KEY_LEN in
  let skip := if (skip =? 0)%nat then 1%nat else skip in
  if (mlen <=? skip)%nat then st_ret (mask_nodes head) else
  do _ <- at_ netmask (mlen - 1) ;;
  let addmask_key := [0] ++ repeat 255 (skip - 1) ++ take (mlen - skip) (drop skip netmask)
                     ++ repeat 0 (RADIX_MAX_KEY_LEN - mlen) in
  let mlen := trimmed mlen addmask_key in
  if (mlen <=? skip)%nat then st_ret (mask_nodes head) else
  let addmask_key := <[0%nat := Z.of_nat mlen]> addmask_key in
  do x <- rn_search addmask_key (mask_treetop head) ;;
  do xk <- rn_key x ;; do xb <- load xk ;;
  do same <- same_bytes mlen 0 addmask_key xb ;;
  if same : bool then st_ret x else
  if search : bool then st_ret NULL else
  do m <- alloc 3 ;;
  match m with
  | None => st_ret NULL
  | Some x =>
      let cp := S (S x) in
      do _ <- put_pair x ;;
      do _ <- put_bytes cp (take mlen addmask_key ++ repeat 0 (RADIX_MAX_KEY_LEN - mlen)) ;;
      do (maskduplicated, x) <- rn_insert cp (mask_treetop head) x ;;
      if maskduplicated : bool then st_ret x else
      let '(b, isnormal) := mask_index addmask_key mlen skip in
      do _ <- set_bit x (-1 - b) ;;
      do fl <- get rn_flags x ;;
      do _ <- when isnormal (set_flags x (Z.lor fl RNF_NORMAL)) ;;
      st_ret x
  end.

(** [rn_refines]: the mask [m] is a proper refinement of [n]. *)
Fixpoint refines_common (n i : nat) (m_ n_ : list Z) (equal : bool) : st state (option bool) :=
  match n with
  | O => st_ret (Some equal)
  | S n =>
      do a <- at_ n_ i ;; do b <- at_ m_ i ;;
      if negb (Z.land a (Z.lnot b) =? 0) then st_ret None
      else refines_common n (S i) m_ n_ (equal && (a =? b))
  end.
(** Some byte of [n], from [i] on, is not zero. *)
Fixpoint any_set (n i : nat) (v : list Z) : st state bool :=
  match n with
  | O => st_ret false
  | S n => do a <- at_ v i ;; if negb (a =? 0) then st_ret true else any_set n (S i) v
  end.

Definition rn_refines (m_ n_ : list Z) : st state bool :=
  do ln <- at_ n_ 0 ;; do lm <- at_ m_ 0 ;;
  let longer := ln - lm in
  let lim2 := Z.to_nat ln in
  let lim := if 0 <? longer then Z.to_nat lm else lim2 in
  do r <- refines_common (lim - 1) 1 m_ n_ true ;;
  match r with
  | None => st_ret false
  | Some equal =>
      do more <- any_set (lim2 - Nat.max 1 lim) (Nat.max 1 lim) n_ ;;
      if more : bool then st_ret false else
      do rest <- (if equal && (longer <? 0) then any_set (Z.to_nat (- longer)) (Nat.max 1 lim) m_ else st_ret false) ;;
      if rest : bool then st_ret true else st_ret (negb equal)
  end.

(** Some byte of the first is greater, among the first [n]. *)
Fixpoint any_greater (n i : nat) (m_ n_ : list Z) : st state bool :=
  match n with
  | O => st_ret false
  | S n => do a <- at_ m_ i ;; do b <- at_ n_ i ;; if b <? a then st_ret true else any_greater n (S i) m_ n_
  end.

Definition rn_lexobetter (m_ n_ : list Z) : st state bool :=
  do lm <- at_ m_ 0 ;; do ln <- at_ n_ 0 ;;
  if ln <? lm then st_ret true else
  if lm =? ln then any_greater (Z.to_nat lm) 0 m_ n_ else st_ret false.

Definition rn_new_radix_mask (tt_ next : ptr) : st state ptr :=
  do a <- alloc 1 ;;
  match a with
  | None => st_ret NULL
  | Some m =>
      do n <- deref tt_ ;;
      do rmu <- (if has (rn_flags n) RNF_NORMAL then st_ret tt_ else rn_mask tt_) ;;
      do _ <- st_modify (fun s => s <| masks := <[m := mk_mask (rn_bit n) (rn_flags n) next rmu 0]> (masks s) |>) ;;
      do _ <- set_mklist tt_ m ;;
      st_ret m
  end.

(** *** Routes *)

(** Where the new leaf goes in the chain of its key: [None] when the mask is
    there already, else the last two values of [t] and [tt]. *)
Fixpoint dup_place (fuel : nat) (netmask : ptr) (b_leaf : Z) (t tt_ : ptr) : st state (option (ptr * ptr)) :=
  match fuel with
  | O => st_throw Undef
  | S fuel =>
      if (tt_ =? NULL)%nat then st_ret (Some (t, tt_)) else
      do mask_ <- rn_mask tt_ ;;
      if (mask_ =? netmask)%nat then st_ret None else
      do stop <- (if (netmask =? NULL)%nat then st_ret true
                  else if (mask_ =? NULL)%nat then st_ret false
                  else do tb <- get rn_bit tt_ ;;
                       if b_leaf <? tb then st_ret true else
                       do nb <- load netmask ;; do mb <- load mask_ ;;
                       do r <- rn_refines nb mb ;;
                       if r : bool then st_ret true else rn_lexobetter nb mb) ;;
      if stop : bool then st_ret (Some (t, tt_))
      else do d <- rn_dupedkey tt_ ;; dup_place fuel netmask b_leaf tt_ d
  end.

(** The new leaf joins the chain; the result is the head of the chain. *)
Definition dup_link (v saved_tt t tt_ new : ptr) : st state ptr :=
  do head_ <-
    (if (tt_ =? saved_tt)%nat then
      do _ <- set_dupedkey new t ;;
      do fl <- get rn_flags t ;; do _ <- set_flags new fl ;;
      do x <- get rn_parent t ;; do _ <- set_parent new x ;;
      do _ <- set_parent t new ;;
      do l <- rn_left x ;;
      do _ <- (if (l =? t)%nat then set_left x new else set_right x new) ;;
      st_ret new
    else
      do d <- rn_dupedkey t ;; do _ <- set_dupedkey new d ;;
      do _ <- set_dupedkey t new ;;
      do _ <- set_parent new t ;;
      do _ <- when (negb (d =? NULL)%nat) (set_parent d new) ;;
      st_ret saved_tt) ;;
  do _ <- set_key new v ;;
  do _ <- set_bit new (-1) ;;
  do _ <- set_flags new RNF_ACTIVE ;;
  st_ret head_.

(** [for (mp = &t->rn_mklist; x; x = x->rn_dupedkey)]: the masks of a chain of leaves. *)
Fixpoint promote_leaves (fuel : nat) (b_leaf : Z) (mp : place) (x : ptr) : st state unit :=
  match fuel with
  | O => st_throw Undef
  | S fuel =>
      if (x =? NULL)%nat then st_ret tt else
      do n <- deref x ;; do (_, mask_, d) <- get_leaf x ;;
      if negb (mask_ =? NULL)%nat && (b_leaf <=? rn_bit n) && (rn_mklist n =? NULL)%nat then
        do m <- rn_new_radix_mask x NULL ;;
        do _ <- set_place mp m ;;
        promote_leaves fuel b_leaf (if (m =? NULL)%nat then mp else OfMask m) d
      else promote_leaves fuel b_leaf mp d
  end.

(** The place behind the masks whose bit is below [b_leaf], and the mask there. *)
Fixpoint skip_masks (fuel : nat) (b_leaf : Z) (mp : place) : st state (place * ptr) :=
  match fuel with
  | O => st_throw Undef
  | S fuel =>
      do m <- get_place mp ;;
      if (m =? NULL)%nat then st_ret (mp, m) else
      do n <- deref_mask m ;;
      if b_leaf <=? rm_bit n then st_ret (mp, m) else skip_masks fuel b_leaf (OfMask m)
  end.

(** "Promote general routes from below": [t] is the new inner node. *)
Definition promote (t saved_tt : ptr) : st state unit :=
  do tb <- get rn_bit t ;;
  let b_leaf := -1 - tb in
  do (_, l, r) <- get_inner t ;;
  let x := if (r =? saved_tt)%nat then l else r in
  do n <- deref x ;;
  if rn_bit n <? 0 then do f <- fuel ;; promote_leaves f b_leaf (OfNode t) x
  else when (negb (rn_mklist n =? NULL)%nat)
    (do f <- mask_fuel ;;
     do (mp, m) <- skip_masks f b_leaf (OfNode x) ;;
     do _ <- set_mklist t m ;; set_place mp NULL).

(** [do { x = t; t = t->rn_parent; } while (b <= t->rn_bit && x != top);] *)
Fixpoint lift_to (fuel : nat) (b : Z) (top t : ptr) : st state ptr :=
  match fuel with
  | O => st_throw Undef
  | S fuel =>
      do t' <- get rn_parent t ;;
      do tb <- get rn_bit t' ;;
      if (b <=? tb) && negb (t =? top)%nat then lift_to fuel b top t' else st_ret t
  end.

(** Where the mask of [tt] goes in a list: [None] when it needs no entry of its own. *)
Fixpoint mask_place (fuel : nat) (netmask : ptr) (tt_ : ptr) (mp : place) : st state (option place) :=
  match fuel with
  | O => st_throw Undef
  | S fuel =>
      do m <- get_place mp ;;
      if (m =? NULL)%nat then st_ret (Some mp) else
      do n <- deref_mask m ;;
      do b_leaf <- get rn_bit tt_ ;;
      if rm_bit n <? b_leaf then mask_place fuel netmask tt_ (OfMask m) else
      if b_leaf <? rm_bit n then st_ret (Some mp) else
      do fl <- get rn_flags tt_ ;;
      if has (rm_flags n) RNF_NORMAL && has fl RNF_NORMAL then st_ret None else
      do mmask <- (if has (rm_flags n) RNF_NORMAL then rn_mask (rm_rmu n) else st_ret (rm_rmu n)) ;;
      if (mmask =? netmask)%nat then
        do _ <- update_mask m (fun x => x <| rm_refs := rm_refs n + 1 |>) ;;
        do _ <- set_mklist tt_ m ;; st_ret None
      else
        do nb <- load netmask ;; do mb <- load mmask ;;
        do r <- rn_refines nb mb ;;
        do r <- (if r : bool then st_ret true else rn_lexobetter nb mb) ;;
        if r : bool then st_ret (Some mp) else mask_place fuel netmask tt_ (OfMask m)
  end.

(** "Add new route to highest possible ancestor's list" *)
Definition lift (netmask : ptr) (b : Z) (top t tt_ : ptr) : st state unit :=
  do tb <- get rn_bit t ;;
  if (netmask =? NULL)%nat || (tb <? b) then st_ret tt else
  do f <- fuel ;;
  do x <- lift_to f b top t ;;
  do f <- mask_fuel ;;
  do mp <- mask_place f netmask tt_ (OfNode x) ;;
  match mp with
  | None => st_ret tt
  | Some mp => do next <- get_place mp ;; do m <- rn_new_radix_mask tt_ next ;; set_place mp m
  end.

(** [v] points at the key, [n_arg] are the bytes of the mask, if there is one. *)
Definition rn_addroute (v : ptr) (n_arg : option (list Z)) (head : radix_head) (treenodes : ptr) : st state ptr :=
  let top := rnh_treetop head in
  do off <- rn_offset top ;;
  do x <- (match n_arg with None => st_ret NULL | Some n => rn_addmask n head false off end) ;;
  match n_arg, x with
  | Some _, O => st_ret NULL
  | _, _ =>
      do (netmask, xb, xf) <-
        (if (x =? NULL)%nat then st_ret (NULL, 0, 0)
         else do k <- rn_key x ;; do n <- deref x ;; st_ret (k, rn_bit n, rn_flags n)) ;;
      let b_leaf := xb in
      let b := if (x =? NULL)%nat then 0 else -1 - xb in
      do (keyduplicated, saved_tt) <- rn_insert v top treenodes ;;
      do place_ <-
        (if keyduplicated : bool then do f <- fuel ;; dup_place f netmask b_leaf saved_tt saved_tt
         else st_ret (Some (saved_tt, saved_tt))) ;;
      match place_ with
      | None => st_ret NULL
      | Some (t, tt_) =>
          do saved_tt <- (if keyduplicated : bool then dup_link v saved_tt t tt_ treenodes else st_ret saved_tt) ;;
          let tt_ := if keyduplicated : bool then treenodes else tt_ in
          do _ <- when (negb (netmask =? NULL)%nat)
            (do _ <- set_mask tt_ netmask ;;
             do _ <- set_bit tt_ xb ;;
             do fl <- get rn_flags tt_ ;;
             set_flags tt_ (Z.lor fl (Z.land xf RNF_NORMAL))) ;;
          do t <- get rn_parent saved_tt ;;
          do _ <- when (negb keyduplicated) (promote t saved_tt) ;;
          do _ <- lift netmask b top t tt_ ;;
          st_ret tt_
      end
  end.

(** *** Exact search *)
Definition rn_lookup (v : list Z) (m_arg : option (list Z)) (head : radix_head) : st state ptr :=
  match m_arg with
  | Some m =>
      do off <- rn_offset (rnh_treetop head) ;;
      do x <- rn_addmask m head true off ;;
      if (x =? NULL)%nat then st_ret NULL else
      do netmask <- rn_key x ;;
      do x <- rn_match v head ;;
      do f <- fuel ;;
      with_mask f netmask x
  | None =>
      do x <- rn_match v head ;;
      if (x =? NULL)%nat then st_ret NULL else
      do (key_, mask_, _) <- get_leaf x ;;
      do k <- load key_ ;; do lk <- at_ k 0 ;; do lv <- at_ v 0 ;;
      if negb (lk =? lv) then st_ret NULL else
      do same <- same_bytes (Z.to_nat lv) 0 k v ;;
      if negb same then st_ret NULL else
      if negb (mask_ =? NULL)%nat then st_ret NULL else st_ret x
  end.

(** *** Deletion *)

(** The entry [saved_m] of the list at [mp] is unlinked; whether it was found. *)
Fixpoint unlink_mask (fuel : nat) (saved_m : ptr) (mp : place) : st state bool :=
  match fuel with
  | O => st_throw Undef
  | S fuel =>
      do m <- get_place mp ;;
      if (m =? NULL)%nat then st_ret false else
      if (m =? saved_m)%nat then
        do n <- deref_mask m ;;
        do _ <- set_place mp (rm_mklist n) ;;
        do _ <- st_modify (fun s => s <| masks := delete m (masks s) |>) ;;
        st_ret true
      else unlink_mask fuel saved_m (OfMask m)
  end.

(** "Delete our route from mask lists": [false] when the deletion is given up. *)
Definition drop_annotation (top saved_tt tt_ : ptr) : st state bool :=
  do n <- deref tt_ ;; do mask_ <- rn_mask tt_ ;;
  let m := rn_mklist n in
  if (mask_ =? NULL)%nat || (m =? NULL)%nat then st_ret true else
  do mn <- deref_mask m ;;
  let normal := has (rn_flags n) RNF_NORMAL in
  let unlink :=
    let b := -1 - rn_bit n in
    do t <- get rn_parent saved_tt ;;
    do tb <- get rn_bit t ;;
    if tb <? b then st_ret true else
    do f <- fuel ;;
    do x <- lift_to f b top t ;;
    do f <- mask_fuel ;;
    do found <- unlink_mask f m (OfNode x) ;;
    st_ret (found || negb normal) in
  if normal then
    if negb (rm_rmu mn =? tt_)%nat || (0 <? rm_refs mn) then st_ret false else unlink
  else if negb (rm_rmu mn =? mask_)%nat then st_ret true
  else do _ <- update_mask m (fun x => x <| rm_refs := rm_refs mn - 1 |>) ;;
       if 0 <=? rm_refs mn - 1 then st_ret true else unlink.

(** [if (p->rn_left == t) p->rn_left = x; else p->rn_right = x;] *)
Definition relink (p t x : ptr) : st state unit :=
  do l <- rn_left p ;; if (l =? t)%nat then set_left p x else set_right p x.
(** The same with the right side asked first. *)
Definition relink_right (p t x : ptr) : st state unit :=
  do r <- rn_right p ;; if (r =? t)%nat then set_right p x else set_left p x.

(** The node in front of [tt] on the chain. *)
Fixpoint before (fuel : nat) (tt_ p : ptr) : st state ptr :=
  match fuel with
  | O => st_throw Undef
  | S fuel =>
      if (p =? NULL)%nat then st_ret NULL else
      do d <- rn_dupedkey p ;; if (d =? tt_)%nat then st_ret p else before fuel tt_ d
  end.

(** [*dst = *src]; the children follow. *)
Definition move_inner (dst src : ptr) : st state unit :=
  do n <- deref src ;; update dst (fun _ => n).
Definition adopt_children (t : ptr) : st state unit :=
  do l <- rn_left t ;; do _ <- set_parent l t ;;
  do r <- rn_right t ;; set_parent r t.

(** [tt] leaves a chain of several leaves; its inner node, if the tree uses it,
    moves to another of them. *)
Definition leave_chain (saved_tt tt_ dupedkey : ptr) : st state unit :=
  do x <-
    (if (tt_ =? saved_tt)%nat then
       let x := dupedkey in
       do t <- get rn_parent tt_ ;;
       do _ <- set_parent x t ;;
       do _ <- relink t tt_ x ;; st_ret x
     else
       do f <- fuel ;;
       do p <- before f tt_ saved_tt ;;
       do _ <- when (negb (p =? NULL)%nat)
         (do d <- rn_dupedkey tt_ ;;
          do _ <- set_dupedkey p d ;;
          when (negb (d =? NULL)%nat) (set_parent d p)) ;;
       st_ret saved_tt) ;;
  let t := S tt_ in
  do fl <- get rn_flags t ;;
  when (has fl RNF_ACTIVE)
    (let x := S x in
     do _ <- move_inner x t ;;
     do p <- get rn_parent t ;;
     do _ <- relink p t x ;;
     adopt_children x).

(** [for (mp = &x->rn_mklist; (m = *mp); ) mp = &m->rm_mklist;] *)
Fixpoint last_place (fuel : nat) (mp : place) : st state place :=
  match fuel with
  | O => st_throw Undef
  | S fuel => do m <- get_place mp ;; if (m =? NULL)%nat then st_ret mp else last_place fuel (OfMask m)
  end.

(** The masks of the sibling's leaves go back to them. *)
Fixpoint demote_leaves (fuel : nat) (m x : ptr) : st state unit :=
  match fuel with
  | O => st_throw Undef
  | S fuel =>
      if (m =? NULL)%nat || (x =? NULL)%nat then st_ret tt else
      do n <- deref x ;; do d <- rn_dupedkey x ;;
      if (m =? rn_mklist n)%nat then
        do mn <- deref_mask m ;;
        do _ <- set_mklist x NULL ;;
        do _ <- (if rm_refs mn - 1 <? 0 then st_modify (fun s => s <| masks := delete m (masks s) |>)
                 else update_mask m (fun y => y <| rm_refs := rm_refs mn - 1 |>)) ;;
        demote_leaves fuel (rm_mklist mn) d
      else demote_leaves fuel m d
  end.

(** The only leaf of its key goes, with the inner node [t] above it. *)
Definition leave_tree (tt_ : ptr) : st state unit :=
  do t <- get rn_parent tt_ ;;
  do (_, l, r) <- get_inner t ;;
  let x := if (l =? tt_)%nat then r else l in
  do p <- get rn_parent t ;;
  do _ <- relink_right p t x ;;
  do _ <- set_parent x p ;;
  do tm <- get rn_mklist t ;;
  do _ <- when (negb (tm =? NULL)%nat)
    (do xb <- get rn_bit x ;;
     if 0 <=? xb then do f <- mask_fuel ;; do mp <- last_place f (OfNode x) ;; set_place mp tm
     else do f <- fuel ;; demote_leaves f tm x) ;;
  let x := S tt_ in
  when (negb (t =? x)%nat)
    (do _ <- move_inner t x ;;
     do _ <- adopt_children t ;;
     do p <- get rn_parent x ;;
     relink p x t).

Definition rn_delete (v : list Z) (netmask_arg : option (list Z)) (head : radix_head) : st state ptr :=
  let top := rnh_treetop head in
  do saved_tt <- rn_search v top ;;
  do head_off <- rn_offset top ;;
  do vlen <- at_ v 0 ;;
  do key_ <- rn_key saved_tt ;; do k <- load key_ ;;
  do same <- same_bytes (Z.to_nat vlen - head_off) head_off v k ;;
  if negb same then st_ret NULL else
  do tt_ <-
    (match netmask_arg with
     | None => st_ret saved_tt
     | Some n =>
         do x <- rn_addmask n head true head_off ;;
         if (x =? NULL)%nat then st_ret NULL else
         do netmask <- rn_key x ;;
         do f <- fuel ;; with_mask f netmask saved_tt
     end) ;;
  if (tt_ =? NULL)%nat then st_ret NULL else
  do go <- drop_annotation top saved_tt tt_ ;;
  if negb go then st_ret NULL else
  do fl <- get rn_flags tt_ ;;
  if has fl RNF_ROOT then st_ret NULL else
  do dupedkey <- rn_dupedkey saved_tt ;;
  do _ <- (if negb (dupedkey =? NULL)%nat then leave_chain saved_tt tt_ dupedkey else leave_tree tt_) ;;
  do fl <- get rn_flags tt_ ;; do _ <- set_flags tt_ (Z.land fl (Z.lnot RNF_ACTIVE)) ;;
  do fl <- get rn_flags (S tt_) ;; do _ <- set_flags (S tt_) (Z.land fl (Z.lnot RNF_ACTIVE)) ;;
  st_ret tt_.

(** *** An empty tree *)

(** The nodes are [<left,root,right>] at [base], zeroed. *)
Definition rn_inithead_internal (base : ptr) (off : Z) : st state ptr :=
  do t <- rn_newpair rn_zeros off base ;;
  let ttt := S (S base) in
  do _ <- set_right t ttt ;;
  do _ <- set_parent t t ;;
  do tt_ <- rn_left t ;;
  do _ <- set_flags t (Z.lor RNF_ROOT RNF_ACTIVE) ;;
  do _ <- set_flags tt_ (Z.lor RNF_ROOT RNF_ACTIVE) ;;
  do _ <- set_bit tt_ (-1 - off) ;;
  do _ <- move_inner ttt tt_ ;;
  do _ <- set_key ttt rn_ones ;;
  st_ret t.

Definition put_triple (p : ptr) : st state unit :=
  do _ <- put_pair p ;; st_modify (fun s => s <| nodes := <[S (S p) := zero_leaf]> (nodes s) |>).

(** [al_route_head_init] on a head that is [NULL]. *)
Definition al_route_head_init (off : Z) : st state (option radix_head) :=
  do rnh <- alloc 3 ;;
  do rmh <- alloc 3 ;;
  match rnh, rmh with
  | Some rnh, Some rmh =>
      do _ <- put_triple rnh ;;
      do _ <- put_triple rmh ;;
      do t <- rn_inithead_internal rnh off ;;
      do mt <- rn_inithead_internal rmh 0 ;;
      st_ret (Some (mk_head t rmh mt))
  | _, _ => st_ret None
  end.
End Radix.
