(* ===== verification/RadixShape.v ===== *)
(** * Longest prefix match

    The radix tree of [alpha/al_radix.c] as a value: inner nodes that test a bit,
    leaves that are chains of routes with one key, and on inner nodes the
    routes that apply to a whole subtree. [wf] is the invariant the code keeps;
    the theorems here say that on such trees the code's way of searching, down
    by the key's bits, along the chain, and up over the lists, finds the
    longest prefix that matches. Bits before [off] are not looked at. *)

From Stdlib Require Import ZArith Lia Bool Sorted.
From stdpp Require Import base tactics option gmap list list_numbers.
From S2P Require Import Prelude Radix.

Open Scope Z_scope.

Module RadixShape.
Import Radix.

(** The [i]-th bit of a byte string, the first bit of a byte its highest. *)
Definition bit (v : list Z) (i : Z) : bool := Z.testbit (nth (Z.to_nat (i / 8)) v 0) (7 - i mod 8).

Definition agree (lo hi : Z) (v k : list Z) : Prop := forall i, lo <= i < hi -> bit v i = bit k i.

Lemma agree_sym lo hi v k : agree lo hi v k -> agree lo hi k v.
Proof. intros H i Hi. by rewrite H. Qed.
Lemma agree_trans lo hi v k w : agree lo hi v k -> agree lo hi k w -> agree lo hi v w.
Proof. intros H H' i Hi. by rewrite H, H'. Qed.
Lemma agree_sub lo hi lo' hi' v k : agree lo hi v k -> lo <= lo' -> hi' <= hi -> agree lo' hi' v k.
Proof. intros H Hl Hh i Hi. apply H. lia. Qed.

(** A leaf: its node, its key, its mask ([NULL] for a root leaf), [rn_bit], and
    whether the mask is normal. *)
Record leaf := mk_leaf { lp : ptr; lkp : ptr; lkey : list Z; lmp : ptr; lbit : Z; lnormal : bool }.
(** The length of the leaf's prefix. *)
Definition plen (x : leaf) : Z := -1 - lbit x.

Inductive tree :=
| Lf (c : list leaf)
| Nd (p : ptr) (b : Z) (ml : list (ptr * leaf)) (l r : tree).

Fixpoint leaves (t : tree) : list leaf :=
  match t with Lf c => c | Nd _ _ _ l r => leaves l ++ leaves r end.

(** The routes: all leaves but the roots. *)
Definition is_route (x : leaf) : Prop := lmp x <> NULL.
Definition routes (t : tree) : list leaf := filter is_route (leaves t).

(** Where a search for [v] ends, and the inner nodes above, from there up. *)
Fixpoint ending (v : list Z) (t : tree) : list leaf :=
  match t with Lf c => c | Nd _ b _ l r => ending v (if bit v b then r else l) end.
Fixpoint above (v : list Z) (t : tree) : list (ptr * list (ptr * leaf)) :=
  match t with Lf _ => [] | Nd p b ml l r => above v (if bit v b then r else l) ++ [(p, ml)] end.

(** The first entry of the lists above whose prefix ends before bit [B]. *)
Fixpoint climb (B : Z) (ps : list (ptr * list (ptr * leaf))) : option leaf :=
  match ps with
  | [] => None
  | (_, ml) :: ps =>
      match List.find (fun e => plen e.2 <=? B) ml with Some e => Some e.2 | None => climb B ps end
  end.

Lemma climb_app B ps k : climb B (ps ++ k) = match climb B ps with Some x => Some x | None => climb B k end.
Proof. induction ps as [|[q ml] ps IH]; simpl; [done|]. by destruct (List.find _ ml). Qed.

Section Wf.
Context (off L : Z).

Definition matches (v : list Z) (x : leaf) : Prop := agree off (plen x) v (lkey x).

(** A route of length in ([off], [8 * L]] with the bits behind its prefix cleared,
    or one of length zero. *)
Record route_ok (x : leaf) : Prop := {
  route_zero i : off <= i < 8 * L -> plen x <= i -> bit (lkey x) i = false;
  route_len : lnormal x = true /\ off < plen x <= 8 * L \/ lnormal x = false /\ plen x = 0 /\ lmp x = rn_zeros }.

Definition longer (x y : leaf) : Prop := plen y < plen x.

(** A chain: perhaps a root leaf first, then routes of decreasing length. *)
Definition chain_ok (c : list leaf) : Prop :=
  exists x rest, c = x :: rest /\ Forall is_route rest /\ StronglySorted longer (filter is_route c)
    /\ Forall route_ok (filter is_route c) /\ Forall (fun y => agree off (8 * L) (lkey x) (lkey y)) c.

(** [lo] is the bit the parent tests. *)
Fixpoint wf (lo : Z) (t : tree) : Prop :=
  match t with
  | Lf c => chain_ok c
  | Nd p b ml l r =>
      lo < b /\ off <= b < 8 * L
      /\ Forall (fun x => bit (lkey x) b = false) (leaves l) /\ Forall (fun x => bit (lkey x) b = true) (leaves r)
      /\ (forall x y, x ∈ leaves t -> y ∈ leaves t -> agree off b (lkey x) (lkey y))
      /\ StronglySorted longer ml.*2
      /\ (forall x, x ∈ ml.*2 <-> x ∈ routes t /\ lo < plen x <= b)
      /\ wf b l /\ wf b r
  end.

(** *** Basic facts *)
Lemma elem_of_routes t x : x ∈ routes t <-> is_route x /\ x ∈ leaves t.
Proof. unfold routes. by rewrite list_elem_of_filter. Qed.
Lemma routes_Nd p b ml l r : routes (Nd p b ml l r) = routes l ++ routes r.
Proof. unfold routes. simpl. apply filter_app. Qed.

Lemma ending_in v t x : x ∈ ending v t -> x ∈ leaves t.
Proof.
  induction t as [c|p b ml l IHl r IHr]; simpl; [done|]. rewrite elem_of_app. destruct (bit v b); auto.
Qed.

Lemma wf_route lo t x : wf lo t -> x ∈ routes t -> route_ok x.
Proof.
  revert lo. induction t as [c|p b ml l IHl r IHr]; intros lo Hw Hx.
  - destruct Hw as (y & rest & -> & _ & _ & Hr & _). rewrite Forall_forall in Hr. by apply Hr.
  - destruct Hw as (_ & _ & _ & _ & _ & _ & _ & Hl & Hr). rewrite routes_Nd, elem_of_app in Hx. destruct Hx; eauto.
Qed.

(** The ending of a well-formed tree is a chain. *)
Lemma wf_ending v lo t : wf lo t -> chain_ok (ending v t).
Proof.
  revert lo. induction t as [c|p b ml l IHl r IHr]; intros lo Hw; [exact Hw|].
  destruct Hw as (_ & _ & _ & _ & _ & _ & _ & Hl & Hr). simpl. destruct (bit v b); eauto.
Qed.

Lemma chain_key c x y : chain_ok c -> x ∈ c -> y ∈ c -> agree off (8 * L) (lkey x) (lkey y).
Proof.
  intros (z & rest & -> & _ & _ & _ & Hk) Hx Hy. rewrite Forall_forall in Hk.
  apply (agree_trans _ _ _ (lkey z)); [apply agree_sym|]; by apply Hk.
Qed.

(** *** A route on the other side of a node ends before the node's bit. *)
Lemma other_side v b x : off <= b < 8 * L -> route_ok x -> matches v x -> bit (lkey x) b <> bit v b ->
  plen x <= b /\ bit v b = true.
Proof.
  intros Hb Hx Hm Hne. destruct (Z.lt_ge_cases b (plen x)) as [Hlt|Hge].
  - exfalso. apply Hne. symmetry. apply Hm. lia.
  - split; [done|]. rewrite (route_zero x Hx b Hb Hge) in Hne. by destruct (bit v b).
Qed.

(** A matching route that does not end in the chain is shorter than each of the chain. *)
Lemma chain_longest v lo t : wf lo t -> forall x y, x ∈ routes t -> matches v x -> y ∈ ending v t -> is_route y ->
  x ∈ ending v t \/ plen x < plen y.
Proof.
  revert lo. induction t as [c|p b ml l IHl r IHr]; intros lo Hw x y Hx Hm Hy Hry.
  - left. simpl. by apply elem_of_routes in Hx as [_ Hx].
  - pose proof Hw as (_ & Hb & Hl0 & Hr1 & _ & _ & _ & Hl & Hr). rewrite Forall_forall in Hl0, Hr1.
    pose proof (wf_route _ _ _ Hw Hx) as Hxo.
    rewrite routes_Nd, elem_of_app in Hx. simpl in Hy |- *.
    destruct (bit v b) eqn:Ev; destruct Hx as [Hx|Hx]; eauto; right.
    + assert (bit (lkey x) b <> bit v b) as Hne by (apply elem_of_routes in Hx as [_ Hx]; by rewrite (Hl0 x Hx), Ev).
      destruct (other_side v b x Hb Hxo Hm Hne) as [Hle _].
      apply ending_in in Hy as Hy'. assert (route_ok y) as Hyo by (eapply (wf_route _ r); [exact Hr|by apply elem_of_routes]).
      destruct (Z.lt_ge_cases b (plen y)) as [Hlt|Hge]; [lia|].
      pose proof (route_zero y Hyo b Hb Hge) as Hz. by rewrite (Hr1 y Hy') in Hz.
    + assert (bit (lkey x) b <> bit v b) as Hne by (apply elem_of_routes in Hx as [_ Hx]; by rewrite (Hr1 x Hx), Ev).
      destruct (other_side v b x Hb Hxo Hm Hne). congruence.
Qed.

(** Lengths tell the routes of a chain apart. *)
Lemma sorted_unique c x y : StronglySorted longer c -> x ∈ c -> y ∈ c -> plen x = plen y -> x = y.
Proof.
  induction 1 as [|z l _ IH Hz]; intros Hx Hy Hp; [by apply not_elem_of_nil in Hx|].
  rewrite Forall_forall in Hz. unfold longer in Hz. apply elem_of_cons in Hx as [->|Hx], Hy as [->|Hy]; [done|..|auto].
  - specialize (Hz y Hy). lia.
  - specialize (Hz x Hx). lia.
Qed.

(** *** Going up *)
Lemma find_sorted B (ml : list (ptr * leaf)) : StronglySorted longer ml.*2 ->
  match List.find (fun e => plen e.2 <=? B) ml with
  | Some e => e.2 ∈ ml.*2 /\ plen e.2 <= B /\ forall y, y ∈ ml.*2 -> plen y <= B -> plen y <= plen e.2
  | None => forall y, y ∈ ml.*2 -> B < plen y
  end.
Proof.
  induction ml as [|[m x] ml IH]; simpl; intros Hs; [by intros y Hy%not_elem_of_nil|].
  apply StronglySorted_inv in Hs as [Hs Hx]. rewrite Forall_forall in Hx. specialize (IH Hs).
  destruct (Z.leb_spec (plen x) B) as [Hle|Hgt].
  - split_and!; [by left|done|]. intros y [->|Hy]%elem_of_cons _; [done|]. specialize (Hx y Hy). unfold longer in Hx. simpl. lia.
  - destruct (List.find _ ml) as [e|].
    + destruct IH as (H1 & H2 & H3). split_and!; [by right|done|]. intros y [->|Hy]%elem_of_cons Hy'; [lia|auto].
    + intros y [->|Hy]%elem_of_cons; [done|auto].
Qed.

(** [B] is the first bit in which [v] differs from the key the search ended at. *)
Definition differs_at (B : Z) (v k : list Z) : Prop := off <= B < 8 * L /\ agree off B v k /\ bit v B <> bit k B.

Lemma climb_longest v B lo t : wf lo t -> (forall x, x ∈ ending v t -> differs_at B v (lkey x)) ->
  (forall x, x ∈ ending v t -> is_route x -> B < plen x) ->
  match climb B (above v t) with
  | Some x => x ∈ routes t /\ matches v x /\ lo < plen x
      /\ forall y, y ∈ routes t -> matches v y -> plen y <= plen x
  | None => forall y, y ∈ routes t -> matches v y -> plen y <= lo
  end.
Proof.
  revert lo. induction t as [c|p b ml l IHl r IHr]; intros lo Hw Hd Hc.
  - simpl in *. intros y [Hr Hy]%elem_of_routes Hm. exfalso. specialize (Hc y Hy Hr).
    destruct (Hd y Hy) as (HB & _ & Hne). apply Hne, Hm. lia.
  - pose proof Hw as (Hlo & Hb & Hl0 & Hr1 & Hag & Hs & Hml & Hl & Hr).
    set (ch := if bit v b then r else l).
    assert (wf b ch) as Hch by (unfold ch; by destruct (bit v b)).
    assert (forall x, x ∈ routes (Nd p b ml l r) -> matches v x -> x ∈ routes ch \/ plen x <= b) as Hside.
    { intros x Hx Hm. pose proof (wf_route _ _ _ Hw Hx) as Hxo. rewrite routes_Nd, elem_of_app in Hx.
      rewrite Forall_forall in Hl0, Hr1. unfold ch. destruct (bit v b) eqn:Ev; destruct Hx as [Hx|Hx]; auto; right;
        (apply (other_side v b x); [done|done|done|]); apply elem_of_routes in Hx as [_ Hx];
        [rewrite (Hl0 x Hx), Ev|rewrite (Hr1 x Hx), Ev]; done. }
    assert (forall x, x ∈ routes ch -> x ∈ routes (Nd p b ml l r)) as Hsub.
    { intros x. rewrite routes_Nd, elem_of_app. unfold ch. destruct (bit v b); auto. }
    assert (match climb B (above v ch) with
      | Some x => x ∈ routes ch /\ matches v x /\ b < plen x /\ forall y, y ∈ routes ch -> matches v y -> plen y <= plen x
      | None => forall y, y ∈ routes ch -> matches v y -> plen y <= b end) as IH.
    { unfold ch in *. simpl in Hd, Hc. destruct (bit v b); [apply IHr|apply IHl]; auto. }
    simpl. fold ch. rewrite climb_app. destruct (climb B (above v ch)) as [x|] eqn:Ec.
    { destruct IH as (Hx & Hm & Hlt & Hbest). split_and!; [auto|done|lia|]. intros y Hy Hmy. destruct (Hside y Hy Hmy); [auto|lia]. }
    assert (forall y, y ∈ routes (Nd p b ml l r) -> matches v y -> plen y <= b) as Hshort.
    { intros y Hy Hmy. destruct (Hside y Hy Hmy); auto. }
    destruct (wf_ending v lo _ Hw) as (k & rest & Ek & _). assert (k ∈ ending v (Nd p b ml l r)) as Hk by (rewrite Ek; left).
    destruct (Hd k Hk) as (HB & Hag' & Hne). apply ending_in in Hk as Hk'.
    assert (forall y, y ∈ routes (Nd p b ml l r) -> lo < plen y -> matches v y -> y ∈ ml.*2 /\ plen y <= B) as Hcand.
    { intros y Hy Hly Hmy. split; [apply Hml; auto|]. destruct (Z.le_gt_cases (plen y) B) as [?|Hgt]; [done|exfalso].
      apply Hne. pose proof (Hshort y Hy Hmy). apply elem_of_routes in Hy as [_ Hy].
      rewrite (Hmy B) by lia. apply (Hag y k Hy Hk'). lia. }
    pose proof (find_sorted B ml Hs) as Hf. simpl. destruct (List.find _ ml) as [[m x]|]; simpl in *.
    + destruct Hf as (Hx & HxB & Hbest). apply Hml in Hx as [Hx Hlx]. split_and!; [done| |lia|].
      * intros i Hi. apply elem_of_routes in Hx as [_ Hx]. rewrite (Hag' i) by lia. apply (Hag k x Hk' Hx). lia.
      * intros y Hy Hmy. destruct (Z.lt_ge_cases lo (plen y)) as [Hly|Hly]; [|lia].
        destruct (Hcand y Hy Hly Hmy). auto.
    + intros y Hy Hmy. destruct (Z.le_gt_cases (plen y) lo) as [?|Hly]; [done|].
      destruct (Hcand y Hy ltac:(lia) Hmy) as [Hin HB']. specialize (Hf y Hin). lia.
Qed.
End Wf.
End RadixShape.
