(* ===== verification/RadixRep.v ===== *)
(** * Radix trees in memory

    [trep] relates the nodes, lists of masks and keys in memory to the trees of
    [RadixShape], and the loops of the search are evaluated on it. *)

From Stdlib Require Import ZArith Lia Bool Sorted.
From stdpp Require Import base tactics option gmap list list_numbers.
From S2P Require Import Prelude Radix RadixShape.

Open Scope Z_scope.

Module RadixRep.
Import Radix RadixShape.

(** *** Bits and bytes *)
Definition byte_ok (c : Z) : Prop := 0 <= c < 256.

Lemma has_testbit b c : has (Z.shiftr 128 (Z.land b 7)) c = Z.testbit c (7 - b mod 8).
Proof.
  unfold has. change 7 with (Z.ones 3) at 1. rewrite Z.land_ones by lia. change (2 ^ 3) with 8.
  pose proof (Z.mod_pos_bound b 8 ltac:(lia)) as Hm.
  assert (Z.shiftr 128 (b mod 8) = 2 ^ (7 - b mod 8)) as ->.
  { change 128 with (2 ^ 7). rewrite Z.shiftr_div_pow2, Z.pow_sub_r by lia. done. }
  set (j := 7 - b mod 8). destruct (Z.testbit c j) eqn:E.
  - apply negb_true_iff, Z.eqb_neq. intros H0. apply (f_equal (fun z => Z.testbit z j)) in H0.
    rewrite Z.land_spec, Z.pow2_bits_true, E, Z.bits_0 in H0 by lia. done.
  - apply negb_false_iff, Z.eqb_eq, Z.bits_inj'. intros i Hi. rewrite Z.land_spec, Z.bits_0.
    destruct (decide (i = j)) as [->|Hne]; [by rewrite E, andb_false_r|]. by rewrite Z.pow2_bits_false by lia.
Qed.

Lemma has_comm a b : has a b = has b a.
Proof. unfold has. by rewrite Z.land_comm. Qed.

Lemma bit_nth v b : bit v b = Z.testbit (nth (Z.to_nat (b / 8)) v 0) (7 - b mod 8).
Proof. done. Qed.

(** Bytes that are equal have equal bits. *)
Lemma bytes_agree v k lo hi : 0 <= lo ->
  (forall j : nat, (Z.to_nat lo <= j < Z.to_nat hi)%nat -> nth j v 0 = nth j k 0) -> agree (8 * lo) (8 * hi) v k.
Proof.
  intros Hlo H i Hi. rewrite !bit_nth. rewrite H; [done|].
  pose proof (Z.div_le_lower_bound i 8 lo ltac:(lia) ltac:(lia)). pose proof (Z.div_lt_upper_bound i 8 hi ltac:(lia) ltac:(lia)). lia.
Qed.

Lemma byte_lxor c c2 : byte_ok c -> byte_ok c2 -> byte_ok (Z.lxor c c2).
Proof.
  intros Hc Hc2. assert (Z.lxor c c2 = Z.lxor c c2 mod 2 ^ 8) as ->; [|apply Z.mod_pos_bound; lia].
  apply Z.bits_inj'. intros i Hi. destruct (Z.lt_ge_cases i 8).
  - by rewrite Z.mod_pow2_bits_low.
  - rewrite Z.mod_pow2_bits_high, Z.lxor_spec by lia.
    rewrite <-(Z.mod_small c (2 ^ 8)), <-(Z.mod_small c2 (2 ^ 8)) by done. by rewrite !Z.mod_pow2_bits_high by lia.
Qed.

(** The first differing bit of two bytes. *)
Lemma diff_bit_spec (i : nat) v k : byte_ok (nth i v 0) -> byte_ok (nth i k 0) -> nth i v 0 <> nth i k 0 ->
  let B := diff_bit i (nth i v 0) (nth i k 0) in
  8 * Z.of_nat i <= B < 8 * Z.of_nat i + 8 /\ agree (8 * Z.of_nat i) B v k /\ bit v B <> bit k B.
Proof.
  intros Hc Hc2 Hne. unfold diff_bit. set (c := nth i v 0) in *. set (c2 := nth i k 0) in *.
  pose proof (byte_lxor c c2 Hc Hc2) as Hby.
  assert (Z.land (Z.lxor c c2) 255 = Z.lxor c c2) as ->.
  { change 255 with (Z.ones 8). rewrite Z.land_ones by lia. apply Z.mod_small. exact Hby. }
  assert (0 < Z.lxor c c2) as Hpos.
  { assert (Z.lxor c c2 <> 0) by (by rewrite Z.lxor_eq_0_iff). unfold byte_ok in Hby. lia. }
  assert (Z.log2 (Z.lxor c c2) < 8) as Hlog by (apply Z.log2_lt_pow2; unfold byte_ok in Hby; lia).
  pose proof (Z.log2_nonneg (Z.lxor c c2)). set (g := Z.log2 (Z.lxor c c2)) in *.
  rewrite Z.shiftl_mul_pow2 by lia. change (2 ^ 3) with 8.
  assert (forall j, 0 <= j < 8 -> Z.to_nat ((Z.of_nat i * 8 + j) / 8) = i /\ (Z.of_nat i * 8 + j) mod 8 = j) as Hdiv.
  { intros j Hj. rewrite Z.add_comm, Z.div_add, Z.mod_add, Z.div_small, Z.mod_small by lia. split; [lia|done]. }
  split; [lia|]. split.
  - intros x Hx. replace x with (Z.of_nat i * 8 + (x - 8 * Z.of_nat i)) by lia. unfold bit.
    destruct (Hdiv (x - 8 * Z.of_nat i) ltac:(lia)) as [-> ->]. fold c c2.
    assert (Z.testbit (Z.lxor c c2) (7 - (x - 8 * Z.of_nat i)) = false) as Hb by (apply Z.bits_above_log2; lia).
    rewrite Z.lxor_spec in Hb. by apply xorb_eq.
  - replace (7 - g + Z.of_nat i * 8) with (Z.of_nat i * 8 + (7 - g)) by lia. unfold bit.
    destruct (Hdiv (7 - g) ltac:(lia)) as [-> ->]. fold c c2. replace (7 - (7 - g)) with g by lia. intros Heq.
    assert (Z.testbit (Z.lxor c c2) g = true) as Hb by (apply Z.bit_log2; lia).
    rewrite Z.lxor_spec, Heq, xorb_nilpotent in Hb. done.
Qed.

(** *** Reads *)
Lemma at_ok v i s : (i < length v)%nat -> at_ v i s = (ok (nth i v 0), s).
Proof. intros H. unfold at_, the. destruct (lookup_lt_is_Some_2 v i H) as [c E]. by rewrite E, (nth_lookup_Some _ _ 0 _ E). Qed.

Lemma load_bytes_ok s p v : bytes s !! p = Some v -> load p s = (ok v, s).
Proof. intros H. unfold load, st_bind, st_get, the. by rewrite H. Qed.
Lemma deref_ok s p n : nodes s !! p = Some n -> deref p s = (ok n, s).
Proof. intros H. unfold deref, st_bind, st_get, the. by rewrite H. Qed.
Lemma get_ok {A} (f : radix_node -> A) s p n : nodes s !! p = Some n -> get f p s = (ok (f n), s).
Proof. intros H. unfold get. by rewrite (st_bind_ok _ _ _ _ _ (deref_ok _ _ _ H)). Qed.
Lemma get_leaf_ok s p n k m d : nodes s !! p = Some n -> rn_u n = Leaf_ k m d -> get_leaf p s = (ok (k, m, d), s).
Proof. intros H Hu. unfold get_leaf. rewrite (st_bind_ok _ _ _ _ _ (deref_ok _ _ _ H)). by rewrite Hu. Qed.
Lemma get_inner_ok s p n o l r : nodes s !! p = Some n -> rn_u n = Inner_ o l r -> get_inner p s = (ok (o, l, r), s).
Proof. intros H Hu. unfold get_inner. rewrite (st_bind_ok _ _ _ _ _ (deref_ok _ _ _ H)). by rewrite Hu. Qed.
Lemma deref_mask_ok s m a : masks s !! m = Some a -> deref_mask m s = (ok a, s).
Proof. intros H. unfold deref_mask, st_bind, st_get, the. by rewrite H. Qed.

(** *** Trees in memory *)
Definition chead (c : list leaf) : ptr := match c with [] => NULL | x :: _ => lp x end.
Definition rootp (t : tree) : ptr := match t with Lf c => chead c | Nd p _ _ _ _ => p end.

(** The bytes of the mask of [n] bits: its length in bytes, then ones. *)
Definition mask_byte (n : Z) (i : nat) : Z :=
  if 8 * Z.of_nat (S i) <=? n then 255 else if n <=? 8 * Z.of_nat i then 0 else 256 - 2 ^ (8 * Z.of_nat (S i) - n).
Definition mask_of (n : Z) : list Z := (n + 7) / 8 :: map (mask_byte n) (seq 1 31).
Definition mask_bytes (x : leaf) : list Z := if lnormal x then mask_of (plen x) else repeat 0 RADIX_MAX_KEY_LEN.

(** The list of masks [ml] at [m]. *)
Fixpoint mrep (s : state) (m : ptr) (ml : list (ptr * leaf)) : Prop :=
  match ml with
  | [] => m = NULL
  | (q, x) :: ml => m = q /\ q <> NULL /\ exists a, masks s !! q = Some a
      /\ rm_bit a = lbit x /\ has RNF_NORMAL (rm_flags a) = lnormal x
      /\ rm_rmu a = (if lnormal x then lp x else lmp x) /\ rm_refs a = 0 /\ mrep s (rm_mklist a) ml
  end.

Section Rep.
Context (off L : Z).

(** Memory of one leaf, [par] its parent and [d] the next of its chain. *)
Record leaf_rep (s : state) (par d : ptr) (x : leaf) : Prop := {
  leaf_node : exists n, nodes s !! lp x = Some n /\ rn_u n = Leaf_ (lkp x) (lmp x) d /\ rn_bit n = lbit x
    /\ rn_parent n = par /\ has RNF_NORMAL (rn_flags n) = lnormal x
    /\ has RNF_ROOT (rn_flags n) = bool_decide (lmp x = NULL);
  leaf_null : lp x <> NULL;
  leaf_neg : lbit x < 0;
  leaf_key : bytes s !! lkp x = Some (lkey x);
  leaf_bytes : Forall byte_ok (lkey x);
  leaf_len : L <= Z.of_nat (length (lkey x));
  leaf_key0 : lmp x <> NULL -> nth 0 (lkey x) 0 = L;
  leaf_mask : lmp x <> NULL -> bytes s !! lmp x = Some (mask_bytes x) }.

Fixpoint crep (s : state) (par : ptr) (c : list leaf) : Prop :=
  match c with [] => True | x :: c => leaf_rep s par (chead c) x /\ crep s (lp x) c end.

Fixpoint trep (s : state) (par : ptr) (t : tree) : Prop :=
  match t with
  | Lf c => c <> [] /\ crep s par c
  | Nd p b ml l r =>
      (exists n, nodes s !! p = Some n /\ rn_u n = Inner_ (Z.to_nat (b / 8)) (rootp l) (rootp r) /\ rn_bit n = b
        /\ rn_bmask n = Z.shiftr 128 (Z.land b 7) /\ rn_parent n = par /\ mrep s (rn_mklist n) ml)
      /\ p <> NULL /\ trep s p l /\ trep s p r
  end.

Fixpoint tptrs (t : tree) : list ptr :=
  match t with Lf c => map lp c | Nd p _ _ l r => p :: tptrs l ++ tptrs r end.
Fixpoint mptrs (t : tree) : list ptr :=
  match t with Lf _ => [] | Nd _ _ ml l r => ml.*1 ++ mptrs l ++ mptrs r end.

Fixpoint height (t : tree) : nat := match t with Lf _ => 0%nat | Nd _ _ _ l r => S (Nat.max (height l) (height r)) end.

Lemma trep_ptrs s par t : trep s par t -> Forall (fun p => is_Some (nodes s !! p)) (tptrs t).
Proof.
  revert par. induction t as [c|p b ml l IHl r IHr]; intros par H; simpl in *.
  - destruct H as [_ H]. revert par H. induction c as [|x c IH]; intros par H; simpl; constructor.
    + destruct H as [[(n & -> & _) _ _ _ _ _ _ _] _]. done.
    + eapply IH. apply H.
  - destruct H as ((n & Hn & _) & _ & Hl & Hr). constructor; [eauto|]. apply Forall_app; eauto.
Qed.

Lemma trep_root s par t : trep s par t -> exists n, nodes s !! rootp t = Some n /\ rn_parent n = par.
Proof.
  destruct t as [c|p b ml l r]; simpl.
  - destruct c as [|x c]; [by intros []|]. intros (_ & [(n & ? & _ & _ & ? & _) _ _ _ _ _ _ _] & _). eauto.
  - intros ((n & ? & _ & _ & _ & ? & _) & _). eauto.
Qed.

Lemma trep_leaf_null s par t : trep s par t -> forall x, x ∈ leaves t -> lp x <> NULL.
Proof.
  revert par. induction t as [c|p b ml l IHl r IHr]; intros par Hr x Hx; simpl in *.
  - destruct Hr as [_ Hc]. revert par Hc. induction c as [|y c IH]; intros par Hc; [by apply not_elem_of_nil in Hx|].
    destruct Hc as [Hy Hc]. apply elem_of_cons in Hx as [->|Hx]; [apply (leaf_null _ _ _ _ Hy)|eauto].
  - destruct Hr as (_ & _ & Hl & Hr). apply elem_of_app in Hx as [?|?]; eauto.
Qed.

Lemma size_bound {A} (m : gmap ptr A) (l : list ptr) : NoDup l -> Forall (fun p => is_Some (m !! p)) l -> (length l <= size m)%nat.
Proof.
  intros Hnd Hall. rewrite <-size_dom, <-(size_list_to_set (C := gset ptr)) by done. apply subseteq_size.
  intros p Hp. apply elem_of_list_to_set in Hp. rewrite Forall_forall in Hall. by apply elem_of_dom, Hall.
Qed.

Lemma tree_height_le t : (height t < S (length (tptrs t)))%nat.
Proof. induction t as [c|p b ml l IHl r IHr]; simpl; [lia|]. rewrite length_app. lia. Qed.

(** A key to look for. *)
Record query (v : list Z) : Prop := {
  query_len : nth 0 v 0 = L;
  query_bytes : Forall byte_ok v;
  query_length : L <= Z.of_nat (length v) }.

Lemma search_ok s v : 0 <= off -> query v -> forall f t lo par, trep s par t -> wf off L lo t ->
  (height t < f)%nat -> search_loop f v (rootp t) s = (ok (chead (ending v t)), s).
Proof.
  intros Hoff Hv. induction f as [|f IH]; intros t lo par Hr Hw Hf; [lia|]. cbn [search_loop].
  destruct t as [c|p b ml l r]; simpl rootp.
  - destruct Hr as [Hne Hc]. destruct c as [|x c]; [done|]. simpl in Hc. destruct Hc as [[(n & Hn & _ & Hb & _) _ Hneg _ _ _ _ _] _].
    simpl. rewrite (st_bind_ok _ _ _ _ _ (deref_ok _ _ _ Hn)), Hb. by rewrite (proj2 (Z.ltb_lt _ _)).
  - destruct Hr as ((n & Hn & Hu & Hb & Hbm & _) & _ & Hl & Hr). destruct Hw as (_ & Hbb & _ & _ & _ & _ & _ & Hwl & Hwr).
    rewrite (st_bind_ok _ _ _ _ _ (deref_ok _ _ _ Hn)), Hb, (proj2 (Z.ltb_ge _ _)) by lia.
    rewrite (st_bind_ok _ _ _ _ _ (get_inner_ok _ _ _ _ _ _ Hn Hu)).
    assert (Z.to_nat (b / 8) < length v)%nat as Hlen.
    { destruct Hv as [_ _ Hlen]. pose proof (Z.div_lt_upper_bound b 8 L ltac:(lia) ltac:(lia)).
      pose proof (Z.div_pos b 8 ltac:(lia) ltac:(lia)). lia. }
    rewrite (st_bind_ok _ _ _ _ _ (at_ok _ _ _ Hlen)), Hbm, has_testbit, <-bit_nth. simpl ending. simpl in Hf.
    destruct (bit v b); [apply (IH r b p)|apply (IH l b p)]; (done || lia).
Qed.

Lemma ending_rep s v t : forall par, trep s par t -> exists par', ending v t <> [] /\ crep s par' (ending v t).
Proof.
  induction t as [c|p b ml l IHl r IHr]; intros par Hr; [by exists par|].
  destruct Hr as (_ & _ & Hl & Hr). simpl. destruct (bit v b); eauto.
Qed.
Lemma ending_ptrs v t : (length (ending v t) <= length (tptrs t))%nat.
Proof. induction t as [c|p b ml l IHl r IHr]; simpl; [by rewrite length_map|]. rewrite length_app. destruct (bit v b); lia. Qed.

(** *** Comparing with the key *)
Lemma first_diff_ok s v k : forall n i, (i + n <= length v)%nat -> (i + n <= length k)%nat ->
  exists d, first_diff n i v k s = (ok d, s) /\
    match d with
    | None => forall j, (i <= j < i + n)%nat -> nth j v 0 = nth j k 0
    | Some j => (i <= j < i + n)%nat /\ nth j v 0 <> nth j k 0 /\ forall j', (i <= j' < j)%nat -> nth j' v 0 = nth j' k 0
    end.
Proof.
  induction n as [|n IH]; intros i Hv Hk; cbn [first_diff].
  { exists None. split; [done|]. intros. lia. }
  rewrite (st_bind_ok _ _ _ _ _ (at_ok v i s ltac:(lia))), (st_bind_ok _ _ _ _ _ (at_ok k i s ltac:(lia))).
  destruct (Z.eqb_spec (nth i v 0) (nth i k 0)) as [He|Hne].
  - destruct (IH (S i) ltac:(lia) ltac:(lia)) as (d & -> & Hd). exists d. split; [done|]. destruct d as [j|].
    + destruct Hd as (Hj & Hne & Hj'). split_and!; [lia|lia|done|]. intros j' H. destruct (decide (j' = i)) as [->|]; [done|]. apply Hj'. lia.
    + intros j H. destruct (decide (j = i)) as [->|]; [done|]. apply Hd. lia.
  - exists (Some i). split; [done|]. split_and!; [lia|lia|done|]. intros. lia.
Qed.

(** *** The chain and the lists of masks *)
Lemma mask_len x : route_ok off L x -> 0 <= off ->
  nth 0 (mask_bytes x) 0 = (if lnormal x then (plen x + 7) / 8 else 0) /\ (0 < length (mask_bytes x))%nat.
Proof. intros Hx Ho. unfold mask_bytes. destruct (lnormal x); simpl; split; (done || lia). Qed.

Lemma satisfies_zero s v x par d skip : leaf_rep s par d x -> is_route x -> lnormal x = false -> (0 < length v)%nat -> 0 < L ->
  rn_satisfies_leaf v (lp x) skip s = (ok true, s).
Proof.
  intros [(n & Hn & Hu & _) _ _ Hk _ Hlen _ Hm] Hr Hz Hv HL. unfold rn_satisfies_leaf.
  rewrite (st_bind_ok _ _ _ _ _ (get_leaf_ok _ _ _ _ _ _ Hn Hu)), (st_bind_ok _ _ _ _ _ (load_bytes_ok _ _ _ Hk)).
  rewrite (st_bind_ok _ _ _ _ _ (at_ok v 0 s Hv)), (st_bind_ok _ _ _ _ _ (at_ok (lkey x) 0 s ltac:(lia))).
  rewrite (proj2 (Nat.eqb_neq _ _) Hr). rewrite (st_bind_ok _ _ _ _ _ (load_bytes_ok _ _ _ (Hm Hr))). unfold mask_bytes. rewrite Hz.
  rewrite (st_bind_ok _ _ _ _ _ (at_ok (repeat 0 RADIX_MAX_KEY_LEN) 0 s ltac:(simpl; lia))). simpl nth.
  match goal with |- satisfies (Z.to_nat ?z - skip) _ _ _ _ _ = _ => assert (Z.to_nat z = 0%nat) as -> by lia end. done.
Qed.

Lemma match_chain_ok s v mo B : (0 < length v)%nat -> 0 < L -> 0 <= off -> off <= B -> forall f c par, crep s par c ->
  Forall is_route c -> Forall (route_ok off L) c -> (length c < f)%nat ->
  match_chain f v mo (-1 - B) (chead c) s = (ok (lp <$> List.find (fun x => plen x <=? B) c), s).
Proof.
  intros Hv HL Ho HB. induction f as [|f IH]; intros c par Hc Hr Hok Hf; [lia|]. cbn [match_chain].
  destruct c as [|x c]; [done|]. cbn [chead]. destruct Hc as [Hx Hc]. apply Forall_cons in Hr as [Hrx Hr], Hok as [Hokx Hok].
  pose proof Hx as [(n & Hn & Hu & Hb & _ & Hno & _) Hnull _ _ _ _ _ _].
  rewrite (proj2 (Nat.eqb_neq _ _) Hnull), (st_bind_ok _ _ _ _ _ (deref_ok _ _ _ Hn)), Hno.
  assert (rn_dupedkey (lp x) s = (ok (chead c), s)) as Hd
    by (unfold rn_dupedkey; by rewrite (st_bind_ok _ _ _ _ _ (get_leaf_ok _ _ _ _ _ _ Hn Hu))).
  simpl in Hf. simpl List.find. unfold plen at 1. destruct (lnormal x) eqn:En.
  - rewrite Hb. assert ((-1 - B <=? lbit x) = (-1 - lbit x <=? B)) as -> by (apply eq_true_iff_eq; rewrite !Z.leb_le; lia).
    destruct (-1 - lbit x <=? B); [done|]. rewrite (st_bind_ok _ _ _ _ _ Hd). eapply IH; [done..|lia].
  - rewrite (st_bind_ok _ _ _ _ _ (satisfies_zero s v x _ _ mo Hx Hrx En Hv HL)). cbv beta iota.
    destruct (route_len _ _ _ Hokx) as [[H _]|(_ & H & _)]; [congruence|]. unfold plen in H. by rewrite (proj2 (Z.leb_le _ _)) by lia.
Qed.

(** Lists of normal masks. *)
Lemma match_masks_ok s v mo B t : forall f ml m, mrep s m ml -> Forall (fun x => lnormal x = true) ml.*2 -> (length ml < f)%nat ->
  match_masks f v mo (-1 - B) t m s = (ok ((fun e => lp e.2) <$> List.find (fun e => plen e.2 <=? B) ml), s).
Proof.
  induction f as [|f IH]; intros ml m Hm Hn Hf; [lia|]. cbn [match_masks]. destruct ml as [|[q x] ml]; simpl in Hm.
  { subst m. done. }
  destruct Hm as (-> & Hq & a & Ha & Hb & Hno & Hrm & _ & Hm). apply Forall_cons in Hn as [Hnx Hn]. simpl in Hf, Hnx.
  rewrite (proj2 (Nat.eqb_neq _ _) Hq), (st_bind_ok _ _ _ _ _ (deref_mask_ok _ _ _ Ha)), Hno, Hnx, Hb.
  simpl List.find. unfold plen at 1. simpl snd.
  assert ((-1 - B <=? lbit x) = (-1 - lbit x <=? B)) as -> by (apply eq_true_iff_eq; rewrite !Z.leb_le; lia).
  destruct (-1 - lbit x <=? B); [by rewrite Hrm, Hnx|]. apply IH; [done|done|lia].
Qed.

Lemma mrep_length s m ml : mrep s m ml -> NoDup ml.*1 -> (length ml <= size (masks s))%nat.
Proof.
  intros Hm Hnd. rewrite <-(length_fmap fst). apply size_bound; [done|]. clear Hnd. revert m Hm.
  induction ml as [|[q x] ml IH]; intros m Hm; simpl; constructor.
  - destruct Hm as (-> & _ & a & Ha & _). eauto.
  - destruct Hm as (_ & _ & a & _ & _ & _ & _ & _ & Hm). eauto.
Qed.

(** *** The way up, below the top *)
Lemma below_normal lo t x p b ml l r : t = Nd p b ml l r -> wf off L lo t -> 0 <= lo -> x ∈ ml.*2 -> lnormal x = true.
Proof.
  intros -> Hw Hlo Hx. pose proof Hw as (_ & _ & _ & _ & _ & _ & Hml & _). apply Hml in Hx as [Hx [Hl _]].
  destruct (route_len _ _ _ (wf_route off L lo _ x Hw Hx)) as [[H _]|(_ & H & _)]; [done|lia].
Qed.

Lemma match_up_ok s v mo B top : forall t lo par f, 0 <= lo -> trep s par t -> wf off L lo t -> top ∉ tptrs t -> NoDup (mptrs t) ->
  match_up (length (above v t) + f) v mo (-1 - B) top (chead (ending v t)) s
  = match climb B (above v t) with Some x => (ok (lp x), s) | None => match_up f v mo (-1 - B) top (rootp t) s end.
Proof.
  induction t as [c|p b ml l IHl r IHr]; intros lo par f Hlo Hr Hw Htop Hnd; [done|].
  pose proof Hr as ((n & Hn & Hu & Hb & Hbm & _ & Hm) & _ & Hl & Hrr). pose proof Hw as (Hlt & Hbb & _ & _ & _ & _ & _ & Hwl & Hwr).
  simpl in Htop, Hnd. rewrite not_elem_of_cons, not_elem_of_app in Htop. destruct Htop as (Htp & Htl & Htr).
  apply NoDup_app in Hnd as (Hndm & _ & Hnd). apply NoDup_app in Hnd as (Hndl & _ & Hndr).
  simpl ending. simpl above. rewrite length_app, <-Nat.add_assoc. cbn [length].
  set (ch := if bit v b then r else l).
  assert (trep s p ch) as Hch by (unfold ch; by destruct (bit v b)).
  assert (match_up (length (above v ch) + (1 + f)) v mo (-1 - B) top (chead (ending v ch)) s
    = match climb B (above v ch) with Some x => (ok (lp x), s) | None => match_up (1 + f) v mo (-1 - B) top (rootp ch) s end) as IH.
  { unfold ch. destruct (bit v b); [apply (IHr b p)|apply (IHl b p)]; (done || lia). }
  rewrite IH, climb_app. destruct (climb B (above v ch)); [done|]. cbn [climb Nat.add match_up].
  destruct (trep_root _ _ _ Hch) as (nc & Hnc & Hpar).
  rewrite (st_bind_ok _ _ _ _ _ (get_ok _ _ _ _ Hnc)), Hpar, (st_bind_ok _ _ _ _ _ (get_ok _ _ _ _ Hn)).
  rewrite (st_bind_ok _ _ _ _ _ (eq_refl (mask_fuel s))).
  assert (Forall (fun x => lnormal x = true) ml.*2) as Hnorm
    by (apply Forall_forall; intros x Hx; by eapply (below_normal lo)).
  rewrite (st_bind_ok _ _ _ _ _ (match_masks_ok s v mo B p _ _ _ Hm Hnorm (proj2 (Nat.lt_succ_r _ _) (mrep_length _ _ _ Hm Hndm)))).
  cbv beta. destruct (List.find _ ml); [done|]. cbn. by rewrite (proj2 (Nat.eqb_neq _ _)).
Qed.
End Rep.
End RadixRep.
