(* ===== verification/RadixMatch.v ===== *)
(** * [rn_match] finds the longest prefix

    The search of [alpha/al_radix.c] on a tree in memory that keeps the invariant
    of [RadixShape]. *)

From Stdlib Require Import ZArith Lia Bool Sorted.
From stdpp Require Import base tactics option gmap list list_numbers.
From S2P Require Import Prelude Radix RadixShape RadixRep.

Open Scope Z_scope.

Module RadixMatch.
Import Radix RadixShape RadixRep.

Section Match.
Context (off L : Z).

(** A leaf whose bits are all zeroes, or all ones. *)
Definition constant (b : bool) (v : list Z) : Prop := forall i, off <= i < 8 * L -> bit v i = b.

(** The tree of the head [h]: the top tests the first bit of the keys, the root
    leaves have the keys of zeroes and of ones. *)
Record tree_ok (s : state) (h : radix_head) (T : tree) : Prop := {
  ok_top : exists ml l r, T = Nd (rnh_treetop h) off ml l r;
  ok_rep : trep L s (rnh_treetop h) T;
  ok_wf : wf off L (-1) T;
  ok_nodup : NoDup (tptrs T);
  ok_mnodup : NoDup (mptrs T);
  ok_roots x : x ∈ leaves T -> ~ is_route x -> constant false (lkey x) \/ constant true (lkey x) }.

(** Byte strings start at a whole byte and fit the code's buffers. *)
Definition layout : Prop := exists o, off = 8 * o /\ 0 <= o < L /\ L <= 32.

(** [r] is the longest of the tree's routes that match [v], [NULL] if there is none. *)
Definition longest_match (T : tree) (v : list Z) (r : ptr) : Prop :=
  (r = NULL /\ forall y, y ∈ routes T -> ~ matches off v y)
  \/ exists x, r = lp x /\ x ∈ routes T /\ matches off v x
       /\ forall y, y ∈ routes T -> matches off v y -> plen y <= plen x.

Context (Hlay : layout).

(** *** The route of length zero *)
Fixpoint leftmost (t : tree) : list leaf := match t with Lf c => c | Nd _ _ _ l _ => leftmost l end.

Lemma zero_leftmost lo t x : wf off L lo t -> x ∈ leaves t -> constant false (lkey x) -> x ∈ leftmost t.
Proof.
  revert lo. induction t as [c|p b ml l IHl r IHr]; intros lo Hw Hx Hz; [done|].
  destruct Hw as (_ & Hb & _ & Hr1 & _ & _ & _ & Hl & _). simpl in Hx |- *. apply elem_of_app in Hx as [Hx|Hx]; [eauto|].
  rewrite Forall_forall in Hr1. specialize (Hr1 x Hx). by rewrite (Hz b Hb) in Hr1.
Qed.

Lemma wf_leftmost lo t : wf off L lo t -> chain_ok off L (leftmost t).
Proof. revert lo. induction t as [c|p b ml l IHl r IHr]; intros lo Hw; [exact Hw|]. simpl. eapply IHl, Hw. Qed.

Lemma crep_leftmost s par t : trep L s par t -> exists par', leftmost t <> [] /\ crep L s par' (leftmost t).
Proof.
  revert par. induction t as [c|p b ml l IHl r IHr]; intros par Hr; [by exists par|].
  destruct Hr as (_ & _ & Hl & _). simpl. eauto.
Qed.
Lemma leftmost_ptrs t : (length (leftmost t) <= length (tptrs t))%nat.
Proof. induction t as [c|p b ml l IHl r IHr]; simpl; [by rewrite length_map|]. rewrite length_app. lia. Qed.

Lemma search_zero s v : forall f t lo par, trep L s par t -> wf off L lo t -> (height t < f)%nat ->
  search_m_loop f v (repeat 0 RADIX_MAX_KEY_LEN) (rootp t) s = (ok (chead (leftmost t)), s).
Proof.
  destruct Hlay as (o & Ho & Hol & HL).
  induction f as [|f IH]; intros t lo par Hr Hw Hf; [lia|]. cbn [search_m_loop]. destruct t as [c|p b ml l r]; cbn [rootp].
  - destruct Hr as [Hne Hc]. destruct c as [|x c]; [done|]. destruct Hc as [[(n & Hn & _ & Hb & _) _ Hneg _ _ _ _ _] _].
    simpl. rewrite (st_bind_ok _ _ _ _ _ (deref_ok _ _ _ Hn)), Hb. by rewrite (proj2 (Z.ltb_lt _ _)).
  - destruct Hr as ((n & Hn & Hu & Hb & Hbm & _) & _ & Hl & Hr). destruct Hw as (_ & Hbb & _ & _ & _ & _ & _ & Hwl & Hwr).
    rewrite (st_bind_ok _ _ _ _ _ (deref_ok _ _ _ Hn)), Hb, (proj2 (Z.ltb_ge _ _)) by lia.
    rewrite (st_bind_ok _ _ _ _ _ (get_inner_ok _ _ _ _ _ _ Hn Hu)).
    assert (Z.to_nat (b / 8) < length (repeat 0%Z RADIX_MAX_KEY_LEN))%nat as Hlen.
    { rewrite repeat_length. pose proof (Z.div_lt_upper_bound b 8 L ltac:(lia) ltac:(lia)).
      pose proof (Z.div_pos b 8 ltac:(lia) ltac:(lia)). unfold RADIX_MAX_KEY_LEN. lia. }
    rewrite (st_bind_ok _ _ _ _ _ (at_ok _ _ _ Hlen)), nth_repeat, Hbm, has_testbit, Z.bits_0.
    simpl in Hf. apply (IH l b p); [done|done|lia].
Qed.

(** The chain is left at the first leaf with the mask. *)
Lemma with_mask_ok s m : forall f c par x, crep L s par c -> x ∈ c -> lmp x = m ->
  (forall y, y ∈ c -> lmp y = m -> y = x) -> (length c <= f)%nat -> with_mask f m (chead c) s = (ok (lp x), s).
Proof.
  induction f as [|f IH]; intros c par x Hc Hx Hm Hu Hf.
  { destruct c; [by apply not_elem_of_nil in Hx|simpl in Hf; lia]. }
  destruct c as [|y c]; [by apply not_elem_of_nil in Hx|]. destruct Hc as [[(n & Hn & Hun & _) Hnull _ _ _ _ _ _] Hc].
  cbn [with_mask chead]. rewrite (proj2 (Nat.eqb_neq _ _) Hnull).
  unfold rn_mask, rn_dupedkey. erewrite st_bind_ok by (by rewrite (st_bind_ok _ _ _ _ _ (get_leaf_ok _ _ _ _ _ _ Hn Hun))).
  cbv beta. destruct (Nat.eqb_spec (lmp y) m) as [He|Hne]; [by rewrite (Hu y) by (by left || done)|].
  erewrite st_bind_ok by (by rewrite (st_bind_ok _ _ _ _ _ (get_leaf_ok _ _ _ _ _ _ Hn Hun))). cbv beta.
  apply elem_of_cons in Hx as [->|Hx]; [done|]. simpl in Hf.
  apply (IH c (lp y) x); [done|done|done| |lia]. intros z Hz. apply Hu. by right.
Qed.

(** The list of the top holds at most the route of length zero. *)
Lemma top_list T p ml l r : T = Nd p off ml l r -> wf off L (-1) T ->
  ml = [] \/ exists q x, ml = [(q, x)] /\ x ∈ routes T /\ lnormal x = false /\ plen x = 0 /\ lmp x = rn_zeros.
Proof.
  intros -> Hw. pose proof Hw as (_ & _ & _ & _ & _ & Hs & Hml & _).
  assert (forall x, x ∈ ml.*2 -> x ∈ routes (Nd p off ml l r) /\ lnormal x = false /\ plen x = 0 /\ lmp x = rn_zeros) as Hz.
  { intros x Hx. apply Hml in Hx as [Hx Hl]. destruct (route_len _ _ _ (wf_route off L _ _ x Hw Hx)) as [[_ H]|H]; [lia|done]. }
  destruct ml as [|[q x] ml]; [by left|right]. exists q, x.
  assert (ml = []) as ->; [|split; [done|apply Hz; by left]].
  destruct ml as [|[q' y] ml]; [done|exfalso]. simpl in Hs. apply StronglySorted_inv in Hs as [_ Hs]. rewrite Forall_cons in Hs.
  destruct Hs as [Hs _]. unfold longer in Hs. destruct (Hz x ltac:(by left)) as (_ & _ & Ex & _), (Hz y ltac:(by right; left)) as (_ & _ & Ey & _). lia.
Qed.

Lemma zero_route_constant T x : wf off L (-1) T -> x ∈ routes T -> plen x = 0 -> constant false (lkey x).
Proof.
  destruct Hlay as (o & Ho & Hol & _). intros Hw Hx Hp i Hi.
  apply (route_zero off L x (wf_route off L _ _ x Hw Hx)); lia.
Qed.

(** Leaves of a chain with the mask of zeroes are the route of length zero. *)
Lemma zero_unique s par c x y : chain_ok off L c -> crep L s par c -> x ∈ c -> y ∈ c -> is_route x -> is_route y ->
  lnormal x = false -> plen x = 0 -> lmp x = rn_zeros -> lmp y = rn_zeros -> y = x.
Proof.
  intros (h & rest & Ec & _ & Hs & Hok & _) Hc Hx Hy Hrx Hry Hn Hp Hmx Hmy.
  assert (forall z, z ∈ c -> lmp z = rn_zeros -> bytes s !! rn_zeros = Some (mask_bytes z)) as Hb.
  { clear -Hc. revert par Hc. induction c as [|w c IH]; intros par Hc z Hz Hm; [by apply not_elem_of_nil in Hz|].
    destruct Hc as [[_ _ _ _ _ _ _ Hmask] Hc]. apply elem_of_cons in Hz as [->|Hz]; [|by eapply IH].
    rewrite <-Hm. apply Hmask. by rewrite Hm. }
  assert (lnormal y = false /\ plen y = 0) as [Hny Hpy].
  { rewrite Forall_forall in Hok. destruct (route_len _ _ _ (Hok y ltac:(by apply list_elem_of_filter))) as [[Hny Hly]|(? & ? & _)]; [exfalso|done].
    pose proof (Hb x Hx Hmx) as H1. rewrite (Hb y Hy Hmy) in H1. unfold mask_bytes in H1. rewrite Hn, Hny in H1. simpl in H1.
    injection H1 as H1. destruct Hlay as (o & Ho & Hol & _). pose proof (Z.div_le_lower_bound (plen y + 7) 8 1 ltac:(lia) ltac:(lia)). lia. }
  apply (sorted_unique (filter is_route c)); [done|by apply list_elem_of_filter..|lia].
Qed.

(** One step at the top: its list, then the end. *)
Lemma match_top s h T ml l r v mo B t' n' : tree_ok s h T -> T = Nd (rnh_treetop h) off ml l r -> (0 < length v)%nat -> off <= B ->
  nodes s !! t' = Some n' -> rn_parent n' = rnh_treetop h -> forall f,
  match_up (S f) v mo (-1 - B) (rnh_treetop h) t' s
  = (ok (match climb B [(rnh_treetop h, ml)] with Some x => lp x | None => NULL end), s).
Proof.
  intros [_ Hrep Hw Hnd Hmnd _] -> Hv HB Ht' Hpar f. destruct Hlay as (o & Ho & Hol & HL).
  pose proof Hrep as ((n & Hn & Hu & Hb & Hbm & _ & Hm) & _). cbn [match_up].
  rewrite (st_bind_ok _ _ _ _ _ (get_ok _ _ _ _ Ht')), Hpar, (st_bind_ok _ _ _ _ _ (get_ok _ _ _ _ Hn)).
  rewrite (st_bind_ok _ _ _ _ _ (eq_refl (mask_fuel s))).
  destruct (top_list _ _ _ _ _ eq_refl Hw) as [->|(q & x & -> & Hx & Hnx & Hpx & Hmx)].
  { simpl in Hm. rewrite Hm. rewrite (st_bind_ok _ _ _ _ _ (match_masks_ok s v mo B _ _ [] NULL eq_refl ltac:(constructor) (Nat.lt_0_succ _))).
    cbn. by rewrite Nat.eqb_refl. }
  destruct Hm as (Hq & Hqn & a & Ha & _ & Hna & Hra & _ & Hnext). rewrite Hq.
  apply elem_of_routes in Hx as [Hrx Hlx].
  assert (constant false (lkey x)) as Hcx by (apply (zero_route_constant _ _ Hw); [by apply elem_of_routes|done]).
  pose proof (zero_leftmost _ _ _ Hw Hlx Hcx) as Hleft. pose proof (wf_leftmost _ _ Hw) as Hchain.
  destruct (crep_leftmost _ _ _ Hrep) as (par' & _ & Hcrep).
  pose proof (size_bound _ _ Hnd (trep_ptrs _ _ _ _ Hrep)) as Hsz.
  assert (exists p' d, leaf_rep L s p' d x) as (p' & d & Hlr).
  { clear -Hcrep Hleft. revert par' Hcrep. induction (leftmost _) as [|y c IH]; intros par' Hc; [by apply not_elem_of_nil in Hleft|].
    destruct Hc as [Hy Hc]. apply elem_of_cons in Hleft as [->|Hin]; eauto. }
  assert (bytes s !! lmp x = Some (repeat 0 RADIX_MAX_KEY_LEN)) as Hzb
    by (rewrite (leaf_mask _ _ _ _ _ Hlr) by done; unfold mask_bytes; by rewrite Hnx).
  assert (with_mask (S (size (nodes s))) (lmp x) (chead (leftmost (Nd (rnh_treetop h) off [(q, x)] l r))) s = (ok (lp x), s)) as Hwm.
  { eapply with_mask_ok; [exact Hcrep|exact Hleft|done| |].
    - intros y Hy Hmy. apply (zero_unique s par' _ x y Hchain Hcrep Hleft Hy Hrx); [by unfold is_route; rewrite Hmy|done|done|done|congruence].
    - pose proof (leftmost_ptrs (Nd (rnh_treetop h) off [(q, x)] l r)). lia. }
  assert (rn_search_m v (rnh_treetop h) (repeat 0 RADIX_MAX_KEY_LEN) s = (ok (chead (leftmost (Nd (rnh_treetop h) off [(q, x)] l r))), s)) as Hsm.
  { unfold rn_search_m. rewrite (st_bind_ok _ _ _ _ _ (eq_refl (fuel s))).
    apply (search_zero s v _ (Nd (rnh_treetop h) off [(q, x)] l r) _ _ Hrep Hw).
    pose proof (tree_height_le (Nd (rnh_treetop h) off [(q, x)] l r)). lia. }
  assert (rn_satisfies_leaf v (lp x) (Nat.min (Z.to_nat (off / 8)) mo) s = (ok true, s)) as Hsat
    by (eapply satisfies_zero; (done || lia)).
  assert (rn_offset (rnh_treetop h) s = (ok (Z.to_nat (off / 8)), s)) as Hoff
    by (unfold rn_offset; by rewrite (st_bind_ok _ _ _ _ _ (get_inner_ok _ _ _ _ _ _ Hn Hu))).
  assert (match_masks (S (size (masks s))) v mo (-1 - B) (rnh_treetop h) q s = (ok (Some (lp x)), s)) as Hmm.
  { cbn [match_masks]. rewrite (proj2 (Nat.eqb_neq _ _) Hqn), (st_bind_ok _ _ _ _ _ (deref_mask_ok _ _ _ Ha)), Hna, Hnx.
    rewrite (st_bind_ok _ _ _ _ _ Hoff), Hra, Hnx, (st_bind_ok _ _ _ _ _ (load_bytes_ok _ _ _ Hzb)), (st_bind_ok _ _ _ _ _ Hsm).
    rewrite (st_bind_ok _ _ _ _ _ (eq_refl (fuel s))), (st_bind_ok _ _ _ _ _ Hwm).
    rewrite (proj2 (Nat.eqb_neq _ _) (leaf_null _ _ _ _ _ Hlr)), (st_bind_ok _ _ _ _ _ Hsat). done. }
  rewrite (st_bind_ok _ _ _ _ _ Hmm). cbn [climb List.find snd]. by rewrite Hpx, (proj2 (Z.leb_le _ _)) by lia.
Qed.

(** The whole way up. *)
Lemma match_up_top s h T v mo B : tree_ok s h T -> (0 < length v)%nat -> off <= B ->
  forall f, (height T <= f)%nat ->
  match_up f v mo (-1 - B) (rnh_treetop h) (chead (ending v T)) s
  = (ok (match climb B (above v T) with Some x => lp x | None => NULL end), s).
Proof.
  intros Hok Hv HB f Hf. destruct Hlay as (o & Ho & Hol & HL). pose proof Hok as [(ml & l & r & ET) Hrep Hw Hnd Hmnd _]. rewrite ET in *.
  pose proof Hw as (_ & _ & _ & _ & _ & _ & _ & Hwl & Hwr). pose proof Hrep as ((n & Hn & Hu & _) & _ & Hl & Hr).
  simpl in Hnd, Hmnd, Hf. apply NoDup_cons in Hnd as [Htop Hnd]. rewrite not_elem_of_app in Htop.
  apply NoDup_app in Hmnd as (_ & _ & Hmnd). apply NoDup_app in Hmnd as (Hml & _ & Hmr).
  simpl ending. simpl above. set (ch := if bit v off then r else l).
  assert (trep L s (rnh_treetop h) ch /\ wf off L off ch /\ (rnh_treetop h ∉ tptrs ch) /\ NoDup (mptrs ch)
    /\ (height ch <= (Nat.max (height l) (height r)))%nat) as (Hch & Hwch & Htch & Hmch & Hhch)
    by (unfold ch; destruct (bit v off); split_and!; (done || tauto || lia)).
  assert (length (above v ch) <= height ch)%nat as Hab.
  { clear. induction ch as [c|p b ml' l' IHl r' IHr]; simpl; [lia|]. rewrite length_app. simpl. destruct (bit v b); lia. }
  replace f with (length (above v ch) + S (f - length (above v ch) - 1))%nat by lia.
  rewrite (match_up_ok off L s v mo B (rnh_treetop h) ch off (rnh_treetop h)) by (done || lia).
  rewrite climb_app. destruct (climb B (above v ch)); [done|].
  assert (exists nc, nodes s !! rootp ch = Some nc /\ rn_parent nc = rnh_treetop h) as (nc & Hnc & Hpar) by (by eapply trep_root).
  by rewrite (match_top s h _ ml l r v mo B _ nc Hok).
Qed.

(** *** The search *)
Lemma ending_exact v lo t x : wf off L lo t -> x ∈ leaves t -> agree off (8 * L) v (lkey x) -> x ∈ ending v t.
Proof.
  revert lo. induction t as [c|p b ml l IHl r IHr]; intros lo Hw Hx Ha; [done|].
  destruct Hw as (_ & Hb & Hl0 & Hr1 & _ & _ & _ & Hl & Hr). rewrite Forall_forall in Hl0, Hr1. simpl in Hx |- *.
  apply elem_of_app in Hx as [Hx|Hx]; rewrite (Ha b Hb); [rewrite (Hl0 x Hx)|rewrite (Hr1 x Hx)]; eauto.
Qed.

(** The first route of the chain that fits is the longest of the tree. *)
Lemma chain_best v lo t y : wf off L lo t -> y ∈ ending v t -> is_route y -> matches off v y ->
  (forall z, z ∈ ending v t -> is_route z -> matches off v z -> plen z <= plen y) ->
  y ∈ routes t /\ forall x, x ∈ routes t -> matches off v x -> plen x <= plen y.
Proof.
  intros Hw Hy Hr Hm Hbest. split; [apply elem_of_routes; split; [done|by eapply ending_in]|].
  intros x Hx Hmx. destruct (chain_longest off L v lo t Hw x y Hx Hmx Hy Hr) as [Hin|?]; [|lia].
  apply Hbest; [done| |done]. by apply elem_of_routes in Hx as [? _].
Qed.

(** In a chain the first route is the longest, and a later one is longer than those behind it. *)
Lemma find_routes B c : StronglySorted longer c ->
  match List.find (fun x => plen x <=? B) c with
  | Some x => x ∈ c /\ plen x <= B /\ forall y, y ∈ c -> plen y <= B -> plen y <= plen x
  | None => forall y, y ∈ c -> B < plen y
  end.
Proof.
  intros Hs. pose proof (find_sorted B ((fun x => (NULL, x)) <$> c)) as H.
  assert (((fun x => (NULL, x)) <$> c).*2 = c) as E2 by (rewrite <-list_fmap_compose; transitivity (id <$> c); [done|apply list_fmap_id]). rewrite E2 in H. specialize (H Hs).
  assert (List.find (fun e => plen e.2 <=? B) ((fun x => (NULL, x)) <$> c)
          = (fun x => (NULL, x)) <$> List.find (fun x => plen x <=? B) c) as Ef.
  { clear. induction c as [|x c IH]; simpl; [done|]. destruct (plen x <=? B); done. }
  rewrite Ef in H. by destruct (List.find _ c).
Qed.

(** The search ended at a key from which [v] differs. *)
Lemma mismatch_case s h T v B mo x c : tree_ok s h T -> (0 < length v)%nat -> ending v T = x :: c -> differs_at off L B v (lkey x) ->
  exists r, longest_match T v r /\
    (do f <- fuel ;;
     do o <- match_chain f v mo (-1 - B) (if (lmp x =? NULL)%nat then chead c else lp x) ;;
     match o with Some y => st_ret y | None => match_up f v mo (-1 - B) (rnh_treetop h) (lp x) end) s = (ok r, s).
Proof.
  intros Hok Hv Hend Hd. destruct Hlay as (o & Ho & Hol & HL). pose proof Hok as [_ Hrep Hw Hnd _ _].
  destruct (ending_rep L s v _ _ Hrep) as (par & _ & Hcrep). rewrite Hend in Hcrep.
  pose proof (size_bound _ _ Hnd (trep_ptrs _ _ _ _ Hrep)) as Hsz. pose proof (tree_height_le T) as Hh. pose proof (ending_ptrs v T) as Hpt.
  rewrite Hend in Hpt. simpl in Hpt.
  pose proof (wf_ending off L v _ _ Hw) as Hc. rewrite Hend in Hc. pose proof Hc as (x0 & c0 & E0 & Hrc & Hs & Hro & _).
  injection E0 as <- <-. set (rs := filter is_route (x :: c)) in *.
  assert (exists par', crep L s par' rs /\ chead rs = (if (lmp x =? NULL)%nat then chead c else lp x) /\ (length rs <= S (length c))%nat
    /\ Forall is_route rs) as (par' & Hrsrep & Hhd & Hlen & Hfr).
  { unfold rs. rewrite filter_cons. destruct Hcrep as [Hx Hcr]. rewrite (filter_all _ c Hrc). destruct (Nat.eqb_spec (lmp x) NULL) as [He|He].
    - rewrite decide_False by (by intros ?). exists (lp x). split_and!; [done|done|lia|done].
    - rewrite decide_True by done. exists par. split_and!; [done|done|done|by constructor]. }
  destruct Hd as (HB & Hag & Hne).
  assert (forall y, y ∈ ending v T -> differs_at off L B v (lkey y)) as Hdiff.
  { rewrite Hend. intros y Hy. pose proof (chain_key off L _ x y Hc ltac:(by left) Hy) as Hk. split_and!; [lia|lia| |].
    - eapply agree_trans; [exact Hag|]. eapply agree_sub; [exact Hk|lia|lia].
    - rewrite <-(Hk B) by lia. done. }
  assert (forall y, y ∈ rs -> y ∈ ending v T /\ is_route y) as Hrs
    by (intros y Hy; apply list_elem_of_filter in Hy as [? ?]; by rewrite Hend).
  assert (forall y, y ∈ ending v T -> is_route y -> y ∈ rs) as Hrs'
    by (intros y Hy Hr; apply list_elem_of_filter; by rewrite <-Hend).
  assert (forall y, y ∈ ending v T -> (matches off v y <-> plen y <= B)) as Hmatch.
  { intros y Hy. destruct (Hdiff y Hy) as (_ & Hay & Hny). split.
    - intros Hm. destruct (Z.le_gt_cases (plen y) B); [done|]. exfalso. apply Hny, Hm. lia.
    - intros Hle. eapply agree_sub; [exact Hay|lia|done]. }
  rewrite (st_bind_ok _ _ _ _ _ (eq_refl (fuel s))). rewrite <-Hhd.
  rewrite (st_bind_ok _ _ _ _ _ (match_chain_ok off L s v mo B Hv ltac:(lia) ltac:(lia) ltac:(lia) (S (size (nodes s))) rs par' Hrsrep Hfr Hro ltac:(lia))).
  pose proof (find_routes B rs Hs) as Hf. cbv beta. destruct (List.find _ rs) as [y|]; cbn [fmap option_fmap option_map].
  - exists (lp y). split; [|done]. right. exists y. split; [done|]. destruct Hf as (Hy & Hle & Hbest). destruct (Hrs y Hy) as [Hye Hyr].
    destruct (chain_best v _ T y Hw Hye Hyr) as [? ?]; [by apply Hmatch| |split_and!; [done|by apply Hmatch|done]].
    intros z Hz Hzr Hzm. apply Hbest; [auto|by apply Hmatch].
  - assert (lp x = chead (ending v T)) as -> by (by rewrite Hend).
    rewrite (match_up_top s h T v mo B Hok Hv ltac:(lia)) by lia. eexists. split; [|reflexivity].
    pose proof (climb_longest off L v B (-1) T Hw Hdiff ltac:(intros y Hy Hr; apply Hf; auto)) as Hcl.
    destruct (climb B (above v T)) as [y|]; [right; exists y; by destruct Hcl as (? & ? & _ & ?)|left]. split; [done|].
    intros y Hy Hm. specialize (Hcl y Hy Hm). destruct (route_len _ _ _ (wf_route off L _ _ y Hw Hy)) as [[_ H]|(_ & H & _)]; lia.
Qed.

(** The search ended at the key itself, as far as the mask of its first route reaches. *)
Lemma exact_case s h T v x c : tree_ok s h T -> ending v T = x :: c -> (exists i, off <= i < 8 * L /\ bit v i = false) ->
  (is_route x -> matches off v x) -> (~ is_route x -> agree off (8 * L) v (lkey x)) ->
  longest_match T v (if decide (lmp x = NULL) then chead c else lp x).
Proof.
  intros [_ _ Hw _ _ Hroots] Hend (i0 & Hi0 & Hz0) Hroute Hroot. destruct Hlay as (o & Ho & Hol & HL).
  pose proof (wf_ending off L v _ _ Hw) as Hc. rewrite Hend in Hc. pose proof Hc as (x0 & c0 & E0 & Hrc & Hs & Hro & _).
  injection E0 as <- <-. rewrite filter_cons, (filter_all _ c Hrc) in Hs. destruct (decide (lmp x = NULL)) as [He|He].
  - assert (agree off (8 * L) v (lkey x)) as Hag by (apply Hroot; by intros Hr; apply Hr). rewrite decide_False in Hs by (by intros Hr; apply Hr).
    assert (forall y, y ∈ routes T -> matches off v y -> y ∈ c) as Hin.
    { intros y Hy Hm. assert (constant false (lkey x)) as Hcx.
      { destruct (Hroots x) as [?|Hone]; [apply (ending_in v); rewrite Hend; by left|by intros Hr; apply Hr|done|].
        specialize (Hone i0 Hi0). by rewrite <-(Hag i0 Hi0), Hz0 in Hone. }
      assert (y ∈ ending v T) as Hye.
      { apply (ending_exact v (-1)); [done|by apply elem_of_routes in Hy as [_ ?]|]. intros i Hi.
        destruct (Z.lt_ge_cases i (plen y)) as [Hlt|Hge]; [apply Hm; lia|].
        rewrite (Hag i Hi), (Hcx i Hi). symmetry. by apply (route_zero off L y (wf_route off L _ _ y Hw Hy)). }
      rewrite Hend in Hye. apply elem_of_cons in Hye as [->|?]; [|done]. by apply elem_of_routes in Hy as [Hr _]. }
    destruct c as [|y c].
    + left. split; [done|]. intros y Hy Hm. by apply (Hin y Hy), not_elem_of_nil in Hm.
    + right. exists y. split; [done|]. apply Forall_cons in Hrc as [Hry _]. apply StronglySorted_inv in Hs as [_ Hs].
      rewrite Forall_forall in Hs.
      assert (matches off v y) as Hm.
      { pose proof (wf_route off L _ _ y Hw) as Hyo. eapply agree_trans; [eapply agree_sub; [exact Hag|lia|]|].
        2: eapply agree_sub; [apply (chain_key off L _ x y Hc); [by left|by right; left]|lia|].
        all: assert (y ∈ routes T) as Hyt by (apply elem_of_routes; split; [done|]; apply (ending_in v); rewrite Hend; by right; left);
             destruct (route_len _ _ _ (Hyo Hyt)) as [[_ ?]|(_ & ? & _)]; lia. }
      destruct (chain_best v _ T y Hw) as [Hyt Hbest]; [rewrite Hend; by right; left|done|done| |by split_and!].
      intros z Hz Hzr _. rewrite Hend in Hz. apply elem_of_cons in Hz as [->|[->|Hz]%elem_of_cons]; [done|done|].
      specialize (Hs z Hz). unfold longer in Hs. lia.
  - rewrite decide_True in Hs by done. right. exists x. split; [done|]. specialize (Hroute He).
    apply StronglySorted_inv in Hs as [_ Hs]. rewrite Forall_forall in Hs.
    destruct (chain_best v _ T x Hw) as [Hyt Hbest]; [rewrite Hend; by left|done|done| |by split_and!].
    intros z Hz Hzr _. rewrite Hend in Hz. apply elem_of_cons in Hz as [->|Hz]; [done|].
    specialize (Hs z Hz). unfold longer in Hs. lia.
Qed.

Lemma rn_match_ok s h T v : tree_ok s h T -> query L v -> (exists i, off <= i < 8 * L /\ bit v i = false) ->
  exists r, rn_match v h s = (ok r, s) /\ longest_match T v r.
Proof.
  intros Hok Hq (i0 & Hi0 & Hz0). destruct Hlay as (o & Ho & Hol & HL). pose proof Hok as [(ml & l & r & ET) Hrep Hw Hnd _ Hroots].
  pose proof Hq as [Hq0 Hqb Hql]. assert (0 < length v)%nat as Hv by lia.
  pose proof (size_bound _ _ Hnd (trep_ptrs _ _ _ _ Hrep)) as Hsz. pose proof (tree_height_le T) as Hh.
  assert (rn_offset (rnh_treetop h) s = (ok (Z.to_nat o), s)) as Hoff.
  { pose proof Hrep as Hrep'. rewrite ET in Hrep'. destruct Hrep' as ((n & Hn & Hu & _) & _). unfold rn_offset.
    rewrite (st_bind_ok _ _ _ _ _ (get_inner_ok _ _ _ _ _ _ Hn Hu)). by rewrite Ho, Z.mul_comm, Z.div_mul by lia. }
  assert (rn_search v (rnh_treetop h) s = (ok (chead (ending v T)), s)) as Hsearch.
  { unfold rn_search. rewrite (st_bind_ok _ _ _ _ _ (eq_refl (fuel s))).
    assert (rnh_treetop h = rootp T) as -> by (by rewrite ET). eapply (search_ok off L); [lia|done|exact Hrep|exact Hw|lia]. }
  destruct (ending_rep L s v _ _ Hrep) as (par & Hne & Hcrep). pose proof (wf_ending off L v _ _ Hw) as Hc.
  destruct (ending v T) as [|x c] eqn:Hend; [done|]. destruct Hcrep as [Hx Hcrep]. cbn [chead] in Hsearch.
  pose proof Hx as [(n & Hn & Hu & _ & _ & _ & Hroot) _ _ Hk Hkb Hkl _ Hmb].
  assert (x ∈ leaves T) as Hxl by (apply (ending_in v); rewrite Hend; by left).
  set (vlen := if (lmp x =? NULL)%nat then L else nth 0 (mask_bytes x) 0).
  assert ((if (lmp x =? NULL)%nat then st_ret L else do mb <- load (lmp x) ;; at_ mb 0) s = (ok vlen, s)) as Hvl.
  { unfold vlen. destruct (Nat.eqb_spec (lmp x) NULL) as [|Hm]; [done|].
    rewrite (st_bind_ok _ _ _ _ _ (load_bytes_ok _ _ _ (Hmb Hm))). apply at_ok. unfold mask_bytes. destruct (lnormal x); simpl; lia. }
  assert (0 <= vlen <= L /\ (is_route x -> plen x <= 8 * vlen)) as [Hvl1 Hvl2].
  { unfold vlen. destruct (Nat.eqb_spec (lmp x) NULL) as [He|Hm]; [split; [lia|by intros ?]|].
    assert (route_ok off L x) as Hro by (apply (wf_route off L (-1) T); [done|by apply elem_of_routes]).
    unfold mask_bytes. destruct (route_len _ _ _ Hro) as [[-> Hl]|(-> & Hl & _)]; simpl; [|lia].
    pose proof (Z.div_mod (plen x + 7) 8 ltac:(lia)). pose proof (Z.mod_pos_bound (plen x + 7) 8 ltac:(lia)).
    split; [lia|intros _; lia]. }
  unfold rn_match. rewrite (st_bind_ok _ _ _ _ _ Hoff), (st_bind_ok _ _ _ _ _ (at_ok v 0 s Hv)), (st_bind_ok _ _ _ _ _ Hsearch).
  rewrite (st_bind_ok _ _ _ _ _ (get_leaf_ok _ _ _ _ _ _ Hn Hu)), Hq0, (st_bind_ok _ _ _ _ _ Hvl), (st_bind_ok _ _ _ _ _ (load_bytes_ok _ _ _ Hk)).
  destruct (first_diff_ok s v (lkey x) (Z.to_nat vlen - Z.to_nat o) (Z.to_nat o)) as (d & Ed & Hd); [lia|lia|].
  rewrite (st_bind_ok _ _ _ _ _ Ed). destruct d as [j|].
  - destruct Hd as (Hj & Hjne & Hbefore).
    rewrite (st_bind_ok _ _ _ _ _ (at_ok v j s ltac:(lia))), (st_bind_ok _ _ _ _ _ (at_ok (lkey x) j s ltac:(lia))).
    assert (byte_ok (nth j v 0) /\ byte_ok (nth j (lkey x) 0)) as [Hb1 Hb2].
    { rewrite Forall_forall in Hqb, Hkb. split; [apply Hqb|apply Hkb]; apply list_elem_of_In, nth_In; lia. }
    destruct (diff_bit_spec j v (lkey x) Hb1 Hb2 Hjne) as (HB & HagB & HneB).
    set (B := diff_bit j (nth j v 0) (nth j (lkey x) 0)) in *.
    assert (differs_at off L B v (lkey x)) as Hdiff.
    { split; [lia|]. split; [|done]. intros i Hi. destruct (Z.lt_ge_cases i (8 * Z.of_nat j)) as [Hlt|Hge]; [|apply HagB; lia].
      apply (bytes_agree v (lkey x) o (Z.of_nat j)); [lia| |lia]. intros j' Hj'. apply Hbefore. lia. }
    destruct (mismatch_case s h T v B j x c Hok Hv Hend Hdiff) as (r' & Hlong & Er). exists r'. split; [exact Er|exact Hlong].
  - assert (agree off (8 * vlen) v (lkey x)) as Hag.
    { rewrite Ho. apply bytes_agree; [lia|]. intros j Hj. apply Hd. lia. }
    rewrite (st_bind_ok _ _ _ _ _ (get_ok _ _ _ _ Hn)), has_comm, Hroot. exists (if decide (lmp x = NULL) then chead c else lp x).
    split; [destruct (decide (lmp x = NULL)); [by rewrite bool_decide_true|by rewrite bool_decide_false]|].
    apply (exact_case s h); [done|done|eauto|intros Hr; eapply agree_sub; [exact Hag|lia|auto]|].
    intros Hr. unfold vlen in Hag. destruct (Nat.eqb_spec (lmp x) NULL); [done|by destruct Hr].
Qed.

(** Two routes of one length that match the same key are the same. *)
Lemma route_unique T v x y : wf off L (-1) T -> x ∈ routes T -> y ∈ routes T -> matches off v x -> matches off v y ->
  plen x = plen y -> x = y.
Proof.
  intros Hw Hx Hy Hmx Hmy Hp. destruct Hlay as (o & Ho & Hol & HL).
  assert (agree off (8 * L) (lkey x) (lkey y)) as Hag.
  { intros i Hi. destruct (Z.lt_ge_cases i (plen x)) as [Hlt|Hge]; [rewrite <-(Hmx i), (Hmy i) by lia; done|].
    rewrite (route_zero off L x (wf_route off L _ _ x Hw Hx)), (route_zero off L y (wf_route off L _ _ y Hw Hy)) by lia. done. }
  apply elem_of_routes in Hx as [Hrx Hx], Hy as [Hry Hy].
  pose proof (ending_exact (lkey x) _ _ x Hw Hx ltac:(done)) as Hx'. pose proof (ending_exact (lkey x) _ _ y Hw Hy Hag) as Hy'.
  destruct (wf_ending off L (lkey x) _ _ Hw) as (h & rest & _ & _ & Hs & _).
  apply (sorted_unique (filter is_route (ending (lkey x) T))); [done|by apply list_elem_of_filter..|done].
Qed.

Lemma longest_unique T v v' r r' : wf off L (-1) T -> agree off (8 * L) v v' -> longest_match T v r -> longest_match T v' r' -> r = r'.
Proof.
  intros Hw Hag Hr Hr'. destruct Hlay as (o & Ho & Hol & HL).
  assert (forall y, y ∈ routes T -> matches off v y <-> matches off v' y) as Hm.
  { intros y Hy. assert (plen y <= 8 * L) as Hl by (destruct (route_len _ _ _ (wf_route off L _ _ y Hw Hy)) as [[_ ?]|(_ & ? & _)]; lia).
    split; intros H i Hi; [rewrite <-(Hag i) by lia|rewrite (Hag i) by lia]; by apply H. }
  destruct Hr as [[-> Hno]|(x & -> & Hx & Hmx & Hbx)], Hr' as [[-> Hno']|(y & -> & Hy & Hmy & Hby)]; [done|..].
  - exfalso. apply (Hno y Hy). by apply Hm.
  - exfalso. apply (Hno' x Hx). by apply Hm.
  - f_equal. apply (route_unique T v); [done|done|done|done|by apply Hm|]. apply Z.le_antisymm; [apply Hby; [done|by apply Hm]|apply Hbx; [done|by apply Hm]].
Qed.
End Match.
End RadixMatch.
