(* ===== verification/RadixDec.v ===== *)
(** * Deciding the invariant of the radix tree

    [wf], [trep] and [tree_ok] are decidable, so that they can be evaluated on
    trees the code has built. *)

From Stdlib Require Import ZArith Lia Bool Sorted.
From stdpp Require Import base tactics decidable option gmap list list_numbers sorting.
From S2P Require Import Prelude Radix RadixShape RadixRep RadixMatch.

Open Scope Z_scope.

Module RadixDec.
Import Radix RadixShape RadixRep RadixMatch.

#[export] Instance leaf_eq_dec : EqDecision leaf.
Proof. solve_decision. Defined.
#[export] Instance payload_eq_dec : EqDecision payload.
Proof. solve_decision. Defined.

(** A property of all members of a list. *)
Lemma all_dec {A} (P : A -> Prop) (l : list A) : (forall x, Decision (P x)) -> Decision (forall x, x ∈ l -> P x).
Proof. intros HP. refine (cast_if (decide (Forall P l))); by rewrite <-Forall_forall. Defined.

#[export] Instance bits_dec (P : Z -> Prop) lo hi : (forall i, Decision (P i)) -> Decision (forall i, lo <= i < hi -> P i).
Proof.
  intros HP. refine (cast_if (decide (Forall P (seqZ lo (hi - lo)))));
    abstract (rewrite Forall_seqZ in *; replace (lo + (hi - lo)) with hi in * by lia; done).
Defined.
#[export] Instance agree_dec lo hi v k : Decision (agree lo hi v k).
Proof. unfold agree. apply _. Defined.
#[export] Instance is_route_dec x : Decision (is_route x).
Proof. unfold is_route. apply _. Defined.
#[export] Instance constant_dec off L b v : Decision (constant off L b v).
Proof. unfold constant. apply _. Defined.
#[export] Instance byte_ok_dec c : Decision (byte_ok c).
Proof. unfold byte_ok. apply _. Defined.
#[export] Instance longer_dec : RelDecision longer.
Proof. unfold RelDecision, longer. intros. apply _. Defined.

#[export] Instance route_ok_dec off L x : Decision (route_ok off L x).
Proof.
  refine (cast_if_and (decide (forall i, off <= i < 8 * L -> plen x <= i -> bit (lkey x) i = false))
    (decide (lnormal x = true /\ off < plen x <= 8 * L \/ lnormal x = false /\ plen x = 0 /\ lmp x = rn_zeros)));
    abstract (by (split || intros [])).
Defined.

#[export] Instance chain_ok_dec off L c : Decision (chain_ok off L c).
Proof.
  destruct c as [|x rest]; [right; abstract (by intros (? & ? & ? & _))|].
  refine (cast_if (decide (Forall is_route rest /\ StronglySorted longer (filter is_route (x :: rest))
    /\ Forall (route_ok off L) (filter is_route (x :: rest)) /\ Forall (fun y => agree off (8 * L) (lkey x) (lkey y)) (x :: rest))));
    [abstract (by exists x, rest)|abstract (intros (? & ? & [= <- <-] & ?); done)].
Defined.

#[export] Instance wf_dec off L lo t : Decision (wf off L lo t).
Proof.
  revert lo. induction t as [c|p b ml l IHl r IHr]; intros lo; [apply chain_ok_dec|]. cbn [wf].
  assert (Decision (forall x y, x ∈ leaves (Nd p b ml l r) -> y ∈ leaves (Nd p b ml l r) -> agree off b (lkey x) (lkey y))) as D1.
  { refine (cast_if (decide (Forall (fun x => Forall (fun y => agree off b (lkey x) (lkey y)) (leaves (Nd p b ml l r))) (leaves (Nd p b ml l r)))));
      abstract (rewrite Forall_forall in *; setoid_rewrite Forall_forall in f || setoid_rewrite Forall_forall in n; eauto). }
  assert (Decision (forall x, x ∈ ml.*2 <-> x ∈ routes (Nd p b ml l r) /\ lo < plen x <= b)) as D2.
  { refine (cast_if (decide (Forall (fun x => x ∈ routes (Nd p b ml l r) /\ lo < plen x <= b) ml.*2
      /\ Forall (fun x => lo < plen x <= b -> x ∈ ml.*2) (routes (Nd p b ml l r)))));
      abstract (rewrite !Forall_forall in *; naive_solver). }
  apply _.
Defined.

(** What is found under a key. *)
Lemma found_dec {A} (o : option A) (P : A -> Prop) : (forall a, Decision (P a)) -> Decision (exists a, o = Some a /\ P a).
Proof.
  intros HP. destruct o as [a|]; [|right; abstract (by intros (? & ? & _))].
  refine (cast_if (decide (P a))); [abstract eauto|abstract (intros (? & [= <-] & ?); done)].
Defined.

#[export] Instance mrep_dec s m ml : Decision (mrep s m ml).
Proof.
  revert m. induction ml as [|[q x] ml IH]; intros m; cbn [mrep]; [apply _|].
  apply and_dec; [apply _|]. apply and_dec; [apply _|]. apply found_dec. apply _.
Defined.

#[export] Instance leaf_rep_dec L s par d x : Decision (leaf_rep L s par d x).
Proof.
  assert (Decision (exists n, nodes s !! lp x = Some n /\ rn_u n = Leaf_ (lkp x) (lmp x) d /\ rn_bit n = lbit x
    /\ rn_parent n = par /\ has RNF_NORMAL (rn_flags n) = lnormal x
    /\ has RNF_ROOT (rn_flags n) = bool_decide (lmp x = NULL))) as D by (apply found_dec; apply _).
  refine (cast_if (decide ((exists n, nodes s !! lp x = Some n /\ rn_u n = Leaf_ (lkp x) (lmp x) d /\ rn_bit n = lbit x
    /\ rn_parent n = par /\ has RNF_NORMAL (rn_flags n) = lnormal x
    /\ has RNF_ROOT (rn_flags n) = bool_decide (lmp x = NULL))
    /\ lp x <> NULL /\ lbit x < 0 /\ bytes s !! lkp x = Some (lkey x) /\ Forall byte_ok (lkey x) /\ L <= Z.of_nat (length (lkey x))
    /\ (lmp x <> NULL -> nth 0 (lkey x) 0 = L) /\ (lmp x <> NULL -> bytes s !! lmp x = Some (mask_bytes x)))));
    [abstract (by destruct_and!; split)|abstract (intros []; naive_solver)].
Defined.

#[export] Instance crep_dec L s par c : Decision (crep L s par c).
Proof. revert par. induction c as [|x c IH]; intros par; cbn [crep]; apply _. Defined.

#[export] Instance trep_dec L s par t : Decision (trep L s par t).
Proof.
  revert par. induction t as [c|p b ml l IHl r IHr]; intros par; cbn [trep]; [apply _|].
  apply and_dec; [apply found_dec|]; apply _.
Defined.

#[export] Instance tree_ok_dec off L s h t : Decision (tree_ok off L s h t).
Proof.
  assert (Decision (exists ml l r, t = Nd (rnh_treetop h) off ml l r)) as D1.
  { destruct t as [c|p b ml l r]; [right; abstract (by intros (? & ? & ? & ?))|].
    refine (cast_if_and (decide (p = rnh_treetop h)) (decide (b = off))); [abstract (subst; eauto)|abstract naive_solver..]. }
  assert (Decision (forall x, x ∈ leaves t -> ~ is_route x -> constant off L false (lkey x) \/ constant off L true (lkey x))) as D2
    by (apply all_dec; apply _).
  refine (cast_if (decide ((exists ml l r, t = Nd (rnh_treetop h) off ml l r) /\ trep L s (rnh_treetop h) t /\ wf off L (-1) t
    /\ NoDup (tptrs t) /\ NoDup (mptrs t)
    /\ (forall x, x ∈ leaves t -> ~ is_route x -> constant off L false (lkey x) \/ constant off L true (lkey x)))));
    [abstract (by destruct_and!; split)|abstract (intros []; naive_solver)].
Defined.
End RadixDec.
