(* ===== verification/RadixCtx.v ===== *)
(** * Paths in the radix tree

    A path from the top of a tree of [alpha/al_radix.c] to one of its subtrees
    as a list of frames, and what memory holds along it. The chains of leaves
    are an interface, which the tree of keys and the tree of masks implement. *)

From Stdlib Require Import ZArith Lia Bool Sorted.
From stdpp Require Import base tactics option gmap list.
From S2P Require Import Prelude Radix RadixShape RadixRep.

Open Scope Z_scope.

Module RadixCtx.
Import Radix RadixShape RadixRep.

(** An inner node with a hole at its right ([true]) or left. *)
Record frame := mk_frame { fside : bool; fp : ptr; fb : Z; fml : list (ptr * leaf); fsib : tree }.

Definition fillf (f : frame) (t : tree) : tree :=
  if fside f then Nd (fp f) (fb f) (fml f) (fsib f) t else Nd (fp f) (fb f) (fml f) t (fsib f).
(** The frames are listed from the top. *)
Definition fill (C : list frame) (t : tree) : tree := foldr fillf t C.

(** The root of a filled path, and the parent of what fills it. *)
Definition croot (C : list frame) (hp : ptr) : ptr := match C with [] => hp | f :: _ => fp f end.
Definition cpar (par : ptr) (C : list frame) : ptr := fold_left (fun _ f => fp f) C par.
(** The bit that the innermost frame tests. *)
Definition cbit (lo : Z) (C : list frame) : Z := fold_left (fun _ f => fb f) C lo.

Lemma fill_app C C' t : fill (C ++ C') t = fill C (fill C' t).
Proof. apply foldr_app. Qed.
Lemma fill_snoc C f t : fill (C ++ [f]) t = fill C (fillf f t).
Proof. apply fill_app. Qed.
Lemma cpar_snoc par C f : cpar par (C ++ [f]) = fp f.
Proof. unfold cpar. by rewrite fold_left_app. Qed.
Lemma cbit_snoc lo C f : cbit lo (C ++ [f]) = fb f.
Proof. unfold cbit. by rewrite fold_left_app. Qed.
Lemma rootp_fill C t : rootp (fill C t) = croot C (rootp t).
Proof. destruct C as [|f C]; [done|]. simpl. unfold fillf. by destruct (fside f). Qed.

(** The nodes and the entries of the frames. *)
Definition fptrs (f : frame) : list ptr := fp f :: tptrs (fsib f).
Definition fmptrs (f : frame) : list ptr := (fml f).*1 ++ mptrs (fsib f).
Definition cptrs (C : list frame) : list ptr := C ≫= fptrs.
Definition cmptrs (C : list frame) : list ptr := C ≫= fmptrs.
Definition cml (C : list frame) : list (ptr * leaf) := C ≫= fml.

Lemma cptrs_snoc C f : cptrs (C ++ [f]) = cptrs C ++ fptrs f.
Proof. unfold cptrs. rewrite bind_app. cbn [mbind list_bind]. by rewrite app_nil_r. Qed.
Lemma cmptrs_snoc C f : cmptrs (C ++ [f]) = cmptrs C ++ fmptrs f.
Proof. unfold cmptrs. rewrite bind_app. cbn [mbind list_bind]. by rewrite app_nil_r. Qed.

Lemma cptrs_mid C f D : cptrs (C ++ f :: D) = cptrs C ++ fp f :: tptrs (fsib f) ++ cptrs D.
Proof. unfold cptrs. rewrite bind_app. done. Qed.
Lemma cmptrs_mid C f D : cmptrs (C ++ f :: D) = cmptrs C ++ (fml f).*1 ++ mptrs (fsib f) ++ cmptrs D.
Proof. unfold cmptrs. rewrite bind_app. cbn [mbind list_bind]. unfold fmptrs. by rewrite <-!(assoc_L (++)). Qed.

Lemma tptrs_fillf f t : tptrs (fillf f t) ≡ₚ fptrs f ++ tptrs t.
Proof. unfold fillf, fptrs. destruct (fside f); simpl; [done|]. by rewrite (Permutation_app_comm (tptrs t)). Qed.
Lemma mptrs_fillf f t : mptrs (fillf f t) ≡ₚ fmptrs f ++ mptrs t.
Proof.
  unfold fillf, fmptrs. destruct (fside f); simpl; rewrite <-(assoc_L (++)); [done|]. by rewrite (Permutation_app_comm (mptrs t)).
Qed.
Lemma tptrs_fill C t : tptrs (fill C t) ≡ₚ cptrs C ++ tptrs t.
Proof.
  induction C as [|f C IH]; [done|]. change (fill (f :: C) t) with (fillf f (fill C t)). rewrite tptrs_fillf, IH.
  unfold cptrs. cbn [mbind list_bind]. by rewrite (assoc_L (++)).
Qed.
Lemma mptrs_fill C t : mptrs (fill C t) ≡ₚ cmptrs C ++ mptrs t.
Proof.
  induction C as [|f C IH]; [done|]. change (fill (f :: C) t) with (fillf f (fill C t)). rewrite mptrs_fillf, IH.
  unfold cmptrs. cbn [mbind list_bind]. by rewrite (assoc_L (++)).
Qed.
Lemma leaves_fillf f t : leaves (fillf f t) ≡ₚ leaves (fsib f) ++ leaves t.
Proof. unfold fillf. destruct (fside f); simpl; [done|]. apply Permutation_app_comm. Qed.
Lemma elem_leaves_fill C t x : x ∈ leaves (fill C t) <-> (exists f, f ∈ C /\ x ∈ leaves (fsib f)) \/ x ∈ leaves t.
Proof.
  induction C as [|f C IH]; [split; [by right|by intros [(f & ? & _)|?]; [set_solver|]]|].
  change (fill (f :: C) t) with (fillf f (fill C t)). rewrite leaves_fillf, elem_of_app, IH.
  setoid_rewrite elem_of_cons. naive_solver.
Qed.

(** ** What stays the same in memory *)

(** A leaf may have got another list of masks. *)
Definition nsim (n n' : radix_node) : Prop :=
  n' = n \/ exists k m d q, rn_u n = Leaf_ k m d /\ n' = n <| rn_mklist := q |>.
Definition kept (s s' : state) (p : ptr) : Prop := forall n, nodes s !! p = Some n -> exists n', nodes s' !! p = Some n' /\ nsim n n'.
Definition bytes_kept (s s' : state) : Prop := forall k v, bytes s !! k = Some v -> bytes s' !! k = Some v.
Definition mask_kept (s s' : state) (q : ptr) : Prop := masks s' !! q = masks s !! q.

Lemma kept_eq s s' p : nodes s' !! p = nodes s !! p -> kept s s' p.
Proof. intros H n Hn. exists n. split; [congruence|by left]. Qed.

Lemma mrep_kept s s' m ml : (forall q, q ∈ ml.*1 -> mask_kept s s' q) -> mrep s m ml -> mrep s' m ml.
Proof.
  revert m. induction ml as [|[q x] ml IH]; intros m Hk Hm; [done|]. simpl in *. destruct Hm as (-> & Hq & a & Ha & Hb & Hno & Hu & Hr & Hm).
  split; [done|]. split; [done|]. exists a. split; [by rewrite (Hk q) by set_solver|]. split_and!; [done..|].
  apply IH; [intros; apply Hk; set_solver|done].
Qed.

(** ** Trees over an interface of chains *)

(** [CR s par c]: the chain [c] is in memory below [par]. What a search and an
    insertion need of it, and that it can be moved to another parent. *)
Class ChainRep (L : Z) (CR : state -> ptr -> list leaf -> Prop) : Prop := {
  chain_head s par c : CR s par c -> exists x c', c = x :: c' /\ lp x <> NULL
    /\ bytes s !! lkp x = Some (lkey x) /\ Forall byte_ok (lkey x) /\ L <= Z.of_nat (length (lkey x))
    /\ exists n m d, nodes s !! lp x = Some n /\ rn_u n = Leaf_ (lkp x) m d /\ -257 <= rn_bit n < 0 /\ rn_parent n = par;
  chain_ptrs s par c : CR s par c -> Forall (fun p => is_Some (nodes s !! p)) (map lp c);
  chain_frame s s' par c : CR s par c -> (forall p, p ∈ map lp c -> kept s s' p) -> bytes_kept s s' -> CR s' par c;
  chain_move s s' par par' x c n : CR s par (x :: c) -> nodes s !! lp x = Some n ->
    nodes s' !! lp x = Some (n <| rn_parent := par' |>) ->
    (forall p, p ∈ map lp c -> nodes s' !! p = nodes s !! p) -> bytes_kept s s' -> CR s' par' (x :: c) }.

Section Gen.
Context (L : Z) (CR : state -> ptr -> list leaf -> Prop) {HCR : ChainRep L CR}.

(** An inner node with the children [l] and [r]. *)
Definition inner (s : state) (par p : ptr) (b : Z) (ml : list (ptr * leaf)) (l r : ptr) : Prop :=
  exists n, nodes s !! p = Some n /\ rn_u n = Inner_ (Z.to_nat (b / 8)) l r /\ rn_bit n = b
    /\ rn_bmask n = Z.shiftr 128 (Z.land b 7) /\ rn_parent n = par /\ mrep s (rn_mklist n) ml.

Fixpoint gtrep (s : state) (par : ptr) (t : tree) : Prop :=
  match t with
  | Lf c => CR s par c
  | Nd p b ml l r =>
      (exists n, nodes s !! p = Some n /\ rn_u n = Inner_ (Z.to_nat (b / 8)) (rootp l) (rootp r) /\ rn_bit n = b
        /\ rn_bmask n = Z.shiftr 128 (Z.land b 7) /\ rn_parent n = par /\ mrep s (rn_mklist n) ml)
      /\ p <> NULL /\ gtrep s p l /\ gtrep s p r
  end.

Definition frep (s : state) (par : ptr) (f : frame) (hp : ptr) : Prop :=
  inner s par (fp f) (fb f) (fml f) (if fside f then rootp (fsib f) else hp) (if fside f then hp else rootp (fsib f))
  /\ fp f <> NULL /\ gtrep s (fp f) (fsib f).
Fixpoint ctxrep (s : state) (par : ptr) (C : list frame) (hp : ptr) : Prop :=
  match C with [] => True | f :: C => frep s par f (croot C hp) /\ ctxrep s (fp f) C hp end.

Lemma gtrep_fillf s par f t : gtrep s par (fillf f t) <-> frep s par f (rootp t) /\ gtrep s (fp f) t.
Proof. unfold fillf, frep, inner. destruct (fside f); simpl; tauto. Qed.

Lemma gtrep_fill s par C t : gtrep s par (fill C t) <-> ctxrep s par C (rootp t) /\ gtrep s (cpar par C) t.
Proof.
  revert par. induction C as [|f C IH]; intros par; simpl; [tauto|].
  rewrite gtrep_fillf, IH, rootp_fill. tauto.
Qed.

Lemma ctxrep_app s par C C' hp : ctxrep s par (C ++ C') hp <-> ctxrep s par C (croot C' hp) /\ ctxrep s (cpar par C) C' hp.
Proof.
  revert par. induction C as [|f C IH]; intros par; simpl; [tauto|]. rewrite IH.
  assert (croot (C ++ C') hp = croot C (croot C' hp)) as -> by (by destruct C). tauto.
Qed.

Lemma gtrep_root s par t : gtrep s par t -> exists n, nodes s !! rootp t = Some n /\ rn_parent n = par /\ rootp t <> NULL.
Proof.
  destruct t as [c|p b ml l r]; simpl.
  - intros (x & c' & -> & Hx & _ & _ & _ & n & _ & _ & ? & _ & _ & ?)%chain_head. eauto.
  - intros ((n & ? & _ & _ & _ & ? & _) & ? & _). eauto.
Qed.

Lemma tree_root_in s par t : gtrep s par t -> rootp t ∈ tptrs t.
Proof.
  destruct t as [c|p b ml l r]; simpl; [|set_solver]. intros (x & c' & -> & _)%chain_head. simpl. set_solver.
Qed.

Lemma gtrep_ptrs s par t : gtrep s par t -> Forall (fun p => is_Some (nodes s !! p)) (tptrs t).
Proof.
  revert par. induction t as [c|p b ml l IHl r IHr]; intros par H; simpl in *; [by eapply chain_ptrs|].
  destruct H as ((n & Hn & _) & _ & Hl & Hr). constructor; [eauto|]. apply Forall_app; eauto.
Qed.

(** *** Frames *)
Lemma inner_frame s s' par p b ml l r : inner s par p b ml l r -> nodes s' !! p = nodes s !! p ->
  (forall q, q ∈ ml.*1 -> mask_kept s s' q) -> inner s' par p b ml l r.
Proof. intros (n & Hn & ? & ? & ? & ? & ?) Hp Hq. exists n. split_and!; [congruence|done..|]. by eapply mrep_kept. Qed.

Lemma kept_inner s s' par p b ml l r : inner s par p b ml l r -> kept s s' p -> nodes s' !! p = nodes s !! p.
Proof.
  intros (n & Hn & Hu & _) Hk. destruct (Hk n Hn) as (n' & Hn' & [->|(k & m & d & q & Hl & _)]); congruence.
Qed.

Lemma gtrep_frame s s' par t : gtrep s par t -> (forall p, p ∈ tptrs t -> kept s s' p) ->
  (forall q, q ∈ mptrs t -> mask_kept s s' q) -> bytes_kept s s' -> gtrep s' par t.
Proof.
  revert par. induction t as [c|p b ml l IHl r IHr]; intros par H Hk Hq Hb; simpl in *; [by eapply chain_frame|].
  destruct H as (Hi & Hp & Hl & Hr). change (inner s par p b ml (rootp l) (rootp r)) in Hi. split_and!.
  - eapply inner_frame; [exact Hi|eapply kept_inner, Hk; [exact Hi|set_solver]|intros; apply Hq; set_solver].
  - done.
  - apply IHl; [done|intros; apply Hk; set_solver|intros; apply Hq; set_solver|done].
  - apply IHr; [done|intros; apply Hk; set_solver|intros; apply Hq; set_solver|done].
Qed.

Lemma frep_frame s s' par f hp : frep s par f hp -> (forall p, p ∈ fptrs f -> kept s s' p) ->
  (forall q, q ∈ fmptrs f -> mask_kept s s' q) -> bytes_kept s s' -> frep s' par f hp.
Proof.
  unfold fptrs, fmptrs. intros (Hi & Hp & Ht) Hk Hq Hb. split_and!; [|done|].
  - eapply inner_frame; [exact Hi|eapply kept_inner, Hk; [exact Hi|set_solver]|intros; apply Hq; set_solver].
  - eapply gtrep_frame; [exact Ht|intros; apply Hk; set_solver|intros; apply Hq; set_solver|done].
Qed.

Lemma ctxrep_frame s s' par C hp : ctxrep s par C hp -> (forall p, p ∈ cptrs C -> kept s s' p) ->
  (forall q, q ∈ cmptrs C -> mask_kept s s' q) -> bytes_kept s s' -> ctxrep s' par C hp.
Proof.
  revert par. induction C as [|f C IH]; intros par H Hk Hq Hb; [done|]. unfold cptrs, cmptrs in *. cbn [mbind list_bind] in *.
  destruct H as [Hf HC]. split.
  - eapply frep_frame; [exact Hf|intros; apply Hk; set_solver|intros; apply Hq; set_solver|done].
  - apply IH; [done|intros; apply Hk; set_solver|intros; apply Hq; set_solver|done].
Qed.

(** *** Moving a subtree to another parent *)
Lemma gtrep_move s s' par par' t n : gtrep s par t -> NoDup (tptrs t) -> nodes s !! rootp t = Some n ->
  nodes s' !! rootp t = Some (n <| rn_parent := par' |>) ->
  (forall p, p ∈ tptrs t -> p <> rootp t -> nodes s' !! p = nodes s !! p) ->
  (forall q, q ∈ mptrs t -> mask_kept s s' q) -> bytes_kept s s' -> gtrep s' par' t.
Proof.
  intros H Hnd Hn Hn' Hk Hq Hb. destruct t as [c|p b ml l r]; simpl in *.
  - pose proof H as (x & c' & -> & _)%chain_head. simpl in *. apply NoDup_cons in Hnd as [Hx Hnd].
    eapply chain_move; [exact H|exact Hn|exact Hn'| |done]. intros p Hp. apply Hk; [set_solver|]. intros ->. done.
  - apply NoDup_cons in Hnd as [Hp Hnd]. destruct H as ((n0 & Hn0 & Hu & Hbi & Hbm & Hpar & Hm) & Hne & Hl & Hr).
    rewrite Hn in Hn0. injection Hn0 as <-. split_and!; [|done| |].
    + exists (n <| rn_parent := par' |>). destruct n. simpl in *. split_and!; [done..|].
      eapply mrep_kept; [|exact Hm]. intros; apply Hq; set_solver.
    + eapply gtrep_frame; [exact Hl| | |done].
      * intros q Hq'. apply kept_eq, Hk; [set_solver|]. intros ->. set_solver.
      * intros; apply Hq; set_solver.
    + eapply gtrep_frame; [exact Hr| | |done].
      * intros q Hq'. apply kept_eq, Hk; [set_solver|]. intros ->. set_solver.
      * intros; apply Hq; set_solver.
Qed.
End Gen.
End RadixCtx.
