(* ===== verification/RadixAdd.v ===== *)
(** * A leaf more in the radix tree

    What [rn_insert] and [rn_addroute] of [alpha/al_radix.c] do to the tree,
    without the memory: a leaf joins a chain or gets an inner node of its own,
    lists of masks move up and get an entry; the tree stays well formed. *)

From Stdlib Require Import ZArith Lia Bool Sorted.
From stdpp Require Import base tactics option gmap list.
From S2P Require Import Prelude Radix RadixShape RadixRep RadixCtx.

Open Scope Z_scope.

Module RadixAdd.
Import Radix RadixShape RadixRep RadixCtx.

(** Insertion in front of the first shorter prefix. *)
Fixpoint ins (x : leaf) (c : list leaf) : list leaf :=
  match c with [] => [x] | y :: c' => if plen y <? plen x then x :: c else y :: ins x c' end.
Fixpoint insm (e : ptr * leaf) (ml : list (ptr * leaf)) : list (ptr * leaf) :=
  match ml with [] => [e] | e' :: ml' => if plen e'.2 <? plen e.2 then e :: ml else e' :: insm e ml' end.
(** A root leaf stays first. *)
Definition insc (x : leaf) (c : list leaf) : list leaf :=
  match c with h :: rest => if decide (is_route h) then ins x c else h :: ins x rest | [] => [x] end.

Lemma insm_snd e ml : (insm e ml).*2 = ins e.2 ml.*2.
Proof. induction ml as [|e' ml IH]; [done|]. csimpl. destruct (_ <? _); [done|]. csimpl. by rewrite IH. Qed.
Lemma elem_ins x c y : y ∈ ins x c <-> y = x \/ y ∈ c.
Proof. induction c as [|z c IH]; simpl; [set_solver|]. destruct (_ <? _); set_solver. Qed.
Lemma elem_insm e ml e' : e' ∈ insm e ml <-> e' = e \/ e' ∈ ml.
Proof. induction ml as [|z ml IH]; simpl; [set_solver|]. destruct (_ <? _); set_solver. Qed.
Lemma elem_insc x c y : y ∈ insc x c <-> y = x \/ y ∈ c.
Proof.
  destruct c as [|h c]; [simpl; set_solver|]. unfold insc. destruct (decide _); [apply elem_ins|].
  rewrite !elem_of_cons, elem_ins. tauto.
Qed.

Lemma ins_sorted x c : StronglySorted longer c -> (forall y, y ∈ c -> plen y <> plen x) -> StronglySorted longer (ins x c).
Proof.
  induction 1 as [|y c Hs IH Hy]; intros Hne; simpl; [by repeat constructor|]. destruct (Z.ltb_spec (plen y) (plen x)) as [H|H].
  - constructor; [by constructor|]. constructor; [done|]. eapply Forall_impl; [exact Hy|]. unfold longer. intros. simpl in *. lia.
  - constructor; [apply IH; set_solver|]. apply Forall_forall. intros z [->|Hz]%elem_ins.
    + unfold longer. specialize (Hne y). set_unfold. specialize (Hne (or_introl eq_refl)). lia.
    + rewrite Forall_forall in Hy. by apply Hy.
Qed.

(** A frame with the route [x] below it, and a path of these. *)
Record fgrow (lo : Z) (x : leaf) (f f' : frame) : Prop := {
  grow_side : fside f' = fside f; grow_p : fp f' = fp f; grow_b : fb f' = fb f; grow_sib : fsib f' = fsib f;
  grow_sorted : StronglySorted longer (fml f').*2;
  grow_ml y : y ∈ (fml f').*2 <-> y ∈ (fml f).*2 \/ y = x /\ is_route x /\ lo < plen x <= fb f }.
Inductive cgrow (x : leaf) : Z -> list frame -> list frame -> Prop :=
| grow_nil lo : cgrow x lo [] []
| grow_cons lo f f' C C' : fgrow lo x f f' -> cgrow x (fb f) C C' -> cgrow x lo (f :: C) (f' :: C').

Lemma leaves_grow x lo C C' t : cgrow x lo C C' -> forall y, y ∈ leaves (fill C' t) <-> y ∈ leaves (fill C t).
Proof.
  induction 1 as [|lo f f' C C' Hf Hg IH]; intros y; [done|].
  change (y ∈ leaves (fillf f' (fill C' t)) <-> y ∈ leaves (fillf f (fill C t))).
  by rewrite !leaves_fillf, !elem_of_app, (grow_sib _ _ _ _ Hf), IH.
Qed.

(** The entry [e] in the lists of the path. *)
Definition set_ml (ml : list (ptr * leaf)) (f : frame) : frame := mk_frame (fside f) (fp f) (fb f) ml (fsib f).
Fixpoint adde (lo : Z) (e : ptr * leaf) (C : list frame) : list frame :=
  match C with
  | [] => []
  | f :: C => (if (lo <? plen e.2) && (plen e.2 <=? fb f) then set_ml (insm e (fml f)) f else f) :: adde (fb f) e C
  end.

Section Add.
Context (off L : Z).

(** *** Frames of well-formed trees *)
Lemma wf_fillf lo f t : wf off L lo (fillf f t) <->
  lo < fb f /\ off <= fb f < 8 * L
  /\ Forall (fun x => bit (lkey x) (fb f) = fside f) (leaves t)
  /\ Forall (fun x => bit (lkey x) (fb f) = negb (fside f)) (leaves (fsib f))
  /\ (forall x y, x ∈ leaves (fillf f t) -> y ∈ leaves (fillf f t) -> agree off (fb f) (lkey x) (lkey y))
  /\ StronglySorted longer (fml f).*2
  /\ (forall x, x ∈ (fml f).*2 <-> x ∈ routes (fillf f t) /\ lo < plen x <= fb f)
  /\ wf off L (fb f) t /\ wf off L (fb f) (fsib f).
Proof. destruct f as [[] p b ml sib]; unfold fillf; simpl; tauto. Qed.

Lemma elem_leaves_fillf f t y : y ∈ leaves (fillf f t) <-> y ∈ leaves (fsib f) \/ y ∈ leaves t.
Proof. by rewrite leaves_fillf, elem_of_app. Qed.

(** A leaf more in the hole of a frame. *)
Lemma wf_grow_frame lo x z f f' t t' : wf off L lo (fillf f t) -> fgrow lo x f f' ->
  z ∈ leaves t -> agree off (fb f) (lkey x) (lkey z) -> bit (lkey x) (fb f) = fside f ->
  wf off L (fb f) t' -> (forall y, y ∈ leaves t' <-> y = x \/ y ∈ leaves t) -> wf off L lo (fillf f' t').
Proof.
  intros (Hlo & Hb & Hs & Hn & Hag & _ & Hml & _ & Hws)%wf_fillf [Es Ep Eb Esib Hso Hgr] Hz Hxz Hx Hw Hl.
  assert (forall y, y ∈ leaves (fillf f' t') <-> y = x \/ y ∈ leaves (fillf f t)) as Hle
    by (intros y; rewrite !elem_leaves_fillf, Hl, Esib; tauto).
  assert (z ∈ leaves (fillf f t)) as Hz' by (apply elem_leaves_fillf; by right).
  assert (forall y, y ∈ leaves (fillf f t) -> agree off (fb f) (lkey x) (lkey y)) as Hxy
    by (intros y Hy; eapply agree_trans; [exact Hxz|by apply Hag]).
  apply wf_fillf. rewrite Es, Eb, Esib. split_and!; try done; try lia.
  - apply Forall_forall. intros y [->|Hy]%Hl; [done|]. rewrite Forall_forall in Hs. by apply Hs.
  - intros a a' [->|Ha]%Hle [->|Ha']%Hle; [by intros ? ?|by apply Hxy|apply agree_sym; by apply Hxy|by apply Hag].
  - intros y. rewrite Hgr, Hml, !elem_of_routes, Hle. naive_solver.
Qed.

(** A leaf more at the end of a path. *)
Lemma wf_grow x z C C' : forall lo t t', wf off L lo (fill C t) -> cgrow x lo C C' -> z ∈ leaves t ->
  (forall f, f ∈ C -> agree off (fb f) (lkey x) (lkey z) /\ bit (lkey x) (fb f) = fside f) ->
  wf off L (cbit lo C) t' -> (forall y, y ∈ leaves t' <-> y = x \/ y ∈ leaves t) -> wf off L lo (fill C' t').
Proof.
  intros lo t t' Hw Hg Hz HC Hw' Hl. induction Hg as [lo|lo f f' C C' Hf Hg IH]; [exact Hw'|].
  change (wf off L lo (fillf f' (fill C' t'))). pose proof Hw as (_ & _ & _ & _ & _ & _ & _ & Hwt & _)%wf_fillf.
  destruct (HC f) as [Hxz Hx]; [set_solver|].
  assert (z ∈ leaves (fill C t)) as Hz' by (apply elem_leaves_fill; by right).
  eapply (wf_grow_frame lo x z f f' (fill C t)); [exact Hw|exact Hf|done|done|done| |].
  - apply IH; [exact Hwt|set_solver|exact Hw'].
  - intros y. rewrite (leaves_grow _ _ _ _ t' Hg), !elem_leaves_fill, Hl. tauto.
Qed.

Lemma same_grow x C : forall lo t, ~ is_route x -> wf off L lo (fill C t) -> cgrow x lo C C.
Proof.
  induction C as [|f C IH]; intros lo t Hx Hw; [constructor|].
  pose proof Hw as (_ & _ & _ & _ & _ & Hs & _ & Hwt & _)%wf_fillf. constructor; [|by eapply IH]. split; try done. naive_solver.
Qed.

(** No route of [t] has the prefix of [x]. *)
Definition new_prefix (x : leaf) (t : tree) : Prop :=
  forall y, y ∈ routes t -> plen y = plen x -> ~ agree off (plen x) (lkey x) (lkey y).

(** [x] goes the way of the path, as the leaf [z] at its end does. *)
Definition follows (x z : leaf) (C : list frame) : Prop :=
  forall f, f ∈ C -> agree off (fb f) (lkey x) (lkey z) /\ bit (lkey x) (fb f) = fside f.

Lemma follows_cons x z f C : follows x z (f :: C) <->
  (agree off (fb f) (lkey x) (lkey z) /\ bit (lkey x) (fb f) = fside f) /\ follows x z C.
Proof.
  unfold follows. setoid_rewrite elem_of_cons. split; [by intros H; split; [|split]; eauto; apply H; auto|].
  intros [H H'] g [->|Hg]; eauto.
Qed.

Lemma entry_differs lo x z f t : wf off L lo (fillf f t) -> z ∈ leaves t -> agree off (fb f) (lkey x) (lkey z) ->
  new_prefix x (fillf f t) -> plen x <= fb f -> forall y, y ∈ (fml f).*2 -> plen y <> plen x.
Proof.
  intros (_ & _ & _ & _ & Hag & _ & Hml & _)%wf_fillf Hz Hxz Hnew Hle y Hy He. apply Hml in Hy as [Hy _].
  apply (Hnew y Hy He). eapply agree_sub; [eapply agree_trans; [exact Hxz|apply (Hag z y)]|lia|exact Hle].
  - apply elem_leaves_fillf. by right.
  - by apply elem_of_routes in Hy as [_ ?].
Qed.

Lemma routes_fillf f t y : y ∈ routes (fillf f t) <-> y ∈ routes (fsib f) \/ y ∈ routes t.
Proof. rewrite !elem_of_routes, elem_leaves_fillf. tauto. Qed.

Lemma adde_grow x z q C : forall lo t, is_route x -> wf off L lo (fill C t) -> z ∈ leaves t -> follows x z C ->
  new_prefix x (fill C t) -> cgrow x lo C (adde lo (q, x) C).
Proof.
  induction C as [|f C IH]; intros lo t Hx Hw Hz HC Hnew; [constructor|]. apply follows_cons in HC as [[Hxz _] HC].
  change (fill (f :: C) t) with (fillf f (fill C t)) in *.
  pose proof Hw as (_ & _ & _ & _ & _ & Hs & _ & Hwt & _)%wf_fillf. cbn [adde]. constructor.
  - destruct (Z.ltb_spec lo (plen (q, x).2)) as [Hlo|Hlo], (Z.leb_spec (plen (q, x).2) (fb f)) as [Hle|Hle]; simpl in *.
    2-4: split; try done; intros y; (split; [tauto|intros [?|?]; [done|lia]]).
    split; try done; simpl; rewrite insm_snd; simpl.
    + apply ins_sorted; [done|]. eapply entry_differs; [exact Hw| |done..]. apply elem_leaves_fill. by right.
    + intros y. rewrite elem_ins. naive_solver.
  - apply (IH (fb f) t); [done..|]. intros y Hy. apply Hnew, routes_fillf. by right.
Qed.

(** *** The chain of the key *)
Lemma insc_chain x c : chain_ok off L c -> is_route x -> route_ok off L x ->
  (forall y, y ∈ c -> is_route y -> plen y <> plen x) ->
  (forall y, y ∈ c -> agree off (8 * L) (lkey x) (lkey y)) -> chain_ok off L (insc x c).
Proof.
  intros (h & rest & -> & Hr & Hs & Hok & Hk) Hx Hxo Hne Hag.
  assert (Forall (fun y => agree off (8 * L) (lkey x) (lkey y)) (h :: rest)) as Hxa by (by apply Forall_forall).
  assert (filter is_route rest = rest) as Er.
  { clear -Hr. induction Hr as [|y c Hy Hr IH]; [done|]. rewrite filter_cons_True by done. by rewrite IH. }
  assert (forall c, Forall is_route c -> filter is_route (ins x c) = ins x c) as Ei.
  { clear -Hx. intros c Hc. assert (Forall is_route (ins x c)) as H.
    { apply Forall_forall. intros y [->|Hy]%elem_ins; [done|]. rewrite Forall_forall in Hc. by apply Hc. }
    induction H as [|y d Hy Hd IH]; [done|]. rewrite filter_cons_True by done. by rewrite IH. }
  unfold insc. destruct (decide (is_route h)) as [Hh|Hh].
  - rewrite filter_cons_True, Er in Hs, Hok by done.
    assert (Forall is_route (h :: rest)) as Hall by (by constructor).
    assert (exists h' rest', ins x (h :: rest) = h' :: rest') as (h' & rest' & E) by (simpl; destruct (_ <? _); eauto).
    pose proof (Ei _ Hall) as Ef. pose proof (ins_sorted x _ Hs) as Hso.
    assert (forall y, y ∈ ins x (h :: rest) -> is_route y /\ route_ok off L y /\ agree off (8 * L) (lkey x) (lkey y)) as Hy.
    { intros y [->|Hy]%elem_ins; [split_and!; [done|done|by intros ? ?]|]. rewrite !Forall_forall in *. split_and!; [by apply Hall|by apply Hok|by apply Hxa]. }
    exists h', rest'. split; [done|]. rewrite Ef. split_and!.
    + apply Forall_forall. intros y Hin. apply Hy. rewrite E. set_solver.
    + apply Hso. intros y Hin. apply Hne; [done|]. rewrite Forall_forall in Hall. by apply Hall.
    + apply Forall_forall. intros y Hin. by apply Hy.
    + apply Forall_forall. intros y Hin. eapply agree_trans; [apply agree_sym, Hy; rewrite E; set_solver|by apply Hy].
  - rewrite filter_cons_False, Er in Hs, Hok by done. exists h, (ins x rest). split; [done|]. rewrite filter_cons_False, Ei by done.
    split_and!.
    + apply Forall_forall. intros y [->|Hy]%elem_ins; [done|]. rewrite Forall_forall in Hr. by apply Hr.
    + apply ins_sorted; [done|]. intros y Hy. apply Hne; [set_solver|]. rewrite Forall_forall in Hr. by apply Hr.
    + apply Forall_forall. intros y [->|Hy]%elem_ins; [done|]. rewrite Forall_forall in Hok. by apply Hok.
    + apply Forall_cons in Hk as [Hk0 Hk], Hxa as [Hxh _]. constructor; [done|]. apply Forall_forall. intros y [->|Hy]%elem_ins.
      * by apply agree_sym.
      * rewrite Forall_forall in Hk. by apply Hk.
Qed.

(** *** An inner node of its own *)

(** The lists after "promote general routes from below". *)
Definition promoted (lo B : Z) (t : tree) (ml0 : list (ptr * leaf)) (t1 : tree) : Prop :=
  match t with
  | Lf c => t1 = t /\ ml0.*2 = filter (fun y => is_route y /\ lo < plen y <= B) c
  | Nd p b ml l r => exists ml1, ml = ml1 ++ ml0 /\ t1 = Nd p b ml1 l r
      /\ Forall (fun y => B < plen y) ml1.*2 /\ Forall (fun y => plen y <= B) ml0.*2
  end.

Lemma strongly_app {A} (R : A -> A -> Prop) l l' : StronglySorted R (l ++ l') -> StronglySorted R l /\ StronglySorted R l'.
Proof.
  induction l as [|a l IH]; intros H; [split; [constructor|done]|]. apply StronglySorted_inv in H as [H Ha].
  apply Forall_app in Ha as [Ha _]. destruct (IH H). split; [by constructor|done].
Qed.
Lemma sorted_filter {A} (R : A -> A -> Prop) (P : A -> Prop) `{forall x, Decision (P x)} l : StronglySorted R l -> StronglySorted R (filter P l).
Proof.
  induction 1 as [|a l Hs IH Ha]; [constructor|]. rewrite filter_cons. destruct (decide _); [|done]. constructor; [done|].
  apply Forall_forall. intros y [_ Hy]%list_elem_of_filter. rewrite Forall_forall in Ha. by apply Ha.
Qed.

Lemma promoted_leaves lo B t ml0 t1 : promoted lo B t ml0 t1 -> leaves t1 = leaves t.
Proof. destruct t as [c|p b ml l r]; [by intros [-> _]|]. by intros (ml1 & -> & -> & _). Qed.

Lemma promoted_wf lo B t ml0 t1 : wf off L lo t -> lo < B -> (match t with Lf _ => True | Nd _ b _ _ _ => B < b end) ->
  promoted lo B t ml0 t1 -> wf off L B t1 /\ StronglySorted longer ml0.*2
    /\ forall y, y ∈ ml0.*2 <-> y ∈ routes t /\ lo < plen y <= B.
Proof.
  intros Hw Hlo Hb Hp. destruct t as [c|p b ml l r]; simpl in Hp.
  - destruct Hp as [-> E]. split; [exact Hw|]. rewrite E. destruct Hw as (h & rest & -> & _ & Hs & _). split.
    + assert (filter (fun y => is_route y /\ lo < plen y <= B) (h :: rest) = filter (fun y => lo < plen y <= B) (filter is_route (h :: rest))) as ->.
      { rewrite list_filter_filter. apply list_filter_iff. tauto. }
      by apply sorted_filter.
    + intros y. rewrite list_elem_of_filter, elem_of_routes. simpl. tauto.
  - destruct Hp as (ml1 & -> & -> & H1 & H0). destruct Hw as (Hlb & Hbb & Hl & Hr & Hag & Hs & Hml & Hwl & Hwr).
    rewrite fmap_app in Hs. apply strongly_app in Hs as [Hs1 Hs0]. rewrite Forall_forall in H1, H0.
    assert (forall y, y ∈ (ml1 ++ ml0).*2 <-> y ∈ ml1.*2 \/ y ∈ ml0.*2) as Happ by (intros; by rewrite fmap_app, elem_of_app).
    setoid_rewrite Happ in Hml. split_and!; [|done|].
    + simpl. split_and!; try done; try lia. intros y. split.
      * intros Hy. specialize (H1 y Hy). destruct (proj1 (Hml y)) as [? ?]; [by left|]. split; [done|lia].
      * intros [Hy Hlen]. destruct (proj2 (Hml y)) as [?|Hy']; [split; [done|lia]|done|]. specialize (H0 y Hy'). lia.
    + intros y. split.
      * intros Hy. specialize (H0 y Hy). destruct (proj1 (Hml y)) as [? ?]; [by right|]. split; [done|lia].
      * intros [Hy Hlen]. destruct (proj2 (Hml y)) as [Hy'|?]; [split; [done|lia]| |done]. specialize (H1 y Hy'). lia.
Qed.

(** The bit [B] is the first in which [x] leaves the tree [t]. *)
Definition parts (B : Z) (x : leaf) (t : tree) : Prop :=
  off <= B < 8 * L /\ (match t with Lf _ => True | Nd _ b _ _ _ => B < b end)
  /\ exists z, z ∈ leaves t /\ agree off B (lkey x) (lkey z) /\ bit (lkey x) B <> bit (lkey z) B.

Lemma parts_all lo B x t : wf off L lo t -> parts B x t ->
  forall y, y ∈ leaves t -> agree off B (lkey x) (lkey y) /\ bit (lkey y) B = negb (bit (lkey x) B).
Proof.
  intros Hw (HB & Hb & z & Hz & Hxz & Hne) y Hy.
  assert (exists hi, B < hi /\ agree off hi (lkey z) (lkey y)) as (hi & Hhi & Hzy).
  { destruct t as [c|p b ml l r]; [exists (8 * L); split; [lia|by eapply chain_key]|].
    destruct Hw as (_ & _ & _ & _ & Hag & _). exists b. split; [done|by apply Hag]. }
  split; [eapply agree_trans; [exact Hxz|eapply agree_sub; [exact Hzy|lia|lia]]|].
  rewrite <-(Hzy B) by lia. by destruct (bit (lkey z) B), (bit (lkey x) B).
Qed.

(** The frame of the new inner node, around the leaf [x]. *)
Definition graft (np : ptr) (B : Z) (x : leaf) (ml0 : list (ptr * leaf)) (t1 : tree) : frame :=
  mk_frame (bit (lkey x) B) np B ml0 t1.

Lemma graft_wf lo B x t ml0 t1 np g : wf off L lo t -> lo < B -> parts B x t -> promoted lo B t ml0 t1 ->
  (is_route x -> route_ok off L x) -> fgrow lo x (graft np B x ml0 t1) g -> wf off L lo (fillf g (Lf [x])).
Proof.
  intros Hw Hlo Hp Hpr Hx [Es Ep Eb Esib Hso Hgr]. pose proof (parts_all _ _ _ _ Hw Hp) as Hall. destruct Hp as (HB & Hb & _).
  destruct (promoted_wf _ _ _ _ _ Hw Hlo Hb Hpr) as (Hw1 & Hs & Hml). pose proof (promoted_leaves _ _ _ _ _ Hpr) as El.
  assert (forall y, y ∈ leaves (fillf g (Lf [x])) <-> y = x \/ y ∈ leaves t) as Hle.
  { intros y. rewrite elem_leaves_fillf, Esib. simpl. rewrite El. set_solver. }
  apply wf_fillf. rewrite Es, Eb, Esib. cbn [graft fside fp fb fml fsib]. split_and!; try done; try lia.
  - simpl. by repeat constructor.
  - rewrite El. apply Forall_forall. intros y Hy. by apply Hall.
  - intros a a' [->|Ha]%Hle [->|Ha']%Hle; [by intros ? ?|by apply Hall|apply agree_sym; by apply Hall|].
    eapply agree_trans; [apply agree_sym|]; by apply Hall.
  - intros y. rewrite Hgr, elem_of_routes, Hle. cbn [graft fml fb]. rewrite Hml, elem_of_routes. naive_solver.
  - exists x, []. split_and!; [done|constructor| | |].
    + rewrite filter_cons, filter_nil. destruct (decide _); repeat constructor.
    + rewrite filter_cons, filter_nil. destruct (decide _); [constructor; [by apply Hx|]|]; constructor.
    + constructor; [by intros ? ?|constructor].
Qed.

(** *** Both cases *)
Lemma adde_app lo e C C' : adde lo e (C ++ C') = adde lo e C ++ adde (cbit lo C) e C'.
Proof. revert lo. induction C as [|f C IH]; intros lo; [done|]. simpl. by rewrite IH. Qed.
Lemma cgrow_app x lo C C' D D' : cgrow x lo C D -> cgrow x (cbit lo C) C' D' -> cgrow x lo (C ++ C') (D ++ D').
Proof. induction 1 as [|lo f f' C D Hf Hg IH]; [done|]. intros H. simpl. constructor; [done|by apply IH]. Qed.

Lemma wf_fill_hole lo C t : wf off L lo (fill C t) -> wf off L (cbit lo C) t /\ Forall (fun f => fb f <= cbit lo C) C /\ lo <= cbit lo C.
Proof.
  revert lo. induction C as [|f C IH]; intros lo Hw; [split_and!; [exact Hw|constructor|simpl; lia]|].
  apply wf_fillf in Hw as (Hlo & _ & _ & _ & _ & _ & _ & Hw & _). destruct (IH _ Hw) as (? & HC & ?). simpl.
  split_and!; [done|constructor; [lia|done]|change (cbit lo (f :: C)) with (cbit (fb f) C); lia].
Qed.

Lemma leaves_graft lo C C' x np B t ml0 t1 : promoted lo B t ml0 t1 -> cgrow x (-1) (C ++ [graft np B x ml0 t1]) C' ->
  forall y, y ∈ leaves (fill C' (Lf [x])) <-> y = x \/ y ∈ leaves (fill C t).
Proof.
  intros Hp Hg y. rewrite (leaves_grow _ _ _ _ _ Hg), fill_snoc, !elem_leaves_fill, elem_leaves_fillf.
  simpl. rewrite (promoted_leaves _ _ _ _ _ Hp). set_solver.
Qed.

(** A new inner node. *)
Lemma add_graft C x z q B t ml0 t1 np : wf off L (-1) (fill C t) -> z ∈ leaves t -> follows x z C -> parts B x t ->
  cbit (-1) C < B -> promoted (cbit (-1) C) B t ml0 t1 -> (is_route x -> route_ok off L x /\ new_prefix x (fill C t)) ->
  let C' := C ++ [graft np B x ml0 t1] in
  let C'' := if decide (is_route x) then adde (-1) (q, x) C' else C' in
  cgrow x (-1) C' C'' /\ wf off L (-1) (fill C'' (Lf [x])).
Proof.
  intros Hw Hz HC Hp HB Hpr Hx C' C''. destruct (wf_fill_hole _ _ _ Hw) as (Hwt & _ & _).
  pose proof (parts_all _ _ _ _ Hwt Hp) as Hall. pose proof Hp as (HBb & Hb & _).
  destruct (promoted_wf _ _ _ _ _ Hwt HB Hb Hpr) as (Hw1 & Hs & Hml).
  assert (exists D g, C'' = D ++ [g] /\ cgrow x (-1) C D /\ fgrow (cbit (-1) C) x (graft np B x ml0 t1) g) as (D & g & E & HD & Hg).
  { unfold C'', C'. destruct (decide (is_route x)) as [Hr|Hr].
    - destruct (Hx Hr) as [_ Hnew]. rewrite adde_app. eexists _, _. split; [reflexivity|]. split; [by eapply adde_grow|].
      destruct (Z.ltb_spec (cbit (-1) C) (plen (q, x).2)) as [H|H], (Z.leb_spec (plen (q, x).2) (fb (graft np B x ml0 t1))) as [H'|H']; simpl in *.
      2-4: split; try done; intros y; (split; [tauto|intros [?|?]; [done|simpl in *; lia]]).
      split; try done; simpl; rewrite insm_snd; simpl.
      + apply ins_sorted; [done|]. intros y Hy He. apply Hml in Hy as [Hy _].
        eapply Hnew; [apply elem_of_routes; split; [by apply elem_of_routes in Hy as [? _]|apply elem_leaves_fill; right; by apply elem_of_routes in Hy as [_ ?]]|done|].
        eapply agree_sub; [apply Hall; by apply elem_of_routes in Hy as [_ ?]|lia|lia].
      + intros y. rewrite elem_ins. naive_solver.
    - eexists _, _. split; [reflexivity|]. split; [by eapply same_grow|]. split; try done. naive_solver. }
  rewrite E. split; [apply cgrow_app; [done|constructor; [done|constructor]]|]. rewrite fill_snoc.
  eapply (wf_grow x z C D (-1) t); [exact Hw|exact HD|done|exact HC| |].
  - eapply graft_wf; [exact Hwt|done|done|exact Hpr|by intros ?; apply Hx|exact Hg].
  - intros y. rewrite elem_leaves_fillf, (grow_sib _ _ _ _ Hg). cbn [graft fsib]. rewrite (promoted_leaves _ _ _ _ _ Hpr). simpl. set_solver.
Qed.

(** The key is there. *)
Lemma add_dup C x z q c : 0 <= L -> wf off L (-1) (fill C (Lf c)) -> z ∈ c -> follows x z C -> agree off (8 * L) (lkey x) (lkey z) ->
  is_route x -> route_ok off L x -> new_prefix x (fill C (Lf c)) ->
  cgrow x (-1) C (adde (-1) (q, x) C) /\ wf off L (-1) (fill (adde (-1) (q, x) C) (Lf (insc x c))).
Proof.
  intros HL Hw Hz HC Hag Hr Ho Hnew. destruct (wf_fill_hole _ _ _ Hw) as (Hwt & _ & _).
  pose proof (adde_grow x z q C (-1) (Lf c) Hr Hw Hz HC Hnew) as Hg. split; [done|].
  assert (forall y, y ∈ c -> agree off (8 * L) (lkey x) (lkey y)) as Hall
    by (intros y Hy; eapply agree_trans; [exact Hag|by eapply chain_key]).
  eapply (wf_grow x z C _ (-1) (Lf c)); [exact Hw|exact Hg|done|exact HC| |].
  - apply insc_chain; [exact Hwt|done|done| |done]. intros y Hy Hyr He.
    eapply Hnew; [apply elem_of_routes; split; [done|apply elem_leaves_fill; right; exact Hy]|done|].
    eapply agree_sub; [by apply Hall|lia|]. destruct (route_len _ _ _ Ho) as [[_ ?]|(_ & E & _)]; [lia|].
    lia.
  - intros y. simpl. apply elem_insc.
Qed.
End Add.
End RadixAdd.
