(* ===== verification/RadixInsert.v ===== *)
(** * [rn_insert] in memory

    The insertion of [alpha/al_radix.c] on any tree whose chains keep the
    interface of [RadixCtx]: it finds the key, or it hangs a leaf with an inner
    node of its own at the bit where the key leaves the tree. *)

From Stdlib Require Import ZArith Lia Bool Sorted.
From stdpp Require Import base tactics option gmap list.
From S2P Require Import Prelude Radix RadixShape RadixRep RadixCtx RadixAdd.

Open Scope Z_scope.

Module RadixInsert.
Import Radix RadixShape RadixRep RadixCtx RadixAdd.

(** ** Writing one node *)
Definition upd (s : state) (p : ptr) (n : radix_node) : state := s <| nodes := <[p := n]> (nodes s) |>.

Lemma nodes_upd s p n : nodes (upd s p n) = <[p := n]> (nodes s).
Proof. by destruct s. Qed.
Lemma masks_upd s p n : masks (upd s p n) = masks s.
Proof. by destruct s. Qed.
Lemma bytes_upd s p n : bytes (upd s p n) = bytes s.
Proof. by destruct s. Qed.
Lemma brk_upd s p n : brk (upd s p n) = brk s.
Proof. by destruct s. Qed.
Lemma oom_upd s p n : oom (upd s p n) = oom s.
Proof. by destruct s. Qed.
Lemma nupd_eq s p n : nodes (upd s p n) !! p = Some n.
Proof. rewrite nodes_upd. apply lookup_insert_eq. Qed.
Lemma nupd_ne s p q n : p <> q -> nodes (upd s p n) !! q = nodes s !! q.
Proof. rewrite nodes_upd. apply lookup_insert_ne. Qed.

Lemma update_ok s p n f : nodes s !! p = Some n -> update p f s = (ok tt, upd s p (f n)).
Proof. intros H. unfold update. by rewrite (st_bind_ok _ _ _ _ _ (deref_ok _ _ _ H)). Qed.

Lemma set_inner_ok s p n o l r (w : nat -> ptr -> ptr -> payload) : nodes s !! p = Some n -> rn_u n = Inner_ o l r ->
  (do (o, l, r) <- get_inner p ;; set_u p (w o l r)) s = (ok tt, upd s p (n <| rn_u := w o l r |>)).
Proof.
  intros H Hu. rewrite (st_bind_ok _ _ _ _ _ (get_inner_ok _ _ _ _ _ _ H Hu)). unfold set_u. exact (update_ok _ _ _ (fun x => x <| rn_u := w o l r |>) H).
Qed.
Lemma set_leaf_ok s p n k m d (w : ptr -> ptr -> ptr -> payload) : nodes s !! p = Some n -> rn_u n = Leaf_ k m d ->
  (do (k, m, d) <- get_leaf p ;; set_u p (w k m d)) s = (ok tt, upd s p (n <| rn_u := w k m d |>)).
Proof.
  intros H Hu. rewrite (st_bind_ok _ _ _ _ _ (get_leaf_ok _ _ _ _ _ _ H Hu)). unfold set_u. exact (update_ok _ _ _ (fun x => x <| rn_u := w k m d |>) H).
Qed.
Lemma rn_left_ok s p n o l r : nodes s !! p = Some n -> rn_u n = Inner_ o l r -> rn_left p s = (ok l, s).
Proof. intros H Hu. unfold rn_left. by rewrite (st_bind_ok _ _ _ _ _ (get_inner_ok _ _ _ _ _ _ H Hu)). Qed.
Lemma rn_right_ok s p n o l r : nodes s !! p = Some n -> rn_u n = Inner_ o l r -> rn_right p s = (ok r, s).
Proof. intros H Hu. unfold rn_right. by rewrite (st_bind_ok _ _ _ _ _ (get_inner_ok _ _ _ _ _ _ H Hu)). Qed.
Lemma rn_offset_ok s p n o l r : nodes s !! p = Some n -> rn_u n = Inner_ o l r -> rn_offset p s = (ok o, s).
Proof. intros H Hu. unfold rn_offset. by rewrite (st_bind_ok _ _ _ _ _ (get_inner_ok _ _ _ _ _ _ H Hu)). Qed.
Lemma rn_key_ok s p n k m d : nodes s !! p = Some n -> rn_u n = Leaf_ k m d -> rn_key p s = (ok k, s).
Proof. intros H Hu. unfold rn_key. by rewrite (st_bind_ok _ _ _ _ _ (get_leaf_ok _ _ _ _ _ _ H Hu)). Qed.
Lemma rn_mask_ok s p n k m d : nodes s !! p = Some n -> rn_u n = Leaf_ k m d -> rn_mask p s = (ok m, s).
Proof. intros H Hu. unfold rn_mask. by rewrite (st_bind_ok _ _ _ _ _ (get_leaf_ok _ _ _ _ _ _ H Hu)). Qed.
Lemma rn_dupedkey_ok s p n k m d : nodes s !! p = Some n -> rn_u n = Leaf_ k m d -> rn_dupedkey p s = (ok d, s).
Proof. intros H Hu. unfold rn_dupedkey. by rewrite (st_bind_ok _ _ _ _ _ (get_leaf_ok _ _ _ _ _ _ H Hu)). Qed.

(** A node of a memory with some writes. *)
Ltac lk :=
  first [ eassumption
        | apply nupd_eq
        | rewrite nupd_ne by first [assumption | apply not_eq_sym; assumption | lia | congruence]; lk ].
(** One access. *)
Ltac racc :=
  first [ eapply deref_ok; lk | eapply get_ok; lk
        | eapply get_inner_ok; [lk|first [eassumption|reflexivity]] | eapply get_leaf_ok; [lk|first [eassumption|reflexivity]]
        | eapply rn_left_ok; [lk|first [eassumption|reflexivity]] | eapply rn_right_ok; [lk|first [eassumption|reflexivity]]
        | eapply rn_offset_ok; [lk|first [eassumption|reflexivity]] | eapply rn_key_ok; [lk|first [eassumption|reflexivity]]
        | eapply rn_mask_ok; [lk|first [eassumption|reflexivity]] | eapply rn_dupedkey_ok; [lk|first [eassumption|reflexivity]]
        | eapply update_ok; lk
        | eapply set_inner_ok; [lk|first [eassumption|reflexivity]] | eapply set_leaf_ok; [lk|first [eassumption|reflexivity]]
        | eapply at_ok; first [assumption|lia] | eapply load_bytes_ok; rewrite ?bytes_upd; eassumption ].
Ltac rstep := erewrite st_bind_ok by racc; cbv beta iota.

Lemma rn_newpair_ok s (v : ptr) b (p : ptr) : nodes s !! p = Some zero_leaf -> nodes s !! S p = Some zero_inner ->
  exists s', rn_newpair v b p s = (ok (S p), s')
    /\ nodes s' = <[p := mk_node NULL (S p) (-1) 0 RNF_ACTIVE (Leaf_ v NULL NULL)]>
         (<[S p := mk_node NULL NULL b (Z.shiftr 128 (Z.land b 7)) RNF_ACTIVE (Inner_ (Z.to_nat (Z.shiftr b 3)) p NULL)]> (nodes s))
    /\ masks s' = masks s /\ bytes s' = bytes s /\ brk s' = brk s /\ oom s' = oom s.
Proof.
  intros H1 H2. assert (p <> S p) as Hne by lia. unfold rn_newpair.
  do 11 rstep. eexists. split; [reflexivity|]. rewrite !masks_upd, !bytes_upd, !brk_upd, !oom_upd. split_and!; try done.
  apply map_eq. intros i. rewrite !nodes_upd. destruct (decide (i = p)) as [->|]; [by simplify_map_eq|].
  destruct (decide (i = S p)) as [->|]; by simplify_map_eq.
Qed.

(** ** Finding the place *)
Section Gen.
Context (L : Z) (CR : state -> ptr -> list leaf -> Prop) {HCR : ChainRep L CR}.
Context (off : Z) (Hoff : 0 <= off) (HL : L <= 32).

Lemma byte_in_key b (v : list Z) : 0 <= b < 8 * L -> L <= Z.of_nat (length v) -> (Z.to_nat (b / 8) < length v)%nat.
Proof. intros Hb Hl. pose proof (Z.div_lt_upper_bound b 8 L ltac:(lia) ltac:(lia)). pose proof (Z.div_pos b 8 ltac:(lia) ltac:(lia)). lia. Qed.

Lemma search_gen s v : L <= Z.of_nat (length v) -> forall f t lo par, gtrep CR s par t -> wf off L lo t ->
  (height t < f)%nat -> search_loop f v (rootp t) s = (ok (chead (ending v t)), s).
Proof.
  intros Hv. induction f as [|f IH]; intros t lo par Hr Hw Hf; [lia|]. cbn [search_loop].
  destruct t as [c|p b ml l r]; simpl rootp.
  - destruct (chain_head _ _ _ Hr) as (x & c' & -> & _ & _ & _ & _ & n & _ & _ & Hn & _ & Hb & _).
    simpl. rewrite (st_bind_ok _ _ _ _ _ (deref_ok _ _ _ Hn)). by rewrite (proj2 (Z.ltb_lt _ _)) by lia.
  - destruct Hr as ((n & Hn & Hu & Hb & Hbm & _) & _ & Hl & Hr). destruct Hw as (_ & Hbb & _ & _ & _ & _ & _ & Hwl & Hwr).
    rewrite (st_bind_ok _ _ _ _ _ (deref_ok _ _ _ Hn)), Hb, (proj2 (Z.ltb_ge _ _)) by lia.
    rewrite (st_bind_ok _ _ _ _ _ (get_inner_ok _ _ _ _ _ _ Hn Hu)).
    rewrite (st_bind_ok _ _ _ _ _ (at_ok _ _ _ (byte_in_key b v ltac:(lia) Hv))), Hbm, has_testbit, <-bit_nth. simpl ending. simpl in Hf.
    destruct (bit v b); [apply (IH r b p)|apply (IH l b p)]; (done || lia).
Qed.

Lemma ending_gen s v t : forall par, gtrep CR s par t -> exists z c par', ending v t = z :: c /\ CR s par' (z :: c).
Proof.
  induction t as [c|p b ml l IHl r IHr]; intros par Hr.
  - destruct (chain_head _ _ _ Hr) as (x & c' & -> & _). by exists x, c', par.
  - destruct Hr as (_ & _ & Hl & Hr). simpl. destruct (bit v b); eauto.
Qed.

(** The bit of a subtree's root. *)
Definition tbit (t : tree) : option Z := match t with Lf _ => None | Nd _ b _ _ _ => Some b end.
Lemma root_bit s par t : gtrep CR s par t -> exists n, nodes s !! rootp t = Some n /\ match tbit t with None => -257 <= rn_bit n < 0 | Some b => rn_bit n = b end.
Proof.
  destruct t as [c|p b ml l r]; simpl.
  - intros (x & c' & -> & _ & _ & _ & _ & n & _ & _ & Hn & _ & Hb & _)%chain_head. eauto.
  - intros ((n & Hn & _ & Hb & _) & _). eauto.
Qed.

(** The frames on the way of [v], all of them before the bit [B]. *)
Definition before_bit (v : list Z) (B : Z) (C : list frame) : Prop := Forall (fun f => bit v (fb f) = fside f /\ fb f < B) C.

Lemma insert_point_ok s v B : L <= Z.of_nat (length v) -> 0 <= B < 2 ^ 31 -> forall f p b ml l r lo par,
  let t := Nd p b ml l r in
  gtrep CR s par t -> wf off L lo t -> b < B -> (height t < f)%nat -> exists C g u, t = fill (C ++ [g]) u
    /\ insert_point f v B p s = (ok (fp g, rootp u), s) /\ before_bit v B (C ++ [g]) /\ ending v u = ending v t
    /\ match tbit u with None => True | Some b' => B <= b' end.
Proof.
  intros Hv HB. induction f as [|f IH]; intros p b ml l r lo par t Hr Hw Hb Hf; [lia|]. cbn [insert_point].
  destruct Hr as ((n & Hn & Hu & Hbn & Hbm & _) & _ & Hl & Hrr). pose proof Hw as (_ & Hbb & _ & _ & _ & _ & Hml & Hwl & Hwr).
  unfold child. unfold t in Hf. simpl in Hf. set (u := if bit v b then r else l).
  set (g := mk_frame (bit v b) p b ml (if bit v b then l else r)).
  assert (t = fillf g u) as Et by (unfold t, g, u, fillf; simpl; by destruct (bit v b)).
  assert (gtrep CR s p u /\ wf off L b u /\ (height u < f)%nat /\ ending v u = ending v t) as (Hru & Hwu & Hfu & Eu)
    by (unfold u, t; simpl; destruct (bit v b); split_and!; (done || lia)).
  assert (child v p s = (ok (rootp u), s)) as Ec.
  { unfold child. rstep. rstep. rewrite (st_bind_ok _ _ _ _ _ (at_ok _ _ _ (byte_in_key b v ltac:(lia) Hv))). unfold st_ret.
    rewrite has_comm, Hbm, has_testbit, <-bit_nth. unfold u. by destruct (bit v b). }
  fold (child v p). rewrite (st_bind_ok _ _ _ _ _ Ec). destruct (root_bit _ _ _ Hru) as (un & Hun & Hub).
  rewrite (st_bind_ok _ _ _ _ _ (get_ok _ _ _ _ Hun)). cbv beta.
  assert ((u32 (rn_bit un) <? B) = match tbit u with None => false | Some b' => b' <? B end) as ->.
  { unfold u32, wrap. destruct (tbit u) as [b'|] eqn:Eb'.
    - rewrite Hub. destruct u as [|p' b0 ml' l' r']; [done|]. injection Eb' as ->. destruct Hwu as (? & ? & _).
      destruct (Z.ltb_spec b' B) as [HbB|HbB].
      + apply Z.ltb_lt. rewrite Z.mod_small; lia.
      + apply Z.ltb_ge. rewrite Z.mod_small; lia.
    - apply Z.ltb_ge. replace (rn_bit un) with (rn_bit un + 2 ^ 32 + (-1) * 2 ^ 32) by lia. rewrite Z_mod_plus_full, Z.mod_small; lia. }
  destruct (tbit u) as [b'|] eqn:Eb'; [|by exists [], g, u; simpl; rewrite Eb'; split_and!; [done|done|by repeat constructor|done|]].
  destruct (Z.ltb_spec b' B) as [HbB|HbB].
  - destruct u as [|p' b0 ml' l' r'] eqn:Eu'; [done|]. injection Eb' as ->. destruct (IH p' b' ml' l' r' b p) as (C & g' & u' & E & Ei & HC & Ee & Hu'); [done..|].
    exists (g :: C), g', u'. split_and!; [|exact Ei|by constructor|congruence|done]. rewrite Et, E. done.
  - exists [], g, u. rewrite Eb'. split_and!; [done|done|by repeat constructor|done|lia].
Qed.

(** ** Comparing with the key found *)
Lemma compare_keys s v k o len : off = 8 * o -> Forall byte_ok v -> Forall byte_ok k -> L <= Z.of_nat (length v) ->
  L <= Z.of_nat (length k) -> o <= len <= L -> exists d, first_diff (Z.to_nat len - Z.to_nat o) (Z.to_nat o) v k s = (ok d, s)
    /\ match d with
       | None => agree off (8 * len) v k
       | Some j => let B := diff_bit j (nth j v 0) (nth j k 0) in
           (j < length v)%nat /\ (j < length k)%nat /\ off <= B < 8 * len /\ agree off B v k /\ bit v B <> bit k B
       end.
Proof.
  intros Ho Hvb Hkb Hv Hk Hlen.
  destruct (first_diff_ok s v k (Z.to_nat len - Z.to_nat o) (Z.to_nat o)) as (d & Ed & Hd); [lia|lia|]. exists d. split; [done|].
  destruct d as [j|].
  - destruct Hd as (Hj & Hjne & Hbefore).
    assert (byte_ok (nth j v 0) /\ byte_ok (nth j k 0)) as [Hb1 Hb2].
    { rewrite Forall_forall in Hvb, Hkb. split; [apply Hvb|apply Hkb]; apply list_elem_of_In, nth_In; lia. }
    destruct (diff_bit_spec j v k Hb1 Hb2 Hjne) as (HB & HagB & HneB). cbv zeta. split_and!; [lia|lia|lia|lia| |done].
    intros i Hi. destruct (Z.lt_ge_cases i (8 * Z.of_nat j)) as [Hlt|Hge]; [|apply HagB; lia].
    apply (bytes_agree v k o (Z.of_nat j)); [lia| |lia]. intros j' Hj'. apply Hbefore. lia.
  - rewrite Ho. apply bytes_agree; [lia|]. intros j Hj. apply Hd. lia.
Qed.

(** ** Hanging the new pair *)
Definition hang (v_arg : ptr) (v : list Z) (b : Z) (nodes_ p x : ptr) : st state (bool * ptr) :=
  do t <- rn_newpair v_arg b nodes_ ;;
  do tt_ <- rn_left t ;;
  do pn <- deref p ;; do po <- rn_offset p ;; do c <- at_ v po ;;
  do _ <- (if has c (rn_bmask pn) then set_right p t else set_left p t) ;;
  do _ <- set_parent x t ;;
  do _ <- set_parent t p ;;
  do tn <- deref t ;; do to <- rn_offset t ;; do c <- at_ v to ;;
  do _ <- (if has c (rn_bmask tn) then do _ <- set_right t tt_ ;; set_left t x else set_right t x) ;;
  st_ret (false, tt_).

(** The new leaf, before it gets a mask. *)
Definition bare_leaf (vp np : ptr) : radix_node := mk_node NULL (S np) (-1) 0 RNF_ACTIVE (Leaf_ vp NULL NULL).

(** What the insertion of a pair at [np] leaves alone. *)
Record hung (s s' : state) (np p x : ptr) : Prop := {
  hung_same (q : ptr) : q <> np -> q <> S np -> q <> p -> q <> x -> nodes s' !! q = nodes s !! q;
  hung_mklist (q : ptr) n : q <> np -> q <> S np -> nodes s !! q = Some n -> exists n', nodes s' !! q = Some n'
    /\ rn_mklist n' = rn_mklist n /\ rn_flags n' = rn_flags n;
  hung_masks : masks s' = masks s; hung_bytes : bytes s' = bytes s; hung_brk : brk s' = brk s; hung_oom : oom s' = oom s;
  hung_dom (q : ptr) : is_Some (nodes s' !! q) <-> is_Some (nodes s !! q) }.

Lemma hang_ok s (vp : ptr) v B (np : ptr) g u (par : ptr) : nodes s !! np = Some zero_leaf -> nodes s !! S np = Some zero_inner ->
  L <= Z.of_nat (length v) -> off <= B < 8 * L -> off <= fb g < 8 * L -> bit v (fb g) = fside g ->
  frep CR s par g (rootp u) -> gtrep CR s (fp g) u -> NoDup (np :: S np :: fptrs g ++ tptrs u) ->
  exists s', hang vp v B np (fp g) (rootp u) s = (ok (false, np), s') /\ hung s s' np (fp g) (rootp u)
    /\ nodes s' !! np = Some (bare_leaf vp np)
    /\ frep CR s' par g (S np) /\ frep CR s' (fp g) (mk_frame (bit v B) (S np) B [] u) np
    /\ exists o l r, nodes s' !! S np = Some (mk_node NULL (fp g) B (Z.shiftr 128 (Z.land B 7)) RNF_ACTIVE (Inner_ o l r)).
Proof.
  intros Hnp Hsnp Hv HB Hgb Hside Hg Hu Hnd.
  apply NoDup_cons in Hnd as [Hn1 Hnd]. apply NoDup_cons in Hnd as [Hn2 Hnd]. unfold fptrs in *.
  rewrite <-app_comm_cons in *. apply NoDup_cons in Hnd as [Hgn Hnd].
  pose proof (tree_root_in L CR _ _ _ Hu) as Hru. destruct (gtrep_root L CR _ _ _ Hu) as (un & Hun & Hpar & Hune).
  rewrite !not_elem_of_cons in *. rewrite !not_elem_of_app in *.
  assert (fp g <> rootp u) as Hgu by (intros E; apply Hgn; rewrite E; done).
  assert (np <> rootp u /\ S np <> rootp u /\ np <> fp g /\ S np <> fp g /\ np <> S np) as (H1 & H2 & H3 & H4 & H5).
  { split_and!; try tauto; try (intros E; rewrite <-E in Hru; tauto). }
  pose proof Hg as ((gn & Hgn' & Hgu' & Hgbit & Hgbm & Hgpar & Hgm) & Hgne & Hsib).
  destruct (rn_newpair_ok s vp B np Hnp Hsnp) as (s1 & E1 & EN & EM & EB & EK & EO).
  unfold hang. rewrite (st_bind_ok _ _ _ _ _ E1).
  assert (nodes s1 !! np = Some (bare_leaf vp np)) as N1 by (rewrite EN; by simplify_map_eq).
  assert (nodes s1 !! S np = Some (mk_node NULL NULL B (Z.shiftr 128 (Z.land B 7)) RNF_ACTIVE (Inner_ (Z.to_nat (Z.shiftr B 3)) np NULL))) as N2
    by (rewrite EN; by simplify_map_eq).
  assert (forall q : ptr, q <> np -> q <> S np -> nodes s1 !! q = nodes s !! q) as N0 by (intros; rewrite EN; by simplify_map_eq).
  assert (nodes s1 !! fp g = Some gn) as N3 by (by rewrite N0 by done).
  assert (nodes s1 !! rootp u = Some un) as N4 by (by rewrite N0 by done).
  destruct gn as [gml gpar gbit gbm gfl gu]. simpl in *. subst gu.
  assert (Z.shiftr B 3 = B / 8) as ES by (rewrite Z.shiftr_div_pow2 by lia; done).
  rstep. rstep. rstep.
  rewrite (st_bind_ok _ _ _ _ _ (at_ok _ _ _ (byte_in_key (fb g) v ltac:(lia) Hv))).
  cbv beta. simpl rn_bmask. rewrite has_comm, Hgbm, has_testbit, <-bit_nth, Hside.
  set (gu' := Inner_ (Z.to_nat (fb g / 8)) (if fside g then rootp (fsib g) else S np) (if fside g then S np else rootp (fsib g))).
  assert ((if fside g then set_right (fp g) (S np) else set_left (fp g) (S np)) s1 = (ok tt, upd s1 (fp g) (mk_node gml gpar gbit gbm gfl gu'))) as Eg.
  { unfold gu'. destruct (fside g); [unfold set_right|unfold set_left]; (erewrite set_inner_ok; [|exact N3|reflexivity]); reflexivity. }
  rewrite (st_bind_ok _ _ _ _ _ Eg). clear Eg. set (s2 := upd s1 _ _).
  assert (nodes s2 !! fp g = Some (mk_node gml gpar gbit gbm gfl gu')) as M3 by (unfold s2; lk).
  assert (nodes s2 !! rootp u = Some un) as M4 by (unfold s2; lk).
  assert (nodes s2 !! np = Some (bare_leaf vp np)) as M1 by (unfold s2; lk).
  assert (nodes s2 !! S np = Some (mk_node NULL NULL B (Z.shiftr 128 (Z.land B 7)) RNF_ACTIVE (Inner_ (Z.to_nat (Z.shiftr B 3)) np NULL))) as M2
    by (unfold s2; lk).
  rstep. rstep. rstep. rstep. rewrite ES.
  rewrite (st_bind_ok _ _ _ _ _ (at_ok _ _ _ (byte_in_key B v ltac:(lia) Hv))).
  cbv beta. match goal with |- context [has _ (rn_bmask ?n)] => change (rn_bmask n) with (Z.shiftr 128 (Z.land B 7)) end.
  rewrite has_comm, has_testbit, <-bit_nth.
  set (s3 := upd s2 _ _). set (s4 := upd s3 _ _).
  set (tu := Inner_ (Z.to_nat (B / 8)) (if bit v B then rootp u else np) (if bit v B then np else rootp u)).
  set (tn := mk_node NULL (fp g) B (Z.shiftr 128 (Z.land B 7)) RNF_ACTIVE tu).
  assert (exists s5, (if bit v B then do _ <- set_right (S np) np ;; set_left (S np) (rootp u) else set_right (S np) (rootp u)) s4 = (ok tt, s5)
    /\ nodes s5 = <[S np := tn]> (nodes s4) /\ masks s5 = masks s4 /\ bytes s5 = bytes s4 /\ brk s5 = brk s4 /\ oom s5 = oom s4)
    as (s5 & E5 & EN5 & EM5 & EB5 & EK5 & EO5).
  { unfold tn, tu. destruct (bit v B).
    - unfold set_right, set_left. erewrite st_bind_ok by (eapply set_inner_ok; [apply nupd_eq|reflexivity]).
      erewrite set_inner_ok; [|apply nupd_eq|reflexivity]. eexists. split; [reflexivity|]. rewrite !nodes_upd, insert_insert_eq.
      rewrite !masks_upd, !bytes_upd, !brk_upd, !oom_upd. done.
    - unfold set_right. erewrite set_inner_ok; [|apply nupd_eq|reflexivity]. eexists. split; [reflexivity|]. rewrite !nodes_upd.
      rewrite !masks_upd, !bytes_upd, !brk_upd, !oom_upd. done. }
  rewrite (st_bind_ok _ _ _ _ _ E5). exists s5. split; [reflexivity|].
  assert (masks s5 = masks s /\ bytes s5 = bytes s /\ brk s5 = brk s /\ oom s5 = oom s) as (FM & FB & FK & FO).
  { rewrite EM5, EB5, EK5, EO5. unfold s4, s3, s2. rewrite !masks_upd, !bytes_upd, !brk_upd, !oom_upd. by rewrite EM, EB, EK, EO. }
  assert (nodes s5 !! S np = Some tn) as F2 by (rewrite EN5; by simplify_map_eq).
  assert (forall q : ptr, q <> S np -> nodes s5 !! q = nodes s3 !! q) as F5
    by (intros q Hq; rewrite EN5, lookup_insert_ne by done; unfold s4; by rewrite nupd_ne).
  assert (nodes s5 !! np = Some (bare_leaf vp np)) as F1 by (rewrite F5 by done; unfold s3; rewrite nupd_ne by done; exact M1).
  assert (nodes s5 !! fp g = Some (mk_node gml gpar gbit gbm gfl gu')) as F3 by (rewrite F5 by done; unfold s3; rewrite nupd_ne by done; exact M3).
  assert (nodes s5 !! rootp u = Some (un <| rn_parent := S np |>)) as F4 by (rewrite F5 by done; unfold s3; apply nupd_eq).
  assert (forall q : ptr, q <> np -> q <> S np -> q <> fp g -> q <> rootp u -> nodes s5 !! q = nodes s !! q) as F0.
  { intros q ? ? ? ?. rewrite F5 by done. unfold s3, s2. rewrite !nupd_ne by done. by apply N0. }
  assert (bytes_kept s s5) as Hbk by (intros k w; by rewrite FB).
  assert (forall q, mask_kept s s5 q) as Hmk by (intros q; unfold mask_kept; by rewrite FM).
  apply NoDup_app in Hnd as (Hns & Hdis & Hnu).
  split_and!; [split; try done| | | |by exists (Z.to_nat (B / 8)); eexists _, _].
  - intros q n Hq1 Hq2 Hn. destruct (decide (q = fp g)) as [->|Hq3]; [rewrite Hgn' in Hn; injection Hn as <-; eauto|].
    destruct (decide (q = rootp u)) as [->|Hq4]; [rewrite Hun in Hn; injection Hn as <-; eexists; split; [exact F4|by destruct un]|].
    exists n. by rewrite F0 by done.
  - intros q. destruct (decide (q = np)) as [->|Hq1]; [by split; intros _; eexists|].
    destruct (decide (q = S np)) as [->|Hq2]; [by split; intros _; eexists|].
    destruct (decide (q = fp g)) as [->|Hq3]; [by split; intros _; eexists|].
    destruct (decide (q = rootp u)) as [->|Hq4]; [by split; intros _; eexists|]. pose proof (F0 q Hq1 Hq2 Hq3 Hq4) as E. split; intros [w Hw]; exists w; congruence.
  - exact F1.
  - split_and!; [|done|].
    + eexists. split; [exact F3|]. simpl. split_and!; [done..|]. eapply mrep_kept; [|exact Hgm]. done.
    + eapply gtrep_frame; [exact HCR|exact Hsib| |done|done]. intros q Hq. apply kept_eq, F0; try (intros ->; tauto).
      intros ->. by apply (Hdis _ Hq).
  - split_and!; [|done|].
    + eexists. split; [exact F2|]. by split_and!.
    + simpl. eapply gtrep_move; [exact HCR|exact Hu|done|exact Hun|exact F4| |done|done].
      intros q Hq Hqu. apply F0; try (intros ->; tauto).
Qed.

(** ** The insertion *)
Lemma rn_insert_ok s (vp : ptr) v (np par top : ptr) ml l r o len : let T := Nd top off ml l r in
  gtrep CR s par T -> wf off L (-1) T -> NoDup (np :: S np :: tptrs T) -> off = 8 * o ->
  bytes s !! vp = Some v -> Forall byte_ok v -> L <= Z.of_nat (length v) -> nth 0 v 0 = len -> o <= len <= L ->
  nodes s !! np = Some zero_leaf -> nodes s !! S np = Some zero_inner ->
  exists z c, ending v T = z :: c /\
   (agree off (8 * len) v (lkey z) /\ rn_insert vp top np s = (ok (true, lp z), s)
    \/ exists B C g u s', T = fill (C ++ [g]) u /\ off <= B < 8 * len
        /\ before_bit v B (C ++ [g]) /\ ending v u = z :: c /\ match tbit u with None => True | Some b => B < b end
        /\ agree off B v (lkey z) /\ bit v B <> bit (lkey z) B
        /\ rn_insert vp top np s = (ok (false, np), s') /\ hung s s' np (fp g) (rootp u)
        /\ nodes s' !! np = Some (bare_leaf vp np)
        /\ ctxrep CR s' par (C ++ [g; mk_frame (bit v B) (S np) B [] u]) np
        /\ exists o l r, nodes s' !! S np = Some (mk_node NULL (fp g) B (Z.shiftr 128 (Z.land B 7)) RNF_ACTIVE (Inner_ o l r))).
Proof.
  intros T Hr Hw Hnd Ho Hvp Hvb Hv Hlen Hol Hnp Hsnp.
  destruct (ending_gen s v _ _ Hr) as (z & c & par' & Ez & Hz). exists z, c. split; [done|].
  destruct (chain_head _ _ _ Hz) as (z' & c' & [= <- <-] & _ & Hkb & Hkby & Hkl & n & m & d & Hn & Hu & _ & _).
  pose proof Hr as ((tn & Htn & Htu & _) & _).
  pose proof (size_bound _ _ (proj2 (proj1 (NoDup_cons _ _) (proj2 (proj1 (NoDup_cons _ _) Hnd)))) (gtrep_ptrs L CR _ _ _ Hr)) as Hsz.
  pose proof (tree_height_le T) as Hh.
  assert (rn_search v top s = (ok (lp z), s)) as Hsearch.
  { unfold rn_search. rewrite (st_bind_ok _ _ _ _ _ (eq_refl (fuel s))).
    change top with (rootp T). erewrite search_gen; [|done|exact Hr|exact Hw|lia]. by rewrite Ez. }
  assert (0 < L) as HL0 by (destruct Hw as (_ & ? & _); lia).
  unfold rn_insert. rstep. rstep. rewrite (st_bind_ok _ _ _ _ _ (at_ok v 0 s ltac:(lia))), Hlen, (st_bind_ok _ _ _ _ _ Hsearch).
  rstep. rstep. assert (Z.to_nat (off / 8) = Z.to_nat o) as -> by (rewrite Ho, Z.mul_comm, Z.div_mul by lia; done).
  destruct (compare_keys s v (lkey z) o len) as (dd & Ed & Hd); [done..|]. rewrite (st_bind_ok _ _ _ _ _ Ed).
  destruct dd as [j|]; [right|by left]. cbv zeta in Hd. destruct Hd as (Hj1 & Hj2 & HB & HagB & HneB).
  rewrite (st_bind_ok _ _ _ _ _ (at_ok v j s Hj1)), (st_bind_ok _ _ _ _ _ (at_ok (lkey z) j s Hj2)).
  set (B := diff_bit j (nth j v 0) (nth j (lkey z) 0)) in *. rewrite (st_bind_ok _ _ _ _ _ (eq_refl (fuel s))).
  assert (off < B) as HoB.
  { destruct (Z.eq_dec off B) as [E|]; [|lia]. exfalso. apply HneB. rewrite <-E.
    assert (z ∈ ending v T) as Hin by (rewrite Ez; by left). unfold T in Hin. cbn [ending] in Hin. apply ending_in in Hin.
    destruct Hw as (_ & _ & Hl & Hrr & _). rewrite Forall_forall in Hl, Hrr. by destruct (bit v off); [rewrite Hrr|rewrite Hl]. }
  destruct (insert_point_ok s v B Hv ltac:(lia) (S (size (nodes s))) top off ml l r (-1) par Hr Hw HoB ltac:(change (Nd top off ml l r) with T; lia))
    as (C & g & u & ET & Ei & HC & Ee & Hub). rewrite (st_bind_ok _ _ _ _ _ Ei).
  fold T in ET, Ee. rewrite Ez in Ee. rewrite ET in Hr, Hw. rewrite fill_snoc in Hr, Hw.
  apply (gtrep_fill CR) in Hr as [HCr Hr]. apply gtrep_fillf in Hr as [Hg Hu'].
  assert (forall lo, wf off L lo (fill C (fillf g u)) -> off <= fb g < 8 * L /\ wf off L (fb g) u) as Hgb.
  { clear. induction C as [|f C IH]; intros lo Hw; [apply wf_fillf in Hw; tauto|]. apply wf_fillf in Hw as (_ & _ & _ & _ & _ & _ & _ & Hw & _). eauto. }
  destruct (Hgb _ Hw) as [Hgb' Hwu].
  assert (bit v (fb g) = fside g) as Hside by (apply Forall_app in HC as [_ HC]; by apply Forall_cons in HC as [[? _] _]).
  assert (NoDup (np :: S np :: cptrs C ++ (fptrs g ++ tptrs u))) as Hnd'.
  { rewrite ET, fill_snoc, tptrs_fill, tptrs_fillf in Hnd. exact Hnd. }
  destruct (hang_ok s vp v B np g u (cpar par C)) as (s' & E & Hh' & Hlf & Hg' & Ht' & Htn'); [done..|lia|done|done|done|done| |].
  { eapply sublist_NoDup; [exact Hnd'|]. do 2 constructor. by apply sublist_inserts_l. }
  assert (match tbit u with None => True | Some b => B < b end) as HuB.
  { destruct u as [|p' b' ml' l' r']; [done|]. simpl in *. destruct (Z.eq_dec B b') as [->|]; [|lia]. exfalso. apply HneB.
    assert (z ∈ ending v (if bit v b' then r' else l')) as Hin by (rewrite Ee; by left). apply ending_in in Hin.
    destruct Hwu as (_ & _ & Hl & Hrr & _). rewrite Forall_forall in Hl, Hrr. by destruct (bit v b'); [rewrite Hrr|rewrite Hl]. }
  exists B, C, g, u, s'. split_and!; try done; try lia.
  apply ctxrep_app. simpl. split_and!; [|done|done|done].
  assert (forall q, q ∈ cptrs C -> kept s s' q) as Hkc.
  { intros q Hq. apply kept_eq, (hung_same _ _ _ _ _ Hh'); intros ->.
    - apply NoDup_cons in Hnd' as [H _]. set_solver.
    - apply NoDup_cons in Hnd' as [_ Hnd']. apply NoDup_cons in Hnd' as [H _]. set_solver.
    - do 2 apply NoDup_cons in Hnd' as [_ Hnd']. apply NoDup_app in Hnd' as (_ & H & _). apply (H _ Hq). unfold fptrs. set_solver.
    - do 2 apply NoDup_cons in Hnd' as [_ Hnd']. apply NoDup_app in Hnd' as (_ & H & _). apply (H _ Hq).
      apply elem_of_app. right. by eapply tree_root_in. }
  eapply ctxrep_frame; [exact HCR| |done| |].
  - assert (rootp (fillf g u) = fp g) as E' by (unfold fillf; by destruct (fside g)). by rewrite E' in HCr.
  - intros q _. unfold mask_kept. by rewrite (hung_masks _ _ _ _ _ Hh').
  - intros k w. by rewrite (hung_bytes _ _ _ _ _ Hh').
Qed.
End Gen.
End RadixInsert.
