(* ===== verification/RadixMask.v ===== *)
(** * The tree of masks

    [rn_addmask] of [alpha/al_radix.c] on contiguous masks: it finds the mask in
    the tree of masks, or enters it there; a mask is kept once, so that masks
    are compared by their addresses. *)

From Stdlib Require Import ZArith Lia Bool Sorted.
From stdpp Require Import base tactics option gmap list list_numbers.
From S2P Require Import Prelude Radix RadixShape RadixRep RadixMatch RadixCtx RadixAdd RadixInsert.

Open Scope Z_scope.

Module RadixMask.
Import Radix RadixShape RadixRep RadixMatch RadixCtx RadixAdd RadixInsert.

(** ** Bytes of masks *)
Definition blen (n : Z) : Z := (n + 7) / 8.
Lemma blen_bounds n : 8 * (blen n - 1) < n <= 8 * blen n.
Proof. unfold blen. pose proof (Z.div_mod (n + 7) 8 ltac:(lia)). pose proof (Z.mod_pos_bound (n + 7) 8 ltac:(lia)). lia. Qed.

Lemma mask_byte_full n j : 8 * Z.of_nat (S j) <= n -> mask_byte n j = 255.
Proof. intros H. unfold mask_byte. by rewrite (proj2 (Z.leb_le _ _) H). Qed.
Lemma mask_byte_zero n j : n <= 8 * Z.of_nat j -> mask_byte n j = 0.
Proof. intros H. unfold mask_byte. rewrite (proj2 (Z.leb_gt _ _)) by lia. by rewrite (proj2 (Z.leb_le _ _) H). Qed.
(** The last byte. *)
Lemma mask_byte_last n j : 8 * Z.of_nat j < n <= 8 * Z.of_nat (S j) -> mask_byte n j = 256 - 2 ^ (8 * Z.of_nat (S j) - n).
Proof.
  intros H. unfold mask_byte. destruct (Z.leb_spec (8 * Z.of_nat (S j)) n).
  - replace (8 * Z.of_nat (S j) - n) with 0 by lia. done.
  - by rewrite (proj2 (Z.leb_gt _ _)) by lia.
Qed.
Lemma mask_byte_ok n j : byte_ok (mask_byte n j).
Proof.
  unfold byte_ok. destruct (Z.le_gt_cases (8 * Z.of_nat (S j)) n); [rewrite mask_byte_full; lia|].
  destruct (Z.le_gt_cases n (8 * Z.of_nat j)); [rewrite mask_byte_zero; lia|]. rewrite mask_byte_last by lia.
  pose proof (Z.pow_le_mono_r 2 (8 * Z.of_nat (S j) - n) 8 ltac:(lia) ltac:(lia)).
  pose proof (Z.pow_pos_nonneg 2 (8 * Z.of_nat (S j) - n) ltac:(lia) ltac:(lia)). change (2 ^ 8) with 256 in *. lia.
Qed.
Lemma mask_byte_pos n j : 8 * Z.of_nat j < n -> mask_byte n j <> 0.
Proof.
  intros H. destruct (Z.le_gt_cases (8 * Z.of_nat (S j)) n); [rewrite mask_byte_full; lia|]. rewrite mask_byte_last by lia.
  pose proof (Z.pow_lt_mono_r 2 (8 * Z.of_nat (S j) - n) 8 ltac:(lia) ltac:(lia) ltac:(lia)). change (2 ^ 8) with 256 in *. lia.
Qed.

Lemma mask_of_length n : length (mask_of n) = 32%nat.
Proof. done. Qed.
Lemma mask_of_nth n j : (0 < j < 32)%nat -> nth j (mask_of n) 0 = mask_byte n j.
Proof.
  intros Hj. destruct j as [|j]; [lia|]. unfold mask_of. cbn [nth].
  rewrite (nth_indep _ 0 (mask_byte n 0)) by (rewrite length_map, length_seq; lia). rewrite map_nth, seq_nth by lia. f_equal.
Qed.
Lemma mask_of_bytes n : 0 <= n <= 256 -> Forall byte_ok (mask_of n).
Proof.
  intros Hn. constructor.
  - pose proof (blen_bounds n). fold (blen n). unfold byte_ok. lia.
  - apply Forall_forall. intros c Hc. apply list_elem_of_In, in_map_iff in Hc as (j & <- & _). apply mask_byte_ok.
Qed.

(** The length and the last byte tell masks apart. *)
Lemma mask_last_inj n n' : 8 < n -> 8 < n' -> blen n = blen n' ->
  mask_byte n (Z.to_nat (blen n) - 1) = mask_byte n' (Z.to_nat (blen n) - 1) -> n = n'.
Proof.
  intros Hn Hn' Hb. pose proof (blen_bounds n). pose proof (blen_bounds n').
  rewrite !mask_byte_last by lia. intros E.
  assert (2 ^ (8 * Z.of_nat (S (Z.to_nat (blen n) - 1)) - n) = 2 ^ (8 * Z.of_nat (S (Z.to_nat (blen n) - 1)) - n')) as E' by lia.
  apply Z.pow_inj_r in E'; lia.
Qed.
Lemma mask_of_inj n n' : 8 < n <= 256 -> 8 < n' <= 256 -> mask_of n = mask_of n' -> n = n'.
Proof.
  intros Hn Hn' E. assert (blen n = blen n') as Eb by (by injection E). pose proof (blen_bounds n). apply mask_last_inj; [lia|lia|done|].
  rewrite <-!mask_of_nth by lia. by rewrite E.
Qed.

(** ** Trimming and counting *)
Lemma trimmed_spec key_ k : forall m, (k <= m)%nat -> (k = 0%nat \/ nth (k - 1) key_ 0 <> 0) ->
  (forall j, (k <= j < m)%nat -> nth j key_ 0 = 0) -> trimmed m key_ = k.
Proof.
  induction m as [|m IH]; intros Hk Hlast Hz; [by destruct k; [|lia]|]. cbn [trimmed].
  destruct (decide (k = S m)) as [->|Hne].
  - destruct Hlast as [?|Hl]; [lia|]. replace (S m - 1)%nat with m in Hl by lia. by rewrite (proj2 (Z.eqb_neq _ _) Hl).
  - rewrite Hz by lia. simpl. apply IH; [lia|done|]. intros. apply Hz. lia.
Qed.
Lemma trimmed_le key_ k : forall m, (forall j, (k <= j < m)%nat -> nth j key_ 0 = 0) -> (trimmed m key_ <= k)%nat.
Proof.
  induction m as [|m IH]; intros Hz; cbn [trimmed]; [lia|]. destruct (Nat.le_gt_cases k m) as [Hle|Hgt].
  - rewrite Hz by lia. simpl. apply IH. intros. apply Hz. lia.
  - destruct (_ =? _); [|lia]. apply IH. intros. lia.
Qed.

Lemma skip_ones_spec key_ m : forall n i, (i <= m <= i + n)%nat -> (forall j, (i <= j < m)%nat -> nth j key_ 0 = 255) ->
  (m = (i + n)%nat \/ nth m key_ 0 <> 255) -> skip_ones n i key_ = m.
Proof.
  induction n as [|n IH]; intros i Hm H1 H2; cbn [skip_ones]; [lia|]. destruct (decide (m = i)) as [->|Hne].
  - destruct H2 as [?|H2]; [lia|]. by rewrite (proj2 (Z.eqb_neq _ _) H2).
  - rewrite H1 by lia. simpl. apply IH; [lia| |]. { intros. apply H1. lia. } destruct H2; [left; lia|by right].
Qed.

Lemma last_bits d : 0 <= d < 8 -> leading_ones 8 128 (256 - 2 ^ d) = 8 - d /\ CONTIG (256 - 2 ^ d) = true.
Proof. intros Hd. assert (d = 0 \/ d = 1 \/ d = 2 \/ d = 3 \/ d = 4 \/ d = 5 \/ d = 6 \/ d = 7) as H by lia. repeat destruct H as [->|H]; try subst; done. Qed.

Lemma mask_index_ok n skip key_ : 8 * Z.of_nat skip < n <= 256 -> (forall j, (skip <= j < 32)%nat -> nth j key_ 0 = mask_byte n j) ->
  mask_index key_ (Z.to_nat (blen n)) skip = (n, true).
Proof.
  intros Hn Hk. pose proof (blen_bounds n) as Hb. unfold mask_index.
  destruct (Z.eq_dec n (8 * blen n)) as [Hfull|Hpart].
  - rewrite (skip_ones_spec _ (Z.to_nat (blen n))).
    + rewrite Nat.eqb_refl, Z.shiftl_mul_pow2 by lia. f_equal. lia.
    + lia.
    + intros j Hj. rewrite Hk by lia. apply mask_byte_full. lia.
    + left. lia.
  - rewrite (skip_ones_spec _ (Z.to_nat (blen n) - 1)).
    + rewrite (proj2 (Nat.eqb_neq _ _)) by lia. rewrite Hk, mask_byte_last by lia.
      destruct (last_bits (8 * Z.of_nat (S (Z.to_nat (blen n) - 1)) - n)) as [-> ->]; [lia|].
      rewrite Nat.eqb_refl, Z.shiftl_mul_pow2 by lia. f_equal. lia.
    + lia.
    + intros j Hj. rewrite Hk by lia. apply mask_byte_full. lia.
    + right. rewrite Hk, mask_byte_last by lia. pose proof (Z.pow_lt_mono_r 2 0 (8 * Z.of_nat (S (Z.to_nat (blen n) - 1)) - n) ltac:(lia) ltac:(lia) ltac:(lia)). lia.
Qed.

(** ** Masks as arguments *)
Definition klen (nb : list Z) : Z := nth 0 nb 0.

(** [nb] is the mask of [n] bits in the bytes from [o] on, its first byte its length. *)
Record contiguous (o : Z) (n : Z) (nb : list Z) : Prop := {
  contig_len : 1 <= klen nb <= 32 /\ (Z.to_nat (klen nb) <= length nb)%nat;
  contig_bits : 0 <= n <= 8 * klen nb;
  contig_byte j : (Z.to_nat o <= j < Z.to_nat (klen nb))%nat -> nth j nb 0 = mask_byte n j }.

Definition addmask_key (nb : list Z) (mlen skip : nat) : list Z :=
  [0] ++ repeat 255 (skip - 1) ++ take (mlen - skip) (drop skip nb) ++ repeat 0 (RADIX_MAX_KEY_LEN - mlen).

Lemma addmask_key_length nb mlen skip : (0 < skip < mlen)%nat -> (mlen <= 32)%nat -> (mlen <= length nb)%nat -> length (addmask_key nb mlen skip) = 32%nat.
Proof. intros H1 H2 H3. unfold addmask_key, RADIX_MAX_KEY_LEN. rewrite !length_app, !repeat_length, length_take, length_drop. simpl. lia. Qed.

Lemma addmask_key_nth nb mlen skip j : (0 < skip < mlen)%nat -> (mlen <= 32)%nat -> (mlen <= length nb)%nat ->
  nth j (addmask_key nb mlen skip) 0 = (if (j =? 0)%nat then 0 else if (j <? skip)%nat then 255 else if (j <? mlen)%nat then nth j nb 0 else 0).
Proof.
  intros H1 H2 H3. unfold addmask_key. destruct j as [|j]; [done|]. cbn [app nth Nat.eqb].
  destruct (Nat.ltb_spec (S j) skip) as [H|H].
  { rewrite app_nth1 by (rewrite repeat_length; lia). rewrite nth_repeat_lt by lia. done. }
  rewrite app_nth2 by (rewrite repeat_length; lia). rewrite repeat_length. destruct (Nat.ltb_spec (S j) mlen) as [H'|H'].
  - rewrite app_nth1 by (rewrite length_take, length_drop; lia).
    assert (nth (j - (skip - 1)) (take (mlen - skip) (drop skip nb)) 0 = nth (S j) nb 0) as ->; [|done].
    rewrite !nth_lookup, lookup_take_lt by lia. rewrite lookup_drop. do 2 f_equal. lia.
  - rewrite app_nth2 by (rewrite length_take, length_drop; lia). apply nth_repeat.
Qed.

(** A mask that does not reach behind the offset is the mask of no bits. *)
Lemma addmask_trim_short o n nb : 0 < o < klen nb -> contiguous o n nb -> n <= 8 * o ->
  (trimmed (Z.to_nat (klen nb)) (addmask_key nb (Z.to_nat (klen nb)) (Z.to_nat o)) <= Z.to_nat o)%nat.
Proof.
  intros Ho [[Hl1 Hl2] Hb Hby] Hn. apply trimmed_le. intros j Hj. rewrite addmask_key_nth by lia.
  rewrite (proj2 (Nat.eqb_neq _ _)), (proj2 (Nat.ltb_ge _ _)), (proj2 (Nat.ltb_lt _ _)) by lia. rewrite Hby by lia. apply mask_byte_zero. lia.
Qed.

Lemma addmask_trim_long o n nb : 0 < o < klen nb -> contiguous o n nb -> 8 * o < n ->
  let key_ := addmask_key nb (Z.to_nat (klen nb)) (Z.to_nat o) in
  trimmed (Z.to_nat (klen nb)) key_ = Z.to_nat (blen n) /\ <[0%nat := blen n]> key_ = mask_of n.
Proof.
  intros Ho [[Hl1 Hl2] Hb Hby] Hn. cbv zeta. pose proof (blen_bounds n) as Hbl.
  assert (forall j, (0 < j < 32)%nat -> nth j (addmask_key nb (Z.to_nat (klen nb)) (Z.to_nat o)) 0 = mask_byte n j) as Hnth.
  { intros j Hj. rewrite addmask_key_nth, (proj2 (Nat.eqb_neq _ _)) by lia. destruct (Nat.ltb_spec j (Z.to_nat o)).
    - symmetry. apply mask_byte_full. lia.
    - destruct (Nat.ltb_spec j (Z.to_nat (klen nb))); [apply Hby; lia|]. symmetry. apply mask_byte_zero. lia. }
  split.
  - apply trimmed_spec; [lia| |].
    + right. rewrite Hnth by lia. apply mask_byte_pos. lia.
    + intros j Hj. rewrite Hnth by lia. apply mask_byte_zero. lia.
  - apply (nth_ext _ _ 0 0); rewrite length_insert, addmask_key_length by lia; [done|]. intros j Hj. rewrite nth_lookup.
    destruct j as [|j].
    + rewrite list_lookup_insert_eq by (rewrite addmask_key_length; lia). done.
    + rewrite list_lookup_insert_ne by lia. rewrite <-nth_lookup, Hnth, mask_of_nth by lia. done.
Qed.

(** ** The tree in memory *)

(** A mask: one leaf without a mask of its own. *)
Definition MR (s : state) (par : ptr) (c : list leaf) : Prop :=
  exists x n, c = [x] /\ lp x <> NULL /\ lmp x = NULL /\ lkp x <> NULL /\ -257 <= lbit x < 0
    /\ bytes s !! lkp x = Some (lkey x) /\ Forall byte_ok (lkey x) /\ 32 <= Z.of_nat (length (lkey x))
    /\ nodes s !! lp x = Some n /\ rn_u n = Leaf_ (lkp x) NULL NULL /\ rn_bit n = lbit x /\ rn_parent n = par
    /\ has RNF_NORMAL (rn_flags n) = lnormal x.

#[export] Instance mask_chain : ChainRep 32 MR.
Proof.
  split.
  - intros s par c (x & n & -> & ? & ? & ? & ? & ? & ? & ? & Hn & Hu & Hb & Hp & _). exists x, []. split_and!; try done.
    exists n, NULL, NULL. split_and!; (done || lia).
  - intros s par c (x & n & -> & ? & ? & ? & ? & ? & ? & ? & Hn & _). constructor; [by eexists|constructor].
  - intros s s' par c (x & n & -> & ? & ? & ? & ? & ? & ? & ? & Hn & Hu & Hb & Hp & Hf) Hk Hbk.
    destruct (Hk (lp x) ltac:(simpl; set_solver) n Hn) as (n' & Hn' & Hs). exists x, n'. split_and!; try done; try lia; [by apply Hbk|..];
      (destruct Hs as [->|(k & m & d & q & _ & ->)]; [done|by destruct n]).
  - intros s s' par par' x c n (x' & n' & [= <- ->] & ? & ? & ? & ? & ? & ? & ? & Hn & Hu & Hb & Hp & Hf) Hn1 Hn2 _ Hbk.
    rewrite Hn in Hn1. injection Hn1 as <-. exists x, (n' <| rn_parent := par' |>). destruct n'. split_and!; try done; try lia. by apply Hbk.
Qed.

(** What a leaf of the tree of masks is. *)
Definition zero_mask (h : radix_head) : leaf := mk_leaf (mask_nodes h) rn_zeros (repeat 0 32) NULL (-1) false.
Definition mask_leaf (off L : Z) (h : radix_head) (y : leaf) : Prop :=
  y = zero_mask h \/ lkey y = repeat 255 32 /\ lnormal y = false \/ lnormal y = true /\ off < plen y <= 8 * L /\ lkey y = mask_of (plen y).

(** Addresses behind the first free one are not in use. *)
Record bounded (s : state) : Prop := {
  bounded_nodes p : is_Some (nodes s !! p) -> (p < brk s)%nat;
  bounded_masks p : is_Some (masks s !! p) -> (p < brk s)%nat;
  bounded_bytes p : is_Some (bytes s !! p) -> (p < brk s)%nat }.

Record masks_ok (off L : Z) (s : state) (h : radix_head) (M : tree) : Prop := {
  masks_top : exists l r, M = Nd (mask_treetop h) 0 [] l r;
  masks_rep : gtrep MR s (mask_treetop h) M;
  masks_wf : wf 0 32 (-1) M;
  masks_nodup : NoDup (tptrs M);
  masks_leaf y : y ∈ leaves M -> mask_leaf off L h y;
  masks_zero : zero_mask h ∈ leaves M }.

Lemma mask_no_route s par t : gtrep MR s par t -> forall y, y ∈ leaves t -> ~ is_route y.
Proof.
  revert par. induction t as [c|p b ml l IHl r IHr]; intros par Hr y Hy.
  - destruct Hr as (x & n & -> & _ & Hm & _). simpl in Hy. apply list_elem_of_singleton in Hy as ->. intros H. by apply H.
  - destruct Hr as (_ & _ & Hl & Hr). simpl in Hy. apply elem_of_app in Hy as [?|?]; eauto.
Qed.
Lemma mask_no_lists s par t lo : gtrep MR s par t -> wf 0 32 lo t -> mptrs t = [] /\ match t with Lf _ => True | Nd _ _ ml _ _ => ml = [] end.
Proof.
  revert par lo. induction t as [c|p b ml l IHl r IHr]; intros par lo Hr Hw; [done|].
  assert (ml = []) as ->.
  { destruct Hw as (_ & _ & _ & _ & _ & _ & Hml & _). destruct ml as [|[q x] ml]; [done|]. exfalso.
    destruct (proj1 (Hml x)) as [Hx _]; [csimpl; by left|]. apply elem_of_routes in Hx as [Hx Hin]. by apply (mask_no_route _ _ _ Hr x Hin). }
  destruct Hr as (_ & _ & Hl & Hr). destruct Hw as (_ & _ & _ & _ & _ & _ & _ & Hwl & Hwr). simpl.
  destruct (IHl _ _ Hl Hwl) as [-> _], (IHr _ _ Hr Hwr) as [-> _]. done.
Qed.

(** The tree of masks does not depend on the rest of memory. *)
Lemma masks_frame off L s s' h M : masks_ok off L s h M -> (forall p, p ∈ tptrs M -> kept s s' p) -> bytes_kept s s' -> masks_ok off L s' h M.
Proof.
  intros [Ht Hr Hw Hn Hl Hz] Hk Hb. split; try done. eapply gtrep_frame; [exact mask_chain|exact Hr|done| |done].
  destruct (mask_no_lists _ _ _ _ Hr Hw) as [-> _]. set_solver.
Qed.

(** Masks are told apart by their length byte and their last byte. *)
Lemma mask_found off L h y n : 8 <= off -> L <= 32 -> mask_leaf off L h y -> off < n <= 8 * L ->
  (forall j, (j < Z.to_nat (blen n))%nat -> nth j (mask_of n) 0 = nth j (lkey y) 0) ->
  plen y = n /\ lnormal y = true /\ lkey y = mask_of n.
Proof.
  intros Ho HL Hy Hn Hsame. pose proof (blen_bounds n) as Hb. pose proof (Hsame 0%nat ltac:(lia)) as H0. cbn [mask_of nth] in H0. fold (blen n) in H0.
  destruct Hy as [->|[[E _]|(Hno & Hp & E)]].
  - simpl in H0. lia.
  - rewrite E in H0. simpl in H0. lia.
  - rewrite E in H0, Hsame. cbn [mask_of nth] in H0. fold (blen (plen y)) in H0.
    assert (n = plen y) as En; [|by rewrite En]. apply mask_last_inj; [lia|lia|done|]. rewrite <-!mask_of_nth by lia. apply Hsame. lia.
Qed.

Lemma mask_leaf_rep s par t y : gtrep MR s par t -> y ∈ leaves t -> exists par', MR s par' [y].
Proof.
  revert par. induction t as [c|p b ml l IHl r IHr]; intros par Hr Hy.
  - pose proof Hr as (x & n & -> & _). simpl in Hy. apply list_elem_of_singleton in Hy as ->. by exists par.
  - destruct Hr as (_ & _ & Hl & Hr). simpl in Hy. apply elem_of_app in Hy as [?|?]; eauto.
Qed.
Lemma masks_brk off L s h M : masks_ok off L s h M -> bounded s -> (1 < brk s)%nat.
Proof.
  intros [_ Hr _ _ _ Hz] Hb. destruct (mask_leaf_rep _ _ _ _ Hr Hz) as (par & x & n & [= <-] & _ & _ & _ & _ & Hk & _).
  apply (bounded_bytes _ Hb). eexists. exact Hk.
Qed.

Lemma mask_of_take n : 0 < n <= 256 -> take (Z.to_nat (blen n)) (mask_of n) ++ repeat 0 (RADIX_MAX_KEY_LEN - Z.to_nat (blen n)) = mask_of n.
Proof.
  intros Hn. pose proof (blen_bounds n) as Hb. apply (nth_ext _ _ 0 0).
  { rewrite length_app, length_take, repeat_length, mask_of_length. unfold RADIX_MAX_KEY_LEN. lia. }
  intros j Hj. rewrite length_app, length_take, repeat_length, mask_of_length in Hj. unfold RADIX_MAX_KEY_LEN in Hj.
  destruct (Nat.lt_ge_cases j (Z.to_nat (blen n))) as [H|H].
  - rewrite app_nth1 by (rewrite length_take, mask_of_length; lia). rewrite !nth_lookup. by rewrite lookup_take_lt by lia.
  - rewrite app_nth2 by (rewrite length_take, mask_of_length; lia). rewrite nth_repeat, mask_of_nth by lia.
    symmetry. apply mask_byte_zero. lia.
Qed.

(** What an addition to the tree of masks leaves alone. *)
Record masks_grown (s s' : state) (M M' : tree) : Prop := {
  mg_brk : (brk s <= brk s')%nat; mg_bounded : bounded s'; mg_oom : oom s' = oom s; mg_masks : masks s' = masks s; mg_bytes : bytes_kept s s';
  mg_nodes (p : ptr) : (p < brk s)%nat -> p ∉ tptrs M -> nodes s' !! p = nodes s !! p;
  mg_ptrs (p : ptr) : p ∈ tptrs M' -> p ∈ tptrs M \/ (brk s <= p)%nat;
  mg_leaves y : y ∈ leaves M -> y ∈ leaves M' }.

(** ** [rn_addmask] *)
Section Addmask.
Context (off L o : Z) (Ho : off = 8 * o) (Hol : 1 <= o < L) (HL : L <= 32).

Lemma addmask_short s h nb n search : contiguous o n nb -> n <= off ->
  rn_addmask nb h search (Z.to_nat o) s = (ok (mask_nodes h), s).
Proof.
  intros Hc Hn. pose proof Hc as [[Hl1 Hl2] Hb _]. fold (klen nb) in *. unfold rn_addmask.
  rewrite (st_bind_ok _ _ _ _ _ (at_ok nb 0 s ltac:(lia))). fold (klen nb).
  rewrite Nat.min_l by (unfold RADIX_MAX_KEY_LEN; lia). rewrite (proj2 (Nat.eqb_neq _ _)) by lia.
  destruct (Nat.leb_spec (Z.to_nat (klen nb)) (Z.to_nat o)); [done|].
  rewrite (st_bind_ok _ _ _ _ _ (at_ok nb (Z.to_nat (klen nb) - 1) s ltac:(lia))). fold (addmask_key nb (Z.to_nat (klen nb)) (Z.to_nat o)).
  rewrite (proj2 (Nat.leb_le _ _)); [done|]. apply (addmask_trim_short o n); [lia|done|lia].
Qed.

(** The code behind the trimming, and behind the search. *)
Definition addmask_new (key_ : list Z) (mlen skip : nat) (head : radix_head) : st state ptr :=
  do m <- alloc 3 ;;
  match m with
  | None => st_ret NULL
  | Some x =>
      let cp := S (S x) in
      do _ <- put_pair x ;;
      do _ <- put_bytes cp (take mlen key_ ++ repeat 0 (RADIX_MAX_KEY_LEN - mlen)) ;;
      do (maskduplicated, x) <- rn_insert cp (mask_treetop head) x ;;
      if maskduplicated : bool then st_ret x else
      let '(b, isnormal) := mask_index key_ mlen skip in
      do _ <- set_bit x (-1 - b) ;;
      do fl <- get rn_flags x ;;
      do _ <- when isnormal (set_flags x (Z.lor fl RNF_NORMAL)) ;;
      st_ret x
  end.
Definition addmask_tail (key_ : list Z) (mlen skip : nat) (head : radix_head) (search : bool) : st state ptr :=
  do x <- rn_search key_ (mask_treetop head) ;;
  do xk <- rn_key x ;; do xb <- load xk ;;
  do same <- same_bytes mlen 0 key_ xb ;;
  if same : bool then st_ret x else
  if search : bool then st_ret NULL else addmask_new key_ mlen skip head.

Lemma addmask_long s h nb n search : contiguous o n nb -> off < n ->
  rn_addmask nb h search (Z.to_nat o) s = addmask_tail (mask_of n) (Z.to_nat (blen n)) (Z.to_nat o) h search s.
Proof.
  intros Hc Hn. pose proof Hc as [[Hl1 Hl2] Hb _]. pose proof (blen_bounds n) as Hbl. unfold rn_addmask.
  rewrite (st_bind_ok _ _ _ _ _ (at_ok nb 0 s ltac:(lia))). fold (klen nb).
  rewrite Nat.min_l by (unfold RADIX_MAX_KEY_LEN; lia). rewrite (proj2 (Nat.eqb_neq _ _)) by lia.
  rewrite (proj2 (Nat.leb_gt _ _)) by lia.
  rewrite (st_bind_ok _ _ _ _ _ (at_ok nb (Z.to_nat (klen nb) - 1) s ltac:(lia))). fold (addmask_key nb (Z.to_nat (klen nb)) (Z.to_nat o)).
  destruct (addmask_trim_long o n nb ltac:(lia) Hc ltac:(lia)) as [Et Ek]. rewrite Et, (proj2 (Nat.leb_gt _ _)) by lia.
  rewrite Z2Nat.id by lia. rewrite Ek. reflexivity.
Qed.

(** The leaf where the search for a mask ends, compared with it. *)
Lemma addmask_found s h M n : masks_ok off L s h M -> off < n <= 8 * L -> exists z d, ending (mask_of n) M = [z] /\ z ∈ leaves M
  /\ (forall skip search, addmask_tail (mask_of n) (Z.to_nat (blen n)) skip h search s
       = (if d : bool then (ok (lp z), s) else if search : bool then (ok NULL, s) else addmask_new (mask_of n) (Z.to_nat (blen n)) skip h s))
  /\ if d then plen z = n /\ lnormal z = true /\ lkey z = mask_of n
     else ~ agree 0 (8 * blen n) (mask_of n) (lkey z) /\ forall y, y ∈ leaves M -> lkey y <> mask_of n.
Proof.
  intros Hok Hn. pose proof Hok as [(l & r & EM) Hr Hw Hnd Hl _]. pose proof (blen_bounds n) as Hb.
  destruct (ending_gen 32 MR s (mask_of n) _ _ Hr) as (z & c & par & Ez & Hz). pose proof Hz as (z' & zn & [= <- ->] & _ & _ & _ & _ & Hkz & Hbz & Hlz & Hzn & Hzu & _).
  assert (z ∈ leaves M) as Hin by (apply (ending_in (mask_of n)); rewrite Ez; by left).
  pose proof (size_bound _ _ Hnd (gtrep_ptrs 32 MR _ _ _ Hr)) as Hsz. pose proof (tree_height_le M) as Hh.
  assert (rn_search (mask_of n) (mask_treetop h) s = (ok (lp z), s)) as Hs.
  { unfold rn_search. rewrite (st_bind_ok _ _ _ _ _ (eq_refl (fuel s))). assert (mask_treetop h = rootp M) as -> by (by rewrite EM).
    erewrite (search_gen 32 MR 0 ltac:(lia)); [by rewrite Ez|by rewrite mask_of_length|exact Hr|exact Hw|lia]. }
  destruct (compare_keys 32 0 ltac:(lia) s (mask_of n) (lkey z) 0 (blen n)) as (d & Ed & Hd);
    [lia|apply mask_of_bytes; lia|done|by rewrite mask_of_length|done|lia|].
  rewrite Nat.sub_0_r in Ed. change (Z.to_nat 0) with 0%nat in Ed.
  destruct (first_diff_ok s (mask_of n) (lkey z) (Z.to_nat (blen n)) 0) as (d' & Ed' & Hd'); [rewrite mask_of_length; lia|lia|].
  rewrite Ed in Ed'. injection Ed' as <-.
  exists z, (match d with None => true | Some _ => false end). split; [done|]. split; [done|]. split.
  - intros skip search. unfold addmask_tail. rewrite (st_bind_ok _ _ _ _ _ Hs). rstep. rstep.
    erewrite st_bind_ok by (unfold same_bytes; by erewrite st_bind_ok by exact Ed). by destruct d, search.
  - destruct d as [j|].
    + cbv zeta in Hd. destruct Hd as (_ & _ & HB & _ & Hne). split; [intros H; by apply Hne, H|]. intros y Hy E.
      assert (y ∈ ending (mask_of n) M) as Hye by (eapply (ending_exact 0 32); [exact Hw|done|rewrite E; by intros ? ?]).
      rewrite Ez in Hye. apply list_elem_of_singleton in Hye as ->. apply Hne. by rewrite E.
    + apply (mask_found off L h); [lia|lia|by apply Hl|done|]. intros j Hj. apply Hd'. lia.
Qed.

(** The memory with the new pair and the bytes of the mask. *)
Definition mask_room (s : state) (v : list Z) : state :=
  mk (<[brk s := zero_leaf]> (<[S (brk s) := zero_inner]> (nodes s))) (masks s) (<[S (S (brk s)) := v]> (bytes s)) (brk s + 3)%nat [].

Lemma mask_room_ok s h M v : masks_ok off L s h M -> bounded s ->
  masks_ok off L (mask_room s v) h M /\ bounded (mask_room s v) /\ bytes_kept s (mask_room s v)
  /\ NoDup (brk s :: S (brk s) :: tptrs M).
Proof.
  intros Hok Hb. assert (bytes_kept s (mask_room s v)) as Hbk.
  { intros k w Hk. simpl. rewrite lookup_insert_ne; [done|]. pose proof (bounded_bytes _ Hb k ltac:(by eexists)). lia. }
  assert (forall p, p ∈ tptrs M -> (p < brk s)%nat) as Hlt.
  { intros p Hp. apply (bounded_nodes _ Hb). pose proof (gtrep_ptrs 32 MR _ _ _ (masks_rep _ _ _ _ _ Hok)) as H. rewrite Forall_forall in H. by apply H. }
  split_and!; [|split|done|].
  - eapply masks_frame; [exact Hok| |done]. intros p Hp. apply kept_eq. simpl. specialize (Hlt p Hp). by rewrite !lookup_insert_ne by lia.
  - simpl. intros p Hp. destruct (decide (p = brk s)) as [->|]; [lia|]. destruct (decide (p = S (brk s))) as [->|]; [lia|].
    rewrite !lookup_insert_ne in Hp by done. apply (bounded_nodes _ Hb) in Hp. lia.
  - simpl. intros p Hp. apply (bounded_masks _ Hb) in Hp. lia.
  - simpl. intros p Hp. destruct (decide (p = S (S (brk s)))) as [->|]; [lia|].
    rewrite !lookup_insert_ne in Hp by done. apply (bounded_bytes _ Hb) in Hp. lia.
  - repeat constructor; [|..|apply Hok].
    + rewrite not_elem_of_cons. split; [lia|]. intros H%Hlt. lia.
    + intros H%Hlt. lia.
Qed.

Lemma fill_top C t top b ml l r t' : C <> [] -> fill C t = Nd top b ml l r -> exists l' r', fill C t' = Nd top b ml l' r'.
Proof.
  destruct C as [|f C]; [done|]. intros _. change (fillf f (fill C t) = Nd top b ml l r -> exists l' r', fillf f (fill C t') = Nd top b ml l' r').
  unfold fillf. destruct (fside f); intros [= -> -> -> _ _]; eauto.
Qed.

(** The tree with the new leaf. *)
Lemma masks_graft s s' h M n C g u z B q y : masks_ok off L s h M -> M = fill (C ++ [g]) u -> off < n <= 8 * L ->
  y = mk_leaf q (S (S q)) (mask_of n) NULL (-1 - n) true -> q <> NULL -> NoDup (q :: S q :: tptrs M) ->
  z ∈ leaves u -> before_bit (mask_of n) B (C ++ [g]) -> 0 <= B < 8 * blen n -> match tbit u with None => True | Some b => B < b end ->
  agree 0 B (mask_of n) (lkey z) -> bit (mask_of n) B <> bit (lkey z) B ->
  ctxrep MR s' (mask_treetop h) ((C ++ [g]) ++ [graft (S q) B y [] u]) q -> MR s' (S q) [y] ->
  masks_ok off L s' h (fill ((C ++ [g]) ++ [graft (S q) B y [] u]) (Lf [y])).
Proof.
  intros [(l & r & Et) Hr Hw Hnd Hl Hz] EM Hn Ey Hq Hnd1 Hzu HC HB HuB HagB HneB Hctx Hy. pose proof (blen_bounds n) as Hbl.
  assert (lkey y = mask_of n /\ lp y = q /\ ~ is_route y) as (Ek & Ep & Hnr) by (subst y; split_and!; [done|done|intros H; by apply H]).
  assert (wf 0 32 (-1) (fill (C ++ [g]) u)) as Hw' by (by rewrite <-EM).
  assert (follows 0 y z (C ++ [g])) as Hf.
  { intros f Hf. unfold before_bit in HC. rewrite Forall_forall in HC. destruct (HC f Hf) as [? ?]. rewrite Ek. split; [|done]. eapply agree_sub; [exact HagB|lia|lia]. }
  destruct (wf_fill_hole _ _ _ _ _ Hw') as (Hwu & _ & _). pose proof Hr as Hr'. rewrite EM in Hr'. apply gtrep_fill in Hr' as [_ Hru].
  assert (promoted (cbit (-1) (C ++ [g])) B u [] u) as Hpr.
  { destruct u as [c|p b ml l' r']; simpl.
    - split; [done|]. symmetry. pose proof Hru as (x & xn & -> & _ & Hm & _).
      rewrite filter_cons_False; [done|]. intros [H _]. by apply H.
    - destruct (mask_no_lists _ _ _ _ Hru Hwu) as [_ ->]. by exists []. }
  destruct (add_graft 0 32 (C ++ [g]) y z NULL B u [] u (S q)) as [Hg Hw2]; [done|done|done| | |done|done|].
  { split; [lia|]. split; [by destruct u|]. exists z. by rewrite Ek. }
  { rewrite cbit_snoc. apply Forall_app in HC as [_ HC]. apply Forall_cons in HC as [[_ ?] _]. done. }
  rewrite decide_False in Hg, Hw2 by done.
  assert (forall x, x ∈ leaves (fill ((C ++ [g]) ++ [graft (S q) B y [] u]) (Lf [y])) <-> x = y \/ x ∈ leaves M) as Hle
    by (intros x; rewrite EM; eapply leaves_graft; [exact Hpr|exact Hg]).
  split.
  - destruct (fill_top (C ++ [g]) u (mask_treetop h) 0 [] l r (fillf (graft (S q) B y [] u) (Lf [y]))) as (l' & r' & E); [by destruct C|by rewrite <-EM|].
    exists l', r'. by rewrite fill_snoc.
  - apply gtrep_fill. rewrite cpar_snoc. simpl. by rewrite Ep.
  - exact Hw2.
  - rewrite tptrs_fill. rewrite cptrs_snoc. simpl. rewrite Ep.
    rewrite EM, tptrs_fill in Hnd1.
    assert ((cptrs (C ++ [g]) ++ fptrs (graft (S q) B y [] u)) ++ [q] ≡ₚ q :: S q :: cptrs (C ++ [g]) ++ tptrs u) as ->; [|exact Hnd1].
    unfold fptrs. simpl. solve_Permutation.
  - intros x [->|Hx]%Hle; [|by apply Hl]. right. right. subst y. unfold plen. simpl. split_and!; try lia; [done..|]. f_equal. lia.
  - apply Hle. by right.
Qed.

Lemma addmask_new_ok s h M n z : masks_ok off L s h M -> bounded s -> oom s = [] -> off < n <= 8 * L ->
  ending (mask_of n) M = [z] -> ~ agree 0 (8 * blen n) (mask_of n) (lkey z) ->
  exists y M' s', addmask_new (mask_of n) (Z.to_nat (blen n)) (Z.to_nat o) h s = (ok (lp y), s') /\ masks_ok off L s' h M' /\ masks_grown s s' M M'
    /\ y ∈ leaves M' /\ plen y = n /\ lnormal y = true /\ lkey y = mask_of n.
Proof.
  intros Hok Hb Hoom Hn Ez Hdiff. pose proof (blen_bounds n) as Hbl. pose proof (masks_brk _ _ _ _ _ Hok Hb) as Hbrk.
  set (q := brk s) in *. set (s1 := mask_room s (mask_of n)).
  destruct (mask_room_ok s h M (mask_of n) Hok Hb) as (Hok1 & Hb1 & Hbk1 & Hnd1). fold s1 in Hok1, Hb1, Hbk1. fold q in Hnd1.
  pose proof Hok1 as [(l & r & EM) Hr Hw Hnd Hl Hz]. rewrite EM in Hr, Hw.
  destruct (rn_insert_ok 32 MR 0 ltac:(lia) ltac:(lia) s1 (S (S q)) (mask_of n) q (mask_treetop h) (mask_treetop h) [] l r 0 (blen n))
    as (z' & c & Ez' & Hcase); [exact Hr|exact Hw|by rewrite <-EM|lia|unfold s1; simpl; by rewrite lookup_insert_eq
      |apply mask_of_bytes; lia|by rewrite mask_of_length|done|lia|unfold s1; simpl; by rewrite lookup_insert_eq
      |unfold s1; simpl; rewrite lookup_insert_ne by lia; by rewrite lookup_insert_eq|].
  rewrite <-EM, Ez in Ez'. injection Ez' as <- <-. destruct Hcase as [[Hag _]|(B & C & g & u & s2 & ET & HB & HC & Eu & HuB & HagB & HneB & Ei & Hh & Hlf & Hctx & _)]; [done|].
  rewrite <-EM in ET.
  assert (addmask_new (mask_of n) (Z.to_nat (blen n)) (Z.to_nat o) h s
    = (do _ <- set_bit q (-1 - n) ;; do fl <- get rn_flags q ;; do _ <- when true (set_flags q (Z.lor fl RNF_NORMAL)) ;; st_ret q) s2) as ->.
  { unfold addmask_new. rewrite mask_of_take by lia.
    assert (alloc 3 s = (ok (Some q), s <| brk := (q + 3)%nat |> <| oom := [] |>)) as Ea by (unfold alloc; by rewrite Hoom).
    rewrite (st_bind_ok _ _ _ _ _ Ea). cbv beta iota zeta. erewrite st_bind_ok by reflexivity. erewrite st_bind_ok by reflexivity.
    erewrite st_bind_ok; [|destruct s; simpl in *; exact Ei]. cbv beta iota.
    rewrite (mask_index_ok n (Z.to_nat o)); [done|lia|]. intros j Hj. apply mask_of_nth. lia. }
  set (y := mk_leaf q (S (S q)) (mask_of n) NULL (-1 - n) true).
  unfold set_bit, set_flags, when. rstep. rstep. rstep.
  match goal with |- context [st_ret _ ?s3] => set (s3' := s3) end.
  assert (nodes s3' !! q = Some (mk_node NULL (S q) (-1 - n) 0 (Z.lor RNF_ACTIVE RNF_NORMAL) (Leaf_ (S (S q)) NULL NULL))) as N1 by apply nupd_eq.
  assert (forall p : ptr, p <> q -> nodes s3' !! p = nodes s2 !! p) as N2 by (intros p Hp; unfold s3'; by rewrite !nupd_ne by done).
  assert (masks s3' = masks s2 /\ bytes s3' = bytes s2 /\ brk s3' = brk s2 /\ oom s3' = oom s2) as (EM3 & EB3 & EK3 & EO3)
    by (unfold s3'; by rewrite !masks_upd, !bytes_upd, !brk_upd, !oom_upd).
  assert (bytes_kept s s3') as Hbk.
  { intros k w Hk. rewrite EB3, (hung_bytes _ _ _ _ _ Hh). by apply Hbk1. }
  assert (nodes s !! q = None /\ nodes s !! S q = None) as [Nq Nsq].
  { split; apply eq_None_not_Some; intros H%(bounded_nodes _ Hb); unfold q in H; lia. }
  assert (forall p : ptr, is_Some (nodes s3' !! p) -> is_Some (nodes s1 !! p)) as Hdom.
  { intros p Hp. apply (hung_dom _ _ _ _ _ Hh). destruct (decide (p = q)) as [->|Hne]; [by eexists|]. by rewrite <-N2. }
  pose proof Hnd1 as Hnd2. rewrite ET, tptrs_fill in Hnd2. apply NoDup_cons in Hnd2 as [Hq1 Hnd2]. apply NoDup_cons in Hnd2 as [Hq2 Hnd2].
  assert (ctxrep MR s3' (mask_treetop h) ((C ++ [g]) ++ [graft (S q) B y [] u]) q) as Hctx3.
  { rewrite <-(assoc_L (++)). eapply ctxrep_frame; [exact mask_chain|exact Hctx| | |].
    - intros p Hp. apply kept_eq, N2. intros ->. change (C ++ [g; ?f]) with (C ++ ([g] ++ [f])) in Hp. rewrite (assoc_L (++)), cptrs_snoc in Hp. unfold fptrs in Hp. simpl in Hp. set_solver by lia.
    - intros p _. unfold mask_kept. by rewrite EM3.
    - intros k w. by rewrite EB3. }
  exists y, (fill ((C ++ [g]) ++ [graft (S q) B y [] u]) (Lf [y])), s3'. split; [done|]. split_and!.
  - eapply (masks_graft s1); [exact Hok1|exact ET|done|done|unfold q, NULL; lia|done| |exact HC|done|done|exact HagB|exact HneB|exact Hctx3|].
    + apply (ending_in (mask_of n)). rewrite Eu. by left.
    + eexists y, _. split; [done|]. split_and!; try done; try (simpl; lia); [unfold q, NULL; simpl; lia| |apply mask_of_bytes; lia].
      rewrite EB3, (hung_bytes _ _ _ _ _ Hh). unfold s1. simpl. by rewrite lookup_insert_eq.
  - split.
    + rewrite EK3, (hung_brk _ _ _ _ _ Hh). unfold s1. simpl. lia.
    + assert (brk s3' = brk s1) as Ek by (by rewrite EK3, (hung_brk _ _ _ _ _ Hh)). split; rewrite Ek; intros p Hp.
      * apply (bounded_nodes _ Hb1). by apply Hdom.
      * apply (bounded_masks _ Hb1). by rewrite EM3, (hung_masks _ _ _ _ _ Hh) in Hp.
      * apply (bounded_bytes _ Hb1). by rewrite EB3, (hung_bytes _ _ _ _ _ Hh) in Hp.
    + rewrite EO3, (hung_oom _ _ _ _ _ Hh), Hoom. done.
    + by rewrite EM3, (hung_masks _ _ _ _ _ Hh).
    + done.
    + intros p Hp Hin. fold q in Hp. rewrite N2 by lia. rewrite ET, tptrs_fill in Hin. rewrite (hung_same _ _ _ _ _ Hh); [|lia|lia| |].
      * unfold s1. simpl. fold q. by rewrite !lookup_insert_ne by lia.
      * intros ->. apply Hin. rewrite cptrs_snoc. unfold fptrs. set_solver.
      * intros ->. apply Hin. apply elem_of_app. right.  eapply (tree_root_in 32 MR).
        assert (gtrep MR s1 (mask_treetop h) (fill (C ++ [g]) u)) as Hr1 by (rewrite <-ET, EM; exact Hr). apply gtrep_fill in Hr1 as [_ Hr1]. exact Hr1.
    + intros p Hp. rewrite tptrs_fill in Hp. rewrite ET, tptrs_fill. rewrite (cptrs_snoc (C ++ [g])) in Hp. unfold fptrs in Hp. simpl in Hp.
      rewrite !elem_of_app, !elem_of_cons, elem_of_nil in Hp. rewrite elem_of_app. fold q. destruct Hp as [[?|[->|?]]|[->|[]]]; [tauto|right; lia|tauto|right; lia].
    + intros x Hx. rewrite ET in Hx. rewrite fill_snoc. apply elem_leaves_fill. apply elem_leaves_fill in Hx as [?|?]; [by left|right].
      apply elem_leaves_fillf. by left.
  - apply elem_leaves_fill. right. simpl. by left.
  - unfold y, plen. simpl. lia.
  - done.
  - done.
Qed.

Lemma masks_grown_refl s M : bounded s -> masks_grown s s M M.
Proof. intros Hb. split; try done; try lia; first [by intros ? ?|intros; by left]. Qed.

(** The mask of [n] bits is in the tree afterwards. *)
Lemma rn_addmask_ok s h M nb n : masks_ok off L s h M -> bounded s -> oom s = [] -> contiguous o n nb -> off < n <= 8 * L ->
  exists y M' s', rn_addmask nb h false (Z.to_nat o) s = (ok (lp y), s') /\ masks_ok off L s' h M' /\ masks_grown s s' M M'
    /\ y ∈ leaves M' /\ plen y = n /\ lnormal y = true /\ lkey y = mask_of n.
Proof.
  intros Hok Hb Hoom Hc Hn. rewrite (addmask_long _ _ _ _ _ Hc) by lia.
  destruct (addmask_found s h M n Hok Hn) as (z & d & Ez & Hz & -> & Hd). destruct d.
  - exists z, M, s. split; [done|]. split; [done|]. split; [by apply masks_grown_refl|]. tauto.
  - destruct Hd as [Hd _]. by eapply addmask_new_ok.
Qed.

(** A search does not change anything. *)
Lemma rn_addmask_search s h M nb n : masks_ok off L s h M -> contiguous o n nb -> off < n <= 8 * L ->
  exists p, rn_addmask nb h true (Z.to_nat o) s = (ok p, s)
    /\ ((exists y, p = lp y /\ y ∈ leaves M /\ plen y = n /\ lnormal y = true /\ lkey y = mask_of n)
        \/ p = NULL /\ forall y, y ∈ leaves M -> lkey y <> mask_of n).
Proof.
  intros Hok Hc Hn. rewrite (addmask_long _ _ _ _ _ Hc) by lia.
  destruct (addmask_found s h M n Hok Hn) as (z & d & Ez & Hz & -> & Hd). destruct d.
  - exists (lp z). split; [done|]. left. exists z. tauto.
  - exists NULL. split; [done|]. right. tauto.
Qed.
End Addmask.
End RadixMask.
