(* ===== verification/RadixOrder.v ===== *)
(** * Lists of masks and the order of prefixes

    [rn_refines] and [rn_lexobetter] of [alpha/al_radix.c] on contiguous masks,
    and the writes to a list of masks: at the place behind some of its entries. *)

From Stdlib Require Import ZArith Lia Bool Sorted.
From stdpp Require Import base tactics option gmap list list_numbers.
From S2P Require Import Prelude Radix RadixShape RadixRep RadixCtx RadixAdd RadixInsert RadixMask.

Open Scope Z_scope.

Module RadixOrder.
Import Radix RadixShape RadixRep RadixCtx RadixAdd RadixInsert RadixMask.

(** ** Comparing masks *)
Lemma refines_common_none s m_ n_ j : forall k i e, (i <= j < i + k)%nat -> (i + k <= length m_)%nat -> (i + k <= length n_)%nat ->
  Z.land (nth j n_ 0) (Z.lnot (nth j m_ 0)) <> 0 -> refines_common k i m_ n_ e s = (ok None, s).
Proof.
  induction k as [|k IH]; intros i e Hj Hm Hn Hne; [lia|]. cbn [refines_common].
  rewrite (st_bind_ok _ _ _ _ _ (at_ok n_ i s ltac:(lia))), (st_bind_ok _ _ _ _ _ (at_ok m_ i s ltac:(lia))).
  destruct (decide (j = i)) as [->|Hji]; [by rewrite (proj2 (Z.eqb_neq _ _) Hne)|].
  destruct (negb _); [done|]. apply IH; (done || lia).
Qed.
Lemma refines_common_total s m_ n_ : forall k i e, (i + k <= length m_)%nat -> (i + k <= length n_)%nat ->
  exists r, refines_common k i m_ n_ e s = (ok r, s).
Proof.
  induction k as [|k IH]; intros i e Hm Hn; cbn [refines_common]; [by eexists|].
  rewrite (st_bind_ok _ _ _ _ _ (at_ok n_ i s ltac:(lia))), (st_bind_ok _ _ _ _ _ (at_ok m_ i s ltac:(lia))).
  destruct (negb _); [by eexists|]. apply IH; lia.
Qed.
Lemma any_set_true s v j : forall k i, (i <= j < i + k)%nat -> (i + k <= length v)%nat -> nth j v 0 <> 0 -> any_set k i v s = (ok true, s).
Proof.
  induction k as [|k IH]; intros i Hj Hv Hne; [lia|]. cbn [any_set]. rewrite (st_bind_ok _ _ _ _ _ (at_ok v i s ltac:(lia))).
  destruct (decide (j = i)) as [->|Hji]; [by rewrite (proj2 (Z.eqb_neq _ _) Hne)|]. destruct (negb _); [done|]. apply IH; (done || lia).
Qed.
Lemma any_greater_false s m_ n_ : forall k i, (i + k <= length m_)%nat -> (i + k <= length n_)%nat ->
  (forall j, (i <= j < i + k)%nat -> nth j m_ 0 <= nth j n_ 0) -> any_greater k i m_ n_ s = (ok false, s).
Proof.
  induction k as [|k IH]; intros i Hm Hn Hle; cbn [any_greater]; [done|].
  rewrite (st_bind_ok _ _ _ _ _ (at_ok m_ i s ltac:(lia))), (st_bind_ok _ _ _ _ _ (at_ok n_ i s ltac:(lia))).
  rewrite (proj2 (Z.ltb_ge _ _)) by (apply Hle; lia). apply IH; [lia|lia|]. intros. apply Hle. lia.
Qed.

Lemma mask_byte_mono n m j : n <= m -> mask_byte n j <= mask_byte m j.
Proof.
  intros H. pose proof (mask_byte_ok n j) as Hn. pose proof (mask_byte_ok m j) as Hm. unfold byte_ok in *.
  destruct (Z.le_gt_cases (8 * Z.of_nat (S j)) m); [rewrite (mask_byte_full m) by lia; lia|].
  destruct (Z.le_gt_cases n (8 * Z.of_nat j)); [rewrite (mask_byte_zero n) by lia; lia|].
  rewrite !mask_byte_last by lia. pose proof (Z.pow_le_mono_r 2 (8 * Z.of_nat (S j) - m) (8 * Z.of_nat (S j) - n) ltac:(lia) ltac:(lia)). lia.
Qed.

Lemma last_bits_more d e : 0 <= d < e -> e < 8 -> Z.land (256 - 2 ^ d) (Z.lnot (256 - 2 ^ e)) <> 0.
Proof.
  intros Hd He. assert (e = 1 \/ e = 2 \/ e = 3 \/ e = 4 \/ e = 5 \/ e = 6 \/ e = 7) as He' by lia.
  assert (d = 0 \/ d = 1 \/ d = 2 \/ d = 3 \/ d = 4 \/ d = 5 \/ d = 6) as Hd' by lia.
  destruct He' as [->|[->|[->|[->|[->|[->| ->]]]]]]; destruct Hd' as [->|[->|[->|[->|[->|[->| ->]]]]]]; (lia || done).
Qed.

(** A shorter mask does not refine a longer one, nor is it better otherwise. *)
Lemma refines_shorter s n m : 0 <= n < m -> 8 < m <= 256 -> rn_refines (mask_of n) (mask_of m) s = (ok false, s).
Proof.
  intros Hn Hm. pose proof (blen_bounds n) as Bn. pose proof (blen_bounds m) as Bm. unfold rn_refines.
  rewrite (st_bind_ok _ _ _ _ _ (at_ok (mask_of m) 0 s ltac:(rewrite mask_of_length; lia))), (st_bind_ok _ _ _ _ _ (at_ok (mask_of n) 0 s ltac:(rewrite mask_of_length; lia))).
  cbn [mask_of nth]. fold (blen m) (blen n). fold (mask_of m) (mask_of n). cbv zeta.
  assert (nth (Z.to_nat (blen m) - 1) (mask_of m) 0 <> 0) as Hlast by (rewrite mask_of_nth by lia; apply mask_byte_pos; lia).
  destruct (Z.ltb_spec 0 (blen m - blen n)) as [Hlong|Hsame].
  - destruct (refines_common_total s (mask_of n) (mask_of m) (Z.to_nat (blen n) - 1) 1 true) as [r Er]; [rewrite mask_of_length; lia..|].
    rewrite (st_bind_ok _ _ _ _ _ Er). destruct r as [e|]; [|done].
    erewrite st_bind_ok; [|apply (any_set_true s _ (Z.to_nat (blen m) - 1)); [lia|rewrite mask_of_length; lia|done]]. done.
  - assert (blen m = blen n) as E by lia. erewrite st_bind_ok; [|apply (refines_common_none s _ _ (Z.to_nat (blen m) - 1)); [lia|rewrite mask_of_length; lia..|]]; [done|].
    rewrite !mask_of_nth by lia. rewrite !mask_byte_last by lia. apply last_bits_more; lia.
Qed.
Lemma lexobetter_shorter s n m : 0 <= n < m -> 8 < m <= 256 -> rn_lexobetter (mask_of n) (mask_of m) s = (ok false, s).
Proof.
  intros Hn Hm. pose proof (blen_bounds n) as Bn. pose proof (blen_bounds m) as Bm. unfold rn_lexobetter.
  rewrite (st_bind_ok _ _ _ _ _ (at_ok (mask_of n) 0 s ltac:(rewrite mask_of_length; lia))), (st_bind_ok _ _ _ _ _ (at_ok (mask_of m) 0 s ltac:(rewrite mask_of_length; lia))).
  cbn [mask_of nth]. fold (blen m) (blen n). fold (mask_of m) (mask_of n). rewrite (proj2 (Z.ltb_ge _ _)) by lia.
  destruct (Z.eqb_spec (blen n) (blen m)) as [E|]; [|done]. apply any_greater_false; [rewrite mask_of_length; lia..|].
  intros j Hj. destruct j as [|j]; [cbn [mask_of nth]; fold (blen n) (blen m); lia|]. rewrite !mask_of_nth by lia. apply mask_byte_mono; lia.
Qed.

(** ** Places in a list *)
Definition mhead (ml : list (ptr * leaf)) : ptr := match ml with [] => NULL | (q, _) :: _ => q end.
Lemma mrep_head s m ml : mrep s m ml -> m = mhead ml.
Proof. by destruct ml as [|[q x] ml]; [|intros [-> _]]. Qed.

(** The place behind the entries [pre] of the list of [t]. *)
Definition lplace (t : ptr) (pre : list (ptr * leaf)) : place := match last pre with None => OfNode t | Some (q, _) => OfMask q end.
Lemma lplace_snoc t pre q x : lplace t (pre ++ [(q, x)]) = OfMask q.
Proof. unfold lplace. by rewrite last_snoc. Qed.

Definition updm (s : state) (q : ptr) (a : radix_mask) : state := s <| masks := <[q := a]> (masks s) |>.
Lemma update_mask_ok s q a f : masks s !! q = Some a -> update_mask q f s = (ok tt, updm s q (f a)).
Proof. intros H. unfold update_mask. by rewrite (st_bind_ok _ _ _ _ _ (deref_mask_ok _ _ _ H)). Qed.

Lemma mrep_app s m pre post : mrep s m (pre ++ post) -> exists m', mrep s m' post /\ (pre = [] /\ m' = m \/
  exists pre' q x a, pre = pre' ++ [(q, x)] /\ masks s !! q = Some a /\ rm_mklist a = m').
Proof.
  revert m. induction pre as [|[q x] pre IH]; intros m H; [exists m; split; [done|by left]|].
  destruct H as (-> & Hq & a & Ha & _ & _ & _ & _ & H). destruct (IH _ H) as (m' & Hm' & Hpre). exists m'. split; [done|]. right.
  destruct Hpre as [[-> ->]|(pre' & q' & x' & a' & -> & ? & ?)]; [exists [], q, x, a; done|].
  exists ((q, x) :: pre'), q', x', a'. done.
Qed.

Lemma get_lplace s t tn pre post : nodes s !! t = Some tn -> mrep s (rn_mklist tn) (pre ++ post) -> get_place (lplace t pre) s = (ok (mhead post), s).
Proof.
  intros Ht H. destruct (mrep_app _ _ _ _ H) as (m' & Hm' & [[-> ->]|(pre' & q & x & a & -> & Ha & <-)]).
  - rewrite <-(mrep_head _ _ _ Hm'). by apply get_ok.
  - rewrite lplace_snoc, <-(mrep_head _ _ _ Hm'). simpl. by rewrite (st_bind_ok _ _ _ _ _ (deref_mask_ok _ _ _ Ha)).
Qed.

(** A write there. *)
Record written (s s' : state) (t : ptr) (tn : radix_node) (pre : list (ptr * leaf)) (v : ptr) : Prop := {
  wr_node : nodes s' !! t = Some (tn <| rn_mklist := if decide (pre = []) then v else rn_mklist tn |>);
  wr_nodes (p : ptr) : p <> t -> nodes s' !! p = nodes s !! p;
  wr_masks (q : ptr) : q ∉ pre.*1 -> masks s' !! q = masks s !! q;
  wr_dom (q : ptr) : is_Some (masks s' !! q) <-> is_Some (masks s !! q);
  wr_bytes : bytes s' = bytes s; wr_brk : brk s' = brk s; wr_oom : oom s' = oom s;
  wr_list post : mrep s' v post -> mrep s' (if decide (pre = []) then v else rn_mklist tn) (pre ++ post) }.

Lemma mrep_write s s' m pre q x a v post : NoDup (pre ++ [(q, x)]).*1 -> mrep s m ((pre ++ [(q, x)]) ++ post) -> masks s !! q = Some a ->
  masks s' !! q = Some (a <| rm_mklist := v |>) -> (forall p, p <> q -> masks s' !! p = masks s !! p) ->
  forall post', mrep s' v post' -> mrep s' m ((pre ++ [(q, x)]) ++ post').
Proof.
  intros Hnd Hm Ha Ha' Hk post' Hp. revert m Hm Hnd. induction pre as [|[q' x'] pre IH]; intros m Hm Hnd; simpl in *.
  - destruct Hm as (-> & Hq & a0 & Ha0 & ? & ? & ? & ? & _). rewrite Ha in Ha0. injection Ha0 as <-. split; [done|]. split; [done|].
    exists (a <| rm_mklist := v |>). split; [done|]. by destruct a.
  - destruct Hm as (-> & Hq & a0 & Ha0 & ? & ? & ? & ? & Hm). apply NoDup_cons in Hnd as [Hne Hnd]. split; [done|]. split; [done|].
    exists a0. split; [|split_and!; [done..|by apply IH]]. rewrite Hk; [done|]. intros ->. apply Hne. rewrite fmap_app. set_solver.
Qed.

Lemma set_lplace s t tn pre post v : nodes s !! t = Some tn -> mrep s (rn_mklist tn) (pre ++ post) -> NoDup pre.*1 ->
  exists s', set_place (lplace t pre) v s = (ok tt, s') /\ written s s' t tn pre v.
Proof.
  intros Ht H Hnd. pose proof H as H'. destruct (mrep_app _ _ _ _ H') as (m' & Hm' & [[-> ->]|(pre' & q & x & a & -> & Ha & <-)]).
  - exists (upd s t (tn <| rn_mklist := v |>)). split; [by apply (update_ok _ _ _ (fun x => x <| rn_mklist := v |>))|].
    split; rewrite ?masks_upd, ?bytes_upd, ?brk_upd, ?oom_upd; try done; [apply nupd_eq|]. intros p Hp. by apply nupd_ne.
  - rewrite lplace_snoc. exists (updm s q (a <| rm_mklist := v |>)). split; [by apply (update_mask_ok _ _ _ (fun x => x <| rm_mklist := v |>))|].
    assert (masks (updm s q (a <| rm_mklist := v |>)) = <[q := a <| rm_mklist := v |>]> (masks s)) as Em by (by destruct s).
    assert (nodes (updm s q (a <| rm_mklist := v |>)) = nodes s) as En by (by destruct s).
    split; rewrite ?En, ?Em; try (by destruct s); rewrite ?decide_False by (by destruct pre').
    + rewrite Ht. by destruct tn.
    + intros p Hp. rewrite lookup_insert_ne; [done|]. intros ->. apply Hp. rewrite fmap_app. set_solver.
    + intros p. destruct (decide (p = q)) as [->|]; [rewrite lookup_insert_eq, Ha; by split; eauto|by rewrite lookup_insert_ne].
    + intros post'. eapply mrep_write; [exact Hnd|exact H|exact Ha|rewrite Em; by rewrite lookup_insert_eq|].
      intros p Hp. by rewrite Em, lookup_insert_ne.
Qed.
End RadixOrder.
