(* ===== verification/RadixRoute.v ===== *)
(** * Routes in the radix tree

    The tree of keys of [alpha/al_radix.c] as chains of leaves in memory, each
    leaf with the list entry that was made for it, and the steps in which
    [rn_addroute] changes the lists of masks. *)

From Stdlib Require Import ZArith Lia Bool Sorted.
From stdpp Require Import base tactics option gmap list list_numbers.
From S2P Require Import Prelude Radix RadixShape RadixRep RadixMatch RadixCtx RadixAdd RadixInsert RadixMask RadixOrder.

Open Scope Z_scope.

Module RadixRoute.
Import Radix RadixShape RadixRep RadixMatch RadixCtx RadixAdd RadixInsert RadixMask RadixOrder.

(** ** Chains of leaves *)
Lemma leaf_frame L s s' par d x : leaf_rep L s par d x -> kept s s' (lp x) -> bytes_kept s s' -> leaf_rep L s' par d x.
Proof.
  intros [(n & Hn & Hu & Hb & Hp & Hf & Hr) ? ? Hk ? ? ? Hm] Hkp Hbk. destruct (Hkp n Hn) as (n' & Hn' & Hs). split; try done; [|by apply Hbk|].
  - exists n'. split; [done|]. destruct Hs as [->|(k & m & d' & q & _ & ->)]; [done|by destruct n].
  - intros H'. by apply Hbk, Hm.
Qed.
Lemma crep_frame L s s' c : forall par, crep L s par c -> (forall p, p ∈ map lp c -> kept s s' p) -> bytes_kept s s' -> crep L s' par c.
Proof.
  induction c as [|x c IH]; intros par Hc Hk Hb; [done|]. destruct Hc as [Hx Hc]. simpl in *. split.
  - eapply leaf_frame; [exact Hx|apply Hk; set_solver|done].
  - apply IH; [done|intros; apply Hk; set_solver|done].
Qed.
(** The first leaf gets another parent, or another successor. *)
Lemma leaf_link L s s' par par' d d' x n : leaf_rep L s par d x -> nodes s !! lp x = Some n ->
  nodes s' !! lp x = Some (n <| rn_parent := par' |> <| rn_u := Leaf_ (lkp x) (lmp x) d' |>) -> bytes_kept s s' -> leaf_rep L s' par' d' x.
Proof.
  intros [(n0 & Hn0 & Hu & Hb & Hp & Hf & Hr) ? ? Hk ? ? ? Hm] Hn Hn' Hbk. rewrite Hn in Hn0. injection Hn0 as <-. split; try done; [|by apply Hbk|].
  - eexists. split; [exact Hn'|]. by destruct n.
  - intros H'. by apply Hbk, Hm.
Qed.
Lemma set_same_u n k m d : rn_u n = Leaf_ k m d -> n <| rn_u := Leaf_ k m d |> = n.
Proof. destruct n. simpl. by intros ->. Qed.

Definition KR (L : Z) (s : state) (par : ptr) (c : list leaf) : Prop := c <> [] /\ crep L s par c /\ Forall (fun x => -257 <= lbit x) c.

#[export] Instance key_chain L : ChainRep L (KR L).
Proof.
  split.
  - intros s par [|x c] (? & Hc & Hb); [done|]. exists x, c. destruct Hc as [[(n & Hn & Hu & Hbi & Hp & _) ? ? ? ? ? _ _] _].
    apply Forall_cons in Hb as [Hb _]. split_and!; try done. eexists n, _, _. split_and!; [done..| | |done]; lia.
  - intros s par c (_ & Hc & _). revert par Hc. induction c as [|x c IH]; intros par Hc; simpl; constructor.
    + destruct Hc as [[(n & Hn & _) _ _ _ _ _ _ _] _]. by eexists.
    + eapply IH, Hc.
  - intros s s' par c (? & Hc & ?) Hk Hb. split_and!; [done| |done]. by eapply crep_frame.
  - intros s s' par par' x c n (? & Hc & ?) Hn Hn' Hk Hb. split_and!; [done| |done]. destruct Hc as [Hx Hc]. split.
    + eapply leaf_link; [exact Hx|exact Hn| |done]. rewrite Hn'. destruct Hx as [(n0 & Hn0 & Hu & _) _ _ _ _ _ _ _].
      rewrite Hn in Hn0. injection Hn0 as <-. f_equal. symmetry. apply set_same_u. by destruct n.
    + eapply crep_frame; [exact Hc| |done]. intros p Hp. by apply kept_eq, Hk.
Qed.

Lemma key_tree L s par t : gtrep (KR L) s par t -> trep L s par t.
Proof.
  revert par. induction t as [c|p b ml l IHl r IHr]; intros par H; simpl in *; [by destruct H as (? & ? & _)|].
  destruct H as (? & ? & ? & ?). split_and!; auto.
Qed.

(** ** The entries of leaves *)

(** [E] are the entries in the lists above: the leaves whose prefix ends above
    [lo] have theirs, the others have none. *)
Fixpoint ann (s : state) (E : list (ptr * leaf)) (lo : Z) (t : tree) : Prop :=
  match t with
  | Lf c => forall y, y ∈ c -> is_route y -> exists n, nodes s !! lp y = Some n /\ (if lo <? plen y then rn_mklist n = NULL else (rn_mklist n, y) ∈ E)
  | Nd _ b ml l r => ann s (E ++ ml) b l /\ ann s (E ++ ml) b r
  end.
Fixpoint annc (s : state) (E : list (ptr * leaf)) (lo : Z) (C : list frame) : Prop :=
  match C with [] => True | f :: C => ann s (E ++ fml f) (fb f) (fsib f) /\ annc s (E ++ fml f) (fb f) C end.

Lemma ann_fillf s E lo f t : ann s E lo (fillf f t) <-> ann s (E ++ fml f) (fb f) (fsib f) /\ ann s (E ++ fml f) (fb f) t.
Proof. unfold fillf. destruct (fside f); simpl; tauto. Qed.
Lemma ann_fill s C t : forall E lo, ann s E lo (fill C t) <-> annc s E lo C /\ ann s (E ++ cml C) (cbit lo C) t.
Proof.
  induction C as [|f C IH]; intros E lo; simpl; [rewrite app_nil_r; tauto|]. rewrite ann_fillf, IH. unfold cml. cbn [mbind list_bind].
  rewrite <-(assoc_L (++)). tauto.
Qed.
Lemma annc_app s C C' : forall E lo, annc s E lo (C ++ C') <-> annc s E lo C /\ annc s (E ++ cml C) (cbit lo C) C'.
Proof.
  induction C as [|f C IH]; intros E lo; simpl; [rewrite app_nil_r; tauto|]. rewrite IH. unfold cml. cbn [mbind list_bind].
  rewrite <-(assoc_L (++)). tauto.
Qed.

(** The leaf's entry is what it was. *)
Definition same_entry (s s' : state) (y : leaf) : Prop := forall n, nodes s !! lp y = Some n -> exists n', nodes s' !! lp y = Some n' /\ rn_mklist n' = rn_mklist n.

Lemma ann_frame s s' t : forall E E' lo, ann s E lo t -> (forall y, y ∈ leaves t -> same_entry s s' y) -> E ⊆ E' -> ann s' E' lo t.
Proof.
  induction t as [c|p b ml l IHl r IHr]; intros E E' lo H Hk HE; simpl in *.
  - intros y Hy Hr. destruct (H y Hy Hr) as (n & Hn & Hm). destruct (Hk y Hy n Hn) as (n' & Hn' & E2). exists n'. split; [done|].
    rewrite E2. destruct (lo <? plen y); [done|by apply HE].
  - destruct H as [Hl Hr]. split; [eapply IHl; [exact Hl|..]|eapply IHr; [exact Hr|..]]; try (intros; apply Hk; set_solver); set_solver.
Qed.
Lemma annc_frame s s' C : forall E E' lo, annc s E lo C -> (forall f y, f ∈ C -> y ∈ leaves (fsib f) -> same_entry s s' y) -> E ⊆ E' -> annc s' E' lo C.
Proof.
  induction C as [|f C IH]; intros E E' lo H Hk HE; simpl in *; [done|]. destruct H as [Hf HC]. split.
  - eapply ann_frame; [exact Hf| |set_solver]. intros y Hy. apply (Hk f); set_solver.
  - eapply IH; [exact HC| |set_solver]. intros g y Hg. apply Hk. set_solver.
Qed.

(** ** New entries *)

(** Only nodes in [ps] differ, and these only in their lists. *)
Record relisted (s s' : state) (ps : list ptr) : Prop := {
  rl_nodes (p : ptr) : p ∉ ps -> nodes s' !! p = nodes s !! p;
  rl_list (p : ptr) n : p ∈ ps -> nodes s !! p = Some n -> exists q, nodes s' !! p = Some (n <| rn_mklist := q |>);
  rl_bytes : bytes s' = bytes s; rl_oom : oom s' = oom s; rl_brk : (brk s <= brk s')%nat;
  rl_bounded : bounded s -> bounded s' }.

Lemma relisted_refl s ps : relisted s s ps.
Proof. split; try done; try lia. intros p n _ Hn. exists (rn_mklist n). by destruct n. Qed.
Lemma relisted_trans s s' s'' ps : relisted s s' ps -> relisted s' s'' ps -> relisted s s'' ps.
Proof.
  intros [A1 A2 A3 A4 A5 A6] [B1 B2 B3 B4 B5 B6]. split; [| |congruence|congruence|lia|auto].
  - intros p Hp. by rewrite B1, A1.
  - intros p n Hp Hn. destruct (A2 p n Hp Hn) as [q Hq]. destruct (B2 p _ Hp Hq) as [q' Hq']. exists q'. rewrite Hq'. by destruct n.
Qed.
Lemma relisted_mono s s' ps ps' : relisted s s' ps -> ps ⊆ ps' -> relisted s s' ps'.
Proof.
  intros [A1 A2 A3 A4 A5 A6] Hsub. split; try done; [by intros p Hp; apply A1; set_solver|].
  intros p n Hp Hn. destruct (decide (p ∈ ps)); [by apply A2|]. exists (rn_mklist n). rewrite A1, Hn by done. by destruct n.
Qed.
Lemma relisted_dom s s' ps p : relisted s s' ps -> is_Some (nodes s !! p) -> is_Some (nodes s' !! p).
Proof. intros H [n Hn]. destruct (decide (p ∈ ps)) as [Hp|Hp]; [destruct (rl_list _ _ _ H p n Hp Hn); eauto|rewrite (rl_nodes _ _ _ H) by done; eauto]. Qed.

Lemma written_relisted s s' t tn pre v : nodes s !! t = Some tn -> written s s' t tn pre v -> relisted s s' [t].
Proof.
  intros Ht [A1 A2 A3 A4 A5 A6 A7 _]. split; try done; [|..|lia|].
  - intros p Hp. apply A2. set_solver.
  - intros p n ->%list_elem_of_singleton Hn. rewrite Ht in Hn. injection Hn as <-. eauto.
  - intros [B1 B2 B3]. split; rewrite A6; intros p Hp.
    + apply B1. destruct (decide (p = t)) as [->|]; [eauto|by rewrite <-A2].
    + apply B2. by apply A4.
    + apply B3. by rewrite <-A5.
Qed.

Lemma new_mask_ok L s par d x next : leaf_rep L s par d x -> is_route x -> oom s = [] ->
  exists s', rn_new_radix_mask (lp x) next s = (ok (brk s), s') /\ relisted s s' [lp x]
    /\ (exists n, nodes s' !! lp x = Some n /\ rn_mklist n = brk s)
    /\ (forall q, q <> brk s -> masks s' !! q = masks s !! q) /\ (brk s < brk s')%nat
    /\ forall ml s'', masks s'' !! brk s = masks s' !! brk s -> brk s <> NULL -> mrep s'' next ml -> mrep s'' (brk s) ((brk s, x) :: ml).
Proof.
  intros [(n & Hn & Hu & Hb & _ & Hf & _) _ _ _ _ _ _ _] Hx Ho. unfold rn_new_radix_mask.
  assert (alloc 1 s = (ok (Some (brk s)), s <| brk := (brk s + 1)%nat |> <| oom := [] |>)) as Ea by (unfold alloc; by rewrite Ho).
  rewrite (st_bind_ok _ _ _ _ _ Ea). set (s1 := s <| brk := (brk s + 1)%nat |> <| oom := [] |>).
  assert (nodes s1 = nodes s /\ masks s1 = masks s /\ bytes s1 = bytes s /\ brk s1 = (brk s + 1)%nat /\ oom s1 = []) as (N1 & M1 & B1 & K1 & O1) by (unfold s1; by destruct s).
  assert (nodes s1 !! lp x = Some n) as Hn1 by (by rewrite N1). rstep. rewrite has_comm, Hf.
  set (rmu := if lnormal x then lp x else lmp x).
  assert ((if lnormal x then st_ret (lp x) else rn_mask (lp x)) s1 = (ok rmu, s1)) as Er by (unfold rmu; destruct (lnormal x); [done|racc]).
  rewrite (st_bind_ok _ _ _ _ _ Er). set (a := mk_mask (rn_bit n) (rn_flags n) next rmu 0).
  erewrite st_bind_ok by reflexivity. cbv beta. set (s2 := s1 <| masks := <[brk s := a]> (masks s1) |>).
  assert (nodes s2 = nodes s /\ masks s2 = <[brk s := a]> (masks s) /\ bytes s2 = bytes s /\ brk s2 = (brk s + 1)%nat /\ oom s2 = []) as (N2 & M2 & B2 & K2 & O2)
    by (unfold s2, s1; by destruct s).
  assert (nodes s2 !! lp x = Some n) as Hn2 by (by rewrite N2). unfold set_mklist. rstep. eexists. split; [reflexivity|].
  set (s3 := upd s2 (lp x) (n <| rn_mklist := brk s |>)).
  assert (masks s3 = masks s2 /\ bytes s3 = bytes s2 /\ brk s3 = brk s2 /\ oom s3 = oom s2) as (M3 & B3 & K3 & O3) by (unfold s3; by rewrite masks_upd, bytes_upd, brk_upd, oom_upd).
  assert (nodes s3 = <[lp x := n <| rn_mklist := brk s |>]> (nodes s)) as N3 by (unfold s3; by rewrite nodes_upd, N2).
  split_and!.
  - split.
    + intros p Hin. rewrite N3. apply lookup_insert_ne. set_solver.
    + intros p n' ->%list_elem_of_singleton Hn'. rewrite Hn in Hn'. injection Hn' as <-. exists (brk s). rewrite N3. by rewrite lookup_insert_eq.
    + by rewrite B3, B2.
    + by rewrite O3, O2.
    + rewrite K3, K2. lia.
    + intros [C1 C2 C3]. split; rewrite K3, K2; intros p.
      * rewrite N3. destruct (decide (p = lp x)) as [->|]; [intros _; pose proof (C1 (lp x) ltac:(by eexists)); lia|].
        rewrite lookup_insert_ne by done. intros H%C1. lia.
      * rewrite M3, M2. destruct (decide (p = brk s)) as [->|]; [lia|]. rewrite lookup_insert_ne by done. intros H%C2. lia.
      * rewrite B3, B2. intros H%C3. lia.
  - exists (n <| rn_mklist := brk s |>). rewrite N3, lookup_insert_eq. by destruct n.
  - intros q Hq. rewrite M3, M2. by rewrite lookup_insert_ne.
  - rewrite K3, K2. lia.
  - intros ml s'' Hm Hne Hml. simpl. split; [done|]. split; [done|]. exists a. split; [by rewrite Hm, M3, M2, lookup_insert_eq|]. unfold a. simpl. by split_and!.
Qed.

Lemma relisted_kept s s' ps p : relisted s s' ps -> (forall n o l r, nodes s !! p = Some n -> rn_u n = Inner_ o l r -> p ∉ ps) -> kept s s' p.
Proof.
  intros H Hin n Hn. destruct (decide (p ∈ ps)) as [Hp|Hp]; [|exists n; split; [by rewrite (rl_nodes _ _ _ H)|by left]].
  destruct (rl_list _ _ _ H p n Hp Hn) as [q Hq]. exists (n <| rn_mklist := q |>). split; [done|]. right.
  destruct (rn_u n) as [k m d|o l r] eqn:Eu; [by exists k, m, d, q|]. by destruct (Hin n o l r Hn Eu).
Qed.
Lemma crep_leaf_nodes L s c : forall par p n o l r, crep L s par c -> p ∈ map lp c -> nodes s !! p = Some n -> rn_u n <> Inner_ o l r.
Proof.
  induction c as [|x c IH]; intros par p n o l r Hc Hp Hn; simpl in *; [by apply not_elem_of_nil in Hp|]. destruct Hc as [[(n' & Hn' & Hu & _) _ _ _ _ _ _ _] Hc].
  apply elem_of_cons in Hp as [->|Hp]; [|by eapply IH]. rewrite Hn in Hn'. injection Hn' as <-. by rewrite Hu.
Qed.
Lemma crep_relisted L s s' par c ps : crep L s par c -> relisted s s' ps -> crep L s' par c.
Proof.
  intros Hc H. eapply crep_frame; [exact Hc| |].
  - intros p Hp. eapply relisted_kept; [exact H|]. intros n o l r Hn Hu. by destruct (crep_leaf_nodes L s c par p n o l r Hc Hp Hn).
  - intros k v. by rewrite (rl_bytes _ _ _ H).
Qed.

(** Which leaves get an entry in the list of the new inner node. *)
Definition gets_entry (lo B : Z) (y : leaf) : Prop := is_route y /\ lo < plen y <= B.
#[export] Instance gets_entry_dec lo B y : Decision (gets_entry lo B y).
Proof. unfold gets_entry. apply _. Defined.

Record leaves_promoted (lo B : Z) (s s' : state) (t : ptr) (done ml0 : list (ptr * leaf)) (c : list leaf) : Prop := {
  lpr_list : ml0.*2 = filter (gets_entry lo B) c;
  lpr_relisted : relisted s s' (t :: map lp c);
  lpr_head : exists n, nodes s' !! t = Some n /\ mrep s' (rn_mklist n) (done ++ ml0);
  lpr_fresh : Forall (fun q => brk s <= q)%nat ml0.*1; lpr_nodup : NoDup ml0.*1;
  lpr_got q y : (q, y) ∈ ml0 -> exists n, nodes s' !! lp y = Some n /\ rn_mklist n = q;
  lpr_not y : y ∈ c -> ~ gets_entry lo B y -> nodes s' !! lp y = nodes s !! lp y;
  lpr_masks (q : ptr) : (q < brk s)%nat -> q ∉ done.*1 -> masks s' !! q = masks s !! q }.

Lemma mrep_masks s m ml : mrep s m ml -> Forall (fun q => is_Some (masks s !! q)) ml.*1.
Proof.
  revert m. induction ml as [|[q x] ml IH]; intros m H; csimpl; constructor.
  - destruct H as (_ & _ & a & Ha & _). by eexists.
  - destruct H as (_ & _ & a & _ & _ & _ & _ & _ & H). eauto.
Qed.

Lemma promote_leaves_ok L t B lo : forall c f s par done tn,
  crep L s par c -> NoDup (map lp c) -> t ∉ map lp c -> nodes s !! t = Some tn -> mrep s (rn_mklist tn) done -> NoDup done.*1 ->
  oom s = [] -> bounded s ->
  (forall y, y ∈ c -> is_route y -> exists n, nodes s !! lp y = Some n /\ (rn_mklist n = NULL <-> lo < plen y)) -> (length c < f)%nat ->
  exists s' ml0, promote_leaves f (-1 - B) (lplace t done) (chead c) s = (ok tt, s') /\ leaves_promoted lo B s s' t done ml0 c.
Proof.
  induction c as [|x c IH]; intros f s par done tn Hc Hnd Ht Htn Hm Hdn Ho Hb Hann Hf; (destruct f as [|f]; [simpl in Hf; lia|]); cbn [promote_leaves].
  { exists s, []. split; [done|]. split; try done; [apply relisted_refl|exists tn; by rewrite app_nil_r|]. intros q y H. by apply not_elem_of_nil in H. }
  destruct Hc as [Hx Hc]. pose proof Hx as [(n & Hn & Hu & Hbi & _ & Hno & _) Hnull _ _ _ _ _ _]. cbn [chead]. simpl in Hnd, Ht, Hf.
  apply NoDup_cons in Hnd as [Hxc Hnd]. rewrite not_elem_of_cons in Ht. destruct Ht as [Htx Htc].
  rewrite (proj2 (Nat.eqb_neq _ _) Hnull). rstep. rstep.
  assert ((negb (lmp x =? NULL)%nat && (-1 - B <=? rn_bit n) && (rn_mklist n =? NULL)%nat) = bool_decide (gets_entry lo B x)) as ->.
  { unfold gets_entry, is_route. rewrite Hbi. unfold plen. destruct (Nat.eqb_spec (lmp x) NULL) as [E|E]; simpl; [by rewrite bool_decide_false by tauto|].
    destruct (Hann x ltac:(set_solver) E) as (n' & Hn' & Hi). rewrite Hn in Hn'. injection Hn' as <-. unfold plen in Hi.
    destruct (Z.leb_spec (-1 - B) (lbit x)); simpl; [|by rewrite bool_decide_false by lia].
    destruct (Nat.eqb_spec (rn_mklist n) NULL) as [E'|E'].
    - apply Hi in E'. rewrite bool_decide_true; [done|]. split; [done|lia].
    - rewrite bool_decide_false; [done|]. intros (_ & ? & _). by apply E', Hi. }
  assert (forall s1 ps, relisted s s1 ps -> lp x ∈ ps \/ True -> forall y, y ∈ c -> is_route y -> lp y ∉ ps -> exists n, nodes s1 !! lp y = Some n /\ (rn_mklist n = NULL <-> lo < plen y)) as Hann'.
  { intros s1 ps Hrl _ y Hy Hyr Hps. destruct (Hann y ltac:(set_solver) Hyr) as (ny & Hny & Hi). exists ny. by rewrite (rl_nodes _ _ _ Hrl). }
  destruct (decide (gets_entry lo B x)) as [Hg|Hg].
  - rewrite bool_decide_true by done. destruct Hg as [Hr Hlen].
    destruct (new_mask_ok L s par (chead c) x NULL Hx Hr Ho) as (s1 & E1 & R1 & (n1 & Hn1 & Hq1) & M1 & K1 & L1). rewrite (st_bind_ok _ _ _ _ _ E1).
    set (m := brk s) in *. assert (0 < m)%nat as Hm0 by (pose proof (bounded_nodes _ Hb (lp x) ltac:(by eexists)); lia).
    assert (nodes s1 !! t = Some tn) as Ht1 by (rewrite (rl_nodes _ _ _ R1); [done|set_solver]).
    pose proof (mrep_masks _ _ _ Hm) as Hdm. rewrite Forall_forall in Hdm.
    assert (m ∉ done.*1) as Hmd by (intros H; apply Hdm, (bounded_masks _ Hb) in H; unfold m in H; lia).
    assert (mrep s1 (rn_mklist tn) (done ++ [])) as Hm1.
    { rewrite app_nil_r. eapply mrep_kept; [|exact Hm]. intros q Hq. apply M1. intros ->. done. }
    destruct (set_lplace s1 t tn done [] m Ht1 Hm1 Hdn) as (s2 & E2 & W). rewrite (st_bind_ok _ _ _ _ _ E2).
    rewrite (proj2 (Nat.eqb_neq m NULL)) by (unfold NULL; lia). rewrite <-(lplace_snoc t done m x).
    pose proof (written_relisted _ _ _ _ _ _ Ht1 W) as R2.
    assert (mrep s2 m [(m, x)]) as Hm2 by (apply (L1 []); [by apply (wr_masks _ _ _ _ _ _ W)|unfold NULL; lia|done]).
    assert (relisted s s2 (t :: lp x :: map lp c)) as R by (eapply relisted_trans; (eapply relisted_mono; [done|set_solver])).
    destruct (IH f s2 (lp x) (done ++ [(m, x)]) (tn <| rn_mklist := if decide (done = []) then m else rn_mklist tn |>))
      as (s3 & ml0 & E3 & [P1 P2 P3 P4 P5 P6 P7 P8]).
    + eapply crep_relisted; [exact Hc|exact R].
    + done.
    + done.
    + apply (wr_node _ _ _ _ _ _ W).
    + replace (rn_mklist (tn <| rn_mklist := if decide (done = []) then m else rn_mklist tn |>)) with (if decide (done = []) then m else rn_mklist tn) by (by destruct tn).
      by apply (wr_list _ _ _ _ _ _ W).
    + rewrite fmap_app. apply NoDup_app. split; [done|]. split; [|apply NoDup_singleton]. intros q Hq ->%list_elem_of_singleton. done.
    + by rewrite (rl_oom _ _ _ R).
    + by apply (rl_bounded _ _ _ R).
    + intros y Hy Hyr. destruct (Hann' s1 [lp x] R1 (or_intror I) y Hy Hyr) as (ny & Hny & Hi).
      { intros E%list_elem_of_singleton. apply Hxc. rewrite <-E. apply list_elem_of_In, in_map, list_elem_of_In. done. }
      exists ny. split; [|done]. rewrite (wr_nodes _ _ _ _ _ _ W); [done|]. intros E. apply Htc. rewrite <-E. apply list_elem_of_In, in_map, list_elem_of_In. done.
    + lia.
    + exists s3, ((m, x) :: ml0). split; [exact E3|].
      assert (brk s < brk s2)%nat as Hlt by (rewrite (wr_brk _ _ _ _ _ _ W); done).
      split.
      * csimpl. rewrite filter_cons_True by done. by rewrite P1.
      * simpl. eapply relisted_trans; [exact R|]. eapply relisted_mono; [exact P2|set_solver].
      * destruct P3 as (nt & Hnt & Hml). exists nt. split; [done|]. by rewrite <-(assoc_L (++)) in Hml.
      * csimpl. constructor; [unfold m; lia|]. eapply Forall_impl; [exact P4|]. simpl. lia.
      * csimpl. constructor; [|done]. intros H. rewrite Forall_forall in P4. apply P4 in H. unfold m in H. lia.
      * intros q y [[= -> ->]|H]%elem_of_cons; [|by apply P6]. rewrite (rl_nodes _ _ _ P2).
        { rewrite (wr_nodes _ _ _ _ _ _ W) by done. eauto. }
        rewrite not_elem_of_cons. split; [done|exact Hxc].
      * intros y [->|Hy]%elem_of_cons Hng; [by destruct Hng|]. rewrite (P7 y Hy Hng). rewrite (wr_nodes _ _ _ _ _ _ W), (rl_nodes _ _ _ R1).
        { done. }
        { intros E%list_elem_of_singleton. apply Hxc. rewrite <-E. apply list_elem_of_In, in_map, list_elem_of_In. done. }
        { intros E. apply Htc. rewrite <-E. apply list_elem_of_In, in_map, list_elem_of_In. done. }
      * intros q Hq Hqd. rewrite P8; [|lia|]. { rewrite (wr_masks _ _ _ _ _ _ W) by done. apply M1. unfold m. lia. }
        rewrite fmap_app. csimpl. unfold m. rewrite elem_of_app, list_elem_of_singleton. intros [?|?]; [done|lia].
  - rewrite bool_decide_false by done. destruct (IH f s (lp x) done tn) as (s3 & ml0 & E3 & [P1 P2 P3 P4 P5 P6 P7 P8]); try done; [|lia|].
    { intros y Hy Hyr. apply Hann; [set_solver|done]. }
    exists s3, ml0. split; [exact E3|]. split; try done.
    + rewrite P1. by rewrite filter_cons_False by done.
    + simpl. eapply relisted_mono; [exact P2|set_solver].
    + intros y [->|Hy]%elem_of_cons Hng; [|by apply P7]. apply (rl_nodes _ _ _ P2). rewrite not_elem_of_cons. done.
Qed.

(** The list behind the entries whose prefix ends behind [B]. *)
Lemma skip_masks_ok s p pn B : nodes s !! p = Some pn -> forall rest f pre, mrep s (rn_mklist pn) (pre ++ rest) -> StronglySorted longer rest.*2 ->
  (length rest < f)%nat -> exists ml1 ml0, rest = ml1 ++ ml0 /\ Forall (fun y => B < plen y) ml1.*2 /\ Forall (fun y => plen y <= B) ml0.*2
    /\ skip_masks f (-1 - B) (lplace p pre) s = (ok (lplace p (pre ++ ml1), mhead ml0), s).
Proof.
  intros Hp. induction rest as [|[q y] rest IH]; intros f pre Hm Hs Hf; (destruct f as [|f]; [simpl in Hf; lia|]); cbn [skip_masks];
    rewrite (st_bind_ok _ _ _ _ _ (get_lplace _ _ _ _ _ Hp Hm)); cbn [mhead].
  { exists [], []. rewrite (app_nil_r pre). csimpl. split_and!; [done|by apply Forall_nil|by apply Forall_nil|done]. }
  destruct (mrep_app _ _ _ _ Hm) as (m' & (-> & Hq & a & Ha & Hb & _) & _). rewrite (proj2 (Nat.eqb_neq _ _) Hq), (st_bind_ok _ _ _ _ _ (deref_mask_ok _ _ _ Ha)), Hb.
  csimpl in *. apply StronglySorted_inv in Hs as [Hs Hy]. destruct (Z.leb_spec (-1 - B) (lbit y)) as [H|H].
  - exists [], ((q, y) :: rest). rewrite (app_nil_r pre). csimpl. split_and!; [done|by apply Forall_nil| |done].
    constructor; [unfold plen; lia|]. eapply Forall_impl; [exact Hy|]. unfold longer, plen. simpl. intros. lia.
  - destruct (IH f (pre ++ [(q, y)])) as (ml1 & ml0 & -> & H1 & H0 & E); [by rewrite <-(assoc_L (++))|done|lia|].
    exists ((q, y) :: ml1), ml0. rewrite lplace_snoc in E. rewrite <-(assoc_L (++)) in E. split_and!; [done| |done|exact E].
    csimpl. constructor; [unfold plen; lia|done].
Qed.

Section Promote.
Context (off L : Z) (Hoff : 0 <= off).

Lemma ann_unlisted s E lo c : (forall e, e ∈ E -> e.1 <> NULL) -> ann s E lo (Lf c) ->
  forall y, y ∈ c -> is_route y -> exists n, nodes s !! lp y = Some n /\ (rn_mklist n = NULL <-> lo < plen y).
Proof.
  intros HE H y Hy Hr. destruct (H y Hy Hr) as (n & Hn & Hm). exists n. split; [done|]. destruct (Z.ltb_spec lo (plen y)); [done|].
  split; [|lia]. intros E0. rewrite E0 in Hm. by apply HE in Hm.
Qed.

(** What "promote general routes from below" leaves behind. *)
Record promoted_to (s s' : state) (par t : ptr) (lo B : Z) (x : leaf) (E ml0 : list (ptr * leaf)) (u u1 : tree) : Prop := {
  pt_tree : promoted lo B u ml0 u1;
  pt_rep : frep (KR L) s' par (graft t B x ml0 u1) (lp x);
  pt_ann : ann s' (E ++ ml0) B u1;
  pt_relisted : relisted s s' (t :: tptrs u);
  pt_masks (q : ptr) : (q < brk s)%nat -> q ∉ mptrs u -> masks s' !! q = masks s !! q;
  pt_nodup : NoDup (ml0.*1 ++ mptrs u1);
  pt_new q : q ∈ ml0.*1 ++ mptrs u1 -> q ∈ mptrs u \/ (brk s <= q)%nat }.

Lemma inner_relist s s' par p b ml l r n ml' q : nodes s !! p = Some n -> inner s par p b ml l r -> nodes s' !! p = Some (n <| rn_mklist := q |>) ->
  mrep s' q ml' -> inner s' par p b ml' l r.
Proof. intros Hn (n0 & Hn0 & ? & ? & ? & ? & _) Hn' Hm. rewrite Hn in Hn0. injection Hn0 as <-. eexists. split; [exact Hn'|]. by destruct n. Qed.

Lemma elem_map_lp y c : y ∈ c -> lp y ∈ map lp c.
Proof. intros H. by apply list_elem_of_In, in_map, list_elem_of_In. Qed.

Lemma promote_chain s par t lo B x E c : frep (KR L) s par (graft t B x [] (Lf c)) (lp x) -> NoDup (map lp c) -> t ∉ map lp c -> lp x ∉ map lp c ->
  (forall e, e ∈ E -> e.1 <> NULL) -> ann s E lo (Lf c) -> oom s = [] -> bounded s -> lo < B ->
  exists s' ml0, promote t (lp x) s = (ok tt, s') /\ promoted_to s s' par t lo B x E ml0 (Lf c) (Lf c).
Proof.
  intros Hf Hnd Ht Hx HE Ha Ho Hb HB. pose proof Hf as ((tn & Htn & Htu & Htb & Htbm & Htp & Htm) & Htne & Hc). cbn [graft fside fp fb fml fsib] in *.
  destruct (chain_head s t c Hc) as (y & c' & Ec & _ & _ & _ & _ & n & _ & _ & Hn & _ & Hnb & _). assert (chead c = lp y) as Ehd by (by rewrite Ec).
  assert (chead c ∈ map lp c) as Hin by (rewrite Ec; simpl; set_solver).
  unfold promote. rstep. cbv zeta. rstep. rewrite Htb. cbv zeta. simpl rootp.
  match goal with |- context [deref ?e] => assert (e = chead c) as -> end.
  { destruct (bit (lkey x) B); [by rewrite Nat.eqb_refl|]. rewrite (proj2 (Nat.eqb_neq _ _)); [done|]. intros E0. rewrite E0 in Hin. done. }
  rewrite <-Ehd in Hn. rstep. rewrite (proj2 (Z.ltb_lt _ _)) by lia. rewrite (st_bind_ok _ _ _ _ _ (eq_refl (fuel s))).
  pose proof (chain_ptrs s t c Hc) as Hptrs.
  destruct Hc as (_ & Hc & Hcb).
  destruct (promote_leaves_ok L t B lo c (S (size (nodes s))) s t [] tn) as (s' & ml0 & Ep & [P1 P2 P3 P4 P5 P6 P7 P8]); try done.
  { constructor. } { by eapply ann_unlisted. }
  { assert (length (map lp c) <= size (nodes s))%nat as H; [|rewrite length_map in H; lia]. by apply size_bound. }
  exists s', ml0. split; [exact Ep|].
  split.
  - split; [done|]. rewrite P1. done.
  - destruct P3 as (nt & Hnt & Hml). destruct (rl_list _ _ _ P2 t tn ltac:(set_solver) Htn) as [q Hq]. rewrite Hnt in Hq. injection Hq as ->.
    split_and!; [|done|].
    + eapply (inner_relist s s' par t B [] _ _ tn ml0 q); [exact Htn|by exists tn|done|]. by destruct tn.
    + split_and!; [by rewrite Ec| |done]. eapply crep_relisted; [exact Hc|exact P2].
  - intros w Hw Hr. destruct (Ha w Hw Hr) as (nw & Hnw & Hmw). destruct (decide (gets_entry lo B w)) as [Hg|Hg].
    + assert (w ∈ ml0.*2) as Hin' by (rewrite P1; by apply list_elem_of_filter). apply list_elem_of_fmap in Hin' as ([q w'] & -> & Hin').
      destruct (P6 q w' Hin') as (n' & Hn' & Hq). exists n'. split; [done|]. destruct Hg as (_ & ? & ?). simpl in *. rewrite (proj2 (Z.ltb_ge _ _)) by lia.
      rewrite Hq. set_solver.
    + exists nw. rewrite (P7 w Hw Hg). split; [done|]. unfold gets_entry in Hg. destruct (Z.ltb_spec lo (plen w)).
      * rewrite (proj2 (Z.ltb_lt _ _)); [done|]. destruct (Z.lt_ge_cases B (plen w)); [lia|]. exfalso. apply Hg. split; [done|lia].
      * rewrite (proj2 (Z.ltb_ge _ _)) by lia. set_solver.
  - done.
  - intros q Hq _. apply P8; [done|set_solver].
  - simpl. by rewrite app_nil_r.
  - intros q Hq. simpl in Hq. rewrite app_nil_r in Hq. right. rewrite Forall_forall in P4. by apply P4.
Qed.

Lemma same_entry_other s s' y : nodes s' !! lp y = nodes s !! lp y -> same_entry s s' y.
Proof. intros H n Hn. exists n. by rewrite H. Qed.

Lemma leaves_tptrs t y : y ∈ leaves t -> lp y ∈ tptrs t.
Proof. induction t as [c|p b ml l IHl r IHr]; simpl; [by apply elem_map_lp|]. rewrite !elem_of_app, elem_of_cons, elem_of_app. tauto. Qed.

Lemma promote_inner s par t lo B x E p b ml l r : let u := Nd p b ml l r in
  frep (KR L) s par (graft t B x [] u) (lp x) -> NoDup (tptrs u) -> NoDup (mptrs u) -> t ∉ tptrs u -> lp x ∉ tptrs u ->
  wf off L lo u -> ann s E lo u -> bounded s -> lo < B < b ->
  exists s' ml0 ml1, promote t (lp x) s = (ok tt, s') /\ promoted_to s s' par t lo B x E ml0 u (Nd p b ml1 l r).
Proof.
  intros u Hf Hnd Hmnd Ht Hx Hw Ha Hb HB. pose proof Hf as ((tn & Htn & Htu & Htb & Htbm & Htp & Htm) & Htne & Hu). cbn [graft fside fp fb fml fsib] in *.
  pose proof Hu as ((pn & Hpn & Hpu & Hpb & Hpbm & Hpp & Hpm) & Hpne & Hl & Hr). unfold u in Ht, Hx, Hnd, Hmnd. simpl in Ht, Hx, Hnd, Hmnd.
  rewrite not_elem_of_cons, not_elem_of_app in Ht, Hx. destruct Ht as (Htp' & Htl & Htr), Hx as (Hxp & Hxl & Hxr).
  apply NoDup_cons in Hnd as [Hpn' Hnd]. rewrite not_elem_of_app in Hpn'. destruct Hpn' as [Hpl Hpr].
  unfold promote. rstep. cbv zeta. rstep. rewrite Htb. cbv zeta. simpl rootp.
  match goal with |- context [deref ?e] => assert (e = p) as -> end.
  { destruct (bit (lkey x) B); [by rewrite Nat.eqb_refl|]. by rewrite (proj2 (Nat.eqb_neq _ _)) by done. }
  rstep. rewrite Hpb. pose proof Hw as (_ & Hbb & _ & _ & _ & Hs & Hml & _). rewrite (proj2 (Z.ltb_ge _ _)) by lia.
  assert (frep (KR L) s par (graft t B x [] u) (lp x)) as Hf' by exact Hf.
  destruct (Nat.eqb_spec (rn_mklist pn) NULL) as [Enull|Enull]; cbn [negb when].
  { assert (ml = []) as Eml by (destruct ml as [|[q y] ml]; [done|]; destruct Hpm as (Eq & ? & _); by rewrite Eq in Enull).
    exists s, [], []. split; [done|]. split.
    - exists []. rewrite Eml. split_and!; [done|done|by apply Forall_nil|by apply Forall_nil].
    - unfold u in Hf'. by rewrite Eml in Hf'.
    - rewrite app_nil_r. unfold u in Ha. by rewrite Eml in Ha.
    - apply relisted_refl.
    - done.
    - simpl. rewrite Eml in Hmnd. exact Hmnd.
    - intros q Hq. left. unfold u. rewrite Eml. exact Hq. }
  rewrite (st_bind_ok _ _ _ _ _ (eq_refl (mask_fuel s))).
  apply NoDup_app in Hmnd as (Hmn & Hmd & Hmn').
  destruct (skip_masks_ok s p pn B Hpn ml (S (size (masks s))) [] Hpm Hs) as (ml1 & ml0 & Eml & H1 & H0 & Esk).
  { pose proof (mrep_length _ _ _ Hpm Hmn). lia. }
  change (lplace p []) with (OfNode p) in Esk. rewrite (st_bind_ok _ _ _ _ _ Esk). cbv beta iota. simpl app. unfold set_mklist. rstep.
  set (sA := upd s t (tn <| rn_mklist := mhead ml0 |>)).
  assert (masks sA = masks s /\ bytes sA = bytes s /\ brk sA = brk s /\ oom sA = oom s) as (MA & BA & KA & OA) by (unfold sA; by rewrite masks_upd, bytes_upd, brk_upd, oom_upd).
  rewrite Eml, fmap_app in Hmn. apply NoDup_app in Hmn as (Hmn1 & Hmd10 & Hmn0).
  assert (nodes sA !! p = Some pn) as HpA by (unfold sA; lk).
  assert (mrep sA (rn_mklist pn) (ml1 ++ ml0)) as HmA by (rewrite <-Eml; eapply mrep_kept; [|exact Hpm]; intros q _; unfold mask_kept; by rewrite MA).
  destruct (set_lplace sA p pn ml1 ml0 NULL HpA HmA Hmn1) as (s' & E' & W). exists s', ml0, ml1. split; [exact E'|].
  assert (nodes s' !! t = Some (tn <| rn_mklist := mhead ml0 |>)) as Ht' by (rewrite (wr_nodes _ _ _ _ _ _ W) by done; unfold sA; apply nupd_eq).
  assert (forall q : ptr, q <> t -> q <> p -> nodes s' !! q = nodes s !! q) as Hoth by (intros q ? ?; rewrite (wr_nodes _ _ _ _ _ _ W) by done; unfold sA; by rewrite nupd_ne).
  assert (forall q : ptr, q ∉ ml1.*1 -> masks s' !! q = masks s !! q) as Hmk by (intros q Hq; by rewrite (wr_masks _ _ _ _ _ _ W), MA).
  assert (bytes s' = bytes s) as Hby by (by rewrite (wr_bytes _ _ _ _ _ _ W)).
  assert (mrep s' (mhead ml0) ml0) as Hm0.
  { destruct (mrep_app _ _ _ _ HmA) as (m' & Hm' & _). rewrite <-(mrep_head _ _ _ Hm'). eapply mrep_kept; [|exact Hm'].
    intros q Hq. unfold mask_kept. rewrite Hmk, MA; [done|]. intros H. by apply (Hmd10 q). }
  assert (forall v, v = l \/ v = r -> gtrep (KR L) s' p v) as Hsub.
  { intros v Hv. eapply gtrep_frame; [apply key_chain|by destruct Hv as [->| ->]; [exact Hl|exact Hr]| | |by intros k w; rewrite Hby].
    - intros q Hq. apply kept_eq, Hoth; intros ->; destruct Hv as [->| ->]; done.
    - intros q Hq. unfold mask_kept. apply Hmk. intros H. apply (Hmd q); [rewrite Eml, fmap_app; set_solver|]. destruct Hv as [->| ->]; set_solver. }
  split.
  - exists ml1. split_and!; done.
  - split_and!; [|done|].
    + eapply (inner_relist s s' par t B [] _ _ tn ml0); [exact Htn|by exists tn|exact Ht'|done].
    + cbn [graft fsib fp gtrep]. split_and!; [|done|by apply Hsub; left|by apply Hsub; right].
      eapply (inner_relist s s' t p b ml (rootp l) (rootp r) pn); [exact Hpn|by exists pn|exact (wr_node _ _ _ _ _ _ W)|].
      pose proof (wr_list _ _ _ _ _ _ W [] (eq_refl NULL)) as H. by rewrite app_nil_r in H.
  - destruct Ha as [Hal Har]. simpl. split; (eapply ann_frame; [eassumption| |rewrite Eml; set_solver]); intros y Hy; apply same_entry_other, Hoth;
      intros E0; apply leaves_tptrs in Hy; rewrite E0 in Hy; done.
  - split.
    + intros q Hq. unfold u in Hq. simpl in Hq. apply Hoth; intros ->; apply Hq; set_solver.
    + intros q n Hq Hn. destruct (decide (q = t)) as [->|Hqt]; [rewrite Htn in Hn; injection Hn as <-; by eexists|].
      destruct (decide (q = p)) as [->|Hqp]; [rewrite Hpn in Hn; injection Hn as <-; eexists; exact (wr_node _ _ _ _ _ _ W)|].
      exists (rn_mklist n). rewrite Hoth, Hn by done. by destruct n.
    + done.
    + by rewrite (wr_oom _ _ _ _ _ _ W).
    + rewrite (wr_brk _ _ _ _ _ _ W), KA. lia.
    + intros [C1 C2 C3]. split; rewrite (wr_brk _ _ _ _ _ _ W), KA; intros q Hq.
      * destruct (decide (q = t)) as [->|Hqt]; [apply C1; by eexists|]. destruct (decide (q = p)) as [->|Hqp]; [apply C1; by eexists|].
        apply C1. by rewrite <-Hoth.
      * apply C2. apply (wr_dom _ _ _ _ _ _ W) in Hq. by rewrite MA in Hq.
      * apply C3. by rewrite <-Hby.
  - intros q Hq Hqu. apply Hmk. intros H. apply Hqu. unfold u. simpl. rewrite Eml, fmap_app. set_solver.
  - simpl. rewrite (assoc_L (++)). apply NoDup_app. split_and!; [apply NoDup_app; split_and!; [done| |done]| |done].
    + intros q Hq Hq'. by apply (Hmd10 q).
    + intros q Hq. apply (Hmd q). rewrite Eml, fmap_app. set_solver.
  - intros q Hq. left. unfold u. simpl in *. rewrite Eml, fmap_app. set_solver.
Qed.

Lemma promote_ok s par t lo B x E u : frep (KR L) s par (graft t B x [] u) (lp x) -> NoDup (tptrs u) -> NoDup (mptrs u) ->
  t ∉ tptrs u -> lp x ∉ tptrs u -> wf off L lo u -> (forall e, e ∈ E -> e.1 <> NULL) -> ann s E lo u -> oom s = [] -> bounded s -> lo < B ->
  match tbit u with None => True | Some b => B < b end ->
  exists s' ml0 u1, promote t (lp x) s = (ok tt, s') /\ promoted_to s s' par t lo B x E ml0 u u1.
Proof.
  intros Hf Hnd Hmnd Ht Hx Hw HE Ha Ho Hb HB Hub. destruct u as [c|p b ml l r].
  - destruct (promote_chain s par t lo B x E c) as (s' & ml0 & ? & ?); try done. eauto.
  - destruct (promote_inner s par t lo B x E p b ml l r) as (s' & ml0 & ml1 & ? & ?); try done. eauto.
Qed.
End Promote.
End RadixRoute.
