(* ===== verification/RadixLift.v ===== *)
(** * The entry of a new route

    "Add new route to highest possible ancestor's list" of [rn_addroute] in
    [alpha/al_radix.c]: the climb to that ancestor, the place in its list, and
    the tree afterwards. *)

From Stdlib Require Import ZArith Lia Bool Sorted.
From stdpp Require Import base tactics option gmap list list_numbers.
From S2P Require Import Prelude Radix RadixShape RadixRep RadixMatch RadixDec RadixCtx RadixAdd RadixInsert RadixMask RadixOrder RadixRoute.

Open Scope Z_scope.

Module RadixLift.
Import Radix RadixShape RadixRep RadixMatch RadixDec RadixCtx RadixAdd RadixInsert RadixMask RadixOrder RadixRoute.

(** ** The ancestor *)
Fixpoint incr (lo : Z) (C : list frame) : Prop := match C with [] => True | f :: C => lo < fb f /\ incr (fb f) C end.

Lemma incr_app lo C C' : incr lo (C ++ C') <-> incr lo C /\ incr (cbit lo C) C'.
Proof. revert lo. induction C as [|f C IH]; intros lo; simpl; [tauto|]. rewrite IH. tauto. Qed.
Lemma wf_incr off L lo C t : wf off L lo (fill C t) -> incr lo C.
Proof. revert lo. induction C as [|f C IH]; intros lo Hw; simpl; [done|]. apply wf_fillf in Hw as (? & _ & _ & _ & _ & _ & _ & Hw & _). eauto. Qed.

Lemma path_split n C : forall lo, incr lo C -> Forall (fun f => fb f < n) C
  \/ exists A f D, C = A ++ f :: D /\ Forall (fun f => fb f < n) A /\ Forall (fun f => n <= fb f) (f :: D).
Proof.
  induction C as [|f C IH]; intros lo Hi; simpl in *; [left; constructor|]. destruct Hi as [Hlo Hi]. destruct (Z.lt_ge_cases (fb f) n) as [H|H].
  - destruct (IH _ Hi) as [HC|(A & g & D & -> & HA & HD)]; [left; by constructor|]. right. exists (f :: A), g, D. split_and!; [done|by constructor|done].
  - right. exists [], f, C. split_and!; [done|constructor|]. clear -Hi H. revert f Hi H. induction C as [|g C IH]; intros f Hi H; [by repeat constructor|].
    destruct Hi as [? Hi]. constructor; [done|]. apply (IH g); [done|lia].
Qed.

Lemma adde_none lo e C : Forall (fun f => fb f < plen e.2) C -> adde lo e C = C.
Proof.
  intros H. revert lo. induction H as [|f C Hf H IH]; intros lo; [done|]. simpl. rewrite IH, (proj2 (Z.leb_gt _ _)) by done. by rewrite andb_false_r.
Qed.
Lemma adde_below lo e C : plen e.2 <= lo -> incr lo C -> adde lo e C = C.
Proof.
  revert lo. induction C as [|f C IH]; intros lo Hlo Hi; [done|]. destruct Hi as [? Hi]. simpl. rewrite IH, (proj2 (Z.ltb_ge _ _)) by (done || lia). done.
Qed.
Lemma adde_at lo e A f D : lo < plen e.2 -> incr lo (A ++ f :: D) -> Forall (fun f => fb f < plen e.2) A -> plen e.2 <= fb f ->
  adde lo e (A ++ f :: D) = A ++ set_ml (insm e (fml f)) f :: D.
Proof.
  intros Hlo Hi HA Hf. rewrite adde_app, adde_none by done. f_equal. simpl. apply incr_app in Hi as [Hi [Hfb HD]].
  rewrite adde_below by done. rewrite (proj2 (Z.leb_le _ _)) by done. rewrite (proj2 (Z.ltb_lt _ _)); [done|].
  clear -Hlo HA. revert lo Hlo. induction HA as [|g A Hg HA IH]; intros lo Hlo; [done|]. simpl. by apply IH.
Qed.

Lemma adde_ptrs lo e C : cptrs (adde lo e C) = cptrs C.
Proof.
  revert lo. induction C as [|f C IH]; intros lo; [done|]. unfold cptrs in *. cbn [mbind list_bind adde]. rewrite IH. f_equal. by destruct (_ && _).
Qed.
Lemma adde_cpar lo e C par : cpar par (adde lo e C) = cpar par C.
Proof. revert lo par. induction C as [|f C IH]; intros lo par; [done|]. simpl. rewrite IH. by destruct (_ && _). Qed.
Lemma adde_cbit lo e C lo' : cbit lo' (adde lo e C) = cbit lo' C.
Proof. revert lo lo'. induction C as [|f C IH]; intros lo lo'; [done|]. simpl. rewrite IH. by destruct (_ && _). Qed.

Lemma incr_cbit lo C : incr lo C -> forall f, f ∈ C -> fb f <= cbit lo C.
Proof.
  revert lo. induction C as [|g C IH]; intros lo Hi f Hf; [by apply not_elem_of_nil in Hf|]. destruct Hi as [_ Hi]. simpl.
  apply elem_of_cons in Hf as [->|Hf]; [|by apply IH]. clear -Hi. revert g Hi. induction C as [|h C IH]; intros g Hi; [simpl; lia|].
  destruct Hi as [? Hi]. specialize (IH h Hi). change (cbit (fb g) (h :: C)) with (cbit (fb h) C). lia.
Qed.

Lemma frame_apart A f D g : NoDup (cptrs (A ++ f :: D)) -> g ∈ A ++ f :: D -> fp f ∉ tptrs (fsib g).
Proof.
  intros Hnd Hg Hin. rewrite cptrs_mid, <-Permutation_middle in Hnd. apply NoDup_cons in Hnd as [Hnd _]. apply Hnd. rewrite !elem_of_app.
  assert (forall C, g ∈ C -> fp f ∈ cptrs C) as HC by (intros C HgC; unfold cptrs; apply list_elem_of_bind; exists g; split; [unfold fptrs; set_solver|done]).
  rewrite elem_of_app, elem_of_cons in Hg. destruct Hg as [?|[->|?]]; auto.
Qed.
Lemma NoDup_map_inj {A B} (f : A -> B) (l : list A) x y : NoDup (map f l) -> x ∈ l -> y ∈ l -> f x = f y -> x = y.
Proof.
  induction l as [|a l IH]; intros Hnd Hx Hy E; [by apply not_elem_of_nil in Hx|]. simpl in Hnd. apply NoDup_cons in Hnd as [Ha Hnd].
  assert (forall z, z ∈ l -> f z ∈ map f l) as Hin by (intros z Hz; by apply list_elem_of_In, in_map, list_elem_of_In).
  apply elem_of_cons in Hx as [->|Hx], Hy as [->|Hy]; [done| | |by apply IH].
  - exfalso. apply Ha. rewrite E. by apply Hin.
  - exfalso. apply Ha. rewrite <-E. by apply Hin.
Qed.

Section Lift.
Context (L : Z).

Lemma ctx_node s par A f D hp : ctxrep (KR L) s par (A ++ f :: D) hp -> exists n, nodes s !! fp f = Some n /\ rn_bit n = fb f /\ rn_parent n = cpar par A
  /\ mrep s (rn_mklist n) (fml f).
Proof. intros [_ [((n & Hn & _ & Hb & _ & Hp & Hm) & _) _]]%ctxrep_app. exists n. by split_and!. Qed.

Lemma cpar_node s par f D hp : ctxrep (KR L) s par (f :: D) hp -> exists n, nodes s !! cpar (fp f) D = Some n /\ rn_bit n = cbit (fb f) D.
Proof.
  intros H. destruct D as [|g D _] using rev_ind.
  - destruct (ctx_node s par [] f [] hp H) as (n & ? & ? & _). eauto.
  - rewrite cpar_snoc, cbit_snoc. change (f :: D ++ [g]) with ((f :: D) ++ [g]) in H. destruct (ctx_node s par (f :: D) g [] hp H) as (n & ? & ? & _). eauto.
Qed.

Lemma lift_to_ok s par top n f k D : forall hp, ctxrep (KR L) s par (f :: D) hp -> Forall (fun g => n <= fb g) (f :: D) -> Forall (fun g => fp g <> top) D ->
  lift_to (length D + k) n top (cpar (fp f) D) s = lift_to k n top (fp f) s.
Proof.
  induction D as [|g D IH] using rev_ind; intros hp HC Hn Ht; [done|]. rewrite cpar_snoc, length_app, Nat.add_1_r.
  change (f :: D ++ [g]) with ((f :: D) ++ [g]) in *. destruct (ctx_node s par (f :: D) g [] hp HC) as (gn & Hgn & _ & Hgp & _).
  change (cpar par (f :: D)) with (cpar (fp f) D) in Hgp.
  apply ctxrep_app in HC as [HC _]. simpl croot in HC. apply Forall_app in Hn as [Hn _], Ht as [Ht Htg]. apply Forall_cons in Htg as [Htg _].
  destruct (cpar_node _ _ _ _ _ HC) as (pn & Hpn & Hpb). cbn [lift_to Nat.add]. rstep. rewrite Hgp. rstep. rewrite Hpb.
  rewrite (proj2 (Nat.eqb_neq _ _) Htg), (proj2 (Z.leb_le _ _)); [by eapply IH|].
  clear -Hn. apply Forall_cons in Hn as [Hf Hn]. destruct D as [|g D _] using rev_ind; [done|]. rewrite cbit_snoc. apply Forall_app in Hn as [_ Hn]. by apply Forall_cons in Hn as [? _].
Qed.

(** ** The place in the list *)
Lemma mask_place_ok s netmask x xn a an : nodes s !! a = Some an -> nodes s !! lp x = Some xn -> rn_bit xn = lbit x -> forall rest f done,
  mrep s (rn_mklist an) (done ++ rest) -> (forall y, y ∈ rest.*2 -> plen y <> plen x) -> (length rest < f)%nat ->
  exists ml1 ml0, rest = ml1 ++ ml0 /\ (forall q, insm (q, x) rest = ml1 ++ (q, x) :: ml0)
    /\ mask_place f netmask (lp x) (lplace a done) s = (ok (Some (lplace a (done ++ ml1))), s).
Proof.
  intros Ha Hx Hxb. induction rest as [|[q y] rest IH]; intros f done Hm Hne Hf; (destruct f as [|f]; [simpl in Hf; lia|]); cbn [mask_place];
    rewrite (st_bind_ok _ _ _ _ _ (get_lplace _ _ _ _ _ Ha Hm)); cbn [mhead].
  { exists [], []. rewrite (app_nil_r done). done. }
  destruct (mrep_app _ _ _ _ Hm) as (m' & (-> & Hq & e & He & Hb & _) & _). rewrite (proj2 (Nat.eqb_neq _ _) Hq), (st_bind_ok _ _ _ _ _ (deref_mask_ok _ _ _ He)).
  rstep. rewrite Hb, Hxb. csimpl in *. assert (plen y <> plen x) as Hyx by (apply Hne; by left). unfold plen in Hyx.
  destruct (Z.ltb_spec (lbit y) (lbit x)) as [H|H].
  - destruct (IH f (done ++ [(q, y)])) as (ml1 & ml0 & -> & Hi & E); [by rewrite <-(assoc_L (++))|set_solver|lia|].
    exists ((q, y) :: ml1), ml0. rewrite lplace_snoc in E. rewrite <-(assoc_L (++)) in E. split_and!; [done| |exact E].
    intros q'. rewrite Hi. rewrite (proj2 (Z.ltb_ge _ _)); [done|]. simpl. unfold plen. lia.
  - rewrite (proj2 (Z.ltb_lt (lbit x) (lbit y))) by lia. exists [], ((q, y) :: rest). rewrite (app_nil_r done). split_and!; [done| |done].
    intros q'. rewrite (proj2 (Z.ltb_lt _ _)); [done|]. simpl. unfold plen. lia.
Qed.

(** ** The step *)

(** A new route [x] at the end of the path [C], its entry still missing. *)
Record to_lift (s : state) (top : ptr) (C : list frame) (c : list leaf) (x : leaf) : Prop := {
  tl_top : exists f C', C = f :: C' /\ fp f = top;
  tl_ctx : ctxrep (KR L) s top C (chead c); tl_chain : KR L s (cpar top C) c;
  tl_in : x ∈ c; tl_route : is_route x; tl_incr : incr (-1) C; tl_len : 0 <= plen x;
  tl_nodup : NoDup (cptrs C ++ map lp c); tl_mnodup : NoDup (cmptrs C);
  tl_new f y : f ∈ C -> plen x <= fb f -> y ∈ (fml f).*2 -> plen y <> plen x;
  tl_annc : annc s [] (-1) C;
  tl_ann y : y ∈ c -> y <> x -> is_route y -> exists n, nodes s !! lp y = Some n
    /\ (if cbit (-1) C <? plen y then rn_mklist n = NULL else (rn_mklist n, y) ∈ cml C);
  tl_bare : exists n, nodes s !! lp x = Some n /\ rn_mklist n = NULL;
  tl_oom : oom s = []; tl_bounded : bounded s }.

Record lifted (s s' : state) (top : ptr) (C C' : list frame) (c : list leaf) (x : leaf) : Prop := {
  lf_ctx : ctxrep (KR L) s' top C' (chead c); lf_chain : KR L s' (cpar top C') c;
  lf_annc : annc s' [] (-1) C'; lf_ann : ann s' (cml C') (cbit (-1) C') (Lf c);
  lf_mnodup : NoDup (cmptrs C'); lf_relisted : relisted s s' (lp x :: map fp C);
  lf_masks (q : ptr) : (q < brk s)%nat -> q ∉ cmptrs C -> masks s' !! q = masks s !! q }.

Lemma chain_leaf s par c x : KR L s par c -> x ∈ c -> exists par' d, leaf_rep L s par' d x.
Proof.
  intros (_ & Hc & _) Hx. revert par Hc. induction c as [|y c IH]; intros par Hc; [by apply not_elem_of_nil in Hx|]. destruct Hc as [Hy Hc].
  apply elem_of_cons in Hx as [->|Hx]; eauto.
Qed.

Lemma lift_none s top C c x q netmask : to_lift s top C c x -> Forall (fun f => fb f < plen x) C ->
  lift netmask (plen x) top (cpar top C) (lp x) s = (ok tt, s) /\ lifted s s top C (adde (-1) (q, x) C) c x.
Proof.
  intros H Hall. destruct (tl_top _ _ _ _ _ H) as (f & C' & -> & <-). destruct (cpar_node _ _ _ _ _ (tl_ctx _ _ _ _ _ H)) as (n & Hn & Hb).
  assert (cbit (-1) (f :: C') < plen x) as Hlt.
  { change (cbit (fb f) C' < plen x). apply Forall_cons in Hall as [Hf HC]. destruct C' as [|g C' _] using rev_ind; [done|].
    rewrite cbit_snoc. apply Forall_app in HC as [_ HC]. by apply Forall_cons in HC as [? _]. }
  split.
  - unfold lift. change (cpar (fp f) (f :: C')) with (cpar (fp f) C'). rstep. rewrite Hb. change (cbit (fb f) C') with (cbit (-1) (f :: C')).
    by rewrite (proj2 (Z.ltb_lt _ _) Hlt), orb_true_r.
  - rewrite adde_none by done. destruct H. split; try done.
    + intros y Hy Hr. destruct (decide (y = x)) as [->|Hne]; [|by apply tl_ann0]. destruct tl_bare0 as (n' & Hn' & Hm). exists n'.
      split; [done|]. by rewrite (proj2 (Z.ltb_lt _ _) Hlt).
    + apply relisted_refl.
Qed.

Lemma gtrep_masks s par t : gtrep (KR L) s par t -> Forall (fun q => is_Some (masks s !! q)) (mptrs t).
Proof.
  revert par. induction t as [c|p b ml l IHl r IHr]; intros par H; simpl in *; [constructor|]. destruct H as ((n & _ & _ & _ & _ & _ & Hm) & _ & Hl & Hr).
  rewrite !Forall_app. split_and!; [by eapply mrep_masks|eauto..].
Qed.
Lemma ctxrep_masks s par C hp : ctxrep (KR L) s par C hp -> Forall (fun q => is_Some (masks s !! q)) (cmptrs C).
Proof.
  revert par. induction C as [|f C IH]; intros par H; [constructor|]. destruct H as [((n & _ & _ & _ & _ & _ & Hm) & _ & Ht) H].
  unfold cmptrs in *. cbn [mbind list_bind]. apply Forall_app. split; [|eauto]. apply Forall_app. split; [by eapply mrep_masks|by eapply gtrep_masks].
Qed.

(** The hit: the frame [f] of the path gets the entry. *)
Lemma lift_list s f xl A D hp top par' d x ml1 ml0 fn : xl = A ++ f :: D -> ctxrep (KR L) s top xl hp ->
  nodes s !! fp f = Some fn -> fml f = ml1 ++ ml0 -> leaf_rep L s par' d x -> is_route x -> oom s = [] -> bounded s ->
  lp x ∉ cptrs xl -> NoDup (cptrs xl) -> NoDup (cmptrs xl) ->
  exists s' m, (do m <- rn_new_radix_mask (lp x) (mhead ml0) ;; set_place (lplace (fp f) ml1) m) s = (ok tt, s')
    /\ m = brk s /\ ctxrep (KR L) s' top (A ++ set_ml (ml1 ++ (m, x) :: ml0) f :: D) hp /\ relisted s s' (lp x :: [fp f])
    /\ (exists n, nodes s' !! lp x = Some n /\ rn_mklist n = m)
    /\ (forall q : ptr, (q < brk s)%nat -> q ∉ ml1.*1 -> masks s' !! q = masks s !! q).
Proof.
  intros Exl HC Hfn Eml Hx Hr Ho Hb Hxc Hnd Hmnd. pose proof (ctxrep_masks _ _ _ _ HC) as Hms. rewrite Forall_forall in Hms.
  assert (forall q, q ∈ cmptrs xl -> (q < brk s)%nat) as Hlt by (intros q Hq; by apply (bounded_masks _ Hb), Hms).
  destruct (new_mask_ok L s par' d x (mhead ml0) Hx Hr Ho) as (s1 & E1 & R1 & (n1 & Hn1 & Hq1) & M1 & K1 & L1). rewrite (st_bind_ok _ _ _ _ _ E1).
  set (m := brk s) in *. assert (0 < m)%nat as Hm0.
  { destruct Hx as [(n & Hn & _) Hnull _ _ _ _ _ _]. pose proof (bounded_nodes _ Hb (lp x) ltac:(by eexists)). lia. }
  rewrite Exl in Hxc, Hnd, Hmnd, Hlt, HC. rewrite cptrs_mid in Hxc, Hnd. setoid_rewrite cmptrs_mid in Hlt. rewrite cmptrs_mid in Hmnd. rewrite Eml, fmap_app in Hmnd. setoid_rewrite Eml in Hlt. setoid_rewrite fmap_app in Hlt.
  assert (fp f ∉ cptrs A /\ fp f ∉ tptrs (fsib f) /\ fp f ∉ cptrs D) as (FA & FS & FD).
  { rewrite <-Permutation_middle in Hnd. apply NoDup_cons in Hnd as [Hnd _]. rewrite !not_elem_of_app in Hnd. tauto. }
  rewrite not_elem_of_app, not_elem_of_cons, not_elem_of_app in Hxc. destruct Hxc as (XA & Xf & XS & XD).
  assert (NoDup (ml1.*1 ++ (cmptrs A ++ ml0.*1 ++ mptrs (fsib f) ++ cmptrs D))) as Hmnd'.
  { assert (cmptrs A ++ (ml1.*1 ++ ml0.*1) ++ mptrs (fsib f) ++ cmptrs D ≡ₚ ml1.*1 ++ (cmptrs A ++ ml0.*1 ++ mptrs (fsib f) ++ cmptrs D)) as <-; [|done]. solve_Permutation. }
  apply NoDup_app in Hmnd' as (Hn1' & Hdis & _).
  assert (forall q, q ∈ cmptrs A \/ q ∈ ml0.*1 \/ q ∈ mptrs (fsib f) \/ q ∈ cmptrs D -> q ∉ ml1.*1) as Hq by (intros q H Hq; apply (Hdis q Hq); rewrite !elem_of_app; tauto).
  assert (forall q, q ∈ cmptrs A \/ q ∈ ml1.*1 \/ q ∈ ml0.*1 \/ q ∈ mptrs (fsib f) \/ q ∈ cmptrs D -> q <> m) as Hqm
    by (intros q H ->; assert (m < m)%nat; [apply Hlt; rewrite !elem_of_app; tauto|lia]).
  apply ctxrep_app in HC as [HA [[Hin [Hne Hsib]] HD]].
  assert (nodes s1 !! fp f = Some fn) as Hfn1 by (rewrite (rl_nodes _ _ _ R1); [done|rewrite list_elem_of_singleton; congruence]).
  pose proof Hin as (fn' & Hfn' & _ & _ & _ & _ & Hml). rewrite Hfn in Hfn'. injection Hfn' as <-. rewrite Eml in Hml.
  assert (mrep s1 (rn_mklist fn) (ml1 ++ ml0)) as Hml1.
  { eapply mrep_kept; [|exact Hml]. intros q Hqq. apply M1, Hqm. rewrite fmap_app, elem_of_app in Hqq. tauto. }
  destruct (set_lplace s1 (fp f) fn ml1 ml0 m Hfn1 Hml1 Hn1') as (s2 & E2 & W). exists s2, m.
  pose proof (written_relisted _ _ _ _ _ _ Hfn1 W) as R2.
  assert (forall p : ptr, p <> lp x -> p <> fp f -> nodes s2 !! p = nodes s !! p) as Hoth.
  { intros p ? ?. rewrite (wr_nodes _ _ _ _ _ _ W), (rl_nodes _ _ _ R1); [done|by rewrite list_elem_of_singleton|done]. }
  assert (forall q : ptr, q <> m -> q ∉ ml1.*1 -> masks s2 !! q = masks s !! q) as Hmk by (intros q ? ?; by rewrite (wr_masks _ _ _ _ _ _ W), M1).
  assert (bytes_kept s s2) as Hbk by (intros k w; by rewrite (wr_bytes _ _ _ _ _ _ W), (rl_bytes _ _ _ R1)).
  assert (mrep s2 (mhead ml0) ml0) as Hm2.
  { destruct (mrep_app _ _ _ _ Hml) as (m' & Hm' & _). rewrite <-(mrep_head _ _ _ Hm'). eapply mrep_kept; [|exact Hm']. intros q Hqq. apply Hmk; [apply Hqm|apply Hq]; tauto. }
  assert (mrep s2 m ((m, x) :: ml0)) as Hm3.
  { apply (L1 ml0); [|unfold NULL; lia|done]. apply (wr_masks _ _ _ _ _ _ W). intros H. by apply (Hqm m); [tauto|]. }
  split_and!; [exact E2|done| | |exists n1; split; [by rewrite (wr_nodes _ _ _ _ _ _ W) by congruence|done]|].
  - apply ctxrep_app. split; [|split; [split_and!|]].
    + eapply ctxrep_frame; [apply key_chain|exact HA| | |done].
      * intros p Hp. apply kept_eq, Hoth; intros ->; done.
      * intros q Hqq. apply Hmk; [apply Hqm|apply Hq]; tauto.
    + eapply (inner_relist s s2 _ (fp f) (fb f) (fml f) _ _ fn); [exact Hfn|exact Hin|exact (wr_node _ _ _ _ _ _ W)|]. simpl. by apply (wr_list _ _ _ _ _ _ W).
    + done.
    + simpl. eapply gtrep_frame; [apply key_chain|exact Hsib| | |done].
      * intros p Hp. apply kept_eq, Hoth; intros ->; done.
      * intros q Hqq. apply Hmk; [apply Hqm|apply Hq]; tauto.
    + simpl. eapply ctxrep_frame; [apply key_chain|exact HD| | |done].
      * intros p Hp. apply kept_eq, Hoth; intros ->; done.
      * intros q Hqq. apply Hmk; [apply Hqm|apply Hq]; tauto.
  - eapply relisted_trans; (eapply relisted_mono; [done|set_solver]).
  - intros q Hqb Hqn. apply Hmk; [unfold m; lia|done].
Qed.

Lemma lift_to_top s top A f D c x : to_lift s top (A ++ f :: D) c x -> Forall (fun g => fb g < plen x) A -> Forall (fun g => plen x <= fb g) (f :: D) ->
  lift_to (S (size (nodes s))) (plen x) top (cpar top (A ++ f :: D)) s = (ok (fp f), s).
Proof.
  intros H HA HD. pose proof (tl_ctx _ _ _ _ _ H) as HC. pose proof (tl_nodup _ _ _ _ _ H) as Hnd. destruct (tl_top _ _ _ _ _ H) as (f0 & C' & E0 & Et).
  destruct (ctx_node _ _ _ _ _ _ HC) as (fn & Hfn & Hfb & Hfp & _). apply ctxrep_app in HC as [HA' HC].
  apply NoDup_app in Hnd as (Hnd & _ & _).
  assert (Forall (fun g => fp g <> top) D) as Htop.
  { apply Forall_forall. intros g Hg E. assert (fp g ∈ cptrs D) as Hin by (unfold cptrs; apply list_elem_of_bind; exists g; split; [unfold fptrs; set_solver|done]).
    rewrite E in Hin. rewrite cptrs_mid in Hnd. destruct A as [|a A]; simpl in E0; injection E0 as -> _.
    - simpl in Hnd. rewrite Et in Hnd. apply NoDup_cons in Hnd as [Hnd _]. apply Hnd, elem_of_app. by right.
    - unfold cptrs in Hnd at 1. cbn [mbind list_bind] in Hnd. unfold fptrs in Hnd at 1. rewrite Et in Hnd. simpl in Hnd. apply NoDup_cons in Hnd as [Hnd _].
      apply Hnd. rewrite !elem_of_app, elem_of_cons, elem_of_app. tauto. }
  assert (length D <= size (nodes s))%nat as Hlen.
  { rewrite <-(length_map fp). apply size_bound.
    - assert (map fp D `sublist_of` cptrs D) as Hsub.
      { clear. induction D as [|g D IH]; [done|]. unfold cptrs. cbn [mbind list_bind map]. unfold fptrs at 1. simpl. constructor. by apply sublist_inserts_l. }
      eapply sublist_NoDup; [|exact Hsub]. rewrite cptrs_mid in Hnd. apply NoDup_app in Hnd as (_ & _ & Hnd). apply NoDup_cons in Hnd as [_ Hnd]. by apply NoDup_app in Hnd as (_ & _ & Hnd).
    - apply Forall_forall. intros p Hp. apply list_elem_of_In, in_map_iff in Hp as (g & <- & Hg). apply list_elem_of_In, list_elem_of_split in Hg as (D1 & D2 & ->).
      destruct (ctx_node s (cpar top A) (f :: D1) g D2 (chead c) HC) as (n & Hn & _). by eexists. }
  unfold cpar at 1. rewrite fold_left_app. simpl fold_left. fold (cpar top A). change (fold_left (fun _ f => fp f) D (fp f)) with (cpar (fp f) D).
  replace (S (size (nodes s))) with (length D + S (size (nodes s) - length D))%nat by lia.
  erewrite lift_to_ok; [|exact HC|exact HD|exact Htop]. cbn [lift_to]. rstep. rewrite Hfp.
  assert (exists pn, nodes s !! cpar top A = Some pn /\ (plen x <=? rn_bit pn) && negb (fp f =? top)%nat = false) as (pn & Hpn & Ecl).
  { destruct A as [|a A _] using rev_ind.
    - simpl in E0. injection E0 as -> _. exists fn. rewrite <-Et. split; [done|]. by rewrite Nat.eqb_refl, andb_false_r.
    - rewrite cpar_snoc. destruct (ctx_node s top A a [] _ HA') as (n & Hn & Hb & _). exists n. split; [done|]. rewrite Hb.
      apply Forall_app in HA as [_ HA]. apply Forall_cons in HA as [HA _]. by rewrite (proj2 (Z.leb_gt _ _)). }
  rstep. by rewrite Ecl.
Qed.

Lemma cml_mid C f D : cml (C ++ f :: D) = cml C ++ fml f ++ cml D.
Proof. unfold cml. by rewrite bind_app. Qed.

Lemma lift_ok s top C c x netmask : netmask <> NULL -> to_lift s top C c x ->
  exists s' q, lift netmask (plen x) top (cpar top C) (lp x) s = (ok tt, s') /\ lifted s s' top C (adde (-1) (q, x) C) c x.
Proof.
  intros Hnm H. destruct (path_split (plen x) C (-1) (tl_incr _ _ _ _ _ H)) as [Hall|(A & f & D & EC & HA & HD)].
  { exists s, NULL. by apply lift_none. }
  rewrite EC in H. pose proof H as Hl. pose proof (tl_incr _ _ _ _ _ H) as Hincr.
  assert (plen x <= fb f) as Hfx by (by apply Forall_cons in HD as [? _]).
  pose proof (tl_ctx _ _ _ _ _ H) as HC. destruct (ctx_node _ _ _ _ _ _ HC) as (fn & Hfn & Hfb & _ & Hfm).
  destruct (chain_leaf _ _ _ _ (tl_chain _ _ _ _ _ H) (tl_in _ _ _ _ _ H)) as (par' & d & Hx). pose proof Hx as [(xn & Hxn & _ & Hxb & _) _ _ _ _ _ _ _].
  pose proof (tl_nodup _ _ _ _ _ H) as Hnd. apply NoDup_app in Hnd as (Hndc & Hdis & Hndl). pose proof (elem_map_lp _ _ (tl_in _ _ _ _ _ H)) as Hxin.
  assert (lp x ∉ cptrs (A ++ f :: D)) as Hxc by (intros Hin; by apply (Hdis (lp x))).
  assert (NoDup (fml f).*1) as Hnf by (pose proof (tl_mnodup _ _ _ _ _ H) as Hm; rewrite cmptrs_mid in Hm; apply NoDup_app in Hm as (_ & _ & Hm); by apply NoDup_app in Hm as (? & _)).
  destruct (mask_place_ok s netmask x xn (fp f) fn Hfn Hxn Hxb (fml f) (S (size (masks s))) []) as (ml1 & ml0 & Eml & Eins & Emp).
  { exact Hfm. } { intros y Hy. eapply (tl_new _ _ _ _ _ H f); [set_solver|done|done]. }
  { pose proof (mrep_length _ _ _ Hfm Hnf). lia. }
  destruct (lift_list s f (A ++ f :: D) A D (chead c) top par' d x ml1 ml0 fn) as (s' & m & E' & Em & HC' & R & (n' & Hn' & Hq') & Hmk); try done;
    [apply (tl_route _ _ _ _ _ H)|apply (tl_oom _ _ _ _ _ H)|apply (tl_bounded _ _ _ _ _ H)|apply (tl_mnodup _ _ _ _ _ H)|].
  assert (cbit (-1) (A ++ f :: D) < plen x -> False) as Hcb.
  { intros Hlt. pose proof (incr_cbit _ _ Hincr f ltac:(set_solver)). lia. }
  exists s', m. rewrite EC. split.
  - unfold lift. destruct (tl_top _ _ _ _ _ H) as (f0 & C' & E0 & Et). rewrite E0 in HC. destruct (cpar_node _ _ _ _ _ HC) as (tn & Htn & Htb).
    rewrite E0. change (cpar top (f0 :: C')) with (cpar (fp f0) C'). rstep. rewrite Htb. change (cbit (fb f0) C') with (cbit (-1) (f0 :: C')). rewrite <-E0.
    rewrite (proj2 (Nat.eqb_neq _ _) Hnm), (proj2 (Z.ltb_ge _ _)) by lia. cbn [orb].
    rewrite (st_bind_ok _ _ _ _ _ (eq_refl (fuel s))). change (cpar (fp f0) C') with (cpar top (f0 :: C')). rewrite <-E0.
    rewrite (st_bind_ok _ _ _ _ _ (lift_to_top s top A f D c x Hl HA HD)), (st_bind_ok _ _ _ _ _ (eq_refl (mask_fuel s))).
    change (lplace (fp f) []) with (OfNode (fp f)) in Emp. rewrite (st_bind_ok _ _ _ _ _ Emp). cbv beta iota. simpl app.
    rewrite Eml in Hfm. rewrite (st_bind_ok _ _ _ _ _ (get_lplace _ _ _ _ _ Hfn Hfm)). exact E'.
  - rewrite (adde_at (-1) (m, x) A f D); [|pose proof (tl_len _ _ _ _ _ H); simpl; lia|done|done|done]. rewrite Eins.
    set (f' := set_ml (ml1 ++ (m, x) :: ml0) f).
    assert (forall y, lp y <> lp x -> lp y <> fp f -> same_entry s s' y) as Hse.
    { intros y ? ?. apply same_entry_other. apply (rl_nodes _ _ _ R). set_solver. }
    assert (cbit (-1) (A ++ f' :: D) = cbit (-1) (A ++ f :: D)) as Ecb by (unfold cbit; by rewrite !fold_left_app).
    assert (cpar top (A ++ f' :: D) = cpar top (A ++ f :: D)) as Ecp by (unfold cpar; by rewrite !fold_left_app).
    assert (cml (A ++ f :: D) ⊆ cml (A ++ f' :: D)) as Hsub by (rewrite !cml_mid, Eml; simpl; intros e; rewrite !elem_of_app, elem_of_cons; tauto).
    assert (forall g y, g ∈ A ++ f :: D -> y ∈ leaves (fsib g) -> same_entry s s' y) as Hsib.
    { intros g y Hg Hy. apply leaves_tptrs in Hy. assert (lp y ∈ cptrs (A ++ f :: D)) as Hin by (unfold cptrs; apply list_elem_of_bind; exists g; split; [unfold fptrs; set_solver|done]).
      apply Hse; [intros E; by rewrite E in Hin|]. intros E. rewrite E in Hy. by apply (frame_apart A f D g). }
    pose proof (tl_annc _ _ _ _ _ H) as Hann. apply annc_app in Hann as [HaA [Haf HaD]]. split.
    + exact HC'.
    + rewrite Ecp. destruct (tl_chain _ _ _ _ _ H) as (? & Hc & ?). split_and!; [done| |done]. eapply crep_relisted; [exact Hc|exact R].
    + apply annc_app. split; [eapply annc_frame; [exact HaA| |done]|split].
      * intros g y Hg. apply Hsib. apply elem_of_app. by left.
      * eapply ann_frame; [exact Haf| |]; [intros y; apply (Hsib f); apply elem_of_app; right; by left|]. rewrite Eml. simpl. intros e. rewrite !elem_of_app, elem_of_cons. tauto.
      * eapply annc_frame; [exact HaD| |]; [intros g y Hg; apply (Hsib g); apply elem_of_app; right; by right|]. rewrite Eml. simpl. intros e. rewrite !elem_of_app, elem_of_cons. tauto.
    + rewrite Ecb. intros y Hy Hr. destruct (decide (y = x)) as [->|Hne].
      * exists n'. split; [done|]. rewrite (proj2 (Z.ltb_ge _ _)) by lia. rewrite Hq', cml_mid. simpl. rewrite !elem_of_app, elem_of_cons. tauto.
      * destruct (tl_ann _ _ _ _ _ H y Hy Hne Hr) as (n & Hn & Hm). assert (lp y <> lp x) as Hlp.
        { intros E. apply Hne. clear -Hndl Hy Hxin E H. by eapply (NoDup_map_inj lp c); [exact Hndl|done|apply (tl_in _ _ _ _ _ H)|]. }
        destruct (Hse y Hlp ltac:(intros E; apply (Hdis (fp f)); [rewrite cptrs_mid; set_solver|rewrite <-E; by apply elem_map_lp]) n Hn) as (n2 & Hn2 & E2).
        exists n2. split; [done|]. rewrite E2. destruct (_ <? _); [done|by apply Hsub].
    + assert (cmptrs (A ++ f' :: D) ≡ₚ m :: cmptrs (A ++ f :: D)) as ->.
      { rewrite !cmptrs_mid, Eml. simpl. rewrite !fmap_app. csimpl. solve_Permutation. }
      constructor; [|apply (tl_mnodup _ _ _ _ _ H)]. intros Hin. pose proof (ctxrep_masks _ _ _ _ (tl_ctx _ _ _ _ _ H)) as Hms. rewrite Forall_forall in Hms.
      pose proof (bounded_masks _ (tl_bounded _ _ _ _ _ H) m (Hms m Hin)). lia.
    + eapply relisted_mono; [exact R|]. intros p. rewrite !elem_of_cons, elem_of_nil. intros [?|[->|[]]]; [by left|right]. apply list_elem_of_In, in_map, list_elem_of_In. apply elem_of_app. right. by left.
    + intros q Hqb Hq. apply Hmk; [done|]. intros Hin. apply Hq. rewrite cmptrs_mid, Eml, fmap_app, !elem_of_app. tauto.
Qed.
End Lift.
End RadixLift.
