(* ===== verification/RadixDup.v ===== *)
(** * A route whose key is in the tree

    The part of [rn_addroute] of [alpha/al_radix.c] that puts a leaf into the
    chain of its key: in front of the first shorter prefix, unless the prefix is
    there already. *)

From Stdlib Require Import ZArith Lia Bool Sorted.
From stdpp Require Import base tactics option gmap list list_numbers.
From S2P Require Import Prelude Radix RadixShape RadixRep RadixMatch RadixDec RadixCtx RadixAdd RadixInsert RadixMask RadixOrder RadixRoute.

Open Scope Z_scope.

Module RadixDup.
Import Radix RadixShape RadixRep RadixMatch RadixDec RadixCtx RadixAdd RadixInsert RadixMask RadixOrder RadixRoute.

(** The last leaf of a part of a chain. *)
Definition lastp (par : ptr) (c : list leaf) : ptr := fold_left (fun _ y => lp y) c par.
Lemma lastp_snoc par c y : lastp par (c ++ [y]) = lp y.
Proof. unfold lastp. by rewrite fold_left_app. Qed.

Section Dup.
Context (off L : Z).

(** ** Parts of chains *)
Fixpoint cseg (s : state) (par : ptr) (c : list leaf) (d : ptr) : Prop :=
  match c with [] => True | x :: c => leaf_rep L s par (match c with [] => d | y :: _ => lp y end) x /\ cseg s (lp x) c d end.

Lemma crep_app s pre post : forall par, crep L s par (pre ++ post) <-> cseg s par pre (chead post) /\ crep L s (lastp par pre) post.
Proof.
  induction pre as [|x pre IH]; intros par; simpl; [tauto|]. rewrite IH. destruct pre as [|y pre]; simpl; tauto.
Qed.
Lemma cseg_frame s s' d c : forall par, cseg s par c d -> (forall p, p ∈ map lp c -> kept s s' p) -> bytes_kept s s' -> cseg s' par c d.
Proof.
  induction c as [|x c IH]; intros par Hc Hk Hb; [done|]. destruct Hc as [Hx Hc]. simpl in *. split.
  - eapply leaf_frame; [exact Hx|apply Hk; set_solver|done].
  - apply IH; [done|intros; apply Hk; set_solver|done].
Qed.
Lemma cseg_snoc s c y d : forall par, cseg s par (c ++ [y]) d <-> cseg s par c (lp y) /\ leaf_rep L s (lastp par c) d y.
Proof. induction c as [|x c IH]; intros par; simpl; [tauto|]. rewrite IH. destruct c as [|z c]; simpl; tauto. Qed.
Lemma crep_move s s' par par' z c n : crep L s par (z :: c) -> nodes s !! lp z = Some n -> nodes s' !! lp z = Some (n <| rn_parent := par' |>) ->
  (forall p, p ∈ map lp c -> nodes s' !! p = nodes s !! p) -> bytes_kept s s' -> crep L s' par' (z :: c).
Proof.
  intros [Hz Hc] Hn Hn' Hk Hb. split.
  - eapply leaf_link; [exact Hz|exact Hn| |done]. rewrite Hn'. destruct Hz as [(n0 & Hn0 & Hu & _) _ _ _ _ _ _ _].
    rewrite Hn in Hn0. injection Hn0 as <-. f_equal. symmetry. apply set_same_u. by destruct n.
  - eapply crep_frame; [exact Hc| |done]. intros p Hp. by apply kept_eq, Hk.
Qed.

(** ** The place in the chain *)
Lemma insc_split x pre post : (forall y, y ∈ pre -> is_route y -> plen x < plen y) -> Forall is_route (tail (pre ++ post)) ->
  (match post with [] => True | y :: _ => is_route y /\ plen y < plen x end) -> insc x (pre ++ post) = pre ++ x :: post.
Proof.
  intros Hpre Hr Hpost.
  assert (forall p, (forall y, y ∈ p -> plen x < plen y) -> ins x (p ++ post) = p ++ x :: post) as Hi.
  { intros p Hp. induction p as [|y p IH]; simpl.
    - destruct post as [|y post]; [done|]. simpl. destruct Hpost as [_ H]. by rewrite (proj2 (Z.ltb_lt _ _) H).
    - rewrite (proj2 (Z.ltb_ge _ _)) by (assert (plen x < plen y) by (apply Hp; by left); lia). f_equal. apply IH. intros. apply Hp. by right. }
  destruct pre as [|h pre]; simpl in *.
  - destruct post as [|y post]; [done|]. simpl. rewrite decide_True by apply Hpost. apply (Hi []). intros y' H. by apply not_elem_of_nil in H.
  - apply Forall_app in Hr as [Hr _]. rewrite Forall_forall in Hr.
    assert (forall y, y ∈ pre -> plen x < plen y) as Hp by (intros y Hy; apply Hpre; [by right|by apply Hr]).
    destruct (decide (is_route h)) as [Hh|Hh]; [|by rewrite Hi].
    apply (Hi (h :: pre)). intros y [->|Hy]%elem_of_cons; [apply Hpre; [by left|done]|by apply Hp].
Qed.

Lemma dup_place_ok s netmask n : netmask <> NULL -> bytes s !! netmask = Some (mask_of n) -> 0 <= n -> forall c f par prev,
  crep L s par c -> (length c < f)%nat ->
  (forall y, y ∈ c -> is_route y -> (lmp y = netmask <-> plen y = n) /\ (n < plen y -> bytes s !! lmp y = Some (mask_of (plen y)) /\ 8 < plen y <= 256)) ->
  exists r, dup_place f netmask (-1 - n) prev (chead c) s = (ok r, s) /\
    match r with
    | None => exists y, y ∈ c /\ is_route y /\ plen y = n
    | Some (t, tt_) => exists pre post, c = pre ++ post /\ tt_ = chead post /\ t = lastp prev pre
        /\ (forall y, y ∈ pre -> is_route y -> n < plen y) /\ match post with [] => True | y :: _ => is_route y /\ plen y < n end
    end.
Proof.
  intros Hnm Hnb Hn. induction c as [|y c IH]; intros f par prev Hc Hf Hall; (destruct f as [|f]; [simpl in Hf; lia|]); cbn [dup_place].
  { eexists. split; [reflexivity|]. exists [], []. split_and!; try done. intros y H. by apply not_elem_of_nil in H. }
  destruct Hc as [Hy Hc]. pose proof Hy as [(yn & Hyn & Hyu & Hyb & _) Hyne _ _ _ _ _ _]. cbn [chead]. rewrite (proj2 (Nat.eqb_neq _ _) Hyne). rstep.
  pose proof (IH f (lp y) (lp y) Hc ltac:(simpl in Hf; lia) ltac:(intros z Hz; apply Hall; by right)) as Hrec.
  assert ((is_route y -> n < plen y) -> exists r, dup_place f netmask (-1 - n) (lp y) (chead c) s = (ok r, s) /\
    match r with
    | None => exists y0, y0 ∈ y :: c /\ is_route y0 /\ plen y0 = n
    | Some (t, tt_) => exists pre post, y :: c = pre ++ post /\ tt_ = chead post /\ t = lastp prev pre
        /\ (forall y, y ∈ pre -> is_route y -> n < plen y) /\ match post with [] => True | y :: _ => is_route y /\ plen y < n end
    end) as Hnext.
  { intros Hlt. destruct Hrec as (r & E & Hr). exists r. split; [done|]. destruct r as [[t tt_]|].
    - destruct Hr as (pre & post & -> & -> & -> & Hpre & Hpost). exists (y :: pre), post. split_and!; try done.
      intros z [->|Hz]%elem_of_cons Hzr; [by apply Hlt|by apply Hpre].
    - destruct Hr as (z & Hz & ? & ?). exists z. split; [by right|done]. }
  destruct (Nat.eqb_spec (lmp y) netmask) as [E|E].
  { exists None. split; [done|]. exists y. split; [by left|]. assert (is_route y) as Hr by (unfold is_route; by rewrite E). split; [done|]. by apply (Hall y ltac:(by left) Hr). }
  rewrite (proj2 (Nat.eqb_neq _ _) Hnm). destruct (Nat.eqb_spec (lmp y) NULL) as [E0|E0].
  { erewrite st_bind_ok by reflexivity. cbv beta iota. rstep. apply Hnext. intros H. by destruct H. }
  destruct (Hall y ltac:(by left) E0) as [Heq Hmb].
  assert (plen y <> n) as Hne by (intros H; by apply E, Heq).
  destruct (Z.lt_ge_cases (plen y) n) as [Hlt|Hge].
  - erewrite st_bind_ok; [|rstep; rewrite Hyb, (proj2 (Z.ltb_lt _ _)); [reflexivity|unfold plen in Hlt; lia]]. cbv beta iota.
    eexists. split; [reflexivity|]. exists [], (y :: c). split_and!; try done. intros z H. by apply not_elem_of_nil in H.
  - assert (n < plen y) as Hgt by lia. destruct (Hmb Hgt) as [Hyb' Hyl].
    erewrite st_bind_ok; [|rstep; rewrite Hyb, (proj2 (Z.ltb_ge _ _)) by (unfold plen in Hgt; lia); rstep; rstep;
      rewrite (st_bind_ok _ _ _ _ _ (refines_shorter s n (plen y) ltac:(lia) Hyl)); apply lexobetter_shorter; lia].
    cbv beta iota. rstep. by apply Hnext.
Qed.

(** ** Joining the chain *)
Record linked (s s' : state) (np : ptr) (ps : list ptr) : Prop := {
  lk_same (q : ptr) : q <> np -> q ∉ ps -> nodes s' !! q = nodes s !! q;
  lk_entry (q : ptr) n : q <> np -> nodes s !! q = Some n -> exists n', nodes s' !! q = Some n' /\ rn_mklist n' = rn_mklist n /\ rn_flags n' = rn_flags n;
  lk_dom (q : ptr) : is_Some (nodes s' !! q) -> is_Some (nodes s !! q);
  lk_masks : masks s' = masks s; lk_bytes : bytes s' = bytes s; lk_brk : brk s' = brk s; lk_oom : oom s' = oom s }.

(** The new leaf in the chain, before it gets its mask. *)
Definition chained (vp par d : ptr) : radix_node := mk_node NULL par (-1) 0 RNF_ACTIVE (Leaf_ vp NULL d).

Lemma dup_link_head s top C g z post vp np : ctxrep (KR L) s top (C ++ [g]) (lp z) -> crep L s (fp g) (z :: post) ->
  nodes s !! np = Some zero_leaf -> NoDup (np :: cptrs (C ++ [g]) ++ map lp (z :: post)) ->
  exists s', dup_link vp (lp z) (lp z) (lp z) np s = (ok np, s') /\ nodes s' !! np = Some (chained vp (fp g) (lp z))
    /\ ctxrep (KR L) s' top (C ++ [g]) np /\ crep L s' np (z :: post) /\ linked s s' np [fp g; lp z].
Proof.
  intros HC Hc Hnp Hnd. apply ctxrep_app in HC as [HC [Hg _]]. simpl in HC, Hg. pose proof Hg as ((gn & Hgn & Hgu & Hgb & Hgbm & Hgp & Hgm) & Hgne & Hsib).
  pose proof Hc as [[(zn & Hzn & Hzu & _ & Hzp & _) Hzne _ _ _ _ _ _] _]. rewrite cptrs_snoc in Hnd. unfold fptrs in Hnd. simpl in Hnd.
  apply NoDup_cons in Hnd as [Hnp' Hnd]. rewrite <-(assoc_L (++)), <-app_comm_cons, <-Permutation_middle in Hnd. apply NoDup_cons in Hnd as [Hgn' Hnd].
  rewrite !not_elem_of_app, !not_elem_of_cons in Hnp'. rewrite !not_elem_of_app, not_elem_of_cons in Hgn'.
  assert (NoDup (lp z :: cptrs C ++ tptrs (fsib g) ++ map lp post)) as Hnz.
  { assert (cptrs C ++ tptrs (fsib g) ++ lp z :: map lp post ≡ₚ lp z :: cptrs C ++ tptrs (fsib g) ++ map lp post) as <-; [solve_Permutation|done]. }
  apply NoDup_cons in Hnz as [Hz _]. rewrite !not_elem_of_app in Hz.
  assert (np <> lp z /\ np <> fp g /\ fp g <> lp z) as (N1 & N2 & N3) by (split_and!; tauto).
  destruct gn as [gml gpar gbit gbm gfl gu]. destruct zn as [zml zpar zbit zbm zfl zu]. simpl in Hgu, Hgb, Hgbm, Hgp, Hgm, Hzu, Hzp. subst gu zu zpar.
  unfold dup_link. rewrite Nat.eqb_refl.
  assert (exists s1, (do _ <- set_dupedkey np (lp z) ;;
      do fl <- get rn_flags (lp z) ;; do _ <- set_flags np fl ;;
      do x <- get rn_parent (lp z) ;; do _ <- set_parent np x ;;
      do _ <- set_parent (lp z) np ;;
      do l <- rn_left x ;;
      do _ <- (if (l =? lp z)%nat then set_left x np else set_right x np) ;;
      st_ret np) s = (ok np, s1)
    /\ nodes s1 !! np = Some (mk_node NULL (fp g) 0 0 zfl (Leaf_ NULL NULL (lp z)))
    /\ nodes s1 !! lp z = Some (mk_node zml np zbit zbm zfl (Leaf_ (lkp z) (lmp z) (chead post)))
    /\ nodes s1 !! fp g = Some (mk_node gml gpar gbit gbm gfl (Inner_ (Z.to_nat (fb g / 8)) (if fside g then rootp (fsib g) else np) (if fside g then np else rootp (fsib g))))
    /\ (forall q : ptr, q <> np -> q <> lp z -> q <> fp g -> nodes s1 !! q = nodes s !! q)
    /\ masks s1 = masks s /\ bytes s1 = bytes s /\ brk s1 = brk s /\ oom s1 = oom s) as (s1 & E1 & S1 & S2 & S3 & S0 & SM & SB & SK & SO).
  { unfold set_dupedkey, set_flags, set_parent. do 7 rstep.
    assert (rootp (fsib g) <> lp z) as Hrs by (intros E; pose proof (tree_root_in L (KR L) _ _ _ Hsib) as Hin; rewrite E in Hin; tauto).
    destruct (fside g).
    - rewrite (proj2 (Nat.eqb_neq _ _) Hrs). unfold set_right. erewrite st_bind_ok by (eapply set_inner_ok; [lk|reflexivity]).
      eexists. split; [reflexivity|]. rewrite !masks_upd, !bytes_upd, !brk_upd, !oom_upd. split_and!; try done; try (lk || (rewrite nupd_eq; reflexivity)).
      intros q ? ? ?. by rewrite !nupd_ne by done.
    - rewrite Nat.eqb_refl. unfold set_left. erewrite st_bind_ok by (eapply set_inner_ok; [lk|reflexivity]).
      eexists. split; [reflexivity|]. rewrite !masks_upd, !bytes_upd, !brk_upd, !oom_upd. split_and!; try done; try (lk || (rewrite nupd_eq; reflexivity)).
      intros q ? ? ?. by rewrite !nupd_ne by done. }
  rewrite (st_bind_ok _ _ _ _ _ E1). unfold set_key, set_bit, set_flags. do 3 rstep. eexists. split; [reflexivity|].
  match goal with |- nodes ?x !! np = _ /\ _ => set (s2 := x) end.
  assert (forall q : ptr, q <> np -> nodes s2 !! q = nodes s1 !! q) as Hoth by (intros q Hq; unfold s2; by rewrite !nupd_ne by done).
  assert (masks s2 = masks s /\ bytes s2 = bytes s /\ brk s2 = brk s /\ oom s2 = oom s) as (FM & FB & FK & FO)
    by (unfold s2; rewrite !masks_upd, !bytes_upd, !brk_upd, !oom_upd; done).
  assert (bytes_kept s s2) as Hbk by (intros k w; by rewrite FB).
  assert (forall q : ptr, q <> np -> q <> lp z -> q <> fp g -> nodes s2 !! q = nodes s !! q) as H0 by (intros; by rewrite Hoth, S0).
  split_and!.
  - apply nupd_eq.
  - apply ctxrep_app. split; [|split; [|done]].
    + simpl. eapply ctxrep_frame; [apply key_chain|exact HC| |by intros q _; unfold mask_kept; rewrite FM|done].
      intros q Hq. apply kept_eq, H0; intros ->; tauto.
    + simpl. split_and!; [|done|].
      * eexists. split; [rewrite Hoth by done; exact S3|]. simpl. split_and!; try done. eapply mrep_kept; [|exact Hgm]. intros q _. unfold mask_kept. by rewrite FM.
      * eapply gtrep_frame; [apply key_chain|exact Hsib| |by intros q _; unfold mask_kept; rewrite FM|done].
        intros q Hq. apply kept_eq, H0; intros ->; tauto.
  - eapply crep_move; [exact Hc|exact Hzn|by rewrite Hoth by done| |done]. intros q Hq. apply H0; intros ->; tauto.
  - split; try done.
    + intros q Hq Hin. rewrite !not_elem_of_cons in Hin. apply H0; tauto.
    + intros q n Hq Hn. destruct (decide (q = lp z)) as [->|]; [rewrite Hzn in Hn; injection Hn as <-; eexists; split; [by rewrite Hoth by done|done]|].
      destruct (decide (q = fp g)) as [->|]; [rewrite Hgn in Hn; injection Hn as <-; eexists; split; [by rewrite Hoth by done|done]|].
      exists n. by rewrite H0 by done.
    + intros q Hq. destruct (decide (q = np)) as [->|]; [by eexists|]. destruct (decide (q = lp z)) as [->|]; [by eexists|].
      destruct (decide (q = fp g)) as [->|]; [by eexists|]. by rewrite <-H0.
Qed.

Lemma dup_link_middle s par pre y post vp np saved : crep L s par ((pre ++ [y]) ++ post) -> chead post <> saved ->
  nodes s !! np = Some zero_leaf -> NoDup (np :: map lp ((pre ++ [y]) ++ post)) ->
  exists s', dup_link vp saved (lp y) (chead post) np s = (ok saved, s') /\ nodes s' !! np = Some (chained vp (lp y) (chead post))
    /\ cseg s' par (pre ++ [y]) np /\ crep L s' np post /\ linked s s' np (map lp ((pre ++ [y]) ++ post)).
Proof.
  intros Hc Hsv Hnp Hnd. apply crep_app in Hc as [Hpre Hpost]. rewrite lastp_snoc in Hpost. apply cseg_snoc in Hpre as [Hpre Hy].
  pose proof Hy as [(yn & Hyn & Hyu & _) Hyne _ _ _ _ _ _]. rewrite !map_app in Hnd. simpl in Hnd. apply NoDup_cons in Hnd as [Hnp' Hnd].
  rewrite <-(assoc_L (++)) in Hnd. simpl in Hnd. rewrite <-Permutation_middle in Hnd. apply NoDup_cons in Hnd as [Hy' Hnd].
  rewrite !elem_of_app, list_elem_of_singleton in Hnp'. rewrite !elem_of_app in Hy'. assert (np <> lp y) as N1 by tauto.
  destruct yn as [yml ypar ybit ybm yfl yu]. simpl in Hyu. subst yu.
  unfold dup_link. rewrite (proj2 (Nat.eqb_neq _ _) Hsv).
  assert (exists s1, (do d <- rn_dupedkey (lp y) ;; do _ <- set_dupedkey np d ;;
      do _ <- set_dupedkey (lp y) np ;;
      do _ <- set_parent np (lp y) ;;
      do _ <- when (negb (d =? NULL)%nat) (set_parent d np) ;;
      st_ret saved) s = (ok saved, s1)
    /\ nodes s1 !! np = Some (mk_node NULL (lp y) 0 0 0 (Leaf_ NULL NULL (chead post)))
    /\ nodes s1 !! lp y = Some (mk_node yml ypar ybit ybm yfl (Leaf_ (lkp y) (lmp y) np))
    /\ match post with [] => True | z :: _ => exists zn, nodes s !! lp z = Some zn /\ nodes s1 !! lp z = Some (zn <| rn_parent := np |>) end
    /\ (forall q : ptr, q <> np -> q <> lp y -> (forall z r, post = z :: r -> q <> lp z) -> nodes s1 !! q = nodes s !! q)
    /\ masks s1 = masks s /\ bytes s1 = bytes s /\ brk s1 = brk s /\ oom s1 = oom s) as (s1 & E1 & S1 & S2 & S3 & S0 & SM & SB & SK & SO).
  { unfold set_dupedkey, set_parent. do 4 rstep. destruct post as [|z post]; cbn [chead].
    - rewrite Nat.eqb_refl. cbn [negb when]. eexists. split; [reflexivity|]. rewrite !masks_upd, !bytes_upd, !brk_upd, !oom_upd.
      split_and!; try done; try (lk || (rewrite nupd_eq; reflexivity)). intros q ? ? ?. by rewrite !nupd_ne by done.
    - destruct Hpost as [[(zn & Hzn & _) Hzne _ _ _ _ _ _] _]. simpl in Hnp', Hy'. rewrite !elem_of_cons in Hnp', Hy'.
      assert (np <> lp z /\ lp y <> lp z) as [N2 N3] by tauto. rewrite (proj2 (Nat.eqb_neq _ _) Hzne). cbn [negb when]. rstep.
      eexists. split; [reflexivity|]. rewrite !masks_upd, !bytes_upd, !brk_upd, !oom_upd.
      split_and!; try done; try (lk || (rewrite nupd_eq; reflexivity)); [exists zn; split; [done|lk]|]. intros q ? ? Hq. specialize (Hq z post eq_refl). by rewrite !nupd_ne by done. }
  rewrite (st_bind_ok _ _ _ _ _ E1). unfold set_key, set_bit, set_flags. do 3 rstep. eexists. split; [reflexivity|].
  match goal with |- nodes ?x !! np = _ /\ _ => set (s2 := x) end.
  assert (forall q : ptr, q <> np -> nodes s2 !! q = nodes s1 !! q) as Hoth by (intros q Hq; unfold s2; by rewrite !nupd_ne by done).
  assert (masks s2 = masks s /\ bytes s2 = bytes s /\ brk s2 = brk s /\ oom s2 = oom s) as (FM & FB & FK & FO)
    by (unfold s2; rewrite !masks_upd, !bytes_upd, !brk_upd, !oom_upd; done).
  assert (bytes_kept s s2) as Hbk by (intros k w; by rewrite FB).
  assert (forall q : ptr, q <> np -> q <> lp y -> (forall z r, post = z :: r -> q <> lp z) -> nodes s2 !! q = nodes s !! q) as H0 by (intros; by rewrite Hoth, S0).
  assert (forall p, p ∈ map lp pre -> forall z r, post = z :: r -> p <> lp z) as Hpp.
  { intros p Hp z r E Hpz. subst p. apply NoDup_app in Hnd as (_ & Hnd & _). rewrite E in Hnd. simpl in Hnd. apply (Hnd _ Hp). by left. }
  split_and!.
  - apply nupd_eq.
  - apply cseg_snoc. split.
    + eapply cseg_frame; [exact Hpre| |done]. intros p Hp. apply kept_eq, H0; [intros ->; tauto|intros ->; tauto|by apply Hpp].
    + eapply leaf_link; [exact Hy|exact Hyn| |done]. rewrite Hoth by done. rewrite S2.
      destruct Hy as [(n0 & Hn0 & _ & _ & Hyp & _) _ _ _ _ _ _ _]. rewrite Hyn in Hn0. injection Hn0 as <-. simpl in Hyp. by rewrite <-Hyp.
  - destruct post as [|z post]; [done|]. destruct S3 as (zn & Hzn & Hzn'). simpl in Hnp', Hy'. rewrite !elem_of_cons in Hnp', Hy'.
    eapply crep_move; [exact Hpost|exact Hzn|rewrite Hoth by (apply not_eq_sym; tauto); exact Hzn'| |done].
    intros p Hp. apply H0; [intros ->; tauto|intros ->; tauto|]. intros z' r' [= <- <-] ->. simpl in Hp. apply NoDup_app in Hnd as (_ & _ & Hnd). simpl in Hnd. by apply NoDup_cons in Hnd as [? _].
  - split; try done.
    + intros q Hq Hin. rewrite !map_app, !elem_of_app in Hin. simpl in Hin. rewrite list_elem_of_singleton in Hin. apply H0; [done|tauto|].
      intros z r -> ->. simpl in Hin. rewrite elem_of_cons in Hin. tauto.
    + intros q n Hq Hn. destruct (decide (q = lp y)) as [->|]; [rewrite Hyn in Hn; injection Hn as <-; eexists; split; [by rewrite Hoth by done|done]|].
      destruct post as [|z post]; [exists n; by rewrite H0 by done|]. destruct (decide (q = lp z)) as [->|]; [|exists n; by rewrite H0 by (done || (intros ? ? [= <- <-]; done))].
      destruct S3 as (zn & Hzn & Hzn'). rewrite Hzn in Hn. injection Hn as <-. eexists. split; [rewrite Hoth by done; exact Hzn'|by destruct zn].
    + intros q Hq. destruct (decide (q = np)) as [->|]; [by eexists|]. destruct (decide (q = lp y)) as [->|]; [by eexists|].
      destruct post as [|z post]; [by rewrite <-H0|]. destruct (decide (q = lp z)) as [->|]; [destruct S3 as (zn & ? & _); by eexists|].
      by rewrite <-H0 by (done || (intros ? ? [= <- <-]; done)).
Qed.
(** Both ways: the memory, once the new leaf [x] has its mask. *)
Lemma dup_linked s top C g z c pre post vp np : ctxrep (KR L) s top (C ++ [g]) (lp z) -> crep L s (fp g) (z :: c) -> z :: c = pre ++ post ->
  nodes s !! np = Some zero_leaf -> NoDup (np :: cptrs (C ++ [g]) ++ map lp (z :: c)) ->
  exists s1 sv par d, dup_link vp (lp z) (lastp (lp z) pre) (chead post) np s = (ok sv, s1) /\ nodes s1 !! np = Some (chained vp par d)
    /\ linked s s1 np (fp g :: map lp (z :: c))
    /\ forall s2 x, lp x = np -> leaf_rep L s2 par d x -> (forall q : ptr, q <> np -> nodes s2 !! q = nodes s1 !! q) -> masks s2 = masks s1 -> bytes s2 = bytes s1 ->
        ctxrep (KR L) s2 top (C ++ [g]) (chead (pre ++ x :: post)) /\ crep L s2 (fp g) (pre ++ x :: post)
        /\ exists n, nodes s2 !! sv = Some n /\ rn_parent n = fp g.
Proof.
  intros HC Hc Ec Hnp Hnd. pose proof Hnd as Hnd'. apply NoDup_cons in Hnd' as [Hnp' Hnd']. rewrite elem_of_app in Hnp'. apply NoDup_app in Hnd' as (_ & Hdis & Hndc).
  destruct pre as [|y pre _] using rev_ind.
  - simpl in Ec. subst post. destruct (dup_link_head s top C g z c vp np HC Hc Hnp Hnd) as (s1 & E & Hn1 & HC1 & Hc1 & [K1 K2 K3 K4 K5 K6 K7]).
    exists s1, np, (fp g), (lp z). split; [exact E|]. split; [done|]. split.
    { split; try done. intros q Hq Hin. apply K1; [done|]. simpl in Hin. rewrite !not_elem_of_cons in Hin. rewrite !not_elem_of_cons. split_and!; [tauto|tauto|apply not_elem_of_nil]. }
    intros s2 x Ex Hx Hs2 M2 B2. simpl. rewrite Ex.
    assert (forall p, p <> np -> kept s1 s2 p) as Hk by (intros p Hp; by apply kept_eq, Hs2).
    assert (bytes_kept s1 s2) as Hb by (intros k w; by rewrite B2).
    assert (crep L s2 np (z :: c)) as Hc2.
    { eapply crep_frame; [exact Hc1| |exact Hb]. intros p Hp. apply Hk. intros ->. tauto. }
    split; [|split; [by split|]].
    + eapply ctxrep_frame; [apply key_chain|exact HC1| |intros q _; unfold mask_kept; by rewrite M2|done]. intros p Hp. apply Hk. intros ->. tauto.
    + destruct Hx as [(n & Hn & _ & _ & Hp & _) _ _ _ _ _ _ _]. rewrite Ex in Hn. eauto.
  - rewrite lastp_snoc. assert (chead post <> lp z) as Hsv.
    { destruct post as [|w post]; [destruct Hc as [[_ Hz _ _ _ _ _ _] _]; exact (not_eq_sym Hz)|]. simpl. intros Ew. rewrite Ec, map_app in Hndc. apply NoDup_app in Hndc as (_ & Hd & _).
      apply (Hd (lp w)); [|by left]. rewrite Ew. destruct pre as [|z' pre]; injection Ec as -> _; by left. }
    rewrite Ec in Hc. rewrite Ec in Hndc, Hnp', Hdis. destruct (dup_link_middle s (fp g) pre y post vp np (lp z) Hc Hsv Hnp) as (s1 & E & Hn1 & Hp1 & Hc1 & Hl).
    { constructor; [tauto|exact Hndc]. }
    exists s1, (lp z), (lp y), (chead post). split; [exact E|]. split; [done|]. rewrite Ec. pose proof Hl as [K1 K2 K3 K4 K5 K6 K7]. split.
    { split; try done. intros q Hq Hin. apply K1; [done|]. rewrite not_elem_of_cons in Hin. tauto. }
    intros s2 x Ex Hx Hs2 M2 B2.
    assert (forall p, p <> np -> kept s1 s2 p) as Hk by (intros p Hp; by apply kept_eq, Hs2).
    assert (bytes_kept s1 s2) as Hb by (intros k w; by rewrite B2).
    assert (crep L s2 (fp g) ((pre ++ [y]) ++ x :: post)) as Hcr.
    { apply crep_app. rewrite lastp_snoc. cbn [chead crep]. rewrite Ex. split; [|split; [exact Hx|]].
      - eapply cseg_frame; [exact Hp1| |exact Hb]. intros p Hp. apply Hk. intros ->. rewrite (map_app lp (pre ++ [y])), elem_of_app in Hnp'. tauto.
      - eapply crep_frame; [exact Hc1| |exact Hb]. intros p Hp. apply Hk. intros ->. rewrite (map_app lp (pre ++ [y])), elem_of_app in Hnp'. tauto. }
    assert (chead ((pre ++ [y]) ++ x :: post) = lp z) as Ehd by (destruct pre as [|z' pre]; injection Ec as -> _; done).
    rewrite Ehd. split_and!; [|exact Hcr|].
    + eapply ctxrep_frame; [apply key_chain|exact HC| |intros q _; unfold mask_kept; by rewrite M2, K4|intros k w; by rewrite B2, K5].
      intros p Hp. apply kept_eq. rewrite Hs2 by (intros ->; tauto). apply K1; [intros ->; tauto|by apply Hdis].
    + destruct pre as [|z' pre]; simpl in Hcr; [injection Ec as <- _|injection Ec as <- _]; destruct Hcr as [[(n & Hn & _ & _ & Hp & _) _ _ _ _ _ _ _] _]; eauto.
Qed.
End Dup.
End RadixDup.
