(* ===== verification/RadixAddroute.v ===== *)
(** * [rn_addroute] keeps the radix tree

    The invariant of a table of [alpha/al_radix.c] in memory, with its tree of
    masks and the entries of its leaves, and that [rn_addroute] keeps it: a
    prefix is added to the routes unless it is one of them. *)

From Stdlib Require Import ZArith Lia Bool Sorted.
From stdpp Require Import base tactics option gmap list list_numbers.
From S2P Require Import Prelude Radix RadixShape RadixRep RadixMatch RadixDec RadixCtx RadixAdd RadixInsert RadixMask RadixOrder RadixRoute RadixLift RadixDup.

Open Scope Z_scope.

Module RadixAddroute.
Import Radix RadixShape RadixRep RadixMatch RadixDec RadixCtx RadixAdd RadixInsert RadixMask RadixOrder RadixRoute RadixLift RadixDup.

Section Addroute.
Context (off L o : Z) (Ho : off = 8 * o) (Hol : 1 <= o < L) (HL : L <= 32).

Record radix_ok (s : state) (h : radix_head) (T M : tree) : Prop := {
  ro_top : exists ml l r, T = Nd (rnh_treetop h) off ml l r;
  ro_rep : gtrep (KR L) s (rnh_treetop h) T;
  ro_wf : wf off L (-1) T;
  ro_nodup : NoDup (tptrs T ++ tptrs M);
  ro_mnodup : NoDup (mptrs T);
  ro_roots x : x ∈ leaves T -> ~ is_route x -> constant off L false (lkey x) \/ constant off L true (lkey x);
  ro_ann : ann s [] (-1) T;
  ro_masks : masks_ok off L s h M;
  ro_netmask x : x ∈ routes T -> exists y, y ∈ leaves M /\ lkp y = lmp x /\ lbit y = lbit x /\ lnormal y = lnormal x;
  ro_bounded : bounded s }.

Lemma radix_tree_ok s h T M : radix_ok s h T M -> tree_ok off L s h T.
Proof. intros []. split; try done; [by apply key_tree|by apply NoDup_app in ro_nodup0 as (? & _)]. Qed.

(** The tree of masks may grow. *)
Lemma radix_masks s s' h T M M' : radix_ok s h T M -> masks_grown s s' M M' -> masks_ok off L s' h M' -> radix_ok s' h T M'.
Proof.
  intros H [K1 K2 K3 K4 K5 K6 K7 K8] Hm. pose proof (gtrep_ptrs L (KR L) _ _ _ (ro_rep _ _ _ _ H)) as Hp. rewrite Forall_forall in Hp.
  pose proof (ro_nodup _ _ _ _ H) as Hnd. apply NoDup_app in Hnd as (Hn1 & Hn2 & Hn3).
  assert (forall p, p ∈ tptrs T -> nodes s' !! p = nodes s !! p) as Hk.
  { intros p Hin. apply K6; [by apply (bounded_nodes _ (ro_bounded _ _ _ _ H)), Hp|by apply Hn2]. }
  destruct H. split; try done.
  - eapply gtrep_frame; [apply key_chain|exact ro_rep0|intros p Hin; by apply kept_eq, Hk| |done]. intros q _. unfold mask_kept. by rewrite K4.
  - apply NoDup_app. split_and!; [done| |apply (masks_nodup _ _ _ _ _ Hm)]. intros p Hin Hin'. apply K7 in Hin' as [?|Hlt]; [by apply (Hn2 p)|].
    apply Hp, (bounded_nodes _ ro_bounded0) in Hin. lia.
  - eapply ann_frame; [exact ro_ann0| |done]. intros y Hy. apply same_entry_other, Hk. by apply leaves_tptrs.
  - intros x Hx. destruct (ro_netmask0 x Hx) as (y & Hy & ?). exists y. split; [by apply K8|done].
Qed.

(** ** Prefixes *)

(** The length under which a mask of [n] bits is kept. *)
Definition kept_len (n : Z) : Z := if n <=? off then 0 else n.

Lemma same_prefix x y : route_ok off L x -> route_ok off L y -> plen x = plen y -> agree off (plen x) (lkey x) (lkey y) -> agree off (8 * L) (lkey x) (lkey y).
Proof.
  intros [Zx _] [Zy _] El Hag i Hi. destruct (Z.lt_ge_cases i (plen x)) as [H|H]; [apply Hag; lia|]. rewrite Zx, Zy; (done || lia).
Qed.

(** Masks of the same length have the same address. *)
Lemma netmask_unique s h M y y' : masks_ok off L s h M -> y ∈ leaves M -> y' ∈ leaves M -> lnormal y = true -> lnormal y' = true -> plen y = plen y' -> y = y'.
Proof.
  intros Hok Hy Hy' Hn Hn' El.
  assert (forall y, y ∈ leaves M -> lnormal y = true -> lkey y = mask_of (plen y)) as Hk.
  { intros w Hw Hwn. destruct (masks_leaf _ _ _ _ _ Hok w Hw) as [->|[[_ ?]|(_ & _ & ?)]]; [done|congruence|done]. }
  destruct (ending_gen 32 MR s (lkey y) _ _ (masks_rep _ _ _ _ _ Hok)) as (z & c & par & Ez & (z' & zn & [= -> ->] & _)).
  assert (forall w, w ∈ leaves M -> lkey w = lkey y -> w = z') as Hu.
  { intros w Hw Ew. assert (w ∈ ending (lkey y) M) as Hin by (eapply (ending_exact 0 32); [apply (masks_wf _ _ _ _ _ Hok)|done|rewrite Ew; by intros ? ?]).
    rewrite Ez in Hin. by apply list_elem_of_singleton in Hin. }
  rewrite (Hu y Hy eq_refl). symmetry. apply Hu; [done|]. by rewrite !Hk, El.
Qed.

(** What the code has at hand after [rn_addmask]: the leaf [m] of the mask. *)
Record mask_for (s : state) (h : radix_head) (M : tree) (n : Z) (m : leaf) : Prop := {
  mf_in : m ∈ leaves M; mf_len : plen m = kept_len n; mf_normal : lnormal m = negb (n <=? off);
  mf_key : lkey m = mask_of (kept_len n); mf_zero : n <= off -> m = zero_mask h }.

Lemma mask_of_zero : mask_of 0 = repeat 0 32.
Proof. reflexivity. Qed.

Lemma route_mask s h T M y par d : radix_ok s h T M -> y ∈ routes T -> leaf_rep L s par d y -> bytes s !! lmp y = Some (mask_of (plen y)) /\ (0 < plen y -> off < plen y <= 8 * L /\ lnormal y = true).
Proof.
  intros H Hy Hr. pose proof (wf_route _ _ _ _ _ (ro_wf _ _ _ _ H) Hy) as [_ Hlen]. apply elem_of_routes in Hy as [Hrt _].
  pose proof (leaf_mask _ _ _ _ _ Hr Hrt) as Hm. unfold mask_bytes in Hm. destruct Hlen as [[En Hl]|(En & El & _)]; rewrite En in Hm.
  - split; [done|]. intros _. done.
  - split; [|lia]. rewrite El, mask_of_zero. done.
Qed.

Lemma dup_conditions s h T M n m y par d : radix_ok s h T M -> mask_for s h M n m -> y ∈ routes T -> leaf_rep L s par d y -> n <= 8 * L ->
  (lmp y = lkp m <-> plen y = kept_len n) /\ (kept_len n < plen y -> bytes s !! lmp y = Some (mask_of (plen y)) /\ 8 < plen y <= 256).
Proof.
  intros H Hm Hy Hr Hn. destruct (route_mask _ _ _ _ _ _ _ H Hy Hr) as [Hyb Hyl]. pose proof (wf_route _ _ _ _ _ (ro_wf _ _ _ _ H) Hy) as [_ Hlen].
  destruct (mask_leaf_rep _ _ _ _ (masks_rep _ _ _ _ _ (ro_masks _ _ _ _ H)) (mf_in _ _ _ _ _ Hm)) as (parm & m' & mn & [= <-] & _ & _ & _ & _ & Hmb & _).
  assert (0 <= kept_len n) as Hk0 by (unfold kept_len; destruct (Z.leb_spec n off); lia). split; [split|].
  - intros E. rewrite E, Hmb, (mf_key _ _ _ _ _ Hm) in Hyb. apply (inj Some) in Hyb. unfold kept_len in *.
    assert (0 <= plen y) as Hy0 by (destruct Hlen as [[_ ?]|(_ & -> & _)]; lia).
    destruct (Z.leb_spec n off) as [Hz|Hz].
    + destruct (Z.eq_dec (plen y) 0); [done|]. exfalso. apply (f_equal (fun l => nth 0 l 0)) in Hyb. cbn [mask_of nth] in Hyb.
      change ((0 + 7) / 8) with 0 in Hyb. fold (blen (plen y)) in Hyb. pose proof (blen_bounds (plen y)). lia.
    + destruct (Z.eq_dec (plen y) 0) as [E0|]; [|symmetry; apply mask_of_inj; [lia|destruct (Hyl ltac:(lia)); lia|done]].
      exfalso. apply (f_equal (fun l => nth 0 l 0)) in Hyb. rewrite E0 in Hyb. cbn [mask_of nth] in Hyb. change ((0 + 7) / 8) with 0 in Hyb. fold (blen n) in Hyb.
      pose proof (blen_bounds n). lia.
  - intros E. unfold kept_len in E. destruct (Z.leb_spec n off) as [Hz|Hz].
    + rewrite (mf_zero _ _ _ _ _ Hm Hz). destruct Hlen as [[_ ?]|(_ & _ & ->)]; [lia|done].
    + destruct (ro_netmask _ _ _ _ H y Hy) as (m' & Hm' & <- & Eb & En). f_equal.
      eapply netmask_unique; [apply (ro_masks _ _ _ _ H)|done|apply (mf_in _ _ _ _ _ Hm)| | |].
      * rewrite En. by destruct (Hyl ltac:(lia)).
      * rewrite (mf_normal _ _ _ _ _ Hm). by rewrite (proj2 (Z.leb_gt _ _)).
      * rewrite (mf_len _ _ _ _ _ Hm). unfold kept_len. rewrite (proj2 (Z.leb_gt _ _)) by lia. rewrite <-E. unfold plen. by rewrite Eb.
  - intros Hlt. split; [done|]. destruct (Hyl ltac:(lia)). lia.
Qed.

Lemma addmask_any s h T M nb n : radix_ok s h T M -> oom s = [] -> contiguous o n nb -> n <= 8 * L ->
  exists m M' s', rn_addmask nb h false (Z.to_nat o) s = (ok (lp m), s') /\ radix_ok s' h T M' /\ mask_for s' h M' n m /\ masks_grown s s' M M'.
Proof.
  intros H Hoom Hc Hn. destruct (Z.leb_spec n off) as [Hz|Hz].
  - exists (zero_mask h), M, s. split; [by apply (addmask_short off L o Ho Hol s h nb n)|]. split; [done|].
    split; [|by apply masks_grown_refl, (ro_bounded _ _ _ _ H)]. split; unfold kept_len; rewrite ?(proj2 (Z.leb_le _ _) Hz); try done. apply (masks_zero _ _ _ _ _ (ro_masks _ _ _ _ H)).
  - destruct (rn_addmask_ok off L o Ho Hol HL s h M nb n (ro_masks _ _ _ _ H) (ro_bounded _ _ _ _ H) Hoom Hc ltac:(lia)) as (y & M' & s' & E & Hm & Hg & Hy & El & En & Ek).
    exists y, M', s'. split; [done|]. split; [by eapply radix_masks|]. split; [|done].
    split; unfold kept_len; rewrite ?(proj2 (Z.leb_gt _ _) Hz); try done. lia.
Qed.

(** ** The leaf gets its mask *)
Definition dress (tt_ netmask : ptr) (xb xf : Z) : st state unit :=
  do _ <- set_mask tt_ netmask ;;
  do _ <- set_bit tt_ xb ;;
  do fl <- get rn_flags tt_ ;;
  set_flags tt_ (Z.lor fl (Z.land xf RNF_NORMAL)).

Lemma dress_flags xf : has RNF_NORMAL (Z.lor RNF_ACTIVE (Z.land xf RNF_NORMAL)) = has RNF_NORMAL xf /\ has RNF_ROOT (Z.lor RNF_ACTIVE (Z.land xf RNF_NORMAL)) = false.
Proof.
  unfold has, RNF_NORMAL, RNF_ROOT, RNF_ACTIVE. rewrite (Z.land_comm 1 xf). change 1 with (Z.ones 1). rewrite Z.land_ones by lia. pose proof (Z.mod_pos_bound xf (2 ^ 1) ltac:(lia)) as Hb.
  change (2 ^ 1) with 2 in *. assert (xf mod 2 = 0 \/ xf mod 2 = 1) as [E|E] by lia; rewrite !E; done.
Qed.

Lemma dress_ok s np vp par d netmask xb xf key normal : nodes s !! np = Some (mk_node NULL par (-1) 0 RNF_ACTIVE (Leaf_ vp NULL d)) ->
  let x := mk_leaf np vp key netmask xb normal in
  normal = has RNF_NORMAL xf -> np <> NULL -> netmask <> NULL -> xb < 0 -> bytes s !! vp = Some key -> query L key -> bytes s !! netmask = Some (mask_bytes x) ->
  exists s', dress np netmask xb xf s = (ok tt, s') /\ leaf_rep L s' par d x
    /\ (exists n, nodes s' !! np = Some n /\ rn_mklist n = NULL) /\ (forall q : ptr, q <> np -> nodes s' !! q = nodes s !! q)
    /\ masks s' = masks s /\ bytes s' = bytes s /\ brk s' = brk s /\ oom s' = oom s.
Proof.
  intros Hnp x Hno Hne Hnm Hxb Hvp [Hq1 Hq2 Hq3] Hmb. unfold dress, set_mask, set_bit, set_flags. do 3 rstep.
  erewrite (update_ok _ _ _ _ (nupd_eq _ _ _)). eexists. split; [reflexivity|].
  match goal with |- leaf_rep _ ?x _ _ _ /\ _ => set (s2 := x) end.
  assert (masks s2 = masks s /\ bytes s2 = bytes s /\ brk s2 = brk s /\ oom s2 = oom s) as (FM & FB & FK & FO)
    by (unfold s2; rewrite !masks_upd, !bytes_upd, !brk_upd, !oom_upd; done).
  destruct (dress_flags xf) as [Fn Fr]. split_and!; try done.
  - split; rewrite ?FB; try done. eexists. split; [apply nupd_eq|]. simpl. split_and!; try done; [by rewrite Hno|]. by rewrite bool_decide_false.
  - eexists. split; [apply nupd_eq|]. done.
  - intros q Hq. unfold s2. by rewrite !nupd_ne by done.
Qed.

(** ** Paths *)
Lemma ending_path v t : exists C, t = fill C (Lf (ending v t)) /\ Forall (fun f => bit v (fb f) = fside f) C.
Proof.
  induction t as [c|p b ml l IHl r IHr]; [by exists []|]. simpl. destruct (bit v b) eqn:Eb.
  - destruct IHr as (C & E & HC). exists (mk_frame true p b ml l :: C). split; [|by constructor]. rewrite E at 1. done.
  - destruct IHl as (C & E & HC). exists (mk_frame false p b ml r :: C). split; [|by constructor]. rewrite E at 1. done.
Qed.

Lemma fill_topf (C : list frame) t top b ml l r e t' : C <> [] -> fill C t = Nd top b ml l r -> exists ml' l' r', fill (adde (-1) e C) t' = Nd top b ml' l' r'.
Proof.
  destruct C as [|f C]; [done|]. intros _. cbn [adde]. change (fill (f :: C) t) with (fillf f (fill C t)). set (f' := if (-1 <? plen e.2) && (plen e.2 <=? fb f) then set_ml (insm e (fml f)) f else f).
  change (fill (f' :: adde (fb f) e C) t') with (fillf f' (fill (adde (fb f) e C) t')).
  assert (fp f' = fp f /\ fb f' = fb f) as [Ep Eb] by (unfold f'; by destruct (_ && _)). unfold fillf. rewrite Ep, Eb.
  destruct (fside f); intros [= <- <- _ _ _]; destruct (fside f'); eauto.
Qed.

(** What the caller provides: a zeroed pair and a key. *)
Record new_pair (s : state) (T M : tree) (np vp : ptr) (key : list Z) : Prop := {
  np_leaf : nodes s !! np = Some zero_leaf; np_inner : nodes s !! S np = Some zero_inner; np_null : np <> NULL;
  np_fresh : np ∉ tptrs T ++ tptrs M /\ S np ∉ tptrs T ++ tptrs M;
  np_key : bytes s !! vp = Some key; np_query : query L key }.

(** *** Both ways end with the entry of the new route. *)
Lemma rebuild s s3 s' h T M C c x q m (ps : list ptr) : radix_ok s h T M ->
  lifted L s3 s' (rnh_treetop h) C (adde (-1) (q, x) C) c x -> C <> [] ->
  (exists t ml l r, fill C t = Nd (rnh_treetop h) off ml l r) ->
  wf off L (-1) (fill (adde (-1) (q, x) C) (Lf c)) ->
  (forall y, y ∈ leaves (fill (adde (-1) (q, x) C) (Lf c)) <-> y = x \/ y ∈ leaves T) ->
  NoDup ((cptrs C ++ map lp c) ++ tptrs M) -> is_route x -> m ∈ leaves M -> lkp m = lmp x -> lbit m = lbit x -> lnormal m = lnormal x ->
  (forall p : ptr, p ∉ ps -> nodes s' !! p = nodes s !! p) -> (forall p, p ∈ tptrs M -> p ∉ ps) -> bytes_kept s s' -> bounded s' ->
  radix_ok s' h (fill (adde (-1) (q, x) C) (Lf c)) M.
Proof.
  intros H [F1 F2 F3 F4 F5 _ _] HC (t & ml & l & r & Et) Hw Hle Hnd Hx Hm Em1 Em2 Em3 Hns Hps Hbk Hbd. split; try done.
  - by eapply fill_topf.
  - apply gtrep_fill. split; [exact F1|exact F2].
  - rewrite tptrs_fill, adde_ptrs. exact Hnd.
  - rewrite mptrs_fill. simpl. by rewrite app_nil_r.
  - intros y Hy Hr. apply Hle in Hy as [->|Hy]; [done|]. by apply (ro_roots _ _ _ _ H).
  - apply ann_fill. split; [exact F3|]. exact F4.
  - eapply masks_frame; [apply (ro_masks _ _ _ _ H)| |done]. intros p Hp. apply kept_eq, Hns. by apply Hps.
  - intros y Hy. apply elem_of_routes in Hy as [Hr Hy]. apply Hle in Hy as [->|Hy]; [by exists m|]. apply (ro_netmask _ _ _ _ H), elem_of_routes. done.
Qed.

(** The route for the mask [m] and the key. *)
Definition new_route (np vp : ptr) (key : list Z) (m : leaf) : leaf := mk_leaf np vp key (lkp m) (lbit m) (lnormal m).

Lemma new_route_ok s h T M n m np vp key : radix_ok s h T M -> mask_for s h M n m -> n <= 8 * L ->
  (forall i, off <= i < 8 * L -> kept_len n <= i -> bit key i = false) ->
  let x := new_route np vp key m in
  is_route x /\ route_ok off L x /\ plen x = kept_len n /\ 0 <= plen x /\ bytes s !! lkp m = Some (mask_bytes x) /\ -257 <= lbit x < 0.
Proof.
  intros H Hm Hn Hz x. destruct (mask_leaf_rep _ _ _ _ (masks_rep _ _ _ _ _ (ro_masks _ _ _ _ H)) (mf_in _ _ _ _ _ Hm)) as (parm & m' & mn & [= <-] & _ & _ & Hk & Hb & Hmb & _).
  pose proof (mf_len _ _ _ _ _ Hm) as El. pose proof (mf_normal _ _ _ _ _ Hm) as En. pose proof (mf_key _ _ _ _ _ Hm) as Ek.
  assert (plen x = kept_len n) as Ex by exact El. unfold kept_len in *.
  split; [exact Hk|]. split; [|split; [done|]]; [|split; [|split; [|exact Hb]]].
  - split; [intros i Hi Hle; apply Hz; [done|by rewrite <-Ex]|]. simpl. rewrite En. destruct (Z.leb_spec n off) as [H0|H0]; simpl; [right|left].
    + split; [done|]. split; [done|]. by rewrite (mf_zero _ _ _ _ _ Hm H0).
    + split; [done|]. lia.
  - rewrite Ex. destruct (Z.leb_spec n off); lia.
  - rewrite Hmb, Ek. unfold mask_bytes. rewrite Ex. simpl. rewrite En. by destruct (n <=? off).
Qed.

(** No route has the prefix, if the key leaves the tree. *)
Lemma new_prefix_apart T x v z c B : wf off L (-1) T -> lkey x = v -> route_ok off L x -> ending v T = z :: c -> off <= B < 8 * L ->
  bit v B <> bit (lkey z) B -> new_prefix off x T.
Proof.
  intros Hw Ek Hx Ez HB Hne y Hy El Hag. apply Hne. pose proof (wf_route _ _ _ _ _ Hw Hy) as Hyo.
  pose proof (same_prefix x y Hx Hyo ltac:(lia) Hag) as Hall. apply elem_of_routes in Hy as [_ Hy].
  assert (y ∈ ending v T) as Hin by (eapply (ending_exact off L); [exact Hw|done|by rewrite <-Ek]).
  pose proof (wf_ending off L v _ _ Hw) as Hc. rewrite Ez in Hc, Hin. pose proof (chain_key _ _ _ y z Hc Hin ltac:(by left)) as Hyz.
  rewrite <-Ek, (Hall B HB). by apply Hyz.
Qed.

(** *** The key is not in the tree *)
Lemma ctx_entries s par C hp : ctxrep (KR L) s par C hp -> forall e, e ∈ cml C -> e.1 <> NULL.
Proof.
  revert par. induction C as [|f C IH]; intros par HC e He; [by apply not_elem_of_nil in He|]. destruct HC as [((n & _ & _ & _ & _ & _ & Hm) & _) HC].
  unfold cml in He. cbn [mbind list_bind] in He. apply elem_of_app in He as [He|He]; [|by eapply IH]. clear -Hm He. revert Hm. generalize (rn_mklist n).
  induction (fml f) as [|[q y] ml IH]; intros k Hm; [by apply not_elem_of_nil in He|]. destruct Hm as (_ & Hq & a & _ & _ & _ & _ & _ & Hm).
  apply elem_of_cons in He as [->|He]; [done|by eapply IH].
Qed.

Lemma path_differs x z C : forall lo t, wf off L lo (fill C t) -> z ∈ leaves t -> follows off x z C -> new_prefix off x (fill C t) ->
  forall f y, f ∈ C -> plen x <= fb f -> y ∈ (fml f).*2 -> plen y <> plen x.
Proof.
  induction C as [|g C IH]; intros lo t Hw Hz Hf Hnew f y Hin Hle Hy; [by apply not_elem_of_nil in Hin|].
  apply follows_cons in Hf as [[Hxz _] Hf]. change (fill (g :: C) t) with (fillf g (fill C t)) in *. apply elem_of_cons in Hin as [->|Hin].
  - eapply (entry_differs off L lo x z g); [exact Hw|apply elem_leaves_fill; by right|done|done|done|done].
  - apply wf_fillf in Hw as (_ & _ & _ & _ & _ & _ & _ & Hw & _). eapply (IH _ t Hw Hz Hf); [|exact Hin|done|done]. intros w Hw'. apply Hnew, routes_fillf. by right.
Qed.

Lemma path_top C t top b ml l r : C <> [] -> fill C t = Nd top b ml l r -> exists f C', C = f :: C' /\ fp f = top.
Proof.
  destruct C as [|f C]; [done|]. intros _. change (fill (f :: C) t) with (fillf f (fill C t)). unfold fillf. destruct (fside f); intros [= <- _ _ _ _]; eauto.
Qed.

(** The code behind [rn_insert]. *)
Definition graft_tail (h : radix_head) (np netmask : ptr) (xb xf : Z) : st state ptr :=
  do _ <- dress np netmask xb xf ;;
  do t <- get rn_parent np ;;
  do _ <- promote t np ;;
  do _ <- lift netmask (-1 - xb) (rnh_treetop h) t np ;;
  st_ret np.

(** What [rn_addroute] does to the rest of memory. *)
Record added (s s' : state) (T : tree) (np : ptr) : Prop := {
  ad_oom : oom s' = oom s; ad_brk : (brk s <= brk s')%nat; ad_bytes : bytes s' = bytes s; ad_bounded : bounded s';
  ad_nodes (p : ptr) : p <> np -> p <> S np -> p ∉ tptrs T -> nodes s' !! p = nodes s !! p }.

Lemma hung_bounded s s' np p x : hung s s' np p x -> bounded s -> bounded s'.
Proof.
  intros H [B1 B2 B3]. split; rewrite (hung_brk _ _ _ _ _ H); intros q Hq.
  - apply B1. by apply (hung_dom _ _ _ _ _ H).
  - apply B2. by rewrite <-(hung_masks _ _ _ _ _ H).
  - apply B3. by rewrite <-(hung_bytes _ _ _ _ _ H).
Qed.

(** The new leaf has its mask: memory behind [dress]. *)
Lemma graft_dressed s h T M n m np vp key xf C g u B s1 : radix_ok s h T M -> mask_for s h M n m -> n <= 8 * L -> new_pair s T M np vp key ->
  (forall i, off <= i < 8 * L -> kept_len n <= i -> bit key i = false) -> has RNF_NORMAL xf = lnormal m ->
  T = fill (C ++ [g]) u -> hung s s1 np (fp g) (rootp u) -> nodes s1 !! np = Some (bare_leaf vp np) ->
  ctxrep (KR L) s1 (rnh_treetop h) (C ++ [g; mk_frame (bit key B) (S np) B [] u]) np ->
  let x := new_route np vp key m in
  exists s2, dress np (lkp m) (lbit m) xf s1 = (ok tt, s2) /\ leaf_rep L s2 (S np) NULL x
    /\ (exists nn, nodes s2 !! np = Some nn /\ rn_mklist nn = NULL)
    /\ ctxrep (KR L) s2 (rnh_treetop h) (C ++ [g]) (S np) /\ frep (KR L) s2 (fp g) (graft (S np) B x [] u) np
    /\ (forall y, y ∈ leaves T -> same_entry s s2 y) /\ added s s2 T np /\ masks s2 = masks s.
Proof.
  intros H Hm Hn Hp Hz Hxf ET Hh Hlf Hctx x. destruct (new_route_ok s h T M n m np vp key H Hm Hn Hz) as (Hxr & Hxo & Exl & Hx0 & Hxm & Hxb).
  destruct Hp as [P1 P2 P3 [P4 P5] P6 P7]. rewrite not_elem_of_app in P4, P5.
  pose proof (hung_bytes _ _ _ _ _ Hh) as HB1. pose proof (ro_nodup _ _ _ _ H) as Hnd.
  destruct (dress_ok s1 np vp (S np) NULL (lkp m) (lbit m) xf key (lnormal m) Hlf) as (s2 & E2 & Hl2 & Hmk2 & Hs2 & M2 & B2 & K2 & O2);
    [done|done|exact Hxr|exact (proj2 Hxb)|by rewrite HB1|done|rewrite HB1; exact Hxm|].
  exists s2. split; [done|]. split; [exact Hl2|]. split; [done|].
  assert (forall p, p ∈ tptrs T -> p <> np /\ p <> S np) as Hne by (intros p Hin; split; intros ->; tauto).
  assert (ctxrep (KR L) s2 (rnh_treetop h) (C ++ [g; mk_frame (bit key B) (S np) B [] u]) np) as Hctx2.
  { eapply ctxrep_frame; [apply key_chain|exact Hctx| | |by intros k w; rewrite B2].
    - intros p Hin. apply kept_eq, Hs2. intros ->. change [g; mk_frame (bit key B) (S np) B [] u] with ([g] ++ [mk_frame (bit key B) (S np) B [] u]) in Hin.
      rewrite (assoc_L (++)), (cptrs_snoc (C ++ [g])) in Hin. unfold fptrs in Hin. simpl in Hin.
      rewrite ET, tptrs_fill in P4. rewrite elem_of_app, elem_of_cons in Hin. rewrite elem_of_app in P4. destruct Hin as [?|[?|?]]; [tauto|lia|tauto].
    - intros q _. unfold mask_kept. by rewrite M2. }
  change [g; mk_frame (bit key B) (S np) B [] u] with ([g] ++ [mk_frame (bit key B) (S np) B [] u]) in Hctx2. rewrite (assoc_L (++)) in Hctx2.
  apply ctxrep_app in Hctx2 as [Hc2 [Hf2 _]]. rewrite cpar_snoc in Hf2. split_and!; try done.
  - intros y Hy k Hk. destruct (Hne (lp y) (leaves_tptrs _ _ Hy)) as [N1 N2]. destruct (hung_mklist _ _ _ _ _ Hh (lp y) k N1 N2 Hk) as (k' & Hk' & E & _).
    exists k'. by rewrite Hs2.
  - split.
    + by rewrite O2, (hung_oom _ _ _ _ _ Hh).
    + rewrite K2, (hung_brk _ _ _ _ _ Hh). lia.
    + by rewrite B2, HB1.
    + destruct (hung_bounded _ _ _ _ _ Hh (ro_bounded _ _ _ _ H)) as [B3 B4 B5]. split; rewrite K2; intros p Hin; [apply B3|apply B4; by rewrite <-M2|apply B5; by rewrite <-B2].
      destruct (decide (p = np)) as [->|]; [by eexists|by rewrite <-Hs2].
    + intros p N1 N2 N3. rewrite Hs2 by done. apply (hung_same _ _ _ _ _ Hh); try done.
      * intros ->. apply N3. rewrite ET, tptrs_fill, cptrs_snoc. unfold fptrs. rewrite !elem_of_app, elem_of_cons. tauto.
      * intros ->. apply N3. rewrite ET, tptrs_fill, elem_of_app. right. pose proof (ro_rep _ _ _ _ H) as Hr. rewrite ET in Hr. apply gtrep_fill in Hr as [_ Hr]. by eapply (tree_root_in L (KR L)).
  - by rewrite M2, (hung_masks _ _ _ _ _ Hh).
Qed.

Lemma relisted_entry s s' ps y : relisted s s' ps -> lp y ∉ ps -> same_entry s s' y.
Proof. intros H Hy. apply same_entry_other. by apply (rl_nodes _ _ _ H). Qed.

(** Ready for the entry: memory behind [promote]. *)
Lemma graft_to_lift s s2 s3 h T M np x z C g u B ml0 u1 : radix_ok s h T M -> T = fill (C ++ [g]) u -> added s s2 T np -> masks s2 = masks s ->
  np ∉ tptrs T -> S np ∉ tptrs T -> lp x = np -> is_route x -> 0 <= plen x -> -257 <= lbit x -> oom s = [] ->
  leaf_rep L s2 (S np) NULL x -> (exists nn, nodes s2 !! np = Some nn /\ rn_mklist nn = NULL) ->
  ctxrep (KR L) s2 (rnh_treetop h) (C ++ [g]) (S np) -> (forall y, y ∈ leaves T -> same_entry s s2 y) ->
  z ∈ leaves u -> follows off x z (C ++ [g]) -> parts off L B x u -> fb g < B -> new_prefix off x T ->
  promoted_to L s2 s3 (fp g) (S np) (fb g) B x (cml (C ++ [g])) ml0 u u1 ->
  to_lift L s3 (rnh_treetop h) ((C ++ [g]) ++ [graft (S np) B x ml0 u1]) [x] x.
Proof.
  intros H ET Had Em Hnp Hsnp Ex Hxr Hx0 Hxb Hoom Hl2 Hbare Hc2 Hse Hz Hf Hpa HgB Hnew [P1 P2 P3 P4 P5 P6 P7].
  pose proof (ro_wf _ _ _ _ H) as Hw. rewrite ET in Hw. pose proof (ro_nodup _ _ _ _ H) as Hnd. apply NoDup_app in Hnd as (Hnd & _ & _).
  rewrite ET, tptrs_fill in Hnd. pose proof (ro_mnodup _ _ _ _ H) as Hmnd. rewrite ET, mptrs_fill in Hmnd. apply NoDup_app in Hmnd as (Hmn1 & Hmn2 & Hmn3).
  rewrite ET, tptrs_fill, not_elem_of_app in Hnp, Hsnp. destruct Hnp as [Hnp1 Hnp2], Hsnp as [Hs1 Hs2].
  pose proof (wf_fill_hole _ _ _ _ _ Hw) as (Hwu & _ & _). rewrite cbit_snoc in Hwu.
  assert (forall p, p ∈ cptrs (C ++ [g]) -> p ∉ S np :: tptrs u) as Hdis.
  { intros p Hp. rewrite not_elem_of_cons. split; [intros ->; done|]. apply NoDup_app in Hnd as (_ & Hd & _). by apply Hd. }
  assert (forall q, q ∈ cmptrs (C ++ [g]) -> (q < brk s2)%nat) as Hlt.
  { intros q Hq. apply (bounded_masks _ (ad_bounded _ _ _ _ Had)). pose proof (ctxrep_masks L _ _ _ _ Hc2) as Hms. rewrite Forall_forall in Hms. by apply Hms. }
  assert (lp x ∉ S np :: tptrs u) as Hxd by (rewrite Ex, not_elem_of_cons; split; [lia|done]).
  pose proof (proj1 (ann_fill _ _ _ _ _) (eq_ind _ (fun t => ann s [] (-1) t) (ro_ann _ _ _ _ H) _ ET)) as [Hac _].
  assert (same_entry s2 s3 x) as Hsx by (by eapply relisted_entry).
  split; try done.
  - destruct (ro_top _ _ _ _ H) as (ml & l & r & E). rewrite ET in E. destruct (path_top (C ++ [g]) u _ _ _ _ _ ltac:(by destruct C) E) as (f & C' & EC & Ef). rewrite EC. by exists f, (C' ++ [graft (S np) B x ml0 u1]).
  - apply ctxrep_app. split; [|split; [|done]].
    + cbn [croot graft fp]. eapply ctxrep_frame; [apply key_chain|exact Hc2| | |].
      * intros p Hp. apply kept_eq, (rl_nodes _ _ _ P4). by apply Hdis.
      * intros q Hq. unfold mask_kept. apply P5; [by apply Hlt|by apply Hmn2].
      * intros k w. by rewrite (rl_bytes _ _ _ P4).
    + rewrite cpar_snoc. cbn [croot chead]. exact P2.
  - rewrite cpar_snoc. cbn [graft fp]. split_and!; [done| |by repeat constructor]. cbn [crep chead]. split; [|done].
    eapply leaf_frame; [exact Hl2| |by intros k w; rewrite (rl_bytes _ _ _ P4)]. apply kept_eq, (rl_nodes _ _ _ P4). exact Hxd.
  - by left.
  - apply incr_app. split; [by eapply wf_incr|]. rewrite cbit_snoc. simpl. split; [done|exact I].
  - rewrite cptrs_snoc. simpl. rewrite Ex. assert ((cptrs (C ++ [g]) ++ fptrs (graft (S np) B x ml0 u1)) ++ [np] ≡ₚ np :: S np :: cptrs (C ++ [g]) ++ tptrs u) as ->.
    { unfold fptrs. cbn [graft fp fsib]. assert (tptrs u1 = tptrs u) as -> by (destruct u as [c|p b ml l r]; [by destruct P1 as [-> _]|by destruct P1 as (ml1 & -> & -> & _)]). solve_Permutation. }
    constructor; [rewrite not_elem_of_cons, not_elem_of_app; split_and!; [lia|done|done]|]. constructor; [rewrite not_elem_of_app; done|done].
  - rewrite cmptrs_snoc. unfold fmptrs. cbn [graft fml fsib]. apply NoDup_app. split_and!; [done| |done]. intros q Hq Hq'. apply P7 in Hq' as [?|?]; [by apply (Hmn2 q)|]. apply Hlt in Hq. lia.
  - intros f y Hin Hle Hy. apply elem_of_app in Hin as [Hin|Hin].
    + eapply (path_differs x z (C ++ [g]) (-1) u); [done|done|done|by rewrite <-ET|exact Hin|done|done].
    + apply list_elem_of_singleton in Hin as ->. cbn [graft fb fml] in *. destruct Hpa as (HBb & Hub & Hpz). intros El.
      destruct (promoted_wf off L (fb g) B u ml0 u1 Hwu HgB ltac:(by destruct u) P1) as (_ & _ & Hml). apply Hml in Hy as [Hy _]. apply elem_of_routes in Hy as [Hyr Hy].
      eapply Hnew; [apply elem_of_routes; split; [exact Hyr|rewrite ET; apply elem_leaves_fill; by right]|done|].
      eapply agree_sub; [apply (parts_all off L (fb g) B x u Hwu (conj HBb (conj Hub Hpz)) y Hy)|lia|lia].
  - apply annc_app. split; [eapply annc_frame; [exact Hac| |done]|].
    + intros f y Hin Hy k Hk. assert (y ∈ leaves T) as HyT by (rewrite ET; apply elem_leaves_fill; left; eauto).
      destruct (Hse y HyT k Hk) as (k2 & Hk2 & E2). destruct (relisted_entry _ _ _ y P4) with k2 as (k3 & Hk3 & E3).
      { apply Hdis. unfold cptrs. apply list_elem_of_bind. exists f. split; [unfold fptrs; right; by apply leaves_tptrs|done]. } { done. }
      exists k3. split; [done|]. congruence.
    + cbn [annc graft fml fsib fb]. split; [exact P3|done].
  - intros y Hy Hne. apply list_elem_of_singleton in Hy as ->. done.
  - destruct Hbare as (nn & Hnn & Hmk). rewrite <-Ex in Hnn. destruct (Hsx nn Hnn) as (k & Hk & E). exists k. split; [done|]. congruence.
  - by rewrite (rl_oom _ _ _ P4), (ad_oom _ _ _ _ Had).
  - apply (rl_bounded _ _ _ P4), (ad_bounded _ _ _ _ Had).
Qed.

Lemma NoDup_graft (C : list frame) (f : frame) (t u : tree) (np : ptr) (M : tree) : NoDup (tptrs (fill C u) ++ tptrs M) -> np ∉ tptrs (fill C u) ++ tptrs M -> S np ∉ tptrs (fill C u) ++ tptrs M ->
  fp f = S np -> tptrs (fsib f) = tptrs u -> NoDup ((cptrs (C ++ [f]) ++ [np]) ++ tptrs M).
Proof.
  intros Hnd H1 H2 Ef Es. rewrite cptrs_snoc. unfold fptrs. rewrite Ef, Es.
  assert (((cptrs C ++ S np :: tptrs u) ++ [np]) ++ tptrs M ≡ₚ np :: S np :: (cptrs C ++ tptrs u) ++ tptrs M) as -> by solve_Permutation.
  rewrite tptrs_fill in Hnd, H1, H2. constructor; [|by constructor]. rewrite not_elem_of_cons. split; [lia|done].
Qed.

Lemma graft_case s h T M n m np vp key xf z c B C g u s1 : radix_ok s h T M -> mask_for s h M n m -> n <= 8 * L -> new_pair s T M np vp key ->
  oom s = [] -> (forall i, off <= i < 8 * L -> kept_len n <= i -> bit key i = false) -> has RNF_NORMAL xf = lnormal m ->
  ending key T = z :: c -> T = fill (C ++ [g]) u -> off <= B < 8 * L -> before_bit key B (C ++ [g]) -> ending key u = z :: c ->
  match tbit u with None => True | Some b => B < b end -> agree off B key (lkey z) -> bit key B <> bit (lkey z) B ->
  hung s s1 np (fp g) (rootp u) -> nodes s1 !! np = Some (bare_leaf vp np) ->
  ctxrep (KR L) s1 (rnh_treetop h) (C ++ [g; mk_frame (bit key B) (S np) B [] u]) np ->
  let x := new_route np vp key m in
  exists s' T', graft_tail h np (lkp m) (lbit m) xf s1 = (ok np, s') /\ radix_ok s' h T' M /\ added s s' T np
    /\ (forall y, y ∈ leaves T' <-> y = x \/ y ∈ leaves T) /\ new_prefix off x T.
Proof.
  intros H Hm Hn Hp Hoom Hz Hxf Ez ET HB Hbb Ezu Hub HagB HneB Hh Hlf Hctx x.
  destruct (new_route_ok s h T M n m np vp key H Hm Hn Hz) as (Hxr & Hxo & Exl & Hx0 & Hxm & Hxb). fold x in Hxr, Hxo, Exl, Hx0, Hxm, Hxb.
  destruct (graft_dressed s h T M n m np vp key xf C g u B s1) as (s2 & E2 & Hl2 & Hbare & Hc2 & Hf2 & Hse & Had & Em2); try done. fold x in Hl2, Hf2.
  pose proof (ro_wf _ _ _ _ H) as Hw. pose proof Hw as Hw'. rewrite ET in Hw'. pose proof (wf_fill_hole _ _ _ _ _ Hw') as (Hwu & _ & _). rewrite cbit_snoc in Hwu.
  assert (z ∈ leaves u) as Hzu by (apply (ending_in key); rewrite Ezu; by left).
  assert (fb g < B) as HgB by (apply Forall_app in Hbb as [_ Hbb]; by apply Forall_cons in Hbb as [[_ ?] _]).
  assert (follows off x z (C ++ [g])) as Hfo.
  { intros f Hf. unfold before_bit in Hbb. rewrite Forall_forall in Hbb. destruct (Hbb f Hf) as [? ?]. split; [|done]. eapply agree_sub; [exact HagB|lia|lia]. }
  assert (parts off L B x u) as Hpa by (split; [done|]; split; [by destruct u|]; by exists z).
  assert (new_prefix off x T) as Hnew by (eapply (new_prefix_apart T x key z c B); done).
  pose proof Hp as [P1 P2 P3 [P4 P5] P6 P7]. pose proof P4 as P4'. pose proof P5 as P5'. rewrite not_elem_of_app in P4', P5'.
  pose proof (ro_nodup _ _ _ _ H) as Hnd. pose proof Hnd as Hnd1. apply NoDup_app in Hnd1 as (Hnd1 & Hndd & _). rewrite ET, tptrs_fill in Hnd1. apply NoDup_app in Hnd1 as (_ & _ & Hndu).
  pose proof (ro_mnodup _ _ _ _ H) as Hmnd. rewrite ET, mptrs_fill in Hmnd. apply NoDup_app in Hmnd as (_ & _ & Hmnu).
  assert (forall p, p ∈ tptrs u -> p ∈ tptrs T) as HuT by (intros p Hin; rewrite ET, tptrs_fill, elem_of_app; by right).
  destruct (promote_ok off L ltac:(lia) s2 (fp g) (S np) (fb g) B x (cml (C ++ [g])) u Hf2) as (s3 & ml0 & u1 & E3 & Hpt); try done.
  { intros Hin. apply (proj1 P5'). by apply HuT. } { intros Hin. apply (proj1 P4'). by apply HuT. }
  { by eapply ctx_entries. }
  { pose proof (proj1 (ann_fill _ _ _ _ _) (eq_ind _ (fun t => ann s [] (-1) t) (ro_ann _ _ _ _ H) _ ET)) as [_ Hau]. rewrite cbit_snoc in Hau.
    eapply ann_frame; [exact Hau| |done]. intros y Hy. apply Hse. rewrite ET. apply elem_leaves_fill. by right. }
  { by rewrite (ad_oom _ _ _ _ Had). } { apply (ad_bounded _ _ _ _ Had). }
  destruct (lift_ok L s3 (rnh_treetop h) ((C ++ [g]) ++ [graft (S np) B x ml0 u1]) [x] x (lkp m)) as (s4 & q & E4 & Hli); [exact Hxr| |].
  { eapply graft_to_lift; try done; tauto || lia || idtac. }
  rewrite cpar_snoc in E4. cbn [graft fp] in E4.
  destruct (add_graft off L (C ++ [g]) x z q B u ml0 u1 (S np)) as [Hgr Hw4]; try done; [by rewrite cbit_snoc|by rewrite cbit_snoc; apply (pt_tree _ _ _ _ _ _ _ _ _ _ _ _ Hpt)|by rewrite <-ET|].
  rewrite decide_True in Hgr, Hw4 by done.
  pose proof (leaves_graft (fb g) (C ++ [g]) _ x (S np) B u ml0 u1 (pt_tree _ _ _ _ _ _ _ _ _ _ _ _ Hpt) Hgr) as Hle. rewrite <-ET in Hle.
  pose proof (pt_relisted _ _ _ _ _ _ _ _ _ _ _ _ Hpt) as R3. pose proof (lf_relisted _ _ _ _ _ _ _ _ Hli) as R4.
  assert (added s s4 T np) as Had4.
  { split.
    - by rewrite (rl_oom _ _ _ R4), (rl_oom _ _ _ R3), (ad_oom _ _ _ _ Had).
    - pose proof (rl_brk _ _ _ R4). pose proof (rl_brk _ _ _ R3). pose proof (ad_brk _ _ _ _ Had). lia.
    - by rewrite (rl_bytes _ _ _ R4), (rl_bytes _ _ _ R3), (ad_bytes _ _ _ _ Had).
    - apply (rl_bounded _ _ _ R4), (rl_bounded _ _ _ R3), (ad_bounded _ _ _ _ Had).
    - intros p N1 N2 N3. rewrite (rl_nodes _ _ _ R4), (rl_nodes _ _ _ R3); [by apply (ad_nodes _ _ _ _ Had)| |].
      + rewrite not_elem_of_cons. split; [done|]. intros Hin. by apply N3, HuT.
      + rewrite not_elem_of_cons. split; [done|]. intros Hin. apply list_elem_of_In, in_map_iff in Hin as (f & <- & Hin). apply list_elem_of_In, elem_of_app in Hin as [Hin|Hin].
        * apply N3. rewrite ET, tptrs_fill, elem_of_app. left. unfold cptrs. apply list_elem_of_bind. exists f. split; [by left|done].
        * apply list_elem_of_singleton in Hin as ->. by apply N2. }
  exists s4, (fill (adde (-1) (q, x) ((C ++ [g]) ++ [graft (S np) B x ml0 u1])) (Lf [x])). split_and!; [| |done|done|done].
  - unfold graft_tail. rewrite (st_bind_ok _ _ _ _ _ E2). destruct Hl2 as [(xn & Hxn & _ & _ & Hxp & _) _ _ _ _ _ _ _]. simpl in Hxn. rstep. rewrite Hxp.
    rewrite (st_bind_ok _ _ _ _ _ E3). replace (-1 - lbit m) with (plen x) by done. by rewrite (st_bind_ok _ _ _ _ _ E4).
  - destruct (ro_top _ _ _ _ H) as (ml & l & r & Etop).
    eapply (rebuild s s3 s4 h T M _ [x] x q m (np :: S np :: tptrs T)); try done.
    + by destruct C.
    + rewrite ET in Etop. destruct (fill_top (C ++ [g]) u _ _ _ _ _ (fillf (graft (S np) B x ml0 u1) (Lf [x])) ltac:(by destruct C) Etop) as (l' & r' & E).
      exists (Lf [x]), ml, l', r'. by rewrite fill_snoc.
    + eapply (NoDup_graft (C ++ [g]) _ (Lf [x]) u np M); [by rewrite <-ET|by rewrite <-ET|by rewrite <-ET|done|].
      pose proof (pt_tree _ _ _ _ _ _ _ _ _ _ _ _ Hpt) as Htr. cbn [graft fsib]. destruct u as [cc|p b ml' l' r']; [by destruct Htr as [-> _]|by destruct Htr as (ml1 & -> & -> & _)].
    + apply (mf_in _ _ _ _ _ Hm).
    + intros p Hin. rewrite !not_elem_of_cons in Hin. apply (ad_nodes _ _ _ _ Had4); tauto.
    + intros p Hin. rewrite !not_elem_of_cons. split_and!; [intros ->; tauto|intros ->; tauto|]. intros Hin'. by apply (Hndd p).
    + intros k w. by rewrite (ad_bytes _ _ _ _ Had4).
    + apply (ad_bounded _ _ _ _ Had4).
Qed.
End Addroute.
End RadixAddroute.
