(* ===== verification/RadixTable.v ===== *)
(** * The table after [rn_addroute]

    The two ways of [rn_addroute] of [alpha/al_radix.c] together: a prefix is
    added to the routes of a well-formed table, unless it is one of them, and
    the table is well-formed afterwards. *)

From Stdlib Require Import ZArith Lia Bool Sorted.
From stdpp Require Import base tactics option gmap list list_numbers.
From S2P Require Import Prelude Radix RadixShape RadixRep RadixMatch RadixDec RadixCtx RadixAdd RadixInsert RadixMask RadixOrder RadixRoute RadixLift RadixDup RadixAddroute.

Open Scope Z_scope.

Module RadixTable.
Import Radix RadixShape RadixRep RadixMatch RadixDec RadixCtx RadixAdd RadixInsert RadixMask RadixOrder RadixRoute RadixLift RadixDup RadixAddroute.

Section Table.
Context (off L o : Z) (Ho : off = 8 * o) (Hol : 1 <= o < L) (HL : L <= 32).

(** ** The key is in the tree *)

(** The place in the chain of the key. *)
Lemma dup_found s h T M n m C z c : radix_ok off L s h T M -> mask_for off s h M n m -> n <= 8 * L -> T = fill C (Lf (z :: c)) ->
  exists r, dup_place (S (size (nodes s))) (lkp m) (lbit m) (lp z) (lp z) s = (ok r, s) /\
    match r with
    | None => exists y, y ∈ z :: c /\ is_route y /\ plen y = kept_len off n
    | Some (t, tt_) => exists pre post, z :: c = pre ++ post /\ tt_ = chead post /\ t = lastp (lp z) pre
        /\ (forall y, y ∈ pre -> is_route y -> kept_len off n < plen y) /\ match post with [] => True | y :: _ => is_route y /\ plen y < kept_len off n end
    end.
Proof.
  intros H Hm Hn ET. pose proof (ro_rep _ _ _ _ _ _ H) as Hr. pose proof (gtrep_ptrs L (KR L) _ _ _ Hr) as Hp. pose proof (ro_nodup _ _ _ _ _ _ H) as Hnd. apply NoDup_app in Hnd as (Hnd & _ & _).
  pose proof (size_bound _ _ Hnd Hp) as Hsz. rewrite ET in Hr. apply gtrep_fill in Hr as [_ Hc]. pose proof Hc as (_ & Hcr & _).
  destruct (mask_leaf_rep _ _ _ _ (masks_rep _ _ _ _ _ (ro_masks _ _ _ _ _ _ H)) (mf_in _ _ _ _ _ _ Hm)) as (parm & m' & mn & [= <-] & _ & _ & Hmk & _ & Hmb & _).
  rewrite (mf_key _ _ _ _ _ _ Hm) in Hmb. replace (lbit m) with (-1 - kept_len off n) by (rewrite <-(mf_len _ _ _ _ _ _ Hm); unfold plen; lia).
  eapply (dup_place_ok L s (lkp m) (kept_len off n) Hmk Hmb ltac:(unfold kept_len; destruct (Z.leb_spec n off); lia) (z :: c) _ _ (lp z) Hcr).
  - assert (length (tptrs T) = length (cptrs C) + length (z :: c))%nat as E by (rewrite ET, (Permutation_length (tptrs_fill C _)), length_app; simpl; by rewrite length_map). lia.
  - intros y Hy Hyr. destruct (chain_leaf L _ _ _ y Hc Hy) as (par & d & Hl). eapply (dup_conditions off L o Ho Hol HL); [exact H|exact Hm| |exact Hl|done].
    apply elem_of_routes. split; [done|]. rewrite ET. apply elem_leaves_fill. by right.
Qed.

Lemma dup_new T x pre post v : wf off L (-1) T -> route_ok off L x -> lkey x = v -> ending v T = pre ++ post ->
  (forall y, y ∈ pre -> is_route y -> plen x < plen y) -> match post with [] => True | y :: _ => is_route y /\ plen y < plen x end -> new_prefix off x T.
Proof.
  intros Hw Hx Ek Ez Hpre Hpost y Hy El Hag. pose proof (wf_route _ _ _ _ _ Hw Hy) as Hyo. pose proof (same_prefix off L x y Hx Hyo ltac:(lia) Hag) as Hall.
  apply elem_of_routes in Hy as [Hyr Hy]. assert (y ∈ ending v T) as Hin by (eapply (ending_exact off L); [exact Hw|done|by rewrite <-Ek]).
  pose proof (wf_ending off L v _ _ Hw) as (w & rest & E & Hrr & Hs & _). rewrite Ez in Hin, Hs, E. apply elem_of_app in Hin as [Hin|Hin]; [pose proof (Hpre y Hin Hyr); lia|].
  destruct post as [|p post]; [by apply not_elem_of_nil in Hin|]. destruct Hpost as [Hpr Hpl]. apply elem_of_cons in Hin as [->|Hin]; [lia|].
  rewrite filter_app, filter_cons_True in Hs by done. apply strongly_app in Hs as [_ Hs]. apply StronglySorted_inv in Hs as [_ Hs]. rewrite Forall_forall in Hs.
  specialize (Hs y ltac:(by apply list_elem_of_filter)). unfold longer in Hs. lia.
Qed.
Lemma elem_mid {A} (pre post : list A) x y : y ∈ pre ++ x :: post <-> y = x \/ y ∈ pre ++ post.
Proof. rewrite !elem_of_app, elem_of_cons. tauto. Qed.

(** Ready for the entry: memory behind [dress]. *)
Lemma dup_to_lift s s2 h T M np x z c C g pre post : radix_ok off L s h T M -> T = fill (C ++ [g]) (Lf (z :: c)) -> z :: c = pre ++ post -> added s s2 T np ->
  (forall y, y ∈ leaves T -> same_entry s s2 y) -> np ∉ tptrs T -> lp x = np -> is_route x -> 0 <= plen x -> -257 <= lbit x -> oom s = [] ->
  (exists nn, nodes s2 !! np = Some nn /\ rn_mklist nn = NULL) ->
  ctxrep (KR L) s2 (rnh_treetop h) (C ++ [g]) (chead (pre ++ x :: post)) -> crep L s2 (fp g) (pre ++ x :: post) ->
  follows off x z (C ++ [g]) -> new_prefix off x T -> to_lift L s2 (rnh_treetop h) (C ++ [g]) (pre ++ x :: post) x.
Proof.
  intros H ET Ec Had Hse Hnp Ex Hxr Hx0 Hxb Hoom Hbare HC Hc Hf Hnew.
  pose proof (ro_wf _ _ _ _ _ _ H) as Hw. rewrite ET in Hw. pose proof (ro_nodup _ _ _ _ _ _ H) as Hnd. apply NoDup_app in Hnd as (Hnd & _ & _).
  rewrite ET, tptrs_fill in Hnd. rewrite ET, tptrs_fill in Hnp. cbn [tptrs] in Hnd, Hnp. pose proof (ro_mnodup _ _ _ _ _ _ H) as Hmnd. rewrite ET, mptrs_fill in Hmnd. apply NoDup_app in Hmnd as (Hmn1 & _ & _).
  pose proof (ro_rep _ _ _ _ _ _ H) as Hr. rewrite ET in Hr. apply gtrep_fill in Hr as [_ (_ & _ & Hlb)].
  pose proof (proj1 (ann_fill _ _ _ _ _) (eq_ind _ (fun t => ann s [] (-1) t) (ro_ann _ _ _ _ _ _ H) _ ET)) as [Hac Hal].
  assert (forall y, y ∈ z :: c -> y ∈ leaves T) as HcT by (intros y Hy; rewrite ET; apply elem_leaves_fill; by right).
  split; try done.
  - destruct (ro_top _ _ _ _ _ _ H) as (ml & l & r & E). rewrite ET in E. exact (path_top (C ++ [g]) _ _ _ _ _ _ ltac:(by destruct C) E).
  - rewrite cpar_snoc. split_and!; [by destruct pre|done|]. rewrite Forall_forall in Hlb |- *. intros y Hy. apply elem_mid in Hy as [->|Hy]; [done|]. apply Hlb. by rewrite Ec.
  - apply elem_mid. by left.
  - by eapply wf_incr.
  - rewrite map_app. simpl. rewrite Ex. assert (cptrs (C ++ [g]) ++ map lp pre ++ np :: map lp post ≡ₚ np :: cptrs (C ++ [g]) ++ map lp (z :: c)) as ->.
    { rewrite Ec, map_app. solve_Permutation. }
    by constructor.
  - intros f y Hin Hle Hy. eapply (path_differs off L x z (C ++ [g]) (-1) (Lf (z :: c))); [done|by left|done|by rewrite <-ET|exact Hin|done|done].
  - eapply annc_frame; [exact Hac| |done]. intros f y Hin Hy. apply Hse. rewrite ET. apply elem_leaves_fill. left. eauto.
  - intros y Hy Hne Hyr. apply elem_mid in Hy as [?|Hy]; [done|]. rewrite <-Ec in Hy. destruct (Hal y Hy Hyr) as (k & Hk & Hm). destruct (Hse y (HcT y Hy) k Hk) as (k' & Hk' & E).
    exists k'. split; [done|]. rewrite E. exact Hm.
  - by rewrite Ex.
  - by rewrite (ad_oom _ _ _ _ Had).
  - apply (ad_bounded _ _ _ _ Had).
Qed.

(** The code for a key that is in the tree. *)
Definition dup_tail (h : radix_head) (np v netmask : ptr) (xb xf : Z) (saved : ptr) : st state ptr :=
  do f <- fuel ;;
  do place_ <- dup_place f netmask xb saved saved ;;
  match place_ with
  | None => st_ret NULL
  | Some (t, tt_) =>
      do sv <- dup_link v saved t tt_ np ;;
      do _ <- dress np netmask xb xf ;;
      do t <- get rn_parent sv ;;
      do _ <- lift netmask (-1 - xb) (rnh_treetop h) t np ;;
      st_ret np
  end.

Lemma linked_bounded s s' np ps : linked s s' np ps -> bounded s -> bounded s'.
Proof.
  intros H [B1 B2 B3]. split; rewrite (lk_brk _ _ _ _ H); intros q Hq.
  - apply B1. by apply (lk_dom _ _ _ _ H).
  - apply B2. by rewrite <-(lk_masks _ _ _ _ H).
  - apply B3. by rewrite <-(lk_bytes _ _ _ _ H).
Qed.
(** The new leaf is in the chain with its mask. *)
Lemma dup_dressed s h T M n m np vp key xf z c C g pre post : radix_ok off L s h T M -> mask_for off s h M n m -> n <= 8 * L -> new_pair L s T M np vp key ->
  (forall i, off <= i < 8 * L -> kept_len off n <= i -> bit key i = false) -> has RNF_NORMAL xf = lnormal m -> T = fill (C ++ [g]) (Lf (z :: c)) -> z :: c = pre ++ post ->
  let x := new_route np vp key m in
  exists s1 sv s2, dup_link vp (lp z) (lastp (lp z) pre) (chead post) np s = (ok sv, s1) /\ dress np (lkp m) (lbit m) xf s1 = (ok tt, s2)
    /\ (exists nn, nodes s2 !! sv = Some nn /\ rn_parent nn = fp g) /\ (exists nn, nodes s2 !! np = Some nn /\ rn_mklist nn = NULL)
    /\ ctxrep (KR L) s2 (rnh_treetop h) (C ++ [g]) (chead (pre ++ x :: post)) /\ crep L s2 (fp g) (pre ++ x :: post)
    /\ (forall y, y ∈ leaves T -> same_entry s s2 y) /\ added s s2 T np.
Proof.
  intros H Hm Hn Hp Hz Hxf ET Ec x. destruct (new_route_ok off L o Ho Hol s h T M n m np vp key H Hm Hn Hz) as (Hxr & Hxo & Exl & Hx0 & Hxm & Hxb). fold x in Hxr, Hxo, Exl, Hx0, Hxm, Hxb.
  destruct Hp as [P1 P2 P3 [P4 P5] P6 P7]. rewrite not_elem_of_app in P4, P5. pose proof (ro_nodup _ _ _ _ _ _ H) as Hnd. apply NoDup_app in Hnd as (Hnd & _ & _).
  pose proof (ro_rep _ _ _ _ _ _ H) as Hr. rewrite ET in Hr. apply gtrep_fill in Hr as [HC (_ & Hc & _)]. rewrite cpar_snoc in Hc.
  assert (forall p, p ∈ fp g :: map lp (z :: c) -> p ∈ tptrs T) as HpT.
  { intros p Hp. rewrite ET, tptrs_fill, cptrs_snoc. unfold fptrs. cbn [tptrs]. rewrite !elem_of_app, elem_of_cons. apply elem_of_cons in Hp. tauto. }
  destruct (dup_linked L s (rnh_treetop h) C g z c pre post vp np HC Hc Ec P1) as (s1 & sv & par & d & E1 & Hn1 & Hl & Hnext).
  { constructor; [|rewrite ET, tptrs_fill in Hnd; exact Hnd]. destruct P4 as [P4 _]. rewrite ET, tptrs_fill in P4. exact P4. }
  pose proof Hl as [K1 K2 K3 K4 K5 K6 K7].
  destruct (dress_ok L s1 np vp par d (lkp m) (lbit m) xf key (lnormal m) Hn1) as (s2 & E2 & Hl2 & Hmk2 & Hs2 & M2 & B2 & Kk2 & O2);
    [done|done|exact Hxr|exact (proj2 Hxb)|by rewrite K5|done|rewrite K5; exact Hxm|].
  destruct (Hnext s2 x eq_refl Hl2 Hs2 M2 B2) as (HC2 & Hc2 & Hpar). exists s1, sv, s2.
  split; [done|]. split; [done|]. split; [done|]. split; [done|]. split; [done|]. split; [done|]. split.
  - intros y Hy k Hk. assert (lp y <> np) as Hne by (intros E; apply (proj1 P4); rewrite <-E; by apply leaves_tptrs). destruct (K2 _ k Hne Hk) as (k' & Hk' & Em & _).
    exists k'. rewrite Hs2 by done. done.
  - split.
    + by rewrite O2, K7.
    + rewrite Kk2, K6. lia.
    + by rewrite B2, K5.
    + destruct (linked_bounded _ _ _ _ Hl (ro_bounded _ _ _ _ _ _ H)) as [B3 B4 B5]. split; rewrite Kk2; intros p Hin; [apply B3|apply B4; by rewrite <-M2|apply B5; by rewrite <-B2].
      destruct (decide (p = np)) as [->|]; [by eexists|by rewrite <-Hs2].
    + intros p N1 N2 N3. rewrite Hs2 by done. apply K1; [done|]. intros Hin. by apply N3, HpT.
Qed.

Lemma dup_case s h T M n m np vp key xf z c : radix_ok off L s h T M -> mask_for off s h M n m -> n <= 8 * L -> new_pair L s T M np vp key ->
  oom s = [] -> (forall i, off <= i < 8 * L -> kept_len off n <= i -> bit key i = false) -> has RNF_NORMAL xf = lnormal m ->
  ending key T = z :: c -> agree off (8 * L) key (lkey z) ->
  let x := new_route np vp key m in
  dup_tail h np vp (lkp m) (lbit m) xf (lp z) s = (ok NULL, s) /\ (exists y, y ∈ routes T /\ plen y = plen x /\ agree off (8 * L) (lkey x) (lkey y))
  \/ exists s' T', dup_tail h np vp (lkp m) (lbit m) xf (lp z) s = (ok np, s') /\ radix_ok off L s' h T' M /\ added s s' T np
    /\ (forall y, y ∈ leaves T' <-> y = x \/ y ∈ leaves T) /\ new_prefix off x T.
Proof.
  intros H Hm Hn Hp Hoom Hz Hxf Ez Hag x. destruct (ending_path key T) as (C & ET & HC). rewrite Ez in ET.
  destruct (new_route_ok off L o Ho Hol s h T M n m np vp key H Hm Hn Hz) as (Hxr & Hxo & Exl & Hx0 & Hxm & Hxb). fold x in Hxr, Hxo, Exl, Hx0, Hxm, Hxb.
  pose proof (ro_wf _ _ _ _ _ _ H) as Hw. pose proof Hw as Hw'. rewrite ET in Hw'. pose proof (wf_fill_hole _ _ _ _ _ Hw') as (Hwc & HCb & _).
  unfold dup_tail. rewrite (st_bind_ok _ _ _ _ _ (eq_refl (fuel s))).
  destruct (dup_found s h T M n m C z c H Hm Hn ET) as (r & Er & Hr). rewrite (st_bind_ok _ _ _ _ _ Er). destruct r as [[t tt_]|].
  2:{ left. split; [done|]. destruct Hr as (y & Hy & Hyr & Hyl). exists y. split; [apply elem_of_routes; split; [done|rewrite ET; apply elem_leaves_fill; by right]|]. split; [lia|].
    eapply agree_trans; [exact Hag|]. eapply chain_key; [exact Hwc|by left|done]. }
  right. destruct Hr as (pre & post & Ec & -> & -> & Hpre & Hpost). rewrite <-Exl in Hpost. setoid_rewrite <-Exl in Hpre.
  destruct C as [|g C _] using rev_ind; [destruct (ro_top _ _ _ _ _ _ H) as (? & ? & ? & E); rewrite ET in E; done|].
  destruct (dup_dressed s h T M n m np vp key xf z c C g pre post) as (s1 & sv & s2 & E1 & E2 & (sn & Hsn & Esn) & Hbare & HC2 & Hc2 & Hse & Had); try done. fold x in HC2, Hc2.
  assert (new_prefix off x T) as Hnew by (eapply (dup_new T x pre post key); [done|done|done|by rewrite Ez|done|done]).
  assert (follows off x z (C ++ [g])) as Hfo.
  { intros f Hf. rewrite Forall_forall in HC. split; [|by apply HC]. eapply agree_sub; [exact Hag|lia|]. clear -Hw' Hf. revert Hw' Hf. generalize (-1).
    induction (C ++ [g]) as [|k K IH]; intros lo Hw Hf; [by apply not_elem_of_nil in Hf|]. change (fill (k :: K) (Lf (z :: c))) with (fillf k (fill K (Lf (z :: c)))) in Hw.
    apply wf_fillf in Hw as (_ & Hb & _ & _ & _ & _ & _ & Hw & _). apply elem_of_cons in Hf as [->|Hf]; [lia|by eapply IH]. }
  pose proof Hp as [_ _ _ [P4 P5] _ _]. pose proof P4 as P4'. rewrite not_elem_of_app in P4'. pose proof (ro_nodup _ _ _ _ _ _ H) as Hnd. pose proof Hnd as Hnd1. apply NoDup_app in Hnd1 as (_ & Hndd & _).
  assert (to_lift L s2 (rnh_treetop h) (C ++ [g]) (pre ++ x :: post) x) as Htl.
  { eapply (dup_to_lift s s2 h T M np x z c C g pre post); try done; tauto || lia || idtac. }
  destruct (lift_ok L s2 (rnh_treetop h) (C ++ [g]) (pre ++ x :: post) x (lkp m) Hxr Htl) as (s3 & q & E3 & Hli). rewrite cpar_snoc in E3.
  assert (insc x (z :: c) = pre ++ x :: post) as Ei.
  { rewrite Ec. apply insc_split; [done| |done]. rewrite <-Ec. destruct Hwc as (w & rest & [= <- <-] & Hrt & _). exact Hrt. }
  destruct (add_dup off L (C ++ [g]) x z q (z :: c)) as [Hgr Hw3]; try done; [lia|by left|by rewrite <-ET|]. rewrite Ei in Hw3.
  pose proof (lf_relisted _ _ _ _ _ _ _ _ Hli) as R3.
  exists s3, (fill (adde (-1) (q, x) (C ++ [g])) (Lf (pre ++ x :: post))).
  assert (forall y, y ∈ leaves (fill (adde (-1) (q, x) (C ++ [g])) (Lf (pre ++ x :: post))) <-> y = x \/ y ∈ leaves T) as Hle.
  { intros y. rewrite (leaves_grow _ _ _ _ _ Hgr), ET, !elem_leaves_fill. cbn [leaves]. rewrite elem_mid, <-Ec. tauto. }
  assert (added s s3 T np) as Had3.
  { split.
    - by rewrite (rl_oom _ _ _ R3), (ad_oom _ _ _ _ Had).
    - pose proof (rl_brk _ _ _ R3). pose proof (ad_brk _ _ _ _ Had). lia.
    - by rewrite (rl_bytes _ _ _ R3), (ad_bytes _ _ _ _ Had).
    - apply (rl_bounded _ _ _ R3), (ad_bounded _ _ _ _ Had).
    - intros p N1 N2 N3. rewrite (rl_nodes _ _ _ R3); [by apply (ad_nodes _ _ _ _ Had)|]. rewrite not_elem_of_cons. split; [done|].
      intros Hin. apply N3. rewrite ET, tptrs_fill, elem_of_app. left. apply list_elem_of_In, in_map_iff in Hin as (f & <- & Hin). apply list_elem_of_In in Hin.
      unfold cptrs. apply list_elem_of_bind. exists f. split; [by left|done]. }
  split_and!; [| |done|done|done].
  - rewrite (st_bind_ok _ _ _ _ _ E1), (st_bind_ok _ _ _ _ _ E2). rstep. rewrite Esn. replace (-1 - lbit m) with (plen x) by done. by rewrite (st_bind_ok _ _ _ _ _ E3).
  - destruct (ro_top _ _ _ _ _ _ H) as (ml & l & r & Etop).
    eapply (rebuild off L s s2 s3 h T M _ (pre ++ x :: post) x q m (np :: S np :: tptrs T)); try done.
    + by destruct C.
    + rewrite ET in Etop. eauto.
    + apply NoDup_app in Hnd as (Hn1 & _ & Hn2). apply NoDup_app. split_and!; [apply (tl_nodup _ _ _ _ _ _ Htl)| |done].
      intros p Hin Hin'. assert (p = np \/ p ∈ tptrs T) as [->|HpT]; [|tauto|by apply (Hndd p)].
      rewrite ET, tptrs_fill, elem_of_app. cbn [tptrs]. rewrite Ec. apply elem_of_app in Hin as [?|Hin]; [tauto|]. rewrite map_app in Hin |- *. simpl in Hin. apply elem_mid in Hin. tauto.
    + apply (mf_in _ _ _ _ _ _ Hm).
    + intros p Hin. rewrite !not_elem_of_cons in Hin. apply (ad_nodes _ _ _ _ Had3); tauto.
    + intros p Hin. rewrite !not_elem_of_cons. rewrite not_elem_of_app in P5. split_and!; [intros ->; tauto|intros ->; tauto|]. intros Hin'. by apply (Hndd p).
    + intros k w. by rewrite (ad_bytes _ _ _ _ Had3).
    + apply (ad_bounded _ _ _ _ Had3).
Qed.
(** ** Both ways *)

(** The rest of memory. *)
Record grown (s s' : state) (T M : tree) (np : ptr) : Prop := {
  gr_oom : oom s' = oom s; gr_brk : (brk s <= brk s')%nat; gr_bytes : bytes_kept s s';
  gr_nodes (p : ptr) : (p < brk s)%nat -> p <> np -> p <> S np -> p ∉ tptrs T -> p ∉ tptrs M -> nodes s' !! p = nodes s !! p }.

Lemma new_pair_masks s s' T M M' np vp key : bounded s -> masks_grown s s' M M' -> new_pair L s T M np vp key -> new_pair L s' T M' np vp key.
Proof.
  intros Hb [G1 G2 G3 G4 G5 G6 G7 G8] [P1 P2 P3 [P4 P5] P6 P7]. rewrite not_elem_of_app in P4, P5.
  pose proof (bounded_nodes _ Hb np ltac:(by eexists)) as B1. pose proof (bounded_nodes _ Hb (S np) ltac:(by eexists)) as B2. split; try done.
  - rewrite G6; tauto.
  - rewrite G6; tauto.
  - rewrite !not_elem_of_app. split_and!; try tauto; intros Hin; apply G7 in Hin as [?|?]; tauto || lia.
  - by apply G5.
Qed.

Lemma mask_node s h T M n m : radix_ok off L s h T M -> mask_for off s h M n m -> lp m <> NULL /\ lkp m <> NULL /\ exists mn, nodes s !! lp m = Some mn
  /\ rn_u mn = Leaf_ (lkp m) NULL NULL /\ rn_bit mn = lbit m /\ has RNF_NORMAL (rn_flags mn) = lnormal m.
Proof.
  intros H Hm. destruct (mask_leaf_rep _ _ _ _ (masks_rep _ _ _ _ _ (ro_masks _ _ _ _ _ _ H)) (mf_in _ _ _ _ _ _ Hm)) as (parm & m' & mn & [= <-] & ? & _ & ? & _ & _ & _ & _ & Hn & ? & ? & _ & ?).
  split_and!; try done. by exists mn.
Qed.

Lemma st_bind_ext {S A B} (c : st S A) (f g : A -> st S B) s : (forall a s, f a s = g a s) -> st_bind c f s = st_bind c g s.
Proof. intros H. unfold st_bind. destruct (c s) as [[e|a] s']; [done|apply H]. Qed.

Lemma st_bind_assoc {S A B D} (c : st S A) (f : A -> st S B) (g : B -> st S D) s : st_bind (st_bind c f) g s = st_bind c (fun a => st_bind (f a) g) s.
Proof. unfold st_bind. by destruct (c s) as [[e|a] s']. Qed.

Lemma addroute_steps s s1 h T M M' n m np vp nb : radix_ok off L s h T M -> rn_addmask nb h false (Z.to_nat o) s = (ok (lp m), s1) -> radix_ok off L s1 h T M' -> mask_for off s1 h M' n m ->
  exists xf, has RNF_NORMAL xf = lnormal m /\ rn_addroute vp (Some nb) h np s =
    (do (keyduplicated, saved_tt) <- rn_insert vp (rnh_treetop h) np ;;
     if keyduplicated : bool then dup_tail h np vp (lkp m) (lbit m) xf saved_tt
     else do _ <- dress saved_tt (lkp m) (lbit m) xf ;;
       do t <- get rn_parent saved_tt ;;
       do _ <- promote t saved_tt ;;
       do _ <- lift (lkp m) (-1 - lbit m) (rnh_treetop h) t saved_tt ;;
       st_ret saved_tt) s1.
Proof.
  intros H Em H1 Hm. destruct (mask_node _ _ _ _ _ _ H1 Hm) as (Hm0 & Hk0 & mn & Hmn & Hmu & Hmb & Hmf). exists (rn_flags mn). split; [done|].
  destruct (ro_top _ _ _ _ _ _ H) as (ml & l & r & ET). pose proof (ro_rep _ _ _ _ _ _ H) as Hr. rewrite ET in Hr. destruct Hr as ((tn & Htn & Htu & _) & _).
  unfold rn_addroute. rstep. replace (off / 8) with o by (rewrite Ho, Z.mul_comm, Z.div_mul; done). rewrite (st_bind_ok _ _ _ _ _ Em).
  destruct (lp m) as [|k] eqn:Ek; [done|]. rewrite <-Ek in *. rewrite (proj2 (Nat.eqb_neq _ _) Hm0).
  erewrite st_bind_ok; [|rstep; rstep; reflexivity]. cbv beta iota zeta. rewrite Hmb.
  apply st_bind_ext. intros [kd sv] s2. rewrite (proj2 (Nat.eqb_neq _ _) Hk0). destruct kd; cbn [negb when].
  - unfold dup_tail. rewrite st_bind_assoc. apply st_bind_ext. intros f s3. apply st_bind_ext. intros [[t tt_]|] s4; [|done].
    apply st_bind_ext. intros sv' s5. apply st_bind_ext. intros u s6. apply st_bind_ext. done.
  - unfold st_bind at 1. cbv beta iota. unfold st_ret at 1. unfold st_bind at 1. unfold st_ret at 1. apply st_bind_ext. intros u s6. done.
Qed.
Lemma grown_added s s1 s' T M M' np : masks_grown s s1 M M' -> added s1 s' T np -> grown s s' T M np.
Proof.
  intros [G1 G2 G3 G4 G5 G6 G7 G8] [A1 A2 A3 A4 A5]. split; [congruence|lia|intros k w Hk; rewrite A3; by apply G5|].
  intros p Hp N1 N2 HT HM. rewrite A5 by done. by apply G6.
Qed.

(** The route of the mask of [n] bits for the key at [vp]. *)
Record route_of (n : Z) (np vp : ptr) (key : list Z) (x : leaf) : Prop := {
  rt_lp : lp x = np; rt_lkp : lkp x = vp; rt_lkey : lkey x = key; rt_route : is_route x; rt_ok : route_ok off L x; rt_len : plen x = kept_len off n }.

(** The masks of the routes are known. *)
Lemma addmask_known s h T M nb n y : radix_ok off L s h T M -> contiguous o n nb -> n <= 8 * L -> y ∈ routes T -> plen y = kept_len off n ->
  exists p, rn_addmask nb h false (Z.to_nat o) s = (ok p, s).
Proof.
  intros H Hc Hn Hy El. unfold kept_len in El. destruct (Z.leb_spec n off) as [Hz|Hz].
  { exists (mask_nodes h). by apply (addmask_short off L o Ho Hol s h nb n). }
  rewrite (addmask_long off L o Ho Hol _ _ _ _ _ Hc) by done. destruct (addmask_found off L o Ho Hol HL s h M n (ro_masks _ _ _ _ _ _ H) ltac:(lia)) as (z & d & _ & _ & -> & Hd).
  destruct d; [by exists (lp z)|]. exfalso. destruct Hd as [_ Hd]. destruct (ro_netmask _ _ _ _ _ _ H y Hy) as (w & Hw & _ & Eb & En).
  destruct (wf_route _ _ _ _ _ (ro_wf _ _ _ _ _ _ H) Hy) as [_ [[Hyn _]|(_ & E0 & _)]]; [|lia].
  assert (plen w = n) as Ew by (unfold plen in *; lia).
  destruct (masks_leaf _ _ _ _ _ (ro_masks _ _ _ _ _ _ H) w Hw) as [->|[[_ ?]|(_ & _ & Ek)]]; [simpl in En; congruence|congruence|].
  apply (Hd w Hw). by rewrite Ek, Ew.
Qed.

(** Either the prefix is there and nothing happens, or it is there afterwards. *)
Lemma addroute_ok s h T M np vp key nb n : radix_ok off L s h T M -> oom s = [] -> contiguous o n nb -> n <= 8 * L -> new_pair L s T M np vp key ->
  (forall i, off <= i < 8 * L -> kept_len off n <= i -> bit key i = false) ->
  rn_addroute vp (Some nb) h np s = (ok NULL, s) /\ (exists y, y ∈ routes T /\ plen y = kept_len off n /\ agree off (8 * L) key (lkey y))
  \/ exists s' T' M' x, rn_addroute vp (Some nb) h np s = (ok np, s') /\ radix_ok off L s' h T' M' /\ grown s s' T M np
      /\ route_of n np vp key x /\ (forall y, y ∈ leaves T' <-> y = x \/ y ∈ leaves T) /\ new_prefix off x T.
Proof.
  intros H Hoom Hc Hn Hp Hz. destruct (addmask_any off L o Ho Hol HL s h T M nb n H Hoom Hc Hn) as (m & M' & s1 & Em & H1 & Hm & Hg).
  destruct (addroute_steps s s1 h T M M' n m np vp nb H Em H1 Hm) as (xf & Hxf & ->).
  pose proof (new_pair_masks _ _ _ _ _ _ _ _ (ro_bounded _ _ _ _ _ _ H) Hg Hp) as Hp1.
  assert (oom s1 = []) as Hoom1 by (by rewrite (mg_oom _ _ _ _ Hg)).
  destruct (new_route_ok off L o Ho Hol s1 h T M' n m np vp key H1 Hm Hn Hz) as (Hxr & Hxo & Exl & _).
  assert (route_of n np vp key (new_route np vp key m)) as Hrt by (split; done).
  destruct (ro_top _ _ _ _ _ _ H1) as (ml & l & r & ET). pose proof Hp1 as [P1 P2 P3 [P4 P5] P6 [Q1 Q2 Q3]].
  pose proof (ro_rep _ _ _ _ _ _ H1) as Hr. pose proof (ro_wf _ _ _ _ _ _ H1) as Hw. pose proof (ro_nodup _ _ _ _ _ _ H1) as Hnd. apply NoDup_app in Hnd as (Hnd & _ & _).
  rewrite not_elem_of_app in P4, P5.
  destruct (rn_insert_ok L (KR L) off ltac:(lia) HL s1 vp key np (rnh_treetop h) (rnh_treetop h) ml l r o L) as (z & c & Ez & [[Hag Ei]|Hg2]);
    rewrite <-?ET; try done; try lia.
  { constructor; [rewrite not_elem_of_cons; split; [lia|tauto]|]. constructor; [tauto|done]. }
  - rewrite (st_bind_ok _ _ _ _ _ Ei). cbv beta iota. rewrite <-ET in Ez.
    destruct (dup_case s1 h T M' n m np vp key xf z c H1 Hm Hn Hp1 Hoom1 Hz Hxf Ez Hag) as [[E (y & Hy & Hyl & Hya)]|(s' & T' & E & H' & Ha & Hle & Hnew)].
    + left. assert (plen y = kept_len off n) as El by congruence. destruct (addmask_known s h T M nb n y H Hc Hn Hy El) as (p & Ep).
      rewrite Em in Ep. injection Ep as _ <-. split; [done|by exists y].
    + right. exists s', T', M', (new_route np vp key m). split_and!; try done. by eapply grown_added.
  - destruct Hg2 as (B & C & g & u & s2 & EC & HB & Hbb & Ezu & Hub & HagB & HneB & Ei & Hh & Hlf & Hctx & _). rewrite (st_bind_ok _ _ _ _ _ Ei). cbv beta iota. rewrite <-ET in EC, Ez.
    destruct (graft_case off L o Ho Hol s1 h T M' n m np vp key xf z c B C g u s2) as (s' & T' & E & H' & Ha & Hle & Hnew); try done.
    right. exists s', T', M', (new_route np vp key m). split_and!; try done. by eapply grown_added.
Qed.
End Table.
End RadixTable.
