(* ===== verification/Prefix.v ===== *)
(** * Tables of prefixes

    How routes, filters and regions use the radix tree of [alpha/al_radix.c]: a
    record is allocated with its pair of nodes in front, so that a pointer to
    its leaf is a pointer to the record, and its key is an [al_addr4_t] or
    [al_addr6_t] of [alpha/al_to_api.h]: length, family and the address. *)

From Stdlib Require Import ZArith Lia Bool.
From stdpp Require Import base tactics option gmap list list_numbers.
From S2P Require Import Prelude Radix RadixShape RadixRep RadixMatch.

Open Scope Z_scope.

Module Prefix.
Import Radix.

Definition AF_INET : Z := 2.
Definition AF_INET6 : Z := 10.

(** [al_addr4_t] and [al_addr6_t] of an address in network order. *)
Definition sockaddr (v6 : bool) (a : list Z) : list Z := if v6 then 18 :: AF_INET6 :: a else 6 :: AF_INET :: a.
(** The bits before the address that the tables are told to skip. *)
Definition address_off (v6 : bool) : Z := if v6 then 128 else 32.
(** [&] of two addresses. *)
Definition and_addr (a m : list Z) : list Z := zip_with Z.land a m.

Section Table.
Context {A : Type}.

Record ptable := mk { mem : Radix.state; head : radix_head; info : gmap ptr A }.

Definition on_mem {B} (c : st Radix.state B) : st ptable B := fun T =>
  let '(r, s) := c (mem T) in (r, T <| mem := s |>).
Definition with_head {B} (c : radix_head -> st Radix.state B) : st ptable B := do T <- st_get ;; on_mem (c (head T)).

(** A zeroed record, [None] when there is no memory. *)
Definition calloc_entry : st ptable (option ptr) :=
  do p <- on_mem (alloc 3) ;;
  match p with
  | None => st_ret None
  | Some p => do _ <- on_mem (put_pair p) ;; st_ret (Some p)
  end.
Definition free_entry (p : ptr) : st ptable unit :=
  st_modify (fun T => T <| mem := (mem T) <| nodes := delete p (delete (S p) (nodes (mem T))) |>
                                       <| bytes := delete (S (S p)) (bytes (mem T)) |> |>
                        <| info := delete p (info T) |>).

(** The record [a] with its address at [p], and [rnh_addaddr]; freed if that fails. *)
Definition add_entry (p : ptr) (addr mask_ : list Z) (a : A) : st ptable bool :=
  do _ <- on_mem (put_bytes (S (S p)) addr) ;;
  do _ <- st_modify (fun T => T <| info := <[p := a]> (info T) |>) ;;
  do r <- with_head (fun h => rn_addroute (S (S p)) (Some mask_) h p) ;;
  if (r =? NULL)%nat then do _ <- free_entry p ;; st_ret false else st_ret true.

(** The record behind a leaf. *)
Definition record_at (p : ptr) : st ptable (option A) :=
  if (p =? NULL)%nat then st_ret None else
  do T <- st_get ;; do a <- the (info T !! p) ;; st_ret (Some a).

(** [rnh_matchaddr], [rnh_lookup], and [rnh_deladdr] with the record freed. *)
Definition match_entry (addr : list Z) : st ptable (option A) :=
  do p <- with_head (fun h => rn_match addr h) ;; record_at p.
Definition lookup_entry (addr mask_ : list Z) : st ptable (option A) :=
  do p <- with_head (fun h => rn_lookup addr (Some mask_) h) ;; record_at p.
Definition delete_entry (addr mask_ : list Z) : st ptable (option A) :=
  do p <- with_head (fun h => rn_delete addr (Some mask_) h) ;;
  do a <- record_at p ;;
  match a with
  | None => st_ret None
  | Some a => do _ <- free_entry p ;; st_ret (Some a)
  end.
End Table.
Arguments ptable A : clear implicits.
Arguments mk {A}.

(** [al_route_head_init], [None] when there is no memory. *)
Definition table_init {A} (v6 : bool) (oom : list bool) : option (ptable A) :=
  match al_route_head_init (address_off v6) (start oom) with
  | (inr (Some h), s) => Some (mk s h ∅)
  | _ => None
  end.
End Prefix.

(** ** Lemmas *)
Module PrefixFacts.
Import Radix RadixShape RadixRep RadixMatch Prefix.

Definition key_len (v6 : bool) : Z := if v6 then 18 else 6.

Lemma table_layout v6 : layout (address_off v6) (key_len v6).
Proof. destruct v6; [exists 16|exists 4]; cbn; lia. Qed.

(** An address of the family. *)
Definition address (v6 : bool) (a : list Z) : Prop := length a = (if v6 then 16%nat else 4%nat) /\ Forall byte_ok a.

Lemma sockaddr_query v6 a : address v6 a -> query (key_len v6) (sockaddr v6 a).
Proof.
  intros [Hl Hb]. destruct v6; split; try done;
    try (cbn [length key_len sockaddr]; lia); do 2 (constructor; [unfold byte_ok, AF_INET, AF_INET6; lia|]); done.
Qed.

(** The last two bytes of an address are all that the tables look at. *)
Definition low_bytes (v6 : bool) (a : list Z) : list Z := drop (if v6 then 14%nat else 2%nat) a.

Lemma agree_low v6 a a' : address v6 a -> address v6 a' -> low_bytes v6 a = low_bytes v6 a' ->
  agree (address_off v6) (8 * key_len v6) (sockaddr v6 a) (sockaddr v6 a').
Proof.
  intros [Hl _] [Hl' _] Hlow.
  assert (forall j : nat, ((if v6 then 14 else 2) <= j)%nat -> nth j a 0 = nth j a' 0) as Hn.
  { intros j Hj. unfold low_bytes in Hlow. rewrite <-(take_drop (if v6 then 14%nat else 2%nat) a), <-(take_drop (if v6 then 14%nat else 2%nat) a').
    rewrite !app_nth2; rewrite !length_take; rewrite ?Hl, ?Hl'; [|destruct v6; lia..]. by rewrite Hlow. }
  destruct v6; cbn [address_off key_len sockaddr].
  - apply (bytes_agree _ _ 16 18); [lia|]. intros j Hj. destruct j as [|[|j]]; [lia|lia|]. cbn [nth]. apply Hn. lia.
  - apply (bytes_agree _ _ 4 6); [lia|]. intros j Hj. destruct j as [|[|j]]; [lia|lia|]. cbn [nth]. apply Hn. lia.
Qed.

(** Not all of the bits looked at are ones. *)
Definition not_ones (v6 : bool) (a : list Z) : Prop :=
  exists i, address_off v6 <= i < 8 * key_len v6 /\ bit (sockaddr v6 a) i = false.

Section Match.
Context {A : Type} (v6 : bool) (T : ptable A) (t : tree).
Context (Hok : tree_ok (address_off v6) (key_len v6) (mem T) (head T) t).
Context (Hinfo : forall x, x ∈ routes t -> is_Some (info T !! lp x)).

(** A lookup gives the record of the longest prefix. *)
Lemma match_entry_ok a : address v6 a -> not_ones v6 a ->
  exists r, match_entry (sockaddr v6 a) T = (ok (match r with None => None | Some x => info T !! lp x end), T)
    /\ match r with
       | None => forall y, y ∈ routes t -> ~ matches (address_off v6) (sockaddr v6 a) y
       | Some x => x ∈ routes t /\ matches (address_off v6) (sockaddr v6 a) x
           /\ forall y, y ∈ routes t -> matches (address_off v6) (sockaddr v6 a) y -> plen y <= plen x
       end.
Proof.
  intros Ha Hz. destruct (rn_match_ok _ _ (table_layout v6) _ _ _ _ Hok (sockaddr_query v6 a Ha) Hz) as (p & E & Hlong).
  assert (on_mem (rn_match (sockaddr v6 a) (head T)) T = (ok p, T)) as Em by (unfold on_mem; rewrite E; by destruct T).
  assert (match_entry (sockaddr v6 a) T = record_at p T) as ->.
  { unfold match_entry, with_head, st_bind, st_get. by rewrite Em. }
  destruct Hlong as [[-> Hno]|(x & -> & Hx & Hm & Hbest)].
  - exists None. split; [done|exact Hno].
  - exists (Some x). split; [|done]. unfold record_at.
    pose proof (trep_leaf_null _ _ _ _ (ok_rep _ _ _ _ _ Hok) x (proj2 (proj1 (elem_of_routes t x) Hx))) as Hnull.
    rewrite (proj2 (Nat.eqb_neq _ _) Hnull). unfold st_bind, st_get, the. by destruct (Hinfo x Hx) as [b ->].
Qed.

(** Addresses that agree in their last two bytes are not told apart. *)
Lemma match_entry_blind a a' : address v6 a -> address v6 a' -> not_ones v6 a -> low_bytes v6 a = low_bytes v6 a' ->
  exists o, match_entry (sockaddr v6 a) T = (ok o, T) /\ match_entry (sockaddr v6 a') T = (ok o, T).
Proof.
  intros Ha Ha' (i & Hi & Hz) Hlow. pose proof (agree_low v6 a a' Ha Ha' Hlow) as Hag.
  assert (not_ones v6 a') as Hz' by (exists i; split; [done|by rewrite <-(Hag i Hi)]).
  destruct (rn_match_ok _ _ (table_layout v6) _ _ _ _ Hok (sockaddr_query v6 a Ha)) as (p & E & Hlong); [by exists i|].
  destruct (rn_match_ok _ _ (table_layout v6) _ _ _ _ Hok (sockaddr_query v6 a' Ha') Hz') as (p' & E' & Hlong').
  pose proof (longest_unique _ _ (table_layout v6) _ _ _ _ _ (ok_wf _ _ _ _ _ Hok) Hag Hlong Hlong') as <-.
  destruct (match_entry_ok a Ha) as (r & Em & _); [by exists i|]. eexists. split; [exact Em|]. rewrite <-Em.
  unfold match_entry, with_head, st_bind, st_get, on_mem. by rewrite E, E'.
Qed.
End Match.
End PrefixFacts.
