(* ===== verification/Router.v ===== *)
(** * Routes and regions

    Models [alpha/al_router.c], the routing tables that forwarding asks for the
    next hop, and [alpha/al_geoip.c], the table of regions, both over the tables
    of prefixes. The numbers of network ports are an argument; locks are left
    out, as each operation runs under one. *)

From Stdlib Require Import ZArith Lia Bool String.
From stdpp Require Import base tactics option gmap list list_numbers.
From S2P Require Import Prelude Radix RadixShape RadixRep RadixMatch RadixDec Prefix.

Open Scope Z_scope.

Module Router.
Import Radix Prefix.

(** [rtype_t] *)
Definition POLICY_TABL : Z := 0.
Definition DIRECT_TABL : Z := 1.
Definition STATIC_TABL : Z := 2.
Definition DYNAMIC_TABL : Z := 3.
Definition GATEWAY_TABL : Z := 4.

(** [al_router_t] and [al_router6_t] without their keys. *)
Record al_router := mk_router { nexthop : list Z; rtype : Z; rid : Z; oif : Z }.

(** [al_router[]] and [al_policy_router[]] *)
Record routers := mk_routers { inet : ptable al_router; inet6 : ptable al_router;
  policy : ptable al_router; policy6 : ptable al_router }.

(** [al_router( type, rn_t )] *)
Definition table (pol v6 : bool) (R : routers) : ptable al_router :=
  match pol, v6 with
  | true, false => policy R | true, true => policy6 R | false, false => inet R | false, true => inet6 R
  end.
Definition set_table (pol v6 : bool) (T : ptable al_router) (R : routers) : routers :=
  match pol, v6 with
  | true, false => R <| policy := T |> | true, true => R <| policy6 := T |>
  | false, false => R <| inet := T |> | false, true => R <| inet6 := T |>
  end.
Definition in_table {A} (pol v6 : bool) (c : st (ptable al_router) A) : st routers A := fun R =>
  let '(r, T) := c (table pol v6 R) in (r, set_table pol v6 T R).

(** Every table gets memory; without, the code stops where it is. *)
Definition al_router_init (oom : list bool) : option routers :=
  a ← table_init false oom; b ← table_init true oom; c ← table_init false oom; d ← table_init true oom;
  Some (mk_routers a b c d).

Section Ports.
(** [al_get_port_index_byid] *)
Context (port_index : Z -> option Z).

Definition zero_addr (v6 : bool) : list Z := repeat 0 (if v6 then 16%nat else 4%nat).

(** An unknown port is answered with [0]. *)
Definition al_router_insert (id : Z) (subnet prefix : list Z) (hop : option (list Z)) (iptype rtype_ oif_ : Z) : st routers Z :=
  match port_index oif_ with
  | None => st_ret 0
  | Some index =>
      let insert_ (v6 : bool) :=
        in_table (rtype_ =? POLICY_TABL) v6
          (do p <- calloc_entry ;;
           match p with
           | None => st_ret (-1)
           | Some p =>
               do r <- add_entry p (sockaddr v6 (and_addr subnet prefix)) (sockaddr v6 prefix)
                         (mk_router (default (zero_addr v6) hop) rtype_ id index) ;;
               st_ret (if r : bool then 0 else -1)
           end) in
      if iptype =? AF_INET then insert_ false
      else if iptype =? AF_INET6 then insert_ true
      else st_ret (-1)
  end.
End Ports.

(** The identifier of the deleted route. *)
Definition al_router_delete (subnet prefix : list Z) (iptype type : Z) : st routers Z :=
  if negb (iptype =? AF_INET) && negb (iptype =? AF_INET6) then st_throw Undef else
  let v6 := negb (iptype =? AF_INET) in
  do r <- in_table (type =? POLICY_TABL) v6 (delete_entry (sockaddr v6 (and_addr subnet prefix)) (sockaddr v6 prefix)) ;;
  st_ret (match r with Some r => rid r | None => -1 end).

(** The next hop, or the destination itself where the route has none, and the port. *)
Definition hop_of (dst : list Z) (r : al_router) : list Z * Z :=
  (if bool_decide (Forall (eq 0) (nexthop r)) then dst else nexthop r, oif r).

(** [src] is [NULL] or the source, for which the policy routes are asked first. *)
Definition al_router_find (src : option (list Z)) (dst : list Z) (iptype : Z) : st routers (option (list Z * Z)) :=
  if negb (iptype =? AF_INET) && negb (iptype =? AF_INET6) then st_throw Undef else
  let v6 := negb (iptype =? AF_INET) in
  do r <- (match src with
           | None => st_ret None
           | Some src => in_table true v6 (match_entry (sockaddr v6 src))
           end) ;;
  match r with
  | Some r => st_ret (Some (hop_of dst r))
  | None =>
      do r <- in_table false v6 (match_entry (sockaddr v6 dst)) ;;
      st_ret (hop_of dst <$> r)
  end.

(** [al_router_rtype] *)
Definition al_router_rtype (name : str) : Z :=
  if bool_decide (name = <<"policy">>) then POLICY_TABL
  else if bool_decide (name = <<"direct">>) then DIRECT_TABL
  else if bool_decide (name = <<"static">>) then STATIC_TABL
  else if bool_decide (name = <<"dynamic">>) then DYNAMIC_TABL
  else if bool_decide (name = <<"gateway">>) then GATEWAY_TABL
  else -1.
End Router.

(** ** Regions *)
Module Geoip.
Import Radix Prefix.

(** [al_geoip[]]: the region of a prefix. *)
Record geoip := mk_geoip { inet : ptable Z; inet6 : ptable Z }.

Definition in_table {A} (v6 : bool) (c : st (ptable Z) A) : st geoip A := fun G =>
  if v6 then let '(r, T) := c (inet6 G) in (r, G <| inet6 := T |>)
  else let '(r, T) := c (inet G) in (r, G <| inet := T |>).

Definition al_geoip_init (oom : list bool) : option geoip :=
  a ← table_init false oom; b ← table_init true oom; Some (mk_geoip a b).

Definition al_geoip_insert (id : Z) (addr prefix : list Z) (iptype : Z) : st geoip Z :=
  let insert_ (v6 : bool) :=
    in_table v6
      (do p <- calloc_entry ;;
       match p with
       | None => st_ret (-1)
       | Some p => do r <- add_entry p (sockaddr v6 (and_addr addr prefix)) (sockaddr v6 prefix) id ;;
                   st_ret (if r : bool then 0 else -1)
       end) in
  if iptype =? AF_INET then insert_ false else if iptype =? AF_INET6 then insert_ true else st_ret (-1).

Definition al_geoip_delete (subnet prefix : list Z) (iptype : Z) : st geoip Z :=
  if negb (iptype =? AF_INET) && negb (iptype =? AF_INET6) then st_throw Undef else
  let v6 := negb (iptype =? AF_INET) in
  do r <- in_table v6 (delete_entry (sockaddr v6 (and_addr subnet prefix)) (sockaddr v6 prefix)) ;;
  st_ret (default (-1) r).

Definition al_geoip_find (src : list Z) : st geoip (option Z) := in_table false (match_entry (sockaddr false src)).
(** The address of the lookup is only set when it is not zero: [stale] is what
    the variable held. *)
Definition al_geoip6_find (stale src : list Z) : st geoip (option Z) :=
  in_table true (match_entry (sockaddr true (if bool_decide (Forall (eq 0) src) then stale else src))).
End Geoip.

(** ** Lemmas *)
Module RouterFacts.
Import Radix RadixShape RadixRep RadixMatch Prefix PrefixFacts Router.

Definition family (v6 : bool) : Z := if v6 then AF_INET6 else AF_INET.

(** The tree of a table is well formed, and every route has its record. *)
Record table_ok (v6 : bool) (T : ptable al_router) (t : tree) : Prop := {
  table_tree : tree_ok (address_off v6) (key_len v6) (mem T) (head T) t;
  table_info x : x ∈ routes t -> is_Some (info T !! lp x) }.

(** Without a source only the ordinary routes are asked. *)
Lemma find_entry v6 R dst o :
  match_entry (sockaddr v6 dst) (table false v6 R) = (ok o, table false v6 R) ->
  al_router_find None dst (family v6) R = (ok (hop_of dst <$> o), R).
Proof.
  intros E. assert (in_table false v6 (match_entry (sockaddr v6 dst)) R = (ok o, R)) as Ei.
  { unfold in_table. rewrite E. destruct R, v6; done. }
  destruct v6; unfold al_router_find; cbn [family]; cbv beta iota; cbn -[in_table match_entry sockaddr]; unfold st_bind; cbn -[in_table match_entry sockaddr]; by rewrite Ei.
Qed.
End RouterFacts.

(** ** Properties *)
Section Properties.
Import Radix RadixShape RadixRep RadixMatch Prefix PrefixFacts Router RouterFacts.

(** Forwarding follows the longest prefix: [al_router_find] answers with the
    next hop and the port of the route whose prefix matches the destination in
    the bits the table looks at and is longest among these, and with nothing
    if no route matches; the search neither fails nor changes the tables. *)
Theorem route_is_longest_prefix (v6 : bool) (R : routers) (t : tree) (dst : list Z) :
  table_ok v6 (table false v6 R) t -> address v6 dst -> not_ones v6 dst ->
  exists r, al_router_find None dst (family v6) R
      = (ok (x ← r; route ← info (table false v6 R) !! lp x;
             Some (if bool_decide (Forall (eq 0) (nexthop route)) then dst else nexthop route, oif route)), R)
    /\ match r with
       | None => forall y, y ∈ routes t -> ~ matches (address_off v6) (sockaddr v6 dst) y
       | Some x => x ∈ routes t /\ matches (address_off v6) (sockaddr v6 dst) x
           /\ forall y, y ∈ routes t -> matches (address_off v6) (sockaddr v6 dst) y -> plen y <= plen x
       end.
Proof.
  intros [Ht Hi] Ha Hz. destruct (match_entry_ok v6 _ t Ht Hi dst Ha Hz) as (r & E & Hr).
  exists r. split; [|exact Hr]. rewrite (find_entry _ _ _ _ E). destruct r as [x|]; [|done]. simpl. by destruct (info _ !! _).
Qed.

(** The tables skip 32 bits of an IPv4 key and 128 bits of an IPv6 key, whose
    address starts at bit 16: destinations that agree in their last two bytes
    are sent along the same route, whatever networks they are in. *)
Theorem routes_ignore_network (v6 : bool) (R : routers) (t : tree) (dst dst' : list Z) :
  table_ok v6 (table false v6 R) t -> address v6 dst -> address v6 dst' -> not_ones v6 dst ->
  low_bytes v6 dst = low_bytes v6 dst' ->
  exists o, al_router_find None dst (family v6) R = (ok (hop_of dst <$> o), R)
    /\ al_router_find None dst' (family v6) R = (ok (hop_of dst' <$> o), R).
Proof.
  intros [Ht Hi] Ha Ha' Hz Hlow. destruct (match_entry_blind v6 _ t Ht Hi dst dst' Ha Ha' Hz Hlow) as (o & E & E').
  exists o. split; by apply find_entry.
Qed.
End Properties.

(** ** Witnesses *)
Section Witnesses.
Import Radix RadixShape RadixRep RadixMatch RadixDec Prefix PrefixFacts Router RouterFacts.

(** A route to 10.0.1.0/24 and a default route, entered by the code. *)
Definition sample_routers : routers :=
  let none := mk (start []) (mk_head NULL NULL NULL) ∅ in
  match al_router_init [] with
  | None => mk_routers none none none none
  | Some R =>
      snd ((do _ <- al_router_insert Some 7 [10; 0; 1; 0] [255; 255; 255; 0] (Some [10; 0; 9; 1]) AF_INET STATIC_TABL 1 ;;
            al_router_insert Some 8 [0; 0; 0; 0] [0; 0; 0; 0] (Some [10; 0; 9; 2]) AF_INET STATIC_TABL 2) R)
  end.
Definition zeros_leaf : leaf := mk_leaf 3%nat rn_zeros (repeat 0 32) NULL (-33) false.
Definition ones_leaf : leaf := mk_leaf 5%nat rn_ones (repeat 255 32) NULL (-33) false.
Definition net_leaf : leaf := mk_leaf 9%nat 11%nat [6; 2; 10; 0; 1; 0] 14%nat (-41) true.
Definition default_leaf : leaf := mk_leaf 15%nat 17%nat [6; 2; 0; 0; 0; 0] rn_zeros (-1) false.
Definition sample_tree : tree :=
  Nd 4%nat 32 [(18%nat, default_leaf)] (Nd 10%nat 39 [] (Lf [zeros_leaf; default_leaf]) (Lf [net_leaf])) (Lf [ones_leaf]).

Lemma sample_table_ok : table_ok false (table false false sample_routers) sample_tree.
Proof.
  split.
  - apply (bool_decide_unpack _). vm_compute. exact I.
  - intros x Hx. assert (x = default_leaf \/ x = net_leaf) as [->| ->].
    { change (routes sample_tree) with [default_leaf; net_leaf] in Hx. rewrite !elem_of_cons, elem_of_nil in Hx. tauto. }
    all: vm_compute; eauto.
Qed.

Lemma route_is_longest_prefix_witness :
  exists r, al_router_find None [10; 0; 1; 77] AF_INET sample_routers
      = (ok (x ← r; route ← info (table false false sample_routers) !! lp x;
             Some (if bool_decide (Forall (eq 0) (nexthop route)) then [10; 0; 1; 77] else nexthop route, oif route)), sample_routers)
    /\ al_router_find None [10; 0; 1; 77] AF_INET sample_routers = (ok (Some ([10; 0; 9; 1], 1)), sample_routers).
Proof.
  destruct (route_is_longest_prefix false sample_routers sample_tree [10; 0; 1; 77] sample_table_ok) as (r & E & _).
  - apply (bool_decide_unpack _). vm_compute. exact I.
  - exists 32. vm_compute. repeat split; discriminate.
  - exists r. split; [exact E|vm_compute; reflexivity].
Defined.

Lemma routes_ignore_network_witness :
  exists o, al_router_find None [10; 0; 1; 77] AF_INET sample_routers = (ok (hop_of [10; 0; 1; 77] <$> o), sample_routers)
    /\ al_router_find None [192; 168; 1; 77] AF_INET sample_routers = (ok (hop_of [192; 168; 1; 77] <$> o), sample_routers).
Proof.
  apply (routes_ignore_network false sample_routers sample_tree [10; 0; 1; 77] [192; 168; 1; 77] sample_table_ok).
  - apply (bool_decide_unpack _). vm_compute. exact I.
  - apply (bool_decide_unpack _). vm_compute. exact I.
  - exists 32. vm_compute. repeat split; discriminate.
  - reflexivity.
Defined.
End Witnesses.
