(* ===== verification/RouteTable.v ===== *)
(** * Routing tables as the code fills them

    The abstract table of prefixes that [alpha/al_router.c] and [alpha/al_geoip.c]
    keep in the radix trees of [alpha/al_radix.c], and the refinement: from
    [al_router_init] on, every [al_router_insert] does to the trees in memory
    what the specification does to a list of prefixes, and [al_router_find]
    answers from that list. *)

From Stdlib Require Import ZArith Lia Bool.
From stdpp Require Import base tactics option gmap list list_numbers.
From S2P Require Import Prelude Radix RadixShape RadixRep RadixMatch RadixDec RadixCtx RadixAdd RadixInsert RadixMask RadixRoute RadixAddroute RadixTable Prefix Router.

Open Scope Z_scope.

(** ** The specification *)
Module PrefixSpec.
Import RadixShape RadixDec.

(** The bits at the start of an address that the tables do not look at. *)
Definition skipped (v6 : bool) : Z := if v6 then 112 else 16.
Definition address_bits (v6 : bool) : Z := if v6 then 128 else 32.
(** A prefix that ends there is a default route. *)
Definition kept (v6 : bool) (k : Z) : Z := if k <=? skipped v6 then 0 else k.

Record entry {A : Type} := mk_entry { net : list Z; len : Z; val : A }.
Arguments entry A : clear implicits.
Arguments mk_entry {A}.

Section Spec.
Context {A : Type} (v6 : bool).

(** The comparison that the tables make. It is not that of prefixes: the trees
    are set up to start at bit 32 of the key, 128 for IPv6, in which the address starts
    at bit 16, so that its first bits are left out and 10.0.1.0/24 covers 192.168.1.77
    as well. *)
Definition covers (dst : list Z) (e : entry A) : Prop := agree (skipped v6) (len e) dst (net e).
Definition same (e e' : entry A) : Prop := len e = len e' /\ agree (skipped v6) (len e) (net e) (net e').
#[export] Instance covers_dec dst e : Decision (covers dst e).
Proof. unfold covers. apply _. Defined.
#[export] Instance same_dec e e' : Decision (same e e').
Proof. unfold same. apply _. Defined.

(** A prefix that is there already is refused. *)
Definition insert (e : entry A) (es : list (entry A)) : bool * list (entry A) :=
  if decide (Exists (same e) es) then (false, es) else (true, e :: es).
(** The longest prefix. *)
Fixpoint find (dst : list Z) (es : list (entry A)) : option (entry A) :=
  match es with
  | [] => None
  | e :: es =>
      let best := find dst es in
      if decide (covers dst e) then
        match best with Some b => if len b <? len e then Some e else best | None => Some e end
      else best
  end.

(** Prefixes as they are meant, over all bits, and the longest of them. *)
Definition contains (dst : list Z) (e : entry A) : Prop := agree 0 (len e) dst (net e).
Definition longest (dst : list Z) (es : list (entry A)) (r : option (entry A)) : Prop :=
  match r with
  | None => forall e, e ∈ es -> ~ contains dst e
  | Some b => b ∈ es /\ contains dst b /\ forall e, e ∈ es -> contains dst e -> len e <= len b
  end.
(** All networks have the bits of the address that are skipped. *)
Definition one_network (dst : list Z) (es : list (entry A)) : Prop := forall e, e ∈ es -> agree 0 (skipped v6) dst (net e).

Definition distinct (es : list (entry A)) : Prop := forall e e', e ∈ es -> e' ∈ es -> same e e' -> e = e'.

Lemma prefix_same_sym e e' : same e e' -> same e' e.
Proof. intros [El Hag]. split; [done|]. rewrite <-El. by apply agree_sym. Qed.
Lemma insert_distinct e es : distinct es -> distinct (insert e es).2.
Proof.
  intros Hd. unfold insert. destruct (decide _) as [H|H]; [done|]. rewrite Exists_exists in H. intros a b Ha Hb Hs. simpl in *.
  apply elem_of_cons in Ha as [->|Ha], Hb as [->|Hb]; [done| | |by apply Hd].
  - exfalso. apply H. eauto.
  - exfalso. apply H. exists a. split; [done|by apply prefix_same_sym].
Qed.

Lemma find_spec dst es : match find dst es with
  | None => forall e, e ∈ es -> ~ covers dst e
  | Some b => b ∈ es /\ covers dst b /\ forall e, e ∈ es -> covers dst e -> len e <= len b end.
Proof.
  induction es as [|e es IH]; [intros e He; by apply not_elem_of_nil in He|]. cbn [find].
  destruct (decide (covers dst e)) as [Hc|Hc]; destruct (find dst es) as [b|].
  - destruct IH as (Hb & Hcb & Hmax). destruct (Z.ltb_spec (len b) (len e)) as [Hl|Hl].
    + split; [by left|]. split; [done|]. intros a [->|Ha]%elem_of_cons Hca; [lia|]. specialize (Hmax a Ha Hca). lia.
    + split; [by right|]. split; [done|]. intros a [->|Ha]%elem_of_cons Hca; [lia|by apply Hmax].
  - split; [by left|]. split; [done|]. intros a [->|Ha]%elem_of_cons Hca; [lia|by destruct (IH a)].
  - destruct IH as (Hb & Hcb & Hmax). split; [by right|]. split; [done|]. intros a [->|Ha]%elem_of_cons Hca; [done|by apply Hmax].
  - intros a [->|Ha]%elem_of_cons; [done|by apply IH].
Qed.

Lemma covers_contains dst e : agree 0 (skipped v6) dst (net e) -> covers dst e <-> contains dst e.
Proof.
  intros H. unfold covers, contains. split; intros Hc i Hi.
  - destruct (Z.lt_ge_cases i (skipped v6)); [apply H; lia|apply Hc; lia].
  - apply Hc. unfold skipped in Hi. destruct v6; lia.
Qed.
(** Within one network the comparison is that of prefixes. *)
Lemma find_longest dst es : one_network dst es -> longest dst es (find dst es).
Proof.
  intros H. pose proof (find_spec dst es) as Hf. unfold longest. destruct (find dst es) as [b|].
  - destruct Hf as (Hb & Hc & Hmax). split; [done|]. split; [by apply covers_contains; [apply H|]|].
    intros e He Hce. apply Hmax; [done|]. by apply covers_contains; [apply H|].
  - intros e He Hce. apply (Hf e He). by apply covers_contains; [apply H|].
Qed.

(** Two prefixes of one length that cover an address are the same. *)
Lemma find_unique dst es e : distinct es -> e ∈ es -> covers dst e -> (forall e', e' ∈ es -> covers dst e' -> len e' <= len e) -> find dst es = Some e.
Proof.
  intros Hd He Hc Hmax. pose proof (find_spec dst es) as Hf. destruct (find dst es) as [b|]; [|by destruct (Hf e)].
  destruct Hf as (Hb & Hcb & Hmb). f_equal. apply Hd; [done|done|]. specialize (Hmax b Hb Hcb). specialize (Hmb e He Hc). unfold covers in *.
  assert (len b = len e) as El by lia. split; [done|]. eapply agree_trans; [apply agree_sym; exact Hcb|]. by rewrite El.
Qed.
Lemma find_none dst es : (forall e, e ∈ es -> ~ covers dst e) -> find dst es = None.
Proof. intros H. pose proof (find_spec dst es) as Hf. destruct (find dst es) as [b|]; [|done]. destruct Hf as (Hb & Hcb & _). by destruct (H b Hb). Qed.
End Spec.
End PrefixSpec.

(** ** Prefixes in memory *)
Module RouteTable.
Import Radix RadixShape RadixRep RadixMatch RadixDec RadixCtx RadixAdd RadixInsert RadixMask RadixRoute RadixAddroute RadixTable Prefix PrefixFacts PrefixSpec.

(** The mask of [k] bits. *)
Definition netmask (v6 : bool) (k : Z) : list Z := map (mask_byte k) (seq 0 (if v6 then 16 else 4)).

Lemma mask_byte_bit n j b : 0 <= b < 8 -> Z.testbit (mask_byte n j) b = (8 * Z.of_nat j + 7 - b <? n).
Proof.
  intros Hb. unfold mask_byte. destruct (Z.leb_spec (8 * Z.of_nat (S j)) n) as [H|H].
  - rewrite (proj2 (Z.ltb_lt _ _)) by lia. change 255 with (Z.ones 8). apply Z.ones_spec_low. lia.
  - destruct (Z.leb_spec n (8 * Z.of_nat j)) as [H'|H']; [rewrite Z.bits_0; symmetry; apply Z.ltb_ge; lia|].
    remember (8 * Z.of_nat (S j) - n) as e eqn:Ee. replace (8 * Z.of_nat j + 7 - b <? n) with (e <=? b).
    2:{ destruct (Z.leb_spec e b); symmetry; [apply Z.ltb_lt|apply Z.ltb_ge]; lia. }
    assert (e = 1 \/ e = 2 \/ e = 3 \/ e = 4 \/ e = 5 \/ e = 6 \/ e = 7) as He by lia.
    assert (b = 0 \/ b = 1 \/ b = 2 \/ b = 3 \/ b = 4 \/ b = 5 \/ b = 6 \/ b = 7) as Hb' by lia. clear -He Hb'.
    destruct He as [->|[->|[->|[->|[->|[->| ->]]]]]]; destruct Hb' as [->|[->|[->|[->|[->|[->|[->| ->]]]]]]]; reflexivity.
Qed.

Section Bits.
Context (v6 : bool).
Let bytes_ : nat := if v6 then 16%nat else 4%nat.

Lemma netmask_address k : address v6 (netmask v6 k).
Proof.
  unfold netmask. split; [rewrite length_map, length_seq; by destruct v6|]. apply Forall_forall. intros c Hc. apply list_elem_of_In, in_map_iff in Hc as (j & <- & _). apply mask_byte_ok.
Qed.
Lemma netmask_nth k j : (j < bytes_)%nat -> nth j (netmask v6 k) 0 = mask_byte k j.
Proof.
  intros Hj. unfold netmask. fold bytes_. rewrite (nth_indep _ 0 (mask_byte k 0)) by (rewrite length_map, length_seq; fold bytes_; lia).
  rewrite map_nth, seq_nth; [done|exact Hj].
Qed.
Lemma and_address a k : address v6 a -> address v6 (and_addr a (netmask v6 k)).
Proof.
  intros [Hl Hb]. destruct (netmask_address k) as [Hl' Hb']. unfold and_addr. split; [rewrite length_zip_with, Hl, Hl'; by destruct v6|].
  apply Forall_forall. intros c Hc. apply elem_of_lookup_zip_with_1 in Hc as (i & x & y & -> & Hx & Hy). rewrite Forall_lookup in Hb. specialize (Hb i x Hx).
  unfold byte_ok in *. assert (Z.land x y = Z.land x y mod 2 ^ 8) as ->; [|apply Z.mod_pos_bound; lia].
  rewrite <-Z.land_ones, <-Z.land_assoc, (Z.land_comm y), Z.land_assoc, (Z.land_ones x), (Z.mod_small x) by lia. done.
Qed.

Lemma sockaddr_bit a i : 0 <= i -> bit (sockaddr v6 a) (16 + i) = bit a i.
Proof.
  intros Hi. unfold bit. replace ((16 + i) / 8) with (i / 8 + 2) by (replace (16 + i) with (i + 2 * 8) by lia; by rewrite Z.div_add).
  replace ((16 + i) mod 8) with (i mod 8) by (replace (16 + i) with (i + 2 * 8) by lia; by rewrite Z.mod_add).
  pose proof (Z.div_pos i 8 Hi ltac:(lia)). replace (Z.to_nat (i / 8 + 2)) with (S (S (Z.to_nat (i / 8)))) by lia. by destruct v6.
Qed.
Lemma byte_index i : 0 <= i < address_bits v6 -> (Z.to_nat (i / 8) < bytes_)%nat.
Proof. unfold address_bits, bytes_. intros Hi. pose proof (Z.div_pos i 8 ltac:(lia) ltac:(lia)). destruct v6; [pose proof (Z.div_lt_upper_bound i 8 16)|pose proof (Z.div_lt_upper_bound i 8 4)]; lia. Qed.
Lemma and_bit a k i : address v6 a -> 0 <= i < address_bits v6 -> bit (and_addr a (netmask v6 k)) i = bit a i && (i <? k).
Proof.
  intros [Hl _] Hi. pose proof (byte_index i Hi) as Hj. unfold bit, and_addr. set (j := Z.to_nat (i / 8)) in *.
  assert (nth j (zip_with Z.land a (netmask v6 k)) 0 = Z.land (nth j a 0) (mask_byte k j)) as ->.
  { rewrite <-(netmask_nth k j Hj). rewrite !nth_lookup, lookup_zip_with. destruct (lookup_lt_is_Some_2 a j) as [x ->]; [rewrite Hl; exact Hj|].
    destruct (lookup_lt_is_Some_2 (netmask v6 k) j) as [y ->]; [destruct (netmask_address k) as [-> _]; exact Hj|]. done. }
  rewrite Z.land_spec. f_equal. pose proof (Z.mod_pos_bound i 8 ltac:(lia)). rewrite mask_byte_bit by lia. f_equal. unfold j.
  rewrite Z2Nat.id by (apply Z.div_pos; lia). pose proof (Z.div_mod i 8). lia.
Qed.

Lemma netmask_contiguous k : 0 <= k <= address_bits v6 -> contiguous (if v6 then 16 else 4) (16 + k) (sockaddr v6 (netmask v6 k)).
Proof.
  intros Hk. assert (forall j, (2 <= j < 2 + bytes_)%nat -> nth j (sockaddr v6 (netmask v6 k)) 0 = mask_byte (16 + k) j) as Hn.
  { intros j Hj. destruct j as [|[|j]]; [lia|lia|]. transitivity (nth j (netmask v6 k) 0); [by destruct v6|]. rewrite netmask_nth by lia. unfold mask_byte.
    destruct (Z.leb_spec (8 * Z.of_nat (S j)) k), (Z.leb_spec (8 * Z.of_nat (S (S (S j)))) (16 + k)); try lia; try done.
    destruct (Z.leb_spec k (8 * Z.of_nat j)), (Z.leb_spec (16 + k) (8 * Z.of_nat (S (S j)))); try lia; try done. do 2 f_equal. lia. }
  destruct (netmask_address k) as [Hl _]. unfold bytes_ in Hn. split.
  - unfold klen. destruct v6; cbn [sockaddr nth length]; rewrite Hl; lia.
  - unfold klen, address_bits in *. destruct v6; cbn [sockaddr nth] in *; lia.
  - unfold klen. destruct v6; cbn [sockaddr nth] in *; intros j Hj; apply Hn; lia.
Qed.
End Bits.
(** ** A table *)
Definition off_bytes (v6 : bool) : Z := if v6 then 16 else 4.
Lemma off_eq v6 : address_off v6 = 8 * off_bytes v6.
Proof. by destruct v6. Qed.
Lemma off_in v6 : 1 <= off_bytes v6 < key_len v6.
Proof. by destruct v6. Qed.
Lemma key_max v6 : key_len v6 <= 32.
Proof. by destruct v6. Qed.
Lemma off_skipped v6 : address_off v6 = 16 + skipped v6.
Proof. by destruct v6. Qed.
Lemma key_bits v6 : 8 * key_len v6 = 16 + address_bits v6.
Proof. by destruct v6. Qed.
Lemma skipped_pos v6 : 16 <= skipped v6 < address_bits v6.
Proof. by destruct v6. Qed.

(** The length of a prefix in the key. *)
Definition in_key (k : Z) : Z := if k =? 0 then 0 else 16 + k.
Lemma in_key_kept v6 k : 0 <= k -> in_key (kept v6 k) = kept_len (address_off v6) (16 + k).
Proof.
  intros Hk. unfold in_key, kept, kept_len. pose proof (off_skipped v6). pose proof (skipped_pos v6). destruct (Z.leb_spec k (skipped v6)), (Z.leb_spec (16 + k) (address_off v6)); try lia; try done.
  rewrite (proj2 (Z.eqb_neq _ _)); [done|lia].
Qed.
Lemma in_key_inj k k' : 0 <= k -> 0 <= k' -> in_key k = in_key k' -> k = k'.
Proof. unfold in_key. destruct (Z.eqb_spec k 0), (Z.eqb_spec k' 0); lia. Qed.

Section Tables.
Context {A : Type} (v6 : bool).
Local Abbreviation off := (address_off v6).
Local Abbreviation L := (key_len v6).

(** The route [x] of the tree is the prefix [e], and has its record. *)
Record prefix_at (x : leaf) (e : entry A) : Prop := {
  pa_len : plen x = in_key (len e);
  pa_net i : skipped v6 <= i < len e -> bit (lkey x) (16 + i) = bit (net e) i }.
Definition entry_at (T : ptable A) (x : leaf) (e : entry A) : Prop := prefix_at x e /\ info T !! lp x = Some (val e).
Definition len_ok (k : Z) : Prop := k = 0 \/ skipped v6 < k <= address_bits v6.

Record table_rep (T : ptable A) (es : list (entry A)) (t M : tree) : Prop := {
  tr_radix : radix_ok off L (mem T) (head T) t M; tr_oom : oom (mem T) = [];
  tr_len e : e ∈ es -> len_ok (len e);
  tr_distinct : distinct v6 es;
  tr_route x : x ∈ routes t -> exists e, e ∈ es /\ entry_at T x e;
  tr_entry e : e ∈ es -> exists x, x ∈ routes t /\ entry_at T x e }.

(** *** Lookup *)
Lemma prefix_covers x e dst : prefix_at x e -> len_ok (len e) -> matches off (sockaddr v6 dst) x <-> covers v6 dst e.
Proof.
  intros [Hl Hn] Hlen. unfold matches, covers, agree, len_ok in *. rewrite Hl. pose proof (off_skipped v6) as Hoff. pose proof (skipped_pos v6) as Hsk. unfold in_key. split.
  - intros H i Hi. rewrite <-(sockaddr_bit v6 dst i) by lia. rewrite H; [by apply Hn|]. rewrite (proj2 (Z.eqb_neq (len e) 0)) by lia. lia.
  - destruct (Z.eqb_spec (len e) 0) as [E|E]; [lia|]. intros H i Hi. replace i with (16 + (i - 16)) by lia. rewrite sockaddr_bit, Hn by lia. apply H. lia.
Qed.
Lemma prefix_same x e y e' : prefix_at x e -> prefix_at y e' -> len_ok (len e) -> len_ok (len e') ->
  same v6 e e' <-> plen y = plen x /\ agree off (plen x) (lkey x) (lkey y).
Proof.
  intros [Hl Hn] [Hl' Hn'] Hlen Hlen'. unfold same, agree, len_ok in *. rewrite Hl, Hl'. pose proof (off_skipped v6) as Hoff. pose proof (skipped_pos v6) as Hsk. split.
  - intros [E H]. rewrite <-E. split; [done|]. intros i Hi. unfold in_key in Hi. destruct (Z.eqb_spec (len e) 0) as [E0|E0]; [lia|].
    replace i with (16 + (i - 16)) by lia. rewrite Hn, Hn' by lia. apply H. lia.
  - intros [E H]. apply in_key_inj in E; [|lia|lia]. split; [done|]. intros i Hi. rewrite <-Hn, <-Hn' by lia. apply H. unfold in_key. rewrite (proj2 (Z.eqb_neq (len e) 0)) by lia. lia.
Qed.
Lemma prefix_le x e y e' : prefix_at x e -> prefix_at y e' -> len_ok (len e) -> len_ok (len e') -> plen y <= plen x -> len e' <= len e.
Proof.
  intros [Hl _] [Hl' _] Hlen Hlen'. rewrite Hl, Hl'. unfold in_key, len_ok in *. pose proof (skipped_pos v6). destruct (Z.eqb_spec (len e') 0), (Z.eqb_spec (len e) 0); lia.
Qed.

Lemma match_refines T es t M dst : table_rep T es t M -> address v6 dst -> not_ones v6 dst ->
  match_entry (sockaddr v6 dst) T = (ok (val <$> find v6 dst es), T).
Proof.
  intros [Hr _ Hlen Hd Hro Hen] Ha Hz. pose proof (radix_tree_ok _ _ _ _ _ _ Hr) as Ht.
  destruct (match_entry_ok v6 T t Ht) with dst as (r & -> & Hres); [|done|done|].
  { intros x Hx. destruct (Hro x Hx) as (e & _ & [_ ->]). by eexists. }
  do 2 f_equal. destruct r as [x|].
  - destruct Hres as (Hx & Hm & Hmax). destruct (Hro x Hx) as (e & He & Hea & ->).
    rewrite (find_unique v6 dst es e Hd He); [done|by apply (prefix_covers x e dst Hea (Hlen e He))|].
    intros e' He' Hc'. destruct (Hen e' He') as (y & Hy & Hya & _). eapply (prefix_le x e y e'); [done|done|auto|auto|].
    apply Hmax; [done|]. by apply (prefix_covers y e' dst Hya (Hlen e' He')).
  - rewrite find_none; [done|]. intros e He Hc. destruct (Hen e He) as (y & Hy & Hya & _). apply (Hres y Hy). by apply (prefix_covers y e dst Hya (Hlen e He)).
Qed.

(** *** Insertion *)

(** Memory behind the first free address may change. *)
Lemma radix_extend s s' h t M : radix_ok off L s h t M -> (brk s <= brk s')%nat -> bounded s' -> oom s' = oom s -> masks s' = masks s -> bytes_kept s s' ->
  (forall p : ptr, (p < brk s)%nat -> nodes s' !! p = nodes s !! p) -> radix_ok off L s' h t M.
Proof.
  intros H Hb Hbd Ho Hm Hbk Hn. eapply (radix_masks _ _ _ _ _ _ _ _ H).
  - split; try done; eauto.
  - eapply masks_frame; [apply (ro_masks _ _ _ _ _ _ H)| |done]. intros p Hp. apply kept_eq, Hn, (bounded_nodes _ (ro_bounded _ _ _ _ _ _ H)).
    pose proof (gtrep_ptrs 32 MR _ _ _ (masks_rep _ _ _ _ _ (ro_masks _ _ _ _ _ _ H))) as Hp'. rewrite Forall_forall in Hp'. by apply Hp'.
Qed.

(** A prefix as the code enters it. *)
Lemma masked_prefix a k x (r : A) : address v6 a -> 0 <= k <= address_bits v6 -> lkey x = sockaddr v6 (and_addr a (netmask v6 k)) ->
  plen x = kept_len off (16 + k) -> prefix_at x (mk_entry a (kept v6 k) r).
Proof.
  intros Ha Hk Ek El. split; [rewrite El; symmetry; apply in_key_kept; lia|]. cbn [len net]. intros i Hi. pose proof (skipped_pos v6). unfold kept in Hi.
  destruct (Z.leb_spec k (skipped v6)); [lia|]. rewrite Ek, sockaddr_bit, and_bit by (done || lia). rewrite (proj2 (Z.ltb_lt _ _)) by lia. by destruct (bit a i).
Qed.
Lemma masked_zero a k i : address v6 a -> 0 <= k <= address_bits v6 -> off <= i < 8 * L -> kept_len off (16 + k) <= i -> bit (sockaddr v6 (and_addr a (netmask v6 k))) i = false.
Proof.
  intros Ha Hk Hi Hle. pose proof (off_skipped v6). pose proof (skipped_pos v6). pose proof (key_bits v6). replace i with (16 + (i - 16)) by lia. rewrite sockaddr_bit, and_bit by (done || lia).
  rewrite (proj2 (Z.ltb_ge _ _)); [by destruct (bit a _)|]. unfold kept_len in Hle. destruct (Z.leb_spec (16 + k) off); lia.
Qed.
Lemma kept_ok k : 0 <= k <= address_bits v6 -> len_ok (kept v6 k).
Proof. intros Hk. unfold len_ok, kept. destruct (Z.leb_spec k (skipped v6)); lia. Qed.
(** The record of a new entry at the end of memory. *)
Definition with_pair (p : ptr) (key : list Z) (s : state) : state :=
  s <| brk := (brk s + 3)%nat |> <| oom := tail (oom s) |> <| nodes := <[p := zero_leaf]> (<[S p := zero_inner]> (nodes s)) |> <| bytes := <[S (S p) := key]> (bytes s) |>.

Lemma with_pair_ok s h t M key : radix_ok off L s h t M -> oom s = [] -> query L key ->
  let p := brk s in radix_ok off L (with_pair p key s) h t M /\ new_pair L (with_pair p key s) t M p (S (S p)) key.
Proof.
  intros H Hoom Hq p. pose proof (ro_bounded _ _ _ _ _ _ H) as [B1 B2 B3].
  assert (forall q : ptr, (q < brk s)%nat -> nodes (with_pair p key s) !! q = nodes s !! q) as Hn.
  { intros q Hlt. unfold with_pair. destruct s; simpl in *. unfold p. rewrite !lookup_insert_ne by lia. done. }
  assert (radix_ok off L (with_pair p key s) h t M) as H'.
  { apply (radix_extend s); try done.
    - unfold with_pair. destruct s; simpl. lia.
    - unfold with_pair, p. destruct s as [ns ms bs bk om]; simpl in *. split; simpl; intros q Hs.
      + destruct (decide (q = bk)) as [->|]; [lia|]. destruct (decide (q = S bk)) as [->|]; [lia|]. rewrite !lookup_insert_ne in Hs by done. specialize (B1 q Hs). lia.
      + specialize (B2 q Hs). lia.
      + destruct (decide (q = S (S bk))) as [->|]; [lia|]. rewrite lookup_insert_ne in Hs by done. specialize (B3 q Hs). lia.
    - unfold with_pair. destruct s; simpl in *. by subst.
    - unfold with_pair. by destruct s.
    - intros k w Hk. specialize (B3 k ltac:(by eexists)). unfold with_pair, p. destruct s; simpl in *. rewrite lookup_insert_ne by lia. done. }
  split; [done|]. pose proof (gtrep_ptrs L (KR L) _ _ _ (ro_rep _ _ _ _ _ _ H)) as Ht. pose proof (gtrep_ptrs 32 MR _ _ _ (masks_rep _ _ _ _ _ (ro_masks _ _ _ _ _ _ H))) as HM.
  rewrite Forall_forall in Ht, HM.
  assert (forall q : ptr, (brk s <= q)%nat -> q ∉ tptrs t ++ tptrs M) as Hf.
  { intros q Hq' Hin. apply elem_of_app in Hin as [Hin|Hin]; [apply Ht, B1 in Hin|apply HM, B1 in Hin]; lia. }
  pose proof (masks_brk _ _ _ _ _ (ro_masks _ _ _ _ _ _ H) (ro_bounded _ _ _ _ _ _ H)) as Hbrk. split.
  - unfold with_pair. destruct s; simpl. by rewrite lookup_insert_eq.
  - unfold with_pair. destruct s; simpl. rewrite lookup_insert_ne by lia. by rewrite lookup_insert_eq.
  - unfold p, NULL. lia.
  - split; apply Hf; unfold p; lia.
  - unfold with_pair. destruct s; simpl. by rewrite lookup_insert_eq.
  - done.
Qed.
(** The record of a refused prefix is freed. *)
Definition without_pair (p : ptr) (s : state) : state :=
  s <| nodes := delete p (delete (S p) (nodes s)) |> <| bytes := delete (S (S p)) (bytes s) |>.

Lemma entry_steps (T : ptable A) key mask_ r q s' : oom (mem T) = [] -> let p := brk (mem T) in
  rn_addroute (S (S p)) (Some mask_) (head T) p (with_pair p key (mem T)) = (ok q, s') ->
  exists T1, calloc_entry T = (ok (Some p), T1)
    /\ add_entry p key mask_ r T1 = (if (q =? NULL)%nat then (ok false, mk (without_pair p s') (head T) (delete p (<[p := r]> (info T))))
                                    else (ok true, mk s' (head T) (<[p := r]> (info T)))).
Proof.
  intros Hoom p E. destruct T as [[ns ms bs bk om] h i]. simpl in Hoom, p. subst om. eexists. split; [reflexivity|].
  unfold with_pair in E. cbn -[rn_addroute] in E. subst p. unfold add_entry, with_head, on_mem, st_bind, st_get. cbn -[rn_addroute].
  match goal with |- context [rn_addroute ?a ?b ?c ?d ?s] => change (rn_addroute a b c d s = (ok q, s')) in E; rewrite E end.
  unfold ok. cbv beta iota. destruct (q =? NULL)%nat; [destruct s'; reflexivity|reflexivity].
Qed.

Lemma pair_freed s key : bounded s -> oom s = [] -> without_pair (brk s) (with_pair (brk s) key s) = s <| brk := (brk s + 3)%nat |>.
Proof.
  intros [B1 B2 B3] Hoom. destruct s as [ns ms bs bk om]. unfold with_pair, without_pair. simpl in *. subst om.
  assert (ns !! bk = None /\ ns !! S bk = None /\ bs !! S (S bk) = None) as (N1 & N2 & N3).
  { split_and!; apply eq_None_not_Some; intros H; [apply B1 in H|apply B1 in H|apply B3 in H]; lia. }
  assert (delete bk (delete (S bk) (<[bk := zero_leaf]> (<[S bk := zero_inner]> ns))) = ns) as E1.
  { apply map_eq. intros i. destruct (decide (i = bk)) as [->|]; [by rewrite lookup_delete_eq|]. rewrite lookup_delete_ne by done.
    destruct (decide (i = S bk)) as [->|]; [by rewrite lookup_delete_eq|]. by rewrite lookup_delete_ne, !lookup_insert_ne by done. }
  assert (delete (S (S bk)) (<[S (S bk) := key]> bs) = bs) as E2 by (by rewrite delete_insert_eq, delete_id).
  unfold ptr in *. by rewrite E1, E2.
Qed.

Lemma enter_refines T es t M a k r : table_rep T es t M -> address v6 a -> 0 <= k <= address_bits v6 ->
  let e := mk_entry a (kept v6 k) r in
  exists p T1 T2 t' M', calloc_entry T = (ok (Some p), T1)
    /\ add_entry p (sockaddr v6 (and_addr a (netmask v6 k))) (sockaddr v6 (netmask v6 k)) r T1 = (ok (insert v6 e es).1, T2)
    /\ table_rep T2 (insert v6 e es).2 t' M'.
Proof.
  intros [Hr Hoom Hlen Hd Hro Hen] Ha Hk e. set (key := sockaddr v6 (and_addr a (netmask v6 k))). set (p := brk (mem T)).
  pose proof (sockaddr_query v6 _ (and_address v6 a k Ha)) as Hq. fold key in Hq.
  destruct (with_pair_ok (mem T) (head T) t M key Hr Hoom Hq) as [Hr1 Hp]. fold p in Hr1, Hp.
  assert (oom (with_pair p key (mem T)) = []) as Hoom1 by (unfold with_pair; destruct (mem T); simpl in *; by subst).
  pose proof (netmask_contiguous v6 k Hk) as Hc. pose proof (key_bits v6) as Hkb. pose proof (kept_ok k Hk) as Hek. change (len_ok (len e)) in Hek.
  pose proof (insert_distinct v6 e es Hd) as Hd'.
  assert (forall y, y ∈ routes t -> lp y <> p) as Hlp.
  { intros y Hy E. destruct Hp as [_ _ _ [Hf _] _ _]. apply Hf, elem_of_app. left. rewrite <-E. apply leaves_tptrs. by apply elem_of_routes in Hy as [_ ?]. }
  destruct (addroute_ok off L (off_bytes v6) (off_eq v6) (off_in v6) (key_max v6) _ _ _ _ _ _ _ _ _ Hr1 Hoom1 Hc ltac:(lia) Hp (fun i => masked_zero a k i Ha Hk))
    as [[E (y & Hy & Hyl & Hya)]|(s' & t' & M' & x & E & Hr' & Hg & Hx & Hle & Hnew)].
  - destruct (entry_steps T key (sockaddr v6 (netmask v6 k)) r _ _ Hoom E) as (T1 & E1 & E2). fold p in E1, E2. rewrite Nat.eqb_refl in E2.
    assert (Exists (same v6 e) es) as Hex.
    { destruct (Hro y Hy) as (e' & He' & Hpa & _). apply Exists_exists. exists e'. split; [done|].
      set (x := mk_leaf p (S (S p)) key NULL (-1 - kept_len off (16 + k)) true). assert (plen x = kept_len off (16 + k)) as El by (unfold plen; simpl; lia).
      apply (prefix_same x e y e'); [by apply masked_prefix|done|done|auto|]. rewrite El. split; [done|]. eapply agree_sub; [exact Hya|lia|].
      unfold kept_len. destruct (Z.leb_spec (16 + k) off); lia. }
    unfold insert in *. rewrite decide_True in * by done. exists p, T1, (mk (without_pair p (with_pair p key (mem T))) (head T) (delete p (<[p := r]> (info T)))), t, M.
    split; [done|]. split; [exact E2|].
    unfold p. rewrite (pair_freed _ _ (ro_bounded _ _ _ _ _ _ Hr) Hoom). destruct (ro_bounded _ _ _ _ _ _ Hr) as [B1 B2 B3].
    split; simpl; try done.
    + apply (radix_extend (mem T) _ _ _ _ Hr); destruct (mem T); simpl in *; [lia| |done|done|by intros ? ?|done]. split; simpl; intros q Hs; [apply B1 in Hs|apply B2 in Hs|apply B3 in Hs]; lia.
    + by destruct (mem T).
    + intros y' Hy'. destruct (Hro y' Hy') as (e' & He' & Hpa & Hi). exists e'. split; [done|]. split; [done|]. simpl.
      rewrite lookup_delete_ne, lookup_insert_ne by (apply not_eq_sym, (Hlp y' Hy')). done.
    + intros e' He'. destruct (Hen e' He') as (y' & Hy' & Hpa & Hi). exists y'. split; [done|]. split; [done|]. simpl.
      rewrite lookup_delete_ne, lookup_insert_ne by (apply not_eq_sym, (Hlp y' Hy')). done.
  - destruct (entry_steps T key (sockaddr v6 (netmask v6 k)) r _ _ Hoom E) as (T1 & E1 & E2). fold p in E1, E2.
    rewrite (proj2 (Nat.eqb_neq p NULL)) in E2 by (destruct Hp; done). destruct Hx as [X1 X2 X3 X4 X5 X6].
    assert (prefix_at x e) as Hpx by (by apply masked_prefix).
    assert (~ Exists (same v6 e) es) as Hex.
    { rewrite Exists_exists. intros (e' & He' & Hs). destruct (Hen e' He') as (y & Hy & Hpa & _). destruct (proj1 (prefix_same x e y e' Hpx Hpa Hek (Hlen e' He')) Hs) as [H1 H2]. by apply (Hnew y Hy H1). }
    unfold insert in *. rewrite decide_False in * by done. exists p, T1, (mk s' (head T) (<[p := r]> (info T))), t', M'. split; [done|]. split; [exact E2|].
    assert (forall y, y ∈ routes t' <-> y = x \/ y ∈ routes t) as Hro'.
    { intros y. rewrite !elem_of_routes, Hle. split; [tauto|]. intros [->|?]; tauto. }
    cbn [snd] in *. split; try done.
    + simpl. by rewrite (gr_oom _ _ _ _ _ Hg).
    + intros e' [->|He']%elem_of_cons; [done|auto].
    + intros y Hy. apply Hro' in Hy as [->|Hy].
      * exists e. split; [by left|]. split; [done|]. simpl. rewrite X1. by rewrite lookup_insert_eq.
      * destruct (Hro y Hy) as (e' & He' & Hpa & Hi). exists e'. split; [by right|]. split; [done|]. simpl. rewrite lookup_insert_ne; [done|]. apply not_eq_sym, (Hlp y Hy).
    + intros e' [->|He']%elem_of_cons.
      * exists x. split; [apply Hro'; by left|]. split; [done|]. simpl. rewrite X1. by rewrite lookup_insert_eq.
      * destruct (Hen e' He') as (y & Hy & Hpa & Hi). exists y. split; [apply Hro'; by right|]. split; [done|]. simpl. rewrite lookup_insert_ne; [done|]. apply not_eq_sym, (Hlp y Hy).
Qed.
End Tables.
(** *** An empty table *)
Definition root_leaf (p : ptr) (k : ptr) (c b : Z) : leaf := mk_leaf p k (repeat c 32) NULL b false.
Definition empty_tree (p : ptr) (b : Z) : tree :=
  Nd (S p) b [] (Lf [root_leaf p rn_zeros 0 (-1 - b)]) (Lf [root_leaf (S (S p)) rn_ones 255 (-1 - b)]).

(** Memory behind [al_route_head_init]. *)
Definition init_head : radix_head := mk_head 4%nat 6%nat 7%nat.
Definition init_state (v6 : bool) : state := snd (al_route_head_init (address_off v6) (start [])).

#[local] Instance map_dec {B} (m : gmap ptr B) (P : ptr -> Prop) : (forall p, Decision (P p)) -> Decision (forall p, is_Some (m !! p) -> P p).
Proof.
  intros HP. refine (cast_if (decide (map_Forall (fun p _ => P p) m))).
  - abstract (intros p [x Hx]; by apply (m0 p x Hx)).
  - abstract (intros H; apply n; intros p x Hx; apply H; by eexists).
Defined.

Lemma init_radix v6 : radix_ok (address_off v6) (key_len v6) (init_state v6) init_head (empty_tree 3%nat (address_off v6)) (empty_tree 6%nat 0).
Proof.
  split.
  - by eexists _, _, _.
  - destruct v6; (split; [eexists; split; [vm_compute; reflexivity|]; by split_and!|]); (split; [done|]); split; (split; [done|]);
      (split; [apply (bool_decide_unpack _); vm_compute; exact I|repeat constructor; vm_compute; discriminate]).
  - destruct v6; apply (bool_decide_unpack _); vm_compute; exact I.
  - apply (bool_decide_unpack _). vm_compute. exact I.
  - constructor.
  - intros x Hx Hr. cbn in Hx. rewrite !elem_of_cons in Hx. destruct Hx as [->|[->|Hx]]; [left|right|by apply not_elem_of_nil in Hx];
      destruct v6; apply (bool_decide_unpack _); vm_compute; exact I.
  - split; intros y Hy Hr; apply list_elem_of_singleton in Hy as ->; by destruct Hr.
  - split.
    + by eexists _, _.
    + destruct v6; (split; [eexists; split; [vm_compute; reflexivity|]; by split_and!|]); (split; [done|]); split;
        (eexists _, _; split; [reflexivity|]; split_and!; try done; try (vm_compute; reflexivity); try (repeat constructor; vm_compute; discriminate)).
    + apply (bool_decide_unpack _). vm_compute. exact I.
    + apply (bool_decide_unpack _). vm_compute. exact I.
    + intros y Hy. cbn in Hy. rewrite !elem_of_cons in Hy. destruct Hy as [->|[->|Hy]]; [by left|right; left; done|by apply not_elem_of_nil in Hy].
    + cbn. left.
  - intros x Hx. by apply not_elem_of_nil in Hx.
  - split; (destruct v6; apply (bool_decide_unpack _); vm_compute; exact I).
Qed.
End RouteTable.

(** ** The routing tables *)
Module RouteSpec.
Import Radix RadixShape RadixRep Prefix PrefixFacts PrefixSpec RouteTable Router RouterFacts.

(** The prefixes of the ordinary and the policy routes of both families. *)
Definition routes_ : Type := bool -> bool -> list (entry al_router).
Definition none : routes_ := fun _ _ => [].
Definition put (pol v6 : bool) (es : list (entry al_router)) (rs : routes_) : routes_ :=
  fun pol' v6' => if Bool.eqb pol' pol && Bool.eqb v6' v6 then es else rs pol' v6'.

(** A route as it is configured. *)
Record request := mk_request { q_id : Z; q_v6 : bool; q_net : list Z; q_bits : Z; q_hop : option (list Z); q_type : Z; q_oif : Z }.
Definition valid (q : request) : Prop := address (q_v6 q) (q_net q) /\ 0 <= q_bits q <= address_bits (q_v6 q).

Section Ports.
Context (port_index : Z -> option Z).

Definition add_route (q : request) (rs : routes_) : Z * routes_ :=
  match port_index (q_oif q) with
  | None => (0, rs)
  | Some index =>
      let pol := q_type q =? POLICY_TABL in
      let e := mk_entry (q_net q) (kept (q_v6 q) (q_bits q)) (mk_router (default (zero_addr (q_v6 q)) (q_hop q)) (q_type q) (q_id q) index) in
      let '(new, es) := PrefixSpec.insert (q_v6 q) e (rs pol (q_v6 q)) in
      (if new then 0 else -1, put pol (q_v6 q) es rs)
  end.
(** A policy route for the source is preferred. *)
Definition find_route (v6 : bool) (src : option (list Z)) (dst : list Z) (rs : routes_) : option al_router :=
  match src ≫= (fun src => find v6 src (rs true v6)) with
  | Some e => Some (val e)
  | None => val <$> find v6 dst (rs false v6)
  end.

(** The same with the code. *)
Definition enter (q : request) : st routers Z :=
  al_router_insert port_index (q_id q) (q_net q) (netmask (q_v6 q) (q_bits q)) (q_hop q) (family (q_v6 q)) (q_type q) (q_oif q).
Fixpoint enter_all (qs : list request) : st routers (list Z) :=
  match qs with [] => st_ret [] | q :: qs => do z <- enter q ;; do zs <- enter_all qs ;; st_ret (z :: zs) end.
Fixpoint add_routes (qs : list request) (rs : routes_) : list Z * routes_ :=
  match qs with [] => ([], rs) | q :: qs => let '(z, rs) := add_route q rs in let '(zs, rs) := add_routes qs rs in (z :: zs, rs) end.

(** *** Refinement *)
Definition holds (R : routers) (rs : routes_) : Prop := forall pol v6, exists t M, table_rep v6 (table pol v6 R) (rs pol v6) t M.

Lemma table_set pol v6 T R pol' v6' : table pol' v6' (set_table pol v6 T R) = if Bool.eqb pol' pol && Bool.eqb v6' v6 then T else table pol' v6' R.
Proof. by destruct R, pol, v6, pol', v6'. Qed.
Lemma table_same pol v6 R : set_table pol v6 (table pol v6 R) R = R.
Proof. by destruct R, pol, v6. Qed.

Lemma routes_enter_ok q R rs : holds R rs -> valid q -> exists R', enter q R = (ok (add_route q rs).1, R') /\ holds R' (add_route q rs).2.
Proof.
  intros H [Ha Hk]. unfold enter, al_router_insert, add_route. destruct (port_index (q_oif q)) as [ix|]; [|by exists R].
  set (v6 := q_v6 q) in *. set (pol := q_type q =? POLICY_TABL). destruct (H pol v6) as (t & M & Ht). set (r := mk_router (default (zero_addr v6) (q_hop q)) (q_type q) (q_id q) ix).
  destruct (enter_refines v6 _ _ _ _ (q_net q) (q_bits q) r Ht Ha Hk) as (p & T1 & T2 & t' & M' & E1 & E2 & Hrep). set (e := mk_entry (q_net q) (kept v6 (q_bits q)) r) in *.
  assert (in_table pol v6 (do p <- calloc_entry ;; match p with None => st_ret (-1) | Some p =>
      do b <- add_entry p (sockaddr v6 (and_addr (q_net q) (netmask v6 (q_bits q)))) (sockaddr v6 (netmask v6 (q_bits q))) r ;; st_ret (if b : bool then 0 else -1) end) R
    = (ok (if (PrefixSpec.insert v6 e (rs pol v6)).1 : bool then 0 else -1), set_table pol v6 T2 R)) as E.
  { unfold in_table. rewrite (st_bind_ok _ _ _ _ _ E1). by rewrite (st_bind_ok _ _ _ _ _ E2). }
  exists (set_table pol v6 T2 R). destruct (PrefixSpec.insert v6 e (rs pol v6)) as [new es]. cbn [fst snd] in *. split.
  - rewrite <-E. by destruct v6.
  - intros pol' v6'. rewrite table_set. unfold put. destruct (Bool.eqb pol' pol && Bool.eqb v6' v6) eqn:Eb; [|apply H].
    apply andb_prop in Eb as [_ ->%eqb_prop]. eauto.
Qed.
Lemma enter_all_ok qs : forall R rs, holds R rs -> Forall valid qs -> exists R', enter_all qs R = (ok (add_routes qs rs).1, R') /\ holds R' (add_routes qs rs).2.
Proof.
  induction qs as [|q qs IH]; intros R rs H Hv; [by exists R|]. apply Forall_cons in Hv as [Hq Hqs]. destruct (routes_enter_ok q R rs H Hq) as (R1 & E1 & H1).
  cbn [enter_all add_routes]. destruct (add_route q rs) as [z rs1]. cbn [fst snd] in *. destruct (IH R1 rs1 H1 Hqs) as (R2 & E2 & H2). exists R2.
  destruct (add_routes qs rs1) as [zs rs2]. cbn [fst snd] in *. split; [|done]. rewrite (st_bind_ok _ _ _ _ _ E1). by rewrite (st_bind_ok _ _ _ _ _ E2).
Qed.
End Ports.

Lemma routes_init_ok : exists R, al_router_init [] = Some R /\ holds R none.
Proof.
  assert (forall v6, table_init v6 [] = Some (mk (A := al_router) (init_state v6) init_head ∅)) as E by (intros []; reflexivity).
  assert (forall v6, table_rep v6 (mk (A := al_router) (init_state v6) init_head ∅) [] (empty_tree 3%nat (address_off v6)) (empty_tree 6%nat 0)) as H.
  { intros v6. split; [apply init_radix|by destruct v6|..].
    - intros e He. by apply not_elem_of_nil in He.
    - intros e e' He. by apply not_elem_of_nil in He.
    - intros x Hx. by apply not_elem_of_nil in Hx.
    - intros e He. by apply not_elem_of_nil in He. }
  unfold al_router_init. rewrite !E. simpl. eexists. split; [reflexivity|]. intros [] []; simpl; eauto.
Qed.

Lemma routes_find_ok v6 src dst R rs : holds R rs -> address v6 dst -> not_ones v6 dst -> (forall a, src = Some a -> address v6 a /\ not_ones v6 a) ->
  al_router_find src dst (family v6) R = (ok (hop_of dst <$> find_route v6 src dst rs), R).
Proof.
  intros H Ha Hz Hs.
  assert (forall pol a, address v6 a -> not_ones v6 a -> in_table pol v6 (match_entry (sockaddr v6 a)) R = (ok (val <$> find v6 a (rs pol v6)), R)) as Hm.
  { intros pol a Haa Hza. destruct (H pol v6) as (t & M & Ht). unfold in_table. rewrite (match_refines v6 _ _ _ _ _ Ht Haa Hza). by rewrite table_same. }
  assert (forall c k, al_router_find src dst (family v6) R = c -> c = k -> al_router_find src dst (family v6) R = k) as Htr by (intros; congruence).
  eapply Htr; [unfold al_router_find; replace (negb (family v6 =? AF_INET)) with v6 by (by destruct v6); replace (v6 && negb (family v6 =? AF_INET6)) with false by (by destruct v6); reflexivity|].
  unfold find_route. destruct src as [a|]; simpl.
  - destruct (Hs a eq_refl) as [Haa Hza]. rewrite (st_bind_ok _ _ _ _ _ (Hm true a Haa Hza)). destruct (find v6 a (rs true v6)); simpl; [done|]. by rewrite (st_bind_ok _ _ _ _ _ (Hm false dst Ha Hz)).
  - rewrite (st_bind_ok _ _ _ _ _ (eq_refl (st_ret None R))). by rewrite (st_bind_ok _ _ _ _ _ (Hm false dst Ha Hz)).
Qed.
End RouteSpec.

(** ** Properties *)
Section Properties.
Import Radix Prefix PrefixFacts PrefixSpec RouteTable Router RouterFacts RouteSpec.

(** C4. The routing tables refine lists of prefixes that are compared without their
    first 16 bits for IPv4 and 112 bits for IPv6, as the offset of the trees has it; a
    prefix no longer than that counts as a default route. After [al_router_init], any
    sequence of [al_router_insert] with well-formed addresses and masks runs without
    undefined behaviour while memory lasts and answers as these lists do, 0 for a new
    prefix and -1 for one whose compared bits are there. After it [al_router_find], for
    addresses that are not all ones in the compared bits, changes nothing and answers with
    the next hop and the port of the policy route whose compared bits match most of the
    source, or else of the route that does so for the destination. Where the networks of
    the table share the bits left out with the destination, that is the longest prefix
    that contains the destination, all bits compared. *)
Theorem routes_refine_prefixes (port_index : Z -> option Z) (qs : list request) : Forall valid qs ->
  exists R0 R, al_router_init [] = Some R0
    /\ enter_all port_index qs R0 = (ok (add_routes port_index qs none).1, R)
    /\ (forall v6 src dst, address v6 dst -> not_ones v6 dst -> (forall a, src = Some a -> address v6 a /\ not_ones v6 a) ->
        al_router_find src dst (family v6) R = (ok (hop_of dst <$> find_route v6 src dst (add_routes port_index qs none).2), R))
    /\ (forall v6 dst, address v6 dst -> not_ones v6 dst -> one_network v6 dst ((add_routes port_index qs none).2 false v6) ->
        exists r, longest dst ((add_routes port_index qs none).2 false v6) r
          /\ al_router_find None dst (family v6) R = (ok (hop_of dst <$> (val <$> r)), R)).
Proof.
  intros Hv. destruct routes_init_ok as (R0 & E0 & H0). destruct (enter_all_ok port_index qs R0 none H0 Hv) as (R & E & H). exists R0, R. split; [done|]. split; [done|]. split.
  - intros v6 src dst Ha Hz Hs. by apply routes_find_ok.
  - intros v6 dst Ha Hz Hn. eexists. split; [by apply (find_longest v6)|]. by rewrite (routes_find_ok v6 None dst R _ H Ha Hz).
Qed.
End Properties.

(** ** Witnesses *)
Section Witnesses.
Import Radix RadixShape RadixRep RadixDec Prefix PrefixFacts PrefixSpec RouteTable Router RouterFacts RouteSpec.

(** Two nested prefixes, the first of them once more, a default route and a
    policy route for one source. *)
Definition sample_requests : list request :=
  [mk_request 7 false [10; 0; 1; 0] 24 (Some [10; 0; 9; 1]) STATIC_TABL 1;
   mk_request 8 false [10; 0; 1; 128] 25 (Some [10; 0; 9; 2]) STATIC_TABL 2;
   mk_request 9 false [10; 0; 1; 0] 24 (Some [10; 0; 9; 3]) STATIC_TABL 3;
   mk_request 10 false [0; 0; 0; 0] 0 (Some [10; 0; 9; 4]) GATEWAY_TABL 4;
   mk_request 11 false [10; 0; 7; 7] 32 None POLICY_TABL 5].

Lemma routes_refine_prefixes_witness : exists R0 R, al_router_init [] = Some R0
  /\ enter_all Some sample_requests R0 = (ok [0; 0; -1; 0; 0], R)
  /\ al_router_find None [10; 0; 1; 200] AF_INET R = (ok (Some ([10; 0; 9; 2], 2)), R)
  /\ al_router_find None [10; 0; 3; 3] AF_INET R = (ok (Some ([10; 0; 9; 4], 4)), R)
  /\ al_router_find (Some [10; 0; 7; 7]) [10; 0; 1; 200] AF_INET R = (ok (Some ([10; 0; 1; 200], 5)), R).
Proof.
  assert (forall a, bool_decide (address false a) = true -> address false a) as Ha by (intros a; apply bool_decide_eq_true_1).
  destruct (routes_refine_prefixes Some sample_requests) as (R0 & R & E0 & E & Hf & _).
  { repeat constructor; vm_compute; discriminate. }
  exists R0, R. split; [exact E0|]. split; [rewrite E; vm_compute; reflexivity|]. clear E E0.
  change AF_INET with (family false). rewrite !Hf; [|by apply Ha|exists 32; by vm_compute|intros a [= <-]; split; [by apply Ha|exists 32; by vm_compute]
    |by apply Ha|exists 32; by vm_compute|done|by apply Ha|exists 32; by vm_compute|done].
  vm_compute. done.
Defined.
End Witnesses.
