(* ===== verification/Filter.v ===== *)
(** * Filters: the virtual services

    Models [alpha/al_filter.c] and [alpha/al_filter.h]: which filter a packet's
    destination, port and protocol belong to. The prefixes of filters are in
    two radix trees and lead to an index; under the index a red-black tree has
    the chain of the prefix's filters, in clusters as the members of a group
    are. A new filter loads its group. Locks are left out: each operation runs
    under one. *)

From Stdlib Require Import ZArith Lia Bool String.
From stdpp Require Import base tactics option gmap list list_numbers.
From S2P Require Import Prelude Checksum RbTree RbRep RbMap Table Cluster Member Group Radix RadixShape RadixRep RadixMatch RadixDec Prefix.

Open Scope Z_scope.

Module Filter.
Import Cluster Prefix.

(** [al_filter_t] *)
Record al_filter := mk_filter { fid : Z; gid : Z; is_used : bool; type : Z; port : Z; proto : Z }.
(** [al_filter_chain_t] *)
Record chain := mk_chain { nums : Z; first : cluster al_filter; list_ : list (cluster al_filter) }.
(** [al_fargs] *)
Record al_fargs := mk_fargs { a_fid : Z; a_gid : Z; ftype : Z }.

(** What a prefix leads to: [al_filter_radix_t] with its index and its mask. *)
Record al_filter_radix := mk_radix { index : Z; prefix : list Z }.

(** [al_api_filter], with the address and the mask in network order. *)
Record al_api_filter := mk_api {
  iptype : Z; f_proto : Z; f_addr : list Z; f_mask : list Z; id : Z; f_gid : Z; f_port : Z; filter_type : Z }.

Definition IPPROTO_IP : Z := 0.

(** [INIT_FC] over memory with contents [garbage]. *)
Definition INIT_FC (garbage : list al_filter) : list al_filter := map (fun m => m <| is_used := false |>) garbage.

(** The filters, the groups they load, the prefixes and the last index given. *)
Record filters := mk_filters {
  g_filters : Table.table chain; g_members : Table.table Group.al_group;
  filter4 : ptable al_filter_radix; filter6 : ptable al_filter_radix; g_index : Z }.

Definition in_filters {A} (c : st (Table.table chain) A) : st filters A := fun F =>
  let '(r, T) := c (g_filters F) in (r, F <| g_filters := T |>).
Definition in_members {A} (c : st (Table.table Group.al_group) A) : st filters A := fun F =>
  let '(r, T) := c (g_members F) in (r, F <| g_members := T |>).
Definition in_radix {A} (v6 : bool) (c : st (ptable al_filter_radix) A) : st filters A := fun F =>
  if v6 then let '(r, T) := c (filter6 F) in (r, F <| filter6 := T |>)
  else let '(r, T) := c (filter4 F) in (r, F <| filter4 := T |>).

(** [al_filter_init], the sentinel at [sn]; the groups are there already. *)
Definition al_filter_init (sn : RbTree.ptr) (groups : Table.table Group.al_group) (oom : list bool) : option filters :=
  a ← table_init false oom; b ← table_init true oom;
  match Table.init sn with
  | (inr _, T) => Some (mk_filters T groups a b 0)
  | _ => None
  end.

(** *** Prefixes *)

(** The index of a new prefix, [0] for a failure. *)
Definition al_filter_radix_insert (v6 : bool) (addr mask_ : list Z) : st filters Z :=
  do p <- in_radix v6 calloc_entry ;;
  match p with
  | None => st_ret 0
  | Some p =>
      do _ <- st_modify (fun F => F <| g_index := u32 (g_index F + 1) |>) ;;
      do F <- st_get ;;
      let i := g_index F in
      do r <- in_radix v6 (add_entry p (sockaddr v6 addr) (sockaddr v6 mask_) (mk_radix i mask_)) ;;
      st_ret (if r : bool then i else 0)
  end.
Definition al_filter_radix_del (v6 : bool) (addr mask_ : list Z) : st filters Z :=
  do r <- in_radix v6 (delete_entry (sockaddr v6 addr) (sockaddr v6 mask_)) ;; st_ret (default 0 (index <$> r)).
Definition al_filter_radix_lookup (v6 : bool) (addr mask_ : list Z) : st filters Z :=
  do r <- in_radix v6 (lookup_entry (sockaddr v6 addr) (sockaddr v6 mask_)) ;; st_ret (default 0 (index <$> r)).

(** [al_filter4_radix_lookup], [al_filter6_radix_lookup] *)
Definition radix_match (v6 : bool) (addr : list Z) : st filters (option al_filter_radix) := in_radix v6 (match_entry (sockaddr v6 addr)).

(** *** Filters of a prefix *)
Definition clusters (c : chain) : list (cluster al_filter) := first c :: list_ c.

Definition serves (port_ proto_ : Z) (m : al_filter) : bool :=
  (port m =? port_) && ((proto m =? proto_) || (proto m =? IPPROTO_IP)).

Definition lookup_body (port_ proto_ : Z) (m : al_filter) (_ : option al_filter) : al_filter * option al_filter * bool :=
  if serves port_ proto_ m then (m, Some m, true) else (m, None, false).

Definition al_filter_lookup (c : chain) (port_ proto_ : Z) : res (option al_filter) :=
  let* (_, r, _) := for_chain is_used (lookup_body port_ proto_) (clusters c) None in ok r.

(** [al_filter4_search], [al_filter6_search]: the result code, and what [fargs] gets. *)
Definition al_filter_search (v6 : bool) (dst : list Z) (port_ proto_ : Z) : st filters (option al_fargs) :=
  do f <- radix_match v6 dst ;;
  match f with
  | None => st_ret None
  | Some f =>
      do node <- in_filters (Table.find (index f)) ;;
      match node with
      | None => st_ret None
      | Some node =>
          do fc <- in_filters (Table.read node) ;;
          do f <- st_lift (al_filter_lookup fc port_ proto_) ;;
          st_ret ((fun f => mk_fargs (fid f) (gid f) (type f)) <$> f)
      end
  end.

(** [al_filter_delete]: the clusters' counts and [nums] go down. A further
    cluster in which no filter is seen is freed. *)
Definition del_body (id_ : Z) (m : al_filter) (seen : bool) : al_filter * bool * bool :=
  if fid m =? id_ then (m <| is_used := false |>, seen, true) else (m, true, false).
Definition dec (c : cluster al_filter) : cluster al_filter := Cluster.mk (u16 (cnt c - 1)) (m c).

Fixpoint del_list (id_ : Z) (l : list (cluster al_filter)) : res (Z * list (cluster al_filter)) :=
  match l with
  | [] => ok (-1, [])
  | c :: l =>
      let* (c, seen, found) := for_cluster is_used (del_body id_) c false in
      if found : bool then ok (0, dec c :: l) else
      let* (rc, l) := del_list id_ l in
      ok (rc, if seen : bool then c :: l else l)
  end.

Definition al_filter_delete (c : chain) (id_ : Z) : res (Z * chain) :=
  let* (f, _, found) := for_cluster is_used (del_body id_) (first c) false in
  if found : bool then ok (0, c <| first := dec f |> <| nums := u16 (nums c - 1) |>) else
  let c := c <| first := f |> in
  let* (rc, l) := del_list id_ (list_ c) in
  let c := c <| list_ := l |> in
  ok (rc, if rc =? 0 then c <| nums := u16 (nums c - 1) |> else c).

Definition al_set_filter (conf : al_api_filter) (m : al_filter) : al_filter :=
  m <| fid := id conf |> <| gid := f_gid conf |> <| is_used := true |> <| type := filter_type conf |>
    <| proto := f_proto conf |> <| port := Chksum.bswap16 (f_port conf) |>.

(** [for(i=0; i<mc->cnt; i++)]: of a further cluster only as many slots are
    looked at as are in use. *)
Definition fill_counted (set_ : al_filter -> al_filter) (c : cluster al_filter) : option (cluster al_filter) :=
  slots ← fill is_used set_ (take (Z.to_nat (cnt c)) (m c));
  Some (Cluster.mk (u16 (cnt c + 1)) (slots ++ drop (Z.to_nat (cnt c)) (m c))).
Fixpoint fill_further (set_ : al_filter -> al_filter) (cs : list (cluster al_filter)) : option (list (cluster al_filter)) :=
  match cs with
  | [] => None
  | c :: cs =>
      match fill_counted set_ c with
      | Some c => Some (c :: cs)
      | None => cons c <$> fill_further set_ cs
      end
  end.

(** The chain after [al_filter_add] has loaded the group; [garbage] is the memory
    of a new cluster. For a new cluster [nums] stays. *)
Definition add_to_chain (garbage : option (list al_filter)) (c : chain) (conf : al_api_filter) : Z * chain :=
  match fill_cluster is_used (al_set_filter conf) (first c) with
  | Some f => (0, c <| first := f |> <| nums := u16 (nums c + 1) |>)
  | None =>
      match fill_further (al_set_filter conf) (list_ c) with
      | Some l => (0, c <| list_ := l |> <| nums := u16 (nums c + 1) |>)
      | None =>
          match INIT_FC <$> garbage with
          | Some (m0 :: rest) => (0, c <| list_ := Cluster.mk 1 (al_set_filter conf m0 :: rest) :: list_ c |>)
          | _ => (-1, c)
          end
      end
  end.

Section Api.
(** The database and what [al_malloc] returns: for a group, for a node with the
    first cluster of a prefix, and for a further cluster. *)
Context (db : Group.database) (gmem : Group.memory) (mem_node : option (RbTree.node * list al_filter)) (mem_cluster : option (list al_filter)).

Definition al_filter_add (c : chain) (conf : al_api_filter) : st filters (Z * chain) :=
  do rc <- in_members (Group.al_group_load gmem db (id conf) (f_gid conf)) ;;
  if negb (rc =? 0) then st_ret (rc, c) else st_ret (add_to_chain mem_cluster c conf).

(** An unknown family leaves the addresses unset. *)
Definition family_of (f : al_api_filter) : res bool :=
  if iptype f =? AF_INET then ok false else if iptype f =? AF_INET6 then ok true else err Undef.

Definition al_filter_del (f : al_api_filter) : st filters Z :=
  do v6 <- st_lift (family_of f) ;;
  do i <- al_filter_radix_lookup v6 (f_addr f) (f_mask f) ;;
  if i =? 0 then st_ret (-1) else
  do node <- in_filters (Table.find i) ;;
  match node with
  | None => st_ret (-1)
  | Some node =>
      do mc <- in_filters (Table.read node) ;;
      do (rc, mc) <- st_lift (al_filter_delete mc (id f)) ;;
      do _ <- in_filters (Table.write node mc) ;;
      if nums mc =? 0 then
        do r <- al_filter_radix_del v6 (f_addr f) (f_mask f) ;;
        do _ <- in_filters (Table.remove node) ;;
        st_ret (if r =? 0 then -1 else rc)
      else st_ret rc
  end.

(** A prefix that the filter's address finds with the same mask gets the filter,
    otherwise the prefix is new. The memory of a node that is not inserted is
    given back. *)
Definition al_filter_insert (f : al_api_filter) : st filters Z :=
  do v6 <- st_lift (family_of f) ;;
  do r <- radix_match v6 (f_addr f) ;;
  match (match r with Some e => if bool_decide (prefix e = f_mask f) then Some e else None | None => None end) with
  | Some e =>
      do node <- in_filters (Table.find (index e)) ;;
      match node with
      | None => st_throw Undef
      | Some node =>
          do mc <- in_filters (Table.read node) ;;
          do (rc, mc) <- al_filter_add mc f ;;
          do _ <- in_filters (Table.write node mc) ;;
          st_ret rc
      end
  | None =>
      do i <- al_filter_radix_insert v6 (f_addr f) (f_mask f) ;;
      if i =? 0 then st_ret (-1) else
      match mem_node with
      | None => do _ <- al_filter_radix_del v6 (f_addr f) (f_mask f) ;; st_ret (-1)
      | Some (garbage, slots) =>
          do (rc, mc) <- al_filter_add (mk_chain 0 (Cluster.mk 0 (INIT_FC slots)) []) f ;;
          if negb (rc =? 0) then do _ <- al_filter_radix_del v6 (f_addr f) (f_mask f) ;; st_ret (-1) else
          do _ <- in_filters (Table.enter garbage i mc) ;; st_ret 0
      end
  end.
End Api.

(** [al_filter_type] *)
Definition al_filter_type (t : str) : Z :=
  if bool_decide (t = <<"pkg_filter">>) then 0
  else if bool_decide (t = <<"nat">>) then 1
  else if bool_decide (t = <<"llb">>) then 2
  else if bool_decide (t = <<"simple_trans">>) then 3
  else if bool_decide (t = <<"gslb">>) then 4
  else if bool_decide (t = <<"tcp_proxy">>) then 5
  else if bool_decide (t = <<"http_proxy">>) then 6
  else -1.
End Filter.

(** ** Lemmas *)
Module FilterFacts.
Import Cluster ClusterFacts Table TableFacts Radix RadixShape RadixRep RadixMatch Prefix PrefixFacts Filter.

Definition all_filters (c : chain) : list al_filter := ClusterFacts.members is_used (clusters c).
Definition sound_chain (c : chain) : Prop := Forall (sound is_used) (clusters c).

(** *** The chain of a prefix *)
Lemma run_lookup port_ proto_ xs : forall a, (run (lookup_body port_ proto_) xs a).1.2
  = match xs with [] => a | _ => List.find (serves port_ proto_) xs end.
Proof.
  induction xs as [|x xs IH]; intros a; [done|]. cbn [run]. unfold lookup_body at 1. cbn [List.find].
  destruct (serves port_ proto_ x); [done|]. specialize (IH None).
  destruct (run (lookup_body port_ proto_) xs None) as [[ys b] st]. cbn in *. rewrite IH. by destruct xs.
Qed.

Lemma al_filter_lookup_ok c port_ proto_ : sound_chain c ->
  al_filter_lookup c port_ proto_ = ok (List.find (serves port_ proto_) (all_filters c)).
Proof.
  intros Hs. unfold al_filter_lookup.
  destruct (for_chain_run is_used (lookup_body port_ proto_) (clusters c) None Hs) as (cs & E & _).
  { intros x a Hx. unfold lookup_body. by destruct (serves port_ proto_ x). }
  rewrite E. cbn [res_bind ok]. rewrite run_lookup. unfold all_filters. by destruct (members is_used (clusters c)).
Qed.

(** A new filter in a cluster. *)
Lemma fill_counted_sound set_ c c' : sound is_used c -> (forall x, is_used (set_ x) = true) -> fill_counted set_ c = Some c' ->
  sound is_used c' /\ exists x l k, used is_used (m c) = l ++ k /\ used is_used (m c') = l ++ set_ x :: k.
Proof.
  intros [Hl Hc] Hset. unfold fill_counted. destruct (fill is_used set_ _) as [slots|] eqn:E; [|done]. intros [= <-].
  destruct (fill_spec is_used set_ _ _ E) as (pre & x & post & Em & -> & Hx & Hp).
  set (n := Z.to_nat (cnt c)) in *. assert (m c = pre ++ x :: post ++ drop n (m c)) as Emc.
  { rewrite <-(take_drop n (m c)) at 1. rewrite Em. by rewrite <-app_assoc. }
  assert (used is_used (m c) = used is_used pre ++ used is_used (post ++ drop n (m c))) as Eu.
  { rewrite Emc at 1. rewrite used_app. unfold used at 2. cbn. by rewrite Hx. }
  assert (used is_used ((pre ++ set_ x :: post) ++ drop n (m c)) = used is_used pre ++ set_ x :: used is_used (post ++ drop n (m c))) as Eu'.
  { rewrite <-app_assoc, used_app. unfold used at 2. cbn. by rewrite Hset. }
  split; [|cbn [m]; exists x, (used is_used pre), (used is_used (post ++ drop n (m c))); by split].
  assert (length (m c) = length pre + S (length post + length (drop n (m c))))%nat as Hlen
    by (rewrite Emc at 1; rewrite !length_app; cbn; by rewrite length_app).
  assert (length (used is_used (m c)) <= length (m c))%nat as Hle by apply List.filter_length_le.
  assert (length (used is_used (m c)) < length (m c))%nat as Hlt.
  { rewrite Eu, length_app. rewrite Hlen. pose proof (List.filter_length_le is_used pre).
    pose proof (List.filter_length_le is_used (post ++ drop n (m c))) as Hq. rewrite length_app in Hq. unfold used. lia. }
  split; cbn [cnt m].
  - rewrite !length_app. cbn. rewrite <-Hl. lia.
  - rewrite Eu', Hc, length_app. cbn [length]. rewrite Eu, length_app in Hlt |- *. rewrite Hl in Hlt. unfold CLUSTER_SIZE in Hlt.
    rewrite u16_small by lia. lia.
Qed.

Lemma fill_further_sound set_ cs : forall cs', Forall (sound is_used) cs -> (forall x, is_used (set_ x) = true) ->
  fill_further set_ cs = Some cs' ->
  Forall (sound is_used) cs' /\ exists x, members is_used cs' ≡ₚ set_ x :: members is_used cs.
Proof.
  induction cs as [|c cs IH]; intros cs' Hs Hset H; [done|]. apply Forall_cons in Hs as [Hc Hs]. cbn in H.
  destruct (fill_counted set_ c) as [c'|] eqn:E.
  - injection H as <-. destruct (fill_counted_sound set_ c c' Hc Hset E) as [Hc' (x & l & k & El & Ek)].
    split; [by constructor|]. exists x. unfold members. cbn [map concat]. rewrite El, Ek. solve_Permutation.
  - destruct (fill_further set_ cs) as [l|] eqn:E'; [|done]. injection H as <-.
    destruct (IH l Hs Hset eq_refl) as [Hl [x Hx]]. split; [by constructor|]. exists x.
    unfold members in *. cbn [map concat]. rewrite Hx. solve_Permutation.
Qed.

Lemma INIT_FC_unused g : used is_used (INIT_FC g) = [].
Proof. unfold used, INIT_FC. induction g as [|x g IH]; [done|]. cbn. by destruct x. Qed.

(** *** The filters of a packet *)
Definition radix_of (v6 : bool) (F : filters) : ptable al_filter_radix := if v6 then filter6 F else filter4 F.

(** The prefixes are a well-formed tree, each leads to a chain of the table, and
    the counts of the chains are right. *)
Record filters_ok (v6 : bool) (F : filters) (t : tree) (chains : gmap Z chain) : Prop := {
  filters_tree : tree_ok (address_off v6) (key_len v6) (mem (radix_of v6 F)) (head (radix_of v6 F)) t;
  filters_table : exists mp, holds (g_filters F) mp chains;
  filters_info x : x ∈ routes t -> exists e c, info (radix_of v6 F) !! lp x = Some e /\ chains !! index e = Some c /\ sound_chain c }.

Lemma in_radix_ok {A} v6 F (c : st (ptable al_filter_radix) A) a : c (radix_of v6 F) = (ok a, radix_of v6 F) -> in_radix v6 c F = (ok a, F).
Proof. intros E. unfold in_radix. destruct F, v6; cbn in *; by rewrite E. Qed.
Lemma in_filters_ok {A} F (c : st (table chain) A) a : c (g_filters F) = (ok a, g_filters F) -> in_filters c F = (ok a, F).
Proof. intros E. unfold in_filters. rewrite E. by destruct F. Qed.
End FilterFacts.

(** ** Properties *)
Section Properties.
Import Cluster ClusterFacts Table TableFacts Radix RadixShape RadixRep RadixMatch Prefix PrefixFacts Filter FilterFacts.

(** C20. The filter of a packet, in a well-formed table ([filters_ok]) and for a
    destination whose last two bytes are not both 255: the table compares only the last
    two bytes of an address, in IPv4 and in IPv6, so that networks that differ in the
    bytes before are not told apart. Among the prefixes that match the destination in
    these bits the longest decides; of its filters the first that has the port, and
    the protocol or any, is the answer, and there is none when that prefix has none.
    The search does not fail and changes nothing. *)
Theorem filter_search_longest (v6 : bool) (F : filters) (t : tree) (chains : gmap Z chain) (dst : list Z) (port_ proto_ : Z) :
  filters_ok v6 F t chains -> address v6 dst -> not_ones v6 dst ->
  exists r, al_filter_search v6 dst port_ proto_ F
      = (ok (x ← r; e ← info (radix_of v6 F) !! lp x; c ← chains !! index e;
             (fun f => mk_fargs (fid f) (gid f) (type f))
             <$> List.find (fun f => (port f =? port_) && ((proto f =? proto_) || (proto f =? IPPROTO_IP))) (all_filters c)), F)
    /\ match r with
       | None => forall y, y ∈ routes t -> ~ matches (address_off v6) (sockaddr v6 dst) y
       | Some x => x ∈ routes t /\ matches (address_off v6) (sockaddr v6 dst) x
           /\ forall y, y ∈ routes t -> matches (address_off v6) (sockaddr v6 dst) y -> plen y <= plen x
       end.
Proof.
  intros [Ht (mp & Hh) Hi] Ha Hz.
  destruct (match_entry_ok v6 (radix_of v6 F) t Ht) with (a := dst) as (r & E & Hr); [|done|done|].
  { intros x Hx. destruct (Hi x Hx) as (e & c & -> & _). eauto. }
  exists r. split; [|exact Hr]. unfold al_filter_search, radix_match.
  rewrite (st_bind_ok _ _ _ _ _ (in_radix_ok _ _ _ _ E)). destruct r as [x|]; [|done]. destruct Hr as (Hx & _).
  destruct (Hi x Hx) as (e & c & Ee & Ec & Hs). simpl. rewrite Ee. simpl. rewrite Ec. simpl.
  destruct (holds_node _ _ _ _ _ Hh Ec) as (p & Hp & _).
  assert (Table.find (index e) (g_filters F) = (ok (Some p), g_filters F)) as Ef by (by rewrite (find_ok _ _ _ _ Hh), Hp).
  rewrite (st_bind_ok _ _ _ _ _ (in_filters_ok _ _ _ Ef)).
  rewrite (st_bind_ok _ _ _ _ _ (in_filters_ok _ _ _ (read_ok _ _ _ _ _ _ Hh Hp Ec))).
  unfold st_bind, st_lift. by rewrite (al_filter_lookup_ok c port_ proto_ Hs).
Qed.

(** A new filter joins its chain: the counts stay right, exactly one filter is
    added, in use and with the configuration's identifiers, type, protocol and
    port, and it fails only for want of memory. *)
Theorem added_filter_joins (c : chain) (conf : al_api_filter) (garbage : list al_filter) :
  sound_chain c -> length garbage = CLUSTER_SIZE ->
  exists x c', add_to_chain (Some garbage) c conf = (0, c') /\ sound_chain c'
    /\ all_filters c' ≡ₚ al_set_filter conf x :: all_filters c.
Proof.
  intros Hs Hg. apply Forall_cons in Hs as [Hf Hl]. unfold add_to_chain.
  assert (forall x, is_used (al_set_filter conf x) = true) as Hset by (by intros []).
  destruct (fill_cluster is_used (al_set_filter conf) (first c)) as [f|] eqn:E1.
  - destruct (fill_cluster_sound is_used _ _ _ Hf Hset E1) as [Hf' (x & l & k & El & Ek)].
    eexists x, _. split; [reflexivity|]. destruct c as [n f0 l0]. split; [by constructor|].
    unfold all_filters, members. cbn in *. rewrite El, Ek. solve_Permutation.
  - destruct (fill_further (al_set_filter conf) (list_ c)) as [l|] eqn:E2.
    + destruct (fill_further_sound _ _ _ Hl Hset E2) as [Hl' [x Hx]].
      eexists x, _. split; [reflexivity|]. destruct c as [n f0 l0]. split; [by constructor|].
      unfold all_filters, members in *. cbn in *. rewrite Hx. solve_Permutation.
    + cbn [fmap option_fmap option_map]. pose proof (INIT_FC_unused garbage) as Hu.
      assert (length (INIT_FC garbage) = CLUSTER_SIZE) as Hlen by (unfold INIT_FC; by rewrite length_map).
      destruct (INIT_FC garbage) as [|m0 rest]; [done|]. unfold used in Hu. cbn in Hu. destruct (is_used m0) eqn:E0; [done|].
      assert (used is_used (al_set_filter conf m0 :: rest) = [al_set_filter conf m0]) as Hused
        by (unfold used; cbn [List.filter]; by rewrite Hset, Hu).
      eexists m0, _. split; [reflexivity|]. destruct c as [n f0 l0]. split.
      * constructor; [done|]. constructor; [|done]. split; [exact Hlen|]. cbn [cnt m]. by rewrite Hused.
      * unfold all_filters, members. cbn [clusters first list_ map concat m field_update]. rewrite Hused. solve_Permutation.
Qed.
End Properties.

(** ** Witnesses *)
Section Witnesses.
Import Cluster ClusterFacts Table TableFacts Radix RadixShape RadixRep RadixMatch RadixDec Prefix PrefixFacts Filter FilterFacts.

Definition empty_slot : al_filter := mk_filter 0 0 false 0 0 0.
Definition no_table : ptable al_filter_radix := mk (start []) (mk_head NULL NULL NULL) ∅.
Definition empty_filters : filters :=
  match al_filter_init 1%nat Group.empty_groups [] with
  | Some F => F
  | None => mk_filters (Table.mk (RbTree.mk ∅ 0%nat 0%nat) ∅) Group.empty_groups no_table no_table 0
  end.

(** Filter [i] of a prefix, on port [1000 + i], any protocol, and the code's calls for it. *)
Definition conf_of (addr mask_ : list Z) (i : Z) : al_api_filter := mk_api AF_INET IPPROTO_IP addr mask_ i 1 (1000 + i) 3.
Definition insert_ (f : al_api_filter) : st filters Z :=
  al_filter_insert Group.sample_db Group.sample_memory (Some (Group.dirty_node, repeat empty_slot 8)) (Some (repeat empty_slot 8)) f.
Definition host : list Z := [10; 0; 1; 5].
Definition full_mask : list Z := [255; 255; 255; 255].
Fixpoint each (c : Z -> st filters Z) (l : list Z) : st filters (list Z) :=
  match l with [] => st_ret [] | i :: l => do r <- c i ;; do rs <- each c l ;; st_ret (r :: rs) end.
Definition found_on (i : Z) : st filters (option Z) :=
  do r <- al_filter_search false host (Chksum.bswap16 (1000 + i)) 6 ;; st_ret (a_fid <$> r).

(** Nine filters of one address: the ninth opens a second cluster and is not
    counted, so that when the first eight are deleted it goes with them. *)
Theorem ninth_filter_is_lost :
  fst ((do a <- each (fun i => insert_ (conf_of host full_mask i)) [1; 2; 3; 4; 5; 6; 7; 8; 9] ;;
        do before <- found_on 9 ;;
        do d <- each (fun i => al_filter_del (conf_of host full_mask i)) [1; 2; 3; 4; 5; 6; 7; 8] ;;
        do after <- found_on 9 ;;
        st_ret (a, before, d, after)) empty_filters)
  = ok (repeat 0 9, Some 9, repeat 0 8, None).
Proof. vm_compute. reflexivity. Qed.

(** A filter that was deleted cannot be entered again: its group is still there. *)
Theorem deleted_filter_cannot_return :
  fst (each (fun _ => insert_ (conf_of host full_mask 1)) [0] empty_filters) = ok [0]
  /\ fst ((do _ <- insert_ (conf_of host full_mask 1) ;; do d <- al_filter_del (conf_of host full_mask 1) ;;
           do r <- insert_ (conf_of host full_mask 1) ;; st_ret (d, r)) empty_filters) = ok (0, -1).
Proof. split; vm_compute; reflexivity. Qed.

(** A second filter for a network is refused once a longer prefix has the
    network's address: the lookup finds that one, and the prefix counts as new. *)
Theorem second_filter_refused :
  fst ((do a <- insert_ (conf_of [10; 0; 1; 0] [255; 255; 255; 0] 1) ;;
        do b <- insert_ (conf_of [10; 0; 1; 0] [255; 255; 255; 128] 2) ;;
        do c <- insert_ (conf_of [10; 0; 1; 0] [255; 255; 255; 0] 3) ;;
        st_ret (a, b, c)) empty_filters) = ok (0, 0, -1).
Proof. vm_compute. reflexivity. Qed.

(** One filter, for the host. *)
Definition one_filter : filters := snd (insert_ (conf_of host full_mask 1) empty_filters).
Definition one_chain : chain :=
  mk_chain 1 (Cluster.mk 1 (al_set_filter (conf_of host full_mask 1) empty_slot :: repeat empty_slot 7)) [].
Definition one_tree : tree :=
  Nd 4%nat 32 [] (Nd 10%nat 39 [] (Lf [mk_leaf 3%nat rn_zeros (repeat 0 32) NULL (-33) false])
    (Lf [mk_leaf 9%nat 11%nat (sockaddr false host) 14%nat (-49) true])) (Lf [mk_leaf 5%nat rn_ones (repeat 255 32) NULL (-33) false]).

Lemma one_filter_ok : filters_ok false one_filter one_tree {[1 := one_chain]}.
Proof.
  split.
  - apply (bool_decide_unpack _). vm_compute. exact I.
  - destruct (init_ok (A := chain) 1%nat) as (T0 & E0 & H0); [done|].
    destruct (enter_ok T0 ∅ ∅ 1 one_chain Group.dirty_node H0) as (T1 & p & E1 & H1); [done|].
    exists (<[1 := p]> ∅). assert (g_filters one_filter = T1) as ->; [|exact H1].
    assert (T1 = snd (enter Group.dirty_node 1 one_chain (snd (init (A := chain) 1%nat)))) as -> by (rewrite E0; cbn [snd]; by rewrite E1).
    vm_compute. reflexivity.
  - intros x Hx. assert (x = mk_leaf 9%nat 11%nat (sockaddr false host) 14%nat (-49) true) as ->.
    { assert (routes one_tree = [mk_leaf 9%nat 11%nat (sockaddr false host) 14%nat (-49) true]) as Er by (vm_compute; reflexivity).
      rewrite Er in Hx. by apply list_elem_of_singleton in Hx. }
    exists (mk_radix 1 full_mask), one_chain. split_and!; [vm_compute; reflexivity|by rewrite lookup_singleton_eq|].
    constructor; [|constructor]. split; vm_compute; reflexivity.
Qed.

Lemma filter_search_longest_witness :
  exists r, al_filter_search false host (Chksum.bswap16 1001) 6 one_filter
      = (ok (x ← r; e ← info (radix_of false one_filter) !! lp x; c ← ({[1 := one_chain]} : gmap Z chain) !! index e;
             (fun f => mk_fargs (fid f) (gid f) (type f))
             <$> List.find (fun f => (port f =? Chksum.bswap16 1001) && ((proto f =? 6) || (proto f =? IPPROTO_IP))) (all_filters c)), one_filter)
    /\ fst (al_filter_search false host (Chksum.bswap16 1001) 6 one_filter) = ok (Some (mk_fargs 1 1 3)).
Proof.
  destruct (filter_search_longest false one_filter one_tree {[1 := one_chain]} host (Chksum.bswap16 1001) 6 one_filter_ok) as (r & E & _).
  - apply (bool_decide_unpack _). vm_compute. exact I.
  - exists 32. vm_compute. repeat split; discriminate.
  - exists r. split; [exact E|vm_compute; reflexivity].
Defined.

Lemma added_filter_joins_witness :
  exists x c', add_to_chain (Some (repeat empty_slot 8)) one_chain (conf_of host full_mask 2) = (0, c') /\ sound_chain c'
    /\ all_filters c' ≡ₚ al_set_filter (conf_of host full_mask 2) x :: all_filters one_chain.
Proof.
  apply (added_filter_joins one_chain (conf_of host full_mask 2) (repeat empty_slot 8)).
  - constructor; [split; vm_compute; reflexivity|constructor].
  - reflexivity.
Defined.
End Witnesses.
