(* ===== verification/Hosts.v ===== *)
(** * Neighbours and ports

    What the data plane knows about the network next to it: the addresses of its
    ports ([alpha/al_vport.c], [alpha/al_dev.h], [alpha/al_ip.h]; module [Vport]), the
    Ethernet addresses of its neighbours, learned from ARP and neighbour
    discovery ([alpha/al_arp.c], [alpha/al_icmp.c]; modules [Arp] and [Icmp6]), and
    the ports behind Ethernet addresses ([alpha/al_macport.c]; module [Macport]).
    IPv4 and IPv6 addresses are the machine words the code compares, Ethernet
    addresses lists of bytes; packets are those of [Process]. The tables keep
    the lists of their buckets. Locks are left out: each operation runs under
    one. *)

From Stdlib Require Import ZArith Lia Bool.
From stdpp Require Import base tactics option gmap list.
From S2P Require Import Prelude Checksum Tuple5 Process.

Open Scope Z_scope.

(** A little-endian load of a machine word. *)
Fixpoint word_of (bs : list Z) : Z := match bs with [] => 0 | b :: bs => b + 256 * word_of bs end.

(** ** Ports and their addresses *)
Module Vport.
Import Session_t.

Definition AF_INET : Z := 2.
Definition AF_INET6 : Z := 10.
Definition MAX_ETHER_COUTER : nat := 64.

(** [ip_t]; addresses are unions as in a session. Nothing reads the count of
    references. *)
Record ip_t := mk_ip { ip : Z; mask : Z; id : Z; iptype : Z; asstype : Z }.
Record vport := mk_vport { mtu : Z; ipv4 : list ip_t; ipv6 : list ip_t; haddr : list Z }.
(** [al_dev], and [g_vport_ary]. *)
Record al_dev := mk_dev { dev_port : Z; dev_id : Z; port : vport }.
Abbreviation devices := (list al_dev).

Definition dev_at (i : nat) : st devices al_dev := fun D =>
  match D !! i with Some d => (ok d, D) | None => (err Undef, D) end.
Definition set_vport (i : nat) (v : vport) : st devices unit :=
  do d <- dev_at i ;; st_modify (fun D => <[i := d <| port := v |>]> D).

Definition vport_init (portid : nat) : st devices unit :=
  do d <- dev_at portid ;; set_vport portid ((port d) <| mtu := 1500 |> <| ipv4 := [] |> <| ipv6 := [] |>).

(** [is_same_subnet] of [al_router.h] *)
Definition is_same_subnet (a tip m iptype_ : Z) : bool :=
  if iptype_ =? AF_INET then Z.land (address4 a) (address4 m) =? Z.land (address4 tip) (address4 m)
  else Z.land (address6 a) (address6 m) =? Z.land (address6 tip) (address6 m).

Definition vport_has_ip (v : vport) (a iptype_ : Z) : bool :=
  if iptype_ =? AF_INET then existsb (fun s => address4 (ip s) =? address4 a) (ipv4 v)
  else existsb (fun s => address6 (ip s) =? address6 a) (ipv6 v).

(** What the address at [ip_] becomes. *)
Definition vport_primer_ip (v : vport) (ip_ iptype_ : Z) : option Z :=
  if iptype_ =? AF_INET then (fun s => set_address4 (ip s) ip_) <$> head (ipv4 v)
  else ip <$> head (ipv6 v).

Definition vport_select_local_ip (v : vport) (iptype_ rip : Z) : option Z :=
  if iptype_ =? AF_INET then ip <$> List.find (fun s => is_same_subnet (ip s) rip (mask s) iptype_) (ipv4 v)
  else ip <$> List.find (fun s => is_same_subnet (ip s) rip (mask s) iptype_) (ipv6 v).

(** [__builtin_popcount], of an [unsigned int]. *)
Fixpoint popcount (n : nat) (x : Z) : Z :=
  match n with O => 0 | S n => (if Z.testbit x (Z.of_nat n) then 1 else 0) + popcount n x end.
Definition builtin_popcount (x : Z) : Z := popcount 32 (u32 x).

(** The first of the [counter] ports with the identifier; [id] is a signed
    16-bit field and is compared as an unsigned 32-bit number. *)
Fixpoint find_port (counter i : nat) (portid : Z) : st devices (option nat) :=
  match counter with
  | O => st_ret None
  | S counter =>
      do d <- dev_at i ;;
      if u32 (dev_id d) =? portid then st_ret (Some i) else find_port counter (S i) portid
  end.

(** [hlist_for_each_entry_safe] with [hlist_del] and [break]: the entry found,
    and the list without it. *)
Fixpoint take_ip (ipid : Z) (l : list ip_t) : option (ip_t * list ip_t) :=
  match l with
  | [] => None
  | s :: l => if id s =? ipid then Some (s, l) else (fun r => (r.1, s :: r.2)) <$> take_ip ipid l
  end.

Section Addresses.
(** [g_sys_port_counter], and [al_opt_ip], which tells the kernel: add or delete,
    family, the address that [inet_ntop] renders, and prefix length. *)
Context (counter : nat) (al_opt_ip : Z -> bool -> Z -> Z -> Z -> Z).

(** [mem] is what [al_malloc] returned; the family decides which members of the
    unions are set. *)
Definition al_add_ip (mem : option ip_t) (ifindex ipid portid family addr maddr ipclass : Z) : st devices Z :=
  do i <- find_port counter 0 portid ;;
  match i, mem with
  | None, _ => st_ret (-1)
  | Some _, None => st_ret (-1)
  | Some i, Some s =>
      do d <- dev_at i ;;
      let s := s <| id := ipid |> in
      if family =? AF_INET then
        let s := s <| ip := set_address4 addr (ip s) |> <| mask := set_address4 maddr (mask s) |>
                   <| iptype := AF_INET |> <| asstype := Z.land ipclass 7 |> in
        do _ <- set_vport i ((port d) <| ipv4 := s :: ipv4 (port d) |>) ;;
        st_ret (al_opt_ip ifindex true family (ip s) (builtin_popcount (address4 (mask s))))
      else if family =? AF_INET6 then
        let s := s <| ip := addr |> <| mask := maddr |> <| iptype := AF_INET6 |> <| asstype := Z.land ipclass 7 |> in
        do _ <- set_vport i ((port d) <| ipv6 := s :: ipv6 (port d) |>) ;;
        st_ret (al_opt_ip ifindex true family (ip s) (builtin_popcount (mask s)))
      else st_ret (-1)
  end.

Definition al_del_ip (ifindex ipid portid : Z) : st devices Z :=
  do i <- find_port counter 0 portid ;;
  match i with
  | None => st_ret (-1)
  | Some i =>
      do d <- dev_at i ;;
      match take_ip ipid (ipv4 (port d)) with
      | Some (s, l) =>
          do _ <- set_vport i ((port d) <| ipv4 := l |>) ;;
          st_ret (al_opt_ip ifindex false AF_INET (ip s) (builtin_popcount (address4 (mask s))))
      | None =>
          match take_ip ipid (ipv6 (port d)) with
          | Some (s, l) =>
              do _ <- set_vport i ((port d) <| ipv6 := l |>) ;;
              st_ret (al_opt_ip ifindex false AF_INET6 (ip s) (builtin_popcount (mask s)))
          | None => st_ret 0
          end
      end
  end.
End Addresses.

Definition vport_release_res (portid : nat) : st devices unit :=
  do d <- dev_at portid ;; set_vport portid ((port d) <| ipv4 := [] |> <| ipv6 := [] |>).
End Vport.

(** ** ARP *)
Module Arp.
Import Session_t Vport Chksum Process.

Definition ARP_TABLE_COUNTER : Z := 2048.
Definition arp_mask : Z := ARP_TABLE_COUNTER - 1.
Definition SIZEOF_ETHARP_PACKET : nat := 42.
Definition HWTYPE_ETHERNET : Z := 1.
Definition ETHTYPE_IP : Z := 2048.
Definition ETHTYPE_ARP : Z := 2054.
Definition ARP_REQUEST : Z := 1.
Definition ethbroadcast : list Z := repeat 255 6.
Definition ethzero : list Z := repeat 0 6.

(** [arp_t]; of the address only the member of the table's family is used. *)
Record arp_t := mk_arp { a_haddr : list Z; ipaddr : Z; a_portid : Z }.
Record tables := mk { arp_table : gmap Z (list arp_t); ndp_table : gmap Z (list arp_t) }.

Definition arp_init : tables := mk ∅ ∅.

Definition ARP_KEY_DATA (a : Z) : Z := Z.lxor (Z.land a 65535) (Z.land (Z.shiftr a 16) 65535).
Definition ARP_KEY (a : Z) : Z := Z.land (ARP_KEY_DATA a) arp_mask.
Definition NDP_KEY (a : Z) : Z :=
  Z.land (Z.lxor (ARP_KEY_DATA (Z.land a 4294967295)) (ARP_KEY_DATA (Z.land (Z.shiftr a 32) 4294967295))) arp_mask.

(** The two families share their code. *)
Definition key_of (v6 : bool) (a : Z) : Z := if v6 then NDP_KEY a else ARP_KEY a.
Definition get_table (v6 : bool) (s : tables) : gmap Z (list arp_t) := if v6 then ndp_table s else arp_table s.
Definition set_table (v6 : bool) (t : gmap Z (list arp_t)) (s : tables) : tables :=
  if v6 then s <| ndp_table := t |> else s <| arp_table := t |>.
Definition bucket (v6 : bool) (s : tables) (k : Z) : list arp_t := default [] (get_table v6 s !! k).

(** The walk of [arp_search] and [ndp_search]: Ethernet address and port. *)
Definition search (v6 : bool) (addr : Z) (s : tables) : option (list Z * Z) :=
  (fun pos => (a_haddr pos, a_portid pos)) <$> List.find (fun pos => addr =? ipaddr pos) (bucket v6 s (key_of v6 addr)).

(** The first entry of the address gets the new values. *)
Fixpoint update (addr : Z) (h : list Z) (portid_ : Z) (l : list arp_t) : option (list arp_t) :=
  match l with
  | [] => None
  | pos :: l =>
      if addr =? ipaddr pos then Some (pos <| a_portid := portid_ |> <| a_haddr := h |> :: l)
      else cons pos <$> update addr h portid_ l
  end.

(** [arp_add_entry], [ndp_add_entry]: [mem] says whether there is memory. *)
Definition add_entry (v6 mem : bool) (addr : Z) (h : list Z) (portid_ : Z) : st tables Z := fun s =>
  let key := key_of v6 addr in
  let t := get_table v6 s in
  match update addr h portid_ (bucket v6 s key) with
  | Some l => (ok 1, set_table v6 (<[key := l]> t) s)
  | None =>
      if mem then (ok 1, set_table v6 (<[key := mk_arp h addr portid_ :: bucket v6 s key]> t) s) else (ok 0, s)
  end.
Definition arp_add_entry := add_entry false.
Definition ndp_add_entry := add_entry true.

(** [rte_cpu_to_be_16] and a 16-bit store. *)
Definition be_word16 (v : Z) : list Z := [v / 256 mod 256; v mod 256].

Definition etharp_update_arp_entry (mem : bool) (portid_ addr : Z) (h : list Z) : st tables Z :=
  if addr =? 0 then st_ret 0 else do _ <- arp_add_entry mem addr h portid_ ;; st_ret 0.

(** A 16-bit field against a constant in network order. *)
Definition not_be16 (bs : list Z) (v : Z) : bool := negb (bool_decide (bs = be_word16 v)).

(** [al_arp_input] of the packet [p] that came in at [port_], whose addresses are [v]. *)
Definition al_arp_input (mem : bool) (v : vport) (port_ : Z) (p : packet) : st tables Z :=
  match p with
  | [] => st_throw Undef
  | q :: _ =>
      let d := seg_data q in
      if (length d <? SIZEOF_ETHARP_PACKET)%nat then st_ret (-1) else
      if not_be16 (slice 14 2 d) HWTYPE_ETHERNET || negb (byte_of (slice 18 1 d) =? 6)
         || negb (byte_of (slice 19 1 d) =? 4) || not_be16 (slice 16 2 d) ETHTYPE_IP
      then st_ret (-1) else
      let sipaddr := word_of (slice 28 4 d) in
      let dipaddr := word_of (slice 38 4 d) in
      if negb (sipaddr =? dipaddr) then
        if vport_has_ip v sipaddr AF_INET then st_ret 0
        else etharp_update_arp_entry mem port_ sipaddr (slice 22 6 d)
      else if negb (vport_has_ip v sipaddr AF_INET) then etharp_update_arp_entry mem port_ sipaddr (slice 22 6 d)
      else st_ret 0
  end.

(** [etharp_raw]: the packet that is sent to port [port_], in an mbuf whose data
    has the parity [mem]; [None] when there is no mbuf. *)
Definition etharp_raw (mem : option bool) (port_ : Z) (ethsrc ethdst hwsrc : list Z) (ipsrc : Z)
    (hwdst : list Z) (ipdst opcode : Z) : option (Z * packet) :=
  match mem with
  | None => None
  | Some odd =>
      Some (port_, [{| seg_odd := odd;
        seg_data := ethdst ++ ethsrc ++ be_word16 ETHTYPE_ARP
          ++ be_word16 HWTYPE_ETHERNET ++ be_word16 ETHTYPE_IP ++ [6; 4] ++ be_word16 opcode
          ++ hwsrc ++ word32 ipsrc ++ hwdst ++ word32 ipdst |}])
  end.

(** [etharp_request]: a port without a matching address announces [stale], what
    the variable held, and a port with one announces zero. *)
Definition etharp_request (mem : option bool) (stale : Z) (dev : al_dev) (addr : Z) : option (Z * packet) :=
  let h := haddr (port dev) in
  match vport_select_local_ip (port dev) AF_INET addr with
  | None => etharp_raw mem (dev_port dev) h ethbroadcast h (address4 stale) ethzero addr ARP_REQUEST
  | Some _ => etharp_raw mem (dev_port dev) h ethbroadcast h 0 ethzero addr ARP_REQUEST
  end.

(** [arp_search]: what was found, and the request sent otherwise. *)
Definition arp_search (mem : option bool) (stale addr : Z) (dev : option al_dev) (s : tables)
    : option (list Z * Z) * option (Z * packet) :=
  match search false addr s with
  | Some r => (Some r, None)
  | None => (None, match dev with Some d => etharp_request mem stale d addr | None => None end)
  end.
End Arp.

(** ** Neighbour discovery *)
Module Icmp6.
Import Vport Arp Chksum Process.

Definition NEIGHBOR_SOLICIT : Z := 135.
Definition NEIGHBOR_ADVERT : Z := 136.
Definition S1 : nat := 54.

(** [eth_nh_request]: with an mbuf it gives it back and returns, without one it
    goes on with a null pointer. *)
Definition eth_nh_request (mem : option bool) : res unit := match mem with Some _ => ok tt | None => err Undef end.

(** [ndp_search] *)
Definition ndp_search (mem : option bool) (addr : Z) (dev : option al_dev) (s : tables) : res (option (list Z * Z)) :=
  match search true addr s with
  | Some r => ok (Some r)
  | None => match dev with
            | Some _ => let* _ := eth_nh_request mem in ok None
            | None => ok None
            end
  end.

(** A length, an [int], against a [sizeof]: the comparison is unsigned. *)
Definition shorter (len : Z) (size : Z) : bool := len mod 2 ^ 64 <? size.

Definition from_packet {A} (c : st packet A) (p : packet) : st tables A := st_lift (fst (c p)).

(** [al_icmp6_proc] up to [END], where the packet goes to the switch. *)
Definition al_icmp6_proc (mem : bool) (port_ : Z) (p : packet) : st tables unit :=
  match p with
  | [] => st_throw Undef
  | q :: _ =>
      do daddr <- from_packet (load (14 + 24) 16) p ;;
      do saddr <- from_packet (load (14 + 8) 16) p ;;
      let len := Z.of_nat (length (seg_data q)) - Z.of_nat S1 in
      if shorter len 24 then st_ret tt else
      do icmp6_type <- from_packet (load S1 1) p ;;
      if byte_of icmp6_type =? NEIGHBOR_SOLICIT then
        if negb (shorter len (24 + 8)) then
          if word_of saddr =? 0 then st_ret tt else
          do h <- from_packet (load (S1 + 24 + 2) 6) p ;;
          do _ <- ndp_add_entry mem (word_of saddr) h port_ ;; st_ret tt
        else st_ret tt
      else if byte_of icmp6_type =? NEIGHBOR_ADVERT then
        if shorter len (24 + 8) then st_ret tt else
        do target <- from_packet (load (S1 + 8) 16) p ;;
        do h <- from_packet (load (S1 + 24 + 2) 6) p ;;
        do _ <- ndp_add_entry mem (word_of target) h port_ ;; st_ret tt
      else st_ret tt
  end.
End Icmp6.

(** ** Ports behind Ethernet addresses *)
Module Macport.
Import Chksum.

Definition MAX_MAC_UINTE : Z := 4096.
Definition al_macport_mask : Z := MAX_MAC_UINTE - 1.
Definition g_mac_live : Z := 300.

Record mac_port := mk_mac { addr : list Z; port : Z; time : Z }.
(** The table, the objects left in the pool, and [last] of [portid_clear]. *)
Record state := mk { al_macport_hash : gmap Z (list mac_port); al_macport_pool : Z; last : Z }.

Definition init_macport : state := mk ∅ MAX_MAC_UINTE 0.

Definition mac_hash (mac : list Z) : Z :=
  match mac with
  | [a; b; c; d; e; f] => Z.land (Z.lxor (Z.lxor (le16 a b) (le16 c d)) (le16 e f)) al_macport_mask
  | _ => 0
  end.
Definition bucket (s : state) (k : Z) : list mac_port := default [] (al_macport_hash s !! k).

Definition same (mac : list Z) (pos : mac_port) : bool := bool_decide (addr pos = mac).

(** The loop has no [break]: the last entry of the address decides. *)
Definition portid_lookup (mac : list Z) (s : state) : Z :=
  fold_left (fun portid pos => if same mac pos then port pos else portid) (bucket s (mac_hash mac)) 255.

(** The first entry of the address gets a new time, and keeps its port. *)
Fixpoint refresh (mac : list Z) (t : Z) (l : list mac_port) : option (list mac_port) :=
  match l with
  | [] => None
  | pos :: l => if same mac pos then Some (pos <| time := t |> :: l) else cons pos <$> refresh mac t l
  end.

(** [port == 0xFF] is the sign that there was none, and port [255] looks like it. *)
Definition portid_update (g_sys_time : Z) (mac : list Z) (portid : Z) (s : state) : state :=
  let k := mac_hash mac in
  let enter (s : state) :=
    if al_macport_pool s <=? 0 then s else
    s <| al_macport_hash := <[k := mk_mac mac portid (g_sys_time + g_mac_live) :: bucket s k]> (al_macport_hash s) |>
      <| al_macport_pool := al_macport_pool s - 1 |> in
  match refresh mac (g_sys_time + g_mac_live) (bucket s k) with
  | Some l =>
      let s := s <| al_macport_hash := <[k := l]> (al_macport_hash s) |> in
      if portid =? 255 then enter s else s
  | None => enter s
  end.

Definition expired (g_sys_time : Z) (pos : mac_port) : bool := time pos - g_sys_time <? 0.

(** Every five seconds. *)
Definition portid_clear (g_sys_time : Z) (s : state) : state :=
  if 5 <=? g_sys_time - last s then
    let live l := List.filter (fun pos => negb (expired g_sys_time pos)) l in
    let dead := map_fold (fun _ l n => (length (List.filter (expired g_sys_time) l) + n)%nat) 0%nat (al_macport_hash s) in
    s <| last := g_sys_time |> <| al_macport_hash := live <$> al_macport_hash s |>
      <| al_macport_pool := al_macport_pool s + Z.of_nat dead |>
  else s.
End Macport.

(** ** Lemmas *)
Module HostsFacts.
Import Session_t Chksum Process Vport Arp.

Lemma word_of_word32 v : 0 <= v < 2 ^ 32 -> word_of (word32 v) = v.
Proof. intros H. unfold word32, Rfc1071.bytes32. cbn [word_of]. Z.div_mod_to_equations. lia. Qed.

Lemma length_6 (l : list Z) : length l = 6%nat -> exists a b c d e f, l = [a; b; c; d; e; f].
Proof. intros H. do 7 (destruct l as [|? l]; try discriminate H). eauto 10. Qed.

(** *** The lists of a bucket *)
Lemma update_None a h q l : update a h q l = None <-> List.find (fun pos => a =? ipaddr pos) l = None.
Proof.
  induction l as [|pos l IH]; [done|]. cbn. destruct (a =? ipaddr pos); [done|].
  destruct (update a h q l); cbn; [|tauto]. split; [done|]. intros H. by apply IH in H.
Qed.
Lemma find_update a h q l l' b : update a h q l = Some l' ->
  (fun pos => (a_haddr pos, a_portid pos)) <$> List.find (fun pos => b =? ipaddr pos) l'
  = if b =? a then Some (h, q) else (fun pos => (a_haddr pos, a_portid pos)) <$> List.find (fun pos => b =? ipaddr pos) l.
Proof.
  revert l'. induction l as [|pos l IH]; intros l' E; [done|]. cbn in E. destruct (Z.eqb_spec a (ipaddr pos)) as [->|Hn].
  - injection E as <-. destruct pos. cbn. by destruct (b =? _).
  - destruct (update a h q l) as [l1|]; [|done]. injection E as <-. cbn. specialize (IH l1 eq_refl).
    destruct (Z.eqb_spec b (ipaddr pos)) as [->|Hb]; [|done]. by destruct (Z.eqb_spec (ipaddr pos) a) as [<-|].
Qed.

Lemma bucket_set_table v6 v6' s k k' l : Arp.bucket v6' (set_table v6 (<[k := l]> (get_table v6 s)) s) k'
  = if decide (v6 = v6' /\ k = k') then l else Arp.bucket v6' s k'.
Proof.
  unfold Arp.bucket. destruct s, v6, v6'; cbn; case_decide as H; destruct_and?; subst; simplify_map_eq; auto;
    rewrite lookup_insert_ne; auto; intros ->; tauto.
Qed.

(** A learned address is found, and nothing else changes. *)
Lemma add_entry_ok v6 mem a h q s : exists rc s', add_entry v6 mem a h q s = (ok rc, s')
  /\ (rc = 1 -> forall v6' b, search v6' b s' = if bool_decide (v6' = v6 /\ b = a) then Some (h, q) else search v6' b s)
  /\ (rc <> 1 -> s' = s) /\ (mem = true -> rc = 1).
Proof.
  unfold add_entry. destruct (update a h q _) as [l|] eqn:E.
  - eexists 1, _. split; [reflexivity|]. split_and!; [|done|done]. intros _ v6' b. unfold search. rewrite bucket_set_table.
    case_bool_decide as Hb; [destruct Hb as [-> ->]; rewrite decide_True by done; rewrite (find_update _ _ _ _ _ _ E), Z.eqb_refl; done|].
    case_decide as Hk; [|done]. destruct Hk as [<- Hk]. rewrite (find_update _ _ _ _ _ _ E), Hk.
    destruct (Z.eqb_spec b a) as [->|]; [tauto|done].
  - destruct mem; [|exists 0, s; by split_and!]. eexists 1, _. split; [reflexivity|]. split_and!; [|done|done].
    intros _ v6' b. unfold search. rewrite bucket_set_table. case_bool_decide as Hb.
    + destruct Hb as [-> ->]. rewrite decide_True by done. cbn. by rewrite Z.eqb_refl.
    + case_decide as Hk; [|done]. destruct Hk as [<- Hk]. cbn. rewrite Hk.
      destruct (Z.eqb_spec b a) as [->|]; [tauto|done].
Qed.

(** What an ARP packet can do: nothing, or teach the sender's addresses. *)
Definition arp_effect (v : vport) (port_ : Z) (q : segment) (s s' : tables) : Prop :=
  s' = s \/ let a := word_of (slice 28 4 (seg_data q)) in
    vport_has_ip v a AF_INET = false /\ a <> 0
    /\ forall v6 b, search v6 b s' = if bool_decide (v6 = false /\ b = a) then Some (slice 22 6 (seg_data q), port_) else search v6 b s.

Lemma etharp_update_ok mem v port_ q s : let a := word_of (slice 28 4 (seg_data q)) in vport_has_ip v a AF_INET = false ->
  exists s', etharp_update_arp_entry mem port_ a (slice 22 6 (seg_data q)) s = (ok 0, s') /\ arp_effect v port_ q s s'.
Proof.
  intros a Hv. unfold etharp_update_arp_entry. destruct (Z.eqb_spec a 0) as [E0|Hn]; [exists s; split; [done|by left]|].
  destruct (add_entry_ok false mem a (slice 22 6 (seg_data q)) port_ s) as (rc & s' & E & H1 & H2 & _).
  unfold arp_add_entry. rewrite (st_bind_ok _ _ _ _ _ E). exists s'. split; [done|].
  destruct (decide (rc = 1)) as [->|]; [right; split_and!; auto|left; auto].
Qed.

Lemma al_arp_input_ok mem v port_ q next s : exists rc s', al_arp_input mem v port_ (q :: next) s = (ok rc, s') /\ arp_effect v port_ q s s'.
Proof.
  unfold al_arp_input. destruct (_ <? _)%nat; [exists (-1), s; split; [done|by left]|].
  destruct (_ || _ || _ || _); [exists (-1), s; split; [done|by left]|].
  pose proof (etharp_update_ok mem v port_ q s) as Hu. cbn in Hu.
  destruct (negb (word_of _ =? _)); destruct (vport_has_ip v _ AF_INET) eqn:Ev; cbn [negb];
    try (exists 0, s; split; [done|by left]); exists 0; auto.
Qed.

Definition learn (op : bool * Z * list Z * Z) : st tables unit :=
  let '(v6, a, h, q) := op in do _ <- add_entry v6 true a h q ;; st_ret tt.
Fixpoint learn_all (ops : list (bool * Z * list Z * Z)) : st tables unit :=
  match ops with [] => st_ret tt | op :: ops => do _ <- learn op ;; learn_all ops end.

(** The tables as finite maps, one for each family. *)
Definition learned (v6 : bool) (M : gmap Z (list Z * Z)) (op : bool * Z * list Z * Z) : gmap Z (list Z * Z) :=
  let '(v6', a, h, q) := op in if bool_decide (v6' = v6) then <[a := (h, q)]> M else M.

Lemma learn_all_ok ops : forall s (M : bool -> gmap Z (list Z * Z)), (forall v6 a, search v6 a s = M v6 !! a) ->
  exists s', learn_all ops s = (ok tt, s') /\ forall v6 a, search v6 a s' = fold_left (learned v6) ops (M v6) !! a.
Proof.
  induction ops as [|[[[v6 a] h] q] ops IH]; intros s M HM; [by exists s|].
  destruct (add_entry_ok v6 true a h q s) as (rc & s1 & E & H1 & _ & H3). specialize (H1 (H3 eq_refl)).
  destruct (IH s1 (fun v6' => learned v6' (M v6') (v6, a, h, q))) as (s' & E' & H').
  - intros v6' b. rewrite H1, HM. cbn. repeat case_bool_decide; destruct_and?; subst; simplify_map_eq; auto; tauto.
  - exists s'. split; [|exact H']. cbn [learn_all learn]. unfold st_bind at 1 2. rewrite E. exact E'.
Qed.

(** *** The ports behind Ethernet addresses *)
Import Macport.

Definition ports (mac : list Z) (l : list mac_port) (d : Z) : Z :=
  fold_left (fun portid pos => if same mac pos then Macport.port pos else portid) l d.

Lemma refresh_ports mac mac' t l : forall l' d, refresh mac t l = Some l' -> ports mac' l' d = ports mac' l d /\ length l' = length l.
Proof.
  unfold ports. induction l as [|pos l IH]; intros l' d E; [done|]. cbn in E. destruct (same mac pos) eqn:Es.
  - injection E as <-. by destruct pos.
  - destruct (refresh mac t l) as [l1|]; [|done]. injection E as <-. cbn. edestruct (IH l1) as [-> ->]; [done|]. done.
Qed.
Lemma refresh_None mac t l : forall d, refresh mac t l = None -> ports mac l d = d.
Proof.
  unfold ports. induction l as [|pos l IH]; intros d E; [done|]. cbn in E |- *. destruct (same mac pos); [done|].
  destruct (refresh mac t l); [done|]. by apply IH.
Qed.

Lemma mac_bucket_insert s k k' l f : Macport.bucket (Macport.mk (<[k := l]> (al_macport_hash s)) f (last s)) k'
  = if decide (k = k') then l else Macport.bucket s k'.
Proof. unfold Macport.bucket. cbn. case_decide; subst; by simplify_map_eq. Qed.

Definition total (t : gmap Z (list mac_port)) : nat := map_fold (fun _ l n => (length l + n)%nat) 0%nat t.

Lemma total_insert t k l : (total (<[k := l]> t) + length (default [] (t !! k)) = total t + length l)%nat.
Proof.
  unfold total. assert (forall u : gmap Z (list mac_port), u !! k = None -> forall l,
    map_fold (fun _ l n => (length l + n)%nat) 0%nat (<[k := l]> u) = (length l + map_fold (fun _ l n => (length l + n)%nat) 0%nat u)%nat) as Hi.
  { intros u Hu l'. rewrite map_fold_insert_L; [done|intros; lia|done]. }
  destruct (t !! k) as [l0|] eqn:E; cbn; [|rewrite Hi by done; lia].
  rewrite <-(insert_delete_id t k l0 E) at 2. rewrite <-(insert_delete_eq t k l), !Hi by apply lookup_delete_eq. lia.
Qed.

Definition balanced (s : state) : Prop :=
  0 <= al_macport_pool s /\ al_macport_pool s + Z.of_nat (total (al_macport_hash s)) = MAX_MAC_UINTE.

Lemma update_balanced now mac portid s : balanced s -> balanced (portid_update now mac portid s).
Proof.
  assert (forall s k e, balanced s -> balanced (if al_macport_pool s <=? 0 then s else
    s <| al_macport_hash := <[k := e :: Macport.bucket s k]> (al_macport_hash s) |> <| al_macport_pool := al_macport_pool s - 1 |>)) as Hin.
  { intros [t pool la] k e [H0 H]. destruct (Z.leb_spec pool 0) as [Hp|Hp]; cbn; case_match; try lia; [done|].
    unfold balanced. cbn in *. pose proof (total_insert t k (e :: Macport.bucket (Macport.mk t pool la) k)) as Ht.
    unfold Macport.bucket in *. cbn in *. lia. }
  intros Hs. unfold portid_update. destruct (refresh mac _ _) as [l|] eqn:E; [|by apply Hin].
  assert (balanced (s <| al_macport_hash := <[mac_hash mac := l]> (al_macport_hash s) |>)) as Hs'.
  { destruct s as [t pool la], Hs as [H0 H]. pose proof (total_insert t (mac_hash mac) l) as Ht.
    destruct (refresh_ports mac mac _ _ _ 0 E) as [_ Hl]. unfold Macport.bucket in Hl. cbn in *. unfold balanced. cbn. lia. }
  destruct (portid =? 255); [by apply Hin|done].
Qed.

Lemma total_live (f : mac_port -> bool) t :
  (total ((fun l => List.filter (fun pos => negb (f pos)) l) <$> t) + map_fold (fun _ l n => (length (List.filter f l) + n)%nat) 0%nat t = total t)%nat.
Proof.
  unfold total. induction t as [|k l t Hk IH] using map_ind; [done|].
  rewrite fmap_insert, !map_fold_insert_L; [|intros; lia|done|intros; lia|done|intros; lia|by rewrite lookup_fmap, Hk].
  assert (length (List.filter (fun pos => negb (f pos)) l) + length (List.filter f l) = length l)%nat.
  { induction l as [|x l IHl]; [done|]. cbn. destruct (f x); cbn; lia. }
  lia.
Qed.

Lemma clear_balanced now s : balanced s -> balanced (portid_clear now s).
Proof.
  intros [H0 H]. unfold portid_clear. destruct (5 <=? _); [|done]. destruct s as [t pool la].
  pose proof (total_live (expired now) t) as Ht. unfold balanced in *. cbn [field_update al_macport_pool al_macport_hash] in *.
  rewrite <-Ht in H. clear Ht. revert H. generalize (total ((fun l => List.filter (fun pos => negb (expired now pos)) l) <$> t)).
  generalize (map_fold (fun _ l n => (length (List.filter (expired now) l) + n)%nat) 0%nat t). intros x y H. lia.
Qed.
End HostsFacts.

(** ** Properties *)
Section Properties.
Import Session_t Chksum Process Vport Arp Icmp6 HostsFacts.

(** C33. The tables of neighbours are finite maps: whatever addresses are learned, in
    whatever order and family, a search finds the last Ethernet address and port
    learned for the address, and nothing for an address never learned. *)
Theorem neighbour_tables_are_maps (ops : list (bool * Z * list Z * Z)) :
  exists s, learn_all ops arp_init = (ok tt, s) /\ forall v6 a, search v6 a s = fold_left (learned v6) ops ∅ !! a.
Proof. apply (learn_all_ok ops arp_init (fun _ => ∅)). by intros [] a. Qed.

(** No packet teaches an address that the port itself has: [al_arp_input] handles
    every packet without failing, and leaves what is known about the port's own
    addresses, and the IPv6 neighbours, as it was. *)
Theorem own_address_not_learned (mem : bool) (v : vport) (port_ : Z) (p : packet) (s : tables) (a : Z) :
  p <> [] -> vport_has_ip v a AF_INET = true ->
  exists rc s', al_arp_input mem v port_ p s = (ok rc, s')
    /\ search false a s' = search false a s /\ forall b, search true b s' = search true b s.
Proof.
  intros Hp Ha. destruct p as [|q next]; [done|].
  destruct (al_arp_input_ok mem v port_ q next s) as (rc & s' & E & [->|(Hv & _ & Hs)]); exists rc; eauto.
  exists s'. split_and!; [done| |]; intros; rewrite Hs; case_bool_decide as Hb; destruct_and?; subst; congruence.
Qed.

(** An ARP packet of [etharp_raw] teaches its receiver the sender: the receiver
    finds the sender's Ethernet address at the port the packet came in by. *)
Theorem arp_packet_teaches (v : vport) (port_ port' : Z) (s : tables) (odd : bool) (ethsrc ethdst hwsrc hwdst : list Z)
    (ipsrc ipdst opcode : Z) (p : packet) :
  length ethsrc = 6%nat -> length ethdst = 6%nat -> length hwsrc = 6%nat -> length hwdst = 6%nat ->
  0 < ipsrc < 2 ^ 32 -> vport_has_ip v ipsrc AF_INET = false ->
  etharp_raw (Some odd) port' ethsrc ethdst hwsrc ipsrc hwdst ipdst opcode = Some (port', p) ->
  exists s', al_arp_input true v port_ p s = (ok 0, s') /\ search false ipsrc s' = Some (hwsrc, port_).
Proof.
  intros L1 L2 L3 L4 Hip Hv [= <-].
  apply length_6 in L1 as (? & ? & ? & ? & ? & ? & ->), L2 as (? & ? & ? & ? & ? & ? & ->),
    L3 as (a & b & c & d & e & f & ->), L4 as (? & ? & ? & ? & ? & ? & ->).
  set (bytes := word32 ipsrc). set (more := word32 ipdst).
  destruct (add_entry_ok false true ipsrc [a; b; c; d; e; f] port_ s) as (rc & s' & E & H1 & _ & H3).
  exists s'. split; [|rewrite H1 by auto; by rewrite bool_decide_true].
  assert (word_of bytes = ipsrc) as Hw by (apply word_of_word32; lia). subst bytes more.
  unfold al_arp_input, slice. cbn -[word_of vport_has_ip AF_INET etharp_update_arp_entry]. cbn in Hw. cbn [word_of] in *. rewrite Hw, Hv. cbn [negb].
  assert (etharp_update_arp_entry true port_ ipsrc [a; b; c; d; e; f] s = (ok 0, s')) as Eu.
  { unfold etharp_update_arp_entry. destruct (Z.eqb_spec ipsrc 0); [lia|]. unfold arp_add_entry. by rewrite (st_bind_ok _ _ _ _ _ E). }
  by destruct (negb _).
Qed.

(** A port with an address in the subnet of the one it asks for announces the
    zero address, and no receiver learns anything from its request. *)
Theorem request_teaches_nobody (odd : bool) (stale addr ip_ : Z) (dev : al_dev) (v : vport) (port_ : Z) (s : tables) :
  length (haddr (port dev)) = 6%nat -> vport_select_local_ip (port dev) AF_INET addr = Some ip_ ->
  exists p, etharp_request (Some odd) stale dev addr = Some (dev_port dev, p)
    /\ forall mem, al_arp_input mem v port_ p s = (ok 0, s).
Proof.
  intros L Hs. unfold etharp_request. rewrite Hs. eexists. split; [reflexivity|]. intros mem.
  apply length_6 in L as (a & b & c & d & e & f & ->). unfold al_arp_input, slice. cbn -[word_of vport_has_ip AF_INET etharp_update_arp_entry]. cbn [word_of].
  change (0 mod 256 + _) with 0. destruct (negb (0 =? _)), (vport_has_ip v _ AF_INET); done.
Qed.

(** An ICMPv6 packet of 50 bytes, which passes the length check of the caller, is
    read past its end, and the length check here, an unsigned one, would accept it. *)
Theorem short_icmp6_overreads :
  fst (al_icmp6_proc true 0 [{| seg_odd := false; seg_data := repeat 0 50 |}] arp_init) = err Undef
  /\ fst (al_icmp6_proc true 0 [{| seg_odd := false; seg_data := repeat 0 60 |}] arp_init) = ok tt
  /\ shorter (50 - 54) 24 = false.
Proof. split_and!; vm_compute; reflexivity. Qed.
End Properties.

Section PortProperties.
Import Macport HostsFacts.

(** A port keeps the Ethernet addresses first seen there: while an address has an
    entry, seeing it at another port refreshes the entry and does not move it. *)
Theorem moved_address_keeps_port (now portid : Z) (mac : list Z) (s : state) :
  portid <> 255 -> portid_lookup mac s <> 255 -> portid_lookup mac (portid_update now mac portid s) = portid_lookup mac s.
Proof.
  intros Hp Hl. unfold portid_update. change (portid_lookup mac s) with (ports mac (Macport.bucket s (mac_hash mac)) 255) in Hl |- *.
  destruct (refresh mac _ _) as [l|] eqn:E; [|by rewrite (refresh_None _ _ _ _ E) in Hl].
  destruct (Z.eqb_spec portid 255); [done|]. unfold portid_lookup.
  destruct (refresh_ports mac mac _ _ l 255 E) as [Hr _]. rewrite <-Hr. unfold ports.
  destruct s as [t pool la]. cbn [field_update al_macport_hash]. unfold Macport.bucket at 1. cbn. by rewrite lookup_insert_eq.
Qed.

(** The pool of entries is balanced: entries in the table and in the pool add up
    to its size, whatever addresses are seen and whenever the table is swept. *)
Theorem macport_pool_balanced (s : state) (now portid : Z) (mac : list Z) :
  balanced s -> balanced (portid_update now mac portid s) /\ balanced (portid_clear now s).
Proof. intros H. split; [by apply update_balanced|by apply clear_balanced]. Qed.
End PortProperties.

(** ** Witnesses *)
Section Witnesses.
Import Session_t Chksum Process Vport Arp HostsFacts.

Definition mac_a : list Z := [2; 0; 0; 0; 0; 1].
Definition mac_b : list Z := [2; 0; 0; 0; 0; 2].
(** A port with the address 10.0.1.1/24. *)
Definition sample_vport : vport := mk_vport 1500 [mk_ip 16842762 16777215 1 AF_INET 0] [] mac_b.

Lemma own_address_not_learned_witness :
  exists rc s', al_arp_input true sample_vport 3 [{| seg_odd := false; seg_data := repeat 0 42 |}] arp_init = (ok rc, s')
    /\ search false 16842762 s' = search false 16842762 arp_init /\ forall b, search true b s' = search true b arp_init.
Proof.
  apply (own_address_not_learned true sample_vport 3 [{| seg_odd := false; seg_data := repeat 0 42 |}] arp_init 16842762); [done|reflexivity].
Defined.

Lemma arp_packet_teaches_witness :
  exists p s', etharp_raw (Some false) 0 mac_a ethbroadcast mac_a 33619978 ethzero 16842762 ARP_REQUEST = Some (0, p)
    /\ al_arp_input true sample_vport 3 p arp_init = (ok 0, s') /\ search false 33619978 s' = Some (mac_a, 3).
Proof.
  eexists. destruct (arp_packet_teaches sample_vport 3 0 arp_init false mac_a ethbroadcast mac_a ethzero 33619978 16842762 ARP_REQUEST
    (match etharp_raw (Some false) 0 mac_a ethbroadcast mac_a 33619978 ethzero 16842762 ARP_REQUEST with Some (_, p) => p | None => [] end))
    as (s' & E & H); [done..|lia|reflexivity|reflexivity|].
  exists s'. split; [reflexivity|split; [exact E|exact H]].
Defined.

Lemma macport_pool_balanced_witness :
  balanced (Macport.portid_update 7 mac_a 1 Macport.init_macport) /\ balanced (Macport.portid_clear 7 Macport.init_macport).
Proof. apply (macport_pool_balanced Macport.init_macport 7 1 mac_a). split; vm_compute; [discriminate|reflexivity]. Defined.

Lemma moved_address_keeps_port_witness :
  Macport.portid_lookup mac_a (Macport.portid_update 9 mac_a 2 (Macport.portid_update 7 mac_a 1 Macport.init_macport)) = 1.
Proof.
  rewrite (moved_address_keeps_port 9 2 mac_a (Macport.portid_update 7 mac_a 1 Macport.init_macport)); [reflexivity|lia|].
  vm_compute. discriminate.
Defined.
End Witnesses.
