(* ===== verification/Dataplane.v ===== *)
(** * The way of a packet

    Models [alpha/al_main_process.c], [alpha/al_ip_input.c] and [alpha/al_service.c]:
    a burst of packets comes in at a port; each is handed to ARP or neighbour
    discovery, to the session of its connection, to the thread that owns it, or,
    as the first packet of a connection to a filter, to [al_service], which chooses
    a member, a route, a local address and port and a neighbour, and creates the
    pair of sessions. The state is that of the components: sessions and ports
    ([AlSession]), filters and groups ([Filter]), routes ([Router]), neighbours and
    ports ([Hosts]). What happens to the packets is a log. [al_gslb_process], which
    takes DNS queries, is an argument, which [Gslb] fills. *)

From Stdlib Require Import ZArith Lia Bool.
From stdpp Require Import base tactics option gmap list.
From S2P Require Import Prelude Checksum Tuple5 AlSession Process RbTree Table Cluster Member Group Prefix Router Filter Hosts.

Open Scope Z_scope.

Module Dataplane.
Import Session_t Process.

Definition ETHER_TYPE_IPv4 : Z := 2048.
Definition ETHER_TYPE_IPv6 : Z := 34525.
Definition ETHER_TYPE_ARP : Z := 2054.
Definition IPPROTO_TCP : Z := 6.
Definition IPPROTO_UDP : Z := 17.
Definition IPPROTO_ICMPV6 : Z := 58.
Definition AL_FLT_SIMPLE_TRANS : Z := 3.
Definition AL_FLT_GSLB : Z := 4.
Definition AL_PORT_TYPE_KNI : Z := 0.
Definition AL_PKT_FROM_NIC : Z := 1.
Definition AL_PKT_FROM_QUEUE : Z := 2.

(** [struct rte_mbuf]: which buffer it is, its segments, the port it came in by
    and [udata64]. *)
Record mbuf := mk_mbuf { m_id : nat; pkt : packet; m_port : Z; udata64 : Z }.

(** What becomes of buffers: given back, queued for a thread, handed to the
    switch or the kernel; and the requests the code sends itself. *)
Inductive event :=
| Freed (m : mbuf)
| ToThread (thread : Z) (m : mbuf)
| ToSwitch (portid : Z) (to_kni : bool) (m : mbuf)
| Requested (portid : Z) (p : packet).

Record world := mk {
  sessions : AlSession.state; filters : Filter.filters; routers : Router.routers;
  neighbours : Arp.tables; vports : Vport.devices; log : list event }.

Definition in_sessions {A} (c : st AlSession.state A) : st world A := fun w =>
  let '(r, s) := c (sessions w) in (r, w <| sessions := s |>).
Definition in_filters {A} (c : st Filter.filters A) : st world A := fun w =>
  let '(r, s) := c (filters w) in (r, w <| filters := s |>).
Definition in_routers {A} (c : st Router.routers A) : st world A := fun w =>
  let '(r, s) := c (routers w) in (r, w <| routers := s |>).
Definition in_neighbours {A} (c : st Arp.tables A) : st world A := fun w =>
  let '(r, s) := c (neighbours w) in (r, w <| neighbours := s |>).
Definition emit (e : event) : st world unit := st_modify (fun w => w <| log := log w ++ [e] |>).

(** [g_vport_ary[ i ]] *)
Definition dev (i : Z) : st world Vport.al_dev :=
  do w <- st_get ;; match vports w !! Z.to_nat i with Some d => st_ret d | None => st_throw Undef end.

(** Bytes at an offset of a packet. *)
Definition peek (p : packet) (off n : nat) : st world (list Z) := st_lift (fst (load off n p)).
Definition ethertype (p : packet) : st world Z := do b <- peek p 12 2 ;; st_ret (be16 b).

(** What is not determined by the state: the thread, the memory of new sessions,
    the variables [margs] and [nexthop] and the address of a request before they are
    set, an mbuf for the request, memory for a neighbour, whether a ring takes
    the packet, and the answers to DNS queries. *)
Record context := mk_context {
  g_lcoreid : Z; session_mem : Session_t.t * Session_t.t; stale_margs : Member.al_margs; stale_hop : Z; stale_lip : Z;
  request_mbuf : option bool; arp_mem : bool; ring_takes : bool;
  al_gslb_process : mbuf -> nat -> nat -> st world unit }.

Section Packets.
Context (env : context).

Definition rte_pktmbuf_free (m : mbuf) : st world unit := emit (Freed m).

(** [send_to_switch] of one packet: the ring of the port, or the kernel. *)
Definition send_to_switch (portid : Z) (m : mbuf) (to_kni : bool) : st world unit := emit (ToSwitch portid to_kni m).

(** [al_process] of the session at [p] *)
Definition process (p : ptr) (m : mbuf) (hdr nextptr : nat) : st world unit :=
  do s <- in_sessions (AlSession.deref p) ;;
  do u <- in_sessions (AlSession.deref (up s)) ;;
  match Process.al_process s u hdr nextptr (pkt m) with
  | (inl e, _) => st_throw e
  | (inr (s, portid), pkt') =>
      do _ <- in_sessions (AlSession.assign p s) ;;
      send_to_switch portid (m <| pkt := pkt' |>) false
  end.

(** *** [al_service.c] *)
Definition session_mem_init (s : Session_t.t) (isUp : bool) : Session_t.t :=
  s <| stype := SESSION_NORMAL |> <| is_ups := isUp |> <| port_alloc := false |> <| stout := SESSION_IDLE_TIMEOUT |>.

Definition session_init_local (s : Session_t.t) (m : mbuf) (hdr nextptr : nat) : st world (Z * Session_t.t) :=
  let p := pkt m in
  do etype <- ethertype p ;;
  do d_addr <- peek p 0 6 ;;
  do s_addr <- peek p 6 6 ;;
  let s := s <| to_haddr := d_addr |> <| from_haddr := s_addr |> in
  do d <- dev (m_port m) ;;
  let ports (s : Session_t.t) :=
    do dst_port <- peek p (nextptr + 2) 2 ;;
    do src_port <- peek p nextptr 2 ;;
    st_ret (0, s <| local_port := word_of dst_port |> <| remote_port := word_of src_port |> <| portid := Vport.dev_port d |>) in
  if etype =? ETHER_TYPE_IPv4 then
    do src <- peek p (hdr + 12) 4 ;;
    do dst <- peek p (hdr + 16) 4 ;;
    do pr <- peek p (hdr + 9) 1 ;;
    ports (s <| remote_addr := set_address4 (word_of src) (remote_addr s) |>
             <| local_addr := set_address4 (word_of dst) (local_addr s) |>
             <| in_type := false |> <| proto := byte_of pr |>)
  else if etype =? ETHER_TYPE_IPv6 then
    do src <- peek p (hdr + 8) 16 ;;
    do dst <- peek p (hdr + 24) 16 ;;
    do pr <- peek p (hdr + 6) 1 ;;
    ports (s <| remote_addr := word_of src |> <| local_addr := word_of dst |>
             <| in_type := true |> <| proto := byte_of pr |>)
  else st_ret (-1, s).

(** The filters as the allocator of ports asks them: zero for a match. *)
Definition asks (F : Filter.filters) (v6 : bool) (a port_ proto_ : Z) : Z :=
  match fst (Filter.al_filter_search v6 (if v6 then word128 a else word32 a) port_ proto_ F) with
  | inr (Some _) => 0
  | _ => -1
  end.

(** The ends of the connection to the member: for a translating filter the
    member and a local address and port, otherwise those of the packet. The
    result is zero when the port is registered. *)
Definition upstream_ends (v6 : bool) (u : Session_t.t) (a : Member.al_margs) (v : Vport.vport) (p : packet) (hdr nextptr : nat)
    : st world (Z * Session_t.t) :=
  let iptype := if v6 then Vport.AF_INET6 else Vport.AF_INET in
  if ftype u =? AL_FLT_SIMPLE_TRANS then
    let addr := word_of (slice 2 (if v6 then 16 else 4) (Member.a_addr a)) in
    let u := u <| remote_addr := if v6 then addr else set_address4 addr (remote_addr u) |>
               <| remote_port := Member.a_port a |> in
    match Vport.vport_select_local_ip v iptype (remote_addr u) with
    | None => st_ret (-1, u)
    | Some lip =>
        let u := u <| local_addr := lip |> in
        do w <- st_get ;;
        in_sessions (AlSession.on_ports
          (Tuple5.al_alocate_new_port_with_session (g_lcoreid env) (asks (filters w) false) u))
    end
  else
    do src <- peek p (hdr + if v6 then 8 else 12) (if v6 then 16 else 4) ;;
    do dst <- peek p (hdr + if v6 then 24 else 16) (if v6 then 16 else 4) ;;
    do src_port <- peek p nextptr 2 ;;
    do dst_port <- peek p (nextptr + 2) 2 ;;
    let u := u <| remote_addr := if v6 then word_of dst else set_address4 (word_of dst) (remote_addr u) |>
               <| local_addr := if v6 then word_of src else set_address4 (word_of src) (local_addr u) |>
               <| local_port := word_of src_port |> <| remote_port := word_of dst_port |> in
    do rc <- in_sessions (AlSession.on_ports (Tuple5.al_port_insert (g_lcoreid env) u)) ;;
    st_ret (if rc =? -1 then -1 else 0, u).

(** [arp_search] and [ndp_search] for the next hop; a request goes into the log. *)
Definition neighbour (v6 : bool) (hop : Z) (d : Vport.al_dev) : st world (option (list Z * Z)) :=
  do w <- st_get ;;
  if v6 then st_lift (Icmp6.ndp_search (request_mbuf env) hop (Some d) (neighbours w)) else
  let '(r, req) := Arp.arp_search (request_mbuf env) (stale_lip env) (address4 hop) (Some d) (neighbours w) in
  do _ <- (match req with Some (portid_, p) => emit (Requested portid_ p) | None => st_ret tt end) ;;
  st_ret r.

Definition session_init_remote (c u : Session_t.t) (fid_ gid : Z) (m : mbuf) (hdr nextptr : nat) : st world (Z * Session_t.t) :=
  do (rc, a) <- in_filters (Filter.in_members (Group.al_member_lookup fid_ gid (stale_margs env))) ;;
  if negb (rc =? 0) then st_ret (-1, u) else
  let u := u <| mid := mid c |> in
  let af := Member.al_addr_af (Member.a_addr a) in
  let aptr := slice 2 (if af =? Vport.AF_INET then 4 else 16) (Member.a_addr a) in
  do hop <- in_routers (Router.al_router_find None aptr af) ;;
  match hop with
  | None => st_ret (-1, u)
  | Some (hop, oif) =>
      let nexthop := if af =? Vport.AF_INET then set_address4 (word_of hop) (stale_hop env) else word_of hop in
      do etype <- ethertype (pkt m) ;;
      do d <- dev oif ;;
      let v := Vport.port d in
      let rest (v6 : bool) (proto_at : nat) :=
        do pr <- peek (pkt m) (hdr + proto_at) 1 ;;
        let u := u <| in_type := v6 |> <| proto := byte_of pr |> in
        do (rc, u) <- upstream_ends v6 u a v (pkt m) hdr nextptr ;;
        if negb (rc =? 0) then st_ret (-1, u) else
        do r <- neighbour v6 nexthop d ;;
        match r with
        | None => st_ret (-1, u)
        | Some (h, portint) =>
            st_ret (0, u <| from_haddr := h |> <| portid := Z.land portint 255 |> <| to_haddr := Vport.haddr v |>)
        end in
      if etype =? ETHER_TYPE_IPv4 then rest false 9%nat
      else if etype =? ETHER_TYPE_IPv6 then rest true 6%nat
      else st_ret (-1, u)
  end.

Definition al_service (f : Filter.al_fargs) (s : option ptr) (m : mbuf) (hdr nextptr : nat) : st world unit :=
  match s with
  | Some _ => rte_pktmbuf_free m
  | None =>
      if Filter.ftype f =? AL_FLT_GSLB then al_gslb_process env m hdr nextptr else
      do c <- in_sessions (AlSession.al_session_create (fst (session_mem env))) ;;
      match c with
      | None => rte_pktmbuf_free m
      | Some c =>
          do x <- in_sessions (AlSession.deref c) ;;
          let x := x <| ftype := Filter.ftype f |> in
          do _ <- in_sessions (AlSession.assign c x) ;;
          do u <- in_sessions (AlSession.al_session_create (snd (session_mem env))) ;;
          match u with
          | None => do _ <- in_sessions (AlSession.al_session_free c) ;; rte_pktmbuf_free m
          | Some u =>
              do y <- in_sessions (AlSession.deref u) ;;
              let y := y <| ftype := Filter.ftype f |> in
              let x := session_mem_init x false in
              let y := session_mem_init y true in
              let fail (x y : Session_t.t) :=
                do _ <- in_sessions (AlSession.assign c x) ;;
                do _ <- in_sessions (AlSession.assign u y) ;;
                do _ <- in_sessions (AlSession.al_session_free c) ;;
                do _ <- in_sessions (AlSession.al_session_free u) ;;
                rte_pktmbuf_free m in
              do (rc, x) <- session_init_local x m hdr nextptr ;;
              if negb (rc =? 0) then fail x y else
              let y := y <| fid := Filter.a_fid f |> in
              do (rc, y) <- session_init_remote x y (Filter.a_fid f) (Filter.a_gid f) m hdr nextptr ;;
              if negb (rc =? 0) then fail x y else
              let x := x <| fid := Filter.a_fid f |> in
              do _ <- in_sessions (AlSession.assign c x) ;;
              do _ <- in_sessions (AlSession.assign u y) ;;
              do _ <- in_sessions (AlSession.al_session_add c) ;;
              do _ <- in_sessions (AlSession.al_session_add u) ;;
              do _ <- in_sessions (AlSession.assign c (x <| up := u |>)) ;;
              do _ <- in_sessions (AlSession.assign u (y <| up := c |>)) ;;
              process c m hdr nextptr
          end
      end
  end.

(** *** [al_ip_input.c] *)

(** To the thread that owns the connection. *)
Definition to_owner (thread type : Z) (m : mbuf) : st world unit :=
  let m := m <| udata64 := type |> in
  if ring_takes env then emit (ToThread thread m) else rte_pktmbuf_free m.

(** Neither a session nor a filter. *)
Definition pass_on (m : mbuf) (from type : Z) : st world unit :=
  let t := if from =? AL_PKT_FROM_NIC then type else udata64 m in
  send_to_switch (m_port m) m (negb (t =? AL_PORT_TYPE_KNI)).

Definition al_ipv4_input (m : mbuf) (hdr nextptr : nat) (from type : Z) : st world unit :=
  let p := pkt m in
  do src <- peek p (hdr + 12) 4 ;;
  do dst <- peek p (hdr + 16) 4 ;;
  do pr <- peek p (hdr + 9) 1 ;;
  do src_port <- peek p nextptr 2 ;;
  do dst_port <- peek p (nextptr + 2) 2 ;;
  do w <- st_get ;;
  do session <- st_lift (AlSession.tcp4_session_get (word_of src) (word_of src_port) (word_of dst) (word_of dst_port) (byte_of pr) (sessions w)) ;;
  match session with
  | Some s => process s m hdr nextptr
  | None =>
      let rc := Tuple5.which_thread_v4 (word_of src) (word_of dst) (word_of src_port) (word_of dst_port) (byte_of pr) (AlSession.ports (sessions w)) in
      if (from =? AL_PKT_FROM_NIC) && negb (rc =? -1) then to_owner rc type m else
      do f <- in_filters (Filter.al_filter_search false dst (word_of dst_port) (byte_of pr)) ;;
      match f with
      | Some f => al_service f None m hdr nextptr
      | None => pass_on m from type
      end
  end.

(** The session is looked up with the source port for both; its handler is never
    set. *)
Definition al_ipv6_input (m : mbuf) (hdr nextptr : nat) (from type : Z) : st world unit :=
  let p := pkt m in
  do src <- peek p (hdr + 8) 16 ;;
  do dst <- peek p (hdr + 24) 16 ;;
  do pr <- peek p (hdr + 6) 1 ;;
  do src_port <- peek p nextptr 2 ;;
  do dst_port <- peek p (nextptr + 2) 2 ;;
  do w <- st_get ;;
  do session <- st_lift (AlSession.tcp6_session_get (word_of src) (word_of src_port) (word_of dst) (word_of src_port) (byte_of pr) (sessions w)) ;;
  match session with
  | Some s => st_throw Undef
  | None =>
      let rc := Tuple5.which_thread_v6 (word_of src) (word_of dst) (word_of src_port) (word_of dst_port) (byte_of pr) (AlSession.ports (sessions w)) in
      if (from =? AL_PKT_FROM_NIC) && negb (rc =? -1) then to_owner rc type m else
      do f <- in_filters (Filter.al_filter_search true dst (word_of dst_port) (byte_of pr)) ;;
      match f with
      | Some f => al_service f None m hdr nextptr
      | None => pass_on m from type
      end
  end.

(** *** [al_main_process.c] *)

(** [rte_pktmbuf_pkt_len]: all segments. *)
Definition pkt_len (p : packet) : Z := Z.of_nat (length (concat (map Chksum.seg_data p))).

Definition al_icmp6 (m : mbuf) : st world unit :=
  do d <- dev (m_port m) ;;
  do _ <- in_neighbours (Icmp6.al_icmp6_proc (arp_mem env) (m_port m) (pkt m)) ;;
  send_to_switch (Vport.dev_port d) m false.

Definition arp_input (m : mbuf) : st world unit :=
  do d <- dev (m_port m) ;;
  do _ <- in_neighbours (Arp.al_arp_input (arp_mem env) (Vport.port d) (m_port m) (pkt m)) ;; st_ret tt.

Definition is_tcp_or_udp (pr : Z) : bool := (pr =? IPPROTO_TCP) || (pr =? IPPROTO_UDP).

(** One round of the loop: [Some] when the packet goes on to [outbuf]. *)
Definition dispatch (portid_ from type : Z) (m : mbuf) : st world (option mbuf) :=
  let p := pkt m in
  do et <- ethertype p ;;
  if et =? ETHER_TYPE_IPv4 then
    do version_ihl <- peek p 14 1 ;;
    let iphdr_hlen := ihl (byte_of version_ihl) in
    if pkt_len p <? iphdr_hlen then do _ <- rte_pktmbuf_free m ;; st_ret None else
    do total_length <- peek p 16 2 ;;
    if pkt_len p <? be16 total_length then do _ <- rte_pktmbuf_free m ;; st_ret None else
    do pr <- peek p 23 1 ;;
    if is_tcp_or_udp (byte_of pr) then
      do _ <- al_ipv4_input (m <| m_port := portid_ |>) 14 (14 + Z.to_nat iphdr_hlen) from type ;; st_ret None
    else st_ret (Some m)
  else if et =? ETHER_TYPE_IPv6 then
    if pkt_len p <? 40 then do _ <- rte_pktmbuf_free m ;; st_ret None else
    do payload_len <- peek p 18 2 ;;
    if be16 payload_len <? pkt_len p then do _ <- rte_pktmbuf_free m ;; st_ret None else
    do pr <- peek p 20 1 ;;
    if is_tcp_or_udp (byte_of pr) then
      do _ <- al_ipv6_input (m <| m_port := portid_ |>) 14 (14 + 40) from type ;; st_ret None
    else if byte_of pr =? IPPROTO_ICMPV6 then do _ <- al_icmp6 m ;; st_ret (Some m)
    else st_ret (Some m)
  else if et =? ETHER_TYPE_ARP then do _ <- arp_input m ;; st_ret (Some m)
  else st_ret (Some m).

Fixpoint dispatch_all (portid_ from type : Z) (ms : list mbuf) : st world (list mbuf) :=
  match ms with
  | [] => st_ret []
  | m :: ms =>
      do o <- dispatch portid_ from type m ;;
      do outbuf <- dispatch_all portid_ from type ms ;;
      st_ret (match o with Some m => m :: outbuf | None => outbuf end)
  end.

Fixpoint send_all (portid_ : Z) (to_kni : bool) (outbuf : list mbuf) : st world unit :=
  match outbuf with
  | [] => st_ret tt
  | m :: outbuf => do _ <- send_to_switch portid_ m to_kni ;; send_all portid_ to_kni outbuf
  end.

(** [due] says whether the second since the last sweep is over. [outbuf] has room for
    [RTE_AL_RX_DESC_DEFAULT] packets, which is what the callers read at once: a burst
    is no longer, and no packet of it is kept twice. *)
Definition al_main_process (due : bool) (portid_ : Z) (ms : list mbuf) (from type : Z) : st world unit :=
  do outbuf <- dispatch_all portid_ from type ms ;;
  do _ <- send_all portid_ (negb (type =? AL_PORT_TYPE_KNI)) outbuf ;;
  if due then in_sessions AlSession.al_session_timeout else st_ret tt.
End Packets.
End Dataplane.

(** ** Lemmas *)
Module DataplaneFacts.
Import Session_t Process Dataplane.

(** *** What becomes of the buffers *)
Definition disposed (e : event) : option nat :=
  match e with Freed m | ToThread _ m | ToSwitch _ _ m => Some (m_id m) | Requested _ _ => None end.
Definition ids (l : list event) : list nat := omap disposed l.

Lemma ids_app l k : ids (l ++ k) = ids l ++ ids k.
Proof. apply omap_app. Qed.

(** A computation that disposes of the buffers [bs]: all of them when it
    succeeds, none when it fails. [bs] may depend on the result. *)
Class Disposes {A} (c : st world A) (bs : A -> list nat) : Prop :=
  disposes : forall w, exists l, log (snd (c w)) = log w ++ l /\ ids l = match fst (c w) with inr a => bs a | inl _ => [] end.
Abbreviation Quiet c := (Disposes c (fun _ => [])).

#[export] Instance quiet_ret {A} (a : A) : Quiet (st_ret a).
Proof. intros w. exists []. by rewrite app_nil_r. Qed.
#[export] Instance throw_disposes {A} e bs : Disposes (st_throw (A := A) e) bs.
Proof. intros w. exists []. by rewrite app_nil_r. Qed.
#[export] Instance quiet_lift {A} (r : res A) : Quiet (st_lift r).
Proof. intros w. exists []. rewrite app_nil_r. split; [done|]. by destruct (fst _). Qed.
#[export] Instance quiet_get : Quiet st_get.
Proof. intros w. exists []. by rewrite app_nil_r. Qed.

Lemma disposes_bind {A B} (c : st world A) (k : A -> st world B) bs bs' :
  Disposes c bs -> (forall a, Disposes (k a) (fun b => bs' a b)) -> forall cs, (forall a b, bs a ++ bs' a b = cs b) ->
  (forall a, bs a = []) -> Disposes (do a <- c ;; k a) cs.
Proof.
  intros Hc Hk cs Hcs Hq w. destruct (Hc w) as (l & El & Hl). unfold st_bind. destruct (c w) as [[e|a] w1]; cbn in *; [by exists l|].
  destruct (Hk a w1) as (l' & El' & Hl'). destruct (k a w1) as [[e|b] w2]; cbn in *;
    exists (l ++ l'); rewrite ids_app, Hl, Hl', El', El, app_assoc; split; auto.
  by rewrite Hq.
Qed.
#[export] Instance quiet_then {A B} (c : st world A) (k : A -> st world B) bs :
  Quiet c -> (forall a, Disposes (k a) bs) -> Disposes (do a <- c ;; k a) bs.
Proof. intros Hc Hk. by eapply (disposes_bind c k (fun _ => []) (fun _ => bs)). Qed.

Lemma disposes_ret {A B} (c : st world A) (b : B) bs bs' : Disposes c bs -> (forall a, bs a = bs' b) ->
  Disposes (do _ <- c ;; st_ret b) bs'.
Proof.
  intros Hc Hb w. destruct (Hc w) as (l & El & Hl). unfold st_bind. destruct (c w) as [[e|a] w1]; cbn in *; exists l; [done|].
  by rewrite Hl, Hb.
Qed.

#[export] Instance quiet_sessions {A} (c : st AlSession.state A) : Quiet (in_sessions c).
Proof. intros [?????? ]. exists []. unfold in_sessions. destruct (c _) as [[] ]; cbn; by rewrite app_nil_r. Qed.
#[export] Instance quiet_filters {A} (c : st Filter.filters A) : Quiet (in_filters c).
Proof. intros [?????? ]. exists []. unfold in_filters. destruct (c _) as [[] ]; cbn; by rewrite app_nil_r. Qed.
#[export] Instance quiet_routers {A} (c : st Router.routers A) : Quiet (in_routers c).
Proof. intros [?????? ]. exists []. unfold in_routers. destruct (c _) as [[] ]; cbn; by rewrite app_nil_r. Qed.
#[export] Instance quiet_neighbours {A} (c : st Arp.tables A) : Quiet (in_neighbours c).
Proof. intros [?????? ]. exists []. unfold in_neighbours. destruct (c _) as [[] ]; cbn; by rewrite app_nil_r. Qed.
Lemma log_in_sessions {A} (c : st AlSession.state A) w : log (snd (in_sessions c w)) = log w.
Proof. destruct w. unfold in_sessions. by destruct (c _). Qed.
#[export] Instance emit_disposes e : Disposes (emit e) (fun _ => ids [e]).
Proof. intros []. by exists [e]. Qed.

(** Through binds and branches down to the instances. *)
Ltac dispose := repeat (first [typeclasses eauto | apply quiet_then; [|intros ?] | case_match]).

#[export] Instance quiet_peek p off n : Quiet (peek p off n).
Proof. unfold peek. dispose. Qed.
#[export] Instance quiet_ethertype p : Quiet (ethertype p).
Proof. unfold ethertype. dispose. Qed.
#[export] Instance quiet_dev i : Quiet (dev i).
Proof. unfold dev. dispose. Qed.
#[export] Instance quiet_requested q p : Quiet (emit (Requested q p)).
Proof. intros []. by exists [Requested q p]. Qed.

Section Buffers.
Context (env : context).
Context `{gslb : !forall m hdr nx, Disposes (al_gslb_process env m hdr nx) (fun _ => [m_id m])}.

#[export] Instance free_disposes m : Disposes (rte_pktmbuf_free m) (fun _ => [m_id m]).
Proof. unfold rte_pktmbuf_free. dispose. Qed.
#[export] Instance switch_disposes q m k : Disposes (send_to_switch q m k) (fun _ => [m_id m]).
Proof. unfold send_to_switch. dispose. Qed.

#[export] Instance process_disposes p m hdr nx : Disposes (process p m hdr nx) (fun _ => [m_id m]).
Proof. unfold process. destruct m. dispose. Qed.

#[export] Instance init_local_quiet s m hdr nx : Quiet (session_init_local s m hdr nx).
Proof. unfold session_init_local. dispose. Qed.
#[export] Instance upstream_quiet v6 u a v p hdr nx : Quiet (upstream_ends env v6 u a v p hdr nx).
Proof. unfold upstream_ends. dispose. Qed.
#[export] Instance neighbour_quiet v6 hop d : Quiet (neighbour env v6 hop d).
Proof. unfold neighbour. dispose. Qed.
#[export] Instance init_remote_quiet c u f g m hdr nx : Quiet (session_init_remote env c u f g m hdr nx).
Proof. unfold session_init_remote. dispose. Qed.
#[export] Instance service_disposes f s m hdr nx : Disposes (al_service env f s m hdr nx) (fun _ => [m_id m]).
Proof. unfold al_service. dispose. Qed.

#[export] Instance owner_disposes t ty m : Disposes (to_owner env t ty m) (fun _ => [m_id m]).
Proof. unfold to_owner. destruct m. dispose. Qed.
#[export] Instance pass_on_disposes m f t : Disposes (pass_on m f t) (fun _ => [m_id m]).
Proof. unfold pass_on. dispose. Qed.
#[export] Instance ipv4_disposes m hdr nx f t : Disposes (al_ipv4_input env m hdr nx f t) (fun _ => [m_id m]).
Proof. unfold al_ipv4_input. dispose. Qed.
#[export] Instance ipv6_disposes m hdr nx f t : Disposes (al_ipv6_input env m hdr nx f t) (fun _ => [m_id m]).
Proof. unfold al_ipv6_input. dispose. Qed.
#[export] Instance icmp6_disposes m : Disposes (al_icmp6 env m) (fun _ => [m_id m]).
Proof. unfold al_icmp6. dispose. Qed.
#[export] Instance arp_quiet m : Quiet (arp_input env m).
Proof. unfold arp_input. dispose. Qed.

(** *** A burst *)

(** An ICMPv6 packet that reaches [al_icmp6_proc]. *)
Definition is_icmp6 (p : packet) : bool :=
  match fst (load 12 2 p), fst (load 18 2 p), fst (load 20 1 p) with
  | inr et, inr len, inr pr =>
      (be16 et =? ETHER_TYPE_IPv6) && negb (pkt_len p <? 40) && negb (be16 len <? pkt_len p) && (byte_of pr =? IPPROTO_ICMPV6)
  | _, _, _ => false
  end.
(** How often a buffer is handed on. *)
Definition owed (m : mbuf) : list nat := if is_icmp6 (pkt m) then [m_id m; m_id m] else [m_id m].
Definition left_over (o : option mbuf) : list nat := match o with Some m => [m_id m] | None => [] end.

(** Together with what it leaves to do, a round hands the buffer on as often as [owed] says. *)
Definition handles (m : mbuf) (c : st world (option mbuf)) : Prop := forall w, exists l, log (snd (c w)) = log w ++ l
  /\ match fst (c w) with inr o => ids l ++ left_over o = owed m | inl _ => ids l = [] end.

Lemma handles_peek m p off n k : (forall b, fst (load off n p) = inr b -> handles m (k b)) -> handles m (do b <- peek p off n ;; k b).
Proof.
  intros Hk w. unfold st_bind, peek, st_lift. destruct (fst (load off n p)) as [e|b]; [|by apply Hk].
  exists []. by rewrite app_nil_r.
Qed.
Lemma handles_end {A} m (c : st world A) bs o : Disposes c (fun _ => bs) -> bs ++ left_over o = owed m -> handles m (do _ <- c ;; st_ret o).
Proof.
  intros Hc Hb w. destruct (Hc w) as (l & El & Hl). exists l. unfold st_bind. destruct (c w) as [[e|a] w1]; cbn in *; [done|].
  by rewrite Hl.
Qed.
Lemma handles_ret m o : left_over o = owed m -> handles m (st_ret o).
Proof. intros H w. exists []. by rewrite app_nil_r. Qed.

Lemma handles_type m p k : (forall b, fst (load 12 2 p) = inr b -> handles m (k (be16 b))) -> handles m (do et <- ethertype p ;; k et).
Proof.
  intros Hk w. unfold ethertype, st_bind, peek, st_lift. destruct (fst (load 12 2 p)) as [e|b]; [|by apply Hk].
  exists []. by rewrite app_nil_r.
Qed.

Lemma dispatch_handles q f t m : handles m (dispatch env q f t m).
Proof.
  unfold dispatch. apply handles_type. intros et Eet. unfold ETHER_TYPE_IPv4, ETHER_TYPE_IPv6, ETHER_TYPE_ARP in *.
  assert (be16 et <> 34525 -> owed m = [m_id m]) as Hno.
  { intros Hne. apply Z.eqb_neq in Hne. unfold owed, is_icmp6. rewrite Eet. unfold ETHER_TYPE_IPv6. rewrite Hne. by repeat case_match. }
  destruct (Z.eqb_spec (be16 et) 2048) as [E4|_].
  { specialize (Hno ltac:(lia)). apply handles_peek. intros vi _. case_match; [apply (handles_end _ _ [m_id m]); [typeclasses eauto|done]|].
    apply handles_peek. intros tl _. case_match; [apply (handles_end _ _ [m_id m]); [typeclasses eauto|done]|].
    apply handles_peek. intros pr _. case_match; [|by apply handles_ret].
    destruct m as [i]. apply (handles_end _ _ [i]); [typeclasses eauto|done]. }
  destruct (Z.eqb_spec (be16 et) 34525) as [E6|Hne].
  2:{ specialize (Hno Hne). case_match; [apply (handles_end _ _ []); [typeclasses eauto|done]|by apply handles_ret]. }
  assert (owed m = if is_icmp6 (pkt m) then [m_id m; m_id m] else [m_id m]) as Ho by done.
  unfold is_icmp6 in Ho. rewrite Eet, E6 in Ho. change (34525 =? ETHER_TYPE_IPv6) with true in Ho. cbn [andb] in Ho.
  destruct (pkt_len (pkt m) <? 40); [apply (handles_end _ _ [m_id m]); [typeclasses eauto|]; rewrite Ho; by repeat case_match|].
  apply handles_peek. intros len El. rewrite El in Ho. cbn [negb andb] in Ho.
  destruct (be16 len <? pkt_len (pkt m)); [apply (handles_end _ _ [m_id m]); [typeclasses eauto|]; rewrite Ho; by repeat case_match|].
  apply handles_peek. intros pr Ep. rewrite Ep in Ho. cbn [negb andb] in Ho.
  destruct (is_tcp_or_udp (byte_of pr)) eqn:Et.
  { assert ((byte_of pr =? IPPROTO_ICMPV6) = false) as Hn.
    { apply Z.eqb_neq. intros E. rewrite E in Et. discriminate. }
    rewrite Hn in Ho. destruct m as [i]. apply (handles_end _ _ [i]); [typeclasses eauto|done]. }
  destruct (byte_of pr =? IPPROTO_ICMPV6); [apply (handles_end _ _ [m_id m]); [typeclasses eauto|done]|by apply handles_ret].
Qed.

(** The buffers of a burst: handed on as often as [owed] says, or less when the
    burst is not finished. *)
Lemma dispatch_all_ok q f t ms : forall w, exists l, log (snd (dispatch_all env q f t ms w)) = log w ++ l
  /\ match fst (dispatch_all env q f t ms w) with
     | inr out => ids l ++ map m_id out ≡ₚ concat (map owed ms)
     | inl _ => ids l ⊆+ concat (map owed ms)
     end.
Proof.
  induction ms as [|m ms IH]; intros w; [exists []; cbn; by rewrite app_nil_r|]. cbn [dispatch_all]. unfold st_bind.
  destruct (dispatch_handles q f t m w) as (l & El & Hl). destruct (dispatch env q f t m w) as [[e|o] w1]; cbn [fst snd] in *.
  { exists l. rewrite Hl. split; [done|]. apply submseteq_nil_l. }
  destruct (IH w1) as (l' & El' & Hl'). destruct (dispatch_all env q f t ms w1) as [[e|out] w2]; unfold st_ret; cbn [fst snd] in *;
    exists (l ++ l'); rewrite ids_app, El', El, app_assoc; (split; [done|]); cbn [map concat]; rewrite <-Hl.
  - rewrite <-app_assoc. apply submseteq_app; [done|]. etransitivity; [exact Hl'|]. apply submseteq_inserts_l. done.
  - rewrite <-Hl'. destruct o; cbn; solve_Permutation.
Qed.

Lemma send_all_ok q k ms : forall w, exists l, send_all q k ms w = (ok tt, w <| log := log w ++ l |>) /\ ids l = map m_id ms.
Proof.
  induction ms as [|m ms IH]; intros []; [exists []; cbn; by rewrite app_nil_r|]. cbn [send_all].
  unfold st_bind, send_to_switch, emit, st_modify.
  match goal with |- context [send_all q k ms ?w] => destruct (IH w) as (l & -> & Hl) end.
  exists (ToSwitch q k m :: l). split; [cbn; by rewrite <-app_assoc|]. cbn [map]. by rewrite <-Hl.
Qed.
End Buffers.

(** A whole burst. *)
Lemma main_process_disposes (env : context) (due : bool) (q from type : Z) (ms : list mbuf) (w w' : world) (r : res unit) :
  (forall m hdr nx, Disposes (al_gslb_process env m hdr nx) (fun _ => [m_id m])) ->
  al_main_process env due q ms from type w = (r, w') ->
  exists l, log w' = log w ++ l /\ ids l ⊆+ concat (map owed ms) /\ (r = ok tt -> ids l ≡ₚ concat (map owed ms)).
Proof.
  intros Hg. unfold al_main_process, st_bind. generalize AlSession.al_session_timeout. intros sweep E.
  destruct (dispatch_all_ok env q from type ms w) as (l & El & Hl).
  destruct (dispatch_all env q from type ms w) as [[e|out] w1]; cbn [fst snd] in *.
  { injection E as <- <-. exists l. by split_and!. }
  destruct (send_all_ok q (negb (type =? AL_PORT_TYPE_KNI)) out w1) as (l' & E' & Hl'). rewrite E' in E.
  assert (log w' = log w1 ++ l') as Elog.
  { destruct due; [|by injection E as _ <-; destruct w1].
    rewrite (surjective_pairing (in_sessions _ _)) in E. injection E as _ <-. rewrite log_in_sessions. by destruct w1. }
  exists (l ++ l'). rewrite Elog, El, ids_app, Hl', Hl, app_assoc. by split_and!.
Qed.
End DataplaneFacts.

(** ** Properties *)
Section Properties.
Import Session_t Process Dataplane DataplaneFacts.

(** C13. Buffers are neither lost nor handed on twice, with one exception: whatever the packets
    of a burst are and whatever the tables hold, when [al_main_process] is
    through, each buffer has been given back, queued for a thread or sent exactly
    once, and twice an ICMPv6 packet that passes the check of its length field,
    which one with a true length field does not; and however it ends, none more often. *)
Theorem burst_conserves_buffers (env : context) (due : bool) (q from type : Z) (ms : list mbuf) (w w' : world) (r : res unit) :
  (forall m hdr nx, Disposes (al_gslb_process env m hdr nx) (fun _ => [m_id m])) ->
  al_main_process env due q ms from type w = (r, w') ->
  exists l, log w' = log w ++ l /\ ids l ⊆+ concat (map owed ms) /\ (r = ok tt -> ids l ≡ₚ concat (map owed ms)).
Proof. apply main_process_disposes. Qed.

(** No IPv6 packet whose length field is right gets through: the field is the
    length of the payload and is compared with that of the whole packet. *)
Theorem truthful_ipv6_is_dropped (env : context) (q from type : Z) (m : mbuf) (g : Chksum.segment) (next : packet) (w : world) :
  pkt m = g :: next -> (20 <= length (Chksum.seg_data g))%nat ->
  be16 (slice 12 2 (Chksum.seg_data g)) = ETHER_TYPE_IPv6 -> 40 <= pkt_len (pkt m) ->
  be16 (slice 18 2 (Chksum.seg_data g)) + 54 = pkt_len (pkt m) ->
  dispatch env q from type m w = (ok None, w <| log := log w ++ [Freed m] |>).
Proof.
  intros Ep Hl Ht H40 Hlen. unfold dispatch.
  assert (ethertype (pkt m) w = (ok ETHER_TYPE_IPv6, w)) as E1.
  { unfold ethertype, st_bind, peek, st_lift. rewrite Ep, ProcessFacts.load_ok by lia. cbn [fst]. by rewrite <-Ht. }
  assert (peek (pkt m) 18 2 w = (ok (slice 18 2 (Chksum.seg_data g)), w)) as E2
    by (unfold peek, st_lift; by rewrite Ep, ProcessFacts.load_ok by lia).
  rewrite (st_bind_ok _ _ _ _ _ E1). change (ETHER_TYPE_IPv6 =? ETHER_TYPE_IPv4) with false.
  change (ETHER_TYPE_IPv6 =? ETHER_TYPE_IPv6) with true. cbv iota.
  destruct (Z.ltb_spec (pkt_len (pkt m)) 40); [lia|]. rewrite (st_bind_ok _ _ _ _ _ E2).
  destruct (Z.ltb_spec (be16 (slice 18 2 (Chksum.seg_data g))) (pkt_len (pkt m))); [done|lia].
Qed.
End Properties.

(** ** Witnesses *)
Section Witnesses.
Import Session_t Process Dataplane DataplaneFacts.

Definition frame (ethertype_ : list Z) (rest : list Z) : packet := [{| Chksum.seg_odd := false; Chksum.seg_data := repeat 1 12 ++ ethertype_ ++ rest |}].
Definition quiet_session : Session_t.t := Session_t.mk 0 false false 0 false 0 false 0 0 0%nat 0 0 0 0 [] [] 0 0.
(** DNS queries go to the kernel. *)
Definition plain_context : context :=
  mk_context 3 (quiet_session, quiet_session) Group.sample_args 0 0 (Some false) true true (fun m _ _ => send_to_switch (m_port m) m true).
Definition plain_world : world :=
  mk (AlSession.init (Tuple5.port_init 41)) empty_filters sample_routers Arp.arp_init [Vport.mk_dev 0 1 sample_vport] [].
(** An ARP request, an unknown protocol, a neighbour advertisement and an IPv4 packet that is too long. *)
Definition sample_burst : list mbuf :=
  [mk_mbuf 1 (frame [8; 6] (repeat 0 28)) 0 0; mk_mbuf 2 (frame [9; 9] [1; 2; 3]) 0 0;
   mk_mbuf 3 (frame [134; 221] ([96; 0; 0; 0; 255; 0; 58; 1] ++ repeat 0 32 ++ [136; 0] ++ repeat 0 40)) 0 0;
   mk_mbuf 4 (frame [8; 0] ([69; 0; 255; 255] ++ repeat 0 40)) 0 0].

Lemma burst_conserves_buffers_witness :
  exists r w' l, al_main_process plain_context false 0 sample_burst AL_PKT_FROM_NIC 1 plain_world = (r, w')
    /\ log w' = l /\ ids l ≡ₚ [1; 2; 3; 3; 4]%nat.
Proof.
  destruct (al_main_process plain_context false 0 sample_burst AL_PKT_FROM_NIC 1 plain_world) as [r w'] eqn:E.
  destruct (burst_conserves_buffers plain_context false 0 AL_PKT_FROM_NIC 1 sample_burst plain_world w' r) as (l & El & _ & Hl).
  - intros. apply switch_disposes.
  - exact E.
  - exists r, w', l. split_and!; [reflexivity|exact El|]. apply Hl.
    assert (fst (al_main_process plain_context false 0 sample_burst AL_PKT_FROM_NIC 1 plain_world) = ok tt) as Hr by (vm_compute; reflexivity).
    rewrite E in Hr. exact Hr.
Defined.
End Witnesses.
