(* ===== verification/Connection.v ===== *)
(** * Opening a connection

    The first packet of a connection to a virtual service, through all of the
    data plane: [al_ipv4_input] of [Dataplane] with the filter, the member, the
    route, the local address and port and the neighbour that the tables give.
    [opens] collects what the tables must hold; the theorem says what the
    packet then does. *)

From Stdlib Require Import ZArith Lia Bool.
From stdpp Require Import base tactics option gmap list.
From S2P Require Import Prelude Checksum Tuple5 AlSession Process RbTree Table Cluster Member Group Prefix Router Filter Hosts Dataplane.

Open Scope Z_scope.

Module Connection.
Import Session_t Chksum ChksumFacts Process ProcessFacts Dataplane.

(** What the tables answer on the way. *)
Record answers := mk_answers {
  fargs : Filter.al_fargs; margs : Member.al_margs; groups : Table.table Group.al_group;
  hop : list Z; oif : Z; dev_in : Vport.al_dev; dev_out : Vport.al_dev; lip : Z; nb_haddr : list Z; nb_port : Z; free_port : Z }.

Section Opening.
Context (env : context) (w : world) (m : mbuf) (q : segment) (next : list segment) (hdr nxt : nat) (from : Z) (o : answers).
Let d : list Z := seg_data q.

(** The ends of the client's connection, as the packet has them. *)
Definition src : Z := word_of (slice (hdr + 12) 4 d).
Definition dst : Z := word_of (slice (hdr + 16) 4 d).
Definition pr : Z := byte_of (slice (hdr + 9) 1 d).
Definition src_port : Z := word_of (slice nxt 2 d).
Definition dst_port : Z := word_of (slice (nxt + 2) 2 d).
(** The chosen member. *)
Definition member_addr : Z := word_of (slice 2 4 (Member.a_addr (margs o))).
Definition member_port : Z := Member.a_port (margs o).

(** The filters with the group as the choice of a member leaves it. *)
Definition filters' : Filter.filters := (filters w) <| Filter.g_members := groups o |>.

(** A TCP packet over IPv4, with nothing but zeros behind it in its frame, of no
    connection known here or elsewhere, to a filter of type SIMPLE_TRANS; two sessions
    are left; the filter's group has a member, with an IPv4 address, there is a route
    to it and a port behind the route with an address in its network; a
    tuple is left to register and one of the ports that the search tries is free for
    the member; the neighbour is known. *)
Record opens : Prop := {
  o_packet : pkt m = q :: next;
  o_headers : tcp_packet hdr nxt q next;
  o_ethertype : be16 (slice 12 2 d) = ETHER_TYPE_IPv4;
  o_new : AlSession.tcp4_session_get src src_port dst dst_port pr (sessions w) = ok None;
  o_unowned : from <> AL_PKT_FROM_NIC \/ Tuple5.which_thread_v4 src dst src_port dst_port pr (AlSession.ports (sessions w)) = -1;
  o_filter : Filter.al_filter_search false (slice (hdr + 16) 4 d) dst_port pr (filters w) = (ok (Some (fargs o)), filters w);
  o_translates : Filter.ftype (fargs o) = AL_FLT_SIMPLE_TRANS;
  o_pool : 2 <= AlSession.session_memory_pool (sessions w);
  o_dev_in : vports w !! Z.to_nat (m_port m) = Some (dev_in o);
  o_member : Group.al_member_lookup (Filter.a_fid (fargs o)) (Filter.a_gid (fargs o)) (stale_margs env) (Filter.g_members (filters w))
    = (ok (0, margs o), groups o);
  o_family : Member.al_addr_af (Member.a_addr (margs o)) = Vport.AF_INET;
  o_route : Router.al_router_find None (slice 2 4 (Member.a_addr (margs o))) Vport.AF_INET (routers w) = (ok (Some (hop o, oif o)), routers w);
  o_dev_out : vports w !! Z.to_nat (oif o) = Some (dev_out o);
  o_haddr : haddr (Vport.haddr (Vport.port (dev_out o)));
  o_local : Vport.vport_select_local_ip (Vport.port (dev_out o)) Vport.AF_INET member_addr = Some (lip o);
  o_ports : 0 <= Tuple5.port_start (AlSession.ports (sessions w)) < 65536 /\ 0 < Tuple5.port_mem_pool (AlSession.ports (sessions w));
  o_free : Tuple5Facts.tried (Tuple5.port_start (AlSession.ports (sessions w))) (free_port o) /\ asks filters' false (u32 (lip o)) (Tuple5.cpu_to_be_16 (free_port o)) pr = -1
    /\ Tuple5.is_connect_port_already_used false (address4 member_addr) (address4 (lip o)) member_port
         (Tuple5.cpu_to_be_16 (free_port o)) pr (AlSession.ports (sessions w)) = false;
  o_neighbour : Arp.search false (address4 (word_of (hop o))) (neighbours w) = Some (nb_haddr o, nb_port o);
  o_nb_haddr : haddr (nb_haddr o) }.

(** *** The packet *)
Lemma peek_ok w1 off n : (off + n <= length d)%nat -> peek (q :: next) off n w1 = (ok (slice off n d), w1).
Proof. intros H. unfold peek, st_lift. by rewrite load_ok. Qed.
Lemma bind_peek {A} w1 off n (k : list Z -> st world A) : (off + n <= length d)%nat ->
  (do b <- peek (q :: next) off n ;; k b) w1 = k (slice off n d) w1.
Proof. intros H. apply st_bind_ok. by apply peek_ok. Qed.
Lemma bind_ethertype {A} w1 (k : Z -> st world A) : (14 <= length d)%nat ->
  (do e <- ethertype (q :: next) ;; k e) w1 = k (be16 (slice 12 2 d)) w1.
Proof. intros H. apply st_bind_ok. unfold ethertype. by rewrite bind_peek by lia. Qed.
Lemma bind_dev {A} w1 i dv (k : Vport.al_dev -> st world A) : vports w1 !! Z.to_nat i = Some dv ->
  (do x <- dev i ;; k x) w1 = k dv w1.
Proof. intros H. apply st_bind_ok. unfold dev, st_bind, st_get. by rewrite H. Qed.

Lemma bind_sessions {A B} w1 (c : st AlSession.state A) a s' (k : A -> st world B) : c (sessions w1) = (ok a, s') ->
  (do x <- in_sessions c ;; k x) w1 = k a (w1 <| sessions := s' |>).
Proof. intros H. apply st_bind_ok. unfold in_sessions. by rewrite H. Qed.

Lemma address4_set v a : address4 (set_address4 v a) = address4 v.
Proof.
  unfold address4, set_address4, u32, wrap. pose proof (Z.div_mod a (2 ^ 32) ltac:(done)) as Ha.
  replace (a - a mod 2 ^ 32 + v mod 2 ^ 32) with (v mod 2 ^ 32 + (a / 2 ^ 32) * 2 ^ 32) by lia.
  rewrite Z.mod_add by done. by rewrite Z.mod_mod.
Qed.

(** *** The sessions *)
Definition new_session (garbage : Session_t.t) : Session_t.t :=
  garbage <| port_alloc := false |> <| proto := 0 |> <| is_dr := false |> <| stout := SESSION_IDLE_TIMEOUT |>.
Definition client0 : Session_t.t := session_mem_init ((new_session (fst (session_mem env))) <| ftype := Filter.ftype (fargs o) |>) false.
Definition server0 : Session_t.t := session_mem_init ((new_session (snd (session_mem env))) <| ftype := Filter.ftype (fargs o) |>) true.

Definition client : Session_t.t :=
  client0 <| to_haddr := slice 0 6 d |> <| from_haddr := slice 6 6 d |>
    <| remote_addr := set_address4 src (remote_addr client0) |> <| local_addr := set_address4 dst (local_addr client0) |>
    <| in_type := false |> <| proto := pr |>
    <| local_port := dst_port |> <| remote_port := src_port |> <| portid := Vport.dev_port (dev_in o) |>.
Definition server1 : Session_t.t :=
  server0 <| fid := Filter.a_fid (fargs o) |> <| mid := mid client |> <| in_type := false |> <| proto := pr |>
    <| remote_addr := set_address4 member_addr (remote_addr server0) |> <| remote_port := member_port |> <| local_addr := lip o |>.
(** With the local port [p]. *)
Definition server (p : Z) : Session_t.t :=
  server1 <| local_port := Tuple5.cpu_to_be_16 p |>
    <| from_haddr := nb_haddr o |> <| portid := Z.land (nb_port o) 255 |> <| to_haddr := Vport.haddr (Vport.port (dev_out o)) |>.

Context (Ho : opens).

Lemma bounds : (hdr + 20 <= nxt)%nat /\ (nxt + 20 <= length d)%nat /\ (14 <= hdr)%nat.
Proof. destruct (header_bounds hdr nxt q next (proj1 (o_headers Ho))) as (? & ? & ? & _). done. Qed.

Lemma init_local_ok w1 : vports w1 = vports w ->
  session_init_local client0 m hdr nxt w1 = (ok (0, client), w1).
Proof.
  intros Ev. destruct bounds as (B1 & B2 & B3). unfold session_init_local. rewrite (o_packet Ho).
  rewrite bind_ethertype by lia. rewrite !bind_peek by lia. rewrite (bind_dev w1 _ (dev_in o)) by (rewrite Ev; apply (o_dev_in Ho)).
  rewrite (o_ethertype Ho). change (ETHER_TYPE_IPv4 =? ETHER_TYPE_IPv4) with true. cbv iota.
  rewrite !bind_peek by lia. unfold client, client0, new_session. by destruct (fst (session_mem env)).
Qed.

Lemma select_local_address4 v a b : address4 a = address4 b ->
  Vport.vport_select_local_ip v Vport.AF_INET a = Vport.vport_select_local_ip v Vport.AF_INET b.
Proof.
  intros E. unfold Vport.vport_select_local_ip. change (Vport.AF_INET =? Vport.AF_INET) with true. cbv iota. f_equal.
  induction (Vport.ipv4 v) as [|x l IH]; [done|]. cbn [List.find]. unfold Vport.is_same_subnet at 1 3.
  change (Vport.AF_INET =? Vport.AF_INET) with true. cbv iota. by rewrite E, IH.
Qed.

(** Whether a port is refused depends on the ends of the session. *)
Lemma refused_server1 F p ps : Tuple5.refused (asks F false) server1 p ps
  = (asks F false (u32 (lip o)) p pr =? 0)
    || Tuple5.is_connect_port_already_used false (address4 member_addr) (address4 (lip o)) member_port p pr ps.
Proof.
  unfold server1, server0, new_session, session_mem_init. destruct (snd (session_mem env)). cbn. unfold Tuple5.refused. cbn.
  by rewrite address4_set.
Qed.

Lemma upstream_ok u w1 : filters w1 = filters' -> AlSession.ports (sessions w1) = AlSession.ports (sessions w) ->
  u = server0 <| fid := Filter.a_fid (fargs o) |> <| mid := mid client |> <| in_type := false |> <| proto := pr |> ->
  exists p ps, upstream_ends env false u (margs o) (Vport.port (dev_out o)) (pkt m) hdr nxt w1
      = (ok (0, server1 <| local_port := Tuple5.cpu_to_be_16 p |>), w1 <| sessions := (sessions w1) <| AlSession.ports := ps |> |>)
    /\ Tuple5Facts.tried (Tuple5.port_start (AlSession.ports (sessions w))) p /\ Tuple5.refused (asks filters' false) server1 (Tuple5.cpu_to_be_16 p) (AlSession.ports (sessions w)) = false
    /\ Tuple5.which_thread_v4 (address4 member_addr) (address4 (lip o)) member_port (Tuple5.cpu_to_be_16 p) pr ps = g_lcoreid env.
Proof.
  intros Ef Ep ->. destruct (o_ports Ho) as [Hr Hpool]. destruct (o_free Ho) as (F1 & F2 & F3).
  destruct (Tuple5Facts.allocation_ok (g_lcoreid env) (asks filters' false) server1 (AlSession.ports (sessions w)) Hr Hpool)
    as (rc & s' & ps & E & Hrc & Hok & _).
  assert (rc = 0) as ->.
  { apply Hrc. exists (free_port o). split; [done|]. by rewrite refused_server1, F2, F3. }
  destruct (Hok eq_refl) as ((p & Hp & -> & Href) & Hw). clear Hrc Hok. exists p, ps. split_and!; [|done|done|].
  - unfold upstream_ends.
    assert (forall g, ftype (server0 <| fid := g |> <| mid := mid client |> <| in_type := false |> <| proto := pr |>) = Filter.ftype (fargs o)) as ->
      by (unfold server0, new_session; by destruct (snd (session_mem env))).
    rewrite (o_translates Ho). change (AL_FLT_SIMPLE_TRANS =? AL_FLT_SIMPLE_TRANS) with true. cbv iota zeta.
    fold member_addr. rewrite (select_local_address4 _ _ member_addr) by (unfold server0, new_session; destruct (snd (session_mem env)); cbn; apply address4_set).
    rewrite (o_local Ho). unfold st_bind at 1, st_get. rewrite Ef.
    match goal with |- context [Tuple5.al_alocate_new_port_with_session _ _ ?u] => replace u with server1
      by (unfold server1, server0, new_session; by destruct (snd (session_mem env))) end.
    unfold in_sessions, AlSession.on_ports. by rewrite Ep, E.
  - revert Hw. unfold Tuple5.which_thread_v4, server1, server0, new_session, session_mem_init.
    destruct (snd (session_mem env)). cbn -[Tuple5.which_thread Tuple5.cpu_to_be_16]. by rewrite address4_set.
Qed.

Lemma neighbour_ok w1 d1 : neighbours w1 = neighbours w ->
  neighbour env false (set_address4 (word_of (hop o)) (stale_hop env)) d1 w1 = (ok (Some (nb_haddr o, nb_port o)), w1).
Proof.
  intros En. unfold neighbour, st_bind, st_get. unfold Arp.arp_search. rewrite address4_set, En, (o_neighbour Ho). done.
Qed.

Lemma init_remote_ok w1 : filters w1 = filters w -> routers w1 = routers w -> neighbours w1 = neighbours w -> vports w1 = vports w ->
  AlSession.ports (sessions w1) = AlSession.ports (sessions w) ->
  exists p ps, session_init_remote env client (server0 <| fid := Filter.a_fid (fargs o) |>) (Filter.a_fid (fargs o)) (Filter.a_gid (fargs o)) m hdr nxt w1
      = (ok (0, server p), w1 <| filters := filters' |> <| sessions := (sessions w1) <| AlSession.ports := ps |> |>)
    /\ Tuple5Facts.tried (Tuple5.port_start (AlSession.ports (sessions w))) p /\ Tuple5.refused (asks filters' false) server1 (Tuple5.cpu_to_be_16 p) (AlSession.ports (sessions w)) = false
    /\ Tuple5.which_thread_v4 (address4 member_addr) (address4 (lip o)) member_port (Tuple5.cpu_to_be_16 p) pr ps = g_lcoreid env.
Proof.
  intros Ef Er En Ev Ep. destruct bounds as (B1 & B2 & B3).
  destruct (upstream_ok (server0 <| fid := Filter.a_fid (fargs o) |> <| mid := mid client |> <| in_type := false |> <| proto := pr |>)
    (w1 <| filters := filters' |>)) as (p & ps & E & Hp & Href & Hw); [by destruct w1|by destruct w1|done|].
  exists p, ps. split_and!; [|done|done|done]. unfold session_init_remote.
  assert (in_filters (Filter.in_members (Group.al_member_lookup (Filter.a_fid (fargs o)) (Filter.a_gid (fargs o)) (stale_margs env))) w1
    = (ok (0, margs o), w1 <| filters := filters' |>)) as Em.
  { unfold in_filters, Filter.in_members. rewrite Ef, (o_member Ho). unfold filters'. done. }
  rewrite (st_bind_ok _ _ _ _ _ Em). cbv beta iota zeta. change (0 =? 0) with true. cbn [negb]. rewrite (o_family Ho).
  change (Vport.AF_INET =? Vport.AF_INET) with true. cbv iota.
  assert (in_routers (Router.al_router_find None (slice 2 4 (Member.a_addr (margs o))) Vport.AF_INET) (w1 <| filters := filters' |>)
    = (ok (Some (hop o, oif o)), w1 <| filters := filters' |>)) as Ert.
  { unfold in_routers. replace (routers (w1 <| filters := filters' |>)) with (routers w) by (destruct w1; by cbn in *).
    rewrite (o_route Ho). destruct w1. cbn in *. by subst. }
  rewrite (st_bind_ok _ _ _ _ _ Ert). cbv iota. rewrite (o_packet Ho) in *. rewrite bind_ethertype by lia.
  rewrite (bind_dev _ _ (dev_out o)) by (destruct w1; cbn in *; subst; apply (o_dev_out Ho)).
  rewrite (o_ethertype Ho). change (ETHER_TYPE_IPv4 =? ETHER_TYPE_IPv4) with true. cbv iota.
  rewrite bind_peek by lia. fold pr. rewrite (st_bind_ok _ _ _ _ _ E). cbv beta iota. change (0 =? 0) with true. cbn [negb].
  erewrite st_bind_ok by (apply neighbour_ok; by destruct w1). by destruct w1.
Qed.

(** *** The pair *)
Definition put (w0 : world) (s : AlSession.state) : world := w0 <| sessions := s |>.
Lemma sessions_put w0 s : sessions (put w0 s) = s.
Proof. by destruct w0. Qed.
Lemma put_put w0 s s' : (put w0 s) <| sessions := s' |> = put w0 s'.
Proof. by destruct w0. Qed.
Lemma bind_put {A B} w0 s (c : st AlSession.state A) a s' (k : A -> st world B) : c s = (ok a, s') ->
  (do x <- in_sessions c ;; k x) (put w0 s) = k a (put w0 s').
Proof. intros H. rewrite (bind_sessions _ c a s') by (by rewrite sessions_put). by rewrite put_put. Qed.

Lemma create_step h t n ps g : 1 <= n -> exists c, h !! c = None
  /\ AlSession.al_session_create g (AlSession.mk h t n ps) = (ok (Some c), AlSession.mk (<[c := new_session g]> h) t (n - 1) ps).
Proof.
  intros Hn. exists (fresh (dom h)). split; [apply not_elem_of_dom, is_fresh|].
  unfold AlSession.al_session_create. cbn [AlSession.session_memory_pool]. destruct (Z.leb_spec n 0); [lia|]. done.
Qed.
Lemma deref_step h t n ps c x : h !! c = Some x -> AlSession.deref c (AlSession.mk h t n ps) = (ok x, AlSession.mk h t n ps).
Proof. intros H. unfold AlSession.deref. cbn. by rewrite H. Qed.
Lemma assign_step h t n ps c x : AlSession.assign c x (AlSession.mk h t n ps) = (ok tt, AlSession.mk (<[c := x]> h) t n ps).
Proof. done. Qed.
Lemma add_step h t n ps c x : h !! c = Some x -> let k := Z.land (AlSession.session_key x) AlSession.session_mask in
  AlSession.al_session_add c (AlSession.mk h t n ps) = (ok tt, AlSession.mk h (<[k := c :: default [] (t !! k)]> t) n ps).
Proof. intros H. by rewrite (AlSessionFacts.add_ok _ _ x). Qed.

(** The two sessions as they are in the table. *)
Definition client' (u : ptr) : Session_t.t :=
  client <| fid := Filter.a_fid (fargs o) |> <| up := u |> <| stout := SESSION_IDLE_TIMEOUT |>.
Definition server' (p : Z) (c : ptr) : Session_t.t := (server p) <| up := c |>.
Definition key_of (x : Session_t.t) : Z := Z.land (AlSession.session_key x) AlSession.session_mask.

Lemma server_fields p : from_haddr (server p) = nb_haddr o /\ to_haddr (server p) = Vport.haddr (Vport.port (dev_out o))
  /\ in_type (server p) = false /\ portid (server p) = Z.land (nb_port o) 255
  /\ address4 (remote_addr (server p)) = address4 member_addr /\ address4 (local_addr (server p)) = address4 (lip o)
  /\ remote_port (server p) = member_port /\ local_port (server p) = Tuple5.cpu_to_be_16 p /\ proto (server p) = pr.
Proof.
  unfold server, server1, server0, new_session, session_mem_init. destruct (snd (session_mem env)). cbn.
  by rewrite address4_set.
Qed.
Lemma client_fields : ftype client = Filter.ftype (fargs o) /\ in_type client = false
  /\ address4 (remote_addr client) = address4 src /\ address4 (local_addr client) = address4 dst
  /\ remote_port client = src_port /\ local_port client = dst_port /\ proto client = pr.
Proof.
  unfold client, client0, new_session, session_mem_init. destruct (fst (session_mem env)). cbn.
  by rewrite !address4_set.
Qed.

(** [al_process] of the new session. *)
Lemma process_step w0 h t n ps c u x y : h !! c = Some x -> h !! u = Some y -> up x = u ->
  from_haddr y = nb_haddr o -> to_haddr y = Vport.haddr (Vport.port (dev_out o)) -> in_type y = false -> ftype x = AL_FLT_SIMPLE_TRANS ->
  exists q', process c m hdr nxt (put w0 (AlSession.mk h t n ps))
      = (ok tt, put (w0 <| log := log w0 ++ [ToSwitch (portid y) false (m <| pkt := q' :: next |>)] |>)
                  (AlSession.mk (<[c := x <| stout := SESSION_IDLE_TIMEOUT |>]> h) t n ps))
    /\ forwards y hdr nxt q q' next.
Proof.
  intros Hx Hy Hu Hf Ht Hv Hft. destruct (al_process_forwards x y hdr nxt q next (o_headers Ho)) as (q' & E & Hfw).
  - rewrite Hf. apply (o_nb_haddr Ho).
  - rewrite Ht. apply (o_haddr Ho).
  - by rewrite Hft.
  - done.
  - exists q'. split; [|done]. unfold process. rewrite (bind_put _ _ _ _ _ _ (deref_step _ _ _ _ _ _ Hx)), Hu.
    rewrite (bind_put _ _ _ _ _ _ (deref_step _ _ _ _ _ _ Hy)), (o_packet Ho), E.
    unfold ok at 1. cbv iota beta. erewrite bind_put by reflexivity. by destruct w0.
Qed.

(** The table with the two sessions in front of their buckets, the second last. *)
Definition with_pair (t : gmap Z (list ptr)) (c u : ptr) (kc ku : Z) : gmap Z (list ptr) :=
  let t := <[kc := c :: default [] (t !! kc)]> t in <[ku := u :: default [] (t !! ku)]> t.

Lemma key_up x u : AlSession.session_key (x <| up := u |>) = AlSession.session_key x.
Proof. by destruct x. Qed.

Lemma service_ok h t n ps0 : sessions w = AlSession.mk h t n ps0 -> exists c u p ps H q',
  h !! c = None /\ h !! u = None /\ c <> u
  /\ al_service env (fargs o) None m hdr nxt w
     = (ok tt, put (w <| filters := filters' |> <| log := log w ++ [ToSwitch (Z.land (nb_port o) 255) false (m <| pkt := q' :: next |>)] |>)
         (AlSession.mk H (with_pair t c u (key_of (client' u)) (key_of (server' p c))) (n - 2) ps))
  /\ H !! c = Some (client' u) /\ H !! u = Some (server' p c) /\ (forall r, r <> c -> r <> u -> H !! r = h !! r)
  /\ forwards (server' p c) hdr nxt q q' next
  /\ Tuple5Facts.tried (Tuple5.port_start (AlSession.ports (sessions w))) p /\ Tuple5.refused (asks filters' false) server1 (Tuple5.cpu_to_be_16 p) (AlSession.ports (sessions w)) = false
  /\ Tuple5.which_thread_v4 (address4 member_addr) (address4 (lip o)) member_port (Tuple5.cpu_to_be_16 p) pr ps = g_lcoreid env.
Proof.
  intros Es. assert (w = put w (AlSession.mk h t n ps0)) as Ew by (rewrite <-Es; by destruct w).
  pose proof (o_pool Ho) as Hn. rewrite Es in Hn. cbn in Hn.
  destruct (create_step h t n ps0 (fst (session_mem env))) as (c & Hc & Ec); [lia|].
  set (x0 := new_session (fst (session_mem env)) ) in *.
  destruct (create_step (<[c := x0 <| ftype := Filter.ftype (fargs o) |>]> (<[c := x0]> h)) t (n - 1) ps0 (snd (session_mem env))) as (u & Hu & Eu); [lia|].
  set (y0 := new_session (snd (session_mem env))) in *.
  assert (u <> c) as Huc by (intros ->; by rewrite lookup_insert_eq in Hu).
  rewrite !lookup_insert_ne in Hu by done.
  set (h1 := <[u := y0]> (<[c := x0 <| ftype := Filter.ftype (fargs o) |>]> (<[c := x0]> h))) in *.
  destruct (init_remote_ok (put w (AlSession.mk h1 t (n - 1 - 1) ps0))) as (p & ps & Er & Hp & Href & Hw);
    [by destruct w|by destruct w|by destruct w|by destruct w|by rewrite sessions_put, Es|].
  set (xc := client <| fid := Filter.a_fid (fargs o) |>).
  set (h2 := <[u := (server p) <| up := c |>]> (<[c := xc <| up := u |>]> (<[u := server p]> (<[c := xc]> h1)))).
  destruct (process_step (w <| filters := filters' |>) h2 (with_pair t c u (key_of (client' u)) (key_of (server' p c))) (n - 1 - 1) ps c u
    (xc <| up := u |>) ((server p) <| up := c |>)) as (q' & Ep & Hfw).
  { unfold h2. by rewrite lookup_insert_ne, lookup_insert_eq by done. }
  { unfold h2. by rewrite lookup_insert_eq. }
  { by destruct xc. }
  { unfold server. by destruct server1. }
  { unfold server. by destruct server1. }
  { destruct (server_fields p) as (_ & _ & H & _). by destruct (server p). }
  { destruct client_fields as (H & _). rewrite <-(o_translates Ho), <-H. unfold xc. by destruct client. }
  exists c, u, p, ps, (<[c := client' u]> h2), q'. split_and!; [done|done|done| | | | |done|done|done|done].
  - transitivity (al_service env (fargs o) None m hdr nxt (put w (AlSession.mk h t n ps0))); [by rewrite <-Ew|].
    unfold al_service. assert ((Filter.ftype (fargs o) =? AL_FLT_GSLB) = false) as -> by (by rewrite (o_translates Ho)).
    rewrite (bind_put _ _ _ _ _ _ Ec). cbv iota.
    rewrite (bind_put _ _ _ _ _ _ (deref_step _ _ _ _ _ _ (lookup_insert_eq _ _ _))). cbv zeta.
    rewrite (bind_put _ _ _ _ _ _ (assign_step _ _ _ _ _ _)), (bind_put _ _ _ _ _ _ Eu). cbv iota.
    rewrite (bind_put _ _ _ _ _ _ (deref_step h1 _ _ _ u y0 (lookup_insert_eq _ _ _))). cbv zeta.
    erewrite st_bind_ok by (apply init_local_ok; by destruct w). cbv beta iota. change (0 =? 0) with true. cbn [negb].
    rewrite (st_bind_ok _ _ _ _ _ Er). cbv beta iota. change (0 =? 0) with true. cbn [negb].
    assert (forall ss, (put w ss) <| filters := filters' |> <| sessions := (sessions (put w ss)) <| AlSession.ports := ps |> |>
      = put (w <| filters := filters' |>) (ss <| AlSession.ports := ps |>)) as -> by (intros; by destruct w).
    change (field_update (field := AlSession.ports) _ _) with (AlSession.mk h1 t (n - 1 - 1) ps). fold xc.
    rewrite !(bind_put _ _ _ _ _ _ (assign_step _ _ _ _ _ _)).
    erewrite bind_put by (apply (add_step _ _ _ _ _ xc); by rewrite lookup_insert_ne, lookup_insert_eq by done).
    erewrite bind_put by (apply (add_step _ _ _ _ _ (server p)); by rewrite lookup_insert_eq).
    rewrite !(bind_put _ _ _ _ _ _ (assign_step _ _ _ _ _ _)). fold h2.
    assert (Z.land (AlSession.session_key xc) AlSession.session_mask = key_of (client' u)) as ->
      by (unfold key_of, client', xc; by destruct client).
    assert (Z.land (AlSession.session_key (server p)) AlSession.session_mask = key_of (server' p c)) as ->
      by (unfold key_of, server'; by rewrite key_up).
    fold (with_pair t c u (key_of (client' u)) (key_of (server' p c))). rewrite Ep.
    replace (n - 1 - 1) with (n - 2) by lia.
    assert (portid ((server p) <| up := c |>) = Z.land (nb_port o) 255) as ->
      by (destruct (server_fields p) as (_ & _ & _ & <- & _); by destruct (server p)).
    by destruct w.
  - by rewrite lookup_insert_eq.
  - rewrite lookup_insert_ne by done. unfold h2. by rewrite lookup_insert_eq.
  - intros r Hr1 Hr2. unfold h2, h1. by rewrite !lookup_insert_ne by done.
Qed.

(** *** Lookups *)
Lemma bucket_pair H t c u kc ku n ps i : AlSession.bucket (AlSession.mk H (with_pair t c u kc ku) n ps) i
  = (if decide (i = ku) then [u] else []) ++ (if decide (i = kc) then [c] else []) ++ default [] (t !! i).
Proof.
  unfold AlSession.bucket, with_pair. cbn [AlSession.session_table]. destruct (decide (i = ku)) as [->|Hu].
  - rewrite lookup_insert_eq. cbn. f_equal. destruct (decide (ku = kc)) as [->|]; [by rewrite lookup_insert_eq|by rewrite lookup_insert_ne by congruence].
  - rewrite lookup_insert_ne by congruence. destruct (decide (i = kc)) as [->|]; [by rewrite lookup_insert_eq|by rewrite lookup_insert_ne by congruence].
Qed.

Lemma get_own x (s : AlSession.state) : in_type x = false ->
  AlSession.tcp4_session_get (address4 (remote_addr x)) (remote_port x) (address4 (local_addr x)) (local_port x) (proto x) s
  = AlSession.search (AlSession.matches4 (address4 (remote_addr x)) (remote_port x) (address4 (local_addr x)) (local_port x) (proto x))
      (AlSession.bucket s (key_of x)) (AlSession.heap s).
Proof. intros H. unfold AlSession.tcp4_session_get, key_of, AlSession.session_key. by rewrite H. Qed.

Lemma server_found H t c u kc n ps y : H !! u = Some y -> in_type y = false ->
  AlSession.tcp4_session_get (address4 (remote_addr y)) (remote_port y) (address4 (local_addr y)) (local_port y) (proto y)
    (AlSession.mk H (with_pair t c u kc (key_of y)) n ps) = ok (Some u).
Proof.
  intros Hy Hv. rewrite get_own, bucket_pair, decide_True by done. cbn. by rewrite Hy, AlSessionFacts.matches4_own.
Qed.
Lemma client_found H t c u ku n ps x y : H !! c = Some x -> in_type x = false -> H !! u = Some y ->
  AlSession.matches4 (address4 (remote_addr x)) (remote_port x) (address4 (local_addr x)) (local_port x) (proto x) y = false ->
  AlSession.tcp4_session_get (address4 (remote_addr x)) (remote_port x) (address4 (local_addr x)) (local_port x) (proto x)
    (AlSession.mk H (with_pair t c u (key_of x) ku) n ps) = ok (Some c).
Proof.
  intros Hx Hv Hy Hne. rewrite get_own, bucket_pair by done. rewrite (decide_True (P := key_of x = key_of x)) by done.
  case_decide; cbn; rewrite ?Hy, ?Hne, Hx, AlSessionFacts.matches4_own; done.
Qed.

Lemma word_of_bounds bs : Forall byte bs -> 0 <= word_of bs < 256 ^ Z.of_nat (length bs).
Proof.
  induction 1 as [|b bs Hb _ IH]; [done|]. cbn [word_of length]. unfold byte in Hb.
  rewrite Nat2Z.inj_succ, Z.pow_succ_r by lia. lia.
Qed.
Lemma address4_slice off : (off + 4 <= length d)%nat -> address4 (word_of (slice off 4 d)) = word_of (slice off 4 d).
Proof.
  intros H. assert (Forall byte (slice off 4 d)) as Hb.
  { destruct (o_headers Ho) as [(Hv & _) _]. apply Forall_cons in Hv as [[Hb _] _]. unfold slice. by apply Forall_take, Forall_drop. }
  pose proof (word_of_bounds _ Hb) as Hw. unfold slice in Hw. rewrite length_take, length_drop in Hw.
  replace (4 `min` (length d - off))%nat with 4%nat in Hw by lia. apply u32_small. exact Hw.
Qed.

Lemma input_service type : al_ipv4_input env m hdr nxt from type w = al_service env (fargs o) None m hdr nxt w.
Proof.
  destruct bounds as (B1 & B2 & B3). unfold al_ipv4_input. rewrite (o_packet Ho), !bind_peek by lia.
  unfold st_bind at 1 2, st_get, st_lift. fold src dst pr src_port dst_port. rewrite (o_new Ho). cbv beta iota delta [ok].
  assert ((from =? AL_PKT_FROM_NIC) && negb (Tuple5.which_thread_v4 src dst src_port dst_port pr (AlSession.ports (sessions w)) =? -1) = false) as ->.
  { destruct (o_unowned Ho) as [H|H]; [by apply Z.eqb_neq in H as ->|rewrite H; apply andb_false_r]. }
  assert (in_filters (Filter.al_filter_search false (slice (hdr + 16) 4 d) dst_port pr) w = (ok (Some (fargs o)), w)) as E.
  { unfold in_filters. rewrite (o_filter Ho). by destruct w. }
  cbv iota. by rewrite (st_bind_ok _ _ _ _ _ E).
Qed.
End Opening.
End Connection.

(** ** Properties *)
Section Properties.
Import Session_t Process ProcessFacts Dataplane Connection.

(** C12. The first TCP packet over IPv4 of a connection to a virtual service opens it
    where the tables allow it. [opens] says what that takes: the packet matches a
    filter of type SIMPLE_TRANS and no known connection, its frame has only zeros behind
    it, and memory for two sessions, a member, a route, a local address, a free port
    and the next hop's hardware address are there. Then a pair of sessions that point
    to each other is created; the packet leaves through the port of the neighbour
    towards the member, with a local address and a free local port as its source, the
    member as its destination and checksums the member accepts; replies of the member
    find the second session of the pair and, unless their tuple is also that of the
    second session, further packets of the client find the first; and the connection
    to the member is registered for this thread. *)
Theorem first_packet_opens_connection (env : context) (w : world) (m : mbuf) (q : Chksum.segment) (next : list Chksum.segment)
    (hdr nxt : nat) (from type : Z) (o : answers) :
  opens env w m q next hdr nxt from o ->
  exists c u x y p q' w', al_ipv4_input env m hdr nxt from type w = (ok tt, w')
    /\ log w' = log w ++ [ToSwitch (Z.land (nb_port o) 255) false (m <| pkt := q' :: next |>)]
    /\ AlSession.heap (sessions w') !! c = Some x /\ AlSession.heap (sessions w') !! u = Some y /\ up x = u /\ up y = c
    /\ forwards y hdr nxt q q' next /\ from_haddr y = nb_haddr o
    /\ address4 (remote_addr y) = address4 (member_addr o) /\ remote_port y = member_port o
    /\ address4 (local_addr y) = address4 (lip o) /\ local_port y = Tuple5.cpu_to_be_16 p /\ Tuple5Facts.tried (Tuple5.port_start (AlSession.ports (sessions w))) p
    /\ AlSession.tcp4_session_get (address4 (member_addr o)) (member_port o) (address4 (lip o)) (Tuple5.cpu_to_be_16 p) (pr q hdr) (sessions w') = ok (Some u)
    /\ (AlSession.matches4 (src q hdr) (src_port q nxt) (dst q hdr) (dst_port q nxt) (pr q hdr) y = false ->
        AlSession.tcp4_session_get (src q hdr) (src_port q nxt) (dst q hdr) (dst_port q nxt) (pr q hdr) (sessions w') = ok (Some c))
    /\ Tuple5.which_thread_v4 (address4 (member_addr o)) (address4 (lip o)) (member_port o) (Tuple5.cpu_to_be_16 p) (pr q hdr)
         (AlSession.ports (sessions w')) = g_lcoreid env.
Proof.
  intros Ho. destruct (sessions w) as [h t n ps0] eqn:Es.
  destruct (service_ok env w m q next hdr nxt from o Ho h t n ps0 Es) as (c & u & p & ps & H & q' & Hc & Hu & Huc & E & Hx & Hy & _ & Hfw & Hp & _ & Hw).
  set (x := client' env q hdr nxt o u) in *. set (y := server' env q hdr nxt o p c) in *.
  assert (up x = u /\ up y = c) as [Ux Uy] by (unfold x, y, client', server'; by destruct (client env q hdr nxt o), (server env q hdr nxt o p)).
  destruct (server_fields env q hdr nxt o p) as (F1 & F2 & F3 & F4 & F5 & F6 & F7 & F8 & F9).
  destruct (client_fields env q hdr nxt o) as (_ & G1 & G2 & G3 & G4 & G5 & G6).
  destruct (bounds env w m q next hdr nxt from o Ho) as (B1 & B2 & B3).
  unfold src in G2. rewrite (address4_slice env w m q next hdr nxt from o Ho) in G2 by lia.
  unfold dst in G3. rewrite (address4_slice env w m q next hdr nxt from o Ho) in G3 by lia.
  assert (from_haddr y = nb_haddr o /\ address4 (remote_addr y) = address4 (member_addr o) /\ address4 (local_addr y) = address4 (lip o)
    /\ remote_port y = member_port o /\ local_port y = Tuple5.cpu_to_be_16 p /\ proto y = pr q hdr /\ in_type y = false)
    as (Y1 & Y2 & Y3 & Y4 & Y5 & Y6 & Y7) by (unfold y, server'; destruct (server env q hdr nxt o p); by cbn in *).
  assert (in_type x = false /\ address4 (remote_addr x) = src q hdr /\ address4 (local_addr x) = dst q hdr
    /\ remote_port x = src_port q nxt /\ local_port x = dst_port q nxt /\ proto x = pr q hdr)
    as (X1 & X2 & X3 & X4 & X5 & X6) by (unfold x, client'; destruct (client env q hdr nxt o); by cbn in *).
  exists c, u, x, y, p, q'. eexists. split; [rewrite (input_service env w m q next hdr nxt from o Ho); exact E|].
  rewrite !sessions_put. split_and!; try done.
  - by destruct w.
  - by rewrite Es in Hp.
  - rewrite <-Y2, <-Y3, <-Y4, <-Y5, <-Y6. by apply server_found.
  - rewrite <-X2, <-X3, <-X4, <-X5, <-X6. by apply client_found.
Qed.
End Properties.

(** ** Witnesses *)
Section Witnesses.
Import Session_t Chksum ChksumFacts Process ProcessFacts Dataplane Connection.

(** A client's packet to 10.0.1.5:1001, the service of [one_filter], whose members are
    reached over the default route and the port with the address 10.0.0.254/24. *)
Definition syn : segment :=
  {| seg_odd := false;
     seg_data := repeat 1 12 ++ [8; 0]
       ++ [69; 0; 0; 40; 0; 1; 0; 0; 64; 6; 0; 0; 10; 0; 7; 2; 10; 0; 1; 5]
       ++ [48; 57; 3; 233; 0; 0; 0; 1; 0; 0; 0; 2; 80; 2; 1; 0; 0; 0; 0; 0] |}.
Definition syn_buf : mbuf := mk_mbuf 1 [syn] 0 0.
Definition empty_port : Vport.vport := Vport.mk_vport 1500 [] [] mac_a.
Definition inside_port : Vport.vport := Vport.mk_vport 1500 [Vport.mk_ip 4261412874 16777215 1 2 0] [] mac_b.
Definition mac_hop : list Z := [2; 0; 0; 0; 9; 2].
Definition blank : Session_t.t := Session_t.mk 0 false false 0 false 0 false 0 0 0%nat 0 0 0 0 [] [] 0 0.
Definition sample_context : context :=
  mk_context 3 (blank, blank) Group.sample_args 0 0 (Some false) true true (fun m _ _ => send_to_switch (m_port m) m true).
Definition sample_world : world :=
  Dataplane.mk (AlSession.init (Tuple5.port_init 41)) one_filter sample_routers
    (snd (Arp.arp_add_entry true 34144266 mac_hop 2 Arp.arp_init))
    [Vport.mk_dev 0 1 empty_port; Vport.mk_dev 1 2 empty_port; Vport.mk_dev 2 3 inside_port] [].
Definition sample_answers : answers :=
  let r := Group.al_member_lookup 1 1 Group.sample_args (Filter.g_members one_filter) in
  mk_answers (Filter.mk_fargs 1 1 3) (match fst r with inr (_, a) => a | inl _ => Group.sample_args end) (snd r)
    [10; 0; 9; 2] 2 (Vport.mk_dev 0 1 empty_port) (Vport.mk_dev 2 3 inside_port) 4261412874 mac_hop 2 42.

Lemma sample_opens : opens sample_context sample_world syn_buf syn [] 14 34 AL_PKT_FROM_NIC sample_answers.
Proof.
  split; try (vm_compute; reflexivity).
  - split; [|by repeat split; [..|vm_compute; repeat constructor]]. unfold has_headers. split; [repeat constructor; discriminate|]. repeat split; try (apply Nat.leb_le; reflexivity); discriminate.
  - right. vm_compute. reflexivity.
  - vm_compute. discriminate.
  - split; [repeat constructor; discriminate|reflexivity].
  - split; [split|]; vm_compute; try discriminate; reflexivity.
  - split; [split; vm_compute; discriminate|]. split; vm_compute; reflexivity.
  - split; [repeat constructor; discriminate|reflexivity].
Qed.

Lemma first_packet_opens_connection_witness :
  exists c u x y p q' w', al_ipv4_input sample_context syn_buf 14 34 AL_PKT_FROM_NIC 1 sample_world = (ok tt, w')
    /\ log w' = [ToSwitch 2 false (syn_buf <| pkt := [q'] |>)]
    /\ AlSession.heap (sessions w') !! c = Some x /\ AlSession.heap (sessions w') !! u = Some y /\ up x = u /\ up y = c
    /\ address4 (remote_addr y) = 16777226 /\ remote_port y = 20480 /\ local_port y = Tuple5.cpu_to_be_16 p
    /\ AlSession.tcp4_session_get 16777226 20480 4261412874 (Tuple5.cpu_to_be_16 p) 6 (sessions w') = ok (Some u).
Proof.
  destruct (first_packet_opens_connection sample_context sample_world syn_buf syn [] 14 34 AL_PKT_FROM_NIC 1 sample_answers sample_opens)
    as (c & u & x & y & p & q' & w' & E & El & Hx & Hy & Ux & Uy & _ & _ & Ra & Rp & _ & Lp & _ & G & _).
  exists c, u, x, y, p, q', w'. split_and!; [exact E|exact El|exact Hx|exact Hy|exact Ux|exact Uy|exact Ra|exact Rp|exact Lp|exact G].
Defined.
End Witnesses.
