(* ===== verification/Art.v ===== *)
(** * The adaptive radix tree of domain names

    Models [alpha/al_radix_tree.c] and [alpha/al_radix_tree.h]. A node owns its
    children, so a tree of nodes is a tree of values; the tag bit of a leaf's
    pointer is the constructor [leaf], and writing through the [art_node **ref] a
    routine is given is returning the node that stands there afterwards. Of
    the arrays of a node with 4 or 16 children the model keeps the
    [num_children] entries in use: no routine reads the others (a mask hides
    them from the comparison of 16 keys at once). A node with 48 or 256 children
    keeps its arrays and its count, an 8-bit integer. Reading outside a key,
    copying past the end of an array and following a null pointer are [Undef].
    Every routine writes to what [al_calloc] returned without a test, so a failed
    allocation ends the process: the model is of the runs where it succeeds,
    and the memory it returns is zero. *)

From Stdlib Require Import ZArith Lia Bool.
From stdpp Require Import base tactics option gmap list sorting.
From S2P Require Import Prelude.

Open Scope Z_scope.

Module Art.

Definition MAX_PREFIX_LEN : nat := 10.

(** ** Data *)

(** What the nodes share: the bytes all the keys below have in common there, as
    far as they fit, and their number. *)
Record header := mk_header { partial_len : Z; partial : list Z }.

Inductive art_node (V : Type) : Type :=
| leaf (key : list Z) (value : V)
| node4 (h : header) (children : list (Z * art_node V))
| node16 (h : header) (children : list (Z * art_node V))
| node48 (h : header) (num_children : Z) (keys : list Z) (children : list (option (art_node V)))
| node256 (h : header) (num_children : Z) (children : list (option (art_node V))).

Arguments leaf {V} key value.
Arguments node4 {V} h children.
Arguments node16 {V} h children.
Arguments node48 {V} h num_children keys children.
Arguments node256 {V} h num_children children.

Record art_tree (V : Type) := mk_tree { root : option (art_node V); size_ : Z }.
Arguments mk_tree {V} root size_.
Arguments root {V} a.
Arguments size_ {V} a.

(** An array access and [memcpy]; [src] and [dst] are what follows the addresses
    given. The keys that callers pass end with their last byte. So do those of the
    leaves here, where [make_leaf] leaves up to four zeros behind them (the structure
    is padded): the operations stop at every read behind the end of a key, and the
    theorems say when there is none ([art_insert_overreads_iff]). *)
Definition byte_at (bs : list Z) (i : nat) : res Z := match bs !! i with Some b => ok b | None => err Undef end.

Definition memcpy (dst src : list Z) (n : nat) : res (list Z) :=
  if (n <=? length src)%nat && (n <=? length dst)%nat then ok (take n src ++ drop n dst) else err Undef.

(** The header of a node just allocated. *)
Definition no_prefix : header := mk_header 0 (replicate MAX_PREFIX_LEN 0).

Section nodes.
Context {V : Type}.

Definition is_leaf (n : art_node V) : bool := match n with leaf _ _ => true | _ => false end.

Definition hdr (n : art_node V) : header :=
  match n with
  | leaf _ _ => no_prefix
  | node4 h _ | node16 h _ | node48 h _ _ _ | node256 h _ _ => h
  end.

Definition set_hdr (h : header) (n : art_node V) : art_node V :=
  match n with
  | leaf k v => leaf k v
  | node4 _ cs => node4 h cs
  | node16 _ cs => node16 h cs
  | node48 _ m ks cs => node48 h m ks cs
  | node256 _ m cs => node256 h m cs
  end.

(** [partial_len] where the code uses it as an index. *)
Definition plen (h : header) : nat := Z.to_nat (partial_len h).

Definition art_tree_init : art_tree V := mk_tree None 0.

Definition art_size (t : art_tree V) : Z := size_ t.

(** ** Finding a child *)

(** [_mm_movemask_epi8] of a comparison of [c] with the keys in use, and the
    index of the lowest bit set. *)
Fixpoint movemask (p : Z -> bool) (keys : list Z) : Z :=
  match keys with
  | [] => 0
  | k :: keys => Z.b2z (p k) + 2 * movemask p keys
  end.

Fixpoint ctz_pos (m : positive) : nat := match m with xO m => S (ctz_pos m) | _ => 0%nat end.
Definition ctz (m : Z) : nat := match m with Zpos m => ctz_pos m | _ => 0%nat end.

(** The slot of the child for a byte, as its index in [children]. *)
Definition child_slot (n : art_node V) (c : Z) : option nat :=
  match n with
  | leaf _ _ => None
  | node4 _ cs => find_index (fun p => Z.eqb p.1 c) cs
  | node16 _ cs =>
      let bitfield := movemask (Z.eqb c) cs.*1 in
      if bitfield =? 0 then None else Some (ctz bitfield)
  | node48 _ _ keys _ =>
      match keys !! Z.to_nat c with
      | Some i => if i =? 0 then None else Some (Z.to_nat (i - 1))
      | None => None
      end
  | node256 _ _ cs => match cs !! Z.to_nat c with Some (Some _) => Some (Z.to_nat c) | _ => None end
  end.

(** What a slot holds; [None] is the null pointer. *)
Definition slot_value (n : art_node V) (i : nat) : option (art_node V) :=
  match n with
  | leaf _ _ => None
  | node4 _ cs | node16 _ cs => snd <$> (cs !! i)
  | node48 _ _ _ cs | node256 _ _ cs => mjoin (cs !! i)
  end.

(** [*child = x], [child] the slot. *)
Definition set_slot (n : art_node V) (i : nat) (x : art_node V) : art_node V :=
  match n with
  | leaf k v => leaf k v
  | node4 h cs => node4 h (alter (fun p => (p.1, x)) i cs)
  | node16 h cs => node16 h (alter (fun p => (p.1, x)) i cs)
  | node48 h m ks cs => node48 h m ks (<[i := Some x]> cs)
  | node256 h m cs => node256 h m (<[i := Some x]> cs)
  end.

(** [find_child]: the slot, if there is one, and what it holds. *)
Definition find_child (n : art_node V) (c : Z) : option (nat * option (art_node V)) :=
  i ← child_slot n c; Some (i, slot_value n i).

(** ** Search *)

(** [for (; idx < max_cmp; idx++) if (a[idx] != b[idx]) return idx;], with the
    number of steps left. *)
Fixpoint scan (a b : nat -> option Z) (idx steps : nat) : nat :=
  match steps with
  | O => idx
  | S steps => if bool_decide (a idx = b idx) then scan a b (S idx) steps else idx
  end.

Definition check_prefix (h : header) (key : list Z) (depth : nat) : nat :=
  let max_cmp := ((plen h `min` MAX_PREFIX_LEN) `min` (length key - depth))%nat in
  scan (fun i => partial h !! i) (fun i => key !! (depth + i)%nat) 0 max_cmp.

(** The test [!leaf_matches(l, key, key_len, depth)] of the callers. *)
Definition leaf_matches (k key : list Z) : bool :=
  (length k =? length key)%nat && bool_decide (take (length key) k = key).

(** Each turn of the loop reads a further byte of the key, so the fuel
    [art_search] gives is enough. *)
Fixpoint search_loop (fuel : nat) (n : option (art_node V)) (key : list Z) (depth : nat) : res (option V) :=
  match fuel with
  | O => err Undef
  | S fuel =>
      match n with
      | None => ok None
      | Some (leaf k v) => ok (if leaf_matches k key then Some v else None)
      | Some n =>
          let descend depth :=
            let* c := byte_at key depth in
            search_loop fuel (p ← find_child n c; p.2) key (S depth) in
          let h := hdr n in
          if partial_len h =? 0 then descend depth
          else if (check_prefix h key depth =? MAX_PREFIX_LEN `min` plen h)%nat then descend (depth + plen h)%nat
          else ok None
      end
  end.

Definition turns (key : list Z) : nat := S (S (length key)).

Definition art_search (t : art_tree V) (key : list Z) : res (option V) := search_loop (turns key) (root t) key 0.

(** ** Extremal leaves *)

(** [while (!keys[idx]) idx++;] and its mirror image. *)
Definition first_set {A} (p : A -> bool) (l : list A) : res A :=
  match List.find p l with Some x => ok x | None => err Undef end.
Definition last_set {A} (p : A -> bool) (l : list A) : res A := first_set p (rev l).

Definition nonzero (k : Z) : bool := negb (k =? 0).
Definition present {A} (o : option A) : bool := match o with Some _ => true | None => false end.

Fixpoint minimum (n : art_node V) : res (option (list Z * V)) :=
  match n with
  | leaf k v => ok (Some (k, v))
  | node4 _ cs | node16 _ cs => match cs with (_, x) :: _ => minimum x | [] => err Undef end
  | node48 _ _ keys cs =>
      let below := map (fun o => match o with Some x => minimum x | None => ok None end) cs in
      let* k := first_set nonzero keys in
      match below !! Z.to_nat (k - 1) with Some r => r | None => err Undef end
  | node256 _ _ cs =>
      let below := map (fun o => match o with Some x => Some (minimum x) | None => None end) cs in
      let* r := first_set present below in
      match r with Some r => r | None => ok None end
  end.

Fixpoint maximum (n : art_node V) : res (option (list Z * V)) :=
  match n with
  | leaf k v => ok (Some (k, v))
  | node4 _ cs | node16 _ cs =>
      match map (fun p => maximum p.2) cs !! (length cs - 1)%nat with Some r => r | None => err Undef end
  | node48 _ _ keys cs =>
      let below := map (fun o => match o with Some x => maximum x | None => ok None end) cs in
      let* k := last_set nonzero keys in
      match below !! Z.to_nat (k - 1) with Some r => r | None => err Undef end
  | node256 _ _ cs =>
      let below := map (fun o => match o with Some x => Some (maximum x) | None => None end) cs in
      let* r := last_set present below in
      match r with Some r => r | None => ok None end
  end.

Definition art_minimum (t : art_tree V) : res (option (list Z * V)) :=
  match root t with Some n => minimum n | None => ok None end.
Definition art_maximum (t : art_tree V) : res (option (list Z * V)) :=
  match root t with Some n => maximum n | None => ok None end.

(** ** Adding a child *)

Definition make_leaf (key : list Z) (value : V) : art_node V := leaf key value.

Definition longest_common_prefix (k1 k2 : list Z) (depth : nat) : nat :=
  scan (fun i => k1 !! (depth + i)%nat) (fun i => k2 !! (depth + i)%nat) 0 ((length k1 `min` length k2) - depth)%nat.

(** What [copy_header] leaves in a node just allocated; the count is kept with
    the children. *)
Definition copy_header (src : header) : res header :=
  let* p := memcpy (partial no_prefix) (partial src) (MAX_PREFIX_LEN `min` plen src)%nat in
  ok (mk_header (partial_len src) p).

Definition add_child256 (n : art_node V) (c : Z) (x : art_node V) : res (art_node V) :=
  match n with
  | node256 h m cs => ok (node256 h (u8 (m + 1)) (<[Z.to_nat c := Some x]> cs))
  | _ => err Undef
  end.

(** What slot [keys[i] - 1] of a node with 48 children holds. *)
Definition child48 (cs : list (option (art_node V))) (k : Z) : option (art_node V) :=
  if k =? 0 then None else mjoin (cs !! Z.to_nat (k - 1)).

Definition add_child48 (n : art_node V) (c : Z) (x : art_node V) : res (art_node V) :=
  match n with
  | node48 h m keys cs =>
      if m <? 48 then
        match find_index (fun o => negb (present o)) cs with
        | Some pos => ok (node48 h (u8 (m + 1)) (<[Z.to_nat c := u8 (Z.of_nat pos + 1)]> keys) (<[pos := Some x]> cs))
        | None => err Undef
        end
      else
        let* h := copy_header h in
        add_child256 (node256 h m (map (child48 cs) keys)) c x
  | _ => err Undef
  end.

(** [memmove] of the entries from [idx] on and the write of the new one. *)
Definition insert_at {A} (idx : nat) (a : A) (l : list A) : list A := take idx l ++ a :: drop idx l.

(** [for (i...) new_node->keys[n->keys[i]] = i + 1;] *)
Fixpoint index_keys (i : Z) (ks : list Z) (keys : list Z) : list Z :=
  match ks with
  | [] => keys
  | k :: ks => index_keys (i + 1) ks (<[Z.to_nat k := u8 (i + 1)]> keys)
  end.

Definition add_child16 (n : art_node V) (c : Z) (x : art_node V) : res (art_node V) :=
  match n with
  | node16 h cs =>
      if (length cs <? 16)%nat then
        let bitfield := movemask (fun k => signed 8 c <? signed 8 k) cs.*1 in
        let idx := if bitfield =? 0 then length cs else ctz bitfield in
        ok (node16 h (insert_at idx (c, x) cs))
      else
        let children := map Some cs.*2 ++ replicate (48 - length cs)%nat None in
        let keys := index_keys 0 cs.*1 (replicate 256 0) in
        let* h := copy_header h in
        add_child48 (node48 h (Z.of_nat (length cs)) keys children) c x
  | _ => err Undef
  end.

Definition add_child4 (n : art_node V) (c : Z) (x : art_node V) : res (art_node V) :=
  match n with
  | node4 h cs =>
      if (length cs <? 4)%nat then
        let idx := default (length cs) (find_index (fun p => c <? p.1) cs) in
        ok (node4 h (insert_at idx (c, x) cs))
      else
        let* h := copy_header h in
        add_child16 (node16 h cs) c x
  | _ => err Undef
  end.

Definition add_child (n : art_node V) (c : Z) (x : art_node V) : res (art_node V) :=
  match n with
  | leaf _ _ => err Undef
  | node4 _ _ => add_child4 n c x
  | node16 _ _ => add_child16 n c x
  | node48 _ _ _ _ => add_child48 n c x
  | node256 _ _ _ => add_child256 n c x
  end.

(** ** Insertion *)

Definition prefix_mismatch (n : art_node V) (key : list Z) (depth : nat) : res nat :=
  let h := hdr n in
  let max_cmp := ((MAX_PREFIX_LEN `min` plen h) `min` (length key - depth))%nat in
  let idx := scan (fun i => partial h !! i) (fun i => key !! (depth + i)%nat) 0 max_cmp in
  if (idx <? max_cmp)%nat then ok idx
  else if (MAX_PREFIX_LEN <? plen h)%nat then
    let* l := minimum n in
    match l with
    | None => err Undef
    | Some (k, _) =>
        let max_cmp := ((length k `min` length key) - depth)%nat in
        ok (scan (fun i => k !! (i + depth)%nat) (fun i => key !! (depth + i)%nat) idx (max_cmp - idx))
    end
  else ok idx.

(** The old node under a new one that has [d] bytes of its prefix: the byte it is
    found under and its shorter prefix. *)
Definition shorten_prefix (n : art_node V) (depth d : nat) : res (Z * art_node V) :=
  let h := hdr n in
  let len := u32 (partial_len h - (Z.of_nat d + 1)) in
  if (plen h <=? MAX_PREFIX_LEN)%nat then
    let* c := byte_at (partial h) d in
    let* p := memcpy (partial h) (drop (S d) (partial h)) (MAX_PREFIX_LEN `min` Z.to_nat len)%nat in
    ok (c, set_hdr (mk_header len p) n)
  else
    let* l := minimum n in
    match l with
    | None => err Undef
    | Some (k, _) =>
        let* c := byte_at k (depth + d) in
        let* p := memcpy (partial h) (drop (S (depth + d)) k) (MAX_PREFIX_LEN `min` Z.to_nat len)%nat in
        ok (c, set_hdr (mk_header len p) n)
    end.

(** The value replaced, the flag [*old] and the node at [*ref] afterwards. *)
Fixpoint recursive_insert (fuel : nat) (n : option (art_node V)) (key : list Z) (value : V) (depth : nat)
    : res (option V * bool * art_node V) :=
  match fuel with
  | O => err Undef
  | S fuel =>
      match n with
      | None => ok (None, false, make_leaf key value)
      | Some (leaf k v) =>
          if leaf_matches k key then ok (Some v, true, leaf k value)
          else
            let longest_prefix := longest_common_prefix k key depth in
            let* p := memcpy (partial no_prefix) (drop depth key) (MAX_PREFIX_LEN `min` longest_prefix)%nat in
            let new_node := node4 (mk_header (u32 (Z.of_nat longest_prefix)) p) [] in
            let* c := byte_at k (depth + longest_prefix) in
            let* new_node := add_child4 new_node c (leaf k v) in
            let* c := byte_at key (depth + longest_prefix) in
            let* new_node := add_child4 new_node c (make_leaf key value) in
            ok (None, false, new_node)
      | Some n =>
          let recurse_search depth :=
            let* c := byte_at key depth in
            match find_child n c with
            | Some (slot, child) =>
                let* (old, flag, child) := recursive_insert fuel child key value (S depth) in
                ok (old, flag, set_slot n slot child)
            | None => let* n := add_child n c (make_leaf key value) in ok (None, false, n)
            end in
          let h := hdr n in
          if partial_len h =? 0 then recurse_search depth
          else
            let* prefix_diff := prefix_mismatch n key depth in
            if (plen h <=? prefix_diff)%nat then recurse_search (depth + plen h)%nat
            else
              let* p := memcpy (partial no_prefix) (partial h) (MAX_PREFIX_LEN `min` prefix_diff)%nat in
              let new_node := node4 (mk_header (u32 (Z.of_nat prefix_diff)) p) [] in
              let* (c, n) := shorten_prefix n depth prefix_diff in
              let* new_node := add_child4 new_node c n in
              let* c := byte_at key (depth + prefix_diff) in
              let* new_node := add_child4 new_node c (make_leaf key value) in
              ok (None, false, new_node)
      end
  end.

Definition art_insert (t : art_tree V) (key : list Z) (value : V) : res (option V * art_tree V) :=
  let* (old, old_val, n) := recursive_insert (turns key) (root t) key value 0 in
  ok (old, mk_tree (Some n) (if old_val then size_ t else u64 (size_ t + 1))).

(** ** Removing a child *)

(** The keys of a node with 48 children made from one with 256. *)
Fixpoint pack_keys (pos : Z) (cs : list (option (art_node V))) : list Z :=
  match cs with
  | [] => []
  | None :: cs => 0 :: pack_keys pos cs
  | Some _ :: cs => u8 (pos + 1) :: pack_keys (pos + 1) cs
  end.

Definition pack_children (cs : list (option (art_node V))) : list (option (art_node V)) :=
  filter (fun o => is_Some o) cs.

Definition remove_child256 (n : art_node V) (c : Z) : res (art_node V) :=
  match n with
  | node256 h m cs =>
      let cs := <[Z.to_nat c := None]> cs in
      let m := u8 (m - 1) in
      if m =? 37 then
        let* h := copy_header h in
        let packed := pack_children cs in
        if (length packed <=? 48)%nat then
          ok (node48 h m (pack_keys 0 cs) (packed ++ replicate (48 - length packed)%nat None))
        else err Undef
      else ok (node256 h m cs)
  | _ => err Undef
  end.

(** The byte and child of each key in use, in the order of the bytes; a slot in
    use that is null has no counterpart in the model of a smaller node. *)
Definition table {A} (f : nat -> option A) : list (Z * A) :=
  omap (fun i => x ← f i; Some (Z.of_nat i, x)) (seq 0 256).

Definition entries48 (keys : list Z) (cs : list (option (art_node V))) : list (Z * art_node V) :=
  table (fun i => k ← keys !! i; child48 cs k).

Definition remove_child48 (n : art_node V) (c : Z) : res (art_node V) :=
  match n with
  | node48 h m keys cs =>
      let* pos := byte_at keys (Z.to_nat c) in
      let keys := <[Z.to_nat c := 0]> keys in
      if pos =? 0 then err Undef
      else
        let cs := <[Z.to_nat (pos - 1) := None]> cs in
        let m := u8 (m - 1) in
        if m =? 12 then let* h := copy_header h in ok (node16 h (entries48 keys cs))
        else ok (node48 h m keys cs)
  | _ => err Undef
  end.

Definition remove_child16 (n : art_node V) (slot : nat) : res (art_node V) :=
  match n with
  | node16 h cs =>
      let cs := delete slot cs in
      if (length cs =? 3)%nat then let* h := copy_header h in ok (node4 h cs)
      else ok (node16 h cs)
  | _ => err Undef
  end.

(** The prefix of the only child left, behind the parent's and the child's
    byte. *)
Definition concat_prefix (h : header) (c : Z) (child : header) : res header :=
  let prefix := plen h in
  let '(p, prefix) :=
    if (prefix <? MAX_PREFIX_LEN)%nat then (<[prefix := c]> (partial h), S prefix) else (partial h, prefix) in
  let* (p, prefix) :=
    if (prefix <? MAX_PREFIX_LEN)%nat then
      let sub_prefix := (plen child `min` (MAX_PREFIX_LEN - prefix))%nat in
      let* q := memcpy (drop prefix p) (partial child) sub_prefix in
      ok (take prefix p ++ q, (prefix + sub_prefix)%nat)
    else ok (p, prefix) in
  let* p := memcpy (partial child) p (prefix `min` MAX_PREFIX_LEN)%nat in
  ok (mk_header (u32 (partial_len child + (partial_len h + 1))) p).

Definition remove_child4 (n : art_node V) (slot : nat) : res (art_node V) :=
  match n with
  | node4 h cs =>
      match delete slot cs with
      | [(c, child)] =>
          if is_leaf child then ok child
          else let* h := concat_prefix h c (hdr child) in ok (set_hdr h child)
      | cs => ok (node4 h cs)
      end
  | _ => err Undef
  end.

Definition remove_child (n : art_node V) (c : Z) (slot : nat) : res (art_node V) :=
  match n with
  | leaf _ _ => err Undef
  | node4 _ _ => remove_child4 n slot
  | node16 _ _ => remove_child16 n slot
  | node48 _ _ _ _ => remove_child48 n c
  | node256 _ _ _ => remove_child256 n c
  end.

(** ** Deletion *)

(** The leaf taken out and what is at [*ref] afterwards. *)
Fixpoint recursive_delete (fuel : nat) (n : option (art_node V)) (key : list Z) (depth : nat)
    : res (option (list Z * V) * option (art_node V)) :=
  match fuel with
  | O => err Undef
  | S fuel =>
      match n with
      | None => ok (None, None)
      | Some (leaf k v) => ok (if leaf_matches k key then (Some (k, v), None) else (None, n))
      | Some n =>
          let descend depth :=
            let* c := byte_at key depth in
            match find_child n c with
            | None => ok (None, Some n)
            | Some (slot, Some (leaf k v)) =>
                if leaf_matches k key then let* n := remove_child n c slot in ok (Some (k, v), Some n)
                else ok (None, Some n)
            | Some (slot, child) =>
                let* (l, child) := recursive_delete fuel child key (S depth) in
                match child with
                | Some child => ok (l, Some (set_slot n slot child))
                | None => ok (l, Some n)
                end
            end in
          let h := hdr n in
          if partial_len h =? 0 then descend depth
          else if (check_prefix h key depth =? MAX_PREFIX_LEN `min` plen h)%nat then descend (depth + plen h)%nat
          else ok (None, Some n)
      end
  end.

Definition art_delete (t : art_tree V) (key : list Z) : res (option V * art_tree V) :=
  let* (l, n) := recursive_delete (turns key) (root t) key 0 in
  match l with
  | Some (_, v) => ok (Some v, mk_tree n (u64 (size_ t - 1)))
  | None => ok (None, mk_tree n (size_ t))
  end.

(** ** Iteration *)

Section iteration.
Context {W : Type}.

(** The callback, with the object behind [data] passed along. *)
Variable cb : W -> list Z -> V -> Z * W.

(** [for (...) { res = ...; if (res) return res; } return 0;] *)
Fixpoint until_nonzero (runs : list (W -> Z * W)) (s : W) : Z * W :=
  match runs with
  | [] => (0, s)
  | run :: runs => let '(r, s) := run s in if r =? 0 then until_nonzero runs s else (r, s)
  end.

Definition skip (s : W) : Z * W := (0, s).

(** The calls for the keys in use of a node with 48 children. *)
Definition runs48 {R} (keys : list Z) (below : list R) : list R :=
  omap (fun k => if k =? 0 then None else below !! Z.to_nat (k - 1)) keys.

Fixpoint recursive_iter (n : art_node V) : W -> Z * W :=
  match n with
  | leaf k v => fun s => cb s k v
  | node4 _ cs | node16 _ cs => until_nonzero (map (fun p => recursive_iter p.2) cs)
  | node48 _ _ keys cs =>
      until_nonzero (runs48 keys (map (fun o => match o with Some x => recursive_iter x | None => skip end) cs))
  | node256 _ _ cs => until_nonzero (map (fun o => match o with Some x => recursive_iter x | None => skip end) cs)
  end.

Definition art_iter (t : art_tree V) (s : W) : Z * W :=
  match root t with Some n => recursive_iter n s | None => (0, s) end.

Definition leaf_prefix_matches (k prefix : list Z) : bool :=
  (length prefix <=? length k)%nat && bool_decide (take (length prefix) k = prefix).

Fixpoint iter_prefix_loop (fuel : nat) (n : option (art_node V)) (key : list Z) (depth : nat) (s : W) : res (Z * W) :=
  match fuel with
  | O => err Undef
  | S fuel =>
      match n with
      | None => ok (0, s)
      | Some (leaf k v) => ok (if leaf_prefix_matches k key then cb s k v else (0, s))
      | Some n =>
          let descend depth :=
            let* c := byte_at key depth in
            iter_prefix_loop fuel (p ← find_child n c; p.2) key (S depth) s in
          if (depth =? length key)%nat then
            let* l := minimum n in
            match l with
            | None => err Undef
            | Some (k, _) => ok (if leaf_prefix_matches k key then recursive_iter n s else (0, s))
            end
          else
            let h := hdr n in
            if partial_len h =? 0 then descend depth
            else
              let* prefix_len := prefix_mismatch n key depth in
              let prefix_len := (prefix_len `min` plen h)%nat in
              if (prefix_len =? 0)%nat then ok (0, s)
              else if (depth + prefix_len =? length key)%nat then ok (recursive_iter n s)
              else descend (depth + plen h)%nat
      end
  end.

Definition art_iter_prefix (t : art_tree V) (key : list Z) (s : W) : res (Z * W) :=
  iter_prefix_loop (turns key) (root t) key 0 s.

End iteration.

(** ** Destruction: the blocks freed, each named by the node or leaf in it *)
Fixpoint destroy_node (n : art_node V) : list (art_node V) :=
  match n with
  | leaf _ _ => [n]
  | node4 _ cs | node16 _ cs => concat (map (fun p => destroy_node p.2) cs) ++ [n]
  | node48 _ m _ cs =>
      concat (take (Z.to_nat m) (map (fun o => match o with Some x => destroy_node x | None => [] end) cs)) ++ [n]
  | node256 _ _ cs => concat (map (fun o => match o with Some x => destroy_node x | None => [] end) cs) ++ [n]
  end.

Definition art_tree_destroy (t : art_tree V) : list (art_node V) :=
  match root t with Some n => destroy_node n | None => [] end.

End nodes.
End Art.
