(* ===== verification/ArtNode.v ===== *)
(** * The nodes of the adaptive radix tree

    What each of the four kinds of node stores: a finite map from bytes to
    children ([kidmap]) and a prefix ([pfx]). [shape] is the invariant of the
    arrays, [roomy] the lower bounds on the number of children at which a node
    is replaced by a smaller one. Finding, replacing, adding and removing a child
    are the operations of the map, whichever kind of node the result is. *)

From Stdlib Require Import ZArith Lia Bool.
From stdpp Require Import base tactics option gmap list fin_maps.
From S2P Require Import Prelude Art.

Open Scope Z_scope.

Module ArtNode.
Import Art.

(** ** Lists *)

Lemma find_index_Some {A} (p : A -> bool) l i :
  find_index p l = Some i ->
  exists l1 x l2, l = l1 ++ x :: l2 /\ length l1 = i /\ p x = true /\ forall y, y ∈ l1 -> p y = false.
Proof.
  revert i; induction l as [|y l IH]; intros i; simpl; [done|].
  destruct (p y) eqn:Hy.
  - intros [= <-]. exists [], y, l. split_and!; [done..|]. intros z Hz. by apply elem_of_nil in Hz.
  - destruct (find_index p l) as [j|] eqn:Hj; simpl; [|done]. intros [= <-].
    destruct (IH j) as (l1&x&l2&->&<-&Hx&Hl); [done|].
    exists (y :: l1), x, l2. split_and!; [done..|]. intros z [->|Hz]%elem_of_cons; auto.
Qed.

Lemma find_index_none {A} (p : A -> bool) l : find_index p l = None <-> forall y, y ∈ l -> p y = false.
Proof.
  induction l as [|y l IH]; simpl.
  - split; [|done]. intros _ y Hy. by apply elem_of_nil in Hy.
  - destruct (p y) eqn:Hy.
    + split; [done|]. intros H. rewrite (H y) in Hy; [done|left].
    + destruct (find_index p l) eqn:Hf; simpl.
      * split; [done|]. intros H. destruct IH as [_ IH]. discriminate IH. intros z Hz. apply H. by right.
      * split; [|done]. intros _ z [->|Hz]%elem_of_cons; [done|]. by apply IH.
Qed.

Lemma movemask_nonneg p ks : 0 <= movemask p ks.
Proof. induction ks as [|k ks IH]; simpl; [lia|]. destruct (p k); simpl; lia. Qed.

Lemma ctz_double m : 0 < m -> ctz (2 * m) = S (ctz m).
Proof. by destruct m. Qed.

(** Finding the lowest bit of the comparison of all keys at once is finding the
    first key that passes. *)
Lemma ctz_movemask p ks :
  find_index p ks = if movemask p ks =? 0 then None else Some (ctz (movemask p ks)).
Proof.
  induction ks as [|k ks IH]; [done|]. simpl. pose proof (movemask_nonneg p ks).
  destruct (p k); simpl Z.b2z.
  - rewrite (proj2 (Z.eqb_neq _ _)) by lia. f_equal. by destruct (movemask p ks).
  - rewrite IH, Z.add_0_l. destruct (Z.eqb_spec (movemask p ks) 0) as [->|]; [done|].
    rewrite (proj2 (Z.eqb_neq _ _)) by lia. simpl. by rewrite ctz_double by lia.
Qed.

Lemma find_index_fmap {A B} (p : B -> bool) (f : A -> B) l : find_index p (f <$> l) = find_index (p ∘ f) l.
Proof. induction l as [|a l IH]; simpl; [done|]. destruct (p (f a)); [done|]. by rewrite <-IH. Qed.

Lemma insert_at_Permutation {A} i (a : A) l : insert_at i a l ≡ₚ a :: l.
Proof. unfold insert_at. rewrite <-Permutation_middle. by rewrite take_drop. Qed.

(** An association list with distinct keys as a map. *)
Section assoc.
Context {A : Type}.
Implicit Types (cs : list (Z * A)).

Definition assoc cs : gmap Z A := list_to_map cs.

Lemma assoc_perm cs cs' : NoDup cs.*1 -> cs ≡ₚ cs' -> assoc cs = assoc cs'.
Proof. apply list_to_map_proper. Qed.

Lemma assoc_size cs : NoDup cs.*1 -> size (assoc cs) = length cs.
Proof.
  induction cs as [|[c x] cs IH]; intros Hn; [apply map_size_empty|].
  apply NoDup_cons in Hn as [Hc Hn]. unfold assoc in *. simpl.
  rewrite map_size_insert_None; [by rewrite IH|]. by apply not_elem_of_list_to_map.
Qed.

Lemma assoc_middle cs1 cs2 c x :
  NoDup (cs1 ++ (c, x) :: cs2).*1 -> assoc (cs1 ++ (c, x) :: cs2) = <[c := x]> (assoc (cs1 ++ cs2)).
Proof. intros Hn. rewrite (assoc_perm _ ((c, x) :: (cs1 ++ cs2))); [done..|]. by rewrite <-Permutation_middle. Qed.

Lemma nodup_middle cs1 cs2 c x :
  NoDup (cs1 ++ (c, x) :: cs2).*1 <-> c ∉ (cs1 ++ cs2).*1 /\ NoDup (cs1 ++ cs2).*1.
Proof.
  rewrite !fmap_app, fmap_cons, <-Permutation_middle. simpl. by rewrite NoDup_cons.
Qed.

Lemma assoc_none cs c : c ∉ cs.*1 <-> assoc cs !! c = None.
Proof. split; [apply not_elem_of_list_to_map|apply not_elem_of_list_to_map_2]. Qed.

Lemma assoc_insert_at i c x cs :
  NoDup cs.*1 -> assoc cs !! c = None ->
  NoDup (insert_at i (c, x) cs).*1 /\ assoc (insert_at i (c, x) cs) = <[c := x]> (assoc cs).
Proof.
  intros Hn Hc. assert (Hd : NoDup (insert_at i (c, x) cs).*1).
  { rewrite insert_at_Permutation. simpl. apply NoDup_cons. split; [|done]. by apply assoc_none. }
  split; [done|]. by rewrite (assoc_perm _ ((c, x) :: cs)) by (done || apply insert_at_Permutation).
Qed.

Lemma assoc_alter cs i c x y :
  NoDup cs.*1 -> cs !! i = Some (c, x) ->
  (alter (fun p => (p.1, y)) i cs).*1 = cs.*1 /\ assoc (alter (fun p => (p.1, y)) i cs) = <[c := y]> (assoc cs).
Proof.
  intros Hn Hi. apply list_elem_of_split_length in Hi as (l1&l2&->&->).
  assert (E : alter (fun p : Z * A => (p.1, y)) (length l1) (l1 ++ (c, x) :: l2) = l1 ++ (c, y) :: l2).
  { clear. induction l1 as [|p l1 IH]; simpl; [done|]. f_equal. apply IH. }
  rewrite E. assert (F : (l1 ++ (c, y) :: l2).*1 = (l1 ++ (c, x) :: l2).*1) by (by rewrite !fmap_app).
  split; [done|]. rewrite !assoc_middle by congruence. by rewrite insert_insert_eq.
Qed.

Lemma assoc_delete cs i c x :
  NoDup cs.*1 -> cs !! i = Some (c, x) ->
  NoDup (delete i cs).*1 /\ assoc (delete i cs) = delete c (assoc cs).
Proof.
  intros Hn Hi. apply list_elem_of_split_length in Hi as (l1&l2&->&->).
  rewrite delete_middle. apply nodup_middle in Hn as Hm. destruct Hm as [Hc Hm].
  split; [done|]. rewrite assoc_middle by done. rewrite delete_insert_eq. symmetry. apply delete_id. by apply assoc_none.
Qed.

Lemma find_index_assoc cs c :
  NoDup cs.*1 ->
  match find_index (fun p => p.1 =? c) cs with
  | Some i => exists x, cs !! i = Some (c, x) /\ assoc cs !! c = Some x
  | None => assoc cs !! c = None
  end.
Proof.
  intros Hn. destruct (find_index _ cs) as [i|] eqn:Hf.
  - apply find_index_Some in Hf as (l1&[c' x]&l2&->&<-&Hx&_). simpl in Hx. apply Z.eqb_eq in Hx as ->.
    exists x. split; [by apply list_lookup_middle|]. rewrite assoc_middle by done. by simplify_map_eq.
  - apply assoc_none. rewrite list_elem_of_fmap. intros ([c' x]&->&Hin).
    rewrite find_index_none in Hf. specialize (Hf _ Hin). simpl in Hf. lia.
Qed.
End assoc.

(** A table of 256 slots as a map. *)
Section tables.
Context {A : Type}.
Implicit Types f : nat -> option A.

Definition byte (c : Z) : Prop := 0 <= c < 256.

#[global] Instance byte_dec c : Decision (byte c) := _.

Lemma omap_assoc f (l : list nat) :
  NoDup l ->
  NoDup (omap (fun i => x ← f i; Some (Z.of_nat i, x)) l).*1 /\
  (forall i, assoc (omap (fun i => x ← f i; Some (Z.of_nat i, x)) l) !! Z.of_nat i = if decide (i ∈ l) then f i else None) /\
  (forall c, (forall i, c <> Z.of_nat i) -> assoc (omap (fun i => x ← f i; Some (Z.of_nat i, x)) l) !! c = None).
Proof.
  induction l as [|j l IH]; intros Hn; cbn [omap list_omap].
  { split_and!; [by apply NoDup_nil|done|done]. }
  apply NoDup_cons in Hn as [Hj Hn]. destruct IH as (I1&I2&I3); [done|].
  assert (Hno : assoc (omap (fun i => x ← f i; Some (Z.of_nat i, x)) l) !! Z.of_nat j = None).
  { by rewrite I2, decide_False. }
  destruct (f j) as [x|] eqn:Hf; simpl; split_and!.
  - apply NoDup_cons. split; [|done]. by apply assoc_none.
  - intros i. unfold assoc in *. simpl. destruct (decide (i = j)) as [->|Hi].
    + rewrite decide_True by left. by simplify_map_eq.
    + rewrite lookup_insert_ne by lia. rewrite I2.
      destruct (decide (i ∈ l)) as [H|H]; [rewrite decide_True by (by right)|rewrite decide_False by set_solver]; done.
  - intros c Hc. unfold assoc in *. simpl. rewrite lookup_insert_ne; [auto|]. intros E. by apply (Hc j).
  - done.
  - intros i. rewrite I2. destruct (decide (i = j)) as [->|Hi].
    + by rewrite decide_False, decide_True, Hf by (done || left).
    + destruct (decide (i ∈ l)) as [H|H]; [rewrite decide_True by (by right)|rewrite decide_False by set_solver]; done.
  - done.
Qed.

Lemma table_eq f : table f = omap (fun i => x ← f i; Some (Z.of_nat i, x)) (seq 0 256).
Proof. done. Qed.

Lemma table_nodup f : NoDup (table f).*1.
Proof. apply omap_assoc, NoDup_seq. Qed.

Lemma table_lookup f c : byte c -> assoc (table f) !! c = f (Z.to_nat c).
Proof.
  intros Hc. destruct (omap_assoc f (seq 0 256)) as (_&H&_); [apply NoDup_seq|].
  unfold table. rewrite <-(Z2Nat.id c) at 1 by apply Hc. rewrite H.
  rewrite decide_True; [done|]. apply elem_of_seq. unfold byte in *. lia.
Qed.

Lemma table_lookup_out f c : ~ byte c -> assoc (table f) !! c = None.
Proof.
  intros Hc. destruct (omap_assoc f (seq 0 256)) as (_&H1&H2); [apply NoDup_seq|].
  unfold table. destruct (decide (0 <= c)) as [Hp|Hp].
  - rewrite <-(Z2Nat.id c) by done. rewrite H1, decide_False; [done|].
    rewrite elem_of_seq. unfold byte in *. lia.
  - apply H2. intros i. lia.
Qed.

Lemma table_ext f (m : gmap Z A) :
  (forall c, byte c -> m !! c = f (Z.to_nat c)) -> (forall c, ~ byte c -> m !! c = None) -> assoc (table f) = m.
Proof.
  intros H1 H2. apply map_eq. intros c. destruct (decide (byte c)).
  - by rewrite table_lookup, H1.
  - by rewrite table_lookup_out, H2.
Qed.
End tables.

(** ** Prefixes *)

(** A header holds the first bytes of the prefix [q]. *)
Definition pfx (h : header) (q : list Z) : Prop :=
  partial_len h = Z.of_nat (length q) /\ length (partial h) = MAX_PREFIX_LEN /\
  take (MAX_PREFIX_LEN `min` length q) (partial h) = take MAX_PREFIX_LEN q.

Lemma pfx_plen h q : pfx h q -> plen h = length q.
Proof. intros [H _]. unfold plen. rewrite H. lia. Qed.

Lemma memcpy_ok dst src n :
  (n <= length src)%nat -> (n <= length dst)%nat -> memcpy dst src n = ok (take n src ++ drop n dst).
Proof. intros H1 H2. unfold memcpy. by rewrite (proj2 (Nat.leb_le _ _) H1), (proj2 (Nat.leb_le _ _) H2). Qed.

(** A prefix written into an array of ten bytes. *)
Lemma pfx_copy len dst src q n :
  len = Z.of_nat (length q) -> n = (MAX_PREFIX_LEN `min` length q)%nat -> length dst = MAX_PREFIX_LEN ->
  take n src = take MAX_PREFIX_LEN q ->
  exists p, memcpy dst src n = ok p /\ pfx (mk_header len p) q.
Proof.
  intros -> -> Hd Hs. assert (L : length (take (MAX_PREFIX_LEN `min` length q) src) = (MAX_PREFIX_LEN `min` length q)%nat).
  { rewrite Hs, length_take. lia. }
  rewrite length_take in L. eexists. rewrite memcpy_ok by lia. split; [done|].
  split_and!; cbn [partial partial_len]; [done| |].
  - rewrite length_app, length_take, length_drop. lia.
  - by rewrite take_app_length' by (rewrite length_take; lia).
Qed.

Lemma copy_header_ok h q : pfx h q -> exists h', copy_header h = ok h' /\ pfx h' q.
Proof.
  intros Hp. pose proof (pfx_plen _ _ Hp) as Hl. destruct Hp as (H1&H2&H3). unfold copy_header.
  destruct (pfx_copy (partial_len h) (partial no_prefix) (partial h) q (MAX_PREFIX_LEN `min` plen h)) as (p&E&Hp);
    [done|by rewrite Hl|done|by rewrite Hl|].
  rewrite E. simpl. eauto.
Qed.

(** ** Children *)
Section children.
Context {V : Type}.
Implicit Types (n x : art_node V) (cs : list (option (art_node V))).

Definition kids n : list (Z * art_node V) :=
  match n with
  | leaf _ _ => []
  | node4 _ cs | node16 _ cs => cs
  | node48 _ _ keys cs => entries48 keys cs
  | node256 _ _ cs => table (fun i => mjoin (cs !! i))
  end.

Definition kidmap n : gmap Z (art_node V) := assoc (kids n).

(** The keys of a node with 48 children name distinct slots in use. *)
Record keys48 (keys : list Z) cs : Prop := {
  k48_keys : length keys = 256%nat;
  k48_slots : length cs = 48%nat;
  k48_used i k : keys !! i = Some k -> k <> 0 -> 1 <= k <= 48 /\ is_Some (child48 cs k);
  k48_inj i j k : keys !! i = Some k -> keys !! j = Some k -> k <> 0 -> i = j }.

Definition used cs : nat := length (pack_children cs).

Definition shape n : Prop :=
  match n with
  | leaf _ _ => False
  | node4 _ cs => NoDup cs.*1 /\ Forall byte cs.*1 /\ (length cs <= 4)%nat
  | node16 _ cs => NoDup cs.*1 /\ Forall byte cs.*1 /\ (length cs <= 16)%nat
  | node48 _ m keys cs => keys48 keys cs /\ used cs = size (kidmap n) /\ m = Z.of_nat (size (kidmap n))
  | node256 _ m cs => length cs = 256%nat /\ m = u8 (Z.of_nat (size (kidmap n)))
  end.

(** The sizes below which a node is replaced. *)
Definition roomy n : Prop :=
  (match n with leaf _ _ => 0 | node4 _ _ => 2 | node16 _ _ => 4 | node48 _ _ _ _ => 13 | node256 _ _ _ => 38 end
    <= size (kidmap n))%nat.

Lemma kids_nodup n : shape n -> NoDup (kids n).*1.
Proof. destruct n; simpl; [done|tauto|tauto| |]; intros _; apply table_nodup. Qed.

Lemma kidmap_byte n c x : shape n -> kidmap n !! c = Some x -> byte c.
Proof.
  intros Hs Hc. destruct (decide (byte c)) as [|Hb]; [done|]. exfalso.
  assert (E : kidmap n !! c = None); [|congruence]. unfold kidmap.
  destruct n; simpl in Hs |- *; [done| | |by apply table_lookup_out..];
    apply assoc_none; intros Hin; destruct Hs as (_&Hf&_); rewrite Forall_forall in Hf; by apply Hb, Hf.
Qed.

Lemma kidmap48 h m keys cs c : byte c -> kidmap (node48 h m keys cs) !! c = k ← keys !! Z.to_nat c; child48 cs k.
Proof. intros Hc. unfold kidmap. simpl. unfold entries48. by rewrite table_lookup. Qed.

Lemma kidmap256 h m cs c : byte c -> kidmap (node256 h m cs) !! c = mjoin (cs !! Z.to_nat c).
Proof. intros Hc. unfold kidmap. simpl. by rewrite table_lookup. Qed.

Lemma kidmap48_ext h m keys cs (k : gmap Z (art_node V)) :
  (forall c, byte c -> k !! c = i ← keys !! Z.to_nat c; child48 cs i) -> (forall c, ~ byte c -> k !! c = None) ->
  kidmap (node48 h m keys cs) = k.
Proof. apply (table_ext (fun i => k ← keys !! i; child48 cs k)). Qed.

Lemma kidmap256_ext h m cs (k : gmap Z (art_node V)) :
  (forall c, byte c -> k !! c = mjoin (cs !! Z.to_nat c)) -> (forall c, ~ byte c -> k !! c = None) ->
  kidmap (node256 h m cs) = k.
Proof. apply (table_ext (fun i => mjoin (cs !! i))). Qed.

Lemma kidmap_out n c : shape n -> ~ byte c -> kidmap n !! c = None.
Proof. intros Hs Hc. destruct (kidmap n !! c) eqn:E; [|done]. by apply kidmap_byte in E. Qed.

#[local] Opaque table.

(** *** Finding and replacing *)

Lemma child48_eq cs k : k <> 0 -> child48 cs k = mjoin (cs !! Z.to_nat (k - 1)).
Proof. intros Hk. unfold child48. by rewrite (proj2 (Z.eqb_neq _ _)). Qed.

(** Comparing sixteen keys at once finds what the loop over four does. *)
Lemma slot16 h (cs : list (Z * art_node V)) c : child_slot (node16 h cs) c = find_index (fun p : Z * art_node V => p.1 =? c) cs.
Proof.
  simpl. replace (if _ =? 0 then None else _) with (find_index (Z.eqb c) cs.*1) by apply ctz_movemask.
  rewrite find_index_fmap. induction cs as [|p cs IH]; simpl; [done|].
  rewrite (Z.eqb_sym c). destruct (p.1 =? c); [done|]. by rewrite IH.
Qed.

Lemma child_slot_spec n c :
  shape n -> byte c ->
  match child_slot n c with
  | Some i => exists x, slot_value n i = Some x /\ kidmap n !! c = Some x
  | None => kidmap n !! c = None
  end.
Proof.
  intros Hs Hc. destruct n as [| h cs | h cs | h m keys cs | h m cs]; [done| | | |]; simpl child_slot.
  - pose proof (find_index_assoc cs c) as H. destruct Hs as [Hs _]. specialize (H Hs).
    destruct (find_index _ cs) as [i|]; [|done]. destruct H as (x&Hi&Hx). exists x. simpl. by rewrite Hi.
  - fold (child_slot (node16 h cs) c). rewrite slot16. pose proof (find_index_assoc cs c) as H.
    destruct Hs as [Hs _]. specialize (H Hs).
    destruct (find_index _ cs) as [i|]; [|done]. destruct H as (x&Hi&Hx). exists x. simpl. by rewrite Hi.
  - destruct Hs as ([H1 H2 H3 H4]&_&_). rewrite kidmap48 by done.
    destruct (keys !! Z.to_nat c) as [k|] eqn:Hk; simpl; [|done].
    destruct (Z.eqb_spec k 0) as [->|Hz]; [done|]. destruct (H3 _ _ Hk Hz) as (_&x&Hx).
    exists x. rewrite child48_eq in * by done. done.
  - rewrite kidmap256 by done. destruct (cs !! Z.to_nat c) as [[x|]|] eqn:Hk; simpl; [|done..]. exists x. by rewrite Hk.
Qed.

(** The slots in use after a write. *)
Lemma used_cons o cs : used (o :: cs) = (Nat.b2n (present o) + used cs)%nat.
Proof.
  unfold used, pack_children. destruct o.
  - by rewrite filter_cons_True.
  - rewrite filter_cons_False; [done|]. by intros [].
Qed.

Lemma slots_used_app cs cs' : used (cs ++ cs') = (used cs + used cs')%nat.
Proof. unfold used, pack_children. by rewrite filter_app, length_app. Qed.

Lemma used_le cs : (used cs <= length cs)%nat.
Proof. induction cs as [|o cs IH]; [done|]. rewrite used_cons. simpl. destruct (present o); simpl; lia. Qed.

Lemma used_insert cs i o o' :
  cs !! i = Some o ->
  (used (<[i := o']> cs) + Nat.b2n (present o) = used cs + Nat.b2n (present o'))%nat.
Proof.
  intros Hi. apply list_elem_of_split_length in Hi as (l1&l2&->&->).
  rewrite insert_app_r_alt by done. rewrite Nat.sub_diag. simpl. rewrite !slots_used_app, !used_cons. lia.
Qed.

Lemma child48_insert cs k k' o :
  1 <= k <= 48 -> 1 <= k' <= 48 -> length cs = 48%nat ->
  child48 (<[Z.to_nat (k - 1) := o]> cs) k' = if decide (k = k') then o else child48 cs k'.
Proof.
  intros Hk Hk' Hl. rewrite !child48_eq by lia. destruct (decide (k = k')) as [<-|Hne].
  - by rewrite list_lookup_insert_eq by lia.
  - by rewrite list_lookup_insert_ne by lia.
Qed.

Lemma to_nat_byte c c' : byte c -> byte c' -> Z.to_nat c = Z.to_nat c' -> c = c'.
Proof. unfold byte. lia. Qed.

(** A write to the slot of a key changes the child of its byte only. *)
Lemma kidmap48_slot h m keys cs c k o :
  keys48 keys cs -> byte c -> keys !! Z.to_nat c = Some k -> k <> 0 ->
  kidmap (node48 h m keys (<[Z.to_nat (k - 1) := o]> cs)) = partial_alter (fun _ => o) c (kidmap (node48 h m keys cs)).
Proof.
  intros [H1 H2 H3 H4] Hc Hk Hz. destruct (H3 _ _ Hk Hz) as [Hr _]. apply kidmap48_ext.
  - intros c' Hc'. destruct (decide (c = c')) as [<-|Hne].
    + rewrite lookup_partial_alter_eq, Hk. simpl. by rewrite child48_insert, decide_True by done.
    + rewrite lookup_partial_alter_ne, kidmap48 by done.
      destruct (keys !! Z.to_nat c') as [k'|] eqn:Hk'; simpl; [|done].
      destruct (decide (k' = 0)) as [->|Hz']; [done|]. destruct (H3 _ _ Hk' Hz') as [Hr' _].
      rewrite child48_insert by done. rewrite decide_False; [done|]. intros <-. apply Hne, to_nat_byte; [done..|eauto].
  - intros c' Hc'. rewrite lookup_partial_alter_ne by (intros ->; done). unfold kidmap. by apply table_lookup_out.
Qed.

Lemma kidmap256_slot h m cs c o :
  length cs = 256%nat -> byte c ->
  kidmap (node256 h m (<[Z.to_nat c := o]> cs)) = partial_alter (fun _ => o) c (kidmap (node256 h m cs)).
Proof.
  intros Hl Hc. apply kidmap256_ext.
  - intros c' Hc'. destruct (decide (c = c')) as [<-|Hne].
    + unfold byte in *. by rewrite lookup_partial_alter_eq, list_lookup_insert_eq by lia.
    + rewrite lookup_partial_alter_ne, kidmap256 by done. rewrite list_lookup_insert_ne; [done|].
      intros E. by apply Hne, to_nat_byte.
  - intros c' Hc'. rewrite lookup_partial_alter_ne by (intros ->; done). unfold kidmap. by apply table_lookup_out.
Qed.

Lemma set_slot_hdr n i x : hdr (set_slot n i x) = hdr n.
Proof. by destruct n. Qed.

Lemma size_replace (m : gmap Z (art_node V)) c x y : m !! c = Some x -> size (<[c := y]> m) = size m.
Proof. intros H. by rewrite map_size_insert_Some by eauto. Qed.

Lemma set_slot_spec n c i x y :
  shape n -> byte c -> child_slot n c = Some i -> kidmap n !! c = Some x ->
  shape (set_slot n i y) /\ kidmap (set_slot n i y) = <[c := y]> (kidmap n).
Proof.
  intros Hs Hc Hi Hx. destruct n as [| h cs | h cs | h m keys cs | h m cs]; [done| | | |].
  - destruct Hs as (Hn&Hf&Hl). pose proof (find_index_assoc cs c Hn) as H. simpl in Hi. rewrite Hi in H.
    destruct H as (z&Hz&_). destruct (assoc_alter cs i c z y Hn Hz) as [E1 E2].
    split; [|done]. simpl. by rewrite E1, length_alter.
  - destruct Hs as (Hn&Hf&Hl). pose proof (find_index_assoc cs c Hn) as H.
    rewrite slot16 in Hi. rewrite Hi in H. destruct H as (z&Hz&_). destruct (assoc_alter cs i c z y Hn Hz) as [E1 E2].
    split; [|done]. simpl. by rewrite E1, length_alter.
  - simpl in Hi. destruct (keys !! Z.to_nat c) as [k|] eqn:Hk; [|done]. destruct (Z.eqb_spec k 0) as [|Hz]; [done|].
    injection Hi as <-. destruct Hs as (Hk48&Hu&Hm). simpl set_slot.
    assert (E : kidmap (node48 h m keys (<[Z.to_nat (k - 1) := Some y]> cs)) = <[c := y]> (kidmap (node48 h m keys cs))).
    { exact (kidmap48_slot _ _ _ _ c _ (Some y) Hk48 Hc Hk Hz). }
    split; [|done]. simpl. rewrite E, (size_replace _ _ x) by done. destruct Hk48 as [H1 H2 H3 H4].
    destruct (H3 _ _ Hk Hz) as [Hr [z Hz']]. rewrite child48_eq in Hz' by done.
    destruct (cs !! Z.to_nat (k - 1)) as [o|] eqn:Ho; [|done]. simpl in Hz'. subst o.
    split; [constructor|].
    + done.
    + by rewrite length_insert.
    + intros j k' Hj Hk'. destruct (H3 _ _ Hj Hk') as [Hr' Hs']. split; [done|].
      rewrite child48_insert by done. case_decide; eauto.
    + eauto.
    + pose proof (used_insert cs _ _ (Some y) Ho). simpl in *. split; [lia|done].
  - simpl in Hi. destruct (cs !! Z.to_nat c) as [[z|]|] eqn:Hk; try done. injection Hi as <-.
    destruct Hs as (Hl&Hm). simpl set_slot.
    assert (E : kidmap (node256 h m (<[Z.to_nat c := Some y]> cs)) = <[c := y]> (kidmap (node256 h m cs))).
    { exact (kidmap256_slot _ _ _ c (Some y) Hl Hc). }
    split; [|done]. simpl. by rewrite E, (size_replace _ _ x), length_insert.
Qed.

(** *** Adding *)

(** [n'] is [n] with a further child. *)
Definition added n n' (c : Z) x (q : list Z) : Prop :=
  shape n' /\ kidmap n' = <[c := x]> (kidmap n) /\ pfx (hdr n') q /\ (roomy n -> roomy n').

Lemma size_add n c x : kidmap n !! c = None -> size (<[c := x]> (kidmap n)) = S (size (kidmap n)).
Proof. apply map_size_insert_None. Qed.

Lemma u8_succ z : u8 (u8 z + 1) = u8 (z + 1).
Proof. unfold u8, wrap. by rewrite Zplus_mod_idemp_l. Qed.

Lemma add_child256_ok h m cs c x q :
  shape (node256 h m cs) -> byte c -> kidmap (node256 h m cs) !! c = None -> pfx h q ->
  exists n', add_child256 (node256 h m cs) c x = ok n' /\ added (node256 h m cs) n' c x q.
Proof.
  intros [Hl Hm] Hc Hn Hp. eexists. split; [done|].
  set (m' := u8 (m + 1)).
  assert (E : kidmap (node256 h m' (<[Z.to_nat c := Some x]> cs)) = <[c := x]> (kidmap (node256 h m cs))).
  { exact (kidmap256_slot _ m _ c (Some x) Hl Hc). }
  split_and!; [|done|done|].
  - simpl. rewrite length_insert, E, size_add by done. split; [done|]. unfold m'. by rewrite Nat2Z.inj_succ, <-Z.add_1_r, <-(u8_succ (Z.of_nat _)), <-Hm.
  - unfold roomy. rewrite E, size_add by done. lia.
Qed.

Lemma free_slot cs : (used cs < length cs)%nat -> exists pos, find_index (fun o => negb (present o)) cs = Some pos /\ cs !! pos = Some None.
Proof.
  intros Hu. destruct (find_index _ cs) as [pos|] eqn:Hf.
  - exists pos. split; [done|]. apply find_index_Some in Hf as (l1&[y|]&l2&->&<-&Hy&_); [done|]. by apply list_lookup_middle.
  - exfalso. rewrite find_index_none in Hf. unfold used, pack_children in Hu. rewrite filter_all in Hu; [lia|].
    apply Forall_forall. intros [y|] Hy; [eauto|]. by apply Hf in Hy.
Qed.

Lemma shape48_le h m keys cs : shape (node48 h m keys cs) -> m <= 48.
Proof.
  intros ([_ Hl _ _]&Hu&->). rewrite <-Hu. pose proof (used_le cs). lia.
Qed.

Lemma add_child48_fit h m keys cs c x q :
  shape (node48 h m keys cs) -> byte c -> kidmap (node48 h m keys cs) !! c = None -> pfx h q -> m < 48 ->
  exists n', add_child48 (node48 h m keys cs) c x = ok n' /\ added (node48 h m keys cs) n' c x q.
Proof.
  intros (Hk&Hu&Hm) Hc Hn Hp Hlt. pose proof Hk as [H1 H2 H3 H4].
  destruct (free_slot cs) as (pos&Hf&Hpos); [lia|]. simpl add_child48. rewrite (proj2 (Z.ltb_lt _ _) Hlt), Hf.
  eexists. split; [done|]. assert (Hb : (pos < 48)%nat) by (rewrite <-H2; by eapply lookup_lt_Some).
  set (k := u8 (Z.of_nat pos + 1)). assert (Hkv : k = Z.of_nat pos + 1) by (apply u8_small; lia).
  replace pos with (Z.to_nat (k - 1)) in Hpos |- * by lia.
  assert (Hfree : forall i k', keys !! i = Some k' -> k' <> 0 -> k' <> k).
  { intros i k' Hi Hz ->. destruct (H3 _ _ Hi Hz) as [_ [y Hy]]. rewrite child48_eq, Hpos in Hy by done. done. }
  set (keys' := <[Z.to_nat c := k]> keys). set (cs' := <[Z.to_nat (k - 1) := Some x]> cs).
  assert (Hc' : keys' !! Z.to_nat c = Some k) by (apply list_lookup_insert_eq; unfold byte in *; lia).
  assert (Hother : forall i, i <> Z.to_nat c -> keys' !! i = keys !! i) by (intros i Hi; by apply list_lookup_insert_ne).
  assert (Hcx : child48 cs' k = Some x) by (unfold cs'; rewrite child48_insert, decide_True by lia; done).
  assert (Hco : forall i k', keys !! i = Some k' -> k' <> 0 -> child48 cs' k' = child48 cs k').
  { intros i k' Hi Hz. destruct (H3 _ _ Hi Hz) as [Hr _]. unfold cs'. rewrite child48_insert by lia.
    rewrite decide_False; [done|]. intros E. by apply (Hfree i k'). }
  assert (E : forall m', kidmap (node48 h m' keys' cs') = <[c := x]> (kidmap (node48 h m keys cs))).
  { intros m'. apply kidmap48_ext.
    - intros d Hd. destruct (decide (c = d)) as [<-|Hne].
      + rewrite lookup_insert_eq, Hc'. simpl. done.
      + rewrite lookup_insert_ne, kidmap48, Hother by (done || (intros E; by apply Hne, to_nat_byte)).
        destruct (keys !! Z.to_nat d) as [k'|] eqn:Hd'; simpl; [|done].
        destruct (decide (k' = 0)) as [->|Hz]; [done|]. symmetry. eauto.
    - intros d Hd. rewrite lookup_insert_ne by (intros ->; done). by apply table_lookup_out. }
  split_and!; [|done|done|].
  - simpl. rewrite E, size_add by done. split; [constructor|].
    + unfold keys'. by rewrite length_insert.
    + unfold cs'. by rewrite length_insert.
    + intros i k' Hi Hz. destruct (decide (i = Z.to_nat c)) as [->|Hne].
      * rewrite Hc' in Hi. injection Hi as <-. split; [lia|]. eauto.
      * rewrite Hother in Hi by done. rewrite (Hco i) by done. eauto.
    + intros i j k' Hi Hj Hz.
      destruct (decide (i = Z.to_nat c)) as [->|Hi']; destruct (decide (j = Z.to_nat c)) as [->|Hj']; [done| | |].
      * rewrite Hc' in Hi. rewrite Hother in Hj by done. injection Hi as <-. by apply Hfree in Hj.
      * rewrite Hc' in Hj. rewrite Hother in Hi by done. injection Hj as <-. by apply Hfree in Hi.
      * rewrite Hother in Hi, Hj by done. eauto.
    + pose proof (used_insert cs _ _ (Some x) Hpos) as Hus. simpl in Hus. fold cs' in Hus. split; [lia|].
      rewrite u8_small by lia. lia.
  - unfold roomy. rewrite E, size_add by done. lia.
Qed.

Lemma add_child48_ok h m keys cs c x q :
  shape (node48 h m keys cs) -> byte c -> kidmap (node48 h m keys cs) !! c = None -> pfx h q ->
  exists n', add_child48 (node48 h m keys cs) c x = ok n' /\ added (node48 h m keys cs) n' c x q.
Proof.
  intros Hs Hc Hn Hp. destruct (Z.ltb_spec m 48) as [Hlt|Hge]; [by apply add_child48_fit|].
  pose proof (shape48_le _ _ _ _ Hs) as Hle. assert (m = 48) as -> by lia. destruct Hs as ([H1 H2 H3 H4]&Hu&Hm).
  simpl add_child48. destruct (copy_header_ok h q Hp) as (h'&->&Hp'). simpl res_bind.
  assert (E : kidmap (node256 h' 48 (map (child48 cs) keys)) = kidmap (node48 h 48 keys cs)).
  { apply kidmap256_ext.
    - intros d Hd. rewrite kidmap48 by done. rewrite list_lookup_fmap. by destruct (keys !! Z.to_nat d).
    - intros d Hd. by apply table_lookup_out. }
  destruct (add_child256_ok h' 48 (map (child48 cs) keys) c x q) as (n'&E'&Hs'&Hk'&Hp''&_).
  { simpl. rewrite length_map, E. split; [done|]. by rewrite <-Hm. }
  { done. }
  { by rewrite E. }
  { done. }
  exists n'. split; [done|]. split_and!; [done|congruence|done|].
  intros _. injection E' as <-. unfold roomy. rewrite Hk', E, size_add by done. lia.
Qed.

(** The keys of a node with 48 children made from one with 16. *)
Lemma index_keys_lookup i0 ks keys c :
  NoDup ks -> Forall byte ks -> byte c -> length keys = 256%nat ->
  index_keys i0 ks keys !! Z.to_nat c =
    match find_index (fun k => k =? c) ks with
    | Some j => Some (u8 (i0 + Z.of_nat j + 1))
    | None => keys !! Z.to_nat c
    end.
Proof.
  intros Hn Hf Hc. revert i0 keys. induction ks as [|k ks IH]; intros i0 keys Hl; simpl; [done|].
  apply NoDup_cons in Hn as [Hk Hn]. apply Forall_cons in Hf as [Hkb Hf].
  rewrite IH by (done || by rewrite length_insert).
  destruct (Z.eqb_spec k c) as [->|Hne].
  - assert (Hnone : find_index (fun k => k =? c) ks = None).
    { apply find_index_none. intros y Hy. apply Z.eqb_neq. by intros ->. }
    rewrite Hnone, list_lookup_insert_eq by (unfold byte in *; lia). do 2 f_equal. lia.
  - destruct (find_index _ ks) as [j|]; simpl.
    + do 2 f_equal. lia.
    + apply list_lookup_insert_ne. intros E. by apply Hne, to_nat_byte.
Qed.

Lemma index_keys_length i0 ks keys : length (index_keys i0 ks keys) = length keys.
Proof. revert i0 keys. induction ks as [|k ks IH]; intros i0 keys; simpl; [done|]. by rewrite IH, length_insert. Qed.

(** What a key of such a node is. *)
Lemma index_keys_inv ks i k :
  NoDup ks -> Forall byte ks -> (length ks <= 48)%nat ->
  index_keys 0 ks (replicate 256 0) !! i = Some k -> k <> 0 ->
  1 <= k <= Z.of_nat (length ks) /\ ks !! Z.to_nat (k - 1) = Some (Z.of_nat i).
Proof.
  intros Hn Hf Hl Hi Hz. assert (Hb : (i < 256)%nat).
  { apply lookup_lt_Some in Hi. by rewrite index_keys_length, length_replicate in Hi. }
  rewrite <-(Nat2Z.id i) in Hi. rewrite index_keys_lookup in Hi; [|done..|unfold byte; lia|by rewrite length_replicate].
  destruct (find_index _ ks) as [j|] eqn:Hj.
  - apply find_index_Some in Hj as (l1&y&l2&->&<-&Hy&_). rewrite length_app in *. simpl in *.
    rewrite u8_small in Hi by lia. injection Hi as <-. split; [lia|].
    replace (Z.to_nat _) with (length l1) by lia. rewrite list_lookup_middle by done. f_equal. lia.
  - rewrite lookup_replicate_2 in Hi by lia. congruence.
Qed.

Lemma used_somes (xs : list (art_node V)) k : used (map Some xs ++ replicate k None) = length xs.
Proof.
  rewrite slots_used_app. replace (used (replicate k None)) with 0%nat; [|induction k; [done|]; simpl; by rewrite used_cons].
  rewrite Nat.add_0_r. induction xs as [|x xs IH]; [done|]. simpl. by rewrite used_cons, IH.
Qed.

Lemma grow16 h (cs : list (Z * art_node V)) m :
  NoDup cs.*1 -> Forall byte cs.*1 -> (length cs <= 16)%nat -> m = Z.of_nat (length cs) ->
  let n := node48 h m (index_keys 0 cs.*1 (replicate 256 0)) (map Some cs.*2 ++ replicate (48 - length cs)%nat None) in
  shape n /\ kidmap n = assoc cs.
Proof.
  intros Hn Hf Hl Hm n. set (keys := index_keys _ _ _) in n. set (children := map _ _ ++ _) in n.
  assert (Hch : forall j c x, cs !! j = Some (c, x) -> children !! j = Some (Some x)).
  { intros j c x Hj. unfold children. rewrite lookup_app_l.
    - by rewrite !list_lookup_fmap, Hj.
    - rewrite length_map, length_fmap. by eapply lookup_lt_Some. }
  assert (E : kidmap n = assoc cs).
  { apply kidmap48_ext.
    - intros c Hc. unfold keys. rewrite index_keys_lookup by (done || by rewrite length_replicate).
      pose proof (find_index_assoc cs c Hn) as Ha. rewrite find_index_fmap.
      change (find_index ((fun k => k =? c) ∘ fst) cs) with (find_index (fun p : Z * art_node V => p.1 =? c) cs).
      destruct (find_index _ cs) as [j|].
      + destruct Ha as (x&Hj&Hx). pose proof (lookup_lt_Some _ _ _ Hj). rewrite u8_small by lia.
        cbn [mbind option_bind]. rewrite child48_eq by lia. replace (Z.to_nat _) with j by lia. by rewrite (Hch _ _ _ Hj), Hx.
      + rewrite Ha, lookup_replicate_2 by (unfold byte in *; lia). done.
    - intros c Hc. apply assoc_none. intros Hin. rewrite Forall_forall in Hf. by apply Hc, Hf. }
  split; [|done]. unfold n in E |- *. unfold shape. rewrite E, assoc_size by done. split_and!; [constructor| |].
  - unfold keys. by rewrite index_keys_length, length_replicate.
  - unfold children. rewrite length_app, length_map, length_fmap, length_replicate. lia.
  - intros i k Hi Hz. apply index_keys_inv in Hi as [Hr Hk]; [|done..|rewrite length_fmap; lia|done].
    rewrite length_fmap in Hr. split; [lia|]. rewrite child48_eq by lia.
    rewrite list_lookup_fmap in Hk. destruct (cs !! _) as [[c x]|] eqn:Hj; [|done]. rewrite (Hch _ _ _ Hj). eauto.
  - intros i j k Hi Hj Hz. apply index_keys_inv in Hi as [_ Hi]; [|done..|rewrite length_fmap; lia|done].
    apply index_keys_inv in Hj as [_ Hj]; [|done..|rewrite length_fmap; lia|done]. rewrite Hi in Hj. simplify_eq. lia.
  - unfold children. by rewrite used_somes, length_fmap.
  - done.
Qed.

Lemma forall_insert_at i c x (cs : list (Z * art_node V)) :
  byte c -> Forall byte cs.*1 -> Forall byte (insert_at i (c, x) cs).*1.
Proof. intros Hc Hf. rewrite insert_at_Permutation. simpl. by constructor. Qed.

Lemma length_insert_at {A} i (a : A) l : length (insert_at i a l) = S (length l).
Proof. by rewrite insert_at_Permutation. Qed.

(** A child added where there is room, at any place. *)
Lemma insert_at_added (mk : header -> list (Z * art_node V) -> art_node V) (cap : nat) h (cs : list (Z * art_node V)) i c x q :
  mk = node4 /\ cap = 4%nat \/ mk = node16 /\ cap = 16%nat ->
  shape (mk h cs) -> byte c -> kidmap (mk h cs) !! c = None -> pfx h q -> (length cs < cap)%nat ->
  added (mk h cs) (mk h (insert_at i (c, x) cs)) c x q.
Proof.
  intros Hmk Hs Hc Hn Hp Hl.
  assert (Hs' : NoDup cs.*1 /\ Forall byte cs.*1 /\ assoc cs !! c = None).
  { destruct Hmk as [[-> ->]|[-> ->]]; simpl in *; tauto. }
  destruct Hs' as (Hd&Hf&Ha). destruct (assoc_insert_at i c x cs Hd Ha) as [Hd' Ha'].
  pose proof (forall_insert_at i c x cs Hc Hf).
  assert (S : size (assoc (insert_at i (c, x) cs)) = S (size (assoc cs))) by (by rewrite Ha', map_size_insert_None).
  destruct Hmk as [[-> ->]|[-> ->]]; (split_and!; [|done|done|]; [simpl; rewrite length_insert_at; split_and!; [done..|lia]|]);
    unfold roomy, kidmap; simpl; lia.
Qed.

Lemma add_child16_ok h (cs : list (Z * art_node V)) c x q :
  shape (node16 h cs) -> byte c -> kidmap (node16 h cs) !! c = None -> pfx h q ->
  exists n', add_child16 (node16 h cs) c x = ok n' /\ added (node16 h cs) n' c x q.
Proof.
  intros Hs Hc Hn Hp. simpl add_child16. destruct (Nat.ltb_spec (length cs) 16) as [Hl|Hl].
  { eexists. split; [done|]. apply (insert_at_added node16 16); auto. }
  destruct Hs as (Hd&Hf&Hm). assert (Hlen : length cs = 16%nat) by lia.
  destruct (copy_header_ok h q Hp) as (h'&->&Hp'). cbn [res_bind].
  destruct (grow16 h' cs (Z.of_nat (length cs)) Hd Hf Hm eq_refl) as [Hs' Hk'].
  destruct (add_child48_ok _ _ _ _ c x q Hs' Hc) as (n'&E&Hs''&Hk''&Hp''&Hr''); [by rewrite Hk'|done|].
  exists n'. split; [done|]. rewrite Hk' in Hk''. split_and!; [done..|]. intros _. apply Hr''.
  unfold roomy. rewrite Hk', assoc_size by done. lia.
Qed.

Lemma add_child4_ok h (cs : list (Z * art_node V)) c x q :
  shape (node4 h cs) -> byte c -> kidmap (node4 h cs) !! c = None -> pfx h q ->
  exists n', add_child4 (node4 h cs) c x = ok n' /\ added (node4 h cs) n' c x q /\
    ((length cs < 4)%nat -> exists cs' : list (Z * art_node V), n' = node4 h cs' /\ length cs' = S (length cs)).
Proof.
  intros Hs Hc Hn Hp. simpl add_child4. destruct (Nat.ltb_spec (length cs) 4) as [Hl|Hl].
  { eexists. split_and!; [done|by apply (insert_at_added node4 4); auto|].
    intros _. eexists. split; [done|]. apply length_insert_at. }
  destruct Hs as (Hd&Hf&Hm). destruct (copy_header_ok h q Hp) as (h'&->&Hp'). cbn [res_bind].
  destruct (add_child16_ok h' cs c x q) as (n'&E&Hs''&Hk''&Hp''&Hr''); [by simpl; split_and!; [..|lia]|done..|].
  exists n'. split_and!; [done| |lia]. split_and!; [done..|]. intros _. apply Hr''.
  unfold roomy, kidmap. simpl. rewrite assoc_size by done. lia.
Qed.

Lemma add_child_ok n c x q :
  shape n -> byte c -> kidmap n !! c = None -> pfx (hdr n) q -> exists n', add_child n c x = ok n' /\ added n n' c x q.
Proof.
  intros Hs Hc Hn Hp. destruct n as [| h cs | h cs | h m keys cs | h m cs]; [done| | | |].
  - destruct (add_child4_ok h cs c x q) as (n'&E&Ha&_); eauto.
  - by apply add_child16_ok.
  - by apply add_child48_ok.
  - by apply add_child256_ok.
Qed.

(** *** Removing *)

Definition removed n n' (c : Z) (q : list Z) : Prop :=
  shape n' /\ kidmap n' = delete c (kidmap n) /\ pfx (hdr n') q /\ roomy n'.

Lemma size_remove n c x : kidmap n !! c = Some x -> size (delete c (kidmap n)) = (size (kidmap n) - 1)%nat.
Proof. intros H. rewrite map_size_delete_Some by eauto. lia. Qed.

Lemma size256_aux cs l1 :
  length (omap (fun i => x ← mjoin ((l1 ++ cs) !! i); Some (Z.of_nat i, x)) (seq (length l1) (length cs))) = used cs.
Proof.
  revert l1. induction cs as [|o cs IH]; intros l1; [done|]. cbn [length seq omap list_omap].
  rewrite used_cons, <-(IH (l1 ++ [o])). rewrite list_lookup_middle by done.
  rewrite length_app, <-app_assoc, Nat.add_1_r. by destruct o.
Qed.

Lemma size256 h m cs : length cs = 256%nat -> size (kidmap (node256 h m cs)) = used cs.
Proof.
  intros Hl. unfold kidmap. rewrite assoc_size by apply table_nodup.
  cbn [kids]. rewrite table_eq, <-(size256_aux cs []), Hl. cbn [length app]. reflexivity.
Qed.

Lemma pack_keys_lookup p cs i :
  pack_keys p cs !! i =
    match cs !! i with
    | None => None
    | Some None => Some 0
    | Some (Some _) => Some (u8 (p + Z.of_nat (used (take i cs)) + 1))
    end.
Proof.
  revert p i. induction cs as [|[y|] cs IH]; intros p [|i]; simpl; try done.
  - change (used []) with 0%nat. do 2 f_equal. lia.
  - rewrite IH. destruct (cs !! i) as [[z|]|]; [|done..]. rewrite used_cons. simpl. do 2 f_equal. lia.
Qed.

Lemma pack_children_cons o cs :
  pack_children (o :: cs) = match o with Some y => Some y :: pack_children cs | None => pack_children cs end.
Proof.
  unfold pack_children. destruct o.
  - by rewrite filter_cons_True by eauto.
  - rewrite filter_cons_False; [done|]. by intros [].
Qed.

Lemma pack_children_lookup cs i y :
  cs !! i = Some (Some y) -> pack_children cs !! used (take i cs) = Some (Some y).
Proof.
  revert i. induction cs as [|o cs IH]; intros [|i] Hi; simpl in *; [done..| |].
  - simplify_eq. by rewrite pack_children_cons.
  - rewrite used_cons, pack_children_cons. destruct o; simpl; by apply IH.
Qed.

Lemma used_take_lt cs i j y :
  cs !! i = Some (Some y) -> (i < j)%nat -> (used (take i cs) < used (take j cs))%nat.
Proof.
  intros Hi Hj. rewrite <-(take_drop i (take j cs)), slots_used_app, take_take, Nat.min_l by lia.
  rewrite (drop_S _ (Some y)); [rewrite used_cons; simpl; lia|]. by rewrite lookup_take_lt.
Qed.

Lemma used_pack cs k : used (pack_children cs ++ replicate k None) = used cs.
Proof.
  assert (H : exists xs : list (art_node V), pack_children cs = map Some xs).
  { induction cs as [|o cs [xs IH]]; [by exists []|]. rewrite pack_children_cons, IH.
    destruct o as [y|]; [by exists (y :: xs)|by exists xs]. }
  destruct H as [xs E]. unfold used at 2. by rewrite E, used_somes, length_map.
Qed.

Lemma pack_keys_length p cs : length (pack_keys p cs) = length cs.
Proof. revert p. induction cs as [|[] cs IH]; intros p; simpl; [done|by rewrite IH..]. Qed.

(** A node with 256 children made one with 48. *)
Lemma shrink256 h m cs :
  length cs = 256%nat -> (used cs <= 48)%nat -> m = Z.of_nat (used cs) ->
  let n := node48 h m (pack_keys 0 cs) (pack_children cs ++ replicate (48 - length (pack_children cs))%nat None) in
  shape n /\ forall h' m', kidmap n = kidmap (node256 h' m' cs).
Proof.
  intros Hl Hu Hm n. set (children := _ ++ _) in n.
  assert (Hch : forall i y, cs !! i = Some (Some y) ->
    (used (take i cs) < used cs)%nat /\ children !! used (take i cs) = Some (Some y)).
  { intros i y Hi. assert (Hlt : (used (take i cs) < used cs)%nat).
    { rewrite <-(firstn_all cs) at 2. eapply used_take_lt; [done|]. by eapply lookup_lt_Some. }
    split; [done|]. unfold children. rewrite lookup_app_l by done. by apply pack_children_lookup. }
  assert (E : forall h' m', kidmap n = kidmap (node256 h' m' cs)).
  { intros h' m'. apply kidmap48_ext; [|intros; by apply table_lookup_out].
    intros c Hc. rewrite kidmap256, pack_keys_lookup by done.
    destruct (cs !! Z.to_nat c) as [[y|]|] eqn:Hy; [|done..]. destruct (Hch _ _ Hy) as [Hlt Hx].
    rewrite u8_small by lia. cbn [mbind option_bind]. rewrite child48_eq by lia.
    replace (Z.to_nat _) with (used (take (Z.to_nat c) cs)) by lia. by rewrite Hx. }
  assert (Hinv : forall i k, pack_keys 0 cs !! i = Some k -> k <> 0 ->
    exists y, cs !! i = Some (Some y) /\ k = Z.of_nat (used (take i cs)) + 1).
  { intros i k Hi Hz. rewrite pack_keys_lookup in Hi. destruct (cs !! i) as [[y|]|] eqn:Hy; [|congruence..].
    destruct (Hch _ _ Hy) as [Hlt _]. rewrite u8_small in Hi by lia. exists y. split; [done|]. injection Hi as <-. lia. }
  split; [|done]. unfold n in *. unfold shape. rewrite (E h m), size256 by done. split_and!; [constructor| |].
  - by rewrite pack_keys_length.
  - unfold children. rewrite length_app, length_replicate. unfold used in Hu. lia.
  - intros i k Hi Hz. destruct (Hinv _ _ Hi Hz) as (y&Hy&->). destruct (Hch _ _ Hy) as [Hlt Hx].
    split; [lia|]. rewrite child48_eq by lia. replace (Z.to_nat _) with (used (take i cs)) by lia. rewrite Hx. eauto.
  - intros i j k Hi Hj Hz. destruct (Hinv _ _ Hi Hz) as (y&Hy&->). destruct (Hinv _ _ Hj Hz) as (z&Hz'&E').
    destruct (Nat.lt_trichotomy i j) as [Hlt|[Heq|Hlt]]; [|done|].
    + pose proof (used_take_lt cs i j y Hy Hlt). lia.
    + pose proof (used_take_lt cs j i z Hz' Hlt). lia.
  - unfold children. apply used_pack.
  - done.
Qed.

Lemma remove_child256_ok h m cs c x q :
  shape (node256 h m cs) -> roomy (node256 h m cs) -> byte c -> kidmap (node256 h m cs) !! c = Some x -> pfx h q ->
  exists n', remove_child256 (node256 h m cs) c = ok n' /\ removed (node256 h m cs) n' c q.
Proof.
  intros [Hl Hm] Hr Hc Hx Hp. simpl remove_child256. set (cs' := <[Z.to_nat c := None]> cs).
  assert (Hl' : length cs' = 256%nat) by (unfold cs'; by rewrite length_insert).
  assert (E : forall h' m', kidmap (node256 h' m' cs') = delete c (kidmap (node256 h m cs))).
  { intros h' m'. exact (kidmap256_slot _ m _ c None Hl Hc). }
  pose proof (size_remove _ _ _ Hx) as Hsz. unfold roomy in Hr.
  pose proof (size256 h m cs Hl) as Hu. pose proof (used_le cs) as Hle. rewrite Hl in Hle.
  assert (Hu' : used cs' = (used cs - 1)%nat) by (rewrite <-(size256 h m cs' Hl'), E; lia).
  assert (Hm' : u8 (m - 1) = Z.of_nat (used cs - 1)).
  { rewrite Hm, Hu. unfold u8, wrap. rewrite Zminus_mod_idemp_l. rewrite Z.mod_small by lia. lia. }
  rewrite Hm'. destruct (Z.eqb_spec (Z.of_nat (used cs - 1)) 37) as [Heq|Hne].
  - destruct (copy_header_ok h q Hp) as (h'&->&Hp'). cbn [res_bind].
    assert ((length (pack_children cs') <=? 48)%nat = true) as -> by (apply Nat.leb_le; fold (used cs'); lia).
    eexists. split; [done|].
    destruct (shrink256 h' (Z.of_nat (used cs - 1)) cs' Hl') as [Hs' Hk']; [lia..|].
    split_and!; [done|by rewrite (Hk' h m)|done|]. unfold roomy. rewrite (Hk' h m), E. lia.
  - eexists. split; [done|]. split_and!; [|done|done|].
    + simpl. rewrite E, Hsz. split; [done|]. rewrite u8_small by lia. lia.
    + unfold roomy. rewrite E. lia.
Qed.

Lemma remove_child48_ok h m keys cs c x q :
  let n := node48 h m keys cs in
  shape n -> roomy n -> byte c -> kidmap n !! c = Some x -> pfx h q ->
  exists n', remove_child48 n c = ok n' /\ removed n n' c q.
Proof.
  intros n Hs Hr Hc Hx Hp. unfold n in *. pose proof (shape48_le _ _ _ _ Hs) as Hle. destruct Hs as (Hk48&Hu&Hm).
  pose proof Hx as Hx'. rewrite kidmap48 in Hx' by done.
  destruct (keys !! Z.to_nat c) as [k|] eqn:Hk; [|done]. cbn [mbind option_bind] in Hx'.
  assert (Hz : k <> 0) by (intros ->; done). cbn [remove_child48]. unfold byte_at. rewrite Hk.
  cbn [res_bind ok]. rewrite (proj2 (Z.eqb_neq _ _)) by done.
  set (keys' := <[Z.to_nat c := 0]> keys). set (cs' := <[Z.to_nat (k - 1) := None]> cs).
  pose proof Hk48 as [H1 H2 H3 H4]. destruct (H3 _ _ Hk Hz) as [Hkr _]. rewrite child48_eq in Hx' by done.
  destruct (cs !! Z.to_nat (k - 1)) as [o|] eqn:Ho; [|done]. cbn in Hx'. subst o.
  assert (Hc' : keys' !! Z.to_nat c = Some 0) by (apply list_lookup_insert_eq; unfold byte in *; lia).
  assert (Hother : forall i, i <> Z.to_nat c -> keys' !! i = keys !! i) by (intros i Hi; by apply list_lookup_insert_ne).
  assert (Hco : forall i k', keys !! i = Some k' -> i <> Z.to_nat c -> child48 cs' k' = child48 cs k').
  { intros i k' Hi Hne. destruct (decide (k' = 0)) as [->|Hz']; [done|]. destruct (H3 _ _ Hi Hz') as [Hr' _].
    unfold cs'. rewrite child48_insert, decide_False by (done || (intros ->; by apply Hne, (H4 _ _ k'))). done. }
  assert (E : forall h' m', kidmap (node48 h' m' keys' cs') = delete c (kidmap (node48 h m keys cs))).
  { intros h' m'. apply kidmap48_ext.
    - intros d Hd. destruct (decide (c = d)) as [<-|Hne].
      + by rewrite lookup_delete_eq, Hc'.
      + assert (Z.to_nat d <> Z.to_nat c) by (intros F; by apply Hne, to_nat_byte).
        rewrite lookup_delete_ne, kidmap48, Hother by done.
        destruct (keys !! Z.to_nat d) as [k'|] eqn:Hd'; [|done]. cbn [mbind option_bind]. symmetry. eauto.
    - intros d Hd. rewrite lookup_delete_ne by (intros ->; done). by apply table_lookup_out. }
  pose proof (size_remove _ _ _ Hx) as Hsz. unfold roomy in Hr.
  assert (Hm' : u8 (m - 1) = Z.of_nat (size (kidmap (node48 h m keys cs)) - 1)).
  { rewrite u8_small by lia. lia. }
  rewrite Hm'. destruct (Z.eqb_spec (Z.of_nat (size (kidmap (node48 h m keys cs)) - 1)) 12) as [Heq|Hne].
  - destruct (copy_header_ok h q Hp) as (h'&->&Hp'). cbn [res_bind]. eexists. split; [done|].
    assert (E' : kidmap (node16 h' (entries48 keys' cs')) = delete c (kidmap (node48 h m keys cs))) by apply (E h' 0).
    split_and!; [|done|done|].
    + split_and!; [apply table_nodup| |].
      * apply Forall_forall. intros d Hd. destruct (decide (byte d)) as [|Hb]; [done|].
        apply (table_lookup_out (fun i => k ← keys' !! i; child48 cs' k)) in Hb. by apply assoc_none in Hb.
      * rewrite <-assoc_size by apply table_nodup. change (assoc _) with (kidmap (node16 h' (entries48 keys' cs'))).
        rewrite E'. lia.
    + unfold roomy. rewrite E'. lia.
  - eexists. split; [done|]. split_and!; [|done|done|].
    + unfold shape. rewrite E, Hsz. split_and!; [constructor| |done].
      * unfold keys'. by rewrite length_insert.
      * unfold cs'. by rewrite length_insert.
      * intros i k' Hi Hz'. destruct (decide (i = Z.to_nat c)) as [->|Hi']; [congruence|].
        rewrite Hother in Hi by done. rewrite (Hco i) by done. eauto.
      * intros i j k' Hi Hj Hz'. destruct (decide (i = Z.to_nat c)) as [->|Hi']; [congruence|].
        destruct (decide (j = Z.to_nat c)) as [->|Hj']; [congruence|]. rewrite Hother in Hi, Hj by done. eauto.
      * pose proof (used_insert cs _ _ None Ho) as Hus. fold cs' in Hus. cbn [present Nat.b2n] in Hus. lia.
    + unfold roomy. rewrite E. lia.
Qed.

Lemma forall_delete i (cs : list (Z * art_node V)) : Forall byte cs.*1 -> Forall byte (delete i cs).*1.
Proof.
  rewrite !Forall_fmap. intros H. rewrite Forall_forall in *. intros p Hp. apply H.
  rewrite list_elem_of_lookup in *. destruct Hp as [j Hj]. destruct (decide (i <= j)%nat) as [Hle|Hlt].
  - rewrite list_lookup_delete_ge in Hj by lia. eauto.
  - rewrite list_lookup_delete_lt in Hj by lia. eauto.
Qed.

Lemma slot_pair n h (cs : list (Z * art_node V)) c i :
  n = node4 h cs \/ n = node16 h cs -> NoDup cs.*1 -> child_slot n c = Some i -> exists x, cs !! i = Some (c, x).
Proof.
  intros Hn Hd Hi. pose proof (find_index_assoc cs c Hd) as H.
  destruct Hn as [-> | ->]; [|rewrite slot16 in Hi]; simpl in Hi; rewrite Hi in H; destruct H as (x&Hx&_); eauto.
Qed.

Lemma remove_child16_ok h (cs : list (Z * art_node V)) c i q :
  shape (node16 h cs) -> roomy (node16 h cs) -> child_slot (node16 h cs) c = Some i -> pfx h q ->
  exists n', remove_child16 (node16 h cs) i = ok n' /\ removed (node16 h cs) n' c q.
Proof.
  intros (Hd&Hf&Hl) Hr Hi Hp. destruct (slot_pair _ h cs c i (or_intror eq_refl) Hd Hi) as [x Hx].
  destruct (assoc_delete cs i c x Hd Hx) as [Hd' Ha']. pose proof (forall_delete i cs Hf) as Hf'.
  pose proof (length_delete cs i ltac:(eauto)) as Hl'. unfold roomy, kidmap in Hr. cbn [kids] in Hr.
  rewrite assoc_size in Hr by done. cbn [remove_child16].
  destruct (Nat.eqb_spec (length (delete i cs)) 3) as [Heq|Hne].
  - destruct (copy_header_ok h q Hp) as (h'&->&Hp'). cbn [res_bind]. eexists. split; [done|].
    split_and!; [|done|done|]; unfold shape, roomy, kidmap; cbn [kids]; [split_and!; [done..|lia]|].
    rewrite assoc_size by done. lia.
  - eexists. split; [done|]. split_and!; [|done|done|]; unfold shape, roomy, kidmap; cbn [kids]; [split_and!; [done..|lia]|].
    rewrite assoc_size by done. lia.
Qed.

Lemma remove_child4_ok h (cs : list (Z * art_node V)) c i q :
  shape (node4 h cs) -> child_slot (node4 h cs) c = Some i -> pfx h q -> (3 <= size (kidmap (node4 h cs)))%nat ->
  exists n', remove_child4 (node4 h cs) i = ok n' /\ removed (node4 h cs) n' c q.
Proof.
  intros (Hd&Hf&Hl) Hi Hp Hr. destruct (slot_pair _ h cs c i (or_introl eq_refl) Hd Hi) as [x Hx].
  destruct (assoc_delete cs i c x Hd Hx) as [Hd' Ha']. pose proof (forall_delete i cs Hf) as Hf'.
  pose proof (length_delete cs i ltac:(eauto)) as Hl'. unfold kidmap in Hr. cbn [kids] in Hr.
  rewrite assoc_size in Hr by done. exists (node4 h (delete i cs)).
  split; [cbn [remove_child4]; destruct (delete i cs) as [|[d y] [|? ?]]; simpl in *; done || lia|].
  split_and!; [|done|done|]; unfold shape, roomy, kidmap; cbn [kids]; [split_and!; [done..|lia]|].
  rewrite assoc_size by done. lia.
Qed.

(** The node that replaces one left with a single child. *)
Definition collapse (h : header) (d : Z) y : res (art_node V) :=
  if is_leaf y then ok y else let* h := concat_prefix h d (hdr y) in ok (set_hdr h y).

Lemma remove_child4_collapse h (cs : list (Z * art_node V)) c i x :
  shape (node4 h cs) -> child_slot (node4 h cs) c = Some i -> size (kidmap (node4 h cs)) = 2%nat ->
  kidmap (node4 h cs) !! c = Some x ->
  exists d y, remove_child4 (node4 h cs) i = collapse h d y /\ c <> d /\ byte d /\ kidmap (node4 h cs) = {[ c := x; d := y ]}.
Proof.
  intros (Hd&Hf&Hl) Hi Hr Hk. destruct (slot_pair _ h cs c i (or_introl eq_refl) Hd Hi) as [x' Hx].
  destruct (assoc_delete cs i c x' Hd Hx) as [Hd' Ha']. pose proof (forall_delete i cs Hf) as Hf'.
  pose proof (length_delete cs i ltac:(eauto)) as Hl'. unfold kidmap in *. cbn [kids] in *.
  rewrite assoc_size in Hr by done. cbn [remove_child4].
  destruct (delete i cs) as [|[d y] [|? ?]]; simpl in Hl'; [lia| |lia].
  exists d, y. assert (Hcd : c <> d).
  { intros ->. apply (f_equal (lookup d)) in Ha'. unfold assoc in Ha' at 1. simpl in Ha'.
    rewrite lookup_insert_eq, lookup_delete_eq in Ha'. done. }
  split_and!; [done..|by apply Forall_inv in Hf'|].
  rewrite <-(insert_delete_id _ _ _ Hk), <-Ha'. done.
Qed.

Lemma set_hdr_kidmap h n : kidmap (set_hdr h n) = kidmap n.
Proof. by destruct n. Qed.

Lemma set_hdr_shape h n : shape n -> shape (set_hdr h n).
Proof. by destruct n. Qed.

Lemma set_hdr_roomy h n : roomy n -> roomy (set_hdr h n).
Proof. unfold roomy. rewrite set_hdr_kidmap. by destruct n. Qed.

Lemma set_hdr_hdr h n : shape n -> hdr (set_hdr h n) = h.
Proof. by destruct n. Qed.

Lemma remove_child_ok n c i x q :
  shape n -> roomy n -> byte c -> child_slot n c = Some i -> kidmap n !! c = Some x -> pfx (hdr n) q ->
  (exists n', remove_child n c i = ok n' /\ removed n n' c q) \/
  (exists d y, remove_child n c i = collapse (hdr n) d y /\ c <> d /\ byte d /\ kidmap n = {[ c := x; d := y ]}).
Proof.
  intros Hs Hr Hc Hi Hx Hp. destruct n as [| h cs | h cs | h m keys cs | h m cs]; [done| | | |]; cbn [remove_child].
  - destruct (decide (3 <= size (kidmap (node4 h cs)))%nat).
    + left. by apply remove_child4_ok.
    + right. apply remove_child4_collapse; [done..| |done]. unfold roomy in Hr. lia.
  - left. by apply remove_child16_ok.
  - left. by eapply remove_child48_ok.
  - left. by eapply remove_child256_ok.
Qed.

(** *** Prefixes joined *)
Lemma pfx_take h q k : pfx h q -> (k <= MAX_PREFIX_LEN)%nat -> (k <= length q)%nat -> take k (partial h) = take k q.
Proof.
  intros (_&_&H) Hk Hq. apply (f_equal (take k)) in H. rewrite !take_take in H.
  by rewrite Nat.min_l in H by lia; rewrite Nat.min_l in H by lia.
Qed.

Lemma concat_prefix_ok h c hc q qc :
  pfx h q -> pfx hc qc -> Z.of_nat (length q + length qc + 1) < 2 ^ 32 ->
  exists h', concat_prefix h c hc = ok h' /\ pfx h' (q ++ c :: qc).
Proof.
  intros Hp Hpc Hlt. pose proof (pfx_plen _ _ Hp) as Hl. pose proof (pfx_plen _ _ Hpc) as Hlc.
  pose proof Hp as (H1&H2&_). pose proof Hpc as (H1c&H2c&_). unfold concat_prefix. rewrite Hl, Hlc, H1, H1c.
  assert (Hlen : u32 (Z.of_nat (length qc) + (Z.of_nat (length q) + 1)) = Z.of_nat (length (q ++ c :: qc))).
  { rewrite u32_small by lia. rewrite length_app. cbn [length]. lia. }
  rewrite Hlen. destruct (Nat.ltb_spec (length q) MAX_PREFIX_LEN) as [Hq|Hq].
  - set (p := <[length q := c]> (partial h)).
    assert (Hp1 : take (S (length q)) p = q ++ [c]).
    { unfold p. rewrite (take_S_r _ _ c) by (apply list_lookup_insert_eq; lia).
      rewrite take_insert_ge by lia. f_equal. rewrite (pfx_take h q) by (done || lia). apply firstn_all. }
    assert (Hp2 : length p = MAX_PREFIX_LEN) by (unfold p; by rewrite length_insert).
    destruct (Nat.ltb_spec (S (length q)) MAX_PREFIX_LEN) as [Hq'|Hq'].
    + set (sub := (length qc `min` (MAX_PREFIX_LEN - S (length q)))%nat).
      rewrite memcpy_ok by (rewrite ?length_drop; lia). cbn [res_bind ok]. rewrite Hp1.
      set (p' := (q ++ [c]) ++ take sub (partial hc) ++ drop sub (drop (S (length q)) p)).
      destruct (pfx_copy (Z.of_nat (length (q ++ c :: qc))) (partial hc) p' (q ++ c :: qc)
        ((S (length q) + sub) `min` MAX_PREFIX_LEN)) as (r&E&Hr); [done| |done| |].
      * rewrite length_app. cbn [length]. lia.
      * rewrite Nat.min_l by lia. unfold p'. rewrite app_assoc.
        rewrite take_app_length' by (rewrite !length_app, length_take; cbn [length]; lia).
        rewrite (pfx_take hc qc) by (done || lia).
        rewrite (cons_middle c q qc), (app_assoc q [c] qc).
        rewrite take_app, (take_ge (q ++ [c])) by (rewrite length_app; cbn [length]; lia).
        f_equal. rewrite length_app. cbn [length].
        destruct (Nat.le_gt_cases (length qc) (MAX_PREFIX_LEN - S (length q))).
        -- rewrite !take_ge by (unfold MAX_PREFIX_LEN in *; lia). done.
        -- f_equal. unfold MAX_PREFIX_LEN in *. lia.
      * rewrite E. eauto.
    + cbn [res_bind ok]. destruct (pfx_copy (Z.of_nat (length (q ++ c :: qc))) (partial hc) p (q ++ c :: qc)
        (S (length q) `min` MAX_PREFIX_LEN)) as (r&E&Hr); [done| |done| |].
      * rewrite length_app. cbn [length]. lia.
      * rewrite Nat.min_l by lia. rewrite Hp1, (cons_middle c q qc), (app_assoc q [c] qc).
        rewrite take_app_length' by (rewrite length_app; cbn [length]; lia). done.
      * rewrite E. eauto.
  - rewrite (proj2 (Nat.ltb_ge _ _)) by done. cbn [res_bind ok].
    destruct (pfx_copy (Z.of_nat (length (q ++ c :: qc))) (partial hc) (partial h) (q ++ c :: qc)
        (length q `min` MAX_PREFIX_LEN)) as (r&E&Hr); [done| |done| |].
    + rewrite length_app. cbn [length]. lia.
    + rewrite Nat.min_r by lia. rewrite (pfx_take h q) by (done || lia). by rewrite take_app_le by lia.
    + rewrite E. eauto.
Qed.

End children.
End ArtNode.
