(* ===== verification/ArtFacts.v ===== *)
(** * The adaptive radix tree is a finite map

    The invariant of a tree ([wf]): below a node all keys start with the bytes on
    the way there, the node's full prefix included, although its header keeps
    ten bytes of it. Searching, inserting and deleting refine the operations of
    a finite map from keys to values, for sets of keys none of which is a prefix
    of another. *)

From Stdlib Require Import ZArith Lia Bool.
From stdpp Require Import base tactics option gmap list fin_maps.
From S2P Require Import Prelude Art ArtNode.

Open Scope Z_scope.

Module ArtFacts.
Import Art ArtNode.

(** ** Lists *)

Lemma prefix_take_iff {A} (p k : list A) : p `prefix_of` k <-> take (length p) k = p.
Proof.
  split.
  - intros [r ->]. by apply take_app_length'.
  - intros H. exists (drop (length p) k). rewrite <-H at 1. by rewrite take_drop.
Qed.

(** Two lists that agree up to a position. *)
Lemma take_agree {A} (k key : list A) d r :
  take d k = take d key -> (d + r <= length k)%nat -> (d + r <= length key)%nat ->
  (forall j, (j < r)%nat -> k !! (d + j)%nat = key !! (d + j)%nat) -> take (d + r) k = take (d + r) key.
Proof.
  intros Hd Hk Hkey Hj. apply list_eq. intros i. destruct (decide (i < d + r)%nat) as [Hi|Hi].
  - rewrite !lookup_take_lt by done. destruct (decide (i < d)%nat) as [Hid|Hid].
    + rewrite <-(lookup_take_lt k d), <-(lookup_take_lt key d), Hd by done. done.
    + specialize (Hj (i - d)%nat). replace (d + (i - d))%nat with i in Hj by lia. apply Hj. lia.
  - rewrite !lookup_take_ge by lia. done.
Qed.

Lemma take_snoc_prefix {A} (k : list A) d c : k !! d = Some c -> (take d k ++ [c]) `prefix_of` k.
Proof.
  intros H. apply prefix_take_iff. assert (d < length k)%nat by (by eapply lookup_lt_Some).
  rewrite length_app, length_take. cbn [length]. rewrite Nat.min_l by lia. rewrite Nat.add_1_r. by apply take_S_r.
Qed.

Lemma prefix_split {A} (p k : list A) d : (length p <= d)%nat -> p `prefix_of` k -> take d k = p ++ take (d - length p) (drop (length p) k).
Proof.
  intros Hd [r ->]. rewrite drop_app_length, take_app, (take_ge p) by lia. done.
Qed.

Lemma prefix_snoc_inv {A} (p k : list A) c : (p ++ [c]) `prefix_of` k -> k !! length p = Some c.
Proof. intros [r ->]. rewrite <-app_assoc. by apply list_lookup_middle. Qed.

Lemma prefix_snoc {A} (p q k : list A) c :
  (p ++ q) `prefix_of` k -> k !! (length p + length q)%nat = Some c -> (p ++ q ++ [c]) `prefix_of` k.
Proof.
  intros [rest ->]. rewrite app_assoc, <-length_app, lookup_app_r, Nat.sub_diag by done.
  destruct rest; [done|]. simpl. intros [= ->]. apply prefix_app. by exists rest.
Qed.

Lemma prefix_app_drop {A} (p q k : list A) : (p ++ q) `prefix_of` k -> q `prefix_of` drop (length p) k.
Proof. intros [r ->]. rewrite <-app_assoc, drop_app_length. by exists r. Qed.

Lemma prefix_both_eq {A} (p k k' : list A) :
  p `prefix_of` k -> p `prefix_of` k' -> take (length p) k = take (length p) k'.
Proof. rewrite !prefix_take_iff. congruence. Qed.

Lemma scan_spec a b i n :
  (i <= scan a b i n <= i + n)%nat /\ (forall j, (i <= j < scan a b i n)%nat -> a j = b j) /\
  ((scan a b i n < i + n)%nat -> a (scan a b i n) <> b (scan a b i n)).
Proof.
  revert i. induction n as [|n IH]; intros i; simpl.
  { split_and!; [lia..| |lia]. intros j Hj. lia. }
  case_bool_decide as E.
  - destruct (IH (S i)) as (H1&H2&H3). split_and!; [lia..| |].
    + intros j Hj. destruct (decide (j = i)) as [->|]; [done|]. apply H2. lia.
    + intros Hlt. apply H3. lia.
  - split_and!; [lia..| |done]. intros j Hj. lia.
Qed.

Section trees.
Context {V : Type}.
Implicit Types (n x : art_node V) (p q k key : list Z) (v : V).

(** ** What a tree holds, and its invariant *)

Inductive bound : art_node V -> list Z -> V -> Prop :=
| bound_leaf k v : bound (leaf k v) k v
| bound_kid n c x k v : kidmap n !! c = Some x -> bound x k v -> bound n k v.

Inductive wf : list Z -> art_node V -> Prop :=
| wf_leaf p k v : p `prefix_of` k -> Forall byte k -> Z.of_nat (length k) < 2 ^ 31 -> wf p (leaf k v)
| wf_inner p q n :
    shape n -> roomy n -> pfx (hdr n) q ->
    (forall c x, kidmap n !! c = Some x -> wf (p ++ q ++ [c]) x) -> wf p n.

Lemma leaf_kidmap k v : kidmap (leaf k v) = ∅.
Proof. done. Qed.

Lemma bound_leaf_iff k v k' v' : bound (leaf k v) k' v' <-> k' = k /\ v' = v.
Proof.
  split.
  - intros H. inversion H as [|? c x ? ? Hc]; subst; [done|]. by rewrite leaf_kidmap in Hc.
  - intros [-> ->]. constructor.
Qed.

Lemma bound_inner_iff n k v : shape n -> bound n k v <-> exists c x, kidmap n !! c = Some x /\ bound x k v.
Proof.
  intros Hs. split.
  - intros H. inversion H; subst; [done|eauto].
  - intros (c&x&H1&H2). by eapply bound_kid.
Qed.

Lemma wf_bound p n k v : wf p n -> bound n k v -> p `prefix_of` k /\ Forall byte k /\ Z.of_nat (length k) < 2 ^ 31.
Proof.
  intros Hw. induction Hw as [p k' v' Hp Hb Hl|p q n Hs Hr Hp Hk IH].
  - by intros [-> ->]%bound_leaf_iff.
  - intros (c&x&Hc&Hx)%bound_inner_iff; [|done]. destruct (IH c x Hc Hx) as (H&?&?). split; [|done].
    etrans; [|done]. by exists (q ++ [c]).
Qed.

(** Below an inner node, the child a key is under is told by its next byte. *)
Lemma wf_kid p q n c x k v :
  (forall c x, kidmap n !! c = Some x -> wf (p ++ q ++ [c]) x) -> kidmap n !! c = Some x -> bound x k v ->
  (p ++ q) `prefix_of` k /\ k !! (length p + length q)%nat = Some c.
Proof.
  intros Hk Hc Hx. destruct (wf_bound _ _ _ _ (Hk c x Hc) Hx) as (H&_&_). rewrite app_assoc in H. split.
  - etrans; [|done]. by exists [c].
  - rewrite <-length_app. by apply prefix_snoc_inv.
Qed.

Lemma wf_fun p n k v v' : wf p n -> bound n k v -> bound n k v' -> v = v'.
Proof.
  intros Hw. induction Hw as [p k' w Hp Hb Hl|p q n Hs Hr Hp Hk IH].
  - by intros [-> ->]%bound_leaf_iff [_ ->]%bound_leaf_iff.
  - intros (c&x&Hc&Hx)%bound_inner_iff (c'&x'&Hc'&Hx')%bound_inner_iff; [|done..].
    destruct (wf_kid p q n c x k v Hk Hc Hx) as [_ E]. destruct (wf_kid p q n c' x' k v' Hk Hc' Hx') as [_ E'].
    rewrite E in E'. simplify_eq. by eapply IH.
Qed.

Lemma roomy_kid n : shape n -> roomy n -> exists c x, kidmap n !! c = Some x.
Proof.
  intros Hs Hr. destruct (decide (kidmap n = ∅)) as [E|E].
  - unfold roomy in Hr. rewrite E, map_size_empty in Hr. destruct n; simpl in *; [done|lia..].
  - apply map_choose in E as (c&x&H). eauto.
Qed.

Lemma wf_inhabited p n : wf p n -> exists k v, bound n k v.
Proof.
  induction 1 as [p k' w Hp Hb Hl|p q n Hs Hr Hp Hk IH].
  - exists k', w. constructor.
  - destruct (roomy_kid n Hs Hr) as (c&x&Hc). destruct (IH c x Hc) as (k&v&H). exists k, v. by eapply bound_kid.
Qed.

(** The smallest leaf is one. *)
Lemma first_set_ok {A} (f : A -> bool) (l : list A) i a :
  l !! i = Some a -> f a = true -> exists b j, first_set f l = ok b /\ l !! j = Some b /\ f b = true.
Proof.
  intros Hi Ha. unfold first_set. destruct (List.find f l) as [b|] eqn:E.
  - apply List.find_some in E as [Hin Hb]. apply list_elem_of_In, list_elem_of_lookup in Hin as [j Hj]. eauto 6.
  - exfalso. pose proof (List.find_none f l E a) as Hn. rewrite Hn in Ha; [done|]. apply list_elem_of_In. by eapply list_elem_of_lookup_2.
Qed.

Lemma minimum_ok p n : wf p n -> exists k v, minimum n = ok (Some (k, v)) /\ bound n k v.
Proof.
  induction 1 as [p k' w Hp Hb Hl|p q n Hs Hr Hp Hk IH]; [by exists k', w; split; [|constructor]|].
  assert (Hfin : forall c x, kidmap n !! c = Some x -> minimum n = minimum x ->
    exists k v, minimum n = ok (Some (k, v)) /\ bound n k v).
  { intros c x Hc E. destruct (IH c x Hc) as (k&v&E'&Hb). exists k, v. split; [congruence|]. by eapply bound_kid. }
  destruct (roomy_kid n Hs Hr) as (c&x&Hc). pose proof (kidmap_byte _ _ _ Hs Hc) as Hcb.
  destruct n as [| h [|[d y] cs] | h [|[d y] cs] | h m keys cs | h m cs]; [done|done| |done| | |].
  - apply (Hfin d y); [|done]. unfold kidmap, assoc. simpl. apply lookup_insert_eq.
  - apply (Hfin d y); [|done]. unfold kidmap, assoc. simpl. apply lookup_insert_eq.
  - rewrite kidmap48 in Hc by done. destruct (keys !! Z.to_nat c) as [k|] eqn:Hkc; [|done]. cbn [mbind option_bind] in Hc.
    destruct (first_set_ok nonzero keys _ k Hkc) as (b&j&E&Hj&Hb).
    { unfold nonzero. destruct (Z.eqb_spec k 0) as [->|]; done. }
    destruct Hs as ([H1 H2 H3 H4]&_&_). unfold nonzero in Hb. apply negb_true_iff, Z.eqb_neq in Hb.
    destruct (H3 _ _ Hj Hb) as (Hbr&y&Hy). pose proof (lookup_lt_Some _ _ _ Hj) as Hjl.
    apply (Hfin (Z.of_nat j) y).
    + rewrite kidmap48 by (unfold byte; lia). by rewrite Nat2Z.id, Hj.
    + cbn [minimum]. rewrite E. cbn [res_bind ok]. rewrite child48_eq in Hy by done.
      change (map ?f cs) with (f <$> cs). rewrite list_lookup_fmap. destruct (cs !! Z.to_nat (b - 1)); [|done].
      cbn in Hy. subst. done.
  - rewrite kidmap256 in Hc by done. destruct (cs !! Z.to_nat c) as [o|] eqn:Hkc; [|done]. cbn in Hc. subst o.
    set (below := map (fun o => match o with Some x => Some (minimum x) | None => None end) cs).
    assert (Hl : below !! Z.to_nat c = Some (Some (minimum x))).
    { unfold below. change (map ?f cs) with (f <$> cs). by rewrite list_lookup_fmap, Hkc. }
    destruct (first_set_ok present below _ _ Hl eq_refl) as (b&j&E&Hj&Hb). destruct b as [b|]; [|done].
    unfold below in Hj. change (map ?f cs) with (f <$> cs) in Hj. rewrite list_lookup_fmap in Hj.
    destruct (cs !! j) as [[y|]|] eqn:Hcj; [|done..]. cbn in Hj. simplify_eq.
    destruct Hs as [Hl' _]. pose proof (lookup_lt_Some _ _ _ Hcj) as Hjl.
    apply (Hfin (Z.of_nat j) y).
    + rewrite kidmap256 by (unfold byte; lia). by rewrite Nat2Z.id, Hcj.
    + cbn [minimum]. fold below. by rewrite E.
Qed.

(** ** Search *)

Lemma find_child_none n c : shape n -> byte c -> kidmap n !! c = None -> find_child n c = None.
Proof.
  intros Hs Hc Hn. pose proof (child_slot_spec n c Hs Hc) as H. unfold find_child.
  destruct (child_slot n c); [|done]. destruct H as (x&_&Hx). congruence.
Qed.

Lemma find_child_some n c x :
  shape n -> byte c -> kidmap n !! c = Some x ->
  exists i, find_child n c = Some (i, Some x) /\ child_slot n c = Some i /\ slot_value n i = Some x.
Proof.
  intros Hs Hc Hn. pose proof (child_slot_spec n c Hs Hc) as H. unfold find_child.
  destruct (child_slot n c) as [i|]; [|congruence]. destruct H as (y&Hi&Hy). rewrite Hn in Hy. simplify_eq.
  exists i. split; [|done]. simpl. by rewrite Hi.
Qed.

Lemma find_child_node n c : shape n -> byte c -> (p ← find_child n c; p.2) = kidmap n !! c.
Proof.
  intros Hs Hc. destruct (kidmap n !! c) as [x|] eqn:E.
  - destruct (find_child_some n c x Hs Hc E) as (i&->&_). done.
  - by rewrite find_child_none.
Qed.

Lemma check_prefix_ok h q key d :
  pfx h q -> q `prefix_of` drop d key -> check_prefix h key d = (MAX_PREFIX_LEN `min` plen h)%nat.
Proof.
  intros Hp Hq. pose proof (pfx_plen _ _ Hp) as Hl. unfold check_prefix.
  assert (Hk : (length q <= length key - d)%nat) by (apply prefix_length in Hq; by rewrite length_drop in Hq).
  set (steps := ((plen h `min` MAX_PREFIX_LEN) `min` (length key - d))%nat).
  set (a := fun i => partial h !! i). set (b := fun i => key !! (d + i)%nat).
  destruct (scan_spec a b 0 steps) as (H1&_&H3).
  destruct (decide (scan a b 0 steps < 0 + steps)%nat) as [Hlt|Hge]; [|unfold steps in *; lia].
  exfalso. apply H3; [done|]. set (r := scan a b 0 steps) in *. unfold a, b, steps in *.
  rewrite <-lookup_drop. destruct Hq as [rest ->]. rewrite lookup_app_l by lia.
  rewrite <-(lookup_take_lt (partial h) (S r)), <-(lookup_take_lt q (S r)) by lia.
  by rewrite (pfx_take h q) by (done || lia).
Qed.

Lemma forall_byte_at key i c : Forall byte key -> key !! i = Some c -> byte c.
Proof. intros Hf Hi. by eapply Forall_lookup_1. Qed.

(** One turn of the loop at an inner node. *)
Lemma search_step f n q key d :
  shape n -> pfx (hdr n) q -> Forall byte key ->
  let next := let* c := byte_at key (d + length q)%nat in search_loop f (kidmap n !! c) key (S (d + length q)) in
  (search_loop (S f) (Some n) key d = next) \/
  (search_loop (S f) (Some n) key d = ok None /\ ~ q `prefix_of` drop d key).
Proof.
  intros Hs Hp Hb next. pose proof (pfx_plen _ _ Hp) as Hl. pose proof Hp as (Hlen&_).
  assert (Hdesc : forall e, (let* c := byte_at key e in search_loop f (p ← find_child n c; p.2) key (S e)) =
    let* c := byte_at key e in search_loop f (kidmap n !! c) key (S e)).
  { intros e. unfold byte_at. destruct (key !! e) as [c|] eqn:Hc; [|done]. cbn [res_bind ok].
    rewrite find_child_node; [done..|]. by eapply forall_byte_at. }
  assert (E : search_loop (S f) (Some n) key d =
    if partial_len (hdr n) =? 0 then let* c := byte_at key d in search_loop f (p ← find_child n c; p.2) key (S d)
    else if (check_prefix (hdr n) key d =? MAX_PREFIX_LEN `min` plen (hdr n))%nat
    then let* c := byte_at key (d + plen (hdr n))%nat in search_loop f (p ← find_child n c; p.2) key (S (d + plen (hdr n)))
    else ok None) by (by destruct n).
  rewrite E, !Hdesc, Hl. destruct (Z.eqb_spec (partial_len (hdr n)) 0) as [Hz|Hz].
  - left. unfold next. assert (length q = 0)%nat as -> by lia. by rewrite Nat.add_0_r.
  - destruct (Nat.eqb_spec (check_prefix (hdr n) key d) (MAX_PREFIX_LEN `min` length q)) as [He|He]; [by left|].
    right. split; [done|]. intros Hq. apply He. rewrite <-Hl. by eapply check_prefix_ok.
Qed.

Lemma leaf_matches_iff k key : leaf_matches k key = true <-> k = key.
Proof.
  unfold leaf_matches. split.
  - intros [H1 H2]%andb_prop. apply Nat.eqb_eq in H1. apply bool_decide_eq_true in H2.
    by rewrite <-H1, firstn_all in H2.
  - intros ->. by rewrite Nat.eqb_refl, firstn_all, bool_decide_eq_true_2.
Qed.

Lemma leaf_matches_ne k key : k <> key -> leaf_matches k key = false.
Proof. intros H. destruct (leaf_matches k key) eqn:E; [|done]. by apply leaf_matches_iff in E. Qed.

Lemma search_found p n key v f :
  wf p n -> bound n key v -> (length key < length p + f)%nat -> search_loop f (Some n) key (length p) = ok (Some v).
Proof.
  intros Hw Hb. pose proof (wf_bound _ _ _ _ Hw Hb) as (_&Hbytes&_). revert f Hb.
  induction Hw as [p k w Hp Hf Hl|p q n Hs Hr Hp Hk IH]; intros f Hb Hlen.
  - apply bound_leaf_iff in Hb as [-> ->]. apply prefix_length in Hp. destruct f; [lia|]. simpl.
    by rewrite (proj2 (leaf_matches_iff k k) eq_refl).
  - apply (bound_inner_iff _ _ _ Hs) in Hb as (c&x&Hc&Hx). destruct (wf_kid p q n c x key v Hk Hc Hx) as [Hpq Hkc].
    pose proof (prefix_length _ _ Hpq) as Hpl. rewrite length_app in Hpl. destruct f as [|f]; [lia|].
    destruct (search_step f n q key (length p) Hs Hp Hbytes) as [E|[_ []]]; [|by apply prefix_app_drop].
    rewrite E. unfold byte_at. rewrite Hkc. cbn [res_bind ok]. rewrite Hc.
    specialize (IH c x Hc f Hx). rewrite !length_app in IH. cbn [length] in IH.
    replace (S (length p + length q)) with (length p + (length q + 1))%nat by lia. apply IH. lia.
Qed.

Lemma search_sound p n key v f d :
  wf p n -> Forall byte key -> search_loop f (Some n) key d = ok (Some v) -> bound n key v.
Proof.
  intros Hw Hbytes. revert f d. induction Hw as [p k w Hp Hf Hl|p q n Hs Hr Hp Hk IH]; intros [|f] d Hsr; [done| |done|].
  - simpl in Hsr. destruct (leaf_matches k key) eqn:E; [|done]. apply leaf_matches_iff in E as ->.
    injection Hsr as ->. constructor.
  - destruct (search_step f n q key d Hs Hp Hbytes) as [E|[E _]]; rewrite E in Hsr; [|done].
    unfold byte_at in Hsr. destruct (key !! _) as [c|]; [|done]. cbn [res_bind ok] in Hsr.
    destruct (kidmap n !! c) as [x|] eqn:Hc; [|by destruct f]. eapply bound_kid; [done|]. by eapply IH.
Qed.

Lemma search_safe p n key f :
  wf p n -> Forall byte key -> (forall k v, bound n k v -> (length k <= length key)%nat) ->
  (length key < length p + f)%nat -> exists r, search_loop f (Some n) key (length p) = ok r.
Proof.
  intros Hw Hbytes. revert f. induction Hw as [p k w Hp Hf Hl|p q n Hs Hr Hp Hk IH]; intros f Hmax Hlen.
  - specialize (Hmax k w (bound_leaf k w)). apply prefix_length in Hp. destruct f; [lia|]. simpl. eauto.
  - assert (Hin : (length p + length q < length key)%nat).
    { destruct (roomy_kid n Hs Hr) as (c&x&Hc). destruct (wf_inhabited _ _ (Hk c x Hc)) as (k&v&Hx).
      destruct (wf_kid p q n c x k v Hk Hc Hx) as [_ Hkc]. apply lookup_lt_Some in Hkc.
      specialize (Hmax k v (bound_kid n c x k v Hc Hx)). lia. }
    destruct f as [|f]; [lia|]. destruct (search_step f n q key (length p) Hs Hp Hbytes) as [E|[E _]]; rewrite E; [|eauto].
    unfold byte_at. destruct (lookup_lt_is_Some_2 _ _ Hin) as [c Hkc]. rewrite Hkc. cbn [res_bind ok].
    destruct (kidmap n !! c) as [x|] eqn:Hc; [|destruct f; [lia|eauto]].
    specialize (IH c x Hc f). rewrite !length_app in IH. cbn [length] in IH.
    replace (S (length p + length q)) with (length p + (length q + 1))%nat by lia. apply IH; [|lia].
    intros k v Hx. apply (Hmax k v). by eapply bound_kid.
Qed.

(** ** Insertion *)

(** Neither key is a prefix of the other. *)
Definition apart (k key : list Z) : Prop := ~ k `prefix_of` key /\ ~ key `prefix_of` k.

(** Two keys apart below a common path part at some byte. *)
Lemma apart_split p k key :
  p `prefix_of` k -> p `prefix_of` key -> apart k key ->
  exists r c c', longest_common_prefix k key (length p) = r /\
    k !! (length p + r)%nat = Some c /\ key !! (length p + r)%nat = Some c' /\ c <> c' /\
    take (length p + r) k = take (length p + r) key.
Proof.
  intros Hp Hp' [Hn Hn']. unfold longest_common_prefix.
  set (a := fun i => k !! (length p + i)%nat). set (b := fun i => key !! (length p + i)%nat).
  set (steps := ((length k `min` length key) - length p)%nat).
  destruct (scan_spec a b 0 steps) as (H1&H2&H3). set (r := scan a b 0 steps) in *.
  pose proof (prefix_length _ _ Hp). pose proof (prefix_length _ _ Hp').
  assert (Ht : take (length p + r) k = take (length p + r) key).
  { apply take_agree; [by apply prefix_both_eq|unfold steps in *; lia..|]. intros j Hj. apply H2. lia. }
  destruct (decide (r < steps)%nat) as [Hlt|Hge].
  - destruct (lookup_lt_is_Some_2 k (length p + r)) as [c Hc]; [unfold steps in *; lia|].
    destruct (lookup_lt_is_Some_2 key (length p + r)) as [c' Hc']; [unfold steps in *; lia|].
    exists r, c, c'. split_and!; [done..| |done]. intros <-. apply H3; [lia|]. unfold a, b. congruence.
  - exfalso. destruct (Nat.le_gt_cases (length k) (length key)).
    + apply Hn, prefix_take_iff. replace (length p + r)%nat with (length k) in Ht by (unfold steps in *; lia).
      by rewrite firstn_all in Ht.
    + apply Hn', prefix_take_iff. replace (length p + r)%nat with (length key) in Ht by (unfold steps in *; lia).
      by rewrite firstn_all in Ht.
Qed.

(** A node made with two children. *)
Lemma pair_node h q c x c' y :
  pfx h q -> byte c -> byte c' -> c <> c' ->
  exists n1 n2, add_child4 (node4 h []) c x = ok n1 /\ add_child4 n1 c' y = ok n2 /\
    shape n2 /\ roomy n2 /\ pfx (hdr n2) q /\ kidmap n2 = {[ c := x; c' := y ]}.
Proof.
  intros Hp Hc Hc' Hne.
  destruct (add_child4_ok h [] c x q) as (n1&E1&(Hs1&Hk1&Hp1&_)&Hl1); [|done..|].
  { split_and!; [by apply NoDup_nil|done|simpl; lia]. }
  destruct Hl1 as (cs1&->&Hlen); [simpl; lia|].
  destruct (add_child4_ok h cs1 c' y q) as (n2&E2&(Hs2&Hk2&Hp2&_)&Hl2); [done..| |done|].
  { rewrite Hk1, lookup_insert_ne by done. done. }
  destruct Hl2 as (cs2&->&Hlen2); [simpl in Hlen; lia|].
  exists (node4 h cs1), (node4 h cs2). split_and!; [done..| |done|].
  - unfold roomy. rewrite Hk2, Hk1, !map_size_insert_None; [simpl; lia|done|].
    by rewrite lookup_insert_ne.
  - rewrite Hk2, Hk1. by rewrite insert_insert_ne.
Qed.

Lemma bound_pair n2 c c' x y k v :
  shape n2 -> kidmap n2 = {[ c := x; c' := y ]} -> c <> c' -> bound n2 k v <-> bound x k v \/ bound y k v.
Proof.
  intros Hs Hk Hne. rewrite bound_inner_iff, Hk by done. split.
  - intros (d&z&[[<- <-]|[_ [<- <-]%lookup_singleton_Some]]%lookup_insert_Some&Hz); auto.
  - intros [H|H]; [exists c, x|exists c', y]; by simplify_map_eq.
Qed.

Lemma wf_pair p q n2 c c' x y :
  shape n2 -> roomy n2 -> pfx (hdr n2) q -> kidmap n2 = {[ c := x; c' := y ]} ->
  wf (p ++ q ++ [c]) x -> wf (p ++ q ++ [c']) y -> wf p n2.
Proof.
  intros Hs Hr Hp Hk Hx Hy. apply (wf_inner p q); [done..|]. rewrite Hk.
  by intros d z [[<- <-]|[_ [<- <-]%lookup_singleton_Some]]%lookup_insert_Some.
Qed.

(** What insertion promises of a subtree. *)
Definition inserted p n key v (r : res (option V * bool * art_node V)) : Prop :=
  exists old n', r = ok (old, present old, n') /\ wf p n' /\
    (forall k w, bound n' k w <-> k = key /\ w = v \/ k <> key /\ bound n k w) /\
    (forall w, old = Some w <-> bound n key w).

(** A key taken at a path and a prefix. *)
Lemma take_path p q k d r :
  p `prefix_of` k -> q = take r (drop (length p) k) -> d = (length p + r)%nat -> take d k = p ++ q.
Proof. intros Hp -> ->. rewrite (prefix_split p) by (done || lia). do 2 f_equal. lia. Qed.

Lemma insert_leaf f p k0 w key v :
  wf p (leaf k0 w) -> p `prefix_of` key -> Forall byte key -> Z.of_nat (length key) < 2 ^ 31 ->
  (k0 = key \/ apart k0 key) -> inserted p (leaf k0 w) key v (recursive_insert (S f) (Some (leaf k0 w)) key v (length p)).
Proof.
  intros Hw Hp Hb Hl Hap. inversion Hw as [? ? ? Hp0 Hb0 Hl0|]; subst; [|done]. cbn [recursive_insert].
  destruct (decide (k0 = key)) as [->|Hne].
  { rewrite (proj2 (leaf_matches_iff key key) eq_refl). exists (Some w), (leaf key v). split_and!; [done|by constructor| |].
    - intros k w'. rewrite !bound_leaf_iff. naive_solver.
    - intros w'. rewrite bound_leaf_iff. naive_solver. }
  destruct Hap as [|Hap]; [done|]. rewrite leaf_matches_ne by done.
  destruct (apart_split p k0 key Hp0 Hp Hap) as (r&c&c'&->&Hc&Hc'&Hcc&Ht).
  set (q := take r (drop (length p) key)).
  pose proof (lookup_lt_Some _ _ _ Hc') as Hlt.
  assert (Hq : length q = r) by (unfold q; rewrite length_take, length_drop; lia).
  destruct (pfx_copy (u32 (Z.of_nat r)) (partial no_prefix) (drop (length p) key) q (MAX_PREFIX_LEN `min` r)) as (pp&E&Hpfx).
  { rewrite u32_small by lia. lia. }
  { by rewrite Hq. }
  { done. }
  { unfold q. by rewrite take_take. }
  rewrite E. cbn [res_bind ok]. unfold byte_at. rewrite Hc, Hc'. cbn [res_bind ok].
  destruct (pair_node _ q c (leaf k0 w) c' (make_leaf key v) Hpfx) as (n1&n2&E1&E2&Hs2&Hr2&Hp2&Hk2); [exact (forall_byte_at _ _ _ Hb0 Hc)|exact (forall_byte_at _ _ _ Hb Hc')|done|].
  rewrite E1. cbn [res_bind ok]. rewrite E2. cbn [res_bind ok].
  exists None, n2. split_and!; [done| | |].
  - apply (wf_pair p q n2 c c' (leaf k0 w) (make_leaf key v)); [done..| |].
    + constructor; [|done..]. rewrite app_assoc, <-(take_path p q key (length p + r) r) by done. rewrite <-Ht. by apply take_snoc_prefix.
    + constructor; [|done..]. rewrite app_assoc, <-(take_path p q key (length p + r) r) by done. by apply take_snoc_prefix.
  - intros k w'. rewrite (bound_pair n2 c c' (leaf k0 w) (make_leaf key v)) by done. unfold make_leaf. rewrite !bound_leaf_iff. naive_solver.
  - intros w'. rewrite bound_leaf_iff. naive_solver.
Qed.

(** The bytes of a header that are there. *)
Lemma pfx_lookup h q i : pfx h q -> (i < MAX_PREFIX_LEN)%nat -> (i < length q)%nat -> partial h !! i = q !! i.
Proof.
  intros Hp Hi Hq. rewrite <-(lookup_take_lt (partial h) (S i)), <-(lookup_take_lt q (S i)) by lia.
  by rewrite (pfx_take h q) by (done || lia).
Qed.

(** The smallest key below a node starts with the path and the full prefix. *)
Lemma minimum_path p q n :
  shape n -> roomy n -> pfx (hdr n) q -> (forall c x, kidmap n !! c = Some x -> wf (p ++ q ++ [c]) x) ->
  exists k v, minimum n = ok (Some (k, v)) /\ (p ++ q) `prefix_of` k /\ (length p + length q < length k)%nat /\
    Z.of_nat (length k) < 2 ^ 31 /\ Forall byte k.
Proof.
  intros Hs Hr Hp Hk. pose proof (wf_inner p q n Hs Hr Hp Hk) as Hw. destruct (minimum_ok p n Hw) as (k&v&E&Hb).
  exists k, v. destruct (wf_bound p n k v Hw Hb) as (_&Hby&Hlen). apply (bound_inner_iff _ _ _ Hs) in Hb as (c&x&Hc&Hx).
  destruct (wf_kid p q n c x k v Hk Hc Hx) as [H1 H2]. apply lookup_lt_Some in H2. done.
Qed.

Lemma prefix_lookup p q k i : (p ++ q) `prefix_of` k -> (i < length q)%nat -> k !! (length p + i)%nat = q !! i.
Proof. intros [r ->] Hi. rewrite <-app_assoc, lookup_app_r by lia. rewrite lookup_app_l by lia. f_equal. lia. Qed.

Lemma prefix_by_lookup p q key :
  p `prefix_of` key -> (forall i, (i < length q)%nat -> q !! i = key !! (length p + i)%nat) -> (p ++ q) `prefix_of` key.
Proof.
  intros [r ->] H. apply prefix_app. apply prefix_take_iff. apply list_eq. intros i.
  destruct (decide (i < length q)%nat) as [Hi|Hi].
  - rewrite lookup_take_lt, H by done. rewrite lookup_app_r by lia. f_equal. lia.
  - rewrite lookup_take_ge by lia. symmetry. apply lookup_ge_None. lia.
Qed.

(** Where the key leaves the full prefix of a node. *)
Lemma prefix_mismatch_ok p q n key :
  shape n -> roomy n -> pfx (hdr n) q -> (forall c x, kidmap n !! c = Some x -> wf (p ++ q ++ [c]) x) ->
  p `prefix_of` key ->
  exists d, prefix_mismatch n key (length p) = ok d /\
    (forall i, (i < d)%nat -> (i < length q)%nat -> q !! i = key !! (length p + i)%nat) /\
    ((d < length q)%nat -> q !! d <> key !! (length p + d)%nat).
Proof.
  intros Hs Hr Hp Hk Hpk. pose proof (pfx_plen _ _ Hp) as Hl. unfold prefix_mismatch. rewrite Hl.
  set (steps := ((MAX_PREFIX_LEN `min` length q) `min` (length key - length p))%nat).
  set (a := fun i => partial (hdr n) !! i). set (b := fun i => key !! (length p + i)%nat).
  destruct (scan_spec a b 0 steps) as (H1&H2&H3). set (r := scan a b 0 steps) in *.
  assert (Ha : forall i, (i < MAX_PREFIX_LEN)%nat -> (i < length q)%nat -> a i = q !! i) by (intros; by apply pfx_lookup).
  destruct (Nat.ltb_spec r steps) as [Hlt|Hge].
  { exists r. split_and!; [done| |].
    - intros i Hi Hiq. rewrite <-Ha by (unfold steps in *; lia). apply H2. lia.
    - intros Hrq. rewrite <-Ha by (unfold steps in *; lia). apply H3. lia. }
  destruct (Nat.ltb_spec MAX_PREFIX_LEN (length q)) as [Hlong|Hshort].
  - destruct (minimum_path p q n Hs Hr Hp Hk) as (k&v&E&Hpre&Hklen&_&_). rewrite E. cbn [res_bind ok].
    set (a' := fun i => k !! (i + length p)%nat).
    set (steps' := ((length k `min` length key) - length p - r)%nat).
    destruct (scan_spec a' b r steps') as (I1&I2&I3). set (d := scan a' b r steps') in *.
    assert (Ha' : forall i, (i < length q)%nat -> a' i = q !! i).
    { intros i Hi. unfold a'. rewrite Nat.add_comm. by apply prefix_lookup. }
    exists d. split_and!; [done| |].
    + intros i Hi Hiq. destruct (decide (i < r)%nat) as [Hir|Hir].
      * rewrite <-Ha by (unfold steps in *; lia). apply H2. lia.
      * rewrite <-Ha' by done. apply I2. lia.
    + intros Hdq. destruct (decide (d < r + steps')%nat) as [Hd|Hd].
      * rewrite <-Ha' by done. by apply I3.
      * rewrite (lookup_ge_None_2 key) by (unfold steps' in *; lia). by apply not_eq_None_Some, lookup_lt_is_Some_2.
  - exists r. split_and!; [done| |].
    + intros i Hi Hiq. rewrite <-Ha by (unfold steps in *; lia). apply H2. lia.
    + intros Hrq. rewrite (lookup_ge_None_2 key) by (unfold steps in *; lia). by apply not_eq_None_Some, lookup_lt_is_Some_2.
Qed.

Lemma shorten_prefix_ok p q n d :
  shape n -> roomy n -> pfx (hdr n) q -> (forall c x, kidmap n !! c = Some x -> wf (p ++ q ++ [c]) x) ->
  (d < length q)%nat ->
  exists c h, shorten_prefix n (length p) d = ok (c, set_hdr h n) /\ q !! d = Some c /\ byte c /\ pfx h (drop (S d) q).
Proof.
  intros Hs Hr Hp Hk Hd. pose proof (pfx_plen _ _ Hp) as Hl. unfold shorten_prefix. rewrite Hl.
  destruct (minimum_path p q n Hs Hr Hp Hk) as (k&v&E&Hpre&Hklen&Hk31&Hby).
  destruct (lookup_lt_is_Some_2 q d Hd) as [c Hc]. pose proof Hp as (Hlen&Hpl&_).
  assert (Hbc : byte c).
  { eapply forall_byte_at; [exact Hby|]. by rewrite (prefix_lookup p q k d). }
  set (len := u32 (partial_len (hdr n) - (Z.of_nat d + 1))).
  assert (Hlen' : len = Z.of_nat (length (drop (S d) q))).
  { unfold len. rewrite Hlen, length_drop, u32_small by lia. lia. }
  assert (Hln : Z.to_nat len = length (drop (S d) q)) by lia.
  destruct (Nat.leb_spec (length q) MAX_PREFIX_LEN) as [Hshort|Hlong].
  - unfold byte_at. rewrite (pfx_lookup _ q) by (done || lia). rewrite Hc. cbn [res_bind ok].
    destruct (pfx_copy len (partial (hdr n)) (drop (S d) (partial (hdr n))) (drop (S d) q)
      (MAX_PREFIX_LEN `min` Z.to_nat len)) as (pp&E'&Hpp); [done|by rewrite Hln|done| |].
    { rewrite Hln, !length_drop. rewrite take_drop_commute.
      rewrite (pfx_take _ q) by (done || lia). rewrite (take_ge (drop _ _)) by (rewrite length_drop; lia).
      rewrite take_ge by lia. done. }
    rewrite E'. cbn [res_bind ok]. eauto 10.
  - rewrite E. cbn [res_bind ok]. unfold byte_at. rewrite (prefix_lookup p q k d) by done. rewrite Hc. cbn [res_bind ok].
    destruct (pfx_copy len (partial (hdr n)) (drop (S (length p + d)) k) (drop (S d) q)
      (MAX_PREFIX_LEN `min` Z.to_nat len)) as (pp&E'&Hpp); [done|by rewrite Hln|done| |].
    { rewrite Hln, !length_drop. destruct Hpre as [rest ->].
      rewrite <-app_assoc, drop_app_ge by lia. replace (S (length p + d) - length p)%nat with (S d) by lia.
      rewrite drop_app_le by lia. rewrite take_app_le by (rewrite length_drop; lia).
      destruct (Nat.le_gt_cases MAX_PREFIX_LEN (length q - S d)).
      - by rewrite Nat.min_l by lia.
      - rewrite Nat.min_r by lia. rewrite !take_ge by (rewrite length_drop; lia). done. }
    rewrite E'. cbn [res_bind ok]. eauto 10.
Qed.

(** The code of an insertion at an inner node, past the prefix and as a whole. *)
Definition insert_below f n key v e : res (option V * bool * art_node V) :=
  let* c := byte_at key e in
  match find_child n c with
  | Some (slot, child) =>
      let* (old, flag, child) := recursive_insert f child key v (S e) in ok (old, flag, set_slot n slot child)
  | None => let* n := add_child n c (make_leaf key v) in ok (None, false, n)
  end.

Lemma insert_eq f n key v e :
  shape n ->
  recursive_insert (S f) (Some n) key v e =
    let h := hdr n in
    if partial_len h =? 0 then insert_below f n key v e
    else
      let* d := prefix_mismatch n key e in
      if (plen h <=? d)%nat then insert_below f n key v (e + plen h)
      else
        let* p := memcpy (partial no_prefix) (partial h) (MAX_PREFIX_LEN `min` d)%nat in
        let* (c, n) := shorten_prefix n e d in
        let* n' := add_child4 (node4 (mk_header (u32 (Z.of_nat d)) p) []) c n in
        let* c := byte_at key (e + d) in
        let* n' := add_child4 n' c (make_leaf key v) in
        ok (None, false, n').
Proof. by destruct n. Qed.

(** A node whose key leaves its prefix is put below a new one. *)
Lemma insert_split f p q n key v d :
  shape n -> roomy n -> pfx (hdr n) q -> (forall c x, kidmap n !! c = Some x -> wf (p ++ q ++ [c]) x) ->
  p `prefix_of` key -> Forall byte key -> Z.of_nat (length key) < 2 ^ 31 ->
  (forall k w, bound n k w -> k = key \/ apart k key) ->
  prefix_mismatch n key (length p) = ok d -> (d < length q)%nat ->
  (forall i, (i < d)%nat -> (i < length q)%nat -> q !! i = key !! (length p + i)%nat) ->
  q !! d <> key !! (length p + d)%nat ->
  inserted p n key v (recursive_insert (S f) (Some n) key v (length p)).
Proof.
  intros Hs Hr Hp Hk Hpk Hb Hl Hap Hpm Hd Hagree Hdiff. pose proof (pfx_plen _ _ Hp) as Hpl. pose proof Hp as (Hlen&Hpl10&_).
  assert (Hpre : (p ++ take d q) `prefix_of` key).
  { apply prefix_by_lookup; [done|]. rewrite length_take, Nat.min_l by lia. intros i Hi.
    rewrite lookup_take_lt by lia. apply Hagree; lia. }
  pose proof (prefix_length _ _ Hpre) as Hprel. rewrite length_app, length_take, Nat.min_l in Hprel by lia.
  destruct (wf_inhabited p n (wf_inner p q n Hs Hr Hp Hk)) as (k0&w0&Hb0).
  pose proof (proj1 (bound_inner_iff _ _ _ Hs) Hb0) as (c0&x0&Hc0&Hx0).
  destruct (wf_kid p q n c0 x0 k0 w0 Hk Hc0 Hx0) as [Hk0 Hk0c].
  assert (Hkey0 : k0 !! (length p + d)%nat = q !! d) by (by apply prefix_lookup).
  destruct (Hap k0 w0 Hb0) as [->|[_ Hnp]]; [by rewrite Hkey0 in Hdiff|].
  destruct (lookup_lt_is_Some_2 q d Hd) as [c Hc].
  destruct (key !! (length p + d)%nat) as [c'|] eqn:Hc'.
  2: { exfalso. apply Hnp. apply lookup_ge_None in Hc'. assert (length key = length p + d)%nat as Hkl by lia.
       destruct Hpre as [rest ->]. rewrite !length_app, length_take in Hkl. destruct rest; [|simpl in Hkl; lia].
       rewrite app_nil_r. etrans; [|exact Hk0]. apply prefix_app. exists (drop d q). by rewrite take_drop. }
  destruct (shorten_prefix_ok p q n d Hs Hr Hp Hk Hd) as (c1&h1&Esh&Hc1&Hbc1&Hpf1). rewrite Hc in Hc1. injection Hc1 as <-.
  destruct (pfx_copy (u32 (Z.of_nat d)) (partial no_prefix) (partial (hdr n)) (take d q) (MAX_PREFIX_LEN `min` d)) as (pp&Epp&Hpp).
  { rewrite length_take, Nat.min_l, u32_small by lia. done. }
  { by rewrite length_take, (Nat.min_l d) by lia. }
  { done. }
  { rewrite (pfx_take _ q) by (done || lia). by rewrite take_take. }
  assert (Hcc : c <> c') by congruence.
  destruct (pair_node _ (take d q) c (set_hdr h1 n) c' (make_leaf key v) Hpp) as (n1&n2&E1&E2&Hs2&Hr2&Hp2&Hk2);
    [done|exact (forall_byte_at _ _ _ Hb Hc')|done|].
  assert (Eq : recursive_insert (S f) (Some n) key v (length p) = ok (None, false, n2)).
  { rewrite insert_eq by done. cbv zeta. rewrite (proj2 (Z.eqb_neq _ _)) by lia. rewrite Hpm. cbn [res_bind ok].
    rewrite Hpl, (proj2 (Nat.leb_gt _ _)), Epp by done. cbn [res_bind ok]. rewrite Esh. cbn [res_bind ok].
    rewrite E1. cbn [res_bind ok]. unfold byte_at. rewrite Hc'. cbn [res_bind ok]. by rewrite E2. }
  rewrite Eq. exists None, n2. split_and!; [done| | |].
  - apply (wf_pair p (take d q) n2 c c' (set_hdr h1 n) (make_leaf key v)); [done..| |].
    + apply (wf_inner _ (drop (S d) q)).
      * by apply set_hdr_shape.
      * by apply set_hdr_roomy.
      * by rewrite set_hdr_hdr.
      * rewrite set_hdr_kidmap. intros e x Hex. specialize (Hk e x Hex).
        replace ((p ++ take d q ++ [c]) ++ drop (S d) q ++ [e]) with (p ++ q ++ [e]); [done|].
        rewrite <-(take_drop_middle q d c Hc) at 1. by rewrite <-!app_assoc.
    + constructor; [|done..]. apply prefix_snoc; [done|]. by rewrite length_take, Nat.min_l by lia.
  - intros k w. rewrite (bound_pair n2 c c' (set_hdr h1 n) (make_leaf key v)) by done.
    rewrite (bound_inner_iff (set_hdr h1 n)) by (by apply set_hdr_shape). rewrite set_hdr_kidmap, <-bound_inner_iff by done.
    unfold make_leaf. rewrite bound_leaf_iff. split; [|naive_solver]. intros [Hbk|]; [|naive_solver]. right. split; [|done].
    intros ->. apply (bound_inner_iff _ _ _ Hs) in Hbk as (e&x&He&Hx). destruct (wf_kid p q n e x key w Hk He Hx) as [Hpq _].
    rewrite (prefix_lookup p q key d) in Hc' by done. congruence.
  - intros w. split; [done|]. intros Hbk. apply (bound_inner_iff _ _ _ Hs) in Hbk as (e&x&He&Hx).
    destruct (wf_kid p q n e x key w Hk He Hx) as [Hpq _]. rewrite (prefix_lookup p q key d) in Hc' by done. congruence.
Qed.

(** What a node holds when one child is replaced or added. *)
Lemma bound_update n n' c x k w :
  shape n' -> kidmap n' = <[c := x]> (kidmap n) ->
  bound n' k w <-> bound x k w \/ exists e y, e <> c /\ kidmap n !! e = Some y /\ bound y k w.
Proof.
  intros Hs Hk. rewrite bound_inner_iff, Hk by done. split.
  - intros (e&y&[[<- <-]|[Hne He]]%lookup_insert_Some&Hy); [by left|]. right. exists e, y. split_and!; [congruence|done..].
  - intros [H|(e&y&Hne&He&Hy)]; [exists c, x; by rewrite lookup_insert_eq|]. exists e, y. by rewrite lookup_insert_ne by congruence.
Qed.

Lemma wf_update p q n n' c x :
  shape n' -> roomy n' -> pfx (hdr n') q -> kidmap n' = <[c := x]> (kidmap n) -> wf (p ++ q ++ [c]) x ->
  (forall c x, kidmap n !! c = Some x -> wf (p ++ q ++ [c]) x) -> wf p n'.
Proof.
  intros Hs Hr Hp Hk Hx Hall. apply (wf_inner p q); [done..|]. rewrite Hk.
  intros e y [[<- <-]|[_ He]]%lookup_insert_Some; auto.
Qed.

Lemma set_slot_roomy n c i x y :
  shape n -> byte c -> child_slot n c = Some i -> kidmap n !! c = Some x -> roomy n -> roomy (set_slot n i y).
Proof.
  intros Hs Hc Hi Hx Hr. destruct (set_slot_spec n c i x y Hs Hc Hi Hx) as [_ E]. unfold roomy in *.
  rewrite E, (size_replace _ _ x) by done. by destruct n.
Qed.

Lemma insert_below_ok f p q n key v :
  shape n -> roomy n -> pfx (hdr n) q -> (forall c x, kidmap n !! c = Some x -> wf (p ++ q ++ [c]) x) ->
  (p ++ q) `prefix_of` key -> Forall byte key -> Z.of_nat (length key) < 2 ^ 31 ->
  (forall k w, bound n k w -> k = key \/ apart k key) ->
  (forall c x, kidmap n !! c = Some x -> key !! (length p + length q)%nat = Some c ->
    inserted (p ++ q ++ [c]) x key v (recursive_insert f (Some x) key v (S (length p + length q)))) ->
  inserted p n key v (insert_below f n key v (length p + length q)).
Proof.
  intros Hs Hr Hp Hk Hpk Hb Hl Hap IH.
  destruct (key !! (length p + length q)%nat) as [c|] eqn:Hc.
  2: { exfalso. destruct (roomy_kid n Hs Hr) as (c&x&Hcx). destruct (wf_inhabited _ _ (Hk c x Hcx)) as (k&w&Hx).
       destruct (wf_kid p q n c x k w Hk Hcx Hx) as [Hpre Hkc]. pose proof (lookup_lt_Some _ _ _ Hkc).
       apply lookup_ge_None in Hc. destruct Hpk as [rest ->]. rewrite !length_app in Hc. destruct rest; [|simpl in Hc; lia].
       rewrite app_nil_r in *. destruct (Hap k w (bound_kid n c x k w Hcx Hx)) as [->|[_ []]]; [|done].
       rewrite length_app in *. lia. }
  pose proof (forall_byte_at _ _ _ Hb Hc) as Hbc. unfold insert_below, byte_at. rewrite Hc. cbn [res_bind ok].
  assert (Hpath : (p ++ q ++ [c]) `prefix_of` key).
  { by apply prefix_snoc. }
  assert (Hother : forall e y w, e <> c -> kidmap n !! e = Some y -> ~ bound y key w).
  { intros e y w Hne He Hy. destruct (wf_kid p q n e y key w Hk He Hy) as [_ E]. congruence. }
  destruct (kidmap n !! c) as [x|] eqn:Hcx.
  - destruct (find_child_some n c x Hs Hbc Hcx) as (i&->&Hi&_).
    destruct (IH c x Hcx eq_refl) as (old&x'&->&Hwx&Hbx&Hold). cbn [res_bind ok].
    destruct (set_slot_spec n c i x x' Hs Hbc Hi Hcx) as [Hs' Hk'].
    exists old, (set_slot n i x'). split_and!; [done| | |].
    + eapply (wf_update p q n _ c x'); [done| | |done..].
      * by eapply set_slot_roomy.
      * by rewrite set_slot_hdr.
    + intros k w. rewrite (bound_update n _ c x'), Hbx by done. rewrite (bound_inner_iff n) by done. split.
      * intros [[|[Hne Hx]]|(e&y&Hne&He&Hy)]; [by left|right; split; [done|]; by exists c, x|].
        right. split; [|by exists e, y]. intros ->. by apply (Hother e y w).
      * intros [|(Hne&e&y&He&Hy)]; [by left; left|]. destruct (decide (e = c)) as [->|]; [|right; by exists e, y].
        rewrite Hcx in He. simplify_eq. by left; right.
    + intros w. rewrite Hold, (bound_inner_iff n) by done. split; [by exists c, x|]. intros (e&y&He&Hy).
      destruct (decide (e = c)) as [->|Hne]; [congruence|]. by destruct (Hother e y w Hne He Hy).
  - rewrite find_child_none by done. destruct (add_child_ok n c (make_leaf key v) q Hs Hbc Hcx Hp) as (n'&->&Hs'&Hk'&Hp'&Hr').
    cbn [res_bind ok]. exists None, n'. split_and!; [done| | |].
    + eapply (wf_update p q n n' c (make_leaf key v)); [done|auto|done..| |done]. by constructor.
    + intros k w. rewrite (bound_update n _ c (make_leaf key v)) by done. unfold make_leaf. rewrite bound_leaf_iff, (bound_inner_iff n) by done.
      split.
      * intros [|(e&y&Hne&He&Hy)]; [by left|]. right. split; [|by exists e, y]. intros ->. by apply (Hother e y w).
      * intros [|(Hne&e&y&He&Hy)]; [by left|]. right. exists e, y. split; [|done]. congruence.
    + intros w. split; [done|]. intros (e&y&He&Hy)%bound_inner_iff; [|done].
      destruct (decide (e = c)) as [->|Hne]; [congruence|]. by destruct (Hother e y w Hne He Hy).
Qed.

Lemma insert_node_ok p n key v f :
  wf p n -> p `prefix_of` key -> Forall byte key -> Z.of_nat (length key) < 2 ^ 31 ->
  (forall k w, bound n k w -> k = key \/ apart k key) -> (length key < length p + f)%nat ->
  inserted p n key v (recursive_insert f (Some n) key v (length p)).
Proof.
  intros Hw Hpk Hb Hl. revert f. induction Hw as [p k w Hp Hf Hkl|p q n Hs Hr Hp Hk IH]; intros f Hap Hlen;
    pose proof (prefix_length _ _ Hpk) as Hpl; (destruct f as [|f]; [lia|]).
  - apply insert_leaf; [by constructor|done..|]. apply (Hap k w). constructor.
  - assert (Hbelow : (p ++ q) `prefix_of` key -> inserted p n key v (insert_below f n key v (length p + length q))).
    { intros Hpq. apply insert_below_ok; [done..|]. intros c x Hc Hkc.
      replace (S (length p + length q)) with (length (p ++ q ++ [c])) by (rewrite !length_app; simpl; lia).
      apply IH; [done| | |].
      - by apply prefix_snoc.
      - intros k w Hx. apply (Hap k w). by eapply bound_kid.
      - rewrite !length_app. simpl. lia. }
    destruct (prefix_mismatch_ok p q n key Hs Hr Hp Hk Hpk) as (d&Ed&Hagree&Hdiff).
    destruct (decide (d < length q)%nat) as [Hd|Hd]; [by eapply insert_split; eauto|].
    rewrite insert_eq by done. cbv zeta. pose proof (pfx_plen _ _ Hp) as Hpl'. pose proof Hp as (Hlen'&_). rewrite Hpl'.
    assert (Hpq : (p ++ q) `prefix_of` key) by (apply prefix_by_lookup; [done|]; intros i Hi; apply Hagree; lia).
    destruct (Z.eqb_spec (partial_len (hdr n)) 0) as [Hz|Hz].
    + assert (length q = 0)%nat as E by lia. specialize (Hbelow Hpq). by rewrite E, Nat.add_0_r in Hbelow.
    + rewrite Ed. cbn [res_bind ok]. rewrite (proj2 (Nat.leb_le _ _)) by lia. auto.
Qed.

(** ** Deletion *)

Definition delete_below f n key e : res (option (list Z * V) * option (art_node V)) :=
  let* c := byte_at key e in
  match find_child n c with
  | None => ok (None, Some n)
  | Some (slot, Some (leaf k v)) =>
      if leaf_matches k key then let* n := remove_child n c slot in ok (Some (k, v), Some n) else ok (None, Some n)
  | Some (slot, child) =>
      let* (l, child) := recursive_delete f child key (S e) in
      match child with Some child => ok (l, Some (set_slot n slot child)) | None => ok (l, Some n) end
  end.

Lemma delete_step f n q key d :
  shape n -> pfx (hdr n) q ->
  (recursive_delete (S f) (Some n) key d = delete_below f n key (d + length q)) \/
  (recursive_delete (S f) (Some n) key d = ok (None, Some n) /\ ~ q `prefix_of` drop d key).
Proof.
  intros Hs Hp. pose proof (pfx_plen _ _ Hp) as Hl. pose proof Hp as (Hlen&_).
  assert (E : recursive_delete (S f) (Some n) key d =
    if partial_len (hdr n) =? 0 then delete_below f n key d
    else if (check_prefix (hdr n) key d =? MAX_PREFIX_LEN `min` plen (hdr n))%nat
    then delete_below f n key (d + plen (hdr n)) else ok (None, Some n)) by (by destruct n).
  rewrite E, Hl. destruct (Z.eqb_spec (partial_len (hdr n)) 0) as [Hz|Hz].
  - left. assert (length q = 0)%nat as -> by lia. by rewrite Nat.add_0_r.
  - destruct (Nat.eqb_spec (check_prefix (hdr n) key d) (MAX_PREFIX_LEN `min` length q)) as [He|He]; [by left|].
    right. split; [done|]. intros Hq. apply He. rewrite <-Hl. by eapply check_prefix_ok.
Qed.

Definition deleted p n key n' : Prop := wf p n' /\ forall k w, bound n' k w <-> k <> key /\ bound n k w.

Lemma wf_weaken p q k v : wf (p ++ q) (leaf k v) -> wf p (leaf k v).
Proof. intros Hw. inversion Hw as [? ? ? Hp|]; subst; [|done]. constructor; [|done..]. etrans; [|done]. by exists q. Qed.

(** The child left over takes the place of its parent. *)
Lemma collapse_ok p q h d y :
  pfx h q -> wf (p ++ q ++ [d]) y ->
  exists n', collapse h d y = ok n' /\ wf p n' /\ forall k w, bound n' k w <-> bound y k w.
Proof.
  intros Hp Hy. unfold collapse. destruct (is_leaf y) eqn:El.
  { destruct y; [|done..]. eexists. split_and!; [done|by eapply wf_weaken|done]. }
  inversion Hy as [|? qy ? Hs Hr Hpy Hk]; subst; [done|].
  destruct (minimum_path _ qy y Hs Hr Hpy Hk) as (k&v&_&_&Hlen&H31&_). rewrite !length_app in Hlen. cbn [length] in Hlen.
  destruct (concat_prefix_ok h d (hdr y) q qy Hp Hpy) as (h'&->&Hp'); [lia|]. cbn [res_bind ok].
  eexists. split_and!; [done| |].
  - apply (wf_inner p (q ++ d :: qy)); [by apply set_hdr_shape|by apply set_hdr_roomy|by rewrite set_hdr_hdr|].
    rewrite set_hdr_kidmap. intros c x Hc. specialize (Hk c x Hc).
    replace (p ++ (q ++ d :: qy) ++ [c]) with ((p ++ q ++ [d]) ++ qy ++ [c]); [done|]. by rewrite <-!app_assoc.
  - intros k' w. rewrite !bound_inner_iff, set_hdr_kidmap by (done || by apply set_hdr_shape). done.
Qed.

(** Taking out the leaf that is a child. *)
Lemma remove_leaf_ok p q n c i key v :
  shape n -> roomy n -> pfx (hdr n) q -> (forall c x, kidmap n !! c = Some x -> wf (p ++ q ++ [c]) x) ->
  child_slot n c = Some i -> kidmap n !! c = Some (leaf key v) ->
  exists n', remove_child n c i = ok n' /\ deleted p n key n'.
Proof.
  intros Hs Hr Hp Hk Hi Hc. pose proof (kidmap_byte _ _ _ Hs Hc) as Hbc.
  assert (Hkey : key !! (length p + length q)%nat = Some c).
  { by destruct (wf_kid p q n c _ key v Hk Hc (bound_leaf key v)). }
  assert (Hother : forall e y k w, e <> c -> kidmap n !! e = Some y -> bound y k w -> k <> key).
  { intros e y k w Hne He Hy ->. destruct (wf_kid p q n e y key w Hk He Hy) as [_ E]. congruence. }
  destruct (remove_child_ok n c i _ q Hs Hr Hbc Hi Hc Hp) as [(n'&->&Hs'&Hk'&Hp'&Hr')|(d&y&->&Hcd&Hbd&Hk')].
  - exists n'. split; [done|]. split.
    + apply (wf_inner p q); [done..|]. rewrite Hk'. intros e y [_ He]%lookup_delete_Some. auto.
    + intros k w. rewrite !bound_inner_iff, Hk' by done. split.
      * intros (e&y&[Hne He]%lookup_delete_Some&Hy). split; [by eapply Hother|by exists e, y].
      * intros (Hne&e&y&He&Hy). exists e, y. split; [|done]. apply lookup_delete_Some. split; [|done]. intros ->.
        rewrite Hc in He. simplify_eq. by apply bound_leaf_iff in Hy as [-> _].
  - assert (Hd : kidmap n !! d = Some y) by (rewrite Hk'; by simplify_map_eq).
    destruct (collapse_ok p q (hdr n) d y Hp (Hk d y Hd)) as (n'&->&Hw'&Hb'). exists n'. split; [done|]. split; [done|].
    intros k w. rewrite Hb', (bound_inner_iff n) by done. split.
    + intros Hy. split; [by eapply (Hother d)|by exists d, y].
    + intros (Hne&e&z&He&Hz). rewrite Hk' in He.
      apply lookup_insert_Some in He as [[<- <-]|[_ [<- <-]%lookup_singleton_Some]]; [|done].
      by apply bound_leaf_iff in Hz as [-> _].
Qed.

Lemma delete_below_inner f n key e c i x :
  key !! e = Some c -> find_child n c = Some (i, Some x) -> is_leaf x = false ->
  delete_below f n key e =
    let* (l, child) := recursive_delete f (Some x) key (S e) in
    match child with Some child => ok (l, Some (set_slot n i child)) | None => ok (l, Some n) end.
Proof. intros Hc Hf Hl. unfold delete_below, byte_at. rewrite Hc. cbn [res_bind ok]. rewrite Hf. by destruct x. Qed.

Lemma delete_child p q n c i x x' key :
  shape n -> roomy n -> pfx (hdr n) q -> (forall c x, kidmap n !! c = Some x -> wf (p ++ q ++ [c]) x) ->
  byte c -> child_slot n c = Some i -> kidmap n !! c = Some x -> key !! (length p + length q)%nat = Some c ->
  deleted (p ++ q ++ [c]) x key x' -> deleted p n key (set_slot n i x').
Proof.
  intros Hs Hr Hp Hk Hbc Hi Hc Hkc [Hw' Hb']. destruct (set_slot_spec n c i x x' Hs Hbc Hi Hc) as [Hs' Hk']. split.
  - eapply (wf_update p q n _ c x'); [done|by eapply set_slot_roomy|by rewrite set_slot_hdr|done..].
  - intros k w. rewrite (bound_update n _ c x'), Hb' by done. rewrite (bound_inner_iff n) by done. split.
    + intros [[Hne Hx]|(e&y&Hne&He&Hy)]; [split; [done|by exists c, x]|]. split; [|by exists e, y]. intros ->.
      destruct (wf_kid p q n e y key w Hk He Hy) as [_ E]. congruence.
    + intros (Hne&e&y&He&Hy). destruct (decide (e = c)) as [->|Hec]; [|right; by exists e, y].
      rewrite Hc in He. simplify_eq. by left.
Qed.

Lemma delete_found p n key v f :
  wf p n -> bound n key v -> (length key < length p + f)%nat ->
  exists o, recursive_delete f (Some n) key (length p) = ok (Some (key, v), o) /\
    match o with None => is_leaf n = true | Some n' => deleted p n key n' end.
Proof.
  intros Hw Hb. pose proof (wf_bound _ _ _ _ Hw Hb) as (_&Hbytes&_). revert f Hb.
  induction Hw as [p k w Hp Hf Hl|p q n Hs Hr Hp Hk IH]; intros f Hb Hlen.
  - apply bound_leaf_iff in Hb as [-> ->]. apply prefix_length in Hp. destruct f; [lia|]. simpl.
    rewrite (proj2 (leaf_matches_iff k k) eq_refl). by exists None.
  - apply (bound_inner_iff _ _ _ Hs) in Hb as (c&x&Hc&Hx). destruct (wf_kid p q n c x key v Hk Hc Hx) as [Hpq Hkc].
    pose proof (kidmap_byte _ _ _ Hs Hc) as Hbc.
    pose proof (prefix_length _ _ Hpq) as Hpl. rewrite length_app in Hpl. destruct f as [|f]; [lia|].
    destruct (delete_step f n q key (length p) Hs Hp) as [E|[_ []]]; [|by apply prefix_app_drop].
    rewrite E. destruct (find_child_some n c x Hs Hbc Hc) as (i&Ef&Hi&_). destruct (is_leaf x) eqn:El.
    + unfold delete_below, byte_at. rewrite Hkc. cbn [res_bind ok]. rewrite Ef. destruct x as [k w| | | |]; [|done..]. apply bound_leaf_iff in Hx as [-> ->].
      rewrite (proj2 (leaf_matches_iff k k) eq_refl).
      destruct (remove_leaf_ok p q n c i k w Hs Hr Hp Hk Hi Hc) as (n'&->&Hd). by exists (Some n').
    + specialize (IH c x Hc f Hx). rewrite !length_app in IH. cbn [length] in IH.
      replace (length p + (length q + 1))%nat with (S (length p + length q)) in IH by lia.
      destruct IH as (o&Eo&Ho); [lia|]. rewrite El in Ho.
      rewrite (delete_below_inner _ _ _ _ c i x) by done.
      rewrite Eo. cbn [res_bind ok]. destruct o as [x'|]; [|done]. eexists. split; [done|]. by eapply delete_child.
Qed.

Lemma set_slot_id n i x : slot_value n i = Some x -> set_slot n i x = n.
Proof.
  destruct n as [| h cs | h cs | h m keys cs | h m cs]; simpl; [done| | | |]; intros Hx; f_equal.
  1-2: destruct (cs !! i) as [[c y]|] eqn:E; [|done]; simpl in Hx; injection Hx as <-;
    rewrite <-(list_insert_id cs i (c, y) E) at 2; rewrite list_insert_alter; apply list_alter_ext; [|done];
    intros z Hz; rewrite E in Hz; by injection Hz as <-.
  - apply list_insert_id. destruct (cs !! i) as [o|]; [|done]. by cbn in Hx; subst.
  - apply list_insert_id. destruct (cs !! i) as [o|]; [|done]. by cbn in Hx; subst.
Qed.

(** A key that is not there: a deletion that ends leaves the tree as it was. *)
Lemma delete_absent p n key l o f d :
  wf p n -> Forall byte key -> (forall v, ~ bound n key v) -> recursive_delete f (Some n) key d = ok (l, o) ->
  l = None /\ o = Some n.
Proof.
  intros Hw Hbytes. revert f d l o. induction Hw as [p k w Hp Hf Hl|p q n Hs Hr Hp Hk IH]; intros [|f] d l o Hno Hr'; [done| |done|].
  - simpl in Hr'. rewrite leaf_matches_ne in Hr'; [by simplify_eq|]. intros ->. by apply (Hno w); constructor.
  - destruct (delete_step f n q key d Hs Hp) as [E|[E _]]; rewrite E in Hr'; [|by simplify_eq].
    destruct (key !! (d + length q)%nat) as [c|] eqn:Hkc; [|unfold delete_below, byte_at in Hr'; by rewrite Hkc in Hr'].
    pose proof (forall_byte_at _ _ _ Hbytes Hkc) as Hbc. destruct (kidmap n !! c) as [x|] eqn:Hc.
    + assert (Hnx : forall v, ~ bound x key v) by (intros v Hv; apply (Hno v); by eapply bound_kid).
      destruct (find_child_some n c x Hs Hbc Hc) as (i&Ef&Hi&Hsv). destruct (is_leaf x) eqn:El.
      * unfold delete_below, byte_at in Hr'. rewrite Hkc in Hr'. cbn [res_bind ok] in Hr'. rewrite Ef in Hr'.
        destruct x as [k w| | | |]; [|done..]. rewrite leaf_matches_ne in Hr'; [by simplify_eq|].
        intros ->. by apply (Hnx w); constructor.
      * rewrite (delete_below_inner _ _ _ _ c i x) in Hr' by done.
        apply res_bind_ok in Hr' as ([l' o']&Ex&Hr'). destruct (IH c x Hc f _ l' o' Hnx Ex) as [-> ->].
        unfold ok in Hr'. simplify_eq. by rewrite set_slot_id.
    + unfold delete_below, byte_at in Hr'. rewrite Hkc in Hr'. cbn [res_bind ok] in Hr'.
      rewrite find_child_none in Hr' by done. by simplify_eq.
Qed.

Lemma delete_safe p n key f :
  wf p n -> Forall byte key -> (forall k v, bound n k v -> (length k <= length key)%nat) -> (forall v, ~ bound n key v) ->
  (length key < length p + f)%nat -> recursive_delete f (Some n) key (length p) = ok (None, Some n).
Proof.
  intros Hw Hbytes Hmax Hno Hlen. cut (exists r, recursive_delete f (Some n) key (length p) = ok r).
  { intros [[l o] E]. destruct (delete_absent p n key l o f (length p) Hw Hbytes Hno E) as [-> ->]. done. }
  revert f Hmax Hno Hlen. induction Hw as [p k w Hp Hf Hl|p q n Hs Hr Hp Hk IH]; intros f Hmax Hno Hlen.
  - specialize (Hmax k w (bound_leaf k w)). apply prefix_length in Hp. destruct f; [lia|]. simpl. eauto.
  - assert (Hin : (length p + length q < length key)%nat).
    { destruct (roomy_kid n Hs Hr) as (c&x&Hc). destruct (wf_inhabited _ _ (Hk c x Hc)) as (k&v&Hx).
      destruct (wf_kid p q n c x k v Hk Hc Hx) as [_ Hkc]. apply lookup_lt_Some in Hkc.
      specialize (Hmax k v (bound_kid n c x k v Hc Hx)). lia. }
    destruct f as [|f]; [lia|]. destruct (delete_step f n q key (length p) Hs Hp) as [E|[E _]]; rewrite E; [|eauto].
    destruct (lookup_lt_is_Some_2 _ _ Hin) as [c Hkc]. pose proof (forall_byte_at _ _ _ Hbytes Hkc) as Hbc.
    destruct (kidmap n !! c) as [x|] eqn:Hc.
    + assert (Hnx : forall v, ~ bound x key v) by (intros v Hv; apply (Hno v); by eapply bound_kid).
      destruct (find_child_some n c x Hs Hbc Hc) as (i&Ef&Hi&Hsv). destruct (is_leaf x) eqn:El.
      * unfold delete_below, byte_at. rewrite Hkc. cbn [res_bind ok]. rewrite Ef.
        destruct x as [k w| | | |]; [|done..]. rewrite leaf_matches_ne; [eauto|].
        intros ->. by apply (Hnx w); constructor.
      * rewrite (delete_below_inner _ _ _ _ c i x) by done.
        specialize (IH c x Hc f). rewrite !length_app in IH. cbn [length] in IH.
        replace (length p + (length q + 1))%nat with (S (length p + length q)) in IH by lia.
        destruct IH as [[l o] Eo]; [intros k v Hx; apply (Hmax k v); by eapply bound_kid|done|lia|].
        rewrite Eo. cbn [res_bind ok]. destruct o; eauto.
    + unfold delete_below, byte_at. rewrite Hkc. cbn [res_bind ok]. rewrite find_child_none by done. eauto.
Qed.

End trees.
End ArtFacts.
