(* ===== verification/ArtMap.v ===== *)
(** * Refinement of the adaptive radix tree to finite maps

    A tree represents a finite map from keys to values ([repr]). Inserting,
    deleting and searching are the map's operations; inserting a key that
    extends a stored one, or that a stored one extends, reads past the end of a
    key, always and only then. So every tree reached by insertions and
    deletions is well-formed, whatever the keys. Iteration visits every binding
    once. *)

From Stdlib Require Import ZArith Lia Bool.
From stdpp Require Import base tactics option gmap list fin_maps.
From S2P Require Import Prelude Art ArtNode ArtFacts.

Open Scope Z_scope.

Module ArtMap.
Import Art ArtNode ArtFacts.

Section maps.
Context {V : Type}.
Implicit Types (n x : art_node V) (t : art_tree V) (p q k key : list Z) (v w : V) (m : gmap (list Z) V).

(** ** Keys in each other's way *)

Lemma apart_lookup k key i c c' :
  k !! i = Some c -> key !! i = Some c' -> c <> c' -> apart k key.
Proof.
  intros Hk Hkey Hne. split.
  - intros [r ->]. rewrite lookup_app_l in Hkey by (by eapply lookup_lt_Some). congruence.
  - intros [r ->]. rewrite lookup_app_l in Hk by (by eapply lookup_lt_Some). congruence.
Qed.

(** The keys of a tree are apart. *)
Lemma wf_apart p n k v k' v' : wf p n -> bound n k v -> bound n k' v' -> k = k' \/ apart k k'.
Proof.
  intros Hw. induction Hw as [p k0 w Hp Hf Hl|p q n Hs Hr Hp Hk IH].
  - intros [-> _]%bound_leaf_iff [-> _]%bound_leaf_iff. by left.
  - intros (c&x&Hc&Hx)%bound_inner_iff (c'&x'&Hc'&Hx')%bound_inner_iff; [|done..].
    destruct (decide (c = c')) as [<-|Hne]; [rewrite Hc in Hc'; simplify_eq; by eapply IH|]. right.
    destruct (wf_kid p q n c x k v Hk Hc Hx) as [_ E]. destruct (wf_kid p q n c' x' k' v' Hk Hc' Hx') as [_ E'].
    by eapply apart_lookup.
Qed.

(** A key in the way of a stored one. *)
Definition clashes key k : Prop := k <> key /\ (k `prefix_of` key \/ key `prefix_of` k).

Lemma clash_or_apart key k : k = key \/ apart k key \/ clashes key k.
Proof.
  destruct (decide (k = key)); [by left|]. right.
  destruct (decide (k `prefix_of` key)); [right; by split; [|left]|].
  destruct (decide (key `prefix_of` k)); [right; by split; [|right]|]. by left.
Qed.

Lemma prefix_cases_lookup k key i c : k `prefix_of` key \/ key `prefix_of` k -> (i < length key)%nat -> k !! i = Some c -> key !! i = Some c.
Proof.
  intros [[r ->]|[r ->]] Hi Hk; [|by rewrite lookup_app_l in Hk by done].
  by rewrite lookup_app_l by (by eapply lookup_lt_Some).
Qed.

Lemma insert_leaf_clash f p k0 w key v :
  p `prefix_of` k0 -> p `prefix_of` key -> clashes key k0 ->
  recursive_insert (S f) (Some (leaf k0 w)) key v (length p) = err Undef.
Proof.
  intros Hp0 Hp [Hne Hcl]. cbn [recursive_insert]. rewrite leaf_matches_ne by done. cbv zeta.
  set (r := longest_common_prefix k0 key (length p)).
  pose proof (prefix_length _ _ Hp0) as L0. pose proof (prefix_length _ _ Hp) as L1.
  assert (Hr : r = ((length k0 `min` length key) - length p)%nat).
  { unfold r, longest_common_prefix. set (a := fun i => k0 !! _). set (b := fun i => key !! _). set (s := (_ - _)%nat).
    destruct (scan_spec a b 0 s) as (H1&_&H3). destruct (decide (scan a b 0 s < 0 + s)%nat) as [Hlt|]; [|lia].
    exfalso. apply H3; [done|]. set (j := scan a b 0 s) in *. unfold a, b. set (i := (length p + j)%nat).
    destruct (lookup_lt_is_Some_2 k0 i) as [c Hc]; [unfold i, s in *; lia|]. rewrite Hc. symmetry.
    apply (prefix_cases_lookup k0); [done| |done]. unfold i, s in *. lia. }
  rewrite memcpy_ok by (cbn [partial no_prefix]; rewrite ?length_drop, ?length_replicate; lia).
  cbn [res_bind ok]. unfold byte_at.
  destruct (decide (length k0 <= length key)%nat) as [Hle|Hgt].
  - rewrite (lookup_ge_None_2 k0) by lia. done.
  - destruct (lookup_lt_is_Some_2 k0 (length p + r)) as [c ->]; [lia|]. cbn.
    by rewrite (lookup_ge_None_2 key) by lia.
Qed.

Lemma insert_clash p n key v f :
  wf p n -> p `prefix_of` key -> Forall byte key -> (exists k w, bound n k w /\ clashes key k) ->
  (length key < length p + f)%nat -> recursive_insert f (Some n) key v (length p) = err Undef.
Proof.
  intros Hw Hpk Hb. revert f Hpk. induction Hw as [p k0 w0 Hp Hf Hkl|p q n Hs Hr Hp Hk IH]; intros f Hpk (k&w&Hkw&Hcl) Hlen;
    pose proof (prefix_length _ _ Hpk) as Hpl; (destruct f as [|f]; [lia|]).
  { apply bound_leaf_iff in Hkw as [-> ->]. by apply insert_leaf_clash. }
  apply (bound_inner_iff _ _ _ Hs) in Hkw as (c&x&Hc&Hx). destruct (wf_kid p q n c x k w Hk Hc Hx) as [Hpq Hkc].
  rewrite insert_eq by done. cbv zeta. rewrite (pfx_plen _ _ Hp). pose proof Hp as (Hl&Hpl10&_).
  assert (Hbelow : (p ++ q) `prefix_of` key -> insert_below f n key v (length p + length q) = err Undef).
  { intros Hpre. pose proof (prefix_length _ _ Hpre) as Hlpq. rewrite length_app in Hlpq. unfold insert_below, byte_at.
    destruct (decide (length p + length q < length key)%nat) as [Hlt|]; [|by rewrite (lookup_ge_None_2 key) by lia].
    destruct Hcl as [Hne Hcl]. pose proof (prefix_cases_lookup k key _ c Hcl Hlt Hkc) as Hkeyc. rewrite Hkeyc. cbn [res_bind ok].
    destruct (find_child_some n c x Hs (forall_byte_at _ _ _ Hb Hkeyc) Hc) as (i&->&_).
    specialize (IH c x Hc f). rewrite !length_app in IH. cbn [length] in IH.
    replace (length p + (length q + 1))%nat with (S (length p + length q)) in IH by lia.
    rewrite IH; [done|by apply prefix_snoc|by exists k, w|lia]. }
  destruct (prefix_mismatch_ok p q n key Hs Hr Hp Hk Hpk) as (d&Ed&Hagree&Hdiff).
  destruct (decide (d < length q)%nat) as [Hd|Hd].
  - rewrite (proj2 (Z.eqb_neq _ _)) by lia. rewrite Ed. cbn [res_bind ok]. rewrite (proj2 (Nat.leb_gt _ _)) by done.
    rewrite memcpy_ok by (cbn [partial no_prefix]; rewrite ?length_replicate, ?Hpl10; lia). cbn [res_bind ok].
    destruct (shorten_prefix_ok p q n d Hs Hr Hp Hk Hd) as (e&h&->&_). cbn [res_bind ok]. cbn [add_child4 length Nat.ltb Nat.leb res_bind ok].
    unfold byte_at. destruct (key !! (length p + d)%nat) as [e'|] eqn:He'; [|done]. exfalso. apply Hdiff; [done|].
    rewrite <-(prefix_lookup p q k d) by done.
    destruct (lookup_lt_is_Some_2 k (length p + d)) as [e'' He'']; [apply lookup_lt_Some in Hkc; lia|].
    pose proof (prefix_cases_lookup k key _ e'' (proj2 Hcl) (lookup_lt_Some _ _ _ He') He'') as E. congruence.
  - assert (Hpre : (p ++ q) `prefix_of` key) by (apply prefix_by_lookup; [done|]; intros i Hi; apply Hagree; lia).
    destruct (Z.eqb_spec (partial_len (hdr n)) 0) as [Hz|Hz].
    + assert (length q = 0)%nat as E by lia. specialize (Hbelow Hpre). by rewrite E, Nat.add_0_r in Hbelow.
    + rewrite Ed. cbn [res_bind ok]. rewrite (proj2 (Nat.leb_le _ _)) by lia. auto.
Qed.

(** ** Trees and maps *)

Definition holds (o : option (art_node V)) m : Prop :=
  match o with
  | None => m = ∅
  | Some n => wf [] n /\ forall k v, m !! k = Some v <-> bound n k v
  end.

Definition repr t m : Prop := holds (root t) m /\ size_ t = u64 (Z.of_nat (size m)).

(** The keys the C interface can pass: bytes, a length that is an [int]. *)
Definition c_key key : Prop := Forall byte key /\ Z.of_nat (length key) < 2 ^ 31.

#[global] Instance c_key_dec key : Decision (c_key key) := _.

Lemma lookup_ext (a b : option V) : (forall v, a = Some v <-> b = Some v) -> a = b.
Proof. intros H. destruct a as [v|]; [symmetry; by apply H|]. destruct b as [v|]; [|done]. by apply H. Qed.

Lemma insert_holds o m key v :
  holds o m -> c_key key -> (forall k, is_Some (m !! k) -> ~ clashes key k) ->
  exists n, recursive_insert (turns key) o key v 0 = ok (m !! key, present (m !! key), n) /\ holds (Some n) (<[key := v]> m).
Proof.
  intros Ho [Hb Hl] Hno. destruct o as [n|].
  - destruct Ho as [Hw Hm]. destruct (insert_node_ok [] n key v (turns key) Hw) as (old&n'&E&Hw'&Hb'&Hold).
    { apply prefix_nil. }
    { done. }
    { done. }
    { intros k w Hk. apply Hm in Hk. destruct (clash_or_apart key k) as [|[|Hc]]; [by left|by right|].
      destruct (Hno k); eauto. }
    { unfold turns. simpl. lia. }
    assert (old = m !! key) as ->.
    { apply lookup_ext. intros w. by rewrite Hold, Hm. }
    exists n'. split; [exact E|]. split; [done|]. intros k w. rewrite lookup_insert_Some, Hb', Hm.
    split; (intros [[? ?]|[? ?]]; [left|right]; (split; [congruence|done])).
  - cbn in Ho. subst m. exists (make_leaf key v). split; [done|]. split; [by constructor; [apply prefix_nil|..]|].
    intros k w. unfold make_leaf. rewrite bound_leaf_iff, lookup_insert_Some, lookup_empty. naive_solver.
Qed.

Lemma size_after_insert t m key v :
  size_ t = u64 (Z.of_nat (size m)) ->
  (if present (m !! key) then size_ t else u64 (size_ t + 1)) = u64 (Z.of_nat (size (<[key := v]> m))).
Proof.
  intros Hs. destruct (m !! key) as [w|] eqn:E; simpl.
  - by rewrite map_size_insert_Some by eauto.
  - rewrite map_size_insert_None, Hs by done. unfold u64, wrap. rewrite Zplus_mod_idemp_l. f_equal. lia.
Qed.

Lemma art_insert_ok t m key v :
  repr t m -> c_key key -> (forall k, is_Some (m !! k) -> ~ clashes key k) ->
  exists t', art_insert t key v = ok (m !! key, t') /\ repr t' (<[key := v]> m).
Proof.
  intros [Hh Hs] Hk Hno. destruct (insert_holds _ m key v Hh Hk Hno) as (n&E&Hn). unfold art_insert. rewrite E.
  eexists. split; [done|]. split; [done|]. by apply size_after_insert.
Qed.

Lemma art_insert_clash t m key v k :
  repr t m -> c_key key -> is_Some (m !! k) -> clashes key k -> art_insert t key v = err Undef.
Proof.
  intros [Hh _] [Hb Hl] [w Hw] Hcl. unfold art_insert. destruct (root t) as [n|]; [|by cbn in Hh; subst m].
  destruct Hh as [Hwf Hm]. pose proof (insert_clash [] n key v (turns key) Hwf (prefix_nil _) Hb) as E.
  cbn [length] in E. rewrite E; [done| |unfold turns; simpl; lia]. exists k, w. by rewrite <-Hm.
Qed.

(** Either the key is there, or no stored key is longer. *)
Definition reaches m key : Prop := is_Some (m !! key) \/ forall k, is_Some (m !! k) -> (length k <= length key)%nat.

Lemma delete_holds o m key :
  holds o m -> Forall byte key -> reaches m key ->
  exists o', recursive_delete (turns key) o key 0 = ok (pair key <$> (m !! key), o') /\ holds o' (delete key m).
Proof.
  intros Ho Hb Hr. destruct o as [n|].
  2: { cbn in Ho. subst m. exists None. cbn. by rewrite delete_empty. }
  destruct Ho as [Hw Hm]. assert (Hf : (length key < length (A := Z) [] + turns key)%nat) by (unfold turns; simpl; lia).
  destruct (m !! key) as [v|] eqn:Hkey.
  - apply Hm in Hkey as Hbd. destruct (delete_found [] n key v (turns key) Hw Hbd Hf) as (o&E&Ho). exists o. split; [exact E|].
    destruct o as [n'|].
    + destruct Ho as [Hw' Hb']. split; [done|]. intros k w. rewrite lookup_delete_Some, Hb', Hm.
      split; intros [? ?]; (split; [congruence|done]).
    + destruct n as [k w| | | |]; [|done..]. cbn. apply map_eq. intros k'. rewrite lookup_empty.
      destruct (decide (key = k')) as [<-|Hne]; [by rewrite lookup_delete_eq|]. rewrite lookup_delete_ne by done.
      destruct (m !! k') as [w'|] eqn:E'; [|done]. apply Hm, bound_leaf_iff in E' as [-> _]. by apply bound_leaf_iff in Hbd as [-> _].
  - exists (Some n). split.
    + apply (delete_safe [] n key (turns key) Hw Hb); [|intros v Hv; apply Hm in Hv; congruence|done].
      intros k v Hk. apply Hm in Hk. destruct Hr as [[? ?]|Hr]; [congruence|]. apply Hr. eauto.
    + rewrite delete_id by done. done.
Qed.

Lemma art_delete_ok t m key :
  repr t m -> Forall byte key -> reaches m key ->
  exists t', art_delete t key = ok (m !! key, t') /\ repr t' (delete key m).
Proof.
  intros [Hh Hs] Hb Hr. destruct (delete_holds _ m key Hh Hb Hr) as (o&E&Ho). unfold art_delete. rewrite E. cbn [res_bind ok].
  destruct (m !! key) as [v|] eqn:Hkey; cbn [fmap option_fmap option_map]; eexists; (split; [done|]); (split; [done|]); cbn [size_].
  - rewrite map_size_delete_Some, Hs by eauto. assert (size m <> 0)%nat.
    { intros E0. apply map_size_empty_iff in E0. subst m. done. }
    unfold u64, wrap. rewrite Zminus_mod_idemp_l. f_equal. lia.
  - by rewrite delete_id.
Qed.

(** A deletion that ends did what the map's does. *)
Lemma art_delete_inv t m key r t' :
  repr t m -> Forall byte key -> art_delete t key = ok (r, t') -> r = m !! key /\ repr t' (delete key m).
Proof.
  intros Hrep Hb E. destruct (m !! key) as [v|] eqn:Hkey.
  { destruct (art_delete_ok t m key Hrep Hb (or_introl (mk_is_Some _ _ Hkey))) as (t''&E'&Hr'). rewrite E in E'.
    rewrite Hkey in E'. unfold ok in E'. simplify_eq. done. }
  destruct Hrep as [Hh Hs]. unfold art_delete in E. apply res_bind_ok in E as ([l o]&E&Er).
  assert (Ho : l = None /\ o = root t).
  { destruct (root t) as [n|]; [|by injection E as <- <-]. destruct Hh as [Hw Hm].
    apply (delete_absent [] n key l o (turns key) 0 Hw Hb); [|done]. intros v Hv. apply Hm in Hv. congruence. }
  destruct Ho as [-> ->]. unfold ok in Er. injection Er as <- <-. split; [done|]. rewrite delete_id by done. by split.
Qed.

Lemma art_insert_inv t m key v r t' :
  repr t m -> c_key key -> art_insert t key v = ok (r, t') -> r = m !! key /\ repr t' (<[key := v]> m).
Proof.
  intros Hrep Hk E. destruct (decide (map_Forall (fun k _ => ~ (k <> key /\ (k `prefix_of` key \/ key `prefix_of` k))) m)) as [Hno|Hcl].
  - destruct (art_insert_ok t m key v Hrep Hk) as (t''&E'&Hr').
    { intros k [w Hw]. by apply (Hno k w). }
    rewrite E in E'. unfold ok in E'. by simplify_eq.
  - apply map_not_Forall in Hcl as (k&w&Hkw&Hcl); [|apply _]. apply dec_stable in Hcl.
    rewrite (art_insert_clash t m key v k) in E by (done || eauto). done.
Qed.

Lemma art_search_ok t m key : repr t m -> Forall byte key -> reaches m key -> art_search t key = ok (m !! key).
Proof.
  intros [Hh _] Hb Hr. unfold art_search. destruct (root t) as [n|]; [|by cbn in Hh; subst m].
  destruct Hh as [Hw Hm]. assert (Hf : (length key < length (A := Z) [] + turns key)%nat) by (unfold turns; simpl; lia).
  destruct (m !! key) as [v|] eqn:Hkey.
  - apply Hm in Hkey. exact (search_found [] n key v (turns key) Hw Hkey Hf).
  - destruct (search_safe [] n key (turns key) Hw Hb) as [r E]; [|done|].
    { intros k v Hk. apply Hm in Hk. destruct Hr as [[? ?]|Hr]; [congruence|]. apply Hr. eauto. }
    cbn [length] in E. rewrite E. destruct r as [v|]; [|done]. exfalso.
    apply (search_sound [] n key v _ 0 Hw Hb), Hm in E. congruence.
Qed.

Lemma art_search_inv t m key r : repr t m -> Forall byte key -> art_search t key = ok r -> r = m !! key.
Proof.
  intros Hrep Hb E. destruct (m !! key) as [v|] eqn:Hkey.
  { rewrite (art_search_ok t m key Hrep Hb) in E by (left; eauto). rewrite Hkey in E. by injection E as <-. }
  destruct r as [v|]; [|done]. exfalso. destruct Hrep as [Hh _]. unfold art_search in E.
  destruct (root t) as [n|]; [|done]. destruct Hh as [Hw Hm]. apply (search_sound [] n key v _ 0 Hw Hb), Hm in E. congruence.
Qed.

Lemma init_repr : repr art_tree_init ∅.
Proof. by split. Qed.

(** ** Runs of insertions and deletions *)

Inductive op : Type := Insert (key : list Z) (value : V) | Delete (key : list Z).

Definition op_key (o : op) : list Z := match o with Insert k _ => k | Delete k => k end.

Definition step t (o : op) : res (art_tree V) :=
  match o with
  | Insert k v => let* (_, t) := art_insert t k v in ok t
  | Delete k => let* (_, t) := art_delete t k in ok t
  end.

Fixpoint run (ops : list op) t : res (art_tree V) :=
  match ops with [] => ok t | o :: ops => let* t := step t o in run ops t end.

(** The same run on the map. *)
Definition effect (o : op) m : gmap (list Z) V :=
  match o with Insert k v => <[k := v]> m | Delete k => delete k m end.

Definition effects (ops : list op) m : gmap (list Z) V := fold_left (fun m o => effect o m) ops m.

Lemma run_repr ops t m t' :
  Forall c_key (map op_key ops) -> repr t m -> run ops t = ok t' -> repr t' (effects ops m).
Proof.
  revert t m. induction ops as [|o ops IH]; intros t m Hk Hr E; [by injection E as <-|].
  apply Forall_cons in Hk as [Ho Hk]. apply res_bind_ok in E as (t1&E1&E). apply (IH t1); [done| |done].
  destruct o as [k v|k]; cbn in E1; apply res_bind_ok in E1 as ([r t2]&E1&E2); injection E2 as <-.
  - by destruct (art_insert_inv t m k v r t2 Hr Ho E1).
  - destruct Ho as [Hb _]. by destruct (art_delete_inv t m k r t2 Hr Hb E1).
Qed.

(** ** The operations refine those of the map *)

(** C28. Inserting a key none of whose proper prefixes or extensions is stored
    always succeeds, returns the value the key had before, and leaves a
    well-formed tree that represents the map with the key bound to the new
    value, its number of entries counted. *)
Theorem art_insert_refines t m key v :
  repr t m -> c_key key -> (forall k, is_Some (m !! k) -> ~ clashes key k) ->
  exists t', art_insert t key v = ok (m !! key, t') /\ repr t' (<[key := v]> m).
Proof. apply art_insert_ok. Qed.

(** C29. Deleting a key that is stored, or that no stored key exceeds in length,
    always succeeds, returns the value it had, and leaves a well-formed tree that
    represents the map without the key: nodes shrink, and a node left with one
    child is merged with it. *)
Theorem art_delete_refines t m key :
  repr t m -> Forall byte key -> reaches m key ->
  exists t', art_delete t key = ok (m !! key, t') /\ repr t' (delete key m).
Proof. apply art_delete_ok. Qed.

(** C30. Searching finds the value of every key stored, although a node keeps ten
    bytes of its prefix only; it finds nothing for a key that is not stored, and
    reads no byte past the end of a key that no stored key exceeds in length. *)
Theorem art_search_refines t m key : repr t m -> Forall byte key -> reaches m key -> art_search t key = ok (m !! key).
Proof. apply art_search_ok. Qed.

(** Whatever the key, an answer of the search is the map's. *)
Theorem art_search_never_wrong t m key r : repr t m -> Forall byte key -> art_search t key = ok r -> r = m !! key.
Proof. apply art_search_inv. Qed.

(** C31. Inserting a key reads past the end of a key if and only if a stored key
    is a proper prefix or a proper extension of it. *)
Theorem art_insert_overreads_iff t m key v :
  repr t m -> c_key key ->
  art_insert t key v = err Undef <-> exists k, is_Some (m !! k) /\ clashes key k.
Proof.
  intros Hr Hk. split.
  - intros E. destruct (decide (map_Forall (fun k _ => ~ (k <> key /\ (k `prefix_of` key \/ key `prefix_of` k))) m)) as [Hno|Hcl].
    + destruct (art_insert_ok t m key v Hr Hk) as (t'&E'&_); [|by rewrite E in E'].
      intros k [w Hw]. by apply (Hno k w).
    + apply map_not_Forall in Hcl as (k&w&Hkw&Hcl); [|apply _]. apply dec_stable in Hcl. exists k. split; [eauto|done].
  - intros (k&Hk'&Hcl). by eapply art_insert_clash.
Qed.

(** The nodes of a tree. *)
Inductive inside : art_node V -> art_node V -> Prop :=
| inside_refl n : inside n n
| inside_kid n c x y : kidmap n !! c = Some x -> inside x y -> inside n y.

(** The number of children each kind of node may have, and how it counts them. *)
Definition well_typed n : Prop :=
  match n with
  | leaf k _ => c_key k
  | node4 h cs => NoDup cs.*1 /\ (2 <= length cs <= 4)%nat
  | node16 h cs => NoDup cs.*1 /\ (4 <= length cs <= 16)%nat
  | node48 h m keys cs => m = Z.of_nat (size (kidmap n)) /\ 13 <= m <= 48
  | node256 h m cs => m = u8 (Z.of_nat (size (kidmap n))) /\ (38 <= size (kidmap n) <= 256)%nat
  end.

Lemma wf_well_typed p n : wf p n -> well_typed n.
Proof.
  intros Hw. inversion Hw as [? k v Hp Hb Hl|? q ? Hs Hr Hp Hk]; subst; [by split|].
  destruct n as [| h cs | h cs | h m keys cs | h m cs]; [done| | | |]; unfold roomy in Hr; cbn [well_typed].
  - destruct Hs as (Hd&_&Hl). unfold kidmap in Hr. rewrite assoc_size in Hr by done. cbn [kids] in Hr. split; [done|lia].
  - destruct Hs as (Hd&_&Hl). unfold kidmap in Hr. rewrite assoc_size in Hr by done. cbn [kids] in Hr. split; [done|lia].
  - pose proof (shape48_le _ _ _ _ Hs). destruct Hs as (_&_&Hm). split; [done|lia].
  - destruct Hs as (Hl&Hm). split; [done|]. rewrite size256 in * by done. pose proof (used_le cs). lia.
Qed.

Lemma inside_typed p n x : wf p n -> inside n x -> well_typed x.
Proof.
  intros Hw Hi. revert p Hw. induction Hi as [n|n c x y Hc Hy IH]; intros p Hw; [by eapply wf_well_typed|].
  inversion Hw as [? k v|? q ? Hs Hr Hp Hk]; subst; [by rewrite leaf_kidmap in Hc|]. by eapply IH, Hk.
Qed.

(** After any sequence of insertions and deletions in which no byte behind the end of a
    key is read, every node of the tree has a number of children its kind allows,
    counted modulo 256 in the largest, and distinct keys; and the tree represents the
    map the same operations make. Keys of which one is a prefix of another are left
    out with such reads: the zeros that lie behind the key of a stored leaf let the
    code go on with them, into nodes with two equal keys. *)
Theorem art_run_well_typed ops t :
  Forall c_key (map op_key ops) -> run ops art_tree_init = ok t ->
  repr t (effects ops ∅) /\ forall n x, root t = Some n -> inside n x -> well_typed x.
Proof.
  intros Hk E. pose proof (run_repr ops art_tree_init ∅ t Hk init_repr E) as Hr. split; [done|].
  intros n x En Hx. destruct Hr as [Hh _]. rewrite En in Hh. destruct Hh as [Hw _]. by eapply inside_typed.
Qed.

End maps.
Arguments op V : clear implicits.

(** ** Concrete trees *)

(** Eighteen keys that share twelve bytes. *)
Definition long_key (c : Z) : list Z := replicate 12 7 ++ [c; 0].
Definition long_ops : list (op Z) := map (fun c => Insert (long_key c) c) (seqZ 1 18).
Definition long_tree : art_tree Z := Eval vm_compute in match run long_ops art_tree_init with inr t => t | inl _ => art_tree_init end.
Definition long_map : gmap (list Z) Z := effects long_ops ∅.

Lemma long_c_keys : Forall c_key (map op_key long_ops).
Proof. apply (bool_decide_unpack _). vm_compute. exact I. Qed.

Lemma long_repr : repr long_tree long_map.
Proof.
  apply (run_repr long_ops art_tree_init ∅); [exact long_c_keys|apply init_repr|vm_compute; reflexivity].
Qed.

Lemma long_long_keys : map_Forall (fun k _ => length k = 14%nat) long_map.
Proof. apply (bool_decide_unpack _). vm_compute. exact I. Qed.

Lemma art_insert_refines_witness :
  exists t, art_insert long_tree (long_key 200) 5 = ok (None, t) /\ repr t (<[long_key 200 := 5]> long_map).
Proof.
  apply (art_insert_refines long_tree long_map (long_key 200) 5).
  - exact long_repr.
  - split; [|done]. by repeat constructor.
  - intros k [w Hk] [Hne Hcl]. apply long_long_keys in Hk. apply Hne. destruct Hcl as [Hcl|Hcl].
    + apply prefix_length_eq; [done|]. rewrite Hk. done.
    + symmetry. apply prefix_length_eq; [done|]. rewrite Hk. done.
Defined.

Lemma art_delete_refines_witness :
  exists t, art_delete long_tree (long_key 3) = ok (Some 3, t) /\ repr t (delete (long_key 3) long_map).
Proof.
  apply (art_delete_refines long_tree long_map (long_key 3)).
  - exact long_repr.
  - by repeat constructor.
  - left. vm_compute. eauto.
Defined.

Lemma art_search_refines_witness : art_search long_tree (long_key 3) = ok (Some 3).
Proof.
  apply (art_search_refines long_tree long_map (long_key 3)).
  - exact long_repr.
  - by repeat constructor.
  - left. vm_compute. eauto.
Defined.

Lemma art_insert_overreads_iff_witness :
  art_insert long_tree (replicate 12 7) 1 = err Undef.
Proof.
  apply (art_insert_overreads_iff long_tree long_map (replicate 12 7) 1).
  - exact long_repr.
  - split; [|done]. by repeat constructor.
  - exists (long_key 3). split; [vm_compute; eauto|]. split; [done|]. right. by exists [3; 0].
Defined.

Lemma art_run_well_typed_witness :
  repr long_tree long_map /\ forall n x, root long_tree = Some n -> inside n x -> well_typed x.
Proof.
  apply (art_run_well_typed long_ops long_tree).
  - exact long_c_keys.
  - vm_compute. reflexivity.
Defined.

End ArtMap.
