(* ===== verification/ArtIter.v ===== *)
(** * Iterating over the adaptive radix tree and destroying it

    [art_iter] calls its callback for the leaves, in order, until it returns
    non-zero; in a well-formed tree these are the bindings of the map, each
    once. [art_iter_prefix], the order of the leaves and [art_tree_destroy] fall
    short of what their comments say; examples show how. *)

From Stdlib Require Import ZArith Lia Bool.
From stdpp Require Import base tactics option gmap list fin_maps.
From S2P Require Import Prelude Art ArtNode ArtFacts ArtMap.

Open Scope Z_scope.

Module ArtIter.
Import Art ArtNode ArtFacts ArtMap.

(** ** Induction over nodes whose children are in lists *)
Section induction.
Context {V : Type} (P : art_node V -> Prop).

Definition P_opt (o : option (art_node V)) : Prop := match o with Some x => P x | None => True end.

Hypothesis P_leaf : forall k v, P (leaf k v).
Hypothesis P_node4 : forall h cs, Forall (fun p => P p.2) cs -> P (node4 h cs).
Hypothesis P_node16 : forall h cs, Forall (fun p => P p.2) cs -> P (node16 h cs).
Hypothesis P_node48 : forall h m keys cs, Forall P_opt cs -> P (node48 h m keys cs).
Hypothesis P_node256 : forall h m cs, Forall P_opt cs -> P (node256 h m cs).

Fixpoint node_ind (n : art_node V) : P n :=
  let fix pairs (cs : list (Z * art_node V)) : Forall (fun p => P p.2) cs :=
    match cs with [] => Forall_nil_2 _ | p :: cs => Forall_cons_2 _ p _ (node_ind p.2) (pairs cs) end in
  let fix slots (cs : list (option (art_node V))) : Forall P_opt cs :=
    match cs with
    | [] => Forall_nil_2 _
    | o :: cs =>
        Forall_cons_2 _ o _ (match o return P_opt o with Some x => node_ind x | None => I end) (slots cs)
    end in
  match n with
  | leaf k v => P_leaf k v
  | node4 h cs => P_node4 h cs (pairs cs)
  | node16 h cs => P_node16 h cs (pairs cs)
  | node48 h m keys cs => P_node48 h m keys cs (slots cs)
  | node256 h m cs => P_node256 h m cs (slots cs)
  end.
End induction.

(** ** The leaves, in the order of the nodes *)
Section leaves.
Context {V : Type}.
Implicit Types (n x : art_node V).

Fixpoint leaves n : list (list Z * V) :=
  match n with
  | leaf k v => [(k, v)]
  | node4 _ cs | node16 _ cs => concat (map (fun p => leaves p.2) cs)
  | node48 _ _ keys cs => concat (runs48 keys (map (fun o => match o with Some x => leaves x | None => [] end) cs))
  | node256 _ _ cs => concat (map (fun o => match o with Some x => leaves x | None => [] end) cs)
  end.

Section callback.
Context {W : Type} (cb : W -> list Z -> V -> Z * W).

(** The loop over a list of leaves. *)
Definition visit (ls : list (list Z * V)) (s : W) : Z * W := until_nonzero (map (fun l s => cb s l.1 l.2) ls) s.

Lemma until_app (a b : list (W -> Z * W)) s :
  until_nonzero (a ++ b) s = let '(r, s) := until_nonzero a s in if r =? 0 then until_nonzero b s else (r, s).
Proof.
  revert s. induction a as [|f a IH]; intros s; simpl; [done|]. destruct (f s) as [r s']. destruct (r =? 0) eqn:E; [by rewrite IH|].
  by rewrite E.
Qed.

Lemma until_concat (runs : list (W -> Z * W)) (lss : list (list (list Z * V))) :
  Forall2 (fun f ls => forall s, f s = visit ls s) runs lss -> forall s, until_nonzero runs s = visit (concat lss) s.
Proof.
  induction 1 as [|f ls runs lss Hf H IH]; intros s; [done|]. unfold visit in *. simpl. rewrite map_app, until_app, Hf.
  destruct (until_nonzero _ s) as [r s']. destruct (r =? 0); [apply IH|done].
Qed.

Lemma runs48_Forall2 {A B} (R : A -> B -> Prop) keys (l : list A) (k : list B) :
  Forall2 R l k -> Forall2 R (runs48 keys l) (runs48 keys k).
Proof.
  intros H. induction keys as [|i keys IH]; [constructor|]. unfold runs48 in *. cbn [omap list_omap].
  destruct (i =? 0); [done|]. pose proof (Forall2_lookup R l k) as [HL _]. specialize (HL H (Z.to_nat (i - 1))).
  destruct HL; [by constructor|done].
Qed.

Lemma Forall2_maps {A B C} (R : B -> C -> Prop) (f : A -> B) (g : A -> C) (l : list A) :
  Forall (fun a => R (f a) (g a)) l -> Forall2 R (map f l) (map g l).
Proof. induction 1; simpl; by constructor. Qed.

Lemma iter_visits n s : recursive_iter cb n s = visit (leaves n) s.
Proof.
  revert s. induction n as [k v|h cs IH|h cs IH|h m keys cs IH|h m cs IH] using node_ind; intros s.
  - unfold visit. simpl. destruct (cb s k v) as [r s']. destruct (Z.eqb_spec r 0) as [->|]; done.
  - apply until_concat, Forall2_maps. done.
  - apply until_concat, Forall2_maps. done.
  - apply until_concat, runs48_Forall2, Forall2_maps. eapply Forall_impl; [exact IH|]. by intros [x|] H s'; [apply H|].
  - apply until_concat, Forall2_maps. eapply Forall_impl; [exact IH|]. by intros [x|] H s'; [apply H|].
Qed.
End callback.

(** ** The leaves of a well-formed tree are its bindings, each once *)

Lemma omap_index {A B} (g : A -> option B) (l : list A) :
  forall l0 : list A, omap (fun i => a ← (l0 ++ l) !! i; g a) (seq (length l0) (length l)) = omap g l.
Proof.
  induction l as [|a l IH]; intros l0; [done|]. cbn [length seq omap list_omap]. rewrite list_lookup_middle by done.
  specialize (IH (l0 ++ [a])). rewrite <-app_assoc, length_app, Nat.add_1_r in IH. cbn [app] in IH.
  cbn [mbind option_bind]. destruct (g a); [f_equal|]; exact IH.
Qed.

Lemma concat_omap {A B} (f : A -> option (list B)) (l : list A) : concat (omap f l) = concat (map (fun a => default [] (f a)) l).
Proof. induction l as [|a l IH]; [done|]. cbn [omap list_omap]. simpl. destruct (f a); simpl; by rewrite IH. Qed.

Lemma concat_table {A B} (f : nat -> option A) (g : A -> list B) :
  concat (map (fun p => g p.2) (table f)) = concat (map (fun i => default [] (g <$> f i)) (seq 0 256)).
Proof.
  rewrite table_eq. generalize (seq 0 256) as l. induction l as [|i l IH]; [done|]. cbn [omap list_omap].
  destruct (f i) as [a|] eqn:E; cbn [mbind option_bind map concat]; rewrite E; [exact (f_equal (app (g a)) IH)|exact IH].
Qed.

Lemma concat_index {A B} (g : A -> list B) (l : list A) :
  length l = 256%nat -> concat (map (fun i => default [] (g <$> l !! i)) (seq 0 256)) = concat (map g l).
Proof.
  intros Hl. transitivity (concat (omap (fun i => a ← l !! i; Some (g a)) (seq 0 256))).
  - rewrite concat_omap. done.
  - pose proof (omap_index (fun a => Some (g a)) l []) as E. cbn [app length] in E. rewrite Hl in E.
    rewrite E, concat_omap. done.
Qed.

Lemma leaves_kids n : shape n -> leaves n = concat (map (fun p => leaves p.2) (kids n)).
Proof.
  destruct n as [k v|h cs|h cs|h m keys cs|h m cs]; intros Hs; [done|done|done| |].
  - destruct Hs as ([H1 H2 H3 H4]&_). cbn [kids leaves]. unfold entries48. rewrite concat_table. unfold runs48. rewrite concat_omap.
    rewrite <-(concat_index _ keys H1). f_equal. apply map_ext_in. intros i Hi.
    destruct (keys !! i) as [k|] eqn:Hk; [|done]. cbn [fmap option_fmap option_map mbind option_bind default].
    unfold child48. destruct (Z.eqb_spec k 0) as [|Hz]; [done|]. change (map ?f cs) with (f <$> cs). rewrite list_lookup_fmap.
    by destruct (cs !! Z.to_nat (k - 1)) as [[y|]|].
  - destruct Hs as [Hl _]. cbn [kids leaves]. rewrite concat_table, <-(concat_index _ cs Hl). f_equal. apply map_ext. intros i.
    by destruct (cs !! i) as [[y|]|].
Qed.

Lemma elem_kids n c x : shape n -> (c, x) ∈ kids n <-> kidmap n !! c = Some x.
Proof.
  intros Hs. pose proof (kids_nodup n Hs) as Hd. unfold kidmap, assoc. split.
  - by apply elem_of_list_to_map.
  - by apply elem_of_list_to_map_2.
Qed.

Lemma elem_concat {A} (a : A) (ls : list (list A)) : a ∈ concat ls <-> exists l, l ∈ ls /\ a ∈ l.
Proof. rewrite list_elem_of_In, in_concat. setoid_rewrite list_elem_of_In. done. Qed.

Lemma elem_leaves p n k v : wf p n -> (k, v) ∈ leaves n <-> bound n k v.
Proof.
  intros Hw. induction Hw as [p k' w Hp Hf Hl|p q n Hs Hr Hp Hk IH].
  - simpl. rewrite list_elem_of_singleton, bound_leaf_iff. naive_solver.
  - rewrite leaves_kids, bound_inner_iff, elem_concat by done. split.
    + intros (l&Hl&Hin). apply list_elem_of_In, in_map_iff in Hl as ([c x]&<-&Hcx). apply list_elem_of_In, elem_kids in Hcx; [|done].
      exists c, x. split; [done|]. by apply (IH c x).
    + intros (c&x&Hc&Hx). exists (leaves x). split; [|by apply (IH c x)].
      apply list_elem_of_In, in_map_iff. exists (c, x). split; [done|]. by apply list_elem_of_In, elem_kids.
Qed.

Lemma nodup_leaves p n : wf p n -> NoDup (leaves n).*1.
Proof.
  intros Hw. induction Hw as [p k' w Hp Hf Hl|p q n Hs Hr Hp Hk IH]; [apply NoDup_singleton|].
  rewrite leaves_kids by done. pose proof (kids_nodup n Hs) as Hd.
  assert (Hall : forall c x, (c, x) ∈ kids n -> wf (p ++ q ++ [c]) x /\ NoDup (leaves x).*1).
  { intros c x Hin. apply elem_kids in Hin; [|done]. eauto. }
  clear Hs Hr Hp Hk IH. induction (kids n) as [|[c x] cs IHcs]; [by apply NoDup_nil|].
  cbn [map concat fmap list_fmap] in *. apply NoDup_cons in Hd as [Hc Hd]. rewrite fmap_app. apply NoDup_app. split_and!.
  - apply (Hall c x). left.
  - intros k Hk1 Hk2. apply list_elem_of_fmap in Hk1 as ([k1 v1]&->&Hk1). apply list_elem_of_fmap in Hk2 as ([k2 v2]&E&Hk2).
    simpl in E. subst k2. apply elem_concat in Hk2 as (l&Hl&Hk2). apply list_elem_of_In, in_map_iff in Hl as ([d y]&<-&Hdy).
    apply list_elem_of_In in Hdy. destruct (Hall c x) as [Hwx _]; [left|]. destruct (Hall d y) as [Hwy _]; [by right|].
    apply (elem_leaves _ _ _ _ Hwx) in Hk1. apply (elem_leaves _ _ _ _ Hwy) in Hk2.
    destruct (wf_bound _ _ _ _ Hwx Hk1) as (Hp1&_). destruct (wf_bound _ _ _ _ Hwy Hk2) as (Hp2&_).
    rewrite app_assoc in Hp1, Hp2. apply prefix_snoc_inv in Hp1, Hp2. rewrite Hp1 in Hp2. simplify_eq.
    apply Hc. apply list_elem_of_fmap. by exists (d, y).
  - apply IHcs; [done|]. intros d y Hdy. apply Hall. by right.
Qed.

(** The leaves of a tree. *)
Definition entries (t : art_tree V) : list (list Z * V) := match root t with Some n => leaves n | None => [] end.

(** Iteration calls the callback for the leaves of the tree one after the
    other, each with the state the last call left, and stops at the first call
    that returns non-zero, returning that; the leaves are the bindings of the
    map the tree represents, each once. *)
Theorem art_iter_visits_map {W} (cb : W -> list Z -> V -> Z * W) (t : art_tree V) (m : gmap (list Z) V) s :
  repr t m -> art_iter cb t s = visit cb (entries t) s /\ entries t ≡ₚ map_to_list m.
Proof.
  intros [Hh _]. unfold art_iter, entries. destruct (root t) as [n|].
  - split; [apply iter_visits|]. destruct Hh as [Hw Hm]. apply NoDup_Permutation.
    + eapply NoDup_fmap_1. by eapply nodup_leaves.
    + apply NoDup_map_to_list.
    + intros [k v]. by rewrite elem_of_map_to_list, (elem_leaves [] n), Hm.
  - cbn in Hh. subst m. by rewrite map_to_list_empty.
Qed.
End leaves.

Definition record (s : list (list Z)) (k : list Z) (v : Z) : Z * list (list Z) := (0, k :: s).

Lemma art_iter_visits_map_witness :
  art_iter record long_tree [] = visit record (entries long_tree) [] /\ entries long_tree ≡ₚ map_to_list long_map.
Proof. apply (art_iter_visits_map record long_tree long_map []). exact long_repr. Defined.

(** ** Shortcomings *)

Definition tree_of (ks : list (list Z)) : art_tree Z :=
  match run (map (fun k => Insert k (Z.of_nat (length k))) ks) art_tree_init with inr t => t | inl _ => art_tree_init end.

(** Sixteen keys are compared as signed bytes: a byte of 128 or more is inserted
    before the smaller ones, and the minimum of the tree is not the smallest
    key. *)
Theorem minimum_not_smallest :
  let t := tree_of (map (fun c => [c; 0]) [1; 2; 3; 4; 5; 200]) in
  art_minimum t = ok (Some ([200; 0], 2)) /\ art_search t [1; 0] = ok (Some 2).
Proof. vm_compute. done. Qed.

(** A prefix that leaves the prefix of a node after its first byte is followed
    all the same: the iteration reads the byte at the depth of the children, and
    reports nothing or reads past the prefix's end. *)
Theorem iter_prefix_overreads :
  art_iter_prefix record (tree_of [[1; 2; 3; 4; 5; 0]; [1; 2; 3; 4; 6; 0]]) [1; 9] [] = err Undef.
Proof. vm_compute. done. Qed.

(** Destroying a node with 48 children looks at as many slots as it has children
    although they need not be the first: of twenty entries in the last slots
    none is freed. *)
Definition sparse : art_tree Z :=
  match run (map (fun c => Insert [c; 0] c) (seqZ 0 48) ++ map (fun c => Delete [c; 0]) (seqZ 0 28)) art_tree_init with
  | inr t => t | inl _ => art_tree_init
  end.

Theorem destroy_leaks : art_size sparse = 20 /\ length (entries sparse) = 20%nat /\ length (art_tree_destroy sparse) = 1%nat.
Proof. vm_compute. done. Qed.

(** Searching a key with the first ten bytes of a longer prefix reads past the
    key's end. *)
Theorem search_overreads : art_search (tree_of [long_key 1; long_key 2]) (replicate 11 7) = err Undef.
Proof. vm_compute. done. Qed.

End ArtIter.
