(* ===== verification/Gslb.v ===== *)
(** * DNS

    Models [alpha/al_dns.c], the records of domain names in an adaptive radix
    tree ([Art]; module [Dns]), and [alpha/al_gslb_process.c], the answers to DNS
    queries (module [Gslb]), which fills the argument [al_gslb_process] of
    [Dataplane]. Locks and log messages are left out. What follows the write
    through [margs.data], a pointer that is never set, has no defined behaviour
    and is not modelled. *)

From Stdlib Require Import ZArith Lia Bool.
From stdpp Require Import base tactics option gmap list.
From S2P Require Import Prelude Checksum Tuple5 AlSession Process Table Member Group Radix Prefix Router Filter Hosts Dataplane.
From S2P Require Import Art ArtNode ArtFacts ArtMap.

Open Scope Z_scope.

(** ** The records *)
Module Dns.
Import Art.

Record al_dns_record := mk_record { gid : Z; dnsid : Z }.

(** [g_dns], and the table of groups a deletion reaches. *)
Record dns := mk { g_dns : art_tree al_dns_record; g_groups : Table.table Group.al_group }.

Definition al_dns_init (groups : Table.table Group.al_group) : dns := mk art_tree_init groups.

(** [mem] says whether [al_calloc] returns memory. The record of a domain
    already there is lost. *)
Definition al_dns_insert (mem : bool) (d : list Z) (gid_ dnsid_ : Z) : st dns Z := fun s =>
  if negb mem then (ok (-1), s) else
  match art_insert (g_dns s) d (mk_record gid_ dnsid_) with
  | inl e => (err e, s)
  | inr (_, t) => (ok (-1), s <| g_dns := t |>)
  end.

(** The result code and what [*g] is set to. *)
Definition al_dns_lookup (t : art_tree al_dns_record) (d : list Z) : res (Z * option al_dns_record) :=
  let* ptr := art_search t d in
  ok (match ptr with Some r => (0, Some r) | None => (-1, None) end).

Definition al_dns_delete (d : list Z) : st dns Z := fun s =>
  match art_delete (g_dns s) d with
  | inl e => (err e, s)
  | inr (None, t) => (ok (-1), s <| g_dns := t |>)
  | inr (Some r, t) =>
      let '(rc, g) := Group.al_group_delete (dnsid r) (gid r) (g_groups s) in
      match rc with
      | inl e => (err e, mk t g)
      | inr _ => (ok (-1), mk t g)
      end
  end.
End Dns.

(** ** Queries *)
Module Gslb.
Import Process Art Dns.

Definition DOMAIN_MAX_LEN : nat := 255.
Definition DNS_Q_A : Z := 1.
Definition DNS_Q_AAAA : Z := 28.
Definition DNS_Q_CLASS_IN : Z := 1.

(** [dns_parse_name]: the place behind the name and what is in the buffer. A
    turn of the loop moves on by a byte at least, so the length of the segment is
    fuel enough. *)
Fixpoint dns_parse_name (fuel : nat) (query : nat) (c : Z) (b : list Z) : st packet (option (nat * list Z)) :=
  match fuel with
  | O => st_throw Undef
  | S fuel =>
      do n <- load query 1 ;;
      let n := byte_of n in
      do _ <- store query [c] ;;
      let query := S query in
      if Z.land n 192 =? 192 then st_ret None
      else if Z.of_nat (length b) <? n then st_ret None
      else
        let b := (if (length b =? 0)%nat then b else b ++ [46]) ++ replicate (Z.to_nat n) 46 in
        if (DOMAIN_MAX_LEN <? length b)%nat then st_throw Undef
        else
          let query := (query + Z.to_nat n)%nat in
          do next <- load query 1 ;;
          if byte_of next =? 0 then st_ret (Some (S query, b)) else dns_parse_name fuel query n b
  end.

Definition fuel_of (p : packet) : nat := match p with q :: _ => S (length (Chksum.seg_data q)) | [] => 1%nat end.

Section Answers.
Context (domains : art_tree al_dns_record) (regions : Geoip.geoip) (stale : list Z).

(** [al_geoip_find] or [al_geoip6_find] for the source of the packet. *)
Definition region_of (v6 : bool) (hdr : nat) : st packet (option Z) :=
  if v6 then do src <- load (hdr + 8) 16 ;; st_lift (fst (Geoip.al_geoip6_find stale src regions))
  else do src <- load (hdr + 12) 4 ;; st_lift (fst (Geoip.al_geoip_find src regions)).

(** [al_gslb_process] up to [END]: the value of [is_tokni] there. The flags are
    kept in the byte order of the host from then on; the number of questions
    is compared as it is. *)
Definition answer (hdr nextptr : nat) : st packet bool :=
  let dnshdr := (nextptr + 8)%nat in
  do et <- load 12 2 ;;
  let etype := be16 et in
  do flag <- load (dnshdr + 2) 2 ;;
  do _ <- store (dnshdr + 2) (reverse flag) ;;
  let flag := be16 flag in
  let qr := Z.testbit flag 15 in
  let opcode := Z.land (Z.shiftr flag 11) 15 in
  if negb qr then st_ret true
  else
    let unimplemented := do _ <- store (dnshdr + 6) (word16 0) ;; st_ret false in
    do qdcount <- load (dnshdr + 4) 2 ;;
    if negb (word_of qdcount =? 1) then unimplemented
    else if negb (opcode =? 0) then unimplemented
    else
      do p <- st_get ;;
      do parsed <- dns_parse_name (fuel_of p) (dnshdr + 12) 0 [] ;;
      match parsed with
      | None => st_ret true
      | Some (qry, d) =>
          do type <- load qry 2 ;;
          let query_type := u8 (be16 type) in
          if negb (query_type =? DNS_Q_A) && negb (query_type =? DNS_Q_AAAA) then unimplemented
          else if negb (query_type =? DNS_Q_CLASS_IN) then unimplemented
          else
            do (rc, dr) <- st_lift (al_dns_lookup domains d) ;;
            if negb (rc =? 0) then st_ret true
            else
              let located (v6 : bool) :=
                do vid <- region_of v6 hdr ;;
                match vid with None => st_ret true | Some _ => st_throw Undef end in
              if etype =? Dataplane.ETHER_TYPE_IPv4 then located false
              else if etype =? Dataplane.ETHER_TYPE_IPv6 then located true
              else st_ret true
      end.

Definition al_gslb_process (m : Dataplane.mbuf) (hdr nextptr : nat) : st Dataplane.world unit :=
  match answer hdr nextptr (Dataplane.pkt m) with
  | (inl e, _) => st_throw e
  | (inr is_tokni, p) => Dataplane.send_to_switch (Dataplane.m_port m) (m <| Dataplane.pkt := p |>) is_tokni
  end.
End Answers.
End Gslb.

(** ** Lemmas *)
Module GslbFacts.
Import Process ProcessFacts Art ArtNode ArtFacts ArtMap Dns Gslb.

(** A packet with the fields of a DNS header in its first segment. *)
Definition dns_room (g : Chksum.segment) (nextptr : nat) : Prop := (nextptr + 20 <= length (Chksum.seg_data g))%nat /\ (12 <= nextptr)%nat.

(** The flags of a header as they came in. *)
Definition flags (g : Chksum.segment) (nextptr : nat) : Z := be16 (slice (nextptr + 10) 2 (Chksum.seg_data g)).

Lemma length_slice off n (l : list Z) : (off + n <= length l)%nat -> length (slice off n l) = n.
Proof. intros H. unfold slice. rewrite length_take, length_drop. lia. Qed.

(** The flags with their bytes exchanged. *)
Definition swapped (g : Chksum.segment) (nextptr : nat) : Chksum.segment :=
  ProcessFacts.write g (nextptr + 10) (reverse (slice (nextptr + 10) 2 (Chksum.seg_data g))).

Lemma answer_query domains regions stale hdr nextptr g next :
  dns_room g nextptr -> Z.testbit (flags g nextptr) 15 = false ->
  answer domains regions stale hdr nextptr (g :: next) = (ok true, swapped g nextptr :: next).
Proof.
  intros [Hl Hn] Hq. unfold answer. replace (nextptr + 8 + 2)%nat with (nextptr + 10)%nat by lia.
  rewrite bind_load by lia. rewrite bind_load by lia.
  rewrite bind_store by (rewrite length_reverse, length_slice; lia).
  fold (flags g nextptr). rewrite Hq. cbn [negb]. reflexivity.
Qed.

(** What comes out after a store of the number of answers. *)
Definition no_answers (nextptr : nat) (p : packet) : Prop :=
  exists g next, p = g :: next /\ slice (nextptr + 14) 2 (Chksum.seg_data g) = [0; 0].

Lemma store_inv off bs p u p' :
  store off bs p = (inr u, p') ->
  exists g next, p = g :: next /\ (off + length bs <= length (Chksum.seg_data g))%nat /\ p' = ProcessFacts.write g off bs :: next.
Proof.
  unfold store, on_first. destruct p as [|g next]; [done|].
  destruct (Nat.leb_spec (off + length bs) (length (Chksum.seg_data g))); [|done]. intros [= <- <-]. by exists g, next.
Qed.

Lemma unimplemented_none nextptr p p' :
  st_bind (store (nextptr + 8 + 6) (word16 0)) (fun _ => st_ret false) p = (inr false, p') -> no_answers nextptr p'.
Proof.
  unfold st_bind. destruct (store _ _ p) as [[e|u] p1] eqn:E; [done|]. intros [= <-].
  replace (nextptr + 8 + 6)%nat with (nextptr + 14)%nat in E by lia.
  apply store_inv in E as (g & next & -> & Hl & ->). exists (ProcessFacts.write g (nextptr + 14) (word16 0)), next.
  split; [done|]. rewrite seg_data_write. by apply slice_poke_same.
Qed.

(** Every way through [answer] that ends with a packet for the switch. *)
Lemma answer_no_answers domains regions stale hdr nextptr p p' :
  answer domains regions stale hdr nextptr p = (inr false, p') -> no_answers nextptr p'.
Proof.
  intros H. unfold answer in H.
  repeat match type of H with
  | st_bind (store (nextptr + 8 + 6) _) _ _ = _ => by apply unimplemented_none in H
  | st_bind ?c ?k ?q = _ =>
      let E := fresh "E" in
      unfold st_bind at 1 in H; destruct (c q) as [[?|?] ?] eqn:E; [discriminate H|]; clear E
  | (if ?b then _ else _) _ = _ => destruct b
  | (match ?x with _ => _ end) _ = _ => destruct x
  | st_ret true _ = _ => discriminate H
  | st_throw _ _ = _ => discriminate H
  end.
Qed.

#[export] Instance gslb_disposes domains regions stale m hdr nx :
  DataplaneFacts.Disposes (al_gslb_process domains regions stale m hdr nx) (fun _ => [Dataplane.m_id m]).
Proof.
  unfold al_gslb_process. destruct (answer _ _ _ _ _ _) as [[e|k] p]; [apply DataplaneFacts.throw_disposes|].
  destruct m as [i q port u]. apply (DataplaneFacts.switch_disposes port (Dataplane.mk_mbuf i p port u) k).
Qed.
End GslbFacts.

(** ** Properties *)
Section Properties.
Import Process Art ArtNode ArtFacts ArtMap Dns Gslb GslbFacts.

(** A domain added to the records is found from then on, with its group, as
    long as it neither extends nor is extended by another one; the records of
    the others stay. The result code is that of a failure all the same. *)
Theorem dns_insert_then_lookup (s : dns) (m : gmap (list Z) al_dns_record) d g i :
  repr (g_dns s) m -> c_key d -> (forall k, is_Some (m !! k) -> ~ clashes d k) ->
  exists s', al_dns_insert true d g i s = (ok (-1), s') /\ g_groups s' = g_groups s /\
    repr (g_dns s') (<[d := mk_record g i]> m) /\
    (forall k, k = d \/ is_Some (m !! k) ->
      al_dns_lookup (g_dns s') k = ok (0, (<[d := mk_record g i]> m) !! k)).
Proof.
  intros Hr Hk Hno. destruct (art_insert_ok (g_dns s) m d (mk_record g i) Hr Hk Hno) as (t & E & Hr').
  exists (s <| g_dns := t |>). unfold al_dns_insert. cbn [negb]. rewrite E. destruct s as [t0 G].
  split_and!; [done..|]. intros k Hin. unfold al_dns_lookup. cbn [g_dns].
  assert (Hpres : is_Some ((<[d := mk_record g i]> m) !! k)).
  { destruct Hin as [->|[r Hk']]; [rewrite lookup_insert_eq; eauto|].
    destruct (decide (d = k)) as [->|]; [rewrite lookup_insert_eq; eauto|]. rewrite lookup_insert_ne by done. eauto. }
  assert (Hb : Forall byte k).
  { destruct Hpres as [r Hp]. destruct Hr' as [Hh _]. cbn in Hh. destruct (root t) as [n|]; [|by rewrite Hh in Hp].
    destruct Hh as [Hw Hm]. apply Hm in Hp. by destruct (wf_bound [] n k r Hw Hp) as (_&?&_). }
  change (art_search (field_update (field := g_dns) (fun _ => t) (mk t0 G)).(g_dns) k) with (art_search t k).
  rewrite (art_search_ok t _ k Hr' Hb) by (by left). by destruct Hpres as [r ->].
Qed.

(** Deleting a record deletes the domain and the group of its record, and reports
    a failure. *)
Theorem dns_delete_removes (s : dns) (m : gmap (list Z) al_dns_record) d r rc G :
  repr (g_dns s) m -> m !! d = Some r -> Forall byte d ->
  Group.al_group_delete (dnsid r) (gid r) (g_groups s) = (inr rc, G) ->
  exists t, al_dns_delete d s = (ok (-1), mk t G) /\ repr t (delete d m).
Proof.
  intros Hr Hd Hb HG. destruct (art_delete_ok (g_dns s) m d Hr Hb) as (t & E & Hr'); [left; eauto|].
  exists t. unfold al_dns_delete. rewrite E, Hd. cbv beta iota delta [ok]. by rewrite HG.
Qed.

(** C32. A DNS query is never answered: a packet whose header says query ([qr] is
    zero) goes to the kernel, whatever the records are, with the two bytes of its
    flags exchanged and nothing else changed. *)
Theorem gslb_passes_queries_on (domains : art_tree al_dns_record) regions stale (m : Dataplane.mbuf) hdr nextptr g next (w : Dataplane.world) :
  Dataplane.pkt m = g :: next -> dns_room g nextptr -> Z.testbit (flags g nextptr) 15 = false ->
  al_gslb_process domains regions stale m hdr nextptr w =
    (ok tt, w <| Dataplane.log := Dataplane.log w ++
      [Dataplane.ToSwitch (Dataplane.m_port m) true (m <| Dataplane.pkt := swapped g nextptr :: next |>)] |>).
Proof.
  intros Hp Hr Hq. unfold al_gslb_process. by rewrite Hp, answer_query.
Qed.

(** With these answers in place [al_main_process] still disposes of every buffer
    once, ICMPv6 packets apart. *)
Theorem burst_with_gslb domains regions stale (env : Dataplane.context) (due : bool) q from type ms (w w' : Dataplane.world) r :
  Dataplane.al_gslb_process env = al_gslb_process domains regions stale ->
  Dataplane.al_main_process env due q ms from type w = (r, w') ->
  exists l, Dataplane.log w' = Dataplane.log w ++ l /\ DataplaneFacts.ids l ⊆+ concat (map DataplaneFacts.owed ms) /\
    (r = ok tt -> DataplaneFacts.ids l ≡ₚ concat (map DataplaneFacts.owed ms)).
Proof.
  intros Hg. apply DataplaneFacts.main_process_disposes. intros m hdr nx. rewrite Hg. apply gslb_disposes.
Qed.

(** Other packets are not answered either: what goes back to the switch says it
    has no answers. *)
Theorem gslb_sends_no_answer (domains : art_tree al_dns_record) regions stale (m m' : Dataplane.mbuf) hdr nextptr q (w w' : Dataplane.world) :
  al_gslb_process domains regions stale m hdr nextptr w = (inr tt, w') ->
  Dataplane.log w' = Dataplane.log w ++ [Dataplane.ToSwitch q false m'] -> no_answers nextptr (Dataplane.pkt m').
Proof.
  unfold al_gslb_process. destruct (answer _ _ _ _ _ _) as [[e|k] p] eqn:E; [done|].
  unfold Dataplane.send_to_switch, Dataplane.emit, st_modify. intros [= <-]. destruct w, m. cbn. intros H.
  apply app_inv_head in H. injection H as _ -> <-. cbn. by eapply answer_no_answers.
Qed.
End Properties.

(** ** Witnesses *)
Section Witnesses.
Import Process Art ArtNode ArtFacts ArtMap Dns Gslb GslbFacts.

(** "www.aware.cn" and "mail.aware.cn" as bytes. *)
Definition www : list Z := [119; 119; 119; 46; 97; 119; 97; 114; 101; 46; 99; 110].
Definition mail : list Z := [109; 97; 105; 108; 46; 97; 119; 97; 114; 101; 46; 99; 110].

Definition empty_groups : Table.table Group.al_group := snd (Table.init 0%nat).
Definition www_tree : art_tree al_dns_record := mk_tree (Some (leaf www (mk_record 7 1))) 1.

Lemma www_repr : repr www_tree {[ www := mk_record 7 1 ]}.
Proof.
  split; [|by rewrite map_size_singleton]. split.
  - constructor; [apply prefix_nil|by repeat constructor|done].
  - intros k v. rewrite bound_leaf_iff, lookup_singleton_Some. naive_solver.
Qed.

Lemma dns_insert_then_lookup_witness :
  exists s', al_dns_insert true mail 8 2 (mk www_tree empty_groups) = (ok (-1), s')
    /\ al_dns_lookup (g_dns s') mail = ok (0, Some (mk_record 8 2)) /\ al_dns_lookup (g_dns s') www = ok (0, Some (mk_record 7 1)).
Proof.
  destruct (dns_insert_then_lookup (mk www_tree empty_groups) {[ www := mk_record 7 1 ]} mail 8 2) as (s' & E & _ & _ & H).
  - exact www_repr.
  - split; [by repeat constructor|done].
  - intros k [v [<- _]%lookup_singleton_Some] [_ [[r E]|[r E]]]; discriminate E.
  - exists s'. split_and!; [exact E| |].
    + apply (H mail). by left.
    + apply (H www). right. exists (mk_record 7 1). reflexivity.
Defined.

(** A query for "www", its header behind Ethernet, IPv4 and UDP. *)
Definition query_segment : Chksum.segment :=
  {| Chksum.seg_odd := false;
     Chksum.seg_data := repeat 1 12 ++ [8; 0] ++ [69] ++ repeat 0 19 ++ repeat 0 8
       ++ [18; 52; 1; 0; 0; 1; 0; 0; 0; 0; 0; 0; 3; 119; 119; 119; 0; 0; 1; 0; 1] |}.
Definition no_regions : Geoip.geoip :=
  let none := Prefix.mk (Radix.start []) (Radix.mk_head Radix.NULL Radix.NULL Radix.NULL) ∅ in
  match Geoip.al_geoip_init [] with Some G => G | None => Geoip.mk_geoip none none end.

Lemma gslb_passes_queries_on_witness :
  exists w, al_gslb_process www_tree no_regions [] (Dataplane.mk_mbuf 1 [query_segment] 0 0) 14 34 plain_world = (ok tt, w).
Proof.
  eexists. apply (gslb_passes_queries_on www_tree no_regions [] (Dataplane.mk_mbuf 1 [query_segment] 0 0) 14 34 query_segment []).
  - reflexivity.
  - vm_compute. split; repeat constructor.
  - vm_compute. reflexivity.
Defined.

End Witnesses.
