(* ===== verification/Slab.v ===== *)
(** * The slab allocator

    Models [alpha/al_slab.c], the allocator behind [al_malloc], [al_calloc] and
    [al_free] of [alpha/al_mempool.c]. The cells that describe pages, the heads of
    the lists of partly used pages ([slots]) and the head of the list of free
    pages have the same type and point to one another, so they live in one heap;
    [prev] keeps a type in its two low bits, which the model keeps apart. Addresses
    are those of the C program. The memory handed out is not modelled, but for
    the bitmaps in the pages of small chunks. The pool's lock is left out. *)

From Stdlib Require Import ZArith Lia Bool.
From stdpp Require Import base tactics option gmap list countable.
From S2P Require Import Prelude.

Open Scope Z_scope.

Module Slab.

Definition PAGESIZE : Z := 4096.

Definition AL_SLAB_PAGE : Z := 0.
Definition AL_SLAB_BIG : Z := 1.
Definition AL_SLAB_EXACT : Z := 2.
Definition AL_SLAB_SMALL : Z := 3.

Definition AL_SLAB_PAGE_FREE : Z := 0.
Definition AL_SLAB_PAGE_BUSY : Z := 2 ^ 64 - 1.
Definition AL_SLAB_PAGE_START : Z := 2 ^ 63.
Definition AL_SLAB_SHIFT_MASK : Z := 15.
Definition AL_SLAB_MAP_MASK : Z := 2 ^ 64 - 2 ^ 32.
Definition AL_SLAB_MAP_SHIFT : Z := 32.
Definition AL_SLAB_BUSY : Z := 2 ^ 64 - 1.

(** Pointers to cells: null, [&pool->free], [&slots[i]], [&pool->pages[i]]. *)
Inductive ptr := Null | Free | Slot (i : nat) | Page (i : nat).

#[export] Instance ptr_eq_dec : EqDecision ptr.
Proof. solve_decision. Defined.

Definition ptr_code (p : ptr) : option (option (nat + nat)) :=
  match p with Null => None | Free => Some None | Slot i => Some (Some (inl i)) | Page i => Some (Some (inr i)) end.
Definition ptr_decode (c : option (option (nat + nat))) : ptr :=
  match c with None => Null | Some None => Free | Some (Some (inl i)) => Slot i | Some (Some (inr i)) => Page i end.
#[export] Instance ptr_countable : Countable ptr.
Proof. refine (inj_countable' ptr_code ptr_decode _). by intros []. Defined.

(** [al_slab_page_t]; [prev] and [tag] are the two parts of its field [prev]. *)
Record cell := mk_cell { slab : Z; next : ptr; prev : ptr; tag : Z }.

Record stat := mk_stat { total : Z; used : Z; reqs : Z; fails : Z }.

(** [al_slab_pool_t] with what its pointers lead to: the cells, the number of
    pages ([last - pages]), the bitmaps of pages of small chunks. *)
Record pool := mk_pool {
  min_size : Z; min_shift : Z; cells : gmap ptr cell; last : nat;
  stats : list stat; pfree : Z; start : Z; end_ : Z; bitmaps : gmap nat (list Z) }.

(** *** Access *)
Definition get (p : ptr) : st pool cell := fun s =>
  match cells s !! p with Some c => (ok c, s) | None => (err Undef, s) end.
Definition put (p : ptr) (c : cell) : st pool unit := fun s =>
  match cells s !! p with Some _ => (ok tt, s <| cells := <[p := c]> (cells s) |>) | None => (err Undef, s) end.
Definition set_slab (p : ptr) (z : Z) : st pool unit := do c <- get p ;; put p (c <| slab := z |>).
Definition set_next (p q : ptr) : st pool unit := do c <- get p ;; put p (c <| next := q |>).
Definition set_prev (p q : ptr) (t : Z) : st pool unit := do c <- get p ;; put p (c <| prev := q |> <| tag := t |>).

(** [&page[k]], and the index of a page. *)
Definition off (p : ptr) (k : Z) : st pool ptr :=
  match p with Page i => if 0 <=? Z.of_nat i + k then st_ret (Page (Z.to_nat (Z.of_nat i + k))) else st_throw Undef | _ => st_throw Undef end.
Definition index (p : ptr) : st pool nat := match p with Page i => st_ret i | _ => st_throw Undef end.

Definition stat_at (i : nat) (f : stat -> stat) : st pool unit := fun s =>
  match stats s !! i with
  | Some x => (ok tt, s <| stats := <[i := f x]> (stats s) |>)
  | None => (err Undef, s)
  end.

(** *** Numbers *)

(** [for (n = ...; n >>= 1; shift++)]: by how much [shift] grows. *)
Fixpoint halvings (fuel : nat) (n : Z) : Z :=
  match fuel with
  | O => 0
  | S fuel => let n := Z.shiftr n 1 in if n =? 0 then 0 else 1 + halvings fuel n
  end.

(** What [al_slab_init] computes once; a [uintptr_t] has eight bytes. *)
Definition al_slab_max_size : Z := PAGESIZE / 2.
Definition al_slab_exact_size : Z := PAGESIZE / (8 * 8).
Definition al_slab_exact_shift : Z := halvings 64 al_slab_exact_size.
Definition al_pagesize_shift : Z := halvings 64 PAGESIZE.

(** [al_slab_page_addr] *)
Definition page_addr (s : pool) (i : nat) : Z := Z.shiftl (Z.of_nat i) al_pagesize_shift + start s.

(** *** Initialisation *)
Definition align_ptr (p a : Z) : Z := Z.ldiff (p + (a - 1)) (a - 1).

(** The pool at [base], of which [sizeof_pool] is the size of its header, as
    [AL_SLAB_HEAD_INIT] sets it up: [min_shift] is 6. A cell takes 24 bytes and
    the statistics of a slot 32. *)
Definition al_slab_init (sizeof_pool base len : Z) : res pool :=
  let min_shift_ := 6 in
  let e := base + len in
  let p := base + sizeof_pool in
  let size := e - p in
  let n := al_pagesize_shift - min_shift_ in
  let p := p + n * 24 in
  let p := p + n * 32 in
  let size := size - n * (24 + 32) in
  let pages := size / (PAGESIZE + 24) in
  let start_ := align_ptr (p + pages * 24) PAGESIZE in
  let m := pages - (e - start_) / PAGESIZE in
  let last_ := if 0 <? m then pages - m else pages in
  if (pages <=? 0) || (last_ <? 0) then err Undef else
  let slots := map (fun i => (Slot i, mk_cell 0 (Slot i) Null 0)) (seq 0 (Z.to_nat n)) in
  let others := map (fun i => (Page i, mk_cell 0 Null Null 0)) (seq 1 (Z.to_nat pages - 1)) in
  let cells_ := list_to_map ((Free, mk_cell 0 (Page 0) Null 0) :: (Page 0, mk_cell last_ Free Free 0) :: slots ++ others) in
  ok (mk_pool (Z.shiftl 1 min_shift_) min_shift_ cells_ (Z.to_nat last_)
        (repeat (mk_stat 0 0 0 0) (Z.to_nat n)) last_ start_ e ∅).

(** *** Pages *)

(** The cells from [p] on, one after the other, as one run of assignments or one
    [memset] leaves them. *)
Definition fill (z : Z) := fix fill (n : nat) (p : ptr) : st pool unit :=
  match n with
  | O => st_ret tt
  | S n =>
      do _ <- put p (mk_cell z Null Null AL_SLAB_PAGE) ;;
      do p <- (match n with O => st_ret p | _ => off p 1 end) ;;
      fill n p
  end.

(** [p->slab = AL_SLAB_PAGE_BUSY; ...] for the pages behind the first. *)
Definition mark_busy (n : nat) (p : ptr) : st pool unit := fill AL_SLAB_PAGE_BUSY n p.

(** [page->prev] cast to a pointer: the low bits have to be zero. *)
Definition untagged_prev (c : cell) : st pool ptr := if tag c =? 0 then st_ret (prev c) else st_throw Undef.

(** The body of the loop of [al_slab_alloc_pages], for a run that is long enough. *)
Definition take_pages (page : ptr) (pages : Z) : st pool unit :=
  do c <- get page ;;
  do _ <- (if pages <? slab c then
             do l <- off page (slab c - 1) ;;
             do r <- off page pages ;;
             do _ <- set_prev l r 0 ;;
             do _ <- set_slab r (slab c - pages) ;;
             do _ <- set_next r (next c) ;;
             do _ <- set_prev r (prev c) (tag c) ;;
             do p <- untagged_prev c ;;
             do _ <- set_next p r ;;
             set_prev (next c) r 0
           else
             do p <- untagged_prev c ;;
             do _ <- set_next p (next c) ;;
             set_prev (next c) (prev c) (tag c)) ;;
  do _ <- put page (mk_cell (Z.lor pages AL_SLAB_PAGE_START) Null Null AL_SLAB_PAGE) ;;
  do _ <- st_modify (fun s => s <| pfree := u64 (pfree s - pages) |>) ;;
  if pages =? 1 then st_ret tt else
  do p <- off page 1 ;; mark_busy (Z.to_nat (pages - 1)) p.

(** The walk over the free runs; none is visited twice, so the number of cells is
    fuel enough. *)
Fixpoint find_pages (fuel : nat) (page : ptr) (pages : Z) : st pool (option ptr) :=
  match fuel with
  | O => st_throw Undef
  | S fuel =>
      if bool_decide (page = Free) then st_ret None else
      do c <- get page ;;
      if pages <=? slab c then do _ <- take_pages page pages ;; st_ret (Some page)
      else find_pages fuel (next c) pages
  end.

Definition al_slab_alloc_pages (pages : Z) : st pool (option ptr) :=
  do f <- get Free ;;
  do s <- st_get ;;
  find_pages (S (size (cells s))) (next f) pages.

(** [prev->next = page->next; page->next->prev = page->prev;] *)
Definition unlink (page : ptr) : st pool unit :=
  do c <- get page ;;
  do _ <- set_next (prev c) (next c) ;;
  do c <- get page ;;
  set_prev (next c) (prev c) (tag c).

(** [memset] of the cells behind the first. *)
Definition clear_cells (n : nat) (p : ptr) : st pool unit := fill 0 n p.

(** A free run at [join] is taken out of the list and forgotten. *)
Definition forget (p : ptr) : st pool unit := put p (mk_cell AL_SLAB_PAGE_FREE Null Null AL_SLAB_PAGE).

(** The run behind: the number of further pages, which grows. *)
Definition join_next (page : ptr) (pages : Z) : st pool Z :=
  do s <- st_get ;;
  do c <- get page ;;
  do i <- index page ;;
  let j := Z.of_nat i + slab c in
  if Z.of_nat (last s) <=? j then st_ret pages else
  let join := Page (Z.to_nat j) in
  do d <- get join ;;
  if negb (tag d =? AL_SLAB_PAGE) || bool_decide (next d = Null) then st_ret pages else
  do _ <- set_slab page (u64 (slab c + slab d)) ;;
  do _ <- unlink join ;;
  do _ <- forget join ;;
  st_ret (pages + slab d).

(** The run in front: the page the joined run starts at. *)
Definition join_prev (page : ptr) (pages : Z) : st pool (ptr * Z) :=
  do i <- index page ;;
  match i with
  | O => st_ret (page, pages)
  | S i =>
      let join := Page i in
      do d <- get join ;;
      if negb (tag d =? AL_SLAB_PAGE) then st_ret (page, pages) else
      let join := if slab d =? AL_SLAB_PAGE_FREE then prev d else join in
      do d <- get join ;;
      if bool_decide (next d = Null) then st_ret (page, pages) else
      do c <- get page ;;
      do _ <- set_slab join (u64 (slab d + slab c)) ;;
      do _ <- unlink join ;;
      do _ <- forget page ;;
      st_ret (join, pages + slab d)
  end.

Definition al_slab_free_pages (page : ptr) (pages : Z) : st pool unit :=
  do _ <- st_modify (fun s => s <| pfree := u64 (pfree s + pages) |>) ;;
  do _ <- set_slab page pages ;;
  let pages := pages - 1 in
  do _ <- (if pages =? 0 then st_ret tt else do p <- off page 1 ;; clear_cells (Z.to_nat pages) p) ;;
  do c <- get page ;;
  do _ <- (if bool_decide (next c = Null) then st_ret tt else unlink page) ;;
  do pages <- join_next page pages ;;
  do (page, pages) <- join_prev page pages ;;
  do _ <- (if pages =? 0 then st_ret tt else do l <- off page pages ;; set_prev l page 0) ;;
  do _ <- set_prev page Free 0 ;;
  do f <- get Free ;;
  do _ <- set_next page (next f) ;;
  do _ <- set_prev (next f) page 0 ;;
  set_next Free page.

(** *** Chunks *)

(** [for (m = 1, i = 0; m; m <<= 1, i++) if (!(word & m)) ...]: the first clear bit
    from bit [b + i] on, with [n] bits to look at. *)
Fixpoint first_clear (n : nat) (word b i : Z) : option Z :=
  match n with
  | O => None
  | S n => if Z.testbit word (b + i) then first_clear n word b (i + 1) else Some i
  end.

(** Full pages leave the list of their slot and keep their type only. *)
Definition retire (page : ptr) (t : Z) : st pool unit :=
  do _ <- unlink page ;;
  do c <- get page ;;
  put page (c <| next := Null |> <| prev := Null |> <| tag := t |>).

(** The words of the bitmap of a page of small chunks. *)
Definition bitmap (i : nat) : st pool (list Z) := fun s =>
  match bitmaps s !! i with Some b => (ok b, s) | None => (err Undef, s) end.
Definition set_bitmap (i : nat) (b : list Z) : st pool unit := st_modify (fun s => s <| bitmaps := <[i := b]> (bitmaps s) |>).

Definition map_words (shift : Z) : Z := Z.shiftr PAGESIZE shift / (8 * 8).
Definition map_chunks (shift : Z) : Z :=
  let n := Z.shiftr PAGESIZE shift / (Z.shiftl 1 shift * 8) in if n =? 0 then 1 else n.

(** The word with a clear bit, and the bit. *)
Fixpoint first_clear_word (n : Z) (words : list Z) : option (Z * Z) :=
  match words with
  | [] => None
  | w :: words =>
      if w =? AL_SLAB_BUSY then first_clear_word (n + 1) words
      else match first_clear 64 w 0 0 with Some i => Some (n, i) | None => first_clear_word (n + 1) words end
  end.

Definition use_stat (slot : nat) : st pool unit := stat_at slot (fun x => x <| used := u64 (used x + 1) |>).

(** A chunk of a page in the list of its slot: its address, [None] when the page
    has no chunk left. *)
Definition alloc_small (page : ptr) (shift : Z) (slot : nat) : st pool (option Z) :=
  do j <- index page ;;
  do s <- st_get ;;
  do b <- bitmap j ;;
  let map := map_words shift in
  match first_clear_word 0 (take (Z.to_nat map) b) with
  | None => st_ret None
  | Some (n, i) =>
      let w := Z.lor (nth (Z.to_nat n) b 0) (Z.shiftl 1 i) in
      let b := <[Z.to_nat n := w]> b in
      do _ <- set_bitmap j b ;;
      let p := page_addr s j + Z.shiftl (n * 64 + i) shift in
      do _ <- use_stat slot ;;
      do _ <- (if (w =? AL_SLAB_BUSY) && forallb (Z.eqb AL_SLAB_BUSY) (drop (S (Z.to_nat n)) (take (Z.to_nat map) b))
               then retire page AL_SLAB_SMALL else st_ret tt) ;;
      st_ret (Some p)
  end.

Definition alloc_exact (page : ptr) (shift : Z) (slot : nat) : st pool (option Z) :=
  do j <- index page ;;
  do s <- st_get ;;
  do c <- get page ;;
  match first_clear 64 (slab c) 0 0 with
  | None => st_ret None
  | Some i =>
      let w := Z.lor (slab c) (Z.shiftl 1 i) in
      do _ <- set_slab page w ;;
      do _ <- (if w =? AL_SLAB_BUSY then retire page AL_SLAB_EXACT else st_ret tt) ;;
      do _ <- use_stat slot ;;
      st_ret (Some (page_addr s j + Z.shiftl i shift))
  end.

Definition big_mask (shift : Z) : Z := Z.shiftl (Z.shiftl 1 (Z.shiftr PAGESIZE shift) - 1) AL_SLAB_MAP_SHIFT.

Definition alloc_big (page : ptr) (shift : Z) (slot : nat) : st pool (option Z) :=
  do j <- index page ;;
  do s <- st_get ;;
  do c <- get page ;;
  match first_clear (Z.to_nat (Z.shiftr PAGESIZE shift)) (slab c) AL_SLAB_MAP_SHIFT 0 with
  | None => st_ret None
  | Some i =>
      let w := Z.lor (slab c) (Z.shiftl 1 (AL_SLAB_MAP_SHIFT + i)) in
      do _ <- set_slab page w ;;
      do _ <- (if Z.land w AL_SLAB_MAP_MASK =? big_mask shift then retire page AL_SLAB_BIG else st_ret tt) ;;
      do _ <- use_stat slot ;;
      st_ret (Some (page_addr s j + Z.shiftl i shift))
  end.

(** The first chunk of a page just allocated: the address, and how many chunks
    the page adds to the statistics. *)
Definition open_page (page : ptr) (shift : Z) (slot : nat) : st pool Z :=
  do j <- index page ;;
  do s <- st_get ;;
  let link t w :=
    do _ <- put page (mk_cell w (Slot slot) (Slot slot) t) ;;
    set_next (Slot slot) page in
  let count k := stat_at slot (fun x => x <| total := u64 (total x + k) |> <| used := u64 (used x + 1) |>) in
  if shift <? al_slab_exact_shift then
    let n := map_chunks shift in
    do _ <- set_bitmap j ((Z.shiftl 2 n - 1) :: repeat 0 (Z.to_nat (map_words shift) - 1)) ;;
    do _ <- link AL_SLAB_SMALL shift ;;
    do _ <- count (Z.shiftr PAGESIZE shift - n) ;;
    st_ret (page_addr s j + Z.shiftl n shift)
  else if shift =? al_slab_exact_shift then
    do _ <- link AL_SLAB_EXACT 1 ;;
    do _ <- count (8 * 8) ;;
    st_ret (page_addr s j)
  else
    do _ <- link AL_SLAB_BIG (Z.lor (Z.shiftl 1 AL_SLAB_MAP_SHIFT) shift) ;;
    do _ <- count (Z.shiftr PAGESIZE shift) ;;
    st_ret (page_addr s j).

(** The size class of a request. *)
Definition class_of (s : pool) (size : Z) : Z * Z :=
  if min_size s <? size then
    let shift := 1 + halvings 64 (size - 1) in (shift, shift - min_shift s)
  else (min_shift s, 0).

(** [al_slab_alloc_locked]: the address, 0 for none. *)
Definition al_slab_alloc_locked (size : Z) : st pool Z :=
  do s <- st_get ;;
  if al_slab_max_size <? size then
    do page <- al_slab_alloc_pages (Z.shiftr size al_pagesize_shift + if size mod PAGESIZE =? 0 then 0 else 1) ;;
    match page with
    | Some page => do j <- index page ;; do s <- st_get ;; st_ret (page_addr s j)
    | None => st_ret 0
    end
  else
    let '(shift, slot) := class_of s size in
    let slot := Z.to_nat slot in
    do _ <- stat_at slot (fun x => x <| reqs := u64 (reqs x + 1) |>) ;;
    do head <- get (Slot slot) ;;
    let page := next head in
    do c <- get page ;;
    do r <- (if bool_decide (next c = page) then st_ret None
             else if shift <? al_slab_exact_shift then alloc_small page shift slot
             else if shift =? al_slab_exact_shift then alloc_exact page shift slot
             else alloc_big page shift slot) ;;
    match r with
    | Some p => st_ret p
    | None =>
        do page <- al_slab_alloc_pages 1 ;;
        match page with
        | Some page => open_page page shift slot
        | None => do _ <- stat_at slot (fun x => x <| fails := u64 (fails x + 1) |>) ;; st_ret 0
        end
    end.

(** With the memory that is set to zero. *)
Definition al_slab_calloc_locked (size : Z) : st pool (Z * option (Z * Z)) :=
  do p <- al_slab_alloc_locked size ;;
  st_ret (p, if p =? 0 then None else Some (p, size)).

(** *** Giving chunks back *)

(** A full page goes back to the front of the list of its slot. *)
Definition relink (page : ptr) (slot : nat) (t : Z) : st pool unit :=
  do head <- get (Slot slot) ;;
  do _ <- set_next page (next head) ;;
  do _ <- set_next (Slot slot) page ;;
  do _ <- set_prev page (Slot slot) t ;;
  do c <- get page ;;
  set_prev (next c) page t.

(** [done:], after the page was given back or not. *)
Definition unuse (slot : nat) (gone : option Z) : st pool unit :=
  stat_at slot (fun x =>
    let x := match gone with Some k => x <| total := u64 (total x - k) |> | None => x end in
    x <| used := u64 (used x - 1) |>).

Definition free_small (page : ptr) (j : nat) (p : Z) : st pool unit :=
  do s <- st_get ;;
  do c <- get page ;;
  let shift := Z.land (slab c) AL_SLAB_SHIFT_MASK in
  let size := Z.shiftl 1 shift in
  if negb (Z.land p (size - 1) =? 0) then st_ret tt else
  let n := Z.shiftr (Z.land p (PAGESIZE - 1)) shift in
  let bit := n mod 64 in
  let word := Z.to_nat (n / 64) in
  do b <- bitmap j ;;
  if negb (Z.testbit (nth word b 0) bit) then st_ret tt else
  let slot := Z.to_nat (shift - min_shift s) in
  do _ <- (if bool_decide (next c = Null) then relink page slot AL_SLAB_SMALL else st_ret tt) ;;
  let b := <[word := Z.ldiff (nth word b 0) (Z.shiftl 1 bit)]> b in
  do _ <- set_bitmap j b ;;
  let n := map_chunks shift in
  if negb (Z.shiftr (nth 0 b 0) n =? 0) then unuse slot None
  else if negb (forallb (Z.eqb 0) (drop 1 (take (Z.to_nat (map_words shift)) b))) then unuse slot None
  else
    do _ <- al_slab_free_pages page 1 ;;
    unuse slot (Some (Z.shiftr PAGESIZE shift - n)).

Definition free_exact (page : ptr) (p : Z) : st pool unit :=
  do s <- st_get ;;
  do c <- get page ;;
  let bit := Z.shiftr (Z.land p (PAGESIZE - 1)) al_slab_exact_shift in
  if negb (Z.land p (al_slab_exact_size - 1) =? 0) then st_ret tt else
  if negb (Z.testbit (slab c) bit) then st_ret tt else
  let slot := Z.to_nat (al_slab_exact_shift - min_shift s) in
  do _ <- (if slab c =? AL_SLAB_BUSY then relink page slot AL_SLAB_EXACT else st_ret tt) ;;
  let w := Z.ldiff (slab c) (Z.shiftl 1 bit) in
  do _ <- set_slab page w ;;
  if negb (w =? 0) then unuse slot None
  else do _ <- al_slab_free_pages page 1 ;; unuse slot (Some (8 * 8)).

Definition free_big (page : ptr) (p : Z) : st pool unit :=
  do s <- st_get ;;
  do c <- get page ;;
  let shift := Z.land (slab c) AL_SLAB_SHIFT_MASK in
  let size := Z.shiftl 1 shift in
  if negb (Z.land p (size - 1) =? 0) then st_ret tt else
  let bit := Z.shiftr (Z.land p (PAGESIZE - 1)) shift + AL_SLAB_MAP_SHIFT in
  if negb (Z.testbit (slab c) bit) then st_ret tt else
  let slot := Z.to_nat (shift - min_shift s) in
  do _ <- (if bool_decide (next c = Null) then relink page slot AL_SLAB_BIG else st_ret tt) ;;
  let w := Z.ldiff (slab c) (Z.shiftl 1 bit) in
  do _ <- set_slab page w ;;
  if negb (Z.land w AL_SLAB_MAP_MASK =? 0) then unuse slot None
  else do _ <- al_slab_free_pages page 1 ;; unuse slot (Some (Z.shiftr PAGESIZE shift)).

Definition free_run (page : ptr) (p : Z) : st pool unit :=
  do c <- get page ;;
  if negb (Z.land p (PAGESIZE - 1) =? 0) then st_ret tt
  else if Z.land (slab c) AL_SLAB_PAGE_START =? 0 then st_ret tt
  else if slab c =? AL_SLAB_PAGE_BUSY then st_ret tt
  else al_slab_free_pages page (Z.ldiff (slab c) AL_SLAB_PAGE_START).

Definition al_slab_free_locked (p : Z) : st pool unit :=
  do s <- st_get ;;
  if (p <? start s) || (end_ s <? p) then st_ret tt else
  let n := Z.to_nat (Z.shiftr (p - start s) al_pagesize_shift) in
  do c <- get (Page n) ;;
  if tag c =? AL_SLAB_SMALL then free_small (Page n) n p
  else if tag c =? AL_SLAB_EXACT then free_exact (Page n) p
  else if tag c =? AL_SLAB_BIG then free_big (Page n) p
  else free_run (Page n) p.

(** [al_malloc], [al_calloc] and [al_free]: the same under the pool's lock. *)
Definition al_malloc (size : Z) : st pool Z := al_slab_alloc_locked size.
Definition al_calloc (size : Z) : st pool (Z * option (Z * Z)) := al_slab_calloc_locked size.
Definition al_free (p : Z) : st pool unit := al_slab_free_locked p.

End Slab.
