(* ===== verification/SlabRing.v ===== *)
(** * Lists of pages

    The cells of the slab allocator field by field, what each access does to the
    fields, and the circular lists they form: the free runs behind [Free], the
    partly used pages of a size behind [Slot k]. *)

From Stdlib Require Import ZArith Lia Bool.
From stdpp Require Import base tactics option gmap list.
From S2P Require Import Prelude Slab.

Open Scope Z_scope.

Module SlabRing.
Import Slab.

(** ** Fields *)
Abbreviation heap := (gmap ptr cell).

Definition slb (M : heap) (p : ptr) : option Z := slab <$> M !! p.
Definition nxt (M : heap) (p : ptr) : option ptr := next <$> M !! p.
Definition prv (M : heap) (p : ptr) : option (ptr * Z) := (fun c => (prev c, tag c)) <$> M !! p.

Definition with_cells (s : pool) (M : heap) : pool := s <| cells := M |>.

Lemma with_cells_id s : with_cells s (cells s) = s.
Proof. by destruct s. Qed.

Lemma cells_with s M : cells (with_cells s M) = M.
Proof. by destruct s. Qed.

Lemma with_with s M M' : with_cells (with_cells s M) M' = with_cells s M'.
Proof. by destruct s. Qed.

(** A function changed at one place. *)
Definition upd {B} (f : ptr -> B) (p : ptr) (b : B) : ptr -> B := fun q => if decide (q = p) then b else f q.

Lemma upd_eq {B} (f : ptr -> B) p b : upd f p b p = b.
Proof. unfold upd. by rewrite decide_True. Qed.
Lemma upd_ne {B} (f : ptr -> B) p q b : q <> p -> upd f p b q = f q.
Proof. intros H. unfold upd. by rewrite decide_False. Qed.

(** The effect of a computation on the three fields of all cells; the rest of the
    pool stays. *)
Definition writes (c : st pool unit) (s : pool) (f : ptr -> option Z) (g : ptr -> option ptr) (h : ptr -> option (ptr * Z)) : Prop :=
  exists M, c s = (ok tt, with_cells s M) /\ (forall p, slb M p = f p) /\ (forall p, nxt M p = g p) /\ (forall p, prv M p = h p).

Lemma lookup_fields (M : heap) p z q r : slb M p = Some z -> nxt M p = Some q -> prv M p = Some r ->
  M !! p = Some (mk_cell z q r.1 r.2).
Proof.
  unfold slb, nxt, prv. destruct (M !! p) as [[a b c d]|]; [|done]. cbn. intros [= ->] [= ->] [= <-]. done.
Qed.

Lemma is_cell M p z : slb M p = Some z -> is_Some (M !! p).
Proof. unfold slb. destruct (M !! p); [eauto|done]. Qed.
Lemma is_cell_nxt M p q : nxt M p = Some q -> is_Some (M !! p).
Proof. unfold nxt. destruct (M !! p); [eauto|done]. Qed.
Lemma is_cell_prv M p q : prv M p = Some q -> is_Some (M !! p).
Proof. unfold prv. destruct (M !! p); [eauto|done]. Qed.

Lemma get_cell s p c : cells s !! p = Some c -> get p s = (ok c, s).
Proof. intros H. unfold get. by rewrite H. Qed.

Lemma put_ok s p c : is_Some (cells s !! p) -> put p c s = (ok tt, with_cells s (<[p := c]> (cells s))).
Proof. intros [d H]. unfold put. by rewrite H. Qed.

Lemma put_writes s p c : is_Some (cells s !! p) ->
  writes (put p c) s (upd (slb (cells s)) p (Some (slab c))) (upd (nxt (cells s)) p (Some (next c)))
    (upd (prv (cells s)) p (Some (prev c, tag c))).
Proof.
  intros H. exists (<[p := c]> (cells s)). split; [by apply put_ok|].
  split_and!; intros q; unfold slb, nxt, prv, upd; case_decide; subst; by simplify_map_eq.
Qed.

(** A single field. *)
Lemma set_slab_writes s p z : is_Some (cells s !! p) ->
  writes (set_slab p z) s (upd (slb (cells s)) p (Some z)) (nxt (cells s)) (prv (cells s)).
Proof.
  intros [c H]. exists (<[p := c <| slab := z |>]> (cells s)). unfold set_slab. rewrite (st_bind_ok _ _ _ _ _ (get_cell s p c H)).
  split; [by apply put_ok; eauto|].
  destruct c. split_and!; intros q; unfold slb, nxt, prv, upd; try case_decide; subst; try by simplify_map_eq.
  all: destruct (decide (p = q)) as [<-|]; by simplify_map_eq.
Qed.

Lemma set_next_writes s p q : is_Some (cells s !! p) ->
  writes (set_next p q) s (slb (cells s)) (upd (nxt (cells s)) p (Some q)) (prv (cells s)).
Proof.
  intros [c H]. exists (<[p := c <| next := q |>]> (cells s)). unfold set_next. rewrite (st_bind_ok _ _ _ _ _ (get_cell s p c H)).
  split; [by apply put_ok; eauto|].
  destruct c. split_and!; intros r; unfold slb, nxt, prv, upd; try case_decide; subst; try by simplify_map_eq.
  all: destruct (decide (p = r)) as [<-|]; by simplify_map_eq.
Qed.

Lemma set_prev_writes s p q t : is_Some (cells s !! p) ->
  writes (set_prev p q t) s (slb (cells s)) (nxt (cells s)) (upd (prv (cells s)) p (Some (q, t))).
Proof.
  intros [c H]. exists (<[p := c <| prev := q |> <| tag := t |>]> (cells s)). unfold set_prev.
  rewrite (st_bind_ok _ _ _ _ _ (get_cell s p c H)). split; [by apply put_ok; eauto|].
  destruct c. split_and!; intros r; unfold slb, nxt, prv, upd; try case_decide; subst; try by simplify_map_eq.
  all: destruct (decide (p = r)) as [<-|]; by simplify_map_eq.
Qed.

(** Writes one after the other. *)
Lemma writes_then c k s f g h f' g' h' :
  writes c s f g h ->
  (forall M, (forall p, slb M p = f p) -> (forall p, nxt M p = g p) -> (forall p, prv M p = h p) ->
     writes k (with_cells s M) f' g' h') ->
  writes (do _ <- c ;; k) s f' g' h'.
Proof.
  intros (M & E & Hf & Hg & Hh) Hk. destruct (Hk M Hf Hg Hh) as (M' & E' & H'). exists M'.
  rewrite (st_bind_ok _ _ _ _ _ E), E'. by rewrite with_with.
Qed.

Lemma writes_ext c s f g h f' g' h' :
  writes c s f g h -> (forall p, f p = f' p) -> (forall p, g p = g' p) -> (forall p, h p = h' p) -> writes c s f' g' h'.
Proof.
  intros (M & E & Hf & Hg & Hh) Ef Eg Eh. exists M.
  split_and!; [done|intros p; by rewrite Hf|intros p; by rewrite Hg|intros p; by rewrite Hh].
Qed.

(** [unlink] joins the neighbours of a cell. *)
Lemma unlink_writes s x a b t :
  nxt (cells s) x = Some b -> prv (cells s) x = Some (a, t) -> x <> a ->
  is_Some (cells s !! a) -> is_Some (cells s !! b) ->
  writes (unlink x) s (slb (cells s)) (upd (nxt (cells s)) a (Some b)) (upd (prv (cells s)) b (Some (a, t))).
Proof.
  intros Hn Hp Hxa Ha Hb. destruct (is_cell_nxt _ _ _ Hn) as [c Hc]. unfold nxt, prv in Hn, Hp. rewrite Hc in Hn, Hp.
  cbn in Hn, Hp. injection Hn as Hn. injection Hp as Hp Ht. unfold unlink. destruct (set_next_writes s a b Ha) as (M & E & Hf & Hg & Hh).
  assert (HM : M !! x = Some c).
  { assert (Hx1 : slb M x = Some (slab c)) by (rewrite Hf; unfold slb; by rewrite Hc).
    assert (Hx2 : nxt M x = Some b) by (rewrite Hg, upd_ne by done; unfold nxt; rewrite Hc; cbn; congruence).
    assert (Hx3 : prv M x = Some (a, t)) by (rewrite Hh; unfold prv; rewrite Hc; cbn; congruence).
    rewrite (lookup_fields M x _ _ _ Hx1 Hx2 Hx3). destruct c; cbn in *. congruence. }
  assert (HMb : is_Some (M !! b)).
  { destruct Hb as [d Hd]. apply (is_cell M b (slab d)). rewrite Hf. unfold slb. by rewrite Hd. }
  destruct (set_prev_writes (with_cells s M) b a t) as (M' & E' & Hf' & Hg' & Hh'); [by rewrite cells_with|].
  rewrite cells_with in *. exists M'. split_and!.
  - rewrite (st_bind_ok _ _ _ _ _ (get_cell s x c Hc)). cbn beta. rewrite Hn, Hp.
    rewrite (st_bind_ok _ _ _ _ _ E). rewrite (st_bind_ok _ _ _ _ _ (get_cell (with_cells s M) x c ltac:(by rewrite cells_with))).
    rewrite Hn, Hp, Ht, E'. by rewrite with_with.
  - intros p. by rewrite Hf', Hf.
  - intros p. by rewrite Hg', Hg.
  - intros p. rewrite Hh'. unfold upd. case_decide; [done|]. apply Hh.
Qed.

(** ** Circular lists *)
Section rings.
Implicit Types (g : ptr -> option ptr) (h : ptr -> option (ptr * Z)) (t : Z) (a z : ptr) (l : list ptr).

(** From [a] through [l] to [z]. *)
Fixpoint seg g h t a l z : Prop :=
  match l with
  | [] => g a = Some z
  | b :: l => g a = Some b /\ h b = Some (a, t) /\ seg g h t b l z
  end.

Definition end_of a l : ptr := List.last l a.
Definition head_of l z : ptr := hd z l.

Lemma end_of_snoc a l b : end_of a (l ++ [b]) = b.
Proof. apply last_last. Qed.

Lemma end_of_cons a b l : end_of a (b :: l) = end_of b l.
Proof.
  unfold end_of. destruct l as [|c l]; [done|]. change (List.last (b :: c :: l) a) with (List.last (c :: l) a).
  revert c. induction l as [|d l IH]; intros c; [done|]. apply (IH d).
Qed.

Lemma end_of_app a l l' : end_of a (l ++ l') = end_of (end_of a l) l'.
Proof. revert a. induction l as [|b l IH]; intros a; [done|]. cbn [app]. by rewrite !end_of_cons. Qed.

Lemma seg_app g h t a l b l' z :
  seg g h t a (l ++ b :: l') z <-> seg g h t a l b /\ h b = Some (end_of a l, t) /\ seg g h t b l' z.
Proof.
  revert a. induction l as [|c l IH]; intros a; cbn [app seg]; [done|]. rewrite IH, end_of_cons. tauto.
Qed.

Lemma seg_start g h t a l z : seg g h t a l z -> g a = Some (head_of l z).
Proof. destruct l; cbn; [done|tauto]. Qed.

Lemma seg_end g h t a l z : seg g h t a l z -> g (end_of a l) = Some z.
Proof. revert a. induction l as [|b l IH]; intros a; cbn [seg]; [done|]. rewrite end_of_cons. intros (_&_&H). by apply IH. Qed.

Lemma end_of_in a l : end_of a l ∈ a :: l.
Proof.
  revert a. induction l as [|b l IH]; intros a; [left|]. rewrite end_of_cons. right. apply IH.
Qed.
Lemma head_of_in l z : head_of l z ∈ l ++ [z].
Proof. destruct l; [left|]. left. Qed.

(** A list depends on the successors of its cells and of [a], and on the
    predecessors of its cells. *)
Lemma seg_ext g h g' h' t a l z :
  seg g h t a l z -> (forall p, p ∈ a :: l -> g' p = g p) -> (forall p, p ∈ l -> h' p = h p) -> seg g' h' t a l z.
Proof.
  revert a. induction l as [|b l IH]; intros a; cbn [seg]; intros Hs Hg Hh.
  - rewrite Hg by left. done.
  - destruct Hs as (H1 & H2 & H3). rewrite Hg, Hh by left. split_and!; [done..|]. apply IH; [done| |].
    + intros p Hp. apply Hg. by right.
    + intros p Hp. apply Hh. by right.
Qed.

(** The last link redirected. *)
Lemma seg_redirect g h t a l z z' :
  NoDup (a :: l) -> seg g h t a l z -> seg (upd g (end_of a l) (Some z')) h t a l z'.
Proof.
  revert a. induction l as [|b l IH]; intros a Hn; cbn [seg].
  - intros _. by rewrite upd_eq.
  - rewrite end_of_cons. apply NoDup_cons in Hn as [Ha Hn]. intros (H1 & H2 & H3). split_and!; [|done|by apply IH].
    rewrite upd_ne; [done|]. intros ->. by apply Ha, end_of_in.
Qed.

Definition ring g h t a l : Prop := seg g h t a l a /\ NoDup (a :: l).

Lemma ring_links g h t a l x : ring g h t a l -> x ∈ l -> exists y z, g x = Some y /\ y ∈ a :: l /\ h x = Some (z, t) /\ z ∈ a :: l /\ x <> z.
Proof.
  intros [Hs Hn] Hx. apply list_elem_of_split in Hx as (l1 & l2 & ->). apply seg_app in Hs as (H1 & H2 & H3).
  exists (head_of l2 a), (end_of a l1). split_and!.
  - by apply seg_start in H3.
  - pose proof (head_of_in l2 a) as H. rewrite elem_of_app in H. rewrite elem_of_cons, elem_of_app, elem_of_cons.
    destruct H as [H|H%list_elem_of_singleton]; tauto.
  - done.
  - pose proof (end_of_in a l1) as H. rewrite !elem_of_cons, ?elem_of_app in *. tauto.
  - intros ->. pose proof (end_of_in a l1) as H. rewrite app_comm_cons in Hn. apply NoDup_app in Hn as (_ & Hn & _).
    apply (Hn _ H). left.
Qed.

(** A cell taken out. *)
Lemma ring_remove g h t a l1 x l2 :
  ring g h t a (l1 ++ x :: l2) ->
  ring (upd g (end_of a l1) (Some (head_of l2 a))) (upd h (head_of l2 a) (Some (end_of a l1, t))) t a (l1 ++ l2).
Proof.
  intros [Hs Hn]. apply seg_app in Hs as (H1 & H2 & H3).
  assert (Hn' : NoDup (a :: l1 ++ l2)).
  { rewrite app_comm_cons in *. apply NoDup_app in Hn as (Hn1 & Hn2 & Hn3). apply NoDup_cons in Hn3 as [_ Hn3].
    apply NoDup_app. split_and!; [done| |done]. intros p Hp Hp'. apply (Hn2 p Hp). by right. }
  split; [|done]. rewrite app_comm_cons in Hn'. apply NoDup_app in Hn' as (Hn1 & Hn2 & Hn3).
  assert (Hsep : forall p, p ∈ l2 -> p <> end_of a l1).
  { intros p Hp ->. apply (Hn2 (end_of a l1)); [apply end_of_in|done]. }
  destruct l2 as [|b l2].
  - rewrite app_nil_r. cbn [head_of hd]. eapply seg_ext; [by apply (seg_redirect g h t a l1 x a)|done|].
    intros p Hp. rewrite upd_ne; [done|]. intros ->. apply NoDup_cons in Hn1 as [Hn1 _]. done.
  - cbn [head_of hd]. cbn [seg] in H3. destruct H3 as (H3 & H4 & H5). apply seg_app. split_and!.
    + eapply seg_ext; [by apply (seg_redirect g h t a l1 x b)|done|]. intros p Hp. rewrite upd_ne; [done|]. intros ->.
      apply (Hn2 b); [by right|left].
    + by rewrite upd_eq.
    + eapply seg_ext; [exact H5| |].
      * intros p Hp. apply upd_ne. by apply Hsep.
      * intros p Hp. apply upd_ne. intros ->. apply NoDup_cons in Hn3 as [Hn3 _]. done.
Qed.

(** A cell put in front. *)
Lemma ring_push g h t a l x :
  ring g h t a l -> x ∉ a :: l ->
  ring (upd (upd g x (Some (head_of l a))) a (Some x))
       (upd (upd h x (Some (a, t))) (head_of l a) (Some (x, t))) t a (x :: l).
Proof.
  intros [Hs Hn] Hx. pose proof Hx as Hx'. rewrite not_elem_of_cons in Hx'. destruct Hx' as [Hxa Hxl].
  split; [|apply NoDup_cons in Hn as [Ha Hn]; apply NoDup_cons; split; [rewrite not_elem_of_cons; split; [congruence|done]|by apply NoDup_cons]].
  cbn [seg]. rewrite upd_eq. split; [done|]. destruct l as [|b l]; cbn [head_of hd] in *.
  - split; [rewrite upd_ne, upd_eq by done; done|]. cbn [seg]. rewrite upd_ne, upd_eq by done. done.
  - assert (Hxb : x <> b) by set_solver. rewrite upd_ne, upd_eq by done. split; [done|]. cbn [seg] in *.
    destruct Hs as (H1 & H2 & H3). rewrite (upd_ne _ a x), upd_eq, upd_eq by done. split_and!; [done..|].
    apply NoDup_cons in Hn as [Ha Hn]. apply NoDup_cons in Hn as [Hb Hn]. eapply seg_ext; [exact H3| |].
    + intros p Hp. rewrite !upd_ne; [done| |]; intros ->; set_solver.
    + intros p Hp. rewrite !upd_ne; [done| |]; intros ->; set_solver.
Qed.

(** A cell replaced by another. *)
Lemma ring_replace g h t a l1 x l2 y :
  ring g h t a (l1 ++ x :: l2) -> y ∉ a :: l1 ++ x :: l2 ->
  ring (upd (upd g y (Some (head_of l2 a))) (end_of a l1) (Some y))
       (upd (upd h y (Some (end_of a l1, t))) (head_of l2 a) (Some (y, t))) t a (l1 ++ y :: l2).
Proof.
  intros [Hs Hn] Hy. apply seg_app in Hs as (H1 & H2 & H3).
  rewrite app_comm_cons in Hn. apply NoDup_app in Hn as (Hn1 & Hn2 & Hn3). apply NoDup_cons in Hn3 as [Hx Hn3].
  rewrite !not_elem_of_cons, not_elem_of_app, not_elem_of_cons in Hy. destruct Hy as (Hya & Hy1 & Hyx & Hy2).
  assert (Hye : y <> end_of a l1).
  { intros ->. pose proof (end_of_in a l1) as H. rewrite elem_of_cons in H. tauto. }
  split.
  - apply seg_app. split_and!.
    + eapply seg_ext; [by apply (seg_redirect g h t a l1 x y)| |].
      * intros p Hp. unfold upd. repeat case_decide; subst; try done. exfalso. rewrite elem_of_cons in Hp. tauto.
      * intros p Hp. rewrite !upd_ne; [done|by intros ->|]. intros ->. pose proof (head_of_in l2 a) as H.
        rewrite elem_of_app, list_elem_of_singleton in H. destruct H as [H|H].
        -- apply (Hn2 (head_of l2 a)); [by right|by right].
        -- apply NoDup_cons in Hn1 as [Hn1 _]. apply Hn1. by rewrite <-H.
    + destruct (decide (y = head_of l2 a)) as [E|E]; [|by rewrite upd_ne, upd_eq].
      exfalso. pose proof (head_of_in l2 a) as H. rewrite <-E, elem_of_app, list_elem_of_singleton in H. tauto.
    + destruct l2 as [|b l2]; cbn [head_of hd seg] in *.
      * by rewrite upd_ne, upd_eq.
      * rewrite (upd_ne _ (end_of a l1) y), !upd_eq by done. split_and!; [done..|].
        apply NoDup_cons in Hn3 as [Hb Hn3]. destruct H3 as (H3 & H4 & H5). eapply seg_ext; [exact H5| |].
        -- intros p Hp. rewrite !upd_ne; [done| |].
           ++ intros ->. set_solver.
           ++ intros ->. apply (Hn2 (end_of a l1)); [apply end_of_in|by right].
        -- intros p Hp. rewrite !upd_ne; [done| |]; intros ->; set_solver.
  - rewrite app_comm_cons. apply NoDup_app. split_and!; [done| |].
    + intros p Hp. rewrite not_elem_of_cons. split; [intros ->; set_solver|]. intros Hp'. apply (Hn2 p Hp). by right.
    + apply NoDup_cons. done.
Qed.
End rings.
End SlabRing.
