(* ===== verification/SlabInv.v ===== *)
(** * The invariant of the slab allocator

    The pages of a pool, in order, are runs: free ones, ones handed out as a whole,
    and pages cut into chunks of one size with a bit for each chunk in use. [laid]
    says how the cells describe a list of runs, [rings] that the free runs and
    the partly used pages of each size are on their lists. *)

From Stdlib Require Import ZArith Lia Bool.
From stdpp Require Import base tactics option gmap list.
From S2P Require Import Prelude Slab SlabRing.

Open Scope Z_scope.

Module SlabInv.
Import Slab SlabRing.

(** ** Runs *)
Inductive run := RFree (n : nat) | RBusy (n : nat) | RSlab (shift bits : Z).

Definition len (r : run) : nat := match r with RFree n | RBusy n => n | RSlab _ _ => 1%nat end.
Fixpoint total (L : list run) : nat := match L with [] => 0%nat | r :: L => (len r + total L)%nat end.

Lemma total_app L1 L2 : total (L1 ++ L2) = (total L1 + total L2)%nat.
Proof. induction L1 as [|r L1 IH]; simpl; [done|]. rewrite IH. lia. Qed.

(** The chunks of a page, its type, and the word of its bitmap and shift. *)
Definition cap (shift : Z) : Z := Z.shiftr PAGESIZE shift.
Definition type_of (shift : Z) : Z := if shift =? 6 then AL_SLAB_EXACT else AL_SLAB_BIG.
Definition word (shift bits : Z) : Z := if shift =? 6 then bits else Z.lor (Z.shiftl bits 32) shift.
Definition full (shift bits : Z) : bool := bits =? 2 ^ cap shift - 1.

Section layout.
Implicit Types (f : ptr -> option Z) (g : ptr -> option ptr) (h : ptr -> option (ptr * Z)).

Definition inner (z : Z) f g h (j : nat) : Prop :=
  f (Page j) = Some z /\ g (Page j) = Some Null /\ exists q, h (Page j) = Some (q, 0).

Definition run_ok (lst : nat) f g h (i : nat) (r : run) : Prop :=
  match r with
  | RFree n =>
      (1 <= n)%nat /\ f (Page i) = Some (Z.of_nat n) /\
      (forall j, (i < j < i + n)%nat -> inner 0 f g h j) /\
      ((1 < n)%nat -> (i + n < lst)%nat -> exists t, h (Page (i + n - 1)) = Some (Page i, t))
  | RBusy n =>
      (1 <= n)%nat /\ inner (Z.lor (Z.of_nat n) AL_SLAB_PAGE_START) f g h i /\
      (forall j, (i < j < i + n)%nat -> inner AL_SLAB_PAGE_BUSY f g h j)
  | RSlab shift bits =>
      6 <= shift <= 11 /\ 0 <= bits < 2 ^ cap shift /\ f (Page i) = Some (word shift bits) /\
      (full shift bits = true -> g (Page i) = Some Null /\ exists q, h (Page i) = Some (q, type_of shift))
  end.

Fixpoint laid (lst : nat) f g h (i : nat) (L : list run) : Prop :=
  match L with
  | [] => True
  | r :: L => run_ok lst f g h i r /\ laid lst f g h (i + len r) L
  end.

Lemma laid_app lst f g h i L1 L2 :
  laid lst f g h i (L1 ++ L2) <-> laid lst f g h i L1 /\ laid lst f g h (i + total L1) L2.
Proof.
  revert i. induction L1 as [|r L1 IH]; intros i; simpl.
  - rewrite Nat.add_0_r. tauto.
  - rewrite IH, Nat.add_assoc. tauto.
Qed.

Lemma run_ok_len lst f g h i r : run_ok lst f g h i r -> (1 <= len r)%nat.
Proof. destruct r; simpl; [tauto|tauto|lia]. Qed.

(** ** The pages of some runs *)
Fixpoint pick (P : run -> bool) (i : nat) (L : list run) : list ptr :=
  match L with
  | [] => []
  | r :: L => (if P r then [Page i] else []) ++ pick P (i + len r) L
  end.

Lemma pick_app P i L1 L2 : pick P i (L1 ++ L2) = pick P i L1 ++ pick P (i + total L1) L2.
Proof.
  revert i. induction L1 as [|r L1 IH]; intros i; simpl.
  - by rewrite Nat.add_0_r.
  - by rewrite IH, Nat.add_assoc, app_assoc.
Qed.

Lemma pick_in P i L p :
  p ∈ pick P i L <-> exists L1 r L2, L = L1 ++ r :: L2 /\ P r = true /\ p = Page (i + total L1).
Proof.
  revert i. induction L as [|r L IH]; intros i; simpl.
  - split; [by intros ?%elem_of_nil|]. by intros ([|]&?&?&?&_).
  - rewrite elem_of_app, IH. split.
    + intros [H|(L1&r1&L2&->&H1&->)].
      * destruct (P r) eqn:E; [|by apply elem_of_nil in H]. apply list_elem_of_singleton in H as ->.
        exists [], r, L. simpl. by rewrite Nat.add_0_r.
      * exists (r :: L1), r1, L2. simpl. by rewrite Nat.add_assoc.
    + intros ([|r0 L1]&r1&L2&E&H1&->); cbn in E; injection E as -> ->; simpl.
      * left. rewrite H1, Nat.add_0_r. left.
      * right. exists L1, r1, L2. by rewrite Nat.add_assoc.
Qed.

Lemma laid_len lst f g h i L r : laid lst f g h i L -> r ∈ L -> (1 <= len r)%nat.
Proof.
  revert i. induction L as [|r' L IH]; intros i; simpl; [by intros _ ?%elem_of_nil|].
  intros [H1 H2] [->|Hr]%elem_of_cons; [by eapply run_ok_len|eauto].
Qed.

Definition sized (L : list run) : Prop := forall r, r ∈ L -> (1 <= len r)%nat.

(** A position belongs to one run. *)
Lemma split_unique L1 r L2 L1' r' L2' :
  sized (L1 ++ r :: L2) -> L1 ++ r :: L2 = L1' ++ r' :: L2' -> total L1 = total L1' -> L1 = L1' /\ r = r' /\ L2 = L2'.
Proof.
  intros Hs. revert L1'. induction L1 as [|r1 L1 IH]; intros [|r1' L1'] E Ht; cbn in E, Ht;
    injection E as E1 E2.
  - by subst.
  - subst r1'. specialize (Hs r ltac:(left)). lia.
  - specialize (Hs r1 ltac:(left)). lia.
  - destruct (IH ltac:(intros x Hx; apply Hs; by right) L1') as (->&->&->); [done|subst; lia|by subst].
Qed.

Lemma pick_unique P i L1 r L2 : sized (L1 ++ r :: L2) -> Page (i + total L1) ∈ pick P i (L1 ++ r :: L2) <-> P r = true.
Proof.
  intros Hs. rewrite pick_in. split.
  - intros (L1'&r'&L2'&E&HP&Hp). injection Hp as Hp. destruct (split_unique _ _ _ _ _ _ Hs E ltac:(lia)) as (_&->&_). done.
  - intros HP. by exists L1, r, L2.
Qed.

Lemma pick_exclusive P Q i L p :
  sized L -> (forall r, P r = true -> Q r = true -> False) -> p ∈ pick P i L -> p ∈ pick Q i L -> False.
Proof.
  intros Hs Hex HP HQ. apply pick_in in HP as (L1&r&L2&->&HP&->). apply pick_unique in HQ; [|done]. eauto.
Qed.

Lemma pick_bounds P i L j : sized L -> Page j ∈ pick P i L -> (i <= j < i + total L)%nat.
Proof.
  intros Hs (L1&r&L2&->&_&[= ->])%pick_in. rewrite total_app. simpl. specialize (Hs r ltac:(set_solver)). lia.
Qed.

Lemma pick_nodup P i L : sized L -> NoDup (pick P i L).
Proof.
  revert i. induction L as [|r L IH]; intros i Hs; simpl; [by apply NoDup_nil|].
  assert (Hs' : sized L) by (intros x Hx; apply Hs; by right).
  destruct (P r); simpl; [|by apply IH]. apply NoDup_cons. split; [|by apply IH].
  intros Hin. apply pick_bounds in Hin; [|done]. specialize (Hs r ltac:(left)). lia.
Qed.

(** ** Lists the runs are on: the free runs, and for each size the pages with
    chunks left *)
Definition member (rid : option nat) (r : run) : bool :=
  match rid, r with
  | None, RFree _ => true
  | Some k, RSlab shift bits => (shift =? Z.of_nat k + 6) && negb (full shift bits)
  | _, _ => false
  end.
Definition anchor (rid : option nat) : ptr := match rid with None => Free | Some k => Slot k end.
Definition rtag (rid : option nat) : Z := match rid with None => 0 | Some k => type_of (Z.of_nat k + 6) end.
Definition valid (rid : option nat) : Prop := match rid with None => True | Some k => (k < 6)%nat end.

Definition listed (r : run) : bool :=
  match r with RFree _ => true | RBusy _ => false | RSlab shift bits => negb (full shift bits) end.

Lemma member_listed rid r : member rid r = true -> listed r = true.
Proof. destruct rid, r; simpl; try done. intros H. apply andb_prop in H as [_ H]. done. Qed.

Lemma member_unique rid rid' r : member rid r = true -> member rid' r = true -> rid = rid'.
Proof.
  destruct rid, rid', r; simpl; try done. intros [H1 _]%andb_prop [H2 _]%andb_prop. f_equal. lia.
Qed.

(** The members of each list. *)
Abbreviation members := (option nat -> list ptr).

Definition rings g h (m : members) : Prop :=
  forall rid, valid rid -> exists l, l ≡ₚ m rid /\ ring g h (rtag rid) (anchor rid) l.

(** No page is on two lists. *)
Definition disjoint_lists (m : members) : Prop :=
  forall rid rid' p, p ∈ m rid -> p ∈ m rid' -> rid = rid'.
Definition pages_only (m : members) : Prop := forall rid p, p ∈ m rid -> exists j, p = Page j.

Lemma ring_ext g h g' h' t a l :
  ring g h t a l -> (forall p, p ∈ a :: l -> g' p = g p) -> (forall p, p ∈ l -> h' p = h p) -> ring g' h' t a l.
Proof. intros [Hs Hn] Hg Hh. split; [by eapply seg_ext|done]. Qed.

Lemma anchor_page rid j : anchor rid <> Page j.
Proof. by destruct rid. Qed.
Lemma anchor_inj rid rid' : anchor rid = anchor rid' -> rid = rid'.
Proof. destruct rid, rid'; simpl; congruence. Qed.

(** Cells of different lists. *)
Lemma other_list m rid rid' p q :
  disjoint_lists m -> pages_only m -> rid <> rid' -> p ∈ anchor rid :: m rid -> q ∈ anchor rid' :: m rid' -> p <> q.
Proof.
  intros Hd Hp Hne H1 H2 <-. apply elem_of_cons in H1 as [->|H1]; apply elem_of_cons in H2 as [E|H2].
  - by apply Hne, anchor_inj.
  - apply Hp in H2 as [j Hj]. by apply anchor_page in Hj.
  - subst p. apply Hp in H1 as [j Hj]. by apply anchor_page in Hj.
  - by apply Hne, (Hd rid rid' p).
Qed.

Lemma perm_in (l l' : list ptr) a p : l ≡ₚ l' -> p ∈ a :: l -> p ∈ a :: l'.
Proof. intros E. by rewrite E. Qed.

(** The lists other than [rid], when cells of [rid] or cells on no list change. *)
Lemma rings_other g h g' h' m m' rid :
  rings g h m -> disjoint_lists m -> pages_only m -> (forall r, r <> rid -> m' r ≡ₚ m r) ->
  (forall p, g' p <> g p \/ h' p <> h p -> p ∈ anchor rid :: m rid \/ (forall r, p ∉ anchor r :: m r)) ->
  (valid rid -> exists l, l ≡ₚ m' rid /\ ring g' h' (rtag rid) (anchor rid) l) ->
  rings g' h' m'.
Proof.
  intros Hr Hd Hp Hm Hch Hrid r Hv. destruct (decide (r = rid)) as [->|Hne]; [by apply Hrid|].
  destruct (Hr r Hv) as (l & El & Hl). exists l. split; [by rewrite El, Hm|].
  assert (Hsame : forall p, p ∈ anchor r :: l -> g' p = g p /\ h' p = h p).
  { intros p Hin. apply (perm_in _ _ _ _ El) in Hin.
    destruct (decide (g' p = g p)) as [E1|E1]; destruct (decide (h' p = h p)) as [E2|E2]; [done|exfalso..].
    all: destruct (Hch p ltac:(tauto)) as [Hin'|Hout]; [by apply (other_list m rid r p p)|by apply (Hout r)]. }
  eapply ring_ext; [exact Hl| |]; intros p Hin; apply Hsame; [done|by right].
Qed.

(** A page leaves its list. *)
Lemma rings_unlink g h m rid x ms :
  rings g h m -> disjoint_lists m -> pages_only m -> valid rid -> m rid ≡ₚ x :: ms ->
  exists a b, g x = Some b /\ h x = Some (a, rtag rid) /\ x <> a /\ x <> b /\
    a ∈ anchor rid :: ms /\ b ∈ anchor rid :: ms /\
    forall m', (forall r, r <> rid -> m' r ≡ₚ m r) -> m' rid ≡ₚ ms ->
      rings (upd g a (Some b)) (upd h b (Some (a, rtag rid))) m'.
Proof.
  intros Hr Hd Hp Hv Hm. destruct (Hr rid Hv) as (l & El & Hl). rewrite Hm in El.
  assert (Hx : x ∈ l) by (rewrite El; left). apply list_elem_of_split in Hx as (l1 & l2 & ->).
  rewrite <-Permutation_middle in El. apply Permutation_cons_inv in El.
  pose proof Hl as [Hs Hn]. apply seg_app in Hs as (H1 & H2 & H3).
  rewrite app_comm_cons in Hn. apply NoDup_app in Hn as (Hn1 & Hn2 & Hn3). apply NoDup_cons in Hn3 as [Hx2 Hn3].
  pose proof (end_of_in (anchor rid) l1) as Ha. pose proof (head_of_in l2 (anchor rid)) as Hb.
  exists (end_of (anchor rid) l1), (head_of l2 (anchor rid)).
  assert (Hina : end_of (anchor rid) l1 ∈ anchor rid :: ms).
  { rewrite <-El, elem_of_cons, elem_of_app. rewrite elem_of_cons in Ha. tauto. }
  assert (Hinb : head_of l2 (anchor rid) ∈ anchor rid :: ms).
  { rewrite <-El, elem_of_cons, elem_of_app. rewrite elem_of_app, list_elem_of_singleton in Hb. tauto. }
  split_and!; [by apply seg_start in H3|done| | |done|done|].
  - intros ->. apply (Hn2 _ Ha). left.
  - intros E. rewrite <-E, elem_of_app, list_elem_of_singleton in Hb. destruct Hb as [Hb|Hb]; [done|].
    subst x. apply (Hn2 (anchor rid)); [left|left].
  - intros m' Hm1 Hm2. apply (rings_other g h _ _ m m' rid); [done..| |].
    + intros p Hch. left. rewrite Hm. unfold upd in Hch. destruct Hch as [Hch|Hch]; case_decide; subst; try done; set_solver.
    + intros _. exists (l1 ++ l2). split; [by rewrite El, Hm2|]. by apply (ring_remove g h _ _ l1 x l2).
Qed.

(** A page goes to the front of a list. *)
Lemma rings_push g h m rid j :
  rings g h m -> disjoint_lists m -> pages_only m -> valid rid -> (forall r, Page j ∉ m r) ->
  exists b, g (anchor rid) = Some b /\ b ∈ anchor rid :: m rid /\ Page j <> b /\
    forall m', (forall r, r <> rid -> m' r ≡ₚ m r) -> m' rid ≡ₚ Page j :: m rid ->
      rings (upd (upd g (Page j) (Some b)) (anchor rid) (Some (Page j)))
            (upd (upd h (Page j) (Some (anchor rid, rtag rid))) b (Some (Page j, rtag rid))) m'.
Proof.
  intros Hr Hd Hp Hv Hx. destruct (Hr rid Hv) as (l & El & Hl). pose proof Hl as [Hs Hn].
  pose proof (head_of_in l (anchor rid)) as Hb. exists (head_of l (anchor rid)).
  assert (Hinb : head_of l (anchor rid) ∈ anchor rid :: m rid).
  { rewrite <-El, elem_of_cons. rewrite elem_of_app, list_elem_of_singleton in Hb. tauto. }
  assert (Hfresh : forall r, Page j ∉ anchor r :: m r).
  { intros r. rewrite not_elem_of_cons. split; [|apply Hx]. intros E. symmetry in E. by apply anchor_page in E. }
  split_and!; [by apply seg_start in Hs|done| |].
  - intros E. rewrite <-E in Hinb. by apply (Hfresh rid).
  - intros m' Hm1 Hm2. apply (rings_other g h _ _ m m' rid); [done..| |].
    + intros p Hch. unfold upd in Hch. destruct (decide (p = Page j)) as [->|Hpj]; [by right|]. left.
      destruct Hch as [Hch|Hch]; repeat case_decide; subst; try done. left.
    + intros _. exists (Page j :: l). split; [by rewrite Hm2, El|]. apply ring_push; [done|].
      intros Hin. apply (Hfresh rid). by rewrite <-El.
Qed.

(** A page takes the place of another. *)
Lemma rings_replace g h m rid x ms j :
  rings g h m -> disjoint_lists m -> pages_only m -> valid rid -> m rid ≡ₚ x :: ms -> (forall r, Page j ∉ m r) ->
  exists a b, g x = Some b /\ h x = Some (a, rtag rid) /\ a ∈ anchor rid :: ms /\ b ∈ anchor rid :: ms /\
    forall m', (forall r, r <> rid -> m' r ≡ₚ m r) -> m' rid ≡ₚ Page j :: ms ->
      rings (upd (upd g (Page j) (Some b)) a (Some (Page j)))
            (upd (upd h (Page j) (Some (a, rtag rid))) b (Some (Page j, rtag rid))) m'.
Proof.
  intros Hr Hd Hp Hv Hm Hx. destruct (Hr rid Hv) as (l & El & Hl). rewrite Hm in El.
  assert (Hin : x ∈ l) by (rewrite El; left). apply list_elem_of_split in Hin as (l1 & l2 & ->).
  pose proof El as El0. rewrite <-Permutation_middle in El. apply Permutation_cons_inv in El.
  pose proof Hl as [Hs Hn]. apply seg_app in Hs as (H1 & H2 & H3).
  pose proof (end_of_in (anchor rid) l1) as Ha. pose proof (head_of_in l2 (anchor rid)) as Hb.
  exists (end_of (anchor rid) l1), (head_of l2 (anchor rid)).
  assert (Hina : end_of (anchor rid) l1 ∈ anchor rid :: ms).
  { rewrite <-El, elem_of_cons, elem_of_app. rewrite elem_of_cons in Ha. tauto. }
  assert (Hinb : head_of l2 (anchor rid) ∈ anchor rid :: ms).
  { rewrite <-El, elem_of_cons, elem_of_app. rewrite elem_of_app, list_elem_of_singleton in Hb. tauto. }
  assert (Hfresh : forall r, Page j ∉ anchor r :: m r).
  { intros r. rewrite not_elem_of_cons. split; [|apply Hx]. intros E. symmetry in E. by apply anchor_page in E. }
  split_and!; [by apply seg_start in H3|done..|].
  intros m' Hm1 Hm2. apply (rings_other g h _ _ m m' rid); [done..| |].
  - intros p Hch. unfold upd in Hch. destruct (decide (p = Page j)) as [->|Hpj]; [by right|]. left. rewrite Hm.
    destruct Hch as [Hch|Hch]; repeat case_decide; subst; try done; set_solver.
  - intros _. exists (l1 ++ Page j :: l2). split; [by rewrite <-Permutation_middle, Hm2, El|].
    apply (ring_replace g h _ _ l1 x l2); [done|]. intros Hin. apply (Hfresh rid). rewrite Hm, <-El0. done.
Qed.

(** ** Cells that change under runs that do not *)
Lemma run_ok_ext lst f g h f' g' h' i r :
  run_ok lst f g h i r ->
  (forall j, (i <= j < i + len r)%nat -> f' (Page j) = f (Page j)) ->
  (forall j, (i <= j < i + len r)%nat -> listed r = false \/ j <> i -> g' (Page j) = g (Page j) /\ h' (Page j) = h (Page j)) ->
  run_ok lst f' g' h' i r.
Proof.
  intros Hr Hf Hgh. pose proof (run_ok_len _ _ _ _ _ _ Hr) as Hl.
  assert (Hin : forall z j, (i <= j < i + len r)%nat -> listed r = false \/ j <> i -> inner z f g h j -> inner z f' g' h' j).
  { intros z j Hj Hc (H1&H2&q&H3). destruct (Hgh j Hj Hc) as [E1 E2]. unfold inner. rewrite Hf, E1, E2 by done. eauto. }
  destruct r as [n|n|shift bits]; simpl in *.
  - destruct Hr as (H1&H2&H3&H4). rewrite Hf by lia. split_and!; [done|done| |].
    + intros j Hj. apply Hin; [lia|right; lia|]. by apply H3.
    + intros Hn Hlst. destruct (H4 Hn Hlst) as [t E]. destruct (Hgh (i + n - 1)%nat) as [_ ->]; [lia|right; lia|]. eauto.
  - destruct Hr as (H1&H2&H3). split_and!; [done| |].
    + apply Hin; [lia|by left|done].
    + intros j Hj. apply Hin; [lia|by left|]. by apply H3.
  - destruct Hr as (H1&H2&H3&H4). rewrite Hf by lia. split_and!; [lia..| |done|]; [lia|].
    intros Hfull. destruct (Hgh i) as [-> ->]; [lia| |by apply H4]. left. by rewrite Hfull.
Qed.

Lemma laid_ext lst f g h f' g' h' i L :
  laid lst f g h i L ->
  (forall j, (i <= j < i + total L)%nat -> f' (Page j) = f (Page j)) ->
  (forall j, (i <= j < i + total L)%nat -> Page j ∉ pick listed i L -> g' (Page j) = g (Page j) /\ h' (Page j) = h (Page j)) ->
  laid lst f' g' h' i L.
Proof.
  revert i. induction L as [|r L IH]; intros i; [done|]. cbn [laid total pick]. intros [Hr Hl] Hf Hgh.
  pose proof (run_ok_len _ _ _ _ _ _ Hr) as Hlen.
  assert (Hs : sized L) by (intros x Hx; by eapply laid_len). split.
  - apply (run_ok_ext lst f g h); [done| |].
    + intros j Hj. apply Hf. lia.
    + intros j Hj Hc. apply Hgh; [lia|]. rewrite not_elem_of_app. split.
      * destruct (listed r); [|set_solver]. rewrite list_elem_of_singleton. intros [= ->]. destruct Hc; [done|lia].
      * intros Hin. apply pick_bounds in Hin; [lia|done].
  - apply IH; [done| |].
    + intros j Hj. apply Hf. lia.
    + intros j Hj Hc. apply Hgh; [lia|]. rewrite not_elem_of_app. split; [|done].
      destruct (listed r); [|set_solver]. rewrite list_elem_of_singleton. intros [= ->]. lia.
Qed.
End layout.
End SlabInv.
