(* ===== verification/SlabHole.v ===== *)
(** * Runs of pages around a hole

    The allocator takes a run out of the pool, changes its cells, joins it with
    its neighbours and puts it back. [hole] is the invariant in between: the runs
    [L1] in front, [n] pages nothing is known of, the runs [L2] behind. With no
    page in the hole it is the invariant of the whole pool. *)

From Stdlib Require Import ZArith Lia Bool.
From stdpp Require Import base tactics option gmap list.
From S2P Require Import Prelude Slab SlabRing SlabInv.

Open Scope Z_scope.

Module SlabHole.
Import Slab SlabRing SlabInv.

Section hole.
Context (lst : nat).
Implicit Types (f : ptr -> option Z) (g : ptr -> option ptr) (h : ptr -> option (ptr * Z)).

Definition on_lists (L1 : list run) (n : nat) (L2 : list run) : option nat -> list ptr :=
  fun rid => pick (member rid) 0 L1 ++ pick (member rid) (total L1 + n) L2.

Definition hole f g h (L1 : list run) (n : nat) (L2 : list run) : Prop :=
  (total L1 + n + total L2)%nat = lst /\ (forall j, (j < lst)%nat -> is_Some (f (Page j))) /\
  laid lst f g h 0 L1 /\ laid lst f g h (total L1 + n) L2 /\ rings g h (on_lists L1 n L2).

Lemma laid_sized f g h i L : laid lst f g h i L -> sized L.
Proof. intros H r. by eapply laid_len. Qed.

Lemma hole_sized f g h L1 n L2 : hole f g h L1 n L2 -> sized L1 /\ sized L2.
Proof. intros (_&_&H1&H2&_). split; by eapply laid_sized. Qed.

(** Where a listed page lies. *)
Lemma on_lists_page L1 n L2 rid p : sized L1 -> sized L2 -> p ∈ on_lists L1 n L2 rid ->
  exists j, p = Page j /\ ((j < total L1)%nat /\ p ∈ pick (member rid) 0 L1 \/
    (total L1 + n <= j < total L1 + n + total L2)%nat /\ p ∈ pick (member rid) (total L1 + n) L2).
Proof.
  intros S1 S2 [H|H]%elem_of_app; pose proof H as H'; apply pick_in in H as (?&?&?&?&?&->); eexists; (split; [done|]).
  - left. split; [|done]. apply pick_bounds in H'; [lia|done].
  - right. split; [|done]. apply pick_bounds in H'; [lia|done].
Qed.

Lemma on_lists_pages_only L1 n L2 : sized L1 -> sized L2 -> pages_only (on_lists L1 n L2).
Proof. intros S1 S2 rid p H. destruct (on_lists_page _ _ _ _ _ S1 S2 H) as (j&->&_). eauto. Qed.

Lemma pick_disjoint i L rid rid' p : sized L -> p ∈ pick (member rid) i L -> p ∈ pick (member rid') i L -> rid = rid'.
Proof.
  intros S H H'. destruct (decide (rid = rid')) as [|Hne]; [done|]. exfalso.
  eapply (pick_exclusive (member rid) (member rid')); [done| |done|done]. intros r H1 H2. by apply Hne, (member_unique _ _ r).
Qed.

Lemma on_lists_disjoint L1 n L2 : sized L1 -> sized L2 -> disjoint_lists (on_lists L1 n L2).
Proof.
  intros S1 S2 rid rid' p H H'. destruct (on_lists_page _ _ _ _ _ S1 S2 H) as (j&->&C).
  destruct (on_lists_page _ _ _ _ _ S1 S2 H') as (j'&E&C'). injection E as <-.
  destruct C as [[B P]|[B P]], C' as [[B' P']|[B' P']]; try lia; (eapply pick_disjoint; [|exact P|exact P']; done).
Qed.

(** Where a link may lead: to the head of a list or to a listed page. *)
Definition linkable (L1 : list run) (n : nat) (L2 : list run) (p : ptr) : Prop :=
  (exists rid, p = anchor rid) \/
  (exists j, p = Page j /\ (p ∈ pick listed 0 L1 \/ p ∈ pick listed (total L1 + n) L2)).

Lemma pick_member_listed rid i L p : p ∈ pick (member rid) i L -> p ∈ pick listed i L.
Proof.
  intros (L1&r&L2&->&H&->)%pick_in. apply pick_in. exists L1, r, L2. split_and!; [done|by eapply member_listed|done].
Qed.

Lemma linkable_in L1 n L2 rid p : sized L1 -> sized L2 -> p ∈ anchor rid :: on_lists L1 n L2 rid -> linkable L1 n L2 p.
Proof.
  intros S1 S2 [->|H]%elem_of_cons; [left; eauto|]. right.
  destruct (on_lists_page _ _ _ _ _ S1 S2 H) as (j&->&[[_ P]|[_ P]]); exists j; split; auto; [left|right]; by eapply pick_member_listed.
Qed.

(** A linkable page is not in the hole. *)
Lemma linkable_outside L1 n L2 j : sized L1 -> sized L2 -> linkable L1 n L2 (Page j) -> (j < total L1 \/ total L1 + n <= j)%nat.
Proof.
  intros S1 S2 [[rid E]|(j'&E&[P|P])]; [by destruct rid| |]; injection E as <-; apply pick_bounds in P; try done; lia.
Qed.

Lemma listed_once i L1 L2 n p :
  sized L1 -> sized L2 -> p ∈ pick listed i L1 -> p ∈ pick listed (i + total L1 + n) L2 -> False.
Proof.
  intros S1 S2 H1 H2. pose proof H1 as (?&?&?&_&_&->)%pick_in. apply pick_bounds in H1; [|done]. apply pick_bounds in H2; [|done]. lia.
Qed.

(** Links may change at linkable cells and in the hole, the rest in the hole. *)
Lemma laid_relink f g h f' g' h' L1 n L2 :
  laid lst f g h 0 L1 -> laid lst f g h (total L1 + n) L2 ->
  (forall j, (j < total L1 \/ total L1 + n <= j)%nat -> f' (Page j) = f (Page j)) ->
  (forall j, (j < total L1 \/ total L1 + n <= j)%nat -> g' (Page j) <> g (Page j) \/ h' (Page j) <> h (Page j) -> linkable L1 n L2 (Page j)) ->
  laid lst f' g' h' 0 L1 /\ laid lst f' g' h' (total L1 + n) L2.
Proof.
  intros H1 H2 Hf Hc. pose proof (laid_sized _ _ _ _ _ H1) as S1. pose proof (laid_sized _ _ _ _ _ H2) as S2.
  assert (Hsame : forall j, (j < total L1 \/ total L1 + n <= j)%nat -> Page j ∉ pick listed 0 L1 -> Page j ∉ pick listed (total L1 + n) L2 ->
     g' (Page j) = g (Page j) /\ h' (Page j) = h (Page j)).
  { intros j Hj N1 N2. destruct (decide (g' (Page j) = g (Page j))) as [|E]; destruct (decide (h' (Page j) = h (Page j))) as [|E']; [done|exfalso..].
    all: destruct (Hc j Hj ltac:(auto)) as [[rid Er]|(j'&[= <-]&[P|P])]; [by destruct rid|done..]. }
  split; (eapply laid_ext; [eassumption| |]); intros j Hj.
  - apply Hf. lia.
  - intros N. apply Hsame; [lia|done|]. intros N2%pick_bounds; [lia|done].
  - apply Hf. lia.
  - intros N. apply Hsame; [lia| |done]. intros N2%pick_bounds; [lia|done].
Qed.

(** The cells in the hole are free to change. *)
Lemma hole_ext f g h f' g' h' L1 n L2 :
  hole f g h L1 n L2 ->
  (forall p, (forall j, p = Page j -> j < total L1 \/ total L1 + n <= j)%nat -> f' p = f p /\ g' p = g p /\ h' p = h p) ->
  (forall j, (total L1 <= j < total L1 + n)%nat -> is_Some (f' (Page j))) ->
  hole f' g' h' L1 n L2.
Proof.
  intros (T&D&H1&H2&R) E E'. pose proof (laid_sized _ _ _ _ _ H1) as S1. pose proof (laid_sized _ _ _ _ _ H2) as S2.
  assert (EP : forall j, (j < total L1 \/ total L1 + n <= j)%nat -> f' (Page j) = f (Page j) /\ g' (Page j) = g (Page j) /\ h' (Page j) = h (Page j)).
  { intros j Hj. apply E. intros j' [= <-]. done. }
  destruct (laid_relink f g h f' g' h' L1 n L2) as [H1' H2']; [done|done|by intros j Hj; apply EP| |].
  { intros j Hj C. destruct (EP j Hj) as (_&E1&E2). by destruct C. }
  split_and!; [done| |done|done|].
  - intros j Hj. destruct (decide (total L1 <= j < total L1 + n)%nat) as [|Hn]; [by apply E'|].
    rewrite (proj1 (EP j ltac:(lia))). by apply D.
  - intros rid V. destruct (R rid V) as (l&El&Hl). exists l. split; [done|].
    assert (Hout : forall p, p ∈ anchor rid :: l -> f' p = f p /\ g' p = g p /\ h' p = h p).
    { intros p Hp. apply E. intros j ->. apply (perm_in _ _ _ _ El) in Hp. apply (linkable_in L1 n L2) in Hp; [|done..].
      by eapply linkable_outside. }
    eapply ring_ext; [done| |]; intros p Hp; apply Hout; [done|by right].
Qed.

(** The runs before and behind a hole are as good as one list when it is empty. *)
Lemma hole_shift f g h L1 r L2 : hole f g h (L1 ++ [r]) 0 L2 <-> hole f g h L1 0 (r :: L2).
Proof.
  unfold hole, on_lists. rewrite total_app, !Nat.add_0_r, laid_app. cbn [total laid]. rewrite Nat.add_0_r, Nat.add_0_l.
  assert (E : forall rid, pick (member rid) 0 (L1 ++ [r]) ++ pick (member rid) (total L1 + len r) L2 =
            pick (member rid) 0 L1 ++ pick (member rid) (total L1) (r :: L2)).
  { intros rid. rewrite pick_app. cbn [pick]. rewrite app_nil_r, <-app_assoc. done. }
  assert (ER : rings g h (fun rid => pick (member rid) 0 (L1 ++ [r]) ++ pick (member rid) (total L1 + len r) L2) <->
               rings g h (fun rid => pick (member rid) 0 L1 ++ pick (member rid) (total L1) (r :: L2))).
  { split; intros H rid V; destruct (H rid V) as (l&El&Hl); exists l; (split; [|done]); [by rewrite <-E|by rewrite E]. }
  rewrite ER, Nat.add_assoc. tauto.
Qed.

Lemma hole_split f g h L1 L2 : hole f g h [] 0 (L1 ++ L2) <-> hole f g h L1 0 L2.
Proof.
  revert L2. induction L1 as [|r L1 IH] using rev_ind; intros L2; [done|]. rewrite <-app_assoc. cbn [app].
  rewrite IH. symmetry. apply hole_shift.
Qed.

Lemma hole_cut f g h L1 L2 : hole f g h [] 0 (L1 ++ L2) -> hole f g h L1 0 L2.
Proof. apply hole_split. Qed.
Lemma hole_whole f g h L1 L2 : hole f g h L1 0 L2 -> hole f g h [] 0 (L1 ++ L2).
Proof. apply hole_split. Qed.

(** A run that is on no list widens the hole. *)
Lemma open_next f g h L1 n r L2 : hole f g h L1 n (r :: L2) -> listed r = false -> hole f g h L1 (n + len r) L2.
Proof.
  intros (T&D&H1&[_ H2]&R) Hr. cbn [total] in T. split_and!; [lia|done|done|by rewrite Nat.add_assoc|].
  intros rid V. destruct (R rid V) as (l&El&Hl). exists l. split; [|done]. rewrite El. unfold on_lists. cbn [pick].
  destruct (member rid r) eqn:E; [apply member_listed in E; congruence|]. by rewrite Nat.add_assoc.
Qed.
(** *** Lists and holes *)

Lemma upd_is_some {B} (f : ptr -> option B) p b q : is_Some (f q) -> is_Some (upd f p (Some b) q).
Proof. intros H. unfold upd. case_decide; eauto. Qed.

Lemma rings_same g h g' h' (m : option nat -> list ptr) :
  rings g h m -> (forall rid p, p ∈ anchor rid :: m rid -> g' p = g p /\ h' p = h p) -> rings g' h' m.
Proof.
  intros H E rid V. destruct (H rid V) as (l&El&Hl). exists l. split; [done|].
  eapply ring_ext; [done| |]; intros p Hp; apply (E rid); rewrite <-El; [done|by right].
Qed.

(** Cells of a list have a successor. *)
Lemma ring_cell g h (m : option nat -> list ptr) rid p : rings g h m -> valid rid -> p ∈ anchor rid :: m rid -> is_Some (g p).
Proof.
  intros R V Hp. destruct (R rid V) as (l&El&Hl). rewrite <-El in Hp. apply elem_of_cons in Hp as [->|Hp].
  - destruct Hl as [Hs _]. apply seg_start in Hs. eauto.
  - destruct (ring_links _ _ _ _ _ _ Hl Hp) as (y&z&Hy&_). eauto.
Qed.

(** A run leaves its list and widens the hole, whichever side it is on. *)
Lemma hole_unlink f g h L1 n L2 L1' n' L2' rid x :
  hole f g h L1 n L2 -> sized L1' -> sized L2' -> valid rid ->
  (total L1' + n' + total L2')%nat = lst ->
  laid lst f g h 0 L1' -> laid lst f g h (total L1' + n') L2' ->
  on_lists L1 n L2 rid ≡ₚ x :: on_lists L1' n' L2' rid ->
  (forall r, r <> rid -> on_lists L1' n' L2' r ≡ₚ on_lists L1 n L2 r) ->
  exists a b, g x = Some b /\ h x = Some (a, rtag rid) /\ x <> a /\ x <> b /\
    linkable L1' n' L2' a /\ linkable L1' n' L2' b /\ is_Some (g a) /\ is_Some (g b) /\
    hole f (upd g a (Some b)) (upd h b (Some (a, rtag rid))) L1' n' L2'.
Proof.
  intros H S1' S2' V T H1 H2 E1 E2. pose proof (hole_sized _ _ _ _ _ _ H) as [S1 S2]. destruct H as (_&D&_&_&R).
  destruct (rings_unlink g h _ rid x _ R (on_lists_disjoint _ _ _ S1 S2) (on_lists_pages_only _ _ _ S1 S2) V E1)
    as (a&b&Hg&Hh&Ha&Hb&Ia&Ib&Hr).
  specialize (Hr (on_lists L1' n' L2') E2 ltac:(done)).
  assert (Hlink : forall p, p ∈ anchor rid :: on_lists L1' n' L2' rid -> is_Some (g p)).
  { intros p Hp. apply (ring_cell g h (on_lists L1 n L2) rid); [done..|]. rewrite E1.
    apply elem_of_cons in Hp as [->|Hp]; [left|by right; right]. }
  exists a, b. pose proof (linkable_in _ _ _ _ _ S1' S2' Ia) as La. pose proof (linkable_in _ _ _ _ _ S1' S2' Ib) as Lb.
  split_and!; try done; [by apply Hlink..|].
  destruct (laid_relink f g h f (upd g a (Some b)) (upd h b (Some (a, rtag rid))) L1' n' L2') as [H1' H2']; [done..| |done].
  intros j _ C. unfold upd in C. destruct C as [C|C]; case_decide; subst; done.
Qed.

Lemma unlink_next f g h L1 n r L2 rid :
  hole f g h L1 n (r :: L2) -> member rid r = true -> valid rid ->
  exists a b, g (Page (total L1 + n)) = Some b /\ h (Page (total L1 + n)) = Some (a, rtag rid) /\
    Page (total L1 + n) <> a /\ Page (total L1 + n) <> b /\
    linkable L1 (n + len r) L2 a /\ linkable L1 (n + len r) L2 b /\ is_Some (g a) /\ is_Some (g b) /\
    hole f (upd g a (Some b)) (upd h b (Some (a, rtag rid))) L1 (n + len r) L2.
Proof.
  intros H M V. pose proof (hole_sized _ _ _ _ _ _ H) as [S1 S2]. pose proof H as (T&_&H1&[_ H2]&_). cbn [total] in T.
  apply (hole_unlink f g h L1 n (r :: L2)); [done|done|intros x Hx; apply S2; by right|done|lia|done|by rewrite Nat.add_assoc| |].
  - unfold on_lists. cbn [pick]. rewrite M, Nat.add_assoc. cbn [app]. by rewrite Permutation_middle.
  - intros rid' N. unfold on_lists. cbn [pick]. rewrite Nat.add_assoc.
    destruct (member rid' r) eqn:E; [|done]. exfalso. by apply N, (member_unique _ _ r).
Qed.

Lemma unlink_prev f g h L1 n r L2 rid :
  hole f g h (L1 ++ [r]) n L2 -> member rid r = true -> valid rid ->
  exists a b, g (Page (total L1)) = Some b /\ h (Page (total L1)) = Some (a, rtag rid) /\
    Page (total L1) <> a /\ Page (total L1) <> b /\
    linkable L1 (len r + n) L2 a /\ linkable L1 (len r + n) L2 b /\ is_Some (g a) /\ is_Some (g b) /\
    hole f (upd g a (Some b)) (upd h b (Some (a, rtag rid))) L1 (len r + n) L2.
Proof.
  intros H M V. pose proof (hole_sized _ _ _ _ _ _ H) as [S1 S2]. pose proof H as (T&_&H1&H2&_).
  apply laid_app in H1 as [H1 _]. rewrite total_app in *. cbn [total] in *. rewrite Nat.add_0_r in *.
  apply (hole_unlink f g h (L1 ++ [r]) n L2);
    [done|intros x Hx; apply S1, elem_of_app; by left|done|done|lia|done|by rewrite Nat.add_assoc| |].
  - unfold on_lists. rewrite pick_app, total_app. cbn [pick total]. rewrite M, !Nat.add_0_r, Nat.add_0_l, app_nil_r, Nat.add_assoc.
    rewrite Permutation_middle, <-app_assoc. done.
  - intros rid' N. unfold on_lists. rewrite pick_app, total_app. cbn [pick total]. rewrite !Nat.add_0_r, app_nil_r, Nat.add_assoc.
    destruct (member rid' r) eqn:E; [exfalso; by apply N, (member_unique _ _ r)|]. by rewrite app_nil_r.
Qed.

(** The hole is closed by a run on no list. *)
Lemma close f g h L1 r L2 :
  hole f g h L1 (len r) L2 -> listed r = false -> run_ok lst f g h (total L1) r -> hole f g h L1 0 (r :: L2).
Proof.
  intros (T&D&H1&H2&R) Hr Ok. unfold hole. rewrite !Nat.add_0_r. cbn [total laid]. split_and!; [lia|done..|].
  intros rid V. destruct (R rid V) as (l&El&Hl). exists l. split; [|done]. rewrite El. unfold on_lists. cbn [pick].
  destruct (member rid r) eqn:E; [apply member_listed in E; congruence|]. by rewrite Nat.add_0_r.
Qed.

(** The hole is closed by a run that goes to the front of its list. *)
Lemma close_push f g h L1 r L2 rid :
  hole f g h L1 (len r) L2 -> member rid r = true -> valid rid -> (1 <= len r)%nat ->
  let x := Page (total L1) in
  exists b, g (anchor rid) = Some b /\ linkable L1 (len r) L2 b /\ is_Some (g b) /\ x <> b /\
    let g' := upd (upd g x (Some b)) (anchor rid) (Some x) in
    let h' := upd (upd h x (Some (anchor rid, rtag rid))) b (Some (x, rtag rid)) in
    (run_ok lst f g' h' (total L1) r -> hole f g' h' L1 0 (r :: L2)).
Proof.
  intros H M V Hn x. pose proof (hole_sized _ _ _ _ _ _ H) as [S1 S2]. destruct H as (T&D&H1&H2&R).
  assert (Hx : forall rid', x ∉ on_lists L1 (len r) L2 rid').
  { intros rid' Hin. destruct (on_lists_page _ _ _ _ _ S1 S2 Hin) as (j&[= <-]&[[B _]|[B _]]); lia. }
  destruct (rings_push g h _ rid (total L1) R (on_lists_disjoint _ _ _ S1 S2) (on_lists_pages_only _ _ _ S1 S2) V Hx)
    as (b&Hg&Ib&Hne&Hr).
  exists b. pose proof (linkable_in _ _ _ _ _ S1 S2 Ib) as Lb. split_and!; [done|done| |done|].
  { by apply (ring_cell g h (on_lists L1 (len r) L2) rid). }
  intros g' h' Ok. specialize (Hr (on_lists L1 0 (r :: L2))). fold x g' h' in Hr.
  destruct (laid_relink f g h f g' h' L1 (len r) L2) as [H1' H2']; [done|done|done| |].
  { intros j Hj C. unfold g', h', upd in C. destruct (decide (Page j = x)) as [E|_].
    - injection E as ->. lia.
    - destruct C as [C|C]; case_decide as E; try done; [destruct rid; done|by subst]. }
  unfold hole. rewrite !Nat.add_0_r. cbn [total laid]. split_and!; [lia|done..|].
  apply Hr.
  - intros rid' N. unfold on_lists. cbn [pick]. rewrite Nat.add_0_r.
    destruct (member rid' r) eqn:E; [|done]. exfalso. by apply N, (member_unique _ _ r).
  - unfold on_lists. cbn [pick]. rewrite M, Nat.add_0_r. cbn [app]. by rewrite Permutation_middle.
Qed.

(** A free run gives up its first pages: the rest takes its place in the list. *)
Lemma take_front f g h L1 n L2 k :
  hole f g h L1 0 (RFree n :: L2) -> (1 <= k < n)%nat ->
  let x := Page (total L1) in let y := Page (total L1 + k) in
  exists a b, g x = Some b /\ h x = Some (a, 0) /\ x <> a /\ x <> b /\ linkable L1 n L2 a /\ linkable L1 n L2 b /\
    is_Some (g a) /\ is_Some (g b) /\
    forall f' g' h',
    (forall p, (forall j, p = Page j -> j < total L1 \/ total L1 + n <= j)%nat ->
       f' p = f p /\ g' p = upd g a (Some y) p /\ h' p = upd h b (Some (y, 0)) p) ->
    (forall j, (total L1 <= j < total L1 + n)%nat -> is_Some (f' (Page j))) ->
    g' y = Some b -> h' y = Some (a, 0) ->
    run_ok lst f' g' h' (total L1 + k) (RFree (n - k)) -> hole f' g' h' L1 k (RFree (n - k) :: L2).
Proof.
  intros H Hk x y. pose proof (hole_sized _ _ _ _ _ _ H) as [S1 S2']. pose proof H as (T&D&H1&H2'&R). cbn [laid] in H2'.
  assert (S2 : sized L2) by (intros z Hz; apply S2'; by right).
  pose proof H2' as [Hr H2]. rewrite Nat.add_0_r in Hr, H2. cbn [len total] in H2, T.
  assert (Hy : forall rid', y ∉ on_lists L1 0 (RFree n :: L2) rid').
  { intros rid' Hin. unfold on_lists in Hin. cbn [pick len] in Hin. rewrite Nat.add_0_r, !elem_of_app in Hin.
    destruct Hin as [Hin|[Hin|Hin]].
    - apply pick_bounds in Hin; [lia|done].
    - destruct (member rid' (RFree n)); [|by apply elem_of_nil in Hin]. apply list_elem_of_singleton in Hin. injection Hin as Hin. lia.
    - apply pick_bounds in Hin; [lia|done]. }
  assert (E1 : on_lists L1 0 (RFree n :: L2) None ≡ₚ x :: on_lists L1 n L2 None).
  { unfold on_lists. cbn [pick len member]. rewrite Nat.add_0_r. cbn [app]. by rewrite Permutation_middle. }
  destruct (rings_replace g h _ None x _ (total L1 + k) R (on_lists_disjoint _ _ _ S1 S2') (on_lists_pages_only _ _ _ S1 S2')
     I E1 Hy) as (a&b&Hg&Hh&Ia&Ib&Hrr).
  pose proof (linkable_in _ _ _ None _ S1 S2 Ia) as La. pose proof (linkable_in _ _ _ None _ S1 S2 Ib) as Lb.
  assert (Hlink : forall p, p ∈ anchor None :: on_lists L1 n L2 None -> is_Some (g p)).
  { intros p Hp. apply (ring_cell g h (on_lists L1 0 (RFree n :: L2)) None); [done..|]. rewrite E1.
    apply elem_of_cons in Hp as [->|Hp]; [left|by right; right]. }
  exists a, b. split_and!; try done.
  { intros <-. apply linkable_outside in La; [lia|done..]. }
  { intros <-. apply linkable_outside in Lb; [lia|done..]. }
  { by apply Hlink. }
  { by apply Hlink. }
  intros f' g' h' E E' Hgy Hhy Ok.
  assert (Out : forall p, p ∈ anchor None :: on_lists L1 n L2 None -> (forall j, p = Page j -> j < total L1 \/ total L1 + n <= j)%nat).
  { intros p Hp j ->. apply (linkable_in L1 n L2) in Hp; [|done..]. by eapply linkable_outside. }
  destruct (laid_relink f g h f' g' h' L1 n L2) as [H1' H2'']; [done|done| | |].
  { intros j Hj. apply E. intros j' [= <-]. done. }
  { intros j Hj C. destruct (E (Page j)) as (_&Eg&Eh); [intros j' [= <-]; done|]. rewrite Eg, Eh in C.
    unfold upd in C. destruct C as [C|C]; case_decide; subst; done. }
  unfold hole. cbn [total laid len]. split_and!; [lia| |done|done| |].
  - intros j Hj. destruct (decide (total L1 <= j < total L1 + n)%nat) as [|Hn]; [by apply E'|].
    rewrite (proj1 (E (Page j) ltac:(intros j' [= <-]; lia))). by apply D.
  - replace (total L1 + k + (n - k))%nat with (total L1 + n)%nat by lia. done.
  - set (m' := on_lists L1 k (RFree (n - k) :: L2)).
    assert (Em : forall rid, m' rid = pick (member rid) 0 L1 ++ (if member rid (RFree n) then [y] else []) ++ pick (member rid) (total L1 + n) L2).
    { intros rid. unfold m', on_lists. cbn [pick len]. replace (total L1 + k + (n - k))%nat with (total L1 + n)%nat by lia.
      destruct rid; done. }
    specialize (Hrr m'). apply (rings_same _ _ _ _ _ (Hrr ltac:(intros [r|] N; [by rewrite Em; unfold on_lists; cbn [pick member len]; rewrite Nat.add_0_r|done])
      ltac:(rewrite Em; unfold on_lists; cbn [member app]; by rewrite Permutation_middle))).
    intros rid p Hp. destruct (decide (p = y)) as [->|Hpy].
    + rewrite (upd_ne _ a y), (upd_ne _ b y), !upd_eq, Hgy, Hhy; [done| |]; intros <-; apply linkable_outside in Lb || apply linkable_outside in La; try done; lia.
    + destruct (E p) as (_&Eg&Eh); [|rewrite Eg, Eh; unfold upd; by rewrite !(decide_False (P := p = y))].
      intros j ->. apply elem_of_cons in Hp as [Hp|Hp]; [by destruct rid|].
      rewrite Em, !elem_of_app in Hp. destruct Hp as [Hp|[Hp|Hp]].
      * apply pick_bounds in Hp; [lia|done].
      * destruct (member rid (RFree n)); set_solver.
      * apply pick_bounds in Hp; [lia|done].
Qed.
(** A page of chunks whose bitmap changes, but not whether it is full. *)
Lemma hole_bits f g h L1 sh bits bits' L2 :
  hole f g h L1 0 (RSlab sh bits :: L2) -> 0 <= bits' < 2 ^ cap sh -> full sh bits = false -> full sh bits' = false ->
  hole (upd f (Page (total L1)) (Some (word sh bits'))) g h L1 0 (RSlab sh bits' :: L2).
Proof.
  intros H Hb Hf Hf'. pose proof H as (T&D&H1&[(Hsh&_&_&_) H2]&R). rewrite Nat.add_0_r in *. cbn [total len] in *.
  destruct (laid_relink f g h (upd f (Page (total L1)) (Some (word sh bits'))) g h L1 1 L2) as [H1' H2']; [done|done| |by intros j _ []|].
  { intros j Hj. rewrite upd_ne; [done|]. intros [= ->]. lia. }
  unfold hole. rewrite !Nat.add_0_r. cbn [total len laid]. split_and!; [done| |done| |done|].
  - intros j Hj. by apply upd_is_some, D.
  - cbn [run_ok]. rewrite upd_eq, Hf'. done.
  - intros rid V. destruct (R rid V) as (l&El&Hl). exists l. split; [|done]. rewrite El. unfold on_lists. cbn [pick len].
    replace (member rid (RSlab sh bits')) with (member rid (RSlab sh bits)); [done|]. destruct rid; cbn [member]; by rewrite ?Hf, ?Hf'.
Qed.

(** The heads of the lists are free to have any predecessor. *)
Lemma hole_heads f g h h' L1 n L2 : hole f g h L1 n L2 -> (forall j, h' (Page j) = h (Page j)) -> hole f g h' L1 n L2.
Proof.
  intros (T&D&H1&H2&R) E. destruct (laid_relink f g h f g h' L1 n L2) as [H1' H2']; [done|done|done| |].
  { intros j _ [C|C]; [done|]. by rewrite E in C. }
  split_and!; try done. intros rid V. pose proof (laid_sized _ _ _ _ _ H1) as S1. pose proof (laid_sized _ _ _ _ _ H2) as S2.
  destruct (R rid V) as (l&El&Hl). exists l. split; [done|]. eapply ring_ext; [done|done|].
  intros p Hp. rewrite El in Hp. destruct (on_lists_page _ _ _ _ _ S1 S2 Hp) as (j&->&_). by apply E.
Qed.
End hole.
End SlabHole.
