(* ===== verification/SlabPages.v ===== *)
(** * Runs of pages: taking and giving back

    [al_slab_alloc_pages] and [al_slab_free_pages] keep the invariant of the pool:
    the first takes the front of a free run, the second joins the pages with the
    free runs on either side. *)

From Stdlib Require Import ZArith Lia Bool.
From stdpp Require Import base tactics option gmap list.
From S2P Require Import Prelude Slab SlabRing SlabInv SlabHole.

Open Scope Z_scope.

Module SlabPages.
Import Slab SlabRing SlabInv SlabHole.

(** ** Steps *)

(** A write leaves the other fields and the set of cells as they are. *)
Definition grows (M M' : gmap ptr cell) : Prop := forall q, is_Some (M !! q) -> is_Some (M' !! q).

Lemma writes_step c s f g h : writes c s f g h -> (forall q, is_Some (slb (cells s) q) -> is_Some (f q)) ->
  exists M, c s = (ok tt, with_cells s M) /\ (forall p, slb M p = f p) /\ (forall p, nxt M p = g p) /\ (forall p, prv M p = h p) /\
    grows (cells s) M.
Proof.
  intros (M&E&Hf&Hg&Hh) D. exists M. split_and!; [done..|]. intros q Hq.
  assert (Hs : is_Some (slb M q)) by (rewrite Hf; apply D; unfold slb; by rewrite fmap_is_Some).
  unfold slb in Hs. by rewrite fmap_is_Some in Hs.
Qed.

Lemma set_slab_step s M p z : is_Some (M !! p) ->
  exists M', set_slab p z (with_cells s M) = (ok tt, with_cells s M') /\ (forall q, slb M' q = upd (slb M) p (Some z) q) /\
    (forall q, nxt M' q = nxt M q) /\ (forall q, prv M' q = prv M q) /\ grows M M'.
Proof.
  intros H. destruct (writes_step _ _ _ _ _ (set_slab_writes (with_cells s M) p z ltac:(by rewrite cells_with))) as (M'&E&H').
  { intros q Hq. by apply upd_is_some. }
  rewrite with_with, cells_with in *. eauto.
Qed.

Lemma set_next_step s M p z : is_Some (M !! p) ->
  exists M', set_next p z (with_cells s M) = (ok tt, with_cells s M') /\ (forall q, slb M' q = slb M q) /\
    (forall q, nxt M' q = upd (nxt M) p (Some z) q) /\ (forall q, prv M' q = prv M q) /\ grows M M'.
Proof.
  intros H. destruct (writes_step _ _ _ _ _ (set_next_writes (with_cells s M) p z ltac:(by rewrite cells_with))) as (M'&E&H'); [done|].
  rewrite with_with, cells_with in *. eauto.
Qed.

Lemma set_prev_step s M p z t : is_Some (M !! p) ->
  exists M', set_prev p z t (with_cells s M) = (ok tt, with_cells s M') /\ (forall q, slb M' q = slb M q) /\
    (forall q, nxt M' q = nxt M q) /\ (forall q, prv M' q = upd (prv M) p (Some (z, t)) q) /\ grows M M'.
Proof.
  intros H. destruct (writes_step _ _ _ _ _ (set_prev_writes (with_cells s M) p z t ltac:(by rewrite cells_with))) as (M'&E&H'); [done|].
  rewrite with_with, cells_with in *. eauto.
Qed.

Lemma put_step s M p c : is_Some (M !! p) ->
  exists M', put p c (with_cells s M) = (ok tt, with_cells s M') /\ (forall q, slb M' q = upd (slb M) p (Some (slab c)) q) /\
    (forall q, nxt M' q = upd (nxt M) p (Some (next c)) q) /\ (forall q, prv M' q = upd (prv M) p (Some (prev c, tag c)) q) /\ grows M M'.
Proof.
  intros H. destruct (writes_step _ _ _ _ _ (put_writes (with_cells s M) p c ltac:(by rewrite cells_with))) as (M'&E&H').
  { intros q Hq. by apply upd_is_some. }
  rewrite with_with, cells_with in *. eauto.
Qed.

Lemma unlink_step s M x a b t :
  nxt M x = Some b -> prv M x = Some (a, t) -> x <> a -> is_Some (M !! a) -> is_Some (M !! b) ->
  exists M', unlink x (with_cells s M) = (ok tt, with_cells s M') /\ (forall q, slb M' q = slb M q) /\
    (forall q, nxt M' q = upd (nxt M) a (Some b) q) /\ (forall q, prv M' q = upd (prv M) b (Some (a, t)) q) /\ grows M M'.
Proof.
  intros H1 H2 H3 H4 H5. destruct (writes_step _ _ _ _ _ (unlink_writes (with_cells s M) x a b t ltac:(by rewrite cells_with)
    ltac:(by rewrite cells_with) H3 ltac:(by rewrite cells_with) ltac:(by rewrite cells_with))) as (M'&E&H'); [done|].
  rewrite with_with, cells_with in *. eauto.
Qed.

Lemma get_step s M p z q r : slb M p = Some z -> nxt M p = Some q -> prv M p = Some r ->
  get p (with_cells s M) = (ok (mk_cell z q r.1 r.2), with_cells s M).
Proof. intros H1 H2 H3. apply get_cell. rewrite cells_with. by apply lookup_fields. Qed.

(** A cell that exists has all its fields. *)
Lemma cell_fields M p : is_Some (M !! p) -> exists z q r, slb M p = Some z /\ nxt M p = Some q /\ prv M p = Some r.
Proof. intros [c H]. unfold slb, nxt, prv. rewrite H. by exists (slab c), (next c), (prev c, tag c). Qed.

Lemma cell_of_nxt M p : is_Some (nxt M p) -> is_Some (M !! p).
Proof. unfold nxt. by rewrite fmap_is_Some. Qed.
Lemma cell_of_slb M p : is_Some (slb M p) -> is_Some (M !! p).
Proof. unfold slb. by rewrite fmap_is_Some. Qed.

Lemma off_ok (s : pool) i k : off (Page i) (Z.of_nat k) s = (ok (Page (i + k)), s).
Proof.
  unfold off. rewrite (proj2 (Z.leb_le 0 _)) by lia. unfold st_ret, ok. do 3 f_equal. lia.
Qed.

(** The cells behind the first of a run. *)
Definition filled (M M' : gmap ptr cell) (z : Z) (i n : nat) : Prop :=
  (forall p, (forall j, p = Page j -> j < i \/ i + n <= j)%nat -> M' !! p = M !! p) /\
  (forall j, (i <= j < i + n)%nat -> M' !! Page j = Some (mk_cell z Null Null 0)).

Lemma fill_step z n : forall s M i, (forall j, (i <= j < i + n)%nat -> is_Some (M !! Page j)) ->
  exists M', fill z n (Page i) (with_cells s M) = (ok tt, with_cells s M') /\ filled M M' z i n.
Proof.
  induction n as [|n IH]; intros s M i H.
  - exists M. split; [done|]. split; [done|]. lia.
  - pose (M1 := <[Page i := mk_cell z Null Null 0]> M). cbn [fill]. unfold AL_SLAB_PAGE.
    assert (E : put (Page i) (mk_cell z Null Null 0) (with_cells s M) = (ok tt, with_cells s M1)).
    { rewrite put_ok; [by rewrite cells_with, with_with|]. rewrite cells_with. apply H. lia. }
    rewrite (st_bind_ok _ _ _ _ _ E).
    assert (E2 : exists p, (match n with O => st_ret (Page i) | _ => off (Page i) 1 end) (with_cells s M1) = (ok p, with_cells s M1) /\
                   (n <> O -> p = Page (S i))).
    { destruct n; [by exists (Page i)|]. exists (Page (i + 1)). rewrite (off_ok _ i 1). split; [done|]. intros _. f_equal. lia. }
    destruct E2 as (p&E2&Hp). rewrite (st_bind_ok _ _ _ _ _ E2). destruct n as [|n].
    + exists M1. split; [done|]. unfold filled, M1. split.
      * intros q Hq. rewrite lookup_insert_ne; [done|]. intros <-. specialize (Hq i eq_refl). lia.
      * intros j Hj. replace j with i by lia. by rewrite lookup_insert_eq.
    + rewrite (Hp ltac:(done)). destruct (IH s M1 (S i)) as (M'&E'&H1&H2).
      { intros j Hj. unfold M1. rewrite lookup_insert_ne by (intros [=]; lia). apply H. lia. }
      exists M'. split; [done|]. split.
      * intros q Hq. rewrite H1 by (intros j ->; specialize (Hq j eq_refl); lia). unfold M1.
        rewrite lookup_insert_ne; [done|]. intros <-. specialize (Hq i eq_refl). lia.
      * intros j Hj. destruct (decide (j = i)) as [->|]; [|apply H2; lia].
        rewrite H1 by (intros j [= ->]; lia). unfold M1. by rewrite lookup_insert_eq.
Qed.

(** ** The invariant *)
Fixpoint frees (L : list run) : nat :=
  match L with [] => 0 | RFree n :: L => n + frees L | _ :: L => frees L end%nat.

Lemma frees_app L1 L2 : frees (L1 ++ L2) = (frees L1 + frees L2)%nat.
Proof. induction L1 as [|[n|n|sh b] L1 IH]; simpl; [done|rewrite IH; lia|done|done]. Qed.

Lemma frees_total L : (frees L <= total L)%nat.
Proof. induction L as [|[n|n|sh b] L IH]; simpl; lia. Qed.

(** What no operation changes: the sizes, the memory of the pool. *)
Record fixed (s : pool) : Prop := {
  fixed_min : min_size s = 64 /\ min_shift s = 6;
  fixed_stats : length (stats s) = 6%nat;
  fixed_start : 0 < start s /\ start s mod 4096 = 0;
  fixed_end : start s + 4096 * Z.of_nat (last s) <= end_ s < 2 ^ 64 }.

(** The cells [M] of a pool with [lst] pages, around a hole. *)
Definition around (lst : nat) (M : gmap ptr cell) L1 n L2 : Prop := hole lst (slb M) (nxt M) (prv M) L1 n L2.

(** The pages of the pool are the runs [L]. *)
Record Inv (s : pool) (L : list run) : Prop := {
  inv_around : around (last s) (cells s) [] 0 L;
  inv_fixed : fixed s;
  inv_pfree : pfree s = Z.of_nat (frees L) }.

Lemma around_cell lst M L1 n L2 j : around lst M L1 n L2 -> (j < lst)%nat -> is_Some (M !! Page j).
Proof. intros (_&D&_) H. by apply cell_of_slb, D. Qed.

Lemma around_total lst M L1 n L2 : around lst M L1 n L2 -> (total L1 + n + total L2)%nat = lst.
Proof. by intros (T&_). Qed.

Lemma linkable_not_in lst M L1 n L2 a j : around lst M L1 n L2 -> linkable L1 n L2 a -> (total L1 <= j < total L1 + n)%nat -> Page j <> a.
Proof.
  intros H La Hj <-. destruct (hole_sized _ _ _ _ _ _ _ H) as [S1 S2].
  apply linkable_outside in La; [lia|done..].
Qed.

(** The rest of a free run takes its place in the list. *)
Lemma split_step s M L1 n L2 k :
  around (last s) M L1 0 (RFree n :: L2) -> (1 <= k < n)%nat ->
  exists b a, nxt M (Page (total L1)) = Some b /\ prv M (Page (total L1)) = Some (a, 0) /\
  exists M',
    (do _ <- set_prev (Page (total L1 + (n - 1))) (Page (total L1 + k)) 0 ;;
     do _ <- set_slab (Page (total L1 + k)) (Z.of_nat n - Z.of_nat k) ;;
     do _ <- set_next (Page (total L1 + k)) b ;;
     do _ <- set_prev (Page (total L1 + k)) a 0 ;;
     do _ <- set_next a (Page (total L1 + k)) ;;
     set_prev b (Page (total L1 + k)) 0) (with_cells s M) = (ok tt, with_cells s M') /\
    around (last s) M' L1 k (RFree (n - k) :: L2).
Proof.
  intros H Hk. pose proof (around_total _ _ _ _ _ H) as T. cbn [total len] in T.
  destruct (take_front _ _ _ _ _ _ _ k H Hk) as (a&b&Hg&Hh&Hxa&Hxb&La&Lb&Ca&Cb&Hfin).
  exists b, a. split; [done|]. split; [done|]. pose proof H as (_&_&_&[Hr _]&_). rewrite Nat.add_0_r in Hr.
  destruct Hr as (_&_&Hin&_).
  set (l := Page (total L1 + (n - 1))). set (y := Page (total L1 + k)).
  destruct (hole_sized _ _ _ _ _ _ _ H) as [S1 S2']. assert (S2 : sized L2) by (intros z Hz; apply S2'; by right).
  assert (Out : forall j c, linkable L1 n L2 c -> (total L1 <= j < total L1 + n)%nat -> Page j <> c).
  { intros j c Lc Hj <-. apply linkable_outside in Lc; [lia|done..]. }
  destruct (set_prev_step s M l y 0) as (M1&E1&F1&G1&P1&D1); [apply (around_cell _ _ _ _ _ _ H); lia|].
  destruct (set_slab_step s M1 y (Z.of_nat n - Z.of_nat k)) as (M2&E2&F2&G2&P2&D2); [apply D1; apply (around_cell _ _ _ _ _ _ H); lia|].
  destruct (set_next_step s M2 y b) as (M3&E3&F3&G3&P3&D3); [apply D2, D1; apply (around_cell _ _ _ _ _ _ H); lia|].
  destruct (set_prev_step s M3 y a 0) as (M4&E4&F4&G4&P4&D4); [apply D3, D2, D1; apply (around_cell _ _ _ _ _ _ H); lia|].
  destruct (set_next_step s M4 a y) as (M5&E5&F5&G5&P5&D5); [by apply D4, D3, D2, D1, cell_of_nxt|].
  destruct (set_prev_step s M5 b y 0) as (M6&E6&F6&G6&P6&D6); [by apply D5, D4, D3, D2, D1, cell_of_nxt|].
  exists M6. split.
  { rewrite (st_bind_ok _ _ _ _ _ E1), (st_bind_ok _ _ _ _ _ E2), (st_bind_ok _ _ _ _ _ E3), (st_bind_ok _ _ _ _ _ E4), (st_bind_ok _ _ _ _ _ E5). done. }
  assert (VF : forall p, slb M6 p = upd (slb M) y (Some (Z.of_nat n - Z.of_nat k)) p).
  { intros p. rewrite F6, F5, F4, F3, F2. unfold upd. by rewrite F1. }
  assert (VG : forall p, nxt M6 p = upd (upd (nxt M) y (Some b)) a (Some y) p).
  { intros p. rewrite G6, G5. unfold upd. by rewrite G4, G3; unfold upd; rewrite G2, G1. }
  assert (VP : forall p, prv M6 p = upd (upd (upd (prv M) l (Some (y, 0))) y (Some (a, 0))) b (Some (y, 0)) p).
  { intros p. rewrite P6. unfold upd. rewrite P5, P4. unfold upd. by rewrite P3, P2, P1. }
  assert (Hya : y <> a) by (apply Out; [done|lia]). assert (Hyb : y <> b) by (apply Out; [done|lia]).
  apply Hfin.
  - intros p Hp. rewrite VF, VG, VP. assert (p <> y) by (intros ->; specialize (Hp _ eq_refl); lia).
    assert (p <> l) by (intros ->; specialize (Hp _ eq_refl); lia). unfold upd. by rewrite !(decide_False (P := p = y)), (decide_False (P := p = l)).
  - intros j Hj. rewrite VF. apply upd_is_some. destruct H as (_&D&_). apply D. lia.
  - rewrite VG, upd_ne, upd_eq by done. done.
  - rewrite VP, upd_ne, upd_eq by done. done.
  - cbn [run_ok]. split_and!; [lia| | |].
    + fold y. rewrite VF, upd_eq. f_equal. lia.
    + intros j Hj. destruct (Hin j ltac:(lia)) as (I1&I2&q&I3). unfold inner.
      rewrite VF, VG, VP, (upd_ne _ a), (upd_ne _ b), !(upd_ne _ y) by (try (apply Out; [done|lia]); unfold y; intros [=]; lia).
      split_and!; [done..|]. unfold upd. case_decide; eauto.
    + intros H1 _. replace (total L1 + k + (n - k) - 1)%nat with (total L1 + (n - 1))%nat by lia. fold l.
      rewrite VP, (upd_ne _ b), (upd_ne _ y), upd_eq by (try (apply Out; [done|lia]); unfold l, y; intros [=]; lia). eauto.
Qed.

Lemma filled_view M M' z i n : filled M M' z i n ->
  (forall p, (forall j, p = Page j -> j < i \/ i + n <= j)%nat -> slb M' p = slb M p /\ nxt M' p = nxt M p /\ prv M' p = prv M p) /\
  (forall j, (i <= j < i + n)%nat -> slb M' (Page j) = Some z /\ nxt M' (Page j) = Some Null /\ prv M' (Page j) = Some (Null, 0)).
Proof. intros [H1 H2]. unfold slb, nxt, prv. split; [intros p Hp; by rewrite H1|intros j Hj; by rewrite H2]. Qed.

(** The cells behind the first of a run, when there are any. *)
Lemma fill_rest z s M i k : (1 <= k)%nat -> (forall j, (i <= j < i + k)%nat -> is_Some (M !! Page j)) ->
  exists M', (if Z.of_nat k =? 1 then st_ret tt else do p <- off (Page i) 1 ;; fill z (Z.to_nat (Z.of_nat k - 1)) p) (with_cells s M)
    = (ok tt, with_cells s M') /\ filled M M' z (i + 1) (k - 1).
Proof.
  intros Hk H. destruct (Z.eqb_spec (Z.of_nat k) 1) as [E|E].
  - exists M. split; [done|]. replace (k - 1)%nat with 0%nat by lia. split; [done|lia].
  - rewrite (st_bind_ok _ _ _ _ _ (off_ok _ i 1)). replace (Z.to_nat (Z.of_nat k - 1)) with (k - 1)%nat by lia.
    apply fill_step. intros j Hj. apply H. lia.
Qed.

(** The pages of a hole become a run that is handed out. *)
Lemma busy_step s M L1 k L2 :
  around (last s) M L1 k L2 -> (1 <= k)%nat ->
  exists M',
    (do _ <- put (Page (total L1)) (mk_cell (Z.lor (Z.of_nat k) AL_SLAB_PAGE_START) Null Null AL_SLAB_PAGE) ;;
     do _ <- st_modify (fun s => s <| pfree := u64 (pfree s - Z.of_nat k) |>) ;;
     if Z.of_nat k =? 1 then st_ret tt else
     do p <- off (Page (total L1)) 1 ;; mark_busy (Z.to_nat (Z.of_nat k - 1)) p) (with_cells s M)
    = (ok tt, with_cells (s <| pfree := u64 (pfree s - Z.of_nat k) |>) M') /\
    around (last s) M' L1 0 (RBusy k :: L2).
Proof.
  intros H Hk. pose proof (around_total _ _ _ _ _ H) as T.
  destruct (put_step s M (Page (total L1)) (mk_cell (Z.lor (Z.of_nat k) AL_SLAB_PAGE_START) Null Null AL_SLAB_PAGE))
    as (M1&E1&F1&G1&P1&D1); [apply (around_cell _ _ _ _ _ _ H); lia|].
  destruct (fill_rest AL_SLAB_PAGE_BUSY (s <| pfree := u64 (pfree s - Z.of_nat k) |>) M1 (total L1) k Hk) as (M'&E2&Hf).
  { intros j Hj. apply D1, (around_cell _ _ _ _ _ _ H). lia. }
  apply filled_view in Hf as [V1 V2]. exists M'. split.
  { rewrite (st_bind_ok _ _ _ _ _ E1), (st_bind_ok _ _ _ tt (with_cells (s <| pfree := u64 (pfree s - Z.of_nat k) |>) M1)) by (by destruct s).
    exact E2. }
  assert (Hx : slb M' (Page (total L1)) = Some (Z.lor (Z.of_nat k) AL_SLAB_PAGE_START) /\ nxt M' (Page (total L1)) = Some Null /\
               prv M' (Page (total L1)) = Some (Null, 0)).
  { destruct (V1 (Page (total L1))) as (->&->&->); [intros j [= <-]; lia|]. by rewrite F1, G1, P1, !upd_eq. }
  apply close; [|done|].
  - eapply hole_ext; [exact H| |].
    + intros p Hp. assert (p <> Page (total L1)) by (intros ->; specialize (Hp _ eq_refl); cbn [len] in Hp; lia).
      destruct (V1 p) as (->&->&->); [intros j ->; specialize (Hp _ eq_refl); cbn [len] in Hp; lia|].
      by rewrite F1, G1, P1, !upd_ne.
    + intros j Hj. cbn [len] in Hj. destruct (decide (j = total L1)) as [->|]; [destruct Hx as [-> _]; eauto|].
      destruct (V2 j ltac:(lia)) as [-> _]. eauto.
  - cbn [run_ok]. split_and!; [done| |]; unfold inner.
    + destruct Hx as (->&->&->). eauto.
    + intros j Hj. destruct (V2 j ltac:(lia)) as (->&->&->). eauto.
Qed.

(** What is left of a free run. *)
Definition rest (n k : nat) : list run := if decide (k < n)%nat then [RFree (n - k)] else [].

Lemma take_pages_step s M L1 n L2 k :
  around (last s) M L1 0 (RFree n :: L2) -> (1 <= k <= n)%nat ->
  exists M', take_pages (Page (total L1)) (Z.of_nat k) (with_cells s M) = (ok tt, with_cells (s <| pfree := u64 (pfree s - Z.of_nat k) |>) M') /\
    around (last s) M' L1 0 (RBusy k :: rest n k ++ L2).
Proof.
  intros H Hk. pose proof (around_total _ _ _ _ _ H) as T. cbn [total len] in T.
  pose proof H as (_&_&_&[Hr _]&_). rewrite Nat.add_0_r in Hr. destruct Hr as (_&Hx&_&_).
  unfold take_pages, rest. destruct (decide (k < n)%nat) as [Hlt|Hge].
  - destruct (split_step s M L1 n L2 k H ltac:(lia)) as (b&a&Hg&Hh&M1&E1&H1).
    destruct (busy_step s M1 L1 k _ H1 ltac:(lia)) as (M2&E2&H2). exists M2. split; [|done].
    rewrite (st_bind_ok _ _ _ _ _ (get_step s M _ _ _ _ Hx Hg Hh)). cbn [slab next prev tag fst snd untagged_prev].
    rewrite (proj2 (Z.ltb_lt _ _)) by lia.
    replace (Z.of_nat n - 1) with (Z.of_nat (n - 1)) by lia.
    rewrite (st_bind_ok _ _ _ tt (with_cells s M1)); [exact E2|]. etransitivity; [|exact E1].
    rewrite (st_bind_ok _ _ _ _ _ (off_ok _ _ _)), (st_bind_ok _ _ _ _ _ (off_ok _ _ _)). reflexivity.
  - assert (k = n) by lia. subst k.
    destruct (unlink_next _ _ _ _ _ _ _ _ None H eq_refl I) as (a&b&Hg&Hh&Hxa&Hxb&La&Lb&Ca&Cb&Hfin).
    rewrite Nat.add_0_r in *. cbn [len] in *. rewrite Nat.add_0_l in *.
    destruct (set_next_step s M a b) as (M1&E1&F1&G1&P1&D1); [by apply cell_of_nxt|].
    destruct (set_prev_step s M1 b a 0) as (M2&E2&F2&G2&P2&D2); [by apply D1, cell_of_nxt|].
    assert (H2 : around (last s) M2 L1 n L2).
    { eapply hole_ext; [exact Hfin| |].
      - intros p _. rewrite F2, F1, G2, G1, P2. unfold upd. rewrite P1. done.
      - intros j Hj. rewrite F2, F1. destruct H as (_&D&_). apply D. lia. }
    destruct (busy_step s M2 L1 n L2 H2 ltac:(lia)) as (M3&E3&H3). exists M3. split; [|done].
    rewrite (st_bind_ok _ _ _ _ _ (get_step s M _ _ _ _ Hx Hg Hh)). cbn [slab next prev tag fst snd untagged_prev].
    rewrite (proj2 (Z.ltb_ge _ _)) by lia.
    rewrite (st_bind_ok _ _ _ tt (with_cells s M2)); [exact E3|]. etransitivity; [|exact E2].
    transitivity ((do _ <- set_next a b ;; set_prev b a 0) (with_cells s M)); [reflexivity|]. by rewrite (st_bind_ok _ _ _ _ _ E1).
Qed.

(** What an operation on pages leaves as it is. *)
Record same (s s' : pool) : Prop := {
  same_last : last s' = last s; same_stats : stats s' = stats s; same_start : start s' = start s; same_end : end_ s' = end_ s;
  same_min_size : min_size s' = min_size s; same_min_shift : min_shift s' = min_shift s }.

Lemma same_fixed s s' : same s s' -> fixed s -> fixed s'.
Proof. intros [E1 E2 E3 E4 E5 E6] [H1 H2 H3 H4]. split; rewrite ?E1, ?E2, ?E3, ?E4, ?E5, ?E6; done. Qed.

Lemma same_pool_trans s1 s2 s3 : same s1 s2 -> same s2 s3 -> same s1 s3.
Proof. intros [] []. split; congruence. Qed.

Lemma same_pfree s M z : same s (with_cells (s <| pfree := z |>) M).
Proof. by destruct s. Qed.

Lemma same_cells s M : same s (with_cells s M).
Proof. by destruct s. Qed.

Lemma inv_bound s L : Inv s L -> 4096 * Z.of_nat (last s) < 2 ^ 64.
Proof. intros [_ [_ _ [H1 _] H2] _]. lia. Qed.

Lemma u64_id z : 0 <= z < 2 ^ 64 -> u64 z = z.
Proof. intros H. unfold u64, wrap. by apply Z.mod_small. Qed.

Lemma take_pages_spec s L1 n L2 k :
  Inv s (L1 ++ RFree n :: L2) -> (1 <= k <= n)%nat ->
  exists s', take_pages (Page (total L1)) (Z.of_nat k) s = (ok tt, s') /\ Inv s' (L1 ++ RBusy k :: rest n k ++ L2) /\ same s s'.
Proof.
  intros HI Hk. pose proof (inv_bound _ _ HI) as B. destruct HI as [H F P]. apply hole_cut in H.
  destruct (take_pages_step s (cells s) L1 n L2 k H Hk) as (M'&E&H'). rewrite with_cells_id in E.
  exists (with_cells (s <| pfree := u64 (pfree s - Z.of_nat k) |>) M'). split; [done|].
  pose proof (same_pfree s M' (u64 (pfree s - Z.of_nat k))) as S. split; [|done]. split.
  - rewrite cells_with, (same_last _ _ S). by apply hole_whole.
  - by eapply same_fixed.
  - transitivity (u64 (pfree s - Z.of_nat k)); [by destruct s|]. apply around_total in H. cbn [total len] in H.
    rewrite P, frees_app. cbn [frees]. pose proof (frees_total L1). pose proof (frees_total L2).
    rewrite u64_id by lia. rewrite frees_app. cbn [frees]. rewrite frees_app. unfold rest. case_decide; simpl; lia.
Qed.

(** *** The walk *)
Lemma nodup_size (M : gmap ptr cell) (l : list ptr) : NoDup l -> (forall p, p ∈ l -> is_Some (M !! p)) -> (length l <= size M)%nat.
Proof.
  intros Hn H. rewrite <-size_dom. rewrite <-(size_list_to_set (C := gset ptr) l Hn). apply subseteq_size.
  intros p Hp. apply elem_of_list_to_set in Hp. by apply elem_of_dom, H.
Qed.

(** The runs behind [Free], from the walk's position on. *)
Lemma find_pages_walk s L k : Inv s L -> (1 <= k)%nat ->
  forall l2 l1 fuel, ring (nxt (cells s)) (prv (cells s)) 0 Free (l1 ++ l2) -> l1 ++ l2 ≡ₚ pick (member None) 0 L ->
  (length l2 < fuel)%nat ->
  (exists L1 n L2 s', L = L1 ++ RFree n :: L2 /\ (k <= n)%nat /\
     find_pages fuel (head_of l2 Free) (Z.of_nat k) s = (ok (Some (Page (total L1))), s') /\
     Inv s' (L1 ++ RBusy k :: rest n k ++ L2) /\ same s s') \/
  (find_pages fuel (head_of l2 Free) (Z.of_nat k) s = (ok None, s) /\
   forall L1 n L2, L = L1 ++ RFree n :: L2 -> Page (total L1) ∈ l2 -> (n < k)%nat).
Proof.
  intros HI Hk l2. induction l2 as [|p l2 IH]; intros l1 fuel Hring Hl Hfuel; (destruct fuel as [|fuel]; [cbn in Hfuel; lia|]).
  - right. split; [done|]. intros L1 n L2 _ ?%elem_of_nil. done.
  - cbn [head_of hd find_pages].
    assert (Hp : p ∈ pick (member None) 0 L) by (rewrite <-Hl; set_solver). apply pick_in in Hp as (L1&r&L2&EL&Hr&->).
    destruct r as [n|n|sh bits]; try done. rewrite Nat.add_0_l.
    pose proof HI as [H _ _]. rewrite EL in H. apply hole_cut in H. pose proof H as (_&_&_&[Hok _]&_).
    rewrite Nat.add_0_r in Hok. destruct Hok as (Hn&Hx&_&_).
    pose proof Hring as [Hs _]. apply seg_app in Hs as (_&Hh&Hs). apply seg_start in Hs. rewrite Nat.add_0_l in Hs, Hh.
    rewrite bool_decide_false by done.
    assert (E : get (Page (total L1)) s = (ok (mk_cell (Z.of_nat n) (head_of l2 Free) (end_of Free l1) 0), s)).
    { pose proof (get_step s (cells s) _ _ _ _ Hx Hs Hh) as E. by rewrite with_cells_id in E. }
    rewrite (st_bind_ok _ _ _ _ _ E). cbn [slab next]. destruct (Z.leb_spec (Z.of_nat k) (Z.of_nat n)) as [Hkn|Hkn].
    + left. rewrite EL in HI. destruct (take_pages_spec s L1 n L2 k HI ltac:(lia)) as (s'&E'&H'&S').
      exists L1, n, L2, s'. split_and!; [done|lia| |done|done]. by rewrite (st_bind_ok _ _ _ _ _ E').
    + destruct (IH (l1 ++ [Page (0 + total L1)]) fuel) as [(L1'&n'&L2'&s'&H1&H2&H3&H4)|[H1 H2]].
      * by rewrite <-app_assoc.
      * by rewrite <-app_assoc.
      * cbn in Hfuel. lia.
      * left. exists L1', n', L2', s'. done.
      * right. split; [done|]. intros L1' n' L2' EL' [Hin|Hin]%elem_of_cons; [|by eapply H2].
        injection Hin as Hin. pose proof (hole_sized _ _ _ _ _ _ _ (inv_around _ _ HI)) as [_ Sz]. rewrite EL in Sz.
        destruct (split_unique L1 (RFree n) L2 L1' (RFree n') L2') as (_&E2&_); [done|congruence|lia|]. injection E2 as <-. lia.
Qed.

Lemma alloc_pages_spec s L k : Inv s L -> (1 <= k)%nat ->
  (exists L1 n L2 s', L = L1 ++ RFree n :: L2 /\ (k <= n)%nat /\
     al_slab_alloc_pages (Z.of_nat k) s = (ok (Some (Page (total L1))), s') /\
     Inv s' (L1 ++ RBusy k :: rest n k ++ L2) /\ same s s') \/
  (al_slab_alloc_pages (Z.of_nat k) s = (ok None, s) /\ forall n, RFree n ∈ L -> (n < k)%nat).
Proof.
  intros HI Hk. pose proof (inv_around _ _ HI) as (_&_&_&_&R). destruct (R None I) as (l&El&Hl). cbn [on_lists pick app] in El.
  pose proof Hl as [Hs Hn]. apply seg_start in Hs. pose proof (is_cell_nxt _ _ _ Hs) as Hc.
  destruct (cell_fields _ _ Hc) as (z&q&r&H1&H2&H3). rewrite Hs in H2. injection H2 as <-.
  pose proof (get_step s (cells s) _ _ _ _ H1 Hs H3) as E. rewrite with_cells_id in E.
  assert (EA : al_slab_alloc_pages (Z.of_nat k) s = find_pages (S (size (cells s))) (head_of l Free) (Z.of_nat k) s).
  { unfold al_slab_alloc_pages. rewrite (st_bind_ok _ _ _ _ _ E). reflexivity. }
  assert (Hlen : (length l <= size (cells s))%nat).
  { apply NoDup_cons in Hn as [_ Hn]. apply nodup_size; [done|]. intros p Hp.
    destruct (ring_links _ _ _ _ _ _ Hl Hp) as (y&?&Hy&_). by eapply is_cell_nxt. }
  rewrite EA. destruct (find_pages_walk s L k HI Hk l [] (S (size (cells s))) Hl El ltac:(lia)) as [Hf|[Hf1 Hf2]]; [by left|right].
  split; [done|]. intros n Hin. apply list_elem_of_split in Hin as (L1&L2&EL). apply (Hf2 L1 n L2 EL).
  rewrite El, EL. apply pick_in. by exists L1, (RFree n), L2.
Qed.

(** ** Giving pages back *)

(** The free run in front of a list of runs, and the rest. *)
Definition front_free (L : list run) : nat * list run := match L with RFree m :: L => (m, L) | _ => (0%nat, L) end.
Definition back_free (L : list run) : nat * list run := let '(m, L) := front_free (rev L) in (m, rev L).

Lemma around_of lst M f g h L1 n L2 :
  hole lst f g h L1 n L2 -> (forall p, slb M p = f p) -> (forall p, nxt M p = g p) -> (forall p, prv M p = h p) -> around lst M L1 n L2.
Proof.
  intros H Hf Hg Hh. eapply hole_ext; [exact H|done|]. intros j Hj. rewrite Hf. destruct H as (T&D&_). apply D. lia.
Qed.

(** The pages of a hole already look like a free run, but are not on the list. *)
Definition loose (lst : nat) (M : gmap ptr cell) L1 n L2 : Prop :=
  around lst M L1 n L2 /\ (1 <= n)%nat /\ slb M (Page (total L1)) = Some (Z.of_nat n) /\
  forall j, (total L1 < j < total L1 + n)%nat -> inner 0 (slb M) (nxt M) (prv M) j.

Lemma loose_cell lst M L1 n L2 j : loose lst M L1 n L2 -> (j < lst)%nat -> is_Some (M !! Page j).
Proof. intros [H _]. by eapply around_cell. Qed.

Lemma linkable_null L1 n L2 : ~ linkable L1 n L2 Null.
Proof. intros [[[] H]|(j&H&_)]; done. Qed.

Lemma free_or_not r : (exists m, r = RFree m) \/ (forall m, r <> RFree m).
Proof. destruct r; [left; eauto|right; done..]. Qed.

Lemma front_free_not r L : (forall m, r <> RFree m) -> front_free (r :: L) = (0%nat, r :: L).
Proof. intros H. destruct r; try done. by destruct (H n). Qed.

(** The list of a page with chunks left. *)
Definition slot_of (sh : Z) : nat := Z.to_nat (sh - 6).

Lemma member_slab sh bits : 6 <= sh -> full sh bits = false -> member (Some (slot_of sh)) (RSlab sh bits) = true.
Proof. intros H E. cbn [member]. rewrite E. cbn [negb]. rewrite andb_true_r. apply Z.eqb_eq. unfold slot_of. lia. Qed.
Lemma valid_slot sh : 6 <= sh <= 11 -> valid (Some (slot_of sh)).
Proof. cbn [valid]. unfold slot_of. lia. Qed.
Lemma rtag_slot sh : 6 <= sh -> rtag (Some (slot_of sh)) = type_of sh.
Proof. intros H. cbn [rtag]. unfold slot_of. f_equal. lia. Qed.

(** The head of a run that is not free. *)
Lemma head_not_free lst M L1 n r L2 : around lst M L1 n (r :: L2) -> (forall m, r <> RFree m) ->
  exists z q p t, slb M (Page (total L1 + n)) = Some z /\ nxt M (Page (total L1 + n)) = Some q /\
    prv M (Page (total L1 + n)) = Some (p, t) /\ (t <> 0 \/ t = 0 /\ q = Null).
Proof.
  intros H Hr. pose proof H as (_&_&_&[Hok _]&_). destruct r as [m|m|sh bits]; [by destruct (Hr m)| |].
  - destruct Hok as (_&(H1&H2&q&H3)&_). eexists _, _, _, _. split_and!; [done..|]. by right.
  - destruct Hok as (Hsh&_&H1&H2). destruct (full sh bits) eqn:E.
    + destruct (H2 eq_refl) as (H3&q&H4). eexists _, _, _, _. split_and!; [done..|]. left. unfold type_of. by case_match.
    + destruct (unlink_next _ _ _ _ _ _ _ _ (Some (slot_of sh)) H) as (a&b&Hg&Hh&_);
        [apply member_slab; [lia|done]|by apply valid_slot|].
      rewrite rtag_slot in Hh by lia. eexists _, _, _, _. split_and!; [done..|]. left. unfold type_of. by case_match.
Qed.

(** Two neighbouring runs become one: the length goes to the first page, [u] leaves
    its list and the page [mid] between the runs is forgotten. *)
Lemma join_step s M L1 n L2 u a b mid (z : Z) :
  hole (last s) (slb M) (upd (nxt M) a (Some b)) (upd (prv M) b (Some (a, 0))) L1 n L2 ->
  nxt M u = Some b -> prv M u = Some (a, 0) -> u <> a -> linkable L1 n L2 a -> linkable L1 n L2 b ->
  is_Some (nxt M a) -> is_Some (nxt M b) ->
  (total L1 < mid < total L1 + n)%nat -> z = Z.of_nat n ->
  (forall j, (total L1 < j < total L1 + n)%nat -> j <> mid -> inner 0 (slb M) (nxt M) (prv M) j) ->
  exists M', (forall A (k : st pool A), (do _ <- set_slab (Page (total L1)) z ;; do _ <- unlink u ;; do _ <- forget (Page mid) ;; k) (with_cells s M) =
      k (with_cells s M')) /\
    loose (last s) M' L1 n L2.
Proof.
  intros Hfin Hg Hh Hua La Lb Ca Cb Hmid Hz Hin. destruct (hole_sized _ _ _ _ _ _ _ Hfin) as [S1 S2].
  assert (Out : forall j c, linkable L1 n L2 c -> (total L1 <= j < total L1 + n)%nat -> Page j <> c).
  { intros j c Lc Hj <-. apply linkable_outside in Lc; [lia|done..]. }
  assert (Cell : forall j, (total L1 <= j < total L1 + n)%nat -> is_Some (M !! Page j)).
  { intros j Hj. destruct Hfin as (T&D&_). apply cell_of_slb, D. lia. }
  destruct (set_slab_step s M (Page (total L1)) z) as (M1&E1&F1&G1&P1&D1); [apply Cell; lia|].
  destruct (unlink_step s M1 u a b 0) as (M2&E2&F2&G2&P2&D2);
    [by rewrite G1|by rewrite P1|done|by apply D1, cell_of_nxt|by apply D1, cell_of_nxt|].
  destruct (put_step s M2 (Page mid) (mk_cell AL_SLAB_PAGE_FREE Null Null AL_SLAB_PAGE)) as (M3&E3&F3&G3&P3&D3);
    [apply D2, D1, Cell; lia|].
  exists M3. split.
  { intros A k. unfold forget. by rewrite (st_bind_ok _ _ _ _ _ E1), (st_bind_ok _ _ _ _ _ E2), (st_bind_ok _ _ _ _ _ E3). }
  set (x := Page (total L1)) in *. set (y := Page mid) in *.
  assert (VF : forall p, slb M3 p = upd (upd (slb M) x (Some z)) y (Some 0) p).
  { intros p. rewrite F3. unfold upd. by rewrite F2, F1. }
  assert (VG : forall p, nxt M3 p = upd (upd (nxt M) a (Some b)) y (Some Null) p).
  { intros p. rewrite G3. unfold upd. rewrite G2. unfold upd. by rewrite G1. }
  assert (VP : forall p, prv M3 p = upd (upd (prv M) b (Some (a, 0))) y (Some (Null, 0)) p).
  { intros p. rewrite P3. unfold upd. rewrite P2. unfold upd. by rewrite P1. }
  assert (Hxy : x <> y) by (unfold x, y; intros [=]; lia).
  split_and!; [|lia|rewrite VF, upd_ne, upd_eq by done; by rewrite Hz|].
  - eapply hole_ext; [exact Hfin| |].
    + intros p Hp. assert (p <> x) by (intros ->; specialize (Hp _ eq_refl); lia).
      assert (p <> y) by (intros ->; specialize (Hp _ eq_refl); lia). by rewrite VF, VG, VP, !(upd_ne _ y), (upd_ne _ x) by done.
    + intros j Hj. rewrite VF. do 2 apply upd_is_some. destruct Hfin as (T&D&_). apply D. lia.
  - intros j Hj. unfold inner. destruct (decide (j = mid)) as [->|Hjy].
    + unfold y. rewrite VF, VG, VP, !upd_eq. eauto.
    + rewrite VF, VG, VP, !(upd_ne _ y), (upd_ne _ x), (upd_ne _ a), (upd_ne _ b) by
        (try (apply Out; [done|lia]); try done; unfold x, y; intros [=]; lia). by apply Hin.
Qed.

(** A free run behind joins the pages. *)
Lemma join_next_step s M L1 n L2 :
  loose (last s) M L1 n L2 -> 4096 * Z.of_nat (last s) < 2 ^ 64 ->
  exists M', join_next (Page (total L1)) (Z.of_nat n - 1) (with_cells s M) =
      (ok (Z.of_nat (n + (front_free L2).1) - 1), with_cells s M') /\
    loose (last s) M' L1 (n + (front_free L2).1) (front_free L2).2.
Proof.
  intros HL B. pose proof HL as (H&Hn&Hx&Hin). pose proof (around_total _ _ _ _ _ H) as T.
  destruct (cell_fields M (Page (total L1)) ltac:(apply (loose_cell _ _ _ _ _ _ HL); lia)) as (z&q&r&H1&H2&H3).
  rewrite Hx in H1. injection H1 as <-. unfold join_next. rewrite (st_bind_ok _ _ _ (with_cells s M) (with_cells s M)) by done.
  rewrite (st_bind_ok _ _ _ _ _ (get_step s M _ _ _ _ Hx H2 H3)). cbn [index slab].
  rewrite (st_bind_ok _ _ _ (total L1) (with_cells s M)) by done.
  rewrite (same_last _ _ (same_cells s M)).
  assert (Hskip : front_free L2 = (0%nat, L2) ->
    exists M', (ok (Z.of_nat n - 1), with_cells s M) = (ok (Z.of_nat (n + (front_free L2).1) - 1), with_cells s M') /\
      loose (last s) M' L1 (n + (front_free L2).1) (front_free L2).2).
  { intros ->. exists M. cbn [fst snd]. by rewrite Nat.add_0_r. }
  destruct L2 as [|r2 L2]; cbn [total] in T.
  { rewrite (proj2 (Z.leb_le _ _)) by lia. by apply Hskip. }
  destruct (hole_sized _ _ _ _ _ _ _ H) as [S1 S2]. pose proof (S2 r2 ltac:(left)) as Hl2.
  rewrite (proj2 (Z.leb_gt _ _)) by lia.
  replace (Z.to_nat (Z.of_nat (total L1) + Z.of_nat n)) with (total L1 + n)%nat by lia.
  destruct (free_or_not r2) as [[m ->]|Hr2].
  2: { destruct (head_not_free _ _ _ _ _ _ H) as (z2&q2&p2&t2&K1&K2&K3&K4); [done|].
    rewrite (st_bind_ok _ _ _ _ _ (get_step s M _ _ _ _ K1 K2 K3)). cbn [tag next fst snd]. unfold AL_SLAB_PAGE.
    destruct K4 as [K4|[-> ->]].
    - rewrite (proj2 (Z.eqb_neq _ _) K4). cbn [negb orb]. by apply Hskip, front_free_not.
    - rewrite bool_decide_true, orb_true_r by done. by apply Hskip, front_free_not. }
  clear Hskip. cbn [front_free fst snd]. cbn [len] in T, Hl2.
  destruct (unlink_next _ _ _ _ _ _ _ _ None H eq_refl I) as (a&b&Hg&Hh&Hja&Hjb&La&Lb&Ca&Cb&Hfin). cbn [len] in La, Lb, Hfin.
  pose proof H as (_&_&_&[(_&Hy&Hyin&_) _]&_).
  rewrite (st_bind_ok _ _ _ _ _ (get_step s M _ _ _ _ Hy Hg Hh)). cbn [tag next slab fst snd]. unfold AL_SLAB_PAGE.
  rewrite bool_decide_false by (intros ->; by eapply linkable_null). rewrite (proj2 (Z.eqb_eq _ _)) by done. cbn [negb orb].
  rewrite u64_id by lia.
  destruct (join_step s M L1 (n + m) L2 (Page (total L1 + n)) a b (total L1 + n) (Z.of_nat n + Z.of_nat m) Hfin Hg Hh Hja La Lb Ca Cb)
    as (M'&E&H'); [lia|lia| |].
  { intros j Hj Hne. destruct (decide (j < total L1 + n)%nat); [apply Hin; lia|]. apply Hyin. lia. }
  exists M'. rewrite E. split; [unfold st_ret, ok; do 2 f_equal; lia|done].
Qed.

(** A free run in front joins the pages. *)
Lemma back_free_snoc L r : back_free (L ++ [r]) = match r with RFree m => (m, L) | _ => (0%nat, L ++ [r]) end.
Proof. unfold back_free. rewrite rev_app_distr. destruct r; cbn; by rewrite ?rev_involutive. Qed.

(** The last page of a run that is not free. *)
Lemma end_not_free lst M L1 n r L2 : around lst M (L1 ++ [r]) n L2 -> (forall m, r <> RFree m) ->
  exists z q p t, slb M (Page (total L1 + len r - 1)) = Some z /\ nxt M (Page (total L1 + len r - 1)) = Some q /\
    prv M (Page (total L1 + len r - 1)) = Some (p, t) /\ (t <> 0 \/ t = 0 /\ z <> 0 /\ q = Null).
Proof.
  intros H Hr. pose proof H as (_&_&H1&_&_). apply laid_app in H1 as [_ [Hok _]]. rewrite Nat.add_0_l in Hok.
  destruct r as [m|m|sh bits]; [by destruct (Hr m)| |]; cbn [len].
  - destruct Hok as (Hm&(H1&H2&q&H3)&Hin). destruct (decide (m = 1)%nat) as [->|Hm1].
    + replace (total L1 + 1 - 1)%nat with (total L1) by lia. eexists _, _, _, _. split_and!; [done..|]. right. split_and!; [done| |done].
      intros E. apply Z.lor_eq_0_iff in E as [_ E]. done.
    + destruct (Hin (total L1 + m - 1)%nat ltac:(lia)) as (K1&K2&q'&K3). eexists _, _, _, _. split_and!; [done..|]. by right.
  - replace (total L1 + 1 - 1)%nat with (total L1) by lia. destruct Hok as (Hsh&_&H1&H2). destruct (full sh bits) eqn:E.
    + destruct (H2 eq_refl) as (H3&q&H4). eexists _, _, _, _. split_and!; [done..|]. left. unfold type_of. by case_match.
    + destruct (unlink_prev _ _ _ _ _ _ _ _ (Some (slot_of sh)) H) as (a&b&Hg&Hh&_);
        [apply member_slab; [lia|done]|by apply valid_slot|].
      rewrite rtag_slot in Hh by lia. eexists _, _, _, _. split_and!; [done..|]. left. unfold type_of. by case_match.
Qed.

(** The last page of a free run leads to the first. *)
Lemma end_free lst M L1 n m L2 : around lst M (L1 ++ [RFree m]) n L2 -> (1 <= n)%nat ->
  exists z q p, slb M (Page (total L1 + m - 1)) = Some z /\ nxt M (Page (total L1 + m - 1)) = Some q /\
    prv M (Page (total L1 + m - 1)) = Some (p, 0) /\
    (if z =? AL_SLAB_PAGE_FREE then p else Page (total L1 + m - 1)) = Page (total L1).
Proof.
  intros H Hn. pose proof (around_total _ _ _ _ _ H) as T. rewrite total_app in T. cbn [total len] in T.
  pose proof H as (_&_&H1&_&_). apply laid_app in H1 as [_ [(Hm&Hx&Hin&Hlast) _]]. rewrite Nat.add_0_l in *.
  destruct (decide (m = 1)%nat) as [->|Hm1].
  - replace (total L1 + 1 - 1)%nat with (total L1) by lia.
    destruct (unlink_prev _ _ _ _ _ _ _ _ None H eq_refl I) as (a&b&Hg&Hh&_). by eexists _, _, _.
  - destruct (Hin (total L1 + m - 1)%nat ltac:(lia)) as (K1&K2&q&K3). destruct (Hlast ltac:(lia) ltac:(lia)) as [t K4].
    rewrite K3 in K4. injection K4 as -> <-. by eexists _, _, _.
Qed.

Lemma join_prev_step s M L1 n L2 :
  loose (last s) M L1 n L2 -> 4096 * Z.of_nat (last s) < 2 ^ 64 ->
  let '(m, L) := back_free L1 in
  exists M', join_prev (Page (total L1)) (Z.of_nat n - 1) (with_cells s M) =
      (ok (Page (total L), Z.of_nat (m + n) - 1), with_cells s M') /\
    loose (last s) M' L (m + n) L2.
Proof.
  intros HL B. pose proof HL as (H&Hn&Hx&Hin). pose proof (around_total _ _ _ _ _ H) as T.
  unfold join_prev. cbn [index]. rewrite (st_bind_ok _ _ _ (total L1) (with_cells s M)) by done.
  destruct L1 as [|r L1 _] using rev_ind; [by exists M|]. rewrite back_free_snoc.
  destruct (hole_sized _ _ _ _ _ _ _ H) as [S1 S2]. pose proof (S1 r ltac:(set_solver)) as Hlen.
  assert (ET : total (L1 ++ [r]) = (total L1 + len r)%nat) by (rewrite total_app; cbn [total]; lia).
  destruct (total (L1 ++ [r])) as [|i] eqn:Ei; [lia|]. assert (Hi : i = (total L1 + len r - 1)%nat) by lia.
  destruct (free_or_not r) as [[m ->]|Hr].
  2: { destruct (end_not_free _ _ _ _ _ _ H Hr) as (z&q&p&t&K1&K2&K3&K4). rewrite <-Hi in *.
    assert (G : exists M', (ok (Page (S i), Z.of_nat n - 1), with_cells s M) = (ok (Page (total (L1 ++ [r])), Z.of_nat (0 + n) - 1), with_cells s M') /\
      loose (last s) M' (L1 ++ [r]) (0 + n) L2) by (exists M; by rewrite Ei).
    rewrite (st_bind_ok _ _ _ _ _ (get_step s M _ _ _ _ K1 K2 K3)). cbn [tag next prev slab fst snd]. unfold AL_SLAB_PAGE.
    destruct K4 as [K4|(->&K4&->)].
    - rewrite (proj2 (Z.eqb_neq _ _) K4). cbn [negb]. destruct r; [by destruct (Hr n0)|done..].
    - cbn [Z.eqb negb]. unfold AL_SLAB_PAGE_FREE. rewrite (proj2 (Z.eqb_neq _ _) K4).
      rewrite (st_bind_ok _ _ _ _ _ (get_step s M _ _ _ _ K1 K2 K3)). cbn [next]. rewrite bool_decide_true by done.
      destruct r; [by destruct (Hr n0)|done..]. }
  cbn [len] in *. destruct (end_free _ _ _ _ _ _ H Hn) as (z&q&p&K1&K2&K3&K4). rewrite <-Hi in *.
  rewrite (st_bind_ok _ _ _ _ _ (get_step s M _ _ _ _ K1 K2 K3)). cbn [tag next prev slab fst snd]. cbn [Z.eqb AL_SLAB_PAGE negb].
  rewrite K4. pose proof H as (_&_&H1&_&_). apply laid_app in H1 as [_ [(_&Hh&Hhin&_) _]]. rewrite Nat.add_0_l in *.
  destruct (unlink_prev _ _ _ _ _ _ _ _ None H eq_refl I) as (a&b&Kg&Kh&Hja&Hjb&La&Lb&Ca&Cb&Hfin). cbn [len] in La, Lb, Hfin.
  rewrite (st_bind_ok _ _ _ _ _ (get_step s M _ _ _ _ Hh Kg Kh)). cbn [next].
  rewrite bool_decide_false by (intros ->; by eapply linkable_null).
  destruct (cell_fields M (Page (S i)) ltac:(apply (loose_cell _ _ _ _ _ _ HL); lia)) as (z2&q2&r2&J1&J2&J3).
  rewrite J1 in Hx. injection Hx as ->.
  rewrite (st_bind_ok _ _ _ _ _ (get_step s M _ _ _ _ J1 J2 J3)). cbn [slab]. rewrite u64_id by lia.
  destruct (join_step s M L1 (m + n) L2 (Page (total L1)) a b (S i) (Z.of_nat m + Z.of_nat n) Hfin Kg Kh Hja La Lb Ca Cb)
    as (M'&E&H'); [lia|lia| |].
  { intros j Hj Hne. destruct (decide (j < S i)%nat); [apply Hhin; lia|]. apply Hin. lia. }
  exists M'. rewrite E. split; [unfold st_ret, ok; do 3 f_equal; lia|done].
Qed.

(** The last page of a run comes to lead to the first. *)
Lemma tie_step s M L1 n L2 :
  loose (last s) M L1 n L2 ->
  exists M', (if Z.of_nat n - 1 =? 0 then st_ret tt else do l <- off (Page (total L1)) (Z.of_nat n - 1) ;; set_prev l (Page (total L1)) 0)
      (with_cells s M) = (ok tt, with_cells s M') /\
    loose (last s) M' L1 n L2 /\ ((1 < n)%nat -> prv M' (Page (total L1 + (n - 1))) = Some (Page (total L1), 0)).
Proof.
  intros HL. pose proof HL as (H&Hn&Hx&Hin). pose proof (around_total _ _ _ _ _ H) as T.
  destruct (Z.eqb_spec (Z.of_nat n - 1) 0) as [E|E]; [exists M; split_and!; [done..|lia]|].
  replace (Z.of_nat n - 1) with (Z.of_nat (n - 1)) by lia. rewrite (st_bind_ok _ _ _ _ _ (off_ok _ _ _)).
  destruct (set_prev_step s M (Page (total L1 + (n - 1))) (Page (total L1)) 0) as (M1&E1&F1&G1&P1&D1);
    [apply (loose_cell _ _ _ _ _ _ HL); lia|].
  exists M1. split; [done|]. split; [|intros _; by rewrite P1, upd_eq]. split_and!; [|done|by rewrite F1|].
  - eapply hole_ext; [exact H| |].
    + intros p Hp. rewrite F1, G1, P1, upd_ne; [done|]. intros ->. specialize (Hp _ eq_refl). lia.
    + intros j Hj. rewrite F1. destruct H as (_&D&_). apply D. lia.
  - intros j Hj. destruct (Hin j Hj) as (K1&K2&q&K3). unfold inner. rewrite F1, G1, P1. split_and!; [done..|].
    unfold upd. case_decide; eauto.
Qed.

(** The run goes to the front of the list of free runs. *)
Lemma push_step s M L1 n L2 :
  loose (last s) M L1 n L2 -> ((1 < n)%nat -> prv M (Page (total L1 + (n - 1))) = Some (Page (total L1), 0)) ->
  exists M', (do _ <- set_prev (Page (total L1)) Free 0 ;;
     do f <- get Free ;;
     do _ <- set_next (Page (total L1)) (next f) ;;
     do _ <- set_prev (next f) (Page (total L1)) 0 ;;
     set_next Free (Page (total L1))) (with_cells s M) = (ok tt, with_cells s M') /\
    around (last s) M' L1 0 (RFree n :: L2).
Proof.
  intros HL Ht. pose proof HL as (H&Hn&Hx&Hin). pose proof (around_total _ _ _ _ _ H) as T.
  destruct (close_push _ _ _ _ _ (RFree n) _ None H eq_refl I Hn) as (b&Hf&Lb&Cb&Hxb&Hfin). cbn [anchor rtag len] in *.
  set (x := Page (total L1)) in *. assert (Hbn : forall j, (total L1 <= j < total L1 + n)%nat -> Page j <> b).
  { intros j Hj. by apply (linkable_not_in _ _ _ _ _ _ _ H Lb). }
  assert (Cx : is_Some (M !! x)) by (apply (loose_cell _ _ _ _ _ _ HL); lia).
  destruct (set_prev_step s M x Free 0) as (M1&E1&F1&G1&P1&D1); [done|].
  assert (CF : is_Some (M1 !! Free)) by (apply D1, cell_of_nxt; eauto).
  destruct (cell_fields M1 Free CF) as (z&q&r&J1&J2&J3). rewrite G1, Hf in J2. injection J2 as <-.
  destruct (set_next_step s M1 x b) as (M2&E2&F2&G2&P2&D2); [by apply D1|].
  destruct (set_prev_step s M2 b x 0) as (M3&E3&F3&G3&P3&D3); [by apply D2, D1, cell_of_nxt|].
  destruct (set_next_step s M3 Free x) as (M4&E4&F4&G4&P4&D4); [by apply D3, D2|].
  exists M4. split.
  { rewrite (st_bind_ok _ _ _ _ _ E1), (st_bind_ok _ _ _ _ _ (get_step s M1 _ _ _ _ J1 ltac:(by rewrite G1) J3)). cbn [next].
    by rewrite (st_bind_ok _ _ _ _ _ E2), (st_bind_ok _ _ _ _ _ E3). }
  eapply around_of; [apply Hfin| | |].
  - cbn [run_ok]. split_and!; [done|done| |].
    + intros j Hj. destruct (Hin j Hj) as (K1&K2&q&K3). unfold inner.
      rewrite !upd_ne by (try (apply Hbn; lia); unfold x; intros [=]; lia). eauto.
    + intros H1 _. replace (total L1 + n - 1)%nat with (total L1 + (n - 1))%nat by lia.
      rewrite !upd_ne by (try (apply Hbn; lia); unfold x; intros [=]; lia). rewrite Ht by lia. eauto.
  - intros p. by rewrite F4, F3, F2, F1.
  - intros p. rewrite G4. unfold upd. rewrite G3, G2. unfold upd. by rewrite G1.
  - intros p. rewrite P4, P3. unfold upd. rewrite P2, P1. done.
Qed.

(** The pages of a run that is given back, before they join others: [page->slab]
    is set, the other cells are cleared and the page leaves its list. *)
Definition givable (r : run) : Prop := match r with RFree _ => False | RBusy _ => True | RSlab sh bits => full sh bits = false end.

Lemma detach_step s M L1 r L2 : around (last s) M L1 0 (r :: L2) -> givable r ->
  exists M', (forall A (k : st pool A), (do _ <- set_slab (Page (total L1)) (Z.of_nat (len r)) ;;
     do _ <- (if Z.of_nat (len r) - 1 =? 0 then st_ret tt else
              do p <- off (Page (total L1)) 1 ;; clear_cells (Z.to_nat (Z.of_nat (len r) - 1)) p) ;;
     do c <- get (Page (total L1)) ;;
     do _ <- (if bool_decide (next c = Null) then st_ret tt else unlink (Page (total L1))) ;; k) (with_cells s M) = k (with_cells s M')) /\
    loose (last s) M' L1 (len r) L2.
Proof.
  intros H Hr. pose proof (around_total _ _ _ _ _ H) as T. destruct (hole_sized _ _ _ _ _ _ _ H) as [S1 S2].
  pose proof (S2 r ltac:(left)) as Hn. cbn [total] in T.
  assert (Cell : forall j, (j < last s)%nat -> is_Some (M !! Page j)) by (intros j; by apply (around_cell _ _ _ _ _ _ H)).
  destruct (set_slab_step s M (Page (total L1)) (Z.of_nat (len r))) as (M1&E1&F1&G1&P1&D1); [apply Cell; lia|].
  destruct (fill_rest 0 s M1 (total L1) (len r) Hn) as (M2&E2&Hf); [intros j Hj; apply D1, Cell; lia|].
  replace (Z.of_nat (len r) =? 1) with (Z.of_nat (len r) - 1 =? 0) in E2 by (apply eq_true_iff_eq; rewrite !Z.eqb_eq; lia).
  apply filled_view in Hf as [V1 V2].
  assert (Vx : slb M2 (Page (total L1)) = Some (Z.of_nat (len r)) /\ nxt M2 (Page (total L1)) = nxt M (Page (total L1)) /\
               prv M2 (Page (total L1)) = prv M (Page (total L1))).
  { destruct (V1 (Page (total L1))) as (->&->&->); [intros j [= <-]; lia|]. by rewrite F1, G1, P1, upd_eq. }
  assert (Vo : forall p, (forall j, p = Page j -> j < total L1 \/ total L1 + len r <= j)%nat ->
               slb M2 p = slb M p /\ nxt M2 p = nxt M p /\ prv M2 p = prv M p).
  { intros p Hp. destruct (V1 p) as (->&->&->); [intros j ->; specialize (Hp _ eq_refl); lia|].
    rewrite F1, G1, P1, upd_ne; [done|]. intros ->. specialize (Hp _ eq_refl). lia. }
  assert (Dm : forall j, (total L1 <= j < total L1 + len r)%nat -> is_Some (slb M2 (Page j))).
  { intros j Hj. destruct (decide (j = total L1)) as [->|]; [destruct Vx as [-> _]; eauto|]. destruct (V2 j ltac:(lia)) as [-> _]. eauto. }
  destruct Vx as (X1&X2&X3). destruct (cell_fields M (Page (total L1)) ltac:(apply Cell; lia)) as (z&q&t&J1&J2&J3). rewrite J2 in X2. rewrite J3 in X3.
  assert (Run : forall A (k : st pool A), (do _ <- set_slab (Page (total L1)) (Z.of_nat (len r)) ;;
     do _ <- (if Z.of_nat (len r) - 1 =? 0 then st_ret tt else
              do p <- off (Page (total L1)) 1 ;; clear_cells (Z.to_nat (Z.of_nat (len r) - 1)) p) ;;
     do c <- get (Page (total L1)) ;;
     do _ <- (if bool_decide (next c = Null) then st_ret tt else unlink (Page (total L1))) ;; k) (with_cells s M) =
     (do _ <- (if bool_decide (q = Null) then st_ret tt else unlink (Page (total L1))) ;; k) (with_cells s M2)).
  { intros A k. by rewrite (st_bind_ok _ _ _ _ _ E1), (st_bind_ok _ _ _ _ _ E2), (st_bind_ok _ _ _ _ _ (get_step s M2 _ _ _ _ X1 X2 X3)). }
  destruct r as [k|k|sh bits]; cbn [len givable] in *; [done| |].
  - pose proof H as (_&_&_&[(_&(_&K2&_)&_) _]&_). rewrite Nat.add_0_r, J2 in K2. injection K2 as ->.
    exists M2. split; [intros A c; by rewrite Run, bool_decide_true|]. split_and!; [|done|done|].
    + apply open_next in H; [|done]. eapply hole_ext; [exact H|done|done].
    + intros j Hj. destruct (V2 j ltac:(lia)) as (Y1&Y2&Y3). split_and!; eauto.
  - pose proof H as (_&_&_&[(Hsh&_&_&_) _]&_).
    destruct (unlink_next _ _ _ _ _ _ _ _ (Some (slot_of sh)) H) as (a&b&Hg&Hh&Hxa&Hxb&La&Lb&Ca&Cb&Hfin);
      [apply member_slab; [lia|done]|by apply valid_slot|].
    rewrite Nat.add_0_r in *. cbn [len] in *. rewrite Nat.add_0_l in *. rewrite J2 in Hg. injection Hg as ->. rewrite J3 in Hh. injection Hh as ->.
    assert (Hb : b <> Null) by (intros ->; by eapply linkable_null).
    assert (Va : forall c, linkable L1 1 L2 c -> is_Some (nxt M c) -> is_Some (M2 !! c)).
    { intros c Lc Cc. apply cell_of_nxt. destruct (Vo c) as (_&->&_); [|done]. intros j ->. apply linkable_outside in Lc; [lia|done|].
      intros y Hy. apply S2. by right. }
    destruct (unlink_step s M2 (Page (total L1)) a b (rtag (Some (slot_of sh)))) as (M3&E3&F3&G3&P3&D3); [done|done|done|by apply Va..|].
    exists M3. split; [intros A c; by rewrite Run, bool_decide_false, (st_bind_ok _ _ _ _ _ E3) by done|]. split_and!; [|done|by rewrite F3|lia].
    eapply hole_ext; [exact Hfin| |].
    + intros p Hp. destruct (Vo p Hp) as (Y1&Y2&Y3). rewrite F3, G3, P3, Y1. unfold upd. by rewrite Y2, Y3.
    + intros j Hj. rewrite F3. by apply Dm.
Qed.

(** [al_slab_free_pages] *)
Definition given_back (L1 : list run) (k : nat) (L2 : list run) : list run :=
  (back_free L1).2 ++ RFree ((back_free L1).1 + (k + (front_free L2).1)) :: (front_free L2).2.

Lemma front_free_frees L : (frees L = (front_free L).1 + frees (front_free L).2)%nat.
Proof. destruct L as [|[] L]; done. Qed.
Lemma frees_rev L : frees (rev L) = frees L.
Proof. induction L as [|r L IH]; [done|]. cbn [rev]. rewrite frees_app, IH. destruct r; simpl; lia. Qed.
Lemma back_free_frees L : (frees L = (back_free L).1 + frees (back_free L).2)%nat.
Proof.
  unfold back_free. destruct (front_free (rev L)) as [m R] eqn:E. cbn [fst snd]. pose proof (front_free_frees (rev L)) as H.
  rewrite E in H. cbn [fst snd] in H. rewrite frees_rev in *. done.
Qed.

Lemma free_pages_spec s L1 r L2 : Inv s (L1 ++ r :: L2) -> givable r ->
  exists s', al_slab_free_pages (Page (total L1)) (Z.of_nat (len r)) s = (ok tt, s') /\ Inv s' (given_back L1 (len r) L2) /\ same s s'.
Proof.
  intros HI Hr. pose proof (inv_bound _ _ HI) as B. destruct HI as [H F P]. apply hole_cut in H. pose proof (around_total _ _ _ _ _ H) as T.
  cbn [total] in T.
  set (s1 := s <| pfree := u64 (pfree s + Z.of_nat (len r)) |>). assert (S1 : same s s1) by (by destruct s).
  assert (Es1 : s1 = with_cells s1 (cells s)) by (by destruct s).
  rewrite <-(same_last _ _ S1) in H, B. destruct (detach_step s1 (cells s) L1 r L2 H Hr) as (M1&E1&H1).
  destruct (join_next_step s1 M1 L1 (len r) L2 H1 B) as (M2&E2&H2).
  pose proof (join_prev_step s1 M2 L1 _ _ H2 B) as H3. destruct (back_free L1) as [m L] eqn:EL. destruct H3 as (M3&E3&H3).
  destruct (tie_step s1 M3 _ _ _ H3) as (M4&E4&H4&Ht). destruct (push_step s1 M4 _ _ _ H4 Ht) as (M5&E5&H5).
  exists (with_cells s1 M5). pose proof (same_pool_trans _ _ _ S1 (same_cells s1 M5)) as S5. split_and!; [|split|done].
  - unfold al_slab_free_pages. rewrite (st_bind_ok _ _ s tt s1) by done. rewrite Es1 at 1. rewrite E1.
    rewrite (st_bind_ok _ _ _ _ _ E2), (st_bind_ok _ _ _ _ _ E3). cbv beta iota. by rewrite (st_bind_ok _ _ _ _ _ E4).
  - rewrite cells_with, (same_last _ _ (same_cells s1 M5)). unfold given_back. rewrite EL. cbn [fst snd]. by apply hole_whole.
  - by eapply same_fixed.
  - transitivity (u64 (pfree s + Z.of_nat (len r))); [unfold s1; by destruct s|].
    pose proof (back_free_frees L1) as K1. pose proof (front_free_frees L2) as K2. pose proof (frees_total L1). pose proof (frees_total L2).
    rewrite P, frees_app. unfold given_back. rewrite EL in *. cbn [fst snd] in *. rewrite frees_app. cbn [frees].
    rewrite (same_last _ _ S1) in B. rewrite u64_id; destruct r; cbn [givable len frees] in *; lia || done.
Qed.

End SlabPages.
