(* ===== verification/SlabChunks.v ===== *)
(** * Chunks of a page

    The word that holds the bitmap of a page (and, for chunks above 64 bytes,
    their size), and the steps that take a chunk of a page, give one back, and
    move the page on and off the list of its size. *)

From Stdlib Require Import ZArith Lia Bool.
From stdpp Require Import base tactics option gmap list.
From S2P Require Import Prelude Slab SlabRing SlabInv SlabHole SlabPages.

Open Scope Z_scope.

Module SlabChunks.
Import Slab SlabRing SlabInv SlabHole SlabPages.

(** ** Words *)

(** Where the bitmap starts in the word. *)
Definition base_of (sh : Z) : Z := if sh =? 6 then 0 else 32.

Lemma cap_pow sh : 0 <= sh <= 12 -> cap sh = 2 ^ (12 - sh).
Proof.
  intros H. unfold cap. rewrite Z.shiftr_div_pow2 by lia. change PAGESIZE with (2 ^ 12).
  symmetry. apply Z.pow_sub_r; lia.
Qed.

Lemma cap_bounds sh : 6 <= sh <= 11 -> 2 <= cap sh <= 64.
Proof.
  intros H. rewrite cap_pow by lia. split.
  - change 2 with (2 ^ 1) at 1. apply Z.pow_le_mono_r; lia.
  - change 64 with (2 ^ 6). apply Z.pow_le_mono_r; lia.
Qed.

Lemma cap_big sh : 7 <= sh <= 11 -> 2 <= cap sh <= 32.
Proof.
  intros H. rewrite cap_pow by lia. split.
  - change 2 with (2 ^ 1) at 1. apply Z.pow_le_mono_r; lia.
  - change 32 with (2 ^ 5). apply Z.pow_le_mono_r; lia.
Qed.

Lemma small_bits z n i : 0 <= z < 2 ^ n -> n <= i -> Z.testbit z i = false.
Proof.
  intros H Hi. destruct (decide (z = 0)) as [->|]; [apply Z.bits_0|]. apply Z.bits_above_log2; [lia|].
  apply Z.log2_lt_pow2; [lia|]. assert (2 ^ n <= 2 ^ i) by (apply Z.pow_le_mono_r; lia). lia.
Qed.

Lemma bits_ext z z' n : 0 <= z < 2 ^ n -> 0 <= z' < 2 ^ n -> (forall i, 0 <= i < n -> Z.testbit z i = Z.testbit z' i) -> z = z'.
Proof.
  intros H H' E. apply Z.bits_inj'. intros i Hi. destruct (Z.lt_ge_cases i n); [by apply E|].
  by rewrite (small_bits z n), (small_bits z' n).
Qed.

Lemma ones_bits n : 0 <= n -> 2 ^ n - 1 = Z.ones n.
Proof. intros H. rewrite Z.ones_equiv. lia. Qed.

Lemma set_bit_bound z n i : 0 <= z < 2 ^ n -> 0 <= i < n -> 0 <= Z.lor z (Z.shiftl 1 i) < 2 ^ n.
Proof.
  intros H Hi. split; [apply Z.lor_nonneg; split; [lia|apply Z.shiftl_nonneg; lia]|].
  assert (0 <= Z.lor z (Z.shiftl 1 i)) by (apply Z.lor_nonneg; split; [lia|apply Z.shiftl_nonneg; lia]).
  destruct (decide (Z.lor z (Z.shiftl 1 i) = 0)) as [->|Hne]; [apply Z.pow_pos_nonneg; lia|].
  apply Z.log2_lt_pow2; [lia|]. rewrite Z.log2_lor by (try apply Z.shiftl_nonneg; lia). rewrite Z.log2_shiftl by lia. cbn [Z.log2].
  apply Z.max_lub_lt; [|lia]. destruct (decide (z = 0)) as [->|]; [simpl; lia|]. by apply Z.log2_lt_pow2; lia.
Qed.

Lemma clear_bit_bound z n i : 0 <= z < 2 ^ n -> 0 <= Z.ldiff z (Z.shiftl 1 i) < 2 ^ n.
Proof.
  intros H. assert (H1 : 0 <= Z.ldiff z (Z.shiftl 1 i)) by (apply Z.ldiff_nonneg; lia). split; [done|].
  assert (Z.ldiff z (Z.shiftl 1 i) <= z); [|lia]. apply Z.ldiff_le; [lia|]. rewrite Z.ldiff_ldiff_l.
  apply Z.bits_inj'. intros j Hj. rewrite Z.ldiff_spec, Z.lor_spec, Z.bits_0. destruct (Z.testbit z j), (Z.testbit (Z.shiftl 1 i) j); done.
Qed.

Lemma one_bit i j : 0 <= i -> 0 <= j -> Z.testbit (Z.shiftl 1 i) j = (j =? i).
Proof.
  intros Hi Hj. rewrite Z.shiftl_spec by lia. destruct (Z.eqb_spec j i) as [->|E]; [by rewrite Z.sub_diag|].
  destruct (Z.lt_ge_cases j i); [apply Z.testbit_neg_r; lia|]. apply (small_bits 1 1); lia.
Qed.

Lemma set_bit_at z i j : 0 <= i -> 0 <= j -> Z.testbit (Z.lor z (Z.shiftl 1 i)) j = Z.testbit z j || (j =? i).
Proof. intros Hi Hj. by rewrite Z.lor_spec, one_bit. Qed.
Lemma clear_bit_at z i j : 0 <= i -> 0 <= j -> Z.testbit (Z.ldiff z (Z.shiftl 1 i)) j = Z.testbit z j && negb (j =? i).
Proof. intros Hi Hj. by rewrite Z.ldiff_spec, one_bit. Qed.

Section words.
Context (sh bits : Z) (Hsh : 6 <= sh <= 11) (Hbits : 0 <= bits < 2 ^ cap sh).

Lemma base_nonneg : 0 <= base_of sh.
Proof. unfold base_of. by case_match. Qed.

Lemma word_bit i : 0 <= i -> Z.testbit (word sh bits) (base_of sh + i) = Z.testbit bits i.
Proof using Hsh Hbits.
  intros Hi. unfold word, base_of. destruct (Z.eqb_spec sh 6) as [E|E]; [done|].
  rewrite Z.lor_spec, Z.shiftl_spec by lia. replace (32 + i - 32) with i by lia.
  rewrite (small_bits sh 4 (32 + i)) by lia. apply orb_false_r.
Qed.

Lemma word_set i : 0 <= i -> Z.lor (word sh bits) (Z.shiftl 1 (base_of sh + i)) = word sh (Z.lor bits (Z.shiftl 1 i)).
Proof.
  intros Hi. unfold word, base_of. destruct (Z.eqb_spec sh 6) as [E|E]; [done|].
  rewrite Z.shiftl_lor, Z.shiftl_shiftl by lia. rewrite (Z.add_comm i 32), <-!Z.lor_assoc. f_equal. apply Z.lor_comm.
Qed.

Lemma word_clear i : 0 <= i -> Z.ldiff (word sh bits) (Z.shiftl 1 (base_of sh + i)) = word sh (Z.ldiff bits (Z.shiftl 1 i)).
Proof using Hsh.
  intros Hi. unfold word, base_of. destruct (Z.eqb_spec sh 6) as [E|E]; [done|].
  apply Z.bits_inj'. intros j Hj. rewrite Z.ldiff_spec, !Z.lor_spec, one_bit by lia.
  destruct (Z.lt_ge_cases j 32) as [Hj32|Hj32].
  - rewrite !Z.shiftl_spec_low by done. rewrite (proj2 (Z.eqb_neq _ _)) by lia. by rewrite andb_true_r.
  - rewrite !Z.shiftl_spec by lia. rewrite Z.ldiff_spec, one_bit, (small_bits sh 4 j), !orb_false_r by lia.
    replace (j - 32 =? i) with (j =? 32 + i); [done|]. apply eq_true_iff_eq. rewrite !Z.eqb_eq. lia.
Qed.

Lemma word_shift : sh <> 6 -> Z.land (word sh bits) AL_SLAB_SHIFT_MASK = sh.
Proof using Hsh.
  intros E. unfold word. rewrite (proj2 (Z.eqb_neq _ _) E). change AL_SLAB_SHIFT_MASK with (Z.ones 4).
  rewrite Z.land_ones, <-Z.land_ones by lia. rewrite Z.land_lor_distr_l.
  replace (Z.land (Z.shiftl bits 32) (Z.ones 4)) with 0.
  - rewrite Z.lor_0_l, Z.land_ones by lia. apply Z.mod_small. lia.
  - symmetry. rewrite Z.land_ones, Z.shiftl_mul_pow2 by lia. change (2 ^ 32) with (2 ^ 28 * 2 ^ 4). rewrite Z.mul_assoc. by apply Z.mod_mul.
Qed.

Lemma word_map : sh <> 6 -> Z.land (word sh bits) AL_SLAB_MAP_MASK = Z.shiftl bits 32.
Proof using Hsh Hbits.
  intros E. unfold word. rewrite (proj2 (Z.eqb_neq _ _) E). pose proof (cap_big sh ltac:(lia)) as Hc.
  assert (Hb : 0 <= bits < 2 ^ 32) by (assert (2 ^ cap sh <= 2 ^ 32) by (apply Z.pow_le_mono_r; lia); lia).
  change AL_SLAB_MAP_MASK with (Z.shiftl (Z.ones 32) 32). apply Z.bits_inj'. intros j Hj.
  rewrite Z.land_spec, Z.lor_spec. destruct (Z.lt_ge_cases j 32).
  - rewrite !Z.shiftl_spec_low by done. by rewrite andb_false_r.
  - rewrite !Z.shiftl_spec, (small_bits sh 4 j), orb_false_r by lia. destruct (Z.lt_ge_cases (j - 32) 32).
    + rewrite Z.ones_spec_low by lia. by rewrite andb_true_r.
    + rewrite (small_bits bits 32) by lia. done.
Qed.
End words.

(** *** The first chunk that is not in use *)
Lemma first_clear_some n : forall w b i k, first_clear n w b i = Some k ->
  i <= k < i + Z.of_nat n /\ Z.testbit w (b + k) = false.
Proof.
  induction n as [|n IH]; intros w b i k; cbn [first_clear]; [done|].
  destruct (Z.testbit w (b + i)) eqn:E; [intros H; apply IH in H as [H1 H2]; split; [lia|done]|].
  intros [= <-]. split; [lia|done].
Qed.

Lemma first_clear_none n : forall w b i, first_clear n w b i = None -> forall k, i <= k < i + Z.of_nat n -> Z.testbit w (b + k) = true.
Proof.
  induction n as [|n IH]; intros w b i; cbn [first_clear]; [lia|].
  destruct (Z.testbit w (b + i)) eqn:E; [|done]. intros H k Hk. destruct (decide (k = i)) as [->|]; [done|]. apply (IH w b (i + 1)); [done|lia].
Qed.

(** A page that is not full has a chunk left. *)
Lemma first_clear_word_ok sh bits : 6 <= sh <= 11 -> 0 <= bits < 2 ^ cap sh -> full sh bits = false ->
  exists i, first_clear (Z.to_nat (cap sh)) (word sh bits) (base_of sh) 0 = Some i /\ 0 <= i < cap sh /\ Z.testbit bits i = false.
Proof.
  intros Hsh Hb Hf. pose proof (cap_bounds sh Hsh) as Hc. destruct (first_clear _ _ _ 0) as [i|] eqn:E.
  - apply first_clear_some in E as [H1 H2]. exists i. rewrite word_bit in H2 by (done || lia). split_and!; [done|lia..|done].
  - exfalso. unfold full in Hf. apply Z.eqb_neq in Hf. apply Hf. rewrite ones_bits by lia.
    apply (bits_ext _ _ (cap sh)); [done| |].
    + rewrite <-ones_bits by lia. lia.
    + intros i Hi. rewrite Z.ones_spec_low by lia. rewrite <-(word_bit sh) by (done || lia). apply (first_clear_none _ _ _ _ E). lia.
Qed.

Lemma full_word6 bits : full 6 bits = (word 6 bits =? AL_SLAB_BUSY).
Proof. reflexivity. Qed.

Lemma full_word sh bits : 7 <= sh <= 11 -> 0 <= bits < 2 ^ cap sh -> full sh bits = (Z.land (word sh bits) AL_SLAB_MAP_MASK =? big_mask sh).
Proof.
  intros Hsh Hb. rewrite word_map by (done || lia). unfold full, big_mask, AL_SLAB_MAP_SHIFT. fold (cap sh).
  pose proof (cap_bounds sh ltac:(lia)). rewrite (Z.shiftl_mul_pow2 1), Z.mul_1_l, !Z.shiftl_mul_pow2 by lia.
  apply eq_true_iff_eq. rewrite !Z.eqb_eq. split; [by intros ->|]. intros E. apply Z.mul_reg_r in E; [done|]. lia.
Qed.

Lemma empty_word sh bits : 7 <= sh <= 11 -> 0 <= bits < 2 ^ cap sh -> (Z.land (word sh bits) AL_SLAB_MAP_MASK =? 0) = (bits =? 0).
Proof.
  intros Hsh Hb. rewrite word_map by (done || lia). rewrite Z.shiftl_mul_pow2 by lia. apply eq_true_iff_eq. rewrite !Z.eqb_eq. lia.
Qed.

(** ** Chunks in the pool *)

(** What every operation leaves as it is. *)
Record kept (s s' : pool) : Prop := { kept_last : last s' = last s; kept_start : start s' = start s; kept_end : end_ s' = end_ s }.

Lemma kept_refl s : kept s s.
Proof. done. Qed.
Lemma kept_trans s1 s2 s3 : kept s1 s2 -> kept s2 s3 -> kept s1 s3.
Proof. intros [] []. split; congruence. Qed.
Lemma kept_same s s' : same s s' -> kept s s'.
Proof. by intros []. Qed.

Lemma stat_at_spec s L i f : Inv s L -> (i < 6)%nat -> exists s', stat_at i f s = (ok tt, s') /\ Inv s' L /\ kept s s'.
Proof.
  intros [H F P] Hi. pose proof F as [F1 F2 F3 F4]. unfold stat_at. destruct (lookup_lt_is_Some_2 (stats s) i ltac:(lia)) as [x Hx]. rewrite Hx.
  eexists. split; [done|]. destruct s. split; [|done]. split; [exact H| |exact P]. split; [exact F1| |exact F3|exact F4].
  cbn. by rewrite length_insert.
Qed.

(** The invariant with other cells. *)
Lemma inv_cells s L L' M : Inv s L -> around (last s) M [] 0 L' -> frees L' = frees L -> Inv (with_cells s M) L'.
Proof.
  intros [H F P] H' E. pose proof (same_cells s M) as S. split; [by rewrite cells_with, (same_last _ _ S)|by eapply same_fixed|].
  rewrite E, <-P. by destruct s.
Qed.

Lemma frees_slab L1 sh b b' L2 : frees (L1 ++ RSlab sh b :: L2) = frees (L1 ++ RSlab sh b' :: L2).
Proof. by rewrite !frees_app. Qed.

Lemma slab_ok s L1 sh bits L2 : Inv s (L1 ++ RSlab sh bits :: L2) ->
  6 <= sh <= 11 /\ 0 <= bits < 2 ^ cap sh /\ slb (cells s) (Page (total L1)) = Some (word sh bits).
Proof. intros [H _ _]. apply hole_cut in H. destruct H as (_&_&_&[Hok _]&_). rewrite Nat.add_0_r in Hok. cbn [run_ok] in Hok. tauto. Qed.

(** A page with chunks left is on the list of its size. *)
Lemma slab_links s L1 sh bits L2 : Inv s (L1 ++ RSlab sh bits :: L2) ->
  exists q p, nxt (cells s) (Page (total L1)) = Some q /\ prv (cells s) (Page (total L1)) = Some (p, type_of sh) /\
    bool_decide (q = Null) = full sh bits.
Proof.
  intros HI. destruct (slab_ok _ _ _ _ _ HI) as (Hsh&Hb&Hx). destruct HI as [H _ _]. apply hole_cut in H.
  pose proof H as (_&_&_&[(_&_&_&Hfull) _]&_). rewrite Nat.add_0_r in Hfull. destruct (full sh bits) eqn:E.
  - destruct (Hfull eq_refl) as (K1&p&K2). exists Null, p. done.
  - destruct (unlink_next _ _ _ _ _ _ _ _ (Some (slot_of sh)) H) as (a&b&Hg&Hh&_&_&_&Lb&_);
      [apply member_slab; [lia|done]|by apply valid_slot|]. rewrite Nat.add_0_r, rtag_slot in * by lia.
    exists b, a. split_and!; [done..|]. apply bool_decide_false. intros ->. by eapply linkable_null.
Qed.

(** A bit is set; the page leaves its list when it was the last. *)
Lemma take_chunk_step s L1 sh bits bits' L2 :
  Inv s (L1 ++ RSlab sh bits :: L2) -> full sh bits = false -> 0 <= bits' < 2 ^ cap sh ->
  exists s', (do _ <- set_slab (Page (total L1)) (word sh bits') ;;
     (if full sh bits' then retire (Page (total L1)) (type_of sh) else st_ret tt)) s = (ok tt, s') /\
    Inv s' (L1 ++ RSlab sh bits' :: L2) /\ kept s s'.
Proof.
  intros HI Hf Hb'. destruct (slab_ok _ _ _ _ _ HI) as (Hsh&Hb&Hx). pose proof HI as [H F P]. apply hole_cut in H.
  pose proof (around_total _ _ _ _ _ H) as T. cbn [total len] in T.
  destruct (set_slab_step s (cells s) (Page (total L1)) (word sh bits')) as (M1&E1&F1&G1&P1&D1); [apply (around_cell _ _ _ _ _ _ H); lia|].
  rewrite with_cells_id in E1. destruct (full sh bits') eqn:E.
  - destruct (unlink_next _ _ _ _ _ _ _ _ (Some (slot_of sh)) H) as (a&b&Hg&Hh&Hxa&Hxb&La&Lb&Ca&Cb&Hfin);
      [apply member_slab; [lia|done]|by apply valid_slot|]. rewrite Nat.add_0_r, rtag_slot in * by lia. cbn [len] in *. rewrite Nat.add_0_l in *.
    destruct (unlink_step s M1 (Page (total L1)) a b (type_of sh)) as (M2&E2&F2&G2&P2&D2);
      [by rewrite G1|by rewrite P1|done|by apply D1, cell_of_nxt|by apply D1, cell_of_nxt|].
    assert (CX : is_Some (M2 !! Page (total L1))) by (apply D2, D1, (around_cell _ _ _ _ _ _ H); lia). destruct CX as [c Hc].
    destruct (put_step s M2 (Page (total L1)) (c <| next := Null |> <| prev := Null |> <| tag := type_of sh |>)) as (M3&E3&F3&G3&P3&D3); [eauto|].
    exists (with_cells s M3). split_and!; [| |apply kept_same, same_cells].
    + rewrite (st_bind_ok _ _ _ _ _ E1). unfold retire. rewrite (st_bind_ok _ _ _ _ _ E2).
      rewrite (st_bind_ok _ _ _ _ _ (get_cell (with_cells s M2) _ c ltac:(by rewrite cells_with))). done.
    + eapply inv_cells; [exact HI| |apply frees_slab]. apply hole_whole.
      assert (Hcs : slab c = word sh bits').
      { assert (K : slb M2 (Page (total L1)) = Some (word sh bits')) by (rewrite F2, F1, upd_eq; done). unfold slb in K. rewrite Hc in K.
        by injection K. }
      assert (Vx : slb M3 (Page (total L1)) = Some (word sh bits') /\ nxt M3 (Page (total L1)) = Some Null /\
                   prv M3 (Page (total L1)) = Some (Null, type_of sh)).
      { rewrite F3, G3, P3, !upd_eq. destruct c; cbn in *. by subst. }
      apply close; [|cbn [listed]; by rewrite E|].
      * eapply hole_ext; [exact Hfin| |].
        -- intros p Hp. assert (p <> Page (total L1)) by (intros ->; specialize (Hp _ eq_refl); cbn [len] in Hp; lia).
           rewrite F3, G3, P3, !(upd_ne _ (Page (total L1))), F2, F1, G2, P2, upd_ne by done. unfold upd. by rewrite G1, P1.
        -- intros j Hj. cbn [len] in Hj. replace j with (total L1) by lia. destruct Vx as [-> _]. eauto.
      * cbn [run_ok]. destruct Vx as (->&->&->). split_and!; [lia..|done|]. intros _. eauto.
  - exists (with_cells s M1). split_and!; [by rewrite (st_bind_ok _ _ _ _ _ E1)| |apply kept_same, same_cells].
    eapply inv_cells; [exact HI| |apply frees_slab]. apply hole_whole.
    eapply around_of; [apply (hole_bits _ _ _ _ _ _ bits bits' _ H); done|done..].
Qed.

Lemma st_seq {S A} (c1 c2 : st S unit) (k : st S A) s s' :
  (do _ <- c1 ;; c2) s = (ok tt, s') -> (do _ <- c1 ;; do _ <- c2 ;; k) s = k s'.
Proof. unfold st_bind. destruct (c1 s) as [[e|[]] s1]; [done|]. by intros ->. Qed.

(** The address of a chunk. *)
Lemma chunk_addr s j i sh : 0 <= sh -> page_addr s j + Z.shiftl i sh = start s + 4096 * Z.of_nat j + i * 2 ^ sh.
Proof.
  intros H. unfold page_addr. change al_pagesize_shift with 12. rewrite !Z.shiftl_mul_pow2 by lia. change (2 ^ 12) with 4096. lia.
Qed.

Lemma slab_cell s L1 sh bits L2 : Inv s (L1 ++ RSlab sh bits :: L2) ->
  exists q p, get (Page (total L1)) s = (ok (mk_cell (word sh bits) q p (type_of sh)), s) /\ bool_decide (q = Null) = full sh bits.
Proof.
  intros HI. destruct (slab_ok _ _ _ _ _ HI) as (Hsh&Hb&Hx). destruct (slab_links _ _ _ _ _ HI) as (q&p&H1&H2&H3). exists q, p.
  pose proof (get_step s (cells s) _ _ _ _ Hx H1 H2) as E. by rewrite with_cells_id in E.
Qed.

(** The head of the list of a size. *)
Lemma slot_head s L sh : Inv s L -> 6 <= sh <= 11 ->
  (exists z r, get (Slot (slot_of sh)) s = (ok (mk_cell z (Slot (slot_of sh)) r.1 r.2), s)) \/
  (exists L1 bits L2 z r q, L = L1 ++ RSlab sh bits :: L2 /\ full sh bits = false /\
     get (Slot (slot_of sh)) s = (ok (mk_cell z (Page (total L1)) r.1 r.2), s) /\
     nxt (cells s) (Page (total L1)) = Some q /\ q <> Page (total L1)).
Proof.
  intros HI Hsh. destruct HI as [(T&D&H1&H2&R) F P]. destruct (R _ (valid_slot sh Hsh)) as (l&El&Hl).
  pose proof Hl as [Hs Hn]. apply seg_start in Hs. destruct (cell_fields _ _ (is_cell_nxt _ _ _ Hs)) as (z&q&r&K1&K2&K3).
  rewrite Hs in K2. injection K2 as <-. cbn [anchor] in *. pose proof (get_step s (cells s) _ _ _ _ K1 Hs K3) as E. rewrite with_cells_id in E.
  destruct l as [|p l]; cbn [head_of hd] in *; [left; eauto|right].
  assert (Hp : p ∈ pick (member (Some (slot_of sh))) 0 L) by (rewrite <-El; left).
  apply pick_in in Hp as (L1&r'&L2&EL&Hr&->). rewrite Nat.add_0_l in *. destruct r' as [| |sh' bits]; cbn [member] in Hr; try done.
  apply andb_prop in Hr as [Hr1%Z.eqb_eq Hr2]. replace (Z.of_nat (slot_of sh) + 6) with sh in Hr1 by (unfold slot_of; lia). subst sh'.
  destruct (ring_links _ _ _ _ _ (Page (total L1)) Hl ltac:(left)) as (y&_&Hy&_).
  exists L1, bits, L2, z, r, y. split_and!; [done|by apply negb_true_iff|done|done|]. intros ->.
  destruct Hl as [Hs' _]. cbn [seg] in Hs'. destruct Hs' as (_&_&Hs'). apply seg_start in Hs'. rewrite Hy in Hs'. injection Hs' as Hs'.
  destruct l as [|p l]; cbn [head_of hd] in Hs'; [done|]. subst p. inversion Hn as [|? ? _ Hn']. inversion Hn' as [|? ? Hc _]. apply Hc. left.
Qed.

(** A chunk of a page that has one. *)
Definition alloc_chunk (page : ptr) (sh : Z) (slot : nat) : st pool (option Z) :=
  if sh <? al_slab_exact_shift then alloc_small page sh slot
  else if sh =? al_slab_exact_shift then alloc_exact page sh slot
  else alloc_big page sh slot.

Lemma type_of_6 : type_of 6 = AL_SLAB_EXACT.
Proof. done. Qed.
Lemma type_of_big sh : sh <> 6 -> type_of sh = AL_SLAB_BIG.
Proof. intros H. unfold type_of. by rewrite (proj2 (Z.eqb_neq _ _) H). Qed.

Lemma alloc_chunk_spec s L1 sh bits L2 :
  Inv s (L1 ++ RSlab sh bits :: L2) -> full sh bits = false ->
  exists i s', alloc_chunk (Page (total L1)) sh (slot_of sh) s = (ok (Some (start s + 4096 * Z.of_nat (total L1) + i * 2 ^ sh)), s') /\
    0 <= i < cap sh /\ Z.testbit bits i = false /\ Inv s' (L1 ++ RSlab sh (Z.lor bits (Z.shiftl 1 i)) :: L2) /\ kept s s'.
Proof.
  intros HI Hf. destruct (slab_ok _ _ _ _ _ HI) as (Hsh&Hb&Hx). destruct (slab_cell _ _ _ _ _ HI) as (q&p&Eg&_).
  destruct (first_clear_word_ok sh bits Hsh Hb Hf) as (i&Ei&Hi&Ci). exists i.
  pose proof (set_bit_bound _ _ _ Hb Hi) as Hb'.
  destruct (take_chunk_step s L1 sh bits _ L2 HI Hf Hb') as (s1&E1&I1&K1).
  destruct (stat_at_spec s1 _ (slot_of sh) (fun x => x <| used := u64 (used x + 1) |>) I1) as (s2&E2&I2&K2); [unfold slot_of; lia|].
  exists s2. split_and!; [|lia..|done|done|by eapply kept_trans]. unfold alloc_chunk. change al_slab_exact_shift with 6.
  rewrite (proj2 (Z.ltb_ge _ _)) by lia. destruct (Z.eqb_spec sh 6) as [->|E6].
  - unfold alloc_exact. cbn [index]. rewrite (st_bind_ok _ _ _ (total L1) s) by done. rewrite (st_bind_ok _ _ _ s s) by done.
    rewrite (st_bind_ok _ _ _ _ _ Eg). cbn [slab]. change (Z.to_nat (cap 6)) with 64%nat in Ei. change (base_of 6) with 0 in Ei. rewrite Ei.
    change (word 6 (Z.lor bits (Z.shiftl 1 i))) with (Z.lor (word 6 bits) (Z.shiftl 1 i)) in E1. rewrite full_word6 in E1.
    change (word 6 (Z.lor bits (Z.shiftl 1 i))) with (Z.lor (word 6 bits) (Z.shiftl 1 i)) in E1.
    rewrite (st_seq _ _ _ _ _ E1). unfold use_stat. rewrite (st_bind_ok _ _ _ _ _ E2). by rewrite chunk_addr.
  - unfold alloc_big. cbn [index]. rewrite (st_bind_ok _ _ _ (total L1) s) by done. rewrite (st_bind_ok _ _ _ s s) by done.
    rewrite (st_bind_ok _ _ _ _ _ Eg). cbn [slab]. fold (cap sh).
    assert (Eb : base_of sh = AL_SLAB_MAP_SHIFT) by (unfold base_of; by rewrite (proj2 (Z.eqb_neq _ _) E6)).
    rewrite <-Eb, Ei, word_set by lia. rewrite full_word, type_of_big in E1 by (done || lia).
    rewrite (st_seq _ _ _ _ _ E1). unfold use_stat. rewrite (st_bind_ok _ _ _ _ _ E2). by rewrite chunk_addr by lia.
Qed.

(** A page taken for a size whose list is empty: it starts with its first chunk in use. *)
Lemma full_one sh : 6 <= sh <= 11 -> full sh 1 = false /\ 0 <= 1 < 2 ^ cap sh.
Proof.
  intros H. pose proof (cap_bounds sh H) as Hc. assert (2 ^ 2 <= 2 ^ cap sh) by (apply Z.pow_le_mono_r; lia).
  unfold full. split; [apply Z.eqb_neq; lia|lia].
Qed.

Lemma first_chunk_step s L1 L2 sh : Inv s (L1 ++ RBusy 1 :: L2) -> 6 <= sh <= 11 ->
  nxt (cells s) (Slot (slot_of sh)) = Some (Slot (slot_of sh)) ->
  exists M, (do _ <- put (Page (total L1)) (mk_cell (word sh 1) (Slot (slot_of sh)) (Slot (slot_of sh)) (type_of sh)) ;;
     set_next (Slot (slot_of sh)) (Page (total L1))) s = (ok tt, with_cells s M) /\ Inv (with_cells s M) (L1 ++ RSlab sh 1 :: L2).
Proof.
  intros HI Hsh He. destruct (full_one sh Hsh) as [Hf Hb]. pose proof HI as [H F P]. apply hole_cut in H.
  pose proof (around_total _ _ _ _ _ H) as T. cbn [total len] in T. set (x := Page (total L1)).
  destruct (put_step s (cells s) x (mk_cell (word sh 1) (Slot (slot_of sh)) (Slot (slot_of sh)) (type_of sh))) as (M1&E1&F1&G1&P1&D1);
    [apply (around_cell _ _ _ _ _ _ H); lia|]. cbn [slab next prev tag] in *. rewrite with_cells_id in E1.
  destruct (set_next_step s M1 (Slot (slot_of sh)) x) as (M2&E2&F2&G2&P2&D2); [apply D1; by eapply is_cell_nxt|].
  exists M2. split; [by rewrite (st_bind_ok _ _ _ _ _ E1)|].
  eapply inv_cells; [exact HI| |by rewrite !frees_app]. apply hole_whole. apply open_next in H; [|done]. rewrite Nat.add_0_l in H. cbn [len] in H.
  assert (H1 : hole (last s) (upd (slb (cells s)) x (Some (word sh 1))) (nxt (cells s)) (prv (cells s)) L1 1 L2).
  { eapply hole_ext; [exact H| |].
    - intros p Hp. rewrite upd_ne; [done|]. intros ->. specialize (Hp _ eq_refl). lia.
    - intros j Hj. apply upd_is_some. destruct H as (_&D&_). apply D. lia. }
  destruct (close_push _ _ _ _ _ (RSlab sh 1) _ (Some (slot_of sh)) H1) as (b&Hg&Lb&Cb&Hxb&Hfin);
    [apply member_slab; [lia|done]|by apply valid_slot|cbn [len]; lia|]. cbn [anchor] in *. rewrite He in Hg. injection Hg as <-. rewrite rtag_slot in Hfin by lia.
  eapply around_of; [eapply (hole_heads _ _ _ _ (upd (prv (cells s)) x (Some (Slot (slot_of sh), type_of sh)))); [apply Hfin|]| | |].
  - cbn [run_ok]. rewrite upd_eq, Hf. done.
  - intros j. by rewrite (upd_ne _ (Slot _)).
  - intros p. rewrite F2, F1. done.
  - intros p. rewrite G2. unfold upd. by rewrite G1.
  - intros p. by rewrite P2, P1.
Qed.

Lemma open_page_spec s L1 L2 sh : Inv s (L1 ++ RBusy 1 :: L2) -> 6 <= sh <= 11 ->
  nxt (cells s) (Slot (slot_of sh)) = Some (Slot (slot_of sh)) ->
  exists s', open_page (Page (total L1)) sh (slot_of sh) s = (ok (start s + 4096 * Z.of_nat (total L1)), s') /\
    Inv s' (L1 ++ RSlab sh 1 :: L2) /\ kept s s'.
Proof.
  intros HI Hsh He. destruct (first_chunk_step s L1 L2 sh HI Hsh He) as (M&E1&I1).
  destruct (stat_at_spec _ _ (slot_of sh) (fun x => x <| Slab.total := u64 (Slab.total x + cap sh) |> <| used := u64 (used x + 1) |>) I1) as (s2&E2&I2&K2);
    [unfold slot_of; lia|].
  exists s2. split_and!; [|done|eapply kept_trans; [apply kept_same, same_cells|done]].
  pose proof (chunk_addr s (total L1) 0 0 ltac:(done)) as EA. rewrite Z.shiftl_0_l, Z.mul_0_l, !Z.add_0_r in EA.
  unfold open_page. cbn [index]. rewrite (st_bind_ok _ _ _ (total L1) s) by done. rewrite (st_bind_ok _ _ _ s s) by done.
  change al_slab_exact_shift with 6. rewrite (proj2 (Z.ltb_ge _ _)) by lia. destruct (Z.eqb_spec sh 6) as [->|E6].
  - rewrite (st_bind_ok _ _ _ _ _ E1), (st_bind_ok _ _ _ _ _ E2). by rewrite EA.
  - rewrite type_of_big in E1 by done. replace (Z.lor (Z.shiftl 1 AL_SLAB_MAP_SHIFT) sh) with (word sh 1).
    + rewrite (st_bind_ok _ _ _ _ _ E1), (st_bind_ok _ _ _ _ _ E2). by rewrite EA.
    + unfold word. by rewrite (proj2 (Z.eqb_neq _ _) E6).
Qed.

(** A bit is cleared; a page that was full goes back to its list first. *)
Lemma give_chunk_step s L1 sh bits bits' L2 :
  Inv s (L1 ++ RSlab sh bits :: L2) -> 0 <= bits' < 2 ^ cap sh -> full sh bits' = false ->
  exists s', (do _ <- (if full sh bits then relink (Page (total L1)) (slot_of sh) (type_of sh) else st_ret tt) ;;
     set_slab (Page (total L1)) (word sh bits')) s = (ok tt, s') /\
    Inv s' (L1 ++ RSlab sh bits' :: L2) /\ kept s s'.
Proof.
  intros HI Hb' Hf'. destruct (slab_ok _ _ _ _ _ HI) as (Hsh&Hb&Hx). pose proof HI as [H F P]. apply hole_cut in H.
  pose proof (around_total _ _ _ _ _ H) as T. cbn [total len] in T. set (x := Page (total L1)) in *.
  assert (Cx : is_Some (cells s !! x)) by (apply (around_cell _ _ _ _ _ _ H); lia).
  destruct (full sh bits) eqn:E.
  2: { destruct (set_slab_step s (cells s) x (word sh bits')) as (M1&E1&F1&G1&P1&D1); [done|]. rewrite with_cells_id in E1.
    exists (with_cells s M1). split_and!; [done| |apply kept_same, same_cells].
    eapply inv_cells; [exact HI| |apply frees_slab]. apply hole_whole.
    eapply around_of; [apply (hole_bits _ _ _ _ _ _ bits bits' _ H); done|done..]. }
  apply open_next in H; [|cbn [listed]; by rewrite E]. rewrite Nat.add_0_l in H. cbn [len] in H.
  assert (H1 : hole (last s) (upd (slb (cells s)) x (Some (word sh bits'))) (nxt (cells s)) (prv (cells s)) L1 1 L2).
  { eapply hole_ext; [exact H| |].
    - intros p Hp. rewrite upd_ne; [done|]. intros ->. specialize (Hp _ eq_refl). lia.
    - intros j Hj. apply upd_is_some. destruct H as (_&D&_). apply D. lia. }
  destruct (close_push _ _ _ _ _ (RSlab sh bits') _ (Some (slot_of sh)) H1) as (b&Hg&Lb&Cb&Hxb&Hfin);
    [apply member_slab; [lia|done]|by apply valid_slot|cbn [len]; lia|]. cbn [anchor] in *. rewrite rtag_slot in Hfin by lia.
  set (k := Slot (slot_of sh)) in *. fold x in Hfin, Hxb.
  destruct (cell_fields _ _ (is_cell_nxt _ _ _ Hg)) as (z&q&r&K1&K2&K3). rewrite Hg in K2. injection K2 as <-.
  pose proof (get_step s (cells s) _ _ _ _ K1 Hg K3) as Ek. rewrite with_cells_id in Ek.
  destruct (set_next_step s (cells s) x b) as (M1&E1&F1&G1&P1&D1); [done|]. rewrite with_cells_id in E1.
  destruct (set_next_step s M1 k x) as (M2&E2&F2&G2&P2&D2); [apply D1; by eapply is_cell_nxt|].
  destruct (set_prev_step s M2 x k (type_of sh)) as (M3&E3&F3&G3&P3&D3); [by apply D2, D1|].
  destruct (cell_fields M3 x) as (z'&q'&r'&J1&J2&J3); [by apply D3, D2, D1|].
  assert (q' = b) as ->.
  { rewrite G3, G2, (upd_ne _ k) in J2 by done. rewrite G1, upd_eq in J2. by injection J2. }
  destruct (set_prev_step s M3 b x (type_of sh)) as (M4&E4&F4&G4&P4&D4); [by apply D3, D2, D1, cell_of_nxt|].
  destruct (set_slab_step s M4 x (word sh bits')) as (M5&E5&F5&G5&P5&D5); [by apply D4, D3, D2, D1|].
  exists (with_cells s M5). split_and!; [| |apply kept_same, same_cells].
  { rewrite (st_bind_ok _ _ _ tt (with_cells s M4)); [done|]. unfold relink.
    rewrite (st_bind_ok _ _ _ _ _ Ek). cbn [next]. rewrite (st_bind_ok _ _ _ _ _ E1), (st_bind_ok _ _ _ _ _ E2), (st_bind_ok _ _ _ _ _ E3).
    by rewrite (st_bind_ok _ _ _ _ _ (get_step s M3 _ _ _ _ J1 J2 J3)). }
  eapply inv_cells; [exact HI| |apply frees_slab]. apply hole_whole. eapply around_of; [apply Hfin| | |].
  - cbn [run_ok]. rewrite upd_eq, Hf'. done.
  - intros p. rewrite F5. unfold upd. by rewrite F4, F3, F2, F1.
  - intros p. rewrite G5, G4, G3, G2. unfold upd. by rewrite G1.
  - intros p. rewrite P5, P4. unfold upd. rewrite P3. unfold upd. by rewrite P2, P1.
Qed.

End SlabChunks.
