(* ===== verification/SlabSpec.v ===== *)
(** * What the slab allocator promises

    The blocks a pool has handed out, and that [al_malloc] and [al_free] add and
    remove one block: blocks never overlap and lie in the memory of the pool, a
    request fails only when there is no room for it, and once every block is given
    back the pool is one free run again. *)

From Stdlib Require Import ZArith Lia Bool.
From stdpp Require Import base tactics option gmap list.
From S2P Require Import Prelude Slab SlabRing SlabInv SlabHole SlabPages SlabChunks.

Open Scope Z_scope.

Module SlabSpec.
Import Slab SlabRing SlabInv SlabHole SlabPages SlabChunks.

(** ** Blocks: address and size *)
Definition chunks (sh bits base : Z) : list (Z * Z) :=
  map (fun j => (base + Z.of_nat j * 2 ^ sh, 2 ^ sh)) (List.filter (fun j => Z.testbit bits (Z.of_nat j)) (seq 0 (Z.to_nat (cap sh)))).

Definition of_run (base : Z) (r : run) : list (Z * Z) :=
  match r with RFree _ => [] | RBusy n => [(base, 4096 * Z.of_nat n)] | RSlab sh bits => chunks sh bits base end.

Fixpoint blocks (base : Z) (L : list run) : list (Z * Z) :=
  match L with [] => [] | r :: L => of_run base r ++ blocks (base + 4096 * Z.of_nat (len r)) L end.

Lemma blocks_app base L1 L2 : blocks base (L1 ++ L2) = blocks base L1 ++ blocks (base + 4096 * Z.of_nat (total L1)) L2.
Proof.
  revert base. induction L1 as [|r L1 IH]; intros base; simpl; [by rewrite Z.add_0_r|].
  rewrite IH, app_assoc. do 2 f_equal. lia.
Qed.

Lemma blocks_rest base n k L : (1 <= k <= n)%nat ->
  blocks (base + 4096 * Z.of_nat k) (rest n k ++ L) = blocks (base + 4096 * Z.of_nat n) L.
Proof.
  intros H. unfold rest. case_decide; cbn [app blocks of_run len].
  - f_equal. lia.
  - f_equal. lia.
Qed.

(** A bit more or less. *)
Lemma filter_change (P Q : nat -> bool) i l :
  NoDup l -> i ∈ l -> P i = false -> Q i = true -> (forall j, j <> i -> P j = Q j) -> List.filter Q l ≡ₚ i :: List.filter P l.
Proof.
  intros Hn Hi HP HQ E. induction l as [|j l IH]; [by apply elem_of_nil in Hi|]. apply NoDup_cons in Hn as [Hj Hn]. cbn [List.filter].
  destruct (decide (j = i)) as [->|Hji].
  - rewrite HP, HQ. f_equiv. assert (Eq : List.filter Q l = List.filter P l); [|by rewrite Eq].
    apply filter_ext_in. intros k Hk. symmetry. apply E. intros ->. by apply Hj, list_elem_of_In.
  - apply elem_of_cons in Hi as [->|Hi]; [done|]. rewrite (E j Hji). destruct (Q j); [|by apply IH]. rewrite IH by done. apply perm_swap.
Qed.

Lemma chunks_set sh bits base i : 0 <= i < cap sh -> Z.testbit bits i = false ->
  chunks sh (Z.lor bits (Z.shiftl 1 i)) base ≡ₚ (base + i * 2 ^ sh, 2 ^ sh) :: chunks sh bits base.
Proof.
  intros Hi Hb. unfold chunks. rewrite (filter_change (fun j => Z.testbit bits (Z.of_nat j)) _ (Z.to_nat i)).
  - cbn [map]. by rewrite Z2Nat.id by lia.
  - apply NoDup_seq.
  - apply elem_of_seq. lia.
  - by rewrite Z2Nat.id by lia.
  - rewrite set_bit_at, Z2Nat.id, Z.eqb_refl by lia. apply orb_true_r.
  - intros j Hj. rewrite set_bit_at by lia. rewrite (proj2 (Z.eqb_neq _ _)) by lia. by rewrite orb_false_r.
Qed.

Lemma set_clear z i : 0 <= i -> Z.testbit z i = true -> Z.lor (Z.ldiff z (Z.shiftl 1 i)) (Z.shiftl 1 i) = z.
Proof.
  intros Hi H. apply Z.bits_inj'. intros j Hj. rewrite set_bit_at, clear_bit_at by done. destruct (Z.eqb_spec j i) as [->|E].
  - by rewrite H.
  - by rewrite andb_true_r, orb_false_r.
Qed.

Lemma chunks_clear sh bits base i : 0 <= i < cap sh -> Z.testbit bits i = true ->
  chunks sh bits base ≡ₚ (base + i * 2 ^ sh, 2 ^ sh) :: chunks sh (Z.ldiff bits (Z.shiftl 1 i)) base.
Proof.
  intros Hi Hb. rewrite <-(set_clear bits i) at 1 by (done || lia). apply chunks_set; [done|].
  rewrite clear_bit_at, Z.eqb_refl by lia. apply andb_false_r.
Qed.

Lemma chunks_none sh base : chunks sh 0 base = [].
Proof. unfold chunks. induction (seq 0 (Z.to_nat (cap sh))) as [|j l IH]; [done|]. cbn [List.filter]. by rewrite Z.bits_0. Qed.

Lemma chunks_one sh base : 6 <= sh <= 11 -> chunks sh 1 base = [(base, 2 ^ sh)].
Proof.
  intros H. pose proof (cap_bounds sh H) as Hc. pose proof (chunks_set sh 0 base 0 ltac:(lia) (Z.bits_0 0)) as E.
  change (Z.lor 0 (Z.shiftl 1 0)) with 1 in E. rewrite chunks_none, Z.mul_0_l, Z.add_0_r in E. by apply Permutation_singleton_r in E.
Qed.

Lemma chunks_in sh bits base p n : (p, n) ∈ chunks sh bits base <->
  n = 2 ^ sh /\ exists i, 0 <= i < cap sh /\ Z.testbit bits i = true /\ p = base + i * 2 ^ sh.
Proof.
  unfold chunks. rewrite list_elem_of_In, in_map_iff. split.
  - intros (j&[= <- <-]&Hj). apply filter_In in Hj as [Hj Hb]. apply in_seq in Hj. split; [done|]. exists (Z.of_nat j). split_and!; [lia..|done|done].
  - intros (->&i&Hi&Hb&->). exists (Z.to_nat i). rewrite Z2Nat.id by lia. split; [done|]. apply filter_In. rewrite Z2Nat.id by lia. split; [|done].
    apply in_seq. lia.
Qed.

(** *** Blocks do not overlap *)
Definition apart (x y : Z * Z) : Prop := x.1 + x.2 <= y.1 \/ y.1 + y.2 <= x.1.

Fixpoint all_apart (l : list (Z * Z)) : Prop :=
  match l with [] => True | x :: l => Forall (apart x) l /\ all_apart l end.

Lemma apart_sym x y : apart x y -> apart y x.
Proof. unfold apart. tauto. Qed.

#[export] Instance all_apart_proper : Proper ((≡ₚ) ==> iff) all_apart.
Proof.
  assert (H : forall l l', l ≡ₚ l' -> all_apart l -> all_apart l').
  { induction 1 as [|x l l' E IH|x y l|l1 l2 l3 _ IH1 _ IH2]; cbn [all_apart]; [done| | |tauto].
    - intros [H1 H2]. split; [by rewrite <-E|by apply IH].
    - rewrite !Forall_cons. intros ((H1&H2)&H3&H4). apply apart_sym in H1. tauto. }
  intros l l' E. split; apply H; by rewrite E.
Qed.

Lemma all_apart_app l l' : all_apart l -> all_apart l' -> (forall x y, x ∈ l -> y ∈ l' -> apart x y) -> all_apart (l ++ l').
Proof.
  induction l as [|x l IH]; cbn [all_apart app]; [done|]. intros [H1 H2] H' E. split.
  - apply Forall_app. split; [done|]. apply Forall_forall. intros y Hy. apply E; [left|done].
  - apply IH; [done..|]. intros y z Hy. apply E. by right.
Qed.

Lemma of_run_bounds lst f g h i r base x : run_ok lst f g h i r -> x ∈ of_run base r ->
  base <= x.1 /\ 0 < x.2 /\ x.1 + x.2 <= base + 4096 * Z.of_nat (len r).
Proof.
  destruct r as [n|n|sh bits]; cbn [of_run len run_ok].
  - by intros _ ?%elem_of_nil.
  - intros (Hn&_) ->%list_elem_of_singleton. cbn [fst snd]. lia.
  - intros (Hsh&Hb&_) Hx. destruct x as [p n]. apply chunks_in in Hx as (->&k&Hi&_&->). cbn [fst snd].
    rewrite cap_pow in Hi by lia. assert (E : 4096 = 2 ^ (12 - sh) * 2 ^ sh) by (rewrite <-Z.pow_add_r by lia; by replace (12 - sh + sh) with 12 by lia).
    assert (0 < 2 ^ sh) by (apply Z.pow_pos_nonneg; lia). nia.
Qed.

Lemma chunks_apart sh bits base : 0 <= sh -> all_apart (chunks sh bits base).
Proof.
  intros Hsh. unfold chunks. assert (Hp : 0 < 2 ^ sh) by (apply Z.pow_pos_nonneg; lia).
  generalize (Z.to_nat (cap sh)) as n. intros n. generalize 0%nat as k. induction n as [|n IH]; intros k; [done|]. cbn [seq List.filter].
  destruct (Z.testbit bits (Z.of_nat k)); [|apply IH]. cbn [map all_apart]. split; [|apply IH].
  apply Forall_forall. intros x Hx. apply list_elem_of_In, in_map_iff in Hx as (j&<-&Hj). apply filter_In in Hj as [Hj _]. apply in_seq in Hj.
  left. cbn [fst snd]. nia.
Qed.

Lemma blocks_bounds lst f g h i L base x : laid lst f g h i L -> x ∈ blocks base L ->
  base <= x.1 /\ 0 < x.2 /\ x.1 + x.2 <= base + 4096 * Z.of_nat (total L).
Proof.
  revert i base. induction L as [|r L IH]; intros i base; cbn [laid blocks total]; [by intros _ ?%elem_of_nil|].
  intros [Hr HL] [Hx|Hx]%elem_of_app.
  - eapply of_run_bounds in Hx; [|done]. lia.
  - eapply IH in Hx; [|done]. lia.
Qed.

Lemma blocks_apart lst f g h i L base : laid lst f g h i L -> all_apart (blocks base L).
Proof.
  revert i base. induction L as [|r L IH]; intros i base; cbn [laid blocks]; [done|]. intros [Hr HL]. apply all_apart_app.
  - destruct r as [n|n|sh bits]; cbn [of_run all_apart]; [done|by split|]. destruct Hr as (Hsh&_). apply chunks_apart. lia.
  - by eapply IH.
  - intros x y Hx Hy. eapply of_run_bounds in Hx; [|done]. eapply blocks_bounds in Hy; [|done]. left. lia.
Qed.

(** ** Tidy pools: no free runs side by side, no page without a chunk in use *)
Definition is_free (r : run) : bool := match r with RFree _ => true | _ => false end.

(** [f] tells whether the run in front is free. *)
Fixpoint tidy (f : bool) (L : list run) : Prop :=
  match L with
  | [] => True
  | r :: L => match r with RFree _ => f = false | RBusy _ => True | RSlab _ bits => bits <> 0 end /\ tidy (is_free r) L
  end.

Fixpoint ends_free (f : bool) (L : list run) : bool := match L with [] => f | r :: L => ends_free (is_free r) L end.

Lemma tidy_app f L1 L2 : tidy f (L1 ++ L2) <-> tidy f L1 /\ tidy (ends_free f L1) L2.
Proof. revert f. induction L1 as [|r L1 IH]; intros f; cbn [app tidy ends_free]; [tauto|]. rewrite IH. tauto. Qed.

Lemma ends_free_snoc f L r : ends_free f (L ++ [r]) = is_free r.
Proof. revert f. induction L as [|r' L IH]; intros f; cbn [app ends_free]; [done|]. apply IH. Qed.

Lemma tidy_weaken L : tidy true L -> tidy false L.
Proof. destruct L as [|[] L]; cbn [tidy]; tauto. Qed.

Lemma tidy_front L : tidy false L -> tidy true (front_free L).2.
Proof. destruct L as [|[] L]; cbn [tidy front_free snd is_free]; tauto. Qed.

Lemma tidy_back f L : tidy f L -> f = false -> tidy f (back_free L).2 /\ ends_free f (back_free L).2 = false.
Proof.
  intros H Hf. destruct L as [|r L _] using rev_ind; [done|]. rewrite back_free_snoc. apply tidy_app in H as [H1 H2].
  destruct r; cbn [snd]; [cbn [tidy] in H2; tauto|rewrite ends_free_snoc..]; rewrite tidy_app; done.
Qed.

Lemma tidy_given_back L1 r L2 : tidy false (L1 ++ r :: L2) -> is_free r = false -> tidy false (given_back L1 (len r) L2).
Proof.
  intros [H1 [_ H2]]%tidy_app Hr. rewrite Hr in H2. destruct (tidy_back false L1 H1 eq_refl) as [H3 H4]. unfold given_back.
  apply tidy_app. split; [done|]. cbn [tidy is_free]. rewrite H4. split; [done|]. by apply tidy_front.
Qed.

(** A run replaced by one that is not free, or the front of a free run taken. *)
Lemma tidy_replace L1 r r' L2 : tidy false (L1 ++ r :: L2) -> is_free r = false -> is_free r' = false -> 
  match r' with RSlab _ bits => bits <> 0 | _ => True end -> tidy false (L1 ++ r' :: L2).
Proof.
  intros [H1 [_ H2]]%tidy_app Hr Hr' Hb. rewrite Hr in H2. apply tidy_app. split; [done|]. cbn [tidy]. rewrite Hr'. split; [by destruct r'|done].
Qed.

Lemma tidy_take L1 n k r L2 : tidy false (L1 ++ RFree n :: L2) -> is_free r = false ->
  match r with RSlab _ bits => bits <> 0 | _ => True end -> tidy false (L1 ++ r :: rest n k ++ L2).
Proof.
  intros [H1 [H0 H2]]%tidy_app Hr Hb. cbn [is_free] in H2. apply tidy_app. split; [done|]. cbn [tidy]. rewrite Hr. split; [by destruct r|].
  unfold rest. case_decide; cbn [app tidy is_free]; [done|by apply tidy_weaken].
Qed.

(** Nothing handed out: one free run. *)
Lemma blocks_nil base L : tidy false L -> blocks base L = [] -> (exists lst f g h i, laid lst f g h i L) -> (0 < total L)%nat -> L = [RFree (total L)].
Proof.
  intros HT HB (lst&f&g&h&i&HL) H. assert (Hall : forall r, r ∈ L -> is_free r = true).
  { clear H. revert base i HB HL HT. generalize false as b. induction L as [|r L IH]; intros b base i; cbn [blocks laid tidy]; [by intros _ _ _ r ?%elem_of_nil|].
    intros [HB1 HB2]%app_eq_nil [Hr HL] [Ht HT] r' [->|Hr']%elem_of_cons; [|by eapply IH].
    destruct r as [n|n|sh bits]; [done|done|]. exfalso. destruct Hr as (Hsh&Hb&_). apply Ht. apply (bits_ext _ _ (cap sh)); [done| |].
    - split; [done|apply Z.pow_pos_nonneg; [lia|]]. pose proof (cap_bounds sh Hsh). lia.
    - intros k Hk. rewrite Z.bits_0. destruct (Z.testbit bits k) eqn:E; [|done]. exfalso.
      assert (Hin : (base + k * 2 ^ sh, 2 ^ sh) ∈ chunks sh bits base) by (apply chunks_in; eauto). cbn [of_run] in HB1. rewrite HB1 in Hin.
      by apply elem_of_nil in Hin. }
  destruct L as [|r [|r' L]]; cbn [total] in *; [lia| |].
  - destruct r; [cbn [len]; by rewrite Nat.add_0_r|specialize (Hall _ ltac:(left)); done..].
  - exfalso. cbn [tidy] in HT. destruct HT as (_&HT&_). rewrite (Hall r) in HT by left.
    assert (Hr' : is_free r' = true) by (apply Hall; right; left). destruct r'; done.
Qed.

(** ** Sizes *)
Lemma halvings_log2 fuel : forall n, 0 < n < 2 ^ Z.of_nat fuel -> halvings fuel n = Z.log2 n.
Proof.
  induction fuel as [|fuel IH]; intros n Hn; [simpl in Hn; lia|]. cbn [halvings].
  pose proof (Z.log2_shiftr n 1 ltac:(lia)) as El.
  assert (Hpow : 2 ^ Z.of_nat (S fuel) = 2 * 2 ^ Z.of_nat fuel) by (rewrite <-Z.pow_succ_r by lia; f_equal; lia).
  rewrite Z.shiftr_div_pow2 in * by lia. change (2 ^ 1) with 2 in *. destruct (Z.eqb_spec (n / 2) 0) as [E|E].
  - assert (n = 1) by (pose proof (Z.div_mod n 2); pose proof (Z.mod_pos_bound n 2); lia). by subst.
  - assert (Hd : 0 < n / 2 < 2 ^ Z.of_nat fuel) by (split; [pose proof (Z.div_pos n 2); lia|apply Z.div_lt_upper_bound; lia]).
    rewrite IH by done. rewrite El. assert (1 <= Z.log2 n) by (apply Z.log2_le_pow2; [lia|]; change (2 ^ 1) with 2;
      pose proof (Z.div_mod n 2); pose proof (Z.mod_pos_bound n 2); lia). lia.
Qed.

(** A request fits the chunks of its class. *)
Lemma class_spec s size : fixed s -> size <= 2048 ->
  exists sh, class_of s size = (sh, sh - 6) /\ 6 <= sh <= 11 /\ size <= 2 ^ sh.
Proof.
  intros [[H1 H2] _ _ _] Hs. unfold class_of. rewrite H1, H2. destruct (Z.ltb_spec 64 size) as [H|H].
  - rewrite (halvings_log2 64) by (change (2 ^ Z.of_nat 64) with (2 ^ 64); lia).
    pose proof (Z.log2_spec (size - 1) ltac:(lia)) as Hl.
    assert (6 <= Z.log2 (size - 1)) by (apply Z.log2_le_pow2; lia).
    assert (Z.log2 (size - 1) < 11) by (apply Z.log2_lt_pow2; lia).
    exists (1 + Z.log2 (size - 1)). split_and!; [done|lia|lia|]. rewrite Z.add_1_l. lia.
  - exists 6. split_and!; [done|lia|lia|]. simpl. lia.
Qed.

(** The pages of a large request. *)
Definition pages_of (size : Z) : Z := Z.shiftr size al_pagesize_shift + if size mod PAGESIZE =? 0 then 0 else 1.

Lemma pages_of_spec size : 0 < size -> 1 <= pages_of size /\ size <= 4096 * pages_of size /\ 4096 * (pages_of size - 1) < size.
Proof.
  intros H. unfold pages_of. change al_pagesize_shift with 12. rewrite Z.shiftr_div_pow2 by lia. change PAGESIZE with 4096. change (2 ^ 12) with 4096.
  pose proof (Z.div_mod size 4096 ltac:(lia)). pose proof (Z.mod_pos_bound size 4096 ltac:(lia)). pose proof (Z.div_pos size 4096).
  destruct (Z.eqb_spec (size mod 4096) 0); lia.
Qed.

(** ** [al_malloc] *)
Definition no_room (L : list run) (size : Z) : Prop := forall n, RFree n ∈ L -> if 2048 <? size then 4096 * Z.of_nat n < size else False.

(** What a request that is met leaves. *)
Definition handed (s : pool) (L : list run) (size p : Z) (L' : list run) : Prop :=
  exists n, size <= n /\ blocks (start s) L' ≡ₚ (p, n) :: blocks (start s) L.

Lemma handed_pages s L1 n k L2 size : (1 <= k <= n)%nat -> size <= 4096 * Z.of_nat k ->
  handed s (L1 ++ RFree n :: L2) size (start s + 4096 * Z.of_nat (total L1)) (L1 ++ RBusy k :: rest n k ++ L2).
Proof.
  intros Hk Hs. exists (4096 * Z.of_nat k). split; [done|]. rewrite !blocks_app. cbn [blocks of_run len app].
  rewrite blocks_rest by done. by apply Permutation_sym, Permutation_middle.
Qed.

Lemma handed_chunk s L1 sh bits i L2 size : 0 <= i < cap sh -> Z.testbit bits i = false -> size <= 2 ^ sh ->
  handed s (L1 ++ RSlab sh bits :: L2) size (start s + 4096 * Z.of_nat (total L1) + i * 2 ^ sh) (L1 ++ RSlab sh (Z.lor bits (Z.shiftl 1 i)) :: L2).
Proof.
  intros Hi Hb Hs. exists (2 ^ sh). split; [done|]. rewrite !blocks_app. cbn [blocks of_run len]. rewrite chunks_set by done.
  cbn [app]. by apply Permutation_sym, Permutation_middle.
Qed.

Lemma handed_first s L1 n sh L2 size : (1 <= n)%nat -> 6 <= sh <= 11 -> size <= 2 ^ sh ->
  handed s (L1 ++ RFree n :: L2) size (start s + 4096 * Z.of_nat (total L1)) (L1 ++ RSlab sh 1 :: rest n 1 ++ L2).
Proof.
  intros Hn Hsh Hs. exists (2 ^ sh). split; [done|]. rewrite !blocks_app. cbn [blocks of_run len]. rewrite chunks_one by done.
  rewrite blocks_rest by lia. cbn [app]. by apply Permutation_sym, Permutation_middle.
Qed.

Lemma malloc_pages_spec s L size : Inv s L -> tidy false L -> 2048 < size ->
  exists p s', al_malloc size s = (ok p, s') /\ kept s s' /\
    ((p = 0 /\ s' = s /\ no_room L size) \/ (exists L', Inv s' L' /\ tidy false L' /\ handed s L size p L')).
Proof.
  intros HI HT Hs. destruct (pages_of_spec size ltac:(lia)) as (K1&K2&K3). unfold al_malloc, al_slab_alloc_locked.
  rewrite (st_bind_ok _ _ _ s s) by done. change al_slab_max_size with 2048. rewrite (proj2 (Z.ltb_lt _ _)) by lia. fold (pages_of size).
  pose (k := Z.to_nat (pages_of size)). replace (pages_of size) with (Z.of_nat k) in * by lia.
  destruct (alloc_pages_spec s L k HI ltac:(lia)) as [(L1&n&L2&s'&->&Hn&E&HI'&S)|[E Hno]].
  - exists (start s + 4096 * Z.of_nat (total L1)), s'. rewrite (st_bind_ok _ _ _ _ _ E). split_and!; [|by apply kept_same|].
    + cbn [index]. rewrite (st_bind_ok _ _ _ (total L1) s') by done. rewrite (st_bind_ok _ _ _ s' s') by done.
      pose proof (chunk_addr s' (total L1) 0 0 ltac:(done)) as EA. rewrite Z.shiftl_0_l, Z.mul_0_l, !Z.add_0_r in EA.
      rewrite EA, (same_start _ _ S). done.
    + right. eexists. split_and!; [done|by apply tidy_take|apply handed_pages; lia].
  - exists 0, s. rewrite (st_bind_ok _ _ _ _ _ E). split_and!; [done|done|]. left. split_and!; [done..|].
    intros n Hin. rewrite (proj2 (Z.ltb_lt _ _)) by lia. specialize (Hno n Hin). nia.
Qed.

(** The list of a size is not touched when pages are taken. *)
Lemma slot_empty s L sh : Inv s L -> 6 <= sh <= 11 ->
  nxt (cells s) (Slot (slot_of sh)) = Some (Slot (slot_of sh)) <-> pick (member (Some (slot_of sh))) 0 L = [].
Proof.
  intros [(_&_&_&_&R) _ _] Hsh. destruct (R _ (valid_slot sh Hsh)) as (l&El&[Hs Hn]). apply seg_start in Hs. cbn [anchor] in *.
  change (on_lists [] 0 L (Some (slot_of sh))) with (pick (member (Some (slot_of sh))) 0 L) in El. rewrite Hs. split.
  - intros [= E]. destruct l as [|p l]; [by apply Permutation_nil_l in El|]. cbn [head_of hd] in E. subst p.
    exfalso. assert (H : Slot (slot_of sh) ∈ pick (member (Some (slot_of sh))) 0 L) by (rewrite <-El; left).
    apply pick_in in H as (?&?&?&_&_&?). done.
  - intros E. rewrite E in El. apply Permutation_nil_r in El as ->. done.
Qed.

Lemma slot_empty_take s s' L1 n k L2 sh : Inv s (L1 ++ RFree n :: L2) -> Inv s' (L1 ++ RBusy k :: rest n k ++ L2) -> 6 <= sh <= 11 -> (1 <= k <= n)%nat ->
  nxt (cells s) (Slot (slot_of sh)) = Some (Slot (slot_of sh)) -> nxt (cells s') (Slot (slot_of sh)) = Some (Slot (slot_of sh)).
Proof.
  intros HI HI' Hsh Hk E. apply (slot_empty _ _ _ HI Hsh) in E. apply (slot_empty _ _ _ HI' Hsh). rewrite pick_app in *. apply app_eq_nil in E as [E1 E2].
  rewrite E1. cbn [pick member app len] in *. rewrite pick_app. unfold rest. case_decide; cbn [pick member app len total].
  - by replace (0 + total L1 + k + (n - k + 0))%nat with (0 + total L1 + n)%nat by lia.
  - by replace (0 + total L1 + k + 0)%nat with (0 + total L1 + n)%nat by lia.
Qed.

Lemma malloc_chunk_spec s L size : Inv s L -> tidy false L -> 0 <= size <= 2048 ->
  exists p s', al_malloc size s = (ok p, s') /\ kept s s' /\
    ((p = 0 /\ Inv s' L /\ no_room L size) \/ (exists L', Inv s' L' /\ tidy false L' /\ handed s L size p L')).
Proof.
  intros HI HT Hs. destruct (class_spec s size (inv_fixed _ _ HI) ltac:(lia)) as (sh&Ec&Hsh&Hfit). unfold al_malloc, al_slab_alloc_locked.
  rewrite (st_bind_ok _ _ _ s s) by done. change al_slab_max_size with 2048. rewrite (proj2 (Z.ltb_ge _ _)) by lia. rewrite Ec. fold (slot_of sh).
  assert (Hslot : (slot_of sh < 6)%nat) by (unfold slot_of; lia).
  destruct (stat_at_spec s L (slot_of sh) (fun x => x <| reqs := u64 (reqs x + 1) |>) HI Hslot) as (s1&E1&I1&K1).
  rewrite (st_bind_ok _ _ _ _ _ E1). destruct (slot_head s1 L sh I1 Hsh) as [(z&r&Eg)|(L1&bits&L2&z&r&q&->&Hf&Eg&Hq&Hne)];
    rewrite (st_bind_ok _ _ _ _ _ Eg); cbn [next].
  - rewrite (st_bind_ok _ _ _ _ _ Eg). cbn [next]. rewrite bool_decide_true by done. rewrite (st_bind_ok _ _ _ None s1) by done.
    assert (He : nxt (cells s1) (Slot (slot_of sh)) = Some (Slot (slot_of sh))).
    { unfold get in Eg. unfold nxt. destruct (cells s1 !! _); [|done]. by injection Eg as ->. }
    destruct (alloc_pages_spec s1 L 1 I1 ltac:(lia)) as [(L1&n&L2&s2&->&Hn&E2&I2&S2)|[E2 Hno]]; change (Z.of_nat 1) with 1 in E2;
      rewrite (st_bind_ok _ _ _ _ _ E2).
    + destruct (open_page_spec s2 L1 _ sh I2 Hsh (slot_empty_take s1 s2 L1 n 1 L2 sh I1 I2 Hsh ltac:(lia) He)) as (s3&E3&I3&K3).
      exists (start s2 + 4096 * Z.of_nat (total L1)), s3. split_and!; [done|eapply kept_trans; [exact K1|eapply kept_trans; [by apply kept_same|done]]|].
      right. eexists. split_and!; [done|by apply tidy_take|]. rewrite (same_start _ _ S2), (kept_start _ _ K1). by apply handed_first.
    + destruct (stat_at_spec s1 L (slot_of sh) (fun x => x <| fails := u64 (fails x + 1) |>) I1 Hslot) as (s2&E3&I3&K3).
      exists 0, s2. rewrite (st_bind_ok _ _ _ _ _ E3). split_and!; [done|by eapply kept_trans|]. left. split_and!; [done..|].
      intros n Hin. specialize (Hno n Hin). rewrite (proj2 (Z.ltb_ge _ _)) by lia.
      pose proof (hole_sized _ _ _ _ _ _ _ (inv_around _ _ HI)) as [_ Sz]. specialize (Sz _ Hin). cbn [len] in Sz. lia.
  - destruct (slab_cell _ _ _ _ _ I1) as (q'&p'&Eg'&_). rewrite (st_bind_ok _ _ _ _ _ Eg'). cbn [next].
    assert (q' = q) as ->. { unfold get in Eg'. unfold nxt in Hq. destruct (cells s1 !! _); [|done]. cbn in Hq. injection Hq as <-. by injection Eg' as ->. }
    rewrite bool_decide_false by done. destruct (alloc_chunk_spec s1 L1 sh bits L2 I1 Hf) as (i&s2&E2&Hi&Hb&I2&K2).
    exists (start s1 + 4096 * Z.of_nat (total L1) + i * 2 ^ sh), s2. split_and!; [|by eapply kept_trans|].
    + change (if sh <? al_slab_exact_shift then alloc_small (Page (total L1)) sh (slot_of sh) else
              if sh =? al_slab_exact_shift then alloc_exact (Page (total L1)) sh (slot_of sh) else alloc_big (Page (total L1)) sh (slot_of sh))
        with (alloc_chunk (Page (total L1)) sh (slot_of sh)). by rewrite (st_bind_ok _ _ _ _ _ E2).
    + right. eexists. split_and!; [done| |rewrite (kept_start _ _ K1); by apply handed_chunk].
      eapply tidy_replace; [done|done|done|]. cbn. intros E. apply Z.lor_eq_0_iff in E as [_ E].
      rewrite Z.shiftl_mul_pow2, Z.mul_1_l in E by lia. pose proof (Z.pow_pos_nonneg 2 i ltac:(lia) ltac:(lia)). lia.
Qed.

Lemma malloc_spec s L size : Inv s L -> tidy false L -> 0 <= size ->
  exists p s', al_malloc size s = (ok p, s') /\ kept s s' /\
    ((p = 0 /\ Inv s' L /\ no_room L size) \/ (exists L', Inv s' L' /\ tidy false L' /\ handed s L size p L')).
Proof.
  intros HI HT Hs. destruct (Z.lt_ge_cases 2048 size) as [H|H]; [|apply malloc_chunk_spec; try done; lia].
  destruct (malloc_pages_spec s L size HI HT H) as (p&s'&E&K&[(->&->&Hn)|Hh]); exists p || exists 0; eexists; (split_and!; [done|done|]); [left|right]; done.
Qed.

(** ** [al_free] *)

(** A block lies in one run. *)
Lemma blocks_in base L p n : (p, n) ∈ blocks base L <->
  exists L1 r L2, L = L1 ++ r :: L2 /\ (p, n) ∈ of_run (base + 4096 * Z.of_nat (total L1)) r.
Proof.
  revert base. induction L as [|r L IH]; intros base; cbn [blocks].
  - split; [by intros ?%elem_of_nil|]. by intros ([|]&?&?&?&_).
  - rewrite elem_of_app, IH. split.
    + intros [H|(L1&r1&L2&->&H)]; [exists [], r, L; cbn [total]; by rewrite Z.add_0_r|].
      exists (r :: L1), r1, L2. split; [done|]. cbn [total]. by replace (base + 4096 * Z.of_nat (len r + total L1)) with
        (base + 4096 * Z.of_nat (len r) + 4096 * Z.of_nat (total L1)) by lia.
    + intros ([|r0 L1]&r1&L2&E&H); cbn in E; injection E as -> ->; [left; cbn [total] in H; by rewrite Z.add_0_r in H|right].
      exists L1, r1, L2. split; [done|]. cbn [total] in H. by replace (base + 4096 * Z.of_nat (len r0 + total L1)) with
        (base + 4096 * Z.of_nat (len r0) + 4096 * Z.of_nat (total L1)) in H by lia.
Qed.

Lemma page_index st i o : 0 <= o < 4096 -> Z.to_nat (Z.shiftr (st + 4096 * Z.of_nat i + o - st) al_pagesize_shift) = i.
Proof.
  intros H. change al_pagesize_shift with 12. rewrite Z.shiftr_div_pow2 by lia. change (2 ^ 12) with 4096.
  replace (st + 4096 * Z.of_nat i + o - st) with (o + Z.of_nat i * 4096) by lia. rewrite Z.div_add, Z.div_small by lia. lia.
Qed.

Lemma page_offset st i o : st mod 4096 = 0 -> 0 <= o < 4096 -> Z.land (st + 4096 * Z.of_nat i + o) (PAGESIZE - 1) = o.
Proof.
  intros H Ho. change (PAGESIZE - 1) with (Z.ones 12). rewrite Z.land_ones by lia. change (2 ^ 12) with 4096.
  apply Z.div_exact in H; [|lia]. rewrite H. replace (4096 * (st / 4096) + 4096 * Z.of_nat i + o) with (o + (st / 4096 + Z.of_nat i) * 4096) by lia.
  rewrite Z.mod_add by lia. by apply Z.mod_small.
Qed.

Lemma chunk_aligned st i sh j : st mod 4096 = 0 -> 6 <= sh <= 11 -> Z.land (st + 4096 * Z.of_nat i + j * 2 ^ sh) (Z.shiftl 1 sh - 1) = 0.
Proof.
  intros H Hsh. rewrite Z.shiftl_mul_pow2, Z.mul_1_l by lia. rewrite ones_bits, Z.land_ones by lia.
  apply Z.div_exact in H; [|lia]. rewrite H. assert (E : 4096 = 2 ^ (12 - sh) * 2 ^ sh) by (rewrite <-Z.pow_add_r by lia; by replace (12 - sh + sh) with 12 by lia).
  set (q := st / 4096). replace (4096 * q + 4096 * Z.of_nat i + j * 2 ^ sh) with ((2 ^ (12 - sh) * (q + Z.of_nat i) + j) * 2 ^ sh) by (rewrite E; ring).
  apply Z.mod_mul. pose proof (Z.pow_pos_nonneg 2 sh). lia.
Qed.

Lemma chunk_offset sh j : 6 <= sh <= 11 -> 0 <= j < cap sh -> 0 <= j * 2 ^ sh < 4096 /\ Z.shiftr (j * 2 ^ sh) sh = j.
Proof.
  intros Hsh Hj. rewrite cap_pow in Hj by lia. assert (E : 4096 = 2 ^ (12 - sh) * 2 ^ sh) by (rewrite <-Z.pow_add_r by lia; by replace (12 - sh + sh) with 12 by lia).
  assert (0 < 2 ^ sh) by (apply Z.pow_pos_nonneg; lia). split; [nia|]. rewrite Z.shiftr_div_pow2 by lia. apply Z.div_mul. lia.
Qed.

Lemma front_free_blocks base L : blocks base L = blocks (base + 4096 * Z.of_nat (front_free L).1) (front_free L).2 /\
  total L = ((front_free L).1 + total (front_free L).2)%nat.
Proof. destruct L as [|[n|n|sh bits] L]; cbn [front_free fst snd blocks of_run len app total]; split; try done; by rewrite ?Z.mul_0_r, ?Z.add_0_r. Qed.

Lemma back_free_blocks base L : blocks base L = blocks base (back_free L).2 /\ total L = (total (back_free L).2 + (back_free L).1)%nat.
Proof.
  destruct L as [|r L _] using rev_ind; [done|]. rewrite back_free_snoc. destruct r; cbn [fst snd]; rewrite ?blocks_app, !total_app; cbn [blocks of_run total len app].
  - rewrite app_nil_r. split; [done|lia].
  - split; [done|lia].
  - split; [done|lia].
Qed.

Lemma given_back_blocks base L1 r L2 :
  blocks base (given_back L1 (len r) L2) = blocks base L1 ++ blocks (base + 4096 * Z.of_nat (total L1) + 4096 * Z.of_nat (len r)) L2.
Proof.
  unfold given_back. destruct (back_free_blocks base L1) as [E1 T1]. rewrite E1, T1, blocks_app. f_equal. cbn [blocks of_run len app].
  destruct (front_free_blocks (base + 4096 * Z.of_nat (total (back_free L1).2 + (back_free L1).1) + 4096 * Z.of_nat (len r)) L2) as [-> _].
  f_equal. lia.
Qed.

(** What [al_free] leaves. *)
Definition returned (s : pool) (L : list run) (p n : Z) (L' : list run) : Prop :=
  tidy false L' /\ blocks (start s) L ≡ₚ (p, n) :: blocks (start s) L'.

Lemma start_word k : 0 < k < 2 ^ 52 ->
  Z.land (Z.lor k AL_SLAB_PAGE_START) AL_SLAB_PAGE_START <> 0 /\ Z.lor k AL_SLAB_PAGE_START <> AL_SLAB_PAGE_BUSY /\
  Z.ldiff (Z.lor k AL_SLAB_PAGE_START) AL_SLAB_PAGE_START = k.
Proof.
  intros Hk. change AL_SLAB_PAGE_START with (Z.shiftl 1 63). change AL_SLAB_PAGE_BUSY with (Z.ones 64).
  assert (Hb : forall j, 52 <= j -> Z.testbit k j = false) by (intros j Hj; apply (small_bits k 52); lia). split_and!.
  - intros E. apply (f_equal (fun z => Z.testbit z 63)) in E. rewrite Z.land_spec, set_bit_at, one_bit, Z.bits_0, Z.eqb_refl, orb_true_r in E by lia. done.
  - intros E. apply (f_equal (fun z => Z.testbit z 60)) in E. rewrite set_bit_at, Hb, Z.ones_spec_low in E by lia. done.
  - apply Z.bits_inj'. intros j Hj. rewrite clear_bit_at, set_bit_at by lia. destruct (Z.eqb_spec j 63) as [->|]; [rewrite Hb by lia; done|].
    by rewrite orb_false_r, andb_true_r.
Qed.

Section free.
Context (s : pool) (L1 L2 : list run) (r : run) (HI : Inv s (L1 ++ r :: L2)).

(** The page of a block. *)
Lemma free_page o : 0 <= o < 4096 -> (1 <= len r)%nat ->
  let p := start s + 4096 * Z.of_nat (total L1) + o in
  al_free p s = (do c <- get (Page (total L1)) ;;
    if tag c =? AL_SLAB_SMALL then free_small (Page (total L1)) (total L1) p
    else if tag c =? AL_SLAB_EXACT then free_exact (Page (total L1)) p
    else if tag c =? AL_SLAB_BIG then free_big (Page (total L1)) p
    else free_run (Page (total L1)) p) s.
Proof using HI.
  intros Ho Hl p. destruct HI as [H [_ _ [F1 F2] F3] _]. apply hole_cut, around_total in H. cbn [total] in H.
  unfold al_free, al_slab_free_locked. rewrite (st_bind_ok _ _ _ s s) by done.
  rewrite (proj2 (Z.ltb_ge _ _)), (proj2 (Z.ltb_ge _ _)) by (unfold p; lia). cbn [orb]. pose proof (page_index (start s) (total L1) o Ho) as Ei. fold p in Ei. by rewrite Ei.
Qed.
End free.

Lemma free_run_spec s L1 k L2 : Inv s (L1 ++ RBusy k :: L2) -> tidy false (L1 ++ RBusy k :: L2) ->
  exists s' L', al_free (start s + 4096 * Z.of_nat (total L1)) s = (ok tt, s') /\ Inv s' L' /\ kept s s' /\
    returned s (L1 ++ RBusy k :: L2) (start s + 4096 * Z.of_nat (total L1)) (4096 * Z.of_nat k) L'.
Proof.
  intros HI HT. pose proof HI as [H F _]. pose proof (inv_bound _ _ HI) as B. apply hole_cut in H. pose proof (around_total _ _ _ _ _ H) as T. cbn [total len] in T.
  pose proof H as (_&_&_&[(Hk&(Hx&Hg&q&Hh)&_) _]&_). rewrite Nat.add_0_r in *.
  destruct (free_pages_spec s L1 (RBusy k) L2 HI I) as (s'&E&I'&S'). cbn [len] in E.
  exists s', (given_back L1 k L2). split_and!; [|done|by apply kept_same|].
  - pose proof (free_page s L1 L2 (RBusy k) HI 0 ltac:(lia) Hk) as EF. rewrite !Z.add_0_r in EF. rewrite EF.
    pose proof (get_step s (cells s) _ _ _ _ Hx Hg Hh) as Eg. rewrite with_cells_id in Eg. rewrite (st_bind_ok _ _ _ _ _ Eg). cbn [tag snd].
    unfold free_run. cbn [Z.eqb AL_SLAB_SMALL AL_SLAB_EXACT AL_SLAB_BIG]. rewrite (st_bind_ok _ _ _ _ _ Eg). cbn [slab].
    pose proof (page_offset (start s) (total L1) 0 (proj2 (fixed_start _ F)) ltac:(lia)) as Eo. rewrite Z.add_0_r in Eo. rewrite Eo. cbn [Z.eqb negb].
    destruct (start_word (Z.of_nat k)) as (W1&W2&W3); [assert (2 ^ 64 = 4096 * 2 ^ 52) by reflexivity; lia|].
    rewrite (proj2 (Z.eqb_neq _ _) W1), (proj2 (Z.eqb_neq _ _) W2), W3. done.
  - split; [by apply (tidy_given_back L1 (RBusy k) L2)|]. rewrite (given_back_blocks _ L1 (RBusy k) L2), blocks_app. cbn [blocks of_run len app].
    by apply Permutation_sym, Permutation_middle.
Qed.

(** The end of a chunk: the page goes too when it was the last in use. *)
Lemma last_chunk_step s L1 sh bits L2 m : Inv s (L1 ++ RSlab sh bits :: L2) -> full sh bits = false -> 6 <= sh <= 11 ->
  exists s', (if negb (bits =? 0) then unuse (slot_of sh) None
     else do _ <- al_slab_free_pages (Page (total L1)) 1 ;; unuse (slot_of sh) (Some m)) s = (ok tt, s') /\
    Inv s' (if bits =? 0 then given_back L1 1 L2 else L1 ++ RSlab sh bits :: L2) /\ kept s s'.
Proof.
  intros HI Hf Hsh. assert (Hslot : (slot_of sh < 6)%nat) by (unfold slot_of; lia). unfold unuse. destruct (bits =? 0); cbn [negb].
  - destruct (free_pages_spec s L1 (RSlab sh bits) L2 HI Hf) as (s1&E1&I1&S1). cbn [len] in *. change (Z.of_nat 1) with 1 in E1.
    rewrite (st_bind_ok _ _ _ _ _ E1). destruct (stat_at_spec s1 _ (slot_of sh) (fun x => x <| Slab.total := u64 (Slab.total x - m) |> <| used := u64 (used x - 1) |>) I1 Hslot)
      as (s2&E2&I2&K2). exists s2. split_and!; [|done|eapply kept_trans; [by apply kept_same|done]]. rewrite <-E2.
    unfold stat_at. destruct (stats s1 !! slot_of sh) as [[]|]; done.
  - destruct (stat_at_spec s _ (slot_of sh) (fun x => x <| used := u64 (used x - 1) |>) HI Hslot) as (s2&E2&I2&K2). by exists s2.
Qed.

Lemma clear_not_full sh bits i : 6 <= sh <= 11 -> 0 <= i < cap sh -> full sh (Z.ldiff bits (Z.shiftl 1 i)) = false.
Proof.
  intros Hsh Hi. unfold full. apply Z.eqb_neq. rewrite ones_bits by lia. intros E. apply (f_equal (fun z => Z.testbit z i)) in E.
  rewrite clear_bit_at, Z.ones_spec_low, Z.eqb_refl, andb_false_r in E by lia. done.
Qed.

Lemma free_chunk_spec s L1 sh bits L2 i :
  Inv s (L1 ++ RSlab sh bits :: L2) -> tidy false (L1 ++ RSlab sh bits :: L2) -> 0 <= i < cap sh -> Z.testbit bits i = true ->
  exists s' L', al_free (start s + 4096 * Z.of_nat (total L1) + i * 2 ^ sh) s = (ok tt, s') /\ Inv s' L' /\ kept s s' /\
    returned s (L1 ++ RSlab sh bits :: L2) (start s + 4096 * Z.of_nat (total L1) + i * 2 ^ sh) (2 ^ sh) L'.
Proof.
  intros HI HT Hi Hb. destruct (slab_ok _ _ _ _ _ HI) as (Hsh&Hbits&Hx). pose proof HI as [_ F _]. pose proof (proj2 (fixed_start _ F)) as Fa.
  destruct (slab_cell _ _ _ _ _ HI) as (q&pp&Eg&Hq). destruct (chunk_offset sh i Hsh Hi) as [Ho Es].
  set (bits' := Z.ldiff bits (Z.shiftl 1 i)). pose proof (clear_not_full sh bits i Hsh Hi) as Hf'. fold bits' in Hf'.
  pose proof (clear_bit_bound bits (cap sh) i Hbits) as Hbits'. fold bits' in Hbits'.
  destruct (give_chunk_step s L1 sh bits bits' L2 HI Hbits' Hf') as (s1&E1&I1&K1).
  destruct (last_chunk_step s1 L1 sh bits' L2 (cap sh) I1 Hf' Hsh) as (s2&E2&I2&K2).
  exists s2. eexists. split_and!; [|exact I2|by eapply kept_trans|].
  - rewrite (free_page s L1 L2 (RSlab sh bits) HI (i * 2 ^ sh) Ho ltac:(cbn [len]; lia)). rewrite (st_bind_ok _ _ _ _ _ Eg). cbn [tag].
    pose proof (page_offset (start s) (total L1) (i * 2 ^ sh) Fa Ho) as Eo. pose proof (chunk_aligned (start s) (total L1) sh i Fa Hsh) as Ea.
    pose proof (word_bit sh bits Hsh Hbits i ltac:(lia)) as Eb. rewrite Hb in Eb.
    pose proof (word_clear sh bits Hsh i ltac:(lia)) as Ew. fold bits' in Ew.
    destruct (fixed_min _ F) as [_ Em]. destruct (decide (sh = 6)) as [->|E6].
    + rewrite type_of_6. cbn [Z.eqb AL_SLAB_SMALL AL_SLAB_EXACT Pos.eqb]. unfold free_exact. rewrite (st_bind_ok _ _ _ s s) by done.
      rewrite (st_bind_ok _ _ _ _ _ Eg). cbn [slab]. change (al_slab_exact_size - 1) with (Z.shiftl 1 6 - 1). rewrite Ea, Eo.
      change al_slab_exact_shift with 6. rewrite Es. cbn [Z.eqb negb]. change (base_of 6 + i) with i in Eb, Ew. rewrite Eb, Em. cbn [negb].
      fold (slot_of 6). rewrite full_word6 in E1. rewrite Ew. rewrite type_of_6 in E1. rewrite (st_seq _ _ _ _ _ E1). exact E2.
    + rewrite type_of_big by done. cbn [Z.eqb AL_SLAB_SMALL AL_SLAB_EXACT AL_SLAB_BIG Pos.eqb]. unfold free_big. rewrite (st_bind_ok _ _ _ s s) by done.
      rewrite (st_bind_ok _ _ _ _ _ Eg). cbn [slab next]. rewrite word_shift by done. rewrite Ea, Eo, Es, Em. cbn [Z.eqb negb].
      assert (Ebase : base_of sh + i = i + AL_SLAB_MAP_SHIFT) by (unfold base_of; rewrite (proj2 (Z.eqb_neq _ _) E6); unfold AL_SLAB_MAP_SHIFT; lia).
      rewrite Ebase in Eb, Ew. rewrite Eb. cbn [negb]. fold (slot_of sh). rewrite Hq, Ew. rewrite type_of_big in E1 by done.
      rewrite (st_seq _ _ _ _ _ E1). rewrite empty_word by (done || lia). exact E2.
  - split.
    + destruct (Z.eqb_spec bits' 0) as [E|E]; [by apply (tidy_given_back L1 (RSlab sh bits) L2)|]. by eapply tidy_replace.
    + assert (EB : blocks (start s) (if bits' =? 0 then given_back L1 1 L2 else L1 ++ RSlab sh bits' :: L2) =
                   blocks (start s) L1 ++ chunks sh bits' (start s + 4096 * Z.of_nat (total L1)) ++
                   blocks (start s + 4096 * Z.of_nat (total L1) + 4096 * Z.of_nat 1) L2).
      { destruct (Z.eqb_spec bits' 0) as [->|E]; [by rewrite (given_back_blocks _ L1 (RSlab sh bits) L2), chunks_none|]. by rewrite blocks_app. }
      rewrite EB, blocks_app. cbn [blocks of_run len]. rewrite (chunks_clear sh bits _ i) by done. cbn [app].
      by apply Permutation_sym, Permutation_middle.
Qed.

Lemma free_spec s L p n : Inv s L -> tidy false L -> (p, n) ∈ blocks (start s) L ->
  exists s' L', al_free p s = (ok tt, s') /\ Inv s' L' /\ kept s s' /\ returned s L p n L'.
Proof.
  intros HI HT (L1&r&L2&->&Hin)%blocks_in. destruct r as [k|k|sh bits]; cbn [of_run] in Hin.
  - by apply elem_of_nil in Hin.
  - apply list_elem_of_singleton in Hin as [= -> ->]. by apply free_run_spec.
  - apply chunks_in in Hin as (->&i&Hi&Hb&->). by apply free_chunk_spec.
Qed.

End SlabSpec.
