(* ===== verification/SlabPool.v ===== *)
(** * Pools: the contract of [al_malloc] and [al_free]

    A pool as its clients see it: the blocks they hold, with the sizes they asked
    for. Each call refines a step on that set, from [al_slab_init] on. *)

From Stdlib Require Import ZArith Lia Bool.
From stdpp Require Import base tactics option gmap list relations.
From S2P Require Import Prelude Slab SlabRing SlabInv SlabHole SlabPages SlabChunks SlabSpec.

Open Scope Z_scope.

Module SlabPool.
Import Slab SlabRing SlabInv SlabHole SlabPages SlabChunks SlabSpec.

(** ** Initialisation *)
Section init.
Context (pages : nat) (lst : nat) (Hp : (1 <= lst <= pages)%nat).

Definition init_cells : gmap ptr cell :=
  list_to_map ((Free, mk_cell 0 (Page 0) Null 0) :: (Page 0, mk_cell (Z.of_nat lst) Free Free 0) ::
    map (fun i => (Slot i, mk_cell 0 (Slot i) Null 0)) (seq 0 6) ++ map (fun i => (Page i, mk_cell 0 Null Null 0)) (seq 1 (pages - 1))).

Lemma init_nodup : NoDup (fst <$> map (fun i => (Slot i, mk_cell 0 (Slot i) Null 0)) (seq 0 6) ++
    map (fun i => (Page i, mk_cell 0 Null Null 0)) (seq 1 (pages - 1))).
Proof.
  rewrite fmap_app, <-!list_fmap_compose. apply NoDup_app. split_and!.
  - apply NoDup_fmap; [intros ?? [=]; done|apply NoDup_seq].
  - intros p (i&->&_)%list_elem_of_fmap (j&E&_)%list_elem_of_fmap. done.
  - apply NoDup_fmap; [intros ?? [=]; done|apply NoDup_seq].
Qed.

Lemma init_slot i : (i < 6)%nat -> init_cells !! Slot i = Some (mk_cell 0 (Slot i) Null 0).
Proof.
  intros Hi. unfold init_cells. rewrite !list_to_map_cons, !lookup_insert_ne by done. apply elem_of_list_to_map_1; [apply init_nodup|].
  apply elem_of_app. left. apply list_elem_of_fmap. exists i. split; [done|]. apply elem_of_seq. lia.
Qed.

Lemma init_page j : (0 < j < lst)%nat -> init_cells !! Page j = Some (mk_cell 0 Null Null 0).
Proof using Hp.
  intros Hj. unfold init_cells. rewrite !list_to_map_cons, !lookup_insert_ne by (done || (intros [=]; lia)).
  apply elem_of_list_to_map_1; [apply init_nodup|]. apply elem_of_app. right. apply list_elem_of_fmap. exists j. split; [done|]. apply elem_of_seq. lia.
Qed.

Lemma init_around : around lst init_cells [] 0 [RFree lst].
Proof using Hp.
  assert (HF : init_cells !! Free = Some (mk_cell 0 (Page 0) Null 0)) by (unfold init_cells; by rewrite !list_to_map_cons, lookup_insert_eq).
  assert (H0 : init_cells !! Page 0 = Some (mk_cell (Z.of_nat lst) Free Free 0)).
  { unfold init_cells. by rewrite !list_to_map_cons, lookup_insert_ne, lookup_insert_eq. }
  unfold around, hole, slb, nxt, prv. cbn [total laid len]. cbv beta. split_and!; [lia| |done| |done|].
  - intros j Hj. destruct j as [|j]; [rewrite H0; eauto|]. rewrite init_page by lia. eauto.
  - cbn [run_ok Nat.add]. cbv beta. split_and!; [lia|by rewrite H0| |lia]. intros j Hj. unfold inner. rewrite init_page by lia. cbn. eauto.
  - intros [k|] V; cbn [valid] in V.
    + exists []. split; [done|]. split; [|by apply NoDup_singleton]. cbn [seg anchor]. by rewrite init_slot.
    + exists [Page 0]. split; [done|]. cbn [anchor rtag]. split; [|apply NoDup_cons; split; [set_solver|by apply NoDup_singleton]].
      cbn [seg]. by rewrite HF, H0.
Qed.
End init.

Lemma init_spec sizeof_pool base len s : 0 < base -> 0 <= sizeof_pool -> base + len < 2 ^ 64 ->
  al_slab_init sizeof_pool base len = ok s -> 0 < pfree s ->
  Inv s [RFree (last s)] /\ base + sizeof_pool < start s /\ end_ s = base + len.
Proof.
  intros Hb Hz He E Hf. unfold al_slab_init in E. change al_pagesize_shift with 12 in E. change PAGESIZE with 4096 in E.
  set (pages := (base + len - (base + sizeof_pool) - (12 - 6) * (24 + 32)) / (4096 + 24)) in *.
  set (p := base + sizeof_pool + (12 - 6) * 24 + (12 - 6) * 32) in *. unfold align_ptr in E. change (4096 - 1) with (Z.ones 12) in E.
  rewrite Z.ldiff_ones_r, Z.shiftr_div_pow2, Z.shiftl_mul_pow2 in E by lia. change (Z.ones 12) with (4096 - 1) in E. change (2 ^ 12) with 4096 in E.
  set (start_ := (p + pages * 24 + (4096 - 1)) / 4096 * 4096) in *.
  set (lst := if 0 <? pages - (base + len - start_) / 4096 then pages - (pages - (base + len - start_) / 4096) else pages) in *.
  destruct (Z.leb_spec pages 0) as [Hpg|Hpg]; [done|]. cbn [orb] in E. destruct (Z.ltb_spec lst 0) as [Hl|Hl]; [done|].
  injection E as <-. cbn [pfree last start end_] in *.
  assert (Hlst : lst <= pages /\ lst <= (base + len - start_) / 4096) by (unfold lst; destruct (Z.ltb_spec 0 (pages - (base + len - start_) / 4096)); lia).
  pose proof (Z.mul_div_le (base + len - start_) 4096 ltac:(lia)) as Hd.
  pose proof (Z.div_mod (p + pages * 24 + (4096 - 1)) 4096 ltac:(lia)) as Ha. pose proof (Z.mod_pos_bound (p + pages * 24 + (4096 - 1)) 4096 ltac:(lia)) as Ha'.
  assert (Hst : p + pages * 24 <= start_) by (unfold start_; lia).
  split_and!; [|unfold p in Hst; lia|done]. split; cbn [cells last pfree start end_ min_size min_shift stats].
  - pose proof (init_around (Z.to_nat pages) (Z.to_nat lst) ltac:(lia)) as H. unfold init_cells in H. rewrite Z2Nat.id in H by lia. exact H.
  - split; cbn [min_size min_shift stats start end_ last]; [done|done| |].
    + split; [unfold p in Hst; lia|]. apply Z.mod_mul. lia.
    + rewrite Z2Nat.id by lia. lia.
  - cbn [frees]. lia.
Qed.

(** ** Pools and the blocks their clients hold *)
Definition asked (b c : Z * Z) : Prop := b.1 = c.1 /\ 0 <= b.2 <= c.2.

(** [B]: the address and the size asked for of each block that was handed out and
    not given back. *)
Definition held (s : pool) (B : list (Z * Z)) : Prop :=
  exists L C, Inv s L /\ tidy false L /\ blocks (start s) L ≡ₚ C /\ Forall2 asked B C.

Lemma held_init sizeof_pool base len s : 0 < base -> 0 <= sizeof_pool -> base + len < 2 ^ 64 ->
  al_slab_init sizeof_pool base len = ok s -> 0 < pfree s -> held s [].
Proof.
  intros H1 H2 H3 E H4. destruct (init_spec _ _ _ _ H1 H2 H3 E H4) as (HI&_). exists [RFree (last s)], [].
  split_and!; [done| |done|done]. by split.
Qed.

Lemma apart_asked b c b' c' : asked b c -> asked b' c' -> apart c c' -> apart b b'.
Proof. unfold asked, apart. intros. lia. Qed.

Lemma held_apart s B : held s B -> all_apart B /\ Forall (fun b => start s <= b.1 /\ b.1 + b.2 <= end_ s) B.
Proof.
  intros (L&C&HI&_&E&HB). destruct HI as [(T&_&_&HL&_) [_ _ _ F] _]. cbn [total] in *.
  assert (HA : all_apart C) by (rewrite <-E; by eapply blocks_apart).
  assert (HC : forall c, c ∈ C -> start s <= c.1 /\ c.1 + c.2 <= end_ s).
  { intros c Hc. rewrite <-E in Hc. eapply blocks_bounds in Hc; [|done]. lia. }
  clear E. induction HB as [|b c B C Hbc HB IH]; [done|]. cbn [all_apart] in *. destruct HA as [HA1 HA2].
  destruct IH as [IH1 IH2]; [done|intros c' Hc'; apply HC; by right|]. split_and!; [|done|].
  - apply Forall_forall. intros b' Hb'. apply list_elem_of_lookup in Hb' as [i Hi]. destruct (Forall2_lookup_l _ _ _ _ _ HB Hi) as (c'&Hc'&Ha).
    eapply apart_asked; [done..|]. rewrite Forall_forall in HA1. apply HA1. by eapply list_elem_of_lookup_2.
  - apply Forall_cons. split; [|done]. specialize (HC c ltac:(left)). unfold asked in Hbc. lia.
Qed.

Lemma held_malloc s B size : held s B -> 0 <= size ->
  exists p s', al_malloc size s = (ok p, s') /\ kept s s' /\
    ((p = 0 /\ held s' B /\ (size <= 2048 -> pfree s = 0)) \/ (0 < p /\ held s' ((p, size) :: B))).
Proof.
  intros (L&C&HI&HT&E&HB) Hs. destruct (malloc_spec s L size HI HT Hs) as (p&s'&Em&K&[(->&I'&Hn)|(L'&I'&T'&n&Hn&EB)]); eexists _, s'; (split_and!; [done..|]).
  - left. split_and!; [done| |].
    + exists L, C. rewrite (kept_start _ _ K). done.
    + intros H. rewrite (inv_pfree _ _ HI). assert (Hz : frees L = 0%nat); [|lia]. unfold no_room in Hn. rewrite (proj2 (Z.ltb_ge _ _)) in Hn by lia.
      clear -Hn. induction L as [|[m|m|sh bits] L IH]; cbn [frees]; [done| | |]; [destruct (Hn m ltac:(left))|apply IH..]; intros k Hk; apply (Hn k); by right.
  - right. split.
    + pose proof (inv_around _ _ I') as (_&_&_&HL&_). assert (Hin : (p, n) ∈ blocks (start s) L') by (rewrite EB; left).
      eapply blocks_bounds in Hin; [|done]. cbn [fst snd] in Hin. pose proof (proj1 (fixed_start _ (inv_fixed _ _ HI))). lia.
    + exists L', ((p, n) :: C). rewrite (kept_start _ _ K). split_and!; [done..|by rewrite EB, E|]. by constructor.
Qed.

Lemma held_free s B p n : held s B -> (p, n) ∈ B ->
  exists s' B', al_free p s = (ok tt, s') /\ kept s s' /\ B ≡ₚ (p, n) :: B' /\ held s' B'.
Proof.
  intros (L&C&HI&HT&E&HB) Hin. apply list_elem_of_split in Hin as (B1&B2&->). apply Forall2_app_inv_l in HB as (C1&C2'&HB1&HB2&->).
  apply Forall2_cons_inv_l in HB2 as (c&C2&Hc&HB2&->). destruct c as [p' n']. destruct Hc as [Hp Hn]. cbn [fst snd] in Hp, Hn. subst p'.
  assert (Hin : (p, n') ∈ blocks (start s) L) by (rewrite E; apply elem_of_app; right; left).
  destruct (free_spec s L p n' HI HT Hin) as (s'&L'&Ef&I'&K&T'&EB). exists s', (B1 ++ B2). split_and!; [done|done|by rewrite Permutation_middle|].
  exists L', (C1 ++ C2). rewrite (kept_start _ _ K). split_and!; [done..| |by apply Forall2_app].
  rewrite EB, <-Permutation_middle in E. by apply Permutation_cons_inv in E.
Qed.

Lemma forall2_perm {A B} (R : A -> B -> Prop) l l' k : l ≡ₚ l' -> Forall2 R l k -> exists k', k ≡ₚ k' /\ Forall2 R l' k'.
Proof.
  intros E. revert k. induction E as [|x l l' E IH|x y l|l1 l2 l3 _ IH1 _ IH2]; intros k H.
  - eauto.
  - apply Forall2_cons_inv_l in H as (z&k0&Hz&H&->). destruct (IH k0 H) as (k'&E'&H'). exists (z :: k'). split; [by rewrite E'|by constructor].
  - apply Forall2_cons_inv_l in H as (z&k0&Hz&H&->). apply Forall2_cons_inv_l in H as (z'&k1&Hz'&H&->). exists (z' :: z :: k1).
    split; [apply perm_swap|by repeat constructor].
  - destruct (IH1 k H) as (k1&E1&H1). destruct (IH2 k1 H1) as (k2&E2&H2). exists k2. split; [by rewrite E1|done].
Qed.

Lemma held_perm s B B' : held s B -> B ≡ₚ B' -> held s B'.
Proof.
  intros (L&C&HI&HT&E&HB) EB. destruct (forall2_perm _ _ _ _ EB HB) as (C'&EC&HB'). exists L, C'. split_and!; [done|done|by rewrite E|done].
Qed.

(** Nothing held: the pool is one free run. *)
Lemma held_none s : held s [] -> (0 < last s)%nat -> Inv s [RFree (last s)].
Proof.
  intros (L&C&HI&HT&E&HB) Hl. apply Forall2_nil_inv_l in HB as ->. apply Permutation_nil_r in E. pose proof (inv_around _ _ HI) as (T&_&_&HL&_).
  cbn [total] in T. rewrite (blocks_nil (start s) L) in HI; [by rewrite <-T|done|done|by do 5 eexists|lia].
Qed.

(** ** What clients rely on *)

(** C22. A request on a pool whose clients hold the blocks [B] returns without
    touching memory that is not there; it yields null, and then nothing changed
    hands (and for a request of at most half a page no page was free), or a block of
    the pool's memory, long enough, that overlaps none of [B] and is held from then
    on. *)
Theorem malloc_hands_out (s : pool) (B : list (Z * Z)) (size : Z) :
  held s B -> 0 <= size ->
  exists p s', al_malloc size s = (ok p, s') /\ start s' = start s /\ end_ s' = end_ s /\
    ((p = 0 /\ held s' B /\ (size <= 2048 -> pfree s = 0)) \/
     (held s' ((p, size) :: B) /\ 0 < p /\ start s <= p /\ p + size <= end_ s /\ Forall (apart (p, size)) B)).
Proof.
  intros H Hs. destruct (held_malloc s B size H Hs) as (p&s'&E&[K1 K2 K3]&C). exists p, s'. split_and!; [done..|].
  destruct C as [C|[Hp C]]; [by left|right]. destruct (held_apart _ _ C) as [[HA _] HF%Forall_cons]. cbn [fst snd] in HF. rewrite K2, K3 in HF. tauto.
Qed.

(** C23. Giving back a block that is held takes it, and only it, out of the blocks
    held; the other blocks stay held and the call succeeds. *)
Theorem free_takes_back (s : pool) (B : list (Z * Z)) (p n : Z) :
  held s B -> (p, n) ∈ B ->
  exists s' B', al_free p s = (ok tt, s') /\ B ≡ₚ (p, n) :: B' /\ held s' B' /\ start s' = start s /\ end_ s' = end_ s.
Proof.
  intros H Hin. destruct (held_free s B p n H Hin) as (s'&B'&E&[_ K2 K3]&EB&H'). by exists s', B'.
Qed.

(** C24. Once every block is given back all pages are free and in one run: the pool
    meets any request up to its whole size. *)
Theorem empty_pool_serves (s : pool) (size : Z) :
  held s [] -> 0 < size <= 4096 * Z.of_nat (last s) ->
  pfree s = Z.of_nat (last s) /\ exists p s', al_malloc size s = (ok p, s') /\ p <> 0 /\ held s' [(p, size)].
Proof.
  intros H Hs. pose proof (held_none s H ltac:(lia)) as HI. split; [rewrite (inv_pfree _ _ HI); cbn [frees]; lia|].
  destruct (malloc_spec s _ size HI ltac:(done) ltac:(lia)) as (p&s'&E&K&[(->&_&Hn)|(L'&I'&T'&n&Hn&EB)]).
  - exfalso. specialize (Hn (last s) ltac:(left)). destruct (2048 <? size); [lia|done].
  - cbn [blocks of_run len app] in EB. exists p, s'. split_and!; [done| |].
    + intros ->. pose proof (inv_around _ _ I') as (_&_&_&HL&_). assert (Hin : (0, n) ∈ blocks (start s) L') by (rewrite EB; left).
      eapply blocks_bounds in Hin; [|done]. cbn [fst snd] in Hin. pose proof (proj1 (fixed_start _ (inv_fixed _ _ HI))). lia.
    + exists L', [(p, n)]. rewrite (kept_start _ _ K). split_and!; [done..|]. constructor; [|done]. split; [done|]. cbn [snd]. lia.
Qed.

(** *** From initialisation on *)
Inductive step : pool * list (Z * Z) -> pool * list (Z * Z) -> Prop :=
  | step_malloc s B size p s' : 0 <= size -> al_malloc size s = (ok p, s') -> step (s, B) (s', if p =? 0 then B else (p, size) :: B)
  | step_calloc s B size p z s' : 0 <= size -> al_calloc size s = (ok (p, z), s') -> step (s, B) (s', if p =? 0 then B else (p, size) :: B)
  | step_free s B p n B' s' : B ≡ₚ (p, n) :: B' -> al_free p s = (ok tt, s') -> step (s, B) (s', B').

(** [al_calloc] is [al_malloc] with the bytes asked for set to zero. *)
Lemma calloc_malloc size s p z s' : al_calloc size s = (ok (p, z), s') -> al_malloc size s = (ok p, s') /\ z = (if p =? 0 then None else Some (p, size)).
Proof.
  unfold al_calloc, al_slab_calloc_locked, al_malloc, st_bind. destruct (al_slab_alloc_locked size s) as [[e|q] s1]; [done|]. by intros [= <- <- <-].
Qed.

Lemma pool_step_held x y : step x y -> held x.1 x.2 -> held y.1 y.2 /\ start y.1 = start x.1 /\ end_ y.1 = end_ x.1.
Proof.
  assert (HM : forall s B size p s', 0 <= size -> al_malloc size s = (ok p, s') -> held s B ->
     held s' (if p =? 0 then B else (p, size) :: B) /\ start s' = start s /\ end_ s' = end_ s).
  { intros s B size p s' Hs E H. destruct (held_malloc s B size H Hs) as (p'&s1&E'&[_ K2 K3]&C). rewrite E' in E. injection E as -> ->. split; [|done].
    destruct C as [(->&C&_)|[Hp C]]; [done|]. by rewrite (proj2 (Z.eqb_neq _ _)) by lia. }
  destruct 1 as [s B size p s' Hs E|s B size p z s' Hs E|s B p n B' s' EB E]; cbn [fst snd]; intros H.
  - by apply (HM s B size p s').
  - apply calloc_malloc in E as [E _]. by apply (HM s B size p s').
  - destruct (held_free s ((p, n) :: B') p n) as (s1&B1&E1&[_ K2 K3]&EB1&H1); [by eapply held_perm|left|].
    rewrite E1 in E. injection E as <-. split; [|done]. apply Permutation_cons_inv in EB1. by eapply held_perm.
Qed.

(** C21. However a pool is used from [al_slab_init] on, as long as clients give back
    only blocks they hold: the blocks held lie in the memory of the pool behind its
    header, no two of them overlap, every request and every give-back of a held block
    returns, and when none is held all pages are free. *)
Theorem reachable_pool (sizeof_pool base len : Z) (s0 s : pool) (B : list (Z * Z)) :
  0 < base -> 0 <= sizeof_pool -> base + len < 2 ^ 64 ->
  al_slab_init sizeof_pool base len = ok s0 -> 0 < pfree s0 -> rtc step (s0, []) (s, B) ->
  all_apart B /\ Forall (fun b => base + sizeof_pool < b.1 /\ b.1 + b.2 <= base + len) B /\
  (forall size, 0 <= size -> exists p s', al_malloc size s = (ok p, s')) /\
  (forall p n, (p, n) ∈ B -> exists s', al_free p s = (ok tt, s')) /\
  (B = [] -> pfree s = Z.of_nat (last s)).
Proof.
  intros Hb Hz He E Hf R. assert (HH : held s B /\ start s = start s0 /\ end_ s = end_ s0).
  { change s with (s, B).1. change B with (s, B).2 at 2. pose proof (held_init _ _ _ _ Hb Hz He E Hf) as H0. change s0 with (s0, @nil (Z * Z)).1 in H0 |- *.
    change (@nil (Z * Z)) with (s0, @nil (Z * Z)).2 in H0 at 2. clear -R H0. induction R as [x|x y z Hxy R IH]; [done|].
    destruct (pool_step_held x y Hxy H0) as (H1&K1&K2). destruct (IH H1) as (H2&K3&K4). split_and!; [done|congruence..]. }
  destruct HH as (H&K1&K2). destruct (held_apart s B H) as [HA HF]. destruct (init_spec _ _ _ _ Hb Hz He E Hf) as (_&I1&I2).
  split_and!; [done| | | |].
  - eapply Forall_impl; [exact HF|]. cbn. intros b. lia.
  - intros size Hs. destruct (held_malloc s B size H Hs) as (p&s'&Em&_). eauto.
  - intros p n Hin. destruct (held_free s B p n H Hin) as (s'&B'&Ef&_). eauto.
  - intros ->. destruct (decide (last s = 0%nat)) as [E0|]; [|by rewrite (inv_pfree _ _ (held_none s H ltac:(lia))); cbn [frees]; lia].
    destruct H as (L&C&HI&_). pose proof (inv_around _ _ HI) as (T&_). cbn [total] in T. rewrite (inv_pfree _ _ HI). pose proof (frees_total L). lia.
Qed.

(** *** A small pool *)
Definition demo : pool :=
  match al_slab_init 200 4096 20000 with inr s => s | inl _ => mk_pool 0 0 ∅ 0 [] 0 0 0 ∅ end.
Definition demo_taken : pool := (al_malloc 100 demo).2.

Lemma demo_init : al_slab_init 200 4096 20000 = ok demo /\ pfree demo = 3.
Proof. split; vm_compute; reflexivity. Qed.
Lemma demo_held : held demo [].
Proof. destruct demo_init as [E P]. apply (held_init 200 4096 20000); [done|done|done|done|]. by rewrite P. Qed.
Lemma demo_step : step (demo, []) (demo_taken, [(8192, 100)]).
Proof. apply (step_malloc demo [] 100 8192 demo_taken); [done|]. vm_compute. reflexivity. Qed.
Lemma demo_taken_held : held demo_taken [(8192, 100)].
Proof. apply (pool_step_held _ _ demo_step demo_held). Qed.

Lemma malloc_hands_out_witness :
  held demo_taken [(8192, 100)] /\
  exists p s', al_malloc 5000 demo_taken = (ok p, s') /\ start s' = start demo_taken /\ end_ s' = end_ demo_taken /\
    ((p = 0 /\ held s' [(8192, 100)] /\ (5000 <= 2048 -> pfree demo_taken = 0)) \/
     (held s' [(p, 5000); (8192, 100)] /\ 0 < p /\ start demo_taken <= p /\ p + 5000 <= end_ demo_taken /\ Forall (apart (p, 5000)) [(8192, 100)])).
Proof. split; [apply demo_taken_held|]. apply (malloc_hands_out demo_taken [(8192, 100)] 5000 demo_taken_held). lia. Defined.

Lemma free_takes_back_witness :
  exists s' B', al_free 8192 demo_taken = (ok tt, s') /\ [(8192, 100)] ≡ₚ (8192, 100) :: B' /\ held s' B' /\
    start s' = start demo_taken /\ end_ s' = end_ demo_taken.
Proof. apply (free_takes_back demo_taken [(8192, 100)] 8192 100 demo_taken_held). left. Defined.

Lemma empty_pool_serves_witness :
  pfree demo = Z.of_nat (last demo) /\ exists p s', al_malloc 12288 demo = (ok p, s') /\ p <> 0 /\ held s' [(p, 12288)].
Proof. apply (empty_pool_serves demo 12288 demo_held). vm_compute. split; [reflexivity|discriminate]. Defined.

Lemma reachable_pool_witness :
  rtc step (demo, []) (demo_taken, [(8192, 100)]) /\
  all_apart [(8192, 100)] /\ Forall (fun b => 4096 + 200 < b.1 /\ b.1 + b.2 <= 4096 + 20000) [(8192, 100)] /\
  (forall size, 0 <= size -> exists p s', al_malloc size demo_taken = (ok p, s')) /\
  (forall p n, (p, n) ∈ [(8192, 100)] -> exists s', al_free p demo_taken = (ok tt, s')) /\
  ([(8192, 100)] = [] -> pfree demo_taken = Z.of_nat (last demo_taken)).
Proof.
  split; [exact (rtc_once _ _ demo_step)|].
  apply (reachable_pool 200 4096 20000 demo demo_taken [(8192, 100)]); [lia|lia|reflexivity|apply demo_init| |exact (rtc_once _ _ demo_step)].
  vm_compute. reflexivity.
Defined.

(** *** Misuse *)

(** A pointer to the end of the pool is looked up in the page table, which has no
    cell for it. *)
Lemma free_of_end : exists s, al_slab_init 200 4096 (5 * 4096 - 4096) = ok s /\ (al_free (end_ s) s).1 = err Undef.
Proof. eexists. split; [reflexivity|]. vm_compute. reflexivity. Qed.

(** A second give-back of the same chunk is dropped without a word. *)
Lemma double_free_ignored : exists s, (do p <- al_malloc 100 ;; do _ <- al_malloc 100 ;; do _ <- al_free p ;; al_free p) demo = (ok tt, s) /\
  (do p <- al_malloc 100 ;; do _ <- al_malloc 100 ;; al_free p) demo = (ok tt, s).
Proof. eexists. split; vm_compute; reflexivity. Qed.
End SlabPool.
