(* ===== verification/Loader.v ===== *)
(** * Loading the configuration

    Models the loaders of [alpha_api/conf] that the build compiles, with the
    conversions of [al_comm.h] and [al_ip_convert.h], the queries of
    [rest/al_element.h] and the statements [db/al_db.cpp] builds. What SQLite
    answers to a query, [inet_pton] and the calls that change a network device
    are arguments. The loaders answer the queries of the group table, so the
    members the data plane schedules are those the database lists. *)

From Stdlib Require Import ZArith Lia Bool Ascii String.
From stdpp Require Import base tactics option gmap list.
From S2P Require Import Prelude StdMap Regex Uri Checksum RbTree Table Cluster Member Group Prefix Filter.

Open Scope Z_scope.

(** ** [al_comm.h] *)
Module Convert.

(** [nts] of an integer. *)
Definition nts (n : Z) : str := Uri.to_dec n.

(** [stn] of an unsigned type of [w] bits, by [operator>>]: text that is no number
    or too large gives zero, a minus sign is taken modulo the type. *)
Definition stn (w : Z) (t : str) : Z :=
  let '(sg, s) := Uri.sign_of (Uri.skip_space t) in
  match s with
  | c :: _ =>
      if Regex.is_digit c then
        let v := Uri.dec_value 0 s in
        if 2 ^ w - 1 <? v then 0 else wrap w (sg * v)
      else 0
  | [] => 0
  end.

(** [stn<int16_t>] *)
Definition stn_s16 (t : str) : Z :=
  let '(sg, s) := Uri.sign_of (Uri.skip_space t) in
  match s with
  | c :: _ =>
      if Regex.is_digit c then
        let v := sg * Uri.dec_value 0 s in
        if (v <? - 2 ^ 15) || (2 ^ 15 - 1 <? v) then 0 else v
      else 0
  | [] => 0
  end.

(** [stn<uint8_t>] goes through [atoi], which has no defined result outside [int]. *)
Definition stn8 (t : str) : res Z :=
  let '(sg, s) := Uri.sign_of (Uri.skip_space t) in
  let v := sg * Uri.dec_value 0 s in
  if (v <? - 2 ^ 31) || (2 ^ 31 - 1 <? v) then err Undef else ok (Z.land v 255).

Abbreviation dict := (smap str).

(** [m[ k ]] of a map of texts that is only read. *)
Definition at_ (m : dict) (k : str) : str := default [] (m_find k m).

(** [ip::al_ipu<family>().to( s )], read in the expression that calls it: the
    first four bytes of what [inet_pton] stores, a null pointer dereferenced when
    it does not succeed. *)
Definition first4 (inet_pton : bool -> str -> option (list Z)) (v6 : bool) (s : str) : res (list Z) :=
  match inet_pton v6 s with Some b => ok (take 4 b) | None => err Undef end.
End Convert.

(** ** [db/al_db.cpp]: the statements *)
Module Db.
Import Convert.

Definition quoted (s : str) : str := <<"=">> ++ [chr 34] ++ s ++ [chr 34] ++ <<" and ">>.
Definition conditions (m : dict) : str := concat (map (fun kv => kv.1 ++ quoted kv.2) m).

(** The last position at which [s] holds [t]. *)
Fixpoint rfind (t s : str) : option nat :=
  match s with
  | [] => if bool_decide (t = []) then Some 0%nat else None
  | c :: s' =>
      match rfind t s' with
      | Some i => Some (S i)
      | None => if bool_decide (take (length t) s = t) then Some 0%nat else None
      end
  end.

(** [sql.substr( 0, sql.rfind( t ) )]: all of it when there is none. *)
Definition cut (t s : str) : str := match rfind t s with Some i => take i s | None => s end.

Definition insert_sql (m : dict) : str :=
  let sql_key := <<"insert into aware( ">> ++ concat (map (fun kv => kv.1 ++ <<",">>) m) in
  let sql_val := <<" values(">> ++ concat (map (fun kv => [chr 34] ++ kv.2 ++ [chr 34] ++ <<",">>) m) in
  cut <<",">> sql_key ++ <<")">> ++ cut <<",">> sql_val ++ <<")">>.

Definition update_sql (m : dict) : str :=
  let sql := <<"update aware set ">> ++ <<" value = ">> ++ [chr 34] ++ at_ m <<"value">> ++ [chr 34] ++ <<" where ">> in
  cut <<"and">> (sql ++ conditions (List.filter (fun kv => negb (bool_decide (kv.1 = <<"value">>))) m)).

Definition del_sql (m : dict) : str := cut <<"and">> (<<"delete from aware where ">> ++ conditions m).

Definition select_sql (field : list str) (m : dict) : str :=
  let sql := match field with
             | [] => <<"select * ">>
             | _ => cut <<",">> (<<"select ">> ++ concat (map (fun f => f ++ <<", ">>) field))
             end in
  sql ++ <<" from aware where ">> ++ conditions m ++ <<"is_live=1">>.

(** [al_db::rollback], which the destructor runs, after [begin( id )] and no
    [commit]; [%d] prints the low half of the identifier. *)
Definition rollback_sql (trans_id : Z) : option str :=
  if trans_id =? -1 then None
  else Some (<<"delete from aware where key2='">> ++ nts (signed 32 (wrap 32 trans_id)) ++ <<"'">>).
End Db.

(** ** The loaders *)
Module Loader.
Import Convert Cluster Member.

Section loaders.
(** What SQLite gives for a query: its rows, whose fields can be null; none when it
    reports an error. *)
Context (select : str -> option (list (list (option str)))).
Context (inet_pton : bool -> str -> option (list Z)).

(** The callbacks of the queries make text of their arguments. *)
Definition argv (row : list (option str)) (i : nat) : res str :=
  match row !! i with Some (Some s) => ok s | _ => err Undef end.

(** [out[ argv[0] ][ argv[1] ] = argv[2]] *)
Fixpoint rows3 (rows : list (list (option str))) (out : list (str * dict)) : res (list (str * dict)) :=
  match rows with
  | [] => ok out
  | row :: rows =>
      let* a := argv row 0 in let* b := argv row 1 in let* c := argv row 2 in
      rows3 rows (sm_assign a (sm_assign b c (default [] (m_find a out))) out)
  end.

(** [out[ argv[0] ] = argv[1]] *)
Fixpoint rows2 (rows : list (list (option str))) (out : dict) : res dict :=
  match rows with
  | [] => ok out
  | row :: rows => let* a := argv row 0 in let* b := argv row 1 in rows2 rows (sm_assign a b out)
  end.

(** [all_nics], [all_ips] and [all_hwaddr]; [None] for -1. *)
Definition query3 (sql : str) : res (option (list (str * dict))) :=
  match select sql with None => ok None | Some rows => let* out := rows3 rows [] in ok (Some out) end.
Definition query2 (sql : str) : res (option dict) :=
  match select sql with None => ok None | Some rows => let* out := rows2 rows [] in ok (Some out) end.

Definition all_nics : res (option (list (str * dict))) := query3 <<"SELECT key2, key3, value FROM aware where key1 = 'physical_port'">>.
Definition all_ips : res (option (list (str * dict))) := query3 <<"SELECT key2, key3, value FROM aware where key1 = 'ipaddress' and is_live=1">>.
Definition all_hwaddr : res (option dict) := query2 <<"SELECT ifname, hwaddr FROM hwaddr">>.

(** *** Groups *)
Definition group_sql (gid : Z) : str :=
  <<"SELECT key3, value FROM aware where key1='group' and is_live = 1 and key2='">> ++ nts gid ++ <<"'">>.
Definition member_sql : str := <<"SELECT key2, key3, value FROM aware where key1='member' and is_live = 1">>.

(** [al_api_group_exist]: 0 and the algorithm, or -1. *)
Definition al_api_group_exist (gid : Z) : res (option Z) :=
  let* out := query2 (group_sql gid) in
  match out with
  | None => ok None
  | Some out => let* s := stn8 (at_ out <<"algorithm">>) in ok (Some s)
  end.

(** [al_group_info], up to the call of [f]: the query's failure, no algorithm, or
    the algorithm. *)
Definition al_group_info (gid : Z) : res (option (option Z)) :=
  let* out := query2 (group_sql gid) in
  match out with
  | None => ok None
  | Some out =>
      match m_find <<"algorithm">> out with
      | None => ok (Some None)
      | Some a => let* s := stn8 a in ok (Some (Some s))
      end
  end.

(** [f.addr], the union of addresses: length, family and sixteen bytes. *)
Definition store (a : list Z) (at__ : nat) (bs : list Z) : list Z := take at__ a ++ bs ++ drop (at__ + length bs) a.

(** One member, over the structure as the last one left it. The address of a member
    with IPv6 is read as 32 bits. *)
Definition conf_of (f : al_member_conf) (i : str) (v : dict) : res al_member_conf :=
  let w := match m_find <<"weight">> v with Some t => stn 16 t | None => 0 end in
  let v4 := bool_decide (at_ v <<"iptype">> = <<"ipv4">>) in
  let a := store (conf_addr f) 1 [if v4 then AF_INET else Prefix.AF_INET6] in
  let* b := first4 inet_pton (negb v4) (at_ v <<"address">>) in
  let a := if v4 then store (store a 2 b) 0 [6] else store (store a 2 (b ++ repeat 0 12)) 0 [18] in
  ok (mk_conf w (stn 16 (at_ v <<"port">>)) (stn 32 i) a).

(** The loop of [al_group_load_member]. *)
Fixpoint load_rows (gidstr : str) (garbage : option (list al_member)) (f : al_member_conf) (out : list (str * dict)) (mc : chain) : res (Z * chain) :=
  match out with
  | [] => ok (0, mc)
  | (i, v) :: out =>
      if bool_decide (at_ v <<"group">> = gidstr) then
        let* f := conf_of f i v in
        let '(rc, mc) := al_member_insert garbage mc f in
        if rc =? 0 then load_rows gidstr garbage f out mc else ok (-1, mc)
      else load_rows gidstr garbage f out mc
  end.

(** [f] is what the stack held. *)
Definition al_group_load_member (garbage : option (list al_member)) (f : al_member_conf) (gid : Z) (mc : chain) : res (Z * chain) :=
  let* out := query3 member_sql in
  match out with
  | None => ok (-1, mc)
  | Some out => load_rows (nts gid) garbage f out mc
  end.

(** *** Filters *)
Section filters.
Import Filter.
Context (insert : al_api_filter -> st filters Z).

Definition filter_sql : str := <<"SELECT key2, key3, value FROM aware where key1='filter' and is_live = 1">>.

(** An address and a mask, read as 32 bits for IPv6 too. *)
Definition address_of (v6 : bool) (t : str) : res (list Z) :=
  let* b := first4 inet_pton v6 t in ok (if v6 then b ++ repeat 0 12 else b).

(** One filter over the structure as the last one left it: the second comparison
    with tcp leaves the protocol of a udp filter as it was. *)
Definition filter_of (f : al_api_filter) (k : str) (d : dict) : res al_api_filter :=
  let v6 := negb (bool_decide (at_ d <<"iptype">> = <<"ipv4">>)) in
  let* a := address_of v6 (at_ d <<"address">>) in
  let* m := match m_find <<"address_mask">> d with
            | Some t => address_of v6 t
            | None => ok (repeat 255 (if v6 then 16 else 4)%nat)
            end in
  let proto := if bool_decide (at_ d <<"proto">> = <<"tcp">>) then 6
               else if bool_decide (at_ d <<"proto">> = <<"tcp">>) then 17
               else if bool_decide (at_ d <<"proto">> = <<"all">>) then 0
               else f_proto f in
  ok (mk_api (if v6 then Prefix.AF_INET6 else Prefix.AF_INET) proto a m (stn 32 k) (stn 32 (at_ d <<"group">>))
        (stn 16 (at_ d <<"port">>)) (u8 (al_filter_type (at_ d <<"filter_type">>)))).

Fixpoint filter_rows (f : al_api_filter) (out : list (str * dict)) : st filters Z :=
  match out with
  | [] => st_ret 0
  | (k, d) :: out =>
      do f <- st_lift (filter_of f k d) ;;
      do rc <- insert f ;;
      if rc =? 0 then filter_rows f out else st_ret (-1)
  end.

Definition al_filter_load (f : al_api_filter) : st filters Z :=
  do out <- st_lift (query3 filter_sql) ;;
  match out with None => st_ret (-1) | Some out => filter_rows f out end.
End filters.

(** *** Addresses and devices *)

(** [al_ip_load]: the addresses are read through pointers into temporaries that are
    gone, and for other families through pointers that were never set. *)
Definition ip_rows (g : list (str * dict)) : res Z :=
  match g with
  | [] => ok 0
  | (_, j) :: _ =>
      let bad v6 := match inet_pton v6 (at_ j <<"address">>) with None => true | Some _ => false end in
      if bool_decide (at_ j <<"iptype">> = <<"ipv4">>) then if bad false then ok (-1) else err Undef
      else if bool_decide (at_ j <<"iptype">> = <<"ipv6">>) then if bad true then ok (-1) else err Undef
      else err Undef
  end.

Definition al_ip_load : res Z :=
  let* g := all_ips in
  match g with
  | None => ok (-1)
  | Some g => let* _ := all_nics in ip_rows g
  end.

(** [al_mac_load]: the device calls, in order, with their results. *)
Inductive call := Updown (ifname : str) (up : bool) | Set_mac (ifname hwaddr : str).

Section devices.
Context (fails : call -> bool).

Definition one_mac (ifname hwaddr : str) : bool * list call :=
  if fails (Updown ifname false) then (false, [Updown ifname false])
  else if fails (Set_mac ifname hwaddr) then (false, [Updown ifname false; Set_mac ifname hwaddr])
  else (negb (fails (Updown ifname true)), [Updown ifname false; Set_mac ifname hwaddr; Updown ifname true]).

Definition al_mac_load : res (Z * list call) :=
  let* hws := all_hwaddr in
  match hws with
  | None => ok (-1, [])
  | Some hws =>
      let rs := map (fun kv => one_mac kv.1 kv.2) hws in
      ok (if forallb fst rs then 0 else -1, concat (map snd rs))
  end.
End devices.

(** [%0nd] *)
Definition padded (n : nat) (z : Z) : str :=
  let d := nts (Z.abs z) in
  if z <? 0 then <<"-">> ++ repeat (chr 48) (n - 1 - length d) ++ d else repeat (chr 48) (n - length d) ++ d.

Definition al_get_port_id (domain bus devid function_ : Z) : res Z :=
  let sql := <<"select key2 from aware where key1='physical_port' and key3='devid' and is_live = 1 and value=">>
             ++ <<"'">> ++ padded 4 domain ++ <<":">> ++ padded 2 bus ++ <<":">> ++ padded 2 devid ++ <<".">> ++ nts function_ ++ <<"'">> in
  match select sql with
  | None => ok (-1)
  | Some rows =>
      match List.rev rows with
      | [] => ok (-1)
      | row :: _ => if existsb (fun row => match argv row 0 with inl _ => true | inr _ => false end) rows then err Undef
                    else let* v := argv row 0 in ok (stn_s16 v)
      end
  end.

(** [al_get_nic_id], for the name [if_indextoname] gives. *)
Definition al_get_nic_id (name : option str) : res (option Z) :=
  match name with
  | None => ok None
  | Some name =>
      let* g := all_nics in
      match g with
      | None => ok None
      | Some g => ok ((fun kv => stn 32 kv.1) <$> List.find (fun kv => bool_decide (at_ kv.2 <<"name">> = name)) g)
      end
  end.
End loaders.
End Loader.

(** ** Facts *)
Module LoaderFacts.
Import Convert Loader Cluster Member.

(** *** Numbers *)
Lemma digit_code n : 0 <= n < 10 -> Regex.is_digit (chr (48 + n)) = true /\ Uri.digit_val (chr (48 + n)) = n.
Proof.
  intros H. unfold Uri.digit_val, Regex.is_digit, Regex.between. rewrite code_chr by lia. split; [|lia].
  apply andb_true_intro. split; apply Z.leb_le; lia.
Qed.

Lemma dec_value_digits fuel : forall n acc, 0 <= n < 10 ^ Z.of_nat fuel ->
  Uri.dec_value 0 (Uri.dec_digits fuel n acc) = Uri.dec_value n acc.
Proof.
  induction fuel as [|fuel IH]; intros n acc H; [simpl in H; replace n with 0 by lia; done|]. cbn [Uri.dec_digits].
  pose proof (Z.mod_pos_bound n 10 ltac:(lia)) as Hm. pose proof (Z.div_mod n 10 ltac:(lia)) as Hd.
  destruct (digit_code (n mod 10) Hm) as [D1 D2]. destruct (Z.ltb_spec n 10) as [Hn|Hn].
  - cbn [Uri.dec_value]. rewrite D1, D2, Z.mod_small by lia. f_equal; lia.
  - rewrite IH.
    + cbn [Uri.dec_value]. rewrite D1, D2. f_equal. lia.
    + replace (Z.of_nat (S fuel)) with (Z.succ (Z.of_nat fuel)) in H by lia. rewrite Z.pow_succ_r in H by lia.
      split; [apply Z.div_pos; lia|apply Z.div_lt_upper_bound; lia].
Qed.

Lemma dec_digits_head fuel : forall n acc, exists d s, Uri.dec_digits (S fuel) n acc = chr (48 + d) :: s /\ 0 <= d < 10.
Proof.
  induction fuel as [|fuel IH]; intros n acc; cbn [Uri.dec_digits]; pose proof (Z.mod_pos_bound n 10 ltac:(lia)) as Hm.
  - exists (n mod 10). eexists. split; [by case_match|done].
  - case_match; [by eexists _, _|]. destruct (IH (n / 10) (chr (48 + n mod 10) :: acc)) as (d&s&E&Hd). cbn [Uri.dec_digits] in E. eauto.
Qed.

Lemma digit_plain d : 0 <= d < 10 -> Regex.is_space (chr (48 + d)) = false /\ ascii_eqb (chr (48 + d)) "-"%char = false /\ ascii_eqb (chr (48 + d)) "+"%char = false.
Proof.
  intros H. assert (forallb (fun k => negb (Regex.is_space (chr (48 + Z.of_nat k))) && negb (ascii_eqb (chr (48 + Z.of_nat k)) "-"%char)
    && negb (ascii_eqb (chr (48 + Z.of_nat k)) "+"%char)) (seq 0 10) = true) as E by (vm_compute; reflexivity).
  rewrite forallb_forall in E. specialize (E (Z.to_nat d)). rewrite Z2Nat.id in E by lia.
  assert (Hin : In (Z.to_nat d) (seq 0 10)) by (apply in_seq; lia). specialize (E Hin). rewrite !andb_true_iff, !negb_true_iff in E. tauto.
Qed.

(** Reading back a number that was written as text gives the number, for every
    value of the type: identifiers survive the way through the database. *)
Theorem stn_nts (w n : Z) : 0 <= w <= 64 -> 0 <= n < 2 ^ w -> stn w (nts n) = n.
Proof.
  intros Hw Hn. assert (Hb : n < 10 ^ 20) by (assert (2 ^ w <= 2 ^ 64) by (apply Z.pow_le_mono_r; lia); lia).
  unfold stn, nts, Uri.to_dec. rewrite (proj2 (Z.ltb_ge n 0)) by lia.
  pose proof (dec_value_digits 20 n [] ltac:(simpl; lia)) as E. destruct (dec_digits_head 19 n []) as (d&s&Ed&Hd). rewrite Ed in *.
  destruct (digit_plain d Hd) as (P1&P2&P3). cbn [Uri.skip_space]. rewrite P1. cbn [Uri.sign_of]. rewrite P2, P3.
  rewrite (proj1 (digit_code d Hd)), E. cbn [Uri.dec_value]. rewrite (proj2 (Z.ltb_ge _ _)) by lia. rewrite Z.mul_1_l. by apply wrap_small.
Qed.

(** *** Maps *)
Lemma find_assign {A} (m : smap A) k v k' : m_find k' (sm_assign k v m) = if bool_decide (k = k') then Some v else m_find k' m.
Proof. case_bool_decide as E; [subst; apply m_find_assign_eq|]. apply m_find_assign_ne. congruence. Qed.

(** The last row of a query decides on a pair of keys. *)
Fixpoint last_row (rows : list (list (option str))) (a b : str) : option str :=
  match rows with
  | [] => None
  | row :: rows =>
      match last_row rows a b with
      | Some v => Some v
      | None => match row with [Some x; Some y; Some v] => if bool_decide (x = a /\ y = b) then Some v else None | _ => None end
      end
  end.

Definition full_row (row : list (option str)) : Prop := exists a b c, row = [Some a; Some b; Some c].

Definition entry (out : list (str * dict)) (a b : str) : option str := d ← m_find a out; m_find b d.

Lemma rows3_spec rows : Forall full_row rows -> forall out, exists out', rows3 rows out = ok out' /\
  forall a b, entry out' a b = match last_row rows a b with Some v => Some v | None => entry out a b end.
Proof.
  induction 1 as [|row rows (x&y&v&->) _ IH]; intros out; cbn [rows3 last_row]; [by exists out|].
  destruct (IH (sm_assign x (sm_assign y v (default [] (m_find x out))) out)) as (out'&E&H). exists out'. split; [exact E|]. intros a b. rewrite H.
  destruct (last_row rows a b); [done|]. unfold entry. rewrite find_assign. destruct (bool_decide_reflect (x = a)) as [->|N].
  - cbn. rewrite find_assign. repeat case_bool_decide; try tauto; destruct (m_find a out); done.
  - rewrite bool_decide_false by tauto. done.
Qed.

(** *** Groups *)
Section groups.
Context (select : str -> option (list (list (option str)))) (inet_pton : bool -> str -> option (list Z)) (f0 : al_member_conf).

(** The members of a group, when every address can be read. *)
Fixpoint confs (gidstr : str) (f : al_member_conf) (out : list (str * dict)) : res (list al_member_conf) :=
  match out with
  | [] => ok []
  | (i, v) :: out =>
      if bool_decide (at_ v <<"group">> = gidstr) then
        let* f := conf_of inet_pton f i v in let* cs := confs gidstr f out in ok (f :: cs)
      else confs gidstr f out
  end.

(** The database as the table of groups asks it. *)
Definition members_in (gid : Z) : res (option (list al_member_conf)) :=
  let* out := query3 select member_sql in
  match out with None => ok None | Some out => let* cs := confs (nts gid) f0 out in ok (Some cs) end.

Definition database_of : Group.database :=
  Group.mk_db (fun gid => match al_group_info select gid with inr r => r | inl _ => None end)
              (fun gid => match members_in gid with inr r => r | inl _ => None end).

Lemma load_rows_confs gidstr garbage out : forall f cs mc, confs gidstr f out = ok cs ->
  load_rows inet_pton gidstr garbage f out mc = ok (load_members garbage cs mc).
Proof.
  induction out as [|[i v] out IH]; intros f cs mc; cbn [confs load_rows]; [by intros [= <-]|]. case_bool_decide; [|apply IH].
  destruct (conf_of inet_pton f i v) as [e|f'] eqn:E; cbn [res_bind]; [done|]. destruct (confs gidstr f' out) as [e|cs'] eqn:E'; cbn [res_bind]; [done|].
  intros [= <-]. cbn [load_members]. destruct (al_member_insert garbage mc f') as [rc mc']. destruct (rc =? 0); [by apply IH|done].
Qed.

(** The loader that walks the rows of the database and enters members as it
    goes does what the table of groups expects of [al_group_load_member]: when every
    address can be read, it enters the members of the group, in the order of their
    identifiers, and reports the first failure. *)
Theorem load_member_refines (mem : Group.memory) (gid : Z) (mc : chain) (r : option (list al_member_conf)) :
  members_in gid = ok r ->
  al_group_load_member select inet_pton (Group.mem_cluster mem) f0 gid mc = ok (Group.al_group_load_member mem database_of gid mc).
Proof.
  intros H. unfold al_group_load_member, Group.al_group_load_member. cbn [Group.members_of database_of]. rewrite H. unfold members_in in H.
  destruct (query3 select member_sql) as [e|[out|]]; cbn [res_bind] in *; [done| |].
  - destruct (confs (nts gid) f0 out) as [e|cs] eqn:E; cbn [res_bind] in H; [done|]. injection H as <-. by apply load_rows_confs.
  - by injection H as <-.
Qed.

Lemma conf_of_ok f i v : (exists b, inet_pton (negb (bool_decide (at_ v <<"iptype">> = <<"ipv4">>))) (at_ v <<"address">>) = Some b) ->
  exists c, conf_of inet_pton f i v = ok c /\ conf_mid c = stn 32 i /\ conf_port c = stn 16 (at_ v <<"port">>) /\
    conf_weight c = match m_find <<"weight">> v with Some t => stn 16 t | None => 0 end.
Proof. intros [b E]. unfold conf_of, first4. rewrite E. cbn [res_bind ok]. by eexists. Qed.

(** The members of a group are its rows. *)
Lemma confs_spec gidstr out : 
  (forall i v, (i, v) ∈ out -> at_ v <<"group">> = gidstr ->
     exists b, inet_pton (negb (bool_decide (at_ v <<"iptype">> = <<"ipv4">>))) (at_ v <<"address">>) = Some b) ->
  forall f, exists cs, confs gidstr f out = ok cs /\
    Forall2 (fun iv c => conf_mid c = stn 32 iv.1 /\ conf_port c = stn 16 (at_ iv.2 <<"port">>)) 
      (List.filter (fun iv => bool_decide (at_ iv.2 <<"group">> = gidstr)) out) cs.
Proof.
  intros H. induction out as [|[i v] out IH]; intros f; cbn [confs List.filter snd]; [by exists []|].
  assert (H' : forall i v, (i, v) ∈ out -> at_ v <<"group">> = gidstr ->
     exists b, inet_pton (negb (bool_decide (at_ v <<"iptype">> = <<"ipv4">>))) (at_ v <<"address">>) = Some b) by (intros i' v' Hin; apply (H i' v'); by right).
  case_bool_decide as E; [|by apply IH]. destruct (conf_of_ok f i v (H i v ltac:(left) E)) as (c&Ec&C1&C2&_). rewrite Ec. cbn [res_bind ok].
  destruct (IH H' c) as (cs&Ecs&HF). rewrite Ecs. exists (c :: cs). split; [done|]. by constructor.
Qed.
End groups.
End LoaderFacts.

(** ** From the database to the packet path *)
Section configured.
Import Convert Loader LoaderFacts Cluster ClusterFacts Member MemberFacts Table TableFacts Group GroupSpec GroupFacts.
Context (select : str -> option (list (list (option str)))) (inet_pton : bool -> str -> option (list Z)) (f0 : al_member_conf).

Definition readable (v : dict) : Prop :=
  exists b, inet_pton (negb (bool_decide (at_ v <<"iptype">> = <<"ipv4">>))) (at_ v <<"address">>) = Some b.

End configured.

(** ** Witnesses *)
Module LoaderWitness.
Import Convert Loader LoaderFacts Cluster Member Table Group.

Definition rows_of (sql : str) : option (list (list (option str))) :=
  if bool_decide (sql = group_sql 4) then Some [[Some <<"name">>; Some <<"web">>]; [Some <<"algorithm">>; Some <<"0">>]]
  else if bool_decide (sql = member_sql) then
    Some (map (map Some)
      [[<<"9">>; <<"group">>; <<"4">>]; [<<"9">>; <<"iptype">>; <<"ipv4">>]; [<<"9">>; <<"address">>; <<"10.0.0.9">>]; [<<"9">>; <<"port">>; <<"8080">>];
       [<<"10">>; <<"group">>; <<"4">>]; [<<"10">>; <<"iptype">>; <<"ipv4">>]; [<<"10">>; <<"address">>; <<"10.0.0.10">>]; [<<"10">>; <<"port">>; <<"80">>];
       [<<"11">>; <<"group">>; <<"5">>]; [<<"9">>; <<"port">>; <<"8081">>]])
  else Some [].
Definition pton (v6 : bool) (s : str) : option (list Z) := Some (if v6 then repeat 0 15 ++ [1] else [10; 0; 0; 1]).
Definition blank : al_member_conf := mk_conf 0 0 0 (repeat 0 18).
Definition member_rows : list (str * dict) :=
  match query3 rows_of member_sql with inr (Some out) => out | _ => [] end.

Lemma stn_nts_witness : stn 16 (nts 8080) = 8080.
Proof. apply (stn_nts 16 8080); lia. Defined.

(** Members are taken in the order of their identifiers as text, and the last row
    for a key wins. *)
Lemma member_rows_order : map fst member_rows = [<<"10">>; <<"11">>; <<"9">>] /\ entry member_rows <<"9">> <<"port">> = Some <<"8081">>.
Proof. split; vm_compute; reflexivity. Qed.

Lemma load_member_refines_witness :
  Loader.al_group_load_member rows_of pton (mem_cluster sample_memory) blank 4 sample_chain
  = ok (Group.al_group_load_member sample_memory (database_of rows_of pton blank) 4 sample_chain).
Proof.
  apply (load_member_refines rows_of pton blank sample_memory 4 sample_chain
    (match members_in rows_of pton blank 4 with inr r => r | inl _ => None end)). vm_compute. reflexivity.
Defined.


(** *** Slips *)

(** A udp filter gets the protocol of the filter loaded before it. *)
Lemma udp_filter_keeps_protocol f k d f' : at_ d <<"proto">> = <<"udp">> -> filter_of pton f k d = ok f' -> Filter.f_proto f' = Filter.f_proto f.
Proof.
  intros E H. unfold filter_of in H. rewrite E in H. destruct (address_of pton _ (at_ d <<"address">>)) as [e|a]; [done|]. cbn [res_bind] in H.
  destruct (match m_find <<"address_mask">> d with Some t => _ | None => _ end) as [e|m]; [done|]. cbn [res_bind] in H. by injection H as <-.
Qed.

(** Of an IPv6 address a member keeps the first four bytes. *)
Lemma member_address6_cut : conf_addr <$> (match conf_of pton blank <<"1">> [(<<"iptype">>, <<"ipv6">>)] with inr c => Some c | inl _ => None end)
  = Some ([18; 10] ++ repeat 0 16) /\ pton true [] = Some (repeat 0 15 ++ [1]).
Proof. split; reflexivity. Qed.

(** A statement whose only condition is its value is cut at an "and" inside it. *)
Lemma update_cut_in_value : Db.update_sql [(<<"value">>, <<"bandwidth">>)] = <<"update aware set  value = ">> ++ [chr 34] ++ <<"b">>.
Proof. vm_compute. reflexivity. Qed.
End LoaderWitness.
