(* ===== verification/Rest.v ===== *)
(** * The REST handlers

    Models the handlers of [alpha_api/rest], the answers of [al_make_msg.h], the
    way a request comes to them ([al_api_impl.h]) and the values of [json.h] they
    use. What SQLite does with a statement, parsing and printing of JSON, the
    numbers and texts of error codes (their header is not part of the
    repository), [inet_pton] and [if_nametoindex] are arguments; the tables of
    the data plane are reached through the interface [Plane]. *)

From Stdlib Require Import ZArith Lia Bool Ascii String.
From stdpp Require Import base tactics option gmap list.
From S2P Require Import Prelude StdMap Regex RString Uri Message Session Member Filter Prefix Router Loader.

Open Scope Z_scope.

(** ** [json.h]: the values *)
Module Json.

Inductive json :=
| JNull
| JBool (b : bool)
| JInt (n : Z)
| JOther                              (* another number *)
| JStr (s : str)
| JArr (l : list json)
| JObj (m : list (str * json)).       (* ordered by key *)

(** [find( key ) != end()], with the value. *)
Definition find (k : str) (j : json) : option json := match j with JObj m => m_find k m | _ => None end.
Definition has (k : str) (j : json) : bool := match find k j with Some _ => true | None => false end.

(** [j[ key ].get<std::string>()]: a missing key becomes null, and what is no text
    is a [type_error], which is no [std::runtime_error]. *)
Definition text (k : str) (j : json) : res str := match find k j with Some (JStr s) => ok s | _ => err Foreign end.

(** A map of texts, and a map of those, as JSON. *)
Definition of_dict (d : Convert.dict) : json := JObj (map (fun kv => (kv.1, JStr kv.2)) d).
Definition of_set (g : list (str * Convert.dict)) : json := JObj (map (fun kv => (kv.1, of_dict kv.2)) g).
End Json.

(** ** What the handlers use of the data plane *)
Class Plane (P : Type) := {
  p_member_add : Z -> Z -> Member.al_member_conf -> st P Z;
  p_member_delete : Z -> Z -> Z -> st P Z;
  p_filter_insert : Filter.al_api_filter -> st P Z;
  p_filter_del : Filter.al_api_filter -> st P Z;
  p_router_insert : Z -> list Z -> list Z -> list Z -> Z -> Z -> Z -> st P Z;
  p_router_delete : list Z -> list Z -> Z -> Z -> st P Z;
  p_geoip_insert : Z -> list Z -> list Z -> Z -> st P Z;
  p_geoip_delete : list Z -> list Z -> Z -> st P Z;
  p_dns_insert : list Z -> Z -> Z -> st P Z;
  p_dns_delete : list Z -> st P Z;
  p_add_ip : Z -> Z -> Z -> Z -> list Z -> list Z -> st P Z;
  p_del_ip : Z -> Z -> Z -> st P Z }.

(** What a compiler makes of two things the language leaves undefined: a function
    with a result that runs off its end, and a read through the pointer
    [al_ipu<family>().to( s )] returns, after the object it points into is gone. *)
Class Compiler := { missing_return : res unit; dead_temporary : list Z -> res (list Z) }.

Module Rest.
Import Json Convert.

(** The codes of [al_errmsg.h] the handlers set. *)
Inductive errcode :=
| Untouched (e : Z)
| AL_GROUP_NAME_NEEDED | AL_DB_SELECT_FAILED | AL_OBJECT_EXIST | AL_OBJECT_EEXIST | AL_DB_COMMIT_FAILED | AL_INTERVAL_ERROR
| AL_DELETE_OBJ_FAILED | AL_GROUP_DEL_FAILED | AL_RESOURCE_BUSY | AL_MEMBER_PARAMENTS_ERROR | AL_GROUP_EEXIST | AL_INVALID_IP
| AL_INVALID_IP_TYPE | AL_GROUP_INFO_NEED | AL_FILTER_PARAMENTS_ERROR | AL_FILTER_TYPE_INVALID | AL_PROTO_UNKNOW
| AL_ROUTER_PARAMENTS_MISS | AL_DB_INSERT_FAILED | AL_PORT_NOT_FOUND | AL_DELETE_IP_FAILED.

Section handlers.
Context {D P : Type} `{Plane P} `{Compiler}.
(** [sqlite3_exec]: the rows, none when it reports an error; and [al_db::newid]. *)
Context (exec : str -> D -> option (list (list (option str))) * D) (newid_ : D -> option Z * D).
Context (parse_ : str -> option json) (dump : json -> str).
Context (al_get_errmsg : errcode -> str) (error_id : errcode -> Z).
Context (inet_pton : bool -> str -> option (list Z)) (if_nametoindex : str -> Z) (if_indextoname : Z -> option str).
(** What the stack held. *)
Context (conf0 : Member.al_member_conf) (mask0 : list Z).

(** [trans_id] of the [al_db] object in use. *)
Record api := mk_api { db : D; plane : P; errno : errcode; trans_id : Z }.

(** *** [al_make_msg.h] *)
Definition make_failed (msg : str) : st api str := fun s =>
  (ok (dump (JObj [(<<"data">>, JObj [(<<"extra">>, JStr msg); (<<"message">>, JStr (al_get_errmsg (errno s)))]);
                   (<<"error-id">>, JInt (error_id (errno s))); (<<"status">>, JStr <<"failed">>)])), s).
Definition success (message : json) : str :=
  dump (JObj [(<<"data">>, JObj [(<<"message">>, message)]); (<<"status">>, JStr <<"success">>)]).
Definition make_success_text (msg : str) : str := success (JStr msg).
Definition made (key id_ : str) : str := success (JObj [(key, JStr id_)]).

(** *** Statements *)
Definition set_errno (e : errcode) : st api unit := st_modify (fun s => s <| errno := e |>).
Definition sql_exec (sql : str) : st api (option (list (list (option str)))) := fun s =>
  let '(r, d) := exec sql (db s) in (ok r, s <| db := d |>).
Definition newid : st api Z := fun s =>
  let '(r, d) := newid_ (db s) in (ok (default (-1) r), s <| db := d |>).
Definition begin_ (id_ : Z) : st api unit := st_modify (fun s => s <| trans_id := id_ |>).
Definition commit : st api unit := st_modify (fun s => s <| trans_id := -1 |>).

(** An [al_db] object and its destructor, which also runs when an exception leaves. *)
Definition with_db {A} (c : st api A) : st api A := fun s =>
  let '(r, s') := c (s <| trans_id := -1 |>) in
  match r with
  | inl Undef => (r, s')
  | _ =>
      let s'' := match Db.rollback_sql (trans_id s') with
                 | None => s'
                 | Some sql => s' <| db := snd (exec sql (db s')) |>
                 end in
      (r, s'' <| trans_id := trans_id s |>)
  end.

(** A failed statement is answered with -1. *)
Definition run_sql (sql : str) : st api bool := do r <- sql_exec sql ;; st_ret (match r with Some _ => true | None => false end).

Definition value3 (kind id_ k v : str) : str :=
  <<"( '">> ++ kind ++ <<"', '">> ++ id_ ++ <<"', '">> ++ k ++ <<"', '">> ++ v ++ <<"')">>.
Fixpoint joined (l : list str) : str := match l with [] => [] | [x] => x | x :: l => x ++ <<",">> ++ joined l end.
Definition insert3 (kind id_ : str) (kvs : list (str * str)) : str :=
  <<"insert into aware(key1, key2, key3, value) values ">> ++ joined (map (fun kv => value3 kind id_ kv.1 kv.2) kvs).

(** *** Leaving a handler *)

(** [goto END] with a result, the end of the [try] block with the answer, and
    [return]. *)
Inductive exit_ := End (rc : Z) | Done (retmsg : str) | Ret (rc : Z).
Definition finish (e : exit_) : st api (Z * str) :=
  match e with
  | End rc => if rc =? 0 then st_ret (0, []) else do m <- make_failed [] ;; st_ret (rc, m)
  | Done m => st_ret (0, m)
  | Ret rc => st_ret (rc, [])
  end.

(** [catch( std::runtime_error )], or [catch( ... )]. *)
Definition caught (all : bool) (e : exn) : bool :=
  match e with Undef => false | RuntimeError _ | RegexError _ => true | _ => all end.
Definition catching (all : bool) (c : st api exit_) : st api exit_ := fun s =>
  match c s with
  | (inl e, s') => if caught all e then (ok (End (-1)), s' <| errno := AL_INTERVAL_ERROR |>) else (inl e, s')
  | r => r
  end.
Definition fail (e : errcode) : st api exit_ := do _ <- set_errno e ;; st_ret (End (-1)).

Definition parse (t : str) : st api json := st_lift (match parse_ t with Some j => ok j | None => err Foreign end).
Definition get (k : str) (j : json) : st api str := st_lift (text k j).

(** [stn<int>] *)
Definition stn_int (t : str) : Z :=
  let '(sg, s) := Uri.sign_of (Uri.skip_space t) in
  match s with
  | c :: _ =>
      if Regex.is_digit c then
        let v := sg * Uri.dec_value 0 s in
        if (v <? - 2 ^ 31) || (2 ^ 31 - 1 <? v) then 0 else v
      else 0
  | [] => 0
  end.
(** [nts<int16_t>] of a wider number. *)
Definition nts16 (n : Z) : str := nts (signed 16 (wrap 16 n)).

(** *** Callbacks of queries *)
Fixpoint firsts (rows : list (list (option str))) : res (list str) :=
  match rows with [] => ok [] | row :: rows => let* a := Loader.argv row 0 in let* l := firsts rows in ok (a :: l) end.
(** [count( * )], over what the variable held. *)
Definition counted (old : Z) (rows : list (list (option str))) : res Z :=
  let* l := firsts rows in ok (match List.rev l with [] => old | t :: _ => stn_int t end).
(** A callback that returns nothing although it is declared to return an [int]. *)
Definition no_return (rows : list (list (option str))) : res unit := match rows with [] => ok tt | _ => missing_return end.

(** *** [rest/al_element.h] *)
Definition all_of (sql : str) : st api (option (list (str * dict))) :=
  with_db (do r <- sql_exec sql ;;
           match r with
           | None => do _ <- set_errno AL_DB_SELECT_FAILED ;; st_ret None
           | Some rows => do g <- st_lift (Loader.rows3 rows []) ;; st_ret (Some g)
           end).
Definition all_groups := all_of <<"select key2, key3, value from aware where is_live = 1 and key1='group'">>.
Definition all_filters := all_of <<"SELECT key2, key3, value FROM aware where is_live=1 and key1 = 'filter'">>.
Definition all_members := all_of <<"SELECT key2, key3, value FROM aware where is_live=1 and key1 = 'member'">>.
Definition all_nics := all_of <<"SELECT key2, key3, value FROM aware where key1 = 'physical_port'">>.
Definition all_ips := all_of <<"SELECT key2, key3, value FROM aware where key1 = 'ipaddress' and is_live=1">>.

(** *** [rest/al_group.h] *)
Definition by_name_sql (kind name : str) : str :=
  <<"SELECT key2 FROM aware where is_live=1 and key1 = '">> ++ kind ++ <<"' and key3='name' and value='">> ++ name ++ <<"'">>.

(** [search_group_by_name] and [search_filter_by_name]: empty unless there is exactly one. *)
Definition search_by_name (kind name : str) : st api str :=
  with_db (do r <- sql_exec (by_name_sql kind name) ;;
           match r with
           | None => do _ <- set_errno AL_DB_SELECT_FAILED ;; st_ret []
           | Some rows =>
               do out <- st_lift (firsts rows) ;;
               match out with
               | [id_] => st_ret id_
               | _ => do _ <- set_errno AL_OBJECT_EEXIST ;; st_ret []
               end
           end).

Definition users_sql (id_ : str) : str := <<"select count(*) from aware where key1='filter' and key3='group' and value='">> ++ id_ ++ <<"'">>.
Definition kill_sql (id_ : str) : str := <<"update aware set is_live = 0 where key2= '">> ++ id_ ++ <<"'">>.

(** Whether it succeeded; a group that a filter names, or ever named, stays. *)
Definition del_group_byid (id_ : str) : st api bool :=
  do r <- sql_exec (users_sql id_) ;;
  match r with
  | None => do _ <- set_errno AL_DB_SELECT_FAILED ;; st_ret false
  | Some rows =>
      do n <- st_lift (let* n := counted (-1) rows in let* _ := no_return rows in ok n) ;;
      if negb (n =? 0) then do _ <- set_errno AL_RESOURCE_BUSY ;; st_ret false else
      do done <- run_sql (kill_sql id_) ;;
      if done : bool then st_ret true else do _ <- set_errno AL_DELETE_OBJ_FAILED ;; st_ret false
  end.

Definition insert_group (gid : Z) (name : str) : st api bool :=
  run_sql (insert3 <<"group">> (nts gid) [(<<"name">>, name); (<<"hcheck">>, <<"0">>); (<<"algorithm">>, <<"0">>)]).
Definition group_count_sql (name : str) : str :=
  <<"SELECT count(*) FROM aware where is_live='1' and key1 = 'group' and key3='name' and value='">> ++ name ++ <<"'">>.

Definition al_group_add (args msg : str) : st api (Z * str) :=
  do e <- catching false
    (do j <- parse msg ;;
     if negb (has <<"name">> j) then fail AL_GROUP_NAME_NEEDED else
     with_db
       (do name <- get <<"name">> j ;;
        do r <- sql_exec (group_count_sql name) ;;
        match r with
        | None => fail AL_DB_SELECT_FAILED
        | Some rows =>
            do i <- st_lift (counted 0 rows) ;;
            if 0 <? i then fail AL_OBJECT_EXIST else
            do gid <- newid ;;
            if gid <? 0 then st_ret (End (-1)) else
            do _ <- begin_ (-1) ;;
            do done <- insert_group gid name ;;
            if negb done then st_ret (End (-1)) else
            do _ <- commit ;;
            st_ret (Done (made <<"group_id">> (nts gid)))
        end)) ;;
  finish e.

Definition group_rows_sql (kid : str) : str :=
  match kid with
  | [] => <<"SELECT key2, key3, value  FROM aware where key1='group' and is_live='1'">>
  | _ => <<"SELECT key2, key3, value  FROM aware where is_live='1' and key1='group'  and key2='">> ++ kid ++ <<"'">>
  end.

Definition al_group_get (args msg : str) : st api (Z * str) :=
  do e <- catching false
    (with_db
       (do j <- parse args ;;
        do kid <-
          (if has <<"id">> j then do id_ <- get <<"id">> j ;; st_ret (Some id_)
           else if has <<"name">> j then
             do name <- get <<"name">> j ;;
             do kid <- search_by_name <<"group">> name ;;
             st_ret (match kid with [] => None | _ => Some kid end)
           else st_ret (Some [])) ;;
        match kid with
        | None => st_ret (End (-1))
        | Some kid =>
            do r <- sql_exec (group_rows_sql kid) ;;
            match r with
            | None => fail AL_DELETE_OBJ_FAILED
            | Some rows =>
                do out <- st_lift (let* out := Loader.rows3 rows [] in let* _ := no_return rows in ok out) ;;
                st_ret (Done (success (of_set out)))
            end
        end)) ;;
  finish e.

(** A name that is not found ends the handler with no answer and no error. *)
Definition al_group_del (args msg : str) : st api (Z * str) :=
  do e <- catching false
    (do j <- parse args ;;
     let delete kid :=
       with_db
         (do _ <- begin_ (-1) ;;
          do done <- del_group_byid kid ;;
          if negb done then st_ret (End (-1)) else
          do _ <- commit ;;
          st_ret (Done (make_success_text []))) in
     if has <<"id">> j then do kid <- get <<"id">> j ;; delete kid
     else if negb (has <<"name">> j) then fail AL_GROUP_DEL_FAILED
     else
       do name <- get <<"name">> j ;;
       do kid <- search_by_name <<"group">> name ;;
       match kid with [] => st_ret (End 0) | _ => delete kid end) ;;
  finish e.
(** *** [rest/al_member.h] *)
Definition in_plane {A} (c : st P A) : st api A := fun s => let '(r, p) := c (plane s) in (r, s <| plane := p |>).

(** A query that failed is returned as a null pointer, made into a text. The test is
    true for the first group that has a name, whatever its name is. *)
Definition group_id (name : str) : st api str :=
  do g <- all_groups ;;
  match g with
  | None => st_throw Undef
  | Some g =>
      st_ret (match List.find (fun kv => existsb (fun k => bool_decide (k.1 = <<"name">>) || bool_decide (k.2 = name)) kv.2) g with
              | Some kv => kv.1
              | None => []
              end)
  end.
Definition group_exist_byid (gid : str) : st api str :=
  do g <- all_groups ;;
  match g with
  | None => st_throw Undef
  | Some g => st_ret (if existsb (fun kv => bool_decide (kv.1 = gid)) g then gid else [])
  end.

(** The group and the member that a path names. *)
Definition member_info (args : str) : st api (option (str * str)) :=
  do j <- parse args ;;
  do gid <-
    (if has <<"group_id">> j then do g <- get <<"group_id">> j ;; st_ret (Some g)
     else if has <<"group_name">> j then do n <- get <<"group_name">> j ;; do g <- group_id n ;; st_ret (Some g)
     else st_ret None) ;;
  match gid with
  | None => st_ret None
  | Some gid =>
      do mid <- (if has <<"member_id">> j then get <<"member_id">> j else st_ret []) ;;
      st_ret (Some (gid, mid))
  end.

Definition al_all_filters_with_group_id (gid : str) : st api (option (list Z)) :=
  do g <- all_filters ;;
  st_ret (match g with
          | None => None
          | Some g => Some (concat (map (fun kv =>
              concat (map (fun k => if bool_decide (k.1 = <<"group">>) && bool_decide (k.2 = gid) then [stn 32 kv.1] else []) kv.2)) g))
          end).

Definition htons (p : Z) : Z := p mod 256 * 256 + p / 256 mod 256.

(** [al_ipu<family>().to( s )] and what is read through the pointer later. *)
Definition to_ (v6 : bool) (s : str) : option (res (list Z)) := dead_temporary <$> inet_pton v6 s.

(** For every filter of the group, until one fails. *)
Fixpoint each (c : Z -> st P Z) (l : list Z) : st api bool :=
  match l with
  | [] => st_ret true
  | k :: l => do rc <- in_plane (c k) ;; if negb (rc =? 0) then st_ret false else each c l
  end.

(** The rows and the rest of [al_member_add], for an address that has been read. *)
Definition member_store (j : json) (gid : str) (addr : list Z) : st api exit_ :=
  do port <- get <<"port">> j ;;
  let port_ := htons (stn 16 port) in
  with_db
    (do mid <- newid ;;
     if mid <? 0 then st_ret (End (-1)) else
     do ary <- al_all_filters_with_group_id gid ;;
     match ary with
     | None => st_ret (End (-1))
     | Some ary =>
         do _ <- begin_ mid ;;
         do iptype <- get <<"iptype">> j ;; do address <- get <<"address">> j ;; do group <- get <<"group">> j ;;
         let rows := [(<<"iptype">>, iptype); (<<"hcheck">>, <<"0">>); (<<"port">>, port); (<<"address">>, address); (<<"group">>, group)] in
         do rows <- (if negb (has <<"weight">> j) then do w <- get <<"weight">> j ;; st_ret (rows ++ [(<<"weight">>, w)]) else st_ret rows) ;;
         let conf := Member.mk_conf 0 port_ (Z.land mid 65535) addr in
         do done <- run_sql (insert3 <<"member">> (nts mid) rows) ;;
         if negb done then st_ret (End (-1)) else
         do added <- each (fun k => p_member_add k (stn 32 gid) conf) ary ;;
         if negb added then st_ret (End (-1)) else
         do _ <- commit ;;
         st_ret (Done (made <<"member_id">> (nts16 mid)))
     end).

Definition al_member_add (args msg : str) : st api (Z * str) :=
  do e <- catching false
    (do j <- parse msg ;;
     if negb (has <<"iptype">> j && has <<"address">> j && has <<"port">> j)
     then do _ <- set_errno AL_MEMBER_PARAMENTS_ERROR ;; st_ret (End 0) else
     do gid <-
       (if has <<"group">> j then do g <- get <<"group">> j ;; do g <- group_exist_byid g ;; st_ret (Some g)
        else if has <<"group_name">> j then do n <- get <<"group_name">> j ;; do g <- group_id n ;; st_ret (Some g)
        else do _ <- set_errno AL_MEMBER_PARAMENTS_ERROR ;; st_ret None) ;;
     match gid with
     | None => st_ret (End 0)
     | Some [] => fail AL_GROUP_EEXIST
     | Some gid =>
         do iptype <- get <<"iptype">> j ;;
         let family v6 :=
           do address <- get <<"address">> j ;;
           match to_ v6 address with
           | None => do _ <- set_errno AL_INVALID_IP ;; st_ret (Ret (-1))
           | Some b =>
               do b <- st_lift b ;;
               let a := Loader.store (Member.conf_addr conf0) 1 [if v6 : bool then Prefix.AF_INET6 else Prefix.AF_INET] in
               member_store j gid (Loader.store a 2 b)
           end in
         if bool_decide (iptype = <<"ipv4">>) then family false
         else if bool_decide (iptype = <<"ipv6">>) then family true
         else fail AL_INVALID_IP_TYPE
     end) ;;
  finish e.

(** [m[ k ]] of a map that is changed when the key is missing. *)
Definition touch (k : str) (m : dict) : dict := match m_find k m with Some _ => m | None => sm_assign k [] m end.

(** The members asked for, under the keys [key] gives. *)
Fixpoint chosen (gid mid : str) (key : str -> str) (all : list (str * dict)) (out : list (str * dict)) : list (str * dict) :=
  match all with
  | [] => out
  | (k, v) :: all =>
      let hit := match mid with [] => true | _ => bool_decide (k = mid) end && bool_decide (at_ v <<"group">> = gid) in
      chosen gid mid key all (if hit then sm_assign (key k) (touch <<"group">> v) out else out)
  end.

Definition al_member_del (args msg : str) : st api (Z * str) :=
  do e <- catching false
    (with_db
       (do info <- member_info args ;;
        match info with
        | None => fail AL_GROUP_INFO_NEED
        | Some (gid, mid) =>
            do outall <- all_members ;;
            match outall with
            | None => st_ret (End (-1))
            | Some outall =>
                match chosen gid mid (fun _ => mid) outall [] with
                | [] => fail AL_OBJECT_EEXIST
                | _ =>
                    do ary <- al_all_filters_with_group_id gid ;;
                    match ary with
                    | None => st_ret (End (-1))
                    | Some ary =>
                        do _ <- begin_ (-1) ;;
                        do done <- run_sql (kill_sql mid) ;;
                        if negb done then fail AL_DELETE_OBJ_FAILED else
                        do removed <- each (fun k => p_member_delete k (stn 32 gid) (stn 32 mid)) ary ;;
                        if negb removed then st_ret (End (-1)) else
                        do _ <- commit ;;
                        st_ret (Done (make_success_text []))
                    end
                end
            end
        end)) ;;
  finish e.

(** No exception is caught. *)
Definition al_member_get (args msg : str) : st api (Z * str) :=
  do e <- with_db
    (do info <- member_info args ;;
     match info with
     | None => fail AL_GROUP_INFO_NEED
     | Some (gid, mid) =>
         do outall <- all_members ;;
         match outall with
         | None => st_ret (End (-1))
         | Some outall =>
             match chosen gid mid (fun k => k) outall [] with
             | [] => fail AL_OBJECT_EEXIST
             | out => st_ret (Done (success (of_set out)))
             end
         end
     end) ;;
  finish e.
(** *** [rest/al_filter.h] *)

(** The address [key] of a filter, read through a dangling pointer. *)
Definition read_address (v6 : bool) (key : str) (j : json) : st api (option (list Z)) :=
  do a <- get key j ;;
  match to_ v6 a with
  | None => do _ <- set_errno AL_INVALID_IP ;; st_ret None
  | Some b => do b <- st_lift b ;; st_ret (Some b)
  end.

(** Behind the checks: the rows, the record and the table. The key that makes
    [next_filter] unnecessary is misspelt. *)
Definition filter_store (j : json) (v6 : bool) (addr mask_ : list Z) (port : Z) (filter_type proto : Z) : st api exit_ :=
  do vid <- newid ;;
  if vid <? 0 then st_ret (End (-1)) else
  with_db
    (do group <- get <<"group">> j ;;
     let tgid := stn 32 group in
     do s <- st_get ;;
     do sched <- st_lift (Loader.al_api_group_exist (fun q => fst (exec q (db s))) tgid) ;;
     match sched with
     | None => fail AL_OBJECT_EEXIST
     | Some _ =>
         do _ <- begin_ vid ;;
         do iptype <- get <<"iptype">> j ;; do port_ <- get <<"port">> j ;; do address <- get <<"address">> j ;; do name <- get <<"name">> j ;;
         do type <- get <<"filter_type">> j ;; do proto_ <- get <<"proto">> j ;;
         let rows := [(<<"iptype">>, iptype); (<<"port">>, port_); (<<"address">>, address); (<<"name">>, name);
                      (<<"filter_type">>, type); (<<"group">>, group); (<<"proto">>, proto_)] in
         do rows <- (if negb (has <<"next_fitler">> j) then do n <- get <<"next_filter">> j ;; st_ret (rows ++ [(<<"next_filter">>, n)]) else st_ret rows) ;;
         do rows <- (if has <<"address_mask">> j then do m <- get <<"address_mask">> j ;; st_ret (rows ++ [(<<"address_mask">>, m)]) else st_ret rows) ;;
         do done <- run_sql (insert3 <<"filter">> (nts vid) rows) ;;
         if negb done then st_ret (End (-1)) else
         do _ <- get <<"next_filter">> j ;;
         do rc <- in_plane (p_filter_insert (Filter.mk_api (if v6 then Prefix.AF_INET6 else Prefix.AF_INET) proto addr mask_ (u32 vid) tgid port (u8 filter_type))) ;;
         if negb (rc =? 0) then st_ret (End (-1)) else
         do _ <- commit ;;
         st_ret (Done (made <<"filter_id">> (nts16 vid)))
     end).

(** Without a mask the mask of the record stays as it was on the stack. *)
Definition al_filter_add (args msg : str) : st api (Z * str) :=
  do e <- catching true
    (do j <- parse msg ;;
     if negb (has <<"iptype">> j && has <<"port">> j && has <<"address">> j && has <<"name">> j && has <<"filter_type">> j && has <<"group">> j && has <<"proto">> j)
     then fail AL_FILTER_PARAMENTS_ERROR else
     do iptype <- get <<"iptype">> j ;;
     let family v6 :=
       do a <- read_address v6 <<"address">> j ;;
       match a with
       | None => st_ret (End (-1))
       | Some a =>
           do m <- (if has <<"address_mask">> j then read_address v6 <<"address_mask">> j else st_ret (Some mask0)) ;;
           match m with
           | None => st_ret (End (-1))
           | Some m =>
               do port <- get <<"port">> j ;;
               do type <- get <<"filter_type">> j ;;
               let filter_type := Filter.al_filter_type type in
               if filter_type =? -1 then fail AL_FILTER_TYPE_INVALID else
               do proto <- get <<"proto">> j ;;
               match (if bool_decide (proto = <<"tcp">>) then Some 6 else if bool_decide (proto = <<"udp">>) then Some 17
                      else if bool_decide (proto = <<"all">>) then Some 0 else None) with
               | None => fail AL_PROTO_UNKNOW
               | Some int_proto =>
                   do vname <- get <<"name">> j ;;
                   do sql_name <- search_by_name <<"filter">> vname ;;
                   match sql_name with
                   | _ :: _ => fail AL_OBJECT_EXIST
                   | [] => filter_store j v6 a m (stn 16 port) filter_type int_proto
                   end
               end
           end
       end in
     if bool_decide (iptype = <<"ipv4">>) then family false
     else if bool_decide (iptype = <<"ipv6">>) then family true
     else fail AL_INVALID_IP_TYPE) ;;
  finish e.

(** Filters that are not live any more are listed too. *)
Definition filter_rows_sql (kid : str) : str :=
  match kid with
  | [] => <<"SELECT key2, key3, value FROM aware  where key1 = 'filter'">>
  | _ => <<"SELECT key2, key3, value FROM aware  where key1 = 'filter' and key2 = '">> ++ kid ++ <<"'">>
  end.
(** The identifier in the path, or of the name there; empty for neither, none if there is no such name. *)
Definition path_id (kind : str) (j : json) : st api (option str) :=
  if has <<"id">> j then do id_ <- get <<"id">> j ;; st_ret (Some id_)
  else if has <<"name">> j then
    do name <- get <<"name">> j ;;
    do kid <- search_by_name kind name ;;
    st_ret (match kid with [] => None | _ => Some kid end)
  else st_ret (Some []).

Definition al_filter_get (args msg : str) : st api (Z * str) :=
  do e <- catching false
    (do j <- parse args ;;
     do kid <- path_id <<"filter">> j ;;
     match kid with
     | None => st_ret (End (-1))
     | Some kid =>
         with_db
           (do r <- sql_exec (filter_rows_sql kid) ;;
            match r with
            | None => fail AL_DB_SELECT_FAILED
            | Some rows => do out <- st_lift (Loader.rows3 rows []) ;; st_ret (Done (success (of_set out)))
            end)
     end) ;;
  finish e.

(** The record of a filter from its rows; the pointer is read where it is made. *)
Definition filter_record (kid : str) (out : dict) : res Filter.al_api_filter :=
  let read v6 k := match inet_pton v6 (at_ out k) with Some b => ok b | None => err Undef end in
  let fields v6 :=
    let* a := read v6 <<"address">> in
    let* m := match m_find <<"address_mask">> out with Some _ => read v6 <<"address_mask">> | None => ok (repeat 0 (if v6 : bool then 16 else 4)%nat) end in
    let proto := at_ out <<"proto">> in
    ok (Filter.mk_api (if v6 then Prefix.AF_INET6 else Prefix.AF_INET)
          (if bool_decide (proto = <<"tcp">>) then 6 else if bool_decide (proto = <<"udp">>) then 17 else 0)
          a m (stn 32 kid) (stn 32 (at_ out <<"group">>)) (stn 16 (at_ out <<"port">>)) (u8 (Filter.al_filter_type (at_ out <<"filter_type">>)))) in
  if bool_decide (at_ out <<"iptype">> = <<"ipv4">>) then fields false
  else if bool_decide (at_ out <<"iptype">> = <<"ipv6">>) then fields true
  else err Undef.

Definition kill_filter_sql (kid : str) : str := <<"update aware set is_live = 0 where key2='">> ++ kid ++ <<"'">>.

Definition al_filter_delete (args msg : str) : st api (Z * str) :=
  do e <- catching true
    (with_db
       (do j <- parse args ;;
        if negb (has <<"id">> j) && negb (has <<"name">> j) then fail AL_GROUP_DEL_FAILED else
        do kid <- path_id <<"filter">> j ;;
        match kid with
        | None => st_ret (End (-1))
        | Some kid =>
            do _ <- begin_ (-1) ;;
            do done <- run_sql (kill_filter_sql kid) ;;
            if negb done then fail AL_DELETE_OBJ_FAILED else
            do r <- sql_exec (<<"SELECT key3, value FROM aware  where key1 = 'filter' and key2 = '">> ++ kid ++ <<"'">>) ;;
            match r with
            | None => fail AL_DB_SELECT_FAILED
            | Some rows =>
                do f <- st_lift (let* out := Loader.rows2 rows [] in filter_record kid out) ;;
                do rc <- in_plane (p_filter_del f) ;;
                if negb (rc =? 0) then fail AL_DELETE_OBJ_FAILED else
                do _ <- commit ;;
                st_ret (Done (make_success_text []))
            end
        end)) ;;
  finish e.

(** *** [rest/al_nic.h] *)
Definition nic_update (all : bool) (sql : str -> str) (args : str) : st api (Z * str) :=
  do e <- catching all
    (do j <- parse args ;;
     with_db
       (do id_ <- get <<"nic_id">> j ;;
        do done <- run_sql (sql id_) ;;
        if negb done then fail AL_OBJECT_EEXIST else st_ret (Done (make_success_text [])))) ;;
  finish e.
Definition al_nic_modify (args msg : str) : st api (Z * str) :=
  nic_update false (fun id_ => <<"update aware set is_live=1 where key2='">> ++ id_ ++ <<"'">>) args.
Definition al_nic_del (args msg : str) : st api (Z * str) := nic_update true kill_filter_sql args.
(** A failed query ends with no answer and no error. *)
Definition al_nic_get (args msg : str) : st api (Z * str) :=
  do e <- catching false
    (do g <- all_nics ;;
     st_ret (match g with None => End 0 | Some g => Done (success (of_set g)) end)) ;;
  finish e.

(** *** [rest/al_dns.h] and [rest/al_geoip.h] *)

(** The table of these queries is called [awrare]. *)
Definition get_dns : st api (option dict) :=
  with_db (do r <- sql_exec <<"select key2, key3, value from awrare where is_live=1 and key1='dns'">> ;;
           match r with None => st_ret None | Some rows => do out <- st_lift (Loader.rows2 rows []) ;; st_ret (Some out) end).
Definition al_dns_get (args msg : str) : st api (Z * str) :=
  do g <- get_dns ;;
  match g with None => do m <- make_failed [] ;; st_ret (0, m) | Some out => st_ret (0, success (of_dict out)) end.

(** Both for [dns_id] and for [geo_id] the rows of a region are asked for. *)
Definition region_rows (id_ : str) : st api (option dict) :=
  with_db (do r <- sql_exec (<<"select key3, value from awrare where is_live=1 and key1='geoip' and key2='">> ++ id_ ++ <<"'">>) ;;
           match r with None => st_ret None | Some rows => do out <- st_lift (Loader.rows2 rows []) ;; st_ret (Some out) end).

(** The record is looked for in the path of the request and not in its body. *)
Definition al_dns_add (args msg : str) : st api (Z * str) :=
  do e <- catching false
    (do j <- parse args ;;
     if negb (has <<"domain">> j) then st_ret (End (-1)) else
     do domain <- get <<"domain">> j ;;
     if negb (has <<"gid">> j) then st_ret (End (-1)) else
     do gid <- get <<"gid">> j ;;
     do dnsid <- newid ;;
     if dnsid <? 0 then st_ret (End (-1)) else
     with_db
       (do _ <- begin_ dnsid ;;
        do done <- run_sql (insert3 <<"dns">> (nts dnsid) [(<<"domain">>, domain); (<<"gid">>, gid)]) ;;
        if negb done then fail AL_DB_INSERT_FAILED else
        do rc <- in_plane (p_dns_insert (RString.to_bytes domain) (stn_int gid) (u32 dnsid)) ;;
        if negb (rc =? 0) then st_ret (End (-1)) else
        do _ <- commit ;;
        st_ret (Done (made <<"dns_id">> (nts16 dnsid))))) ;;
  finish e.

Definition al_dns_del (args msg : str) : st api (Z * str) :=
  do e <- catching true
    (with_db
       (do j <- parse args ;;
        if negb (has <<"dns_id">> j) then st_ret (End (-1)) else
        do id_ <- get <<"dns_id">> j ;;
        do dns <- region_rows id_ ;;
        match dns with
        | None => st_ret (End (-1))
        | Some dns =>
            do done <- run_sql (kill_filter_sql id_) ;;
            if negb done then fail AL_OBJECT_EEXIST else
            do rc <- in_plane (p_dns_delete (RString.to_bytes (at_ dns <<"domain">>))) ;;
            if negb (rc =? 0) then st_ret (End (-1)) else
            do _ <- commit ;;
            st_ret (Done (make_success_text []))
        end)) ;;
  finish e.

Definition al_geoip_get (args msg : str) : st api (Z * str) :=
  do g <- with_db (do r <- sql_exec <<"select key2, key3, value from awrare where is_live=1 and key1='geoip'">> ;;
                   match r with None => st_ret None | Some rows => do out <- st_lift (Loader.rows3 rows []) ;; st_ret (Some out) end) ;;
  match g with None => do m <- make_failed [] ;; st_ret (0, m) | Some out => st_ret (0, success (of_set out)) end.

Definition al_geoip_add (args msg : str) : st api (Z * str) :=
  do e <- catching false
    (do j <- parse args ;;
     do ip_type <- get <<"iptype">> j ;;
     let family v6 :=
       do subnet <- get <<"subnet">> j ;;
       match to_ v6 subnet with
       | None => fail AL_INVALID_IP
       | Some a =>
           do netmask <- get <<"netmask">> j ;;
           match to_ v6 netmask with
           | None => fail AL_INVALID_IP
           | Some m =>
               do geoid <- newid ;;
               if geoid <? 0 then st_ret (End (-1)) else
               with_db
                 (do _ <- begin_ geoid ;;
                  do address <- get <<"address">> j ;;
                  do done <- run_sql (insert3 <<"geoip">> (nts geoid) [(<<"iptype">>, ip_type); (<<"subnet">>, address); (<<"netmask">>, netmask)]) ;;
                  if negb done then fail AL_DB_INSERT_FAILED else
                  do a <- st_lift a ;; do m <- st_lift m ;;
                  do rc <- in_plane (p_geoip_insert (u32 geoid) a m (if v6 : bool then Prefix.AF_INET6 else Prefix.AF_INET)) ;;
                  if negb (rc =? 0) then st_ret (End (-1)) else
                  do _ <- commit ;;
                  st_ret (Done (made <<"geoip_id">> (nts16 geoid))))
           end
       end in
     if bool_decide (ip_type = <<"ipv4">>) then family false
     else if bool_decide (ip_type = <<"ipv6">>) then family true
     else do _ <- set_errno AL_INVALID_IP_TYPE ;; st_ret (End 0)) ;;
  finish e.

(** An identifier that is given is refused; one that is not is read. *)
Definition al_geoip_del (args msg : str) : st api (Z * str) :=
  do e <- catching true
    (with_db
       (do j <- parse args ;;
        if has <<"geo_id">> j then st_ret (End (-1)) else
        do id_ <- get <<"geo_id">> j ;;
        do geo <- region_rows id_ ;;
        match geo with
        | None => st_ret (End (-1))
        | Some geo =>
            let family v6 :=
              match to_ v6 (at_ geo <<"subnet">>), to_ v6 (at_ geo <<"netmask">>) with
              | Some a, Some m =>
                  do done <- run_sql (kill_filter_sql id_) ;;
                  if negb done then fail AL_OBJECT_EEXIST else
                  do a <- st_lift a ;; do m <- st_lift m ;;
                  do rc <- in_plane (p_geoip_delete a m (if v6 : bool then Prefix.AF_INET6 else Prefix.AF_INET)) ;;
                  if negb (rc =? 0) then st_ret (End (-1)) else
                  do _ <- commit ;;
                  st_ret (Done (make_success_text []))
              | _, _ => fail AL_INVALID_IP
              end in
            if bool_decide (at_ geo <<"iptype">> = <<"ipv4">>) then family false
            else if bool_decide (at_ geo <<"iptype">> = <<"ipv6">>) then family true
            else do _ <- set_errno AL_INVALID_IP_TYPE ;; st_ret (End 0)
        end)) ;;
  finish e.
(** *** [rest/al_router.h] *)
Definition value4 (id_ rtype k v : str) : str :=
  <<"( 'route', '">> ++ id_ ++ <<"', '">> ++ rtype ++ <<"', '">> ++ k ++ <<"', '">> ++ v ++ <<"')">>.
(** A route is kept under [key3], and its type under [key2]. *)
Definition insert4 (id_ rtype : str) (kvs : list (str * str)) : str :=
  <<"insert into aware(key1, key3, key2, key4, value) values ">> ++ joined (map (fun kv => value4 id_ rtype kv.1 kv.2) kvs).

(** [*p == 0] of a pointer to 32 bits. *)
Definition is_zero (b : list Z) : bool := bool_decide (Forall (eq 0) (take 4 b)).

(** The type of a route that is not a policy route. *)
Definition route_type (addr mask_ hop : res (list Z)) : res str :=
  let* a := addr in
  if is_zero a then let* m := mask_ in ok (if is_zero m then <<"getway">> else [])
  else let* h := hop in ok (if is_zero h then <<"direct">> else <<"static">>).

(** A route to the same network over another hop is refused, one over the same hop is not. *)
Definition route_clash (ipaddr netmask nexthop : str) (out : list (str * dict)) : bool :=
  existsb (fun kv => bool_decide (at_ kv.2 <<"dstip">> = ipaddr) && bool_decide (at_ kv.2 <<"netmask">> = netmask)
                     && negb (bool_decide (at_ kv.2 <<"nexthop">> = nexthop))) out.

Definition route_store (v6 : bool) (rtype iptype ipaddr netmask nexthop ifname : str) (addr mask_ hop : res (list Z)) (oif : Z) : st api exit_ :=
  with_db
    (do r <- sql_exec <<"SELECT key3, key4,value FROM aware where key1 = 'route'">> ;;
     do out <- st_lift (Loader.rows3 (default [] r) []) ;;
     if route_clash ipaddr netmask nexthop out then fail AL_OBJECT_EXIST else
     do vid <- newid ;;
     if vid <? 0 then st_ret (End (-1)) else
     do _ <- begin_ vid ;;
     do done <- run_sql (insert4 (nts vid) rtype
       [(<<"iptype">>, iptype); (if bool_decide (rtype = <<"policy">>) then <<"srcip">> else <<"dstip">>, ipaddr); (<<"rtype">>, rtype);
        (<<"netmask">>, netmask); (<<"nexthop">>, nexthop); (<<"name">>, ifname)]) ;;
     if negb done then fail AL_DB_INSERT_FAILED else
     do addr <- st_lift addr ;; do mask_ <- st_lift mask_ ;; do hop <- st_lift hop ;;
     do rc <- in_plane (p_router_insert (Z.land vid 65535) addr mask_ hop (if v6 then Prefix.AF_INET6 else Prefix.AF_INET) (Router.al_router_rtype rtype) oif) ;;
     if negb (rc =? 0) then st_ret (End (-1)) else
     do _ <- commit ;;
     st_ret (Done (made <<"route_id">> (nts16 vid)))).

Definition al_router_add (args msg : str) : st api (Z * str) :=
  do e <- catching false
    (do j <- parse msg ;;
     let missing := do _ <- set_errno AL_ROUTER_PARAMENTS_MISS ;; st_ret (End 0) in
     if negb (has <<"iptype">> j && has <<"nexthop">> j && has <<"netmask">> j && has <<"name">> j) then missing else
     do ifname <- get <<"name">> j ;;
     do s <- st_get ;;
     do oif <- st_lift (Loader.al_get_nic_id (fun q => fst (exec q (db s))) (if_indextoname (if_nametoindex ifname))) ;;
     match oif with
     | None => st_ret (End 0)
     | Some oif =>
         do ip_ <- (if has <<"dstip">> j then do a <- get <<"dstip">> j ;; st_ret (Some (a, []))
                    else if has <<"srcip">> j then do a <- get <<"srcip">> j ;; st_ret (Some (a, <<"policy">>))
                    else st_ret None) ;;
         match ip_ with
         | None => missing
         | Some (ipaddr, rtype) =>
             do iptype <- get <<"iptype">> j ;;
             let invalid := do _ <- set_errno AL_INVALID_IP ;; st_ret (Ret (-1)) in
             let family v6 :=
               match to_ v6 ipaddr with
               | None => invalid
               | Some addr =>
                   do netmask <- get <<"netmask">> j ;;
                   match to_ v6 netmask with
                   | None => invalid
                   | Some mask_ =>
                       do nexthop <- get <<"nexthop">> j ;;
                       match to_ v6 nexthop with
                       | None => invalid
                       | Some hop =>
                           do rtype <- (match rtype with
                                        | [] => st_lift (route_type addr mask_ hop)
                                        | _ => st_ret rtype
                                        end) ;;
                           route_store v6 rtype iptype ipaddr netmask nexthop ifname addr mask_ hop oif
                       end
                   end
               end in
             if bool_decide (iptype = <<"ipv4">>) then family false
             else if bool_decide (iptype = <<"ipv6">>) then family true
             else fail AL_INVALID_IP_TYPE
         end
     end) ;;
  finish e.

Definition al_router_get (args msg : str) : st api (Z * str) :=
  do e <- catching false
    (with_db
       (do r <- sql_exec <<"SELECT key3, key4, value FROM aware where key1='route' and is_live='1'">> ;;
        match r with
        | None => fail AL_DB_SELECT_FAILED
        | Some rows => do out <- st_lift (Loader.rows3 rows []) ;; st_ret (Done (success (of_set out)))
        end)) ;;
  finish e.

(** [out[ argv[1] ] = argv[2]; out[ "rtype" ] = argv[0]] *)
Fixpoint route_rows (rows : list (list (option str))) (out : dict) : res dict :=
  match rows with
  | [] => ok out
  | row :: rows =>
      let* a := Loader.argv row 0 in let* b := Loader.argv row 1 in let* c := Loader.argv row 2 in
      route_rows rows (sm_assign <<"rtype">> a (sm_assign b c out))
  end.
Definition search_route_by_id (rid : str) : st api (option dict) :=
  with_db
    (do r <- sql_exec (<<"SELECT key2, key4, value FROM aware where is_live=1 and key3 = '">> ++ rid ++ <<"'">>) ;;
     match r with
     | None => do _ <- set_errno AL_DB_SELECT_FAILED ;; st_ret None
     | Some rows =>
         do out <- st_lift (route_rows rows []) ;;
         match out with [] => do _ <- set_errno AL_OBJECT_EEXIST ;; st_ret None | _ => st_ret (Some out) end
     end).

(** A route that the table does not have is only logged. *)
Definition al_router_del (args msg : str) : st api (Z * str) :=
  do e <- catching true
    (with_db
       (do j <- parse args ;;
        do rid <- get <<"id">> j ;;
        do out <- search_route_by_id rid ;;
        match out with
        | None => st_ret (End (-1))
        | Some out =>
            let rtype := u8 (Router.al_router_rtype (at_ out <<"rtype">>)) in
            let v6 := negb (bool_decide (at_ out <<"iptype">> = <<"ipv4">>)) in
            do _ <- begin_ (-1) ;;
            do done <- run_sql (<<"update aware set is_live = 0 where key3='">> ++ rid ++ <<"'">>) ;;
            if negb done then fail AL_DELETE_OBJ_FAILED else
            match to_ v6 (at_ out <<"dstip">>), to_ v6 (at_ out <<"netmask">>) with
            | Some a, Some m =>
                do a <- st_lift a ;; do m <- st_lift m ;;
                do _ <- in_plane (p_router_delete a m (if v6 then Prefix.AF_INET6 else Prefix.AF_INET) rtype) ;;
                do _ <- commit ;;
                st_ret (Done (make_success_text []))
            | _, _ => do _ <- set_errno AL_INVALID_IP ;; st_ret (Ret (-1))
            end
        end)) ;;
  finish e.

(** *** [rest/al_ip.h] *)

(** [get_id]: the port a path names, empty when there is none. *)
Definition get_id (args : str) : st api str :=
  do g <- all_nics ;;
  match g with
  | None => st_ret []
  | Some g =>
      do j <- parse args ;;
      if has <<"port_id">> j then
        do id_ <- get <<"port_id">> j ;;
        if existsb (fun kv => bool_decide (kv.1 = id_)) g then st_ret id_ else do _ <- set_errno AL_PORT_NOT_FOUND ;; st_ret []
      else if has <<"port_name">> j then
        match g with
        | [] => st_ret []
        | _ => do name <- get <<"port_name">> j ;;
               st_ret (match List.find (fun kv => bool_decide (at_ kv.2 <<"name">> = name)) g with Some kv => kv.1 | None => [] end)
        end
      else st_ret []
  end.

Definition get_name_by_nicid (id_ : str) : st api str :=
  do g <- all_nics ;;
  st_ret (match g with None => [] | Some g => match m_find id_ g with Some m => at_ m <<"name">> | None => [] end end).

(** The name of the port of an address, and its number. *)
Definition get_name_by_ipid (id_ : str) : st api (str * str) :=
  do nics <- all_nics ;;
  match nics with
  | None => st_ret ([], id_)
  | Some nics =>
      do ips <- all_ips ;;
      st_ret (match ips with
              | None => ([], id_)
              | Some ips =>
                  match m_find id_ ips with
                  | None => ([], id_)
                  | Some m => match m_find (at_ m <<"port_id">>) nics with Some n => (at_ n <<"name">>, at_ m <<"port_id">>) | None => ([], id_) end
                  end
              end)
  end.

Definition al_ip_get (args msg : str) : st api (Z * str) :=
  do e <- catching false
    (do id_ <- get_id args ;;
     do l <- all_ips ;;
     match l with
     | None => st_ret (End (-1))
     | Some l =>
         st_ret (Done (success (of_set (match id_ with
           | [] => l
           | _ => List.filter (fun kv => bool_decide (at_ kv.2 <<"port_id">> = id_)) l
           end))))
     end) ;;
  finish e.

Definition al_ip_add (args msg : str) : st api (Z * str) :=
  do e <- catching false
    (do id_ <- get_id args ;;
     do l <- all_ips ;;
     match l, id_ with
     | None, _ | _, [] => st_ret (End (-1))
     | Some _, _ =>
         do j <- parse args ;;
         do iptype <- get <<"iptype">> j ;;
         let family v6 :=
           do a <- read_address v6 <<"address">> j ;;
           match a with
           | None => st_ret (End (-1))
           | Some a =>
               do m <- read_address v6 <<"netmask">> j ;;
               match m with
               | None => st_ret (End (-1))
               | Some m =>
                   do ipid <- newid ;;
                   if ipid <? 0 then st_ret (End (-1)) else
                   with_db
                     (do _ <- begin_ ipid ;;
                      do address <- get <<"address">> j ;; do netmask <- get <<"netmask">> j ;;
                      do done <- run_sql (insert3 <<"ipaddress">> (nts ipid)
                        [(<<"iptype">>, iptype); (<<"address">>, address); (<<"netmask">>, netmask); (<<"port_id">>, id_)]) ;;
                      if negb done then fail AL_DB_INSERT_FAILED else
                      do name <- get_name_by_nicid id_ ;;
                      do rc <- in_plane (p_add_ip (if_nametoindex name) ipid (u8 (stn 32 id_)) (if v6 : bool then Prefix.AF_INET6 else Prefix.AF_INET) a m) ;;
                      if rc =? -1 then st_ret (End (-1)) else
                      do _ <- commit ;;
                      st_ret (Done (made <<"ip_id">> (nts16 ipid))))
               end
           end in
         if bool_decide (iptype = <<"ipv4">>) then family false
         else if bool_decide (iptype = <<"ipv6">>) then family true
         else do _ <- set_errno AL_INVALID_IP_TYPE ;; st_ret (End 0)
     end) ;;
  finish e.

(** The address is looked up after its rows have been marked as gone. *)
Definition al_ip_del (args msg : str) : st api (Z * str) :=
  do e <- catching true
    (do l <- all_ips ;;
     match l with
     | None => st_ret (End (-1))
     | Some l =>
         do j <- parse args ;;
         do id_ <- get <<"ip_id">> j ;;
         match m_find id_ l with
         | None => st_ret (End (-1))
         | Some _ =>
             with_db
               (do done <- run_sql (kill_filter_sql id_) ;;
                if negb done then fail AL_OBJECT_EEXIST else
                do (name, port) <- get_name_by_ipid id_ ;;
                match name with
                | [] => fail AL_OBJECT_EEXIST
                | _ =>
                    do rc <- in_plane (p_del_ip (if_nametoindex name) (stn 64 id_) (stn 32 port)) ;;
                    if negb (rc =? 0) then fail AL_DELETE_IP_FAILED else
                    do _ <- commit ;;
                    st_ret (Done (make_success_text []))
                end)
         end
     end) ;;
  finish e.
End handlers.

(** ** [al_api_impl.h] *)
Section requests.
Context {K V : Type}.

(** [get_parament]: the path parameters as the text of a JSON object; a comma is put
    in front of a parameter, also of one that is empty and left out. *)
Definition get_parament (prs : list str) (r : Request.t) : str :=
  fold_left (fun rcs os =>
      let rcs := if bool_decide (length rcs = 1%nat) then rcs else rcs ++ <<",">> in
      match Request.get_path_parameter os [] r with
      | [] => rcs
      | v => rcs ++ [chr 34] ++ os ++ [chr 34] ++ <<":">> ++ [chr 34] ++ v ++ [chr 34]
      end) prs <<"{">> ++ <<"}">>.

(** [api_proc]: the length the request declares is fetched; then the handler's
    answer closes the session. *)
Definition api_proc (cb : K) : st (@Session.t K V) unit :=
  do s <- st_get ;;
  match Session.m_request s with
  | None => st_throw Undef
  | Some r => Session.fetch (Z.to_nat (wrap 64 (Request.get_header_int <<"Content-Length">> 0 r))) cb
  end.
Definition answer (retmsg : str) : st (@Session.t K V) unit :=
  Session.close 200 (RString.to_bytes retmsg) [(<<"Content-Length">>, nts (Z.of_nat (length retmsg)))].
End requests.
End Rest.
