(* ===== verification/RestGroups.v ===== *)
(** * Groups over REST

    What a client of [/v1/group] sees is a list of named groups: the handlers of
    [rest/al_group.h] refine it, over a database that does with their statements
    what SQL says, and the loader of the data plane finds the groups they
    store. Names and identifiers are quoted nowhere, so this holds for texts
    without an apostrophe. *)

From Stdlib Require Import ZArith Lia Bool Ascii String.
From stdpp Require Import base tactics option gmap list.
From S2P Require Import Prelude StdMap Uri Loader Rest.

Open Scope Z_scope.

(** ** SQL *)
Module Sql.
Import Convert.

(** A row of [aware], with the columns these statements use. *)
Record row := mk_row { key1 : str; key2 : option str; key3 : option str; value : str; is_live : bool }.

Definition quote : ascii := chr 39.
Definition clean (s : str) : Prop := quote ∉ s.

Definition is_kind (kind : str) (r : row) : bool := bool_decide (key1 r = kind).
Definition named (kind name : str) (r : row) : bool :=
  is_live r && is_kind kind r && bool_decide (key3 r = Some <<"name">>) && bool_decide (value r = name).
Definition uses (id_ : str) (r : row) : bool := is_kind <<"filter">> r && bool_decide (key3 r = Some <<"group">>) && bool_decide (value r = id_).
Definition of_group (kid : str) (r : row) : bool :=
  is_live r && is_kind <<"group">> r && match kid with [] => true | _ => bool_decide (key2 r = Some kid) end.
Definition kill (id_ : str) (r : row) : row := if bool_decide (key2 r = Some id_) then r <| is_live := false |> else r.
Definition row3 (kind id_ : str) (kv : str * str) : row := mk_row kind (Some id_) (Some kv.1) kv.2 true.
Definition count (p : row -> bool) (l : list row) : list (list (option str)) := [[Some (nts (Z.of_nat (length (List.filter p l))))]].
Definition triple (r : row) : list (option str) := [key2 r; key3 r; Some (value r)].

(** SQLite on the statements of the group handlers and the loader: [rows] is the
    table, [next] the identifier the sequence gives next. *)
Class Sqlite {D : Type} (exec : str -> D -> option (list (list (option str))) * D) (newid_ : D -> option Z * D)
    (rows : D -> list row) (next : D -> Z) : Prop := {
  sql_by_name kind name d : clean kind -> clean name ->
    exec (Rest.by_name_sql kind name) d = (Some (map (fun r => [key2 r]) (List.filter (named kind name) (rows d))), d);
  sql_count name d : clean name -> exec (Rest.group_count_sql name) d = (Some (count (named <<"group">> name) (rows d)), d);
  sql_users id_ d : clean id_ -> exec (Rest.users_sql id_) d = (Some (count (uses id_) (rows d)), d);
  sql_rows kid d : clean kid -> exec (Rest.group_rows_sql kid) d = (Some (map triple (List.filter (of_group kid) (rows d))), d);
  sql_load gid d : exec (Loader.group_sql gid) d
    = (Some (map (fun r => [key3 r; Some (value r)]) (List.filter (of_group (nts gid)) (rows d))), d);
  sql_kill id_ d : clean id_ -> exists d', exec (Rest.kill_sql id_) d = (Some [], d') /\ rows d' = map (kill id_) (rows d) /\ next d' = next d;
  sql_insert kind id_ kvs d : clean kind -> clean id_ -> Forall (fun kv => clean kv.1 /\ clean kv.2) kvs -> kvs <> [] ->
    exists d', exec (Rest.insert3 kind id_ kvs) d = (Some [], d') /\ rows d' = rows d ++ map (row3 kind id_) kvs /\ next d' = next d;
  sql_delete trans_id sql d : Db.rollback_sql trans_id = Some sql -> exists d', exec sql d = (Some [], d')
    /\ rows d' = List.filter (fun r => negb (bool_decide (key2 r = Some (nts (signed 32 (wrap 32 trans_id)))))) (rows d) /\ next d' = next d;
  sql_newid d : next d < 2 ^ 63 -> exists d', newid_ d = (Some (next d), d') /\ rows d' = rows d /\ next d' = next d + 1 }.
End Sql.

(** ** The specification *)
Module GroupApi.
Import Convert Json Rest.

Section Spec.
Context (parse_ : str -> option json) (dump : json -> str) (al_get_errmsg : errcode -> str) (error_id : errcode -> Z).

(** The groups with their identifiers, the groups that filters name, the identifier
    given next and the last error. *)
Record groups := mk_groups { gs : list (Z * str); users : list str; g_next : Z; g_errno : errcode }.

Definition failed (e : errcode) : str :=
  dump (JObj [(<<"data">>, JObj [(<<"extra">>, JStr []); (<<"message">>, JStr (al_get_errmsg e))]);
              (<<"error-id">>, JInt (error_id e)); (<<"status">>, JStr <<"failed">>)]).
Definition refuse (e : errcode) : st groups (Z * str) := fun G => (ok (-1, failed e), G <| g_errno := e |>).
Definition reading {A} (t : res A) (k : A -> st groups (Z * str)) : st groups (Z * str) := do a <- st_lift t ;; k a.
Definition parsed (t : str) (k : json -> st groups (Z * str)) : st groups (Z * str) :=
  match parse_ t with None => st_throw Foreign | Some j => k j end.

Definition by_name (name : str) (l : list (Z * str)) : option (Z * str) := List.find (fun g => bool_decide (g.2 = name)) l.

(** A new group, unless its name is taken. *)
Definition post (msg : str) : st groups (Z * str) :=
  parsed msg (fun j =>
    if negb (has <<"name">> j) then refuse AL_GROUP_NAME_NEEDED else
    reading (text <<"name">> j) (fun name => fun G =>
      match by_name name (gs G) with
      | Some _ => refuse AL_OBJECT_EXIST G
      | None => (ok (0, made dump <<"group_id">> (nts (g_next G))), G <| gs := gs G ++ [(g_next G, name)] |> <| g_next := g_next G + 1 |>)
      end)).

Definition group_dict (name : str) : dict := [(<<"algorithm">>, <<"0">>); (<<"hcheck">>, <<"0">>); (<<"name">>, name)].
Definition listing (kid : str) (l : list (Z * str)) : list (str * dict) :=
  fold_left (fun out g => sm_assign (nts g.1) (group_dict g.2) out)
    (match kid with [] => l | _ => List.filter (fun g => bool_decide (nts g.1 = kid)) l end) [].
Definition list_ (kid : str) : st groups (Z * str) := fun G => (ok (0, success dump (of_set (listing kid (gs G)))), G).

(** One group, or all of them; an unknown identifier gives an empty list. *)
Definition get_ (args : str) : st groups (Z * str) :=
  parsed args (fun j =>
    if has <<"id">> j then reading (text <<"id">> j) list_
    else if has <<"name">> j then
      reading (text <<"name">> j) (fun name => fun G =>
        match by_name name (gs G) with Some g => list_ (nts g.1) G | None => refuse AL_OBJECT_EEXIST G end)
    else list_ []).

(** A group goes unless a filter names it; an unknown identifier is no error. *)
Definition remove (kid : str) : st groups (Z * str) := fun G =>
  if decide (kid ∈ users G) then refuse AL_RESOURCE_BUSY G
  else (ok (0, make_success_text dump []), G <| gs := List.filter (fun g => negb (bool_decide (nts g.1 = kid))) (gs G) |>).
(** An unknown name is answered with an empty text. *)
Definition del (args : str) : st groups (Z * str) :=
  parsed args (fun j =>
    if has <<"id">> j then reading (text <<"id">> j) remove
    else if negb (has <<"name">> j) then refuse AL_GROUP_DEL_FAILED
    else reading (text <<"name">> j) (fun name => fun G =>
      match by_name name (gs G) with
      | Some g => remove (nts g.1) G
      | None => (ok (0, []), G <| g_errno := AL_OBJECT_EEXIST |>)
      end)).
End Spec.

(** A request: the parameters of its path as JSON, and its body. *)
Inductive request := Post (args msg : str) | Get (args msg : str) | Delete (args msg : str).
Definition asked (r : request) : str := match r with Post _ msg => msg | Get args _ | Delete args _ => args end.

(** The answers, in order. What a handler throws ends its request only. *)
Fixpoint serve {S : Type} (f : request -> st S (Z * str)) (rs : list request) (s : S) : list (res (Z * str)) * S :=
  match rs with
  | [] => ([], s)
  | r :: rs => let '(x, s) := f r s in let '(xs, s) := serve f rs s in (x :: xs, s)
  end.
Definition handle (parse_ : str -> option json) (dump : json -> str) (al_get_errmsg : errcode -> str) (error_id : errcode -> Z)
    (r : request) : st groups (Z * str) :=
  match r with
  | Post _ msg => post parse_ dump al_get_errmsg error_id msg
  | Get args _ => get_ parse_ dump al_get_errmsg error_id args
  | Delete args _ => del parse_ dump al_get_errmsg error_id args
  end.
End GroupApi.

(** ** Lemmas *)
Module GroupFacts.
Import Convert Json Sql.

(** *** Texts of numbers *)
Lemma stn_int_nts n : 0 <= n < 2 ^ 31 -> Rest.stn_int (nts n) = n.
Proof.
  intros Hn. unfold Rest.stn_int, nts, Uri.to_dec. rewrite (proj2 (Z.ltb_ge n 0)) by lia.
  pose proof (LoaderFacts.dec_value_digits 20 n [] ltac:(simpl; lia)) as E.
  destruct (LoaderFacts.dec_digits_head 19 n []) as (d&s&Ed&Hd). rewrite Ed in *.
  destruct (LoaderFacts.digit_plain d Hd) as (P1&P2&P3). cbn [Uri.skip_space]. rewrite P1. cbn [Uri.sign_of]. rewrite P2, P3.
  rewrite (proj1 (LoaderFacts.digit_code d Hd)), E, Z.mul_1_l. cbn [Uri.dec_value].
  by rewrite (proj2 (Z.ltb_ge _ _)), (proj2 (Z.ltb_ge _ _)) by lia.
Qed.

Lemma digits_clean fuel : forall n acc, clean acc -> clean (Uri.dec_digits fuel n acc).
Proof.
  induction fuel as [|fuel IH]; intros n acc Hacc; [done|]. cbn [Uri.dec_digits].
  assert (clean (chr (48 + n mod 10) :: acc)) as Hc; [|case_match; auto].
  pose proof (Z.mod_pos_bound n 10 ltac:(lia)) as Hm. intros [Hq|]%elem_of_cons; [|by apply Hacc].
  apply (f_equal code) in Hq. unfold quote in Hq. rewrite !code_chr in Hq by lia. lia.
Qed.

Lemma nts_clean n : clean (nts n).
Proof.
  unfold nts, Uri.to_dec. pose proof (digits_clean 20 n [] (not_elem_of_nil _)). case_match; [|done].
  intros [Hq|Hq]%elem_of_cons; [done|]. by apply (digits_clean 20 (- n) [] (not_elem_of_nil _)).
Qed.

Lemma nts_nonempty n : nts n <> [].
Proof.
  unfold nts, Uri.to_dec. case_match; [done|]. by destruct (LoaderFacts.dec_digits_head 19 n []) as (d&s&->&_).
Qed.

Lemma lit_clean s : forallb (fun c => negb (bool_decide (c = quote))) (lit s) = true -> clean (lit s).
Proof.
  intros Hs Hq. rewrite forallb_forall in Hs. apply list_elem_of_In in Hq. apply Hs in Hq. by rewrite bool_decide_true in Hq.
Qed.

(** *** Lists *)
Lemma filter_andb {A} (p q : A -> bool) l : List.filter (fun x => p x && q x) l = List.filter q (List.filter p l).
Proof. induction l as [|x l IH]; [done|]. cbn [List.filter]. destruct (p x); cbn [andb List.filter]; by rewrite IH. Qed.

Lemma filter_bind_list {A B} (p : B -> bool) (f : A -> list B) l : List.filter p (l ≫= f) = l ≫= (fun x => List.filter p (f x)).
Proof. induction l as [|x l IH]; [done|]. cbn. by rewrite List.filter_app, IH. Qed.

Lemma bind_if {A B} (q : A -> bool) (f : A -> list B) l : (l ≫= fun x => if q x then f x else []) = List.filter q l ≫= f.
Proof. induction l as [|x l IH]; [done|]. cbn in *. rewrite IH. by destruct (q x). Qed.

Lemma filter_map_comm {A B} (p : B -> bool) (f : A -> B) l : List.filter p (map f l) = map f (List.filter (fun x => p (f x)) l).
Proof. induction l as [|x l IH]; [done|]. cbn. destruct (p (f x)); cbn; by rewrite IH. Qed.

Lemma NoDup_map_filter {A B} (f : A -> B) (q : A -> bool) l : NoDup (map f l) -> NoDup (map f (List.filter q l)).
Proof.
  induction l as [|g l IH]; [done|]. cbn. intros [Hn Hd]%NoDup_cons. destruct (q g); [|auto].
  cbn. apply NoDup_cons. split; [|auto]. contradict Hn. apply list_elem_of_In, in_map_iff in Hn as (x&E&Hx%List.filter_In).
  apply list_elem_of_In, in_map_iff. exists x. tauto.
Qed.

Lemma filter_by_name (l : list (Z * str)) name : NoDup (map snd l) ->
  List.filter (fun g => bool_decide (g.2 = name)) l = match GroupApi.by_name name l with Some g => [g] | None => [] end.
Proof.
  unfold GroupApi.by_name. induction l as [|[i n] l IH]; [done|]. cbn. intros [Hn Hd]%NoDup_cons. case_bool_decide as E; [|auto].
  subst. f_equal. clear IH Hd. induction l as [|[j m] l IH]; [done|]. cbn in *. apply not_elem_of_cons in Hn as [Hm Hn].
  rewrite bool_decide_false by done. auto.
Qed.

Lemma assign_twice {A} (m : smap A) k v w : sm_assign k v (sm_assign k w m) = sm_assign k v m.
Proof.
  induction m as [|[k' v'] m IH]; cbn; [by rewrite keqb_refl|].
  destruct (keqb k k') eqn:E; cbn; [by rewrite E|]. destruct (str_ltb k k') eqn:E2; cbn; [by rewrite keqb_refl|]. by rewrite E, E2, IH.
Qed.

(** *** Rows of groups *)
Definition block (g : Z * str) : list row :=
  map (row3 <<"group">> (nts g.1)) [(<<"name">>, g.2); (<<"hcheck">>, <<"0">>); (<<"algorithm">>, <<"0">>)].
Definition group_row (r : row) : bool := is_live r && is_kind <<"group">> r.
Definition user_row (r : row) : bool := is_kind <<"filter">> r && bool_decide (key3 r = Some <<"group">>).

Lemma named_rows rs l name : List.filter group_row rs = l ≫= block -> NoDup (map snd l) ->
  List.filter (named <<"group">> name) rs
  = match GroupApi.by_name name l with Some g => [row3 <<"group">> (nts g.1) (<<"name">>, g.2)] | None => [] end.
Proof.
  intros E Hd. rewrite (List.filter_ext _ (fun r => group_row r && (bool_decide (key3 r = Some <<"name">>) && bool_decide (value r = name))))
    by (intros r; unfold named, group_row; by rewrite !andb_assoc).
  rewrite filter_andb, E, filter_bind_list.
  transitivity (l ≫= fun g => if bool_decide (g.2 = name) then [row3 <<"group">> (nts g.1) (<<"name">>, g.2)] else []).
  - apply list_bind_ext; [|done]. intros g. unfold block. cbn. by destruct (bool_decide (g.2 = name)).
  - rewrite bind_if, filter_by_name by done. by destruct (GroupApi.by_name name l).
Qed.

Lemma filter_blocks p q l : (forall g, List.filter p (block g) = if q g : bool then block g else []) ->
  List.filter p (l ≫= block) = List.filter q l ≫= block.
Proof. intros Hp. rewrite filter_bind_list, <- bind_if. apply list_bind_ext; [|done]. exact Hp. Qed.

Definition selected (kid : str) (l : list (Z * str)) : list (Z * str) :=
  match kid with [] => l | _ => List.filter (fun g => bool_decide (nts g.1 = kid)) l end.

Lemma id_block kid g : List.filter (fun r => bool_decide (key2 r = Some kid)) (block g) = if bool_decide (nts g.1 = kid) then block g else [].
Proof. unfold block. cbn. by repeat case_bool_decide; simplify_eq. Qed.

Lemma group_rows rs l kid : List.filter group_row rs = l ≫= block -> List.filter (of_group kid) rs = selected kid l ≫= block.
Proof.
  intros E. unfold of_group. change (fun r => is_live r && is_kind <<"group">> r && _) with
    (fun r => group_row r && match kid with [] => true | _ => bool_decide (key2 r = Some kid) end).
  rewrite filter_andb, E. destruct kid as [|c kid]; cbn [selected].
  - clear. induction (l ≫= block) as [|x m IH]; [done|]. cbn. by rewrite IH.
  - apply filter_blocks. apply id_block.
Qed.

Lemma killed_groups rs l kid : List.filter group_row rs = l ≫= block ->
  List.filter group_row (map (kill kid) rs) = List.filter (fun g => negb (bool_decide (nts g.1 = kid))) l ≫= block.
Proof.
  intros E. rewrite <- (filter_blocks (fun r => negb (bool_decide (key2 r = Some kid)))).
  2: { intros g. unfold block. cbn. by repeat case_bool_decide; simplify_eq. }
  rewrite <- E, <- filter_andb. clear E. induction rs as [|r rs IH]; [done|]. cbn [map List.filter]. rewrite IH.
  assert (group_row (kill kid r) = group_row r && negb (bool_decide (key2 r = Some kid))) as ->.
  { unfold kill. case_bool_decide; cbn [negb]; [rewrite andb_false_r; by destruct r|by rewrite andb_true_r]. }
  destruct (group_row r); cbn [andb]; [|done]. unfold kill. by case_bool_decide.
Qed.

Lemma killed_users rs kid : map value (List.filter user_row (map (kill kid) rs)) = map value (List.filter user_row rs).
Proof.
  induction rs as [|r rs IH]; [done|]. cbn. assert (user_row (kill kid r) = user_row r) as -> by (unfold kill; case_bool_decide; by destruct r).
  assert (value (kill kid r) = value r) as Hv by (unfold kill; case_bool_decide; by destruct r). destruct (user_row r); cbn; by rewrite ?Hv, IH.
Qed.

Lemma count_users rs id_ : length (List.filter (uses id_) rs) = length (List.filter (fun v => bool_decide (v = id_)) (map value (List.filter user_row rs))).
Proof. rewrite filter_map_comm, length_map, <- filter_andb. done. Qed.

Lemma users_zero (us : list str) id_ : length (List.filter (fun v => bool_decide (v = id_)) us) = 0%nat <-> id_ ∉ us.
Proof.
  induction us as [|u us IH]; cbn; [split; [intros _; apply not_elem_of_nil|done]|].
  rewrite not_elem_of_cons. case_bool_decide; cbn; [split; [lia|naive_solver]|]. rewrite IH. naive_solver.
Qed.

Lemma listing_rows l : forall out, (forall a d, m_find a out = Some d -> exists n, d = GroupApi.group_dict n) ->
  Loader.rows3 (map triple (l ≫= block)) out = ok (fold_left (fun out g => sm_assign (nts g.1) (GroupApi.group_dict g.2) out) l out).
Proof.
  induction l as [|g l IH]; intros out Hout; [done|]. cbn [mbind list_bind fold_left]. rewrite map_app.
  unfold block at 1. cbn. rewrite !m_find_assign_eq. cbn. rewrite !assign_twice.
  assert (sm_assign <<"algorithm">> <<"0">> (sm_assign <<"hcheck">> <<"0">> (sm_assign <<"name">> g.2 (default [] (m_find (nts g.1) out))))
    = GroupApi.group_dict g.2) as Eg.
  { destruct (m_find (nts g.1) out) as [d|] eqn:Ed; [|reflexivity]. destruct (Hout _ _ Ed) as [n ->]. reflexivity. }
  setoid_rewrite Eg. apply IH. intros a d. rewrite LoaderFacts.find_assign. case_bool_decide; [|apply Hout]. intros [= <-]. eauto.
Qed.
End GroupFacts.

(** ** The handlers refine the list of groups *)
Module GroupHandlers.
Import Convert Json Rest Sql GroupFacts.

#[local] Arguments lit : simpl never.
#[local] Arguments by_name_sql : simpl never.
#[local] Arguments group_count_sql : simpl never.
#[local] Arguments users_sql : simpl never.
#[local] Arguments kill_sql : simpl never.
#[local] Arguments group_rows_sql : simpl never.
#[local] Arguments insert3 : simpl never.
#[local] Arguments nts : simpl never.
#[local] Arguments has : simpl never.
#[local] Arguments text : simpl never.
#[local] Arguments made : simpl never.
#[local] Arguments success : simpl never.
#[local] Arguments GroupApi.failed : simpl never.
#[local] Arguments stn_int : simpl never.
#[local] Arguments Z.ltb : simpl never.
#[local] Arguments Z.add : simpl never.
#[local] Arguments GroupApi.by_name : simpl never.

Section Refinement.
Context {D P : Type} `{Plane P} {CC : Compiler}.
Context (exec : str -> D -> option (list (list (option str))) * D) (newid_ : D -> option Z * D)
  (rows : D -> list row) (next : D -> Z) `{!Sqlite exec newid_ rows next}.
Context (parse_ : str -> option json) (dump : json -> str) (al_get_errmsg : errcode -> str) (error_id : errcode -> Z).
(** A function that runs off its end returns all the same. *)
Context (falls_through : missing_return = ok tt).

Abbreviation api := (@api D P).

(** The table holds the groups of the specification, the last error is the same, and
    the data plane has not been touched. *)
Record stands (p : P) (s : api) (G : GroupApi.groups) : Prop := {
  st_rows : List.filter group_row (rows (db s)) = GroupApi.gs G ≫= block;
  st_users : map value (List.filter user_row (rows (db s))) = GroupApi.users G;
  st_next : next (db s) = GroupApi.g_next G;
  st_errno : errno s = GroupApi.g_errno G;
  st_plane : plane s = p;
  st_names : NoDup (map snd (GroupApi.gs G));
  st_few : Z.of_nat (length (GroupApi.users G)) < 2 ^ 31;
  st_distinct : NoDup (map fst (GroupApi.gs G));
  st_given : Forall (fun g => 0 <= g.1 < GroupApi.g_next G) (GroupApi.gs G);
  st_ids : 0 <= GroupApi.g_next G }.

Definition same {A} (p : P) (x : res A * api) (y : res A * GroupApi.groups) : Prop := x.1 = y.1 /\ stands p x.2 y.2.

(** The texts a request holds are free of apostrophes. *)
Definition plain (t : str) : Prop := forall j k v, parse_ t = Some j -> text k j = ok v -> clean v.

Lemma text_fails k j e : text k j = inl e -> e = Foreign.
Proof. unfold text. repeat case_match; by intros [= <-]. Qed.

Lemma search_group p s G name : stands p s G -> clean name ->
  search_by_name exec <<"group">> name s
  = match GroupApi.by_name name (GroupApi.gs G) with
    | Some g => (ok (nts g.1), s)
    | None => (ok [], s <| errno := AL_OBJECT_EEXIST |>)
    end.
Proof.
  intros HG Hn. destruct s as [d pl e t]. unfold search_by_name, with_db, st_bind, sql_exec. cbn.
  rewrite (sql_by_name _ name d) by (done || by apply lit_clean). rewrite (named_rows _ (GroupApi.gs G)) by apply HG.
  by destruct (GroupApi.by_name name (GroupApi.gs G)) as [g|].
Qed.

Lemma count_of p s G name : stands p s G ->
  length (List.filter (named <<"group">> name) (rows (db s))) = match GroupApi.by_name name (GroupApi.gs G) with Some _ => 1%nat | None => 0%nat end.
Proof. intros HG. rewrite (named_rows _ (GroupApi.gs G)) by apply HG. by destruct (GroupApi.by_name name (GroupApi.gs G)). Qed.

Lemma fresh_name name l : GroupApi.by_name name l = None -> name ∉ map snd l.
Proof.
  unfold GroupApi.by_name. intros E Hin. apply list_elem_of_In, in_map_iff in Hin as (g&<-&Hg).
  apply (List.find_none _ _ E) in Hg. by rewrite bool_decide_true in Hg.
Qed.

Ltac same_rows := split; [done|]; match goal with HG : stands _ _ _ |- _ => destruct HG; by split end.

Lemma group_add_refines p s G args msg : stands p s G -> plain msg -> GroupApi.g_next G < 2 ^ 63 ->
  same p (al_group_add exec newid_ parse_ dump al_get_errmsg error_id args msg s)
    (GroupApi.post parse_ dump al_get_errmsg error_id msg G).
Proof.
  intros HG Hm Hb. destruct s as [d pl e t], G as [l us n e'].
  unfold al_group_add, GroupApi.post, GroupApi.parsed, catching, parse, fail. unfold st_bind at 1 2.
  destruct (parse_ msg) as [j|] eqn:Ej; cbn; [|by split].
  destruct (has <<"name">> j); cbn; [|same_rows].
  unfold with_db, GroupApi.reading, st_bind, get, st_lift. destruct (text <<"name">> j) as [e''|name] eqn:En; cbn.
  { apply text_fails in En as ->. same_rows. }
  unfold sql_exec at 1. cbn. rewrite (sql_count name d) by eauto. unfold count.
  pose proof (count_of p _ _ name HG) as En'. cbn in En'. rewrite En'. clear En'. destruct (GroupApi.by_name name l) as [g|] eqn:Eg; cbn; rewrite stn_int_nts by done; cbn.
  { same_rows. }
  destruct HG as [H1 H2 H3 H4 H5 H6 H7 H8 H9 H10]; cbn in *.
  change (0 <? Z.of_nat 0) with false. unfold newid. cbn. destruct (sql_newid d) as (d1&E1&R1&N1); [by rewrite H3|]. rewrite E1. cbn. rewrite H3 in *.
  rewrite (proj2 (Z.ltb_ge _ _)) by lia. cbn.
  unfold insert_group, run_sql, sql_exec, st_bind. cbn.
  destruct (sql_insert <<"group">> (nts n) [(<<"name">>, name); (<<"hcheck">>, <<"0">>); (<<"algorithm">>, <<"0">>)] d1) as (d2&E2&R2&N2).
  1,2,4: done || apply nts_clean || by apply lit_clean.
  { repeat constructor; cbn; by apply lit_clean || eauto. }
  rewrite E2. cbn.
  split; [done|]. split; cbn; try done.
  - rewrite R2, R1, List.filter_app, H1, bind_app. reflexivity.
  - rewrite R2, R1, List.filter_app, map_app, H2. by rewrite app_nil_r.
  - by rewrite N2, N1.
  - rewrite map_app. apply NoDup_app. split; [done|]. split; [|apply NoDup_singleton].
    intros x Hx ->%list_elem_of_singleton. by apply (fresh_name name l).
  - rewrite map_app. apply NoDup_app. split; [done|]. split; [|apply NoDup_singleton].
    intros x (g&<-&Hg)%list_elem_of_In%in_map_iff En'%list_elem_of_singleton. rewrite List.Forall_forall in H9. specialize (H9 g Hg). cbn in *. lia.
  - apply Forall_app. split; [|repeat constructor; cbn; lia]. eapply Forall_impl; [exact H9|]. cbn. lia.
  - lia.
Qed.

Lemma no_return_ok l : no_return l = ok tt.
Proof. destruct l; [done|exact falls_through]. Qed.

Lemma group_rows_listed p s G kid : stands p s G ->
  Loader.rows3 (map triple (List.filter (of_group kid) (rows (db s)))) [] = ok (GroupApi.listing kid (GroupApi.gs G)).
Proof. intros HG. rewrite (group_rows _ _ kid (st_rows _ _ _ HG)). by apply listing_rows. Qed.

Lemma stands_trans p d pl e t t' G : stands p (mk_api d pl e t) G -> stands p (mk_api d pl e t') G.
Proof. intros []. by split. Qed.

Ltac run_listing HG kid :=
  unfold sql_exec; cbn; rewrite (sql_rows kid) by (apply not_elem_of_nil || eauto); cbn;
  let E := fresh in pose proof (group_rows_listed _ _ _ kid HG) as E; cbn in E; rewrite E; cbn; rewrite no_return_ok; cbn.

Lemma group_get_refines p s G args msg : stands p s G -> plain args ->
  same p (al_group_get exec parse_ dump al_get_errmsg error_id args msg s)
    (GroupApi.get_ parse_ dump al_get_errmsg error_id args G).
Proof.
  intros HG Hm. destruct s as [d pl e t]. pose proof (stands_trans p d pl e t (-1) G HG) as HG'.
  unfold al_group_get, GroupApi.get_, GroupApi.parsed, GroupApi.reading, catching, with_db, parse, get, st_bind, st_lift. cbn.
  destruct (parse_ args) as [j|] eqn:Ej; cbn; [|by split].
  destruct (has <<"id">> j); cbn; [|destruct (has <<"name">> j); cbn].
  - destruct (text <<"id">> j) as [e'|kid] eqn:Ek; cbn; [apply text_fails in Ek as ->; by split|]. run_listing HG kid. by split.
  - destruct (text <<"name">> j) as [e'|name] eqn:Ek; cbn; [apply text_fails in Ek as ->; by split|].
    rewrite (search_group _ _ _ name HG') by eauto. destruct (GroupApi.by_name name (GroupApi.gs G)) as [g|] eqn:Eg; cbn.
    + destruct (nts g.1) as [|c k] eqn:En; [by apply nts_nonempty in En|]. assert (clean (c :: k)) by (rewrite <- En; apply nts_clean). cbn. run_listing HG (c :: k). by split.
    + destruct G; same_rows.
  - run_listing HG (@nil ascii). by split.
Qed.

Lemma users_counted p s G kid : stands p s G ->
  stn_int (nts (Z.of_nat (length (List.filter (uses kid) (rows (db s))))))
  = Z.of_nat (length (List.filter (fun v => bool_decide (v = kid)) (GroupApi.users G))).
Proof.
  intros HG. rewrite count_users, (st_users _ _ _ HG). apply stn_int_nts. pose proof (st_few _ _ _ HG).
  pose proof (List.filter_length_le (fun v => bool_decide (v = kid)) (GroupApi.users G)). lia.
Qed.

Lemma removed p s G kid d : stands p s G -> rows d = map (kill kid) (rows (db s)) -> next d = next (db s) ->
  stands p (s <| db := d |>) (G <| GroupApi.gs := List.filter (fun g => negb (bool_decide (nts g.1 = kid))) (GroupApi.gs G) |>).
Proof.
  destruct s as [d0 pl e t], G as [l us n e']. intros [H1 H2 H3 H4 H5 H6 H7 H8 H9 H10] R N. cbn in *. split; cbn; try done.
  - rewrite R. by apply killed_groups.
  - by rewrite R, killed_users.
  - by rewrite N.
  - by apply NoDup_map_filter.
  - by apply NoDup_map_filter.
  - apply List.Forall_forall. intros g Hg%List.filter_In. rewrite List.Forall_forall in H9. apply H9. tauto.
Qed.

Lemma del_group_refines p d pl e t G kid : stands p (mk_api d pl e t) G -> clean kid ->
  exists s', del_group_byid exec kid (mk_api d pl e t) = (ok (negb (bool_decide (kid ∈ GroupApi.users G))), s') /\
    trans_id s' = t /\ stands p s' (snd (GroupApi.remove dump al_get_errmsg error_id kid G)).
Proof.
  intros HG Hk. unfold del_group_byid, st_bind, sql_exec at 1, GroupApi.remove. cbn. rewrite (sql_users kid d Hk). unfold count, st_lift. cbn.
  pose proof (users_counted p _ _ kid HG) as E. cbn in E. rewrite E, falls_through. cbn. rewrite bool_decide_decide.
  destruct (decide (kid ∈ GroupApi.users G)) as [Hin|Hin]; cbn.
  - rewrite (proj2 (Z.eqb_neq _ _)) by (intros E0; apply (users_zero (GroupApi.users G) kid); [lia|done]). cbn.
    eexists. split; [done|]. split; [done|]. destruct G, HG; by split.
  - apply users_zero in Hin. rewrite Hin. change (Z.of_nat 0 =? 0) with true. unfold run_sql, st_bind, sql_exec. cbn.
    destruct (sql_kill kid d Hk) as (d'&E'&R&N). rewrite E'. cbn. eexists. split; [done|]. split; [done|].
    by apply (removed p (mk_api d pl e t)).
Qed.

Lemma group_deleted p d pl e t G kid : stands p (mk_api d pl e t) G -> clean kid ->
  same p
    (st_bind (catching false
       (with_db exec
         (do _ <- begin_ (-1) ;;
          do done <- del_group_byid exec kid ;;
          if negb done then st_ret (End (-1)) else
          do _ <- commit ;;
          st_ret (Done (make_success_text dump []))))) (finish dump al_get_errmsg error_id) (mk_api d pl e t))
    (GroupApi.remove dump al_get_errmsg error_id kid G).
Proof.
  intros HG Hk. unfold catching, with_db, st_bind. cbn. destruct (del_group_refines p d pl e (-1) G kid) as ([d' pl' e' t']&E&Et&HS); [|done|].
  { by eapply stands_trans. }
  rewrite E. cbn in *. subst t'. unfold GroupApi.remove in *. rewrite bool_decide_decide.
  destruct (decide (kid ∈ GroupApi.users G)); cbn in *; (split; [|by eapply stands_trans]); cbn; [|done].
  pose proof (st_errno _ _ _ HS) as He. destruct G. cbn in He. by subst.
Qed.

Lemma group_del_refines p s G args msg : stands p s G -> plain args ->
  same p (al_group_del exec parse_ dump al_get_errmsg error_id args msg s)
    (GroupApi.del parse_ dump al_get_errmsg error_id args G).
Proof.
  intros HG Hm. destruct s as [d pl e t].
  unfold al_group_del, GroupApi.del, GroupApi.parsed, GroupApi.reading, catching, parse, get. unfold st_bind at 1 2, st_lift at 1. cbn.
  destruct (parse_ args) as [j|] eqn:Ej; cbn; [|by split].
  destruct (has <<"id">> j); cbn; [|destruct (has <<"name">> j); cbn; [|destruct G; same_rows]].
  - destruct (text <<"id">> j) as [e'|kid] eqn:Ek; cbn; [apply text_fails in Ek as ->; by split|]. apply group_deleted; eauto.
  - destruct (text <<"name">> j) as [e'|name] eqn:Ek; cbn; [apply text_fails in Ek as ->; by split|].
    unfold st_bind at 1. rewrite (search_group _ _ _ name HG) by eauto.
    destruct (GroupApi.by_name name (GroupApi.gs G)) as [g|] eqn:Eg; cbn; [|destruct G; same_rows].
    destruct (nts g.1) as [|c k] eqn:En; [by apply nts_nonempty in En|]. assert (clean (c :: k)) by (rewrite <- En; apply nts_clean).
    by apply group_deleted.
Qed.

Definition handle (r : GroupApi.request) : st api (Z * str) :=
  match r with
  | GroupApi.Post args msg => al_group_add exec newid_ parse_ dump al_get_errmsg error_id args msg
  | GroupApi.Get args msg => al_group_get exec parse_ dump al_get_errmsg error_id args msg
  | GroupApi.Delete args msg => al_group_del exec parse_ dump al_get_errmsg error_id args msg
  end.

Lemma handle_refines p s G r : stands p s G -> plain (GroupApi.asked r) -> GroupApi.g_next G < 2 ^ 63 ->
  same p (handle r s) (GroupApi.handle parse_ dump al_get_errmsg error_id r G).
Proof. destruct r; cbn; auto using group_add_refines, group_get_refines, group_del_refines. Qed.

Lemma handle_next r G : GroupApi.g_next (snd (GroupApi.handle parse_ dump al_get_errmsg error_id r G)) <= GroupApi.g_next G + 1.
Proof.
  destruct G as [l us n e]. destruct r; cbn; unfold GroupApi.post, GroupApi.get_, GroupApi.del, GroupApi.parsed, GroupApi.reading, GroupApi.remove, st_bind, st_lift; cbn;
    repeat (case_match; cbn); lia || (simplify_eq; cbn; lia).
Qed.

Lemma serve_refines p rs : forall s G, stands p s G -> Forall (fun r => plain (GroupApi.asked r)) rs ->
  GroupApi.g_next G + Z.of_nat (length rs) <= 2 ^ 63 ->
  let '(out, s') := GroupApi.serve handle rs s in
  let '(out', G') := GroupApi.serve (GroupApi.handle parse_ dump al_get_errmsg error_id) rs G in
  out = out' /\ stands p s' G'.
Proof.
  induction rs as [|r rs IH]; intros s G HG HF Hb; cbn [GroupApi.serve]; [done|]. inversion_clear HF as [|? ? Hr HF'].
  cbn [length] in Hb. destruct (handle_refines p s G r HG Hr ltac:(lia)) as [E HS]. pose proof (handle_next r G) as Hn.
  destruct (handle r s) as [x s1], (GroupApi.handle _ _ _ _ r G) as [y G1]. cbn in *. subst y.
  specialize (IH s1 G1 HS HF' ltac:(lia)).
  destruct (GroupApi.serve handle rs s1), (GroupApi.serve _ rs G1). destruct IH as [-> ?]. done.
Qed.

(** The loader of the data plane finds what the handlers stored. *)
Lemma loaded_rows l : forall out, l <> [] \/ m_find <<"algorithm">> out = Some <<"0">> ->
  exists out', Loader.rows2 (map (fun r => [key3 r; Some (value r)]) (l ≫= block)) out = ok out' /\ m_find <<"algorithm">> out' = Some <<"0">>.
Proof.
  induction l as [|g l IH]; intros out Ho; [exists out; by destruct Ho|]. cbn [mbind list_bind]. rewrite map_app. unfold block at 1. cbn.
  apply IH. right. apply m_find_assign_eq.
Qed.

Lemma selected_nonempty g l : g ∈ l -> selected (nts g.1) l <> [].
Proof.
  intros Hg%list_elem_of_In E. unfold selected in E. destruct (nts g.1) as [|c k] eqn:En; [by apply nts_nonempty in En|].
  assert (Hin : In g (List.filter (fun g' => bool_decide (nts g'.1 = c :: k)) l)) by (apply List.filter_In; by rewrite bool_decide_true).
  rewrite E in Hin. by apply in_nil in Hin.
Qed.

Lemma stored_group_loads p s G g : stands p s G -> g ∈ GroupApi.gs G ->
  Loader.al_api_group_exist (fun q => fst (exec q (db s))) g.1 = ok (Some 0).
Proof.
  intros HG Hg. unfold Loader.al_api_group_exist, Loader.query2. rewrite sql_load. cbn.
  rewrite (group_rows _ _ _ (st_rows _ _ _ HG)).
  destruct (loaded_rows (selected (nts g.1) (GroupApi.gs G)) []) as (out&->&E); [left; by apply selected_nonempty|].
  cbn. unfold at_. by rewrite E.
Qed.

End Refinement.
End GroupHandlers.

(** ** A database for these statements

    A table and a sequence that satisfy the laws: a statement is taken apart at its
    apostrophes. *)
Module GroupExample.
Import Convert Json Rest Sql GroupFacts.

Fixpoint pieces (cur : str) (q : str) : list str :=
  match q with
  | [] => [List.rev cur]
  | c :: q => if bool_decide (c = quote) then List.rev cur :: pieces [] q else pieces (c :: cur) q
  end.

Lemma pieces_clean k : forall rest cur, clean k -> pieces cur (k ++ rest) = pieces (List.rev k ++ cur) rest.
Proof.
  induction k as [|c k IH]; intros rest cur Hk; [done|]. apply not_elem_of_cons in Hk as [Hc Hk]. cbn.
  rewrite bool_decide_false by done. rewrite IH by done. by rewrite <- app_assoc.
Qed.

Fixpoint quoted (l : list str) : str := match l with [] => [] | [x] => x | x :: l => x ++ quote :: quoted l end.

Lemma pieces_quoted l : l <> [] -> Forall clean l -> pieces [] (quoted l) = l.
Proof.
  induction l as [|x [|y l] IH]; intros Hne HF; [done| |]; inversion_clear HF as [|? ? Hx HF'].
  - cbn [quoted]. rewrite <- (app_nil_r x) at 1. rewrite pieces_clean by done. cbn. by rewrite app_nil_r, List.rev_involutive.
  - cbn [quoted]. rewrite pieces_clean by done. cbn [pieces]. rewrite bool_decide_true by done. rewrite app_nil_r, List.rev_involutive.
    f_equal. by apply IH.
Qed.

Fixpoint inserted (l : list str) : list row :=
  match l with
  | kind :: _ :: id_ :: _ :: k :: _ :: v :: _ :: l => row3 kind id_ (k, v) :: inserted l
  | _ => []
  end.

Definition arg (l : list str) (n : nat) : str := nth n l [].

Definition exec (q : str) (d : list row * Z) : option (list (list (option str))) * (list row * Z) :=
  let l := pieces [] q in
  let is_ s := bool_decide (arg l 0 = s) in
  let select f p := (Some (map f (List.filter p (fst d))), d) in
  if is_ <<"SELECT key2 FROM aware where is_live=1 and key1 = ">> then select (fun r => [key2 r]) (named (arg l 1) (arg l 5))
  else if is_ <<"SELECT count(*) FROM aware where is_live=">> then (Some (count (named <<"group">> (arg l 7)) (fst d)), d)
  else if is_ <<"select count(*) from aware where key1=">> then (Some (count (uses (arg l 5)) (fst d)), d)
  else if is_ <<"SELECT key2, key3, value  FROM aware where key1=">> then select triple (of_group [])
  else if is_ <<"SELECT key2, key3, value  FROM aware where is_live=">> then select triple (of_group (arg l 5))
  else if is_ <<"SELECT key3, value FROM aware where key1=">> then select (fun r => [key3 r; Some (value r)]) (of_group (arg l 3))
  else if is_ <<"update aware set is_live = 0 where key2= ">> then (Some [], (map (kill (arg l 1)) (fst d), snd d))
  else if is_ <<"delete from aware where key2=">> then
    (Some [], (List.filter (fun r => negb (bool_decide (key2 r = Some (arg l 1)))) (fst d), snd d))
  else if is_ <<"insert into aware(key1, key2, key3, value) values ( ">> then (Some [], (fst d ++ inserted (tail l), snd d))
  else (None, d).
Definition newid_ (d : list row * Z) : option Z * (list row * Z) := (Some (snd d), (fst d, snd d + 1)).

Ltac clean_all := repeat (apply Forall_cons_2; [first [assumption | by apply lit_clean | apply not_elem_of_nil | apply nts_clean]|]); try apply Forall_nil_2.
Ltac taken_apart l := match goal with |- context [pieces [] ?q] => change q with (quoted l); rewrite (pieces_quoted l) by (done || clean_all) end.

Fixpoint fields (kind id_ : str) (kvs : list (str * str)) : list str :=
  match kvs with
  | [] => []
  | kv :: kvs => kind :: <<", ">> :: id_ :: <<", ">> :: kv.1 :: <<", ">> :: kv.2 :: match kvs with [] => [<<")">>] | _ => <<"),( ">> :: fields kind id_ kvs end
  end.

Lemma quoted_value3 kind id_ k v l : value3 kind id_ k v ++ l = <<"( ">> ++ quote :: quoted [kind; <<", ">>; id_; <<", ">>; k; <<", ">>; v; <<")">> ++ l].
Proof. unfold value3. by rewrite <- !app_assoc. Qed.

Lemma quoted_rows kind id_ kvs : kvs <> [] ->
  joined (map (fun kv => value3 kind id_ kv.1 kv.2) kvs) = <<"( ">> ++ quote :: quoted (fields kind id_ kvs).
Proof.
  induction kvs as [|kv [|kv' kvs] IH]; intros Hne; [done| |].
  - cbn [map joined]. rewrite <- (app_nil_r (value3 _ _ _ _)), quoted_value3. reflexivity.
  - transitivity (value3 kind id_ kv.1 kv.2 ++ <<",">> ++ joined (map (fun kv => value3 kind id_ kv.1 kv.2) (kv' :: kvs))); [reflexivity|].
    rewrite IH, quoted_value3 by done. reflexivity.
Qed.

Lemma fields_clean kind id_ kvs : clean kind -> clean id_ -> Forall (fun kv => clean kv.1 /\ clean kv.2) kvs -> Forall clean (fields kind id_ kvs).
Proof.
  intros Hk Hi. induction 1 as [|kv [|kv' kvs] [H1 H2] _ IH]; [done|cbn [fields]; clean_all|].
  change (Forall clean ([kind; <<", ">>; id_; <<", ">>; kv.1; <<", ">>; kv.2; <<"),( ">>] ++ fields kind id_ (kv' :: kvs))).
  apply Forall_app. split; [clean_all|exact IH].
Qed.

Lemma inserted_fields kind id_ kvs : inserted (fields kind id_ kvs) = map (row3 kind id_) kvs.
Proof.
  induction kvs as [|kv [|kv' kvs] IH]; [done|by destruct kv|].
  change (row3 kind id_ (kv.1, kv.2) :: inserted (fields kind id_ (kv' :: kvs)) = row3 kind id_ kv :: map (row3 kind id_) (kv' :: kvs)).
  rewrite IH. by destruct kv.
Qed.

#[export] Instance example_sqlite : Sqlite exec newid_ fst snd.
Proof.
  split.
  - intros kind name d Hk Hn. unfold exec.
    by taken_apart [<<"SELECT key2 FROM aware where is_live=1 and key1 = ">>; kind; <<" and key3=">>; <<"name">>; <<" and value=">>; name; []].
  - intros name d Hn. unfold exec.
    by taken_apart [<<"SELECT count(*) FROM aware where is_live=">>; <<"1">>; <<" and key1 = ">>; <<"group">>; <<" and key3=">>; <<"name">>; <<" and value=">>; name; []].
  - intros id_ d Hi. unfold exec.
    by taken_apart [<<"select count(*) from aware where key1=">>; <<"filter">>; <<" and key3=">>; <<"group">>; <<" and value=">>; id_; []].
  - intros [|c kid] d Hk; unfold exec; cbn [group_rows_sql].
    + by taken_apart [<<"SELECT key2, key3, value  FROM aware where key1=">>; <<"group">>; <<" and is_live=">>; <<"1">>; []].
    + by taken_apart [<<"SELECT key2, key3, value  FROM aware where is_live=">>; <<"1">>; <<" and key1=">>; <<"group">>; <<"  and key2=">>; c :: kid; []].
  - intros gid d. unfold exec.
    by taken_apart [<<"SELECT key3, value FROM aware where key1=">>; <<"group">>; <<" and is_live = 1 and key2=">>; nts gid; []].
  - intros id_ d Hi. unfold exec. taken_apart [<<"update aware set is_live = 0 where key2= ">>; id_; []]. by eexists.
  - intros kind id_ kvs d Hk Hi HF Hne. unfold exec, insert3. rewrite quoted_rows by done.
    assert (HC : Forall clean (<<"insert into aware(key1, key2, key3, value) values ( ">> :: fields kind id_ kvs)).
    { apply Forall_cons_2; [by apply lit_clean|by apply fields_clean]. }
    match goal with |- context [pieces [] ?q] => replace q with (quoted (<<"insert into aware(key1, key2, key3, value) values ( ">> :: fields kind id_ kvs)) by (by destruct kvs) end.
    rewrite pieces_quoted by done. eexists. split; [reflexivity|]. cbn [fst snd tail]. by rewrite inserted_fields.
  - intros t sql d E. unfold Db.rollback_sql in E. case_match; [done|]. injection E as <-. unfold exec.
    taken_apart [<<"delete from aware where key2=">>; nts (signed 32 (wrap 32 t)); []]. by eexists.
  - intros d Hd. by eexists.
Qed.

(** A client: a text is a name, one that starts with a colon an identifier. *)
Definition parse_ (t : str) : option json :=
  match t with
  | [] => Some (JObj [])
  | c :: id_ => if bool_decide (c = ":"%char) then Some (JObj [(<<"id">>, JStr id_)]) else Some (JObj [(<<"name">>, JStr t)])
  end.
Fixpoint dump (j : json) : str :=
  match j with
  | JStr s => s
  | JObj m => concat (map (fun kv => kv.1 ++ <<" ">> ++ dump kv.2 ++ <<";">>) m)
  | JArr l => concat (map dump l)
  | _ => []
  end.
Definition al_get_errmsg (e : errcode) : str :=
  match e with AL_OBJECT_EXIST => <<"exists">> | AL_OBJECT_EEXIST => <<"unknown">> | AL_RESOURCE_BUSY => <<"busy">> | _ => <<"error">> end.
#[export] Instance no_plane : Plane unit :=
  Build_Plane unit (fun _ _ _ => st_ret 0) (fun _ _ _ => st_ret 0) (fun _ => st_ret 0) (fun _ => st_ret 0) (fun _ _ _ _ _ _ _ => st_ret 0)
    (fun _ _ _ _ => st_ret 0) (fun _ _ _ _ => st_ret 0) (fun _ _ _ => st_ret 0) (fun _ _ _ => st_ret 0) (fun _ => st_ret 0)
    (fun _ _ _ _ _ _ => st_ret 0) (fun _ _ _ => st_ret 0).
#[export] Instance returns : Compiler := Build_Compiler (ok tt) ok.

Definition start : @api (list row * Z) unit := mk_api ([mk_row <<"filter">> (Some <<"1">>) (Some <<"group">>) <<"3">> true], 2) tt (Untouched 0) (-1).
Definition start_spec : GroupApi.groups := GroupApi.mk_groups [] [<<"3">>] 2 (Untouched 0).
Definition client : list GroupApi.request :=
  [GroupApi.Post [] <<"web">>; GroupApi.Post [] <<"mail">>; GroupApi.Post [] <<"web">>; GroupApi.Get [] []; GroupApi.Delete <<"web">> [];
   GroupApi.Delete <<":3">> []; GroupApi.Get <<"web">> []; GroupApi.Get [] []].

Lemma start_stands : GroupHandlers.stands fst snd tt start start_spec.
Proof. split; try reflexivity; try apply NoDup_nil_2; try constructor; cbn; lia. Qed.

Lemma plain_text t : clean t -> GroupHandlers.plain parse_ t.
Proof.
  intros Ht j k v. unfold parse_. destruct t as [|c t]; [intros [= <-]; by unfold text, find|].
  case_bool_decide; intros [= <-]; unfold text, find, ok; cbn [m_find]; destruct (keqb k _); intros E; simplify_eq; [|done].
  intros Hq. apply Ht. by apply list_elem_of_further.
Qed.

Example client_answers :
  map (fun x => match x with inr (rc, t) => (rc, string_of_list_ascii t) | _ => (-99, EmptyString) end)
    (fst (GroupApi.serve (GroupHandlers.handle exec newid_ parse_ dump al_get_errmsg (fun _ => 0)) client start))
  = [(0, "data message group_id 2;;;status success;"); (0, "data message group_id 3;;;status success;");
     (-1, "data extra ;message exists;;error-id ;status failed;");
     (0, "data message 2 algorithm 0;hcheck 0;name web;;3 algorithm 0;hcheck 0;name mail;;;;status success;");
     (0, "data message ;;status success;"); (-1, "data extra ;message busy;;error-id ;status failed;");
     (-1, "data extra ;message unknown;;error-id ;status failed;");
     (0, "data message 3 algorithm 0;hcheck 0;name mail;;;;status success;")]%string.
Proof. vm_compute. reflexivity. Qed.

End GroupExample.
