(* ===== verification/RestFilters.v ===== *)
(** * Filters over REST

    Creating a filter changes the database and the table of the data plane. The
    handler of [rest/al_filter.h] does both or leaves the database as it was: the
    rows of a filter that the data plane refuses, or that turns out to be
    incomplete, are taken back by the destructor of the [al_db] object. *)

From Stdlib Require Import ZArith Lia Bool Ascii String.
From stdpp Require Import base tactics option gmap list.
From S2P Require Import Prelude StdMap Uri Prefix Filter Loader Rest RestGroups.

Open Scope Z_scope.

Module FilterHandlers.
Import Convert Json Rest Sql GroupFacts.

#[local] Arguments lit : simpl never.
#[local] Arguments by_name_sql : simpl never.
#[local] Arguments insert3 : simpl never.
#[local] Arguments nts : simpl never.
#[local] Arguments has : simpl never.
#[local] Arguments text : simpl never.
#[local] Arguments Z.ltb : simpl never.
#[local] Arguments Z.add : simpl never.

(** ** Outcomes of handlers, exceptions included *)
Definition ends {S A} (c : st S A) (s : S) (Q : res A -> S -> Prop) : Prop := Q (fst (c s)) (snd (c s)).

Lemma ends_bind {S A B} (c : st S A) (f : A -> st S B) s Q :
  ends c s (fun r s' => match r with inl e => Q (inl e) s' | inr a => ends (f a) s' Q end) -> ends (st_bind c f) s Q.
Proof. unfold ends, st_bind. by destruct (c s) as [[e|a] s']. Qed.
Lemma ends_ret {S A} (a : A) (s : S) (Q : res A -> S -> Prop) : Q (inr a) s -> ends (st_ret a) s Q.
Proof. done. Qed.
Lemma ends_conseq {S A} (c : st S A) s (Q Q' : res A -> S -> Prop) : ends c s Q -> (forall r s', Q r s' -> Q' r s') -> ends c s Q'.
Proof. unfold ends. auto. Qed.

Section Atomic.
Context {D P : Type} `{Plane P} {CC : Compiler}.
Context (exec : str -> D -> option (list (list (option str))) * D) (newid_ : D -> option Z * D)
  (rows : D -> list row) (next : D -> Z) `{!Sqlite exec newid_ rows next}.
Context (parse_ : str -> option json) (dump : json -> str) (al_get_errmsg : errcode -> str) (error_id : errcode -> Z).
Context (inet_pton : bool -> str -> option (list Z)) (mask0 : list Z).

Abbreviation api := (@api D P).

Lemma ends_get (k : str) (j : json) (s : api) Q : Q (inl Foreign) s -> (forall v, text k j = ok v -> Q (inr v) s) -> ends (get k j) s Q.
Proof. intros H1 H2. unfold ends, get, st_lift. cbn. destruct (text k j) as [e|v] eqn:E; [|auto]. by rewrite (GroupHandlers.text_fails _ _ _ E). Qed.

(** What the destructor of the [al_db] object leaves. *)
Definition closed (s : api) : api :=
  match Db.rollback_sql (trans_id s) with None => s | Some sql => s <| db := snd (exec sql (db s)) |> end.

Lemma ends_with_db {A} (c : st api A) s Q :
  ends c (s <| trans_id := -1 |>) (fun r s' => r <> inl Undef /\ Q r ((closed s') <| trans_id := trans_id s |>)) -> ends (with_db exec c) s Q.
Proof.
  unfold ends, with_db, closed. destruct (c _) as [r s']. cbn. intros [Hr HQ]. destruct r as [[]|]; first [by destruct Hr | exact HQ].
Qed.

(** A pointer into memory that was freed still reads what was there, the columns
    of the table that are never null are not, algorithms are numbers, and the data
    plane's insertion is defined. *)
Context (undisturbed : forall b, dead_temporary b = ok b) (inserts : forall f p, fst (p_filter_insert f p) <> inl Undef).
Definition sound (l : list row) : Prop :=
  Forall (fun r => is_Some (key2 r) /\ is_Some (key3 r) /\ (key3 r = Some <<"algorithm">> -> is_ok (stn8 (value r)) = true)) l.

(** *** Reading the tables *)
Lemma firsts_key2 l : sound l -> exists out, firsts (map (fun r => [key2 r]) l) = ok out.
Proof.
  induction 1 as [|r l ([k Ek]&_) _ [out IH]]; cbn; [by eexists|]. rewrite Ek. cbn. rewrite IH. cbn. by eexists.
Qed.

Lemma sound_filter p l : sound l -> sound (List.filter p l).
Proof. intros Hl. apply List.Forall_forall. intros r [Hr _]%List.filter_In. by apply (proj1 (List.Forall_forall _ _) Hl). Qed.

Definition algorithm_ok (out : dict) : Prop := is_ok (stn8 (at_ out <<"algorithm">>)) = true.

Lemma rows2_ok l : sound l -> forall out, algorithm_ok out ->
  exists out', Loader.rows2 (map (fun r => [key3 r; Some (value r)]) l) out = ok out' /\ algorithm_ok out'.
Proof.
  induction 1 as [|r l (_&[k Ek]&Ha) _ IH]; intros out Ho; cbn; [by eexists|]. rewrite Ek. cbn. apply IH. unfold algorithm_ok, at_ in *.
  rewrite LoaderFacts.find_assign. case_bool_decide; [|done]. cbn. apply Ha. by rewrite Ek; subst.
Qed.

Lemma group_exist_ok gid d : sound (rows d) -> exists o, Loader.al_api_group_exist (fun q => fst (exec q d)) gid = ok o.
Proof.
  intros Hs. unfold Loader.al_api_group_exist, Loader.query2. rewrite sql_load. cbn.
  destruct (rows2_ok (List.filter (of_group (nts gid)) (rows d)) (sound_filter _ _ Hs) [] eq_refl) as (out&->&Ho). cbn.
  unfold algorithm_ok in Ho. destruct (stn8 _); [done|]. by eexists.
Qed.

Lemma search_filter name (s : api) : clean name -> sound (rows (db s)) ->
  exists id_ e, search_by_name exec <<"filter">> name s = (ok id_, s <| errno := e |>).
Proof.
  intros Hn Hs. destruct s as [d pl e t]. cbn in Hs. unfold search_by_name, with_db, st_bind, sql_exec. cbn.
  rewrite (sql_by_name _ name d) by (done || by apply lit_clean). cbn. unfold st_lift.
  destruct (firsts_key2 _ (sound_filter (named <<"filter">> name) _ Hs)) as (out&->). cbn.
  destruct out as [|x [|y out]]; by eexists _, _.
Qed.

(** *** The outcome of the handler *)

(** The rows of a new filter, and what they say when they are read back. *)
Definition stored (s s' : api) (m : str) : Prop :=
  exists f kvs out, m = made dump <<"filter_id">> (nts16 (next (db s)))
    /\ p_filter_insert f (plane s) = (ok 0, plane s') /\ Filter.id f = next (db s)
    /\ rows (db s') = rows (db s) ++ map (row3 <<"filter">> (nts (next (db s)))) kvs
    /\ Loader.rows2 (map (fun kv => [Some kv.1; Some kv.2]) kvs) [] = ok out
    /\ filter_record inet_pton (nts (next (db s))) out
       = ok (match m_find <<"address_mask">> out with
             | Some _ => f
             | None => f <| Filter.f_mask := repeat 0 (if Filter.iptype f =? Prefix.AF_INET6 then 16%nat else 4%nat) |>
             end).
Definition kept (s s' : api) : Prop := rows (db s') = rows (db s).

(** The same of the body of the handler, which [catching] and [finish] follow. *)
Definition settled (s : api) (r : res exit_) (s' : api) : Prop :=
  match r with
  | inl e => e <> Undef /\ kept s s'
  | inr (End rc) => rc = -1 /\ kept s s'
  | inr (Done m) => stored s s' m
  | inr (Ret _) => False
  end.

Lemma settled_answer s (c : st api exit_) : ends c s (settled s) ->
  ends (st_bind (catching true c) (finish dump al_get_errmsg error_id)) s (fun r s' =>
    match r with inl _ => False | inr (rc, m) => (rc = 0 /\ stored s s' m) \/ (rc = -1 /\ kept s s') end).
Proof.
  unfold ends, st_bind, catching. destruct (c s) as [[e|[rc|m|rc]] s'] eqn:E; cbn.
  - intros [He Hk]. assert (caught true e = true) as -> by (by destruct e). cbn. right. split; [done|]. by destruct s'.
  - intros [-> Hk]. cbn. by right.
  - intros Hs. by left.
  - done.
Qed.

(** Before and after the rows are inserted. *)
Definition before (s s' : api) : Prop :=
  plane s' = plane s /\ rows (db s') = rows (db s) /\ (trans_id s' = -1 \/ trans_id s' = next (db s)).
Definition after_ (kvs : list (str * str)) (s s' : api) : Prop :=
  plane s' = plane s /\ rows (db s') = rows (db s) ++ map (row3 <<"filter">> (nts (next (db s)))) kvs /\ trans_id s' = next (db s).

Definition fresh (s : api) : Prop := Forall (fun r => key2 r <> Some (nts (next (db s)))) (rows (db s)) /\ 0 <= next (db s) < 2 ^ 31.

Lemma fresh_kept l id_ : Forall (fun r => key2 r <> Some id_) l -> List.filter (fun r => negb (bool_decide (key2 r = Some id_))) l = l.
Proof. induction 1 as [|r l Hr _ IH]; [done|]. cbn. rewrite bool_decide_false by done. cbn. by rewrite IH. Qed.

Lemma new_gone kind id_ kvs : List.filter (fun r => negb (bool_decide (key2 r = Some id_))) (map (row3 kind id_) kvs) = [].
Proof. induction kvs as [|kv kvs IH]; [done|]. cbn. by rewrite bool_decide_true. Qed.

Lemma rolled_back (s s' : api) : fresh s -> trans_id s' = next (db s) ->
  rows (db (closed s')) = List.filter (fun r => negb (bool_decide (key2 r = Some (nts (next (db s)))))) (rows (db s')).
Proof.
  intros [_ Hb] Ht. unfold closed. destruct (Db.rollback_sql (trans_id s')) as [sql|] eqn:E.
  - destruct (sql_delete _ _ (db s') E) as (d'&E'&R&_). rewrite E'. destruct s'. cbn in *. rewrite R, Ht. do 4 f_equal.
    unfold signed, wrap. rewrite !(Z.mod_small _ (2 ^ 32)) by (rewrite ?Z.mod_small; lia). by rewrite (proj2 (Z.ltb_lt _ _)) by lia.
  - unfold Db.rollback_sql in E. rewrite Ht, (proj2 (Z.eqb_neq _ _)) in E by lia. done.
Qed.

Lemma before_kept s s' t : fresh s -> before s s' -> kept s ((closed s') <| trans_id := t |>).
Proof.
  intros Hf (_&R&Ht). assert (Hr : rows (db (closed s')) = rows (db s)).
  { destruct Ht as [Ht|Ht]; [unfold closed; by rewrite Ht|]. rewrite (rolled_back s s' Hf Ht), R. by apply fresh_kept, Hf. }
  unfold kept. by destruct (closed s').
Qed.

Lemma after_kept kvs s s' t : fresh s -> after_ kvs s s' -> kept s ((closed s') <| trans_id := t |>).
Proof.
  intros Hf (_&R&Ht). assert (Hr : rows (db (closed s')) = rows (db s)).
  { rewrite (rolled_back s s' Hf Ht), R, List.filter_app, new_gone, app_nil_r. by apply fresh_kept, Hf. }
  unfold kept. by destruct (closed s').
Qed.

Lemma ends_newid (s : api) Q : next (db s) < 2 ^ 63 ->
  (forall d', rows d' = rows (db s) -> Q (inr (next (db s))) (s <| db := d' |>)) -> ends (newid newid_) s Q.
Proof. intros Hn HQ. unfold ends, newid. destruct (sql_newid (db s) Hn) as (d'&->&R&_). by apply HQ. Qed.

Lemma ends_insert kind id_ kvs (s : api) Q : clean kind -> clean id_ -> Forall (fun kv => clean kv.1 /\ clean kv.2) kvs -> kvs <> [] ->
  (forall d', rows d' = rows (db s) ++ map (row3 kind id_) kvs -> Q (inr true) (s <| db := d' |>)) ->
  ends (run_sql exec (insert3 kind id_ kvs)) s Q.
Proof.
  intros Hk Hi HF Hne HQ. unfold ends, run_sql, st_bind, sql_exec. destruct (sql_insert kind id_ kvs (db s) Hk Hi HF Hne) as (d'&->&R&_).
  by apply HQ.
Qed.

Ltac step :=
  match goal with
  | |- ends (st_bind _ _) _ _ => apply ends_bind
  | |- ends (get _ _) _ _ => apply ends_get; [|intros ? ?]
  | |- ends (st_ret _) _ _ => apply ends_ret
  end.
(** Leaving before the rows are inserted. *)
Ltac leaves Hf := (split; [done|]); (split; [done|]); apply before_kept; [exact Hf|]; (split; [done|]); split; cbn; [done|tauto].

(** What has been read of the request. *)
Record checked (j : json) (v6 : bool) (addr mask_ : list Z) (port ft proto : Z) : Prop := {
  ck_clean k v : text k j = ok v -> clean v;
  ck_iptype : text <<"iptype">> j = ok (if v6 then <<"ipv6">> else <<"ipv4">>);
  ck_address : exists a, text <<"address">> j = ok a /\ inet_pton v6 a = Some addr;
  ck_mask : has <<"address_mask">> j = true -> exists m, text <<"address_mask">> j = ok m /\ inet_pton v6 m = Some mask_;
  ck_port : exists p, text <<"port">> j = ok p /\ port = stn 16 p;
  ck_type : exists t, text <<"filter_type">> j = ok t /\ ft = Filter.al_filter_type t;
  ck_proto : exists p, text <<"proto">> j = ok p
    /\ proto = (if bool_decide (p = <<"tcp">>) then 6 else if bool_decide (p = <<"udp">>) then 17 else 0) }.

(** *** The rows of a filter *)
Definition filter_kvs (iptype port address name type group proto : str) (nx mk : option str) : list (str * str) :=
  [(<<"iptype">>, iptype); (<<"port">>, port); (<<"address">>, address); (<<"name">>, name);
   (<<"filter_type">>, type); (<<"group">>, group); (<<"proto">>, proto)]
  ++ match nx with Some n => [(<<"next_filter">>, n)] | None => [] end ++ match mk with Some m => [(<<"address_mask">>, m)] | None => [] end.

Lemma filter_kvs_read iptype port address name type group proto nx mk :
  exists out, Loader.rows2 (map (fun kv => [Some kv.1; Some kv.2]) (filter_kvs iptype port address name type group proto nx mk)) [] = ok out
    /\ (at_ out <<"iptype">> = iptype /\ at_ out <<"port">> = port /\ at_ out <<"address">> = address)
    /\ (at_ out <<"filter_type">> = type /\ at_ out <<"group">> = group /\ at_ out <<"proto">> = proto) /\ m_find <<"address_mask">> out = mk.
Proof. destruct nx, mk; (eexists; split; [reflexivity|]); by repeat split. Qed.

Lemma filter_kvs_clean j iptype port_ address name type group proto_ nx mk :
  (forall k v, text k j = ok v -> clean v) ->
  text <<"iptype">> j = ok iptype -> text <<"port">> j = ok port_ -> text <<"address">> j = ok address -> text <<"name">> j = ok name ->
  text <<"filter_type">> j = ok type -> text <<"group">> j = ok group -> text <<"proto">> j = ok proto_ ->
  match nx with Some n => clean n | None => True end -> match mk with Some m => text <<"address_mask">> j = ok m | None => True end ->
  Forall (fun kv => clean kv.1 /\ clean kv.2) (filter_kvs iptype port_ address name type group proto_ nx mk).
Proof.
  intros Hc H1 H2 H3 H4 H5 H6 H7 Hn Hm. apply Forall_app. split; [|apply Forall_app; split; [destruct nx|destruct mk]];
    repeat (apply Forall_cons_2; [split; cbn; [by apply lit_clean|eauto]|]); apply Forall_nil_2.
Qed.

Lemma filter_read_back j v6 addr mask_ port ft proto iptype port_ address name type group proto_ nx mk vid :
  checked j v6 addr mask_ port ft proto -> 0 <= vid < 2 ^ 31 ->
  text <<"iptype">> j = ok iptype -> text <<"port">> j = ok port_ -> text <<"address">> j = ok address ->
  text <<"filter_type">> j = ok type -> text <<"proto">> j = ok proto_ ->
  match mk with Some m => has <<"address_mask">> j = true /\ text <<"address_mask">> j = ok m | None => True end ->
  exists out, Loader.rows2 (map (fun kv => [Some kv.1; Some kv.2]) (filter_kvs iptype port_ address name type group proto_ nx mk)) [] = ok out
    /\ let f := Filter.mk_api (if v6 then Prefix.AF_INET6 else Prefix.AF_INET) proto addr mask_ vid (stn 32 group) port (u8 ft) in
    filter_record inet_pton (nts vid) out
    = ok (match m_find <<"address_mask">> out with
          | Some _ => f
          | None => f <| Filter.f_mask := repeat 0 (if Filter.iptype f =? Prefix.AF_INET6 then 16%nat else 4%nat) |>
          end).
Proof.
  intros [_ Ci (a&Ca&Ea) Cm (p&Cp&->) (t&Ct&->) (pr&Cpr&->)] Hv Ei Ep Ea' Et Epr Em.
  rewrite Ci in Ei. rewrite Ca in Ea'. rewrite Cp in Ep. rewrite Ct in Et. rewrite Cpr in Epr. injection Ei as <-. injection Ea' as <-.
  injection Ep as <-. injection Et as <-. injection Epr as <-.
  destruct (filter_kvs_read (if v6 then <<"ipv6">> else <<"ipv4">>) p a name t group pr nx mk) as (out&E&(E1&E2&E3)&(E4&E5&E6)&E7).
  exists out. split; [exact E|]. cbn zeta. unfold filter_record. rewrite E1, E2, E3, E4, E5, E6, E7, (LoaderFacts.stn_nts 32) by lia.
  destruct mk as [m|].
  - destruct Em as [Em Em']. destruct (Cm Em) as (m'&Cm'&Ei). rewrite Cm' in Em'. injection Em' as <-.
    unfold at_. rewrite E7. change (default [] (Some m')) with m'. destruct v6.
    + rewrite bool_decide_false, bool_decide_true by done. cbn -[stn u8]. by rewrite Ea, Ei.
    + rewrite bool_decide_true by done. cbn -[stn u8]. by rewrite Ea, Ei.
  - destruct v6.
    + rewrite bool_decide_false, bool_decide_true by done. cbn -[stn u8]. by rewrite Ea.
    + rewrite bool_decide_true by done. cbn -[stn u8]. by rewrite Ea.
Qed.

(** The rows and the data plane, once everything has been read. *)
Lemma insertion_settled j kvs f d d1 pl e t :
  fresh (mk_api d pl e t) -> rows d1 = rows d -> Forall (fun kv => clean kv.1 /\ clean kv.2) kvs -> kvs <> [] -> Filter.id f = next d ->
  (exists out, Loader.rows2 (map (fun kv => [Some kv.1; Some kv.2]) kvs) [] = ok out /\
    filter_record inet_pton (nts (next d)) out
    = ok (match m_find <<"address_mask">> out with
          | Some _ => f
          | None => f <| Filter.f_mask := repeat 0 (if Filter.iptype f =? Prefix.AF_INET6 then 16%nat else 4%nat) |>
          end)) ->
  ends (do done <- run_sql exec (insert3 <<"filter">> (nts (next d)) kvs) ;;
        if negb done then st_ret (End (-1)) else
        do _ <- get <<"next_filter">> j ;;
        do rc <- in_plane (p_filter_insert f) ;;
        if negb (rc =? 0) then st_ret (End (-1)) else
        do _ <- commit ;;
        st_ret (Done (made dump <<"filter_id">> (nts16 (next d))))) (mk_api d1 pl e (next d))
    (fun r s' => r <> inl Undef /\ settled (mk_api d pl e t) r ((closed s') <| trans_id := t |>)).
Proof.
  intros Hf R1 HF Hne Hid (out&E1&E2). step. apply ends_insert; try done; [by apply lit_clean|apply nts_clean|]. intros d2 R2. cbn in R2. cbn.
  assert (HA : forall pl', kept (mk_api d pl e t) ((closed (mk_api d2 pl' e (next d))) <| trans_id := t |>)).
  { intros pl'. apply (after_kept kvs (mk_api d pl' e t)); [exact Hf|]. split; [done|]. split; cbn; [by rewrite R2, R1|done]. }
  do 2 step; [by split; [|split; [|apply HA]]|].
  step. unfold ends at 1, in_plane. cbn. pose proof (inserts f pl) as Hu. destruct (p_filter_insert f pl) as [[x|rc] p'] eqn:Ep; cbn in *.
  { assert (x <> Undef) by congruence. split; [congruence|]. split; [done|apply HA]. }
  destruct (Z.eqb_spec rc 0) as [->|Hrc]; cbn; [|step; by split; [|split; [|apply HA]]].
  split; [done|]. cbn. exists f, kvs, out. cbn. by rewrite R2, R1.
Qed.

Lemma filter_store_settled j v6 addr mask_ port ft proto (s : api) :
  checked j v6 addr mask_ port ft proto -> fresh s -> sound (rows (db s)) ->
  ends (filter_store exec newid_ dump j v6 addr mask_ port ft proto) s (settled s).
Proof.
  intros HC Hf Hs. destruct s as [d pl e t]. assert (Hb : 0 <= next d < 2 ^ 31) by apply Hf.
  unfold filter_store. step. apply ends_newid; [cbn; lia|]. intros d1 R1. cbn in R1. cbn. rewrite (proj2 (Z.ltb_ge _ _)) by lia.
  apply ends_with_db. cbn. do 2 step; [leaves Hf|].
  step. unfold ends at 1. cbn. step. unfold ends at 1. cbn.
  destruct (group_exist_ok (stn 32 v) d1) as (o&->); [by rewrite R1|]. cbn. destruct o as [sched|]; [|leaves Hf].
  step. unfold ends at 1. cbn. do 12 (step; try leaves Hf).
  assert (u32 (next d) = next d) as -> by (apply wrap_small; unfold in_width; lia).
  pose (insertion nx mk := insertion_settled j (filter_kvs v0 v1 v2 v3 v4 v v5 nx mk)).
  pose proof (ck_clean _ _ _ _ _ _ _ HC) as Hc.
  step. destruct (has <<"next_fitler">> j); cbn [negb]; [|do 2 step; [leaves Hf|]]; step; step; destruct (has <<"address_mask">> j) eqn:Em.
  - do 2 step; [leaves Hf|]. step. apply (insertion None (Some _)); try done; [by apply (filter_kvs_clean j)|by eapply filter_read_back].
  - step. apply (insertion None None); try done; [by apply (filter_kvs_clean j)|by eapply filter_read_back].
  - do 2 step; [leaves Hf|]. step. apply (insertion (Some _) (Some _)); try done; [apply (filter_kvs_clean j); eauto|by eapply filter_read_back].
  - step. apply (insertion (Some _) None); try done; [apply (filter_kvs_clean j); eauto|by eapply filter_read_back].
Qed.

Lemma ends_read v6 key j (s : api) Q : Q (inl Foreign) s -> Q (inr None) (s <| errno := AL_INVALID_IP |>) ->
  (forall a b, text key j = ok a -> inet_pton v6 a = Some b -> Q (inr (Some b)) s) -> ends (read_address inet_pton v6 key j) s Q.
Proof.
  intros H1 H2 H3. unfold read_address. step. step; [done|]. unfold to_. destruct (inet_pton v6 v) as [b|] eqn:E; cbn; [|done].
  step. unfold ends, st_lift. rewrite undisturbed. cbn. eauto.
Qed.

Lemma errno_kept (s : api) e : kept s (s <| errno := e |>).
Proof. by destruct s. Qed.
(** Leaving before anything has been done. *)
Ltac early := unfold ends; split; [done|]; first [apply errno_kept | reflexivity].

Lemma settled_errno (s : api) e c : (forall s', settled (s <| errno := e |>) c s' -> settled s c s').
Proof. destruct s, c as [x|[]]; cbn; auto. Qed.

Lemma fresh_errno (s : api) e : fresh s -> fresh (s <| errno := e |>).
Proof. by destruct s. Qed.

Lemma proto_settled j v6 a m port type (s : api) : fresh s -> sound (rows (db s)) ->
  (forall p int_proto, text <<"proto">> j = ok p ->
    int_proto = (if bool_decide (p = <<"tcp">>) then 6 else if bool_decide (p = <<"udp">>) then 17 else 0) ->
    checked j v6 a m port (Filter.al_filter_type type) int_proto) ->
  ends (do proto <- get <<"proto">> j ;;
        match (if bool_decide (proto = <<"tcp">>) then Some 6 else if bool_decide (proto = <<"udp">>) then Some 17
               else if bool_decide (proto = <<"all">>) then Some 0 else None) with
        | None => fail AL_PROTO_UNKNOW
        | Some int_proto =>
            do vname <- get <<"name">> j ;;
            do sql_name <- search_by_name exec <<"filter">> vname ;;
            match sql_name with
            | _ :: _ => fail AL_OBJECT_EXIST
            | [] => filter_store exec newid_ dump j v6 a m port (Filter.al_filter_type type) int_proto
            end
        end) s (settled s).
Proof.
  intros Hf Hs HC. do 2 step; [early|]. match goal with |- ends (match ?x with _ => _ end) _ _ => destruct x as [ip|] eqn:Ep end; [|early].
  assert (HC' := HC v ip ltac:(done) ltac:(repeat case_bool_decide; by simplify_eq)).
  do 2 step; [early|]. step. destruct (search_filter v0 s) as (id_&e&E); [by eapply ck_clean|done|]. unfold ends at 1. rewrite E. cbn.
  destruct id_ as [|c id_]; [|by split; [|destruct s]].
  eapply ends_conseq; [apply filter_store_settled; [exact HC'|by apply fresh_errno|by destruct s]|]. intros r s'. apply settled_errno.
Qed.

Lemma family_settled j v6 (s : api) : fresh s -> sound (rows (db s)) -> (forall k v, text k j = ok v -> clean v) ->
  text <<"iptype">> j = ok (if v6 : bool then <<"ipv6">> else <<"ipv4">>) ->
  ends (do a <- read_address inet_pton v6 <<"address">> j ;;
        match a with
        | None => st_ret (End (-1))
        | Some a =>
            do m <- (if has <<"address_mask">> j then read_address inet_pton v6 <<"address_mask">> j else st_ret (Some mask0)) ;;
            match m with
            | None => st_ret (End (-1))
            | Some m =>
                do port <- get <<"port">> j ;;
                do type <- get <<"filter_type">> j ;;
                if Filter.al_filter_type type =? -1 then fail AL_FILTER_TYPE_INVALID else
                do proto <- get <<"proto">> j ;;
                match (if bool_decide (proto = <<"tcp">>) then Some 6 else if bool_decide (proto = <<"udp">>) then Some 17
                       else if bool_decide (proto = <<"all">>) then Some 0 else None) with
                | None => fail AL_PROTO_UNKNOW
                | Some int_proto =>
                    do vname <- get <<"name">> j ;;
                    do sql_name <- search_by_name exec <<"filter">> vname ;;
                    match sql_name with
                    | _ :: _ => fail AL_OBJECT_EXIST
                    | [] => filter_store exec newid_ dump j v6 a m (stn 16 port) (Filter.al_filter_type type) int_proto
                    end
                end
            end
        end) s (settled s).
Proof.
  intros Hf Hs Hc Hi. step. apply ends_read; [early|early|]. intros at_ a Ea Ia.
  assert (HM : forall m, (has <<"address_mask">> j = true -> exists t, text <<"address_mask">> j = ok t /\ inet_pton v6 t = Some m) ->
    forall p t, text <<"port">> j = ok p -> text <<"filter_type">> j = ok t -> forall pr int_proto, text <<"proto">> j = ok pr ->
    int_proto = (if bool_decide (pr = <<"tcp">>) then 6 else if bool_decide (pr = <<"udp">>) then 17 else 0) ->
    checked j v6 a m (stn 16 p) (Filter.al_filter_type t) int_proto) by (intros; split; eauto).
  step. destruct (has <<"address_mask">> j) eqn:Em; [apply ends_read; [early|early|]; intros mt m Et It|step];
    (do 2 step; [early|]; do 2 step; [early|]; destruct (_ =? _); [early|]; apply proto_settled; [done|done|]; apply HM; eauto; done).
Qed.

Lemma filter_add_settled args msg (s : api) : GroupHandlers.plain parse_ msg -> fresh s -> sound (rows (db s)) ->
  ends (al_filter_add exec newid_ parse_ dump al_get_errmsg error_id inet_pton mask0 args msg) s (fun r s' =>
    match r with inl _ => False | inr (rc, m) => (rc = 0 /\ stored s s' m) \/ (rc = -1 /\ kept s s') end).
Proof.
  intros Hp Hf Hs. unfold al_filter_add. apply settled_answer. step. unfold ends at 1, parse, st_lift. cbn.
  destruct (parse_ msg) as [j|] eqn:Ej; cbn; [|done]. assert (Hc : forall k v, text k j = ok v -> clean v) by (intros; by eapply Hp).
  destruct (negb _); [early|]. do 2 step; [early|]. cbn zeta.
  case_bool_decide; [subst; by apply (family_settled j false)|]. case_bool_decide; [subst; by apply (family_settled j true)|]. early.
Qed.

End Atomic.

(** ** An example *)
Definition filter_json : json :=
  JObj [(<<"address">>, JStr <<"10.0.0.1">>); (<<"address_mask">>, JStr <<"255.255.255.255">>); (<<"filter_type">>, JStr <<"simple_trans">>);
        (<<"group">>, JStr <<"2">>); (<<"iptype">>, JStr <<"ipv4">>); (<<"name">>, JStr <<"front">>); (<<"next_filter">>, JStr <<"0">>);
        (<<"port">>, JStr <<"80">>); (<<"proto">>, JStr <<"tcp">>)].
Definition sample_parse (t : str) : option json := Some filter_json.
Definition sample_pton (v6 : bool) (t : str) : option (list Z) := if v6 then None else Some [10; 0; 0; 1].

#[local] Existing Instance GroupExample.returns.
#[local] Existing Instance GroupExample.example_sqlite.

(** A data plane that takes one filter. *)
#[local] Instance one_filter : Plane bool :=
  Build_Plane bool (fun _ _ _ => st_ret 0) (fun _ _ _ => st_ret 0) (fun _ taken => (ok (if taken : bool then -1 else 0), true)) (fun _ => st_ret 0)
    (fun _ _ _ _ _ _ _ => st_ret 0) (fun _ _ _ _ => st_ret 0) (fun _ _ _ _ => st_ret 0) (fun _ _ _ => st_ret 0) (fun _ _ _ => st_ret 0)
    (fun _ => st_ret 0) (fun _ _ _ _ _ _ => st_ret 0) (fun _ _ _ => st_ret 0).
Definition start (taken : bool) : @api (list row * Z) bool := mk_api (block (2, <<"web">>), 3) taken (Untouched 0) (-1).
Definition add (taken : bool) : res (Z * str) * @api (list row * Z) bool :=
  al_filter_add GroupExample.exec GroupExample.newid_ sample_parse GroupExample.dump GroupExample.al_get_errmsg (fun _ => 0) sample_pton [] [] []
    (start taken).

Example filter_is_added :
  match fst (add false) with inr (rc, _) => rc | _ => 99 end = 0 /\ length (fst (db (snd (add false)))) = 12%nat.
Proof. vm_compute. done. Qed.
Example refused_filter_is_taken_back :
  match fst (add true) with inr (rc, _) => rc | _ => 99 end = -1 /\ db (snd (add true)) = (block (2, <<"web">>), 4).
Proof. vm_compute. done. Qed.

Lemma filter_json_clean : GroupHandlers.plain sample_parse [].
Proof.
  intros j k v [= <-] E. unfold text, find, filter_json in E. cbn [m_find] in E.
  repeat (match type of E with context [keqb ?a ?b] => destruct (keqb a b) end; [injection E as <-; by apply lit_clean|]). done.
Qed.

End FilterHandlers.
