(* ===== verification/WebSocketFacade.v ===== *)
(** * Web sockets as users see them

    Models [web_socket.cpp]: handlers, sending and closing, over the frame codec and
    the table of [WebSocket], and [SocketImpl::write] with its one buffer. User
    functions are numbers; what is called and what the socket writes is a log. *)

From Stdlib Require Import ZArith Lia Bool String.
From stdpp Require Import base tactics option list.
From S2P Require Import Prelude StdMap RString WebSocket.

Open Scope Z_scope.

Module WebSocketFacade.

Inductive event :=
  | Close_handler (f : nat) | Error_handler (f : nat) (code : Z) | Callback (f : nat)
  | Write (data : list Z) | Listen | Close_socket | Warning.

(** The socket: whether it is open, the buffer of its last write until that write
    completes, and whether a write that reads the buffer is under way. *)
Record socket := mk_socket { m_is_open : bool; m_buffer : option (list Z); writing : bool }.

(** [WebSocketImpl]; [m_sockets] is the manager's table, of which the keys matter,
    and [owned] tells whether a [shared_ptr] holds the object. *)
Record t := mk {
  m_key : str; m_socket : option socket; m_manager : bool; m_sockets : smap unit; owned : bool;
  m_error_handler_invoked : bool;
  m_open_handler : option nat; m_close_handler : option nat; m_error_handler : option nat; m_message_handler : option nat;
  log : list event }.

Definition make : t := mk [] None false [] true false None None None None [].

Definition emit (e : event) : st t unit := st_modify (fun w => w <| log := log w ++ [e] |>).

(** [shared_from_this] throws when no [shared_ptr] holds the object. *)
Definition shared_from_this : st t unit := do w <- st_get ;; if owned w then st_ret tt else st_throw (RuntimeError <<"bad_weak_ptr">>).

Definition is_open (w : t) : bool := match m_socket w with Some so => m_is_open so | None => false end.
Definition is_closed (w : t) : bool := match m_socket w with Some so => negb (m_is_open so) | None => false end.

(** [m_manager->destroy( socket )] *)
Definition destroy : st t unit := fun w =>
  if m_manager w then (ok tt, w <| m_sockets := Manager.destroy (fun _ : unit => m_key w) (Some tt) (m_sockets w) |>) else (err Undef, w).

(** [m_socket->close( )], which ends the write under way. *)
Definition close_socket : st t unit :=
  do w <- st_get ;;
  match m_socket w with
  | None => st_throw Undef
  | Some so => do _ <- emit Close_socket ;; st_modify (fun w => w <| m_socket := Some (so <| m_is_open := false |> <| writing := false |>) |>)
  end.

(** The handler [set_close_handler] wraps around the user's. *)
Definition call_close_handler (f : nat) : st t unit := do _ <- emit (Close_handler f) ;; destroy.

Definition close : st t unit :=
  do _ <- shared_from_this ;;
  do w <- st_get ;;
  do _ <- (match m_close_handler w with Some f => call_close_handler f | None => st_ret tt end) ;;
  do _ <- destroy ;;
  close_socket.

(** [~WebSocket]: no [shared_ptr] holds the object any more. *)
Definition destruct_ : st t unit := fun w =>
  match close (w <| owned := false |>) with
  | (inr _, w) => (ok tt, w)
  | (inl Undef, w) => (err Undef, w)
  | (inl _, w) => emit Warning w
  end.

(** The handler [set_error_handler] wraps around the user's: nothing sets the flag
    it looks at. *)
Definition call_error_handler (code : Z) : st t unit :=
  do w <- st_get ;;
  match m_error_handler w with
  | None => st_ret tt
  | Some f => if m_error_handler_invoked w then st_ret tt else emit (Error_handler f code)
  end.

(** [SocketImpl::write]: the new data take the place of the buffer, from under a
    write that still reads it; a socket that is closed writes nothing and reports
    nothing. *)
Definition write (data : list Z) : st t unit :=
  do w <- st_get ;;
  match m_socket w with
  | None => st_throw Undef
  | Some so =>
      if writing so then st_throw Undef
      else if m_is_open so then
        do _ <- st_modify (fun w => w <| m_socket := Some (mk_socket true (Some data) true) |>) ;; emit (Write data)
      else st_modify (fun w => w <| m_socket := Some (so <| m_buffer := Some data |>) |>)
  end.

(** [send] of a message hands its octets to the socket. *)
Definition send (m : WebSocketMessage.t) : st t unit :=
  do w <- st_get ;;
  if negb (m_manager w) then st_throw Undef else write (Codec.compose m).

(** The write completes, with a code that is zero on success: the socket's part,
    which keeps an aborted operation to itself, and the lambda of [send]. *)
Definition written (code : Z) : st t unit :=
  st_modify (fun w => w <| m_socket := (fun so => mk_socket (m_is_open so && (code =? 0)) None false) <$> m_socket w |>).
Definition sent (callback : option nat) (code : Z) (aborted : bool) : st t unit :=
  do _ <- written code ;;
  if aborted then st_ret tt
  else if negb (code =? 0) then
    do w <- st_get ;;
    match m_error_handler w with None => st_ret tt | Some _ => do _ <- shared_from_this ;; call_error_handler code end
  else match callback with None => st_ret tt | Some f => do _ <- shared_from_this ;; emit (Callback f) end.

Definition send_bytes (body : list Z) : st t unit := send (WebSocketMessage.make WebSocketMessage.BINARY_FRAME body 0).
Definition send_text (body : str) : st t unit := send (WebSocketMessage.make WebSocketMessage.TEXT_FRAME (RString.to_bytes body) 0).
Definition send_opcode (opcode : Z) : st t unit := send (WebSocketMessage.make opcode [] 0).

Definition set_key (v : str) (w : t) : t := w <| m_key := v |>.
Definition set_socket (v : option socket) (w : t) : t := w <| m_socket := v |>.
Definition set_open_handler (f : option nat) (w : t) : t := w <| m_open_handler := f |>.
Definition set_close_handler (f : option nat) (w : t) : t := match f with None => w | Some _ => w <| m_close_handler := f |> end.
Definition set_error_handler (f : option nat) (w : t) : t := match f with None => w | Some _ => w <| m_error_handler := f |> end.

(** A handler for messages starts the reader. *)
Definition set_message_handler (f : option nat) : st t unit :=
  match f with
  | None => st_ret tt
  | Some _ =>
      do _ <- st_modify (fun w => w <| m_message_handler := f |>) ;;
      do _ <- shared_from_this ;;
      do w <- st_get ;;
      match m_socket w with None => st_throw Undef | Some _ => emit Listen end
  end.
End WebSocketFacade.

Module FacadeFacts.
Import WebSocketFacade ComposeFacts.

(** The octets the socket was given to write. *)
Fixpoint octets (l : list event) : list Z :=
  match l with [] => [] | Write d :: l => d ++ octets l | _ :: l => octets l end.

Lemma octets_app l l' : octets (l ++ l') = octets l ++ octets l'.
Proof. induction l as [|[] l IH]; cbn [app octets]; try done. by rewrite IH, app_assoc. Qed.

(** What a user sends: text or bytes. *)
Definition item := (str + list Z)%type.
Definition send_item (i : item) : st t unit := match i with inl s => send_text s | inr b => send_bytes b end.
Definition as_message (i : item) : Z * list Z :=
  match i with inl s => (WebSocketMessage.TEXT_FRAME, RString.to_bytes s) | inr b => (WebSocketMessage.BINARY_FRAME, b) end.

(** One after the other, each when the write before it has succeeded. *)
Fixpoint send_all (l : list item) : st t unit :=
  match l with [] => st_ret tt | i :: l => do _ <- send_item i ;; do _ <- sent None 0 false ;; send_all l end.

(** Ready: registered with a manager and with an open socket that writes nothing. *)
Definition ready (w : t) : Prop := m_manager w = true /\ exists b, m_socket w = Some (mk_socket true b false).

Lemma send_item_ok w i : ready w -> exists w', (do _ <- send_item i ;; sent None 0 false) w = (ok tt, w') /\ ready w' /\
  log w' = log w ++ [Write (let '(op, data) := as_message i in Codec.compose (WebSocketMessage.make op data 0))].
Proof.
  intros [H1 [b H2]]. destruct w. cbn in H1, H2. subst. destruct i; cbn; eexists; (split; [done|]); (split; [by split; [|eexists]|done]).
Qed.

Lemma send_items_ok l : forall w, ready w -> exists w', send_all l w = (ok tt, w') /\ ready w' /\
  octets (log w') = octets (log w) ++ concat (map (fun '(op, data) => Codec.compose (WebSocketMessage.make op data 0)) (map as_message l)).
Proof.
  induction l as [|i l IH]; intros w H; cbn [send_all map concat]; [exists w; by rewrite app_nil_r|].
  destruct (send_item_ok w i H) as (w1&E1&H1&L1). destruct (IH w1 H1) as (w2&E2&H2&L2). exists w2.
  assert (send_all (i :: l) w = (ok tt, w2)) as E.
  { cbn [send_all]. rewrite <- E2. revert E1. unfold st_bind. destruct (send_item i w) as [[e|[]] w0]; [done|].
    destruct (sent None 0 false w0) as [[e|[]] w3]; [done|]. by intros [= <-]. }
  split_and!; [exact E|done|]. rewrite L2, L1, octets_app. cbn [octets]. destruct (as_message i) as [op data]. by rewrite app_nil_r, app_assoc.
Qed.

Section Properties.

(** C7. Text and bytes of fewer than 65535 octets, sent through a web socket with an
    open socket, each when the write before it has succeeded, reach the peer: its
    reader delivers exactly these messages, in order, with the kind of each and
    its contents, and the web socket is ready again. *)
Theorem sent_items_arrive (w : t) (l : list item) :
  ready w -> Forall (fun i => Z.of_nat (length (as_message i).2) < 65535) l ->
  exists w' out, send_all l w = (ok tt, w') /\ ready w' /\ octets (log w') = octets (log w) ++ out /\
    Reader.run (3 * length l) Reader.Listening out
    = ok (map (fun i => Some (WebSocketMessage.make (as_message i).1 (as_message i).2 0)) l, Reader.Listening, []).
Proof.
  intros Hw Hl. destruct (send_items_ok l w Hw) as (w'&E&Hw'&L). exists w'. eexists. split_and!; [exact E|exact Hw'|exact L|].
  pose proof (composed_messages_delivered (map as_message l) []) as H. rewrite app_nil_r, length_map, map_map in H.
  rewrite map_map. rewrite map_map in H. rewrite H.
  - do 2 f_equal. f_equal. apply map_ext. intros i. by destruct (as_message i).
  - apply Forall_map. eapply Forall_impl; [exact Hl|]. intros [s|b] Hi; (split; [done|]); (split; [exact Hi|done]).
Qed.
End Properties.

(** A message sent while the one before it is still being written replaces the buffer
    that the socket reads. *)
Lemma early_send_is_undefined w i j : ready w -> fst ((do _ <- send_item i ;; send_item j) w) = err Undef.
Proof. intros [H1 [b H2]]. destruct w. cbn in H1, H2. subst. by destruct i, j. Qed.

(** A message sent on a closed socket is lost, and nothing is reported. *)
Lemma closed_send_is_lost w i so : m_manager w = true -> m_socket w = Some so -> m_is_open so = false -> writing so = false ->
  exists w', send_item i w = (ok tt, w') /\ log w' = log w.
Proof. intros H1 H2 H3 H4. destruct w, so. cbn in *. subst. by destruct i; eexists. Qed.

(** Closing calls the handler, unregisters the web socket and closes its socket. *)
Lemma close_closes w : ready w -> owned w = true -> m_sorted str_ltb (m_sockets w) ->
  exists w', close w = (ok tt, w') /\ is_closed w' = true /\ m_find (m_key w) (m_sockets w') = None /\
    log w' = log w ++ (match m_close_handler w with Some f => [Close_handler f] | None => [] end) ++ [Close_socket].
Proof.
  intros [H1 [b H2]] Ho Hs. destruct w as [k so ma ss ow inv oh ch eh mh lg]. cbn in *. subst.
  unfold close. destruct ch as [f|]; cbn; eexists; (split; [reflexivity|]); cbn; split_and!; try done.
  - apply m_find_erase_eq.
  - by rewrite <-app_assoc.
  - apply m_find_erase_eq.
Qed.

(** The destructor never closes the socket: there is no [shared_ptr] left for
    [shared_from_this]. *)
Lemma destructor_leaves_open w : exists w', destruct_ w = (ok tt, w') /\ m_socket w' = m_socket w /\ m_sockets w' = m_sockets w /\
  log w' = log w ++ [Warning].
Proof. destruct w. unfold destruct_, close, shared_from_this. cbn. by eexists. Qed.

(** Each failed write calls the error handler, however often it was called before. *)
Lemma error_handler_again w f code : m_error_handler w = Some f -> m_error_handler_invoked w = false -> owned w = true -> code <> 0 ->
  exists w', (do _ <- sent None code false ;; sent None code false) w = (ok tt, w') /\ log w' = log w ++ [Error_handler f code; Error_handler f code].
Proof.
  intros H1 H2 H3 Hc. destruct w. cbn in *. subst. unfold sent, written. rewrite (proj2 (Z.eqb_neq _ _) Hc). cbn. eexists. split; [reflexivity|].
  cbn. by rewrite <-app_assoc.
Qed.

Definition demo_socket : t := make <| m_manager := true |> <| m_socket := Some (mk_socket true None false) |>.
Lemma sent_items_arrive_witness :
  exists w' out, send_all [inl <<"hi">>; inr [1; 2]] demo_socket = (ok tt, w') /\ ready w' /\ octets (log w') = octets (log demo_socket) ++ out /\
    Reader.run (3 * 2) Reader.Listening out
    = ok ([Some (WebSocketMessage.make 1 [104; 105] 0); Some (WebSocketMessage.make 2 [1; 2] 0)], Reader.Listening, []).
Proof.
  apply (sent_items_arrive demo_socket [inl <<"hi">>; inr [1; 2]]).
  - split; [reflexivity|by eexists].
  - repeat constructor.
Defined.
End FacadeFacts.
